(* ===== verification/_CoqProject ===== *)
-Q . S2P
Prelude.v
GoStd.v
Permissions.v
Snowflake.v
Chat.v
Rows.v
Tx.v
Proc.v
TxMonad.v
Queries.v
Resolve.v
StoreInv.v
Authority.v
ResolveMany.v
GuildAuth.v
GuildCommon.v
RoleSvc.v
OverwriteSvc.v
MemberSvc.v
GuildSvc.v
ChannelSvc.v
Preserve.v
GuildService.v
Layers.v
Escalation.v
Hierarchy.v
Limits.v
Utf8.v
Termsafe.v
InviteCode.v
InviteSvc.v
AuthTokens.v
MessageSvc.v
AuthStore.v
AuthBase.v
AuthSessions.v
AuthLogin.v
DeviceFlow.v
AuthDeeds.v
AuthServe.v
AuthRules.v
AuthSafe.v
AuthServer.v
AuthEnding.v
AuthOnce.v
AuthGrounds.v
AuthAccess.v
AuthRuns.v
TagSvc.v
ReportSvc.v
ChatInv.v
Conversations.v
Invites.v
InviteAnswers.v
Backlog.v
Moderation.v
AuditLog.v
PrivateTags.v
EventBus.v
GatewayProto.v
GatewaySession.v
GatewayStream.v
GatewayServer.v
GatewaySteps.v
GatewayInv.v
GatewayRuns.v
Gateway.v
GatewayTokens.v
GatewayAudience.v
GatewayVersion.v
VoiceSlot.v
Sfu.v
VoiceRoom.v
VoiceSelect.v
VoiceEviction.v
VoiceRuns.v
DaemonState.v
UpdateInstall.v
UpdateSafe.v
UpdateRuns.v
