(* ===== verification/Prelude.v ===== *)
(** * Norite: a verification library for the backend of a chat system

    Norite is a Go program: guilds with channels, roles and permission overwrites kept in
    PostgreSQL, an HTTP service that changes them, and a websocket gateway that carries the
    resulting events to the clients. The library models the guild core (who may do what, and what
    each operation does to the tables), the conversations kept on top of it (messages, tags and
    reports), the accounts (sessions, passwords, second factors, device codes and tokens) and the
    gateway (who is sent which event, when and in what order), and the rooms of the voice server
    (who is let in, who is forwarded to whom), and what the daemon on the other side of
    the gateway keeps of it, shows on a terminal, and does to update itself. All paths below are under src/.

    ** How the program's parts interact, and where they are modelled

    A request enters a service (backend/internal/guilds, messages, tags, reports). It opens a transaction, asks
    guildauth whether the account may, which reads the rows of roles, members and overwrites and
    resolves them (backend/internal/roles), runs its statements (backend/internal/db), writes an
    audit entry and queues events behind the commit (backend/internal/dispatch). The committed
    events cross the bus (platform/events) to the gateway (backend/internal/gateway), which finds the sessions an event could
    be for, asks guildauth.Audience which of their accounts may have it, numbers it into each
    session's stream and hands it to the connection attached there. The credential a request or a
    connection arrives with is issued and judged by the account service (backend/internal/auth),
    which runs most of its statements outside any transaction.

    - Prelude: scopes, tactics, hint databases, generic lemmas on lists, maps and bits.
      GoStd: Go's integer conversions and strconv.
    - Permissions (roles/permissions.go), Snowflake (platform/snowflake): the leaf libraries.
    - Rows (db/models.go, guilds/model.go, guilds/auditdiff.go, dispatch/dispatch.go): rows, wire
      objects, audit diffs, events.
    - Tx (platform/database/database.go): tables, the generator, the after-commit hooks and what
      they publish, threaded through a state and error monad, with the weakest-precondition rules
      its clients are proved with. TxMonad: the guild services' tables and their instance [M].
    - Queries (db/*.sql.go): one function per statement, on the tables.
    - Resolve, ResolveMany (roles/resolve.go, resolve_many.go); Authority, the specification of
      the authority layers of ADR 0008, which names no row order; GuildAuth (guildauth/).
    - StoreInv: the invariant of the tables, what the schema enforces and what the service adds.
    - GuildCommon, GuildSvc, RoleSvc, MemberSvc, OverwriteSvc, ChannelSvc: one Definition per
      operation of guilds.Service, each with the lemma that says what it answers and does.
    - GuildService: the operations as one type of requests, with what each committed request did
      as a relation. Preserve, Layers, Escalation, Hierarchy and Limits hold the
      properties over all requests and over all sequences of them.
    - InviteCode (auth/device.go, auth/invites.go): drawing a code and reading a typed one.
      InviteSvc (guilds/invite.go, db/invites.sql.go): the statements and operations of a guild's
      invites. Invites joins them with the requests of GuildService and the expiry sweep into
      histories; InviteAnswers holds what an answer tells and what joining gives.
    - Chat (db/models.go, auth/model.go): the tables of conversations and their cascades, and the
      credential a request arrives with. Utf8: Go's runes. MessageSvc (messages/), TagSvc (tags/)
      and ReportSvc (reports/): their statements and operations. ChatInv is their part of the
      invariant and Conversations their requests, which Invites takes into its histories. Backlog,
      Moderation and PrivateTags hold the properties.
    - Proc: programs of atoms that interleave, and the rely-guarantee rules they are proved with.
      AuthTokens (auth/tokens.go): opaque tokens. AuthStore (db/sessions.sql.go, two_factor.sql.go,
      device.sql.go and the rest): the tables of accounts and their statements. AuthBase (jwt.go,
      twofactorchallenge.go, devicetoken.go, password.go): signed tokens, the libraries.
      AuthSessions (sessions.go, revoke.go, service.go, twofactor.go), AuthLogin
      (service.go, passwordreset.go, verification.go, oauthservice.go), DeviceFlow (device.go,
      devicepage.go, apitokens.go, sweeper.go): the operations. AuthServe: the requests
      and what warrants a deed. AuthDeeds: the deeds and what they keep. AuthRules, AuthSafe and
      AuthServer prove that the operations do warranted deeds only, and makes a history of
      it, and AuthEnding, AuthOnce, AuthGrounds and AuthAccess what follows. AuthRuns runs
      examples.
    - GatewayProto (gatewayproto/): op and close codes, versions. GatewaySession
      (gateway/session.go, index.go): a session's critical sections and the index.
      GatewayServer (gateway/gateway.go, conn.go, fanout.go): the goroutines and the step of the
      system; the audience check is the class [AudienceResolver].
    - EventBus (platform/events/inproc.go): what carries events from a commit to the gateway, in
      any order its goroutines take.
    - GatewayStream: what the critical sections do to a stream and to the index. GatewaySteps,
      GatewayInv, GatewayRuns: the same through every step, up to
      every state a run reaches.
    - Gateway, GatewayTokens, GatewayVersion: what the gateway promises, and (at the end of
      GatewayTokens) runs in which it breaks a promise.
      GatewayAudience instantiates the class with guildauth.Audience over the tables, which joins
      the two halves of the library.
    - VoiceSlot (backend/internal/voice/slot.go, rate/rate.go): one receiving slot's rewriting of
      packets, and the rate meter. Sfu (sfu.go, room.go, limits.go, conn.go, datachannel.go): the
      voice server's critical sections and a room's selection. VoiceRoom: the sections as steps,
      and the invariant. VoiceSelect: choosing, placing, and a selection as a whole.
      VoiceEviction: evictions and the closes they owe. VoiceRuns: what every run of the server
      guarantees, and concrete runs.
    - Termsafe (daemon/termsafe): foreign text made safe for a terminal, on the bytes of Go's
      strings. DaemonState (daemon/internal/state/state.go): the account, the guild names and the
      bounded message buffers the daemon folds the gateway's events into.
    - UpdateInstall (daemon/internal/updater/install.go, and Finish and AtStart of updater.go): the
      installer, as programs on a file system whose operations may fail or be the last before the
      power goes. UpdateSafe: rules for such programs, what each operation does, the invariant.
      UpdateRuns: the choice of a release (choose.go), the lives of a machine, concrete runs.

    ** How state and operations correspond to the code

    A w-bit integer is a Z with its wrap-around written out; a permission set is a Z below 2^64.
    A table is a gmap from its primary key to its rows, and a statement is a function on the
    tables that keeps the order the statement asks for and no other. Columns no modelled code
    touches are left out (Rows lists them). A service operation is a Definition in [M] which
    reads like its Go body: the guards in the code's order, early returns as errors, every
    statement, audit entry and event. Any statement may fail: [faults] in the state says which,
    and every theorem about requests holds for all of it unless it says otherwise. Transactions
    run one after another; the locks the code takes to order them are therefore without effect.

    An account operation is not one transaction, so its model is a program ([Proc]): a statement
    or a transaction is one atom, which sees the clock and the random bytes of its moment, and any
    other call's atoms may run between two of its own. A [Pool] holds the calls received, what is
    left of each and the answers given; a [Move] receives a call, runs its next atom, drops it (a
    cancelled context) or lets the database's clock tick. A history is the list of deeds ([Deed])
    the calls have done: [explains] says that the deeds, done one after another, make the tables
    out of those the history began with, each where its condition held and warranted ([may]) by
    its call's request and earlier deeds. The same text of a service is thus proved once, against
    what any other call may do meanwhile (the rules of Proc), and what follows from a history
    needs no further look at the services.

    The gateway is concurrent, and is modelled so. A goroutine is the list of the instructions it
    has left ([Instr]), an instruction is one critical section of the code, and [step] runs one
    instruction of one goroutine, so that a run ([run], a list of [Label]s) is any interleaving
    the locks allow. What the code asks of the world outside (authentication, the database, the
    clock, timers, the network) arrives with the label and is unconstrained. Maps of sessions,
    connections and lanes are gmaps from their identities, which is how a shared object is kept
    shared: a session held by a connection, a timer and the index is one entry.

    The voice server is modelled as its critical sections too ([VoiceStep], [voice_do]): one
    Definition per section, which runs whole, in any order. Rooms, connections, sources and slots
    are cells of heaps and the tables hold pointers into them, as in the code, so a room dropped
    from the table lives on for the connections that still hold it. A closing is two sections, as
    in the code: the one that marks the connection closed, and [forget]. A [VoiceWorld] adds the
    connections handed to a closing that has not happened yet.

    An operation on files is an atom that takes its fate from a list: it goes through, it fails, or
    the machine stops there, and an interrupted copy or removal leaves a part behind. A program
    ends with an answer, an error or a machine that is off ([Res]); [wp] has a postcondition for
    each. An operation that went through is on disk: what a file system reorders when power is lost
    is not modelled, and [write_record] stands for atomicfile.Write with its directory flushed.

    ** What the theorems show

    - Authority: Resolve and ResolveMany compute ADR 0008's layers ([Resolve_refines_layers],
      [ResolveMany_is_Resolve]); authorization answers exactly the errors it documents, a hidden
      channel answers as a missing one does, and an event reaches exactly the accounts that may
      have it ([Authorize_answers], [hidden_channel_as_missing], [Allowed_reaches]).
    - The guild service: each request is atomic and does what its specification says
      ([request_atomic]), keeps the tables' invariant, gives nobody a permission its sender lacks
      ([no_escalation], [no_self_promotion]), touches no role or member above its sender, leaves
      an audit entry, announces every change of a permission, and stays within the ceilings.
    - Invites: the invariant of tables and
      invites and the ceilings hold over every history ([history_preserves_invariant],
      [history_within_ceilings]); an invite lets in at most as many as it has uses
      ([invite_admits_at_most]); every dead code answers alike, the listing is exact, a newcomer
      has exactly the bits of @everyone, and a drawn code types back ([dead_codes_alike],
      [ListInvites_visible], [newcomer_as_everyone], [invite_code_roundtrip]).
    - AuditLog (guilds/auditlog.go): reading the log hides nothing, and its vocabulary knows every
      action any request writes ([audit_log_complete]).
    - Conversations: every request is atomic and touches nothing else ([action_atomic]); scrolling
      back shows every message once ([ListMessages_pages]); only the author changes a message's
      words and no version is lost ([words_are_the_authors], [edits_lose_nothing]); a guild that
      records keeps exactly what was said ([recording_exact]); a report closes once and for good
      ([report_course]); acting on what is somebody else's leaves an entry ([moderation_recorded]);
      and no answer depends on the private tags of another account ([private_tags_unseen]).
    - Accounts: the server refines the machine of its deeds ([accounts_refine]), and so, however
      calls interleave: every session has its grounds, a password with no factor owed, a factor
      proved, a provider's code or a device the account approved ([session_grounds],
      [device_code_once]); a refresh token is good once and presented again ends its family
      ([refresh_single_use], [replay_ends_family]); signing out, resetting a password and disabling
      the factor end for good what they say they end, as long as no two transactions overlap
      ([sign_out_final], [account_ended]; [refresh_outlives_sign_out] is what an overlap can do at
      READ COMMITTED); codes of
      the second factor are good once ([factor_codes_once]); an API token speaks for whoever minted
      it, until revoked ([api_token_authentic]); and a signed token reads back as what it was
      issued as and as nothing else
      ([token_roundtrip], [signed_tokens_apart]).
    - The event bus: each subscription is offered what was published while it was there, each
      publisher's in order; what was taken in is handled in order and what was dropped is counted;
      nobody waits for a slow handler; an ended one stays silent ([bus_contract]).
    - The gateway: a connection that never overran its queue carries its session's frames in order
      and without a gap, also across a RESUME; a guild's events arrive in the order they were published, each at most
      once; every event was judged by the audience resolver, and with guildauth behind it only
      accounts that could view the channel have it; streams need tokens; the index is exact, the
      buffers are bounded, an ended session stays silent, and newSession returns the server lock.
    - The leaves: permissions survive storage, the generator issues increasing identifiers,
      versions print and parse back and the handshake accepts exactly the strict rule.

    - Voice: the tables agree and every limit holds ([voice_bounds]); a selection never panics,
      forwards to a receiver only what it may be sent and moves no source that keeps its slot
      ([selection_forwards_the_allowed]), and made again over its result changes nothing
      ([selection_settles]); an eviction holds against every provision issued before it
      ([evicted_stay_out]); and what a slot sends is one stream, whoever fills it,
      for packets that arrive in reach ([slot_one_stream]; [jump_repeats_numbers] is one that does
      not).
    - The daemon: what it prints acts on no terminal and is the printable text that came
      ([text_safe]); the messages it shows of a channel are the end of what was said there, with
      no hole, but for replays of what was evicted ([state_shows_the_end],
      [replay_out_of_order]); and its state is bounded whatever the instance sends
      ([state_bounded]).
    - Updates: along any orderly history of installations, starts, failures and losses of power
      the programs are whole, of one release unless the record says otherwise, and the next start
      left alone makes them so ([update_whole]); a release that does not stay up is undone and not
      offered again ([bad_release_undone]); and the release chosen is the best the rules allow
      ([Choose_best]). Orderly leaves out what [half_rollback], [lost_worker] and
      [mixture_kept] run, and installing a version over itself.


    GatewayTokens shows by concrete runs four things the comments of the gateway exclude and its
    locks allow: the ceiling on an account's sessions can be passed, an expiry can strand a
    connection that just resumed, so can a RESUME from too far behind, and a full queue loses a
    frame the session has already numbered as sent.

    ** Fuel and bounds

    Every loop over rows is a structural recursion on the list of rows. The generator's spin wait
    consumes the list of the clock's readings and is [None] when they run out; [Next_returns]
    says which readings are enough. Drawing a code consumes the random source's reads in the same
    way, and [invite_code_roundtrip] says how many usable bytes are enough; inserting under a drawn
    code has the code's three tries. Decimal formatting has fuel for every digit of the number
    (GoStd). The sweep of expired sessions counts its rounds down, and fails when none is left,
    which a theorem about histories allows for as for any failure. Evicting messages from
    the daemon's buffers counts [budget_rounds] down, one for every channel and every message of the
    channel written to, and being out of rounds is a panic, of which [state_bounded] says there is none. The gateway needs no fuel: each step runs one instruction, and a run is a finite
    list of steps of any length.

    ** What is not modelled, and why

    JSON encoding, HTTP routing and status codes, socket input and output, mail, configuration
    and logging are input and output or glue. PostgreSQL's concurrency is not modelled beyond
    atomic transactions run one after another: two at once that each miss what the other has not
    committed are not, so a ceiling that a transaction counts before it inserts, and a sign-out
    against a refresh, hold in the model where an overlap could pass them. Of the gateway: the shutdown, the encoding of control frames, recovery
    from panics, payloads it cannot decode, and a server built without a resolver. Of the
    accounts: the JWT, one-time-password, argon2id and AES-GCM libraries and Unicode case folding
    are parameters ([Outside], [Digest], [Citext]), and of them a theorem assumes no more than
    [JwtLaws], that a signed token parses while it lives; the time a request takes; the round trip
    with a provider and its identities, registration, instance invites and the operator's
    commands. Of voice: WebRTC itself, the offer, the
    level a source is judged by, which arrives with the step, and what is sent on the data
    channel; what a closed connection may still be sent until it is forgotten. Rate
    limiting runs inside Redis; TURN is built on a third-party stack; the contract types are
    generated. Of the guild
    service: the HTTP handlers.

    ** Plan

    Next, in order: registration, instance invites and the OAuth round trip; the
    gateway's shutdown; the voice server's offers; the daemon's token bucket and backoff, and the
    updater's schedule. *)
From Stdlib Require Export Ascii.
From stdpp Require Export prelude gmap strings list sorting fin_maps.
From Stdlib Require Export ZArith Lia.

#[global] Open Scope Z_scope.

(** ** Scopes and hint databases of the development *)

Declare Scope norite_scope.
Delimit Scope norite_scope with norite.
#[global] Open Scope norite_scope.

(** [bits] rewrites the bit tests of the bitfield operations; [norite] holds the facts that
    close the common side conditions. *)
Create HintDb norite discriminated.
Create Rewrite HintDb bits.

#[export] Hint Rewrite Z.land_spec Z.lor_spec Z.ldiff_spec Z.lxor_spec Z.bits_0 : bits.

(** ** Tactics *)

(** Splits the booleans of the context into propositions. *)
Ltac bool_hyps :=
  repeat match goal with
  | H : (_ && _)%bool = true |- _ => apply andb_true_iff in H as [? ?]
  | H : (_ || _)%bool = false |- _ => apply orb_false_iff in H as [? ?]
  | H : negb _ = true |- _ => apply negb_true_iff in H
  | H : negb _ = false |- _ => apply negb_false_iff in H
  | H : (_ =? _) = true |- _ => apply Z.eqb_eq in H
  | H : (_ =? _) = false |- _ => apply Z.eqb_neq in H
  | H : (_ <? _) = true |- _ => apply Z.ltb_lt in H
  | H : (_ <? _) = false |- _ => apply Z.ltb_ge in H
  | H : (_ <=? _) = true |- _ => apply Z.leb_le in H
  | H : (_ <=? _) = false |- _ => apply Z.leb_gt in H
  | H : bool_decide _ = true |- _ => apply bool_decide_eq_true in H
  | H : bool_decide _ = false |- _ => apply bool_decide_eq_false in H
  end.

(** Case analysis on the innermost [match] or [if] of the goal, the equation kept. *)
Ltac case_goal :=
  match goal with
  | |- context [match ?x with _ => _ end] =>
      lazymatch x with
      | context [match _ with _ => _ end] => fail
      | _ => let E := fresh "E" in destruct x eqn:E
      end
  end.

(** The same on a hypothesis. *)
Ltac case_hyp H :=
  match type of H with
  | context [match ?x with _ => _ end] =>
      lazymatch x with
      | context [match _ with _ => _ end] => fail
      | _ => let E := fresh "E" in destruct x eqn:E
      end
  end.

(** Decides a closed proposition by evaluation. *)
Ltac by_decide :=
  lazymatch goal with |- ?P => apply (bool_decide_unpack P); vm_compute; exact I end.

(** ** Integers *)

Lemma testbit_high (p i n : Z) : 0 <= p < 2 ^ n -> 0 <= n <= i -> Z.testbit p i = false.
Proof.
  intros Hp Hn. rewrite <- (Z.mod_small p (2 ^ n)) by lia.
  apply Z.mod_pow2_bits_high; lia.
Qed.

(** A word below [2 ^ n] is one whose bits stop at [n]. *)
Lemma below_pow2_iff (p n : Z) :
  0 <= n -> 0 <= p -> (p < 2 ^ n <-> forall i, n <= i -> Z.testbit p i = false).
Proof.
  intros Hn Hp. split; [intros; apply (testbit_high p i n); lia|].
  intros H. destruct (Z.eq_dec p 0) as [->|]; [apply Z.pow_pos_nonneg; lia|].
  apply Z.log2_lt_pow2; [lia|].
  destruct (Z.lt_ge_cases (Z.log2 p) n) as [|Hge]; [done|].
  specialize (H _ Hge). rewrite Z.bit_log2 in H by lia. done.
Qed.

Lemma lor_below (a b n : Z) : 0 <= n -> 0 <= a < 2 ^ n -> 0 <= b < 2 ^ n -> 0 <= Z.lor a b < 2 ^ n.
Proof.
  intros Hn Ha Hb. assert (0 <= Z.lor a b) by (apply Z.lor_nonneg; lia). split; [done|].
  apply below_pow2_iff; [lia..|]. intros i Hi. rewrite Z.lor_spec.
  by rewrite (testbit_high a i n), (testbit_high b i n) by lia.
Qed.

Lemma ldiff_below (a b n : Z) : 0 <= n -> 0 <= a < 2 ^ n -> 0 <= Z.ldiff a b < 2 ^ n.
Proof.
  intros Hn Ha. assert (0 <= Z.ldiff a b) by (apply Z.ldiff_nonneg; lia). split; [done|].
  apply below_pow2_iff; [lia..|]. intros i Hi. rewrite Z.ldiff_spec.
  by rewrite (testbit_high a i n) by lia.
Qed.

#[export] Hint Resolve lor_below ldiff_below : norite.

(** ** Lists and options *)

(** A fold that unions bits is, bit by bit, an existence over the list. *)
Lemma foldl_lor_testbit {A} (f : A -> Z) (l : list A) (z i : Z) :
  Z.testbit (foldl (fun acc x => Z.lor acc (f x)) z l) i =
  (Z.testbit z i || existsb (fun x => Z.testbit (f x) i) l)%bool.
Proof.
  revert z. induction l as [|x l IH]; intros z; simpl; [by rewrite orb_false_r|].
  rewrite IH, Z.lor_spec, orb_assoc. done.
Qed.

Lemma existsb_Permutation {A} (f : A -> bool) (l l' : list A) :
  l ≡ₚ l' -> existsb f l = existsb f l'.
Proof.
  intros Hp. apply eq_true_iff_eq. rewrite !existsb_exists.
  split; intros (x & Hx & Hf); exists x; split; try done.
  - by rewrite <- list_elem_of_In, <- Hp, list_elem_of_In.
  - by rewrite <- list_elem_of_In, Hp, list_elem_of_In.
Qed.

Lemma existsb_false {A} (f : A -> bool) (l : list A) :
  existsb f l = false <-> forall x, x ∈ l -> f x = false.
Proof.
  split.
  - intros H x Hx. destruct (f x) eqn:E; [|done].
    assert (existsb f l = true) as H'; [|congruence].
    apply existsb_exists. exists x. by rewrite <- list_elem_of_In.
  - intros H. destruct (existsb f l) eqn:E; [|done].
    apply existsb_exists in E as (x & Hx%list_elem_of_In & Hf). by rewrite H in Hf.
Qed.

(** A shifted word or-ed with a smaller one is their sum: how fields are packed. *)
Lemma lor_shiftl_add (a b n : Z) : 0 <= n -> 0 <= b < 2 ^ n -> Z.lor (Z.shiftl a n) b = a * 2 ^ n + b.
Proof.
  intros Hn Hb. assert (Z.land (Z.shiftl a n) b = 0) as Hd.
  { apply Z.bits_inj'. intros i Hi. rewrite Z.land_spec, Z.bits_0.
    destruct (Z.lt_ge_cases i n).
    - by rewrite Z.shiftl_spec_low.
    - rewrite (testbit_high b i n) by lia. apply andb_false_r. }
  rewrite <- Z.lxor_lor, <- Z.add_nocarry_lxor, Z.shiftl_mul_pow2 by done. done.
Qed.

(** The low field comes back by masking, the high one by shifting. *)
Lemma land_ones_packed (a b n : Z) :
  0 <= n -> 0 <= b < 2 ^ n -> Z.land (a * 2 ^ n + b) (Z.ones n) = b.
Proof.
  intros Hn Hb. rewrite Z.land_ones, Z.add_comm, Z.mod_add by lia. by apply Z.mod_small.
Qed.

Lemma shiftr_packed (a b n : Z) : 0 <= n -> 0 <= b < 2 ^ n -> Z.shiftr (a * 2 ^ n + b) n = a.
Proof.
  intros Hn Hb. rewrite Z.shiftr_div_pow2, Z.div_add_l by lia.
  rewrite Z.div_small by done. lia.
Qed.

(** A filter does not touch a key whose row it keeps. *)
Lemma lookup_filter_keep `{FinMap K M} {A} (P : K * A -> Prop) `{forall x, Decision (P x)} (m : M A) k :
  (forall v, m !! k = Some v -> P (k, v)) -> filter P m !! k = m !! k.
Proof.
  intros HP. apply option_eq. intros v. rewrite map_lookup_filter_Some.
  split; [by intros [? _]|]. intros Hv. split; [done|by apply HP].
Qed.

(** Results: [inl] is the error. *)
#[export] Instance result_fmap {E} : FMap (sum E) := fun A B f r =>
  match r with inl e => inl e | inr a => inr (f a) end.

(** ** Strings *)

Lemma app_nil t : (EmptyString ++ t)%string = t.
Proof. done. Qed.

Lemma app_char c s t : (String c s ++ t)%string = String c (s ++ t).
Proof. done. Qed.

Lemma app_join a b c : ((a ++ b) ++ c)%string = (a ++ (b ++ c))%string.
Proof. induction a as [|x a IH]; [done|]. by rewrite !app_char, IH. Qed.

Lemma app_end a : (a ++ EmptyString)%string = a.
Proof. induction a as [|x a IH]; [done|]. by rewrite app_char, IH. Qed.

Lemma app_length a b : String.length (a ++ b) = (String.length a + String.length b)%nat.
Proof. induction a as [|x a IH]; [done|]. rewrite app_char. simpl. by rewrite IH. Qed.
