(* ===== verification/GoStd.v ===== *)
(** What the program uses of Go's language and standard library: the conversions between
    machine integers, and strconv's decimal formatting and parsing. *)
From S2P Require Import Prelude.
From Stdlib Require Import Decimal DecimalString DecimalPos DecimalN DecimalFacts.

(** ** Machine integers, as [Z] at their width *)

Definition MaxInt64 : Z := 2 ^ 63 - 1.

(** Go's conversion of a uint64 to int64: two's complement. *)
Definition int64_of_uint64 (v : Z) : Z := if v <? 2 ^ 63 then v else v - 2 ^ 64.

(** And back. *)
Definition uint64_of_int64 (v : Z) : Z := v mod 2 ^ 64.

Lemma uint64_int64 v : 0 <= v < 2 ^ 64 -> uint64_of_int64 (int64_of_uint64 v) = v.
Proof.
  intros Hv. unfold uint64_of_int64, int64_of_uint64.
  destruct (Z.ltb_spec v (2 ^ 63)); [apply Z.mod_small; lia|].
  replace (v - 2 ^ 64) with (v + (-1) * 2 ^ 64) by lia.
  rewrite Z.mod_add by lia. apply Z.mod_small; lia.
Qed.

Lemma int64_uint64 v : - 2 ^ 63 <= v < 2 ^ 63 -> int64_of_uint64 (uint64_of_int64 v) = v.
Proof.
  intros Hv. unfold uint64_of_int64, int64_of_uint64.
  destruct (Z.lt_ge_cases v 0).
  - assert (v mod 2 ^ 64 = v + 2 ^ 64) as ->.
    { rewrite <- (Z.mod_add v 1 (2 ^ 64)) by lia. apply Z.mod_small; lia. }
    destruct (Z.ltb_spec (v + 2 ^ 64) (2 ^ 63)); lia.
  - rewrite Z.mod_small by lia. destruct (Z.ltb_spec v (2 ^ 63)); lia.
Qed.

Lemma uint64_of_int64_range v : 0 <= uint64_of_int64 v < 2 ^ 64.
Proof. apply Z.mod_pos_bound; lia. Qed.

Lemma uint64_of_int64_small v : 0 <= v < 2 ^ 64 -> uint64_of_int64 v = v.
Proof. apply Z.mod_small. Qed.

#[export] Hint Resolve uint64_of_int64_range : norite.

(** ** strconv *)

(** strconv.FormatUint(v, 10). *)
Definition FormatUint (v : Z) : string := NilZero.string_of_uint (N.to_uint (Z.to_N v)).

(** strconv.FormatInt(v, 10). *)
Definition FormatInt (v : Z) : string :=
  if v <? 0 then String "-"%char (FormatUint (- v)) else FormatUint v.

(** strconv.ParseUint(s, 10, 64): digits only, no sign, at most 2^64-1. Which of its errors it
    returns is not distinguished: no caller looks. *)
Definition ParseUint (s : string) : option Z :=
  match NilZero.uint_of_string s with
  | None => None
  | Some d => let v := Z.of_N (N.of_uint d) in if v <? 2 ^ 64 then Some v else None
  end.

(** strconv.ParseInt(s, 10, 64): one optional sign, then ParseUint, then the signed range. *)
Definition ParseInt (s : string) : option Z :=
  let '(neg, digits) :=
    match s with
    | String "+"%char s' => (false, s')
    | String "-"%char s' => (true, s')
    | _ => (false, s)
    end in
  match ParseUint digits with
  | None => None
  | Some v =>
      if (neg : bool) then (if 2 ^ 63 <? v then None else Some (- v))
      else (if 2 ^ 63 <=? v then None else Some v)
  end.

Lemma to_uint_not_nil v : N.to_uint v <> Decimal.Nil.
Proof. destruct v; [done|]. apply DecimalPos.Unsigned.to_uint_nonnil. Qed.

Lemma ParseUint_FormatUint v : 0 <= v < 2 ^ 64 -> ParseUint (FormatUint v) = Some v.
Proof.
  intros Hv. unfold ParseUint, FormatUint.
  rewrite NilZero.usu by apply to_uint_not_nil.
  rewrite DecimalN.Unsigned.of_to, Z2N.id by lia.
  destruct (Z.ltb_spec v (2 ^ 64)); [done|lia].
Qed.

Lemma ParseUint_range s v : ParseUint s = Some v -> 0 <= v < 2 ^ 64.
Proof.
  unfold ParseUint. destruct (NilZero.uint_of_string s); [|done].
  destruct (Z.ltb_spec (Z.of_N (N.of_uint u)) (2 ^ 64)); [|done].
  intros [= <-]. lia.
Qed.

(** A decimal rendering never starts with a sign, so the signed parser reads it as the unsigned
    one does. *)
Lemma FormatUint_unsigned v :
  match FormatUint v with
  | String "+"%char _ | String "-"%char _ => False
  | _ => True
  end.
Proof.
  unfold FormatUint. pose proof (to_uint_not_nil (Z.to_N v)) as Hn.
  by destruct (N.to_uint (Z.to_N v)).
Qed.

Lemma ParseInt_FormatUint v : 0 <= v < 2 ^ 63 -> ParseInt (FormatUint v) = Some v.
Proof.
  intros Hv. pose proof (FormatUint_unsigned v) as Hs.
  assert (ParseInt (FormatUint v) =
          match ParseUint (FormatUint v) with
          | None => None
          | Some v => if 2 ^ 63 <=? v then None else Some v
          end) as ->.
  { unfold ParseInt. destruct (FormatUint v) as [|a s]; [done|].
    by repeat (case_goal; simplify_eq; try done). }
  rewrite ParseUint_FormatUint by lia. destruct (Z.leb_spec (2 ^ 63) v); [lia|done].
Qed.

Lemma ParseInt_FormatInt v : - 2 ^ 63 <= v < 2 ^ 63 -> ParseInt (FormatInt v) = Some v.
Proof.
  intros Hv. unfold FormatInt. destruct (Z.ltb_spec v 0).
  - unfold ParseInt. rewrite ParseUint_FormatUint by lia.
    destruct (Z.ltb_spec (2 ^ 63) (- v)); [lia|]. f_equal. lia.
  - apply ParseInt_FormatUint. lia.
Qed.

(** ** Quoted JSON scalars *)

Definition quote : ascii := "034"%char.

(** The string between quotes. *)
Definition quoted (s : string) : string := String quote (s +:+ String quote EmptyString).

Fixpoint strip_last_quote (s : string) : option string :=
  match s with
  | EmptyString => None
  | String c EmptyString => if (c =? quote)%char then Some EmptyString else None
  | String c s' => String c <$> strip_last_quote s'
  end.

(** [data[1:len(data)-1]], when [data] is at least two bytes and starts and ends with a quote. *)
Definition unquote (s : string) : option string :=
  match s with
  | String c s' => if (c =? quote)%char then strip_last_quote s' else None
  | EmptyString => None
  end.

Lemma unquote_quoted s : unquote (quoted s) = Some s.
Proof.
  unfold unquote, quoted. cbn [Ascii.eqb]. simpl.
  induction s as [|c s IH]; [done|]. simpl.
  destruct (s +:+ String quote EmptyString) eqn:E; [by destruct s|]. by rewrite IH.
Qed.

(** ** encoding/json on strings *)

Definition hex_digit (n : N) : ascii :=
  ascii_of_N (if (n <? 10)%N then 48 + n else 87 + n).

(** One byte of a string inside quotes. The bytes from 0x80 are those of UTF-8 text, which
    passes through. *)
Definition json_char (c : ascii) : string :=
  let n := N_of_ascii c in
  let esc (s : string) : string := String "\"%char s in
  if (c =? quote)%char then esc (String quote EmptyString)
  else if (n =? 92)%N then esc "\"
  else if (n =? 8)%N then esc "b"
  else if (n =? 9)%N then esc "t"
  else if (n =? 10)%N then esc "n"
  else if (n =? 12)%N then esc "f"
  else if (n =? 13)%N then esc "r"
  else if (n <? 32)%N || (n =? 60)%N || (n =? 62)%N || (n =? 38)%N
  then (esc "u00" ++ String (hex_digit (n / 16)) (String (hex_digit (n mod 16)) EmptyString))%string
  else String c EmptyString.

(** json.Marshal of a string. *)
Definition MarshalString (s : string) : string :=
  quoted (String.concat "" (json_char <$> String.list_ascii_of_string s)).
