(* ===== verification/Permissions.v ===== *)
(** The permission bitfield of backend/internal/roles/permissions.go: the bits, the operations on
    them, their storage in a signed bigint column and their JSON form. *)
From S2P Require Import Prelude GoStd.

(** ** The bits (const block) *)

Definition PermViewChannel : Z := Z.shiftl 1 0.
Definition PermSendMessages : Z := Z.shiftl 1 1.
Definition PermManageMessages : Z := Z.shiftl 1 2.
Definition PermManageChannels : Z := Z.shiftl 1 3.
Definition PermManageRoles : Z := Z.shiftl 1 4.
Definition PermKickMembers : Z := Z.shiftl 1 5.
Definition PermBanMembers : Z := Z.shiftl 1 6.
Definition PermCreateInvite : Z := Z.shiftl 1 7.
Definition PermManageGuild : Z := Z.shiftl 1 8.
Definition PermAdministrator : Z := Z.shiftl 1 9.
Definition PermConnectVoice : Z := Z.shiftl 1 10.
Definition PermSpeakVoice : Z := Z.shiftl 1 11.
Definition PermVideoVoice : Z := Z.shiftl 1 12.
Definition PermMuteMembers : Z := Z.shiftl 1 13.
Definition PermDeafenMembers : Z := Z.shiftl 1 14.
Definition PermMentionEveryone : Z := Z.shiftl 1 15.
Definition PermManageWebhooks : Z := Z.shiftl 1 16.
Definition PermManageEmojis : Z := Z.shiftl 1 17.
Definition PermModerateMembers : Z := Z.shiftl 1 18.
Definition PermViewAuditLog : Z := Z.shiftl 1 19.
Definition PermReadMessageHistory : Z := Z.shiftl 1 20.
Definition PermViewMessageAudit : Z := Z.shiftl 1 21.

(** Every defined bit. *)
Definition permAll : Z := Z.shiftl PermViewMessageAudit 1 - 1.

(** ** Operations. A permission is a uint64. *)

Definition Known (p : Z) : bool := Z.ldiff p permAll =? 0.
Definition Permission_Has (p need : Z) : bool := Z.land p need =? need.
Definition Permission_Add (p other : Z) : Z := Z.lor p other.
Definition Permission_Remove (p other : Z) : Z := Z.ldiff p other.
Definition Permission_Int64 (p : Z) : Z := int64_of_uint64 p.
Definition PermissionFromInt64 (v : Z) : Z := uint64_of_int64 v.

Definition Permission_MarshalJSON (p : Z) : string := quoted (FormatUint p).

(** [None] is the error: the target is left as it was. *)
Definition Permission_UnmarshalJSON (data : string) : option Z :=
  match unquote data with
  | None => None
  | Some digits =>
      match ParseUint digits with
      | None => None
      | Some v => if negb (Z.shiftr v 63 =? 0) then None else Some v
      end
  end.

Infix "∪ₚ" := Permission_Add (at level 50, left associativity) : norite_scope.
Infix "∖ₚ" := Permission_Remove (at level 50, left associativity) : norite_scope.

(** A value of the type: a 64-bit word. *)
Definition is_perm (p : Z) : Prop := 0 <= p < 2 ^ 64.

(** ** Bit-level reading of the operations *)

Lemma testbit_add p q i : Z.testbit (p ∪ₚ q) i = (Z.testbit p i || Z.testbit q i)%bool.
Proof. apply Z.lor_spec. Qed.

Lemma testbit_remove p q i : Z.testbit (p ∖ₚ q) i = (Z.testbit p i && negb (Z.testbit q i))%bool.
Proof. apply Z.ldiff_spec. Qed.

#[export] Hint Rewrite testbit_add testbit_remove : bits.

(** Every bit of the need, not any. *)
Lemma Has_spec p need :
  Permission_Has p need = true <-> forall i, Z.testbit need i = true -> Z.testbit p i = true.
Proof.
  unfold Permission_Has. rewrite Z.eqb_eq. split.
  - intros H i Hi. rewrite <- H, Z.land_spec in Hi. by apply andb_true_iff in Hi as [? _].
  - intros H. apply Z.bits_inj_iff'. intros i _. rewrite Z.land_spec.
    destruct (Z.testbit need i) eqn:E; [by rewrite (H i E)|by rewrite andb_false_r].
Qed.

Lemma Has_0 p : Permission_Has p 0 = true.
Proof. apply Has_spec. intros i. by rewrite Z.bits_0. Qed.

Lemma Has_refl p : Permission_Has p p = true.
Proof. by apply Has_spec. Qed.

Lemma Has_trans p q r :
  Permission_Has p q = true -> Permission_Has q r = true -> Permission_Has p r = true.
Proof. rewrite !Has_spec. eauto. Qed.

Lemma Has_add_need p a b :
  Permission_Has p (a ∪ₚ b) = (Permission_Has p a && Permission_Has p b)%bool.
Proof.
  apply eq_true_iff_eq. rewrite andb_true_iff, !Has_spec. split.
  - intros H. split; intros i Hi; apply H; rewrite testbit_add, Hi; [done|by rewrite orb_true_r].
  - intros [Ha Hb] i. rewrite testbit_add, orb_true_iff. intros [?|?]; eauto.
Qed.

Lemma Has_mono p q need :
  Permission_Has q p = true -> Permission_Has p need = true -> Permission_Has q need = true.
Proof. intros H1 H2. by eapply Has_trans. Qed.

Lemma Has_bit p i : 0 <= i -> Permission_Has p (Z.shiftl 1 i) = Z.testbit p i.
Proof.
  intros Hi. rewrite Z.shiftl_1_l. apply eq_true_iff_eq. rewrite Has_spec. split.
  - intros H. apply H. by apply Z.pow2_bits_true.
  - intros H j Hj. destruct (Z.eq_dec j i) as [->|Hne]; [done|].
    rewrite Z.pow2_bits_false in Hj by done. done.
Qed.

#[export] Hint Resolve Has_0 Has_refl : norite.

Lemma permAll_ones : permAll = Z.ones 22.
Proof. reflexivity. Qed.

Lemma is_perm_permAll : is_perm permAll.
Proof. unfold is_perm. rewrite permAll_ones. cbv. split; congruence. Qed.

(** A word with only defined bits is covered by [permAll]. *)
Lemma Known_Has p : Known p = true <-> Permission_Has permAll p = true.
Proof.
  unfold Known, Permission_Has. rewrite !Z.eqb_eq, Z.land_comm. split; intros H.
  - apply Z.bits_inj_iff'. intros i Hi. rewrite Z.land_spec.
    assert (Z.testbit (Z.ldiff p permAll) i = false) as E by (rewrite H; apply Z.bits_0).
    rewrite Z.ldiff_spec in E. destruct (Z.testbit p i), (Z.testbit permAll i); done.
  - apply Z.bits_inj_iff'. intros i Hi. rewrite Z.ldiff_spec, Z.bits_0, <- H, Z.land_spec.
    by destruct (Z.testbit p i), (Z.testbit permAll i).
Qed.

Lemma is_perm_add p q : is_perm p -> is_perm q -> is_perm (p ∪ₚ q).
Proof. intros. apply lor_below; [lia|done..]. Qed.

Lemma is_perm_remove p q : is_perm p -> is_perm (p ∖ₚ q).
Proof. intros. apply ldiff_below; [lia|done]. Qed.

Lemma is_perm_FromInt64 v : is_perm (PermissionFromInt64 v).
Proof. apply uint64_of_int64_range. Qed.

Lemma is_perm_0 : is_perm 0.
Proof. unfold is_perm. lia. Qed.

#[export] Hint Resolve is_perm_add is_perm_remove is_perm_FromInt64 is_perm_0 is_perm_permAll
  : norite.

(** Words are equal when their bits are. *)
Lemma perm_ext p q : (forall i, Z.testbit p i = Z.testbit q i) -> p = q.
Proof. intros H. apply Z.bits_inj. exact H. Qed.

(** A whole-word identity, bit by bit: the goal becomes boolean and is decided by cases. *)
Ltac perm_bits :=
  apply perm_ext; intros ?; autorewrite with bits;
  repeat match goal with
  | |- context [Z.testbit ?p ?i] => destruct (Z.testbit p i)
  end; reflexivity.

Lemma add_comm_p p q : p ∪ₚ q = q ∪ₚ p.
Proof. apply Z.lor_comm. Qed.

Lemma add_assoc_p p q r : p ∪ₚ (q ∪ₚ r) = p ∪ₚ q ∪ₚ r.
Proof. apply Z.lor_assoc. Qed.

Lemma add_0_l p : 0 ∪ₚ p = p.
Proof. apply Z.lor_0_l. Qed.

Lemma remove_0_r p : p ∖ₚ 0 = p.
Proof. apply Z.ldiff_0_r. Qed.

(** ** Properties *)

(** Storing a permission and reading it back gives the same permission, through the
    bigint column for every 64-bit value and through JSON for every value whose sign bit is clear,
    so no grant an older binary does not know is lost on the way. *)
Theorem permission_storage_roundtrip (p : Z) (Hp : is_perm p) :
  PermissionFromInt64 (Permission_Int64 p) = p /\
  (Permission_UnmarshalJSON (Permission_MarshalJSON p) =
   if p <? 2 ^ 63 then Some p else None).
Proof.
  split; [by apply uint64_int64|].
  unfold Permission_UnmarshalJSON, Permission_MarshalJSON, is_perm in *.
  rewrite unquote_quoted, ParseUint_FormatUint, Z.shiftr_div_pow2 by lia.
  destruct (Z.ltb_spec p (2 ^ 63)).
  - by rewrite Z.div_small by lia.
  - assert (1 <= p / 2 ^ 63) by (apply Z.div_le_lower_bound; lia).
    destruct (Z.eqb_spec (p / 2 ^ 63) 0); [lia|done].
Qed.

Lemma permission_storage_roundtrip_witness :
  is_perm permAll /\
  PermissionFromInt64 (Permission_Int64 permAll) = permAll /\
  Permission_UnmarshalJSON (Permission_MarshalJSON permAll) = Some permAll.
Proof.
  split; [apply is_perm_permAll|].
  apply (permission_storage_roundtrip permAll is_perm_permAll).
Defined.
