(* ===== verification/Snowflake.v ===== *)
(** backend/internal/platform/snowflake/snowflake.go: the 64-bit time-sortable identifiers.

    The clock is the list of its readings, in Unix milliseconds, in the order the generator takes
    them; it may move backwards at any reading. A call that runs out of readings has not
    returned ([None]): it is still waiting in [waitPast]. *)
From S2P Require Import Prelude GoStd.

(** ** Layout *)

Definition Epoch : Z := 1704067200000.

Definition timestampBits : Z := 41.
Definition nodeBits : Z := 10.
Definition sequenceBits : Z := 12.
Definition nodeShift : Z := sequenceBits.
Definition timestampShift : Z := sequenceBits + nodeBits.
Definition maxNode : Z := Z.lxor (-1) (Z.shiftl (-1) nodeBits).
Definition maxSequence : Z := Z.lxor (-1) (Z.shiftl (-1) sequenceBits).
Definition maxTimestamp : Z := Z.lxor (-1) (Z.shiftl (-1) timestampBits).

Definition ID_String (id : Z) : string := FormatInt id.
(** Unix milliseconds. *)
Definition ID_Time (id : Z) : Z := Z.shiftr id timestampShift + Epoch.
Definition ID_Node (id : Z) : Z := Z.land (Z.shiftr id nodeShift) maxNode.
Definition ID_Sequence (id : Z) : Z := Z.land id maxSequence.

(** ** Text forms *)

Definition ID_MarshalJSON (id : Z) : string := quoted (FormatInt id).

Definition Parse (s : string) : option Z :=
  match ParseInt s with
  | None => None
  | Some parsed => if parsed <? 0 then None else Some parsed
  end.

(** [id] is the value the receiver holds before; [None] is the error. *)
Definition ID_UnmarshalJSON (id : Z) (data : string) : option Z :=
  if (data =? "null")%string then Some id
  else Parse (match unquote data with Some inner => inner | None => data end).

(** ** The generator *)

Record Generator := mkGenerator { node : Z; lastMS : Z; sequence : Z }.

(** [None] is ErrNodeOutOfRange. *)
Definition NewGenerator (n : Z) : option Generator :=
  if (n <? 0) || (maxNode <? n) then None
  else Some {| node := n; lastMS := 0; sequence := 0 |}.

Definition nowMS (clock : list Z) : option (Z * list Z) :=
  match clock with
  | [] => None
  | t :: rest => Some (t - Epoch, rest)
  end.

Fixpoint waitPast (ms : Z) (clock : list Z) : option (Z * list Z) :=
  match clock with
  | [] => None
  | t :: rest => if ms <? t - Epoch then Some (t - Epoch, rest) else waitPast ms rest
  end.

Inductive NextResult := NextID (id : Z) | ErrEpochExhausted.

Definition Next (g : Generator) (clock : list Z) : option (NextResult * Generator * list Z) :=
  match nowMS clock with
  | None => None
  | Some (ms, clock) =>
      let step : option (Generator * list Z) :=
        if lastMS g <? ms then Some ({| node := node g; lastMS := ms; sequence := 0 |}, clock)
        else
          let seq := sequence g + 1 in
          if maxSequence <? seq then
            match waitPast (lastMS g) clock with
            | None => None
            | Some (ms, clock) =>
                Some ({| node := node g; lastMS := ms; sequence := 0 |}, clock)
            end
          else Some ({| node := node g; lastMS := lastMS g; sequence := seq |}, clock) in
      match step with
      | None => None
      | Some (g, clock) =>
          if maxTimestamp <? lastMS g then Some (ErrEpochExhausted, g, clock)
          else
            Some (NextID (Z.lor (Z.lor (Z.shiftl (lastMS g) timestampShift)
                                       (Z.shiftl (node g) nodeShift))
                                (sequence g)), g, clock)
      end
  end.

(** The IDs of up to [n] successive calls; the run stops at a call that does not return. *)
Fixpoint issue (n : nat) (g : Generator) (clock : list Z) : list Z :=
  match n with
  | O => []
  | S n =>
      match Next g clock with
      | None => []
      | Some (NextID id, g, clock) => id :: issue n g clock
      | Some (ErrEpochExhausted, g, clock) => issue n g clock
      end
  end.

(** ** Invariant *)

Record gen_ok (g : Generator) : Prop := {
  gen_node : 0 <= node g < 2 ^ nodeBits;
  gen_ms : 0 <= lastMS g;
  gen_seq : 0 <= sequence g < 2 ^ sequenceBits
}.

(** The number the generator's state stands for: the last ID it issued, and the state a rejected
    call leaves behind. *)
Definition mark (g : Generator) : Z :=
  lastMS g * 2 ^ timestampShift + node g * 2 ^ nodeShift + sequence g.

Lemma maxNode_ones : maxNode = Z.ones nodeBits. Proof. reflexivity. Qed.
Lemma maxSequence_ones : maxSequence = Z.ones sequenceBits. Proof. reflexivity. Qed.

Ltac unfold_layout :=
  unfold timestampShift, nodeShift, timestampBits, nodeBits, sequenceBits in *;
  change (2 ^ (12 + 10)) with (2 ^ 22) in *.

(** The low two fields are one 22-bit word under the timestamp. *)
Lemma low_fields_bound g :
  gen_ok g -> 0 <= node g * 2 ^ nodeShift + sequence g < 2 ^ timestampShift.
Proof. intros [? ? ?]. unfold_layout. lia. Qed.

Lemma pack_mark g :
  gen_ok g ->
  Z.lor (Z.lor (Z.shiftl (lastMS g) timestampShift) (Z.shiftl (node g) nodeShift)) (sequence g)
  = mark g.
Proof.
  intros Hg. pose proof (low_fields_bound g Hg) as Hlow. destruct Hg as [Hn Hm Hs].
  rewrite <- Z.lor_assoc, (lor_shiftl_add (node g)) by (unfold_layout; lia).
  rewrite lor_shiftl_add by (unfold_layout; lia). unfold mark. lia.
Qed.

Lemma mark_fields g :
  gen_ok g ->
  ID_Time (mark g) = lastMS g + Epoch /\ ID_Node (mark g) = node g /\
  ID_Sequence (mark g) = sequence g.
Proof.
  intros Hg. pose proof (low_fields_bound g Hg) as Hlow. destruct Hg as [Hn Hm Hs].
  unfold ID_Time, ID_Node, ID_Sequence, mark. repeat split.
  - rewrite <- Z.add_assoc, shiftr_packed by (unfold_layout; lia). done.
  - rewrite maxNode_ones.
    replace (lastMS g * 2 ^ timestampShift + node g * 2 ^ nodeShift + sequence g)
      with ((lastMS g * 2 ^ nodeBits + node g) * 2 ^ nodeShift + sequence g)
      by (unfold_layout; lia).
    rewrite shiftr_packed by (unfold_layout; lia). by apply land_ones_packed.
  - rewrite maxSequence_ones.
    replace (lastMS g * 2 ^ timestampShift + node g * 2 ^ nodeShift + sequence g)
      with ((lastMS g * 2 ^ nodeBits + node g) * 2 ^ sequenceBits + sequence g)
      by (unfold_layout; lia).
    by apply land_ones_packed.
Qed.

Lemma waitPast_later ms clock ms' rest : waitPast ms clock = Some (ms', rest) -> ms < ms'.
Proof.
  revert rest. induction clock as [|t clock IH]; intros rest; simpl; [done|].
  destruct (Z.ltb_spec ms (t - Epoch)); [by intros [= <- <-]|apply IH].
Qed.

Lemma waitPast_returns ms clock :
  Exists (fun t => ms < t - Epoch) clock -> is_Some (waitPast ms clock).
Proof.
  induction 1 as [t clock H|t clock _ IH]; simpl.
  - destruct (Z.ltb_spec ms (t - Epoch)); [by eexists|lia].
  - case_goal; [by eexists|done].
Qed.

(** One call: the state stays well formed, its mark strictly grows, and what is issued is the new
    mark, unless the clock is past the 41-bit range. *)
Lemma Next_spec g clock r g' clock' :
  gen_ok g -> Next g clock = Some (r, g', clock') ->
  gen_ok g' /\ node g' = node g /\ mark g < mark g' /\
  match r with
  | NextID id => id = mark g' /\ lastMS g' <= maxTimestamp
  | ErrEpochExhausted => maxTimestamp < lastMS g'
  end.
Proof.
  intros Hg. unfold Next. destruct (nowMS clock) as [[ms c]|]; [|done].
  assert (forall g1 c1,
    match (if maxTimestamp <? lastMS g1 then Some (ErrEpochExhausted, g1, c1)
           else Some (NextID (Z.lor (Z.lor (Z.shiftl (lastMS g1) timestampShift)
                       (Z.shiftl (node g1) nodeShift)) (sequence g1)), g1, c1))
    with Some p => p = (r, g', clock') | None => False end ->
    gen_ok g1 -> node g1 = node g -> mark g < mark g1 ->
    gen_ok g' /\ node g' = node g /\ mark g < mark g' /\
    match r with
    | NextID id => id = mark g' /\ lastMS g' <= maxTimestamp
    | ErrEpochExhausted => maxTimestamp < lastMS g'
    end) as finish.
  { intros g1 c1 H Hg1 Hn Hm. destruct (Z.ltb_spec maxTimestamp (lastMS g1)); simplify_eq.
    - done.
    - rewrite pack_mark by done. done. }
  pose proof (low_fields_bound g Hg) as Hlow. destruct Hg as [Hn Hm Hs].
  destruct (Z.ltb_spec (lastMS g) ms).
  - intros Heq. eapply (finish _ c); [by rewrite Heq| |done|].
    + constructor; simpl; unfold_layout; lia.
    + unfold mark in *. simpl. unfold_layout. lia.
  - destruct (Z.ltb_spec maxSequence (sequence g + 1)).
    + destruct (waitPast (lastMS g) c) as [[ms' c']|] eqn:Hw; [|done].
      apply waitPast_later in Hw.
      intros Heq. eapply (finish _ c'); [by rewrite Heq| |done|].
      * constructor; simpl; unfold_layout; lia.
      * unfold mark in *. simpl. unfold_layout. lia.
    + change maxSequence with 4095 in *.
      intros Heq. eapply (finish _ c); [by rewrite Heq| |done|].
      * constructor; simpl; unfold_layout; lia.
      * unfold mark. simpl. lia.
Qed.

Lemma NewGenerator_ok n g : NewGenerator n = Some g -> gen_ok g /\ node g = n.
Proof.
  unfold NewGenerator. destruct ((n <? 0) || (maxNode <? n)) eqn:E; [done|].
  bool_hyps. intros [= <-]. change maxNode with 1023 in *.
  split; [constructor; simpl; unfold_layout; lia|done].
Qed.

(** What one run issues: each ID is above the mark it started from, carries the node, and is a
    positive int64. *)
Lemma issue_spec n g clock :
  gen_ok g ->
  StronglySorted Z.lt (issue n g clock) /\
  Forall (fun id => mark g < id < 2 ^ 63 /\ ID_Node id = node g) (issue n g clock).
Proof.
  revert g clock. induction n as [|n IH]; intros g clock Hg; simpl; [by repeat constructor|].
  destruct (Next g clock) as [[[r g'] c']|] eqn:E; [|by repeat constructor].
  destruct (Next_spec _ _ _ _ _ Hg E) as (Hg' & Hnode & Hm & Hr).
  destruct (IH g' c' Hg') as [IHs IHf]. rewrite Hnode in IHf.
  destruct r as [id|].
  - destruct Hr as [-> Hmax]. split.
    + constructor; [done|]. eapply Forall_impl; [exact IHf|]. simpl. lia.
    + constructor.
      * destruct (mark_fields g' Hg') as (_ & -> & _). split; [|done].
        pose proof (low_fields_bound g' Hg'). destruct Hg'.
        change maxTimestamp with (2 ^ 41 - 1) in *.
        unfold mark in *. unfold_layout. lia.
      * eapply Forall_impl; [exact IHf|]. intros id [? ?]. simpl in *. split; [lia|done].
  - split; [done|]. eapply Forall_impl; [exact IHf|]. intros id [? ?]. split; [lia|done].
Qed.

(** ** Properties *)

(** Whatever the clock does, backward steps included, one generator issues strictly
    increasing IDs (so never the same one twice), each a positive int64 that carries the
    generator's node. *)
Theorem issue_increasing (n : Z) (g : Generator) (calls : nat) (clock : list Z)
    (Hg : NewGenerator n = Some g) :
  StronglySorted Z.lt (issue calls g clock) /\ NoDup (issue calls g clock) /\
  Forall (fun id => 0 < id < 2 ^ 63 /\ ID_Node id = n) (issue calls g clock).
Proof.
  apply NewGenerator_ok in Hg as [Hg <-].
  destruct (issue_spec calls g clock Hg) as [Hs Hf]. split; [done|]. split.
  - clear Hf. induction Hs as [|id l _ IH Hall]; constructor; [|done].
    intros Hin. rewrite Forall_forall in Hall. specialize (Hall id Hin). lia.
  - eapply Forall_impl; [exact Hf|]. intros id [? ?]. split; [|done].
    pose proof (low_fields_bound g Hg). destruct Hg. unfold mark in *. unfold_layout. lia.
Qed.

(** A clock that stands still, steps back an hour and recovers. *)
Definition stepping_clock : list Z :=
  [Epoch + 5; Epoch + 5; Epoch - 3600000; Epoch + 5; Epoch + 9].

Lemma issue_increasing_witness :
  issue 5 {| node := 3; lastMS := 0; sequence := 0 |} stepping_clock
  = [20983808; 20983809; 20983810; 20983811; 37761024] /\
  NoDup (issue 5 {| node := 3; lastMS := 0; sequence := 0 |} stepping_clock).
Proof.
  split; [reflexivity|].
  apply (issue_increasing 3 {| node := 3; lastMS := 0; sequence := 0 |} 5 stepping_clock).
  reflexivity.
Defined.

(** Generators on two nodes never issue the same ID. *)
Lemma issue_nodes_disjoint n1 n2 g1 g2 k1 k2 c1 c2 id :
  NewGenerator n1 = Some g1 -> NewGenerator n2 = Some g2 -> n1 <> n2 ->
  id ∈ issue k1 g1 c1 -> id ∉ issue k2 g2 c2.
Proof.
  intros [H1 <-]%NewGenerator_ok [H2 <-]%NewGenerator_ok Hne Hin1 Hin2.
  destruct (issue_spec k1 g1 c1 H1) as [_ F1]. destruct (issue_spec k2 g2 c2 H2) as [_ F2].
  rewrite Forall_forall in F1, F2. destruct (F1 id Hin1), (F2 id Hin2). congruence.
Qed.

(** A call returns as soon as the clock has read once past the last millisecond issued
    from, and otherwise at once while the millisecond's 4096 numbers last; the ID it returns
    decodes to the millisecond, node and sequence it was built from. *)
Theorem Next_returns (g : Generator) (t : Z) (clock : list Z) (Hg : gen_ok g)
    (Hclock : sequence g < maxSequence \/ Exists (fun t => lastMS g < t - Epoch) (t :: clock)) :
  exists r g' clock', Next g (t :: clock) = Some (r, g', clock') /\
  match r with
  | NextID id =>
      ID_Time id = lastMS g' + Epoch /\ ID_Node id = node g /\ ID_Sequence id = sequence g' /\
      Z.max (lastMS g) (t - Epoch) <= lastMS g'
  | ErrEpochExhausted => maxTimestamp < lastMS g'
  end.
Proof.
  assert (is_Some (Next g (t :: clock))) as [[[r g'] c'] E].
  { unfold Next. simpl. destruct (Z.ltb_spec (lastMS g) (t - Epoch)) as [Hlt|Hge].
    - repeat case_goal; by eexists.
    - destruct (Z.ltb_spec maxSequence (sequence g + 1)).
      + destruct Hclock as [?|Hex]; [lia|]. apply Exists_cons in Hex as [?|Hex]; [lia|].
        destruct (waitPast_returns _ _ Hex) as [[ms' c'] ->]. repeat case_goal; by eexists.
      + repeat case_goal; by eexists. }
  exists r, g', c'. split; [done|].
  destruct (Next_spec _ _ _ _ _ Hg E) as (Hg' & Hnode & Hm & Hr).
  destruct r as [id|]; [|done]. destruct Hr as [-> Hmax].
  destruct (mark_fields g' Hg') as (-> & -> & ->). repeat split; [done|].
  unfold Next in E. simpl in E.
  destruct (Z.ltb_spec (lastMS g) (t - Epoch)) as [Hlt|Hge].
  - case_hyp E; simplify_eq. simpl. lia.
  - destruct (Z.ltb_spec maxSequence (sequence g + 1)).
    + destruct (waitPast (lastMS g) clock) as [[ms' c1]|] eqn:Hw; [|done].
      apply waitPast_later in Hw. case_hyp E; simplify_eq. simpl. lia.
    + case_hyp E; simplify_eq. simpl. lia.
Qed.

Lemma Next_returns_witness :
  Next {| node := 3; lastMS := 7; sequence := 4095 |} [Epoch + 2; Epoch + 7; Epoch + 8]
  = Some (NextID 33566720, {| node := 3; lastMS := 8; sequence := 0 |}, []) /\
  exists r g' clock',
    Next {| node := 3; lastMS := 7; sequence := 4095 |} [Epoch + 2; Epoch + 7; Epoch + 8]
    = Some (r, g', clock').
Proof.
  split; [reflexivity|].
  destruct (Next_returns {| node := 3; lastMS := 7; sequence := 4095 |} (Epoch + 2)
              [Epoch + 7; Epoch + 8]) as (r & g' & c' & H & _).
  - constructor; simpl; unfold_layout; lia.
  - right. do 2 apply Exists_cons_tl. apply Exists_cons_hd. simpl. lia.
  - by exists r, g', c'.
Defined.

(** The text forms read back what they wrote, for every ID a generator can produce. *)
Lemma ID_json_roundtrip (old id : Z) :
  0 <= id < 2 ^ 63 -> ID_UnmarshalJSON old (ID_MarshalJSON id) = Some id /\
                      Parse (ID_String id) = Some id.
Proof.
  intros Hid. unfold ID_UnmarshalJSON, ID_MarshalJSON, ID_String, Parse.
  rewrite unquote_quoted, ParseInt_FormatInt by lia.
  destruct (Z.ltb_spec id 0); [lia|]. simpl. done.
Qed.

(** A parsed ID is never negative, whatever the text. *)
Lemma Parse_nonneg s id : Parse s = Some id -> 0 <= id.
Proof.
  unfold Parse. destruct (ParseInt s); [|done].
  destruct (Z.ltb_spec z 0); [done|]. by intros [= <-].
Qed.
