(* ===== verification/Chat.v ===== *)
(** Who a request acts for (backend/internal/auth/model.go), and the tables of conversations: the
    rows of backend/internal/db/models.go that messages, tags and reports are kept in, the objects of
    backend/internal/messages/model.go, and what deleting a channel or a guild takes with it.

    Times are microseconds, as a timestamptz keeps them; a text column is its bytes. *)
From S2P Require Import Prelude GoStd.

(** ** Credentials *)

(** ActorKind is a string; [OtherKind] is any that is neither constant. *)
Inductive ActorKind := ActorUser | ActorAPIToken | OtherKind (name : string).

#[export] Instance ActorKind_eq_dec : EqDecision ActorKind.
Proof. solve_decision. Defined.

Definition ScopeTagsRead : string := "tags.read".

Record Actor := mkActor {
  Actor_Kind : ActorKind; Actor_UserID : Z; Actor_SessionID : Z; Actor_TokenID : Z;
  Actor_Scopes : list string
}.

(** A user actor passes every scope. *)
Definition Actor_HasScope (a : Actor) (want : string) : bool :=
  bool_decide (Actor_Kind a = ActorUser) || bool_decide (want ∈ Actor_Scopes a).

Record PublicUser := mkPublicUser {
  PublicUser_ID : Z; PublicUser_Username : string; PublicUser_DisplayName : string
}.

Definition PublicUserOf (id : Z) (username displayName : option string) : option PublicUser :=
  match username, displayName with
  | Some u, Some d => Some (mkPublicUser id u d)
  | _, _ => None
  end.

(** ** Rows *)

Record dbMessage := mkDbMessage {
  msg_id : Z; msg_channel_id : Z; msg_author_id : option Z; msg_content : string; msg_type : Z;
  msg_reply_to_id : option Z; msg_is_e2e : bool; msg_edited_at : option Z; msg_deleted_at : option Z;
  msg_created_at : Z
}.

Record dbEditHistory := mkDbEditHistory {
  eh_id : Z; eh_message_id : Z; eh_content : string; eh_edited_at : Z
}.

Record dbMessageAuditEntry := mkDbMessageAuditEntry {
  ma_id : Z; ma_guild_id : Z; ma_message_id : Z; ma_channel_id : Z; ma_actor_id : Z;
  ma_action : string; ma_content : option string; ma_created_at : Z
}.

Record dbMessageTag := mkDbMessageTag {
  tag_id : Z; tag_guild_id : Z; tag_name : string; tag_created_by : Z; tag_is_shared : bool;
  tag_created_at : Z
}.

Record dbTagApplication := mkDbTagApplication {
  ta_tag_id : Z; ta_message_id : Z; ta_applied_by : Z; ta_applied_at : Z
}.

Record dbReport := mkDbReport {
  rep_id : Z; rep_reporter_id : Z; rep_target_type : Z; rep_target_id : Z; rep_guild_id : option Z;
  rep_reason_category : string; rep_detail : option string; rep_status : Z; rep_routed_to : Z;
  rep_resolved_by : option Z; rep_created_at : Z; rep_resolved_at : option Z
}.

(** ** Wire objects *)

Record AppliedTag := mkAppliedTag {
  AppliedTag_ID : Z; AppliedTag_GuildID : Z; AppliedTag_Name : string; AppliedTag_CreatedBy : Z;
  AppliedTag_IsShared : bool; AppliedTag_CreatedAt : Z; AppliedTag_AppliedBy : Z;
  AppliedTag_AppliedAt : Z
}.

(** Tags is [None] for Go's nil slice, which goes out as null. *)
Record Message := mkMessage {
  Message_ID : Z; Message_ChannelID : Z; Message_AuthorID : option Z; Message_Author : option PublicUser;
  Message_Content : string; Message_Type : Z; Message_ReplyToID : option Z;
  Message_EditedAt : option Z; Message_CreatedAt : Z; Message_Tags : option (list AppliedTag)
}.

Definition with_tags (tags : option (list AppliedTag)) (m : Message) : Message :=
  mkMessage (Message_ID m) (Message_ChannelID m) (Message_AuthorID m) (Message_Author m)
    (Message_Content m) (Message_Type m) (Message_ReplyToID m) (Message_EditedAt m)
    (Message_CreatedAt m) tags.

(** ** The tables *)

(** Primary keys are the map keys; [c_last] is the column last_message_id of channels, which only
    sending a message writes. *)
Record Chat := mkChat {
  c_messages : gmap Z dbMessage;
  c_history : gmap Z dbEditHistory;
  c_recorded : gmap Z dbMessageAuditEntry;
  c_tags : gmap Z dbMessageTag;
  c_applied : gmap (Z * Z) dbTagApplication;
  c_reports : gmap Z dbReport;
  c_last : gmap Z Z
}.

Definition Chat_empty : Chat := mkChat ∅ ∅ ∅ ∅ ∅ ∅ ∅.

Definition set_messages m x := mkChat m (c_history x) (c_recorded x) (c_tags x) (c_applied x) (c_reports x) (c_last x).
Definition set_history m x := mkChat (c_messages x) m (c_recorded x) (c_tags x) (c_applied x) (c_reports x) (c_last x).
Definition set_recorded m x := mkChat (c_messages x) (c_history x) m (c_tags x) (c_applied x) (c_reports x) (c_last x).
Definition set_tags m x := mkChat (c_messages x) (c_history x) (c_recorded x) m (c_applied x) (c_reports x) (c_last x).
Definition set_applied m x := mkChat (c_messages x) (c_history x) (c_recorded x) (c_tags x) m (c_reports x) (c_last x).
Definition set_reports m x := mkChat (c_messages x) (c_history x) (c_recorded x) (c_tags x) (c_applied x) m (c_last x).
Definition set_last m x := mkChat (c_messages x) (c_history x) (c_recorded x) (c_tags x) (c_applied x) (c_reports x) m.

(** ** Cascades *)

(** Whether the message is in one of the channels. *)
Definition message_in (chs : Z -> bool) (x : Chat) (id : Z) : bool :=
  match c_messages x !! id with Some m => chs (msg_channel_id m) | None => false end.

(** reply_to_id REFERENCES messages ON DELETE SET NULL *)
Definition forget_reply (gone : Z -> bool) (m : dbMessage) : dbMessage :=
  match msg_reply_to_id m with
  | Some r => if gone r then
      mkDbMessage (msg_id m) (msg_channel_id m) (msg_author_id m) (msg_content m) (msg_type m) None
        (msg_is_e2e m) (msg_edited_at m) (msg_deleted_at m) (msg_created_at m) else m
  | None => m
  end.

(** Deleting channels takes their messages, and with those their earlier versions and the tags on
    them. Recordings and reports name a message without a foreign key, and stay. *)
Definition chat_without_channels (chs : Z -> bool) (x : Chat) : Chat :=
  let gone := message_in chs x in
  mkChat (forget_reply gone <$> filter (fun kv => chs (msg_channel_id kv.2) = false) (c_messages x))
    (filter (fun kv => gone (eh_message_id kv.2) = false) (c_history x))
    (c_recorded x) (c_tags x)
    (filter (fun kv => gone kv.1.2 = false) (c_applied x))
    (c_reports x)
    (filter (fun kv => chs kv.1 = false) (c_last x)).

(** Whether the tag is the guild's. *)
Definition tag_in (g : Z) (x : Chat) (id : Z) : bool :=
  match c_tags x !! id with Some tag => tag_guild_id tag =? g | None => false end.

(** Deleting a guild takes its channels, its recordings, its tags with their applications, and its
    reports. *)
Definition chat_without_guild (g : Z) (chs : Z -> bool) (x : Chat) : Chat :=
  let y := chat_without_channels chs x in
  mkChat (c_messages y) (c_history y)
    (filter (fun kv => ma_guild_id kv.2 <> g) (c_recorded y))
    (filter (fun kv => tag_guild_id kv.2 <> g) (c_tags y))
    (filter (fun kv => tag_in g x kv.1.1 = false) (c_applied y))
    (filter (fun kv => rep_guild_id kv.2 <> Some g) (c_reports y))
    (c_last y).
