(* ===== verification/Rows.v ===== *)
(** The rows and wire objects the guild packages exchange: backend/internal/db/models.go,
    the object types of backend/internal/guilds/model.go, and the event envelope of
    backend/internal/dispatch/dispatch.go.

    Columns no modelled code reads or writes are left out: the timestamps, icon and avatar
    hashes, a guild's system channel, a channel's search vector. Chat has the rows of conversations.
    At the end, the [changes] payload of an audit entry, backend/internal/guilds/auditdiff.go. *)
From S2P Require Import Prelude GoStd Permissions.
From S2P Require Export Chat.

(** ** Database rows *)

Record dbGuild := mkDbGuild {
  guild_id : Z; guild_name : string; guild_owner_id : Z; guild_description : option string;
  guild_message_audit_enabled : bool
}.

Record dbGuildMember := mkDbGuildMember {
  gm_guild_id : Z; gm_user_id : Z; gm_nickname : option string; gm_deaf : bool; gm_mute : bool
}.

Record dbRole := mkDbRole {
  role_id : Z; role_guild_id : Z; role_name : string; role_color : Z; role_permissions : Z;
  role_position : Z; role_hoist : bool; role_mentionable : bool; role_is_default : bool
}.

Record dbChannel := mkDbChannel {
  channel_id : Z; channel_guild_id : option Z; channel_type : Z; channel_parent_id : option Z;
  channel_name : option string; channel_topic : option string; channel_position : Z;
  channel_nsfw : bool; channel_bitrate : option Z; channel_user_limit : option Z
}.

(** An account, its deletion time reduced to whether it has one. *)
Record dbUser := mkDbUser {
  user_username : string; user_display_name : string; user_deleted : bool
}.

(** Times are microseconds, as a timestamptz keeps them. *)
Record dbInvite := mkDbInvite {
  inv_id : Z; inv_code : string; inv_guild_id : Z; inv_channel_id : Z; inv_inviter_id : Z;
  inv_max_uses : option Z; inv_uses : Z; inv_expires_at : option Z; inv_created_at : Z
}.

(** Allow and deny are the bigint columns. *)
Record PermissionOverwrite := mkPermissionOverwrite {
  ow_channel_id : Z; ow_target_type : Z; ow_target_id : Z; ow_allow : Z; ow_deny : Z
}.

Definition OverwriteTargetRole : Z := 0.
Definition OverwriteTargetMember : Z := 1.

(** ** Wire objects *)

Record Guild := mkGuild {
  Guild_ID : Z; Guild_Name : string; Guild_OwnerID : Z; Guild_Description : option string;
  Guild_MessageAuditEnabled : bool
}.

Definition guildFromRow (row : dbGuild) : Guild := {|
  Guild_ID := guild_id row; Guild_Name := guild_name row; Guild_OwnerID := guild_owner_id row;
  Guild_Description := guild_description row;
  Guild_MessageAuditEnabled := guild_message_audit_enabled row
|}.

Record Role := mkRole {
  Role_ID : Z; Role_GuildID : Z; Role_Name : string; Role_Color : Z; Role_Permissions : Z;
  Role_Position : Z; Role_Hoist : bool; Role_Mentionable : bool; Role_IsDefault : bool
}.

Definition roleFromRow (row : dbRole) : Role := {|
  Role_ID := role_id row; Role_GuildID := role_guild_id row; Role_Name := role_name row;
  Role_Color := role_color row; Role_Permissions := PermissionFromInt64 (role_permissions row);
  Role_Position := role_position row; Role_Hoist := role_hoist row;
  Role_Mentionable := role_mentionable row; Role_IsDefault := role_is_default row
|}.

Record Member := mkMember {
  Member_GuildID : Z; Member_UserID : Z; Member_Nickname : option string; Member_Deaf : bool;
  Member_Mute : bool; Member_Roles : list Z
}.

Definition memberFromRow (row : dbGuildMember) (roleIDs : list Z) : Member := {|
  Member_GuildID := gm_guild_id row; Member_UserID := gm_user_id row;
  Member_Nickname := gm_nickname row; Member_Deaf := gm_deaf row; Member_Mute := gm_mute row;
  Member_Roles := roleIDs
|}.

Record Overwrite := mkOverwrite {
  Overwrite_ChannelID : Z; Overwrite_Type : Z; Overwrite_TargetID : Z; Overwrite_Allow : Z;
  Overwrite_Deny : Z
}.

Definition overwriteFromRow (row : PermissionOverwrite) : Overwrite := {|
  Overwrite_ChannelID := ow_channel_id row; Overwrite_Type := ow_target_type row;
  Overwrite_TargetID := ow_target_id row; Overwrite_Allow := PermissionFromInt64 (ow_allow row);
  Overwrite_Deny := PermissionFromInt64 (ow_deny row)
|}.

(** Channel types: the guild's three. *)
Definition ChannelGuildText : Z := 0.
Definition ChannelGuildVoice : Z := 2.
Definition ChannelGuildCategory : Z := 4.

Record Channel := mkChannel {
  Channel_ID : Z; Channel_GuildID : option Z; Channel_Type : Z; Channel_ParentID : option Z;
  Channel_Name : option string; Channel_Topic : option string; Channel_Position : Z;
  Channel_NSFW : bool; Channel_Bitrate : option Z; Channel_UserLimit : option Z;
  Channel_PermissionOverwrites : list Overwrite
}.

Definition channelFromRow (row : dbChannel) : Channel := {|
  Channel_ID := channel_id row; Channel_GuildID := channel_guild_id row;
  Channel_Type := channel_type row; Channel_ParentID := channel_parent_id row;
  Channel_Name := channel_name row; Channel_Topic := channel_topic row;
  Channel_Position := channel_position row; Channel_NSFW := channel_nsfw row;
  Channel_Bitrate := channel_bitrate row; Channel_UserLimit := channel_user_limit row;
  Channel_PermissionOverwrites := []
|}.

(** [ch.PermissionOverwrites = append(...)] over rows. *)
Definition with_overwrites (rows : list PermissionOverwrite) (ch : Channel) : Channel :=
  mkChannel (Channel_ID ch) (Channel_GuildID ch) (Channel_Type ch) (Channel_ParentID ch)
    (Channel_Name ch) (Channel_Topic ch) (Channel_Position ch) (Channel_NSFW ch)
    (Channel_Bitrate ch) (Channel_UserLimit ch)
    (Channel_PermissionOverwrites ch ++ (overwriteFromRow <$> rows)).

(** ** Gateway events (dispatch.go) *)

(** Who an event is for. [OtherAudience] is any string that is none of the three constants. *)
Inductive Audience := AudGuild | AudUsers | AudFormerMembers | OtherAudience (name : string).

#[export] Instance Audience_eq_dec : EqDecision Audience.
Proof. solve_decision. Defined.

(** One dispatch. [D] is the type of its payload: the object a service publishes, or the encoded
    bytes a gateway copies into frames. Overwrites is [None] for Go's nil slice. *)
Record Event (D : Type) := mkEvent {
  Event_Type : string; Event_Audience : Audience; Event_GuildID : Z; Event_ChannelID : Z;
  Event_Need : Z; Event_Users : list Z; Event_Overwrites : option (list PermissionOverwrite);
  Event_Snapshot : bool; Event_Data : D
}.
Arguments mkEvent {D}.
Arguments Event_Type {D}. Arguments Event_Audience {D}. Arguments Event_GuildID {D}.
Arguments Event_ChannelID {D}. Arguments Event_Need {D}. Arguments Event_Users {D}.
Arguments Event_Overwrites {D}. Arguments Event_Snapshot {D}. Arguments Event_Data {D}.

(** The payloads the services publish. *)
Inductive Payload :=
  | PGuild (g : Guild)
  | PGuildDeleted (id : Z)
  | PGuildRoles (guildID : Z) (roles : list Role)
  | PPermissionsUpdated (guildID : Z)
  | PChannel (ch : Channel)
  | PChannelDeleted (id guildID : Z)
  | PMember (m : Member)
  | PMemberRemoved (guildID userID : Z)
  | PMessage (m : Message)
  | PMessageDeleted (id channelID guildID : Z).

(** The event a Go literal [dispatch.Event{Type:, Audience:, GuildID:, Users:}] builds, with the
    payload Queue encodes into it; every other field is its zero value. *)
Definition event_for (ty : string) (aud : Audience) (guildID : Z) (users : list Z) (p : Payload)
    : Event Payload :=
  mkEvent ty aud guildID 0 0 users None false p.

(** The same with a ChannelID. *)
Definition channel_event (ty : string) (guildID channelID : Z) (p : Payload) : Event Payload :=
  mkEvent ty AudGuild guildID channelID 0 [] None false p.

(** ** Revocations (dispatch.go) *)

(** Device names are strings; the empty one is unset. *)
Record Revocation := mkRevocation {
  Revocation_UserID : Z; Revocation_Before : Z; Revocation_Device : string;
  Revocation_ExceptDevice : string
}.

Definition Revocation_Matches (r : Revocation) (userID sessionID : Z) (device : string) : bool :=
  if negb (userID =? Revocation_UserID r) || (Revocation_Before r <=? sessionID) then false
  else if negb (Revocation_Device r =? "")%string then (device =? Revocation_Device r)%string
  else if negb (Revocation_ExceptDevice r =? "")%string
  then negb (device =? Revocation_ExceptDevice r)%string
  else true.

(** ** Audit diffs *)

(** A recorded value. Every integer kind, permissions and snowflakes included, is [AVInt]:
    asInt64 compares them all as the one number, which is all this file asks of them. *)
Inductive AuditValue :=
  | AVNil | AVInt (v : Z) | AVString (s : string) | AVBool (b : bool)
  | AVTime (microseconds : Z).

#[export] Instance AuditValue_eq_dec : EqDecision AuditValue.
Proof. solve_decision. Defined.

(** One key's value: a changed field carrying from, to or both, or a context scalar. *)
Inductive AuditChange :=
  | FromTo (from to : AuditValue)
  | To (to : AuditValue)
  | From (from : AuditValue)
  | Context (value : AuditValue).

#[export] Instance AuditChange_eq_dec : EqDecision AuditChange.
Proof. solve_decision. Defined.

Abbreviation auditDiff := (gmap string AuditChange).

Definition sameValue (a b : AuditValue) : bool :=
  match a, b with
  | AVInt na, AVInt nb => na =? nb
  | _, _ => bool_decide (a = b)
  end.

Definition auditDiff_changed (field : string) (from to : AuditValue) (d : auditDiff) : auditDiff :=
  if sameValue from to then d else <[field := FromTo from to]> d.

Definition auditDiff_created (field : string) (to : AuditValue) (d : auditDiff) : auditDiff :=
  <[field := To to]> d.

Definition auditDiff_removed (field : string) (from : AuditValue) (d : auditDiff) : auditDiff :=
  <[field := From from]> d.

Definition auditDiff_context (field : string) (value : AuditValue) (d : auditDiff) : auditDiff :=
  <[field := Context value]> d.

Definition orNil {A} (inj : A -> AuditValue) (v : option A) : AuditValue :=
  match v with None => AVNil | Some x => inj x end.

Definition auditDiff_payload (d : auditDiff) : option auditDiff :=
  if decide (d = ∅) then None else Some d.

(** What a request that sets an optional field records: nothing when it is absent. *)
Definition changed_if {A} (inj : A -> AuditValue) (field : string) (from : AuditValue)
    (to : option A) (d : auditDiff) : auditDiff :=
  match to with None => d | Some x => auditDiff_changed field from (inj x) d end.

Lemma sameValue_spec a b : sameValue a b = true <-> a = b.
Proof.
  destruct a, b; simpl; rewrite ?Z.eqb_eq, ?bool_decide_eq_true; split; congruence.
Qed.
