(* ===== verification/Tx.v ===== *)
(** Effects of the service layer: the database tables, the ID generator, the after-commit hooks
    (backend/internal/platform/database/database.go) and what they publish, threaded through a state
    and error monad, with the weakest-precondition rules its clients are proved with. The tables
    [Tab] and the published values [Msg] are the client's: the guild services' are in TxMonad, the accounts' in
    AuthStore.

    Any statement may fail ([faults]): the head of the list says whether the next one does. An
    exhausted list means no further failure. *)
From S2P Require Import Prelude GoStd Snowflake.

(** ** State and errors *)

Record StOf (Tab Msg : Type) := mkSt {
  tabs : Tab;
  hooks : list Msg;                    (* what the running transaction's after-commit hooks publish *)
  gen : Generator;
  clock : list Z;                    (* the readings the generator will take *)
  faults : list bool;
  published : list Msg                 (* what the bus was handed, oldest first *)
}.
Arguments mkSt {Tab Msg}.
Arguments tabs {Tab Msg}.
Arguments hooks {Tab Msg}.
Arguments gen {Tab Msg}.
Arguments clock {Tab Msg}.
Arguments faults {Tab Msg}.
Arguments published {Tab Msg}.

(** The sentinels the services return. [ENoRows] is pgx.ErrNoRows, [EUnique] a unique violation and
    [EForeignKey] a foreign key's, where the code tells it apart; [EDb] is any other failure of a
    statement, wrapped. [ERandom] is crypto/rand's and [ENoFreeCode] what CreateInvite reports after
    three taken codes; [EUnknownValue] a stored number this build has no name for, and [EInconsistent]
    a row that should have been updated and was not; [EUserCodeTaken] is a unique violation of the index on
    user codes, [EHashing] a failure of argon2id and [EMailNotQueued] of the mail queue. [EBlocked] is no error: the call is still waiting for its clock or for a code
    to be drawn. *)
Inductive Err :=
  | ENotFound | EForbidden | EBadRequest | EConflict
  | EDefaultRoleImmutable | EUnsupportedChannelType | EAlreadyAMember | EGuildFull | EOutranked
  | EChannelFull | ECannotRemoveOwner
  | ENotAMember | EUnknownAudience | ENoRows | EUnique | EForeignKey | EDb
  | ERandom | ENoFreeCode | EUnknownValue | EInconsistent | EEpochExhausted | EBlocked
  (* the accounts' *)
  | EInvalidCredentials | EInvalidRefreshToken | ESessionReuse | ESessionSignedOut | EInvalidToken
  | EUnknownScope | EInvalidTokenName | ETwoFactorRequired | EInvalidFactorCode
  | ETwoFactorAlreadyEnabled | ENoTwoFactorEnrollment | ETwoFactorChallenge | ESealedSecretInvalid
  | EBadSecret | EPasswordTooShort | EPasswordTooLong | EPasswordNotSet | EHashing
  | EResetUnavailable | EInvalidResetToken | EInvalidVerificationToken | EMailNotQueued
  | EDeviceAuthorizationPending | EDeviceSlowDown | EDeviceCodeExpired | EDeviceAccessDenied
  | EDeviceUserCode | EDeviceContinuation | EUserCodeTaken | EOAuthExchangeCode.

#[export] Instance Err_eq_dec : EqDecision Err.
Proof. solve_decision. Defined.

(** The generator has moved on, or not moved. *)
Definition later (g g' : Generator) : Prop := gen_ok g -> gen_ok g' /\ mark g <= mark g'.

#[export] Instance later_preorder : PreOrder later.
Proof.
  split; unfold later; [by intros g|]. intros g1 g2 g3 H12 H23 H1.
  destruct (H12 H1) as [H2 ?]. destruct (H23 H2). split; [done|lia].
Qed.

Lemma Next_later g c r g' c' : Next g c = Some (r, g', c') -> later g g'.
Proof. intros H Hg. destruct (Next_spec _ _ _ _ _ Hg H) as (? & _ & ? & _). split; [done|lia]. Qed.

Definition TxM (Tab Msg A : Type) : Type := StOf Tab Msg -> (Err + A) * StOf Tab Msg.

Section tx.
Context {Tab Msg : Type}.
#[local] Abbreviation St := (StOf Tab Msg).
#[local] Abbreviation M := (TxM Tab Msg).

Definition with_tabs (t : Tab) (s : St) : St := mkSt t (hooks s) (gen s) (clock s) (faults s) (published s).
Definition with_hooks (h : list Msg) (s : St) : St := mkSt (tabs s) h (gen s) (clock s) (faults s) (published s).
Definition with_gen g c (s : St) : St := mkSt (tabs s) (hooks s) g c (faults s) (published s).
Definition with_faults f (s : St) : St := mkSt (tabs s) (hooks s) (gen s) (clock s) f (published s).
Definition with_published (p : list Msg) (s : St) : St := mkSt (tabs s) (hooks s) (gen s) (clock s) (faults s) p.

#[export] Instance M_ret : MRet M := fun A a s => (inr a, s).
#[export] Instance M_bind : MBind M := fun A B k m s =>
  match m s with
  | (inl e, s') => (inl e, s')
  | (inr a, s') => k a s'
  end.

Definition throw {A} (e : Err) : M A := fun s => (inl e, s).

(** [if cond { return e }] *)
Definition refuse_if (cond : bool) (e : Err) : M unit := if cond then throw e else mret tt.

(** The error, if any, as a value: [x, err := m]. *)
Definition attempt {A} (m : M A) : M (Err + A) := fun s => let '(r, s') := m s in (inr r, s').

(** [if errors.Is(err, pgx.ErrNoRows) { return e }] *)
Definition no_rows_as {A} (e : Err) (m : M A) : M A := fun s =>
  match m s with
  | (inl ENoRows, s') => (inl e, s')
  | r => r
  end.

Fixpoint for_each {A} (l : list A) (body : A -> M unit) : M unit :=
  match l with
  | [] => mret tt
  | x :: l => body x;; for_each l body
  end.

(** ** Statements *)

(** The next statement's fate, and the schedule left. *)
Definition next_fault (s : St) : bool * St :=
  match faults s with
  | [] => (false, s)
  | b :: rest => (b, with_faults rest s)
  end.

(** A statement that reads. *)
Definition reading {A} (f : Tab -> Err + A) : M A := fun s =>
  let '(b, s) := next_fault s in
  if b then (inl EDb, s) else (f (tabs s), s).

(** A statement that writes. *)
Definition writing {A} (f : Tab -> Err + (A * Tab)) : M A := fun s =>
  let '(b, s) := next_fault s in
  if b then (inl EDb, s)
  else match f (tabs s) with
       | inl e => (inl e, s)
       | inr (a, t) => (inr a, with_tabs t s)
       end.

(** [s.ids.Next()] *)
Definition ids_Next : M Z := fun s =>
  match Next (gen s) (clock s) with
  | None => (inl EBlocked, with_gen (gen s) [] s)
  | Some (NextID id, g, c) => (inr id, with_gen g c s)
  | Some (ErrEpochExhausted, g, c) => (inl EEpochExhausted, with_gen g c s)
  end.

(** ** Transactions (database.go) *)

(** AfterCommit: the hook is one event's publication, the only kind the guild service registers. *)
Definition AfterCommit (ev : Msg) : M unit := fun s =>
  (inr tt, with_hooks (hooks s ++ [ev]) s).

(** afterCommit.run: every hook runs, in order; a publish that fails is logged and lost. *)
Fixpoint afterCommit_run (evs : list Msg) (s : St) : St :=
  match evs with
  | [] => s
  | ev :: evs =>
      let '(b, s) := next_fault s in
      afterCommit_run evs (if b then s else with_published (published s ++ [ev]) s)
  end.

(** RunInTx: begin, run, then commit and run the hooks, or roll the tables back. *)
Definition RunInTx {A} (fn : M A) : M A := fun s0 =>
  let '(b, s) := next_fault s0 in
  if b then (inl EDb, s)
  else
    match fn (with_hooks [] s) with
    | (inl e, s') => (inl e, with_hooks (hooks s) (with_tabs (tabs s) s'))
    | (inr a, s') =>
        let '(b, s'') := next_fault s' in
        if b then (inl EDb, with_hooks (hooks s) (with_tabs (tabs s) s''))
        else (inr a, with_hooks (hooks s) (afterCommit_run (hooks s'') s''))
    end.

(** Publisher.Queue: nothing without a bus ([bus] false: a nil publisher or bus). Encoding these
    payloads cannot fail. *)
Definition Publisher_Queue (bus : bool) (ev : Msg) : M unit :=
  if negb bus then mret tt else AfterCommit ev.

(** ** Weakest preconditions of success: what holds if the computation returns a value *)

Definition wp {A} (m : M A) (Q : A -> St -> Prop) (s : St) : Prop :=
  match m s with
  | (inl _, _) => True
  | (inr a, s') => Q a s'
  end.

Lemma wp_elim {A} (m : M A) Q s a s' : wp m Q s -> m s = (inr a, s') -> Q a s'.
Proof. unfold wp. by intros H E; rewrite E in H. Qed.

Lemma wp_intro {A} (m : M A) (Q : A -> St -> Prop) s :
  (forall a s', m s = (inr a, s') -> Q a s') -> wp m Q s.
Proof. unfold wp. intros H. destruct (m s) as [[e|a] s']; [done|]. by apply H. Qed.

Lemma wp_mono {A} (m : M A) (Q R : A -> St -> Prop) s :
  wp m Q s -> (forall a s', Q a s' -> R a s') -> wp m R s.
Proof. unfold wp. destruct (m s) as [[e|a] s']; auto. Qed.

Lemma wp_ret {A} (a : A) (Q : A -> St -> Prop) s : Q a s -> wp (mret a) Q s.
Proof. done. Qed.

Lemma wp_bind {A B} (m : M A) (k : A -> M B) Q s :
  wp m (fun a s' => wp (k a) Q s') s -> wp (m ≫= k) Q s.
Proof. unfold wp, mbind, M_bind. by destruct (m s) as [[e|a] s']. Qed.

Lemma wp_throw {A} e (Q : A -> St -> Prop) s : wp (throw e) Q s.
Proof. done. Qed.

Lemma wp_refuse_if (b : bool) e (Q : unit -> St -> Prop) s :
  (b = false -> Q tt s) -> wp (refuse_if b e) Q s.
Proof. destruct b; [done|]. intros H. by apply H. Qed.

Lemma wp_no_rows_as {A} e (m : M A) Q s : wp m Q s -> wp (no_rows_as e m) Q s.
Proof. unfold wp, no_rows_as. by destruct (m s) as [[[]|a] s']. Qed.

Lemma wp_attempt {A} (m : M A) (Q : (Err + A) -> St -> Prop) s :
  (forall r s', m s = (r, s') -> Q r s') -> wp (attempt m) Q s.
Proof. unfold wp, attempt. intros H. destruct (m s) as [r s'] eqn:E. by apply H. Qed.

Lemma next_fault_with s b s' : next_fault s = (b, s') -> exists f, s' = with_faults f s.
Proof.
  unfold next_fault. destruct (faults s) eqn:E; intros [= <- <-]; [|by eexists].
  exists []. destruct s; simpl in *. by subst.
Qed.

Lemma wp_reading {A} (f : Tab -> Err + A) (Q : A -> St -> Prop) s :
  (forall fs a, f (tabs s) = inr a -> Q a (with_faults fs s)) -> wp (reading f) Q s.
Proof.
  intros H. unfold wp, reading. destruct (next_fault s) as [b s'] eqn:E.
  apply next_fault_with in E as [fs ->]. destruct b; [done|]. simpl.
  destruct (f (tabs s)) eqn:E; [done|]. by apply H.
Qed.

Lemma wp_writing {A} (f : Tab -> Err + (A * Tab)) (Q : A -> St -> Prop) s :
  (forall fs a t, f (tabs s) = inr (a, t) -> Q a (with_tabs t (with_faults fs s))) ->
  wp (writing f) Q s.
Proof.
  intros H. unfold wp, writing. destruct (next_fault s) as [b s'] eqn:E.
  apply next_fault_with in E as [fs ->]. destruct b; [done|]. simpl.
  destruct (f (tabs s)) as [|[a t]] eqn:E; [done|]. by apply H.
Qed.

Lemma wp_ids_Next (Q : Z -> St -> Prop) s :
  (forall id g c, Q id (with_gen g c s)) -> wp ids_Next Q s.
Proof.
  intros H. unfold wp, ids_Next. destruct (Next (gen s) (clock s)) as [[[[id|] g] c]|]; auto.
Qed.

(** The state with an event registered for publication. *)
Definition queue (bus : bool) (ev : Msg) (s : St) : St :=
  with_hooks (hooks s ++ if bus then [ev] else []) s.

Lemma wp_Queue bus ev (Q : unit -> St -> Prop) s :
  Q tt (queue bus ev s) -> wp (Publisher_Queue bus ev) Q s.
Proof.
  unfold queue, Publisher_Queue. destruct bus; [done|]. rewrite app_nil_r.
  by replace (with_hooks (hooks s) s) with s by (by destruct s).
Qed.

Lemma wp_reading_found {A} (f : Tab -> option A) (Q : A -> St -> Prop) s :
  (forall fs a, f (tabs s) = Some a -> Q a (with_faults fs s)) ->
  wp (reading (fun t => match f t with None => inl ENoRows | Some x => inr x end)) Q s.
Proof.
  intros H. apply wp_reading. intros fs a. destruct (f (tabs s)); intros [= ->]; auto.
Qed.

Lemma wp_reading_pure {A} (f : Tab -> A) (Q : A -> St -> Prop) s :
  (forall fs, Q (f (tabs s)) (with_faults fs s)) -> wp (reading (fun t => inr (f t))) Q s.
Proof. intros H. apply wp_reading. intros fs a [= <-]. apply H. Qed.

Lemma wp_writing_pure {A} (f : Tab -> A) (h : Tab -> Tab) (Q : A -> St -> Prop) s :
  (forall fs, Q (f (tabs s)) (with_tabs (h (tabs s)) (with_faults fs s))) ->
  wp (writing (fun t => inr (f t, h t))) Q s.
Proof. intros H. apply wp_writing. intros fs a t [= <- <-]. apply H. Qed.

Lemma wp_if {A} (b : bool) (m1 m2 : M A) Q s :
  (b = true -> wp m1 Q s) -> (b = false -> wp m2 Q s) -> wp (if b then m1 else m2) Q s.
Proof. destruct b; auto. Qed.

Lemma wp_for_each {A} (l : list A) body (I : list A -> St -> Prop) s :
  I [] s ->
  (forall done x s, I done s -> x ∈ l -> wp (body x) (fun _ s' => I (done ++ [x]) s') s) ->
  wp (for_each l body) (fun _ s' => I l s') s.
Proof.
  intros H0 Hstep.
  assert (forall suf pre s, l = pre ++ suf -> I pre s ->
          wp (for_each suf body) (fun _ s' => I l s') s) as go; [|by apply (go l [])].
  induction suf as [|x suf IH]; intros pre s1 -> Hp.
  - rewrite app_nil_r. by apply wp_ret.
  - simpl. apply wp_bind. eapply wp_mono; [apply (Hstep pre x s1 Hp)|].
    + apply elem_of_app. right. by left.
    + intros ? s2 Hs2. apply (IH (pre ++ [x])); [by rewrite <- app_assoc|done].
Qed.

(** With no fault scheduled a statement is its function. *)
Lemma next_fault_nil s : faults s = [] -> next_fault s = (false, s).
Proof. unfold next_fault. by intros ->. Qed.

Lemma reading_run {A} (f : Tab -> Err + A) s :
  faults s = [] -> reading f s = (f (tabs s), s).
Proof. intros H. unfold reading. by rewrite next_fault_nil. Qed.

Lemma writing_run {A} (f : Tab -> Err + (A * Tab)) s :
  faults s = [] ->
  writing f s = match f (tabs s) with
                | inl e => (inl e, s)
                | inr (a, t) => (inr a, with_tabs t s)
                end.
Proof. intros H. unfold writing. by rewrite next_fault_nil. Qed.

(** A hook run touches nothing but the published events. *)
Lemma afterCommit_run_frame evs s :
  tabs (afterCommit_run evs s) = tabs s /\ gen (afterCommit_run evs s) = gen s /\
  exists pub, published (afterCommit_run evs s) = published s ++ pub /\ pub `sublist_of` evs.
Proof.
  revert s. induction evs as [|ev evs IH]; intros s; simpl.
  - split; [done|]. split; [done|]. exists []. by rewrite app_nil_r.
  - destruct (next_fault s) as [b s'] eqn:E. apply next_fault_with in E as [fs ->].
    destruct (IH (if b then with_faults fs s
                  else with_published (published (with_faults fs s) ++ [ev]) (with_faults fs s)))
      as (-> & -> & pub & -> & Hsub).
    destruct b; simpl; (split; [done|]; split; [done|]).
    + exists pub. split; [done|]. by apply sublist_cons.
    + exists (ev :: pub). rewrite <- app_assoc. split; [done|]. by apply sublist_skip.
Qed.

(** A transaction that does not return a value left the tables and the bus as they were. *)
Lemma RunInTx_error {A} (fn : M A) s e s' :
  (forall s1, published (fn s1).2 = published s1) ->
  RunInTx fn s = (inl e, s') -> tabs s' = tabs s /\ published s' = published s.
Proof.
  intros Hpub. unfold RunInTx. destruct (next_fault s) as [b s0] eqn:E.
  apply next_fault_with in E as [fs ->]. destruct b; [by intros [= <- <-]|].
  specialize (Hpub (with_hooks [] (with_faults fs s))).
  destruct (fn _) as [[e0|a0] s1]; simpl in *.
  - by intros [= <- <-].
  - destruct (next_fault s1) as [b s2] eqn:E2. apply next_fault_with in E2 as [fs2 ->].
    destruct b; [|done]. by intros [= <- <-].
Qed.

(** ** Reading computations *)

(** A computation that only reads either fails with the database or answers what it would have
    answered had nothing failed; it changes nothing but the schedule. *)
Definition transparent {A} (m : M A) : Prop := forall s, exists fs, fs `suffix_of` faults s /\
  ((m s = (inl EDb, with_faults fs s) /\ true ∈ faults s) \/
   m s = ((m (with_faults [] s)).1, with_faults fs s)).

Lemma with_faults_id s : with_faults (faults s) s = s.
Proof. by destruct s. Qed.

Lemma with_faults_twice f1 f2 s : with_faults f1 (with_faults f2 s) = with_faults f1 s.
Proof. done. Qed.

Lemma transparent_pure {A} (r : Err + A) : transparent (fun s => (r, s)).
Proof. intros s. exists (faults s). rewrite with_faults_id. split; [done|]. by right. Qed.

Lemma transparent_ret {A} (a : A) : transparent (mret a).
Proof. apply transparent_pure. Qed.

Lemma transparent_throw {A} e : transparent (throw (A:=A) e).
Proof. apply transparent_pure. Qed.

Lemma transparent_refuse_if b e : transparent (refuse_if b e).
Proof. destruct b; [apply transparent_throw|apply transparent_ret]. Qed.

Lemma transparent_reading {A} (f : Tab -> Err + A) : transparent (reading f).
Proof.
  intros s. unfold reading, next_fault. destruct (faults s) as [|b fs] eqn:E; simpl.
  - exists []. split; [done|]. right. f_equal. rewrite <- E. symmetry. apply with_faults_id.
  - exists fs. split; [by exists [b]|]. destruct b; [|by right]. left. split; [done|]. by left.
Qed.

(** With nothing scheduled to fail, the state is left alone. *)
Lemma transparent_nil {A} (m : M A) s : transparent m -> faults s = [] -> m s = ((m s).1, s).
Proof.
  intros Hm Hf. destruct (Hm s) as (fs & Hs & [[_ Hin]|H]); rewrite Hf in *.
  - by apply elem_of_nil in Hin.
  - apply suffix_nil_inv in Hs as ->. rewrite H at 1. rewrite <- Hf at 1 2.
    by rewrite with_faults_id.
Qed.

Lemma transparent_bind {A B} (m : M A) (k : A -> M B) :
  transparent m -> (forall a, transparent (k a)) -> transparent (m ≫= k).
Proof.
  intros Hm Hk s. unfold mbind, M_bind.
  pose proof (transparent_nil m (with_faults [] s) Hm eq_refl) as Hnil.
  destruct (Hm s) as (fs & Hs & [[-> Hin]| ->]); [exists fs; auto|].
  destruct (m (with_faults [] s)) as [[e|a] s0] eqn:E; simpl in *;
    injection Hnil as ->; [exists fs; auto|].
  destruct (Hk a (with_faults fs s)) as (fs' & Hs' & H). rewrite !with_faults_twice in H.
  exists fs'. split; [by etrans|]. destruct H as [[-> Hin]|H]; [left|right; exact H].
  split; [done|]. destruct Hs as [pre ->]. apply elem_of_app. by right.
Qed.

(** [attempt] may inspect the error, but must give a database failure back. *)
Lemma transparent_attempt {A B} (m : M A) (k : Err + A -> M B) :
  transparent m -> (forall r, transparent (k r)) -> k (inl EDb) = throw EDb ->
  transparent (attempt m ≫= k).
Proof.
  intros Hm Hk Hdb s. unfold mbind, M_bind, attempt.
  pose proof (transparent_nil m (with_faults [] s) Hm eq_refl) as Hnil.
  destruct (Hm s) as (fs & Hs & [[-> Hin]| ->]); [exists fs; rewrite Hdb; auto|].
  destruct (m (with_faults [] s)) as [r s0] eqn:E; simpl in *. injection Hnil as ->.
  destruct (Hk r (with_faults fs s)) as (fs' & Hs' & H). rewrite !with_faults_twice in H.
  exists fs'. split; [by etrans|]. destruct H as [[-> Hin]|H]; [left|right; exact H].
  split; [done|]. destruct Hs as [pre ->]. apply elem_of_app. by right.
Qed.

Lemma transparent_no_rows_as {A} e (m : M A) : transparent m -> transparent (no_rows_as e m).
Proof.
  intros Hm s. unfold no_rows_as. destruct (Hm s) as (fs & Hs & [[-> Hin]| ->]);
    [exists fs; auto|]. exists fs. split; [done|]. right.
  destruct (m (with_faults [] s)) as [[[]|a] s0]; done.
Qed.

(** Under [wp], a reading computation is its fault-free answer. *)
Lemma wp_transparent {A} (m : M A) (Q : A -> St -> Prop) s :
  transparent m ->
  (forall fs a, (m (with_faults [] s)).1 = inr a -> Q a (with_faults fs s)) -> wp m Q s.
Proof.
  intros Hm HQ. unfold wp. destruct (Hm s) as (fs & _ & [[-> _]| ->]); [done|].
  destruct ((m (with_faults [] s)).1) as [e|a] eqn:E; [done|]. by apply HQ.
Qed.

(** ** Computations that publish nothing *)

(** Events reach the bus only from thehooks of a commit; a schedule is only ever consumed; and the
    generator only moves on. *)
Definition quiet {A} (m : M A) : Prop := forall s,
  published (m s).2 = published s /\ faults (m s).2 `suffix_of` faults s /\ later (gen s) (gen (m s).2).

Lemma quiet_ret {A} (a : A) : quiet (mret a).
Proof. done. Qed.
Lemma quiet_throw {A} e : quiet (throw (A:=A) e).
Proof. done. Qed.
Lemma quiet_refuse_if b e : quiet (refuse_if b e).
Proof. by destruct b. Qed.

Lemma quiet_bind {A B} (m : M A) (k : A -> M B) :
  quiet m -> (forall a, quiet (k a)) -> quiet (m ≫= k).
Proof.
  intros Hm Hk s. unfold mbind, M_bind. specialize (Hm s) as (Hp & Hs & Hg).
  destruct (m s) as [[e|a] s']; simpl in *; [done|]. destruct (Hk a s') as (Hp' & Hs' & Hg').
  rewrite Hp', Hp. split; [done|]. by split; etrans.
Qed.

Lemma quiet_attempt {A} (m : M A) : quiet m -> quiet (attempt m).
Proof. intros Hm s. unfold attempt. specialize (Hm s). by destruct (m s). Qed.

Lemma quiet_no_rows_as {A} e (m : M A) : quiet m -> quiet (no_rows_as e m).
Proof. intros Hm s. unfold no_rows_as. specialize (Hm s). by destruct (m s) as [[[]|a] s']. Qed.

Lemma next_fault_quiet s :
  published (next_fault s).2 = published s /\ faults (next_fault s).2 `suffix_of` faults s /\
  gen (next_fault s).2 = gen s.
Proof.
  unfold next_fault. destruct (faults s) as [|b fs] eqn:E; simpl.
  - by rewrite E.
  - split; [done|]. split; [by exists [b]|done].
Qed.

Lemma quiet_reading {A} (f : Tab -> Err + A) : quiet (reading f).
Proof.
  intros s. unfold reading. pose proof (next_fault_quiet s) as (? & ? & Hg).
  destruct (next_fault s) as [[] s']; simpl in *; by rewrite Hg.
Qed.

Lemma quiet_writing {A} (f : Tab -> Err + (A * Tab)) : quiet (writing f).
Proof.
  intros s. unfold writing. pose proof (next_fault_quiet s) as (? & ? & Hg).
  destruct (next_fault s) as [[] s']; simpl in *; [by rewrite Hg|].
  destruct (f (tabs s')) as [|[]]; simpl; by rewrite Hg.
Qed.

Lemma quiet_ids_Next : quiet ids_Next.
Proof.
  intros s. unfold ids_Next. destruct (Next (gen s) (clock s)) as [[[[] ?] ?]|] eqn:E; simpl; try done;
    (split; [done|]; split; [done|]; by eapply Next_later).
Qed.

Lemma quiet_Queue bus ev : quiet (Publisher_Queue bus ev).
Proof. by destruct bus. Qed.

Lemma quiet_transparent {A} (m : M A) : transparent m -> quiet m.
Proof. intros Hm s. by destruct (Hm s) as (fs & Hs & [[-> _]| ->]). Qed.

Lemma quiet_for_each {A} (l : list A) body : (forall x, quiet (body x)) -> quiet (for_each l body).
Proof. intros H. induction l as [|x l IH]; simpl; [done|]. by apply quiet_bind. Qed.

(** With no fault scheduled every hook's event reaches the bus. *)
Lemma afterCommit_run_all evs s :
  faults s = [] -> published (afterCommit_run evs s) = published s ++ evs.
Proof.
  revert s. induction evs as [|ev evs IH]; intros s Hf; simpl; [by rewrite app_nil_r|].
  rewrite next_fault_nil by done. rewrite IH by done. simpl. by rewrite <- app_assoc.
Qed.

(** What the bus received of the events a transaction registered: some of them, in order, and all
    of them if nothing was going to fail. *)
Definition delivered (s s' : St) (evs : list Msg) : Prop :=
  exists pub, published s' = published s ++ pub /\ pub `sublist_of` evs /\
    (faults s = [] -> pub = evs).

(** A committed transaction did what its body did, from the tables it started with. *)
Lemma RunInTx_commit {A} (fn : M A) s a s' (E : A -> Tab -> list Msg -> Prop) :
  quiet fn ->
  (forall s1, tabs s1 = tabs s -> hooks s1 = [] ->
     wp fn (fun a s2 => E a (tabs s2) (hooks s2)) s1) ->
  RunInTx fn s = (inr a, s') ->
  exists evs, E a (tabs s') evs /\ delivered s s' evs.
Proof.
  intros Hq Hwp. unfold RunInTx. destruct (next_fault s) as [b s0] eqn:E0.
  pose proof (next_fault_quiet s) as (_ & Hs0 & _). rewrite E0 in Hs0. simpl in Hs0.
  apply next_fault_with in E0 as [fs ->]. destruct b; [done|]. simpl in Hs0.
  specialize (Hwp (with_hooks [] (with_faults fs s)) eq_refl eq_refl). unfold wp in Hwp.
  specialize (Hq (with_hooks [] (with_faults fs s))) as (Hp & Hs1 & _).
  destruct (fn _) as [[e|a0] s1]; [done|]. simpl in Hp, Hs1.
  destruct (next_fault s1) as [b s2] eqn:E2. pose proof (next_fault_quiet s1) as (_ & Hs2 & _).
  rewrite E2 in Hs2. simpl in Hs2. apply next_fault_with in E2 as [fs2 ->].
  destruct b; [done|]. intros [= <- <-]. simpl in *.
  destruct (afterCommit_run_frame (hooks s1) (with_faults fs2 s1)) as (-> & _ & pub & Hpub & Hsub).
  exists (hooks s1). split; [done|]. exists pub. simpl in *. split; [by rewrite Hpub, Hp|].
  split; [done|]. intros Hf. rewrite Hf in Hs0. apply suffix_nil_inv in Hs0 as ->.
  apply suffix_nil_inv in Hs1. rewrite Hs1 in Hs2. apply suffix_nil_inv in Hs2 as ->.
  rewrite afterCommit_run_all in Hpub by done. by apply app_inv_head in Hpub.
Qed.

(** One that failed left the tables and the bus as they were. *)
Lemma RunInTx_rollback {A} (fn : M A) s e s' :
  quiet fn -> RunInTx fn s = (inl e, s') -> tabs s' = tabs s /\ published s' = published s.
Proof. intros Hq. apply RunInTx_error. intros s1. apply Hq. Qed.

(** A whole transaction, its hooks included, only moves the generator on. *)
Lemma RunInTx_later {A} (fn : M A) s : quiet fn -> later (gen s) (gen (RunInTx fn s).2).
Proof.
  intros Hq. unfold RunInTx. pose proof (next_fault_quiet s) as (_ & _ & Hg).
  destruct (next_fault s) as [b s0]; simpl in *. destruct b; simpl; [by rewrite Hg|].
  specialize (Hq (with_hooks [] s0)) as (_ & _ & Hl). simpl in Hl. rewrite Hg in Hl.
  destruct (fn _) as [[e|a] s1]; simpl in *; [done|].
  pose proof (next_fault_quiet s1) as (_ & _ & Hg1). destruct (next_fault s1) as [b s2]; simpl in *.
  destruct b; simpl; [by rewrite Hg1|].
  destruct (afterCommit_run_frame (hooks s2) s2) as (_ & -> & _). by rewrite Hg1.
Qed.

End tx.

#[export] Hint Resolve transparent_ret transparent_throw transparent_refuse_if transparent_reading
  transparent_bind transparent_no_rows_as : norite.

(** Splits a reading computation down to its statements. *)
Ltac transparent_steps :=
  repeat first
    [ match goal with
      | |- forall _, _ => intro
      | |- transparent (attempt _ ≫= _) => fail 1
      | |- transparent (_ ≫= _) => apply transparent_bind
      end
    | apply transparent_reading
    | apply transparent_ret
    | apply transparent_throw
    | apply transparent_refuse_if
    | apply transparent_no_rows_as
    | match goal with
      | |- transparent (match ?x with _ => _ end) => destruct x
      | |- transparent (if ?x then _ else _) => destruct x
      end ].

(** Splits a computation down to the constructs above; what is left is the components' own. *)
Ltac quiet_steps :=
  repeat first
    [ match goal with
      | |- forall _, _ => intro
      | |- quiet (_ ≫= _) => apply quiet_bind
      | |- quiet (attempt _) => apply quiet_attempt
      | |- quiet (no_rows_as _ _) => apply quiet_no_rows_as
      | |- quiet (for_each _ _) => apply quiet_for_each
      | |- quiet ids_Next => apply quiet_ids_Next
      end
    | apply quiet_reading
    | apply quiet_writing
    | apply quiet_ret
    | apply quiet_throw
    | apply quiet_refuse_if
    | apply quiet_Queue
    | solve [auto with norite]
    | match goal with
      | |- quiet (match ?x with _ => _ end) => destruct x
      | |- quiet (if ?x then _ else _) => destruct x
      end ].

(** ** Automation *)

(** Evaluates the fields of an updated state. *)
Ltac st_simpl :=
  cbn [tabs hooks gen clock faults published with_tabs with_hooks with_gen with_faults
       with_published queue] in *.

(** One step of a computation under [wp]: the rule of its outermost construct. *)
Ltac wp_step :=
  lazymatch goal with
  | |- wp (mbind _ _) _ _ => apply wp_bind
  | |- wp (mret _) _ _ => apply wp_ret
  | |- wp (throw _) _ _ => apply wp_throw
  | |- wp (refuse_if _ _) _ _ => apply wp_refuse_if; intros ?
  | |- wp (no_rows_as _ _) _ _ => apply wp_no_rows_as
  | |- wp ids_Next _ _ => apply wp_ids_Next; intros ???
  | |- wp (Publisher_Queue _ _) _ _ => apply wp_Queue
  | |- wp (if _ then _ else _) _ _ => apply wp_if; intros ?
  | |- wp (reading _) _ _ =>
      first [apply wp_reading_found; intros ??? | apply wp_reading_pure; intros ?
            | apply wp_reading; intros ???]
  | |- wp (writing _) _ _ =>
      first [apply wp_writing_pure; intros ? | apply wp_writing; intros ????]
  | |- wp ?m _ _ =>
      first [apply (wp_reading_found _ _ _); intros ??? | apply wp_reading_pure; intros ?
            | apply wp_reading; intros ??? | apply wp_writing_pure; intros ?
            | apply wp_writing; intros ????]
  end.
Ltac wp_steps := repeat (wp_step; cbn beta; st_simpl).
