(* ===== verification/Proc.v ===== *)
(** Requests that interleave: a request is a tree of atoms, each a statement or a whole transaction,
    and a server runs the atoms of its calls in any order. A rely-guarantee rule shows that the server
    refines a machine of deeds, what each atom does to the tables as a whole. *)
From S2P Require Import Prelude Snowflake Tx.

(** ** Requests *)

Section proc.
Context {Tab Msg Env : Type}.
#[local] Abbreviation St := (StOf Tab Msg).
#[local] Abbreviation M := (TxM Tab Msg).

(** What an atom asks of the world outside, clocks and entropy, arrives as [Env] when it runs. *)
Inductive Proc (A : Type) : Type :=
  | Ret (r : Err + A)
  | Atom {B : Type} (m : Env -> M B) (k : Err + B -> Proc A).
#[global] Arguments Ret {A}.
#[global] Arguments Atom {A B}.

Fixpoint pbind {A B} (k : A -> Proc B) (p : Proc A) : Proc B :=
  match p with
  | Ret (inl e) => Ret (inl e)
  | Ret (inr a) => k a
  | Atom m k' => Atom m (fun r => pbind k (k' r))
  end.

#[export] Instance Proc_ret : MRet Proc := fun A a => Ret (inr a).
#[export] Instance Proc_bind : MBind Proc := fun A B k p => pbind k p.

Definition atom {A} (m : Env -> M A) : Proc A := Atom m Ret.
Definition fail {A} (e : Err) : Proc A := Ret (inl e).
Definition pure {A} (r : Err + A) : Proc A := Ret r.
Definition fail_if (cond : bool) (e : Err) : Proc unit := if cond then fail e else mret tt.

(** The error, if any, as a value: [x, err := p]. *)
Fixpoint try {A} (p : Proc A) : Proc (Err + A) :=
  match p with
  | Ret r => Ret (inr r)
  | Atom m k => Atom m (fun r => try (k r))
  end.

(** ** Servers *)

(** The requests a server has received, what is left of each call, and the answers given; a call's
    number is its request's. *)
Record Pool (Q A : Type) := mkPool {
  pl_st : St; pl_reqs : list Q; pl_calls : gmap nat (Proc A); pl_done : list (nat * (Err + A))
}.
#[global] Arguments mkPool {Q A}.
#[global] Arguments pl_st {Q A}.
#[global] Arguments pl_reqs {Q A}.
#[global] Arguments pl_calls {Q A}.
#[global] Arguments pl_done {Q A}.

(** A call begins, runs its next atom or answers, or is abandoned; or the database's clock moves. *)
Inductive Move (Q : Type) :=
  | MCall (q : Q) | MRun (c : nat) (env : Env) | MDrop (c : nat) | MTick (n : Z).
#[global] Arguments MCall {Q}.
#[global] Arguments MRun {Q}.
#[global] Arguments MDrop {Q}.
#[global] Arguments MTick {Q}.

Context {Q A : Type} (serve : Q -> Proc A) (tick : Z -> Tab -> Tab).

Definition move (l : Move Q) (p : Pool Q A) : option (Pool Q A) :=
  match l with
  | MCall q => Some (mkPool (pl_st p) (pl_reqs p ++ [q]) (<[length (pl_reqs p) := serve q]> (pl_calls p)) (pl_done p))
  | MRun c env =>
      match pl_calls p !! c with
      | None => None
      | Some (Ret r) => Some (mkPool (pl_st p) (pl_reqs p) (delete c (pl_calls p)) (pl_done p ++ [(c, r)]))
      | Some (Atom m k) =>
          let '(r, s) := m env (pl_st p) in
          Some (mkPool s (pl_reqs p) (<[c := k r]> (pl_calls p)) (pl_done p))
      end
  | MDrop c => Some (mkPool (pl_st p) (pl_reqs p) (delete c (pl_calls p)) (pl_done p))
  | MTick n =>
      if n <=? 0 then None
      else Some (mkPool (with_tabs (tick n (tabs (pl_st p))) (pl_st p)) (pl_reqs p) (pl_calls p) (pl_done p))
  end.

Fixpoint moves (ls : list (Move Q)) (p : Pool Q A) : option (Pool Q A) :=
  match ls with
  | [] => Some p
  | l :: ls => p ← move l p; moves ls p
  end.

Definition idle (s : St) : Pool Q A := mkPool s [] ∅ [].

(** ** Deeds *)

(** What an atom did to the tables as a whole, or saw in them; the ids of the rows it put there. *)
Context {Deed : Type} (ok : Deed -> Tab -> Prop) (doit : Deed -> Tab -> Tab) (ids : Deed -> gset Z).

Inductive Happening := ByCall (c : nat) (d : Deed) | Ticked (n : Z).

Definition hap_ids (h : Happening) : gset Z := match h with ByCall _ d => ids d | Ticked _ => ∅ end.
Definition hap_ok (h : Happening) (t : Tab) : Prop :=
  match h with ByCall _ d => ok d t | Ticked n => 0 < n end.
Definition hap_do (h : Happening) (t : Tab) : Tab :=
  match h with ByCall _ d => doit d t | Ticked n => tick n t end.

(** Happenings follow one another, and no id is used twice. *)
Fixpoint replay (sp : gset Z) (t : Tab) (hs : list Happening) (sp' : gset Z) (t' : Tab) : Prop :=
  match hs with
  | [] => sp' = sp /\ t' = t
  | h :: hs => hap_ok h t /\ hap_ids h ## sp /\ replay (sp ∪ hap_ids h) (hap_do h t) hs sp' t'
  end.

Lemma replay_app sp t hs1 sp1 t1 hs2 sp2 t2 :
  replay sp t hs1 sp1 t1 -> replay sp1 t1 hs2 sp2 t2 -> replay sp t (hs1 ++ hs2) sp2 t2.
Proof.
  revert sp t. induction hs1 as [|h hs1 IH]; intros sp t; [by intros [-> ->]|].
  cbn. intros (Hok & Hd & Hr) H2. split_and!; [done|done|]. by eapply IH.
Qed.

Definition deed_of (c : nat) (h : Happening) : option Deed :=
  match h with ByCall c' d => if decide (c' = c) then Some d else None | Ticked _ => None end.

(** The deeds of one call, oldest first. *)
Definition deeds_of (c : nat) (hs : list Happening) : list Deed := omap (deed_of c) hs.

(** ** The rule *)

(** An invariant of the tables, given the ids used so far. *)
Context (inv : gset Z -> Tab -> Prop).

Definition issued (X : gset Z) (g : Generator) : Prop := forall i, i ∈ X -> i <= mark g.

(** What a call that has minted the ids [X] may rely on: others leave them alone. *)
Definition relies (X : gset Z) (sp : gset Z) (t : Tab) (g : Generator) (sp' : gset Z) (t' : Tab) (g' : Generator)
    : Prop :=
  (exists hs, replay sp t hs sp' t' /\ Forall (fun h => hap_ids h ## X) hs) /\ later g g'.

Record sound (X sp : gset Z) (t : Tab) (g : Generator) : Prop := mkSound {
  snd_inv : inv sp t; snd_gen : gen_ok g; snd_spent : issued sp g; snd_mine : issued X g; snd_unused : X ## sp
}.

(** What a call's next deed must be, given those before. *)
Abbreviation Warrant := (list Deed -> Deed -> Prop).

(** What an atom did, if anything: its effect on the tables, the ids it was allowed and those it used. *)
Definition did (X : gset Z) (od : option Deed) (minted : gset Z) (t : Tab) (g : Generator) (t' : Tab)
    (g' : Generator) : Prop :=
  (forall i, i ∈ minted -> mark g < i <= mark g') /\ later g g' /\
  match od with
  | None => t' = t
  | Some d => ids d ⊆ X ∪ minted /\ ok d t /\ t' = doit d t
  end.

Definition od_ids (od : option Deed) : gset Z := from_option ids ∅ od.

Lemma did_nothing X t g t' g' : later g g' -> t' = t -> did X None ∅ t g t' g'.
Proof. intros Hl ->. split; [|done]. intros i Hi. by apply elem_of_empty in Hi. Qed.

Lemma did_deed X d t g g' : later g g' -> ids d ⊆ X -> ok d t -> did X (Some d) ∅ t g (doit d t) g'.
Proof.
  intros Hl Hi Hok. split; [|split; [done|split; [set_solver|done]]]. intros i Hm. by apply elem_of_empty in Hm.
Qed.

(** [does W X log p sp t g Φ]: run from the tables [t] among other calls, whatever [p] does is a sequence
    of deeds, each warranted by those before it, and when it ends with [r] they and the tables satisfy [Φ].
    [X] is what it has minted and not used, [log] the deeds before. *)
Fixpoint does {A} (W : Warrant) (X : gset Z) (log : list Deed) (p : Proc A) (sp : gset Z) (t : Tab) (g : Generator)
    (Φ : gset Z -> list Deed -> Err + A -> gset Z -> Tab -> Generator -> Prop) : Prop :=
  match p with
  | Ret r => Φ X log r sp t g
  | Atom m k => forall env sp1 (s1 : St), relies X sp t g sp1 (tabs s1) (gen s1) -> sound X sp1 (tabs s1) (gen s1) ->
      exists od minted,
        did X od minted (tabs s1) (gen s1) (tabs (m env s1).2) (gen (m env s1).2) /\
        (forall d, od = Some d -> W log d) /\
        does W ((X ∪ minted) ∖ od_ids od) (log ++ option_list od) (k (m env s1).1) (sp1 ∪ od_ids od)
          (tabs (m env s1).2) (gen (m env s1).2) Φ
  end.

Lemma relies_refl X sp t g : relies X sp t g sp t g.
Proof. split; [|done]. exists []. split; [done|]. constructor. Qed.

Lemma relies_later X sp t g g' : later g g' -> relies X sp t g sp t g'.
Proof. intros H. split; [|done]. exists []. split; [done|]. constructor. Qed.

Lemma relies_trans X sp t g sp1 t1 g1 sp2 t2 g2 :
  relies X sp t g sp1 t1 g1 -> relies X sp1 t1 g1 sp2 t2 g2 -> relies X sp t g sp2 t2 g2.
Proof.
  intros [(hs1 & H1 & F1) L1] [(hs2 & H2 & F2) L2]. split; [|by etrans]. exists (hs1 ++ hs2).
  split; [by eapply replay_app|by apply Forall_app].
Qed.

(** ** Rules *)

Section rules.
Context {B : Type} (W : Warrant).
Implicit Types Φ : gset Z -> list Deed -> Err + B -> gset Z -> Tab -> Generator -> Prop.

Lemma does_mono X log (p : Proc B) sp t g Φ Ψ :
  does W X log p sp t g Φ -> (forall X log r sp t g, Φ X log r sp t g -> Ψ X log r sp t g) -> does W X log p sp t g Ψ.
Proof.
  intros H HΦ. revert X log sp t g H. induction p as [r|C m k IH]; intros X log sp t g; cbn; [apply HΦ|].
  intros H env sp1 s1 Hr Hs. destruct (H env sp1 s1 Hr Hs) as (od & minted & Hd & Hw & Hk).
  exists od, minted. split; [done|]. split; [done|]. by apply IH.
Qed.

Lemma does_bind {C} X log (p : Proc C) (k : C -> Proc B) sp t g Φ :
  does W X log p sp t g (fun X log r sp t g =>
    match r with inl e => Φ X log (inl e) sp t g | inr a => does W X log (k a) sp t g Φ end) ->
  does W X log (p ≫= k) sp t g Φ.
Proof.
  revert X log sp t g. induction p as [[e|a]|D m k' IH]; intros X log sp t g; [done..|].
  intros H env sp1 s1 Hr Hs. destruct (H env sp1 s1 Hr Hs) as (od & minted & Hd & Hw & Hk).
  exists od, minted. split; [done|]. split; [done|]. by apply IH.
Qed.

Lemma does_fail_if X log (b : bool) e (k : unit -> Proc B) sp t g Φ :
  (b = true -> Φ X log (inl e) sp t g) -> (b = false -> does W X log (k tt) sp t g Φ) ->
  does W X log (fail_if b e ≫= k) sp t g Φ.
Proof. intros H1 H2. destruct b; [by apply H1|by apply H2]. Qed.

Lemma does_try {C} X log (p : Proc C) sp t g (Φ : gset Z -> list Deed -> Err + (Err + C) -> gset Z -> Tab -> Generator -> Prop) :
  does W X log p sp t g (fun X log r sp t g => Φ X log (inr r) sp t g) -> does W X log (try p) sp t g Φ.
Proof.
  revert X log sp t g. induction p as [r|D m k IH]; intros X log sp t g; [done|].
  intros H env sp1 s1 Hr Hs. destruct (H env sp1 s1 Hr Hs) as (od & minted & Hd & Hw & Hk).
  exists od, minted. split; [done|]. split; [done|]. by apply IH.
Qed.

(** A computation that only looks at its environment. *)
Lemma does_local {C} X log (f : Env -> Err + C) sp t g (Φ : gset Z -> list Deed -> Err + C -> gset Z -> Tab -> Generator -> Prop) :
  (forall env sp1 t1 g1, relies X sp t g sp1 t1 g1 -> sound X sp1 t1 g1 -> Φ X log (f env) sp1 t1 g1) ->
  does W X log (atom (fun env s => (f env, s))) sp t g Φ.
Proof.
  intros H env sp1 s1 Hr Hs. exists None, ∅. cbn. split; [by apply did_nothing|]. split; [done|].
  rewrite app_nil_r, union_empty_r_L, difference_empty_L, union_empty_r_L. by apply H.
Qed.

(** A statement that reads, and what it saw. *)
Lemma does_reading {C} X log (f : Tab -> Err + C) sp t g (Φ : gset Z -> list Deed -> Err + C -> gset Z -> Tab -> Generator -> Prop) :
  (forall sp1 t1 g1, relies X sp t g sp1 t1 g1 -> sound X sp1 t1 g1 -> Φ X log (inl EDb) sp1 t1 g1) ->
  (forall sp1 t1 g1, relies X sp t g sp1 t1 g1 -> sound X sp1 t1 g1 ->
     exists od, match od with None => True | Some d => ids d = ∅ /\ ok d t1 /\ doit d t1 = t1 /\ W log d end /\
       Φ X (log ++ option_list od) (f t1) sp1 t1 g1) ->
  does W X log (atom (fun _ => reading f)) sp t g Φ.
Proof.
  intros H1 H2 env sp1 s1 Hr Hs. unfold reading. destruct (next_fault s1) as [b s2] eqn:E.
  apply next_fault_with in E as [fs ->]. destruct b.
  - exists None, ∅. cbn. split; [by apply did_nothing|]. split; [done|].
    rewrite app_nil_r, union_empty_r_L, difference_empty_L, union_empty_r_L. by apply H1.
  - destruct (H2 sp1 (tabs s1) (gen s1) Hr Hs) as (od & Hd & HΦ). exists od, ∅. cbn.
    destruct od as [d|]; cbn in *.
    + destruct Hd as (Hi & Hok & Hdo & Hw). split; [rewrite <- Hdo at 2; apply did_deed; [done|set_solver|done]|].
      split; [by intros ? [= <-]|].
      rewrite Hi, !union_empty_r_L, difference_empty_L. done.
    + split; [by apply did_nothing|]. rewrite !union_empty_r_L, difference_empty_L. done.
Qed.

(** A statement that writes: it does one deed, or nothing. *)
Lemma does_writing {C} X log (f : Tab -> Err + (C * Tab)) sp t g (Φ : gset Z -> list Deed -> Err + C -> gset Z -> Tab -> Generator -> Prop) :
  (forall sp1 t1 g1 e, relies X sp t g sp1 t1 g1 -> sound X sp1 t1 g1 -> Φ X log (inl e) sp1 t1 g1) ->
  (forall sp1 t1 g1 a t2, relies X sp t g sp1 t1 g1 -> sound X sp1 t1 g1 -> f t1 = inr (a, t2) ->
     exists d, ids d ⊆ X /\ ok d t1 /\ t2 = doit d t1 /\ W log d /\
       Φ (X ∖ ids d) (log ++ [d]) (inr a) (sp1 ∪ ids d) t2 g1) ->
  does W X log (atom (fun _ => writing f)) sp t g Φ.
Proof.
  intros H1 H2 env sp1 s1 Hr Hs. unfold writing. destruct (next_fault s1) as [b s2] eqn:E.
  apply next_fault_with in E as [fs ->].
  assert (forall e, exists od minted, did X od minted (tabs s1) (gen s1) (tabs s1) (gen s1) /\ (forall d, od = Some d -> W log d) /\
    Φ ((X ∪ minted) ∖ od_ids od) (log ++ option_list od) (inl e) (sp1 ∪ od_ids od) (tabs s1) (gen s1)) as He.
  { intros e. exists None, ∅. cbn. split; [by apply did_nothing|]. split; [done|].
    rewrite app_nil_r, union_empty_r_L, difference_empty_L, union_empty_r_L. by apply H1. }
  destruct b; [by apply He|]. cbn. destruct (f (tabs s1)) as [e|[a t2]] eqn:Ef; [by apply He|].
  destruct (H2 sp1 (tabs s1) (gen s1) a t2 Hr Hs Ef) as (d & Hi & Hok & -> & Hw & HΦ).
  exists (Some d), ∅. cbn. rewrite !union_empty_r_L. split; [by apply did_deed|]. split; [by intros ? [= <-]|done].
Qed.

(** An id minted. *)
Lemma does_ids_Next X log sp t g (Φ : gset Z -> list Deed -> Err + Z -> gset Z -> Tab -> Generator -> Prop) :
  (forall sp1 t1 g1 e, relies X sp t g sp1 t1 g1 -> Φ X log (inl e) sp1 t1 g1) ->
  (forall sp1 t1 g1 id, relies X sp t g sp1 t1 g1 -> id ∉ sp1 -> Φ (X ∪ {[id]}) log (inr id) sp1 t1 g1) ->
  does W X log (atom (fun _ => ids_Next)) sp t g Φ.
Proof.
  intros H1 H2 env sp1 s1 Hr [Hi Hg Hsp Hx Hu]. unfold ids_Next.
  assert (forall e g', later (gen s1) g' -> exists od minted, did X od minted (tabs s1) (gen s1) (tabs s1) g' /\ (forall d, od = Some d -> W log d) /\
    Φ ((X ∪ minted) ∖ od_ids od) (log ++ option_list od) (inl e) (sp1 ∪ od_ids od) (tabs s1) g') as He.
  { intros e g' Hl. exists None, ∅. cbn. split; [by apply did_nothing|]. split; [done|].
    rewrite app_nil_r, union_empty_r_L, difference_empty_L, union_empty_r_L. apply H1.
    eapply relies_trans; [exact Hr|by apply relies_later]. }
  destruct (Next (gen s1) (clock s1)) as [[[[id|] g'] c]|] eqn:E; cbn; [|apply He; by eapply Next_later|by apply He].
  destruct (Next_spec _ _ _ _ _ Hg E) as (Hg' & _ & Hmk & Hid). 
  exists None, {[id]}. cbn. split; [|split; [done|]].
  - split_and!; [|by eapply Next_later|done]. intros i ->%elem_of_singleton. lia.
  - rewrite app_nil_r, difference_empty_L, union_empty_r_L. apply H2.
    + eapply relies_trans; [exact Hr|]. apply relies_later. by eapply Next_later.
    + intros Hin. specialize (Hsp id Hin). lia.
Qed.

(** A transaction: what its body does is a deed, and a body that fails did nothing. *)
Lemma does_tx {C} X log (fn : Env -> M C) sp t g (Φ : gset Z -> list Deed -> Err + C -> gset Z -> Tab -> Generator -> Prop) :
  (forall env, quiet (fn env)) ->
  (forall env s1 s2 sp1 t1 g1 e, relies X sp t g sp1 t1 g1 -> RunInTx (fn env) s1 = (inl e, s2) ->
     Φ X log (inl e) sp1 t1 g1) ->
  (forall env sp1 (s1 : St), relies X sp t g sp1 (tabs s1) (gen s1) -> sound X sp1 (tabs s1) (gen s1) ->
     wp (fn env) (fun a s2 => exists d minted,
       (forall i, i ∈ minted -> mark (gen s1) < i <= mark (gen s2)) /\ ids d ⊆ X ∪ minted /\ ok d (tabs s1) /\
       tabs s2 = doit d (tabs s1) /\ W log d /\
       forall g', later (gen s2) g' ->
         Φ ((X ∪ minted) ∖ ids d) (log ++ [d]) (inr a) (sp1 ∪ ids d) (tabs s2) g') s1) ->
  does W X log (atom (fun env => RunInTx (fn env))) sp t g Φ.
Proof.
  intros Hq H1 H2 env sp1 s1 Hr Hs.
  assert (forall r s2 e, RunInTx (fn env) s1 = (r, s2) -> r = inl e -> exists od minted,
    did X od minted (tabs s1) (gen s1) (tabs s2) (gen s2) /\ (forall d, od = Some d -> W log d) /\
    Φ ((X ∪ minted) ∖ od_ids od) (log ++ option_list od) r (sp1 ∪ od_ids od) (tabs s2) (gen s2)) as He.
  { intros r s2 e E ->. destruct (RunInTx_rollback _ _ _ _ (Hq env) E) as [Ht _].
    pose proof (RunInTx_later (fn env) s1 (Hq env)) as Hl. rewrite E in Hl. cbn in Hl.
    exists None, ∅. cbn. split; [by apply did_nothing|]. split; [done|].
    rewrite app_nil_r, union_empty_r_L, difference_empty_L, union_empty_r_L, Ht. eapply H1; [|exact E].
    eapply relies_trans; [exact Hr|by apply relies_later]. }
  destruct (RunInTx (fn env) s1) as [[e|a] s2] eqn:E; [by eapply He|]. clear He. cbn.
  pose proof (RunInTx_later (fn env) s1 (Hq env)) as Hl. rewrite E in Hl. cbn in Hl.
  unfold RunInTx in E. destruct (next_fault s1) as [b s0] eqn:E0.
  apply next_fault_with in E0 as [fs ->]. destruct b; [done|].
  specialize (H2 env sp1 (with_hooks [] (with_faults fs s1)) Hr Hs). unfold wp in H2.
  pose proof (Hq env (with_hooks [] (with_faults fs s1))) as (_ & _ & Hlb).
  destruct (fn env _) as [[e|a0] s3]; [done|]. cbn in Hlb.
  destruct (next_fault s3) as [b s4] eqn:E4. apply next_fault_with in E4 as [fs' ->]. destruct b; [done|].
  injection E as <- <-. cbn in *.
  destruct (afterCommit_run_frame (hooks s3) (with_faults fs' s3)) as (Ht & Hg & _). cbn in *. rewrite Ht, Hg in *.
  destruct H2 as (d & minted & Hm & Hi & Hok & Hdo & Hw & HΦ). cbn in *.
  exists (Some d), minted. cbn. split; [by split_and!|]. split; [by intros ? [= <-]|]. by apply HΦ.
Qed.

End rules.

(** What others' deeds keep, a call may rely on. *)
Definition stable (F : gset Z -> Tab -> Prop) : Prop := forall sp h t,
  F sp t -> hap_ok h t -> hap_ids h ## sp -> F (sp ∪ hap_ids h) (hap_do h t).

Lemma stable_replay F sp t hs sp' t' : stable F -> replay sp t hs sp' t' -> F sp t -> F sp' t'.
Proof.
  intros HF. revert sp t. induction hs as [|h hs IH]; intros sp t; [by intros [-> ->]|].
  intros (Hok & Hd & Hr) H. eapply IH; [done|]. by apply HF.
Qed.

Lemma stable_relies F X sp t g sp' t' g' : stable F -> relies X sp t g sp' t' g' -> F sp t -> F sp' t'.
Proof. intros HF [(hs & Hr & _) _]. by eapply stable_replay. Qed.

(** ** Servers refine the machine of deeds *)

Context (may : Q -> Warrant) (post : Q -> list Deed -> Err + A -> Prop).
Context (inv_step : forall sp h t, inv sp t -> hap_ok h t -> hap_ids h ## sp -> inv (sp ∪ hap_ids h) (hap_do h t)).
Context (serve_safe : forall q sp t g, sound ∅ sp t g ->
  does (may q) ∅ [] (serve q) sp t g (fun _ log r _ _ _ => post q log r)).

(** Each call has its own minted ids, and is safe where the server is. *)
Record pool_ok (sp : gset Z) (hs : list Happening) (Xs : nat -> gset Z) (p : Pool Q A) : Prop := mkPoolOk {
  po_inv : inv sp (tabs (pl_st p)); po_gen : gen_ok (gen (pl_st p)); po_spent : issued sp (gen (pl_st p));
  po_mine : forall c, issued (Xs c) (gen (pl_st p)) /\ Xs c ## sp;
  po_apart : forall c1 c2, c1 <> c2 -> Xs c1 ## Xs c2;
  po_safe : forall c pr, pl_calls p !! c = Some pr -> exists q, pl_reqs p !! c = Some q /\
    does (may q) (Xs c) (deeds_of c hs) pr sp (tabs (pl_st p)) (gen (pl_st p)) (fun _ log r _ _ _ => post q log r);
  po_new : forall c, (length (pl_reqs p) <= c)%nat -> Xs c = ∅ /\ deeds_of c hs = [];
  po_may : forall hs1 c d hs2, hs = hs1 ++ ByCall c d :: hs2 -> exists q, pl_reqs p !! c = Some q /\
    may q (deeds_of c hs1) d;
  po_done : forall c r, (c, r) ∈ pl_done p -> pl_calls p !! c = None /\ exists q, pl_reqs p !! c = Some q /\
    post q (deeds_of c hs) r
}.

Lemma deeds_of_other c c' od hs : c <> c' -> deeds_of c (hs ++ option_list (ByCall c' <$> od)) = deeds_of c hs.
Proof.
  intros Hc. unfold deeds_of. rewrite omap_app. destruct od; cbn; [|by rewrite app_nil_r].
  rewrite decide_False by done. by rewrite app_nil_r.
Qed.

Lemma deeds_of_own c od hs :
  deeds_of c (hs ++ option_list (ByCall c <$> od)) = deeds_of c hs ++ option_list od.
Proof. unfold deeds_of. rewrite omap_app. destruct od; cbn; [|done]. by rewrite decide_True. Qed.

Lemma deeds_of_tick c n hs : deeds_of c (hs ++ [Ticked n]) = deeds_of c hs.
Proof. unfold deeds_of. rewrite omap_app. cbn. by rewrite app_nil_r. Qed.

(** Where an element of a list with one more stands. *)
Lemma app_snoc_inv {C} (l : list C) x l1 y l2 :
  l ++ [x] = l1 ++ y :: l2 -> (l1 = l /\ y = x /\ l2 = []) \/ exists l3, l = l1 ++ y :: l3 /\ l2 = l3 ++ [x].
Proof.
  destruct l2 as [|z l2 _] using rev_ind.
  - intros Heq. left. change (l ++ [x] = l1 ++ [y]) in Heq. by apply app_inj_tail in Heq as [-> ->].
  - rewrite app_comm_cons, app_assoc. intros [Hl Hx]%app_inj_tail. right. exists l2. by subst.
Qed.

(** A happening that uses no id of [X] is one [X] may rely on. *)
Lemma relies_one X sp t g h t' g' :
  hap_ok h t -> hap_ids h ## sp -> hap_ids h ## X -> t' = hap_do h t -> later g g' ->
  relies X sp t g (sp ∪ hap_ids h) t' g'.
Proof. intros Hok Hsp HX -> Hl. split; [|done]. exists [h]. split; [by cbn|by constructor]. Qed.

Lemma does_relies {B} W X log (p : Proc B) sp t g sp1 t1 g1
    (Φ : list Deed -> Err + B -> Prop) :
  relies X sp t g sp1 t1 g1 -> does W X log p sp t g (fun _ log r _ _ _ => Φ log r) ->
  does W X log p sp1 t1 g1 (fun _ log r _ _ _ => Φ log r).
Proof.
  intros Hr. destruct p; [done|]. cbn. intros Hs env sp2 s2 Hr2. apply Hs. by eapply relies_trans.
Qed.

(** The ids an atom used are nobody else's. *)
Lemma did_apart sp hs Xs p c od minted t' g' :
  pool_ok sp hs Xs p -> did (Xs c) od minted (tabs (pl_st p)) (gen (pl_st p)) t' g' ->
  minted ## sp /\ od_ids od ## sp /\ od_ids od ⊆ Xs c ∪ minted /\
  forall c', c' <> c -> minted ## Xs c' /\ od_ids od ## Xs c'.
Proof.
  intros Hok (Hm & _ & Hd). pose proof (po_spent _ _ _ _ Hok) as Hsp. destruct (po_mine _ _ _ _ Hok c) as [_ Hxs].
  assert (minted ## sp) as Hms.
  { intros i Hi1 Hi2. specialize (Hm i Hi1). specialize (Hsp i Hi2). lia. }
  assert (od_ids od ⊆ Xs c ∪ minted) as Hsub by (destruct od as [d|]; cbn; [apply Hd|set_solver]).
  assert (forall c', c' <> c -> minted ## Xs c') as Hoth.
  { intros c' _ i Hi1 Hi2. specialize (Hm i Hi1). destruct (po_mine _ _ _ _ Hok c') as [Hx' _].
    specialize (Hx' i Hi2). lia. }
  split_and!; [done|set_solver|done|]. intros c' Hne. split; [by apply Hoth|].
  specialize (Hoth c' Hne). pose proof (po_apart _ _ _ _ Hok c' c Hne). set_solver.
Qed.

Lemma replay_one sp t c od minted X g t' g' :
  did X od minted t g t' g' -> od_ids od ## sp ->
  replay sp t (option_list (ByCall c <$> od)) (sp ∪ od_ids od) t'.
Proof.
  intros (_ & _ & Hd) Hi. destruct od as [d|]; cbn in *.
  - destruct Hd as (_ & Hok & ->). done.
  - split; [set_solver|done].
Qed.

Lemma od_inv sp X od minted t g t' g' :
  inv sp t -> did X od minted t g t' g' -> od_ids od ## sp -> inv (sp ∪ od_ids od) t'.
Proof.
  intros Hi (_ & _ & Hd) Hu. destruct od as [d|]; cbn in *.
  - destruct Hd as (_ & Hok & ->). by apply (inv_step sp (ByCall 0 d)).
  - rewrite Hd, union_empty_r_L. done.
Qed.

Lemma relies_did X0 sp t g (c : nat) od X minted t' g' :
  did X od minted t g t' g' -> od_ids od ## sp -> od_ids od ## X0 ->
  relies X0 sp t g (sp ∪ od_ids od) t' g'.
Proof.
  intros Hd Hi HX. split; [|apply Hd]. exists (option_list (ByCall c <$> od)).
  split; [by eapply replay_one|]. destruct od; cbn; by constructor.
Qed.

Lemma pool_atom sp hs Xs p c q B (m : Env -> M B) k env :
  pool_ok sp hs Xs p -> pl_calls p !! c = Some (Atom m k) -> pl_reqs p !! c = Some q ->
  exists od Xs', pool_ok (sp ∪ od_ids od) (hs ++ option_list (ByCall c <$> od)) Xs'
    (mkPool (m env (pl_st p)).2 (pl_reqs p) (<[c := k (m env (pl_st p)).1]> (pl_calls p)) (pl_done p)) /\
    replay sp (tabs (pl_st p)) (option_list (ByCall c <$> od)) (sp ∪ od_ids od) (tabs (m env (pl_st p)).2).
Proof.
  intros Hok Hc Hq. destruct (po_safe _ _ _ _ Hok c _ Hc) as (q' & Hq' & Hsf).
  assert (q' = q) as -> by congruence. destruct (po_mine _ _ _ _ Hok c) as [Hx Hxs].
  destruct (Hsf env sp (pl_st p) (relies_refl _ _ _ _)) as (od & minted & Hd & Hw & Hs');
    [constructor; by try apply Hok|].
  destruct (did_apart _ _ _ _ _ _ _ _ _ Hok Hd) as (Hms & Hds & Hsub & Hoth).
  pose proof Hd as (Hm & Hl & _). destruct (Hl (po_gen _ _ _ _ Hok)) as [Hg' Hmk].
  pose proof (po_spent _ _ _ _ Hok) as Hsp. set (s' := (m env (pl_st p)).2) in *.
  exists od, (fun c' => if decide (c' = c) then (Xs c ∪ minted) ∖ od_ids od else Xs c').
  split; [|by eapply replay_one]. constructor; cbn [pl_st pl_reqs pl_calls pl_done].
  - eapply od_inv; [apply Hok|done|done].
  - done.
  - intros i [Hi'|Hi']%elem_of_union; [specialize (Hsp i Hi'); lia|]. apply Hsub in Hi'.
    apply elem_of_union in Hi' as [Hi'|Hi']; [specialize (Hx i Hi'); lia|specialize (Hm i Hi'); lia].
  - intros c'. destruct (decide (c' = c)) as [->|Hne].
    + split; [|set_solver]. intros i [[Hi'|Hi']%elem_of_union _]%elem_of_difference;
        [specialize (Hx i Hi'); lia|specialize (Hm i Hi'); lia].
    + destruct (po_mine _ _ _ _ Hok c') as [Hx' Hxs']. destruct (Hoth c' Hne) as [_ Hoc].
      split; [|set_solver]. intros i Hi'. specialize (Hx' i Hi'). lia.
  - assert (forall c', c' <> c -> (Xs c ∪ minted) ∖ od_ids od ## Xs c') as Hc'.
    { intros c' Hne. destruct (Hoth c' Hne) as [Hmc _]. pose proof (po_apart _ _ _ _ Hok c' c Hne). set_solver. }
    intros c1 c2 Hne. destruct (decide (c1 = c)) as [->|H1], (decide (c2 = c)) as [->|H2]; try done; auto.
    + symmetry. auto.
    + by apply (po_apart _ _ _ _ Hok).
  - intros c' pr Hc'. apply lookup_insert_Some in Hc' as [[<- <-]|[Hne Hc']].
    + exists q. split; [done|]. rewrite deeds_of_own, decide_True by done. done.
    + destruct (po_safe _ _ _ _ Hok c' pr Hc') as (q1 & Hq1 & Hsf1). exists q1. split; [done|].
      rewrite deeds_of_other, decide_False by done. eapply does_relies; [|exact Hsf1].
      eapply (relies_did _ _ _ _ c); [exact Hd|done|]. by apply Hoth.
  - intros c' Hlen. assert (c' <> c) by (intros ->; apply lookup_lt_Some in Hq; lia).
    rewrite decide_False, deeds_of_other by done. by apply (po_new _ _ _ _ Hok).
  - intros hs1 c' d hs2 Heq. destruct od as [d'|]; cbn in Heq.
    + destruct (app_snoc_inv _ _ _ _ _ Heq) as [(-> & [= -> ->] & ->)|(hs3 & Heq' & ->)].
      * exists q. split; [done|]. by apply Hw.
      * by apply (po_may _ _ _ _ Hok hs1 c' d hs3).
    + rewrite app_nil_r in Heq. by apply (po_may _ _ _ _ Hok hs1 c' d hs2).
  - intros c' r Hr. destruct (po_done _ _ _ _ Hok c' r Hr) as (Hn & q1 & Hq1 & Hp). assert (c' <> c) by congruence.
    rewrite lookup_insert_ne by done. split; [done|]. exists q1. by rewrite deeds_of_other.
Qed.

(** A move that leaves the tables alone. *)
Lemma pool_frame sp hs Xs p calls done :
  pool_ok sp hs Xs p ->
  (forall c pr, calls !! c = Some pr -> pl_calls p !! c = Some pr) ->
  (forall c r, (c, r) ∈ done -> (c, r) ∈ pl_done p \/ pl_calls p !! c = Some (Ret r) /\ calls !! c = None) ->
  pool_ok sp hs Xs (mkPool (pl_st p) (pl_reqs p) calls done).
Proof.
  intros [Hi Hg Hs Hmine Hap Hsafe Hnew Hmay Hdone] Hcalls Hd. constructor; cbn; try done.
  - intros c pr Hc. by apply Hsafe, Hcalls.
  - intros c r Hr. destruct (Hd c r Hr) as [Hr'|[Hc Hn]].
    + destruct (Hdone c r Hr') as [Hn ?]. split; [|done]. destruct (calls !! c) eqn:E; [|done].
      apply Hcalls in E. congruence.
    + split; [done|]. destruct (Hsafe c _ Hc) as (q & Hq & Hp). by exists q.
Qed.

Lemma pool_move l sp hs Xs p p' :
  pool_ok sp hs Xs p -> move l p = Some p' -> exists sp' hs' Xs', pool_ok sp' (hs ++ hs') Xs' p' /\
    replay sp (tabs (pl_st p)) hs' sp' (tabs (pl_st p')).
Proof.
  intros Hok. destruct l as [q|c env|c|n]; cbn.
  - intros [= <-]. exists sp, [], Xs. rewrite app_nil_r. split; [|done].
    destruct Hok as [Hi Hg Hs Hmine Hap Hsafe Hnew Hmay Hdone]. constructor; cbn; try done.
    + intros c pr [[<- <-]|[Hne Hc]]%lookup_insert_Some.
      * exists q. rewrite lookup_app_r, Nat.sub_diag by done. split; [done|].
        destruct (Hnew (length (pl_reqs p))) as [Hx ->]; [done|]. rewrite Hx. apply serve_safe.
        constructor; [done|done|done|by intros i Hi'%elem_of_empty|set_solver].
      * destruct (Hsafe c pr Hc) as (q1 & Hq1 & ?). exists q1. split; [|done]. by apply lookup_app_l_Some.
    + intros c Hc. rewrite length_app in Hc. apply Hnew. lia.
    + intros hs1 c d hs2 Heq. destruct (Hmay hs1 c d hs2 Heq) as (q1 & Hq1 & ?). exists q1.
      split; [by apply lookup_app_l_Some|done].
    + intros c r Hr. destruct (Hdone c r Hr) as (Hn & q1 & Hq1 & Hp). split; [|exists q1; split; [by apply lookup_app_l_Some|done]].
      apply lookup_lt_Some in Hq1 as Hlt. rewrite lookup_insert_ne by lia. done.
  - destruct (pl_calls p !! c) as [[r|B m k]|] eqn:Hc; [| |done].
    + intros [= <-]. exists sp, [], Xs. rewrite app_nil_r. split; [|done]. apply pool_frame; [done| |].
      * by intros c' pr [Hne Hc']%lookup_delete_Some.
      * intros c' r' [Hr|[= -> ->]%list_elem_of_singleton]%elem_of_app; [by left|]. right.
        split; [done|by apply lookup_delete_eq].
    + destruct (m env (pl_st p)) as [r s'] eqn:E. intros [= <-].
      destruct (po_safe _ _ _ _ Hok c _ Hc) as (q & Hq & _).
      destruct (pool_atom sp hs Xs p c q B m k env Hok Hc Hq) as (od & Xs' & Hok' & Hrep). rewrite E in *.
      by exists (sp ∪ od_ids od), (option_list (ByCall c <$> od)), Xs'.
  - intros [= <-]. exists sp, [], Xs. rewrite app_nil_r. split; [|done]. apply pool_frame; [done| |by left].
    by intros c' pr [Hne Hc']%lookup_delete_Some.
  - destruct (n <=? 0) eqn:En; [done|]. intros [= <-]. apply Z.leb_gt in En.
    exists sp, [Ticked n], Xs. split; [|cbn; rewrite union_empty_r_L; by split_and!; [|set_solver| |]].
    destruct Hok as [Hi Hg Hs Hmine Hap Hsafe Hnew Hmay Hdone].
    assert (forall X, relies X sp (tabs (pl_st p)) (gen (pl_st p)) sp (tick n (tabs (pl_st p))) (gen (pl_st p))) as Hr.
    { intros X. rewrite <- (union_empty_r_L sp) at 2. by apply (relies_one X sp _ _ (Ticked n)); try set_solver. }
    constructor; cbn; try done.
    + rewrite <- (union_empty_r_L sp). by apply (inv_step sp (Ticked n)); [|cbn|set_solver].
    + intros c pr Hc. destruct (Hsafe c pr Hc) as (q & Hq & Hsf). exists q. split; [done|].
      rewrite deeds_of_tick. by eapply does_relies.
    + intros c Hc. rewrite deeds_of_tick. by apply Hnew.
    + intros hs1 c d hs2 Heq. destruct (app_snoc_inv _ _ _ _ _ Heq) as [(_ & [=] & _)|(hs3 & -> & _)].
      by apply (Hmay hs1 c d hs3).
    + intros c r Hr'. destruct (Hdone c r Hr') as (Hn & q & Hq & Hp). split; [done|]. exists q.
      by rewrite deeds_of_tick.
Qed.

Lemma pool_moves ls sp hs Xs p p' :
  pool_ok sp hs Xs p -> moves ls p = Some p' -> exists sp' hs' Xs', pool_ok sp' (hs ++ hs') Xs' p' /\
    replay sp (tabs (pl_st p)) hs' sp' (tabs (pl_st p')).
Proof.
  revert sp hs Xs p. induction ls as [|l ls IH]; intros sp hs Xs p Hok.
  - intros [= <-]. exists sp, [], Xs. by rewrite app_nil_r.
  - cbn [moves]. intros (p1 & Hl & Hls)%bind_Some.
    destruct (pool_move l sp hs Xs p p1 Hok Hl) as (sp1 & hs1 & Xs1 & Hok1 & H1).
    destruct (IH sp1 (hs ++ hs1) Xs1 p1 Hok1 Hls) as (sp2 & hs2 & Xs2 & Hok2 & H2).
    exists sp2, (hs1 ++ hs2), Xs2. rewrite app_assoc. split; [done|]. by eapply replay_app.
Qed.

(** Whatever the order in which a server ran the atoms of its calls, the tables are what a sequence of
    deeds makes of them, in which no id is used twice, and each answer is one its request's deeds allow. *)
Lemma pool_refines ls sp s p :
  sound ∅ sp (tabs s) (gen s) -> moves ls (idle s) = Some p -> exists sp' hs Xs,
    replay sp (tabs s) hs sp' (tabs (pl_st p)) /\ pool_ok sp' hs Xs p.
Proof.
  intros [Hi Hg Hsp _ _] Hm. destruct (pool_moves ls sp [] (fun _ => ∅) (idle s) p) as (sp' & hs & Xs & Hok & Hr).
  - constructor; cbn; try done; [|intros c r Hc; by apply elem_of_nil in Hc].
    intros hs1 c d hs2 Heq. by destruct hs1.
  - done.
  - by exists sp', hs, Xs.
Qed.

(** What a pool's answers say. *)
Lemma pool_answers sp hs Xs p c r :
  pool_ok sp hs Xs p -> (c, r) ∈ pl_done p -> exists q, pl_reqs p !! c = Some q /\ post q (deeds_of c hs) r.
Proof. intros Hok Hr. by destruct (po_done _ _ _ _ Hok c r Hr) as [_ ?]. Qed.
End proc.
