(* ===== verification/TxMonad.v ===== *)
(** The tables of the guild services and of the conversations, and the monad of Tx over them. *)
From S2P Require Import Prelude GoStd Snowflake Rows.
From S2P Require Export Tx.

(** ** Tables *)

Record AuditRow := mkAuditRow {
  audit_guild_id : option Z; audit_actor_id : Z; audit_action : string;
  audit_target_id : option Z; audit_changes : option auditDiff
}.

(** Primary keys are the map keys. *)
Record Tables := mkTables {
  t_guilds : gmap Z dbGuild;
  t_members : gmap (Z * Z) dbGuildMember;
  t_roles : gmap Z dbRole;
  t_member_roles : gset (Z * Z * Z);
  t_channels : gmap Z dbChannel;
  t_overwrites : gmap (Z * Z * Z) (Z * Z);
  t_users : gmap Z dbUser;
  t_admins : gset Z;
  t_audit : gmap Z AuditRow;
  t_invites : gmap Z dbInvite;
  t_chat : Chat
}.

Definition set_guilds m t := mkTables m (t_members t) (t_roles t) (t_member_roles t)
  (t_channels t) (t_overwrites t) (t_users t) (t_admins t) (t_audit t) (t_invites t) (t_chat t).
Definition set_members m t := mkTables (t_guilds t) m (t_roles t) (t_member_roles t)
  (t_channels t) (t_overwrites t) (t_users t) (t_admins t) (t_audit t) (t_invites t) (t_chat t).
Definition set_roles m t := mkTables (t_guilds t) (t_members t) m (t_member_roles t)
  (t_channels t) (t_overwrites t) (t_users t) (t_admins t) (t_audit t) (t_invites t) (t_chat t).
Definition set_member_roles m t := mkTables (t_guilds t) (t_members t) (t_roles t) m
  (t_channels t) (t_overwrites t) (t_users t) (t_admins t) (t_audit t) (t_invites t) (t_chat t).
Definition set_channels m t := mkTables (t_guilds t) (t_members t) (t_roles t) (t_member_roles t)
  m (t_overwrites t) (t_users t) (t_admins t) (t_audit t) (t_invites t) (t_chat t).
Definition set_overwrites m t := mkTables (t_guilds t) (t_members t) (t_roles t)
  (t_member_roles t) (t_channels t) m (t_users t) (t_admins t) (t_audit t) (t_invites t) (t_chat t).
Definition set_audit m t := mkTables (t_guilds t) (t_members t) (t_roles t) (t_member_roles t)
  (t_channels t) (t_overwrites t) (t_users t) (t_admins t) m (t_invites t) (t_chat t).
Definition set_invites m t := mkTables (t_guilds t) (t_members t) (t_roles t) (t_member_roles t)
  (t_channels t) (t_overwrites t) (t_users t) (t_admins t) (t_audit t) m (t_chat t).
Definition set_chat m t := mkTables (t_guilds t) (t_members t) (t_roles t) (t_member_roles t)
  (t_channels t) (t_overwrites t) (t_users t) (t_admins t) (t_audit t) (t_invites t) m.

(** ** The monad *)

Abbreviation St := (StOf Tables (Event Payload)).
Abbreviation M := (TxM Tables (Event Payload)).
