(* ===== verification/Queries.v ===== *)
(** The SQL statements the guild and authority code runs, as functions on the tables
    (backend/internal/db/guilds.sql.go, roles.sql.go, instance.sql.go, invites.sql.go).

    A SELECT without ORDER BY returns its rows in whatever order the maps enumerate them, which
    no theorem may rely on. The locking clauses and the advisory locks order concurrent
    transactions; here transactions run one after another, so they change nothing. *)
From S2P Require Import Prelude GoStd Rows Snowflake TxMonad.

(** ** Row sets shared by the statements *)

Definition role_rows (t : Tables) : list dbRole := (map_to_list (t_roles t)).*2.

Definition guild_roles (t : Tables) (g : Z) : list dbRole :=
  filter (fun r => role_guild_id r = g) (role_rows t).

Definition default_roles (t : Tables) (g : Z) : list dbRole :=
  filter (fun r => role_is_default r = true) (guild_roles t g).

(** The roles granted to a member, as the grant rows name them. *)
Definition member_role_ids (t : Tables) (g u : Z) : list Z :=
  (filter (fun k => k.1 = (g, u)) (elements (t_member_roles t))).*2.

Definition overwrite_rows (t : Tables) : list PermissionOverwrite :=
  (fun '(c, ty, id, (allow, deny)) => mkPermissionOverwrite c ty id allow deny)
    <$> map_to_list (t_overwrites t).

Definition channel_overwrites (t : Tables) (c : Z) : list PermissionOverwrite :=
  filter (fun ow => ow_channel_id ow = c) (overwrite_rows t).

(** The join of an overwrite to a channel of guild [g]. *)
Definition channel_in_guild (t : Tables) (c g : Z) : bool :=
  match t_channels t !! c with
  | Some ch => bool_decide (channel_guild_id ch = Some g)
  | None => false
  end.

Definition count {A} (l : list A) : Z := Z.of_nat (length l).

Definition role_before (r1 r2 : dbRole) : Prop :=
  role_position r1 < role_position r2 \/
  (role_position r1 = role_position r2 /\ role_id r1 <= role_id r2).

#[export] Instance role_before_dec r1 r2 : Decision (role_before r1 r2).
Proof. unfold role_before. apply _. Defined.

(** ORDER BY position, id *)
Definition by_position (l : list dbRole) : list dbRole := merge_sort role_before l.

Definition live_account (t : Tables) (u : Z) : bool :=
  match t_users t !! u with Some user => negb (user_deleted user) | None => false end.

(** [:one]: the first row, or ErrNoRows. *)
Definition one {A} (rows : list A) : Err + A :=
  match rows with [] => inl ENoRows | x :: _ => inr x end.

Definition found {A} (row : option A) : Err + A :=
  match row with None => inl ENoRows | Some x => inr x end.

(** ** Authority reads *)

Definition Queries_IsInstanceAdmin (u : Z) : M bool :=
  reading (fun t => inr (bool_decide (u ∈ t_admins t) && live_account t u)).

(** The role columns are NULL together when the LEFT JOIN found none. *)
Record ListGuildMemberAuthorityRow := mkAuthorityRow {
  ar_owner_id : Z; ar_is_member : bool; ar_role_id : option Z; ar_role_permissions : option Z;
  ar_role_position : option Z; ar_role_is_default : option bool
}.

Definition authority_row (owner : Z) (is_member : bool) (r : option dbRole)
    : ListGuildMemberAuthorityRow := {|
  ar_owner_id := owner; ar_is_member := is_member; ar_role_id := role_id <$> r;
  ar_role_permissions := role_permissions <$> r; ar_role_position := role_position <$> r;
  ar_role_is_default := role_is_default <$> r
|}.

(** [r.is_default OR EXISTS (a grant)] *)
Definition authority_roles (t : Tables) (g u : Z) : list dbRole :=
  filter (fun r => role_is_default r = true \/ (g, u, role_id r) ∈ t_member_roles t)
    (guild_roles t g).

Definition authority_rows (t : Tables) (g u : Z) : list ListGuildMemberAuthorityRow :=
  match t_guilds t !! g with
  | None => []
  | Some gr =>
      let is_member := bool_decide (is_Some (t_members t !! (g, u))) in
      match authority_roles t g u with
      | [] => [authority_row (guild_owner_id gr) is_member None]
      | rs => (fun r => authority_row (guild_owner_id gr) is_member (Some r)) <$> rs
      end
  end.

Definition Queries_ListGuildMemberAuthority (g u : Z) : M (list ListGuildMemberAuthorityRow) :=
  reading (fun t => inr (authority_rows t g u)).

Record GetGuildAuthorityBaseRow := mkAuthorityBase {
  ab_owner_id : Z; ab_everyone_role_id : Z; ab_everyone_permissions : Z
}.

Definition Queries_GetGuildAuthorityBase (g : Z) : M GetGuildAuthorityBaseRow :=
  reading (fun t =>
    match t_guilds t !! g with
    | None => inl ENoRows
    | Some gr =>
        one ((fun r => mkAuthorityBase (guild_owner_id gr) (role_id r) (role_permissions r))
               <$> default_roles t g)
    end).

Record ListMemberRolesForUsersRow := mkMemberRolesRow {
  mr_user_id : Z; mr_is_member : bool; mr_role_id : option Z; mr_role_permissions : option Z
}.

(** The rows of one account: one with no role for a non-member or a member with no grant. *)
Definition member_roles_of (t : Tables) (g u : Z) : list ListMemberRolesForUsersRow :=
  if decide (is_Some (t_members t !! (g, u))) then
    match member_role_ids t g u with
    | [] => [mkMemberRolesRow u true None None]
    | ids =>
        (fun id => let r := t_roles t !! id in
                   mkMemberRolesRow u true (role_id <$> r) (role_permissions <$> r)) <$> ids
    end
  else [mkMemberRolesRow u false None None].

Definition Queries_ListMemberRolesForUsers (users : list Z) (g : Z)
    : M (list ListMemberRolesForUsersRow) :=
  reading (fun t => inr (users ≫= member_roles_of t g)).

(** A row with null overwrite columns says the channel exists and has none. *)
Record ListOverwritesOfExistingChannelRow := mkExistingRow {
  ex_guild_id : option Z; ex_channel_id : Z; ex_target_type : option Z; ex_target_id : option Z;
  ex_allow : option Z; ex_deny : option Z
}.

Definition existing_row (g : option Z) (c : Z) (ow : option PermissionOverwrite)
    : ListOverwritesOfExistingChannelRow := {|
  ex_guild_id := g; ex_channel_id := c; ex_target_type := ow_target_type <$> ow;
  ex_target_id := ow_target_id <$> ow; ex_allow := ow_allow <$> ow; ex_deny := ow_deny <$> ow
|}.

Definition Queries_ListOverwritesOfExistingChannel (c : Z)
    : M (list ListOverwritesOfExistingChannelRow) :=
  reading (fun t => inr
    match t_channels t !! c with
    | None => []
    | Some ch =>
        match channel_overwrites t c with
        | [] => [existing_row (channel_guild_id ch) c None]
        | ows => (fun ow => existing_row (channel_guild_id ch) c (Some ow)) <$> ows
        end
    end).

Definition Queries_ListChannelPermissionOverwrites (c g : Z) : M (list PermissionOverwrite) :=
  reading (fun t => inr (if channel_in_guild t c g then channel_overwrites t c else [])).

Definition Queries_ListGuildPermissionOverwrites (cs : list Z) (g : Z)
    : M (list PermissionOverwrite) :=
  reading (fun t => inr
    (filter (fun ow => ow_channel_id ow ∈ cs /\ channel_in_guild t (ow_channel_id ow) g = true)
       (overwrite_rows t))).

(** ** Roles *)

Definition Queries_ListGuildRoles (g : Z) : M (list dbRole) :=
  reading (fun t => inr (by_position (guild_roles t g))).

Definition Queries_CountGuildRoles (g : Z) : M Z := reading (fun t => inr (count (guild_roles t g))).

Definition Queries_LockGuildRolePositions (g : Z) : M unit := reading (fun _ => inr tt).

Definition get_role (t : Tables) (id g : Z) : option dbRole :=
  match t_roles t !! id with
  | Some r => if role_guild_id r =? g then Some r else None
  | None => None
  end.

Definition Queries_GetRole (id g : Z) : M dbRole := reading (fun t => found (get_role t id g)).
Definition Queries_GetRoleForUpdate (id g : Z) : M dbRole :=
  reading (fun t => found (get_role t id g)).

Definition with_position (p : Z) (r : dbRole) : dbRole :=
  mkDbRole (role_id r) (role_guild_id r) (role_name r) (role_color r) (role_permissions r) p
    (role_hoist r) (role_mentionable r) (role_is_default r).

(** [row_number() OVER (ORDER BY position, id)] of the guild's non-default roles, from 1. *)
Definition ranked (t : Tables) (g : Z) : list dbRole :=
  by_position (filter (fun r => role_is_default r = false) (guild_roles t g)).

Definition shifted (t : Tables) (g : Z) (r : dbRole) : dbRole :=
  match list_find (fun r' => role_id r' = role_id r) (ranked t g) with
  | Some (i, _) => with_position (Z.of_nat (S i) + 1) r
  | None => r
  end.

Definition Queries_ShiftRolePositionsUp (g : Z) : M unit :=
  writing (fun t => inr (tt, set_roles (shifted t g <$> t_roles t) t)).

Definition Queries_CreateRole (r : dbRole) : M dbRole :=
  writing (fun t =>
    match t_roles t !! role_id r with
    | Some _ => inl EUnique
    | None =>
        if decide (is_Some (t_guilds t !! role_guild_id r))
        then inr (r, set_roles (<[role_id r := r]> (t_roles t)) t)
        else inl EDb
    end).

(** COALESCE($n, column) *)
Definition coalesce {A} (v : option A) (old : A) : A := match v with Some x => x | None => old end.

Record UpdateRoleParams := mkUpdateRoleParams {
  ur_ID : Z; ur_GuildID : Z; ur_Name : option string; ur_Color : option Z;
  ur_Permissions : option Z; ur_Hoist : option bool; ur_Mentionable : option bool
}.

Definition updated_role (p : UpdateRoleParams) (r : dbRole) : dbRole :=
  mkDbRole (role_id r) (role_guild_id r) (coalesce (ur_Name p) (role_name r))
    (coalesce (ur_Color p) (role_color r)) (coalesce (ur_Permissions p) (role_permissions r))
    (role_position r) (coalesce (ur_Hoist p) (role_hoist r))
    (coalesce (ur_Mentionable p) (role_mentionable r)) (role_is_default r).

Definition Queries_UpdateRole (p : UpdateRoleParams) : M dbRole :=
  writing (fun t =>
    match get_role t (ur_ID p) (ur_GuildID p) with
    | None => inl ENoRows
    | Some r => let r' := updated_role p r in
                inr (r', set_roles (<[ur_ID p := r']> (t_roles t)) t)
    end).

(** The grants cascade with the role. *)
Definition without_role (id : Z) (t : Tables) : Tables :=
  set_member_roles (filter (fun k => k.2 <> id) (t_member_roles t))
    (set_roles (delete id (t_roles t)) t).

Definition Queries_DeleteRole (id g : Z) : M Z :=
  writing (fun t =>
    match get_role t id g with
    | Some r =>
        if role_is_default r then inr (0, t)
        else inr (1, without_role id t)
    | None => inr (0, t)
    end).

Definition Queries_SetRolePosition (p id g : Z) : M Z :=
  writing (fun t =>
    match get_role t id g with
    | Some r =>
        if negb (role_is_default r) && (0 <? p)
        then inr (1, set_roles (<[id := with_position p r]> (t_roles t)) t)
        else inr (0, t)
    | None => inr (0, t)
    end).

(** ** Members *)

(** The highest position among the granted roles, never below 0; no row for a non-member. *)
Definition standing_of (t : Tables) (g u : Z) : Z :=
  foldr Z.max 0 (role_position <$>
    filter (fun r => (g, u, role_id r) ∈ t_member_roles t) (guild_roles t g)).

Definition Queries_GetMemberHighestRolePosition (g u : Z) : M Z :=
  reading (fun t =>
    match t_members t !! (g, u) with
    | None => inl ENoRows
    | Some _ => inr (standing_of t g u)
    end).

Definition Queries_AssignRoleToMember (g u role : Z) : M Z :=
  writing (fun t =>
    match t_members t !! (g, u), get_role t role g with
    | Some _, Some r =>
        if role_is_default r then inr (0, t)
        else if decide ((g, u, role) ∈ t_member_roles t) then inr (0, t)
        else inr (1, set_member_roles ({[(g, u, role)]} ∪ t_member_roles t) t)
    | _, _ => inr (0, t)
    end).

Definition Queries_UnassignRoleFromMember (g u role : Z) : M Z :=
  writing (fun t =>
    if decide ((g, u, role) ∈ t_member_roles t)
    then inr (1, set_member_roles (t_member_roles t ∖ {[(g, u, role)]}) t)
    else inr (0, t)).

Definition Queries_GetGuildMember (g u : Z) : M dbGuildMember :=
  reading (fun t => found (t_members t !! (g, u))).
Definition Queries_GetGuildMemberForUpdate (g u : Z) : M dbGuildMember :=
  reading (fun t => found (t_members t !! (g, u))).

Definition Queries_ListRoleIDsOfMember (g u : Z) : M (list Z) :=
  reading (fun t => inr (merge_sort Z.le (member_role_ids t g u))).

Record UpdateGuildMemberParams := mkUpdateGuildMemberParams {
  um_GuildID : Z; um_UserID : Z; um_Nickname : option string; um_ClearNickname : bool;
  um_Deaf : option bool; um_Mute : option bool
}.

Definition updated_member (p : UpdateGuildMemberParams) (m : dbGuildMember) : dbGuildMember :=
  mkDbGuildMember (gm_guild_id m) (gm_user_id m)
    (if um_ClearNickname p then None
     else match um_Nickname p with Some n => Some n | None => gm_nickname m end)
    (coalesce (um_Deaf p) (gm_deaf m)) (coalesce (um_Mute p) (gm_mute m)).

Definition Queries_UpdateGuildMember (p : UpdateGuildMemberParams) : M dbGuildMember :=
  writing (fun t =>
    match t_members t !! (um_GuildID p, um_UserID p) with
    | None => inl ENoRows
    | Some m => let m' := updated_member p m in
                inr (m', set_members (<[(um_GuildID p, um_UserID p) := m']> (t_members t)) t)
    end).

(** The member's grants cascade. *)
Definition without_member (g u : Z) (t : Tables) : Tables :=
  set_member_roles (filter (fun k => k.1 <> (g, u)) (t_member_roles t))
    (set_members (delete (g, u) (t_members t)) t).

Definition Queries_RemoveGuildMember (g u : Z) : M Z :=
  writing (fun t =>
    match t_members t !! (g, u) with
    | None => inr (0, t)
    | Some _ => inr (1, without_member g u t)
    end).

Definition Queries_AddGuildMember (g u : Z) (nickname : option string) : M dbGuildMember :=
  writing (fun t =>
    match t_members t !! (g, u) with
    | Some _ => inl EUnique
    | None =>
        if decide (is_Some (t_guilds t !! g) /\ is_Some (t_users t !! u))
        then let m := mkDbGuildMember g u nickname false false in
             inr (m, set_members (<[(g, u) := m]> (t_members t)) t)
        else inl EDb
    end).

Definition Queries_IsLiveGuildMember (g u : Z) : M bool :=
  reading (fun t => inr (bool_decide (is_Some (t_members t !! (g, u))) && live_account t u)).

(** ** Permission overwrites *)

Definition get_overwrite (t : Tables) (c ty id g : Z) : option PermissionOverwrite :=
  if channel_in_guild t c g then
    match t_overwrites t !! (c, ty, id) with
    | Some (allow, deny) => Some (mkPermissionOverwrite c ty id allow deny)
    | None => None
    end
  else None.

Definition Queries_GetPermissionOverwriteForUpdate (c ty id g : Z) : M PermissionOverwrite :=
  reading (fun t => found (get_overwrite t c ty id g)).

Definition Queries_CountChannelPermissionOverwrites (c : Z) : M Z :=
  reading (fun t => inr (count (channel_overwrites t c))).

Definition Queries_UpsertPermissionOverwrite (c ty id allow deny g : Z) : M PermissionOverwrite :=
  writing (fun t =>
    if channel_in_guild t c g
    then inr (mkPermissionOverwrite c ty id allow deny,
              set_overwrites (<[(c, ty, id) := (allow, deny)]> (t_overwrites t)) t)
    else inl ENoRows).

Definition Queries_DeletePermissionOverwrite (g c ty id : Z) : M Z :=
  writing (fun t =>
    if channel_in_guild t c g && bool_decide (is_Some (t_overwrites t !! (c, ty, id)))
    then inr (1, set_overwrites (delete (c, ty, id) (t_overwrites t)) t)
    else inr (0, t)).

Definition targets (t : Tables) (g ty id : Z) (ow : PermissionOverwrite) : Prop :=
  channel_in_guild t (ow_channel_id ow) g = true /\ ow_target_type ow = ty /\ ow_target_id ow = id.

#[export] Instance targets_dec t g ty id ow : Decision (targets t g ty id ow).
Proof. unfold targets. apply _. Defined.

Definition Queries_ListOverwritesForTarget (g ty id : Z) : M (list PermissionOverwrite) :=
  reading (fun t => inr (filter (targets t g ty id) (overwrite_rows t))).

Definition without_overwrites_for (g ty id : Z) (t : Tables) : Tables :=
  set_overwrites
    (filter (fun kv => ~ (channel_in_guild t kv.1.1.1 g = true /\ kv.1.1.2 = ty /\ kv.1.2 = id))
       (t_overwrites t)) t.

Definition Queries_DeleteOverwritesForTarget (g ty id : Z) : M unit :=
  writing (fun t => inr (tt, without_overwrites_for g ty id t)).

(** ** Guilds *)

Definition Queries_GetGuild (g : Z) : M dbGuild := reading (fun t => found (t_guilds t !! g)).
Definition Queries_GetGuildForShare (g : Z) : M dbGuild := reading (fun t => found (t_guilds t !! g)).
Definition Queries_GetGuildForUpdate (g : Z) : M dbGuild := reading (fun t => found (t_guilds t !! g)).
Definition Queries_GetGuildForNoKeyUpdate (g : Z) : M dbGuild :=
  reading (fun t => found (t_guilds t !! g)).

Definition Queries_LockAccountOwnership (u : Z) : M unit := reading (fun _ => inr tt).

Definition Queries_CountGuildsOwnedBy (u : Z) : M Z :=
  reading (fun t => inr (count (filter (fun kv => guild_owner_id kv.2 = u)
                                  (map_to_list (t_guilds t))))).

Definition Queries_CountGuildsJoinedBy (u : Z) : M Z :=
  reading (fun t => inr (count (filter (fun kv => kv.1.2 = u) (map_to_list (t_members t))))).

Definition with_owner (u : Z) (g : dbGuild) : dbGuild :=
  mkDbGuild (guild_id g) (guild_name g) u (guild_description g) (guild_message_audit_enabled g).

Definition Queries_TransferGuildOwnership (to g from : Z) : M dbGuild :=
  writing (fun t =>
    match t_guilds t !! g with
    | Some gr =>
        if (guild_owner_id gr =? from) && bool_decide (is_Some (t_members t !! (g, to)))
           && live_account t to
        then inr (with_owner to gr, set_guilds (<[g := with_owner to gr]> (t_guilds t)) t)
        else inl ENoRows
    | None => inl ENoRows
    end).

Definition Queries_CreateGuild (id : Z) (name : string) (owner : Z) (description : option string)
    : M dbGuild :=
  writing (fun t =>
    match t_guilds t !! id with
    | Some _ => inl EUnique
    | None =>
        if decide (is_Some (t_users t !! owner))
        then let g := mkDbGuild id name owner description false in
             inr (g, set_guilds (<[id := g]> (t_guilds t)) t)
        else inl EDb
    end).

Record UpdateGuildParams := mkUpdateGuildParams {
  ug_ID : Z; ug_Name : option string; ug_Description : option string; ug_ClearDescription : bool;
  ug_MessageAuditEnabled : option bool
}.

Definition updated_guild (p : UpdateGuildParams) (g : dbGuild) : dbGuild :=
  mkDbGuild (guild_id g) (coalesce (ug_Name p) (guild_name g)) (guild_owner_id g)
    (if ug_ClearDescription p then None
     else match ug_Description p with Some d => Some d | None => guild_description g end)
    (coalesce (ug_MessageAuditEnabled p) (guild_message_audit_enabled g)).

Definition Queries_UpdateGuild (p : UpdateGuildParams) : M dbGuild :=
  writing (fun t =>
    match t_guilds t !! ug_ID p with
    | None => inl ENoRows
    | Some g => inr (updated_guild p g,
                     set_guilds (<[ug_ID p := updated_guild p g]> (t_guilds t)) t)
    end).

#[export] Instance get_role_none_dec t id g : Decision (get_role t id g = None).
Proof. destruct (get_role t id g); [right|left]; done. Defined.

(** Everything the guild owns cascades: members and their grants, roles, channels and their
    overwrites, its audit entries, its invites and its conversations. *)
Definition without_guild (g : Z) (t : Tables) : Tables := {|
  t_guilds := delete g (t_guilds t);
  t_members := filter (fun kv => kv.1.1 <> g) (t_members t);
  t_roles := filter (fun kv => role_guild_id kv.2 <> g) (t_roles t);
  t_member_roles := filter (fun k => k.1.1 <> g /\ get_role t k.2 g = None) (t_member_roles t);
  t_channels := filter (fun kv => channel_guild_id kv.2 <> Some g) (t_channels t);
  t_overwrites := filter (fun kv => channel_in_guild t kv.1.1.1 g = false) (t_overwrites t);
  t_users := t_users t;
  t_admins := t_admins t;
  t_audit := filter (fun kv => audit_guild_id kv.2 <> Some g) (t_audit t);
  t_invites := filter (fun kv => inv_guild_id kv.2 <> g /\ channel_in_guild t (inv_channel_id kv.2) g = false)
    (t_invites t);
  t_chat := chat_without_guild g (fun c => channel_in_guild t c g) (t_chat t)
|}.

Definition Queries_DeleteGuild (g : Z) : M Z :=
  writing (fun t =>
    match t_guilds t !! g with
    | None => inr (0, t)
    | Some _ => inr (1, without_guild g t)
    end).

Definition guild_before (g1 g2 : dbGuild) : Prop := guild_id g1 <= guild_id g2.

#[export] Instance guild_before_dec g1 g2 : Decision (guild_before g1 g2).
Proof. unfold guild_before. apply _. Defined.

Definition Queries_ListGuildsForMember (u : Z) : M (list dbGuild) :=
  reading (fun t => inr
    (merge_sort guild_before
       ((filter (fun kv => is_Some (t_members t !! (kv.1, u))) (map_to_list (t_guilds t))).*2))).

(** ** Channels *)

Definition Queries_GetChannel (c : Z) : M dbChannel := reading (fun t => found (t_channels t !! c)).
Definition Queries_GetChannelForUpdate (c : Z) : M dbChannel :=
  reading (fun t => found (t_channels t !! c)).

Definition guild_channels (t : Tables) (g : Z) : list dbChannel :=
  filter (fun ch => channel_guild_id ch = Some g) ((map_to_list (t_channels t)).*2).

Definition Queries_CountGuildChannels (g : Z) : M Z :=
  reading (fun t => inr (count (guild_channels t g))).

Definition channel_before (c1 c2 : dbChannel) : Prop :=
  channel_position c1 < channel_position c2 \/
  (channel_position c1 = channel_position c2 /\ channel_id c1 <= channel_id c2).

#[export] Instance channel_before_dec c1 c2 : Decision (channel_before c1 c2).
Proof. unfold channel_before. apply _. Defined.

Definition Queries_ListGuildChannels (g : Z) : M (list dbChannel) :=
  reading (fun t => inr (merge_sort channel_before (guild_channels t g))).

Definition fk_holds {A} (m : gmap Z A) (k : option Z) : bool :=
  match k with None => true | Some id => bool_decide (is_Some (m !! id)) end.

Definition Queries_CreateChannel (ch : dbChannel) : M dbChannel :=
  writing (fun t =>
    match t_channels t !! channel_id ch with
    | Some _ => inl EUnique
    | None =>
        if fk_holds (t_guilds t) (channel_guild_id ch) && fk_holds (t_channels t) (channel_parent_id ch)
        then inr (ch, set_channels (<[channel_id ch := ch]> (t_channels t)) t)
        else inl EDb
    end).

(** The source's rows, under the destination's id; a row the destination has is left alone. *)
Definition copied (t : Tables) (dest src : Z) : gmap (Z * Z * Z) (Z * Z) :=
  list_to_map ((fun ow => ((dest, ow_target_type ow, ow_target_id ow), (ow_allow ow, ow_deny ow)))
                 <$> channel_overwrites t src).

Definition Queries_CopyChannelOverwrites (dest src g : Z) : M unit :=
  writing (fun t => inr (tt,
    if channel_in_guild t src g && channel_in_guild t dest g
    then set_overwrites (t_overwrites t ∪ copied t dest src) t else t)).

Record UpdateChannelParams := mkUpdateChannelParams {
  uc_ID : Z; uc_GuildID : option Z; uc_Name : option string; uc_Topic : option string;
  uc_ClearTopic : bool; uc_Position : option Z; uc_Nsfw : option bool; uc_Bitrate : option Z;
  uc_UserLimit : option Z
}.

(** COALESCE($n, column) on a nullable column *)
Definition or_else {A} (v old : option A) : option A :=
  match v with Some x => Some x | None => old end.

Definition updated_channel (p : UpdateChannelParams) (ch : dbChannel) : dbChannel :=
  mkDbChannel (channel_id ch) (channel_guild_id ch) (channel_type ch) (channel_parent_id ch)
    (or_else (uc_Name p) (channel_name ch))
    (if uc_ClearTopic p then None else or_else (uc_Topic p) (channel_topic ch))
    (coalesce (uc_Position p) (channel_position ch)) (coalesce (uc_Nsfw p) (channel_nsfw ch))
    (or_else (uc_Bitrate p) (channel_bitrate ch)) (or_else (uc_UserLimit p) (channel_user_limit ch)).

(** [id = $1 AND guild_id = $2]: a null matches nothing. *)
Definition channel_of (t : Tables) (c : Z) (g : option Z) : option dbChannel :=
  match t_channels t !! c, g with
  | Some ch, Some _ => if decide (channel_guild_id ch = g) then Some ch else None
  | _, _ => None
  end.

Definition Queries_UpdateChannel (p : UpdateChannelParams) : M dbChannel :=
  writing (fun t =>
    match channel_of t (uc_ID p) (uc_GuildID p) with
    | None => inl ENoRows
    | Some ch => inr (updated_channel p ch,
                      set_channels (<[uc_ID p := updated_channel p ch]> (t_channels t)) t)
    end).

Definition orphaned (ch : dbChannel) : dbChannel :=
  mkDbChannel (channel_id ch) (channel_guild_id ch) (channel_type ch) None (channel_name ch)
    (channel_topic ch) (channel_position ch) (channel_nsfw ch) (channel_bitrate ch)
    (channel_user_limit ch).

Definition child_of (parent g : Z) (ch : dbChannel) : Prop :=
  channel_parent_id ch = Some parent /\ channel_guild_id ch = Some g.

#[export] Instance child_of_dec parent g ch : Decision (child_of parent g ch).
Proof. unfold child_of. apply _. Defined.

Definition detach (P : dbChannel -> Prop) `{forall ch, Decision (P ch)} (ch : dbChannel) : dbChannel :=
  if decide (P ch) then orphaned ch else ch.

Definition Queries_DetachChildChannels (parent g : Z) : M (list dbChannel) :=
  writing (fun t => inr
    (orphaned <$> filter (child_of parent g) ((map_to_list (t_channels t)).*2),
     set_channels (detach (child_of parent g) <$> t_channels t) t)).

(** The channels once [c] is deleted: one still under it is set to none (ON DELETE SET NULL). *)
Definition channels_without (c : Z) (m : gmap Z dbChannel) : gmap Z dbChannel :=
  detach (fun ch => channel_parent_id ch = Some c) <$> delete c m.

(** The overwrites, the invites and the messages cascade. *)
Definition without_channel (c : Z) (t : Tables) : Tables :=
  set_channels (channels_without c (t_channels t))
    (set_overwrites (filter (fun kv => kv.1.1.1 <> c) (t_overwrites t))
      (set_invites (filter (fun kv => inv_channel_id kv.2 <> c) (t_invites t))
        (set_chat (chat_without_channels (fun c' => c' =? c) (t_chat t)) t))).

Definition Queries_DeleteChannel (c : Z) (g : option Z) : M Z :=
  writing (fun t =>
    match channel_of t c g with
    | None => inr (0, t)
    | Some _ => inr (1, without_channel c t)
    end).

(** ** Member listing *)

Record ListGuildMembersRow := mkGuildMembersRow { lgm_member : dbGuildMember; lgm_role_ids : list Z }.

Definition member_before (m1 m2 : dbGuildMember) : Prop := gm_user_id m1 <= gm_user_id m2.

#[export] Instance member_before_dec m1 m2 : Decision (member_before m1 m2).
Proof. unfold member_before. apply _. Defined.

Definition Queries_ListGuildMembers (g after limit : Z) : M (list ListGuildMembersRow) :=
  reading (fun t => inr
    ((fun m => mkGuildMembersRow m (merge_sort Z.le (member_role_ids t (gm_guild_id m) (gm_user_id m))))
       <$> take (Z.to_nat limit)
             (merge_sort member_before
                (filter (fun m => gm_guild_id m = g /\ after < gm_user_id m)
                   ((map_to_list (t_members t)).*2))))).

(** ** The audit log *)

Definition Queries_WriteAuditLogEntry (id : Z) (row : AuditRow) : M unit :=
  writing (fun t =>
    match t_audit t !! id with
    | Some _ => inl EUnique
    | None =>
        if fk_holds (t_guilds t) (audit_guild_id row) && fk_holds (t_users t) (Some (audit_actor_id row))
        then inr (tt, set_audit (<[id := row]> (t_audit t)) t)
        else inl EDb
    end).
