(* ===== verification/Resolve.v ===== *)
(** backend/internal/roles/resolve.go: what one account may do in one guild, optionally within one
    channel (ADR 0008 layers 2 to 5). *)
From S2P Require Import Prelude GoStd Permissions Snowflake Rows TxMonad Queries.

(** ** Resolution *)

Record Resolution := mkResolution {
  Resolution_UserID : Z;
  Resolution_Permissions : Z;
  Resolution_OwnerID : Z;
  highestPosition : Z;
  base : Z;
  bypassed : bool;
  heldRoleIDs : gset Z;
  everyoneRoleID : Z
}.

(** Go's zero value. *)
Definition Resolution_zero : Resolution := mkResolution 0 0 0 0 0 false ∅ 0.

Definition with_permissions (p : Z) (r : Resolution) : Resolution :=
  mkResolution (Resolution_UserID r) p (Resolution_OwnerID r) (highestPosition r) (base r)
    (bypassed r) (heldRoleIDs r) (everyoneRoleID r).

(** A short circuit: everything, at every channel. *)
Definition with_bypass (r : Resolution) : Resolution :=
  mkResolution (Resolution_UserID r) permAll (Resolution_OwnerID r) (highestPosition r) (base r)
    true (heldRoleIDs r) (everyoneRoleID r).

Definition Resolution_IsOwner (r : Resolution) : bool :=
  negb (Resolution_OwnerID r =? 0) && (Resolution_OwnerID r =? Resolution_UserID r).

Definition Resolution_Standing (r : Resolution) : Z := highestPosition r.

Definition Resolution_Outranks (r : Resolution) (position : Z) : bool :=
  Resolution_IsOwner r || (position <? highestPosition r).

Definition Resolution_OutranksMember (r : Resolution) (targetID targetStanding : Z) : bool :=
  if targetID =? Resolution_OwnerID r then false else Resolution_Outranks r targetStanding.

(** ** Layer 5 *)

Record overwriteTiers := mkTiers {
  tier_base : Z; roleAllow : Z; roleDeny : Z; memberAllow : Z; memberDeny : Z
}.

(** One iteration of applyOverwrites's loop. *)
Definition overwrite_step (channelID : Z) (held : gset Z) (everyone userID : Z)
    (s : overwriteTiers) (ow : PermissionOverwrite) : overwriteTiers :=
  if negb (ow_channel_id ow =? channelID) then s
  else
    let allow := PermissionFromInt64 (ow_allow ow) in
    let deny := PermissionFromInt64 (ow_deny ow) in
    if (ow_target_type ow =? OverwriteTargetRole) && (ow_target_id ow =? everyone) then
      mkTiers (tier_base s ∖ₚ deny ∪ₚ allow) (roleAllow s) (roleDeny s) (memberAllow s)
        (memberDeny s)
    else if ow_target_type ow =? OverwriteTargetRole then
      if bool_decide (ow_target_id ow ∈ held) then
        mkTiers (tier_base s) (roleAllow s ∪ₚ allow) (roleDeny s ∪ₚ deny) (memberAllow s)
          (memberDeny s)
      else s
    else if (ow_target_type ow =? OverwriteTargetMember) && (ow_target_id ow =? userID) then
      mkTiers (tier_base s) (roleAllow s) (roleDeny s) (memberAllow s ∪ₚ allow)
        (memberDeny s ∪ₚ deny)
    else s.

Definition applyOverwrites (base channelID : Z) (overwrites : list PermissionOverwrite)
    (held : gset Z) (everyone userID : Z) : Z :=
  let s := foldl (overwrite_step channelID held everyone userID) (mkTiers base 0 0 0 0)
             overwrites in
  let base := tier_base s ∖ₚ roleDeny s ∪ₚ roleAllow s in
  base ∖ₚ memberDeny s ∪ₚ memberAllow s.

Definition Resolution_InChannel (r : Resolution) (channelID : Z)
    (overwrites : list PermissionOverwrite) : Z :=
  if bypassed r then Resolution_Permissions r
  else applyOverwrites (base r) channelID overwrites (heldRoleIDs r) (everyoneRoleID r)
         (Resolution_UserID r).

(** ** Resolve *)

(** One iteration of Resolve's loop over the authority rows. *)
Definition authority_step (r : Resolution) (row : ListGuildMemberAuthorityRow) : Resolution :=
  match ar_role_id row with
  | None => r
  | Some id =>
      mkResolution (Resolution_UserID r) (Resolution_Permissions r) (Resolution_OwnerID r)
        (match ar_role_position row with
         | Some p => if highestPosition r <? p then p else highestPosition r
         | None => highestPosition r
         end)
        (match ar_role_permissions row with
         | Some p => base r ∪ₚ PermissionFromInt64 p
         | None => base r
         end)
        (bypassed r) ({[id]} ∪ heldRoleIDs r)
        (match ar_role_is_default row with
         | Some true => id
         | _ => everyoneRoleID r
         end)
  end.

(** Layers 2 to 4, from the rows: an error, or the resolution and whether a layer above 5
    settled it. *)
Definition resolve_rows (userID : Z) (rows : list ListGuildMemberAuthorityRow)
    : Err + Resolution :=
  match rows with
  | [] => inl ENotAMember
  | row0 :: _ =>
      let res := mkResolution userID 0 (ar_owner_id row0) 0 0 false ∅ 0 in
      if Resolution_IsOwner res then
        inr (mkResolution userID permAll (ar_owner_id row0) 0 permAll true ∅ 0)
      else if negb (ar_is_member row0) then inl ENotAMember
      else
        let res := foldl authority_step res rows in
        let res := with_permissions (base res) res in
        inr (if Permission_Has (base res) PermAdministrator then with_bypass res else res)
  end.

Definition Resolve (guildID userID channelID : Z) : M Resolution :=
  rows ← Queries_ListGuildMemberAuthority guildID userID;
  match resolve_rows userID rows with
  | inl e => throw e
  | inr res =>
      if bypassed res then mret res
      else if channelID =? 0 then mret res
      else
        overwrites ← Queries_ListChannelPermissionOverwrites channelID guildID;
        mret (with_permissions (Resolution_InChannel res channelID overwrites) res)
  end.

(** ** Layer 5, bit by bit *)

(** What one tier does to one bit: deny first, then allow. *)
Definition tier (allow deny b : bool) : bool := (b && negb deny) || allow.

Section tiers.
Context (c : Z) (held : gset Z) (ev u i : Z).

Definition is_everyone_row (ow : PermissionOverwrite) : bool :=
  (ow_channel_id ow =? c) && ((ow_target_type ow =? OverwriteTargetRole)
    && (ow_target_id ow =? ev)).

Definition is_role_row (ow : PermissionOverwrite) : bool :=
  (ow_channel_id ow =? c) && (negb (is_everyone_row ow)
    && ((ow_target_type ow =? OverwriteTargetRole) && bool_decide (ow_target_id ow ∈ held))).

Definition is_member_row (ow : PermissionOverwrite) : bool :=
  (ow_channel_id ow =? c) && ((ow_target_type ow =? OverwriteTargetMember)
    && (ow_target_id ow =? u)).

Definition allows_bit (ow : PermissionOverwrite) : bool :=
  Z.testbit (PermissionFromInt64 (ow_allow ow)) i.
Definition denies_bit (ow : PermissionOverwrite) : bool :=
  Z.testbit (PermissionFromInt64 (ow_deny ow)) i.

Definition some_allow (sel : PermissionOverwrite -> bool) (ows : list PermissionOverwrite) :=
  existsb (fun ow => sel ow && allows_bit ow) ows.
Definition some_deny (sel : PermissionOverwrite -> bool) (ows : list PermissionOverwrite) :=
  existsb (fun ow => sel ow && denies_bit ow) ows.

Definition everyone_fold (ows : list PermissionOverwrite) (b : bool) : bool :=
  foldl (fun b ow => if is_everyone_row ow then tier (allows_bit ow) (denies_bit ow) b else b)
    b ows.

Lemma overwrite_step_bits s ow :
  let s' := overwrite_step c held ev u s ow in
  Z.testbit (tier_base s') i =
    (if is_everyone_row ow then tier (allows_bit ow) (denies_bit ow) (Z.testbit (tier_base s) i)
     else Z.testbit (tier_base s) i) /\
  Z.testbit (roleAllow s') i = (Z.testbit (roleAllow s) i || (is_role_row ow && allows_bit ow))%bool /\
  Z.testbit (roleDeny s') i = (Z.testbit (roleDeny s) i || (is_role_row ow && denies_bit ow))%bool /\
  Z.testbit (memberAllow s') i =
    (Z.testbit (memberAllow s) i || (is_member_row ow && allows_bit ow))%bool /\
  Z.testbit (memberDeny s') i =
    (Z.testbit (memberDeny s) i || (is_member_row ow && denies_bit ow))%bool.
Proof.
  unfold overwrite_step, is_role_row, is_member_row, is_everyone_row, tier, allows_bit, denies_bit.
  destruct (ow_channel_id ow =? c); simpl; [|by rewrite !orb_false_r].
  destruct (Z.eqb_spec (ow_target_type ow) OverwriteTargetRole) as [->|Hr]; simpl.
  - destruct (ow_target_id ow =? ev); simpl;
      [|destruct (bool_decide (ow_target_id ow ∈ held))]; simpl;
      autorewrite with bits; rewrite ?orb_false_r; done.
  - destruct (ow_target_type ow =? OverwriteTargetMember); simpl;
      [destruct (ow_target_id ow =? u)|]; simpl;
      autorewrite with bits; rewrite ?orb_false_r; done.
Qed.

Lemma overwrite_fold_bits ows s :
  let s' := foldl (overwrite_step c held ev u) s ows in
  Z.testbit (tier_base s') i = everyone_fold ows (Z.testbit (tier_base s) i) /\
  Z.testbit (roleAllow s') i = (Z.testbit (roleAllow s) i || some_allow is_role_row ows)%bool /\
  Z.testbit (roleDeny s') i = (Z.testbit (roleDeny s) i || some_deny is_role_row ows)%bool /\
  Z.testbit (memberAllow s') i =
    (Z.testbit (memberAllow s) i || some_allow is_member_row ows)%bool /\
  Z.testbit (memberDeny s') i =
    (Z.testbit (memberDeny s) i || some_deny is_member_row ows)%bool.
Proof.
  revert s. induction ows as [|ow ows IH]; intros s; simpl; [by rewrite !orb_false_r|].
  destruct (IH (overwrite_step c held ev u s ow)) as (-> & -> & -> & -> & ->).
  destruct (overwrite_step_bits s ow) as (-> & -> & -> & -> & ->).
  by rewrite <- !orb_assoc.
Qed.

(** At most one row is about @everyone in this channel: the primary key says so. *)
Definition one_everyone (ows : list PermissionOverwrite) : Prop :=
  forall ow1 ow2, ow1 ∈ ows -> ow2 ∈ ows ->
    is_everyone_row ow1 = true -> is_everyone_row ow2 = true -> ow1 = ow2.

Lemma everyone_fold_one ows b :
  NoDup ows -> one_everyone ows ->
  everyone_fold ows b =
  tier (some_allow is_everyone_row ows) (some_deny is_everyone_row ows) b.
Proof.
  revert b. induction ows as [|ow ows IH]; intros b Hnd Hone; simpl.
  { unfold tier. by rewrite andb_true_r, orb_false_r. }
  apply NoDup_cons in Hnd as [Hnot Hnd].
  destruct (is_everyone_row ow) eqn:E.
  - assert (forall x, x ∈ ows -> is_everyone_row x = false) as Hno.
    { intros x Hx. destruct (is_everyone_row x) eqn:Ex; [|done].
      assert (ow = x) as ->; [|done].
      apply Hone; [by left|by right|done..]. }
    rewrite IH; [|done|intros ?? ??; apply Hone; by right].
    unfold some_allow, some_deny.
    rewrite (proj2 (existsb_false (fun ow => is_everyone_row ow && allows_bit ow) ows))
      by (intros x Hx; by rewrite (Hno x Hx)).
    rewrite (proj2 (existsb_false (fun ow => is_everyone_row ow && denies_bit ow) ows))
      by (intros x Hx; by rewrite (Hno x Hx)).
    simpl. rewrite !orb_false_r. unfold tier. by rewrite andb_true_r, orb_false_r.
  - simpl. apply IH; [done|]. intros ????; apply Hone; by right.
Qed.

Lemma applyOverwrites_fold_bit b ows :
  Z.testbit (applyOverwrites b c ows held ev u) i =
  tier (some_allow is_member_row ows) (some_deny is_member_row ows)
    (tier (some_allow is_role_row ows) (some_deny is_role_row ows)
       (everyone_fold ows (Z.testbit b i))).
Proof.
  unfold applyOverwrites. autorewrite with bits.
  destruct (overwrite_fold_bits ows (mkTiers b 0 0 0 0)) as (-> & -> & -> & -> & ->).
  simpl. by rewrite !Z.bits_0.
Qed.

(** The three tiers of ADR 0008 layer 5, each a union of its rows, deny before allow. *)
Lemma applyOverwrites_bit b ows :
  NoDup ows -> one_everyone ows ->
  Z.testbit (applyOverwrites b c ows held ev u) i =
  tier (some_allow is_member_row ows) (some_deny is_member_row ows)
    (tier (some_allow is_role_row ows) (some_deny is_role_row ows)
       (tier (some_allow is_everyone_row ows) (some_deny is_everyone_row ows)
          (Z.testbit b i))).
Proof. intros. by rewrite applyOverwrites_fold_bit, everyone_fold_one. Qed.

Lemma some_allow_Permutation sel ows ows' :
  ows ≡ₚ ows' -> some_allow sel ows = some_allow sel ows'.
Proof. apply existsb_Permutation. Qed.
Lemma some_deny_Permutation sel ows ows' :
  ows ≡ₚ ows' -> some_deny sel ows = some_deny sel ows'.
Proof. apply existsb_Permutation. Qed.
End tiers.

(** The primary key of permission_overwrites. *)
Definition overwrite_key (ow : PermissionOverwrite) : Z * Z * Z :=
  (ow_channel_id ow, ow_target_type ow, ow_target_id ow).

Lemma one_everyone_keys c ev ows :
  NoDup (overwrite_key <$> ows) -> NoDup ows /\ one_everyone c ev ows.
Proof.
  intros Hk. split; [by eapply NoDup_fmap_1|].
  intros ow1 ow2 H1 H2 E1 E2. unfold is_everyone_row in *. bool_hyps.
  apply list_elem_of_lookup in H1 as [i1 H1]. apply list_elem_of_lookup in H2 as [i2 H2].
  assert (i1 = i2) as <-; [|congruence].
  eapply (NoDup_lookup (overwrite_key <$> ows)); [done|by rewrite list_lookup_fmap, H1|].
  rewrite list_lookup_fmap, H2. simpl. unfold overwrite_key. congruence.
Qed.

(** ** Properties *)

(** The result of applying a channel's overwrites does not depend on the order the database
    returns them in: two listings of the same rows, keys unique as the table's primary key makes
    them, give the same permissions. *)
Theorem applyOverwrites_order (b c : Z) (ows ows' : list PermissionOverwrite) (held : gset Z)
    (ev u : Z) (Hkeys : NoDup (overwrite_key <$> ows)) (Hperm : ows ≡ₚ ows') :
  applyOverwrites b c ows held ev u = applyOverwrites b c ows' held ev u.
Proof.
  apply perm_ext. intros i.
  destruct (one_everyone_keys c ev ows Hkeys) as [Hn Hone].
  rewrite Hperm in Hkeys. destruct (one_everyone_keys c ev ows' Hkeys) as [Hn' Hone'].
  rewrite !applyOverwrites_bit by done.
  do 3 (rewrite (some_allow_Permutation i _ ows ows'), (some_deny_Permutation i _ ows ows')
    by done). done.
Qed.

(** Two held roles, one denying what the other allows, beside an @everyone and a member row. *)
Definition example_overwrites : list PermissionOverwrite :=
  [mkPermissionOverwrite 7 0 20 0 2; mkPermissionOverwrite 7 0 21 2 1;
   mkPermissionOverwrite 7 0 1 0 1; mkPermissionOverwrite 7 1 50 1 0;
   mkPermissionOverwrite 8 1 50 0 3].

Lemma applyOverwrites_order_witness :
  applyOverwrites 3 7 example_overwrites {[1; 20; 21]} 1 50 = 3 /\
  applyOverwrites 3 7 example_overwrites {[1; 20; 21]} 1 50
  = applyOverwrites 3 7 (rev example_overwrites) {[1; 20; 21]} 1 50.
Proof.
  split; [vm_compute; reflexivity|].
  apply applyOverwrites_order.
  - by_decide.
  - apply Permutation.Permutation_rev.
Defined.
