(* ===== verification/StoreInv.v ===== *)
(** The invariant of the guild tables that the service keeps on top of what the schema enforces,
    and what the row sets of the statements are under it. *)
From S2P Require Import Prelude GoStd Permissions Snowflake Rows TxMonad Queries.
From S2P Require Import Resolve.

(** ** Membership of the row sets *)

Lemma elem_of_role_rows t r : r ∈ role_rows t <-> exists id, t_roles t !! id = Some r.
Proof.
  unfold role_rows. rewrite list_elem_of_fmap. split.
  - intros ([id r'] & -> & H%elem_of_map_to_list). by exists id.
  - intros [id H]. exists (id, r). by rewrite elem_of_map_to_list.
Qed.

Lemma elem_of_guild_roles t g r :
  r ∈ guild_roles t g <-> role_guild_id r = g /\ exists id, t_roles t !! id = Some r.
Proof. unfold guild_roles. by rewrite list_elem_of_filter, elem_of_role_rows. Qed.

Lemma elem_of_authority_roles t g u r :
  r ∈ authority_roles t g u <->
  (role_is_default r = true \/ (g, u, role_id r) ∈ t_member_roles t) /\ r ∈ guild_roles t g.
Proof. unfold authority_roles. by rewrite list_elem_of_filter. Qed.

Lemma elem_of_default_roles t g r :
  r ∈ default_roles t g <-> role_is_default r = true /\ r ∈ guild_roles t g.
Proof. unfold default_roles. by rewrite list_elem_of_filter. Qed.

Lemma elem_of_member_role_ids t g u id :
  id ∈ member_role_ids t g u <-> (g, u, id) ∈ t_member_roles t.
Proof.
  unfold member_role_ids. rewrite list_elem_of_fmap. split.
  - intros ([[g' u'] id'] & -> & H). rewrite list_elem_of_filter, elem_of_elements in H.
    simpl in *. destruct H as [H ?]. by simplify_eq.
  - intros H. exists (g, u, id). by rewrite list_elem_of_filter, elem_of_elements.
Qed.

Lemma elem_of_overwrite_rows t ow :
  ow ∈ overwrite_rows t <-> t_overwrites t !! overwrite_key ow = Some (ow_allow ow, ow_deny ow).
Proof.
  unfold overwrite_rows. rewrite list_elem_of_fmap. split.
  - by intros ([[[c ty] id] [a d]] & -> & H%elem_of_map_to_list).
  - intros H. exists (overwrite_key ow, (ow_allow ow, ow_deny ow)).
    rewrite elem_of_map_to_list. split; [by destruct ow|done].
Qed.

Lemma elem_of_channel_overwrites t c ow :
  ow ∈ channel_overwrites t c <->
  ow_channel_id ow = c /\ t_overwrites t !! overwrite_key ow = Some (ow_allow ow, ow_deny ow).
Proof. unfold channel_overwrites. by rewrite list_elem_of_filter, elem_of_overwrite_rows. Qed.

Lemma overwrite_rows_keys t : NoDup (overwrite_key <$> overwrite_rows t).
Proof.
  unfold overwrite_rows. rewrite <- list_fmap_compose.
  rewrite (list_fmap_ext _ fst); [apply NoDup_fst_map_to_list|].
  by intros ? [[[c ty] id] [a d]] _.
Qed.

Lemma channel_overwrites_keys t c : NoDup (overwrite_key <$> channel_overwrites t c).
Proof.
  eapply sublist_NoDup; [apply overwrite_rows_keys|].
  apply fmap_sublist, sublist_filter.
Qed.

Lemma get_role_Some t id g r :
  get_role t id g = Some r <-> t_roles t !! id = Some r /\ role_guild_id r = g.
Proof.
  unfold get_role. destruct (t_roles t !! id) as [r'|]; [|by split; intros; destruct_and?].
  destruct (Z.eqb_spec (role_guild_id r') g); split; naive_solver.
Qed.

Lemma channel_in_guild_true t c g :
  channel_in_guild t c g = true <->
  exists ch, t_channels t !! c = Some ch /\ channel_guild_id ch = Some g.
Proof.
  unfold channel_in_guild. destruct (t_channels t !! c) as [ch|].
  - rewrite bool_decide_eq_true. naive_solver.
  - naive_solver.
Qed.

Lemma channel_in_guild_inj t c g g' : channel_in_guild t c g = true -> channel_in_guild t c g' = true -> g = g'.
Proof. intros (? & ? & ?)%channel_in_guild_true (? & ? & ?)%channel_in_guild_true. congruence. Qed.

Lemma found_ok {A} (o : option A) x : found o = inr x <-> o = Some x.
Proof. destruct o; simpl; naive_solver. Qed.

(** ** The invariant *)

(** - users: no account has id 0, Go's zero value;
    - keys: a row is filed under its own id;
    - owner: a guild's owner is a real account and one of its members;
    - default: a guild has exactly one @everyone role;
    - grants: only members are granted roles, only of their own guild, and never @everyone;
    - positions: @everyone is at 0, every other role at 1 or above, no two of a guild at the same
      position. *)
Record wf (t : Tables) : Prop := {
  wf_users : t_users t !! 0 = None;
  wf_guild_key : forall g gr, t_guilds t !! g = Some gr -> guild_id gr = g;
  wf_role_key : forall id r, t_roles t !! id = Some r -> role_id r = id;
  wf_role_guild : forall id r, t_roles t !! id = Some r -> is_Some (t_guilds t !! role_guild_id r);
  wf_member_key : forall g u m, t_members t !! (g, u) = Some m ->
    is_Some (t_guilds t !! g) /\ gm_guild_id m = g /\ gm_user_id m = u;
  wf_owner : forall g gr, t_guilds t !! g = Some gr ->
    guild_owner_id gr <> 0 /\ is_Some (t_members t !! (g, guild_owner_id gr));
  wf_default : forall g, is_Some (t_guilds t !! g) ->
    exists id r, t_roles t !! id = Some r /\ role_guild_id r = g /\ role_is_default r = true;
  wf_default_unique : forall id1 id2 r1 r2,
    t_roles t !! id1 = Some r1 -> t_roles t !! id2 = Some r2 ->
    role_guild_id r1 = role_guild_id r2 ->
    role_is_default r1 = true -> role_is_default r2 = true -> id1 = id2;
  wf_grant : forall g u id, (g, u, id) ∈ t_member_roles t ->
    is_Some (t_members t !! (g, u)) /\
    exists r, get_role t id g = Some r /\ role_is_default r = false;
  wf_default_position : forall id r, t_roles t !! id = Some r ->
    role_is_default r = true -> role_position r = 0;
  wf_position : forall id r, t_roles t !! id = Some r ->
    role_is_default r = false -> 1 <= role_position r;
  wf_position_unique : forall id1 id2 r1 r2,
    t_roles t !! id1 = Some r1 -> t_roles t !! id2 = Some r2 ->
    role_guild_id r1 = role_guild_id r2 ->
    role_is_default r1 = false -> role_is_default r2 = false ->
    role_position r1 = role_position r2 -> id1 = id2
}.

(** bitrate or user_limit on a channel that is not a voice channel *)
Definition voice_only_misused (type : Z) (bitrate user_limit : option Z) : bool :=
  negb (type =? ChannelGuildVoice)
  && (bool_decide (is_Some bitrate) || bool_decide (is_Some user_limit)).

Definition isGuildChannelType (t : Z) : bool :=
  (t =? ChannelGuildText) || (t =? ChannelGuildVoice) || (t =? ChannelGuildCategory).

(** The same for channels:
    - a row is filed under its own id, and its guild exists;
    - a guild's channel is of one of the three types, voice settings only on a voice channel;
    - a parent is a category of the same guild, and no category has one: the tree is one level;
    - an overwrite is of a channel that exists. *)
Record channels_ok (t : Tables) : Prop := {
  ch_key : forall c ch, t_channels t !! c = Some ch -> channel_id ch = c;
  ch_guild : forall c ch g, t_channels t !! c = Some ch -> channel_guild_id ch = Some g ->
    is_Some (t_guilds t !! g);
  ch_type : forall c ch g, t_channels t !! c = Some ch -> channel_guild_id ch = Some g ->
    isGuildChannelType (channel_type ch) = true /\
    voice_only_misused (channel_type ch) (channel_bitrate ch) (channel_user_limit ch) = false;
  ch_parent : forall c ch p, t_channels t !! c = Some ch -> channel_parent_id ch = Some p ->
    channel_type ch <> ChannelGuildCategory /\
    exists pa, t_channels t !! p = Some pa /\ channel_type pa = ChannelGuildCategory /\
               channel_guild_id pa = channel_guild_id ch;
  ch_overwrite : forall c ty id v, t_overwrites t !! (c, ty, id) = Some v ->
    is_Some (t_channels t !! c)
}.

Section wf_facts.
Context (t : Tables) (Hwf : wf t).

Lemma guild_roles_lookup g r :
  r ∈ guild_roles t g <-> t_roles t !! role_id r = Some r /\ role_guild_id r = g.
Proof.
  rewrite elem_of_guild_roles. split.
  - intros (<- & id & H). by rewrite (wf_role_key _ Hwf _ _ H).
  - intros [H <-]. split; [done|]. by exists (role_id r).
Qed.

(** The @everyone role of a guild, the only row of its default-role query. *)
Lemma default_roles_one g :
  is_Some (t_guilds t !! g) ->
  exists r, default_roles t g = [r] /\ get_role t (role_id r) g = Some r /\
            role_is_default r = true /\ role_position r = 0.
Proof.
  intros Hg. destruct (wf_default _ Hwf g Hg) as (id & r & Hr & <- & Hd).
  pose proof (wf_role_key _ Hwf _ _ Hr) as <-. exists r.
  assert (forall x, x ∈ default_roles t (role_guild_id r) -> x = r) as Hall.
  { intros x [Hx [Hl Hgx]%guild_roles_lookup]%elem_of_default_roles.
    pose proof (wf_default_unique _ Hwf _ _ _ _ Hl Hr Hgx Hx Hd) as E. congruence. }
  assert (NoDup (default_roles t (role_guild_id r))) as Hnd.
  { apply NoDup_filter, NoDup_filter. apply (NoDup_fmap_1 role_id).
    unfold role_rows. rewrite <- list_fmap_compose.
    rewrite (list_fmap_ext _ fst); [apply NoDup_fst_map_to_list|].
    intros ? [k x] H. apply list_elem_of_lookup_2, elem_of_map_to_list in H. simpl.
    by apply (wf_role_key _ Hwf). }
  assert (r ∈ default_roles t (role_guild_id r)) as Hin.
  { apply elem_of_default_roles. split; [done|]. by apply guild_roles_lookup. }
  repeat split.
  - destruct (default_roles t (role_guild_id r)) as [|x l]; [by apply elem_of_nil in Hin|].
    rewrite (Hall x) in * by (by left). f_equal.
    destruct l as [|y l]; [done|]. apply NoDup_cons in Hnd as [Hnot _].
    exfalso. apply Hnot. rewrite <- (Hall y) at 1 by (right; by left). by left.
  - by apply get_role_Some.
  - done.
  - by apply (wf_default_position _ Hwf _ _ Hr).
Qed.

(** A role that applies to an account: the default one, or one granted to it. *)
Lemma authority_roles_lookup g u r :
  r ∈ authority_roles t g u <->
  get_role t (role_id r) g = Some r /\
  (role_is_default r = true \/ (g, u, role_id r) ∈ t_member_roles t).
Proof.
  rewrite elem_of_authority_roles, guild_roles_lookup, get_role_Some. tauto.
Qed.
End wf_facts.

(** ** Deciding the invariant *)

(** The clauses of [wf] as a computation, for concrete tables. *)
Definition wf_check (t : Tables) : bool :=
  bool_decide (map_Forall (fun g gr =>
    guild_id gr = g /\ guild_owner_id gr <> 0 /\
    is_Some (t_members t !! (g, guild_owner_id gr)) /\ default_roles t g <> []) (t_guilds t)) &&
  bool_decide (map_Forall (fun k m =>
    is_Some (t_guilds t !! k.1) /\ gm_guild_id m = k.1 /\ gm_user_id m = k.2) (t_members t)) &&
  bool_decide (map_Forall (fun id r =>
    role_id r = id /\ is_Some (t_guilds t !! role_guild_id r) /\
    (role_is_default r = true -> role_position r = 0) /\
    (role_is_default r = false -> 1 <= role_position r)) (t_roles t)) &&
  bool_decide (map_Forall (fun id1 r1 => map_Forall (fun id2 r2 =>
    role_guild_id r1 = role_guild_id r2 -> role_is_default r1 = role_is_default r2 ->
    role_position r1 = role_position r2 -> id1 = id2) (t_roles t)) (t_roles t)) &&
  bool_decide (set_Forall (fun k =>
    is_Some (t_members t !! k.1) /\
    role_is_default <$> get_role t k.2 k.1.1 = Some false) (t_member_roles t)) &&
  bool_decide (t_users t !! 0 = None).

Lemma wf_check_sound t : wf_check t = true -> wf t.
Proof.
  unfold wf_check. rewrite !andb_true_iff, !bool_decide_eq_true.
  intros [[[[[HG HM] HR] HU] HX] H0].
  assert (forall id r, t_roles t !! id = Some r -> role_is_default r = true -> role_position r = 0)
    as Hdef by (intros id r H; apply (HR _ _ H)).
  split.
  - done.
  - intros g gr H. apply (HG _ _ H).
  - intros id r H. apply (HR _ _ H).
  - intros id r H. apply (HR _ _ H).
  - intros g u m H. apply (HM _ _ H).
  - intros g gr H. split; apply (HG _ _ H).
  - intros g [gr H]. destruct (HG _ _ H) as (_ & _ & _ & Hne).
    destruct (default_roles t g) as [|r l] eqn:E; [done|].
    assert (r ∈ default_roles t g) as Hr by (rewrite E; by left).
    apply elem_of_default_roles in Hr as [Hd (Hg' & id & Hr)%elem_of_guild_roles]. eauto.
  - intros id1 id2 r1 r2 H1 H2 Hg Hd1 Hd2. apply (HU _ _ H1 _ _ H2); [done|congruence|].
    by rewrite (Hdef _ _ H1), (Hdef _ _ H2).
  - intros g u id Hin. destruct (HX _ Hin) as [Hm Hr]. simpl in *. split; [done|].
    destruct (get_role t id g) as [r|]; [|done]. exists r. by simplify_eq/=.
  - done.
  - intros id r H. apply (HR _ _ H).
  - intros id1 id2 r1 r2 H1 H2 Hg Hd1 Hd2. apply (HU _ _ H1 _ _ H2); congruence.
Qed.

Definition channels_check (t : Tables) : bool :=
  bool_decide (map_Forall (fun c ch =>
    channel_id ch = c /\
    match channel_guild_id ch with
    | Some g => bool_decide (is_Some (t_guilds t !! g)) && isGuildChannelType (channel_type ch) &&
                negb (voice_only_misused (channel_type ch) (channel_bitrate ch) (channel_user_limit ch))
    | None => true
    end = true /\
    match channel_parent_id ch with
    | Some p => negb (channel_type ch =? ChannelGuildCategory) &&
                match t_channels t !! p with
                | Some pa => (channel_type pa =? ChannelGuildCategory) &&
                             bool_decide (channel_guild_id pa = channel_guild_id ch)
                | None => false
                end
    | None => true
    end = true) (t_channels t)) &&
  bool_decide (map_Forall (fun k _ => is_Some (t_channels t !! k.1.1)) (t_overwrites t)).

Lemma channels_check_sound t : channels_check t = true -> channels_ok t.
Proof.
  unfold channels_check. rewrite andb_true_iff, !bool_decide_eq_true. intros [HC HO]. split.
  - intros c ch H. apply (HC _ _ H).
  - intros c ch g H Hg. destruct (HC _ _ H) as (_ & Hx & _). rewrite Hg in Hx. by bool_hyps.
  - intros c ch g H Hg. destruct (HC _ _ H) as (_ & Hx & _). rewrite Hg in Hx. by bool_hyps.
  - intros c ch p H Hp. destruct (HC _ _ H) as (_ & _ & Hx). rewrite Hp in Hx.
    destruct (t_channels t !! p) as [pa|]; [|by bool_hyps]. bool_hyps. eauto.
  - intros c ty id v H. apply (HO _ _ H).
Qed.

(** ** A concrete guild *)

(** Guild 1, owned by 100. 101 holds Moderator (roles and channels, position 2), 102 holds Helper
    (kick, position 1), 103 nothing; 200 is an account outside it. Channel 7 is hidden from
    @everyone and opened to Helper; channel 8 has no overwrites. *)
Definition example_tables : Tables := {|
  t_guilds := {[1 := mkDbGuild 1 "guild" 100 None false]};
  t_members := {[ (1, 100) := mkDbGuildMember 1 100 None false false;
                  (1, 101) := mkDbGuildMember 1 101 None false false;
                  (1, 102) := mkDbGuildMember 1 102 None false false;
                  (1, 103) := mkDbGuildMember 1 103 None false false ]};
  t_roles := {[ 1 := mkDbRole 1 1 "@everyone" 0 1 0 false false true;
                20 := mkDbRole 20 1 "Moderator" 0 (PermManageRoles ∪ₚ PermManageChannels) 2 false false false;
                21 := mkDbRole 21 1 "Helper" 0 PermKickMembers 1 false false false ]};
  t_member_roles := {[ (1, 101, 20); (1, 102, 21) ]};
  t_channels := {[ 7 := mkDbChannel 7 (Some 1) 0 None (Some "staff"%string) None 0 false None None;
                   8 := mkDbChannel 8 (Some 1) 0 None (Some "general"%string) None 1 false None None ]};
  t_overwrites := {[ (7, 0, 1) := (0, 1); (7, 0, 21) := (1, 0) ]};
  t_users := {[ 100 := mkDbUser "ann" "Ann" false; 101 := mkDbUser "bob" "Bob" false;
                102 := mkDbUser "cyd" "Cyd" false; 103 := mkDbUser "dan" "Dan" false;
                200 := mkDbUser "eve" "Eve" false ]};
  t_admins := ∅;
  t_audit := ∅;
  t_invites := ∅;
  t_chat := Chat_empty
|}.

Lemma example_wf : wf example_tables.
Proof. apply wf_check_sound. vm_compute. reflexivity. Qed.

Lemma example_channels : channels_ok example_tables.
Proof. apply channels_check_sound. vm_compute. reflexivity. Qed.

(** A state with these tables, node 3's generator, four clock readings and no fault scheduled. *)
Definition state_of (t : Tables) : St :=
  mkSt t [] (mkGenerator 3 0 0) [Epoch + 1; Epoch + 2; Epoch + 3; Epoch + 4] [] [].
Definition example_state : St := state_of example_tables.
