(* ===== verification/Authority.v ===== *)
(** ADR 0008's authority layers as a specification on the tables, bit by bit, and the proof that
    roles.Resolve computes it.

    The specification names no rows, loops or order: it says which grants exist. *)
From S2P Require Import Prelude GoStd Permissions Snowflake Rows TxMonad Queries.
From S2P Require Import Resolve StoreInv.

(** ** Specification *)

(** The bit of one overwrite's allow or deny column; absent overwrites have none. *)
Definition ow_bit (side : Z * Z -> Z) (t : Tables) (c ty id i : Z) : bool :=
  match t_overwrites t !! (c, ty, id) with
  | Some ad => Z.testbit (PermissionFromInt64 (side ad)) i
  | None => false
  end.

(** The roles granted to an account, @everyone not among them. *)
Definition granted_roles (t : Tables) (g u : Z) : list dbRole :=
  filter (fun r => (g, u, role_id r) ∈ t_member_roles t) (guild_roles t g).

Definition role_bit (i : Z) (r : dbRole) : bool :=
  Z.testbit (PermissionFromInt64 (role_permissions r)) i.

(** Layer 4: @everyone's permissions and those of every granted role. *)
Definition base_bit (t : Tables) (g u i : Z) : bool :=
  existsb (role_bit i) (default_roles t g) || existsb (role_bit i) (granted_roles t g u).

(** Layer 5, the broadest tier first, in each tier deny before allow. *)
Definition everyone_tier (t : Tables) (g c i : Z) (b : bool) : bool :=
  tier (existsb (fun r => ow_bit fst t c OverwriteTargetRole (role_id r) i) (default_roles t g))
       (existsb (fun r => ow_bit snd t c OverwriteTargetRole (role_id r) i) (default_roles t g)) b.

Definition role_tier (t : Tables) (g u c i : Z) (b : bool) : bool :=
  tier (existsb (fun r => ow_bit fst t c OverwriteTargetRole (role_id r) i) (granted_roles t g u))
       (existsb (fun r => ow_bit snd t c OverwriteTargetRole (role_id r) i) (granted_roles t g u))
       b.

Definition member_tier (t : Tables) (u c i : Z) (b : bool) : bool :=
  tier (ow_bit fst t c OverwriteTargetMember u i) (ow_bit snd t c OverwriteTargetMember u i) b.

Definition channel_bit (t : Tables) (g u c i : Z) : bool :=
  if channel_in_guild t c g
  then member_tier t u c i (role_tier t g u c i (everyone_tier t g c i (base_bit t g u i)))
  else base_bit t g u i.

Definition is_owner (t : Tables) (g u : Z) : bool :=
  match t_guilds t !! g with Some gr => guild_owner_id gr =? u | None => false end.

Definition is_member (t : Tables) (g u : Z) : bool :=
  bool_decide (is_Some (t_guilds t !! g)) && bool_decide (is_Some (t_members t !! (g, u))).

(** Layers 2 and 3: who bypasses every overwrite. *)
Definition bypasses (t : Tables) (g u : Z) : bool := is_owner t g u || base_bit t g u 9.

(** The bit [i] of account [u]'s permissions in guild [g], within channel [c] unless it is 0;
    [None] for an account that is not in the guild. *)
Definition layered (t : Tables) (g u c i : Z) : option bool :=
  if is_owner t g u || is_member t g u then
    Some (if bypasses t g u then Z.testbit permAll i
          else if c =? 0 then base_bit t g u i else channel_bit t g u c i)
  else None.

(** ** The authority rows *)

Lemma authority_rows_nil t g u : authority_rows t g u = [] <-> t_guilds t !! g = None.
Proof.
  unfold authority_rows. destruct (t_guilds t !! g); [|done].
  destruct (authority_roles t g u); by split.
Qed.

(** The rows' role columns, as the roles they come from. *)
Lemma authority_rows_shape t g u gr :
  t_guilds t !! g = Some gr ->
  exists (o0 : option dbRole) os, authority_rows t g u =
    authority_row (guild_owner_id gr) (bool_decide (is_Some (t_members t !! (g, u)))) <$> (o0 :: os)
    /\ omap id (o0 :: os) = authority_roles t g u.
Proof.
  intros Hg. unfold authority_rows. rewrite Hg.
  destruct (authority_roles t g u) as [|r rs] eqn:E.
  - exists None, []. by split.
  - exists (Some r), (Some <$> rs). split.
    + simpl. f_equal. by rewrite <- list_fmap_compose.
    + simpl. f_equal. clear E. induction rs as [|x rs IH]; [done|]. simpl. by f_equal.
Qed.

(** What the loop of Resolve accumulates over the rows. *)
Record accumulated (r r' : Resolution) (rs : list dbRole) : Prop := {
  acc_user : Resolution_UserID r' = Resolution_UserID r;
  acc_owner : Resolution_OwnerID r' = Resolution_OwnerID r;
  acc_bypassed : bypassed r' = bypassed r;
  acc_base : forall i, Z.testbit (base r') i = Z.testbit (base r) i || existsb (role_bit i) rs;
  acc_held : forall id', id' ∈ heldRoleIDs r' <->
    id' ∈ heldRoleIDs r \/ exists x, x ∈ rs /\ role_id x = id';
  acc_position : highestPosition r' = foldl Z.max (highestPosition r) (role_position <$> rs);
  acc_everyone : everyoneRoleID r' =
    foldl (fun e x => if role_is_default x then role_id x else e) (everyoneRoleID r) rs
}.

Lemma authority_step_some owner mem r x :
  authority_step r (authority_row owner mem (Some x)) =
  mkResolution (Resolution_UserID r) (Resolution_Permissions r) (Resolution_OwnerID r)
    (Z.max (highestPosition r) (role_position x))
    (base r ∪ₚ PermissionFromInt64 (role_permissions x)) (bypassed r)
    ({[role_id x]} ∪ heldRoleIDs r) (if role_is_default x then role_id x else everyoneRoleID r).
Proof.
  unfold authority_step, authority_row. cbn. f_equal.
  destruct (Z.ltb_spec (highestPosition r) (role_position x)); lia.
Qed.

Lemma authority_fold owner mem os r :
  accumulated r (foldl authority_step r (authority_row owner mem <$> os)) (omap id os).
Proof.
  revert r. induction os as [|o os IH]; intros r; [|destruct o as [x|]].
  - split; try done; intros; cbn; [by rewrite orb_false_r|].
    split; [by left|]. intros [?|(x & Hx & _)]; [done|]. by apply elem_of_nil in Hx.
  - rewrite fmap_cons. cbn [foldl omap list_omap id]. rewrite authority_step_some.
    match goal with |- accumulated _ (foldl _ ?r' _) _ => destruct (IH r') as [Hu Ho Hby Hb Hh Hp He] end.
    split; try eassumption.
    + intros i. rewrite Hb. cbn. autorewrite with bits. by rewrite orb_assoc.
    + intros id'. rewrite Hh. cbn. clear. set_solver.
  - rewrite fmap_cons. cbn [foldl omap list_omap id]. apply IH.
Qed.

Lemma foldl_max_foldr l z : 0 <= z -> foldl Z.max z l = Z.max z (foldr Z.max 0 l).
Proof.
  revert z. induction l as [|x l IH]; intros z Hz; simpl; [lia|]. rewrite IH by lia. lia.
Qed.

Lemma elem_of_granted_roles t g u r :
  r ∈ granted_roles t g u <-> (g, u, role_id r) ∈ t_member_roles t /\ r ∈ guild_roles t g.
Proof. unfold granted_roles. by rewrite list_elem_of_filter. Qed.

(** The greatest of a list and 0. *)
Lemma foldr_max_le l z : 0 <= z -> (forall x, x ∈ l -> x <= z) -> foldr Z.max 0 l <= z.
Proof.
  intros Hz. induction l as [|x l IH]; intros H; simpl; [lia|].
  apply Z.max_lub; [apply H; by left|]. apply IH. intros; apply H; by right.
Qed.

Lemma foldr_max_bound l : 0 <= foldr Z.max 0 l /\ forall x, x ∈ l -> x <= foldr Z.max 0 l.
Proof.
  induction l as [|x l [IH0 IH]]; simpl; [split; [lia|intros ? []%elem_of_nil]|].
  split; [lia|]. intros y [->|Hy]%elem_of_cons; [lia|]. specialize (IH _ Hy). lia.
Qed.

(** With no overwrites the guild level permissions stand. *)
Lemma applyOverwrites_nil b c held ev u : applyOverwrites b c [] held ev u = b.
Proof. unfold applyOverwrites. simpl. by rewrite !Z.ldiff_0_r, !Z.lor_0_r. Qed.

Section refinement.
Context (t : Tables) (Hwf : wf t).

Lemma existsb_authority f g u :
  existsb f (authority_roles t g u) = existsb f (default_roles t g) || existsb f (granted_roles t g u).
Proof.
  apply eq_true_iff_eq. rewrite orb_true_iff, !existsb_exists.
  setoid_rewrite <- list_elem_of_In. setoid_rewrite elem_of_authority_roles.
  setoid_rewrite elem_of_default_roles. setoid_rewrite elem_of_granted_roles. clear.
  split; [intros (x & [[?|?] ?] & ?)|intros [(x & [? ?] & ?)|(x & [? ?] & ?)]];
    [left|right| |]; exists x; tauto.
Qed.

(** The default role's id is what the loop leaves in everyoneRoleID. *)
Lemma everyone_fold_id g u e :
  is_Some (t_guilds t !! g) ->
  exists r, default_roles t g = [r] /\
  foldl (fun e x => if role_is_default x then role_id x else e) e (authority_roles t g u) = role_id r.
Proof.
  intros Hg. destruct (default_roles_one t Hwf g Hg) as (r & Hd & Hr & Hdef & _).
  exists r. split; [done|].
  assert (forall l e, (forall x, x ∈ l -> role_is_default x = true -> x = r) ->
            (r ∈ l \/ e = role_id r) ->
            foldl (fun e x => if role_is_default x then role_id x else e) e l = role_id r) as go.
  { induction l as [|x l IH]; intros e' Hall Hin; simpl.
    - destruct Hin as [Hin|]; [by apply elem_of_nil in Hin|done].
    - apply IH; [intros; apply Hall; [by right|done]|].
      destruct (role_is_default x) eqn:Ex.
      + right. by rewrite (Hall x) by (by left || done).
      + destruct Hin as [[->|?]%elem_of_cons|?]; [congruence|by left|by right]. }
  apply go.
  - intros x Hx Hxd. assert (x ∈ default_roles t g) as Hin.
    { apply elem_of_default_roles. apply elem_of_authority_roles in Hx as [_ ?]. done. }
    rewrite Hd in Hin. by apply list_elem_of_singleton in Hin.
  - left. apply elem_of_authority_roles. split; [by left|].
    apply elem_of_default_roles. rewrite Hd. by left.
Qed.

(** A selector that names one key of the channel reads that key's row. *)
Lemma some_side_key (side : Z * Z -> Z) sel c ty id i :
  (forall ow, ow_channel_id ow = c -> sel ow = true <-> ow_target_type ow = ty /\ ow_target_id ow = id) ->
  existsb (fun ow => sel ow && Z.testbit (PermissionFromInt64 (side (ow_allow ow, ow_deny ow))) i)
    (channel_overwrites t c) = ow_bit side t c ty id i.
Proof.
  intros Hsel. apply eq_true_iff_eq. rewrite existsb_exists. unfold ow_bit. split.
  - intros (ow & [Hc Hl]%list_elem_of_In%elem_of_channel_overwrites & Hb).
    apply andb_true_iff in Hb as [Hs Hb]. apply Hsel in Hs as [<- <-]; [|done].
    unfold overwrite_key in Hl. rewrite Hc in Hl. by rewrite Hl.
  - destruct (t_overwrites t !! (c, ty, id)) as [[a d]|] eqn:E; [|done]. intros Hb.
    exists (mkPermissionOverwrite c ty id a d). rewrite <- list_elem_of_In.
    rewrite elem_of_channel_overwrites. split; [done|].
    apply andb_true_iff. split; [|done]. by apply Hsel.
Qed.

(** The same for a selector over a list of roles. *)
Lemma some_side_roles (side : Z * Z -> Z) sel c (rs : list dbRole) i :
  (forall ow, ow_channel_id ow = c ->
     sel ow = true <-> ow_target_type ow = OverwriteTargetRole /\
                       exists r, r ∈ rs /\ role_id r = ow_target_id ow) ->
  existsb (fun ow => sel ow && Z.testbit (PermissionFromInt64 (side (ow_allow ow, ow_deny ow))) i)
    (channel_overwrites t c)
  = existsb (fun r => ow_bit side t c OverwriteTargetRole (role_id r) i) rs.
Proof.
  intros Hsel. apply eq_true_iff_eq. rewrite !existsb_exists. unfold ow_bit. split.
  - intros (ow & [Hc Hl]%list_elem_of_In%elem_of_channel_overwrites & Hb).
    apply andb_true_iff in Hb as [Hs Hb]. apply Hsel in Hs as (Ht & r & Hr & He); [|done].
    exists r. rewrite <- list_elem_of_In. split; [done|]. unfold overwrite_key in Hl.
    rewrite Hc, Ht, <- He in Hl. by rewrite Hl.
  - intros (r & Hr%list_elem_of_In & Hb).
    destruct (t_overwrites t !! (c, OverwriteTargetRole, role_id r)) as [[a d]|] eqn:E; [|done].
    exists (mkPermissionOverwrite c OverwriteTargetRole (role_id r) a d).
    rewrite <- list_elem_of_In, elem_of_channel_overwrites. split; [done|].
    apply andb_true_iff. split; [|done]. apply Hsel; [done|]. split; [done|]. by exists r.
Qed.

Lemma granted_not_default g u r :
  r ∈ granted_roles t g u -> role_is_default r = false.
Proof.
  unfold granted_roles. rewrite list_elem_of_filter, guild_roles_lookup by done.
  intros [Hgr [Hl Hg]]. destruct (wf_grant _ Hwf _ _ _ Hgr) as (_ & r' & Hr' & Hd).
  apply get_role_Some in Hr' as [? ?]. congruence.
Qed.

(** applyOverwrites on a guild member's own ids computes the three tiers. *)
Lemma applyOverwrites_layered g u c b held ev i :
  is_Some (t_guilds t !! g) ->
  (forall id, id ∈ held <-> exists r, r ∈ authority_roles t g u /\ role_id r = id) ->
  (exists r, default_roles t g = [r] /\ ev = role_id r) ->
  Z.testbit (applyOverwrites b c (channel_overwrites t c) held ev u) i =
  member_tier t u c i (role_tier t g u c i (everyone_tier t g c i (Z.testbit b i))).
Proof.
  intros Hg Hheld (rd & Hd & ->).
  destruct (one_everyone_keys c (role_id rd) _ (channel_overwrites_keys t c)) as [Hn Hone].
  rewrite applyOverwrites_bit by done.
  unfold member_tier, role_tier, everyone_tier, some_allow, some_deny, allows_bit, denies_bit.
  assert (forall side : Z * Z -> Z,
    existsb (fun ow => is_member_row c u ow &&
      Z.testbit (PermissionFromInt64 (side (ow_allow ow, ow_deny ow))) i) (channel_overwrites t c)
    = ow_bit side t c OverwriteTargetMember u i) as Hm.
  { intros side. apply some_side_key. intros ow Hc. unfold is_member_row.
    rewrite !andb_true_iff, !Z.eqb_eq. naive_solver. }
  assert (forall side : Z * Z -> Z,
    existsb (fun ow => is_everyone_row c (role_id rd) ow &&
      Z.testbit (PermissionFromInt64 (side (ow_allow ow, ow_deny ow))) i) (channel_overwrites t c)
    = existsb (fun r => ow_bit side t c OverwriteTargetRole (role_id r) i) (default_roles t g)) as He.
  { intros side. apply some_side_roles. intros ow Hc. unfold is_everyone_row. rewrite Hd.
    setoid_rewrite list_elem_of_singleton.
    rewrite !andb_true_iff, !Z.eqb_eq. naive_solver. }
  assert (forall side : Z * Z -> Z,
    existsb (fun ow => is_role_row c held (role_id rd) ow &&
      Z.testbit (PermissionFromInt64 (side (ow_allow ow, ow_deny ow))) i) (channel_overwrites t c)
    = existsb (fun r => ow_bit side t c OverwriteTargetRole (role_id r) i) (granted_roles t g u)) as Hr.
  { intros side. apply some_side_roles. intros ow Hc. unfold is_role_row, is_everyone_row.
    rewrite !andb_true_iff, negb_true_iff, !andb_false_iff, bool_decide_eq_true, Hheld,
      !Z.eqb_eq, !Z.eqb_neq.
    assert (rd ∈ default_roles t g) as [Hrd Hrdg]%elem_of_default_roles by (rewrite Hd; by left).
    apply (guild_roles_lookup t Hwf) in Hrdg as [Hrdl Hrdg]. split.
    - intros (_ & Hne & Hty & r & [[Hdef|Hgr] Hrg]%elem_of_authority_roles & Hid).
      + assert (r ∈ default_roles t g) as Hx by (by apply elem_of_default_roles).
        rewrite Hd in Hx. apply list_elem_of_singleton in Hx. naive_solver.
      + split; [done|]. exists r. split; [|done]. unfold granted_roles.
        by rewrite list_elem_of_filter.
    - intros (Hty & r & Hrg & Hid). pose proof (granted_not_default _ _ _ Hrg) as Hnd.
      unfold granted_roles in Hrg. apply list_elem_of_filter in Hrg as [Hgr Hrg].
      split; [done|]. split.
      { right; right. rewrite <- Hid. intros E.
        apply (guild_roles_lookup t Hwf) in Hrg as [Hl _]. rewrite E in Hl. congruence. }
      split; [done|]. exists r. split; [|done].
      apply elem_of_authority_roles. auto. }
  pose proof (Hm fst) as Hm1. pose proof (Hm snd) as Hm2. pose proof (He fst) as He1.
  pose proof (He snd) as He2. pose proof (Hr fst) as Hr1. pose proof (Hr snd) as Hr2.
  simpl in *. by rewrite Hm1, Hm2, He1, He2, Hr1, Hr2.
Qed.

(** What a resolution of account [u] in guild [g] says, by the layers. *)
Record resolution_of (g u : Z) (r : Resolution) : Prop := {
  ro_member : is_owner t g u || is_member t g u = true;
  ro_user : Resolution_UserID r = u;
  ro_owner : exists gr, t_guilds t !! g = Some gr /\ Resolution_OwnerID r = guild_owner_id gr;
  ro_bypassed : bypassed r = bypasses t g u;
  ro_base : forall i, layered t g u 0 i = Some (Z.testbit (Resolution_Permissions r) i);
  ro_channel : forall c i, c <> 0 -> layered t g u c i = Some (Z.testbit
    (Resolution_InChannel r c (if channel_in_guild t c g then channel_overwrites t c else [])) i);
  ro_inner : bypassed r = false ->
    (forall i, Z.testbit (base r) i = base_bit t g u i) /\
    (forall id, id ∈ heldRoleIDs r <-> exists x, x ∈ authority_roles t g u /\ role_id x = id) /\
    (exists rd, default_roles t g = [rd] /\ everyoneRoleID r = role_id rd);
  ro_settled : bypassed r = true -> Resolution_Permissions r = permAll;
  ro_standing : Resolution_Standing r = if is_owner t g u then 0 else standing_of t g u
}.

Lemma IsOwner_of g u r : resolution_of g u r -> Resolution_IsOwner r = is_owner t g u.
Proof.
  intros [_ Hu (gr & Hg & Ho) _ _ _ _ _ _]. unfold Resolution_IsOwner, is_owner.
  rewrite Hu, Ho, Hg. destruct (wf_owner _ Hwf _ _ Hg) as [Hnz _].
  apply Z.eqb_neq in Hnz. by rewrite Hnz.
Qed.

Lemma standing_authority g u :
  is_Some (t_guilds t !! g) ->
  foldl Z.max 0 (role_position <$> authority_roles t g u) = standing_of t g u.
Proof.
  intros Hg. rewrite foldl_max_foldr by lia. unfold standing_of.
  change (filter _ (guild_roles t g)) with (granted_roles t g u).
  pose proof (foldr_max_bound (role_position <$> granted_roles t g u)) as [H0 Hle].
  pose proof (foldr_max_bound (role_position <$> authority_roles t g u)) as [H0' Hle'].
  apply Z.le_antisymm; rewrite ?Z.max_r by lia; apply foldr_max_le; try lia;
    intros z (r & -> & Hr)%list_elem_of_fmap.
  - apply elem_of_authority_roles in Hr as [[Hd|Hgr] Hr].
    + apply guild_roles_lookup in Hr as [Hl _]; [|done].
      rewrite (wf_default_position _ Hwf _ _ Hl Hd). lia.
    + apply Hle, list_elem_of_fmap_2. by apply elem_of_granted_roles.
  - apply elem_of_granted_roles in Hr as [Hgr Hr].
    apply Hle', list_elem_of_fmap_2. apply elem_of_authority_roles. auto.
Qed.

(** A settled resolution answers alike at every channel. *)
Lemma resolution_of_bypass g u r :
  is_owner t g u || is_member t g u = true -> bypasses t g u = true ->
  Resolution_UserID r = u ->
  (exists gr, t_guilds t !! g = Some gr /\ Resolution_OwnerID r = guild_owner_id gr) ->
  bypassed r = true -> Resolution_Permissions r = permAll ->
  Resolution_Standing r = (if is_owner t g u then 0 else standing_of t g u) ->
  resolution_of g u r.
Proof.
  intros Hm Hb Hu Ho Hby Hp Hs. split; try done; [by rewrite Hby, Hb|..]; try congruence;
    intros; unfold layered, Resolution_InChannel; by rewrite Hm, Hb, ?Hby, Hp.
Qed.

Lemma base_bit_authority g u i :
  existsb (role_bit i) (authority_roles t g u) = base_bit t g u i.
Proof. apply existsb_authority. Qed.

Lemma resolution_of_layers g u gr mem os :
  t_guilds t !! g = Some gr -> is_owner t g u = false -> is_member t g u = true ->
  omap id os = authority_roles t g u ->
  let r := foldl authority_step (mkResolution u 0 (guild_owner_id gr) 0 0 false ∅ 0)
             (authority_row (guild_owner_id gr) mem <$> os) in
  let r' := with_permissions (base r) r in
  resolution_of g u (if Permission_Has (base r) PermAdministrator then with_bypass r' else r').
Proof.
  intros Hg Ho Hm Hos r r'.
  pose proof (authority_fold (guild_owner_id gr) mem os
    (mkResolution u 0 (guild_owner_id gr) 0 0 false ∅ 0)) as [Hu How Hby Hb Hh Hp He].
  fold r in Hu, How, Hby, Hb, Hh, Hp, He. simpl in *. rewrite Hos in *.
  assert (forall i, Z.testbit (base r) i = base_bit t g u i) as Hbase.
  { intros i. rewrite Hb, Z.bits_0. apply base_bit_authority. }
  assert (Permission_Has (base r) PermAdministrator = bypasses t g u) as Hadm.
  { unfold bypasses. rewrite Ho. simpl. rewrite <- Hbase. apply Has_bit. lia. }
  assert (is_Some (t_guilds t !! g)) as Hsg by eauto.
  assert (highestPosition r = if is_owner t g u then 0 else standing_of t g u) as Hst.
  { rewrite Ho, Hp. by apply standing_authority. }
  assert (forall id', id' ∈ heldRoleIDs r <->
    exists x, x ∈ authority_roles t g u /\ role_id x = id') as Hheld.
  { intros id'. rewrite Hh. clear. set_solver. }
  assert (exists rd, default_roles t g = [rd] /\ everyoneRoleID r = role_id rd) as Hev.
  { destruct (everyone_fold_id g u 0 Hsg) as (rd & Hrd & Hid). exists rd.
    split; [done|]. by rewrite He, <- Hid. }
  rewrite Hadm. destruct (bypasses t g u) eqn:Hby'.
  { apply resolution_of_bypass; unfold r'; simpl; eauto. by rewrite Ho, Hm. }
  split; simpl; rewrite ?Ho, ?Hm; eauto.
  - intros i. unfold layered. by rewrite Ho, Hm, Hby', Hbase.
  - intros c i Hc. unfold layered, channel_bit, Resolution_InChannel. simpl.
    rewrite Ho, Hm, Hby', Hby, Hu. apply Z.eqb_neq in Hc. rewrite Hc. simpl.
    destruct (channel_in_guild t c g).
    + rewrite <- Hbase. by rewrite (applyOverwrites_layered g).
    + by rewrite applyOverwrites_nil, Hbase.
  - by rewrite Hby.
  - unfold r', Resolution_Standing. simpl. by rewrite Hst, Ho.
Qed.

Lemma resolve_rows_spec g u :
  match resolve_rows u (authority_rows t g u) with
  | inl e => e = ENotAMember /\ is_owner t g u || is_member t g u = false
  | inr r => resolution_of g u r
  end.
Proof.
  destruct (t_guilds t !! g) as [gr|] eqn:Hg.
  2:{ rewrite (proj2 (authority_rows_nil t g u) Hg). simpl.
      unfold is_owner, is_member. rewrite Hg. split; [done|].
      by rewrite bool_decide_eq_false_2 by (intros [? ?]; done). }
  assert (is_owner t g u = (guild_owner_id gr =? u)) as Ho by (unfold is_owner; by rewrite Hg).
  assert (is_member t g u = bool_decide (is_Some (t_members t !! (g, u)))) as Hm.
  { unfold is_member. rewrite Hg, bool_decide_eq_true_2 by eauto. done. }
  destruct (wf_owner _ Hwf _ _ Hg) as [Hnz Hmem]. apply Z.eqb_neq in Hnz.
  destruct (authority_rows_shape t g u gr Hg) as (o0 & os & -> & Hos).
  unfold resolve_rows. rewrite fmap_cons. unfold Resolution_IsOwner. cbn [ar_owner_id
    authority_row Resolution_OwnerID Resolution_UserID ar_is_member].
  rewrite Hnz, <- Hm. simpl negb. rewrite andb_true_l, <- Ho.
  destruct (is_owner t g u) eqn:Hown.
  - apply resolution_of_bypass; simpl; rewrite ?Hown; eauto. unfold bypasses. by rewrite Hown.
  - destruct (is_member t g u) eqn:Hmm; [|done]. cbn [negb].
    rewrite <- fmap_cons, Hm. by apply (resolution_of_layers _ _ gr).
Qed.
End refinement.

(** ** Resolve *)

(** A resolution in channel [c] ([0]: at guild level): its permissions are the layers' bits, its
    owner and standing the guild's, and one made at guild level answers for every channel. *)
Record resolved (t : Tables) (g u c : Z) (r : Resolution) : Prop := {
  rs_user : Resolution_UserID r = u;
  rs_owner : exists gr, t_guilds t !! g = Some gr /\ Resolution_OwnerID r = guild_owner_id gr;
  rs_bits : forall i, layered t g u c i = Some (Z.testbit (Resolution_Permissions r) i);
  rs_IsOwner : Resolution_IsOwner r = is_owner t g u;
  rs_standing : Resolution_Standing r = (if is_owner t g u then 0 else standing_of t g u);
  rs_channel : c = 0 -> forall c' i, c' <> 0 -> layered t g u c' i = Some (Z.testbit
    (Resolution_InChannel r c' (if channel_in_guild t c' g then channel_overwrites t c' else [])) i)
}.

(** What Resolve returns when no statement fails. *)
Definition Resolve_result (t : Tables) (g u c : Z) : Err + Resolution :=
  match resolve_rows u (authority_rows t g u) with
  | inl e => inl e
  | inr r =>
      if bypassed r || (c =? 0) then inr r
      else inr (with_permissions (Resolution_InChannel r c
             (if channel_in_guild t c g then channel_overwrites t c else [])) r)
  end.

Lemma Resolve_result_spec t (Hwf : wf t) g u c :
  match Resolve_result t g u c with
  | inl e => e = ENotAMember /\ forall i, layered t g u c i = None
  | inr r => resolved t g u c r
  end.
Proof.
  unfold Resolve_result. pose proof (resolve_rows_spec t Hwf g u) as H.
  destruct (resolve_rows u (authority_rows t g u)) as [e|r].
  - destruct H as [-> Hm]. split; [done|]. intros i. unfold layered. by rewrite Hm.
  - pose proof (IsOwner_of t Hwf g u r H) as Hio. destruct H as [Hm Hu Ho Hby Hb Hc _ _ Hs].
    destruct (Z.eqb_spec c 0) as [->|Hne]; [rewrite orb_true_r; by split|].
    rewrite orb_false_r. destruct (bypassed r) eqn:E.
    + split; try done. intros i. rewrite <- (Hb i). unfold layered. by rewrite Hm, <- Hby.
    + split; try done. intros i. simpl. by apply Hc.
Qed.

Lemma Resolve_run g u c s :
  faults s = [] -> Resolve g u c s = (Resolve_result (tabs s) g u c, s).
Proof.
  intros Hf. unfold Resolve, Resolve_result, Queries_ListGuildMemberAuthority, mbind, M_bind.
  rewrite reading_run by done. destruct (resolve_rows _ _) as [e|r]; [done|].
  destruct (bypassed r); [done|]. destruct (c =? 0); [done|]. simpl.
  unfold Queries_ListChannelPermissionOverwrites. by rewrite reading_run.
Qed.

(** With any statement allowed to fail, a value returned is the one above. *)
Lemma wp_Resolve g u c (Q : Resolution -> St -> Prop) s :
  (forall fs r, Resolve_result (tabs s) g u c = inr r -> Q r (with_faults fs s)) ->
  wp (Resolve g u c) Q s.
Proof.
  intros HQ. unfold Resolve. wp_steps. unfold Queries_ListGuildMemberAuthority. wp_steps.
  unfold Resolve_result in HQ. simplify_eq. destruct (resolve_rows _ _) as [e|r]; [wp_steps|].
  destruct (bypassed r); [wp_steps; by apply HQ|].
  destruct (c =? 0); [wp_steps; by apply HQ|].
  unfold Queries_ListChannelPermissionOverwrites. wp_steps. simpl in *. simplify_eq.
  by apply HQ.
Qed.

(** C9: Resolve computes ADR 0008's layers. On tables in the invariant and with no statement failing it always
    returns: for an account that is neither owner nor member ErrNotAMember, for any other one a Resolution whose
    every permission bit is the one the layered specification gives in that channel, whose IsOwner is the guilds
    row's, and whose Standing is the greatest position among the roles granted to a member who is not the owner, and
    0 for the owner, who needs none. It writes nothing. *)
Theorem Resolve_refines_layers (s : St) (g u c : Z) (Hwf : wf (tabs s)) (Hok : faults s = []) :
  exists res, Resolve g u c s = (res, s) /\
  match res with
  | inl e => e = ENotAMember /\ forall i, layered (tabs s) g u c i = None
  | inr r => resolved (tabs s) g u c r
  end.
Proof.
  exists (Resolve_result (tabs s) g u c). split; [by apply Resolve_run|].
  by apply Resolve_result_spec.
Qed.

Lemma Resolve_refines_layers_witness :
  (Resolution_Permissions <$> (Resolve 1 102 7 example_state).1) = inr (PermKickMembers ∪ₚ PermViewChannel) /\
  (Resolution_Permissions <$> (Resolve 1 103 7 example_state).1) = inr 0 /\
  (Resolution_Permissions <$> (Resolve 1 100 7 example_state).1) = inr permAll /\
  (Resolution_Permissions <$> (Resolve 1 200 7 example_state).1) = inl ENotAMember /\
  exists res, Resolve 1 102 7 example_state = (res, example_state) /\
  match res with
  | inl e => e = ENotAMember /\ forall i, layered example_tables 1 102 7 i = None
  | inr r => resolved example_tables 1 102 7 r
  end.
Proof.
  repeat (split; [vm_compute; reflexivity|]).
  apply (Resolve_refines_layers example_state 1 102 7 example_wf eq_refl).
Defined.
