(* ===== verification/ResolveMany.v ===== *)
(** backend/internal/roles/resolve_many.go: the same question for many accounts at once, and the
    proof that it gives each account the answer Resolve gives it. *)
From S2P Require Import Prelude GoStd Permissions Snowflake Rows TxMonad Queries.
From S2P Require Import Resolve StoreInv Authority.

(** ** The function *)

Record many_member := mkManyMember { mm_perms : Z; mm_held : gset Z }.

(** One iteration of the loop over the rows. *)
Definition many_step (base : GetGuildAuthorityBaseRow) (members : gmap Z many_member)
    (row : ListMemberRolesForUsersRow) : gmap Z many_member :=
  if negb (mr_is_member row) then members
  else
    let m := match members !! mr_user_id row with
             | Some m => m
             | None => mkManyMember (PermissionFromInt64 (ab_everyone_permissions base))
                         {[ab_everyone_role_id base]}
             end in
    let m := match mr_role_id row with
             | Some id =>
                 mkManyMember
                   (match mr_role_permissions row with
                    | Some p => mm_perms m ∪ₚ PermissionFromInt64 p
                    | None => mm_perms m
                    end) ({[id]} ∪ mm_held m)
             | None => m
             end in
    <[mr_user_id row := m]> members.

(** The rows of an existing channel, back as overwrites. The three other columns are NULL only
    together with the target; a nil one would panic. *)
Definition overwrite_of_row (row : ListOverwritesOfExistingChannelRow)
    : option PermissionOverwrite :=
  match ex_target_type row, ex_target_id row, ex_allow row, ex_deny row with
  | Some ty, Some id, Some allow, Some deny =>
      Some (mkPermissionOverwrite (ex_channel_id row) ty id allow deny)
  | _, _, _, _ => None
  end.

(** The answer for one account of the last loop. *)
Definition many_answer (base : GetGuildAuthorityBaseRow) (members : gmap Z many_member) (c : Z)
    (overwrites : list PermissionOverwrite) (id : Z) : option Z :=
  if id =? ab_owner_id base then Some permAll
  else
    match members !! id with
    | None => None
    | Some m =>
        if Permission_Has (mm_perms m) PermAdministrator then Some permAll
        else if c =? 0 then Some (mm_perms m)
        else Some (applyOverwrites (mm_perms m) c overwrites (mm_held m)
                     (ab_everyone_role_id base) id)
    end.

(** The overwrites to use: the caller's, or the channel's; [None] when the channel is gone. *)
Definition many_overwrites (g c : Z) (overwrites : option (list PermissionOverwrite))
    : M (option (list PermissionOverwrite)) :=
  match overwrites with
  | Some ows => mret (Some ows)
  | None =>
      if c =? 0 then mret (Some [])
      else
        rows ← Queries_ListOverwritesOfExistingChannel c;
        mret match rows with
             | [] => None
             | row :: _ =>
                 if bool_decide (ex_guild_id row = Some g) then Some (omap overwrite_of_row rows)
                 else None
             end
  end.

(** [overwrites] is Go's slice: [None] for nil. *)
Definition ResolveMany (g c : Z) (userIDs : list Z)
    (overwrites : option (list PermissionOverwrite)) : M (gmap Z Z) :=
  match userIDs with
  | [] => mret ∅
  | _ =>
      base_or ← attempt (Queries_GetGuildAuthorityBase g);
      match base_or with
      | inl ENoRows => mret ∅
      | inl e => throw e
      | inr base =>
          rows ← Queries_ListMemberRolesForUsers userIDs g;
          let members := foldl (many_step base) ∅ rows in
          ows_or ← many_overwrites g c overwrites;
          match ows_or with
          | None => mret ∅
          | Some ows =>
              mret (foldl (fun out id =>
                      match many_answer base members c ows id with
                      | Some p => <[id := p]> out
                      | None => out
                      end) ∅ userIDs)
          end
      end
  end.

(** ** The loops *)

(** The last loop is a lookup. *)
Lemma answers_lookup (ans : Z -> option Z) users u :
  foldl (fun out id => match ans id with Some p => <[id := p]> out | None => out end)
    (∅ : gmap Z Z) users !! u
  = if bool_decide (u ∈ users) then ans u else None.
Proof.
  assert (forall m : gmap Z Z, (forall id, m !! id = ans id \/ m !! id = None) ->
    foldl (fun out id => match ans id with Some p => <[id := p]> out | None => out end) m users !! u
    = if bool_decide (u ∈ users) then ans u else m !! u) as go.
  { induction users as [|id users IH]; intros m Hm; cbn [foldl]; [done|]. rewrite IH.
    - case_bool_decide as H1; case_bool_decide as H2; rewrite elem_of_cons in H2;
        [done|tauto|destruct H2 as [->|?]; [|done]|].
      + destruct (ans id) eqn:E; [by simplify_map_eq|]. destruct (Hm id); congruence.
      + destruct (ans id); [|done]. rewrite lookup_insert_ne by (intros ->; tauto). done.
    - intros id'. destruct (ans id) eqn:E; [|done].
      destruct (decide (id = id')) as [->|]; simplify_map_eq; auto. }
  rewrite go; [by rewrite lookup_empty|]. intros id. right. apply lookup_empty.
Qed.

(** What the rows say of one account: it is a member, and the roles granted to it. *)
Definition row_of (u : Z) (row : ListMemberRolesForUsersRow) : Prop :=
  mr_user_id row = u /\ mr_is_member row = true.

Lemma many_step_other base members row u :
  ~ row_of u row -> many_step base members row !! u = members !! u.
Proof.
  unfold row_of, many_step. intros Hn. destruct (mr_is_member row); [|done]. simpl.
  apply lookup_insert_ne. intros E. by apply Hn.
Qed.

#[export] Instance row_of_dec u row : Decision (row_of u row).
Proof. unfold row_of. apply _. Defined.

(** The member a list of rows builds. *)
Record built (base : GetGuildAuthorityBaseRow) (rows : list ListMemberRolesForUsersRow) (u : Z)
    (m : many_member) : Prop := {
  built_bits : forall i, Z.testbit (mm_perms m) i =
    Z.testbit (PermissionFromInt64 (ab_everyone_permissions base)) i ||
    existsb (fun row => bool_decide (row_of u row) && match mr_role_id row, mr_role_permissions row with
                        | Some _, Some p => Z.testbit (PermissionFromInt64 p) i
                        | _, _ => false
                        end) rows;
  built_held : forall id, id ∈ mm_held m <->
    id = ab_everyone_role_id base \/ exists row, row ∈ rows /\ row_of u row /\ mr_role_id row = Some id
}.

Definition everyone_member (base : GetGuildAuthorityBaseRow) : many_member :=
  mkManyMember (PermissionFromInt64 (ab_everyone_permissions base)) {[ab_everyone_role_id base]}.

Lemma built_nil base u : built base [] u (everyone_member base).
Proof.
  split; simpl; [intros i; by rewrite orb_false_r|]. intros id. rewrite elem_of_singleton.
  split; [by left|]. intros [?|(? & []%elem_of_nil & _)]. done.
Qed.

Lemma built_app_other base rows row u m :
  ~ row_of u row -> built base rows u m -> built base (rows ++ [row]) u m.
Proof.
  intros Hn [Hb Hh]. split.
  - intros i. rewrite Hb, existsb_app. cbn [existsb].
    rewrite (bool_decide_eq_false_2 _ Hn). by rewrite orb_false_r.
  - intros id. rewrite Hh. setoid_rewrite elem_of_app. setoid_rewrite list_elem_of_singleton.
    clear -Hn. split; [intros [?|(x & ? & ?)]; eauto 6|].
    intros [?|(x & [?| ->] & ? & ?)]; eauto 6. done.
Qed.

Lemma built_app base rows row u m :
  row_of u row -> built base rows u m ->
  built base (rows ++ [row]) u
    (match mr_role_id row with
     | Some id =>
         mkManyMember
           (match mr_role_permissions row with
            | Some p => mm_perms m ∪ₚ PermissionFromInt64 p
            | None => mm_perms m
            end) ({[id]} ∪ mm_held m)
     | None => m
     end).
Proof.
  intros Hr [Hb Hh]. split.
  - intros i. rewrite existsb_app. cbn [existsb]. rewrite (bool_decide_eq_true_2 _ Hr).
    rewrite orb_false_r, andb_true_l.
    destruct (mr_role_id row) as [id|]; [|by rewrite Hb, orb_false_r].
    cbn [mm_perms]. destruct (mr_role_permissions row); autorewrite with bits;
      rewrite Hb, ?orb_false_r, ?orb_assoc; done.
  - intros id'. setoid_rewrite elem_of_app. setoid_rewrite list_elem_of_singleton.
    destruct (mr_role_id row) as [id|] eqn:E; cbn [mm_held];
      rewrite ?elem_of_union, ?elem_of_singleton, Hh; clear -E Hr.
    + split; [intros [->|[?|(x & ? & ?)]]; eauto 8|].
      intros [?|(x & [?| ->] & ? & ?)]; eauto 6. left; congruence.
    + split; [intros [?|(x & ? & ?)]; eauto 6|].
      intros [?|(x & [?| ->] & ? & ?)]; eauto 6. congruence.
Qed.

(** The map the first loop leaves: an entry for exactly the accounts with a member's row. *)
Lemma many_fold base rows u :
  match foldl (many_step base) ∅ rows !! u with
  | Some m => (exists row, row ∈ rows /\ row_of u row) /\ built base rows u m
  | None => forall row, row ∈ rows -> ~ row_of u row
  end.
Proof.
  induction rows as [|row rows IH] using rev_ind.
  { simpl. rewrite lookup_empty. by intros ? []%elem_of_nil. }
  rewrite foldl_app. cbn [foldl]. set (ms := foldl (many_step base) ∅ rows) in *.
  destruct (decide (row_of u row)) as [Hr|Hr].
  - unfold many_step. destruct Hr as [Hu Hm]. rewrite Hm. simpl. rewrite Hu, lookup_insert_eq.
    split; [exists row; split; [apply elem_of_app; right; by left|done]|].
    apply built_app; [done|].
    destruct (ms !! u) as [m|] eqn:E; [by apply IH|].
    assert (forall l, (forall x, x ∈ l -> ~ row_of u x) -> built base l u (everyone_member base)) as go.
    { intros l. induction l as [|x l IHl] using rev_ind; intros Hl; [apply built_nil|].
      apply built_app_other; [apply Hl, elem_of_app; right; by left|].
      apply IHl. intros y Hy. apply Hl, elem_of_app. by left. }
    by apply go.
  - rewrite many_step_other by done. destruct (ms !! u) as [m|].
    + destruct IH as [(x & Hx & Hxu) Hb]. split; [|by apply built_app_other].
      exists x. rewrite elem_of_app. auto.
    + intros x [Hx|Hx]%elem_of_app; [by apply IH|].
      by apply list_elem_of_singleton in Hx as ->.
Qed.

(** ** The rows, on tables in the invariant *)

Section many.
Context (t : Tables) (Hwf : wf t).

Lemma member_roles_rows g users u row :
  row ∈ users ≫= member_roles_of t g /\ row_of u row <->
  u ∈ users /\ is_Some (t_members t !! (g, u)) /\ row ∈ member_roles_of t g u.
Proof.
  rewrite list_elem_of_bind.
  assert (forall v, row ∈ member_roles_of t g v -> mr_user_id row = v /\
    (mr_is_member row = true <-> is_Some (t_members t !! (g, v)))) as Hrow.
  { intros v. unfold member_roles_of. destruct (decide (is_Some _)) as [Hs|Hs].
    - destruct (member_role_ids t g v) as [|id ids].
      + intros ->%list_elem_of_singleton. by split.
      + by intros (id' & -> & _)%list_elem_of_fmap.
    - intros ->%list_elem_of_singleton. simpl. split; [done|]. by split. }
  unfold row_of. split.
  - intros ((v & Hv & Hin) & <- & Hm). destruct (Hrow _ Hv) as [E HE].
    rewrite E. by split_and!; [|apply HE|].
  - intros (Hin & Hs & Hr). destruct (Hrow _ Hr) as [E HE]. rewrite HE. eauto.
Qed.

Lemma member_roles_of_grant g u row :
  is_Some (t_members t !! (g, u)) ->
  row ∈ member_roles_of t g u ->
  mr_role_id row = None /\ mr_role_permissions row = None \/
  exists r, r ∈ granted_roles t g u /\ mr_role_id row = Some (role_id r) /\
            mr_role_permissions row = Some (role_permissions r).
Proof.
  intros Hs. unfold member_roles_of. rewrite decide_True by done.
  destruct (member_role_ids t g u) as [|id ids] eqn:E.
  - intros ->%list_elem_of_singleton. by left.
  - intros (id' & -> & Hid)%list_elem_of_fmap. right. rewrite <- E in Hid.
    apply elem_of_member_role_ids in Hid.
    destruct (wf_grant _ Hwf _ _ _ Hid) as (_ & r & [Hr Hg]%get_role_Some & _).
    exists r. rewrite Hr. split; [|done]. apply elem_of_granted_roles.
    rewrite (guild_roles_lookup t Hwf), (wf_role_key _ Hwf _ _ Hr). done.
Qed.

Lemma grant_member_roles_of g u r :
  r ∈ granted_roles t g u ->
  mkMemberRolesRow u true (Some (role_id r)) (Some (role_permissions r)) ∈ member_roles_of t g u.
Proof.
  intros [Hgr Hr]%elem_of_granted_roles. apply (guild_roles_lookup t Hwf) in Hr as [Hl Hg].
  destruct (wf_grant _ Hwf _ _ _ Hgr) as (Hs & _).
  unfold member_roles_of. rewrite decide_True by done.
  apply elem_of_member_role_ids in Hgr.
  destruct (member_role_ids t g u) as [|id ids]; [by apply elem_of_nil in Hgr|].
  apply list_elem_of_fmap. exists (role_id r). by rewrite Hl.
Qed.

Lemma member_roles_of_some g u :
  is_Some (t_members t !! (g, u)) -> exists row, row ∈ member_roles_of t g u.
Proof.
  intros Hs. unfold member_roles_of. rewrite decide_True by done.
  destruct (member_role_ids t g u); eexists; by left.
Qed.

(** What the first loop holds for a member: its roles and the union of their permissions. *)
Lemma built_member g users u base rd m :
  default_roles t g = [rd] -> ab_everyone_role_id base = role_id rd ->
  ab_everyone_permissions base = role_permissions rd ->
  u ∈ users -> is_Some (t_members t !! (g, u)) ->
  built base (users ≫= member_roles_of t g) u m ->
  (forall i, Z.testbit (mm_perms m) i = base_bit t g u i) /\
  (forall id, id ∈ mm_held m <-> exists x, x ∈ authority_roles t g u /\ role_id x = id).
Proof.
  intros Hd He Hp Hin Hs [Hb Hh]. split.
  - intros i. rewrite Hb, Hp. unfold base_bit. rewrite Hd. cbn [existsb].
    rewrite orb_false_r. f_equal. apply eq_true_iff_eq. rewrite !existsb_exists.
    setoid_rewrite <- list_elem_of_In. split.
    + intros (row & Hrow & [Hu%bool_decide_eq_true Hbit]%andb_true_iff).
      destruct (proj1 (member_roles_rows g users u row) (conj Hrow Hu)) as (_ & _ & Hr).
      destruct (member_roles_of_grant _ _ _ Hs Hr) as [[E1 E2]|(r & Hr' & E1 & E2)];
        rewrite E1 in Hbit; [done|]. rewrite E2 in Hbit. by exists r.
    + intros (r & Hr & Hbit).
      destruct (proj2 (member_roles_rows g users u _) (conj Hin (conj Hs (grant_member_roles_of _ _ _ Hr))))
        as [Hrow Hu].
      eexists. split; [exact Hrow|]. by rewrite bool_decide_eq_true_2.
  - intros id. rewrite Hh, He. split.
    + intros [->|(row & Hrow & Hu & Hid)].
      * exists rd. split; [|done]. apply elem_of_authority_roles.
        assert (rd ∈ default_roles t g) as [? ?]%elem_of_default_roles by (rewrite Hd; by left).
        auto.
      * destruct (proj1 (member_roles_rows g users u row) (conj Hrow Hu)) as (_ & _ & Hr).
        destruct (member_roles_of_grant _ _ _ Hs Hr) as [[E1 E2]|(r & Hr' & E1 & E2)];
          [congruence|]. exists r. split; [|congruence].
        apply elem_of_granted_roles in Hr' as [? ?]. apply elem_of_authority_roles. auto.
    + intros (x & [[Hdef|Hgr] Hx]%elem_of_authority_roles & <-).
      * left. assert (x ∈ default_roles t g) as Hxd by (by apply elem_of_default_roles).
        rewrite Hd in Hxd. by apply list_elem_of_singleton in Hxd as ->.
      * right. assert (x ∈ granted_roles t g u) as Hxg by (by apply elem_of_granted_roles).
        destruct (proj2 (member_roles_rows g users u _) (conj Hin (conj Hs (grant_member_roles_of _ _ _ Hxg))))
          as [Hrow Hu].
        eexists. split; [exact Hrow|done].
Qed.

(** One account's answer is what the single resolution's rows give it. *)
Lemma many_answer_resolve g gr rd users c ows u :
  t_guilds t !! g = Some gr -> default_roles t g = [rd] -> u ∈ users ->
  let base := mkAuthorityBase (guild_owner_id gr) (role_id rd) (role_permissions rd) in
  many_answer base (foldl (many_step base) ∅ (users ≫= member_roles_of t g)) c ows u =
  match resolve_rows u (authority_rows t g u) with
  | inl _ => None
  | inr r => Some (if c =? 0 then Resolution_Permissions r else Resolution_InChannel r c ows)
  end.
Proof.
  intros Hg Hd Hin base. unfold many_answer. cbn [ab_owner_id base].
  pose proof (resolve_rows_spec t Hwf g u) as Hspec.
  assert (is_owner t g u = (u =? guild_owner_id gr)) as Ho.
  { unfold is_owner. rewrite Hg. apply Z.eqb_sym. }
  assert (is_member t g u = bool_decide (is_Some (t_members t !! (g, u)))) as Hmem.
  { unfold is_member. rewrite Hg, bool_decide_eq_true_2 by eauto. done. }
  pose proof (many_fold base (users ≫= member_roles_of t g) u) as Hfold.
  rewrite <- Ho. destruct (resolve_rows u (authority_rows t g u)) as [e|r].
  - destruct Hspec as [_ Hno]. apply orb_false_iff in Hno as [-> Hno].
    destruct (foldl _ _ _ !! u) as [m|]; [|done]. exfalso.
    destruct Hfold as [(row & Hrow & Hu) _].
    destruct (proj1 (member_roles_rows g users u row) (conj Hrow Hu)) as (_ & Hs & _).
    rewrite Hmem in Hno. by apply bool_decide_eq_false in Hno.
  - destruct Hspec as [Hm Hu _ Hby Hb _ Hinner Hset _]. unfold Resolution_InChannel.
    destruct (is_owner t g u) eqn:Hown.
    { assert (bypassed r = true) as E by (rewrite Hby; unfold bypasses; by rewrite Hown).
      rewrite E, (Hset E). by destruct (c =? 0). }
    simpl in Hm. assert (is_Some (t_members t !! (g, u))) as Hs.
    { rewrite Hmem in Hm. by apply bool_decide_eq_true in Hm. }
    destruct (foldl _ _ _ !! u) as [m|] eqn:Em.
    2:{ destruct (member_roles_of_some g u Hs) as [row Hr].
        destruct (proj2 (member_roles_rows g users u row)) as [Hrow Hof]; [done|].
        exfalso. by apply (Hfold row). }
    destruct Hfold as [_ Hbuilt].
    destruct (built_member g users u base rd m Hd eq_refl eq_refl Hin Hs Hbuilt) as [Hbits Hheld].
    assert (Permission_Has (mm_perms m) PermAdministrator = bypassed r) as Hadm.
    { rewrite Hby. unfold bypasses. rewrite Hown. simpl. rewrite <- Hbits. apply Has_bit. lia. }
    rewrite Hadm. destruct (bypassed r) eqn:E.
    { rewrite (Hset eq_refl). by destruct (c =? 0). }
    destruct (Hinner eq_refl) as (Hbase & Hheld' & rd' & Hd' & He). simplify_eq.
    destruct (c =? 0) eqn:Ec; f_equal.
    + apply perm_ext. intros i. specialize (Hb i). unfold layered in Hb.
      rewrite Hown, Hm, <- Hby in Hb. simpl in Hb. rewrite Hbits. congruence.
    + rewrite He. f_equal.
      * apply perm_ext. intros i. by rewrite Hbits, Hbase.
      * apply set_eq. intros id. by rewrite Hheld, Hheld'.
      * unfold base. cbn. congruence.
Qed.

(** The rows of an existing channel give its overwrites back. *)
Lemma overwrite_rows_back gid c :
  omap (M:=list) overwrite_of_row
    (match channel_overwrites t c with
     | [] => [existing_row gid c None]
     | ows => (fun ow => existing_row gid c (Some ow)) <$> ows
     end) = channel_overwrites t c.
Proof.
  assert (forall ows, (forall ow, ow ∈ ows -> ow_channel_id ow = c) ->
    omap (M:=list) overwrite_of_row ((fun ow => existing_row gid c (Some ow)) <$> ows) = ows) as go.
  { induction ows as [|ow ows IH]; intros H; [done|]. cbn [fmap list_fmap omap list_omap].
    change (list_omap ?A ?B) with (@omap list _ A B). rewrite IH by (intros; apply H; by right).
    cbn. rewrite <- (H ow) by (by left). by destruct ow. }
  assert (forall ow, ow ∈ channel_overwrites t c -> ow_channel_id ow = c) as Hc.
  { by intros ow [? _]%elem_of_channel_overwrites. }
  destruct (channel_overwrites t c) as [|ow ows]; [done|]. by apply go.
Qed.
End many.

(** ** Runs without a failing statement *)

Lemma many_overwrites_run g c ows s :
  faults s = [] ->
  many_overwrites g c ows s =
  (inr match ows with
       | Some l => Some l
       | None => if c =? 0 then Some []
                 else if channel_in_guild (tabs s) c g then Some (channel_overwrites (tabs s) c)
                 else None
       end, s).
Proof.
  intros Hf. unfold many_overwrites. destruct ows as [l|]; [done|].
  destruct (c =? 0); [done|]. unfold mbind, M_bind, Queries_ListOverwritesOfExistingChannel.
  rewrite reading_run by done. unfold channel_in_guild.
  destruct (t_channels (tabs s) !! c) as [ch|]; [|done].
  pose proof (overwrite_rows_back (tabs s) (channel_guild_id ch) c) as Hback.
  destruct (channel_overwrites (tabs s) c) as [|ow ows] eqn:E.
  - simpl. by destruct (bool_decide _).
  - rewrite fmap_cons in *. cbn [existing_row ex_guild_id]. by rewrite Hback.
Qed.

(** The whole call. *)
Lemma ResolveMany_run g c users ows s :
  wf (tabs s) -> faults s = [] ->
  exists out : gmap Z Z, ResolveMany g c users ows s = (inr out, s) /\
  forall u, out !! u =
    if bool_decide (u ∈ users) then
      match (many_overwrites g c ows s).1 with
      | inr (Some l) =>
          match resolve_rows u (authority_rows (tabs s) g u) with
          | inl _ => None
          | inr r => Some (if c =? 0 then Resolution_Permissions r else Resolution_InChannel r c l)
          end
      | _ => None
      end
    else None.
Proof.
  intros Hwf Hf. unfold ResolveMany. destruct users as [|v users].
  { exists ∅. split; [done|]. intros u. by rewrite lookup_empty, bool_decide_eq_false_2 by apply not_elem_of_nil. }
  set (us := v :: users). unfold attempt, Queries_GetGuildAuthorityBase, mbind, M_bind.
  rewrite reading_run by done. destruct (t_guilds (tabs s) !! g) as [gr|] eqn:Hg.
  2:{ exists ∅. split; [done|]. intros u. rewrite lookup_empty.
      pose proof (resolve_rows_spec (tabs s) Hwf g u) as H.
      rewrite (proj2 (authority_rows_nil (tabs s) g u) Hg). simpl.
      by destruct (bool_decide _), (many_overwrites g c ows s).1 as [|[]]. }
  destruct (default_roles_one (tabs s) Hwf g) as (rd & Hd & _); [by eexists|].
  rewrite Hd. cbn [fmap list_fmap one]. unfold Queries_ListMemberRolesForUsers.
  rewrite reading_run by done. rewrite many_overwrites_run by done.
  cbn [fst]. set (l_or := match ows with Some l => Some l | None => _ end).
  destruct l_or as [l|].
  2:{ exists ∅. split; [done|]. intros u. by destruct (bool_decide _). }
  eexists. split; [done|]. intros u. rewrite answers_lookup.
  case_bool_decide as Hin; [|done].
  by apply (many_answer_resolve (tabs s) Hwf g gr rd us c l u).
Qed.

Lemma Resolve_permissions g u c s :
  faults s = [] ->
  Resolution_Permissions <$> (Resolve g u c s).1 =
  (fun r => if c =? 0 then Resolution_Permissions r
            else Resolution_InChannel r c
              (if channel_in_guild (tabs s) c g then channel_overwrites (tabs s) c else []))
    <$> resolve_rows u (authority_rows (tabs s) g u).
Proof.
  intros Hf. rewrite Resolve_run by done. unfold Resolve_result. cbn [fst].
  destruct (resolve_rows _ _) as [e|r]; [done|]. cbn.
  unfold Resolution_InChannel. destruct (bypassed r) eqn:E; destruct (c =? 0); cbn; rewrite ?E; done.
Qed.

(** One account's permissions in the channel, by the layers. *)
Lemma resolve_rows_layers t (Hwf : wf t) g u c :
  match resolve_rows u (authority_rows t g u) with
  | inl _ => forall i, layered t g u c i = None
  | inr r => forall i, layered t g u c i = Some (Z.testbit
      (if c =? 0 then Resolution_Permissions r
       else Resolution_InChannel r c
              (if channel_in_guild t c g then channel_overwrites t c else [])) i)
  end.
Proof.
  pose proof (resolve_rows_spec t Hwf g u) as H.
  destruct (resolve_rows u (authority_rows t g u)) as [e|r].
  - destruct H as [_ H]. intros i. unfold layered. by rewrite H.
  - destruct H as [_ _ _ _ Hb Hc _ _ _]. intros i.
    destruct (Z.eqb_spec c 0) as [->|]; [apply Hb|by apply Hc].
Qed.

(** The map's entries for a channel the guild has, bit by bit. *)
Lemma ResolveMany_layers g c users s :
  wf (tabs s) -> faults s = [] ->
  exists out : gmap Z Z, ResolveMany g c users None s = (inr out, s) /\
  forall u p, out !! u = Some p <->
    u ∈ users /\ (c = 0 \/ channel_in_guild (tabs s) c g = true) /\
    forall i, layered (tabs s) g u c i = Some (Z.testbit p i).
Proof.
  intros Hwf Hf. destruct (ResolveMany_run g c users None s Hwf Hf) as (out & Hrun & Hout).
  exists out. split; [done|]. intros u p. rewrite Hout, many_overwrites_run by done. cbn [fst].
  pose proof (resolve_rows_layers (tabs s) Hwf g u c) as Hl.
  destruct (bool_decide (u ∈ users)) eqn:Hin; bool_hyps; [|naive_solver].
  destruct (Z.eqb_spec c 0) as [->|Hc]; [|destruct (channel_in_guild (tabs s) c g)].
  3:{ naive_solver. }
  all: destruct (resolve_rows u (authority_rows (tabs s) g u)) as [e|r];
    [split; [done|intros (_ & _ & H); specialize (H 0); congruence]|].
  all: split; [intros [= <-]; auto|intros (_ & _ & H); f_equal; apply perm_ext; intros i].
  all: specialize (H i); specialize (Hl i); congruence.
Qed.

(** ** Properties *)

(** C31: ResolveMany answers each account exactly as Resolve would, for a channel the guild has or
    at guild level: the map has an entry for an account of the list just when Resolve returns a
    resolution for it, with the same permissions. For a channel that is gone or in another guild
    the map is empty, the owner's entry included, and an account not asked about has no entry. *)
Theorem ResolveMany_is_Resolve (s : St) (g c : Z) (users : list Z)
    (Hwf : wf (tabs s)) (Hok : faults s = []) :
  exists out : gmap Z Z, ResolveMany g c users None s = (inr out, s) /\
  forall u, out !! u =
    if bool_decide (u ∈ users) && ((c =? 0) || channel_in_guild (tabs s) c g) then
      match Resolution_Permissions <$> (Resolve g u c s).1 with
      | inr p => Some p
      | inl _ => None
      end
    else None.
Proof.
  destruct (ResolveMany_run g c users None s Hwf Hok) as (out & Hrun & Hout).
  exists out. split; [done|]. intros u. rewrite Hout, Resolve_permissions by done.
  rewrite many_overwrites_run by done. cbn [fst].
  destruct (bool_decide (u ∈ users)); [|done]. cbn [andb].
  destruct (c =? 0); cbn [orb]; [|destruct (channel_in_guild (tabs s) c g)]; [| |done];
    by destruct (resolve_rows u (authority_rows (tabs s) g u)).
Qed.

Lemma ResolveMany_is_Resolve_witness :
  (ResolveMany 1 7 [100; 102; 103; 200] None example_state).1
    = inr {[100 := permAll; 102 := PermKickMembers ∪ₚ PermViewChannel; 103 := 0]} /\
  exists out : gmap Z Z, ResolveMany 1 7 [100; 102; 103; 200] None example_state = (inr out, example_state) /\
  forall u, out !! u =
    if bool_decide (u ∈ [100; 102; 103; 200]) && ((7 =? 0) || channel_in_guild example_tables 7 1) then
      match Resolution_Permissions <$> (Resolve 1 u 7 example_state).1 with
      | inr p => Some p
      | inl _ => None
      end
    else None.
Proof.
  split; [vm_compute; reflexivity|].
  apply (ResolveMany_is_Resolve example_state 1 7 [100; 102; 103; 200] example_wf eq_refl).
Defined.

(** With a snapshot of overwrites, ResolveMany does not read the channel at all: each member's
    entry is its guild resolution taken into the channel with exactly those overwrites, so a
    deleted channel's last event is judged by the rows the channel had. *)
Theorem ResolveMany_snapshot (s : St) (g c : Z) (users : list Z) (ows : list PermissionOverwrite)
    (Hwf : wf (tabs s)) (Hok : faults s = []) (Hc : c <> 0) :
  exists out : gmap Z Z, ResolveMany g c users (Some ows) s = (inr out, s) /\
  forall u, out !! u =
    if bool_decide (u ∈ users) then
      match (Resolve g u 0 s).1 with
      | inr r => Some (Resolution_InChannel r c ows)
      | inl _ => None
      end
    else None.
Proof.
  destruct (ResolveMany_run g c users (Some ows) s Hwf Hok) as (out & Hrun & Hout).
  exists out. split; [done|]. intros u. rewrite Hout, Resolve_run by done. cbn [fst many_overwrites].
  apply Z.eqb_neq in Hc. unfold Resolve_result. rewrite Hc.
  destruct (bool_decide (u ∈ users)); [|done]. cbn.
  destruct (resolve_rows u (authority_rows (tabs s) g u)) as [e|r]; [done|].
  by rewrite orb_true_r.
Qed.

Lemma ResolveMany_snapshot_witness :
  exists out : gmap Z Z,
  ResolveMany 1 9 [101; 102] (Some [mkPermissionOverwrite 9 1 102 0 1]) example_state
    = (inr out, example_state) /\
  forall u, out !! u =
    if bool_decide (u ∈ [101; 102]) then
      match (Resolve 1 u 0 example_state).1 with
      | inr r => Some (Resolution_InChannel r 9 [mkPermissionOverwrite 9 1 102 0 1])
      | inl _ => None
      end
    else None.
Proof.
  apply (ResolveMany_snapshot example_state 1 9 [101; 102] [mkPermissionOverwrite 9 1 102 0 1]
           example_wf eq_refl). discriminate.
Defined.
