(* ===== verification/GuildAuth.v ===== *)
(** backend/internal/guildauth: may an account act in a guild or one of its channels, and which
    accounts may receive an event. *)
From S2P Require Import Prelude GoStd Permissions Snowflake Rows TxMonad Queries.
From S2P Require Import Resolve StoreInv Authority ResolveMany.

(** ** Decisions (guildauth.go) *)

(** Go's Decision; the name belongs to a type class here. *)
Record GuildDecision := mkGuildDecision { instanceAdmin : bool; resolution : Resolution }.

Definition Decision_Allows (d : GuildDecision) (need : Z) : bool :=
  instanceAdmin d || Permission_Has (Resolution_Permissions (resolution d)) need.

Definition Decision_Outranks (d : GuildDecision) (position : Z) : bool :=
  instanceAdmin d || Resolution_Outranks (resolution d) position.

Definition Decision_AllowsInChannel (d : GuildDecision) (channelID : Z)
    (overwrites : list PermissionOverwrite) (need : Z) : bool :=
  instanceAdmin d || Permission_Has (Resolution_InChannel (resolution d) channelID overwrites) need.

Definition Decision_OutranksMember (d : GuildDecision) (targetID targetStanding : Z) : bool :=
  instanceAdmin d || Resolution_OutranksMember (resolution d) targetID targetStanding.

Definition Decision_Owns (d : GuildDecision) : bool := Resolution_IsOwner (resolution d).

Definition Decision_InstanceAdmin (d : GuildDecision) : bool := instanceAdmin d.

(** ** Authorize *)

(** [actor] is the account of the request's actor. *)
Definition Authorize (actor guildID channelID need : Z) : M GuildDecision :=
  admin ← Queries_IsInstanceAdmin actor;
  if (admin : bool) then mret (mkGuildDecision true Resolution_zero)
  else
    res_or ← attempt (Resolve guildID actor channelID);
    match res_or with
    | inl ENotAMember => throw ENotFound
    | inl e => throw e
    | inr res =>
        if negb (Permission_Has (Resolution_Permissions res) need) then throw EForbidden
        else mret (mkGuildDecision false res)
    end.

(** ** AuthorizeChannel *)

Definition guildOf (row : dbChannel) : Err + Z :=
  match channel_guild_id row with
  | None => inl ENotFound
  | Some g => inr g
  end.

Record channelAuth := mkChannelAuth { lock : bool; requireView : bool }.

Definition authorizeChannel (actor channelID need : Z) (opts : channelAuth)
    : M (dbChannel * Z * GuildDecision) :=
  row ← no_rows_as ENotFound
          (if lock opts then Queries_GetChannelForUpdate channelID else Queries_GetChannel channelID);
  match guildOf row with
  | inl e => throw e
  | inr guildID =>
      let asked := if requireView opts then need ∪ₚ PermViewChannel else need in
      allowed_or ← attempt (Authorize actor guildID channelID asked);
      match allowed_or with
      | inl EForbidden =>
          view_or ← attempt (Authorize actor guildID channelID PermViewChannel);
          match view_or with
          | inr _ => throw EForbidden
          | inl EForbidden | inl ENotFound => throw ENotFound
          | inl e => throw e
          end
      | inl e => throw e
      | inr allowed => mret (row, guildID, allowed)
      end
  end.

Definition AuthorizeChannel (actor channelID need : Z) :=
  authorizeChannel actor channelID need (mkChannelAuth true true).
Definition AuthorizeChannelUnlocked (actor channelID need : Z) :=
  authorizeChannel actor channelID need (mkChannelAuth false true).
Definition AuthorizeChannelIgnoringVisibility (actor channelID need : Z) :=
  authorizeChannel actor channelID need (mkChannelAuth false false).

(** ** Audience (audience.go) *)

(** The body of the loop over the candidates: false is a [continue]. *)
Definition audience_keeps {D} (ev : Event D) (perms : gmap Z Z) (id : Z) : bool :=
  match perms !! id with
  | None => false
  | Some p =>
      if negb (Event_ChannelID ev =? 0) && negb (Permission_Has p PermViewChannel) then false
      else if negb (Permission_Has p (Event_Need ev)) then false
      else true
  end.

Definition Audience_Allowed {D} (ev : Event D) (candidates : list Z) : M (list Z) :=
  match Event_Audience ev with
  | AudUsers | AudFormerMembers => mret candidates
  | AudGuild =>
      let overwrites :=
        match Event_Overwrites ev with
        | Some ows => Some ows
        | None => if Event_Snapshot ev then Some [] else None
        end in
      perms ← ResolveMany (Event_GuildID ev) (Event_ChannelID ev) candidates overwrites;
      mret (filter (fun id => audience_keeps ev perms id = true) candidates)
  | OtherAudience _ => throw EUnknownAudience
  end.

(** ** Reading only *)

Lemma transparent_Resolve g u c : transparent (Resolve g u c).
Proof. unfold Resolve. transparent_steps. Qed.

Lemma transparent_many_overwrites g c ows : transparent (many_overwrites g c ows).
Proof. unfold many_overwrites. transparent_steps. Qed.

Lemma transparent_ResolveMany g c users ows : transparent (ResolveMany g c users ows).
Proof.
  unfold ResolveMany. destruct users as [|v users]; [apply transparent_ret|].
  apply transparent_attempt; [apply transparent_reading| |done].
  intros [[]|base]; transparent_steps. apply transparent_many_overwrites.
Qed.

Lemma transparent_Authorize u g c need : transparent (Authorize u g c need).
Proof.
  unfold Authorize. transparent_steps.
  apply transparent_attempt; [apply transparent_Resolve| |done]. transparent_steps.
Qed.

Lemma transparent_authorizeChannel u c need opts : transparent (authorizeChannel u c need opts).
Proof.
  unfold authorizeChannel. transparent_steps.
  apply transparent_attempt; [apply transparent_Authorize| |done].
  intros [[]|d]; try apply transparent_throw; try apply transparent_ret.
  apply transparent_attempt; [apply transparent_Authorize| |done]. transparent_steps.
Qed.

Lemma transparent_Allowed {D} (ev : Event D) cs : transparent (Audience_Allowed ev cs).
Proof. unfold Audience_Allowed. transparent_steps. apply transparent_ResolveMany. Qed.

#[export] Hint Resolve transparent_Resolve transparent_ResolveMany transparent_Authorize
  transparent_authorizeChannel transparent_Allowed : norite.

(** ** What the layers promise *)

Definition is_admin (t : Tables) (u : Z) : bool := bool_decide (u ∈ t_admins t) && live_account t u.

(** Every bit of [need] is granted by the layers. *)
Definition holds (t : Tables) (g u c need : Z) : Prop :=
  forall i, Z.testbit need i = true -> layered t g u c i = Some true.

(** The account is in the guild, as its owner or a member. *)
Definition in_guild (t : Tables) (g u : Z) : Prop := is_owner t g u || is_member t g u = true.

(** The account may view channel [c] of guild [g]. *)
Definition views (t : Tables) (g u c : Z) : Prop := layered t g u c 0 = Some true.

Lemma layered_in_guild t g u c i b : layered t g u c i = Some b -> in_guild t g u.
Proof. unfold layered, in_guild. by destruct (_ || _). Qed.

Lemma layered_None t g u c : (forall i, layered t g u c i = None) <-> ~ in_guild t g u.
Proof.
  unfold layered, in_guild. destruct (_ || _); split; try done.
  intros H. by specialize (H 0).
Qed.

Lemma resolved_in_guild t g u c r : resolved t g u c r -> in_guild t g u.
Proof. intros [_ _ H _ _ _]. by eapply (layered_in_guild t g u c 0). Qed.

Lemma resolved_holds t g u c r need :
  resolved t g u c r ->
  Permission_Has (Resolution_Permissions r) need = true <-> holds t g u c need.
Proof.
  intros [_ _ Hb _ _ _]. rewrite Has_spec. unfold holds. setoid_rewrite Hb.
  split; intros H i Hi; specialize (H i Hi); congruence.
Qed.

Lemma holds_view t g u c : holds t g u c PermViewChannel <-> views t g u c.
Proof.
  unfold holds, views. split; [intros H; by apply H|]. intros H i Hi.
  destruct (Z.eq_dec i 0) as [->|]; [done|].
  assert (0 <= i) by (destruct (Z.lt_ge_cases i 0); [by rewrite Z.testbit_neg_r in Hi|done]).
  unfold PermViewChannel in Hi. rewrite Z.shiftl_1_l, Z.pow2_bits_false in Hi by done. done.
Qed.

Lemma holds_add t g u c p q : holds t g u c (p ∪ₚ q) <-> holds t g u c p /\ holds t g u c q.
Proof.
  unfold holds. setoid_rewrite testbit_add. setoid_rewrite orb_true_iff. naive_solver.
Qed.

(** What each answer of Authorize means. *)
Definition authorize_verdict (t : Tables) (u g c need : Z) (res : Err + GuildDecision) : Prop :=
  match res with
  | inr d =>
      if is_admin t u then d = mkGuildDecision true Resolution_zero
      else instanceAdmin d = false /\ resolved t g u c (resolution d) /\ holds t g u c need
  | inl ENotFound => is_admin t u = false /\ ~ in_guild t g u
  | inl EForbidden => is_admin t u = false /\ in_guild t g u /\ ~ holds t g u c need
  | inl _ => False
  end.

(** What each answer of the three AuthorizeChannel functions means. *)
Definition channel_verdict (t : Tables) (u c need : Z) (view : bool)
    (res : Err + dbChannel * Z * GuildDecision) : Prop :=
  match res with
  | inr (row, g, d) =>
      t_channels t !! c = Some row /\ channel_guild_id row = Some g /\
      authorize_verdict t u g c (if view then need ∪ₚ PermViewChannel else need) (inr d)
  | inl ENotFound =>
      forall g, channel_in_guild t c g = true -> is_admin t u = false /\ ~ views t g u c
  | inl EForbidden =>
      exists g, channel_in_guild t c g = true /\ is_admin t u = false /\ views t g u c /\
                ~ holds t g u c need
  | inl _ => False
  end.

Lemma Authorize_verdict t u g c need s :
  wf (tabs s) -> faults s = [] -> tabs s = t ->
  authorize_verdict t u g c need (Authorize u g c need s).1.
Proof.
  intros Hwf Hf <-. unfold Authorize, mbind, M_bind, Queries_IsInstanceAdmin, attempt.
  rewrite reading_run by done. change (_ && _) with (is_admin (tabs s) u).
  destruct (is_admin (tabs s) u) eqn:Ea; [simpl; by rewrite Ea|].
  rewrite Resolve_run by done. pose proof (Resolve_result_spec (tabs s) Hwf g u c) as H.
  destruct (Resolve_result (tabs s) g u c) as [e|r].
  - destruct H as [-> H]. simpl. split; [done|]. by apply layered_None in H.
  - pose proof (resolved_holds _ _ _ _ _ need H) as Hn.
    destruct (Permission_Has _ need); simpl; rewrite ?Ea.
    + split; [done|]. split; [done|]. by apply Hn.
    + split; [done|]. split; [by eapply resolved_in_guild|]. intros Hh. by apply Hn in Hh.
Qed.

Lemma authorizeChannel_verdict t u c need opts s :
  wf (tabs s) -> faults s = [] -> tabs s = t ->
  channel_verdict t u c need (requireView opts) (authorizeChannel u c need opts s).1.
Proof.
  intros Hwf Hf <-. unfold authorizeChannel, mbind at 1, M_bind at 1, no_rows_as.
  assert ((if lock opts then Queries_GetChannelForUpdate c else Queries_GetChannel c) s
          = (found (t_channels (tabs s) !! c), s)) as ->.
  { destruct (lock opts); [unfold Queries_GetChannelForUpdate|unfold Queries_GetChannel]; by rewrite reading_run. }
  unfold found. destruct (t_channels (tabs s) !! c) as [row|] eqn:Hc.
  2:{ simpl. intros g Hg. unfold channel_in_guild in Hg. by rewrite Hc in Hg. }
  unfold guildOf. destruct (channel_guild_id row) as [g|] eqn:Hg.
  2:{ simpl. intros g Hg'. unfold channel_in_guild in Hg'. rewrite Hc, Hg in Hg'. done. }
  assert (forall g', channel_in_guild (tabs s) c g' = true <-> g' = g) as Hin.
  { intros g'. unfold channel_in_guild. rewrite Hc, Hg, bool_decide_eq_true. naive_solver. }
  unfold mbind, M_bind, attempt. set (asked := if requireView opts then _ else _).
  pose proof (Authorize_verdict (tabs s) u g c asked s Hwf Hf eq_refl) as Hv.
  pose proof (Authorize_verdict (tabs s) u g c PermViewChannel s Hwf Hf eq_refl) as Hview.
  rewrite (transparent_nil _ s (transparent_Authorize u g c asked) Hf).
  destruct (Authorize u g c asked s).1 as [[]|d]; try done.
  - simpl. intros g' ->%Hin. destruct Hv as [Ha Hn]. split; [done|]. intros Hw.
    by eapply Hn, layered_in_guild.
  - rewrite (transparent_nil _ s (transparent_Authorize u g c PermViewChannel) Hf).
    destruct Hv as (Ha & Hm & Hn).
    destruct (Authorize u g c PermViewChannel s).1 as [[]|d]; try done; simpl in *.
    + intros g' ->%Hin. destruct Hview as [_ Hview]. done.
    + intros g' ->%Hin. destruct Hview as (_ & _ & Hview). rewrite holds_view in Hview. done.
    + rewrite Ha in Hview. destruct Hview as (_ & _ & Hview). rewrite holds_view in Hview.
      exists g. split; [by apply Hin|]. split; [done|]. split; [done|]. intros Hneed. apply Hn.
      unfold asked. destruct (requireView opts); [|done]. rewrite holds_add, holds_view. done.
Qed.

(** A reading computation's answer under any failures: a database error, or the fault-free one. *)
Lemma transparent_verdict {A} (m : M A) (P : Err + A -> Prop) s :
  transparent m -> P (m (with_faults [] s)).1 ->
  ((m s).1 = inl EDb /\ true ∈ faults s) \/ P (m s).1.
Proof.
  intros Hm HP. destruct (Hm s) as (fs & _ & [[-> Hin]| ->]); [by left|]. by right.
Qed.

(** A channel the account may not see: whatever guild has it, the account is no instance admin and
    the layers do not grant the view bit there. *)
Definition hidden (t : Tables) (u c : Z) : Prop :=
  forall g, channel_in_guild t c g = true -> is_admin t u = false /\ ~ views t g u c.

Lemma hidden_refused t u c need opts s :
  wf (tabs s) -> faults s = [] -> tabs s = t -> hidden t u c ->
  (requireView opts = true \/ forall g, channel_in_guild t c g = true -> ~ holds t g u c need) ->
  authorizeChannel u c need opts s = (inl ENotFound, s).
Proof.
  intros Hwf Hf Ht Hhid Hneed.
  pose proof (authorizeChannel_verdict t u c need opts s Hwf Hf Ht) as Hv.
  rewrite (transparent_nil _ s (transparent_authorizeChannel u c need opts) Hf).
  destruct (authorizeChannel u c need opts s).1 as [[]|[[row g] d]]; try done; exfalso.
  - destruct Hv as (g & Hg & _ & Hw & _). by destruct (Hhid g Hg).
  - destruct Hv as (Hc & Hg & Hv).
    assert (channel_in_guild t c g = true) as Hin.
    { unfold channel_in_guild. rewrite Hc. by apply bool_decide_eq_true. }
    destruct (Hhid g Hin) as [Ha Hw]. simpl in Hv. rewrite Ha in Hv.
    destruct Hv as (_ & _ & Hv). destruct (requireView opts).
    + rewrite holds_add, holds_view in Hv. tauto.
    + destruct Hneed as [|Hneed]; [done|]. by apply (Hneed g).
Qed.

(** ** Properties *)

(** C14: what Authorize answers, on tables in the invariant and whichever statements fail. Unless
    the answer is the database's own error: an instance admin is allowed and never resolved; any
    other account is told "not found" exactly when it is not in the guild (whether the guild
    exists or not), "forbidden" exactly when it is and the layers withhold some bit of the need,
    and is allowed, with its resolution, exactly when they grant every bit. *)
Theorem Authorize_answers (s : St) (u g c need : Z) (Hwf : wf (tabs s)) :
  ((Authorize u g c need s).1 = inl EDb /\ true ∈ faults s) \/
  authorize_verdict (tabs s) u g c need (Authorize u g c need s).1.
Proof.
  apply (transparent_verdict _ (authorize_verdict (tabs s) u g c need));
    [apply transparent_Authorize|].
  by apply Authorize_verdict.
Qed.

Lemma Authorize_answers_witness :
  (Authorize 101 1 0 PermManageRoles example_state).1 <> inl EForbidden /\
  (Authorize 103 1 0 PermManageRoles example_state).1 = inl EForbidden /\
  (Authorize 200 1 0 PermViewChannel example_state).1 = inl ENotFound /\
  (((Authorize 103 1 0 PermManageRoles example_state).1 = inl EDb /\ true ∈ faults example_state) \/
   authorize_verdict example_tables 103 1 0 PermManageRoles
     (Authorize 103 1 0 PermManageRoles example_state).1).
Proof.
  split; [vm_compute; discriminate|]. do 2 (split; [vm_compute; reflexivity|]).
  apply (Authorize_answers example_state 103 1 0 PermManageRoles example_wf).
Defined.

(** what the three AuthorizeChannel functions answer, whichever statements fail. Unless the
    answer is the database's own error: a success is a channel row with its guild and a decision
    covering the need and, where required, the view permission in that channel; "not found" only
    ever means the channel is missing, belongs to no guild, or is one the account may not view;
    "forbidden" is only ever said of a channel the account can view and lacks a permission in. A
    failing statement is never turned into either refusal. *)
Theorem authorizeChannel_answers (s : St) (u c need : Z) (opts : channelAuth)
    (Hwf : wf (tabs s)) :
  ((authorizeChannel u c need opts s).1 = inl EDb /\ true ∈ faults s) \/
  channel_verdict (tabs s) u c need (requireView opts) (authorizeChannel u c need opts s).1.
Proof.
  apply (transparent_verdict _ (channel_verdict (tabs s) u c need (requireView opts)));
    [apply transparent_authorizeChannel|].
  by apply authorizeChannel_verdict.
Qed.

Lemma authorizeChannel_answers_witness :
  (AuthorizeChannel 103 8 PermManageRoles example_state).1 = inl EForbidden /\
  (AuthorizeChannel 103 8 PermManageRoles (with_faults [false; false; false; false; false; true] example_state)).1
    = inl EDb /\
  let s := with_faults [false; false; false; false; false; true] example_state in
  ((authorizeChannel 103 8 PermManageRoles (mkChannelAuth true true) s).1 = inl EDb /\ true ∈ faults s) \/
  channel_verdict example_tables 103 8 PermManageRoles true
    (authorizeChannel 103 8 PermManageRoles (mkChannelAuth true true) s).1.
Proof.
  do 2 (split; [vm_compute; reflexivity|]).
  apply (authorizeChannel_answers (with_faults [false; false; false; false; false; true] example_state)
           103 8 PermManageRoles (mkChannelAuth true true) example_wf).
Defined.

(** a hidden channel is indistinguishable from a missing one. An account that may not view
    channel [c] gets from every entry point that requires viewing, and from the one that does not
    unless it holds the need there, the very answer it gets for an id naming no channel. *)
Theorem hidden_channel_as_missing (s : St) (u c missing need : Z) (opts : channelAuth)
    (Hwf : wf (tabs s)) (Hok : faults s = []) (Hhid : hidden (tabs s) u c)
    (Hmissing : t_channels (tabs s) !! missing = None)
    (Hneed : requireView opts = true \/
             forall g, channel_in_guild (tabs s) c g = true -> ~ holds (tabs s) g u c need) :
  authorizeChannel u c need opts s = authorizeChannel u missing need opts s.
Proof.
  rewrite (hidden_refused (tabs s)) by done.
  assert (forall g, channel_in_guild (tabs s) missing g = true -> False) as Hno.
  { intros g. unfold channel_in_guild. by rewrite Hmissing. }
  symmetry. apply (hidden_refused (tabs s)); try done.
  - intros g Hg. by destruct (Hno g).
  - right. intros g Hg. by destruct (Hno g).
Qed.

Lemma example_hidden : hidden example_tables 103 7.
Proof.
  intros g Hg. apply channel_in_guild_true in Hg as (ch & Hch & Hgid).
  vm_compute in Hch. injection Hch as <-. injection Hgid as <-.
  split; [reflexivity|]. vm_compute. discriminate.
Qed.

Lemma hidden_channel_as_missing_witness :
  hidden example_tables 103 7 /\
  authorizeChannel 103 7 PermManageRoles (mkChannelAuth true true) example_state
  = authorizeChannel 103 99 PermManageRoles (mkChannelAuth true true) example_state.
Proof.
  split; [exact example_hidden|].
  apply (hidden_channel_as_missing example_state 103 7 99 PermManageRoles (mkChannelAuth true true)
           example_wf eq_refl example_hidden eq_refl (or_introl eq_refl)).
Defined.

(** ** The audience of an event *)

(** What the loop of Allowed lets through, from one account's permissions. *)
Lemma audience_keeps_spec {D} (ev : Event D) perms u :
  audience_keeps ev perms u = true <->
  exists p, perms !! u = Some p /\
    (Event_ChannelID ev <> 0 -> Permission_Has p PermViewChannel = true) /\
    Permission_Has p (Event_Need ev) = true.
Proof.
  unfold audience_keeps. destruct (perms !! u) as [p|]; [|naive_solver].
  destruct (Z.eqb_spec (Event_ChannelID ev) 0) as [Hc|Hc]; simpl.
  - destruct (Permission_Has p (Event_Need ev)) eqn:E2; naive_solver.
  - destruct (Permission_Has p PermViewChannel) eqn:E; simpl; [|naive_solver].
    destruct (Permission_Has p (Event_Need ev)) eqn:E2; naive_solver.
Qed.

(** Who a guild event reaches: those in the guild who, in a channel the guild has, may view it, and
    who hold every bit the event needs. *)
Definition reaches {D} (t : Tables) (ev : Event D) (u : Z) : Prop :=
  in_guild t (Event_GuildID ev) u /\
  (Event_ChannelID ev <> 0 ->
     channel_in_guild t (Event_ChannelID ev) (Event_GuildID ev) = true /\
     views t (Event_GuildID ev) u (Event_ChannelID ev)) /\
  holds t (Event_GuildID ev) u (Event_ChannelID ev) (Event_Need ev).

Definition audience_verdict {D} (t : Tables) (ev : Event D) (cs : list Z) (res : Err + list Z) : Prop :=
  match res with
  | inr out => out `sublist_of` cs /\ forall u, u ∈ out <-> u ∈ cs /\ reaches t ev u
  | inl _ => False
  end.

Lemma bits_holds t g u c p need :
  (forall i, layered t g u c i = Some (Z.testbit p i)) ->
  Permission_Has p need = true <-> holds t g u c need.
Proof.
  intros Hb. rewrite Has_spec. unfold holds. setoid_rewrite Hb.
  split; intros H i Hi; specialize (H i Hi); congruence.
Qed.

(** An account in the guild has a permission word. *)
Lemma layered_word t (Hwf : wf t) g u c :
  in_guild t g u -> exists p, forall i, layered t g u c i = Some (Z.testbit p i).
Proof.
  intros Hin. pose proof (Resolve_result_spec t Hwf g u c) as H.
  destruct (Resolve_result t g u c) as [e|r].
  - destruct H as [_ H]. by apply layered_None in H.
  - exists (Resolution_Permissions r). by destruct H.
Qed.

Lemma Allowed_verdict {D} (ev : Event D) cs s :
  wf (tabs s) -> faults s = [] ->
  Event_Audience ev = AudGuild -> Event_Overwrites ev = None -> Event_Snapshot ev = false ->
  audience_verdict (tabs s) ev cs (Audience_Allowed ev cs s).1.
Proof.
  intros Hwf Hf Ha How Hsn. unfold Audience_Allowed. rewrite Ha, How, Hsn.
  unfold mbind, M_bind.
  destruct (ResolveMany_layers (Event_GuildID ev) (Event_ChannelID ev) cs s Hwf Hf) as (out & -> & Hout).
  simpl. split; [apply sublist_filter|]. intros u.
  rewrite list_elem_of_filter, audience_keeps_spec. unfold reaches.
  setoid_rewrite Hout. split.
  - intros [(p & (Hin & Hch & Hb) & Hv & Hn) _]. rewrite bits_holds in Hv, Hn by done.
    rewrite holds_view in Hv. split; [done|]. split; [by eapply (layered_in_guild _ _ _ _ 0)|].
    split; [|done]. intros Hne. split; [by destruct Hch|auto].
  - intros (Hin & Hg & Hc & Hn). split; [|done].
    destruct (layered_word (tabs s) Hwf _ u (Event_ChannelID ev) Hg) as [p Hp].
    exists p. rewrite !(bits_holds _ _ _ _ _ _ Hp), holds_view. split_and!; try done.
    + destruct (Z.eq_dec (Event_ChannelID ev) 0); [by left|right]. by apply Hc.
    + intros Hne. by apply Hc.
Qed.

(** A guild event reaches exactly the right accounts, judged on the rows as they are at
    fan-out. Whichever statements fail, Allowed returns the database's error, on which nobody is
    sent anything, or exactly the candidates who are in the guild now, may view the event's
    channel, a channel this guild still has, and hold every bit the event needs; in the candidates'
    order. *)
Theorem Allowed_reaches {D} (ev : Event D) (candidates : list Z) (s : St) (Hwf : wf (tabs s))
    (Hguild : Event_Audience ev = AudGuild) (How : Event_Overwrites ev = None)
    (Hsnap : Event_Snapshot ev = false) :
  ((Audience_Allowed ev candidates s).1 = inl EDb /\ true ∈ faults s) \/
  audience_verdict (tabs s) ev candidates (Audience_Allowed ev candidates s).1.
Proof.
  apply (transparent_verdict _ (audience_verdict (tabs s) ev candidates));
    [apply transparent_Allowed|].
  by apply (Allowed_verdict ev candidates (with_faults [] s)).
Qed.

Definition example_event (c need : Z) : Event nat :=
  mkEvent "MESSAGE_CREATE" AudGuild 1 c need [] None false 0%nat.

Lemma Allowed_reaches_witness :
  (Audience_Allowed (example_event 7 0) [100; 101; 102; 103; 200] example_state).1 = inr [100; 102] /\
  (((Audience_Allowed (example_event 7 0) [100; 101; 102; 103; 200] example_state).1 = inl EDb /\
      true ∈ faults example_state) \/
   audience_verdict example_tables (example_event 7 0) [100; 101; 102; 103; 200]
     (Audience_Allowed (example_event 7 0) [100; 101; 102; 103; 200] example_state).1).
Proof.
  split; [vm_compute; reflexivity|].
  apply (Allowed_reaches (example_event 7 0) [100; 101; 102; 103; 200] example_state example_wf
           eq_refl eq_refl eq_refl).
Defined.

Lemma wf_without_channel c t : wf t -> wf (without_channel c t).
Proof. intros []. by split. Qed.

(** Deleting a channel does not widen who hears of it. An event about it that carries the
    overwrites it had, read before the deletion and nil if there were none, is allowed after the
    deletion to exactly the candidates a plain event about it was allowed to before. *)
Theorem deleted_channel_audience {D} (ev : Event D) (candidates : list Z) (s : St)
    (ows : option (list PermissionOverwrite)) (Hwf : wf (tabs s)) (Hok : faults s = [])
    (Hguild : Event_Audience ev = AudGuild) (How : Event_Overwrites ev = None)
    (Hsnap : Event_Snapshot ev = false) (Hc : Event_ChannelID ev <> 0)
    (Hin : channel_in_guild (tabs s) (Event_ChannelID ev) (Event_GuildID ev) = true)
    (Hrows : coalesce ows [] = channel_overwrites (tabs s) (Event_ChannelID ev)) :
  (Audience_Allowed
     (mkEvent (Event_Type ev) AudGuild (Event_GuildID ev) (Event_ChannelID ev) (Event_Need ev)
        (Event_Users ev) ows true (Event_Data ev)) candidates
     (with_tabs (without_channel (Event_ChannelID ev) (tabs s)) s)).1
  = (Audience_Allowed ev candidates s).1.
Proof.
  unfold Audience_Allowed. cbn [Event_Audience Event_Overwrites Event_Snapshot Event_GuildID
    Event_ChannelID]. rewrite Hguild, How, Hsnap.
  set (ows' := match ows with Some l => Some l | None => Some [] end).
  assert (ows' = Some (channel_overwrites (tabs s) (Event_ChannelID ev))) as ->.
  { rewrite <- Hrows. by destruct ows. }
  set (s' := with_tabs _ s).
  assert (wf (tabs s')) as Hwf' by (by apply wf_without_channel).
  destruct (ResolveMany_run (Event_GuildID ev) (Event_ChannelID ev) candidates
    (Some (channel_overwrites (tabs s) (Event_ChannelID ev))) s' Hwf' Hok) as (out' & Hr' & Hout').
  destruct (ResolveMany_run (Event_GuildID ev) (Event_ChannelID ev) candidates None s Hwf Hok)
    as (out & Hr & Hout).
  apply Z.eqb_neq in Hc.
  assert (out' = out) as ->.
  { apply map_eq. intros u. rewrite Hout, Hout', !many_overwrites_run by done. cbn [fst].
    rewrite Hin, Hc. reflexivity. }
  unfold mbind, M_bind. rewrite Hr, Hr'. cbn. f_equal.
Qed.

Lemma deleted_channel_audience_witness :
  (Audience_Allowed (example_event 7 0) [100; 101; 102; 103] example_state).1 = inr [100; 102] /\
  (Audience_Allowed
     (mkEvent "MESSAGE_CREATE" AudGuild 1 7 0 []
        (Some (channel_overwrites example_tables 7)) true 0%nat) [100; 101; 102; 103]
     (with_tabs (without_channel 7 example_tables) example_state)).1
  = (Audience_Allowed (example_event 7 0) [100; 101; 102; 103] example_state).1.
Proof.
  split; [vm_compute; reflexivity|].
  apply (deleted_channel_audience (example_event 7 0) [100; 101; 102; 103] example_state
    (Some (channel_overwrites example_tables 7)) example_wf eq_refl eq_refl eq_refl eq_refl);
    [discriminate|vm_compute; reflexivity|reflexivity].
Defined.
