(* ===== verification/GuildCommon.v ===== *)
(** What the guild service's operations share (backend/internal/guilds: service.go, authorize.go,
    and the helpers of role.go and overwrite.go), with the rules their proofs use. *)
From S2P Require Import Prelude GoStd Permissions Snowflake Rows TxMonad Queries.
From S2P Require Import Resolve StoreInv Authority ResolveMany GuildAuth.

(** ** The service (service.go) *)

(** [events]: the publisher has a bus. The pool, the queries and the generator are the state. *)
Record Service := mkService {
  events : bool;
  maxChannelsPerGuild : Z; maxRolesPerGuild : Z; maxGuildsPerAccount : Z;
  maxJoinedGuildsPerAccount : Z; maxInvitesPerGuild : Z
}.

(** NewService's last check; the other two are on the state's parts. [None] is the error. *)
Definition NewService (opts : Service) : option Service :=
  if (maxChannelsPerGuild opts <? 1) || (maxRolesPerGuild opts <? 1)
     || (maxGuildsPerAccount opts <? 1) || (maxJoinedGuildsPerAccount opts <? 1)
     || (maxInvitesPerGuild opts <? 1)
  then None else Some opts.

(** An empty diff is stored as NULL. *)
Definition Service_writeAudit (guildID actorID : Z) (action : string) (targetID : option Z)
    (changes : option auditDiff) : M unit :=
  id ← ids_Next;
  Queries_WriteAuditLogEntry id
    (mkAuditRow (Some guildID) actorID action targetID (changes ≫= auditDiff_payload)).

(** authorize.go *)
Definition Service_authorize (actor guildID channelID need : Z) : M unit :=
  Authorize actor guildID channelID need;; mret tt.

(** ** Role list and permission events (role.go) *)

Definition Service_queuePermissions (svc : Service) (guildID : Z) : M unit :=
  Publisher_Queue (events svc)
    (event_for "GUILD_PERMISSIONS_UPDATE" AudGuild guildID [] (PPermissionsUpdated guildID)).

Definition Service_queueRoles (svc : Service) (guildID : Z) (permissionsChanged : bool) : M unit :=
  if negb (events svc) then mret tt
  else
    rows ← Queries_ListGuildRoles guildID;
    Publisher_Queue (events svc)
      (event_for "GUILD_ROLES_UPDATE" AudGuild guildID [] (PGuildRoles guildID (roleFromRow <$> rows)));;
    if negb permissionsChanged then mret tt else Service_queuePermissions svc guildID.

(** ** Refusals *)

(** role.go *)
Definition refuseEscalation (allowed : GuildDecision) (want : Z) : M unit :=
  if negb (Known want) then throw EBadRequest
  else if Decision_Allows allowed want then mret tt
  else throw EForbidden.

(** [byChannel[id]]: the rows of one channel, in the listing's order. *)
Definition rows_of (channelID : Z) (rows : list PermissionOverwrite) : list PermissionOverwrite :=
  filter (fun ow => ow_channel_id ow = channelID) rows.

(** The check of one affected overwrite. *)
Definition removal_allowed (allowed : GuildDecision) (surrounding : list PermissionOverwrite)
    (ow : PermissionOverwrite) : bool :=
  Decision_AllowsInChannel allowed (ow_channel_id ow) (rows_of (ow_channel_id ow) surrounding)
    (PermissionFromInt64 (ow_allow ow) ∪ₚ PermissionFromInt64 (ow_deny ow)).

(** overwrite.go *)
Definition Service_refuseRemovingOverwritesFor (allowed : GuildDecision) (guildID targetType targetID : Z)
    : M unit :=
  affected ← Queries_ListOverwritesForTarget guildID targetType targetID;
  match affected with
  | [] => mret tt
  | _ =>
      surrounding ← Queries_ListGuildPermissionOverwrites (ow_channel_id <$> affected) guildID;
      for_each affected (fun ow => refuse_if (negb (removal_allowed allowed surrounding ow)) EForbidden)
  end.

(** ** Rules *)

(** The decisions Authorize may return. *)
Definition granted (t : Tables) (u g c need : Z) (d : GuildDecision) : Prop :=
  authorize_verdict t u g c need (inr d).

Lemma wp_Authorize u g c need (Q : GuildDecision -> St -> Prop) s :
  wf (tabs s) ->
  (forall fs d, granted (tabs s) u g c need d -> Q d (with_faults fs s)) ->
  wp (Authorize u g c need) Q s.
Proof.
  intros Hwf HQ. apply wp_transparent; [apply transparent_Authorize|]. intros fs d Hd.
  apply HQ. unfold granted. rewrite <- Hd. by apply Authorize_verdict.
Qed.

(** The same for a channel. *)
Lemma wp_authorizeChannel u c need opts (Q : dbChannel * Z * GuildDecision -> St -> Prop) s :
  wf (tabs s) ->
  (forall fs row g d, t_channels (tabs s) !! c = Some row -> channel_guild_id row = Some g ->
     granted (tabs s) u g c (if requireView opts then need ∪ₚ PermViewChannel else need) d ->
     Q (row, g, d) (with_faults fs s)) ->
  wp (authorizeChannel u c need opts) Q s.
Proof.
  intros Hwf HQ. apply wp_transparent; [apply transparent_authorizeChannel|].
  intros fs [[row g] d] Hd.
  pose proof (authorizeChannel_verdict (tabs s) u c need opts (with_faults [] s) Hwf eq_refl eq_refl) as H.
  rewrite Hd in H. destruct H as (? & ? & ?). by apply HQ.
Qed.

(** The tables with one audit entry more. *)
Definition audited (id : Z) (row : AuditRow) (t : Tables) : Tables :=
  set_audit (<[id := row]> (t_audit t)) t.

Lemma wp_writeAudit g u action target changes (Q : unit -> St -> Prop) s :
  (forall fs id gn c,
     t_audit (tabs s) !! id = None -> is_Some (t_guilds (tabs s) !! g) ->
     Q tt (with_tabs (audited id
             (mkAuditRow (Some g) u action target (changes ≫= auditDiff_payload)) (tabs s))
             (with_faults fs (with_gen gn c s)))) ->
  wp (Service_writeAudit g u action target changes) Q s.
Proof.
  intros HQ. unfold Service_writeAudit. wp_steps. unfold Queries_WriteAuditLogEntry. wp_steps.
  destruct (t_audit (tabs s) !! id) eqn:E; [done|]. cbn [fk_holds audit_guild_id audit_actor_id] in *.
  destruct (bool_decide (is_Some (t_guilds (tabs s) !! g))) eqn:Eg; [|done]. bool_hyps.
  simpl in *. destruct (bool_decide (is_Some (t_users (tabs s) !! u))); [|done].
  simplify_eq. by apply HQ.
Qed.

Lemma wp_refuseEscalation d want (Q : unit -> St -> Prop) s :
  (Known want = true -> Decision_Allows d want = true -> Q tt s) -> wp (refuseEscalation d want) Q s.
Proof.
  intros HQ. unfold refuseEscalation. destruct (Known want); simpl; [|done].
  destruct (Decision_Allows d want); [by apply HQ|done].
Qed.

(** Neither queue writes a table. *)
Lemma wp_queuePermissions svc g (Q : unit -> St -> Prop) s :
  Q tt (queue (events svc) (event_for "GUILD_PERMISSIONS_UPDATE" AudGuild g [] (PPermissionsUpdated g)) s) ->
  wp (Service_queuePermissions svc g) Q s.
Proof. apply wp_Queue. Qed.

(** The events queueRoles registers. *)
Definition role_events (t : Tables) (g : Z) (permissionsChanged : bool) : list (Event Payload) :=
  event_for "GUILD_ROLES_UPDATE" AudGuild g [] (PGuildRoles g (roleFromRow <$> by_position (guild_roles t g)))
  :: if permissionsChanged
     then [event_for "GUILD_PERMISSIONS_UPDATE" AudGuild g [] (PPermissionsUpdated g)] else [].

Lemma wp_queueRoles svc g changed (Q : unit -> St -> Prop) s :
  (forall fs, Q tt (with_hooks (hooks s ++ if events svc then role_events (tabs s) g changed else [])
                      (with_faults fs s))) ->
  wp (Service_queueRoles svc g changed) Q s.
Proof.
  intros HQ. unfold Service_queueRoles. destruct (events svc) eqn:Ev; simpl.
  - wp_step. unfold Queries_ListGuildRoles. wp_steps; [|apply wp_queuePermissions]; rewrite ?Ev;
      unfold queue, role_events in *; specialize (HQ fs); destruct changed; simpl in *; try done.
    by rewrite <- app_assoc.
  - wp_steps. rewrite app_nil_r in HQ. specialize (HQ (faults s)).
    by replace (with_hooks (hooks s) (with_faults (faults s) s)) with s in HQ by (by destruct s).
Qed.

Lemma wp_for_each_refuse {A} (l : list A) (b : A -> bool) e (Q : unit -> St -> Prop) s :
  ((forall x, x ∈ l -> b x = false) -> Q tt s) -> wp (for_each l (fun x => refuse_if (b x) e)) Q s.
Proof.
  induction l as [|x l IH]; intros HQ; simpl; [apply HQ; by intros ? []%elem_of_nil|].
  wp_steps. apply IH. intros Hl. apply HQ. intros y [->|Hy]%elem_of_cons; [done|by apply Hl].
Qed.

(** The listing of the affected channels holds each one's own rows. *)
Lemma rows_of_surrounding t g (cs : list Z) c :
  c ∈ cs -> channel_in_guild t c g = true ->
  rows_of c (filter (fun ow => ow_channel_id ow ∈ cs /\ channel_in_guild t (ow_channel_id ow) g = true)
               (overwrite_rows t)) = channel_overwrites t c.
Proof.
  intros Hc Hg. unfold rows_of, channel_overwrites. rewrite list_filter_filter.
  apply list_filter_iff. intros ow. split; [by intros [? _]|]. intros <-. auto.
Qed.

(** What a passed check says of every overwrite the target has in the guild. *)
Definition may_remove_overwrites (t : Tables) (g : Z) (d : GuildDecision) (ty id : Z) : Prop :=
  forall c allow deny, channel_in_guild t c g = true ->
    t_overwrites t !! (c, ty, id) = Some (allow, deny) ->
    Decision_AllowsInChannel d c (channel_overwrites t c)
      (PermissionFromInt64 allow ∪ₚ PermissionFromInt64 deny) = true.

Lemma wp_refuseRemoving d g ty id (Q : unit -> St -> Prop) s :
  (forall fs, may_remove_overwrites (tabs s) g d ty id -> Q tt (with_faults fs s)) ->
  wp (Service_refuseRemovingOverwritesFor d g ty id) Q s.
Proof.
  intros HQ. unfold Service_refuseRemovingOverwritesFor. wp_step. wp_step. st_simpl.
  assert (forall c allow deny, channel_in_guild (tabs s) c g = true ->
    t_overwrites (tabs s) !! (c, ty, id) = Some (allow, deny) ->
    mkPermissionOverwrite c ty id allow deny ∈ filter (targets (tabs s) g ty id) (overwrite_rows (tabs s)))
    as Hin.
  { intros c allow deny Hc Hl. rewrite list_elem_of_filter, elem_of_overwrite_rows. done. }
  destruct (filter (targets (tabs s) g ty id) (overwrite_rows (tabs s))) as [|ow ows] eqn:E.
  - wp_steps. apply HQ. intros c allow deny Hc Hl.
    by specialize (Hin c allow deny Hc Hl) as ?%elem_of_nil.
  - wp_step. wp_step. st_simpl. apply wp_for_each_refuse. intros Hall. apply HQ.
    intros c allow deny Hc Hl. specialize (Hin c allow deny Hc Hl).
    specialize (Hall _ Hin). apply negb_false_iff in Hall. unfold removal_allowed in Hall.
    cbn [ow_channel_id ow_allow ow_deny] in Hall. rewrite rows_of_surrounding in Hall; [done| |done].
    apply (list_elem_of_fmap_2 ow_channel_id) in Hin. done.
Qed.

(** The entry an operation writes. *)
Definition entry (g actor : Z) (action : string) (target : option Z) (changes : option auditDiff)
    : AuditRow :=
  mkAuditRow (Some g) actor action target (changes ≫= auditDiff_payload).

Definition when (b : bool) (evs : list (Event Payload)) : list (Event Payload) := if b then evs else [].

(** ** Publishing nothing *)

Lemma quiet_Authorize u g c need : quiet (Authorize u g c need).
Proof. apply quiet_transparent, transparent_Authorize. Qed.
Lemma quiet_authorizeChannel u c need opts : quiet (authorizeChannel u c need opts).
Proof. apply quiet_transparent, transparent_authorizeChannel. Qed.
#[export] Hint Resolve quiet_Authorize quiet_authorizeChannel : norite.

Lemma quiet_writeAudit g u action target changes : quiet (Service_writeAudit g u action target changes).
Proof. unfold Service_writeAudit. quiet_steps. Qed.
Lemma quiet_queuePermissions svc g : quiet (Service_queuePermissions svc g).
Proof. apply quiet_Queue. Qed.
#[export] Hint Resolve quiet_writeAudit quiet_queuePermissions : norite.
Lemma quiet_queueRoles svc g b : quiet (Service_queueRoles svc g b).
Proof. unfold Service_queueRoles. quiet_steps. Qed.
Lemma quiet_refuseEscalation d want : quiet (refuseEscalation d want).
Proof. unfold refuseEscalation. quiet_steps. Qed.
Lemma quiet_refuseRemoving d g ty id : quiet (Service_refuseRemovingOverwritesFor d g ty id).
Proof. unfold Service_refuseRemovingOverwritesFor. quiet_steps. Qed.
#[export] Hint Resolve quiet_queueRoles quiet_refuseEscalation quiet_refuseRemoving : norite.
