(* ===== verification/RoleSvc.v ===== *)
(** backend/internal/guilds/role.go: a guild's roles, their order, and who may change them. *)
From S2P Require Import Prelude GoStd Permissions Snowflake Rows TxMonad Queries.
From S2P Require Import Resolve StoreInv Authority ResolveMany GuildAuth GuildCommon.

(** ** Operations *)

Definition Service_ListRoles (actor guildID : Z) : M (list Role) :=
  Service_authorize actor guildID 0 0;;
  rows ← Queries_ListGuildRoles guildID;
  mret (roleFromRow <$> rows).

Record CreateRoleInput := mkCreateRoleInput {
  cri_Name : string; cri_Color : Z; cri_Permissions : Z; cri_Hoist : bool; cri_Mentionable : bool
}.

(** The row of a new role: at the bottom, position 1. *)
Definition new_role (id g : Z) (r : CreateRoleInput) : dbRole :=
  mkDbRole id g (cri_Name r) (cri_Color r) (Permission_Int64 (cri_Permissions r)) 1 (cri_Hoist r)
    (cri_Mentionable r) false.

Definition created_role_diff (r : CreateRoleInput) : auditDiff :=
  auditDiff_context "renumbered" (AVBool true)
  (auditDiff_created "mentionable" (AVBool (cri_Mentionable r))
  (auditDiff_created "hoist" (AVBool (cri_Hoist r))
  (auditDiff_created "color" (AVInt (cri_Color r))
  (auditDiff_created "position" (AVInt 1)
  (auditDiff_created "permissions" (AVInt (cri_Permissions r))
  (auditDiff_created "name" (AVString (cri_Name r)) ∅)))))).

Definition CreateRole_tx (svc : Service) (actor guildID : Z) (r : CreateRoleInput) (roleID : Z) : M Role :=
  allowed ← Authorize actor guildID 0 PermManageRoles;
  refuseEscalation allowed (cri_Permissions r);;
  n ← Queries_CountGuildRoles guildID;
  refuse_if (maxRolesPerGuild svc <=? n) EGuildFull;;
  Queries_LockGuildRolePositions guildID;;
  Queries_ShiftRolePositionsUp guildID;;
  row ← Queries_CreateRole (new_role roleID guildID r);
  Service_writeAudit guildID actor "role.create" (Some roleID) (Some (created_role_diff r));;
  Service_queueRoles svc guildID false;;
  mret (roleFromRow row).

Definition Service_CreateRole (svc : Service) (actor guildID : Z) (r : CreateRoleInput) : M Role :=
  roleID ← ids_Next;
  RunInTx (CreateRole_tx svc actor guildID r roleID).

Record UpdateRoleInput := mkUpdateRoleInput {
  uri_Name : option string; uri_Color : option Z; uri_Permissions : option Z;
  uri_Hoist : option bool; uri_Mentionable : option bool
}.

Definition updated_role_diff (existing : dbRole) (r : UpdateRoleInput) : auditDiff :=
  changed_if AVBool "mentionable" (AVBool (role_mentionable existing)) (uri_Mentionable r)
  (changed_if AVBool "hoist" (AVBool (role_hoist existing)) (uri_Hoist r)
  (changed_if AVInt "permissions" (AVInt (PermissionFromInt64 (role_permissions existing)))
     (uri_Permissions r)
  (changed_if AVInt "color" (AVInt (role_color existing)) (uri_Color r)
  (changed_if AVString "name" (AVString (role_name existing)) (uri_Name r) ∅)))).

Definition update_role_params (roleID guildID : Z) (r : UpdateRoleInput) : UpdateRoleParams :=
  mkUpdateRoleParams roleID guildID (uri_Name r) (uri_Color r)
    (Permission_Int64 <$> uri_Permissions r) (uri_Hoist r) (uri_Mentionable r).

Definition UpdateRole_tx (svc : Service) (actor guildID roleID : Z) (r : UpdateRoleInput) : M Role :=
  allowed ← Authorize actor guildID 0 PermManageRoles;
  existing ← no_rows_as ENotFound (Queries_GetRoleForUpdate roleID guildID);
  refuse_if (negb (Decision_Outranks allowed (role_position existing))) EOutranked;;
  match uri_Permissions r with
  | Some want => refuseEscalation allowed want
  | None => mret tt
  end;;
  refuse_if (role_is_default existing && bool_decide (is_Some (uri_Name r))) EDefaultRoleImmutable;;
  row ← no_rows_as ENotFound (Queries_UpdateRole (update_role_params roleID guildID r));
  Service_writeAudit guildID actor "role.update" (Some roleID) (Some (updated_role_diff existing r));;
  Service_queueRoles svc guildID (bool_decide (is_Some (uri_Permissions r)));;
  mret (roleFromRow row).

Definition Service_UpdateRole (svc : Service) (actor guildID roleID : Z) (r : UpdateRoleInput) : M Role :=
  RunInTx (UpdateRole_tx svc actor guildID roleID r).

Definition deleted_role_diff (existing : dbRole) : auditDiff :=
  auditDiff_removed "position" (AVInt (role_position existing))
  (auditDiff_removed "permissions" (AVInt (PermissionFromInt64 (role_permissions existing)))
  (auditDiff_removed "name" (AVString (role_name existing)) ∅)).

Definition DeleteRole_tx (svc : Service) (actor guildID roleID : Z) : M unit :=
  allowed ← Authorize actor guildID 0 PermManageRoles;
  existing ← no_rows_as ENotFound (Queries_GetRoleForUpdate roleID guildID);
  refuse_if (negb (Decision_Outranks allowed (role_position existing))) EOutranked;;
  Service_refuseRemovingOverwritesFor allowed guildID OverwriteTargetRole roleID;;
  refuse_if (role_is_default existing) EDefaultRoleImmutable;;
  Service_writeAudit guildID actor "role.delete" (Some roleID) (Some (deleted_role_diff existing));;
  Queries_DeleteOverwritesForTarget guildID OverwriteTargetRole roleID;;
  affected ← Queries_DeleteRole roleID guildID;
  refuse_if (affected =? 0) ENotFound;;
  Service_queueRoles svc guildID true.

Definition Service_DeleteRole (svc : Service) (actor guildID roleID : Z) : M unit :=
  RunInTx (DeleteRole_tx svc actor guildID roleID).

(** ** ReorderRoles *)

Record RolePosition := mkRolePosition { rp_ID : Z; rp_Position : Z }.

Definition roles_by_id (current : list dbRole) : gmap Z dbRole :=
  foldl (fun m r => <[role_id r := r]> m) ∅ current.

(** The first loop: each wanted position is one the actor may give, once per role. *)
Fixpoint reorder_check (byID : gmap Z dbRole) (maxPosition : Z) (allowed : GuildDecision)
    (seen : gset Z) (wants : list RolePosition) : M unit :=
  match wants with
  | [] => mret tt
  | want :: wants =>
      match byID !! rp_ID want with
      | None => throw ENotFound
      | Some role =>
          refuse_if (bool_decide (rp_ID want ∈ seen)) EBadRequest;;
          refuse_if (role_is_default role) EDefaultRoleImmutable;;
          refuse_if ((rp_Position want <? 1) || (maxPosition <? rp_Position want)) EBadRequest;;
          refuse_if (negb (Decision_Outranks allowed (role_position role))
                     || negb (Decision_Outranks allowed (rp_Position want))) EOutranked;;
          reorder_check byID maxPosition allowed ({[rp_ID want]} ∪ seen) wants
      end
  end.

(** A role's position once the request is applied. *)
Definition wanted_position (wants : list RolePosition) (r : dbRole) : Z :=
  match list_find (fun want => rp_ID want = role_id r) wants with
  | Some (_, want) => rp_Position want
  | None => role_position r
  end.

(** The second loop: no two roles end at the same position. *)
Fixpoint reorder_final (wants : list RolePosition) (current : list dbRole) (final : gmap Z Z) : M unit :=
  match current with
  | [] => mret tt
  | r :: current =>
      if role_is_default r then reorder_final wants current final
      else
        match final !! wanted_position wants r with
        | Some _ => throw EConflict
        | None => reorder_final wants current (<[wanted_position wants r := role_id r]> final)
        end
  end.

(** The third: the writes, and the diff. *)
Fixpoint reorder_apply (byID : gmap Z dbRole) (guildID : Z) (wants : list RolePosition)
    (changes : auditDiff) : M auditDiff :=
  match wants with
  | [] => mret changes
  | want :: wants =>
      affected ← Queries_SetRolePosition (rp_Position want) (rp_ID want) guildID;
      refuse_if (affected =? 0) EConflict;;
      let from := match byID !! rp_ID want with Some r => role_position r | None => 0 end in
      reorder_apply byID guildID wants
        (auditDiff_changed (ID_String (rp_ID want)) (AVInt from) (AVInt (rp_Position want)) changes)
  end.

Definition ReorderRoles_tx (svc : Service) (actor guildID : Z) (wants : list RolePosition)
    : M (list Role) :=
  allowed ← Authorize actor guildID 0 PermManageRoles;
  Queries_LockGuildRolePositions guildID;;
  current ← Queries_ListGuildRoles guildID;
  let byID := roles_by_id current in
  reorder_check byID (maxRolesPerGuild svc) allowed ∅ wants;;
  reorder_final wants current ∅;;
  changes ← reorder_apply byID guildID wants ∅;
  Service_writeAudit guildID actor "role.reorder" None (Some changes);;
  reordered ← Queries_ListGuildRoles guildID;
  let out := roleFromRow <$> reordered in
  Publisher_Queue (events svc)
    (event_for "GUILD_ROLES_UPDATE" AudGuild guildID [] (PGuildRoles guildID out));;
  mret out.

Definition Service_ReorderRoles (svc : Service) (actor guildID : Z) (wants : list RolePosition)
    : M (list Role) :=
  RunInTx (ReorderRoles_tx svc actor guildID wants).

(** ** What each operation did, if it returned *)

Definition CreateRole_effect (svc : Service) (a g : Z) (r : CreateRoleInput) (roleID : Z) (t : Tables)
    (out : Role) (t' : Tables) (evs : list (Event Payload)) : Prop :=
  exists d aid,
    granted t a g 0 PermManageRoles d /\
    Known (cri_Permissions r) = true /\ Decision_Allows d (cri_Permissions r) = true /\
    count (guild_roles t g) < maxRolesPerGuild svc /\
    t_roles t !! roleID = None /\ is_Some (t_guilds t !! g) /\ t_audit t !! aid = None /\
    t' = audited aid (entry g a "role.create" (Some roleID) (Some (created_role_diff r)))
           (set_roles (<[roleID := new_role roleID g r]> (shifted t g <$> t_roles t)) t) /\
    out = roleFromRow (new_role roleID g r) /\
    evs = when (events svc) (role_events t' g false).

Lemma wp_CreateRole_tx svc a g r roleID s :
  wf (tabs s) -> hooks s = [] ->
  wp (CreateRole_tx svc a g r roleID)
    (fun out s' => CreateRole_effect svc a g r roleID (tabs s) out (tabs s') (hooks s')) s.
Proof.
  intros Hwf Hh. unfold CreateRole_tx. wp_step. apply wp_Authorize; [done|]. intros fs d Hd.
  wp_step. apply wp_refuseEscalation. intros Hk Ha. wp_steps.
  match goal with H : context [t_roles _ !! _] |- _ => rename H into Hc end.
  cbn in Hc. rewrite lookup_fmap in Hc.
  destruct (t_roles (tabs s) !! roleID) as [r0|] eqn:Hr; [done|]. simpl in Hc.
  case_decide as Hg; simplify_eq. apply wp_writeAudit. intros. st_simpl.
  wp_steps. apply wp_queueRoles. intros. wp_steps. rewrite Hh. bool_hyps.
  exists d, id. cbn in *. split_and!; try done; lia.
Qed.

Definition UpdateRole_effect (svc : Service) (a g roleID : Z) (r : UpdateRoleInput) (t : Tables)
    (out : Role) (t' : Tables) (evs : list (Event Payload)) : Prop :=
  exists d aid existing,
    granted t a g 0 PermManageRoles d /\
    get_role t roleID g = Some existing /\ Decision_Outranks d (role_position existing) = true /\
    (forall want, uri_Permissions r = Some want -> Known want = true /\ Decision_Allows d want = true) /\
    (role_is_default existing = true -> uri_Name r = None) /\
    t_audit t !! aid = None /\
    t' = audited aid (entry g a "role.update" (Some roleID) (Some (updated_role_diff existing r)))
           (set_roles (<[roleID := updated_role (update_role_params roleID g r) existing]> (t_roles t)) t) /\
    out = roleFromRow (updated_role (update_role_params roleID g r) existing) /\
    evs = when (events svc) (role_events t' g (bool_decide (is_Some (uri_Permissions r)))).

Lemma wp_UpdateRole_tx svc a g roleID r s :
  wf (tabs s) -> hooks s = [] ->
  wp (UpdateRole_tx svc a g roleID r)
    (fun out s' => UpdateRole_effect svc a g roleID r (tabs s) out (tabs s') (hooks s')) s.
Proof.
  intros Hwf Hh. unfold UpdateRole_tx. wp_step. apply wp_Authorize; [done|]. intros fs d Hd. st_simpl.
  wp_steps. rename a0 into existing.
  assert (forall Q s, ((forall want, uri_Permissions r = Some want ->
            Known want = true /\ Decision_Allows d want = true) -> Q tt s) ->
    wp match uri_Permissions r with Some want => refuseEscalation d want | None => mret tt end Q s) as Hp.
  { intros Q s0 HQ. destruct (uri_Permissions r) as [want|]; [|by apply HQ].
    apply wp_refuseEscalation. intros. apply HQ. by intros ? [= <-]. }
  apply Hp. clear Hp. intros Hp. wp_steps.
  match goal with H : context [ur_ID] |- _ => rename H into Hu end. cbn in Hu.
  match goal with H : get_role _ _ _ = Some existing |- _ => rewrite H in Hu; rename H into He end.
  simplify_eq. apply wp_writeAudit. intros. st_simpl.
  wp_steps. apply wp_queueRoles. intros. wp_steps. rewrite Hh. bool_hyps.
  exists d, id, existing. cbn in *. split_and!; try done.
  intros Hdef. destruct (uri_Name r); [|done]. rewrite Hdef in *. done.
Qed.

Definition DeleteRole_effect (svc : Service) (a g roleID : Z) (t t' : Tables)
    (evs : list (Event Payload)) : Prop :=
  exists d aid existing,
    granted t a g 0 PermManageRoles d /\
    get_role t roleID g = Some existing /\ Decision_Outranks d (role_position existing) = true /\
    role_is_default existing = false /\
    may_remove_overwrites t g d OverwriteTargetRole roleID /\
    t_audit t !! aid = None /\
    t' = without_role roleID (without_overwrites_for g OverwriteTargetRole roleID
           (audited aid (entry g a "role.delete" (Some roleID) (Some (deleted_role_diff existing))) t)) /\
    evs = when (events svc) (role_events t' g true).

Lemma wp_DeleteRole_tx svc a g roleID s :
  wf (tabs s) -> hooks s = [] ->
  wp (DeleteRole_tx svc a g roleID)
    (fun _ s' => DeleteRole_effect svc a g roleID (tabs s) (tabs s') (hooks s')) s.
Proof.
  intros Hwf Hh. unfold DeleteRole_tx. wp_step. apply wp_Authorize; [done|]. intros fs d Hd. st_simpl.
  wp_steps. rename a0 into existing. apply wp_refuseRemoving. intros fs1 Hrm. st_simpl. wp_steps.
  apply wp_writeAudit. intros. st_simpl. wp_steps.
  match goal with H : context [get_role _ _ _] |- _ => rename H into Hx end.
  match goal with H : get_role (tabs s) _ _ = Some existing |- _ => rename H into He end.
  match goal with H : match get_role _ _ _ with _ => _ end = _ |- _ =>
    change (get_role _ roleID g) with (get_role (tabs s) roleID g) in H; rewrite He in H; rename H into Hdel end.
  bool_hyps. match goal with H : role_is_default existing = false |- _ => rewrite H in Hdel end.
  simplify_eq. apply wp_queueRoles. intros. cbn beta. st_simpl. rewrite Hh.
  exists d, id, existing. cbn in *. split_and!; done.
Qed.

(** What the first loop lets through. *)
Definition reorder_allowed (byID : gmap Z dbRole) (maxPosition : Z) (d : GuildDecision)
    (wants : list RolePosition) : Prop :=
  NoDup (rp_ID <$> wants) /\
  forall want, want ∈ wants -> exists r, byID !! rp_ID want = Some r /\ role_is_default r = false /\
    1 <= rp_Position want <= maxPosition /\
    Decision_Outranks d (role_position r) = true /\ Decision_Outranks d (rp_Position want) = true.

Lemma wp_reorder_check byID max d seen wants (Q : unit -> St -> Prop) s :
  (reorder_allowed byID max d wants -> (forall want, want ∈ wants -> rp_ID want ∉ seen) -> Q tt s) ->
  wp (reorder_check byID max d seen wants) Q s.
Proof.
  revert seen. induction wants as [|want wants IH]; intros seen HQ; simpl.
  - apply wp_ret, HQ; [split; [constructor|]|]; by intros ? []%elem_of_nil.
  - destruct (byID !! rp_ID want) as [r|] eqn:Hr; [|done]. wp_steps. bool_hyps.
    apply IH. intros [Hnd Hall] Hseen. apply HQ.
    + split.
      * rewrite fmap_cons. apply NoDup_cons. split; [|done].
        intros (x & Hx & Hin)%list_elem_of_fmap. specialize (Hseen x Hin). set_solver.
      * intros x [->|Hx]%elem_of_cons; [|by apply Hall]. exists r. split_and!; auto; lia.
    + intros x [->|Hx]%elem_of_cons; [done|]. specialize (Hseen x Hx). set_solver.
Qed.

(** The second loop: the positions the roles end at are distinct. *)
Lemma wp_reorder_final wants current final (Q : unit -> St -> Prop) s :
  (NoDup (wanted_position wants <$> filter (fun r => role_is_default r = false) current) ->
   (forall r, r ∈ current -> role_is_default r = false -> final !! wanted_position wants r = None) ->
   Q tt s) ->
  wp (reorder_final wants current final) Q s.
Proof.
  revert final. induction current as [|r current IH]; intros final HQ; simpl.
  - apply wp_ret, HQ; [constructor|by intros ? []%elem_of_nil].
  - destruct (role_is_default r) eqn:Hd.
    + apply IH. intros Hnd Hf. apply HQ.
      * rewrite filter_cons_False by congruence. done.
      * intros x [->|Hx]%elem_of_cons Hxd; [congruence|by apply Hf].
    + destruct (final !! wanted_position wants r) eqn:Hfr; [done|]. apply IH. intros Hnd Hf.
      apply HQ.
      * rewrite filter_cons_True by done. rewrite fmap_cons. apply NoDup_cons. split; [|done].
        intros (x & E & [Hxd Hx]%list_elem_of_filter)%list_elem_of_fmap.
        specialize (Hf x Hx Hxd). rewrite <- E, lookup_insert_eq in Hf. done.
      * intros x [->|Hx]%elem_of_cons Hxd; [done|]. specialize (Hf x Hx Hxd).
        by apply lookup_insert_None in Hf as [? _].
Qed.

(** The roles after the third loop. *)
Definition repositioned (wants : list RolePosition) (m : gmap Z dbRole) : gmap Z dbRole :=
  foldl (fun m want => alter (with_position (rp_Position want)) (rp_ID want) m) m wants.

Definition reorder_diff (byID : gmap Z dbRole) (wants : list RolePosition) (changes : auditDiff)
    : auditDiff :=
  foldl (fun ch want =>
    auditDiff_changed (ID_String (rp_ID want))
      (AVInt (match byID !! rp_ID want with Some r => role_position r | None => 0 end))
      (AVInt (rp_Position want)) ch) changes wants.

Lemma set_roles_id t : set_roles (t_roles t) t = t.
Proof. by destruct t. Qed.

Lemma wp_reorder_apply byID g wants changes (Q : auditDiff -> St -> Prop) s :
  (forall fs, Q (reorder_diff byID wants changes)
     (with_tabs (set_roles (repositioned wants (t_roles (tabs s))) (tabs s)) (with_faults fs s))) ->
  wp (reorder_apply byID g wants changes) Q s.
Proof.
  revert changes s. induction wants as [|want wants IH]; intros changes s HQ; simpl.
  - apply wp_ret. specialize (HQ (faults s)). cbn in HQ. rewrite set_roles_id, with_faults_id in HQ.
    by destruct s.
  - wp_steps. apply IH. intros fs'. st_simpl. specialize (HQ fs').
    destruct (get_role (tabs s) (rp_ID want) g) as [r|] eqn:Hr; [|by simplify_eq].
    apply get_role_Some in Hr as [Hl _].
    destruct (negb (role_is_default r) && (0 <? rp_Position want)); simplify_eq.
    cbn in HQ |- *. unfold repositioned in *. cbn [foldl] in HQ.
    replace (alter (with_position (rp_Position want)) (rp_ID want) (t_roles (tabs s)))
      with (<[rp_ID want := with_position (rp_Position want) r]> (t_roles (tabs s))) in HQ; [done|].
    apply map_eq. intros k. destruct (decide (k = rp_ID want)) as [->|].
    + by rewrite lookup_insert_eq, lookup_alter_eq, Hl.
    + by rewrite lookup_insert_ne, lookup_alter_ne.
Qed.

Lemma repositioned_lookup wants m id :
  NoDup (rp_ID <$> wants) ->
  repositioned wants m !! id =
  match list_find (fun want => rp_ID want = id) wants with
  | Some (_, want) => with_position (rp_Position want) <$> m !! id
  | None => m !! id
  end.
Proof.
  revert m. induction wants as [|want wants IH]; intros m Hnd; [done|].
  rewrite fmap_cons in Hnd. apply NoDup_cons in Hnd as [Hnot Hnd].
  unfold repositioned. cbn [foldl]. fold (repositioned wants
    (alter (with_position (rp_Position want)) (rp_ID want) m)). rewrite IH by done.
  cbn [list_find]. case_decide as E.
  - subst id. rewrite lookup_alter_eq.
    destruct (list_find (fun w => rp_ID w = rp_ID want) wants) as [[i w]|] eqn:F; [|done].
    apply list_find_Some in F as (F1 & F2 & _). exfalso. apply Hnot.
    rewrite <- F2. apply list_elem_of_fmap_2. by eapply list_elem_of_lookup_2.
  - rewrite lookup_alter_ne by done. by destruct (list_find _ wants) as [[i w]|].
Qed.

Definition ReorderRoles_effect (svc : Service) (a g : Z) (wants : list RolePosition) (t : Tables)
    (out : list Role) (t' : Tables) (evs : list (Event Payload)) : Prop :=
  exists d aid, let byID := roles_by_id (by_position (guild_roles t g)) in
    granted t a g 0 PermManageRoles d /\
    reorder_allowed byID (maxRolesPerGuild svc) d wants /\
    NoDup (wanted_position wants <$>
             filter (fun r => role_is_default r = false) (by_position (guild_roles t g))) /\
    t_audit t !! aid = None /\
    t' = audited aid (entry g a "role.reorder" None (Some (reorder_diff byID wants ∅)))
           (set_roles (repositioned wants (t_roles t)) t) /\
    out = roleFromRow <$> by_position (guild_roles t' g) /\
    evs = when (events svc) [event_for "GUILD_ROLES_UPDATE" AudGuild g [] (PGuildRoles g out)].

Lemma wp_ReorderRoles_tx svc a g wants s :
  wf (tabs s) -> hooks s = [] ->
  wp (ReorderRoles_tx svc a g wants)
    (fun out s' => ReorderRoles_effect svc a g wants (tabs s) out (tabs s') (hooks s')) s.
Proof.
  intros Hwf Hh. unfold ReorderRoles_tx. wp_step. apply wp_Authorize; [done|]. intros fs d Hd. st_simpl.
  wp_steps. apply wp_reorder_check. intros Hall _. wp_steps.
  apply wp_reorder_final. intros Hnd _. wp_steps. apply wp_reorder_apply. intros fs3. wp_steps.
  apply wp_writeAudit. intros. st_simpl. wp_steps. rewrite Hh.
  exists d, id. cbn in *. split_and!; done.
Qed.

(** ** The operations *)

Lemma quiet_CreateRole_tx svc a g r id : quiet (CreateRole_tx svc a g r id).
Proof. unfold CreateRole_tx. quiet_steps. Qed.
Lemma quiet_UpdateRole_tx svc a g id r : quiet (UpdateRole_tx svc a g id r).
Proof. unfold UpdateRole_tx. quiet_steps. Qed.
Lemma quiet_DeleteRole_tx svc a g id : quiet (DeleteRole_tx svc a g id).
Proof. unfold DeleteRole_tx. quiet_steps. Qed.

Lemma quiet_reorder_check byID max d seen wants : quiet (reorder_check byID max d seen wants).
Proof. revert seen. induction wants; intros; simpl; quiet_steps; auto. Qed.
Lemma quiet_reorder_final wants current final : quiet (reorder_final wants current final).
Proof. revert final. induction current; intros; simpl; quiet_steps; auto. Qed.
Lemma quiet_reorder_apply byID g wants ch : quiet (reorder_apply byID g wants ch).
Proof. revert ch. induction wants; intros; simpl; quiet_steps; auto. Qed.
#[export] Hint Resolve quiet_reorder_check quiet_reorder_final quiet_reorder_apply : norite.
Lemma quiet_ReorderRoles_tx svc a g wants : quiet (ReorderRoles_tx svc a g wants).
Proof. unfold ReorderRoles_tx. quiet_steps. Qed.
#[export] Hint Resolve quiet_CreateRole_tx quiet_UpdateRole_tx quiet_DeleteRole_tx
  quiet_ReorderRoles_tx : norite.
