(* ===== verification/OverwriteSvc.v ===== *)
(** backend/internal/guilds/overwrite.go: a channel's permission overwrites. *)
From S2P Require Import Prelude GoStd Permissions Snowflake Rows TxMonad Queries.
From S2P Require Import Resolve StoreInv Authority ResolveMany GuildAuth GuildCommon.

(** ** Operations *)

Definition maxOverwritesPerChannel : Z := 50.

Record SetOverwriteInput := mkSetOverwriteInput {
  so_ChannelID : Z; so_TargetType : Z; so_TargetID : Z; so_Allow : Z; so_Deny : Z
}.

(** May the actor write an overwrite about this target? *)
Definition Service_checkOverwriteTarget (actor : Z) (allowed : GuildDecision)
    (guildID targetType targetID : Z) : M unit :=
  if targetType =? OverwriteTargetRole then
    role ← no_rows_as ENotFound (Queries_GetRole targetID guildID);
    refuse_if (negb (Decision_Outranks allowed (role_position role))) EOutranked
  else if targetType =? OverwriteTargetMember then
    standing ← no_rows_as ENotFound (Queries_GetMemberHighestRolePosition guildID targetID);
    refuse_if (negb (targetID =? actor) && negb (Decision_OutranksMember allowed targetID standing))
      EOutranked
  else throw EBadRequest.

(** The row's two sides as one set of bits. *)
Definition row_bits (row : PermissionOverwrite) : Z :=
  PermissionFromInt64 (ow_allow row) ∪ₚ PermissionFromInt64 (ow_deny row).

Definition set_overwrite_diff (prior : option PermissionOverwrite) (r : SetOverwriteInput) : auditDiff :=
  let d := auditDiff_context "target_type" (AVInt (so_TargetType r))
             (auditDiff_context "channel_id" (AVInt (so_ChannelID r)) ∅) in
  match prior with
  | Some row =>
      auditDiff_changed "deny" (AVInt (PermissionFromInt64 (ow_deny row))) (AVInt (so_Deny r))
        (auditDiff_changed "allow" (AVInt (PermissionFromInt64 (ow_allow row))) (AVInt (so_Allow r)) d)
  | None =>
      auditDiff_created "deny" (AVInt (so_Deny r)) (auditDiff_created "allow" (AVInt (so_Allow r)) d)
  end.

Definition SetOverwrite_tx (svc : Service) (actor : Z) (r : SetOverwriteInput) : M Overwrite :=
  ch ← AuthorizeChannel actor (so_ChannelID r) PermManageRoles;
  let '(_, guildID, allowed) := ch in
  Service_checkOverwriteTarget actor allowed guildID (so_TargetType r) (so_TargetID r);;
  prior_or ← attempt (Queries_GetPermissionOverwriteForUpdate (so_ChannelID r) (so_TargetType r)
                        (so_TargetID r) guildID);
  prior ← match prior_or with
          | inr prior =>
              refuseEscalation allowed (row_bits prior ∪ₚ so_Allow r ∪ₚ so_Deny r);;
              mret (Some prior)
          | inl ENoRows =>
              refuseEscalation allowed (so_Allow r ∪ₚ so_Deny r);;
              n ← Queries_CountChannelPermissionOverwrites (so_ChannelID r);
              refuse_if (maxOverwritesPerChannel <=? n) EChannelFull;;
              mret None
          | inl e => throw e
          end;
  row ← no_rows_as ENotFound
          (Queries_UpsertPermissionOverwrite (so_ChannelID r) (so_TargetType r) (so_TargetID r)
             (Permission_Int64 (so_Allow r)) (Permission_Int64 (so_Deny r)) guildID);
  Service_writeAudit guildID actor "overwrite.set" (Some (so_TargetID r))
    (Some (set_overwrite_diff prior r));;
  Service_queuePermissions svc guildID;;
  mret (overwriteFromRow row).

Definition Service_SetOverwrite (svc : Service) (actor : Z) (r : SetOverwriteInput) : M Overwrite :=
  RunInTx (SetOverwrite_tx svc actor r).

Definition deleted_overwrite_diff (row : PermissionOverwrite) : auditDiff :=
  auditDiff_removed "deny" (AVInt (PermissionFromInt64 (ow_deny row)))
  (auditDiff_removed "allow" (AVInt (PermissionFromInt64 (ow_allow row)))
  (auditDiff_context "target_type" (AVInt (ow_target_type row))
  (auditDiff_context "channel_id" (AVInt (ow_channel_id row)) ∅))).

Definition DeleteOverwrite_tx (svc : Service) (actor channelID targetType targetID : Z) : M unit :=
  ch ← AuthorizeChannel actor channelID PermManageRoles;
  let '(_, guildID, allowed) := ch in
  existing ← no_rows_as ENotFound
               (Queries_GetPermissionOverwriteForUpdate channelID targetType targetID guildID);
  Service_checkOverwriteTarget actor allowed guildID targetType targetID;;
  refuseEscalation allowed (row_bits existing);;
  Service_writeAudit guildID actor "overwrite.delete" (Some targetID)
    (Some (deleted_overwrite_diff (mkPermissionOverwrite channelID targetType targetID
             (ow_allow existing) (ow_deny existing))));;
  affected ← Queries_DeletePermissionOverwrite guildID channelID targetType targetID;
  refuse_if (affected =? 0) ENotFound;;
  Service_queuePermissions svc guildID.

Definition Service_DeleteOverwrite (svc : Service) (actor channelID targetType targetID : Z) : M unit :=
  RunInTx (DeleteOverwrite_tx svc actor channelID targetType targetID).

(** ** What each operation did, if it returned *)

(** A target the actor may write about: a role of the guild below its standing, or a member below
    it, or itself. *)
Definition target_ok (t : Tables) (a g ty id : Z) (d : GuildDecision) : Prop :=
  (ty = OverwriteTargetRole /\ exists r, get_role t id g = Some r /\
     Decision_Outranks d (role_position r) = true) \/
  (ty = OverwriteTargetMember /\ is_Some (t_members t !! (g, id)) /\
     (id = a \/ Decision_OutranksMember d id (standing_of t g id) = true)).

Lemma wp_checkOverwriteTarget a d g ty id (Q : unit -> St -> Prop) s :
  (forall fs, target_ok (tabs s) a g ty id d -> Q tt (with_faults fs s)) ->
  wp (Service_checkOverwriteTarget a d g ty id) Q s.
Proof.
  intros HQ. unfold Service_checkOverwriteTarget. wp_steps.
  - apply HQ. left. bool_hyps. eauto.
  - destruct (t_members (tabs s) !! (g, id)) eqn:Hm; [|by simplify_eq]. simplify_eq.
    apply HQ. right. bool_hyps. split; [done|]. split; [by eexists|].
    match goal with H : negb _ && negb _ = false |- _ => apply andb_false_iff in H as [?|?] end;
      bool_hyps; auto.
Qed.

Definition SetOverwrite_effect (svc : Service) (a : Z) (r : SetOverwriteInput) (t : Tables)
    (out : Overwrite) (t' : Tables) (evs : list (Event Payload)) : Prop :=
  exists g d aid,
    let prior := get_overwrite t (so_ChannelID r) (so_TargetType r) (so_TargetID r) g in
    channel_in_guild t (so_ChannelID r) g = true /\
    granted t a g (so_ChannelID r) (PermManageRoles ∪ₚ PermViewChannel) d /\
    target_ok t a g (so_TargetType r) (so_TargetID r) d /\
    Known (so_Allow r ∪ₚ so_Deny r) = true /\ Decision_Allows d (so_Allow r ∪ₚ so_Deny r) = true /\
    (forall row, prior = Some row -> Decision_Allows d (row_bits row) = true) /\
    (prior = None -> count (channel_overwrites t (so_ChannelID r)) < maxOverwritesPerChannel) /\
    t_audit t !! aid = None /\
    t' = audited aid (entry g a "overwrite.set" (Some (so_TargetID r)) (Some (set_overwrite_diff prior r)))
           (set_overwrites (<[(so_ChannelID r, so_TargetType r, so_TargetID r) :=
              (Permission_Int64 (so_Allow r), Permission_Int64 (so_Deny r))]> (t_overwrites t)) t) /\
    out = overwriteFromRow (mkPermissionOverwrite (so_ChannelID r) (so_TargetType r) (so_TargetID r)
            (Permission_Int64 (so_Allow r)) (Permission_Int64 (so_Deny r))) /\
    evs = when (events svc)
            [event_for "GUILD_PERMISSIONS_UPDATE" AudGuild g [] (PPermissionsUpdated g)].

Lemma Known_add p q : Known (p ∪ₚ q) = true <-> Known p = true /\ Known q = true.
Proof.
  assert (forall x, Known x = true <-> forall i, Z.testbit x i = true -> Z.testbit permAll i = true) as Hk.
  { intros x. unfold Known. rewrite Z.eqb_eq. split.
    - intros H i Hi. destruct (Z.testbit permAll i) eqn:E; [done|].
      assert (Z.testbit (Z.ldiff x permAll) i = true) as H' by (rewrite Z.ldiff_spec, Hi, E; done).
      by rewrite H, Z.bits_0 in H'.
    - intros H. apply Z.bits_inj'. intros i _. rewrite Z.ldiff_spec, Z.bits_0.
      destruct (Z.testbit x i) eqn:E; [|done]. by rewrite (H i E). }
  rewrite !Hk. setoid_rewrite testbit_add. setoid_rewrite orb_true_iff. clear. split.
  - intros H. split; intros; apply H; auto.
  - intros [H1 H2] i [?|?]; auto.
Qed.

Lemma Allows_add d p q :
  Decision_Allows d (p ∪ₚ q) = true <-> Decision_Allows d p = true /\ Decision_Allows d q = true.
Proof.
  unfold Decision_Allows. rewrite !orb_true_iff, !Has_spec.
  setoid_rewrite testbit_add. setoid_rewrite orb_true_iff. clear. split.
  - intros [|H]; [auto|]. split; right; intros; apply H; auto.
  - intros [[|H1] [|H2]]; auto. right. intros i [?|?]; auto.
Qed.

Lemma wp_SetOverwrite_tx svc a r s :
  wf (tabs s) -> hooks s = [] ->
  wp (SetOverwrite_tx svc a r)
    (fun out s' => SetOverwrite_effect svc a r (tabs s) out (tabs s') (hooks s')) s.
Proof.
  intros Hwf Hh. unfold SetOverwrite_tx. wp_step. apply wp_authorizeChannel; [done|].
  intros fs row g d Hrow Hg Hd. wp_step. apply wp_checkOverwriteTarget. intros fs1 Ht. st_simpl.
  assert (channel_in_guild (tabs s) (so_ChannelID r) g = true) as Hin.
  { apply channel_in_guild_true. eauto. }
  wp_step. apply wp_attempt. intros prior_or s1 Hp. wp_step.
  set (prior := get_overwrite (tabs s) (so_ChannelID r) (so_TargetType r) (so_TargetID r) g).
  assert (wp match prior_or with
             | inr prior => refuseEscalation d (row_bits prior ∪ₚ so_Allow r ∪ₚ so_Deny r);; mret (Some prior)
             | inl ENoRows => refuseEscalation d (so_Allow r ∪ₚ so_Deny r);;
                 n ← Queries_CountChannelPermissionOverwrites (so_ChannelID r);
                 refuse_if (maxOverwritesPerChannel <=? n) EChannelFull;; mret None
             | inl e => throw e
             end
    (fun o s2 => o = prior /\ tabs s2 = tabs s /\ hooks s2 = [] /\
       Known (so_Allow r ∪ₚ so_Deny r) = true /\ Decision_Allows d (so_Allow r ∪ₚ so_Deny r) = true /\
       (forall row, prior = Some row -> Decision_Allows d (row_bits row) = true) /\
       (prior = None -> count (channel_overwrites (tabs s) (so_ChannelID r)) < maxOverwritesPerChannel)) s1)
    as Hcase.
  { unfold Queries_GetPermissionOverwriteForUpdate, reading in Hp. simpl in Hp.
    set (s0 := with_faults fs1 (with_faults fs s)) in Hp. destruct (next_fault s0) as [b s2] eqn:E.
    apply next_fault_with in E as [fs2 ->]. destruct b; [by injection Hp as <- <-|].
    injection Hp as <- <-. cbn [tabs with_faults s0]. change (get_overwrite _ _ _ _ g) with prior.
    destruct prior as [p|] eqn:Epr; cbn [found].
    - wp_step. apply wp_refuseEscalation. intros Hk Ha. wp_steps. rewrite !Known_add in Hk.
      rewrite !Allows_add in Ha. rewrite Known_add, Allows_add. split_and!; try tauto; try done.
      intros ? [= <-]. tauto.
    - wp_step. apply wp_refuseEscalation. intros Hk Ha. wp_steps. bool_hyps.
      split_and!; try done. }
  eapply wp_mono; [exact Hcase|]. clear Hp Hcase.
  intros o s2 (-> & Ht2 & Hh2 & Hk & Ha & Hpr & Hcount). wp_steps.
  match goal with H : context [channel_in_guild (tabs s2)] |- _ =>
    rewrite Ht2, Hin in H; injection H as <- <- end.
  apply wp_writeAudit. intros. st_simpl. wp_steps. apply wp_queuePermissions. wp_steps.
  exists g, d, id. fold prior. rewrite Hh2. cbn in *. split_and!; done.
Qed.

Definition DeleteOverwrite_effect (svc : Service) (a c ty id : Z) (t t' : Tables)
    (evs : list (Event Payload)) : Prop :=
  exists g d aid row,
    channel_in_guild t c g = true /\
    granted t a g c (PermManageRoles ∪ₚ PermViewChannel) d /\
    target_ok t a g ty id d /\
    get_overwrite t c ty id g = Some row /\
    Known (row_bits row) = true /\ Decision_Allows d (row_bits row) = true /\
    t_audit t !! aid = None /\
    t' = set_overwrites (delete (c, ty, id) (t_overwrites t))
           (audited aid (entry g a "overwrite.delete" (Some id) (Some (deleted_overwrite_diff row))) t) /\
    evs = when (events svc)
            [event_for "GUILD_PERMISSIONS_UPDATE" AudGuild g [] (PPermissionsUpdated g)].

Lemma get_overwrite_Some t c ty id g row :
  get_overwrite t c ty id g = Some row <->
  channel_in_guild t c g = true /\ row = mkPermissionOverwrite c ty id (ow_allow row) (ow_deny row) /\
  t_overwrites t !! (c, ty, id) = Some (ow_allow row, ow_deny row).
Proof.
  unfold get_overwrite. destruct (channel_in_guild t c g); [|naive_solver].
  destruct (t_overwrites t !! (c, ty, id)) as [[al de]|]; [|naive_solver]. split.
  - by intros [= <-].
  - by intros (_ & -> & [= -> ->]).
Qed.

Lemma wp_DeleteOverwrite_tx svc a c ty id s :
  wf (tabs s) -> hooks s = [] ->
  wp (DeleteOverwrite_tx svc a c ty id)
    (fun _ s' => DeleteOverwrite_effect svc a c ty id (tabs s) (tabs s') (hooks s')) s.
Proof.
  intros Hwf Hh. unfold DeleteOverwrite_tx. wp_step. apply wp_authorizeChannel; [done|].
  intros fs row g d Hrow Hg Hd. wp_steps. rename a0 into existing.
  apply wp_checkOverwriteTarget. intros fs1 Ht. st_simpl. wp_steps.
  apply wp_refuseEscalation. intros Hk Ha. wp_steps. apply wp_writeAudit. intros. st_simpl. wp_steps.
  apply wp_queuePermissions. cbn beta. st_simpl. bool_hyps.
  match goal with H : get_overwrite _ _ _ _ _ = Some existing |- _ => rename H into He end.
  pose proof He as (Hin & Heq & Hl)%get_overwrite_Some.
  match goal with H : (if _ then _ else _) = inr _ |- _ => rename H into Hdel end.
  change (channel_in_guild (audited _ _ (tabs s)) c g) with (channel_in_guild (tabs s) c g) in Hdel.
  change (t_overwrites (audited _ _ (tabs s))) with (t_overwrites (tabs s)) in Hdel.
  rewrite Hin, bool_decide_eq_true_2 in Hdel by (by rewrite Hl). cbn in Hdel. simplify_eq.
  exists g, d, id0, existing. rewrite <- Heq, Hh. split_and!; done.
Qed.

Lemma quiet_checkOverwriteTarget a d g ty id : quiet (Service_checkOverwriteTarget a d g ty id).
Proof. unfold Service_checkOverwriteTarget. quiet_steps. Qed.
#[export] Hint Resolve quiet_checkOverwriteTarget : norite.
Lemma quiet_SetOverwrite_tx svc a r : quiet (SetOverwrite_tx svc a r).
Proof. unfold SetOverwrite_tx, AuthorizeChannel. quiet_steps. Qed.
Lemma quiet_DeleteOverwrite_tx svc a c ty id : quiet (DeleteOverwrite_tx svc a c ty id).
Proof. unfold DeleteOverwrite_tx, AuthorizeChannel. quiet_steps. Qed.
#[export] Hint Resolve quiet_SetOverwrite_tx quiet_DeleteOverwrite_tx : norite.
