(* ===== verification/MemberSvc.v ===== *)
(** backend/internal/guilds/memberrole.go, member.go and ownership.go: who holds which role, what a
    member is called and allowed to say, leaving and kicking, and handing the guild over. *)
From S2P Require Import Prelude GoStd Permissions Snowflake Rows TxMonad Queries.
From S2P Require Import Resolve StoreInv Authority ResolveMany GuildAuth GuildCommon.

(** ** Role grants (memberrole.go) *)

Definition member_event (svc : Service) (guildID : Z) (m : Member) : M unit :=
  Publisher_Queue (events svc) (event_for "GUILD_MEMBER_UPDATE" AudGuild guildID [] (PMember m)).

Definition changeMemberRole_tx (svc : Service) (actor guildID userID roleID : Z) (assigning : bool)
    : M Member :=
  allowed ← Authorize actor guildID 0 PermManageRoles;
  role ← no_rows_as ENotFound (Queries_GetRole roleID guildID);
  refuse_if (role_is_default role) EDefaultRoleImmutable;;
  refuse_if (negb (Decision_Outranks allowed (role_position role))) EOutranked;;
  standing ← no_rows_as ENotFound (Queries_GetMemberHighestRolePosition guildID userID);
  refuse_if (negb (userID =? actor) && negb (Decision_OutranksMember allowed userID standing)) EOutranked;;
  (if assigning then refuseEscalation allowed (PermissionFromInt64 (role_permissions role)) else mret tt);;
  Service_refuseRemovingOverwritesFor allowed guildID OverwriteTargetRole roleID;;
  changed ← (if assigning then Queries_AssignRoleToMember guildID userID roleID
             else Queries_UnassignRoleFromMember guildID userID roleID);
  (if 0 <? changed then
     Service_writeAudit guildID actor (if assigning then "member.role_add" else "member.role_remove")
       (Some userID) (Some (auditDiff_context "role_id" (AVInt roleID) ∅))
   else mret tt);;
  member ← Queries_GetGuildMember guildID userID;
  held ← Queries_ListRoleIDsOfMember guildID userID;
  let out := memberFromRow member held in
  member_event svc guildID out;;
  Service_queuePermissions svc guildID;;
  mret out.

Definition Service_changeMemberRole (svc : Service) (actor guildID userID roleID : Z) (assigning : bool)
    : M Member :=
  RunInTx (changeMemberRole_tx svc actor guildID userID roleID assigning).

Definition Service_AssignRole (svc : Service) (actor guildID userID roleID : Z) : M Member :=
  Service_changeMemberRole svc actor guildID userID roleID true.
Definition Service_UnassignRole (svc : Service) (actor guildID userID roleID : Z) : M Member :=
  Service_changeMemberRole svc actor guildID userID roleID false.

(** ** Members (member.go) *)

Definition defaultMemberPageSize : Z := 50.
Definition maxMemberPageSize : Z := 100.

Definition page_limit (limit : Z) : Z :=
  if limit <=? 0 then defaultMemberPageSize
  else if maxMemberPageSize <? limit then maxMemberPageSize
  else limit.

Definition Service_ListMembers (actor guildID after limit : Z) : M (list Member) :=
  Service_authorize actor guildID 0 0;;
  rows ← Queries_ListGuildMembers guildID after (page_limit limit);
  mret ((fun row => memberFromRow (lgm_member row) (lgm_role_ids row)) <$> rows).

Record UpdateMemberInput := mkUpdateMemberInput {
  umi_Nickname : option string; umi_ClearNickname : bool; umi_Deaf : option bool;
  umi_Mute : option bool
}.

(** The permissions a request needs, from the fields it names. *)
Definition update_member_need (r : UpdateMemberInput) : Z :=
  let need := if bool_decide (is_Some (umi_Nickname r)) || umi_ClearNickname r
              then 0 ∪ₚ PermManageGuild else 0 in
  let need := if bool_decide (is_Some (umi_Mute r)) then need ∪ₚ PermMuteMembers else need in
  if bool_decide (is_Some (umi_Deaf r)) then need ∪ₚ PermDeafenMembers else need.

Definition updated_member_diff (existing : dbGuildMember) (r : UpdateMemberInput) : auditDiff :=
  changed_if AVBool "mute" (AVBool (gm_mute existing)) (umi_Mute r)
  (changed_if AVBool "deaf" (AVBool (gm_deaf existing)) (umi_Deaf r)
  (if umi_ClearNickname r then auditDiff_changed "nickname" (orNil AVString (gm_nickname existing)) AVNil ∅
   else changed_if AVString "nickname" (orNil AVString (gm_nickname existing)) (umi_Nickname r) ∅)).

Definition update_member_params (guildID userID : Z) (r : UpdateMemberInput) : UpdateGuildMemberParams :=
  mkUpdateGuildMemberParams guildID userID (umi_Nickname r) (umi_ClearNickname r) (umi_Deaf r)
    (umi_Mute r).

Definition self_nickname_only (actor userID : Z) (r : UpdateMemberInput) : bool :=
  (userID =? actor) && bool_decide (umi_Mute r = None) && bool_decide (umi_Deaf r = None).

(** The hierarchy check of member.go: the target's standing, and the actor above it. *)
Definition refuse_outranked_member (allowed : GuildDecision) (guildID userID : Z) : M unit :=
  standing ← no_rows_as ENotFound (Queries_GetMemberHighestRolePosition guildID userID);
  refuse_if (negb (Decision_OutranksMember allowed userID standing)) EOutranked.

Definition UpdateMember_tx (svc : Service) (actor guildID userID : Z) (r : UpdateMemberInput) : M Member :=
  refuse_if (update_member_need r =? 0) EBadRequest;;
  allowed ← Authorize actor guildID 0 (update_member_need r);
  (if negb (self_nickname_only actor userID r) then refuse_outranked_member allowed guildID userID
   else mret tt);;
  existing ← no_rows_as ENotFound (Queries_GetGuildMemberForUpdate guildID userID);
  row ← no_rows_as ENotFound (Queries_UpdateGuildMember (update_member_params guildID userID r));
  Service_writeAudit guildID actor "member.update" (Some userID) (Some (updated_member_diff existing r));;
  held ← Queries_ListRoleIDsOfMember guildID userID;
  let out := memberFromRow row held in
  member_event svc guildID out;;
  mret out.

Definition Service_UpdateMember (svc : Service) (actor guildID userID : Z) (r : UpdateMemberInput)
    : M Member :=
  RunInTx (UpdateMember_tx svc actor guildID userID r).

Definition removed_member_diff (m : dbGuildMember) : auditDiff :=
  match gm_nickname m with
  | Some n => auditDiff_removed "nickname" (AVString n) ∅
  | None => ∅
  end.

(** Leaving needs membership and no standing; kicking needs both the permission and the rank. *)
Definition RemoveMember_tx (svc : Service) (actor guildID userID : Z) : M unit :=
  (if userID =? actor then
     Authorize actor guildID 0 0;; mret tt
   else
     allowed ← Authorize actor guildID 0 PermKickMembers;
     refuse_outranked_member allowed guildID userID);;
  guild ← no_rows_as ENotFound (Queries_GetGuildForShare guildID);
  refuse_if (guild_owner_id guild =? userID) ECannotRemoveOwner;;
  member ← no_rows_as ENotFound (Queries_GetGuildMemberForUpdate guildID userID);
  Service_writeAudit guildID actor "member.remove" (Some userID) (Some (removed_member_diff member));;
  Queries_DeleteOverwritesForTarget guildID OverwriteTargetMember userID;;
  affected ← Queries_RemoveGuildMember guildID userID;
  refuse_if (affected =? 0) ENotFound;;
  Publisher_Queue (events svc)
    (event_for "GUILD_DELETE" AudUsers guildID [userID] (PGuildDeleted guildID));;
  Publisher_Queue (events svc)
    (event_for "GUILD_MEMBER_REMOVE" AudGuild guildID [] (PMemberRemoved guildID userID)).

Definition Service_RemoveMember (svc : Service) (actor guildID userID : Z) : M unit :=
  RunInTx (RemoveMember_tx svc actor guildID userID).

(** ** Ownership (ownership.go) *)

Definition TransferOwnership_tx (svc : Service) (actor guildID to : Z) : M Guild :=
  allowed ← Authorize actor guildID 0 PermViewChannel;
  unlocked ← no_rows_as ENotFound (Queries_GetGuild guildID);
  refuse_if (negb (guild_owner_id unlocked =? actor) && negb (Decision_InstanceAdmin allowed)) EForbidden;;
  guild ← no_rows_as ENotFound (Queries_GetGuildForNoKeyUpdate guildID);
  let from := guild_owner_id guild in
  refuse_if (negb (from =? actor) && negb (Decision_InstanceAdmin allowed)) EForbidden;;
  refuse_if (to =? from) EBadRequest;;
  live ← Queries_IsLiveGuildMember guildID to;
  refuse_if (negb live) ENotFound;;
  Queries_LockAccountOwnership to;;
  owned ← Queries_CountGuildsOwnedBy to;
  refuse_if (maxGuildsPerAccount svc <=? owned) EGuildFull;;
  row ← no_rows_as ENotFound (Queries_TransferGuildOwnership to guildID from);
  Service_writeAudit guildID actor "guild.owner_transfer" (Some guildID)
    (Some (auditDiff_changed "owner_id" (AVInt from) (AVInt to) ∅));;
  let out := guildFromRow row in
  Publisher_Queue (events svc) (event_for "GUILD_UPDATE" AudGuild (Guild_ID out) [] (PGuild out));;
  Service_queuePermissions svc (Guild_ID out);;
  mret out.

Definition Service_TransferOwnership (svc : Service) (actor guildID to : Z) : M Guild :=
  RunInTx (TransferOwnership_tx svc actor guildID to).

(** ** What each operation did, if it returned *)

Definition grants_after (assigning : bool) (g u role : Z) (m : gset (Z * Z * Z)) : gset (Z * Z * Z) :=
  if assigning then {[(g, u, role)]} ∪ m else m ∖ {[(g, u, role)]}.

(** The tables change, and an entry is written, only if the grant was not already as asked. *)
Definition changeMemberRole_effect (svc : Service) (a g u role : Z) (assigning : bool) (t : Tables)
    (out : Member) (t' : Tables) (evs : list (Event Payload)) : Prop :=
  exists d r m,
    granted t a g 0 PermManageRoles d /\
    get_role t role g = Some r /\ role_is_default r = false /\
    Decision_Outranks d (role_position r) = true /\
    t_members t !! (g, u) = Some m /\
    (u = a \/ Decision_OutranksMember d u (standing_of t g u) = true) /\
    (assigning = true -> Known (PermissionFromInt64 (role_permissions r)) = true /\
       Decision_Allows d (PermissionFromInt64 (role_permissions r)) = true) /\
    may_remove_overwrites t g d OverwriteTargetRole role /\
    (if Bool.eqb assigning (bool_decide ((g, u, role) ∈ t_member_roles t)) then t' = t
     else exists aid, t_audit t !! aid = None /\
       t' = audited aid (entry g a (if assigning then "member.role_add" else "member.role_remove")
                           (Some u) (Some (auditDiff_context "role_id" (AVInt role) ∅)))
              (set_member_roles (grants_after assigning g u role (t_member_roles t)) t)) /\
    out = memberFromRow m (merge_sort Z.le (member_role_ids t' g u)) /\
    evs = when (events svc)
            [event_for "GUILD_MEMBER_UPDATE" AudGuild g [] (PMember out);
             event_for "GUILD_PERMISSIONS_UPDATE" AudGuild g [] (PPermissionsUpdated g)].

Lemma wp_standing g u (Q : Z -> St -> Prop) s :
  (forall fs m, t_members (tabs s) !! (g, u) = Some m -> Q (standing_of (tabs s) g u) (with_faults fs s)) ->
  wp (Queries_GetMemberHighestRolePosition g u) Q s.
Proof.
  intros HQ. unfold Queries_GetMemberHighestRolePosition. wp_steps.
  destruct (t_members (tabs s) !! (g, u)) eqn:E; [|done]. simplify_eq. by eapply HQ.
Qed.

Lemma wp_refuse_outranked_member d g u (Q : unit -> St -> Prop) s :
  (forall fs m, t_members (tabs s) !! (g, u) = Some m ->
     Decision_OutranksMember d u (standing_of (tabs s) g u) = true -> Q tt (with_faults fs s)) ->
  wp (refuse_outranked_member d g u) Q s.
Proof.
  intros HQ. unfold refuse_outranked_member. wp_step. wp_step. apply wp_standing. intros fs m Hm.
  wp_steps. bool_hyps. by eapply HQ.
Qed.

(** The write, for both directions, and the entry it leads to. *)
Lemma wp_grant_write assigning g u role r m a (Q : unit -> St -> Prop) s :
  t_members (tabs s) !! (g, u) = Some m -> get_role (tabs s) role g = Some r ->
  role_is_default r = false ->
  (forall fs gn c t',
     (if Bool.eqb assigning (bool_decide ((g, u, role) ∈ t_member_roles (tabs s))) then t' = tabs s
      else exists aid, t_audit (tabs s) !! aid = None /\
       t' = audited aid (entry g a (if assigning then "member.role_add" else "member.role_remove")
                           (Some u) (Some (auditDiff_context "role_id" (AVInt role) ∅)))
              (set_member_roles (grants_after assigning g u role (t_member_roles (tabs s))) (tabs s))) ->
     Q tt (with_tabs t' (with_faults fs (with_gen gn c s)))) ->
  wp (changed ← (if assigning then Queries_AssignRoleToMember g u role
                 else Queries_UnassignRoleFromMember g u role);
      if 0 <? changed then
        Service_writeAudit g a (if assigning then "member.role_add" else "member.role_remove")
          (Some u) (Some (auditDiff_context "role_id" (AVInt role) ∅))
      else mret tt) Q s.
Proof.
  intros Hm Hr Hd HQ.
  assert (with_gen (gen s) (clock s) s = s) as Hg by (by destruct s).
  wp_step. wp_step; destruct assigning; try discriminate; wp_step; st_simpl.
  - match goal with H : _ = inr _ |- _ => rewrite Hm, Hr, Hd in H; rename H into Hw end.
    case_decide as Hin; simplify_eq; [rewrite bool_decide_eq_true_2 in HQ by done|
      rewrite bool_decide_eq_false_2 in HQ by done]; cbn [Z.ltb Z.compare].
    + apply wp_ret. specialize (HQ fs (gen s) (clock s) (tabs s) eq_refl). by rewrite Hg in HQ.
    + apply wp_writeAudit. intros. st_simpl. apply (HQ _ gn c). by eexists.
  - match goal with H : _ = inr _ |- _ => rename H into Hw end.
    case_decide as Hin; simplify_eq; [rewrite bool_decide_eq_true_2 in HQ by done|
      rewrite bool_decide_eq_false_2 in HQ by done]; cbn [Z.ltb Z.compare].
    + apply wp_writeAudit. intros. st_simpl. apply (HQ _ gn c). by eexists.
    + apply wp_ret. specialize (HQ fs (gen s) (clock s) (tabs s) eq_refl). by rewrite Hg in HQ.
Qed.

Lemma wp_assoc {A B C} (m : M A) (k1 : A -> M B) (k2 : B -> M C) (Q : C -> St -> Prop) s :
  wp (x ← (y ← m; k1 y); k2 x) Q s -> wp (y ← m; x ← k1 y; k2 x) Q s.
Proof. unfold wp, mbind, M_bind. by destruct (m s) as [[]]. Qed.

Lemma wp_changeMemberRole_tx svc a g u role assigning s :
  wf (tabs s) -> hooks s = [] ->
  wp (changeMemberRole_tx svc a g u role assigning)
    (fun out s' => changeMemberRole_effect svc a g u role assigning (tabs s) out (tabs s') (hooks s')) s.
Proof.
  intros Hwf Hh. unfold changeMemberRole_tx. wp_step. apply wp_Authorize; [done|]. intros fs d Hd. st_simpl.
  do 9 (wp_step; cbn beta; st_simpl). rename a0 into r. apply wp_standing. intros fs1 m Hm. st_simpl. wp_step. wp_step. wp_step.
  assert (forall Q s, ((assigning = true -> Known (PermissionFromInt64 (role_permissions r)) = true /\
            Decision_Allows d (PermissionFromInt64 (role_permissions r)) = true) -> Q tt s) ->
    wp (if assigning then refuseEscalation d (PermissionFromInt64 (role_permissions r)) else mret tt) Q s) as Hp.
  { intros Q s0 HQ. destruct assigning; [apply wp_refuseEscalation; auto|by apply HQ]. }
  apply Hp. clear Hp. intros Hp. wp_step. apply wp_refuseRemoving. intros fs2 Hrm. st_simpl.
  apply wp_assoc. wp_step. eapply wp_grant_write; [done|done|by bool_hyps|].
  intros fs3 gn c t' Ht'. st_simpl. unfold member_event. wp_steps. apply wp_queuePermissions.
  wp_steps. rewrite Hh. exists d, r, m. bool_hyps.
  match goal with H : t_members t' !! (g, u) = Some ?x |- _ => rename H into Hm'; rename x into m' end.
  assert (m' = m) as ->.
  { destruct (Bool.eqb _ _); [subst t'|destruct Ht' as (aid & _ & ->); cbn in Hm']; congruence. }
  split_and!; try done.
  - match goal with H : negb _ && negb _ = false |- _ => apply andb_false_iff in H as [?|?] end;
      bool_hyps; auto.
  - by destruct (events svc).
Qed.

Definition UpdateMember_effect (svc : Service) (a g u : Z) (r : UpdateMemberInput) (t : Tables)
    (out : Member) (t' : Tables) (evs : list (Event Payload)) : Prop :=
  exists d aid m,
    update_member_need r <> 0 /\ granted t a g 0 (update_member_need r) d /\
    t_members t !! (g, u) = Some m /\
    (self_nickname_only a u r = true \/ Decision_OutranksMember d u (standing_of t g u) = true) /\
    t_audit t !! aid = None /\
    t' = audited aid (entry g a "member.update" (Some u) (Some (updated_member_diff m r)))
           (set_members (<[(g, u) := updated_member (update_member_params g u r) m]> (t_members t)) t) /\
    out = memberFromRow (updated_member (update_member_params g u r) m)
            (merge_sort Z.le (member_role_ids t g u)) /\
    evs = when (events svc) [event_for "GUILD_MEMBER_UPDATE" AudGuild g [] (PMember out)].

Lemma wp_UpdateMember_tx svc a g u r s :
  wf (tabs s) -> hooks s = [] ->
  wp (UpdateMember_tx svc a g u r)
    (fun out s' => UpdateMember_effect svc a g u r (tabs s) out (tabs s') (hooks s')) s.
Proof.
  intros Hwf Hh. unfold UpdateMember_tx. wp_steps. apply wp_Authorize; [done|]. intros fs d Hd. st_simpl.
  wp_step.
  assert (forall Q, (forall fs, (self_nickname_only a u r = true \/
            Decision_OutranksMember d u (standing_of (tabs s) g u) = true) -> Q tt (with_faults fs s)) ->
    wp (if negb (self_nickname_only a u r) then refuse_outranked_member d g u else mret tt) Q
       (with_faults fs s)) as Hp.
  { intros Q HQ. destruct (self_nickname_only a u r); cbn [negb]; [wp_steps; auto|].
    apply wp_refuse_outranked_member. intros. st_simpl. apply HQ. auto. }
  apply Hp. clear Hp. intros fs1 Hp. wp_steps.
  match goal with H : context [um_GuildID] |- _ => cbn in H; rename H into Hu end.
  match goal with H : t_members (tabs s) !! (g, u) = Some ?x |- _ =>
    rewrite H in Hu; rename H into Hm; rename x into m end. simplify_eq.
  apply wp_writeAudit. intros. st_simpl. unfold member_event. wp_steps. rewrite Hh. bool_hyps.
  exists d, id, m. cbn in *. split_and!; try done.
Qed.

Definition RemoveMember_effect (svc : Service) (a g u : Z) (t t' : Tables)
    (evs : list (Event Payload)) : Prop :=
  exists d aid gr m,
    (if u =? a then granted t a g 0 0 d
     else granted t a g 0 PermKickMembers d /\ Decision_OutranksMember d u (standing_of t g u) = true) /\
    t_guilds t !! g = Some gr /\ guild_owner_id gr <> u /\
    t_members t !! (g, u) = Some m /\
    t_audit t !! aid = None /\
    t' = without_member g u (without_overwrites_for g OverwriteTargetMember u
           (audited aid (entry g a "member.remove" (Some u) (Some (removed_member_diff m))) t)) /\
    evs = when (events svc)
            [event_for "GUILD_DELETE" AudUsers g [u] (PGuildDeleted g);
             event_for "GUILD_MEMBER_REMOVE" AudGuild g [] (PMemberRemoved g u)].

Lemma wp_RemoveMember_tx svc a g u s :
  wf (tabs s) -> hooks s = [] ->
  wp (RemoveMember_tx svc a g u)
    (fun _ s' => RemoveMember_effect svc a g u (tabs s) (tabs s') (hooks s')) s.
Proof.
  intros Hwf Hh. unfold RemoveMember_tx. wp_step.
  assert (forall Q, (forall fs d,
     (if u =? a then granted (tabs s) a g 0 0 d
      else granted (tabs s) a g 0 PermKickMembers d /\
           Decision_OutranksMember d u (standing_of (tabs s) g u) = true) -> Q tt (with_faults fs s)) ->
    wp (if u =? a then Authorize a g 0 0;; mret tt
        else allowed ← Authorize a g 0 PermKickMembers; refuse_outranked_member allowed g u) Q s) as Hp.
  { intros Q HQ. destruct (u =? a).
    - wp_step. apply wp_Authorize; [done|]. intros fs d Hd. wp_steps. by eapply HQ.
    - wp_step. apply wp_Authorize; [done|]. intros fs d Hd. apply wp_refuse_outranked_member.
      intros. st_simpl. eapply (HQ _ d). auto. }
  apply Hp. clear Hp. intros fs d Hd. wp_steps. apply wp_writeAudit. intros. st_simpl. wp_steps.
  match goal with H : t_members (tabs s) !! (g, u) = Some ?x |- _ => rename H into Hm; rename x into m end.
  match goal with H : match t_members _ !! (g, u) with _ => _ end = _ |- _ =>
    cbn in H; rewrite Hm in H; simplify_eq end.
  bool_hyps. exists d, id, a0, m. rewrite Hh. split_and!; try done. by destruct (events svc).
Qed.

Definition TransferOwnership_effect (svc : Service) (a g to : Z) (t : Tables) (out : Guild)
    (t' : Tables) (evs : list (Event Payload)) : Prop :=
  exists d aid gr,
    granted t a g 0 PermViewChannel d /\ t_guilds t !! g = Some gr /\
    (guild_owner_id gr = a \/ instanceAdmin d = true) /\ to <> guild_owner_id gr /\
    is_Some (t_members t !! (g, to)) /\ live_account t to = true /\
    count (filter (fun kv => guild_owner_id kv.2 = to) (map_to_list (t_guilds t)))
      < maxGuildsPerAccount svc /\
    t_audit t !! aid = None /\
    t' = audited aid (entry g a "guild.owner_transfer" (Some g)
           (Some (auditDiff_changed "owner_id" (AVInt (guild_owner_id gr)) (AVInt to) ∅)))
           (set_guilds (<[g := with_owner to gr]> (t_guilds t)) t) /\
    out = guildFromRow (with_owner to gr) /\
    evs = when (events svc)
            [event_for "GUILD_UPDATE" AudGuild (guild_id gr) [] (PGuild out);
             event_for "GUILD_PERMISSIONS_UPDATE" AudGuild (guild_id gr) []
               (PPermissionsUpdated (guild_id gr))].

Lemma wp_TransferOwnership_tx svc a g to s :
  wf (tabs s) -> hooks s = [] ->
  wp (TransferOwnership_tx svc a g to)
    (fun out s' => TransferOwnership_effect svc a g to (tabs s) out (tabs s') (hooks s')) s.
Proof.
  intros Hwf Hh. unfold TransferOwnership_tx. wp_step. apply wp_Authorize; [done|]. intros fs d Hd. st_simpl.
  wp_steps. rename a0 into gr.
  repeat match goal with H : t_guilds (tabs s) !! g = Some ?x |- _ =>
    assert_fails (constr_eq x gr); assert (x = gr) as -> by congruence; clear H end.
  match goal with H : match t_guilds _ !! g with _ => _ end = _ |- _ => rename H into Htr end.
  match goal with H : t_guilds (tabs s) !! g = Some gr |- _ => rename H into Hg; rewrite Hg in Htr end.
  bool_hyps. rewrite Z.eqb_refl in Htr. cbn in Htr.
  destruct (bool_decide (is_Some (t_members (tabs s) !! (g, to)))) eqn:Hm; [|done].
  destruct (live_account (tabs s) to) eqn:Hl; [|done]. cbn in Htr. simplify_eq.
  apply wp_writeAudit. intros. st_simpl. wp_steps. apply wp_queuePermissions. wp_steps.
  exists d, id, gr. rewrite Hh. bool_hyps. split_and!; try done; try lia.
  - match goal with H : negb _ && negb _ = false |- _ => apply andb_false_iff in H as [?|?] end;
      bool_hyps; auto.
  - by destruct (events svc).
Qed.

Lemma quiet_refuse_outranked_member d g u : quiet (refuse_outranked_member d g u).
Proof. unfold refuse_outranked_member. quiet_steps. Qed.
#[export] Hint Resolve quiet_refuse_outranked_member : norite.
Lemma quiet_changeMemberRole_tx svc a g u role b : quiet (changeMemberRole_tx svc a g u role b).
Proof. unfold changeMemberRole_tx, member_event. quiet_steps. Qed.
Lemma quiet_UpdateMember_tx svc a g u r : quiet (UpdateMember_tx svc a g u r).
Proof. unfold UpdateMember_tx, member_event. quiet_steps. Qed.
Lemma quiet_RemoveMember_tx svc a g u : quiet (RemoveMember_tx svc a g u).
Proof. unfold RemoveMember_tx. quiet_steps. Qed.
Lemma quiet_TransferOwnership_tx svc a g to : quiet (TransferOwnership_tx svc a g to).
Proof. unfold TransferOwnership_tx. quiet_steps. Qed.
#[export] Hint Resolve quiet_changeMemberRole_tx quiet_UpdateMember_tx quiet_RemoveMember_tx
  quiet_TransferOwnership_tx : norite.
