(* ===== verification/GuildSvc.v ===== *)
(** backend/internal/guilds/guild.go: a guild's own life, from creation to deletion. *)
From S2P Require Import Prelude GoStd Permissions Snowflake Rows TxMonad Queries.
From S2P Require Import Resolve StoreInv Authority ResolveMany GuildAuth GuildCommon.

(** ** Operations *)

Definition defaultEveryonePermissions : Z :=
  PermViewChannel ∪ₚ PermReadMessageHistory ∪ₚ PermSendMessages ∪ₚ PermConnectVoice ∪ₚ PermSpeakVoice.

Record CreateGuildInput := mkCreateGuildInput { cgi_Name : string; cgi_Description : option string }.

(** The default role of a new guild. *)
Definition everyone_role (roleID guildID : Z) : dbRole :=
  mkDbRole roleID guildID "@everyone" 0 (Permission_Int64 defaultEveryonePermissions) 0 false true true.

Definition created_guild_diff (r : CreateGuildInput) : auditDiff :=
  let d := auditDiff_created "name" (AVString (cgi_Name r)) ∅ in
  match cgi_Description r with
  | Some x => auditDiff_created "description" (AVString x) d
  | None => d
  end.

(** [if errors.Is(err, a unique violation) { return ErrAlreadyAMember }] *)
Definition unique_as {A} (e : Err) (m : M A) : M A := fun s =>
  match m s with
  | (inl EUnique, s') => (inl e, s')
  | r => r
  end.

Definition Create_tx (svc : Service) (actor : Z) (r : CreateGuildInput) (guildID roleID : Z) : M Guild :=
  Queries_LockAccountOwnership actor;;
  owned ← Queries_CountGuildsOwnedBy actor;
  refuse_if (maxGuildsPerAccount svc <=? owned) EGuildFull;;
  joined ← Queries_CountGuildsJoinedBy actor;
  refuse_if (maxJoinedGuildsPerAccount svc <=? joined) EGuildFull;;
  row ← Queries_CreateGuild guildID (cgi_Name r) actor (cgi_Description r);
  Queries_CreateRole (everyone_role roleID guildID);;
  unique_as EAlreadyAMember (Queries_AddGuildMember guildID actor None);;
  Service_writeAudit guildID actor "guild.create" (Some guildID) (Some (created_guild_diff r));;
  let out := guildFromRow row in
  Publisher_Queue (events svc)
    (event_for "GUILD_CREATE" AudUsers (Guild_ID out) [Guild_OwnerID out] (PGuild out));;
  mret out.

Definition Service_Create (svc : Service) (actor : Z) (r : CreateGuildInput) : M Guild :=
  guildID ← ids_Next;
  roleID ← ids_Next;
  RunInTx (Create_tx svc actor r guildID roleID).

Definition Service_Get (actor guildID : Z) : M Guild :=
  Service_authorize actor guildID 0 0;;
  row ← no_rows_as ENotFound (Queries_GetGuild guildID);
  mret (guildFromRow row).

Record UpdateGuildInput := mkUpdateGuildInput {
  ugi_Name : option string; ugi_Description : option string; ugi_ClearDescription : bool;
  ugi_MessageAuditEnabled : option bool
}.

Definition mayFlipMessageAudit (actor : Z) (existing : dbGuild) : bool :=
  guild_owner_id existing =? actor.

Definition updated_guild_diff (existing : dbGuild) (r : UpdateGuildInput) : auditDiff :=
  let d := changed_if AVString "name" (AVString (guild_name existing)) (ugi_Name r) ∅ in
  if ugi_ClearDescription r
  then auditDiff_changed "description" (orNil AVString (guild_description existing)) AVNil d
  else changed_if AVString "description" (orNil AVString (guild_description existing))
         (ugi_Description r) d.

(** The recording flag the request asks for, if that differs from the guild's. *)
Definition recording_toggled (existing : dbGuild) (r : UpdateGuildInput) : option bool :=
  match ugi_MessageAuditEnabled r with
  | Some want => if Bool.eqb want (guild_message_audit_enabled existing) then None else Some want
  | None => None
  end.

Definition update_guild_params (guildID : Z) (r : UpdateGuildInput) : UpdateGuildParams :=
  mkUpdateGuildParams guildID (ugi_Name r) (ugi_Description r) (ugi_ClearDescription r)
    (ugi_MessageAuditEnabled r).

Definition toggle_action (want : bool) : string :=
  if want then "guild.message_audit_enable" else "guild.message_audit_disable".

Definition toggle_diff (existing : dbGuild) (want : bool) : auditDiff :=
  auditDiff_changed "message_audit_enabled" (AVBool (guild_message_audit_enabled existing))
    (AVBool want) ∅.

Definition Update_tx (svc : Service) (actor guildID : Z) (r : UpdateGuildInput) : M Guild :=
  Authorize actor guildID 0 PermManageGuild;;
  existing ← no_rows_as ENotFound (Queries_GetGuildForUpdate guildID);
  Authorize actor guildID 0 PermManageGuild;;
  refuse_if (bool_decide (is_Some (ugi_MessageAuditEnabled r)) && negb (mayFlipMessageAudit actor existing))
    EForbidden;;
  row ← no_rows_as ENotFound (Queries_UpdateGuild (update_guild_params guildID r));
  let changes := updated_guild_diff existing r in
  let toggled := recording_toggled existing r in
  (if bool_decide (changes <> ∅) || bool_decide (toggled = None)
   then Service_writeAudit guildID actor "guild.update" (Some guildID) (Some changes)
   else mret tt);;
  match toggled with
  | Some want =>
      Service_writeAudit guildID actor (toggle_action want) (Some guildID) (Some (toggle_diff existing want))
  | None => mret tt
  end;;
  let out := guildFromRow row in
  Publisher_Queue (events svc) (event_for "GUILD_UPDATE" AudGuild (Guild_ID out) [] (PGuild out));;
  mret out.

Definition Service_Update (svc : Service) (actor guildID : Z) (r : UpdateGuildInput) : M Guild :=
  RunInTx (Update_tx svc actor guildID r).

Definition Delete_tx (svc : Service) (actor guildID : Z) : M unit :=
  allowed ← Authorize actor guildID 0 PermViewChannel;
  refuse_if (negb (Decision_InstanceAdmin allowed) && negb (Decision_Owns allowed)) EForbidden;;
  guild ← no_rows_as ENotFound (Queries_GetGuildForUpdate guildID);
  refuse_if (negb (Decision_InstanceAdmin allowed) && negb (guild_owner_id guild =? actor)) EForbidden;;
  Service_writeAudit guildID actor "guild.delete" (Some guildID) None;;
  affected ← Queries_DeleteGuild guildID;
  refuse_if (affected =? 0) ENotFound;;
  Publisher_Queue (events svc)
    (event_for "GUILD_DELETE" AudFormerMembers guildID [] (PGuildDeleted guildID)).

Definition Service_Delete (svc : Service) (actor guildID : Z) : M unit :=
  RunInTx (Delete_tx svc actor guildID).

Definition Service_ListForMember (userID : Z) : M (list Guild) :=
  rows ← Queries_ListGuildsForMember userID;
  mret (guildFromRow <$> rows).

(** ** What each operation did, if it returned *)

Definition Create_effect (svc : Service) (a : Z) (r : CreateGuildInput) (gid rid : Z) (t : Tables)
    (out : Guild) (t' : Tables) (evs : list (Event Payload)) : Prop :=
  exists aid,
    let row := mkDbGuild gid (cgi_Name r) a (cgi_Description r) false in
    count (filter (fun kv => guild_owner_id kv.2 = a) (map_to_list (t_guilds t)))
      < maxGuildsPerAccount svc /\
    count (filter (fun kv => kv.1.2 = a) (map_to_list (t_members t))) < maxJoinedGuildsPerAccount svc /\
    t_guilds t !! gid = None /\ is_Some (t_users t !! a) /\
    t_roles t !! rid = None /\ t_members t !! (gid, a) = None /\ t_audit t !! aid = None /\
    t' = audited aid (entry gid a "guild.create" (Some gid) (Some (created_guild_diff r)))
           (set_members (<[(gid, a) := mkDbGuildMember gid a None false false]> (t_members t))
           (set_roles (<[rid := everyone_role rid gid]> (t_roles t))
           (set_guilds (<[gid := row]> (t_guilds t)) t))) /\
    out = guildFromRow row /\
    evs = when (events svc) [event_for "GUILD_CREATE" AudUsers gid [a] (PGuild out)].

Lemma wp_unique_as {A} e (m : M A) Q s : wp m Q s -> wp (unique_as e m) Q s.
Proof. unfold wp, unique_as. by destruct (m s) as [[[]|a] s']. Qed.

Lemma wp_Create_tx svc a r gid rid s :
  hooks s = [] ->
  wp (Create_tx svc a r gid rid)
    (fun out s' => Create_effect svc a r gid rid (tabs s) out (tabs s') (hooks s')) s.
Proof.
  intros Hh. unfold Create_tx. wp_steps. apply wp_unique_as. wp_steps.
  destruct (t_guilds (tabs s) !! gid) eqn:Hg; [done|].
  destruct (decide (is_Some (t_users (tabs s) !! a))) as [Hu|]; [|done]. simplify_eq. cbn in *.
  destruct (t_roles (tabs s) !! rid) eqn:Hr; [done|].
  destruct (decide (is_Some (<[gid := _]> _ !! gid))); [|done]. simplify_eq. cbn in *.
  destruct (t_members (tabs s) !! (gid, a)) eqn:Hm; [done|].
  case_decide; [|done]. simplify_eq. apply wp_writeAudit. intros. st_simpl. wp_steps.
  exists id. rewrite Hh. bool_hyps. cbn in *. split_and!; try done; lia.
Qed.

(** The entries an update writes: the changes, unless it only flips recording, and the flip. *)
Definition update_entries (a g : Z) (existing : dbGuild) (r : UpdateGuildInput) : list AuditRow :=
  (if bool_decide (updated_guild_diff existing r <> ∅) || bool_decide (recording_toggled existing r = None)
   then [entry g a "guild.update" (Some g) (Some (updated_guild_diff existing r))] else []) ++
  match recording_toggled existing r with
  | Some want => [entry g a (toggle_action want) (Some g) (Some (toggle_diff existing want))]
  | None => []
  end.

(** Several entries, under new ids. *)
Fixpoint audited_all (ids : list Z) (rows : list AuditRow) (t : Tables) : Tables :=
  match ids, rows with
  | id :: ids, row :: rows => audited_all ids rows (audited id row t)
  | _, _ => t
  end.

Definition Update_effect (svc : Service) (a g : Z) (r : UpdateGuildInput) (t : Tables)
    (out : Guild) (t' : Tables) (evs : list (Event Payload)) : Prop :=
  exists d existing ids,
    granted t a g 0 PermManageGuild d /\ t_guilds t !! g = Some existing /\
    (is_Some (ugi_MessageAuditEnabled r) -> guild_owner_id existing = a) /\
    length ids = length (update_entries a g existing r) /\
    NoDup ids /\ (forall id, id ∈ ids -> t_audit t !! id = None) /\
    t' = audited_all ids (update_entries a g existing r)
           (set_guilds (<[g := updated_guild (update_guild_params g r) existing]> (t_guilds t)) t) /\
    out = guildFromRow (updated_guild (update_guild_params g r) existing) /\
    evs = when (events svc) [event_for "GUILD_UPDATE" AudGuild (guild_id existing) [] (PGuild out)].

Lemma wp_Update_tx svc a g r s :
  wf (tabs s) -> hooks s = [] ->
  wp (Update_tx svc a g r)
    (fun out s' => Update_effect svc a g r (tabs s) out (tabs s') (hooks s')) s.
Proof.
  intros Hwf Hh. unfold Update_tx. wp_step. apply wp_Authorize; [done|]. intros fs d Hd. st_simpl.
  wp_steps. rename a0 into existing. apply wp_Authorize; [done|]. intros fs1 d1 Hd1. wp_step. wp_step.
  match goal with H : t_guilds _ !! g = Some existing |- _ => rename H into Hg end.
  match goal with H : _ && _ = false |- _ => rename H into Hflip end.
  assert (is_Some (ugi_MessageAuditEnabled r) -> guild_owner_id existing = a) as Hown.
  { intros Hs. rewrite bool_decide_eq_true_2 in Hflip by done. simpl in Hflip. bool_hyps.
    unfold mayFlipMessageAudit in *. by bool_hyps. }
  wp_step. wp_step. wp_step. cbn beta in *. st_simpl.
  match goal with H : context [ug_ID] |- _ => cbn in H; rewrite Hg in H; simplify_eq end.
  wp_step.
  destruct (bool_decide (updated_guild_diff existing r <> ∅)
            || bool_decide (recording_toggled existing r = None)) eqn:Eb.
  - apply wp_writeAudit. intros. st_simpl. wp_step. destruct (recording_toggled existing r) as [want|] eqn:Et.
    + apply wp_writeAudit. intros fs9 id2 gn2 c2 Hid2 _. st_simpl. wp_steps. rewrite Hh.
      cbn in Hid2. apply lookup_insert_None in Hid2 as [Hid2 Hne].
      exists d, existing, [id; id2].
      unfold update_entries. rewrite Et, Eb. split_and!; try done.
      * apply NoDup_cons. split; [by rewrite list_elem_of_singleton|apply NoDup_singleton].
      * intros x Hx. apply elem_of_cons in Hx as [->|Hx%list_elem_of_singleton]; [done|by subst].
    + wp_steps. rewrite Hh. exists d, existing, [id].
      unfold update_entries. rewrite Et, Eb. split_and!; try done.
      * apply NoDup_singleton.
      * by intros x ->%list_elem_of_singleton.
  - wp_step. wp_step. destruct (recording_toggled existing r) as [want|] eqn:Et.
    + apply wp_writeAudit. intros fs9 id2 gn2 c2 Hid2 _. st_simpl. wp_steps. rewrite Hh.
      exists d, existing, [id2].
      unfold update_entries. rewrite Et, Eb. split_and!; try done.
      * apply NoDup_singleton.
      * by intros x ->%list_elem_of_singleton.
    + wp_steps. rewrite Hh. exists d, existing, [].
      unfold update_entries. rewrite Et, Eb. split_and!; try done.
      * apply NoDup_nil_2.
      * by intros x []%elem_of_nil.
Qed.

Definition Delete_effect (svc : Service) (a g : Z) (t t' : Tables) (evs : list (Event Payload)) : Prop :=
  exists d aid gr,
    granted t a g 0 PermViewChannel d /\ t_guilds t !! g = Some gr /\
    (instanceAdmin d = true \/ guild_owner_id gr = a) /\ t_audit t !! aid = None /\
    t' = without_guild g (audited aid (entry g a "guild.delete" (Some g) None) t) /\
    evs = when (events svc) [event_for "GUILD_DELETE" AudFormerMembers g [] (PGuildDeleted g)].

Lemma wp_Delete_tx svc a g s :
  wf (tabs s) -> hooks s = [] ->
  wp (Delete_tx svc a g)
    (fun _ s' => Delete_effect svc a g (tabs s) (tabs s') (hooks s')) s.
Proof.
  intros Hwf Hh. unfold Delete_tx. wp_step. apply wp_Authorize; [done|]. intros fs d Hd. st_simpl.
  wp_steps. rename a0 into gr. apply wp_writeAudit. intros. st_simpl. wp_steps.
  match goal with H : t_guilds (tabs s) !! g = Some gr |- _ => rename H into Hg end.
  match goal with H : match t_guilds _ !! g with _ => _ end = _ |- _ =>
    cbn in H; rewrite Hg in H; simplify_eq end.
  exists d, id, gr. rewrite Hh. split_and!; try done.
  - match goal with H : _ && negb (guild_owner_id gr =? a) = false |- _ =>
      apply andb_false_iff in H as [H|H] end; unfold Decision_InstanceAdmin in *; bool_hyps; auto.
Qed.

Lemma quiet_unique_as {A} e (m : M A) : quiet m -> quiet (unique_as e m).
Proof. intros Hm s. unfold unique_as. specialize (Hm s). by destruct (m s) as [[[]|a] s']. Qed.
Lemma quiet_Create_tx svc a r gid rid : quiet (Create_tx svc a r gid rid).
Proof. unfold Create_tx. quiet_steps. apply quiet_unique_as. quiet_steps. Qed.
Lemma quiet_Update_tx svc a g r : quiet (Update_tx svc a g r).
Proof. unfold Update_tx. quiet_steps. Qed.
Lemma quiet_Delete_tx svc a g : quiet (Delete_tx svc a g).
Proof. unfold Delete_tx. quiet_steps. Qed.
#[export] Hint Resolve quiet_Create_tx quiet_Update_tx quiet_Delete_tx : norite.
