(* ===== verification/ChannelSvc.v ===== *)
(** backend/internal/guilds/channel.go: a guild's channels, what of them a member sees, and what a
    category hands to the channels made in it. *)
From S2P Require Import Prelude GoStd Permissions Snowflake Rows TxMonad Queries.
From S2P Require Import Resolve StoreInv Authority ResolveMany GuildAuth GuildCommon.

(** ** Operations *)

Definition Service_ListChannels (actor guildID : Z) : M (list Channel) :=
  allowed ← Authorize actor guildID 0 0;
  rows ← Queries_ListGuildChannels guildID;
  match rows with
  | [] => mret []
  | _ =>
      overwrites ← Queries_ListGuildPermissionOverwrites (channel_id <$> rows) guildID;
      mret (omap (fun row =>
        let own := rows_of (channel_id row) overwrites in
        if negb (Decision_AllowsInChannel allowed (channel_id row) own PermViewChannel) then None
        else Some (with_overwrites own (channelFromRow row))) rows)
  end.

Record CreateChannelInput := mkCreateChannelInput {
  cci_Name : string; cci_Type : Z; cci_Topic : option string; cci_ParentID : option Z;
  cci_Position : Z; cci_NSFW : bool; cci_Bitrate : option Z; cci_UserLimit : option Z
}.

Definition new_channel (id g : Z) (r : CreateChannelInput) : dbChannel :=
  mkDbChannel id (Some g) (cci_Type r) (cci_ParentID r) (Some (cci_Name r)) (cci_Topic r)
    (cci_Position r) (cci_NSFW r) (cci_Bitrate r) (cci_UserLimit r).

(** [if v != nil { changes.created(field, *v) }] *)
Definition created_if {A} (inj : A -> AuditValue) (field : string) (v : option A) (d : auditDiff)
    : auditDiff :=
  match v with Some x => auditDiff_created field (inj x) d | None => d end.

Definition created_channel_diff (r : CreateChannelInput) : auditDiff :=
  let d := auditDiff_created "nsfw" (AVBool (cci_NSFW r))
           (auditDiff_created "position" (AVInt (cci_Position r))
           (auditDiff_created "type" (AVInt (cci_Type r))
           (auditDiff_created "name" (AVString (cci_Name r)) ∅))) in
  let d := created_if AVInt "user_limit" (cci_UserLimit r)
           (created_if AVInt "bitrate" (cci_Bitrate r)
           (created_if AVString "topic" (cci_Topic r) d)) in
  match cci_ParentID r with
  | Some p => auditDiff_context "parent_id" (AVInt p) d
  | None => d
  end.

(** The check of a wanted parent: a category of this guild the actor may see and manage. Every
    failure of the view check, a database one included, is the bad request of an unusable id. *)
Definition check_parent (actor guildID type parentID : Z) : M unit :=
  parent ← no_rows_as EBadRequest (Queries_GetChannel parentID);
  refuse_if (negb (bool_decide (channel_guild_id parent = Some guildID))) EBadRequest;;
  view_or ← attempt (Authorize actor guildID parentID PermViewChannel);
  match view_or with
  | inl _ => throw EBadRequest
  | inr _ =>
      refuse_if (negb (channel_type parent =? ChannelGuildCategory)) EBadRequest;;
      refuse_if (type =? ChannelGuildCategory) EBadRequest;;
      Authorize actor guildID parentID PermManageChannels;;
      mret tt
  end.

Definition CreateChannel_tx (svc : Service) (actor guildID : Z) (r : CreateChannelInput) (channelID : Z)
    : M Channel :=
  Authorize actor guildID 0 PermManageChannels;;
  n ← Queries_CountGuildChannels guildID;
  refuse_if (maxChannelsPerGuild svc <=? n) EGuildFull;;
  match cci_ParentID r with
  | Some parentID => check_parent actor guildID (cci_Type r) parentID
  | None => mret tt
  end;;
  row ← Queries_CreateChannel (new_channel channelID guildID r);
  match cci_ParentID r with
  | Some parentID => Queries_CopyChannelOverwrites channelID parentID guildID
  | None => mret tt
  end;;
  Service_writeAudit guildID actor "channel.create" (Some channelID) (Some (created_channel_diff r));;
  copied ← match cci_ParentID r with
           | Some _ => Queries_ListChannelPermissionOverwrites channelID guildID
           | None => mret []
           end;
  let out := with_overwrites copied (channelFromRow row) in
  Publisher_Queue (events svc) (channel_event "CHANNEL_CREATE" guildID channelID (PChannel out));;
  mret out.

Definition Service_CreateChannel (svc : Service) (actor guildID : Z) (r : CreateChannelInput) : M Channel :=
  refuse_if (negb (isGuildChannelType (cci_Type r))) EUnsupportedChannelType;;
  refuse_if (voice_only_misused (cci_Type r) (cci_Bitrate r) (cci_UserLimit r)) EBadRequest;;
  channelID ← ids_Next;
  RunInTx (CreateChannel_tx svc actor guildID r channelID).

Record UpdateChannelInput := mkUpdateChannelInput {
  uci_Name : option string; uci_Topic : option string; uci_ClearTopic : bool;
  uci_Position : option Z; uci_NSFW : option bool; uci_Bitrate : option Z; uci_UserLimit : option Z
}.

Definition updated_channel_diff (existing : dbChannel) (r : UpdateChannelInput) : auditDiff :=
  let d := changed_if AVString "name" (orNil AVString (channel_name existing)) (uci_Name r) ∅ in
  let d := if uci_ClearTopic r
           then auditDiff_changed "topic" (orNil AVString (channel_topic existing)) AVNil d
           else changed_if AVString "topic" (orNil AVString (channel_topic existing)) (uci_Topic r) d in
  changed_if AVInt "user_limit" (orNil AVInt (channel_user_limit existing)) (uci_UserLimit r)
  (changed_if AVInt "bitrate" (orNil AVInt (channel_bitrate existing)) (uci_Bitrate r)
  (changed_if AVBool "nsfw" (AVBool (channel_nsfw existing)) (uci_NSFW r)
  (changed_if AVInt "position" (AVInt (channel_position existing)) (uci_Position r) d))).

Definition update_channel_params (channelID guildID : Z) (r : UpdateChannelInput) : UpdateChannelParams :=
  mkUpdateChannelParams channelID (Some guildID) (uci_Name r) (uci_Topic r) (uci_ClearTopic r)
    (uci_Position r) (uci_NSFW r) (uci_Bitrate r) (uci_UserLimit r).

Definition UpdateChannel_tx (svc : Service) (actor channelID : Z) (r : UpdateChannelInput) : M Channel :=
  ch ← AuthorizeChannel actor channelID PermManageChannels;
  let '(existing, guildID, _) := ch in
  refuse_if (voice_only_misused (channel_type existing) (uci_Bitrate r) (uci_UserLimit r)) EBadRequest;;
  row ← no_rows_as ENotFound (Queries_UpdateChannel (update_channel_params channelID guildID r));
  Service_writeAudit guildID actor "channel.update" (Some channelID)
    (Some (updated_channel_diff existing r));;
  rows ← Queries_ListChannelPermissionOverwrites channelID guildID;
  let out := with_overwrites rows (channelFromRow row) in
  Publisher_Queue (events svc) (channel_event "CHANNEL_UPDATE" guildID channelID (PChannel out));;
  mret out.

Definition Service_UpdateChannel (svc : Service) (actor channelID : Z) (r : UpdateChannelInput)
    : M Channel :=
  RunInTx (UpdateChannel_tx svc actor channelID r).

Definition detached_event (rows : list PermissionOverwrite) (guildID : Z) (row : dbChannel)
    : Event Payload :=
  channel_event "CHANNEL_UPDATE" guildID (channel_id row)
    (PChannel (with_overwrites (rows_of (channel_id row) rows) (channelFromRow row))).

Definition Service_queueDetached (svc : Service) (guildID : Z) (children : list dbChannel) : M unit :=
  if bool_decide (children = []) || negb (events svc) then mret tt
  else
    rows ← Queries_ListGuildPermissionOverwrites (channel_id <$> children) guildID;
    for_each children (fun row => Publisher_Queue (events svc) (detached_event rows guildID row)).

Definition deleted_channel_diff (existing : dbChannel) : auditDiff :=
  auditDiff_removed "type" (AVInt (channel_type existing))
    (auditDiff_removed "name" (orNil AVString (channel_name existing)) ∅).

(** What is said of a deleted channel, with the overwrites it had. *)
Definition channel_deleted_event (guildID channelID : Z) (overwrites : list PermissionOverwrite)
    : Event Payload :=
  mkEvent "CHANNEL_DELETE" AudGuild guildID channelID 0 [] (Some overwrites) true
    (PChannelDeleted channelID guildID).

Definition DeleteChannel_tx (svc : Service) (actor channelID : Z) : M unit :=
  ch ← AuthorizeChannel actor channelID PermManageChannels;
  let '(existing, guildID, _) := ch in
  Service_writeAudit guildID actor "channel.delete" (Some channelID)
    (Some (deleted_channel_diff existing));;
  overwrites ← Queries_ListChannelPermissionOverwrites channelID guildID;
  children ← (if channel_type existing =? ChannelGuildCategory
              then Queries_DetachChildChannels channelID guildID
              else mret []);
  affected ← Queries_DeleteChannel channelID (Some guildID);
  refuse_if (affected =? 0) ENotFound;;
  Publisher_Queue (events svc) (channel_deleted_event guildID channelID overwrites);;
  Service_queueDetached svc guildID children.

Definition Service_DeleteChannel (svc : Service) (actor channelID : Z) : M unit :=
  RunInTx (DeleteChannel_tx svc actor channelID).

(** ** What each operation did, if it returned *)

(** A usable parent: a category of the guild the actor may see and manage channels in. *)
Definition parent_ok (t : Tables) (a g type p : Z) : Prop :=
  exists row, t_channels t !! p = Some row /\ channel_guild_id row = Some g /\
    channel_type row = ChannelGuildCategory /\ type <> ChannelGuildCategory /\
    (exists d, granted t a g p PermViewChannel d) /\ (exists d, granted t a g p PermManageChannels d).

Lemma wp_check_parent a g type p (Q : unit -> St -> Prop) s :
  wf (tabs s) ->
  (forall fs, parent_ok (tabs s) a g type p -> Q tt (with_faults fs s)) ->
  wp (check_parent a g type p) Q s.
Proof.
  intros Hwf HQ. unfold check_parent. wp_steps. rename a0 into row. apply wp_attempt.
  intros view_or s1 Hv. pose proof (wp_Authorize a g p PermViewChannel
    (fun d s' => granted (tabs s) a g p PermViewChannel d /\ exists fs, s' = with_faults fs s)) as Hw.
  specialize (Hw (with_faults fs s) Hwf). unfold wp in Hw. rewrite Hv in Hw.
  destruct view_or as [e|d]; [done|].
  destruct Hw as [Hd [fs1 ->]]; [intros fs1 d1 Hd1; split; [done|by eexists]|].
  wp_steps. apply wp_Authorize; [done|]. intros fs2 d2 Hd2. wp_steps. apply HQ. bool_hyps.
  exists row. split_and!; eauto.
Qed.

Definition with_copied (p : option Z) (cid : Z) (t : Tables) : Tables :=
  match p with
  | Some p => set_overwrites (t_overwrites t ∪ copied t cid p) t
  | None => t
  end.

Definition CreateChannel_effect (svc : Service) (a g : Z) (r : CreateChannelInput) (cid : Z) (t : Tables)
    (out : Channel) (t' : Tables) (evs : list (Event Payload)) : Prop :=
  exists d aid,
    granted t a g 0 PermManageChannels d /\
    count (guild_channels t g) < maxChannelsPerGuild svc /\
    (forall p, cci_ParentID r = Some p -> parent_ok t a g (cci_Type r) p) /\
    t_channels t !! cid = None /\ is_Some (t_guilds t !! g) /\ t_audit t !! aid = None /\
    t' = audited aid (entry g a "channel.create" (Some cid) (Some (created_channel_diff r)))
           (with_copied (cci_ParentID r) cid
              (set_channels (<[cid := new_channel cid g r]> (t_channels t)) t)) /\
    out = with_overwrites (match cci_ParentID r with Some _ => channel_overwrites t' cid | None => [] end)
            (channelFromRow (new_channel cid g r)) /\
    evs = when (events svc) [channel_event "CHANNEL_CREATE" g cid (PChannel out)].

Lemma wp_CreateChannel_tx svc a g r cid s :
  wf (tabs s) -> hooks s = [] ->
  wp (CreateChannel_tx svc a g r cid)
    (fun out s' => CreateChannel_effect svc a g r cid (tabs s) out (tabs s') (hooks s')) s.
Proof.
  intros Hwf Hh. unfold CreateChannel_tx. wp_step. apply wp_Authorize; [done|]. intros fs d Hd. st_simpl.
  do 5 (wp_step; cbn beta; st_simpl).
  assert (forall Q s0, wf (tabs s0) -> (forall fs,
      (forall p, cci_ParentID r = Some p -> parent_ok (tabs s0) a g (cci_Type r) p) ->
      Q tt (with_faults fs s0)) ->
    wp match cci_ParentID r with
       | Some parentID => check_parent a g (cci_Type r) parentID
       | None => mret tt
       end Q s0) as Hp.
  { intros Q s0 Hwf0 HQ. destruct (cci_ParentID r) as [p|].
    - apply wp_check_parent; [done|]. intros fs1 Hp. apply HQ. by intros ? [= <-].
    - apply wp_ret. specialize (HQ (faults s0)). rewrite with_faults_id in HQ. by apply HQ. }
  apply Hp; [done|]. clear Hp. intros fs1 Hp. st_simpl. wp_step. wp_step. cbn beta in *. st_simpl.
  match goal with H : context [channel_id (new_channel _ _ _)] |- _ => rename H into Hc end. cbn in Hc.
  destruct (t_channels (tabs s) !! cid) eqn:Hcid; [done|].
  destruct (bool_decide (is_Some (t_guilds (tabs s) !! g))) eqn:Hg; [|done]. simpl in Hc.
  destruct (fk_holds (t_channels (tabs s)) (cci_ParentID r)); [|done]. simplify_eq.
  assert (forall Q s0, (forall fs, Q tt (with_tabs (with_copied (cci_ParentID r) cid
       (set_channels (<[cid := new_channel cid g r]> (t_channels (tabs s))) (tabs s))) (with_faults fs s0))) ->
    tabs s0 = set_channels (<[cid := new_channel cid g r]> (t_channels (tabs s))) (tabs s) ->
    wp match cci_ParentID r with
       | Some parentID => Queries_CopyChannelOverwrites cid parentID g
       | None => mret tt
       end Q s0) as Hcopy.
  { intros Q s0 HQ Ht. destruct (cci_ParentID r) as [p|] eqn:Ep; cbn [with_copied] in HQ.
    - wp_step. rewrite Ht. destruct (Hp p eq_refl) as (row & Hrow & Hrg & _).
      rewrite (proj2 (channel_in_guild_true _ p g)), (proj2 (channel_in_guild_true _ cid g)).
      + apply HQ.
      + eexists. cbn. by rewrite lookup_insert_eq.
      + exists row. cbn. rewrite lookup_insert_ne by congruence. done.
    - apply wp_ret. specialize (HQ (faults s0)). rewrite <- Ht in HQ. by destruct s0. }
  wp_step. apply Hcopy; [|done]. clear Hcopy. intros fs5. wp_step. apply wp_writeAudit.
  intros fs3 aid gn c Haid _. st_simpl. wp_step.
  set (t' := audited aid _ _).
  assert (forall Q s0, tabs s0 = t' -> (forall fs, Q (match cci_ParentID r with
        Some _ => channel_overwrites t' cid | None => [] end) (with_faults fs s0)) ->
    wp match cci_ParentID r with
       | Some _ => Queries_ListChannelPermissionOverwrites cid g
       | None => mret []
       end Q s0) as Hlist.
  { intros Q s0 Ht HQ. destruct (cci_ParentID r) as [p|] eqn:Ep.
    - wp_step. rewrite Ht. rewrite (proj2 (channel_in_guild_true _ cid g)); [apply HQ|].
      unfold t'. rewrite ?Ep. eexists. cbn. by rewrite lookup_insert_eq.
    - apply wp_ret. specialize (HQ (faults s0)). by rewrite with_faults_id in HQ. }
  apply Hlist; [done|]. intros fs4. wp_steps. rewrite Hh. bool_hyps.
  exists d, aid. split_and!; try done.
  - by destruct (cci_ParentID r).
Qed.

Definition UpdateChannel_effect (svc : Service) (a c : Z) (r : UpdateChannelInput) (t : Tables)
    (out : Channel) (t' : Tables) (evs : list (Event Payload)) : Prop :=
  exists g d aid existing,
    t_channels t !! c = Some existing /\ channel_guild_id existing = Some g /\
    granted t a g c (PermManageChannels ∪ₚ PermViewChannel) d /\
    voice_only_misused (channel_type existing) (uci_Bitrate r) (uci_UserLimit r) = false /\
    t_audit t !! aid = None /\
    t' = audited aid (entry g a "channel.update" (Some c) (Some (updated_channel_diff existing r)))
           (set_channels (<[c := updated_channel (update_channel_params c g r) existing]> (t_channels t)) t) /\
    out = with_overwrites (channel_overwrites t c)
            (channelFromRow (updated_channel (update_channel_params c g r) existing)) /\
    evs = when (events svc) [channel_event "CHANNEL_UPDATE" g c (PChannel out)].

Lemma channel_of_Some t c g ch :
  channel_of t c (Some g) = Some ch <-> t_channels t !! c = Some ch /\ channel_guild_id ch = Some g.
Proof.
  unfold channel_of. destruct (t_channels t !! c) as [ch'|]; [|naive_solver].
  case_decide; naive_solver.
Qed.

Lemma wp_UpdateChannel_tx svc a c r s :
  wf (tabs s) -> hooks s = [] ->
  wp (UpdateChannel_tx svc a c r)
    (fun out s' => UpdateChannel_effect svc a c r (tabs s) out (tabs s') (hooks s')) s.
Proof.
  intros Hwf Hh. unfold UpdateChannel_tx. wp_step. apply wp_authorizeChannel; [done|].
  intros fs existing g d Hrow Hg Hd. wp_steps.
  match goal with H : context [uc_ID] |- _ => cbn in H; rename H into Hu end.
  rewrite (proj2 (channel_of_Some (tabs s) c g existing)) in Hu by done. simplify_eq.
  apply wp_writeAudit. intros. st_simpl. wp_steps.
  rewrite (proj2 (channel_in_guild_true _ c g)).
  2:{ eexists. cbn. by rewrite lookup_insert_eq. }
  exists g, d, id, existing. rewrite Hh. split_and!; done.
Qed.

(** The children a category leaves behind. *)
Definition children_of (t : Tables) (c g : Z) (existing : dbChannel) : list dbChannel :=
  if channel_type existing =? ChannelGuildCategory
  then orphaned <$> filter (child_of c g) ((map_to_list (t_channels t)).*2) else [].

Definition DeleteChannel_effect (svc : Service) (a c : Z) (t t' : Tables)
    (evs : list (Event Payload)) : Prop :=
  exists g d aid existing,
    let children := children_of t c g existing in
    t_channels t !! c = Some existing /\ channel_guild_id existing = Some g /\
    granted t a g c (PermManageChannels ∪ₚ PermViewChannel) d /\
    t_audit t !! aid = None /\
    t' = without_channel c
           (audited aid (entry g a "channel.delete" (Some c) (Some (deleted_channel_diff existing))) t) /\
    evs = when (events svc)
            (channel_deleted_event g c (channel_overwrites t c) ::
             (detached_event (filter (fun ow => ow_channel_id ow ∈ channel_id <$> children /\
                                channel_in_guild t' (ow_channel_id ow) g = true) (overwrite_rows t')) g
              <$> children)).

Lemma wp_queue_each {A} (l : list A) (ev : A -> Event Payload) (Q : unit -> St -> Prop) s :
  Q tt (with_hooks (hooks s ++ (ev <$> l)) s) ->
  wp (for_each l (fun x => Publisher_Queue true (ev x))) Q s.
Proof.
  revert s. induction l as [|x l IH]; intros s HQ; simpl.
  - apply wp_ret. simpl in HQ. rewrite app_nil_r in HQ. by destruct s.
  - wp_steps. apply IH. cbn. by rewrite <- app_assoc.
Qed.

Lemma wp_queueDetached svc g children (Q : unit -> St -> Prop) s :
  (forall fs, Q tt (with_hooks (hooks s ++ when (events svc)
     (detached_event (filter (fun ow => ow_channel_id ow ∈ channel_id <$> children /\
        channel_in_guild (tabs s) (ow_channel_id ow) g = true) (overwrite_rows (tabs s))) g
      <$> children)) (with_faults fs s))) ->
  wp (Service_queueDetached svc g children) Q s.
Proof.
  intros HQ. unfold Service_queueDetached. wp_step.
  - apply wp_ret. specialize (HQ (faults s)).
    match goal with H : _ || _ = true |- _ => apply orb_true_iff in H as [H|H]; bool_hyps end.
    + subst children. simpl in HQ. destruct (events svc); simpl in HQ; rewrite app_nil_r in HQ;
        by destruct s.
    + match goal with H : events svc = false |- _ => rewrite H in HQ end. simpl in HQ.
      rewrite app_nil_r in HQ. by destruct s.
  - bool_hyps. wp_step. wp_step. cbn beta. st_simpl. specialize (HQ fs).
    match goal with H : events svc = true |- _ => rewrite H in HQ |- *; clear H end. cbn [when] in HQ.
    by apply wp_queue_each.
Qed.

Lemma detach_delete c g (m : gmap Z dbChannel) :
  detach (fun ch => channel_parent_id ch = Some c) <$> delete c (detach (child_of c g) <$> m)
  = channels_without c m.
Proof.
  unfold channels_without. apply map_eq. intros k. rewrite !lookup_fmap.
  destruct (decide (k = c)) as [->|]; [by rewrite !lookup_delete_eq|].
  rewrite !lookup_delete_ne, lookup_fmap by done. destruct (m !! k) as [ch|]; [|done]. simpl. f_equal.
  unfold detach. unfold child_of. repeat case_decide; naive_solver.
Qed.

(** Detaching the children changes no more than their parents, and not what deletion leaves. *)
Lemma wp_detach c g existing (Q : list dbChannel -> St -> Prop) s :
  t_channels (tabs s) !! c = Some existing ->
  (forall fs t2,
     channels_without c (t_channels t2) = channels_without c (t_channels (tabs s)) ->
     set_channels (t_channels (tabs s)) t2 = tabs s ->
     t_channels t2 !! c = Some (detach (child_of c g) existing) \/ t_channels t2 !! c = Some existing ->
     Q (children_of (tabs s) c g existing) (with_tabs t2 (with_faults fs s))) ->
  wp (if channel_type existing =? ChannelGuildCategory then Queries_DetachChildChannels c g else mret []) Q s.
Proof.
  intros Hrow HQ. unfold children_of in HQ. destruct (channel_type existing =? ChannelGuildCategory).
  - wp_step. apply HQ.
    + apply detach_delete.
    + by destruct (tabs s).
    + left. cbn. by rewrite lookup_fmap, Hrow.
  - apply wp_ret. specialize (HQ (faults s) (tabs s)).
    replace (with_tabs (tabs s) (with_faults (faults s) s)) with s in HQ by (by destruct s).
    apply HQ; [done|by destruct (tabs s)|]. by right.
Qed.

Lemma wp_DeleteChannel_tx svc a c s :
  wf (tabs s) -> hooks s = [] ->
  wp (DeleteChannel_tx svc a c)
    (fun _ s' => DeleteChannel_effect svc a c (tabs s) (tabs s') (hooks s')) s.
Proof.
  intros Hwf Hh. unfold DeleteChannel_tx. wp_step. apply wp_authorizeChannel; [done|].
  intros fs existing g d Hrow Hg Hd. wp_step. apply wp_writeAudit. intros fs1 aid gn cl Haid _. st_simpl.
  wp_step. wp_step. cbn beta. st_simpl. rename fs0 into fs2.
  change (channel_in_guild (audited _ _ (tabs s)) c g) with (channel_in_guild (tabs s) c g).
  change (channel_overwrites (audited _ _ (tabs s)) c) with (channel_overwrites (tabs s) c).
  rewrite (proj2 (channel_in_guild_true (tabs s) c g)) by eauto.
  set (t1 := audited aid _ (tabs s)). wp_step.
  apply (wp_detach c g existing); [done|]. intros fs3 t2 Hch Hset Hc2. wp_step. wp_step. cbn beta in *. st_simpl.
  match goal with H : match channel_of _ _ _ with _ => _ end = _ |- _ => rename H into Hdel end.
  assert (is_Some (channel_of t2 c (Some g))) as [ch2 Hch2].
  { unfold channel_of. destruct Hc2 as [-> | ->].
    - rewrite decide_True by (unfold detach; by case_decide). by eexists.
    - rewrite decide_True by done. by eexists. }
  rewrite Hch2 in Hdel. injection Hdel as <- <-. wp_steps. apply wp_queueDetached. intros fs4. cbn beta. st_simpl.
  rewrite Hh. exists g, d, aid, existing.
  assert (without_channel c t2 = without_channel c t1) as Ht'.
  { assert (t2 = set_channels (t_channels t2) t1) as ->
      by (rewrite <- Hset; by destruct t2).
    unfold without_channel, set_channels, set_overwrites, set_invites. cbn. f_equal. exact Hch. }
  split_and!; try done.
  cbn [tabs with_tabs with_hooks with_faults hooks]. by destruct (events svc).
Qed.

Lemma quiet_check_parent a g ty p : quiet (check_parent a g ty p).
Proof. unfold check_parent. quiet_steps. Qed.
#[export] Hint Resolve quiet_check_parent : norite.
Lemma quiet_CreateChannel_tx svc a g r cid : quiet (CreateChannel_tx svc a g r cid).
Proof. unfold CreateChannel_tx. quiet_steps. Qed.
Lemma quiet_UpdateChannel_tx svc a c r : quiet (UpdateChannel_tx svc a c r).
Proof. unfold UpdateChannel_tx, AuthorizeChannel. quiet_steps. Qed.
Lemma quiet_queueDetached svc g children : quiet (Service_queueDetached svc g children).
Proof. unfold Service_queueDetached. quiet_steps. Qed.
#[export] Hint Resolve quiet_queueDetached : norite.
Lemma quiet_DeleteChannel_tx svc a c : quiet (DeleteChannel_tx svc a c).
Proof. unfold DeleteChannel_tx, AuthorizeChannel. quiet_steps. Qed.
#[export] Hint Resolve quiet_CreateChannel_tx quiet_UpdateChannel_tx quiet_DeleteChannel_tx : norite.
