(* ===== verification/Preserve.v ===== *)
(** The tables invariants across every change the guild service makes. *)
From S2P Require Import Prelude GoStd Permissions Snowflake Rows TxMonad Queries.
From S2P Require Import Resolve StoreInv Authority ResolveMany GuildAuth GuildCommon RoleSvc.
From S2P Require Import OverwriteSvc MemberSvc GuildSvc ChannelSvc.

(** ** Changes outside a component's tables *)

(** [wf] is about the accounts, guilds, members, roles and grants only. *)
Lemma wf_frame t t' :
  wf t -> t_users t' = t_users t -> t_guilds t' = t_guilds t -> t_members t' = t_members t ->
  t_roles t' = t_roles t -> t_member_roles t' = t_member_roles t -> wf t'.
Proof.
  intros [] Eu Eg Em Er Emr. split; unfold get_role in *; rewrite ?Eu, ?Eg, ?Em, ?Er, ?Emr; assumption.
Qed.

(** [channels_ok] is about the guilds, channels and overwrites only. *)
Lemma channels_frame t t' :
  channels_ok t -> t_guilds t' = t_guilds t -> t_channels t' = t_channels t ->
  t_overwrites t' = t_overwrites t -> channels_ok t'.
Proof. intros [] Eg Ec Eo. split; rewrite ?Eg, ?Ec, ?Eo; assumption. Qed.

Lemma wf_audited id row t : wf t -> wf (audited id row t).
Proof. intros H. by apply (wf_frame t). Qed.
Lemma channels_audited id row t : channels_ok t -> channels_ok (audited id row t).
Proof. intros H. by apply (channels_frame t). Qed.

(** Fewer overwrites. *)
Lemma channels_fewer_overwrites t m :
  channels_ok t -> m ⊆ t_overwrites t -> channels_ok (set_overwrites m t).
Proof.
  intros [] Hsub. split; try assumption. intros c ty id v H. cbn in *.
  eapply ch_overwrite. by eapply lookup_weaken.
Qed.

Lemma channels_guilds_grow t gs :
  channels_ok t -> (forall g, is_Some (t_guilds t !! g) -> is_Some (gs !! g)) ->
  channels_ok (set_guilds gs t).
Proof. intros [] Hg. split; try assumption. cbn. intros. apply Hg. eauto. Qed.

(** ** Roles *)

Lemma guild_roles_nodup t g : wf t -> NoDup (role_id <$> guild_roles t g).
Proof.
  intros Hwf. unfold guild_roles. eapply sublist_NoDup; [|apply fmap_sublist, sublist_filter].
  unfold role_rows. rewrite <- list_fmap_compose.
  rewrite (list_fmap_ext _ fst); [apply NoDup_fst_map_to_list|].
  intros ? [k x] H. apply list_elem_of_lookup_2, elem_of_map_to_list in H. simpl.
  by apply (wf_role_key _ Hwf).
Qed.

Lemma by_position_perm l : by_position l ≡ₚ l.
Proof. apply merge_sort_Permutation. Qed.

Lemma elem_of_ranked t g r :
  wf t -> r ∈ ranked t g <->
  t_roles t !! role_id r = Some r /\ role_guild_id r = g /\ role_is_default r = false.
Proof.
  intros Hwf. unfold ranked. rewrite by_position_perm, list_elem_of_filter, guild_roles_lookup by done.
  tauto.
Qed.

Lemma ranked_nodup t g : wf t -> NoDup (role_id <$> ranked t g).
Proof.
  intros Hwf. unfold ranked. rewrite by_position_perm.
  eapply sublist_NoDup; [apply (guild_roles_nodup t g Hwf)|]. apply fmap_sublist, sublist_filter.
Qed.

#[export] Instance role_before_total : Total role_before.
Proof. intros r1 r2. unfold role_before. lia. Qed.
#[export] Instance role_before_trans : Transitive role_before.
Proof. intros r1 r2 r3. unfold role_before. lia. Qed.

Lemma ranked_sorted t g : StronglySorted role_before (ranked t g).
Proof. apply Sorted_StronglySorted; [apply _|]. apply Sorted_merge_sort, _. Qed.

(** What the renumbering gives each role: its rank plus two, so the bottom is free. *)
Lemma shifted_spec t g id r :
  wf t -> t_roles t !! id = Some r ->
  (role_guild_id r = g /\ role_is_default r = false /\
   exists i, ranked t g !! i = Some r /\ shifted t g r = with_position (Z.of_nat i + 2) r) \/
  (~ (role_guild_id r = g /\ role_is_default r = false) /\ shifted t g r = r).
Proof.
  intros Hwf Hr. unfold shifted. pose proof (wf_role_key _ Hwf _ _ Hr) as Hid.
  destruct (list_find (fun r' => role_id r' = role_id r) (ranked t g)) as [[i r']|] eqn:E.
  - apply list_find_Some in E as (Hi & Heq & _).
    assert (r' ∈ ranked t g) as Hin by (by eapply list_elem_of_lookup_2).
    apply elem_of_ranked in Hin as (Hl & Hg & Hd); [|done].
    assert (r' = r) as -> by congruence. left. split; [done|]. split; [done|]. exists i.
    split; [done|]. f_equal. lia.
  - right. split; [|done]. intros [Hg Hd]. apply list_find_None in E.
    rewrite Forall_forall in E. apply (E r); [|done]. apply elem_of_ranked; [done|]. by subst.
Qed.

Lemma with_position_fields p r :
  role_id (with_position p r) = role_id r /\ role_guild_id (with_position p r) = role_guild_id r /\
  role_is_default (with_position p r) = role_is_default r /\
  role_permissions (with_position p r) = role_permissions r /\ role_position (with_position p r) = p.
Proof. done. Qed.

(** A role map changed in positions, names and permissions only: the rows keep their ids, guilds and
    kinds, and the positions stay legal. *)
Record same_roles (m m' : gmap Z dbRole) : Prop := {
  sr_dom : forall id, m' !! id = None <-> m !! id = None;
  sr_row : forall id r r', m !! id = Some r -> m' !! id = Some r' ->
    role_id r' = role_id r /\ role_guild_id r' = role_guild_id r /\
    role_is_default r' = role_is_default r;
  sr_default : forall id r', m' !! id = Some r' -> role_is_default r' = true -> role_position r' = 0;
  sr_position : forall id r', m' !! id = Some r' -> role_is_default r' = false -> 1 <= role_position r';
  sr_unique : forall id1 id2 r1 r2, m' !! id1 = Some r1 -> m' !! id2 = Some r2 ->
    role_guild_id r1 = role_guild_id r2 -> role_is_default r1 = false -> role_is_default r2 = false ->
    role_position r1 = role_position r2 -> id1 = id2
}.

Lemma same_roles_back m m' id r' :
  same_roles m m' -> m' !! id = Some r' -> exists r, m !! id = Some r /\
    role_id r' = role_id r /\ role_guild_id r' = role_guild_id r /\ role_is_default r' = role_is_default r.
Proof.
  intros H Hr'. destruct (m !! id) as [r|] eqn:E.
  - exists r. split; [done|]. by eapply (sr_row m m' H).
  - apply (sr_dom m m' H) in E. congruence.
Qed.

Lemma same_roles_forth m m' id r :
  same_roles m m' -> m !! id = Some r -> exists r', m' !! id = Some r' /\
    role_id r' = role_id r /\ role_guild_id r' = role_guild_id r /\ role_is_default r' = role_is_default r.
Proof.
  intros H Hr. destruct (m' !! id) as [r'|] eqn:E.
  - exists r'. split; [done|]. by eapply (sr_row m m' H).
  - apply (sr_dom m m' H) in E. congruence.
Qed.

Lemma wf_same_roles t m : wf t -> same_roles (t_roles t) m -> wf (set_roles m t).
Proof.
  intros Hwf Hs. pose proof Hwf as []. split; cbn; try assumption.
  - intros id r' Hr. destruct (same_roles_back _ _ _ _ Hs Hr) as (r & Hr0 & -> & _). eauto.
  - intros id r' Hr. destruct (same_roles_back _ _ _ _ Hs Hr) as (r & Hr0 & _ & -> & _). eauto.
  - intros g Hg. destruct (wf_default g Hg) as (id & r & Hr & Hgr & Hd).
    destruct (same_roles_forth _ _ _ _ Hs Hr) as (r' & Hr' & _ & E1 & E2). exists id, r'.
    rewrite E1, E2. done.
  - intros id1 id2 r1' r2' H1 H2 Hg Hd1 Hd2.
    destruct (same_roles_back _ _ _ _ Hs H1) as (r1 & ? & _ & E1 & E1').
    destruct (same_roles_back _ _ _ _ Hs H2) as (r2 & ? & _ & E2 & E2').
    eapply (wf_default_unique id1 id2 r1 r2); congruence.
  - intros g u id Hin. destruct (wf_grant g u id Hin) as (Hm & r & Hr & Hd). split; [done|].
    apply get_role_Some in Hr as [Hr Hg].
    destruct (same_roles_forth _ _ _ _ Hs Hr) as (r' & Hr' & _ & E1 & E2). exists r'.
    rewrite get_role_Some, E1, E2. done.
  - apply (sr_default _ _ Hs).
  - apply (sr_position _ _ Hs).
  - apply (sr_unique _ _ Hs).
Qed.

Lemma same_roles_refl t : wf t -> same_roles (t_roles t) (t_roles t).
Proof. intros []. split; try done; intros; simplify_eq; eauto. Qed.

Lemma shifted_fields t g r :
  role_id (shifted t g r) = role_id r /\ role_guild_id (shifted t g r) = role_guild_id r /\
  role_is_default (shifted t g r) = role_is_default r /\
  role_permissions (shifted t g r) = role_permissions r.
Proof. unfold shifted. by destruct (list_find _ _) as [[i r']|]. Qed.

Lemma same_roles_shifted t g : wf t -> same_roles (t_roles t) (shifted t g <$> t_roles t).
Proof.
  intros Hwf. pose proof Hwf as [].
  assert (forall id r', (shifted t g <$> t_roles t) !! id = Some r' ->
    exists r, t_roles t !! id = Some r /\ r' = shifted t g r) as Hback.
  { intros id r' H. rewrite lookup_fmap in H. destruct (t_roles t !! id) as [r|]; [|done].
    exists r. by simplify_eq/=. }
  split.
  - intros id. rewrite lookup_fmap. by destruct (t_roles t !! id).
  - intros id r r' Hr Hr'. apply Hback in Hr' as (r0 & Hr0 & ->). simplify_eq.
    destruct (shifted_fields t g r) as (-> & -> & -> & _). done.
  - intros id r' (r & Hr & ->)%Hback Hd.
    destruct (shifted_spec t g id r Hwf Hr) as [(_ & Hnd & i & _ & E)|[_ E]]; rewrite E in *.
    + cbn in Hd. congruence.
    + eauto.
  - intros id r' (r & Hr & ->)%Hback Hd.
    destruct (shifted_spec t g id r Hwf Hr) as [(_ & _ & i & _ & E)|[_ E]]; rewrite E in *.
    + cbn. lia.
    + eauto.
  - intros id1 id2 r1' r2' (r1 & H1 & ->)%Hback (r2 & H2 & ->)%Hback Hg Hd1 Hd2 Hp.
    destruct (shifted_fields t g r1) as (_ & G1 & D1 & _). destruct (shifted_fields t g r2) as (_ & G2 & D2 & _).
    rewrite G1, G2 in Hg. rewrite D1 in Hd1. rewrite D2 in Hd2.
    destruct (shifted_spec t g id1 r1 Hwf H1) as [(Hg1 & _ & i1 & Hi1 & E1)|[Hn1 E1]],
      (shifted_spec t g id2 r2 Hwf H2) as [(Hg2 & _ & i2 & Hi2 & E2)|[Hn2 E2]]; rewrite E1, E2 in Hp.
    + cbn in Hp. assert (i1 = i2) as <- by lia.
      assert (r1 = r2) as <- by congruence.
      rewrite <- (wf_role_key _ _ H1). by apply wf_role_key.
    + exfalso. apply Hn2. split; congruence.
    + exfalso. apply Hn1. split; congruence.
    + eauto.
Qed.

(** A role added at the bottom, once 1 is free. *)
Lemma wf_create_role t g id r :
  wf t -> is_Some (t_guilds t !! g) -> t_roles t !! id = None ->
  wf (set_roles (<[id := new_role id g r]> (shifted t g <$> t_roles t)) t).
Proof.
  intros Hwf Hg Hnone. pose proof (wf_same_roles t _ Hwf (same_roles_shifted t g Hwf)) as Hwf1.
  assert ((shifted t g <$> t_roles t) !! id = None) as Hnone1 by (by rewrite lookup_fmap, Hnone).
  assert (forall id' r', (shifted t g <$> t_roles t) !! id' = Some r' -> role_guild_id r' = g ->
    role_is_default r' = false -> 2 <= role_position r') as Hpos.
  { intros id' r' H Hg' Hd. rewrite lookup_fmap in H. destruct (t_roles t !! id') as [r0|] eqn:E; [|done].
    cbn in H. injection H as <-. destruct (shifted_fields t g r0) as (_ & G & D & _).
    destruct (shifted_spec t g id' r0 Hwf E) as [(_ & _ & i & _ & ->)|[Hn _]]; [cbn; lia|].
    exfalso. apply Hn. split; congruence. }
  set (m := shifted t g <$> t_roles t) in *. clearbody m. pose proof Hwf1 as []. cbn in *.
  split; cbn; try assumption.
  - intros id' r' [[<- <-]|[? ?]]%lookup_insert_Some; [done|eauto].
  - intros id' r' [[<- <-]|[? ?]]%lookup_insert_Some; [done|eauto].
  - intros g' Hg'. destruct (wf_default g' Hg') as (id' & r' & Hr' & ?). exists id', r'.
    rewrite lookup_insert_ne by congruence. done.
  - intros id1 id2 r1 r2 [[<- <-]|[? ?]]%lookup_insert_Some [[<- <-]|[? ?]]%lookup_insert_Some;
      try done; eauto.
  - intros g' u id' Hin. destruct (wf_grant g' u id' Hin) as (? & r' & Hr' & ?). split; [done|].
    exists r'. rewrite get_role_Some in *. cbn in *. rewrite lookup_insert_ne; [done|].
    intros <-. destruct Hr'. congruence.
  - intros id' r' [[<- <-]|[? ?]]%lookup_insert_Some; [done|eauto].
  - intros id' r' [[<- <-]|[? ?]]%lookup_insert_Some; [done|eauto].
  - intros id1 id2 r1 r2 [[<- <-]|[? H1]]%lookup_insert_Some [[<- <-]|[? H2]]%lookup_insert_Some;
      try done; cbn; intros Hgg Hd1 Hd2 Hp.
    + specialize (Hpos _ _ H2 (eq_sym Hgg) Hd2). lia.
    + specialize (Hpos _ _ H1 Hgg Hd1). lia.
    + eauto.
Qed.

Lemma same_roles_update t g id p r :
  wf t -> get_role t id g = Some r ->
  same_roles (t_roles t) (<[id := updated_role p r]> (t_roles t)).
Proof.
  intros Hwf [Hr Hg]%get_role_Some. pose proof Hwf as [].
  assert (forall id' r', <[id := updated_role p r]> (t_roles t) !! id' = Some r' ->
    exists r0, t_roles t !! id' = Some r0 /\ role_id r' = role_id r0 /\
      role_guild_id r' = role_guild_id r0 /\ role_is_default r' = role_is_default r0 /\
      role_position r' = role_position r0) as Hback.
  { intros id' r' [[<- <-]|[_ ?]]%lookup_insert_Some; [by exists r|by exists r']. }
  split.
  - intros id'. rewrite lookup_insert_None. split; [by intros [? _]|].
    intros E. split; [done|]. intros <-. congruence.
  - intros id' r1 r' H1 (r0 & H0 & ?)%Hback. simplify_eq. tauto.
  - intros id' r' (r0 & H0 & _ & _ & E & ->)%Hback Hd. eapply wf_default_position; [done|congruence].
  - intros id' r' (r0 & H0 & _ & _ & E & ->)%Hback Hd. eapply wf_position; [done|congruence].
  - intros id1 id2 r1 r2 (r1' & H1 & _ & G1 & D1 & P1)%Hback (r2' & H2 & _ & G2 & D2 & P2)%Hback ????.
    eapply (wf_position_unique id1 id2 r1' r2'); congruence.
Qed.

(** *** Reordering *)

Lemma roles_by_id_lookup t g id :
  wf t -> roles_by_id (by_position (guild_roles t g)) !! id = get_role t id g.
Proof.
  intros Hwf.
  assert (forall l (m : gmap Z dbRole), NoDup (role_id <$> l) ->
    foldl (fun m r => <[role_id r := r]> m) m l !! id =
    match list_find (fun r => role_id r = id) l with Some (_, r) => Some r | None => m !! id end) as go.
  { induction l as [|r l IH]; intros m Hnd; [done|]. rewrite fmap_cons in Hnd.
    apply NoDup_cons in Hnd as [Hnot Hnd]. cbn [foldl list_find]. rewrite IH by done.
    case_decide as E.
    - subst id. destruct (list_find _ l) as [[i x]|] eqn:F.
      + apply list_find_Some in F as (F1 & F2 & _). exfalso. apply Hnot. rewrite <- F2.
        apply list_elem_of_fmap_2. by eapply list_elem_of_lookup_2.
      + by rewrite lookup_insert_eq.
    - destruct (list_find _ l) as [[i x]|]; [done|]. by rewrite lookup_insert_ne. }
  unfold roles_by_id. rewrite go, lookup_empty.
  2:{ rewrite by_position_perm. by apply guild_roles_nodup. }
  destruct (list_find _ _) as [[i r]|] eqn:F.
  - apply list_find_Some in F as (F1 & <- & _). apply list_elem_of_lookup_2 in F1.
    rewrite by_position_perm, guild_roles_lookup in F1 by done. symmetry. by apply get_role_Some.
  - apply list_find_None in F. rewrite Forall_forall in F.
    destruct (get_role t id g) as [r|] eqn:E; [|done]. apply get_role_Some in E as [Hl Hg].
    pose proof (wf_role_key _ Hwf _ _ Hl) as Hid. exfalso. apply (F r); [|done].
    rewrite by_position_perm, guild_roles_lookup by done. by rewrite Hid.
Qed.

(** Each row of the reordered map: the wanted position for a named role, its own otherwise. *)
Lemma repositioned_row t g max d wants id :
  wf t -> reorder_allowed (roles_by_id (by_position (guild_roles t g))) max d wants ->
  repositioned wants (t_roles t) !! id =
  (fun r => with_position (wanted_position wants r) r) <$> t_roles t !! id.
Proof.
  intros Hwf [Hnd _]. rewrite repositioned_lookup by done. unfold wanted_position.
  destruct (t_roles t !! id) as [r|] eqn:E; [|by destruct (list_find _ _) as [[]|]]. cbn.
  rewrite (wf_role_key _ Hwf _ _ E). destruct (list_find _ _) as [[i w]|]; [done|]. f_equal. by destruct r.
Qed.

Lemma wanted_position_cases t g max d wants r :
  wf t -> reorder_allowed (roles_by_id (by_position (guild_roles t g))) max d wants ->
  t_roles t !! role_id r = Some r ->
  wanted_position wants r = role_position r \/
  (role_guild_id r = g /\ role_is_default r = false /\ 1 <= wanted_position wants r <= max /\
   Decision_Outranks d (role_position r) = true /\ Decision_Outranks d (wanted_position wants r) = true).
Proof.
  intros Hwf [_ Hall] Hr. unfold wanted_position.
  destruct (list_find _ wants) as [[i w]|] eqn:F; [right|by left].
  apply list_find_Some in F as (F1 & F2 & _). apply list_elem_of_lookup_2 in F1.
  destruct (Hall w F1) as (r' & Hr' & Hd & Hp & Ho1 & Ho2).
  rewrite roles_by_id_lookup, F2 in Hr' by done. apply get_role_Some in Hr' as [Hl Hg].
  assert (r' = r) as -> by congruence. done.
Qed.

Lemma same_roles_reorder t g max d wants :
  wf t -> reorder_allowed (roles_by_id (by_position (guild_roles t g))) max d wants ->
  NoDup (wanted_position wants <$>
           filter (fun r => role_is_default r = false) (by_position (guild_roles t g))) ->
  same_roles (t_roles t) (repositioned wants (t_roles t)).
Proof.
  intros Hwf Hall Hnd. pose proof Hwf as [].
  assert (forall id r', repositioned wants (t_roles t) !! id = Some r' -> exists r,
    t_roles t !! id = Some r /\ role_id r = id /\ r' = with_position (wanted_position wants r) r) as Hback.
  { intros id r' H. rewrite (repositioned_row t g max d) in H by done.
    destruct (t_roles t !! id) as [r|] eqn:E; [|done]. exists r. injection H as <-. eauto. }
  assert (forall id r, t_roles t !! id = Some r -> t_roles t !! role_id r = Some r) as Hself.
  { intros id r H. by rewrite (wf_role_key _ _ H). }
  split.
  - intros id. rewrite (repositioned_row t g max d) by done. by destruct (t_roles t !! id).
  - intros id r r' Hr (r0 & Hr0 & _ & ->)%Hback. simplify_eq. done.
  - intros id r' (r & Hr & _ & ->)%Hback Hd. cbn in *.
    destruct (wanted_position_cases t g max d wants r Hwf Hall (Hself _ _ Hr)) as [-> | (_ & ? & _)];
      [eauto|congruence].
  - intros id r' (r & Hr & _ & ->)%Hback Hd. cbn in *.
    destruct (wanted_position_cases t g max d wants r Hwf Hall (Hself _ _ Hr)) as [-> | (_ & _ & ? & _)];
      [eauto|lia].
  - intros id1 id2 r1' r2' (r1 & H1 & I1 & ->)%Hback (r2 & H2 & I2 & ->)%Hback Hg Hd1 Hd2 Hp. cbn in *.
    destruct (decide (role_guild_id r1 = g)) as [Hg1|Hg1].
    + assert (r1 = r2); [|congruence].
      assert (forall id r, t_roles t !! id = Some r -> role_guild_id r = g -> role_is_default r = false ->
        r ∈ filter (fun r => role_is_default r = false) (by_position (guild_roles t g))) as Hin.
      { intros id r Hr Hgr Hd. rewrite list_elem_of_filter, by_position_perm, guild_roles_lookup by done.
        eauto. }
      pose proof (Hin _ _ H1 Hg1 Hd1) as (i & Hi)%list_elem_of_lookup.
      pose proof (Hin _ _ H2 (eq_trans (eq_sym Hg) Hg1) Hd2) as (j & Hj)%list_elem_of_lookup.
      assert (i = j) as <-; [|congruence].
      eapply NoDup_lookup; [exact Hnd|by rewrite list_lookup_fmap, Hi|].
      rewrite list_lookup_fmap, Hj. simpl. by rewrite Hp.
    + destruct (wanted_position_cases t g max d wants r1 Hwf Hall (Hself _ _ H1)) as [E1|(? & _)]; [|done].
      destruct (wanted_position_cases t g max d wants r2 Hwf Hall (Hself _ _ H2)) as [E2|(? & _)];
        [|congruence].
      eapply (wf_position_unique id1 id2 r1 r2); congruence.
Qed.

(** *** Deleting a role *)

Lemma wf_without_role t g id r :
  wf t -> get_role t id g = Some r -> role_is_default r = false -> wf (without_role id t).
Proof.
  intros Hwf [Hr Hg]%get_role_Some Hd. pose proof Hwf as [].
  assert (forall id' r', delete id (t_roles t) !! id' = Some r' -> id' <> id /\ t_roles t !! id' = Some r')
    as Hback by (by intros id' r' [? ?]%lookup_delete_Some).
  split; cbn; try assumption.
  - intros id' r' [_ H]%Hback. eauto.
  - intros id' r' [_ H]%Hback. eauto.
  - intros g' Hg'. destruct (wf_default g' Hg') as (id' & r' & Hr' & Hgr & Hd'). exists id', r'.
    split; [|done]. apply lookup_delete_Some. split; [|done]. intros <-. congruence.
  - intros id1 id2 r1 r2 [_ ?]%Hback [_ ?]%Hback. eauto.
  - intros g' u id' [Hne Hin]%elem_of_filter. cbn in Hne.
    destruct (wf_grant g' u id' Hin) as (Hm & r' & [Hr' Hg']%get_role_Some & Hd'). split; [done|].
    exists r'. rewrite get_role_Some. cbn. split; [|done]. split; [|done].
    by rewrite lookup_delete_ne.
  - intros id' r' [_ H]%Hback. eauto.
  - intros id' r' [_ H]%Hback. eauto.
  - intros id1 id2 r1 r2 [_ ?]%Hback [_ ?]%Hback. eauto.
Qed.

(** ** Members *)

Lemma wf_grants t g u id r assigning :
  wf t -> is_Some (t_members t !! (g, u)) -> get_role t id g = Some r -> role_is_default r = false ->
  wf (set_member_roles (grants_after assigning g u id (t_member_roles t)) t).
Proof.
  intros Hwf Hm Hr Hd. pose proof Hwf as []. split; cbn; try assumption.
  intros g' u' id' Hin. unfold grants_after in Hin. destruct assigning.
  - apply elem_of_union in Hin as [[= -> -> ->]%elem_of_singleton|Hin]; [|by apply wf_grant].
    split; [done|]. by exists r.
  - apply elem_of_difference in Hin as [Hin _]. by apply wf_grant.
Qed.

Lemma wf_update_member t g u p m :
  wf t -> t_members t !! (g, u) = Some m ->
  wf (set_members (<[(g, u) := updated_member p m]> (t_members t)) t).
Proof.
  intros Hwf Hm. pose proof Hwf as [].
  assert (forall k, is_Some (t_members t !! k) -> is_Some (<[(g, u) := updated_member p m]> (t_members t) !! k))
    as Hk by (intros k Hk; apply lookup_insert_is_Some'; auto).
  split; cbn; try assumption.
  - intros g' u' m' [[[= <- <-] <-]|[_ H]]%lookup_insert_Some; [cbn; by apply wf_member_key|eauto].
  - intros g' gr H. destruct (wf_owner g' gr H). auto.
  - intros g' u' id Hin. destruct (wf_grant g' u' id Hin) as [? ?]. auto.
Qed.

Lemma wf_without_member t g u gr :
  wf t -> t_guilds t !! g = Some gr -> guild_owner_id gr <> u -> wf (without_member g u t).
Proof.
  intros Hwf Hg Hne. pose proof Hwf as []. split; cbn; try assumption.
  - intros g' u' m' [_ H]%lookup_delete_Some. eauto.
  - intros g' gr' H. destruct (wf_owner g' gr' H) as [? [m Hm]]. split; [done|]. exists m.
    apply lookup_delete_Some. split; [|done]. intros E. injection E. congruence.
  - intros g' u' id [Hk Hin]%elem_of_filter. cbn in Hk.
    destruct (wf_grant g' u' id Hin) as [[m Hm] ?]. split; [|done]. exists m.
    apply lookup_delete_Some. split; [|done]. congruence.
Qed.

Lemma wf_transfer t g gr to :
  wf t -> t_guilds t !! g = Some gr -> is_Some (t_members t !! (g, to)) -> live_account t to = true ->
  wf (set_guilds (<[g := with_owner to gr]> (t_guilds t)) t).
Proof.
  intros Hwf Hg Hm Hlive. pose proof Hwf as [].
  assert (forall g', is_Some (<[g := with_owner to gr]> (t_guilds t) !! g') <-> is_Some (t_guilds t !! g'))
    as Hdom.
  { intros g'. rewrite lookup_insert_is_Some'. split; [intros [<-|?]|]; eauto. }
  split; cbn; try assumption.
  - intros g' gr' [[<- <-]|[_ H]]%lookup_insert_Some; [cbn; eauto|eauto].
  - intros id r H. apply Hdom. eauto.
  - intros g' u m H. rewrite Hdom. eauto.
  - intros g' gr' [[<- <-]|[_ H]]%lookup_insert_Some; [|eauto]. cbn. split; [|done].
    intros ->. unfold live_account in Hlive. by rewrite wf_users in Hlive.
  - intros g' Hg'. apply Hdom in Hg'. eauto.
Qed.

(** ** Guilds *)

Lemma wf_update_guild t g p gr :
  wf t -> t_guilds t !! g = Some gr -> wf (set_guilds (<[g := updated_guild p gr]> (t_guilds t)) t).
Proof.
  intros Hwf Hg. pose proof Hwf as [].
  assert (forall g', is_Some (<[g := updated_guild p gr]> (t_guilds t) !! g') <-> is_Some (t_guilds t !! g'))
    as Hdom.
  { intros g'. rewrite lookup_insert_is_Some'. split; [intros [<-|?]|]; eauto. }
  split; cbn; try assumption.
  - intros g' gr' [[<- <-]|[_ H]]%lookup_insert_Some; [cbn; eauto|eauto].
  - intros id r H. apply Hdom. eauto.
  - intros g' u m H. rewrite Hdom. eauto.
  - intros g' gr' [[<- <-]|[_ H]]%lookup_insert_Some; [cbn; by apply wf_owner|eauto].
  - intros g' Hg'. apply Hdom in Hg'. eauto.
Qed.

Lemma wf_create_guild t gid rid a gr :
  wf t -> t_guilds t !! gid = None -> t_roles t !! rid = None -> is_Some (t_users t !! a) ->
  guild_id gr = gid -> guild_owner_id gr = a ->
  wf (set_members (<[(gid, a) := mkDbGuildMember gid a None false false]> (t_members t))
     (set_roles (<[rid := everyone_role rid gid]> (t_roles t))
     (set_guilds (<[gid := gr]> (t_guilds t)) t))).
Proof.
  intros Hwf Hg Hr Hu Hid Ho. pose proof Hwf as [].
  assert (forall g', is_Some (<[gid := gr]> (t_guilds t) !! g') <-> g' = gid \/ is_Some (t_guilds t !! g'))
    as Hdom by (intros g'; rewrite lookup_insert_is_Some'; naive_solver).
  assert (forall id r, t_roles t !! id = Some r -> role_guild_id r <> gid) as Hnog.
  { intros id r H E. destruct (wf_role_guild id r H). congruence. }
  split; cbn; try assumption.
  - intros g' gr' [[<- <-]|[_ H]]%lookup_insert_Some; eauto.
  - intros id r [[<- <-]|[_ H]]%lookup_insert_Some; eauto.
  - intros id r [[<- <-]|[_ H]]%lookup_insert_Some; apply Hdom; cbn; eauto.
  - intros g' u m [[[= <- <-] <-]|[_ H]]%lookup_insert_Some; rewrite Hdom; cbn; [auto|].
    destruct (wf_member_key _ _ _ H). auto.
  - intros g' gr' [[<- <-]|[Hne H]]%lookup_insert_Some; rewrite lookup_insert_is_Some'.
    + rewrite Ho. split; [|by left]. intros ->. destruct Hu. congruence.
    + destruct (wf_owner g' gr' H). auto.
  - intros g' [->|Hg']%Hdom.
    + exists rid, (everyone_role rid gid). by rewrite lookup_insert_eq.
    + destruct (wf_default g' Hg') as (id & r & Hr' & ?). exists id, r.
      rewrite lookup_insert_ne by congruence. done.
  - intros id1 id2 r1 r2 [[<- <-]|[_ H1]]%lookup_insert_Some [[<- <-]|[_ H2]]%lookup_insert_Some; cbn;
      try done; intros E; eauto; exfalso; [by apply (Hnog _ _ H2)|by apply (Hnog _ _ H1)].
  - intros g' u id Hin. destruct (wf_grant g' u id Hin) as (Hm & r & Hr' & Hd).
    rewrite lookup_insert_is_Some'. split; [auto|]. exists r. rewrite get_role_Some in *. cbn.
    rewrite lookup_insert_ne; [done|]. intros <-. destruct Hr'. congruence.
  - intros id r [[<- <-]|[_ H]]%lookup_insert_Some; [done|eauto].
  - intros id r [[<- <-]|[_ H]]%lookup_insert_Some; [done|eauto].
  - intros id1 id2 r1 r2 [[<- <-]|[_ H1]]%lookup_insert_Some [[<- <-]|[_ H2]]%lookup_insert_Some; cbn;
      try done; eauto.
Qed.

Lemma wf_without_guild t g : wf t -> wf (without_guild g t).
Proof.
  intros Hwf. pose proof Hwf as []. split; cbn; try assumption.
  - intros g' gr [_ H]%lookup_delete_Some. eauto.
  - intros id r [H _]%map_lookup_filter_Some. eauto.
  - intros id r [H Hne]%map_lookup_filter_Some. cbn in Hne. rewrite lookup_delete_ne by congruence. eauto.
  - intros g' u m [H Hne]%map_lookup_filter_Some. cbn in Hne. rewrite lookup_delete_ne by congruence. eauto.
  - intros g' gr [Hne H]%lookup_delete_Some. destruct (wf_owner g' gr H) as [? [m Hm]]. split; [done|].
    exists m. apply map_lookup_filter_Some. split; [done|]. cbn. congruence.
  - intros g' [gr [Hne H]%lookup_delete_Some]. destruct (wf_default g') as (id & r & Hr & Hgr & ?); [by eexists|].
    exists id, r. split; [|done]. apply map_lookup_filter_Some. split; [done|]. cbn. congruence.
  - intros id1 id2 r1 r2 [H1 _]%map_lookup_filter_Some [H2 _]%map_lookup_filter_Some. eauto.
  - intros g' u id [[Hne Hnr] Hin]%elem_of_filter. cbn in Hne, Hnr.
    destruct (wf_grant g' u id Hin) as ([m Hm] & r & [Hr Hgr]%get_role_Some & Hd). split.
    + exists m. apply map_lookup_filter_Some. split; [done|]. cbn. congruence.
    + exists r. rewrite get_role_Some. cbn. split; [|done]. split; [|done].
      apply map_lookup_filter_Some. split; [done|]. cbn. congruence.
  - intros id r [H _]%map_lookup_filter_Some. eauto.
  - intros id r [H _]%map_lookup_filter_Some. eauto.
  - intros id1 id2 r1 r2 [H1 _]%map_lookup_filter_Some [H2 _]%map_lookup_filter_Some. eauto.
Qed.

(** ** Channels *)

Lemma channels_set_overwrite t c ty id g v :
  channels_ok t -> channel_in_guild t c g = true ->
  channels_ok (set_overwrites (<[(c, ty, id) := v]> (t_overwrites t)) t).
Proof.
  intros H (ch & Hch & _)%channel_in_guild_true. destruct H. split; cbn; try assumption.
  intros c' ty' id' v' [[[= <- <- <-] _]|[_ H]]%lookup_insert_Some; eauto.
Qed.

Lemma copied_lookup t dest src k v :
  copied t dest src !! k = Some v -> exists ty id, k = (dest, ty, id) /\ t_overwrites t !! (src, ty, id) = Some v.
Proof.
  unfold copied. intros H%elem_of_list_to_map_2.
  apply list_elem_of_fmap in H as (ow & [= -> ->] & [<- Hl]%elem_of_channel_overwrites).
  exists (ow_target_type ow), (ow_target_id ow). done.
Qed.

Lemma channels_create t a g cid r :
  channels_ok t -> isGuildChannelType (cci_Type r) = true ->
  voice_only_misused (cci_Type r) (cci_Bitrate r) (cci_UserLimit r) = false ->
  t_channels t !! cid = None -> is_Some (t_guilds t !! g) ->
  (forall p, cci_ParentID r = Some p -> parent_ok t a g (cci_Type r) p) ->
  channels_ok (with_copied (cci_ParentID r) cid
                 (set_channels (<[cid := new_channel cid g r]> (t_channels t)) t)).
Proof.
  intros Hok Hty Hvoice Hnone Hg Hp. pose proof Hok as [].
  assert (channels_ok (set_channels (<[cid := new_channel cid g r]> (t_channels t)) t)) as H1.
  { split; cbn.
    - intros c ch [[<- <-]|[_ H]]%lookup_insert_Some; eauto.
    - intros c ch g' [[<- <-]|[_ H]]%lookup_insert_Some; [intros [= <-]; done|eauto].
    - intros c ch g' [[<- <-]|[_ H]]%lookup_insert_Some; [intros [= <-]; done|eauto].
    - intros c ch p [[<- <-]|[_ H]]%lookup_insert_Some E.
      + cbn in *. destruct (Hp p E) as (row & Hrow & Hrg & Hrt & Hne & _). split; [done|].
        exists row. rewrite lookup_insert_ne by congruence. done.
      + destruct (ch_parent _ _ _ H E) as (Hne & pa & Hpa & ?). split; [done|].
        exists pa. rewrite lookup_insert_ne by congruence. done.
    - intros c ty id v H. apply lookup_insert_is_Some'. eauto. }
  destruct (cci_ParentID r) as [p|]; [|done]. cbn [with_copied].
  destruct H1. split; cbn in *; try assumption.
  intros c ty id v [H|[_ H]]%lookup_union_Some_raw; [eauto|].
  apply copied_lookup in H as (? & ? & E & _). injection E as -> _ _. rewrite lookup_insert_eq. by eexists.
Qed.

Lemma channels_update t c g p ch :
  channels_ok t -> t_channels t !! c = Some ch -> channel_guild_id ch = Some g ->
  voice_only_misused (channel_type ch) (uc_Bitrate p) (uc_UserLimit p) = false ->
  channels_ok (set_channels (<[c := updated_channel p ch]> (t_channels t)) t).
Proof.
  intros Hok Hch Hg Hv. pose proof Hok as []. split; cbn.
  - intros c' ch' [[<- <-]|[_ H]]%lookup_insert_Some; [cbn; eauto|eauto].
  - intros c' ch' g' [[<- <-]|[_ H]]%lookup_insert_Some; [cbn; eauto|eauto].
  - intros c' ch' g' [[<- <-]|[_ H]]%lookup_insert_Some; [cbn|eauto]. intros Hg'.
    destruct (ch_type _ _ _ Hch Hg') as [? Hold]. split; [done|].
    unfold voice_only_misused in *. destruct (channel_type ch =? ChannelGuildVoice); [done|]. simpl in *.
    apply orb_false_iff in Hv as [Hv1 Hv2]. apply orb_false_iff in Hold as [Ho1 Ho2].
    unfold or_else. destruct (uc_Bitrate p), (uc_UserLimit p); simpl; try done.
    by rewrite Ho1, Ho2.
  - intros c' ch' q H E.
    assert (exists ch0, t_channels t !! c' = Some ch0 /\ channel_parent_id ch0 = Some q /\
      channel_type ch' = channel_type ch0 /\ channel_guild_id ch' = channel_guild_id ch0)
      as (ch0 & H0 & Hq & -> & ->).
    { apply lookup_insert_Some in H as [[<- <-]|[_ H]]; eauto 6. }
    destruct (ch_parent _ _ _ H0 Hq) as (Hne & pa & Hpa & ? & ?). split; [done|].
    destruct (decide (q = c)) as [->|].
    + exists (updated_channel p ch). rewrite lookup_insert_eq. simplify_eq. done.
    + exists pa. by rewrite lookup_insert_ne.
  - intros c' ty id v H. apply lookup_insert_is_Some'. eauto.
Qed.

Lemma channels_delete t c :
  channels_ok t ->
  channels_ok (without_channel c t).
Proof.
  intros Hok. pose proof Hok as [].
  assert (forall c' ch', channels_without c (t_channels t) !! c' = Some ch' -> exists ch,
    t_channels t !! c' = Some ch /\ c' <> c /\ channel_id ch' = channel_id ch /\
    channel_guild_id ch' = channel_guild_id ch /\ channel_type ch' = channel_type ch /\
    channel_bitrate ch' = channel_bitrate ch /\ channel_user_limit ch' = channel_user_limit ch /\
    (forall q, channel_parent_id ch' = Some q -> channel_parent_id ch = Some q /\ q <> c)) as Hback.
  { intros c' ch' H. unfold channels_without in H. rewrite lookup_fmap in H.
    destruct (delete c (t_channels t) !! c') as [ch|] eqn:E; [|done]. injection H as <-.
    apply lookup_delete_Some in E as [Hne E]. exists ch. unfold detach.
    case_decide as Hp; cbn; split_and!; try done. intros q Hq. split; [done|]. congruence. }
  split; cbn.
  - intros c' ch' (ch & H & _ & -> & _)%Hback. eauto.
  - intros c' ch' g (ch & H & _ & _ & -> & _)%Hback. eauto.
  - intros c' ch' g (ch & H & _ & _ & -> & -> & -> & -> & _)%Hback. eauto.
  - intros c' ch' q (ch & H & _ & _ & -> & -> & _ & _ & Hq)%Hback E.
    destruct (Hq q E) as [Hp Hqc]. destruct (ch_parent _ _ _ H Hp) as (Hne & pa & Hpa & Ht & Hg).
    split; [done|]. unfold channels_without. rewrite lookup_fmap, lookup_delete_ne, Hpa by done.
    eexists. split; [done|]. unfold detach. by case_decide.
  - intros c' ty id v [H Hne]%map_lookup_filter_Some. cbn in Hne.
    destruct (ch_overwrite _ _ _ _ H) as [ch Hch]. unfold channels_without.
    rewrite lookup_fmap, lookup_delete_ne, Hch by done. by eexists.
Qed.

Lemma channels_without_guild t g : channels_ok t -> channels_ok (without_guild g t).
Proof.
  intros Hok. pose proof Hok as []. split; cbn.
  - intros c ch [H _]%map_lookup_filter_Some. eauto.
  - intros c ch g' [H Hne]%map_lookup_filter_Some E. cbn in Hne. rewrite lookup_delete_ne by congruence. eauto.
  - intros c ch g' [H _]%map_lookup_filter_Some. eauto.
  - intros c ch p [H Hne]%map_lookup_filter_Some E. cbn in Hne.
    destruct (ch_parent _ _ _ H E) as (Hty & pa & Hpa & Ht & Hg). split; [done|]. exists pa.
    split; [|done]. apply map_lookup_filter_Some. split; [done|]. cbn. congruence.
  - intros c ty id v [H Hin]%map_lookup_filter_Some. cbn in Hin.
    destruct (ch_overwrite _ _ _ _ H) as [ch Hch]. exists ch. apply map_lookup_filter_Some.
    split; [done|]. cbn. intros E. rewrite (proj2 (channel_in_guild_true t c g)) in Hin; [done|eauto].
Qed.
