(* ===== verification/GuildService.v ===== *)
(** The guild service as a whole: its mutating operations as requests, what each committed request
    did, and the properties that hold over every request and every run of requests. *)
From S2P Require Import Prelude GoStd Permissions Snowflake Rows TxMonad Queries.
From S2P Require Import Resolve StoreInv Authority ResolveMany GuildAuth GuildCommon RoleSvc.
From S2P Require Import OverwriteSvc MemberSvc GuildSvc ChannelSvc Preserve.

(** ** Requests *)

Inductive Request :=
  | ReqCreateGuild (r : CreateGuildInput)
  | ReqUpdateGuild (g : Z) (r : UpdateGuildInput)
  | ReqDeleteGuild (g : Z)
  | ReqCreateRole (g : Z) (r : CreateRoleInput)
  | ReqUpdateRole (g role : Z) (r : UpdateRoleInput)
  | ReqDeleteRole (g role : Z)
  | ReqReorderRoles (g : Z) (wants : list RolePosition)
  | ReqChangeMemberRole (g u role : Z) (assigning : bool)
  | ReqUpdateMember (g u : Z) (r : UpdateMemberInput)
  | ReqRemoveMember (g u : Z)
  | ReqTransferOwnership (g to : Z)
  | ReqSetOverwrite (r : SetOverwriteInput)
  | ReqDeleteOverwrite (c ty id : Z)
  | ReqCreateChannel (g : Z) (r : CreateChannelInput)
  | ReqUpdateChannel (c : Z) (r : UpdateChannelInput)
  | ReqDeleteChannel (c : Z).

(** The operation behind a request; its answer's object is dropped. *)
Definition handle (svc : Service) (actor : Z) (req : Request) : M unit :=
  match req with
  | ReqCreateGuild r => Service_Create svc actor r;; mret tt
  | ReqUpdateGuild g r => Service_Update svc actor g r;; mret tt
  | ReqDeleteGuild g => Service_Delete svc actor g
  | ReqCreateRole g r => Service_CreateRole svc actor g r;; mret tt
  | ReqUpdateRole g role r => Service_UpdateRole svc actor g role r;; mret tt
  | ReqDeleteRole g role => Service_DeleteRole svc actor g role
  | ReqReorderRoles g wants => Service_ReorderRoles svc actor g wants;; mret tt
  | ReqChangeMemberRole g u role b => Service_changeMemberRole svc actor g u role b;; mret tt
  | ReqUpdateMember g u r => Service_UpdateMember svc actor g u r;; mret tt
  | ReqRemoveMember g u => Service_RemoveMember svc actor g u
  | ReqTransferOwnership g to => Service_TransferOwnership svc actor g to;; mret tt
  | ReqSetOverwrite r => Service_SetOverwrite svc actor r;; mret tt
  | ReqDeleteOverwrite c ty id => Service_DeleteOverwrite svc actor c ty id
  | ReqCreateChannel g r => Service_CreateChannel svc actor g r;; mret tt
  | ReqUpdateChannel c r => Service_UpdateChannel svc actor c r;; mret tt
  | ReqDeleteChannel c => Service_DeleteChannel svc actor c
  end.

(** What a committed request did to the tables, and the events it registered. *)
Definition effect (svc : Service) (a : Z) (req : Request) (t t' : Tables) (evs : list (Event Payload))
    : Prop :=
  match req with
  | ReqCreateGuild r => exists gid rid out, Create_effect svc a r gid rid t out t' evs
  | ReqUpdateGuild g r => exists out, Update_effect svc a g r t out t' evs
  | ReqDeleteGuild g => Delete_effect svc a g t t' evs
  | ReqCreateRole g r => exists id out, CreateRole_effect svc a g r id t out t' evs
  | ReqUpdateRole g role r => exists out, UpdateRole_effect svc a g role r t out t' evs
  | ReqDeleteRole g role => DeleteRole_effect svc a g role t t' evs
  | ReqReorderRoles g wants => exists out, ReorderRoles_effect svc a g wants t out t' evs
  | ReqChangeMemberRole g u role b => exists out, changeMemberRole_effect svc a g u role b t out t' evs
  | ReqUpdateMember g u r => exists out, UpdateMember_effect svc a g u r t out t' evs
  | ReqRemoveMember g u => RemoveMember_effect svc a g u t t' evs
  | ReqTransferOwnership g to => exists out, TransferOwnership_effect svc a g to t out t' evs
  | ReqSetOverwrite r => exists out, SetOverwrite_effect svc a r t out t' evs
  | ReqDeleteOverwrite c ty id => DeleteOverwrite_effect svc a c ty id t t' evs
  | ReqCreateChannel g r =>
      isGuildChannelType (cci_Type r) = true /\
      voice_only_misused (cci_Type r) (cci_Bitrate r) (cci_UserLimit r) = false /\
      exists id out, CreateChannel_effect svc a g r id t out t' evs
  | ReqUpdateChannel c r => exists out, UpdateChannel_effect svc a c r t out t' evs
  | ReqDeleteChannel c => DeleteChannel_effect svc a c t t' evs
  end.

(** ** From the operations to their effects *)

(** A request either commits, and did what its effect says, or fails and changed nothing. *)
Definition outcome (E : Tables -> Tables -> list (Event Payload) -> Prop) (s : St) (res : (Err + unit) * St)
    : Prop :=
  match res with
  | (inr _, s') => exists evs, E (tabs s) (tabs s') evs /\ delivered s s' evs
  | (inl _, s') => tabs s' = tabs s /\ published s' = published s
  end.

(** A transaction whose object is dropped. *)
Lemma tx_outcome {A} (fn : M A) (E : Tables -> A -> Tables -> list (Event Payload) -> Prop) s :
  quiet fn ->
  (forall s1, tabs s1 = tabs s -> hooks s1 = [] ->
     wp fn (fun a s2 => E (tabs s1) a (tabs s2) (hooks s2)) s1) ->
  outcome (fun t t' evs => exists a, E t a t' evs) s ((RunInTx fn;; mret tt) s).
Proof.
  intros Hq Hwp. unfold mbind, M_bind. destruct (RunInTx fn s) as [[e|a] s'] eqn:E0; cbn.
  - by eapply RunInTx_rollback.
  - eapply (RunInTx_commit fn s a s' (fun a t' evs => E (tabs s) a t' evs)) in E0; [|done|].
    + destruct E0 as (evs & HE & Hd). exists evs. split; [by exists a|done].
    + intros s1 Ht Hh. rewrite <- Ht. by apply Hwp.
Qed.

Lemma tx_outcome_unit (fn : M unit) (E : Tables -> Tables -> list (Event Payload) -> Prop) s :
  quiet fn ->
  (forall s1, tabs s1 = tabs s -> hooks s1 = [] ->
     wp fn (fun _ s2 => E (tabs s1) (tabs s2) (hooks s2)) s1) ->
  outcome E s (RunInTx fn s).
Proof.
  intros Hq Hwp. destruct (RunInTx fn s) as [[e|[]] s'] eqn:E0; cbn.
  - by eapply RunInTx_rollback.
  - eapply (RunInTx_commit fn s tt s' (fun _ t' evs => E (tabs s) t' evs)) in E0; [done..|].
    intros s1 Ht Hh. rewrite <- Ht. by apply Hwp.
Qed.

(** An id minted before the transaction. *)
Lemma ids_Next_outcome (k : Z -> M unit) (E : Tables -> Tables -> list (Event Payload) -> Prop) s :
  (forall id s1, tabs s1 = tabs s -> published s1 = published s -> faults s1 = faults s ->
     outcome E s1 (k id s1)) ->
  outcome E s ((id ← ids_Next; k id) s).
Proof.
  intros Hk. unfold mbind, M_bind, ids_Next.
  destruct (Next (gen s) (clock s)) as [[[[id|] g] c]|]; [|done..].
  specialize (Hk id (with_gen g c s) eq_refl eq_refl eq_refl). unfold outcome, delivered in *.
  by destruct (k id _) as [[e|u] s'].
Qed.

Lemma refuse_if_outcome b e (k : M unit) (E : Tables -> Tables -> list (Event Payload) -> Prop) s :
  (b = false -> outcome E s (k s)) -> outcome E s ((refuse_if b e;; k) s).
Proof. destruct b; [done|]. intros H. by apply H. Qed.

Lemma bind_assoc_run {A B C} (m : M A) (k1 : A -> M B) (k2 : B -> M C) s :
  ((m ≫= k1) ≫= k2) s = (m ≫= fun x => k1 x ≫= k2) s.
Proof. unfold mbind, M_bind. by destruct (m s) as [[]]. Qed.

Lemma outcome_mono (E F : Tables -> Tables -> list (Event Payload) -> Prop) s res :
  (forall t' evs, E (tabs s) t' evs -> F (tabs s) t' evs) -> outcome E s res -> outcome F s res.
Proof.
  intros HEF. unfold outcome. destruct res as [[e|u] s']; [done|].
  intros (evs & HE & Hd). exists evs. split; [by apply HEF|done].
Qed.

Lemma handle_outcome svc a req s :
  wf (tabs s) -> outcome (effect svc a req) s (handle svc a req s).
Proof.
  intros Hwf. destruct req; cbn [handle effect].
  - unfold Service_Create. rewrite !bind_assoc_run. apply ids_Next_outcome. intros gid s1 Ht1 _ _.
    rewrite !bind_assoc_run. apply ids_Next_outcome. intros rid s2 Ht2 _ _.
    eapply outcome_mono; [|apply (tx_outcome _ (fun t out t' evs => Create_effect svc a r gid rid t out t' evs));
      [auto with norite|intros; by apply wp_Create_tx]]. intros t' evs [out H]. by exists gid, rid, out.
  - apply tx_outcome; [auto with norite|]. intros s1 Ht Hh. apply wp_Update_tx; [by rewrite Ht|done].
  - apply tx_outcome_unit; [auto with norite|]. intros s1 Ht Hh. apply wp_Delete_tx; [by rewrite Ht|done].
  - unfold Service_CreateRole. rewrite bind_assoc_run. apply ids_Next_outcome. intros id s1 Ht1 _ _.
    eapply outcome_mono; [|apply (tx_outcome _ (fun t out t' evs => CreateRole_effect svc a g r id t out t' evs));
      [auto with norite|intros s2 Ht2 Hh; apply wp_CreateRole_tx; [by rewrite Ht2, Ht1|done]]].
    intros t' evs [out H]. by exists id, out.
  - apply tx_outcome; [auto with norite|]. intros s1 Ht Hh. apply wp_UpdateRole_tx; [by rewrite Ht|done].
  - apply tx_outcome_unit; [auto with norite|]. intros s1 Ht Hh. apply wp_DeleteRole_tx; [by rewrite Ht|done].
  - apply tx_outcome; [auto with norite|]. intros s1 Ht Hh. apply wp_ReorderRoles_tx; [by rewrite Ht|done].
  - apply tx_outcome; [auto with norite|]. intros s1 Ht Hh. apply wp_changeMemberRole_tx; [by rewrite Ht|done].
  - apply tx_outcome; [auto with norite|]. intros s1 Ht Hh. apply wp_UpdateMember_tx; [by rewrite Ht|done].
  - apply tx_outcome_unit; [auto with norite|]. intros s1 Ht Hh. apply wp_RemoveMember_tx; [by rewrite Ht|done].
  - apply tx_outcome; [auto with norite|]. intros s1 Ht Hh. apply wp_TransferOwnership_tx; [by rewrite Ht|done].
  - apply tx_outcome; [auto with norite|]. intros s1 Ht Hh. apply wp_SetOverwrite_tx; [by rewrite Ht|done].
  - apply tx_outcome_unit; [auto with norite|]. intros s1 Ht Hh. apply wp_DeleteOverwrite_tx; [by rewrite Ht|done].
  - unfold Service_CreateChannel. rewrite bind_assoc_run. apply refuse_if_outcome. intros Hty.
    rewrite bind_assoc_run. apply refuse_if_outcome. intros Hv. rewrite bind_assoc_run.
    apply ids_Next_outcome. intros id s1 Ht1 _ _. apply negb_false_iff in Hty.
    eapply outcome_mono; [|apply (tx_outcome _ (fun t out t' evs => CreateChannel_effect svc a g r id t out t' evs));
      [auto with norite|intros s2 Ht2 Hh; apply wp_CreateChannel_tx; [by rewrite Ht2, Ht1|done]]].
    intros t' evs [out H]. split; [done|]. split; [done|]. by exists id, out.
  - apply tx_outcome; [auto with norite|]. intros s1 Ht Hh. apply wp_UpdateChannel_tx; [by rewrite Ht|done].
  - apply tx_outcome_unit; [auto with norite|]. intros s1 Ht Hh. apply wp_DeleteChannel_tx; [by rewrite Ht|done].
Qed.

(** ** The invariant *)

Definition inv (t : Tables) : Prop := wf t /\ channels_ok t.

Lemma audited_all_is ids rows t : exists m, audited_all ids rows t = set_audit m t.
Proof.
  revert rows t. induction ids as [|id ids IH]; intros [|row rows] t; try (exists (t_audit t); by destruct t).
  destruct (IH rows (audited id row t)) as [m E]. exists m. by cbn; rewrite E.
Qed.

Lemma audited_all_wf ids rows t : wf t -> wf (audited_all ids rows t).
Proof. intros H. destruct (audited_all_is ids rows t) as [m ->]. by apply (wf_frame t). Qed.

Lemma audited_all_channels ids rows t : channels_ok t -> channels_ok (audited_all ids rows t).
Proof. intros H. destruct (audited_all_is ids rows t) as [m ->]. by apply (channels_frame t). Qed.

Lemma channels_without_overwrites_for t g ty id :
  channels_ok t -> channels_ok (without_overwrites_for g ty id t).
Proof. intros H. apply channels_fewer_overwrites; [done|]. apply map_filter_subseteq. Qed.

Ltac same_channels t := apply (channels_frame t); [assumption|reflexivity..].

Lemma channels_guild_set t g gr :
  channels_ok t -> channels_ok (set_guilds (<[g := gr]> (t_guilds t)) t).
Proof.
  intros Hc. apply channels_guilds_grow; [done|]. intros g' Hg'. apply lookup_insert_is_Some'. auto.
Qed.

Lemma effect_wf svc a req t t' evs : inv t -> effect svc a req t t' evs -> wf t'.
Proof.
  intros [Hwf Hc]. destruct req; cbn [effect].
  - intros (gid & rid & out & aid & _ & _ & Hg & Hu & Hr & _ & _ & -> & _).
    apply wf_audited. by apply wf_create_guild.
  - intros (out & d & existing & ids & _ & Hg & _ & _ & _ & _ & -> & _).
    by apply audited_all_wf, wf_update_guild.
  - intros (d & aid & gr & _ & _ & _ & _ & -> & _). by apply wf_without_guild, wf_audited.
  - intros (id & out & d & aid & _ & _ & _ & _ & Hr & Hg & _ & -> & _).
    by apply wf_audited, wf_create_role.
  - intros (out & d & aid & existing & _ & He & _ & _ & _ & _ & -> & _).
    apply wf_audited, wf_same_roles; [done|]. by eapply same_roles_update.
  - intros (d & aid & existing & _ & He & _ & Hd & _ & _ & -> & _).
    eapply (wf_without_role _ g role existing); [|exact He|done].
    apply (wf_frame (audited aid (entry g a "role.delete" (Some role) (Some (deleted_role_diff existing))) t));
      [by apply wf_audited|reflexivity..].
  - intros (out & d & aid & _ & Hall & Hnd & _ & -> & _). apply wf_audited, wf_same_roles; [done|].
    by eapply same_roles_reorder.
  - intros (out & d & r & m & _ & Hr & Hd & _ & Hm & _ & _ & _ & Ht & _).
    destruct (Bool.eqb _ _); [by subst|]. destruct Ht as (aid & _ & ->).
    apply wf_audited. by eapply wf_grants.
  - intros (out & d & aid & m & _ & _ & Hm & _ & _ & -> & _). by apply wf_audited, wf_update_member.
  - intros (d & aid & gr & m & _ & Hg & Hne & _ & _ & -> & _).
    eapply (wf_without_member _ g u gr); [|exact Hg|done].
    apply (wf_frame (audited aid (entry g a "member.remove" (Some u) (Some (removed_member_diff m))) t));
      [by apply wf_audited|reflexivity..].
  - intros (out & d & aid & gr & _ & Hg & _ & _ & Hm & Hl & _ & _ & -> & _).
    by apply wf_audited, wf_transfer.
  - intros (out & g & d & aid & _ & _ & _ & _ & _ & _ & _ & _ & -> & _). by apply wf_audited, (wf_frame t).
  - intros (g & d & aid & row & _ & _ & _ & _ & _ & _ & _ & -> & _). by apply (wf_frame t).
  - intros (_ & _ & id & out & d & aid & _ & _ & _ & _ & _ & _ & -> & _).
    apply wf_audited. apply (wf_frame t); [done|..]; unfold with_copied; by destruct (cci_ParentID r).
  - intros (out & g & d & aid & existing & _ & _ & _ & _ & _ & -> & _). by apply wf_audited, (wf_frame t).
  - intros (g & d & aid & existing & _ & _ & _ & _ & -> & _). by apply (wf_frame t).
Qed.

Lemma effect_channels svc a req t t' evs : inv t -> effect svc a req t t' evs -> channels_ok t'.
Proof.
  intros [Hwf Hc]. destruct req; cbn [effect].
  - intros (gid & rid & out & aid & _ & _ & Hg & Hu & Hr & _ & _ & -> & _). apply channels_audited.
    apply (channels_frame (set_guilds (<[gid := mkDbGuild gid (cgi_Name r) a (cgi_Description r) false]>
      (t_guilds t)) t)); [by apply channels_guild_set|reflexivity..].
  - intros (out & d & existing & ids & _ & Hg & _ & _ & _ & _ & -> & _).
    by apply audited_all_channels, channels_guild_set.
  - intros (d & aid & gr & _ & _ & _ & _ & -> & _). by apply channels_without_guild, channels_audited.
  - intros (id & out & d & aid & _ & _ & _ & _ & Hr & Hg & _ & -> & _). same_channels t.
  - intros (out & d & aid & existing & _ & He & _ & _ & _ & _ & -> & _). same_channels t.
  - intros (d & aid & existing & _ & He & _ & Hd & _ & _ & -> & _).
    apply (channels_frame (without_overwrites_for g OverwriteTargetRole role t));
      [by apply channels_without_overwrites_for|reflexivity..].
  - intros (out & d & aid & _ & Hall & Hnd & _ & -> & _). same_channels t.
  - intros (out & d & r & m & _ & Hr & Hd & _ & Hm & _ & _ & _ & Ht & _).
    destruct (Bool.eqb _ _); [by subst|]. destruct Ht as (aid & _ & ->). same_channels t.
  - intros (out & d & aid & m & _ & _ & Hm & _ & _ & -> & _). same_channels t.
  - intros (d & aid & gr & m & _ & Hg & Hne & _ & _ & -> & _).
    apply (channels_frame (without_overwrites_for g OverwriteTargetMember u t));
      [by apply channels_without_overwrites_for|reflexivity..].
  - intros (out & d & aid & gr & _ & Hg & _ & _ & Hm & Hl & _ & _ & -> & _).
    by apply channels_audited, channels_guild_set.
  - intros (out & g & d & aid & Hin & _ & _ & _ & _ & _ & _ & _ & -> & _).
    apply channels_audited. by eapply channels_set_overwrite.
  - intros (g & d & aid & row & _ & _ & _ & _ & _ & _ & _ & -> & _).
    apply (channels_fewer_overwrites (audited _ _ t)); [by apply channels_audited|]. apply delete_subseteq.
  - intros (Hty & Hv & id & out & d & aid & _ & _ & Hp & Hn & Hg & _ & -> & _).
    apply channels_audited. by eapply channels_create.
  - intros (out & g & d & aid & existing & He & Hg & _ & Hv & _ & -> & _).
    apply channels_audited. by eapply channels_update.
  - intros (g & d & aid & existing & _ & _ & _ & _ & -> & _).
    apply (channels_delete (audited _ _ t)). by apply channels_audited.
Qed.

Lemma handle_inv svc a req s : inv (tabs s) -> inv (tabs (handle svc a req s).2).
Proof.
  intros Hinv. pose proof (handle_outcome svc a req s (proj1 Hinv)) as H. unfold outcome in H.
  destruct (handle svc a req s) as [[e|u] s']; cbn.
  - by destruct H as [-> _].
  - destruct H as (evs & He & _). split; [by eapply effect_wf|by eapply effect_channels].
Qed.

(** Requests one after another, whoever sends them; the answers are dropped. *)
Definition serve (svc : Service) (reqs : list (Z * Request)) (s : St) : St :=
  foldl (fun s ar => (handle svc ar.1 ar.2 s).2) s reqs.

Lemma serve_inv svc reqs s : inv (tabs s) -> inv (tabs (serve svc reqs s)).
Proof. revert s. induction reqs as [|ar reqs IH]; intros s H; simpl; [done|]. by apply IH, handle_inv. Qed.

(** A request that answered did what its effect says. *)
Lemma handle_ok svc a req s s' :
  wf (tabs s) -> handle svc a req s = (inr tt, s') ->
  exists evs, effect svc a req (tabs s) (tabs s') evs /\ delivered s s' evs.
Proof. intros Hwf H. pose proof (handle_outcome svc a req s Hwf) as Ho. by rewrite H in Ho. Qed.

(** Limits for concrete runs. *)
Definition example_service : Service := mkService true 5 5 2 3 5.

(** ** Properties *)

(** C2: every operation of the guild service is atomic and does what its specification says. From
    any tables in the invariant, whoever sends it and whichever statements fail, a request either
    answers, and then the tables are exactly the ones its effect describes and the bus received the
    effect's events, some of them at least in order and all of them if nothing failed; or it reports
    an error, and then no table and nothing on the bus changed. *)
Theorem request_atomic (svc : Service) (a : Z) (req : Request) (s : St) (Hwf : wf (tabs s)) :
  match handle svc a req s with
  | (inr _, s') => exists evs, effect svc a req (tabs s) (tabs s') evs /\ delivered s s' evs
  | (inl _, s') => tabs s' = tabs s /\ published s' = published s
  end.
Proof. pose proof (handle_outcome svc a req s Hwf) as H. exact H. Qed.

(** The example with one statement, the nth, failing. *)
Definition example_failing (n : nat) : St :=
  with_faults (replicate n false ++ [true]) example_state.

Lemma request_atomic_witness :
  let req := ReqUpdateRole 1 21 (mkUpdateRoleInput None None (Some PermManageChannels) None None) in
  (handle example_service 101 req (example_failing 5)).1 = inl EDb /\
  (handle example_service 101 req (example_failing 50)).1 = inr tt /\
  (forall n, match handle example_service 101 req (example_failing n) with
    | (inr _, s') => exists evs, effect example_service 101 req example_tables (tabs s') evs /\
                                 delivered (example_failing n) s' evs
    | (inl _, s') => tabs s' = example_tables /\ published s' = []
    end).
Proof.
  intros req. split; [vm_compute; reflexivity|]. split; [vm_compute; reflexivity|].
  intros n. exact (request_atomic example_service 101 req (example_failing n) example_wf).
Defined.

(** The tables' invariant holds forever: after any sequence of requests, sent by any accounts,
    with any statement of any of them failing, every guild still has a real owner who is a member
    and exactly one @everyone role at position 0, no two other roles of a guild share a position,
    grants name members and roles of their own guild and never @everyone, the channel tree is one
    level deep within a guild, and every overwrite belongs to a channel. *)
Theorem serve_preserves_invariant (svc : Service) (reqs : list (Z * Request)) (s : St)
    (Hinv : inv (tabs s)) : inv (tabs (serve svc reqs s)).
Proof. by apply serve_inv. Qed.

(** An instance with three accounts and nothing else. *)
Definition founding_tables : Tables :=
  mkTables ∅ ∅ ∅ ∅ ∅ ∅ {[ 100 := mkDbUser "ann" "Ann" false; 101 := mkDbUser "bob" "Bob" false;
                         102 := mkDbUser "cyd" "Cyd" false ]} {[ 102 ]} ∅ ∅ Chat_empty.
Definition founding_state : St :=
  mkSt founding_tables [] (mkGenerator 3 0 0) (Z.add Epoch <$> seqZ 1 40) [] [].

(** The ids node 3 issues in its first milliseconds. *)
Definition first_ids (n : Z) : Z := Z.lor (Z.shiftl n timestampShift) (Z.shiftl 3 nodeShift).

(** 100 founds a guild, makes two roles, a category, a channel in it and an overwrite, moves the
    roles around, then the administrator renames the guild; a stranger's request is refused. *)
Definition founding_requests : list (Z * Request) := [
  (100, ReqCreateGuild (mkCreateGuildInput "g" None));
  (100, ReqCreateRole (first_ids 1) (mkCreateRoleInput "mods" 0 PermManageRoles false false));
  (100, ReqCreateRole (first_ids 1) (mkCreateRoleInput "helpers" 0 PermKickMembers false false));
  (100, ReqCreateChannel (first_ids 1) (mkCreateChannelInput "cat" ChannelGuildCategory None None 0 false None None));
  (101, ReqDeleteGuild (first_ids 1));
  (102, ReqUpdateGuild (first_ids 1) (mkUpdateGuildInput (Some "renamed"%string) None false None)) ].

Lemma serve_preserves_invariant_witness :
  let s' := serve example_service founding_requests founding_state in
  (size (t_guilds (tabs s')), size (t_roles (tabs s')), size (t_channels (tabs s')),
   size (t_audit (tabs s'))) = (1%nat, 3%nat, 1%nat, 5%nat) /\ inv (tabs s').
Proof.
  intros s'. split; [vm_compute; reflexivity|].
  apply (serve_preserves_invariant example_service founding_requests founding_state).
  split; [apply wf_check_sound|apply channels_check_sound]; vm_compute; reflexivity.
Defined.
