(* ===== verification/Layers.v ===== *)
(** How the layers depend on the tables: which rows an account's permissions in a guild read, when
    a change leaves them alone, and what a gained permission must come from. *)
From S2P Require Import Prelude GoStd Permissions Snowflake Rows TxMonad Queries.
From S2P Require Import Resolve StoreInv Authority.

(** ** The rows the layers read *)

(** The role [id] as account [u] of guild [g] has it: whether it is @everyone, and its permissions;
    [None] if it does not apply to the account. *)
Definition role_view (t : Tables) (g u id : Z) : option (bool * Z) :=
  match t_roles t !! id with
  | Some r =>
      if (role_guild_id r =? g) && (role_is_default r || bool_decide ((g, u, id) ∈ t_member_roles t))
      then Some (role_is_default r, role_permissions r) else None
  | None => None
  end.

(** The sides of the first two tiers. *)
Definition everyone_side (side : Z * Z -> Z) (t : Tables) (g c i : Z) : bool :=
  existsb (fun r => ow_bit side t c OverwriteTargetRole (role_id r) i) (default_roles t g).
Definition role_side (side : Z * Z -> Z) (t : Tables) (g u c i : Z) : bool :=
  existsb (fun r => ow_bit side t c OverwriteTargetRole (role_id r) i) (granted_roles t g u).

Section reading.
Context (t : Tables) (Hwf : wf t).

Lemma role_view_Some g u id b p :
  role_view t g u id = Some (b, p) <->
  exists r, t_roles t !! id = Some r /\ role_guild_id r = g /\ role_is_default r = b /\
    role_permissions r = p /\ (b = true \/ (g, u, id) ∈ t_member_roles t).
Proof.
  unfold role_view. split.
  - destruct (t_roles t !! id) as [r|] eqn:Hr; [|done].
    destruct (Z.eqb_spec (role_guild_id r) g) as [Hg|]; [|done]. rewrite andb_true_l.
    destruct (role_is_default r) eqn:Hd; [|rewrite orb_false_l; case_bool_decide as Hin; [|done]];
      intros [= <- <-]; exists r; auto 6.
  - intros (r & -> & <- & <- & <- & Hor). rewrite Z.eqb_refl, andb_true_l.
    destruct (role_is_default r); [done|]. destruct Hor as [|Hin]; [done|].
    by rewrite orb_false_l, bool_decide_eq_true_2.
Qed.

Lemma base_bit_view g u i :
  base_bit t g u i = true <->
  exists id b p, role_view t g u id = Some (b, p) /\ Z.testbit (PermissionFromInt64 p) i = true.
Proof.
  rewrite <- base_bit_authority, existsb_exists. split.
  - intros (r & Hr%list_elem_of_In & Hb). apply (authority_roles_lookup t Hwf) in Hr as [Hl Hor].
    apply get_role_Some in Hl as [Hl Hg]. exists (role_id r), (role_is_default r), (role_permissions r).
    split; [|done]. apply role_view_Some. exists r. split_and!; try done.
  - intros (id & b & p & (r & Hr & Hg & Hd & Hp & Hor)%role_view_Some & Hb). exists r.
    rewrite <- list_elem_of_In, (authority_roles_lookup t Hwf), get_role_Some.
    rewrite (wf_role_key _ Hwf _ _ Hr). subst b p. split; [|done]. split; [done|]. by destruct Hor; auto.
Qed.

Lemma everyone_side_view side g u c i :
  everyone_side side t g c i = true <->
  exists id p, role_view t g u id = Some (true, p) /\ ow_bit side t c OverwriteTargetRole id i = true.
Proof.
  unfold everyone_side. rewrite existsb_exists. split.
  - intros (r & [Hd Hr]%list_elem_of_In%elem_of_default_roles & Hb).
    apply (guild_roles_lookup t Hwf) in Hr as [Hl Hg]. exists (role_id r), (role_permissions r).
    split; [|done]. apply role_view_Some. exists r. auto 6.
  - intros (id & p & (r & Hr & Hg & Hd & Hp & _)%role_view_Some & Hb). exists r.
    rewrite <- list_elem_of_In, elem_of_default_roles, (guild_roles_lookup t Hwf).
    rewrite (wf_role_key _ Hwf _ _ Hr). auto.
Qed.

Lemma role_side_view side g u c i :
  role_side side t g u c i = true <->
  exists id p, role_view t g u id = Some (false, p) /\ ow_bit side t c OverwriteTargetRole id i = true.
Proof.
  unfold role_side. rewrite existsb_exists. split.
  - intros (r & [Hgr Hr]%list_elem_of_In%elem_of_granted_roles & Hb).
    apply (guild_roles_lookup t Hwf) in Hr as [Hl Hg]. exists (role_id r), (role_permissions r).
    split; [|done]. apply role_view_Some. exists r.
    destruct (wf_grant _ Hwf _ _ _ Hgr) as (_ & r' & [Hr' _]%get_role_Some & Hd).
    assert (r' = r) as -> by congruence. auto 6.
  - intros (id & p & (r & Hr & Hg & Hd & Hp & [?|Hgr])%role_view_Some & Hb); [done|]. exists r.
    rewrite <- list_elem_of_In, elem_of_granted_roles, (guild_roles_lookup t Hwf).
    rewrite (wf_role_key _ Hwf _ _ Hr). auto.
Qed.
End reading.

(** ** Changes that do not touch them *)

(** A channel whose overwrites the layers read. *)
Definition reads (t : Tables) (g c : Z) : Prop := c <> 0 /\ channel_in_guild t c g = true.

Record same_rows (t t' : Tables) (g u c : Z) : Prop := {
  same_owner : is_owner t' g u = is_owner t g u;
  same_member : is_member t' g u = is_member t g u;
  same_view : forall id, role_view t' g u id = role_view t g u id;
  same_channel : c <> 0 -> channel_in_guild t' c g = channel_in_guild t c g;
  same_role_overwrites : reads t g c ->
    forall id, t_overwrites t' !! (c, OverwriteTargetRole, id) = t_overwrites t !! (c, OverwriteTargetRole, id);
  same_own_overwrite : reads t g c ->
    t_overwrites t' !! (c, OverwriteTargetMember, u) = t_overwrites t !! (c, OverwriteTargetMember, u)
}.

Lemma same_rows_layered t t' g u c i :
  wf t -> wf t' -> same_rows t t' g u c -> layered t' g u c i = layered t g u c i.
Proof.
  intros Hwf Hwf' [Ho Hm Hv Hc How Hou].
  assert (forall i, base_bit t' g u i = base_bit t g u i) as Hb.
  { intros j. apply eq_true_iff_eq. rewrite !base_bit_view by done. by setoid_rewrite Hv. }
  unfold layered, bypasses, channel_bit. rewrite Ho, Hm, !Hb.
  destruct (Z.eqb_spec c 0) as [|Hne]; [done|]. rewrite (Hc Hne).
  destruct (channel_in_guild t c g) eqn:Hcg; [|done]. assert (reads t g c) as Hreads by done.
  specialize (How Hreads). specialize (Hou Hreads).
  assert (forall side id, ow_bit side t' c OverwriteTargetRole id i = ow_bit side t c OverwriteTargetRole id i)
    as Hbit by (intros; unfold ow_bit; by rewrite How).
  assert (forall side, ow_bit side t' c OverwriteTargetMember u i = ow_bit side t c OverwriteTargetMember u i)
    as Hbitu by (intros; unfold ow_bit; by rewrite Hou).
  assert (forall side, everyone_side side t' g c i = everyone_side side t g c i) as He.
  { intros side. apply eq_true_iff_eq. rewrite (everyone_side_view t' Hwf' side g u), (everyone_side_view t Hwf side g u).
    setoid_rewrite Hv. by setoid_rewrite Hbit. }
  assert (forall side, role_side side t' g u c i = role_side side t g u c i) as Hr.
  { intros side. apply eq_true_iff_eq. rewrite (role_side_view t' Hwf'), (role_side_view t Hwf).
    setoid_rewrite Hv. by setoid_rewrite Hbit. }
  unfold member_tier, role_tier, everyone_tier.
  fold (everyone_side fst t' g c i) (everyone_side snd t' g c i) (role_side fst t' g u c i)
    (role_side snd t' g u c i) (everyone_side fst t g c i) (everyone_side snd t g c i)
    (role_side fst t g u c i) (role_side snd t g u c i).
  by rewrite !He, !Hr, !Hbitu.
Qed.

(** ** What a gained permission comes from *)

(** Everything the defined bits say of an owner or an administrator. *)
Lemma bypass_bit t g u c i :
  is_owner t g u || is_member t g u = true -> bypasses t g u = true -> Z.testbit permAll i = true ->
  layered t g u c i = Some true.
Proof. intros Hm Hb Hi. unfold layered. by rewrite Hm, Hb, Hi. Qed.

(** [P0 j]: somebody else held bit [j] in the whole guild; [P]: held bit [i] here. Each row that
    could have given the bit was there before, or the bit was held. *)
Record gains_covered (t t' : Tables) (g u c i : Z) (P0 : Z -> Prop) (P : Prop) : Prop := {
  gc_owner : is_owner t' g u = true -> is_owner t g u = true;
  gc_member : is_member t' g u = true -> is_member t g u = true;
  gc_channel : c <> 0 -> channel_in_guild t' c g = channel_in_guild t c g;
  gc_base : forall j, base_bit t' g u j = true -> base_bit t g u j = true \/ P0 j;
  gc_allow_everyone : reads t g c -> everyone_side fst t' g c i = true -> everyone_side fst t g c i = true \/ P;
  gc_deny_everyone : reads t g c -> everyone_side snd t g c i = true -> everyone_side snd t' g c i = true \/ P;
  gc_allow_role : reads t g c -> role_side fst t' g u c i = true -> role_side fst t g u c i = true \/ P;
  gc_deny_role : reads t g c -> role_side snd t g u c i = true -> role_side snd t' g u c i = true \/ P;
  gc_allow_member : reads t g c -> ow_bit fst t' c OverwriteTargetMember u i = true ->
    ow_bit fst t c OverwriteTargetMember u i = true \/ P;
  gc_deny_member : reads t g c -> ow_bit snd t c OverwriteTargetMember u i = true ->
    ow_bit snd t' c OverwriteTargetMember u i = true \/ P
}.

Lemma tier_gain (a d b a' d' b' : bool) (P : Prop) :
  (a' = true -> a = true \/ P) -> (d = true -> d' = true \/ P) -> (b' = true -> b = true \/ P) ->
  tier a' d' b' = true -> tier a d b = true \/ P.
Proof. unfold tier. destruct a, d, b, a', d', b'; simpl; intuition congruence. Qed.

Lemma gained_is_held t t' g u c i P0 P :
  gains_covered t t' g u c i P0 P -> Z.testbit permAll i = true ->
  (P0 i -> P) -> (P0 9 -> P) ->
  layered t' g u c i = Some true -> layered t g u c i = Some true \/ P.
Proof.
  intros [Ho Hm Hc Hb Hea Hed Hra Hrd Hma Hmd] Hi HP HP9 Hl.
  destruct (is_owner t g u || is_member t g u) eqn:Hin.
  2:{ apply orb_false_iff in Hin as [Ho' Hm']. unfold layered in Hl.
      destruct (is_owner t' g u); [rewrite Ho in Ho' by done; done|].
      destruct (is_member t' g u); [rewrite Hm in Hm' by done; done|]. done. }
  destruct (bypasses t g u) eqn:Hby; [left; by apply bypass_bit|].
  assert (bypasses t' g u = true -> P) as Hby'.
  { unfold bypasses in *. apply orb_false_iff in Hby as [Ho' Hb9].
    intros [H|H]%orb_true_iff; [rewrite Ho in Ho' by done; done|].
    destruct (Hb 9 H) as [|]; [congruence|auto]. }
  unfold layered in *. rewrite Hin, Hby.
  destruct (is_owner t' g u || is_member t' g u); [|done]. injection Hl as Hl.
  destruct (bypasses t' g u); [right; by apply Hby'|].
  assert (base_bit t' g u i = true -> base_bit t g u i = true \/ P) as Hbi.
  { intros H. destruct (Hb i H); auto. }
  enough ((if c =? 0 then base_bit t g u i else channel_bit t g u c i) = true \/ P) as [->|]; [by left|by right|].
  destruct (Z.eqb_spec c 0) as [|Hne]; [by apply Hbi|]. unfold channel_bit in *. rewrite (Hc Hne) in Hl.
  destruct (channel_in_guild t c g) eqn:Hcg; [|by apply Hbi]. assert (reads t g c) as Hreads by done.
  unfold member_tier, role_tier, everyone_tier in *. revert Hl.
  apply tier_gain; [auto|auto|]. apply tier_gain; [auto|auto|]. apply tier_gain; auto.
Qed.

(** The same row by row: what each role that applies to the account gives, and the account's own
    overwrite. *)
Record rows_covered (t t' : Tables) (g u c i : Z) (P0 : Z -> Prop) (P : Prop) : Prop := {
  rc_owner : is_owner t' g u = true -> is_owner t g u = true;
  rc_member : is_member t' g u = true -> is_member t g u = true;
  rc_channel : c <> 0 -> channel_in_guild t' c g = channel_in_guild t c g;
  rc_base : forall id b p j, role_view t' g u id = Some (b, p) ->
    Z.testbit (PermissionFromInt64 p) j = true ->
    (exists b p0, role_view t g u id = Some (b, p0) /\ Z.testbit (PermissionFromInt64 p0) j = true) \/ P0 j;
  rc_allow : reads t g c -> forall id b p, role_view t' g u id = Some (b, p) ->
    ow_bit fst t' c OverwriteTargetRole id i = true ->
    (exists p0, role_view t g u id = Some (b, p0) /\ ow_bit fst t c OverwriteTargetRole id i = true) \/ P;
  rc_deny : reads t g c -> forall id b p, role_view t g u id = Some (b, p) ->
    ow_bit snd t c OverwriteTargetRole id i = true ->
    (exists p', role_view t' g u id = Some (b, p') /\ ow_bit snd t' c OverwriteTargetRole id i = true) \/ P;
  rc_allow_member : reads t g c -> ow_bit fst t' c OverwriteTargetMember u i = true ->
    ow_bit fst t c OverwriteTargetMember u i = true \/ P;
  rc_deny_member : reads t g c -> ow_bit snd t c OverwriteTargetMember u i = true ->
    ow_bit snd t' c OverwriteTargetMember u i = true \/ P
}.

Lemma rows_covered_gains t t' g u c i P0 P :
  wf t -> wf t' -> rows_covered t t' g u c i P0 P -> gains_covered t t' g u c i P0 P.
Proof.
  intros Hwf Hwf' [Ho Hm Hc Hb Ha Hd Hma Hmd]. split; try done.
  - intros j (id & b & p & Hv & Hj)%(base_bit_view t' Hwf').
    destruct (Hb id b p j Hv Hj) as [(b0 & p0 & Hv0 & Hj0)|]; [left|by right].
    apply (base_bit_view t Hwf). eauto.
  - intros Hrd (id & p & Hv & Hi)%(everyone_side_view t' Hwf' fst g u).
    destruct (Ha Hrd id true p Hv Hi) as [(p0 & Hv0 & Hi0)|]; [left|by right].
    apply (everyone_side_view t Hwf fst g u). eauto.
  - intros Hrd (id & p & Hv & Hi)%(everyone_side_view t Hwf snd g u).
    destruct (Hd Hrd id true p Hv Hi) as [(p0 & Hv0 & Hi0)|]; [left|by right].
    apply (everyone_side_view t' Hwf' snd g u). eauto.
  - intros Hrd (id & p & Hv & Hi)%(role_side_view t' Hwf').
    destruct (Ha Hrd id false p Hv Hi) as [(p0 & Hv0 & Hi0)|]; [left|by right].
    apply (role_side_view t Hwf). eauto.
  - intros Hrd (id & p & Hv & Hi)%(role_side_view t Hwf).
    destruct (Hd Hrd id false p Hv Hi) as [(p0 & Hv0 & Hi0)|]; [left|by right].
    apply (role_side_view t' Hwf'). eauto.
Qed.
