(* ===== verification/Escalation.v ===== *)
(** Who may do what to whom: the hierarchy of roles and members, and that no request gives an
    account a permission its sender does not hold. *)
From S2P Require Import Prelude GoStd Permissions Snowflake Rows TxMonad Queries.
From S2P Require Import Resolve StoreInv Authority ResolveMany GuildAuth GuildCommon RoleSvc.
From S2P Require Import OverwriteSvc MemberSvc GuildSvc ChannelSvc Preserve GuildService Layers.

(** ** What a decision about an ordinary account says *)

Section decisions.
Context (t : Tables) (a g c need : Z) (d : GuildDecision).
Context (Hadm : is_admin t a = false) (Hgr : granted t a g c need d).

Lemma granted_resolved :
  instanceAdmin d = false /\ resolved t g a c (resolution d) /\ holds t g a c need.
Proof. pose proof Hgr as H. unfold granted in H. cbn [authorize_verdict] in H. by rewrite Hadm in H. Qed.

Lemma Allows_holds p : Decision_Allows d p = true <-> holds t g a c p.
Proof.
  destruct granted_resolved as (Hi & Hr & _). unfold Decision_Allows. rewrite Hi. cbn.
  by apply resolved_holds.
Qed.

Lemma AllowsInChannel_holds c' p :
  c = 0 -> c' <> 0 -> channel_in_guild t c' g = true ->
  Decision_AllowsInChannel d c' (channel_overwrites t c') p = true <-> holds t g a c' p.
Proof.
  intros Hc Hc' Hin. destruct granted_resolved as (Hi & Hr & _). unfold Decision_AllowsInChannel.
  rewrite Hi. cbn. destruct Hr as [_ _ _ _ _ Hch]. specialize (Hch Hc c').
  rewrite Has_spec. unfold holds. rewrite Hin in Hch.
  split; intros H i Hi'; specialize (H i Hi'); specialize (Hch i Hc'); congruence.
Qed.

Lemma Outranks_standing p :
  Decision_Outranks d p = true <-> is_owner t g a = true \/ p < standing_of t g a.
Proof.
  destruct granted_resolved as (Hi & [_ _ _ Ho Hs _] & _).
  unfold Decision_Outranks, Resolution_Outranks. rewrite Hi. cbn.
  unfold Resolution_Standing in Hs. rewrite orb_true_iff, Ho, Z.ltb_lt, Hs.
  destruct (is_owner t g a); [tauto|]. naive_solver.
Qed.

Lemma OutranksMember_standing u p gr :
  t_guilds t !! g = Some gr ->
  Decision_OutranksMember d u p = true ->
  u <> guild_owner_id gr /\ (is_owner t g a = true \/ p < standing_of t g a).
Proof.
  intros Hg. pose proof (Outranks_standing p) as Ho.
  destruct granted_resolved as (Hi & [_ (gr' & Hg' & How) _ _ _ _] & _).
  unfold Decision_OutranksMember, Decision_Outranks, Resolution_OutranksMember in *.
  rewrite Hi in *. cbn in *. rewrite How. assert (gr' = gr) as -> by congruence.
  destruct (Z.eqb_spec u (guild_owner_id gr)); [done|]. intros H. split; [done|]. by apply Ho.
Qed.
End decisions.

(** ** Which requests touch an account's permissions *)

(** The guild level ([c = 0]), or a channel of the guild. *)
Definition place (t : Tables) (g c : Z) : Prop := c = 0 \/ channel_in_guild t c g = true.

(** A committed request that may change what the layers say of account [u] in guild [g]. *)
Definition touches (t : Tables) (req : Request) (g u : Z) : Prop :=
  match req with
  | ReqUpdateRole g' _ r => g' = g /\ is_Some (uri_Permissions r)
  | ReqDeleteRole g' _ | ReqChangeMemberRole g' _ _ _ | ReqTransferOwnership g' _
  | ReqDeleteGuild g' => g' = g
  | ReqRemoveMember g' u' => g' = g /\ u' = u
  | ReqSetOverwrite r => channel_in_guild t (so_ChannelID r) g = true
  | ReqDeleteOverwrite c _ _ => channel_in_guild t c g = true
  | _ => False
  end.

Lemma same_rows_refl t g u c : same_rows t t g u c.
Proof. by split. Qed.

(** Tables that agree wherever the layers look. *)
Lemma same_rows_frame t t' g u c :
  t_guilds t' = t_guilds t -> t_members t' = t_members t -> t_roles t' = t_roles t ->
  t_member_roles t' = t_member_roles t -> t_channels t' = t_channels t ->
  t_overwrites t' = t_overwrites t -> same_rows t t' g u c.
Proof.
  intros Eg Em Er Emr Ec Eo.
  split; unfold is_owner, is_member, role_view, channel_in_guild;
    rewrite ?Eg, ?Em, ?Er, ?Emr, ?Ec, ?Eo; done.
Qed.

(** A role map that keeps kinds and permissions. *)
Lemma role_view_map t m g u :
  (forall id, match m !! id, t_roles t !! id with
              | Some r', Some r => role_guild_id r' = role_guild_id r /\
                  role_is_default r' = role_is_default r /\ role_permissions r' = role_permissions r
              | None, None => True
              | _, _ => False
              end) ->
  forall id, role_view (set_roles m t) g u id = role_view t g u id.
Proof.
  intros H id. specialize (H id). unfold role_view. cbn.
  destruct (m !! id), (t_roles t !! id); try done. by destruct H as (-> & -> & ->).
Qed.

Lemma same_rows_roles t m g u c :
  (forall id, role_view (set_roles m t) g u id = role_view t g u id) -> same_rows t (set_roles m t) g u c.
Proof. by split. Qed.

Lemma same_rows_trans t1 t2 t3 g u c :
  same_rows t1 t2 g u c -> same_rows t2 t3 g u c -> same_rows t1 t3 g u c.
Proof.
  intros [o1 m1 v1 c1 w1 x1] [o2 m2 v2 c2 w2 x2]. split; try congruence.
  - intros Hc. rewrite (c2 Hc). by apply c1.
  - intros [Hc Hin] id. rewrite w2 by (split; [done|by rewrite (c1 Hc)]). by apply w1.
  - intros [Hc Hin]. rewrite x2 by (split; [done|by rewrite (c1 Hc)]). by apply x1.
Qed.

Lemma channel_in_guild_fun t c g1 g2 :
  channel_in_guild t c g1 = true -> channel_in_guild t c g2 = true -> g1 = g2.
Proof. intros (ch & H1 & E1)%channel_in_guild_true (ch' & H2 & E2)%channel_in_guild_true. congruence. Qed.

Section untouched.
Context (t : Tables) (Hinv : inv t) (g u c : Z) (Hg : is_Some (t_guilds t !! g)).

Lemma same_rows_update_role g' role r r' :
  get_role t role g' = Some r -> role_guild_id r' = g' ->
  (g' = g -> role_is_default r' = role_is_default r /\ role_permissions r' = role_permissions r) ->
  same_rows t (set_roles (<[role := r']> (t_roles t)) t) g u c.
Proof.
  intros [Hr Hrg]%get_role_Some Hg' Hsame. apply same_rows_roles. intros id. unfold role_view. cbn.
  destruct (decide (id = role)) as [->|]; [|by rewrite lookup_insert_ne].
  rewrite lookup_insert_eq, Hr, Hg', Hrg. destruct (Z.eqb_spec g' g); [|done].
  by destruct Hsame as [-> ->].
Qed.

Lemma same_rows_guild_set g' gr :
  (g' = g -> exists gr0, t_guilds t !! g = Some gr0 /\ guild_owner_id gr = guild_owner_id gr0) ->
  same_rows t (set_guilds (<[g' := gr]> (t_guilds t)) t) g u c.
Proof.
  intros H. split; try done; unfold is_owner, is_member; cbn.
  - destruct (decide (g' = g)) as [->|]; [|by rewrite lookup_insert_ne].
    rewrite lookup_insert_eq. by destruct (H eq_refl) as (gr0 & -> & ->).
  - destruct (decide (g' = g)) as [->|]; [|by rewrite lookup_insert_ne].
    f_equal. apply bool_decide_ext. rewrite lookup_insert_eq. split; intros _; [done|by eexists].
Qed.

Lemma same_rows_channels m :
  (c <> 0 -> channel_in_guild (set_channels m t) c g = channel_in_guild t c g) ->
  same_rows t (set_channels m t) g u c.
Proof. intros H. by split. Qed.

Lemma same_rows_overwrites m :
  (reads t g c -> forall id, m !! (c, OverwriteTargetRole, id) =
     t_overwrites t !! (c, OverwriteTargetRole, id)) ->
  (reads t g c ->
     m !! (c, OverwriteTargetMember, u) = t_overwrites t !! (c, OverwriteTargetMember, u)) ->
  same_rows t (set_overwrites m t) g u c.
Proof. intros. by split. Qed.


Lemma same_rows_create_guild gid rid a gr m :
  t_guilds t !! gid = None -> t_roles t !! rid = None ->
  same_rows t (set_members (<[(gid, a) := m]> (t_members t))
              (set_roles (<[rid := everyone_role rid gid]> (t_roles t))
              (set_guilds (<[gid := gr]> (t_guilds t)) t))) g u c.
Proof.
  intros Hnew Hr. assert (gid <> g) as Hne by (intros ->; rewrite Hnew in Hg; by destruct Hg).
  split; try done; unfold is_owner, is_member, role_view; cbn.
  - by rewrite lookup_insert_ne.
  - rewrite !lookup_insert_ne by congruence. done.
  - intros id. destruct (decide (id = rid)) as [->|]; [|by rewrite lookup_insert_ne].
    rewrite lookup_insert_eq, Hr. cbn. by rewrite (proj2 (Z.eqb_neq gid g)).
Qed.

Lemma same_rows_without_guild g' : g' <> g -> same_rows t (without_guild g' t) g u c.
Proof.
  intros Hne. assert (forall c', channel_in_guild t c' g = true -> channel_in_guild t c' g' = false) as Hother.
  { intros c' Hin. destruct (channel_in_guild t c' g') eqn:E; [|done].
    by pose proof (channel_in_guild_fun _ _ _ _ Hin E). }
  split; unfold is_owner, is_member; cbn.
  - by rewrite lookup_delete_ne.
  - rewrite lookup_delete_ne by done. f_equal. apply bool_decide_ext. by rewrite lookup_filter_keep.
  - intros id. unfold role_view. cbn. destruct (t_roles t !! id) as [r|] eqn:Hr.
    + destruct (Z.eqb_spec (role_guild_id r) g) as [Hrg|Hrg].
      * rewrite (map_lookup_filter_Some_2 _ _ _ _ Hr) by (cbn; congruence). rewrite Hrg, Z.eqb_refl.
        erewrite bool_decide_ext; [done|]. rewrite elem_of_filter. cbn. unfold get_role. cbn.
        rewrite Hr, (proj2 (Z.eqb_neq _ _)) by congruence. naive_solver.
      * destruct (filter _ (t_roles t) !! id) as [r'|] eqn:Hf; [|done].
        apply map_lookup_filter_Some in Hf as [Hf _]. assert (r' = r) as -> by congruence.
        by rewrite (proj2 (Z.eqb_neq _ _)).
    + by rewrite map_lookup_filter_None_2 by auto.
  - intros _. unfold channel_in_guild. cbn. destruct (t_channels t !! c) as [ch|] eqn:Hch.
    + destruct (decide (channel_guild_id ch = Some g)) as [E|E].
      * rewrite (map_lookup_filter_Some_2 _ _ _ _ Hch) by (cbn; congruence). done.
      * rewrite (bool_decide_eq_false_2 _ E). destruct (filter _ _ !! c) as [ch'|] eqn:Hf; [|done].
        apply map_lookup_filter_Some in Hf as [Hf _]. apply bool_decide_eq_false_2. congruence.
    + by rewrite map_lookup_filter_None_2 by auto.
  - intros [_ Hin] id. rewrite lookup_filter_keep; [done|]. intros v _. cbn. auto.
  - intros [_ Hin]. rewrite lookup_filter_keep; [done|]. intros v _. cbn. auto.
Qed.

(** A role nobody holds yet. *)
Lemma same_rows_create_role g' id r :
  t_roles t !! id = None ->
  same_rows t (set_roles (<[id := new_role id g' r]> (shifted t g' <$> t_roles t)) t) g u c.
Proof.
  intros Hr. apply same_rows_roles. intros id'. unfold role_view. cbn.
  destruct (decide (id' = id)) as [->|].
  - rewrite lookup_insert_eq, Hr. cbn. rewrite bool_decide_eq_false_2; [by rewrite andb_false_r|].
    intros (_ & r' & [Hr' _]%get_role_Some & _)%(wf_grant _ (proj1 Hinv)). congruence.
  - rewrite lookup_insert_ne, lookup_fmap by done. destruct (t_roles t !! id') as [r'|]; [|done]. cbn.
    destruct (shifted_fields t g' r') as (_ & -> & -> & ->). done.
Qed.

Lemma same_rows_repositioned wants :
  same_rows t (set_roles (repositioned wants (t_roles t)) t) g u c.
Proof.
  apply same_rows_roles, role_view_map. unfold repositioned. generalize (t_roles t) as m.
  assert (forall m m' : gmap Z dbRole, (forall id, match m' !! id, m !! id with
      | Some r', Some r => role_guild_id r' = role_guild_id r /\
          role_is_default r' = role_is_default r /\ role_permissions r' = role_permissions r
      | None, None => True | _, _ => False end) ->
    forall id, match foldl (fun m want => alter (with_position (rp_Position want)) (rp_ID want) m) m' wants
                     !! id, m !! id with
      | Some r', Some r => role_guild_id r' = role_guild_id r /\
          role_is_default r' = role_is_default r /\ role_permissions r' = role_permissions r
      | None, None => True | _, _ => False end) as H.
  { induction wants as [|w ws IH]; intros m m' Hm; cbn; [done|]. apply IH. intros id.
    specialize (Hm id). destruct (decide (id = rp_ID w)) as [->|]; [|by rewrite lookup_alter_ne].
    rewrite lookup_alter_eq. by destruct (m' !! rp_ID w). }
  intros m. apply H. intros id. by destruct (m !! id).
Qed.

Lemma same_rows_without_role g' id r :
  get_role t id g' = Some r -> g' <> g ->
  same_rows t (without_role id (without_overwrites_for g' OverwriteTargetRole id t)) g u c.
Proof.
  intros [Hr Hrg]%get_role_Some Hne. split; try done; cbn.
  - intros id'. unfold role_view. cbn. destruct (decide (id' = id)) as [->|].
    + rewrite lookup_delete_eq, Hr. by rewrite (proj2 (Z.eqb_neq _ _)) by congruence.
    + rewrite lookup_delete_ne by done. destruct (t_roles t !! id') as [r'|]; [|done].
      erewrite bool_decide_ext; [done|]. rewrite elem_of_filter. naive_solver.
  - intros [_ Hin] id'. rewrite lookup_filter_keep; [done|]. intros v _ (Hin' & _). cbn in Hin'.
    by pose proof (channel_in_guild_fun _ _ _ _ Hin Hin').
  - intros [_ Hin]. rewrite lookup_filter_keep; [done|]. intros v _ (Hin' & _). cbn in Hin'.
    by pose proof (channel_in_guild_fun _ _ _ _ Hin Hin').
Qed.

Lemma same_rows_grants g' u' id assigning :
  g' <> g -> same_rows t (set_member_roles (grants_after assigning g' u' id (t_member_roles t)) t) g u c.
Proof.
  intros Hne. split; try done. intros id'. unfold role_view. cbn.
  destruct (t_roles t !! id'); [|done]. erewrite bool_decide_ext; [done|].
  unfold grants_after. destruct assigning; set_solver.
Qed.

Lemma same_rows_update_member k m m' :
  t_members t !! k = Some m -> same_rows t (set_members (<[k := m']> (t_members t)) t) g u c.
Proof.
  intros Hm. split; try done. unfold is_member. cbn. f_equal. apply bool_decide_ext.
  destruct (decide (k = (g, u))) as [->|]; [|by rewrite lookup_insert_ne].
  rewrite lookup_insert_eq, Hm. split; intros _; by eexists.
Qed.

Lemma same_rows_without_member g' u' :
  (g', u') <> (g, u) ->
  same_rows t (without_member g' u' (without_overwrites_for g' OverwriteTargetMember u' t)) g u c.
Proof.
  intros Hne. split; try done; cbn.
  - unfold is_member. cbn. by rewrite lookup_delete_ne.
  - intros id. unfold role_view. cbn. destruct (t_roles t !! id); [|done].
    erewrite bool_decide_ext; [done|]. rewrite elem_of_filter. naive_solver.
  - intros [_ Hin] id. rewrite lookup_filter_keep; [done|]. intros v _ (_ & Hty & _). by cbn in Hty.
  - intros [_ Hin]. rewrite lookup_filter_keep; [done|]. intros v _ (Hin' & _ & Hu). cbn in *.
    pose proof (channel_in_guild_fun _ _ _ _ Hin Hin'). congruence.
Qed.

Lemma same_rows_overwrite_elsewhere (c' ty id : Z) m :
  (forall k, k <> (c', ty, id) -> m !! k = t_overwrites t !! k) -> channel_in_guild t c' g = false ->
  same_rows t (set_overwrites m t) g u c.
Proof. intros Hm Hc'. apply same_rows_overwrites; intros [_ Hin]; intros; apply Hm; congruence. Qed.

Lemma same_rows_new_channel p cid m :
  t_channels t !! cid = None ->
  (c <> 0 -> channel_in_guild (with_copied p cid (set_channels m t)) c g = channel_in_guild t c g) ->
  same_rows t (with_copied p cid (set_channels m t)) g u c.
Proof.
  intros Hnew Hcg. assert (channel_in_guild t c g = true -> forall ty id,
    t_overwrites (with_copied p cid (set_channels m t)) !! (c, ty, id) = t_overwrites t !! (c, ty, id)) as How.
  { intros (ch & Hch & _)%channel_in_guild_true ty id. destruct p as [p|]; [|done]. cbn.
    apply lookup_union_l. destruct (copied _ cid p !! (c, ty, id)) eqn:E; [|done].
    apply copied_lookup in E as (? & ? & [= -> _ _] & _). congruence. }
  split; try done; unfold with_copied in *; destruct p; try done; intros [_ Hin]; intros; by apply How.
Qed.

Lemma same_rows_without_channel c' :
  (c <> 0 -> channel_in_guild (without_channel c' t) c g = channel_in_guild t c g) ->
  (reads t g c -> c' <> c) ->
  same_rows t (without_channel c' t) g u c.
Proof.
  intros Hcg Hc'. split; try done; cbn; intros Hin; intros; (rewrite lookup_filter_keep; [done|]);
    intros v _; cbn; intros ->; by apply Hc'.
Qed.
End untouched.

Lemma same_rows_audited id row t t1 g u c : same_rows t t1 g u c -> same_rows t (audited id row t1) g u c.
Proof. intros H. eapply same_rows_trans; [exact H|]. by apply same_rows_frame. Qed.

Lemma same_rows_audited_all ids rows t g u c : same_rows t (audited_all ids rows t) g u c.
Proof. destruct (audited_all_is ids rows t) as [m ->]. by apply same_rows_frame. Qed.

(** A committed request that does not touch them leaves every row the layers read. *)
Lemma effect_rows svc a req t t' evs g u c :
  inv t -> effect svc a req t t' evs -> is_Some (t_guilds t !! g) ->
  (c <> 0 -> channel_in_guild t' c g = channel_in_guild t c g) ->
  same_rows t t' g u c \/ touches t req g u.
Proof.
  intros Hinv He Hg Hcg.
  destruct req as [r|g'|g'|g' r|g' role r|g' role|g' wants|g' u' role b|g' u' r|g' u'|g' to|r|c' ty id|g' r|c' r|c'];
    cbn [effect touches] in *.
  - left. destruct He as (gid & rid & out & aid & _ & _ & Hnew & _ & Hr & _ & _ & -> & _).
    eapply same_rows_trans; [by apply same_rows_create_guild|by apply same_rows_frame].
  - left. destruct He as (out & d & existing & ids & _ & He & _ & _ & _ & _ & -> & _).
    eapply same_rows_trans; [apply (same_rows_guild_set t g u c Hg g'
      (updated_guild (update_guild_params g' r) existing)); intros ->; by exists existing|].
    apply same_rows_audited_all.
  - destruct (decide (g' = g)) as [|Hne]; [by right|left].
    destruct He as (d & aid & gr & _ & _ & _ & _ & -> & _).
    eapply same_rows_trans; [by apply same_rows_without_guild|by apply same_rows_frame].
  - left. destruct He as (id & out & d & aid & _ & _ & _ & _ & Hr & _ & _ & -> & _).
    eapply same_rows_trans; [by apply same_rows_create_role|by apply same_rows_frame].
  - destruct He as (out & d & aid & existing & _ & He & _ & _ & _ & _ & -> & _).
    destruct (decide (g' = g /\ is_Some (uri_Permissions r))) as [|Hne]; [by right|left].
    pose proof He as [_ Hrg]%get_role_Some.
    eapply same_rows_trans; [apply (same_rows_update_role t g u c g' role existing
      (updated_role (update_role_params role g' r) existing) He Hrg)|by apply same_rows_frame].
    intros ->. split; [done|]. cbn. destruct (uri_Permissions r); [|done]. destruct Hne. split; [done|by eexists].
  - destruct He as (d & aid & existing & _ & He & _ & _ & _ & _ & -> & _).
    destruct (decide (g' = g)) as [|Hne]; [by right|left].
    eapply same_rows_trans; [by eapply same_rows_without_role|by apply same_rows_frame].
  - left. destruct He as (out & d & aid & _ & _ & _ & _ & -> & _).
    eapply same_rows_trans; [apply same_rows_repositioned|by apply same_rows_frame].
  - destruct He as (out & d & r & m & _ & _ & _ & _ & _ & _ & _ & _ & Ht & _).
    destruct (decide (g' = g)) as [|Hne]; [by right|left].
    destruct (Bool.eqb _ _); [subst; apply same_rows_refl|]. destruct Ht as (aid & _ & ->).
    eapply same_rows_trans; [by apply (same_rows_grants t Hinv g u c Hg g' u' role b)|by apply same_rows_frame].
  - left. destruct He as (out & d & aid & m & _ & _ & Hm & _ & _ & -> & _).
    eapply same_rows_trans; [by eapply same_rows_update_member|by apply same_rows_frame].
  - destruct He as (d & aid & gr & m & _ & _ & _ & _ & _ & -> & _).
    destruct (decide ((g', u') = (g, u))) as [[= -> ->]|Hne]; [by right|left].
    eapply same_rows_trans; [by apply same_rows_without_member|by apply same_rows_frame].
  - destruct (decide (g' = g)) as [|Hne]; [by right|left].
    destruct He as (out & d & aid & gr & _ & _ & _ & _ & _ & _ & _ & _ & -> & _).
    eapply same_rows_trans; [by apply (same_rows_guild_set t g u c Hg g')|by apply same_rows_frame].
  - destruct He as (out & g' & d & aid & _ & _ & _ & _ & _ & _ & _ & _ & -> & _).
    destruct (channel_in_guild t (so_ChannelID r) g) eqn:E; [by right|left].
    apply same_rows_audited.
    eapply same_rows_overwrite_elsewhere; [|exact E]. intros. by rewrite lookup_insert_ne.
  - destruct He as (g' & d & aid & row & _ & _ & _ & _ & _ & _ & _ & -> & _).
    destruct (channel_in_guild t c' g) eqn:E; [by right|left].
    eapply (same_rows_trans _ (audited _ _ t)); [by apply same_rows_frame|].
    eapply same_rows_overwrite_elsewhere; [|exact E]. intros. by rewrite lookup_delete_ne.
  - left. destruct He as (_ & _ & id & out & d & aid & _ & _ & _ & Hn & _ & _ & -> & _).
    apply same_rows_audited. by apply same_rows_new_channel.
  - left. destruct He as (out & g' & d & aid & existing & _ & _ & _ & _ & _ & -> & _).
    apply same_rows_audited, same_rows_channels. exact Hcg.
  - left. destruct He as (g' & d & aid & existing & _ & _ & _ & _ & -> & _).
    eapply (same_rows_trans _ (audited _ _ t)); [by apply same_rows_frame|].
    apply (same_rows_without_channel (audited _ _ t)); [exact Hcg|].
    intros [Hc Hin] ->. change (channel_in_guild t c g = true) in Hin. specialize (Hcg Hc). rewrite Hin in Hcg. apply channel_in_guild_true in Hcg as (ch & Hch & _). cbn in Hch.
    unfold channels_without in Hch. by rewrite lookup_fmap, lookup_delete_eq in Hch.
Qed.

(** ** What a request that touches them gives *)

(** The account holds the bit, in the channel or in the whole guild. *)
Definition has_bit (t : Tables) (g a c i : Z) : Prop :=
  layered t g a c i = Some true \/ layered t g a 0 i = Some true.

Lemma holds_bit t g a c p i : holds t g a c p -> Z.testbit p i = true -> has_bit t g a c i.
Proof. intros H Hi. left. by apply H. Qed.

Lemma administrator_all t g a c i :
  Z.testbit permAll i = true -> layered t g a 0 9 = Some true -> layered t g a c i = Some true.
Proof.
  intros Hi. unfold layered, bypasses. destruct (_ || _); [|done].
  destruct (is_owner t g a); cbn; [by rewrite Hi|]. destruct (base_bit t g a 9); [by rewrite Hi|done].
Qed.

Lemma owner_all t g a c i :
  is_owner t g a = true -> Z.testbit permAll i = true -> layered t g a c i = Some true.
Proof. intros Ho Hi. apply bypass_bit; [by rewrite Ho| |done]. unfold bypasses. by rewrite Ho. Qed.

Lemma Known_is_perm p : Known p = true -> is_perm p.
Proof.
  unfold Known. rewrite Z.eqb_eq. intros H. assert (p = Z.land p permAll) as ->.
  { apply Z.bits_inj'. intros i _. rewrite Z.land_spec. destruct (Z.testbit p i) eqn:E; [|done].
    destruct (Z.testbit permAll i) eqn:E'; [done|].
    assert (Z.testbit (Z.ldiff p permAll) i = true) as Hb by (by rewrite Z.ldiff_spec, E, E').
    by rewrite H, Z.bits_0 in Hb. }
  assert (0 <= Z.land p permAll) by (apply Z.land_nonneg; right; done).
  assert (Z.land p permAll < 2 ^ 22).
  { apply below_pow2_iff; [done..|]. intros i Hi. rewrite Z.land_spec.
    rewrite (testbit_high permAll i 22) by done. apply andb_false_r. }
  split; [done|]. by eapply Z.lt_trans.
Qed.

(** What is stored is what was checked. *)
Lemma Known_stored p : Known p = true -> PermissionFromInt64 (Permission_Int64 p) = p.
Proof. intros H. by apply uint64_int64, Known_is_perm. Qed.

Section gains.
Context (t : Tables) (Hwf : wf t) (a g u c i : Z).
Context (Hadm : is_admin t a = false) (Hi : Z.testbit permAll i = true).

(** The actor's own bits, at guild level and here. *)
Local Abbreviation P0 := (fun j => layered t g a 0 j = Some true).
Local Abbreviation P := (has_bit t g a c i).

Lemma covered_gain t' :
  wf t' -> rows_covered t t' g u c i P0 P ->
  layered t' g u c i = Some true -> layered t g u c i = Some true \/ P.
Proof.
  intros Hwf' Hr Hl. eapply gained_is_held; [by apply rows_covered_gains|done|..|exact Hl].
  - by right.
  - intros H. left. by apply administrator_all.
Qed.

Lemma covered_update_role d role r existing :
  granted t a g 0 PermManageRoles d -> get_role t role g = Some existing ->
  (forall want, uri_Permissions r = Some want -> Known want = true /\ Decision_Allows d want = true) ->
  rows_covered t (set_roles (<[role := updated_role (update_role_params role g r) existing]> (t_roles t)) t)
    g u c i P0 P.
Proof.
  intros Hd [Hr Hrg]%get_role_Some Hw. set (t' := set_roles _ t).
  assert (forall id, role_view t' g u id = (fun bp => (bp.1,
            if decide (id = role) then coalesce (Permission_Int64 <$> uri_Permissions r) bp.2 else bp.2))
            <$> role_view t g u id) as Hv'.
  { intros id. unfold role_view. cbn. destruct (decide (id = role)) as [->|].
    - rewrite lookup_insert_eq, Hr. cbn. by destruct (_ && _).
    - rewrite lookup_insert_ne by done. destruct (t_roles t !! id); [|done]. by destruct (_ && _). }
  split; try done.
  - intros id b p j Hv Hj. rewrite Hv' in Hv.
    destruct (role_view t g u id) as [[b0 p0]|]; [|done]. injection Hv as <- <-.
    destruct (decide (id = role)); [|left; eauto].
    destruct (uri_Permissions r) as [want|]; [right|left; eauto]. cbn in Hj.
    destruct (Hw want eq_refl) as [Hk Ha]. rewrite Known_stored in Hj by done.
    apply (Allows_holds t a g 0 PermManageRoles d Hadm Hd) in Ha. by apply Ha.
  - intros _ id b p Hv Hb. left. rewrite Hv' in Hv.
    destruct (role_view t g u id) as [[b0 p0]|]; [|done]. injection Hv as <- <-. eauto.
  - intros _ id b p Hv Hb. left. rewrite Hv', Hv. cbn. eauto.
  - by left.
  - by left.
Qed.

(** A target's overwrite in this channel, once the check for its removal passed. *)
Lemma removal_held d id side :
  granted t a g 0 PermManageRoles d -> may_remove_overwrites t g d OverwriteTargetRole id ->
  (side = fst \/ side = snd) -> reads t g c ->
  ow_bit side t c OverwriteTargetRole id i = true -> P.
Proof.
  intros Hd Hrm Hside [Hc Hin] Hb. unfold ow_bit in Hb.
  destruct (t_overwrites t !! (c, OverwriteTargetRole, id)) as [[al de]|] eqn:E; [|done].
  specialize (Hrm c al de Hin E).
  apply (AllowsInChannel_holds t a g 0 PermManageRoles d Hadm Hd) in Hrm; [|done..].
  apply (holds_bit _ _ _ _ _ _ Hrm). rewrite testbit_add. apply orb_true_iff.
  destruct Hside; subst side; auto.
Qed.

Lemma covered_without_role d role r :
  granted t a g 0 PermManageRoles d -> may_remove_overwrites t g d OverwriteTargetRole role ->
  get_role t role g = Some r ->
  rows_covered t (without_role role (without_overwrites_for g OverwriteTargetRole role t)) g u c i P0 P.
Proof.
  intros Hd Hrm Hr. set (t' := without_role _ _).
  assert (forall id, role_view t' g u id = if decide (id = role) then None else role_view t g u id) as Hv'.
  { intros id. unfold role_view. cbn. destruct (decide (id = role)) as [->|].
    - by rewrite lookup_delete_eq.
    - rewrite lookup_delete_ne by done. destruct (t_roles t !! id); [|done].
      erewrite bool_decide_ext; [done|]. rewrite elem_of_filter. naive_solver. }
  assert (forall side id, id <> role ->
    ow_bit side t' c OverwriteTargetRole id i = ow_bit side t c OverwriteTargetRole id i) as Hb'.
  { intros side id Hne. unfold ow_bit. cbn. rewrite lookup_filter_keep; [done|].
    by intros v _ (_ & _ & ?). }
  assert (forall side, ow_bit side t' c OverwriteTargetMember u i = ow_bit side t c OverwriteTargetMember u i)
    as Hm'.
  { intros side. unfold ow_bit. cbn. rewrite lookup_filter_keep; [done|]. by intros v _ (_ & ? & _). }
  split; try done.
  - intros id b p j Hv Hj. rewrite Hv' in Hv. destruct (decide (id = role)); [done|]. left. eauto.
  - intros _ id b p Hv Hb. rewrite Hv' in Hv. destruct (decide (id = role)); [done|].
    rewrite Hb' in Hb by done. left. eauto.
  - intros Hreads id b p Hv Hb. rewrite Hv'. destruct (decide (id = role)) as [->|].
    + right. eapply removal_held; eauto.
    + left. rewrite Hb' by done. eauto.
  - rewrite Hm'. by left.
  - rewrite Hm'. by left.
Qed.

Lemma covered_grants d u' role r assigning :
  granted t a g 0 PermManageRoles d -> may_remove_overwrites t g d OverwriteTargetRole role ->
  get_role t role g = Some r -> role_is_default r = false ->
  (assigning = true -> Known (PermissionFromInt64 (role_permissions r)) = true /\
     Decision_Allows d (PermissionFromInt64 (role_permissions r)) = true) ->
  rows_covered t (set_member_roles (grants_after assigning g u' role (t_member_roles t)) t) g u c i P0 P.
Proof.
  intros Hd Hrm [Hr Hrg]%get_role_Some Hdef Ha. set (t' := set_member_roles _ t).
  assert (forall id, id <> role -> role_view t' g u id = role_view t g u id) as Hother.
  { intros id Hne. unfold role_view. cbn. destruct (t_roles t !! id); [|done].
    erewrite bool_decide_ext; [done|]. unfold grants_after. destruct assigning; set_solver. }
  assert (forall t0 x, t_roles t0 !! role = Some r -> role_view t0 g u role = Some x ->
    x = (false, role_permissions r)) as Hrole.
  { intros t0 x. unfold role_view. intros -> H. destruct (_ && _); [|done]. rewrite Hdef in H. by simplify_eq. }
  split; try done.
  - intros id b p j Hv Hj. destruct (decide (id = role)) as [->|]; [|rewrite Hother in Hv by done; left; eauto].
    pose proof (Hrole t' _ Hr Hv) as [= -> ->].
    destruct (role_view t g u role) as [[b0 p0]|] eqn:E.
    + left. pose proof (Hrole t _ Hr E) as [= -> ->]. eauto.
    + right. assert (assigning = true) as Has.
      { destruct assigning; [done|]. exfalso. unfold role_view in E, Hv. cbn in Hv. rewrite Hr in E, Hv.
        rewrite Hrg, Z.eqb_refl, Hdef in E, Hv. cbn in E, Hv.
        case_bool_decide as H1; [done|]. case_bool_decide as H2; [|done]. apply H1. set_solver. }
      destruct (Ha Has) as [Hk Hal]. apply (Allows_holds t a g 0 PermManageRoles d Hadm Hd) in Hal.
      by apply Hal.
  - intros Hreads id b p Hv Hb. destruct (decide (id = role)) as [->|].
    + right. by apply (removal_held d role fst); auto.
    + rewrite Hother in Hv by done. left. eauto.
  - intros Hreads id b p Hv Hb. destruct (decide (id = role)) as [->|].
    + right. by apply (removal_held d role snd); auto.
    + rewrite Hother by done. left. eauto.
  - by left.
  - by left.
Qed.

(** Overwrites that differ here only in bits the actor holds. *)
Lemma covered_overwrites m :
  (reads t g c -> forall side ty id, side = fst \/ side = snd ->
     ow_bit side (set_overwrites m t) c ty id i = ow_bit side t c ty id i \/ P) ->
  rows_covered t (set_overwrites m t) g u c i P0 P.
Proof.
  intros H. split; try done.
  - intros id b p j Hv Hj. left. eauto.
  - intros Hr id b p Hv Hb. destruct (H Hr fst OverwriteTargetRole id); [by left| |by right].
    left. exists p. split; [done|congruence].
  - intros Hr id b p Hv Hb. destruct (H Hr snd OverwriteTargetRole id); [by right| |by right].
    left. exists p. split; [done|congruence].
  - intros Hr Hb. destruct (H Hr fst OverwriteTargetMember u); [by left| |by right]. left. congruence.
  - intros Hr Hb. destruct (H Hr snd OverwriteTargetMember u); [by right| |by right]. left. congruence.
Qed.

(** One row replaced by another, or deleted: what either says is held. *)
Lemma covered_one_overwrite d c0 need ty0 id0 (v : option (Z * Z)) :
  granted t a g c0 need d ->
  (forall al de, v = Some (al, de) \/ t_overwrites t !! (c0, ty0, id0) = Some (al, de) ->
     Decision_Allows d (PermissionFromInt64 al ∪ₚ PermissionFromInt64 de) = true) ->
  rows_covered t (set_overwrites (partial_alter (fun _ => v) (c0, ty0, id0) (t_overwrites t)) t)
    g u c i P0 P.
Proof.
  intros Hd Hall. apply covered_overwrites. intros [Hc Hin] side ty id Hside.
  destruct (decide ((c, ty, id) = (c0, ty0, id0))) as [[= <- <- <-]|Hne].
  2:{ left. unfold ow_bit. cbn. by rewrite lookup_partial_alter_ne. }
  assert (forall o, o = v \/ o = t_overwrites t !! (c, ty, id) ->
    match o with Some ad => Z.testbit (PermissionFromInt64 (side ad)) i | None => false end = true -> P) as Hrow.
  { intros [[al de]|] Ho Hb; [|done]. assert (Decision_Allows d (PermissionFromInt64 al ∪ₚ PermissionFromInt64 de)
      = true) as Ha by (apply Hall; naive_solver).
    apply (Allows_holds t a g c need d Hadm Hd) in Ha. apply (holds_bit _ _ _ _ _ _ Ha).
    rewrite testbit_add. apply orb_true_iff. destruct Hside; subst side; auto. }
  unfold ow_bit. cbn. rewrite lookup_partial_alter_eq.
  set (b1 := match v with Some _ => _ | None => false end).
  set (b2 := match t_overwrites t !! _ with Some _ => _ | None => false end).
  destruct b1 eqn:E1; [right; by apply (Hrow v); auto|].
  destruct b2 eqn:E2; [right; by apply (Hrow _ (or_intror eq_refl))|by left].
Qed.
End gains.

Lemma rows_covered_frame t t1 t' g u c i P0 P :
  rows_covered t t1 g u c i P0 P ->
  t_guilds t' = t_guilds t1 -> t_members t' = t_members t1 -> t_roles t' = t_roles t1 ->
  t_member_roles t' = t_member_roles t1 -> t_channels t' = t_channels t1 ->
  t_overwrites t' = t_overwrites t1 -> rows_covered t t' g u c i P0 P.
Proof.
  intros [] Eg Em Er Emr Ec Eo.
  split; unfold is_owner, is_member, role_view, channel_in_guild, ow_bit in *;
    rewrite ?Eg, ?Em, ?Er, ?Emr, ?Ec, ?Eo; assumption.
Qed.

(** A bit an account gains, at guild level or in a channel that is still there, is one the sender
    holds. *)
Lemma effect_gains svc a req t t' evs g u c i :
  inv t -> effect svc a req t t' evs -> is_admin t a = false -> is_Some (t_guilds t !! g) ->
  (c <> 0 -> channel_in_guild t' c g = channel_in_guild t c g) -> Z.testbit permAll i = true ->
  layered t' g u c i = Some true -> layered t g u c i = Some true \/ has_bit t g a c i.
Proof.
  intros Hinv He Hadm Hg Hcg Hi Hl. pose proof Hinv as [Hwf _].
  pose proof (effect_wf _ _ _ _ _ _ Hinv He) as Hwf'.
  destruct (effect_rows svc a req t t' evs g u c Hinv He Hg Hcg) as [Hs|Ht].
  { left. by rewrite <- (same_rows_layered t t' g u c i). }
  destruct req as [r|g'|g'|g' r|g' role r|g' role|g' wants|g' u' role b|g' u' r|g' u'|g' to|r|c' ty id|g' r|c' r|c'];
    cbn [effect touches] in *; try done.
  - subst g'. destruct He as (d & aid & gr & _ & _ & _ & _ & -> & _). exfalso. revert Hl.
    unfold layered, is_owner, is_member. cbn. by rewrite lookup_delete_eq.
  - destruct Ht as [-> _]. destruct He as (out & d & aid & existing & Hd & He & _ & Hw & _ & _ & -> & _).
    eapply covered_gain; [done..|exact Hwf'| |exact Hl].
    eapply rows_covered_frame; [by apply (covered_update_role t a g u c i Hadm d)|done..].
  - subst g'. destruct He as (d & aid & existing & Hd & He & _ & _ & Hrm & _ & -> & _).
    eapply covered_gain; [done..|exact Hwf'| |exact Hl].
    eapply rows_covered_frame; [by eapply (covered_without_role t a g u c i Hadm d)|done..].
  - subst g'. destruct He as (out & d & r & m & Hd & Hr & Hdef & _ & _ & _ & Ha & Hrm & Ht & _).
    destruct (Bool.eqb _ _); [subst; by left|]. destruct Ht as (aid & _ & ->).
    eapply covered_gain; [done..|exact Hwf'| |exact Hl].
    eapply rows_covered_frame; [by eapply (covered_grants t Hwf a g u c i Hadm Hi d)|done..].
  - destruct Ht as [-> ->]. destruct He as (d & aid & gr & m & _ & Hgr & Hne & _ & _ & -> & _). exfalso. revert Hl.
    unfold layered, is_owner, is_member. cbn. rewrite Hgr, lookup_delete_eq, andb_false_r.
    by rewrite (proj2 (Z.eqb_neq _ _)).
  - subst g'. destruct He as (out & d & aid & gr & Hd & Hgr & Ho & _). right. left.
    apply owner_all; [|done]. unfold is_owner. rewrite Hgr. apply Z.eqb_eq. destruct Ho as [|Ho]; [done|].
    destruct (granted_resolved t a g 0 _ d Hadm Hd) as [Hf _]. congruence.
  - destruct He as (out & g' & d & aid & Hin & Hd & _ & Hk & Ha & Hprior & _ & _ & -> & _).
    pose proof (channel_in_guild_fun _ _ _ _ Ht Hin) as <-.
    eapply covered_gain; [done..|exact Hwf'| |exact Hl].
    eapply rows_covered_frame; [eapply (covered_one_overwrite t a g u c i Hadm d _ _ _ _
      (Some (Permission_Int64 (so_Allow r), Permission_Int64 (so_Deny r)))); [exact Hd|]|done..].
    apply Known_add in Hk as [Hka Hkd]. intros al de [[= <- <-]|Hrow]; [by rewrite !Known_stored|].
    apply (Hprior (mkPermissionOverwrite (so_ChannelID r) (so_TargetType r) (so_TargetID r) al de)).
    unfold get_overwrite. by rewrite Hin, Hrow.
  - destruct He as (g' & d & aid & row & Hin & Hd & _ & Hrow & _ & Ha & _ & -> & _).
    pose proof (channel_in_guild_fun _ _ _ _ Ht Hin) as <-.
    eapply covered_gain; [done..|exact Hwf'| |exact Hl].
    eapply rows_covered_frame;
      [eapply (covered_one_overwrite t a g u c i Hadm d c' _ ty id None); [exact Hd|]|done..].
    intros al de [|Hl']; [done|]. apply get_overwrite_Some in Hrow as (_ & _ & Hrow).
    rewrite Hrow in Hl'. by injection Hl' as <- <-.
Qed.

(** ** Properties *)

(** A place that is there before and after. *)
Definition lasting_place (t t' : Tables) (g c : Z) : Prop := place t g c /\ place t' g c.

Lemma lasting_place_channel t t' g c :
  lasting_place t t' g c -> c <> 0 -> channel_in_guild t' c g = channel_in_guild t c g.
Proof. intros [[?|H1] [?|H2]] Hc; try done. by rewrite H1, H2. Qed.

(** C1: Managing a guild gives nobody a permission its sender does not hold. For each of the sixteen requests of
    [Request], which are those on guilds, roles and their order, members, ownership, overwrites and channels, on
    tables in the invariant, when it is answered to an account that is not an instance administrator: every account,
    every defined permission bit, and every place of a guild that was there (the guild level, or a channel there
    before and after): if the account has the bit afterwards, it had it before, or the sender had it, there or at
    guild level. Redeeming an invite is not one of the sixteen: [newcomer_as_everyone] says what it gives. *)
Theorem no_escalation (svc : Service) (a : Z) (req : Request) (s s' : St) (g u c i : Z)
    (Hinv : inv (tabs s)) (Hadm : is_admin (tabs s) a = false)
    (Hok : handle svc a req s = (inr tt, s')) (Hg : is_Some (t_guilds (tabs s) !! g))
    (Hplace : lasting_place (tabs s) (tabs s') g c) (Hi : Z.testbit permAll i = true)
    (Hgain : layered (tabs s') g u c i = Some true) :
  layered (tabs s) g u c i = Some true \/ has_bit (tabs s) g a c i.
Proof.
  destruct (handle_ok svc a req s s' (proj1 Hinv) Hok) as (evs & He & _).
  eapply effect_gains; eauto using lasting_place_channel.
Qed.

(** 101 gives Helper, the role 102 holds, the permission to manage channels, which it has. *)
Definition example_update_role : Request :=
  ReqUpdateRole 1 21 (mkUpdateRoleInput None None (Some PermManageChannels) None None).

Lemma example_inv : inv example_tables.
Proof. split; [apply example_wf|apply example_channels]. Qed.

Lemma no_escalation_witness :
  let s' := (handle example_service 101 example_update_role example_state).2 in
  layered example_tables 1 102 0 3 = Some false /\ layered (tabs s') 1 102 0 3 = Some true /\
  (layered example_tables 1 102 0 3 = Some true \/ has_bit example_tables 1 101 0 3).
Proof.
  intros s'. split; [vm_compute; reflexivity|]. split; [vm_compute; reflexivity|].
  apply (no_escalation example_service 101 example_update_role example_state s' 1 102 0 3);
    [exact example_inv|vm_compute; reflexivity|vm_compute; reflexivity|by eexists|split; by left|
     reflexivity|vm_compute; reflexivity].
Defined.

(** Requests that do not create a guild. *)
Definition creates_guild (req : Request) : bool := match req with ReqCreateGuild _ => true | _ => false end.

(** Takes an effect apart, down to the tables it leaves. *)
Ltac effect_tables He :=
  repeat (hnf in He; lazymatch type of He with
    | ex _ => let x := fresh "x" in destruct He as [x He]
    | and _ _ => let H := fresh "H" in destruct He as [H He] end);
  repeat match goal with
    | H : if Bool.eqb ?b ?b' then _ else _ |- _ =>
        destruct (Bool.eqb b b'); [|let H' := fresh "H'" in destruct H as (? & _ & H')]
    end; subst;
  try match goal with |- context [audited_all ?ids ?rows ?t] =>
    destruct (audited_all_is ids rows t) as [? ->] end.

(** No request touches the accounts or who administers the instance. *)
Lemma effect_accounts svc a req t t' evs :
  effect svc a req t t' evs -> t_users t' = t_users t /\ t_admins t' = t_admins t.
Proof.
  destruct req; cbn [effect]; intros He; effect_tables He; try done.
  by destruct (cci_ParentID r).
Qed.

(** Without a guild's creation, a guild that is gone stays gone. *)
Lemma effect_no_guild svc a req t t' evs g :
  effect svc a req t t' evs -> creates_guild req = false ->
  t_guilds t !! g = None -> t_guilds t' !! g = None.
Proof.
  destruct req; cbn [effect]; intros He Hc Hg; effect_tables He; try done; cbn.
  - by rewrite lookup_insert_ne by congruence.
  - destruct (decide (g = g0)) as [->|]; [apply lookup_delete_eq|by rewrite lookup_delete_ne].
  - by rewrite lookup_insert_ne by congruence.
  - by destruct (cci_ParentID r).
Qed.

Lemma layered_no_guild t g u c i : t_guilds t !! g = None -> layered t g u c i = None.
Proof. intros H. unfold layered, is_owner, is_member. by rewrite H. Qed.

Lemma handle_self svc a req s g i :
  inv (tabs s) -> is_admin (tabs s) a = false -> creates_guild req = false -> Z.testbit permAll i = true ->
  layered (tabs (handle svc a req s).2) g a 0 i = Some true -> layered (tabs s) g a 0 i = Some true.
Proof.
  intros Hinv Hadm Hc Hi Hl. pose proof (handle_outcome svc a req s (proj1 Hinv)) as Ho.
  unfold outcome in Ho. destruct (handle svc a req s) as [[e|[]] s'].
  - destruct Ho as [Ht _]. cbn in Hl. by rewrite Ht in Hl.
  - destruct Ho as (evs & He & _). cbn in Hl. destruct (t_guilds (tabs s) !! g) as [gr|] eqn:Hg.
    + destruct (effect_gains svc a req _ _ evs g a 0 i Hinv He Hadm) as [|[|]]; done.
    + rewrite layered_no_guild in Hl; [done|]. by eapply effect_no_guild.
Qed.

Lemma handle_admin svc a b req s :
  wf (tabs s) -> is_admin (tabs (handle svc b req s).2) a = is_admin (tabs s) a.
Proof.
  intros Hwf. pose proof (handle_outcome svc b req s Hwf) as Ho. unfold outcome in Ho.
  destruct (handle svc b req s) as [[e|[]] s']; cbn.
  - by destruct Ho as [-> _].
  - destruct Ho as (evs & He & _). destruct (effect_accounts _ _ _ _ _ _ He) as [Hu Ha].
    unfold is_admin, live_account. by rewrite Hu, Ha.
Qed.

(** No sequence of requests of its own raises an account. However many requests an account that
    is not an instance administrator sends, whichever of them are refused or fail, every guild level
    permission it holds in a guild at the end it already held at the start, founding a new guild set
    aside. *)
Theorem no_self_promotion (svc : Service) (a : Z) (reqs : list Request) (s : St) (g i : Z)
    (Hinv : inv (tabs s)) (Hadm : is_admin (tabs s) a = false)
    (Hreqs : Forall (fun req => creates_guild req = false) reqs) (Hi : Z.testbit permAll i = true)
    (Hheld : layered (tabs (serve svc (pair a <$> reqs) s)) g a 0 i = Some true) :
  layered (tabs s) g a 0 i = Some true.
Proof.
  revert s Hinv Hadm Hheld. induction Hreqs as [|req reqs Hreq _ IH]; intros s Hinv Hadm Hl; [done|].
  cbn in Hl. eapply handle_self, IH; try done.
  - by apply handle_inv.
  - rewrite handle_admin; [done|apply Hinv].
Qed.

(** 101 tries to make itself administrator, through the role it holds and through Helper, and
    gives itself Helper. *)
Definition example_climb : list Request := [
  ReqUpdateRole 1 20 (mkUpdateRoleInput None None (Some permAll) None None);
  ReqUpdateRole 1 21 (mkUpdateRoleInput None None (Some PermAdministrator) None None);
  ReqUpdateRole 1 21 (mkUpdateRoleInput None None (Some PermManageRoles) None None);
  ReqChangeMemberRole 1 101 21 true ].

Lemma no_self_promotion_witness :
  let s' := serve example_service (pair 101 <$> example_climb) example_state in
  layered (tabs s') 1 101 0 4 = Some true /\ layered example_tables 1 101 0 4 = Some true.
Proof.
  intros s'. assert (layered (tabs s') 1 101 0 4 = Some true) as H by (vm_compute; reflexivity).
  split; [exact H|].
  apply (no_self_promotion example_service 101 example_climb example_state 1 4);
    [exact example_inv|vm_compute; reflexivity|repeat constructor|reflexivity|exact H].
Defined.

(** The events that tell the clients to read permissions again, or that the guild is gone. *)
Definition announces (g u : Z) (ev : Event Payload) : Prop :=
  ev = event_for "GUILD_PERMISSIONS_UPDATE" AudGuild g [] (PPermissionsUpdated g) \/
  ev = event_for "GUILD_DELETE" AudUsers g [u] (PGuildDeleted g) \/
  ev = event_for "GUILD_DELETE" AudFormerMembers g [] (PGuildDeleted g).

Lemma touches_announced svc a req t t' evs g u :
  inv t -> effect svc a req t t' evs -> events svc = true -> touches t req g u ->
  exists ev, ev ∈ evs /\ announces g u ev.
Proof.
  intros [Hwf _] He Hev Ht.
  assert (forall g' p evs', evs = when (events svc) (p :: evs') -> announces g' u p ->
    exists ev, ev ∈ evs /\ announces g' u ev) as Hfirst.
  { intros g' p evs' -> Hp. exists p. rewrite Hev. split; [by left|done]. }
  assert (forall g' p p' evs', evs = when (events svc) (p :: p' :: evs') -> announces g' u p' ->
    exists ev, ev ∈ evs /\ announces g' u ev) as Hsecond.
  { intros g' p p' evs' -> Hp. exists p'. rewrite Hev. split; [by right; left|done]. }
  destruct req; cbn [effect touches] in *; try done.
  - subst. destruct He as (d & aid & gr & _ & _ & _ & _ & _ & ->). eapply Hfirst; [done|]. by right; right.
  - destruct Ht as [-> Hp]. destruct He as (out & d & aid & existing & _ & _ & _ & _ & _ & _ & _ & _ & ->).
    rewrite (bool_decide_eq_true_2 _ Hp) in *. eapply Hsecond; [done|]. by left.
  - subst. destruct He as (d & aid & existing & _ & _ & _ & _ & _ & _ & _ & ->).
    eapply Hsecond; [done|]. by left.
  - subst. destruct He as (out & d & r & m & _ & _ & _ & _ & _ & _ & _ & _ & _ & _ & ->).
    eapply Hsecond; [done|]. by left.
  - destruct Ht as [-> ->]. destruct He as (d & aid & gr & m & _ & _ & _ & _ & _ & _ & ->).
    eapply Hfirst; [done|]. by right; left.
  - subst. destruct He as (out & d & aid & gr & _ & Hg & _ & _ & _ & _ & _ & _ & _ & _ & ->).
    rewrite (wf_guild_key _ Hwf _ _ Hg) in *. eapply Hsecond; [done|]. by left.
  - destruct He as (out & g' & d & aid & Hin & _ & _ & _ & _ & _ & _ & _ & _ & _ & ->).
    pose proof (channel_in_guild_fun _ _ _ _ Ht Hin) as <-. eapply Hfirst; [done|]. by left.
  - destruct He as (g' & d & aid & row & Hin & _ & _ & _ & _ & _ & _ & _ & ->).
    pose proof (channel_in_guild_fun _ _ _ _ Ht Hin) as <-. eapply Hfirst; [done|]. by left.
Qed.

(** C32: Managing a guild changes no permission silently. On tables in the invariant, with a bus and no failing
    statement, whenever one of the sixteen requests of [Request] (those on guilds, roles and their order, members,
    ownership, overwrites and channels) changes any bit of any account's permissions, at guild level or in a channel
    there before and after, the bus received an event that tells the guild's clients to read permissions again, or
    tells the account, or the former members, that the guild is gone for them. Redeeming an invite, which announces
    the member itself, is not one of the sixteen. *)
Theorem permission_changes_announced (svc : Service) (a : Z) (req : Request) (s s' : St) (g u c i : Z)
    (Hinv : inv (tabs s)) (Hbus : events svc = true) (Hup : faults s = [])
    (Hok : handle svc a req s = (inr tt, s')) (Hg : is_Some (t_guilds (tabs s) !! g))
    (Hplace : lasting_place (tabs s) (tabs s') g c)
    (Hchange : layered (tabs s') g u c i <> layered (tabs s) g u c i) :
  exists evs ev, published s' = published s ++ evs /\ ev ∈ evs /\ announces g u ev.
Proof.
  destruct (handle_ok svc a req s s' (proj1 Hinv) Hok) as (evs & He & pub & Hpub & _ & Hall).
  rewrite (Hall Hup) in Hpub. exists evs.
  destruct (effect_rows svc a req _ _ evs g u c Hinv He Hg) as [Hs|Ht].
  - by apply lasting_place_channel.
  - exfalso. apply Hchange. apply same_rows_layered; [apply Hinv|by eapply effect_wf|done].
  - destruct (touches_announced svc a req _ _ evs g u Hinv He Hbus Ht) as (ev & ? & ?). by exists ev.
Qed.

Lemma permission_changes_announced_witness :
  let s' := (handle example_service 101 example_update_role example_state).2 in
  exists evs ev, published s' = published example_state ++ evs /\ ev ∈ evs /\ announces 1 102 ev.
Proof.
  intros s'.
  apply (permission_changes_announced example_service 101 example_update_role example_state s' 1 102 0 3);
    [exact example_inv|reflexivity|reflexivity|vm_compute; reflexivity|by eexists|split; by left|
     vm_compute; congruence].
Defined.
