(* ===== verification/Hierarchy.v ===== *)
(** The hierarchy of roles and members: an account that does not own the guild touches no role at or
    above its own standing, and no member who stands as high as it does. And the audit log: entries are only
    ever added, and every change leaves one. *)
From S2P Require Import Prelude GoStd Permissions Snowflake Rows TxMonad Queries.
From S2P Require Import Resolve StoreInv Authority ResolveMany GuildAuth GuildCommon RoleSvc.
From S2P Require Import OverwriteSvc MemberSvc GuildSvc ChannelSvc Preserve GuildService Layers.
From S2P Require Import Escalation.

(** ** What is left alone *)

(** The role's row is [f] of what it was, and in what is still there so are its grants and its
    overwrites. *)
Record role_kept (t t' : Tables) (g id : Z) (f : dbRole -> dbRole) : Prop := {
  rk_row : t_roles t' !! id = f <$> t_roles t !! id;
  rk_grants : forall u, is_Some (t_members t' !! (g, u)) ->
    (g, u, id) ∈ t_member_roles t' <-> (g, u, id) ∈ t_member_roles t;
  rk_overwrites : forall c, channel_in_guild t c g = true -> channel_in_guild t' c g = true ->
    t_overwrites t' !! (c, OverwriteTargetRole, id) = t_overwrites t !! (c, OverwriteTargetRole, id)
}.

(** The member's row is what it was, and in what is still there so are its grants and its
    overwrites. *)
Record member_kept (t t' : Tables) (g u : Z) : Prop := {
  mk_row : t_members t' !! (g, u) = t_members t !! (g, u);
  mk_grants : forall id, is_Some (t_roles t' !! id) ->
    (g, u, id) ∈ t_member_roles t' <-> (g, u, id) ∈ t_member_roles t;
  mk_overwrites : forall c, channel_in_guild t c g = true -> channel_in_guild t' c g = true ->
    t_overwrites t' !! (c, OverwriteTargetMember, u) = t_overwrites t !! (c, OverwriteTargetMember, u)
}.


Lemma fmap_id_option {A} (o : option A) : (fun x => x) <$> o = o.
Proof. by destruct o. Qed.

Lemma role_kept_same t t' g id :
  t_roles t' !! id = t_roles t !! id -> t_member_roles t' = t_member_roles t ->
  t_overwrites t' = t_overwrites t -> role_kept t t' g id (fun r => r).
Proof. intros Er Em Eo. split; [by rewrite fmap_id_option|by rewrite Em|by rewrite Eo]. Qed.

Lemma member_kept_same t t' g u :
  t_members t' !! (g, u) = t_members t !! (g, u) -> t_member_roles t' = t_member_roles t ->
  t_overwrites t' = t_overwrites t -> member_kept t t' g u.
Proof. intros Em Er Eo. split; [done|by rewrite Er|by rewrite Eo]. Qed.

Lemma role_kept_frame t t1 t' g id f :
  role_kept t t1 g id f -> t_members t' = t_members t1 -> t_roles t' = t_roles t1 ->
  t_member_roles t' = t_member_roles t1 -> t_channels t' = t_channels t1 ->
  t_overwrites t' = t_overwrites t1 -> role_kept t t' g id f.
Proof.
  intros [] Em Er Emr Ec Eo. split; unfold channel_in_guild; rewrite ?Em, ?Er, ?Emr, ?Ec, ?Eo; assumption.
Qed.

Lemma member_kept_frame t t1 t' g u :
  member_kept t t1 g u -> t_members t' = t_members t1 -> t_roles t' = t_roles t1 ->
  t_member_roles t' = t_member_roles t1 -> t_channels t' = t_channels t1 ->
  t_overwrites t' = t_overwrites t1 -> member_kept t t' g u.
Proof.
  intros [] Em Er Emr Ec Eo. split; unfold channel_in_guild; rewrite ?Em, ?Er, ?Emr, ?Ec, ?Eo; assumption.
Qed.

(** A new channel's overwrites are its own. *)
Lemma overwrites_with_copied t p cid m (c ty id : Z) :
  t_channels t !! cid = None -> is_Some (t_channels t !! c) ->
  t_overwrites (with_copied p cid (set_channels m t)) !! (c, ty, id) = t_overwrites t !! (c, ty, id).
Proof.
  intros Hnew [ch Hc]. destruct p as [p|]; [|done]. cbn. apply lookup_union_l.
  destruct (copied _ cid p !! (c, ty, id)) eqn:E; [|done].
  apply copied_lookup in E as (? & ? & [= -> _ _] & _). congruence.
Qed.

Lemma member_roles_with_copied p cid t m :
  t_member_roles (with_copied p cid (set_channels m t)) = t_member_roles t /\
  t_roles (with_copied p cid (set_channels m t)) = t_roles t /\
  t_members (with_copied p cid (set_channels m t)) = t_members t.
Proof. by destruct p. Qed.

(** The rows of a channel that was not the one deleted. *)
Lemma overwrites_other_channel t (c c' ty id : Z) :
  c' <> c ->
  filter (fun kv : Z * Z * Z * (Z * Z) => kv.1.1.1 <> c') (t_overwrites t) !! (c, ty, id)
  = t_overwrites t !! (c, ty, id).
Proof. intros Hne. apply lookup_filter_keep. intros v _. cbn. congruence. Qed.

Lemma deleted_channel_gone t c g :
  channel_in_guild (without_channel c t) c g = false.
Proof. unfold channel_in_guild, without_channel, channels_without. cbn. by rewrite lookup_fmap, lookup_delete_eq. Qed.

(** A role of the guild that the sender does not outrank. *)
Section above.
Context (t : Tables) (Hinv : inv t) (a g : Z).
Context (Hadm : is_admin t a = false) (Hown : is_owner t g a = false).

Lemma not_outranked c need d p :
  granted t a g c need d -> standing_of t g a <= p -> Decision_Outranks d p = true -> False.
Proof.
  intros Hd Hp Ho. apply (Outranks_standing t a g c need d Hadm Hd) in Ho as [Ho|Ho]; [congruence|lia].
Qed.

Lemma not_outranked_member c need d u :
  granted t a g c need d -> (is_owner t g u = true \/ standing_of t g a <= standing_of t g u) ->
  Decision_OutranksMember d u (standing_of t g u) = true -> False.
Proof.
  intros Hd Hp Ho. destruct (granted_resolved t a g c need d Hadm Hd) as (_ & [_ (gr & Hg & _) _ _ _ _] & _).
  destruct (OutranksMember_standing t a g c need d Hadm Hd u _ gr Hg Ho) as [Hne [Ho'|Ho']]; [congruence|].
  destruct Hp as [Hp|Hp]; [|lia]. unfold is_owner in Hp. rewrite Hg in Hp. by apply Z.eqb_eq in Hp.
Qed.

Lemma only_owner_deletes d gr :
  granted t a g 0 PermViewChannel d -> t_guilds t !! g = Some gr ->
  (instanceAdmin d = true \/ guild_owner_id gr = a) -> False.
Proof.
  intros Hd Hg [Hi|<-].
  - destruct (granted_resolved t a g 0 _ d Hadm Hd) as (Hf & _). congruence.
  - unfold is_owner in Hown. by rewrite Hg, Z.eqb_refl in Hown.
Qed.
End above.

Section roles_above.
Context (svc : Service) (t : Tables) (Hinv : inv t) (a g id : Z) (r : dbRole).
Context (Hadm : is_admin t a = false) (Hown : is_owner t g a = false).
Context (Hr : get_role t id g = Some r) (Habove : standing_of t g a <= role_position r).

Lemma above_other_role c need d role existing g' :
  granted t a g' c need d -> get_role t role g' = Some existing ->
  Decision_Outranks d (role_position existing) = true -> role <> id.
Proof.
  intros Hd He Ho ->. apply get_role_Some in Hr as [Hl Hg]. apply get_role_Some in He as [Hl' Hg'].
  assert (existing = r) as -> by congruence. assert (g' = g) as -> by congruence.
  by eapply not_outranked.
Qed.

Lemma above_shifted g' : g' <> g -> shifted t g' r = r.
Proof.
  intros Hne. apply get_role_Some in Hr as [Hl Hg].
  destruct (shifted_spec t g' id r (proj1 Hinv) Hl) as [(Hg' & _)|[_ E]]; congruence.
Qed.

(** An overwrite about this role is not one the sender may write. *)
Lemma above_other_target c c0 need d ty id0 :
  channel_in_guild t c0 g = true -> granted t a g c need d -> target_ok t a g ty id0 d ->
  (ty, id0) <> (OverwriteTargetRole, id).
Proof.
  intros _ Hd [(-> & r' & Hr' & Ho)|(-> & _)] [= ->]. assert (r' = r) as -> by congruence.
  by eapply not_outranked.
Qed.

Lemma kept_update_role d role existing r' g' :
  granted t a g' 0 PermManageRoles d -> get_role t role g' = Some existing ->
  Decision_Outranks d (role_position existing) = true ->
  role_kept t (set_roles (<[role := r']> (t_roles t)) t) g id (fun r => r).
Proof.
  intros Hd He Ho. apply role_kept_same; [|done..]. cbn.
  rewrite lookup_insert_ne; [done|]. by eapply above_other_role.
Qed.

Lemma kept_without_role d role existing g' :
  granted t a g' 0 PermManageRoles d -> get_role t role g' = Some existing ->
  Decision_Outranks d (role_position existing) = true ->
  role_kept t (without_role role (without_overwrites_for g' OverwriteTargetRole role t)) g id (fun r => r).
Proof.
  intros Hd He Ho. pose proof (above_other_role _ _ _ _ _ _ Hd He Ho) as Hne. split; cbn.
  - by rewrite lookup_delete_ne, fmap_id_option.
  - intros u _. rewrite elem_of_filter. naive_solver.
  - intros c _ _. rewrite lookup_filter_keep; [done|]. intros v _ (_ & _ & E). by cbn in E.
Qed.

Lemma kept_repositioned max d wants g' :
  granted t a g' 0 PermManageRoles d ->
  reorder_allowed (roles_by_id (by_position (guild_roles t g'))) max d wants ->
  role_kept t (set_roles (repositioned wants (t_roles t)) t) g id (fun r => r).
Proof.
  intros Hd Ha. apply role_kept_same; [|done..]. cbn.
  rewrite (repositioned_row t g' max d wants id (proj1 Hinv) Ha).
  apply get_role_Some in Hr as [Hl Hg]. rewrite Hl. cbn.
  destruct (wanted_position_cases t g' max d wants r (proj1 Hinv) Ha) as [E|(Hg' & _ & _ & Ho & _)].
  - by rewrite (wf_role_key _ (proj1 Hinv) _ _ Hl).
  - rewrite E. by destruct r.
  - exfalso. rewrite Hg in Hg'. subst g'. by eapply not_outranked.
Qed.

Lemma kept_grants d role existing u b g' :
  granted t a g' 0 PermManageRoles d -> get_role t role g' = Some existing ->
  Decision_Outranks d (role_position existing) = true ->
  role_kept t (set_member_roles (grants_after b g' u role (t_member_roles t)) t) g id (fun r => r).
Proof.
  intros Hd He Ho. pose proof (above_other_role _ _ _ _ _ _ Hd He Ho) as Hne. split; cbn; [|..|done].
  - by rewrite fmap_id_option.
  - intros u' _. unfold grants_after. destruct b; set_solver.
Qed.

Lemma kept_without_member u g' :
  role_kept t (without_member g' u (without_overwrites_for g' OverwriteTargetMember u t)) g id (fun r => r).
Proof.
  split; cbn.
  - by rewrite fmap_id_option.
  - intros u' Hm. rewrite elem_of_filter. destruct (decide ((g, u') = (g', u))) as [[= -> ->]|Hne].
    + rewrite lookup_delete_eq in Hm. by destruct Hm.
    + cbn. naive_solver.
  - intros c _ _. rewrite lookup_filter_keep; [done|]. intros v _ (_ & E & _). by cbn in E.
Qed.

Lemma kept_without_guild g' : g' <> g -> role_kept t (without_guild g' t) g id (fun r => r).
Proof.
  intros Hne. apply get_role_Some in Hr as [Hl Hg]. split; cbn.
  - rewrite fmap_id_option, lookup_filter_keep; [done|]. cbn. congruence.
  - intros u _. rewrite elem_of_filter. cbn. unfold get_role. rewrite Hl, Hg.
    rewrite (proj2 (Z.eqb_neq g g')) by done. naive_solver.
  - intros c Hin _. rewrite lookup_filter_keep; [done|]. intros v _. cbn.
    destruct (channel_in_guild t c g') eqn:E; [|done]. by pose proof (channel_in_guild_fun _ _ _ _ Hin E).
Qed.

Lemma kept_overwrite d c0 need ty0 id0 g' m :
  channel_in_guild t c0 g' = true -> granted t a g' c0 need d -> target_ok t a g' ty0 id0 d ->
  (forall k, k <> (c0, ty0, id0) -> m !! k = t_overwrites t !! k) ->
  role_kept t (set_overwrites m t) g id (fun r => r).
Proof.
  intros Hin Hd Ht Hm. split; cbn; [by rewrite fmap_id_option|done|].
  intros c Hc _. apply Hm. intros [= -> <- <-]. pose proof (channel_in_guild_fun _ _ _ _ Hin Hc) as ->.
  by eapply above_other_target.
Qed.
End roles_above.

(** A committed request of an account that does not own the guild: the role is the one it was, but
    for the renumbering a role's creation does to all of them. *)
Definition renumbered (t : Tables) (req : Request) (g : Z) (r : dbRole) : dbRole :=
  match req with ReqCreateRole g' _ => if decide (g' = g) then shifted t g r else r | _ => r end.

Lemma effect_role_above svc a req t t' evs g id r :
  inv t -> effect svc a req t t' evs -> is_admin t a = false -> is_owner t g a = false ->
  get_role t id g = Some r -> standing_of t g a <= role_position r ->
  role_kept t t' g id (renumbered t req g).
Proof.
  intros Hinv He Hadm Hown Hr Habove. pose proof Hr as [Hl Hrg]%get_role_Some.
  destruct req as [q|g' q|g'|g' q|g' role q|g' role|g' wants|g' u' role b|g' u' q|g' u'|g' to|q|c' ty id'|g' q|c' q|c'];
    cbn [effect renumbered] in *.
  - destruct He as (gid & rid & out & aid & _ & _ & _ & _ & Hn & _ & _ & -> & _).
    apply role_kept_same; [|done..]. cbn. rewrite lookup_insert_ne; [done|]. congruence.
  - destruct He as (out & d & existing & ids & _ & _ & _ & _ & _ & _ & -> & _).
    destruct (audited_all_is ids (update_entries a g' existing q)
      (set_guilds (<[g' := updated_guild (update_guild_params g' q) existing]> (t_guilds t)) t)) as [m ->].
    by apply role_kept_same.
  - destruct He as (d & aid & gr & Hd & Hg & Ho & _ & -> & _). destruct (decide (g' = g)) as [->|Hne].
    + exfalso. by eapply only_owner_deletes.
    + eapply role_kept_frame; [by eapply kept_without_guild|done..].
  - destruct He as (rid & out & d & aid & _ & _ & _ & _ & Hn & _ & _ & -> & _). split; [|done..].
    cbn. rewrite lookup_insert_ne by congruence. rewrite lookup_fmap, Hl. cbn. f_equal.
    case_decide as Hg; [by subst|]. by eapply above_shifted.
  - destruct He as (out & d & aid & existing & Hd & He & Ho & _ & _ & _ & -> & _).
    eapply role_kept_frame; [by eapply kept_update_role|done..].
  - destruct He as (d & aid & existing & Hd & He & Ho & _ & _ & _ & -> & _).
    eapply role_kept_frame; [by eapply kept_without_role|done..].
  - destruct He as (out & d & aid & Hd & Ha & _ & _ & -> & _).
    eapply role_kept_frame; [by eapply kept_repositioned|done..].
  - destruct He as (out & d & x & m & Hd & Hx & _ & Ho & _ & _ & _ & _ & Ht & _).
    destruct (Bool.eqb _ _); [subst; by apply role_kept_same|]. destruct Ht as (aid & _ & ->).
    eapply role_kept_frame; [by eapply kept_grants|done..].
  - destruct He as (out & d & aid & m & _ & _ & _ & _ & _ & -> & _). by apply role_kept_same.
  - destruct He as (d & aid & gr & m & _ & _ & _ & _ & _ & -> & _).
    eapply role_kept_frame; [by eapply kept_without_member|done..].
  - destruct He as (out & d & aid & gr & _ & _ & _ & _ & _ & _ & _ & _ & -> & _). by apply role_kept_same.
  - destruct He as (out & g' & d & aid & Hin & Hd & Ht & _ & _ & _ & _ & _ & -> & _).
    eapply role_kept_frame; [eapply kept_overwrite; [done..|]|done..].
    intros. by rewrite lookup_insert_ne.
  - destruct He as (g' & d & aid & row & Hin & Hd & Ht & _ & _ & _ & _ & -> & _).
    eapply (role_kept_frame t (set_overwrites (delete (c', ty, id') (t_overwrites t)) t));
      [eapply kept_overwrite; [done..|]|done..].
    intros. by rewrite lookup_delete_ne.
  - destruct He as (_ & _ & cid & out & d & aid & _ & _ & _ & Hn & _ & _ & -> & _).
    destruct (member_roles_with_copied (cci_ParentID q) cid t (<[cid := new_channel cid g' q]> (t_channels t)))
      as (Emr & Er & _). split; cbn.
    + by rewrite Er, fmap_id_option.
    + by rewrite Emr.
    + intros c (ch & Hch & _)%channel_in_guild_true _. by apply overwrites_with_copied.
  - destruct He as (out & g' & d & aid & existing & _ & _ & _ & _ & _ & -> & _). by apply role_kept_same.
  - destruct He as (g' & d & aid & existing & _ & _ & _ & _ & -> & _). split; cbn.
    + by rewrite fmap_id_option.
    + done.
    + intros c Hc Hc'. apply overwrites_other_channel. intros ->.
      change (channel_in_guild (without_channel c t) c g = true) in Hc'.
      by rewrite deleted_channel_gone in Hc'.
Qed.

(** ** Members *)

Section members_above.
Context (t : Tables) (a g u : Z).
Context (Hadm : is_admin t a = false) (Hown : is_owner t g a = false) (Hself : u <> a).
Context (Habove : is_owner t g u = true \/ standing_of t g a <= standing_of t g u).

Lemma above_other_member c need d g' u' :
  granted t a g' c need d -> Decision_OutranksMember d u' (standing_of t g' u') = true ->
  (g', u') <> (g, u).
Proof. intros Hd Ho [= -> ->]. by eapply not_outranked_member. Qed.

Lemma kept_update_member d q m g' u' :
  granted t a g' 0 (update_member_need q) d ->
  (self_nickname_only a u' q = true \/ Decision_OutranksMember d u' (standing_of t g' u') = true) ->
  member_kept t (set_members (<[(g', u') := m]> (t_members t)) t) g u.
Proof.
  intros Hd Ho. apply member_kept_same; [|done..]. cbn. apply lookup_insert_ne.
  destruct Ho as [Ho|Ho]; [|by eapply above_other_member].
  unfold self_nickname_only in Ho. bool_hyps. congruence.
Qed.

Lemma kept_other_member d need g' u' :
  granted t a g' 0 need d -> (g', u') <> (g, u) ->
  member_kept t (without_member g' u' (without_overwrites_for g' OverwriteTargetMember u' t)) g u.
Proof.
  intros Hd Hne. split; cbn.
  - by rewrite lookup_delete_ne.
  - intros id _. rewrite elem_of_filter. cbn. naive_solver.
  - intros c Hin _. rewrite lookup_filter_keep; [done|]. intros v _ (Hin' & _ & E). cbn in *.
    pose proof (channel_in_guild_fun _ _ _ _ Hin Hin'). congruence.
Qed.

Lemma kept_member_grants d role u' b g' :
  granted t a g' 0 PermManageRoles d ->
  (u' = a \/ Decision_OutranksMember d u' (standing_of t g' u') = true) ->
  member_kept t (set_member_roles (grants_after b g' u' role (t_member_roles t)) t) g u.
Proof.
  intros Hd Ho. assert ((g', u') <> (g, u)) as Hne.
  { destruct Ho as [->|Ho]; [congruence|by eapply above_other_member]. }
  split; cbn; [done| |done]. intros id _. unfold grants_after. destruct b; set_solver.
Qed.

Lemma kept_member_without_role role g' :
  member_kept t (without_role role (without_overwrites_for g' OverwriteTargetRole role t)) g u.
Proof.
  split; cbn; [done|..].
  - intros id Hid. rewrite elem_of_filter. cbn. destruct (decide (id = role)) as [->|]; [|naive_solver].
    rewrite lookup_delete_eq in Hid. by destruct Hid.
  - intros c _ _. rewrite lookup_filter_keep; [done|]. intros v _ (_ & E & _). by cbn in E.
Qed.

Lemma kept_member_without_guild g' :
  wf t -> g' <> g -> member_kept t (without_guild g' t) g u.
Proof.
  intros Hwf Hne. split; cbn.
  - by rewrite lookup_filter_keep.
  - intros id Hid. rewrite elem_of_filter. cbn. split; [tauto|]. intros Hin. split; [|done].
    split; [congruence|]. destruct (wf_grant _ Hwf _ _ _ Hin) as (_ & r & [Hr Hg]%get_role_Some & _).
    unfold get_role. rewrite Hr, Hg. by rewrite (proj2 (Z.eqb_neq g g')).
  - intros c Hin _. rewrite lookup_filter_keep; [done|]. intros v _. cbn.
    destruct (channel_in_guild t c g') eqn:E; [|done]. by pose proof (channel_in_guild_fun _ _ _ _ Hin E).
Qed.

Lemma kept_member_overwrite d c0 need ty0 id0 g' m :
  channel_in_guild t c0 g' = true -> granted t a g' c0 need d -> target_ok t a g' ty0 id0 d ->
  (forall k, k <> (c0, ty0, id0) -> m !! k = t_overwrites t !! k) ->
  member_kept t (set_overwrites m t) g u.
Proof.
  intros Hin Hd Ht Hm. split; cbn; [done|done|].
  intros c Hc _. apply Hm. intros [= -> <- <-]. pose proof (channel_in_guild_fun _ _ _ _ Hin Hc) as ->.
  destruct Ht as [(E & _)|(_ & _ & [->|Ho])]; [done|done|]. by eapply above_other_member.
Qed.
End members_above.

Lemma effect_member_above svc a req t t' evs g u :
  inv t -> effect svc a req t t' evs -> is_admin t a = false -> is_owner t g a = false -> u <> a ->
  (is_owner t g u = true \/ standing_of t g a <= standing_of t g u) ->
  member_kept t t' g u.
Proof.
  intros Hinv He Hadm Hown Hself Habove. pose proof Hinv as [Hwf _].
  destruct req as [q|g' q|g'|g' q|g' role q|g' role|g' wants|g' u' role b|g' u' q|g' u'|g' to|q|c' ty id'|g' q|c' q|c'];
    cbn [effect] in *.
  - destruct He as (gid & rid & out & aid & _ & _ & _ & _ & _ & _ & _ & -> & _).
    apply member_kept_same; [|done..]. cbn. rewrite lookup_insert_ne; [done|]. congruence.
  - destruct He as (out & d & existing & ids & _ & _ & _ & _ & _ & _ & -> & _).
    destruct (audited_all_is ids (update_entries a g' existing q)
      (set_guilds (<[g' := updated_guild (update_guild_params g' q) existing]> (t_guilds t)) t)) as [m ->].
    by apply member_kept_same.
  - destruct He as (d & aid & gr & Hd & Hg & Ho & _ & -> & _). destruct (decide (g' = g)) as [->|Hne].
    + exfalso. by eapply only_owner_deletes.
    + eapply member_kept_frame; [by eapply kept_member_without_guild|done..].
  - destruct He as (rid & out & d & aid & _ & _ & _ & _ & _ & _ & _ & -> & _). by apply member_kept_same.
  - destruct He as (out & d & aid & existing & _ & _ & _ & _ & _ & _ & -> & _). by apply member_kept_same.
  - destruct He as (d & aid & existing & _ & _ & _ & _ & _ & _ & -> & _).
    eapply member_kept_frame; [by eapply kept_member_without_role|done..].
  - destruct He as (out & d & aid & _ & _ & _ & _ & -> & _). by apply member_kept_same.
  - destruct He as (out & d & x & m & Hd & _ & _ & _ & _ & Ho & _ & _ & Ht & _).
    destruct (Bool.eqb _ _); [subst; by apply member_kept_same|]. destruct Ht as (aid & _ & ->).
    eapply member_kept_frame; [by eapply kept_member_grants|done..].
  - destruct He as (out & d & aid & m & _ & Hd & _ & Ho & _ & -> & _).
    eapply member_kept_frame; [by eapply kept_update_member|done..].
  - destruct He as (d & aid & gr & m & Hd & _ & _ & _ & _ & -> & _).
    eapply (member_kept_frame t (without_member g' u' (without_overwrites_for g' OverwriteTargetMember u' t)));
      [|done..]. destruct (Z.eqb_spec u' a) as [->|Hne].
    + eapply kept_other_member; [exact Hd|congruence].
    + destruct Hd as [Hd Ho]. eapply kept_other_member; [exact Hd|]. by eapply above_other_member.
  - destruct He as (out & d & aid & gr & _ & _ & _ & _ & _ & _ & _ & _ & -> & _). by apply member_kept_same.
  - destruct He as (out & g' & d & aid & Hin & Hd & Ht & _ & _ & _ & _ & _ & -> & _).
    eapply member_kept_frame; [eapply kept_member_overwrite; [done..|]|done..].
    intros. by rewrite lookup_insert_ne.
  - destruct He as (g' & d & aid & row & Hin & Hd & Ht & _ & _ & _ & _ & -> & _).
    eapply (member_kept_frame t (set_overwrites (delete (c', ty, id') (t_overwrites t)) t));
      [eapply kept_member_overwrite; [done..|]|done..].
    intros. by rewrite lookup_delete_ne.
  - destruct He as (_ & _ & cid & out & d & aid & _ & _ & _ & Hn & _ & _ & -> & _).
    destruct (member_roles_with_copied (cci_ParentID q) cid t (<[cid := new_channel cid g' q]> (t_channels t)))
      as (Emr & _ & Em). split; cbn; [by rewrite Em|by rewrite Emr|].
    intros c (ch & Hch & _)%channel_in_guild_true _. by apply overwrites_with_copied.
  - destruct He as (out & g' & d & aid & existing & _ & _ & _ & _ & _ & -> & _). by apply member_kept_same.
  - destruct He as (g' & d & aid & existing & _ & _ & _ & _ & -> & _). split; cbn; [done..|].
    intros c Hc Hc'. apply overwrites_other_channel. intros ->.
    change (channel_in_guild (without_channel c t) c g = true) in Hc'.
    by rewrite deleted_channel_gone in Hc'.
Qed.

(** ** Properties *)

(** C13: a role at or above an account's own standing is out of its reach. No request an ordinary
    account that does not own the guild gets answered changes such a role's row, renames it, moves
    it, deletes it, grants it to or takes it from anybody who is still a member afterwards, or writes
    an overwrite about it in a channel that is there before and after; creating a role renumbers the
    roles of that guild and changes nothing else of them. *)
Theorem roles_above_untouched (svc : Service) (a : Z) (req : Request) (s s' : St) (g id : Z) (r : dbRole)
    (Hinv : inv (tabs s)) (Hadm : is_admin (tabs s) a = false) (Hown : is_owner (tabs s) g a = false)
    (Hok : handle svc a req s = (inr tt, s')) (Hr : get_role (tabs s) id g = Some r)
    (Habove : standing_of (tabs s) g a <= role_position r) :
  role_kept (tabs s) (tabs s') g id (renumbered (tabs s) req g).
Proof.
  destruct (handle_ok svc a req s s' (proj1 Hinv) Hok) as (evs & He & _). by eapply effect_role_above.
Qed.

(** 101, at position 2, changes Helper at position 1; Moderator is at its own position, and Helper's
    overwrite in a channel 101 cannot see keeps it from deleting Helper. *)
Lemma roles_above_untouched_witness :
  let s' := (handle example_service 101 example_update_role example_state).2 in
  role_permissions <$> t_roles (tabs s') !! 21 = Some PermManageChannels /\
  (handle example_service 101 (ReqDeleteRole 1 21) example_state).1 = inl EForbidden /\
  (handle example_service 101 (ReqDeleteRole 1 20) example_state).1 = inl EOutranked /\
  role_kept example_tables (tabs s') 1 20 (fun r => r).
Proof.
  intros s'. split; [vm_compute; reflexivity|]. split; [vm_compute; reflexivity|].
  split; [vm_compute; reflexivity|].
  apply (roles_above_untouched example_service 101 example_update_role example_state s' 1 20
    (mkDbRole 20 1 "Moderator" 0 (PermManageRoles ∪ₚ PermManageChannels) 2 false false false));
    [exact example_inv|vm_compute; reflexivity..|vm_compute; congruence].
Defined.

(** a member who stands at least as high as an account, and the owner, are out of its reach. No
    request an ordinary account that does not own the guild gets answered removes such a member,
    renames, mutes or deafens it, grants it a role or takes one from it that still exists
    afterwards, or writes an overwrite about it in a channel that is there before and after. *)
Theorem members_above_untouched (svc : Service) (a : Z) (req : Request) (s s' : St) (g u : Z)
    (Hinv : inv (tabs s)) (Hadm : is_admin (tabs s) a = false) (Hown : is_owner (tabs s) g a = false)
    (Hok : handle svc a req s = (inr tt, s')) (Hself : u <> a)
    (Habove : is_owner (tabs s) g u = true \/
              standing_of (tabs s) g a <= standing_of (tabs s) g u) :
  member_kept (tabs s) (tabs s') g u.
Proof.
  destruct (handle_ok svc a req s s' (proj1 Hinv) Hok) as (evs & He & _). by eapply effect_member_above.
Qed.

(** 102 holds kick: it removes 103, and cannot remove 101 or the owner. *)
Lemma members_above_untouched_witness :
  let s' := (handle example_service 102 (ReqRemoveMember 1 103) example_state).2 in
  t_members (tabs s') !! (1, 103) = None /\
  (handle example_service 102 (ReqRemoveMember 1 101) example_state).1 = inl EOutranked /\
  (handle example_service 102 (ReqRemoveMember 1 100) example_state).1 = inl EOutranked /\
  member_kept example_tables (tabs s') 1 101 /\ member_kept example_tables (tabs s') 1 100.
Proof.
  intros s'. split; [vm_compute; reflexivity|]. split; [vm_compute; reflexivity|].
  split; [vm_compute; reflexivity|]. split.
  - apply (members_above_untouched example_service 102 (ReqRemoveMember 1 103) example_state s' 1 101);
      [exact example_inv|vm_compute; reflexivity..|done|right; vm_compute; congruence].
  - apply (members_above_untouched example_service 102 (ReqRemoveMember 1 103) example_state s' 1 100);
      [exact example_inv|vm_compute; reflexivity..|done|left; reflexivity].
Defined.

(** ** The audit log *)

(** The actions a request is recorded under. *)
Definition actions_of (req : Request) : list string :=
  match req with
  | ReqCreateGuild _ => ["guild.create"]
  | ReqUpdateGuild _ _ => ["guild.update"; "guild.message_audit_enable"; "guild.message_audit_disable"]
  | ReqDeleteGuild _ => ["guild.delete"]
  | ReqCreateRole _ _ => ["role.create"]
  | ReqUpdateRole _ _ _ => ["role.update"]
  | ReqDeleteRole _ _ => ["role.delete"]
  | ReqReorderRoles _ _ => ["role.reorder"]
  | ReqChangeMemberRole _ _ _ assigning => [if assigning then "member.role_add" else "member.role_remove"]
  | ReqUpdateMember _ _ _ => ["member.update"]
  | ReqRemoveMember _ _ => ["member.remove"]
  | ReqTransferOwnership _ _ => ["guild.owner_transfer"]
  | ReqSetOverwrite _ => ["overwrite.set"]
  | ReqDeleteOverwrite _ _ _ => ["overwrite.delete"]
  | ReqCreateChannel _ _ => ["channel.create"]
  | ReqUpdateChannel _ _ => ["channel.update"]
  | ReqDeleteChannel _ => ["channel.delete"]
  end%string.

(** The guild a request is about. *)
Definition concerns (t : Tables) (req : Request) (g : Z) : Prop :=
  match req with
  | ReqCreateGuild _ => t_guilds t !! g = None
  | ReqUpdateGuild g' _ | ReqDeleteGuild g' | ReqCreateRole g' _ | ReqUpdateRole g' _ _
  | ReqDeleteRole g' _ | ReqReorderRoles g' _ | ReqChangeMemberRole g' _ _ _ | ReqUpdateMember g' _ _
  | ReqRemoveMember g' _ | ReqTransferOwnership g' _ | ReqCreateChannel g' _ => g' = g
  | ReqSetOverwrite r => channel_in_guild t (so_ChannelID r) g = true
  | ReqDeleteOverwrite c _ _ | ReqUpdateChannel c _ | ReqDeleteChannel c => channel_in_guild t c g = true
  end.

(** A new entry by account [a], about the right guild, under one of the request's actions. *)
Definition recorded (t t' : Tables) (a : Z) (req : Request) : Prop :=
  exists id row g, t_audit t !! id = None /\ t_audit t' !! id = Some row /\
    audit_actor_id row = a /\ audit_guild_id row = Some g /\ concerns t req g /\
    audit_action row ∈ actions_of req.

(** [m'] holds [m]'s entries and perhaps more. *)
Definition appended (m m' : gmap Z AuditRow) : Prop := m ⊆ m'.

Lemma recorded_entry t t' a req id g action target changes :
  t_audit t !! id = None -> t_audit t' = <[id := entry g a action target changes]> (t_audit t) ->
  concerns t req g -> action ∈ actions_of req ->
  (t' = t \/ recorded t t' a req) /\ t_audit t ⊆ t_audit t'.
Proof.
  intros Hid Ht Hc Ha. split; [right|rewrite Ht; by apply insert_subseteq].
  exists id, (entry g a action target changes), g. rewrite Ht, lookup_insert_eq. done.
Qed.

Lemma audited_all_audit ids rows t :
  NoDup ids -> (forall id, id ∈ ids -> t_audit t !! id = None) -> length ids = length rows ->
  t_audit t ⊆ t_audit (audited_all ids rows t) /\
  forall row, row ∈ rows -> exists id, t_audit t !! id = None /\ t_audit (audited_all ids rows t) !! id = Some row.
Proof.
  revert rows t. induction ids as [|id ids IH]; intros [|row rows] t Hnd Hnew Hlen; try done.
  - split; [done|by intros ? []%elem_of_nil].
  - apply NoDup_cons in Hnd as [Hnot Hnd]. cbn [audited_all].
    destruct (IH rows (audited id row t) Hnd) as [Hsub Hrows]; [|by injection Hlen|].
    { intros id' Hid'. cbn. rewrite lookup_insert_ne; [|by intros ->]. apply Hnew. by right. }
    assert (t_audit t !! id = None) as Hid by (apply Hnew; by left).
    assert (t_audit t ⊆ t_audit (audited id row t)) as Hsub1 by (by apply insert_subseteq).
    split; [by etrans|]. intros row' [->|Hrow]%elem_of_cons.
    + exists id. split; [done|]. eapply lookup_weaken; [|exact Hsub]. cbn. by rewrite lookup_insert_eq.
    + destruct (Hrows row' Hrow) as (id' & Hn & Hl). exists id'. split; [|done].
      cbn in Hn. by apply lookup_insert_None in Hn as [? _].
Qed.

Lemma update_entries_shape a g existing r :
  exists row, row ∈ update_entries a g existing r /\ audit_actor_id row = a /\
    audit_guild_id row = Some g /\ audit_action row ∈ actions_of (ReqUpdateGuild g r).
Proof.
  unfold update_entries. destruct (recording_toggled existing r) as [want|].
  - eexists. split; [apply elem_of_app; right; by left|]. cbn. split_and!; try done.
    unfold toggle_action. destruct want; set_solver.
  - rewrite (bool_decide_eq_true_2 (None = None)), orb_true_r by done.
    eexists. split; [by left|]. cbn. split_and!; try done. set_solver.
Qed.

(** What a committed request does to the log. *)
Lemma effect_audit svc a req t t' evs :
  effect svc a req t t' evs ->
  (exists g, req = ReqDeleteGuild g /\ forall id row, t_audit t !! id = Some row ->
     audit_guild_id row <> Some g -> t_audit t' !! id = Some row) \/
  ((t' = t \/ recorded t t' a req) /\ t_audit t ⊆ t_audit t').
Proof.
  intros He.
  destruct req as [q|g' q|g'|g' q|g' role q|g' role|g' wants|g' u' role b|g' u' q|g' u'|g' to|q|c' ty id'|g' q|c' q|c'];
    cbn [effect] in *.
  - destruct He as (gid & rid & out & aid & _ & _ & Hg & _ & _ & _ & Ha & -> & _). right.
    eapply recorded_entry; [exact Ha|reflexivity|exact Hg|by left].
  - destruct He as (out & d & existing & ids & _ & _ & _ & Hlen & Hnd & Hnew & -> & _). right.
    destruct (audited_all_audit ids (update_entries a g' existing q)
      (set_guilds (<[g' := updated_guild (update_guild_params g' q) existing]> (t_guilds t)) t)
      Hnd Hnew Hlen) as [Hsub Hrows]. split; [right|done].
    destruct (update_entries_shape a g' existing q) as (row & Hin & Hac & Hgu & Hact).
    destruct (Hrows row Hin) as (id & Hn & Hl). by exists id, row, g'.
  - destruct He as (d & aid & gr & _ & _ & _ & Ha & -> & _). left. exists g'. split; [done|].
    intros id row Hl Hne. cbn. apply map_lookup_filter_Some. split; [|done].
    rewrite lookup_insert_ne; [done|]. intros ->. congruence.
  - destruct He as (rid & out & d & aid & _ & _ & _ & _ & _ & _ & Ha & -> & _). right.
    eapply recorded_entry; [exact Ha|reflexivity|reflexivity|by left].
  - destruct He as (out & d & aid & existing & _ & _ & _ & _ & _ & Ha & -> & _). right.
    eapply recorded_entry; [exact Ha|reflexivity|reflexivity|by left].
  - destruct He as (d & aid & existing & _ & _ & _ & _ & _ & Ha & -> & _). right.
    eapply recorded_entry; [exact Ha|reflexivity|reflexivity|by left].
  - destruct He as (out & d & aid & _ & _ & _ & Ha & -> & _). right.
    eapply recorded_entry; [exact Ha|reflexivity|reflexivity|by left].
  - destruct He as (out & d & x & m & _ & _ & _ & _ & _ & _ & _ & _ & Ht & _). right.
    destruct (Bool.eqb _ _); [subst; by split; [left|]|]. destruct Ht as (aid & Ha & ->).
    eapply recorded_entry; [exact Ha|reflexivity|reflexivity|by left].
  - destruct He as (out & d & aid & m & _ & _ & _ & _ & Ha & -> & _). right.
    eapply recorded_entry; [exact Ha|reflexivity|reflexivity|by left].
  - destruct He as (d & aid & gr & m & _ & _ & _ & _ & Ha & -> & _). right.
    eapply recorded_entry; [exact Ha|reflexivity|reflexivity|by left].
  - destruct He as (out & d & aid & gr & _ & _ & _ & _ & _ & _ & _ & Ha & -> & _). right.
    eapply recorded_entry; [exact Ha|reflexivity|reflexivity|by left].
  - destruct He as (out & g' & d & aid & Hin & _ & _ & _ & _ & _ & _ & Ha & -> & _). right.
    eapply recorded_entry; [exact Ha|reflexivity|exact Hin|by left].
  - destruct He as (g' & d & aid & row & Hin & _ & _ & _ & _ & _ & Ha & -> & _). right.
    eapply recorded_entry; [exact Ha|reflexivity|exact Hin|by left].
  - destruct He as (_ & _ & cid & out & d & aid & _ & _ & _ & _ & _ & Ha & -> & _). right.
    eapply recorded_entry; [exact Ha|by cbn; destruct (cci_ParentID q)|reflexivity|by left].
  - destruct He as (out & g' & d & aid & existing & He & Hg & _ & _ & Ha & -> & _). right.
    eapply recorded_entry; [exact Ha|reflexivity|apply channel_in_guild_true; eauto|by left].
  - destruct He as (g' & d & aid & existing & He & Hg & _ & Ha & -> & _). right.
    eapply recorded_entry; [exact Ha|reflexivity|apply channel_in_guild_true; eauto|by left].
Qed.

(** every change is on the record. Whenever a request other than a guild's deletion changed
    anything at all, the audit log has a new entry, naming the account that sent it, the guild it is
    about and one of the actions of that kind of request. (A guild's deletion takes the guild's own
    log with it, its entry included.) *)
Theorem every_change_recorded (svc : Service) (a : Z) (req : Request) (s s' : St) (Hwf : wf (tabs s))
    (Hdel : forall g, req <> ReqDeleteGuild g) (Hok : handle svc a req s = (inr tt, s'))
    (Hchange : tabs s' <> tabs s) :
  recorded (tabs s) (tabs s') a req.
Proof.
  destruct (handle_ok svc a req s s' Hwf Hok) as (evs & He & _).
  destruct (effect_audit _ _ _ _ _ _ He) as [(g & Hreq & _)|[[Heq|Hr] _]]; [|done..].
  by destruct (Hdel g).
Qed.

Lemma every_change_recorded_witness :
  let s' := (handle example_service 101 example_update_role example_state).2 in
  recorded example_tables (tabs s') 101 example_update_role.
Proof.
  intros s'. apply (every_change_recorded example_service 101 example_update_role example_state s');
    [exact example_wf|done|vm_compute; reflexivity|].
  intros E. assert (t_audit (tabs s') = ∅) as H by (by rewrite E). vm_compute in H. done.
Defined.

(** The entries of a guild nobody deletes stay. *)
Lemma handle_keeps_entry svc a req s id row g :
  wf (tabs s) -> req <> ReqDeleteGuild g -> audit_guild_id row = Some g ->
  t_audit (tabs s) !! id = Some row -> t_audit (tabs (handle svc a req s).2) !! id = Some row.
Proof.
  intros Hwf Hreq Hg Hl. pose proof (handle_outcome svc a req s Hwf) as Ho. unfold outcome in Ho.
  destruct (handle svc a req s) as [[e|[]] s']; cbn; [by destruct Ho as [-> _]|].
  destruct Ho as (evs & He & _).
  destruct (effect_audit _ _ _ _ _ _ He) as [(g' & -> & Hk)|[_ Hsub]]; [|by eapply lookup_weaken].
  apply Hk; [done|]. congruence.
Qed.

(** The audit log is append-only. An entry of a guild is still there, unchanged, after any
    sequence of requests by anybody, with any statement failing, as long as the guild itself is not
    deleted. *)
Theorem audit_append_only (svc : Service) (reqs : list (Z * Request)) (s : St) (id g : Z) (row : AuditRow)
    (Hinv : inv (tabs s)) (Hreqs : Forall (fun ar => ar.2 <> ReqDeleteGuild g) reqs)
    (Hg : audit_guild_id row = Some g) (Hrow : t_audit (tabs s) !! id = Some row) :
  t_audit (tabs (serve svc reqs s)) !! id = Some row.
Proof.
  revert s Hinv Hrow. induction Hreqs as [|ar reqs Har _ IH]; intros s Hinv Hrow; [done|].
  cbn. apply IH; [by apply handle_inv|]. by eapply handle_keeps_entry; [apply Hinv|..].
Qed.

(** The first entry of the founding run, after the rest of it. *)
Lemma audit_append_only_witness :
  let s1 := serve example_service (take 1 founding_requests) founding_state in
  let row := mkAuditRow (Some (first_ids 1)) 100 "guild.create" (Some (first_ids 1))
               (Some {["name"%string := To (AVString "g")]}) in
  exists id, t_audit (tabs s1) !! id = Some row /\
    t_audit (tabs (serve example_service (take 3 (drop 1 founding_requests)) s1)) !! id = Some row.
Proof.
  intros s1 row. exists (first_ids 3).
  assert (t_audit (tabs s1) !! first_ids 3 = Some row) as H by (vm_compute; reflexivity). split; [exact H|].
  apply (audit_append_only example_service (take 3 (drop 1 founding_requests)) s1 (first_ids 3) (first_ids 1) row);
    [|repeat (apply Forall_cons_2; [discriminate|]); apply Forall_nil_2|reflexivity|exact H].
  apply (serve_inv example_service (take 1 founding_requests) founding_state).
  split; [apply wf_check_sound|apply channels_check_sound]; vm_compute; reflexivity.
Defined.
