(* ===== verification/Limits.v ===== *)
(** The creation ceilings: no request takes a guild, an account or a channel past them. What the reads
    answer, and the order of roles. *)
From S2P Require Import Prelude GoStd Permissions Snowflake Rows TxMonad Queries.
From S2P Require Import Resolve StoreInv Authority ResolveMany GuildAuth GuildCommon RoleSvc.
From S2P Require Import OverwriteSvc MemberSvc GuildSvc ChannelSvc Preserve GuildService Layers.
From S2P Require Import Escalation Hierarchy.

(** ** Counting rows *)

Section counting.
Context `{Countable K} {A : Type}.
Implicit Types (m : gmap K A) (P : K * A -> Prop).

Definition matching P `{forall x, Decision (P x)} m : Z := Z.of_nat (size (filter P m)).

Lemma matching_list P `{forall x, Decision (P x)} m : count (filter P (map_to_list m)) = matching P m.
Proof.
  unfold matching, count. rewrite map_filter_alt, map_size_list_to_map; [done|].
  eapply sublist_NoDup; [apply (NoDup_fst_map_to_list m)|]. apply fmap_sublist, sublist_filter.
Qed.

(** No more rows match than before, if every matching row's key had one before. *)
Lemma matching_mono P P' `{forall x, Decision (P x)} `{forall x, Decision (P' x)} m m' :
  (forall k v', m' !! k = Some v' -> P' (k, v') -> exists v, m !! k = Some v /\ P (k, v)) ->
  matching P' m' <= matching P m.
Proof.
  intros Hk. unfold matching. rewrite <- !(size_dom (D := gset K)). apply inj_le, subseteq_size.
  intros k. rewrite !elem_of_dom. intros [v' [Hl HP]%map_lookup_filter_Some].
  destruct (Hk k v' Hl HP) as (v & Hv & HPv). exists v. by apply map_lookup_filter_Some.
Qed.

Lemma matching_le P `{forall x, Decision (P x)} m m' :
  (forall k v', m' !! k = Some v' -> P (k, v') -> exists v, m !! k = Some v /\ P (k, v)) ->
  matching P m' <= matching P m.
Proof. apply matching_mono. Qed.

Lemma matching_insert P `{forall x, Decision (P x)} m k v : matching P (<[k := v]> m) <= matching P m + 1.
Proof.
  unfold matching. assert (size (filter P (<[k := v]> m)) <= S (size (filter P m)))%nat; [|lia].
  rewrite <- !(size_dom (D := gset K)).
  trans (size ({[k]} ∪ dom (filter P m) : gset K)).
  - apply subseteq_size. intros k'. rewrite elem_of_union, elem_of_singleton, !elem_of_dom.
    intros [v' [Hl HP]%map_lookup_filter_Some]. destruct (decide (k' = k)) as [->|]; [by left|right].
    rewrite lookup_insert_ne in Hl by done. exists v'. by apply map_lookup_filter_Some.
  - rewrite size_union_alt, size_singleton.
    assert (size (dom (filter P m) ∖ {[k]}) <= size (dom (filter P m) : gset K))%nat; [|lia].
    apply subseteq_size. set_solver.
Qed.

(** A row added where none matches does not count. *)
Lemma matching_insert_out P `{forall x, Decision (P x)} m k v :
  ~ P (k, v) -> matching P (<[k := v]> m) <= matching P m.
Proof.
  intros Hn. apply matching_le. intros k' v' Hl HP. destruct (decide (k' = k)) as [->|].
  - rewrite lookup_insert_eq in Hl. congruence.
  - rewrite lookup_insert_ne in Hl by done. by exists v'.
Qed.

(** A row replaced by one that matches no more. *)
Lemma matching_replace P `{forall x, Decision (P x)} m k v v0 :
  m !! k = Some v0 -> (P (k, v) -> P (k, v0)) -> matching P (<[k := v]> m) <= matching P m.
Proof.
  intros Hk HP0. apply matching_le. intros k' v' Hl HP. destruct (decide (k' = k)) as [->|].
  - rewrite lookup_insert_eq in Hl. injection Hl as <-. exists v0. auto.
  - rewrite lookup_insert_ne in Hl by done. by exists v'.
Qed.

(** Fewer rows. *)
Lemma matching_subseteq P `{forall x, Decision (P x)} m m' : m' ⊆ m -> matching P m' <= matching P m.
Proof. intros Hs. apply matching_le. intros k v Hl HP. exists v. split; [by eapply lookup_weaken|done]. Qed.

Lemma matching_none P `{forall x, Decision (P x)} m :
  (forall k v, m !! k = Some v -> ~ P (k, v)) -> matching P m = 0.
Proof.
  intros Hn. unfold matching. rewrite (proj2 (map_size_empty_iff _)); [done|].
  apply map_empty. intros k. apply map_lookup_filter_None. right. intros v Hv. by apply Hn.
Qed.

Lemma matching_size P `{forall x, Decision (P x)} m : matching P m <= Z.of_nat (size m).
Proof.
  unfold matching. rewrite <- !(size_dom (D := gset K)). apply inj_le, subseteq_size. intros k.
  rewrite !elem_of_dom. intros [v [Hl _]%map_lookup_filter_Some]. by exists v.
Qed.
End counting.

Lemma size_list_to_map_le `{Countable K} {A} (l : list (K * A)) :
  (size (list_to_map l : gmap K A) <= length l)%nat.
Proof.
  induction l as [|[k v] l IH]; [done|]. cbn. rewrite map_size_insert. destruct (_ !! k); simpl; lia.
Qed.

Lemma length_filter_fmap {A B} (f : A -> B) (P : B -> Prop) `{forall x, Decision (P x)} (l : list A) :
  length (filter P (f <$> l)) = length (filter (fun x => P (f x)) l).
Proof. induction l as [|x l IH]; [done|]. rewrite fmap_cons, !filter_cons. by destruct (decide _); simpl; rewrite IH. Qed.

(** ** The counts the service checks *)

Definition roles_in (g : Z) (kv : Z * dbRole) : Prop := role_guild_id kv.2 = g.
Definition channels_in (g : Z) (kv : Z * dbChannel) : Prop := channel_guild_id kv.2 = Some g.
Definition owned_by (u : Z) (kv : Z * dbGuild) : Prop := guild_owner_id kv.2 = u.
Definition joined_by (u : Z) (kv : Z * Z * dbGuildMember) : Prop := kv.1.2 = u.
Definition overwrites_on (c : Z) (kv : Z * Z * Z * (Z * Z)) : Prop := kv.1.1.1 = c.

#[export] Instance roles_in_dec g kv : Decision (roles_in g kv).
Proof. unfold roles_in. apply _. Defined.
#[export] Instance channels_in_dec g kv : Decision (channels_in g kv).
Proof. unfold channels_in. apply _. Defined.
#[export] Instance owned_by_dec u kv : Decision (owned_by u kv).
Proof. unfold owned_by. apply _. Defined.
#[export] Instance joined_by_dec u kv : Decision (joined_by u kv).
Proof. unfold joined_by. apply _. Defined.
#[export] Instance overwrites_on_dec c kv : Decision (overwrites_on c kv).
Proof. unfold overwrites_on. apply _. Defined.

Lemma count_roles t g : count (guild_roles t g) = matching (roles_in g) (t_roles t).
Proof.
  rewrite <- matching_list. unfold count, guild_roles, role_rows. by rewrite length_filter_fmap.
Qed.

Lemma count_channels t g : count (guild_channels t g) = matching (channels_in g) (t_channels t).
Proof. rewrite <- matching_list. unfold count, guild_channels. by rewrite length_filter_fmap. Qed.

Lemma count_owned t u :
  count (filter (fun kv => guild_owner_id kv.2 = u) (map_to_list (t_guilds t))) = matching (owned_by u) (t_guilds t).
Proof. rewrite <- matching_list. done. Qed.

Lemma count_joined t u :
  count (filter (fun kv => kv.1.2 = u) (map_to_list (t_members t))) = matching (joined_by u) (t_members t).
Proof. rewrite <- matching_list. done. Qed.

Lemma count_overwrites t c : count (channel_overwrites t c) = matching (overwrites_on c) (t_overwrites t).
Proof.
  rewrite <- matching_list. unfold count, channel_overwrites, overwrite_rows. rewrite length_filter_fmap.
  do 2 f_equal. apply list_filter_iff. by intros [[[? ?] ?] [? ?]].
Qed.

(** Within the ceilings. *)
Record within_limits (svc : Service) (t : Tables) : Prop := {
  wl_roles : forall g, count (guild_roles t g) <= maxRolesPerGuild svc;
  wl_channels : forall g, count (guild_channels t g) <= maxChannelsPerGuild svc;
  wl_owned : forall u, count (filter (fun kv => guild_owner_id kv.2 = u) (map_to_list (t_guilds t)))
    <= maxGuildsPerAccount svc;
  wl_joined : forall u, count (filter (fun kv => kv.1.2 = u) (map_to_list (t_members t)))
    <= maxJoinedGuildsPerAccount svc;
  wl_overwrites : forall c, count (channel_overwrites t c) <= maxOverwritesPerChannel
}.

(** Tables small enough are within any ceilings. *)
Lemma small_within_limits svc t :
  Z.of_nat (size (t_roles t)) <= maxRolesPerGuild svc ->
  Z.of_nat (size (t_channels t)) <= maxChannelsPerGuild svc ->
  Z.of_nat (size (t_guilds t)) <= maxGuildsPerAccount svc ->
  Z.of_nat (size (t_members t)) <= maxJoinedGuildsPerAccount svc ->
  Z.of_nat (size (t_overwrites t)) <= maxOverwritesPerChannel -> within_limits svc t.
Proof.
  intros H1 H2 H3 H4 H5.
  split; intros k; rewrite ?count_roles, ?count_channels, ?count_owned, ?count_joined, ?count_overwrites;
    (etrans; [apply matching_size|done]).
Qed.

(** ** What each request adds *)

Section requests.
Context (svc : Service) (a : Z) (req : Request) (t t' : Tables) (evs : list (Event Payload)).
Context (Hinv : inv t) (He : effect svc a req t t' evs).

Lemma effect_roles g :
  1 <= maxRolesPerGuild svc ->
  matching (roles_in g) (t_roles t') <= matching (roles_in g) (t_roles t) \/
  matching (roles_in g) (t_roles t') <= maxRolesPerGuild svc.
Proof.
  intros Hmax. pose proof Hinv as [Hwf _].
  destruct req; cbn [effect] in He; effect_tables He; try (left; reflexivity).
  - destruct (decide (x = g)) as [->|Hne].
    + right. etrans; [apply matching_insert|]. rewrite matching_none; [done|]. intros k r0 Hr Hg.
      destruct (wf_role_guild _ Hwf _ _ Hr) as [gr Hgr]. unfold roles_in in Hg. cbn in Hg. congruence.
    + left. by apply matching_insert_out.
  - left. apply matching_subseteq, map_filter_subseteq.
  - rename g0 into g'. cbn. assert (matching (roles_in g) (shifted t g' <$> t_roles t)
      <= matching (roles_in g) (t_roles t)) as Hsh.
    { apply matching_le. intros k r' Hl Hr. rewrite lookup_fmap in Hl.
      destruct (t_roles t !! k) as [r0|]; [|done]. injection Hl as <-. exists r0. split; [done|].
      unfold roles_in in *. cbn in *. by rewrite (proj1 (proj2 (shifted_fields t g' r0))) in Hr. }
    destruct (decide (g' = g)) as [->|Hne].
    + right. etrans; [apply matching_insert|].
      match goal with H : count (guild_roles t g) < _ |- _ => rewrite count_roles in H end. lia.
    + left. etrans; [by apply matching_insert_out|done].
  - left. match goal with H : get_role t _ _ = Some _ |- _ => apply get_role_Some in H as [Hl Hg] end.
    by eapply matching_replace.
  - left. apply matching_subseteq, delete_subseteq.
  - left. cbn. apply matching_le. intros k r' Hl Hr.
    match goal with H : reorder_allowed _ _ _ _ |- _ => rewrite (repositioned_row t _ _ _ _ k Hwf H) in Hl end.
    destruct (t_roles t !! k) as [r0|]; [|done]. injection Hl as <-. by exists r0.
  - left. by destruct (cci_ParentID r).
Qed.

Lemma effect_channels_count g :
  matching (channels_in g) (t_channels t') <= matching (channels_in g) (t_channels t) \/
  matching (channels_in g) (t_channels t') <= maxChannelsPerGuild svc.
Proof.
  destruct req; cbn [effect] in He; effect_tables He; try (left; reflexivity).
  - left. apply matching_subseteq, map_filter_subseteq.
  - assert (matching (channels_in g) (<[x := new_channel x g0 r]> (t_channels t))
        <= matching (channels_in g) (t_channels t) \/
      matching (channels_in g) (<[x := new_channel x g0 r]> (t_channels t)) <= maxChannelsPerGuild svc) as Hn.
    { destruct (decide (g0 = g)) as [->|Hne].
      - right. etrans; [apply matching_insert|].
        match goal with H : count (guild_channels t g) < _ |- _ => rewrite count_channels in H end. lia.
      - left. apply matching_insert_out. unfold channels_in. cbn. congruence. }
    by destruct (cci_ParentID r).
  - left. match goal with H : t_channels t !! c = Some _ |- _ => by eapply matching_replace; [exact H|] end.
  - left. cbn. apply matching_le. intros k ch Hl Hg. unfold channels_without in Hl.
    rewrite lookup_fmap in Hl. destruct (delete c (t_channels t) !! k) as [ch0|] eqn:E; [|done].
    injection Hl as <-. apply lookup_delete_Some in E as [_ E]. exists ch0. split; [done|].
    unfold channels_in, detach in *. cbn in *. by case_decide.
Qed.

Lemma effect_owned u :
  matching (owned_by u) (t_guilds t') <= matching (owned_by u) (t_guilds t) \/
  matching (owned_by u) (t_guilds t') <= maxGuildsPerAccount svc.
Proof.
  destruct req; cbn [effect] in He; effect_tables He; try (left; reflexivity).
  - cbn. destruct (decide (a = u)) as [->|Hne].
    + right. etrans; [apply matching_insert|].
      match goal with H : count _ < maxGuildsPerAccount _ |- _ => rewrite count_owned in H end. lia.
    + left. by apply matching_insert_out.
  - left. match goal with H : t_guilds t !! _ = Some _ |- _ => by eapply matching_replace; [exact H|] end.
  - left. apply matching_subseteq, delete_subseteq.
  - cbn. destruct (decide (to = u)) as [->|Hne].
    + right. etrans; [apply matching_insert|].
      match goal with H : count _ < maxGuildsPerAccount _ |- _ => rewrite count_owned in H end. lia.
    + left. by apply matching_insert_out.
  - left. by destruct (cci_ParentID r).
Qed.

Lemma effect_joined u :
  matching (joined_by u) (t_members t') <= matching (joined_by u) (t_members t) \/
  matching (joined_by u) (t_members t') <= maxJoinedGuildsPerAccount svc.
Proof.
  destruct req; cbn [effect] in He; effect_tables He; try (left; reflexivity).
  - cbn. destruct (decide (a = u)) as [->|Hne].
    + right. etrans; [apply matching_insert|].
      match goal with H : count _ < maxJoinedGuildsPerAccount _ |- _ => rewrite count_joined in H end. lia.
    + left. by apply matching_insert_out.
  - left. apply matching_subseteq, map_filter_subseteq.
  - left. match goal with H : t_members t !! _ = Some _ |- _ => by eapply matching_replace; [exact H|] end.
  - left. apply matching_subseteq, delete_subseteq.
  - left. by destruct (cci_ParentID r).
Qed.

(** A new channel under a category starts with the category's overwrites. *)
Lemma matching_copied p cid m :
  t_channels t !! cid = None ->
  matching (overwrites_on cid) (t_overwrites (with_copied (Some p) cid (set_channels m t)))
    <= matching (overwrites_on p) (t_overwrites t).
Proof.
  intros Hnew. rewrite <- (count_overwrites t p). unfold matching, count.
  change (channel_overwrites t p) with (channel_overwrites (set_channels m t) p).
  assert (length (channel_overwrites (set_channels m t) p) =
    length ((fun ow => ((cid, ow_target_type ow, ow_target_id ow), (ow_allow ow, ow_deny ow)))
      <$> channel_overwrites (set_channels m t) p)) as -> by (by rewrite length_fmap).
  apply inj_le. etrans; [|apply size_list_to_map_le]. rewrite <- !(size_dom (D := gset (Z * Z * Z))).
  apply subseteq_size. intros k. rewrite !elem_of_dom.
  intros [v [Hl Hc]%map_lookup_filter_Some]. cbn in Hl. unfold overwrites_on in Hc. cbn in Hc.
  apply lookup_union_Some_raw in Hl as [Hl|[_ Hl]]; [exfalso|by exists v].
  destruct k as [[c ty] id]. cbn in Hc. subst c.
  destruct (ch_overwrite _ (proj2 Hinv) _ _ _ _ Hl) as [ch Hch]. congruence.
Qed.

Lemma effect_overwrites c :
  (forall c', matching (overwrites_on c') (t_overwrites t) <= maxOverwritesPerChannel) ->
  matching (overwrites_on c) (t_overwrites t') <= maxOverwritesPerChannel.
Proof.
  intros Hall. pose proof (Hall c) as Hc.
  destruct req; cbn [effect] in He; effect_tables He; try exact Hc;
    try (etrans; [apply matching_subseteq, map_filter_subseteq|exact Hc]).
  - cbn. destruct (t_overwrites t !! (so_ChannelID r, so_TargetType r, so_TargetID r)) as [[al de]|] eqn:E.
    + etrans; [by eapply matching_replace|exact Hc].
    + destruct (decide (so_ChannelID r = c)) as [<-|Hne]; [|etrans; [by apply matching_insert_out|exact Hc]].
      etrans; [apply matching_insert|].
      match goal with H : _ = None -> count _ < _ |- _ => rewrite count_overwrites in H; apply Z.le_succ_l, H end.
      unfold get_overwrite. destruct (channel_in_guild _ _ _); [by rewrite E|done].
  - cbn. etrans; [apply matching_subseteq, delete_subseteq|exact Hc].
  - destruct (cci_ParentID r) as [p|]; [|exact Hc].
    destruct (decide (x = c)) as [->|Hne]; [etrans; [by apply matching_copied|apply Hall]|].
    etrans; [|exact Hc]. apply matching_le. intros k v Hl Hk. exists v. split; [|done]. cbn in Hl.
    apply lookup_union_Some_raw in Hl as [Hl|[_ Hl]]; [done|exfalso].
    apply copied_lookup in Hl as (ty & id & -> & _). unfold overwrites_on in Hk. cbn in Hk. congruence.
Qed.
End requests.

Lemma NewService_ceilings opts svc :
  NewService opts = Some svc -> svc = opts /\ 1 <= maxRolesPerGuild svc.
Proof. unfold NewService. destruct (_ || _) eqn:E; [done|]. intros [= <-]. bool_hyps. split; [done|lia]. Qed.

Lemma effect_limits svc a req t t' evs :
  inv t -> 1 <= maxRolesPerGuild svc -> effect svc a req t t' evs -> within_limits svc t -> within_limits svc t'.
Proof.
  intros Hinv Hmax He [H1 H2 H3 H4 H5].
  split; intros k; rewrite ?count_roles, ?count_channels, ?count_owned, ?count_joined, ?count_overwrites.
  - specialize (H1 k). rewrite count_roles in H1.
    destruct (effect_roles _ _ _ _ _ _ Hinv He k Hmax); [by etrans|done].
  - specialize (H2 k). rewrite count_channels in H2.
    destruct (effect_channels_count _ _ _ _ _ _ He k); [by etrans|done].
  - specialize (H3 k). rewrite count_owned in H3.
    destruct (effect_owned _ _ _ _ _ _ He k); [by etrans|done].
  - specialize (H4 k). rewrite count_joined in H4.
    destruct (effect_joined _ _ _ _ _ _ He k); [by etrans|done].
  - eapply effect_overwrites; [done..|]. intros c. rewrite <- count_overwrites. apply H5.
Qed.

Lemma handle_limits svc a req s :
  inv (tabs s) -> 1 <= maxRolesPerGuild svc -> within_limits svc (tabs s) ->
  within_limits svc (tabs (handle svc a req s).2).
Proof.
  intros Hinv Hmax Hl. pose proof (handle_outcome svc a req s (proj1 Hinv)) as Ho. unfold outcome in Ho.
  destruct (handle svc a req s) as [[e|[]] s']; cbn; [by destruct Ho as [-> _]|].
  destruct Ho as (evs & He & _). by eapply effect_limits.
Qed.

(** The ceilings a service is built with hold forever. NewService accepts no ceiling below 1,
    and from tables within them no sequence of requests, whoever sends them and whichever statements
    fail, takes a guild past its roles or its channels, an account past the guilds it may own or
    found its way into, or a channel past fifty overwrites. *)
Theorem limits_hold (opts svc : Service) (reqs : list (Z * Request)) (s : St)
    (Hsvc : NewService opts = Some svc) (Hinv : inv (tabs s)) (Hlimits : within_limits svc (tabs s)) :
  within_limits svc (tabs (serve svc reqs s)).
Proof.
  apply NewService_ceilings in Hsvc as [_ Hmax]. revert s Hinv Hlimits.
  induction reqs as [|ar reqs IH]; intros s Hinv Hl; [done|].
  cbn. apply IH; [by apply handle_inv|by apply handle_limits].
Qed.

(** The founding run where a guild may hold three roles: one more is refused. *)
Lemma limits_hold_witness :
  let svc := mkService true 5 3 1 1 5 in
  let again := (100, ReqCreateRole (first_ids 1) (mkCreateRoleInput "more" 0 0 false false)) in
  let s' := serve svc founding_requests founding_state in
  NewService (mkService true 5 0 1 1 5) = None /\
  (handle svc 100 (ReqCreateGuild (mkCreateGuildInput "second" None)) s').1 = inl EGuildFull /\
  (handle svc again.1 again.2 s').1 = inl EGuildFull /\
  count (guild_roles (tabs s') (first_ids 1)) = 3 /\
  within_limits svc (tabs (serve svc (founding_requests ++ [again]) founding_state)).
Proof.
  intros svc again s'. do 4 (split; [vm_compute; reflexivity|]).
  apply (limits_hold svc svc (founding_requests ++ [again]) founding_state);
    [reflexivity|split; [apply wf_check_sound|apply channels_check_sound]; vm_compute; reflexivity|].
  split; intros k; vm_compute; discriminate.
Defined.

(** ** Listings *)

(** ** Role order *)

(** Roles in a row, at consecutive positions from [k]. *)
Definition placed_from (k : Z) (l : list dbRole) : list dbRole :=
  imap (fun i r => with_position (Z.of_nat i + k) r) l.

Lemma placed_from_cons k r l :
  placed_from k (r :: l) = with_position k r :: placed_from (k + 1) l.
Proof.
  unfold placed_from. rewrite imap_cons. f_equal. apply imap_ext. intros i x _. cbn. f_equal. lia.
Qed.

Lemma placed_from_positions k l : role_position <$> placed_from k l = seqZ k (Z.of_nat (length l)).
Proof.
  revert k. induction l as [|r l IH]; intros k; [done|].
  rewrite placed_from_cons, fmap_cons, IH. cbn [length]. rewrite (seqZ_cons k) by lia. cbn [role_position with_position].
  f_equal. f_equal; lia.
Qed.

Lemma placed_from_ids k l : role_id <$> placed_from k l = role_id <$> l.
Proof.
  revert k. induction l as [|r l IH]; intros k; [done|]. by rewrite placed_from_cons, !fmap_cons, IH.
Qed.

Lemma elem_of_placed k l r :
  r ∈ placed_from k l <-> exists i r0, l !! i = Some r0 /\ r = with_position (Z.of_nat i + k) r0.
Proof.
  unfold placed_from. rewrite elem_of_lookup_imap. naive_solver.
Qed.

Lemma placed_from_sorted k l : Sorted role_before (placed_from k l).
Proof.
  revert k. induction l as [|r l IH]; intros k; [constructor|]. rewrite placed_from_cons.
  constructor; [apply IH|]. destruct l as [|r' l]; [constructor|]. rewrite placed_from_cons.
  constructor. left. cbn. lia.
Qed.

(** The roles of the guild once one is created: it is at the bottom, at 1, and the others follow in
    the order they had, at 2 and up. *)
Lemma ranked_create t g id r :
  wf t -> is_Some (t_guilds t !! g) -> t_roles t !! id = None ->
  ranked (set_roles (<[id := new_role id g r]> (shifted t g <$> t_roles t)) t) g =
  new_role id g r :: placed_from 2 (ranked t g).
Proof.
  intros Hwf Hg Hnew. set (t' := set_roles _ t). pose proof (wf_create_role t g id r Hwf Hg Hnew) as Hwf'.
  fold t' in Hwf'. assert (forall x, x ∈ ranked t' g <-> x ∈ new_role id g r :: placed_from 2 (ranked t g)) as Hin.
  { intros x. rewrite elem_of_ranked, elem_of_cons, elem_of_placed by done. cbn. split.
    - intros (Hl & Hxg & Hd). destruct (decide (role_id x = id)) as [E|Hne].
      + left. rewrite E, lookup_insert_eq in Hl. congruence.
      + right. rewrite lookup_insert_ne, lookup_fmap in Hl by done.
        destruct (t_roles t !! role_id x) as [r0|] eqn:Hr0; [|done]. injection Hl as Hs.
        destruct (shifted_spec t g _ r0 Hwf Hr0) as [(_ & _ & i & Hi & E)|[Hn E]]; [by exists i, r0; rewrite <- Hs, E|].
        exfalso. apply Hn. rewrite E in Hs. by subst.
    - intros [->|(i & r0 & Hi & ->)]; [by rewrite lookup_insert_eq|]. cbn.
      assert (r0 ∈ ranked t g) as Hr0 by (by eapply list_elem_of_lookup_2).
      apply elem_of_ranked in Hr0 as (Hl & Hg0 & Hd); [|done].
      split; [|done]. rewrite lookup_insert_ne by congruence. rewrite lookup_fmap, Hl. cbn. f_equal.
      destruct (shifted_spec t g _ r0 Hwf Hl) as [(_ & _ & j & Hj & E)|[Hn _]]; [|by destruct Hn].
      assert (NoDup (ranked t g)) as Hnd by (apply (NoDup_fmap_1 role_id), ranked_nodup, Hwf).
      assert (j = i) as -> by (by eapply NoDup_lookup). done. }
  assert (NoDup (new_role id g r :: placed_from 2 (ranked t g))) as Hnd.
  { apply (NoDup_fmap_1 role_id). rewrite fmap_cons, placed_from_ids. apply NoDup_cons.
    split; [|by apply ranked_nodup]. intros (x & E & Hx)%list_elem_of_fmap.
    apply elem_of_ranked in Hx as [Hx _]; [|done]. cbn in E. congruence. }
  eapply Sorted_unique_strong; [apply role_before_trans|..].
  - intros x y Hx Hy Hxy Hyx. assert (role_id x = role_id y) as E by (unfold role_before in *; lia).
    apply elem_of_ranked in Hx as [Hx _]; [|done]. apply Hin, elem_of_ranked in Hy as [Hy _]; [|done].
    congruence.
  - apply Sorted_merge_sort, _.
  - constructor; [apply placed_from_sorted|]. destruct (ranked t g) as [|r' l]; [constructor|].
    rewrite placed_from_cons. constructor. left. cbn. lia.
  - apply NoDup_Permutation; [|done|done]. apply (NoDup_fmap_1 role_id), ranked_nodup, Hwf'.
Qed.

(** The operation's effect, with its answer. *)
Lemma CreateRole_run svc a g r out s s' :
  wf (tabs s) -> Service_CreateRole svc a g r s = (inr out, s') ->
  exists id evs, CreateRole_effect svc a g r id (tabs s) out (tabs s') evs.
Proof.
  intros Hwf. unfold Service_CreateRole, mbind, M_bind, ids_Next.
  destruct (Next (gen s) (clock s)) as [[[[id|] gn] c]|]; [|done..]. intros H.
  eapply (RunInTx_commit _ _ _ _ (fun out t' evs => CreateRole_effect svc a g r id (tabs s) out t' evs))
    in H as (evs & H & _); [by exists id, evs|auto with norite|].
  intros s1 Ht Hh. cbn in Ht. rewrite <- Ht. apply wp_CreateRole_tx; [by rewrite Ht|done].
Qed.

(** A created role goes to the bottom and disturbs no order. After CreateRole answers, the guild's
    roles other than @everyone are, from the lowest up, the new one and then exactly the ones it had
    in the order they had, at positions 1, 2, 3 and so on with no gap and no tie. *)
Theorem created_role_at_bottom (svc : Service) (a g : Z) (r : CreateRoleInput) (out : Role) (s s' : St)
    (Hwf : wf (tabs s)) (Hok : Service_CreateRole svc a g r s = (inr out, s')) :
  role_id <$> ranked (tabs s') g = Role_ID out :: (role_id <$> ranked (tabs s) g) /\
  role_position <$> ranked (tabs s') g = seqZ 1 (Z.of_nat (length (ranked (tabs s) g)) + 1).
Proof.
  apply CreateRole_run in Hok as (id & evs & d & aid & _ & _ & _ & _ & Hnew & Hg & _ & Ht & -> & _); [|done].
  assert (ranked (tabs s') g = new_role id g r :: placed_from 2 (ranked (tabs s) g)) as ->.
  { rewrite Ht. rewrite <- (ranked_create (tabs s) g id r) by done. done. }
  rewrite !fmap_cons, placed_from_ids, placed_from_positions. split; [done|].
  rewrite (seqZ_cons 1) by lia. f_equal. f_equal; lia.
Qed.

(** In the example, a new role goes below Helper and Moderator. *)
Lemma created_role_at_bottom_witness :
  let r := mkCreateRoleInput "new" 0 0 false false in
  let run := Service_CreateRole example_service 100 1 r example_state in
  exists out, run.1 = inr out /\ role_id <$> ranked example_tables 1 = [21; 20] /\
    role_id <$> ranked (tabs run.2) 1 = Role_ID out :: [21; 20] /\
    role_position <$> ranked (tabs run.2) 1 = [1; 2; 3].
Proof.
  intros r run. destruct run.1 as [e|out] eqn:E; [vm_compute in E; discriminate E|].
  exists out. split; [reflexivity|]. split; [vm_compute; reflexivity|].
  apply (created_role_at_bottom example_service 100 1 r out example_state run.2 example_wf).
  rewrite <- E. apply surjective_pairing.
Defined.

(** ** The channel list *)

(** The channels of the guild in the client's order, each with its overwrites. *)
Definition shown (t : Tables) (row : dbChannel) : Channel :=
  with_overwrites (channel_overwrites t (channel_id row)) (channelFromRow row).

(** May the account see the channel? An instance administrator sees all of them. *)
Definition sees (t : Tables) (a g c : Z) : Prop := is_admin t a = true \/ views t g a c.

#[export] Instance sees_dec t a g c : Decision (sees t a g c).
Proof. unfold sees, views. apply _. Defined.

Lemma elem_of_guild_channels t g row :
  channels_ok t -> row ∈ guild_channels t g ->
  t_channels t !! channel_id row = Some row /\ channel_guild_id row = Some g.
Proof.
  intros Hc. unfold guild_channels. rewrite list_elem_of_filter, list_elem_of_fmap.
  intros [Hg ([c ch] & -> & H%elem_of_map_to_list)]. cbn in *. by rewrite (ch_key _ Hc _ _ H).
Qed.

Lemma AllowsInChannel_sees t a g need d c :
  granted t a g 0 need d -> c <> 0 -> channel_in_guild t c g = true ->
  Decision_AllowsInChannel d c (channel_overwrites t c) PermViewChannel = bool_decide (sees t a g c).
Proof.
  intros Hd Hc Hin. apply eq_true_iff_eq. rewrite bool_decide_eq_true. unfold sees.
  destruct (is_admin t a) eqn:Hadm.
  - unfold granted in Hd. cbn in Hd. rewrite Hadm in Hd. subst d. cbn. split; [by left|done].
  - rewrite (AllowsInChannel_holds t a g 0 need d Hadm Hd) by done. rewrite holds_view. naive_solver.
Qed.

Lemma omap_filter {A B} (f : A -> option B) (P : A -> Prop) `{forall x, Decision (P x)} (h : A -> B) (l : list A) :
  (forall x, x ∈ l -> f x = if decide (P x) then Some (h x) else None) ->
  omap f l = h <$> filter P l.
Proof.
  induction l as [|x l IH]; intros Hf; [done|]. rewrite filter_cons. cbn [omap list_omap]. rewrite (Hf x) by (by left).
  rewrite IH by (intros; apply Hf; by right). by destruct (decide (P x)).
Qed.

(** Who may read a guild at all: its members, its owner and the instance administrators. *)
Definition may_read (t : Tables) (g a : Z) : bool := is_admin t a || is_owner t g a || is_member t g a.

Lemma Authorize_read s a g :
  wf (tabs s) -> faults s = [] ->
  if may_read (tabs s) g a
  then exists d, granted (tabs s) a g 0 0 d /\ Authorize a g 0 0 s = (inr d, s)
  else Authorize a g 0 0 s = (inl ENotFound, s).
Proof.
  intros Hwf Hup. rewrite (transparent_nil _ s (transparent_Authorize a g 0 0) Hup).
  pose proof (Authorize_verdict (tabs s) a g 0 0 s Hwf Hup eq_refl) as Hv. unfold may_read.
  destruct (Authorize a g 0 0 s).1 as [[]|d]; try done.
  - destruct Hv as [-> Hn]. unfold in_guild in Hn. rewrite not_true_iff_false in Hn. cbn. by rewrite Hn.
  - destruct Hv as (_ & _ & []). intros i Hi. by rewrite Z.testbit_0_l in Hi.
  - assert (is_admin (tabs s) a || is_owner (tabs s) g a || is_member (tabs s) g a = true) as ->; [|by exists d].
    cbn in Hv. destruct (is_admin (tabs s) a); [done|]. by destruct Hv as (_ & Hr%resolved_in_guild & _).
Qed.

(** ListChannels answers exactly the channels the account can see. With no failing statement it
    always answers: not found to an account that is neither in the guild nor an instance
    administrator; and otherwise, in the client's order, each channel of the guild the account may
    view, with its own overwrites and no other channel's, and none of those it may not. It changes
    nothing. *)
Theorem ListChannels_visible (s : St) (a g : Z) (Hinv : inv (tabs s)) (Hup : faults s = [])
    (Hzero : t_channels (tabs s) !! 0 = None) :
  Service_ListChannels a g s =
  (if may_read (tabs s) g a
   then inr (shown (tabs s) <$> filter (fun row => sees (tabs s) a g (channel_id row))
               (merge_sort channel_before (guild_channels (tabs s) g)))
   else inl ENotFound, s).
Proof.
  destruct Hinv as [Hwf Hc]. pose proof (Authorize_read s a g Hwf Hup) as Ha.
  unfold Service_ListChannels, mbind, M_bind. destruct (may_read (tabs s) g a); [|by rewrite Ha].
  destruct Ha as (d & Hv & ->).
  unfold Queries_ListGuildChannels. rewrite reading_run by done.
  set (rows := merge_sort channel_before (guild_channels (tabs s) g)).
  assert (forall row, row ∈ rows -> channel_id row <> 0 /\ channel_in_guild (tabs s) (channel_id row) g = true)
    as Hrows.
  { intros row. unfold rows. rewrite merge_sort_Permutation. intros Hr.
    destruct (elem_of_guild_channels _ _ _ Hc Hr) as [Hl Hg]. split; [congruence|].
    apply channel_in_guild_true. eauto. }
  destruct rows as [|row rows0] eqn:E; [done|]. rewrite <- E in *. clear E row rows0.
  unfold Queries_ListGuildPermissionOverwrites. rewrite reading_run by done. unfold mret, M_ret.
  do 2 f_equal. apply omap_filter. intros row Hr. destruct (Hrows row Hr) as [Hne Hin].
  rewrite rows_of_surrounding by (done || by apply list_elem_of_fmap_2).
  rewrite (AllowsInChannel_sees _ a g 0 d) by done.
  destruct (decide (sees (tabs s) a g (channel_id row))).
  + by rewrite bool_decide_eq_true_2.
  + by rewrite bool_decide_eq_false_2.
Qed.

(** 102 sees both channels of the example, 103 only the open one, 200 no guild. *)
Lemma ListChannels_visible_witness :
  let ids u := match (Service_ListChannels u 1 example_state).1 with
               | inl e => inl e | inr l => inr (map Channel_ID l) end in
  ids 102 = inr [7; 8] /\ ids 103 = inr [8] /\ ids 200 = inl ENotFound /\
  Service_ListChannels 103 1 example_state =
  (inr (map (shown example_tables) (filter (fun row => sees example_tables 103 1 (channel_id row))
          (merge_sort channel_before (guild_channels example_tables 1)))), example_state).
Proof.
  intros ids. do 3 (split; [vm_compute; reflexivity|]).
  exact (ListChannels_visible example_state 103 1 example_inv eq_refl eq_refl).
Defined.

(** ** The member list *)

(** The members of the guild above an id, in id order. *)
Definition members_after (t : Tables) (g z : Z) : list dbGuildMember :=
  merge_sort member_before
    (filter (fun m => gm_guild_id m = g /\ z < gm_user_id m) ((map_to_list (t_members t)).*2)).

Definition member_entry (t : Tables) (m : dbGuildMember) : Member :=
  memberFromRow m (merge_sort Z.le (member_role_ids t (gm_guild_id m) (gm_user_id m))).

(** A client reading on from the last member it was given, until a page is empty. *)
Fixpoint read_on (fuel : nat) (a g after limit : Z) : M (list Member) :=
  match fuel with
  | O => mret []
  | S fuel =>
      page ← Service_ListMembers a g after limit;
      match last page with
      | None => mret []
      | Some m => rest ← read_on fuel a g (Member_UserID m) limit; mret (page ++ rest)
      end
  end.

#[export] Instance member_before_total : Total member_before.
Proof. intros m1 m2. unfold member_before. lia. Qed.
#[export] Instance member_before_trans : Transitive member_before.
Proof. intros m1 m2 m3. unfold member_before. lia. Qed.

Section members.
Context (t : Tables) (Hwf : wf t) (g : Z).

Lemma elem_of_members_after z m :
  m ∈ members_after t g z <-> t_members t !! (g, gm_user_id m) = Some m /\ z < gm_user_id m.
Proof.
  unfold members_after. rewrite merge_sort_Permutation, list_elem_of_filter, list_elem_of_fmap. split.
  - intros [[Hg Hz] ([[g' u] m'] & -> & Hl%elem_of_map_to_list)]. cbn in *.
    destruct (wf_member_key _ Hwf _ _ _ Hl) as (_ & E1 & E2). split; [|done]. by rewrite E2, <- Hg, E1.
  - intros [Hl Hz]. destruct (wf_member_key _ Hwf _ _ _ Hl) as (_ & E1 & _). split; [done|].
    exists ((g, gm_user_id m), m). split; [done|]. by apply elem_of_map_to_list.
Qed.

Lemma members_after_sorted z : StronglySorted member_before (members_after t g z).
Proof. apply Sorted_StronglySorted; [apply _|]. apply Sorted_merge_sort, _. Qed.

Lemma members_after_nodup z : NoDup (members_after t g z).
Proof.
  unfold members_after. rewrite merge_sort_Permutation. apply NoDup_filter, (NoDup_fmap_1 (fun m => (gm_guild_id m, gm_user_id m))).
  rewrite <- list_fmap_compose, (list_fmap_ext _ fst); [apply NoDup_fst_map_to_list|].
  intros ? [[g' u] m] H. apply list_elem_of_lookup_2, elem_of_map_to_list in H. cbn.
  destruct (wf_member_key _ Hwf _ _ _ H) as (_ & -> & ->). done.
Qed.

(** Reading on from the last of the first [n] gives the rest. *)
Lemma members_after_next z n m :
  last (take n (members_after t g z)) = Some m ->
  members_after t g (gm_user_id m) = drop n (members_after t g z).
Proof.
  intros Hlast. pose proof (members_after_sorted z) as Hs. pose proof (members_after_nodup z) as Hnd.
  rewrite <- (take_drop n (members_after t g z)) in Hs, Hnd.
  apply last_Some in Hlast as [l Hl]. rewrite Hl in Hs, Hnd.
  assert (forall x, x ∈ members_after t g z <-> x ∈ l ++ [m] \/ x ∈ drop n (members_after t g z)) as Hsplit.
  { intros x. rewrite <- (take_drop n (members_after t g z)) at 1. by rewrite elem_of_app, Hl. }
  assert (forall x y, x ∈ l ++ [m] -> y ∈ drop n (members_after t g z) -> member_before x y) as Hcross.
  { intros x y Hx Hy. eapply StronglySorted_app_1_elem_of; [exact Hs|done|done]. }
  apply NoDup_app in Hnd as (_ & Hdisj & Hnd). apply StronglySorted_app_1_r in Hs as Hs2.
  eapply StronglySorted_unique_strong; [|apply members_after_sorted|done|].
  - intros x y Hx Hy Hxy Hyx. apply elem_of_members_after in Hx as [Hx _].
    assert (y ∈ members_after t g z) as [Hy' _]%elem_of_members_after by (apply Hsplit; by right).
    unfold member_before in *. assert (gm_user_id x = gm_user_id y) as E by lia. rewrite E in Hx. congruence.
  - apply NoDup_Permutation; [apply members_after_nodup|done|]. intros x. split.
    + intros [Hx Hlt]%elem_of_members_after. assert (m ∈ members_after t g z) as [_ Hm]%elem_of_members_after.
      { apply Hsplit. left. apply elem_of_app. right. by left. }
      assert (x ∈ members_after t g z) as [Hin|?]%Hsplit by (apply elem_of_members_after; split; [done|lia]); [|done].
      exfalso. apply elem_of_app in Hin as [Hin|Hin]; [|apply list_elem_of_singleton in Hin as ->; lia].
      apply StronglySorted_app_1_l in Hs.
      assert (member_before x m) as Hb by (eapply StronglySorted_app_1_elem_of; [exact Hs|done|by left]).
      unfold member_before in Hb. lia.
    + intros Hx. assert (x ∈ members_after t g z) as [Hlx Hz]%elem_of_members_after by (apply Hsplit; by right).
      apply elem_of_members_after. split; [done|].
      assert (m ∈ l ++ [m]) as Hm by (apply elem_of_app; right; by left).
      pose proof (Hcross m x Hm Hx) as Hb. unfold member_before in Hb.
      destruct (Z.eq_dec (gm_user_id m) (gm_user_id x)) as [E|]; [|lia]. exfalso.
      assert (m ∈ members_after t g z) as [Hlm _]%elem_of_members_after by (apply Hsplit; by left).
      rewrite E in Hlm. assert (m = x) as -> by congruence. by apply (Hdisj x).
Qed.
End members.

Lemma page_limit_range l : 1 <= page_limit l <= maxMemberPageSize.
Proof. unfold page_limit, defaultMemberPageSize, maxMemberPageSize. repeat case_match; lia. Qed.

Lemma ListMembers_run s a g z limit :
  wf (tabs s) -> faults s = [] -> may_read (tabs s) g a = true ->
  Service_ListMembers a g z limit s =
  (inr (member_entry (tabs s) <$> take (Z.to_nat (page_limit limit)) (members_after (tabs s) g z)), s).
Proof.
  intros Hwf Hup Hr. pose proof (Authorize_read s a g Hwf Hup) as Ha. rewrite Hr in Ha.
  destruct Ha as (d & _ & Ha). unfold Service_ListMembers, Service_authorize, mbind, M_bind.
  rewrite Ha. cbn. unfold Queries_ListGuildMembers. rewrite reading_run by done. unfold mret, M_ret.
  by rewrite <- list_fmap_compose.
Qed.

(** Paging through a guild's members misses nobody and repeats nobody. Whatever limit the client
    asks for, a page holds between one and a hundred members until there are none left; and reading
    on from the last member of each page until one is empty, which more pages than there are members
    always reach, gives every member above the starting id exactly once, in id order, each with the
    roles it holds. *)
Theorem ListMembers_pages (s : St) (a g after limit : Z) (fuel : nat) (Hwf : wf (tabs s))
    (Hup : faults s = []) (Hread : may_read (tabs s) g a = true)
    (Hfuel : (length (members_after (tabs s) g after) < fuel)%nat) :
  read_on fuel a g after limit s = (inr (member_entry (tabs s) <$> members_after (tabs s) g after), s) /\
  NoDup (members_after (tabs s) g after) /\
  (forall page s1, Service_ListMembers a g after limit s = (inr page, s1) ->
     (length page <= 100)%nat /\ (page = [] -> members_after (tabs s) g after = [])).
Proof.
  split; [|split; [by apply members_after_nodup|]].
  - revert after Hfuel. induction fuel as [|fuel IH]; intros z Hfuel; [lia|].
    cbn [read_on]. unfold mbind, M_bind. rewrite ListMembers_run by done.
    set (n := Z.to_nat (page_limit limit)). rewrite fmap_last.
    destruct (last (take n (members_after (tabs s) g z))) as [m|] eqn:Hlast; cbn.
    + pose proof (members_after_next (tabs s) Hwf g z n m Hlast) as Hnext.
      assert (length (members_after (tabs s) g (gm_user_id m)) < fuel)%nat as Hlt.
      { rewrite Hnext, length_drop. assert (1 <= n)%nat by (pose proof (page_limit_range limit); lia).
        destruct (members_after (tabs s) g z) eqn:E; [by rewrite take_nil in Hlast|]. simpl in *. lia. }
      rewrite (IH (gm_user_id m)) by done. unfold mret, M_ret. rewrite Hnext, <- fmap_app.
      by rewrite take_drop.
    + apply last_None in Hlast. assert (1 <= n)%nat by (pose proof (page_limit_range limit); lia).
      destruct (members_after (tabs s) g z) as [|x l]; [done|]. by destruct n; [lia|].
  - intros page s1. rewrite ListMembers_run by done. intros [= <- _].
    pose proof (page_limit_range limit) as Hr. rewrite length_fmap, length_take. unfold maxMemberPageSize in Hr.
    split; [lia|]. intros He%fmap_nil_inv. destruct (members_after (tabs s) g after); [done|].
    destruct (Z.to_nat (page_limit limit)) eqn:E; [lia|done].
Qed.

(** The example's four members, two to a page. *)
Lemma ListMembers_pages_witness :
  map gm_user_id (members_after example_tables 1 0) = [100; 101; 102; 103] /\
  read_on 5 103 1 0 2 example_state =
  (inr (map (member_entry example_tables) (members_after example_tables 1 0)), example_state).
Proof.
  split; [vm_compute; reflexivity|].
  apply (ListMembers_pages example_state 103 1 0 2 5 example_wf eq_refl eq_refl).
  vm_compute. lia.
Defined.
