(* ===== verification/Utf8.v ===== *)
(** Go's UTF-8 strings: unicode/utf8's RuneCountInString on the bytes of a string, what PostgreSQL
    accepts in a text column, and the reference encoding they are measured against. *)
From S2P Require Import Prelude GoStd.

Definition bytes_of (s : string) : list Z := (fun c => Z.of_nat (nat_of_ascii c)) <$> String.list_ascii_of_string s.

Definition string_of (l : list Z) : string := String.string_of_list_ascii ((fun b => ascii_of_nat (Z.to_nat b)) <$> l).

(** ** Decoding *)

Definition between (lo hi b : Z) : bool := (lo <=? b) && (b <=? hi).

(** A continuation byte. *)
Definition locb (b : Z) : bool := between 128 191 b.

(** The bytes the encoding at the head of the list takes; [None] if it is no encoding, which Go
    reads as one byte. The first table is utf8.first, the second utf8.acceptRanges. *)
Definition rune_size (l : list Z) : option nat :=
  match l with
  | [] => None
  | b0 :: rest =>
      if b0 <? 128 then Some 1%nat
      else if between 194 223 b0 then
        match rest with b1 :: _ => if locb b1 then Some 2%nat else None | _ => None end
      else if between 224 239 b0 then
        match rest with
        | b1 :: b2 :: _ =>
            if between (if b0 =? 224 then 160 else 128) (if b0 =? 237 then 159 else 191) b1 && locb b2
            then Some 3%nat else None
        | _ => None
        end
      else if between 240 244 b0 then
        match rest with
        | b1 :: b2 :: b3 :: _ =>
            if between (if b0 =? 240 then 144 else 128) (if b0 =? 244 then 143 else 191) b1
               && locb b2 && locb b3
            then Some 4%nat else None
        | _ => None
        end
      else None
  end.

(** The iterations of [for range s] over the bytes left, the first [skip] of them already read. *)
Fixpoint rune_count (skip : nat) (l : list Z) : Z :=
  match l with
  | [] => 0
  | _ :: rest =>
      match skip with
      | S k => rune_count k rest
      | O => 1 + rune_count (default 1%nat (rune_size l) - 1) rest
      end
  end.

Definition RuneCountInString (s : string) : Z := rune_count 0 (bytes_of s).

(** Whether every byte belongs to an encoding. *)
Fixpoint valid_bytes (skip : nat) (l : list Z) : bool :=
  match l with
  | [] => true
  | _ :: rest =>
      match skip with
      | S k => valid_bytes k rest
      | O => match rune_size l with Some n => valid_bytes (n - 1) rest | None => false end
      end
  end.

(** What a text column of a UTF8 database holds: valid UTF-8 without a NUL. *)
Definition pg_text (s : string) : bool :=
  valid_bytes 0 (bytes_of s) && negb (bool_decide (0 ∈ bytes_of s)).

(** ** Encoding *)

(** A Unicode scalar value. *)
Definition scalar (r : Z) : Prop := 0 <= r <= 55295 \/ 57344 <= r <= 1114111.

Definition encode_rune (r : Z) : list Z :=
  if r <? 128 then [r]
  else if r <? 2048 then [192 + r / 64; 128 + r mod 64]
  else if r <? 65536 then [224 + r / 4096; 128 + r / 64 mod 64; 128 + r mod 64]
  else [240 + r / 262144; 128 + r / 4096 mod 64; 128 + r / 64 mod 64; 128 + r mod 64].

Definition encode (rs : list Z) : string := string_of (rs ≫= encode_rune).

(** ** Counting counts scalar values *)

Lemma between_spec lo hi b : between lo hi b = true <-> lo <= b <= hi.
Proof. unfold between. rewrite andb_true_iff, !Z.leb_le. done. Qed.

Lemma between_out lo hi b : b < lo \/ hi < b -> between lo hi b = false.
Proof. intros H. apply not_true_iff_false. rewrite between_spec. lia. Qed.

Lemma locb_digit n : locb (128 + n mod 64) = true.
Proof. apply between_spec. pose proof (Z.mod_pos_bound n 64). lia. Qed.

(** Arithmetic with quotients. *)
Ltac by_div := Z.to_euclidean_division_equations; lia.

Lemma rune_size_encode r rest :
  scalar r -> rune_size (encode_rune r ++ rest) = Some (length (encode_rune r)).
Proof.
  intros Hr. unfold scalar in Hr. unfold encode_rune.
  destruct (Z.ltb_spec r 128); [cbn; by destruct (Z.ltb_spec r 128); [|lia]|].
  destruct (Z.ltb_spec r 2048).
  { cbn. destruct (Z.ltb_spec (192 + r / 64) 128); [by_div|].
    rewrite (proj2 (between_spec 194 223 _)) by by_div. by rewrite locb_digit. }
  destruct (Z.ltb_spec r 65536).
  { cbn. destruct (Z.ltb_spec (224 + r / 4096) 128); [by_div|].
    rewrite (between_out 194 223) by by_div. rewrite (proj2 (between_spec 224 239 _)) by by_div.
    rewrite locb_digit, andb_true_r.
    rewrite (proj2 (between_spec _ _ _)); [done|].
    destruct (Z.eqb_spec (224 + r / 4096) 224), (Z.eqb_spec (224 + r / 4096) 237); by_div. }
  cbn. destruct (Z.ltb_spec (240 + r / 262144) 128); [by_div|].
  rewrite (between_out 194 223) by by_div. rewrite (between_out 224 239) by by_div.
  rewrite (proj2 (between_spec 240 244 _)) by by_div. rewrite !locb_digit, !andb_true_r.
  rewrite (proj2 (between_spec _ _ _)); [done|].
  destruct (Z.eqb_spec (240 + r / 262144) 240), (Z.eqb_spec (240 + r / 262144) 244); by_div.
Qed.

Lemma rune_count_skip l1 l2 : rune_count (length l1) (l1 ++ l2) = rune_count 0 l2.
Proof. by induction l1 as [|b l1 IH]. Qed.

Lemma valid_bytes_skip l1 l2 : valid_bytes (length l1) (l1 ++ l2) = valid_bytes 0 l2.
Proof. by induction l1 as [|b l1 IH]. Qed.

Lemma encode_rune_cons r : exists b bs, encode_rune r = b :: bs.
Proof. unfold encode_rune. repeat case_match; by eauto. Qed.

Lemma rune_count_encode rs :
  Forall scalar rs -> rune_count 0 (rs ≫= encode_rune) = Z.of_nat (length rs).
Proof.
  induction 1 as [|r rs Hr _ IH]; [done|]. rewrite bind_cons.
  pose proof (rune_size_encode r (rs ≫= encode_rune) Hr) as Hs. revert Hs.
  destruct (encode_rune_cons r) as (b & bs & ->). cbn [app rune_count length]. intros ->. unfold from_option, id.
  replace (S (length bs) - 1)%nat with (length bs) by lia. rewrite rune_count_skip.
  rewrite IH. lia.
Qed.

Lemma valid_bytes_encode rs : Forall scalar rs -> valid_bytes 0 (rs ≫= encode_rune) = true.
Proof.
  induction 1 as [|r rs Hr _ IH]; [done|]. rewrite bind_cons.
  pose proof (rune_size_encode r (rs ≫= encode_rune) Hr) as Hs. revert Hs.
  destruct (encode_rune_cons r) as (b & bs & ->). cbn [app valid_bytes length]. intros ->.
  replace (S (length bs) - 1)%nat with (length bs) by lia. by rewrite valid_bytes_skip.
Qed.

Lemma encode_rune_byte r : scalar r -> Forall (fun b => 0 <= b < 256) (encode_rune r).
Proof.
  intros Hr. unfold scalar in Hr. unfold encode_rune.
  repeat case_match; repeat apply Forall_cons_2; try apply Forall_nil_2;
    repeat match goal with H : (_ <? _) = _ |- _ => first [apply Z.ltb_lt in H|apply Z.ltb_ge in H] end; by_div.
Qed.

Lemma bytes_of_string_of l : Forall (fun b => 0 <= b < 256) l -> bytes_of (string_of l) = l.
Proof.
  intros H. unfold bytes_of, string_of. rewrite String.list_ascii_of_string_of_list_ascii.
  rewrite <- list_fmap_compose. induction H as [|b l Hb _ IH]; [done|]. cbn. f_equal; [|exact IH].
  rewrite nat_ascii_embedding by lia. lia.
Qed.

Lemma bytes_of_encode rs : Forall scalar rs -> bytes_of (encode rs) = rs ≫= encode_rune.
Proof.
  intros H. apply bytes_of_string_of. induction H as [|r rs Hr _ IH]; [done|]. cbn.
  apply Forall_app. split; [by apply encode_rune_byte|exact IH].
Qed.

Lemma RuneCount_encode rs : Forall scalar rs -> RuneCountInString (encode rs) = Z.of_nat (length rs).
Proof. intros H. unfold RuneCountInString. by rewrite bytes_of_encode, rune_count_encode. Qed.

Lemma pg_text_encode rs : Forall scalar rs -> pg_text (encode rs) = bool_decide (0 ∉ rs).
Proof.
  intros H. unfold pg_text. rewrite bytes_of_encode, valid_bytes_encode by done. cbn.
  apply eq_true_iff_eq. rewrite negb_true_iff, bool_decide_eq_false, bool_decide_eq_true.
  cut (0 ∈ rs ≫= encode_rune <-> 0 ∈ rs); [tauto|]. rewrite list_elem_of_bind. split.
  - intros (r & Hin & Hr). rewrite Forall_forall in H. specialize (H _ Hr). unfold scalar in H.
    assert (r = 0) as ->; [|done]. revert Hin. unfold encode_rune.
    repeat case_match; rewrite ?elem_of_cons, ?elem_of_nil;
      repeat match goal with H : (_ <? _) = _ |- _ => first [apply Z.ltb_lt in H|apply Z.ltb_ge in H] end; by_div.
  - intros Hin. exists 0. split; [|done]. by left.
Qed.
