(* ===== verification/Termsafe.v ===== *)
(** Foreign text made safe for a terminal: daemon/termsafe/termsafe.go, on the bytes of Go's strings. What
    it lets through acts on no terminal and reorders nothing, and it is the printable characters that were in
    the string, in their order, with a mark where something was taken out. *)
From S2P Require Import Prelude GoStd Utf8.

(** ** Runes (unicode/utf8, and the [range] of a string) *)

(** The rune whose encoding takes the first [n] bytes. *)
Definition rune_value (n : nat) (l : list Z) : Z :=
  match n, l with
  | 1%nat, b0 :: _ => b0
  | 2%nat, b0 :: b1 :: _ => (b0 - 192) * 64 + (b1 - 128)
  | 3%nat, b0 :: b1 :: b2 :: _ => ((b0 - 224) * 64 + (b1 - 128)) * 64 + (b2 - 128)
  | _, b0 :: b1 :: b2 :: b3 :: _ => (((b0 - 240) * 64 + (b1 - 128)) * 64 + (b2 - 128)) * 64 + (b3 - 128)
  | _, _ => 0
  end.

(** The runes of the bytes left, the first [skip] of them already read; [None] is a byte of no encoding. *)
Fixpoint decode (skip : nat) (l : list Z) : list (option Z) :=
  match l with
  | [] => []
  | _ :: rest =>
      match skip with
      | S k => decode k rest
      | O =>
          match rune_size l with
          | Some n => Some (rune_value n l) :: decode (n - 1) rest
          | None => None :: decode 0 rest
          end
      end
  end.

Definition runes_of (s : string) : list (option Z) := decode 0 (bytes_of s).

Definition ValidString (s : string) : bool := valid_bytes 0 (bytes_of s).

Definition replacement : Z := 65533.

(** [strings.ToValidUTF8]: each run of bytes of no encoding becomes one replacement. *)
Fixpoint valid_runes (invalid : bool) (l : list (option Z)) : list Z :=
  match l with
  | [] => []
  | Some r :: l => r :: valid_runes false l
  | None :: l => if invalid then valid_runes true l else replacement :: valid_runes true l
  end.

Definition ToValidUTF8 (s : string) : string := encode (valid_runes false (runes_of s)).

(** ** What is removed *)

(** [unicode.Cc] and [unicode.Bidi_Control]. *)
Definition is_Cc (r : Z) : bool := between 0 31 r || between 127 159 r.
Definition is_Bidi_Control (r : Z) : bool :=
  (r =? 1564) || between 8206 8207 r || between 8234 8238 r || between 8294 8297 r.

Definition isBidiReordering (r : Z) : bool :=
  if (r =? 1564) || (r =? 8206) || (r =? 8207) then false else is_Bidi_Control r.

Definition mustRemove (keepLayout : bool) (r : Z) : bool :=
  if keepLayout && ((r =? 10) || (r =? 9)) then false
  else if r <? 128 then (r <? 32) || (r =? 127)
  else if negb keepLayout && ((r =? 8232) || (r =? 8233)) then true
  else is_Cc r || isBidiReordering r.

Definition Removes (r : Z) : bool := mustRemove true r.

(** The loop of [filter]: one mark for each run of what is removed. *)
Fixpoint marked (keepLayout removing : bool) (rs : list Z) : list Z :=
  match rs with
  | [] => []
  | r :: rs =>
      if mustRemove keepLayout r
      then if removing then marked keepLayout true rs else replacement :: marked keepLayout true rs
      else r :: marked keepLayout false rs
  end.

Definition filter_text (keepLayout : bool) (s : string) : string :=
  let s := if ValidString s then s else ToValidUTF8 s in
  let rs := omap id (runes_of s) in
  if existsb (mustRemove keepLayout) rs then encode (marked keepLayout false rs) else s.

Definition Text (s : string) : string := filter_text false s.
Definition Block (s : string) : string := filter_text true s.

(** ** Decoding and encoding are each other's inverses *)

Lemma decode_skip l1 l2 : decode (length l1) (l1 ++ l2) = decode 0 l2.
Proof. by induction l1 as [|b l1 IH]. Qed.

Lemma rune_value_encode r rest : scalar r -> rune_value (length (encode_rune r)) (encode_rune r ++ rest) = r.
Proof.
  intros Hr. unfold scalar in Hr. unfold encode_rune.
  destruct (Z.ltb_spec r 128); [done|]. destruct (Z.ltb_spec r 2048); [cbn; by_div|].
  destruct (Z.ltb_spec r 65536); cbn; by_div.
Qed.

Lemma decode_encode rs : Forall scalar rs -> decode 0 (rs ≫= encode_rune) = Some <$> rs.
Proof.
  induction 1 as [|r rs Hr _ IH]; [done|]. rewrite bind_cons.
  pose proof (rune_size_encode r (rs ≫= encode_rune) Hr) as Hs. pose proof (rune_value_encode r (rs ≫= encode_rune) Hr) as Hv.
  revert Hs Hv. destruct (encode_rune_cons r) as (b & bs & ->). cbn [app decode length]. intros -> ->.
  replace (S (length bs) - 1)%nat with (length bs) by lia. rewrite decode_skip, IH. done.
Qed.

Lemma runes_of_encode rs : Forall scalar rs -> runes_of (encode rs) = Some <$> rs.
Proof. intros H. unfold runes_of. by rewrite bytes_of_encode, decode_encode. Qed.

Lemma ValidString_encode rs : Forall scalar rs -> ValidString (encode rs) = true.
Proof. intros H. unfold ValidString. by rewrite bytes_of_encode, valid_bytes_encode. Qed.

Lemma omap_Some {A} (l : list A) : omap id (Some <$> l) = l.
Proof. induction l as [|x l IH]; [done|]. cbn. by f_equal. Qed.

(** A piece that is an encoding is the encoding of its rune. *)
Lemma piece_scalar l n :
  Forall (fun b => 0 <= b < 256) l -> rune_size l = Some n ->
  scalar (rune_value n l) /\ encode_rune (rune_value n l) = take n l /\ (0 < n <= length l)%nat.
Proof.
  intros Hb H. destruct l as [|b0 l]; [done|]. cbn in H. unfold locb in H.
  apply Forall_cons in Hb as [Hb0 Hb].
  destruct (Z.ltb_spec b0 128).
  { simplify_eq. cbn. unfold scalar, encode_rune. destruct (Z.ltb_spec b0 128); [|lia]. split_and!; try done; lia. }
  destruct (between 194 223 b0) eqn:E1.
  { apply between_spec in E1. destruct l as [|b1 l]; [done|]. destruct (between 128 191 b1) eqn:E; [|done].
    apply between_spec in E. simplify_eq. cbn. unfold scalar, encode_rune.
    destruct (Z.ltb_spec ((b0 - 192) * 64 + (b1 - 128)) 128); [lia|].
    destruct (Z.ltb_spec ((b0 - 192) * 64 + (b1 - 128)) 2048); [|lia].
    split_and!; [lia|repeat f_equal; by_div|lia|lia]. }
  destruct (between 224 239 b0) eqn:E2.
  { apply between_spec in E2. destruct l as [|b1 [|b2 l]]; [done..|].
    destruct (between _ _ b1 && between 128 191 b2) eqn:E; [|done]. apply andb_true_iff in E as [E3 E4].
    apply between_spec in E3, E4. simplify_eq. cbn. unfold scalar, encode_rune.
    set (v := ((b0 - 224) * 64 + (b1 - 128)) * 64 + (b2 - 128)).
    destruct (Z.eqb_spec b0 224), (Z.eqb_spec b0 237);
      (destruct (Z.ltb_spec v 128); [lia|]; destruct (Z.ltb_spec v 2048); [lia|]; destruct (Z.ltb_spec v 65536); [|lia];
       split_and!; [lia|repeat f_equal; by_div|lia|lia]). }
  destruct (between 240 244 b0) eqn:E3; [|done].
  apply between_spec in E3. destruct l as [|b1 [|b2 [|b3 l]]]; [done..|].
  destruct (between _ _ b1 && between 128 191 b2 && between 128 191 b3) eqn:E; [|done].
  apply andb_true_iff in E as [[E4 E5]%andb_true_iff E6]. apply between_spec in E4, E5, E6. simplify_eq. cbn.
  unfold scalar, encode_rune. set (v := (((b0 - 240) * 64 + (b1 - 128)) * 64 + (b2 - 128)) * 64 + (b3 - 128)).
  destruct (Z.eqb_spec b0 240), (Z.eqb_spec b0 244);
    (destruct (Z.ltb_spec v 128); [lia|]; destruct (Z.ltb_spec v 2048); [lia|]; destruct (Z.ltb_spec v 65536); [lia|];
     split_and!; [lia|repeat f_equal; by_div|lia|lia]).
Qed.

Lemma skip_drop n l : decode n l = decode 0 (drop n l) /\ valid_bytes n l = valid_bytes 0 (drop n l).
Proof. revert n. induction l as [|b l IH]; intros [|n]; try done. apply IH. Qed.

Lemma decode_step l n :
  Forall (fun b => 0 <= b < 256) l -> rune_size l = Some n ->
  decode 0 l = Some (rune_value n l) :: decode 0 (drop n l) /\ valid_bytes 0 l = valid_bytes 0 (drop n l).
Proof.
  intros Hb H. destruct (piece_scalar l n Hb H) as (_ & _ & Hn & Hle). destruct l as [|b l]; [done|]. cbn [decode valid_bytes].
  rewrite H. destruct n as [|n]; [lia|]. replace (S n - 1)%nat with n by lia. cbn [drop].
  by rewrite (proj1 (skip_drop n l)), (proj2 (skip_drop n l)).
Qed.

Lemma decode_spec l :
  Forall (fun b => 0 <= b < 256) l ->
  (forall r, Some r ∈ decode 0 l -> scalar r) /\
  (valid_bytes 0 l = true <-> None ∉ decode 0 l) /\
  (valid_bytes 0 l = true -> omap id (decode 0 l) ≫= encode_rune = l).
Proof.
  remember (length l) as m eqn:Hm. revert l Hm. induction m as [m IH] using lt_wf_ind. intros l -> Hb.
  destruct (rune_size l) as [n|] eqn:E.
  - destruct (piece_scalar l n Hb E) as (Hs & He & Hn & Hle). destruct (decode_step l n Hb E) as [-> ->].
    destruct (IH (length (drop n l))) with (l := drop n l) as (I1 & I2 & I3); [rewrite length_drop; lia|done|by apply Forall_drop|].
    split_and!.
    + intros r [[= ->]|]%elem_of_cons; [done|by apply I1].
    + rewrite I2. set_solver.
    + intros Hv. cbn. rewrite He. transitivity (take n l ++ drop n l); [f_equal; by apply I3|apply take_drop].
  - destruct l as [|b l]; [split_and!; [by intros r ?%not_elem_of_nil|split; [intros _; apply not_elem_of_nil|done]|done]|].
    cbn [decode valid_bytes]. rewrite E.
    destruct (IH (length l)) with (l := l) as (I1 & I2 & I3); [simpl; lia|done|by inversion Hb|].
    split_and!; [|split; [done|set_solver]|done]. intros r [[=]|]%elem_of_cons. by apply I1.
Qed.

Lemma bytes_range s : Forall (fun b => 0 <= b < 256) (bytes_of s).
Proof.
  apply Forall_forall. intros b (c & -> & _)%list_elem_of_fmap. pose proof (nat_ascii_bounded c). lia.
Qed.

Lemma string_of_bytes s : string_of (bytes_of s) = s.
Proof.
  unfold string_of, bytes_of. rewrite <- list_fmap_compose.
  rewrite (list_fmap_ext _ id) by (intros; simpl; rewrite Nat2Z.id; apply ascii_nat_embedding).
  rewrite list_fmap_id. apply String.string_of_list_ascii_of_string.
Qed.

(** ** What a filtered string is *)

(** The runes the filter looks at. *)
Definition clean_runes (s : string) : list Z := valid_runes false (runes_of s).

Lemma valid_runes_whole b l : None ∉ l -> valid_runes b l = omap id l.
Proof.
  revert b. induction l as [|[r|] l IH]; intros b H; [done|..].
  - cbn. f_equal. apply IH. set_solver.
  - set_solver.
Qed.

Lemma replacement_scalar : scalar replacement.
Proof. unfold scalar, replacement. lia. Qed.

Lemma elem_of_valid_runes b l r : r ∈ valid_runes b l -> r = replacement \/ Some r ∈ l.
Proof.
  revert b. induction l as [|[x|] l IH]; intros b; cbn; [by intros ?%not_elem_of_nil|..].
  - intros [->|H]%elem_of_cons; [right; by left|]. apply IH in H. set_solver.
  - destruct b; [intros H; apply IH in H; set_solver|]. intros [->|H]%elem_of_cons; [by left|].
    apply IH in H. set_solver.
Qed.

Lemma clean_scalar s : Forall scalar (clean_runes s).
Proof.
  apply Forall_forall. intros r [->|Hr]%elem_of_valid_runes; [apply replacement_scalar|].
  by apply (decode_spec _ (bytes_range s)).
Qed.

Lemma ValidString_None s : ValidString s = true <-> None ∉ runes_of s.
Proof. apply (decode_spec _ (bytes_range s)). Qed.

Lemma encode_clean s : ValidString s = true -> s = encode (clean_runes s).
Proof.
  intros H. unfold clean_runes. rewrite valid_runes_whole by by apply ValidString_None.
  unfold encode, runes_of. destruct (decode_spec _ (bytes_range s)) as (_ & _ & ->); [by rewrite string_of_bytes|done].
Qed.

Lemma marked_id k removing rs : existsb (mustRemove k) rs = false -> marked k removing rs = rs.
Proof.
  revert removing. induction rs as [|r rs IH]; intros removing; simpl; [done|].
  intros [-> H]%orb_false_iff. f_equal. by apply IH.
Qed.

(** Whatever branch it takes, the filter encodes the marked runes. *)
Lemma filter_text_marked k s : filter_text k s = encode (marked k false (clean_runes s)).
Proof.
  unfold filter_text. set (v := if ValidString s then s else ToValidUTF8 s).
  assert (v = encode (clean_runes s)) as Hv.
  { unfold v. destruct (ValidString s) eqn:E; [by apply encode_clean|done]. }
  rewrite Hv, runes_of_encode by apply clean_scalar. rewrite omap_Some.
  destruct (existsb _ _) eqn:E; [done|]. by rewrite marked_id.
Qed.

Lemma replacement_kept k : mustRemove k replacement = false.
Proof. by destruct k. Qed.

Lemma elem_of_marked k removing rs r :
  r ∈ marked k removing rs -> mustRemove k r = false /\ (r = replacement \/ r ∈ rs).
Proof.
  revert removing. induction rs as [|x rs IH]; intros removing; simpl; [by intros ?%not_elem_of_nil|].
  destruct (mustRemove k x) eqn:E.
  - destruct removing.
    + intros [? ?]%IH. set_solver.
    + intros [->|[? ?]%IH]%elem_of_cons; [split; [apply replacement_kept|by left]|set_solver].
  - intros [->|[? ?]%IH]%elem_of_cons; set_solver.
Qed.

Lemma marked_scalar k removing rs : Forall scalar rs -> Forall scalar (marked k removing rs).
Proof.
  rewrite !Forall_forall. intros H r [_ [->|?]]%elem_of_marked; [apply replacement_scalar|auto].
Qed.

(** ** What must not reach a terminal, said without the code's tables

    The control characters of ASCII and ISO 8859-1; the bidi embeddings, overrides and isolates, U+202A to U+202E
    and U+2066 to U+2069; and, of a value that is one line, tab, newline and the separators U+2028 and U+2029. *)
Definition hostile (layout : bool) (r : Z) : bool :=
  (r <? 9) || (10 <? r) && (r <? 32) || (127 <=? r) && (r <? 160) || between 8234 8238 r || between 8294 8297 r ||
  negb layout && ((r =? 9) || (r =? 10) || (r =? 8232) || (r =? 8233)).

Lemma mustRemove_hostile k r : mustRemove k r = hostile k r.
Proof.
  apply eq_true_iff_eq. unfold mustRemove, hostile, is_Cc, isBidiReordering, is_Bidi_Control, between.
  destruct k; simpl; repeat match goal with |- context [if ?b then _ else _] => destruct b eqn:? end; lia.
Qed.

Lemma existsb_hostile k rs : existsb (mustRemove k) rs = existsb (hostile k) rs.
Proof. induction rs as [|r rs IH]; [done|]. simpl. by rewrite mustRemove_hostile, IH. Qed.

(** What is printable, the marks aside. *)
Definition printable (k : bool) (r : Z) : Prop := hostile k r = false /\ r <> replacement.
#[export] Instance printable_dec k r : Decision (printable k r).
Proof. unfold printable. apply _. Defined.

Lemma printable_marked k removing rs : filter (printable k) (marked k removing rs) = filter (printable k) rs.
Proof.
  revert removing. induction rs as [|x rs IH]; intros removing; simpl; [done|].
  destruct (mustRemove k x) eqn:E.
  - rewrite mustRemove_hostile in E. rewrite (filter_cons_False _ x) by (intros [? _]; congruence).
    destruct removing; [done|]. rewrite filter_cons_False by (intros [_ ?]; done). done.
  - rewrite !filter_cons. case_decide; by rewrite IH.
Qed.

Lemma printable_clean k b l : filter (printable k) (valid_runes b l) = filter (printable k) (omap id l).
Proof.
  revert b. induction l as [|[x|] l IH]; intros b; [done|..].
  - change (filter (printable k) (x :: valid_runes false l) = filter (printable k) (x :: omap id l)).
    rewrite !filter_cons. case_decide; by rewrite IH.
  - change (filter (printable k) (if b then valid_runes true l else replacement :: valid_runes true l)
            = filter (printable k) (omap id l)).
    destruct b; [done|]. rewrite filter_cons_False by (intros [_ ?]; done). done.
Qed.

Lemma mark_left k rs : existsb (mustRemove k) rs = true -> replacement ∈ marked k false rs.
Proof.
  induction rs as [|x rs IH]; simpl; [done|]. destruct (mustRemove k x); [by left|]. simpl. intros. right. by apply IH.
Qed.

Lemma invalid_left l : None ∈ l -> replacement ∈ valid_runes false l.
Proof.
  induction l as [|[x|] l IH]; cbn; [by intros ?%not_elem_of_nil|..].
  - intros [[=]|]%elem_of_cons. right. by apply IH.
  - by left.
Qed.

Lemma marked_keeps k removing rs r : mustRemove k r = false -> r ∈ rs -> r ∈ marked k removing rs.
Proof.
  intros Hr. revert removing. induction rs as [|x rs IH]; intros removing; [by intros ?%not_elem_of_nil|].
  intros [->|H]%elem_of_cons; simpl; [rewrite Hr; by left|].
  destruct (mustRemove k x); [destruct removing|]; set_solver.
Qed.

(** C38: Text that went through termsafe is safe and says what was there. Whatever the bytes of [s], the result
    is valid UTF-8 and holds no rune a terminal would act on or that reorders what it prints (and for Text no
    line break either); its printable runes are those of [s], in their order; filtering it again changes
    nothing; and [s] comes back as it was exactly if there was nothing to take out, a mark being left
    otherwise, so that a forged name never passes for the name it forges. *)
Theorem text_safe k s :
  let t := filter_text k s in
  exists rs, runes_of t = Some <$> rs /\ ValidString t = true /\
    (forall r, r ∈ rs -> hostile k r = false) /\
    filter (printable k) rs = filter (printable k) (omap id (runes_of s)) /\
    filter_text k t = t /\
    (if ValidString s && negb (existsb (hostile k) (omap id (runes_of s))) then t = s else replacement ∈ rs).
Proof.
  intros t. exists (marked k false (clean_runes s)).
  assert (Forall scalar (marked k false (clean_runes s))) as Hsc by apply marked_scalar, clean_scalar.
  assert (runes_of t = Some <$> marked k false (clean_runes s)) as Ht.
  { unfold t. rewrite filter_text_marked. by apply runes_of_encode. }
  split_and!.
  - exact Ht.
  - unfold t. rewrite filter_text_marked. by apply ValidString_encode.
  - intros r [? _]%elem_of_marked. by rewrite <- mustRemove_hostile.
  - rewrite printable_marked. apply printable_clean.
  - rewrite (filter_text_marked k t). unfold clean_runes. rewrite Ht.
    rewrite valid_runes_whole by (intros (? & ? & _)%list_elem_of_fmap; done). rewrite omap_Some.
    rewrite (marked_id k false (marked _ _ _)); [unfold t; by rewrite filter_text_marked|].
    apply existsb_false. by intros r [? _]%elem_of_marked.
  - rewrite <- existsb_hostile.
    destruct (ValidString s) eqn:Hv; simpl.
    + assert (clean_runes s = omap id (runes_of s)) as Hc by (apply valid_runes_whole; by apply ValidString_None).
      destruct (existsb _ _) eqn:E; simpl; [apply mark_left; by rewrite Hc|].
      unfold t. rewrite filter_text_marked, marked_id by (by rewrite Hc). symmetry. by apply encode_clean.
    + apply marked_keeps; [apply replacement_kept|]. apply invalid_left.
      destruct (decide (None ∈ runes_of s)) as [|Hn]; [done|]. apply ValidString_None in Hn. congruence.
Qed.

(** A newline and an escape in a name: two marks, and the rest in its order. *)
Example forged_name :
  Text (string_of [97; 10; 98; 27; 91; 50; 75; 226; 128; 174; 99]) =
  string_of [97; 239; 191; 189; 98; 239; 191; 189; 91; 50; 75; 239; 191; 189; 99].
Proof. vm_compute. done. Qed.
