(* ===== verification/InviteCode.v ===== *)
(** backend/internal/auth/device.go and invites.go: the codes a person copies from one screen to
    another. One generator and one scanner serve the device flow's user codes and every invite. *)
From S2P Require Import Prelude GoStd Snowflake Rows TxMonad.

(** ** Constants *)

Definition userCodeAlphabet : string := "BCDFGHJKMNPQRSTVWXYZ".
Definition userCodeLength : nat := 8.
Definition userCodeGroup : nat := 4.
Definition inviteCodeLength : nat := 16.

(** ** Reading what somebody typed *)

(** What was typed is the list of its runes, as Go's [range] decodes them. *)
Definition rune_of (c : ascii) : Z := Z.of_nat (nat_of_ascii c).

Fixpoint runes (s : string) : list Z :=
  match s with
  | EmptyString => []
  | String c s => rune_of c :: runes s
  end.

(** unicode.ToUpper, as far as the scanner can tell: besides the ASCII letters, the dotless i and
    the long s are the runes whose upper case is an ASCII letter. *)
Definition ToUpper (r : Z) : Z :=
  if (97 <=? r) && (r <=? 122) then r - 32
  else if r =? 305 then 73
  else if r =? 383 then 83
  else r.

(** strings.ContainsRune(userCodeAlphabet, r) *)
Definition in_alphabet (r : Z) : bool := bool_decide (r ∈ runes userCodeAlphabet).

(** The dash, the space and the tab. *)
Definition separator (r : Z) : bool := (r =? 45) || (r =? 32) || (r =? 9).

(** strings.Builder's WriteRune, for the letters of the alphabet. *)
Definition write_rune (b : string) (r : Z) : string :=
  (b ++ String (ascii_of_nat (Z.to_nat r)) EmptyString)%string.

(** The scanner's loop, the code so far in [b]; [None] is the false result. *)
Fixpoint normalize_loop (want : nat) (b : string) (raw : list Z) : option string :=
  match raw with
  | [] => if negb (String.length b =? want)%nat then None else Some b
  | r :: raw =>
      let r := ToUpper r in
      if separator r then normalize_loop want b raw
      else if in_alphabet r then
        let b := write_rune b r in
        if (want <? String.length b)%nat then None else normalize_loop want b raw
      else None
  end.

Definition normalizeTypedCode (raw : list Z) (want : nat) : option string :=
  normalize_loop want EmptyString raw.

Definition ParseUserCode (raw : list Z) : option string := normalizeTypedCode raw userCodeLength.
Definition ParseInviteCode (raw : list Z) : option string := normalizeTypedCode raw inviteCodeLength.

Definition FormatUserCode (code : string) : string :=
  if negb (String.length code =? userCodeLength)%nat then code
  else (String.substring 0 userCodeGroup code ++ "-"
        ++ String.substring userCodeGroup (String.length code - userCodeGroup) code)%string.

(** ** Drawing a code *)

(** 240: the largest whole number of buckets. *)
Definition draw_limit : Z := 256 - 256 mod Z.of_nat (String.length userCodeAlphabet).

(** [userCodeAlphabet[int(b)%len(userCodeAlphabet)]] *)
Definition letter_of (b : Z) : ascii :=
  default "B"%char
    (String.get (Z.to_nat (b mod Z.of_nat (String.length userCodeAlphabet))) userCodeAlphabet).

(** The inner loop over the bytes read. *)
Fixpoint take_letters (length : nat) (out : string) (buf : list Z) : string :=
  match buf with
  | [] => out
  | b :: buf =>
      if draw_limit <=? b then take_letters length out buf
      else
        let out := (out ++ String (letter_of b) EmptyString)%string in
        if (String.length out =? length)%nat then out else take_letters length out buf
  end.

(** What successive calls of rand.Read fill the buffer with; [None] is a failed read. *)
Definition Reads : Type := list (option (list Z)).

(** The outer loop. [None]: the reads ran out and the call has not returned. *)
Fixpoint random_loop (length : nat) (out : string) (reads : Reads) : option ((Err + string) * Reads) :=
  if (String.length out <? length)%nat then
    match reads with
    | [] => None
    | None :: reads => Some (inl ERandom, reads)
    | Some buf :: reads => random_loop length (take_letters length out buf) reads
    end
  else Some (inr out, reads).

Definition randomCode (length : nat) (reads : Reads) : option ((Err + string) * Reads) :=
  random_loop length EmptyString reads.

Definition GenerateUserCode (reads : Reads) := randomCode userCodeLength reads.
Definition NewInviteCode (reads : Reads) := randomCode inviteCodeLength reads.

(** ** The ways to type a code *)

Definition letter (c : ascii) : Prop := in_alphabet (rune_of c) = true.

(** A rune that stands for a letter: itself, its lower case, and for S the long s. *)
Inductive spells : Z -> ascii -> Prop :=
  | spells_upper c : spells (rune_of c) c
  | spells_lower c : spells (rune_of c + 32) c
  | spells_long_s : spells 383 "S"%char.

(** A code typed with separators anywhere and letters in either case. *)
Inductive typed : list Z -> string -> Prop :=
  | typed_end : typed [] EmptyString
  | typed_separator r raw code : separator r = true -> typed raw code -> typed (r :: raw) code
  | typed_letter r c raw code :
      letter c -> spells r c -> typed raw code -> typed (r :: raw) (String c code).

Lemma in_alphabet_iff r : in_alphabet r = true <-> r ∈ runes userCodeAlphabet.
Proof. unfold in_alphabet. apply bool_decide_eq_true. Qed.

(** Case analysis on the twenty letters. *)
Ltac each_letter H :=
  apply in_alphabet_iff in H; cbv [runes userCodeAlphabet] in H;
  repeat (apply elem_of_cons in H as [H|H]); [..|by apply elem_of_nil in H].

Lemma letter_rune r : in_alphabet r = true -> rune_of (ascii_of_nat (Z.to_nat r)) = r.
Proof. intros H. each_letter H; by subst. Qed.

Lemma letter_not_separator r : in_alphabet r = true -> separator r = false.
Proof. intros H. each_letter H; by subst. Qed.

Lemma separator_ToUpper r : separator (ToUpper r) = separator r.
Proof.
  unfold separator, ToUpper. destruct ((97 <=? r) && (r <=? 122)) eqn:E; bool_hyps; [lia|].
  destruct (Z.eqb_spec r 305); [by subst|]. destruct (Z.eqb_spec r 383); by subst.
Qed.

Lemma spells_ToUpper r c : letter c -> spells r c -> ToUpper r = rune_of c.
Proof.
  unfold letter. intros H Hs. destruct Hs as [c|c|]; [..|done].
  - each_letter H; by rewrite H.
  - each_letter H; by rewrite H.
Qed.

Lemma ToUpper_spells r :
  in_alphabet (ToUpper r) = true -> spells r (ascii_of_nat (Z.to_nat (ToUpper r))).
Proof.
  intros H. pose proof (letter_rune _ H) as Hr. revert H Hr. unfold ToUpper.
  destruct ((97 <=? r) && (r <=? 122)); [|destruct (Z.eqb_spec r 305); [|destruct (Z.eqb_spec r 383)]].
  - intros _ Hr. replace r with (r - 32 + 32) at 1 by lia. rewrite <- Hr at 1. apply spells_lower.
  - subst. intros [=].
  - subst. intros _ _. apply spells_long_s.
  - intros _ Hr. rewrite <- Hr at 1. apply spells_upper.
Qed.

(** The scanner accepts exactly the ways to type what is left of the code. *)
Lemma normalize_loop_typed want b raw code :
  normalize_loop want b raw = Some code <->
  exists rest, typed raw rest /\ code = (b ++ rest)%string /\ String.length code = want.
Proof.
  revert b. induction raw as [|r raw IH]; intros b; cbn [normalize_loop].
  - destruct (Nat.eqb_spec (String.length b) want) as [E|E]; cbn; split.
    + intros [= <-]. exists EmptyString. rewrite app_end. split; [constructor|done].
    + intros (rest & Ht & -> & _). inversion Ht. by rewrite app_end.
    + done.
    + intros (rest & Ht & -> & Hl). inversion Ht. subst rest. by rewrite app_end in Hl.
  - rewrite separator_ToUpper. destruct (separator r) eqn:Hsep.
    { rewrite IH. split; intros (rest & Ht & ?); exists rest; (split; [|done]).
      - by apply typed_separator.
      - inversion Ht as [|? ? ? _ ?|? c ? ? Hc Hs]; subst; [done|].
        pose proof (spells_ToUpper _ _ Hc Hs) as E. pose proof (letter_not_separator _ Hc) as Hn.
        rewrite <- E, separator_ToUpper in Hn. congruence. }
    destruct (in_alphabet (ToUpper r)) eqn:Ha.
    + set (c := ascii_of_nat (Z.to_nat (ToUpper r))).
      assert (letter c) as Hc by (unfold letter, c; by rewrite letter_rune).
      assert (write_rune b (ToUpper r) = b ++ String c EmptyString)%string as -> by done.
      split.
      * destruct (_ <? _)%nat; [done|]. rewrite IH. intros (rest & Ht & -> & Hl). exists (String c rest).
        split; [by apply typed_letter; [|apply ToUpper_spells|]|]. by rewrite !app_join in *.
      * intros (rest & Ht & -> & Hl). inversion Ht as [|? ? ? Hr ?|? c' ? rest' Hc' Hs Ht']; [congruence|]. subst.
        assert (c' = c) as ->.
        { unfold c. rewrite (spells_ToUpper _ _ Hc' Hs). unfold rune_of.
          by rewrite Nat2Z.id, ascii_nat_embedding. }
        rewrite !app_length in *. simpl String.length in *.
        destruct (Nat.ltb_spec (String.length b + S (String.length rest')) (String.length b + 1)); [lia|].
        apply IH. exists rest'. rewrite app_join, ?app_length. split_and!; [done..|simpl; lia].
    + split; [done|]. intros (rest & Ht & _). inversion Ht as [|? ? ? Hr ?|? c ? rest' Hc Hs]; [congruence|].
      rewrite (spells_ToUpper _ _ Hc Hs) in Ha. unfold letter in Hc. congruence.
Qed.

Lemma normalizeTypedCode_exact raw want code :
  normalizeTypedCode raw want = Some code <-> typed raw code /\ String.length code = want.
Proof.
  unfold normalizeTypedCode. rewrite normalize_loop_typed. split.
  - by intros (rest & Ht & -> & ?).
  - intros [Ht Hl]. by exists code.
Qed.

(** ** What is drawn *)

Fixpoint letters (s : string) : Prop :=
  match s with
  | EmptyString => True
  | String c s => letter c /\ letters s
  end.

#[export] Instance letters_dec s : Decision (letters s).
Proof. induction s as [|c s IH]; cbn; [left; exact I|]. unfold letter. apply _. Defined.

Lemma letters_app a b : letters (a ++ b) <-> letters a /\ letters b.
Proof. induction a as [|c a IH]; [rewrite app_nil; simpl; tauto|]. rewrite app_char. simpl. tauto. Qed.

(** A code made of letters is one way to type itself. *)
Lemma typed_runes code : letters code -> typed (runes code) code.
Proof.
  induction code as [|c code IH]; cbn; [constructor|]. intros [Hc Hl].
  apply typed_letter; [done|apply spells_upper|by apply IH].
Qed.

Lemma typed_letters raw code : typed raw code -> letters code.
Proof. induction 1; simpl; auto. Qed.

Lemma letter_of_letter b : letter (letter_of b).
Proof.
  unfold letter_of. change (Z.of_nat (String.length userCodeAlphabet)) with 20.
  pose proof (Z.mod_pos_bound b 20 eq_refl) as Hb. revert Hb. generalize (b mod 20). intros k Hk.
  assert (Z.to_nat k < 20)%nat as Hn by lia. revert Hn. generalize (Z.to_nat k). intros n Hn. clear Hk.
  do 20 (destruct n as [|n]; [done|]). lia.
Qed.

(** No letter is likelier than another: of the bytes kept, each letter has twelve. *)
Lemma letter_of_uniform c :
  letter c -> length (filter (fun b => letter_of b = c) (seqZ 0 draw_limit)) = 12%nat.
Proof.
  unfold letter. intros H. pose proof (ascii_nat_embedding c) as E. unfold rune_of in H.
  rewrite <- E. each_letter H; (assert (nat_of_ascii c = Z.to_nat (Z.of_nat (nat_of_ascii c))) as -> by lia);
    rewrite H; vm_compute; reflexivity.
Qed.

Lemma take_letters_ok n out buf :
  letters out -> (String.length out < n)%nat ->
  letters (take_letters n out buf) /\ (String.length (take_letters n out buf) <= n)%nat.
Proof.
  revert out. induction buf as [|b buf IH]; intros out Ho Hn; cbn [take_letters]; [split; [done|lia]|].
  destruct (draw_limit <=? b); [by apply IH|].
  assert (letters (out ++ String (letter_of b) EmptyString)) as Ho'.
  { apply letters_app. split; [done|]. split; [apply letter_of_letter|done]. }
  pose proof (app_length out (String (letter_of b) EmptyString)) as El. simpl in El.
  destruct (Nat.eqb_spec (String.length (out ++ String (letter_of b) EmptyString)) n) as [E|E].
  - split; [done|lia].
  - apply IH; [done|lia].
Qed.

Lemma random_loop_ok n out reads code rest :
  letters out -> (String.length out <= n)%nat -> random_loop n out reads = Some (inr code, rest) ->
  letters code /\ String.length code = n.
Proof.
  revert out. induction reads as [|[buf|] reads IH]; intros out Ho Hn; cbn [random_loop];
    destruct (Nat.ltb_spec (String.length out) n); try done; try (intros [= <- _]; split; [done|lia]).
  destruct (take_letters_ok n out buf) as [Ho' Hn']; [done..|]. by apply IH.
Qed.

Lemma NewInviteCode_ok reads code rest :
  NewInviteCode reads = Some (inr code, rest) -> letters code /\ String.length code = inviteCodeLength.
Proof. apply random_loop_ok; [done|]. simpl. unfold inviteCodeLength. lia. Qed.

(** The bytes that become letters. *)
Definition usable (buf : list Z) : nat := length (filter (fun b => b < draw_limit) buf).

Lemma take_letters_length n out buf :
  (String.length out < n)%nat ->
  String.length (take_letters n out buf) = Nat.min n (String.length out + usable buf)%nat.
Proof.
  revert out. induction buf as [|b buf IH]; intros out Hn; cbn [take_letters]; unfold usable in *; cbn [filter].
  - rewrite filter_nil. simpl. lia.
  - rewrite filter_cons. destruct (Z.leb_spec draw_limit b) as [Hb|Hb].
    + rewrite IH by done. by rewrite decide_False by lia.
    + rewrite decide_True by lia. simpl length.
      pose proof (app_length out (String (letter_of b) EmptyString)) as El. simpl in El.
      destruct (Nat.eqb_spec (String.length (out ++ String (letter_of b) EmptyString)) n); [lia|].
      rewrite IH; lia.
Qed.

(** The call returns once enough usable bytes have been read. *)
Lemma random_loop_returns n out (bufs : list (list Z)) :
  (String.length out <= n)%nat -> (n <= String.length out + sum_list_with usable bufs)%nat ->
  exists code rest, random_loop n out (Some <$> bufs) = Some (inr code, rest).
Proof.
  revert out. induction bufs as [|buf bufs IH]; intros out Hn Hs; simpl in Hs; rewrite ?fmap_cons;
    cbn [random_loop fmap list_fmap]; destruct (Nat.ltb_spec (String.length out) n) as [Hlt|Hge].
  - lia.
  - by eexists _, _.
  - pose proof (take_letters_length n out buf Hlt). apply IH; lia.
  - by eexists _, _.
Qed.

(** ** Property *)

(** C35: a drawn code can be typed back, and only its own typings are taken for it. A code
    NewInviteCode draws has sixteen letters of the alphabet; what somebody types parses to it
    exactly when it spells those letters in order, in either case, with dashes, spaces and tabs
    anywhere; the drawing ends once the random source has given enough usable bytes; and as many
    bytes lead to one letter as to any other. *)
Theorem invite_code_roundtrip (bufs : list (list Z)) (raw : list Z)
    (Henough : (inviteCodeLength <= sum_list_with usable bufs)%nat) :
  exists code rest, NewInviteCode (Some <$> bufs) = Some (inr code, rest) /\
    letters code /\ String.length code = inviteCodeLength /\
    (ParseInviteCode raw = Some code <-> typed raw code) /\
    ParseInviteCode (runes code) = Some code /\
    (forall c, letter c -> length (filter (fun b => letter_of b = c) (seqZ 0 draw_limit)) = 12%nat).
Proof.
  destruct (random_loop_returns inviteCodeLength EmptyString bufs) as (code & rest & H); [simpl; lia..|].
  destruct (NewInviteCode_ok _ _ _ H) as [Hl Hlen]. exists code, rest.
  unfold ParseInviteCode. rewrite !normalizeTypedCode_exact.
  pose proof (typed_runes code Hl). split; [done|]. split; [done|]. split; [done|].
  split; [tauto|]. split; [done|]. apply letter_of_uniform.
Qed.

(** One refused byte, then sixteen letters over two reads; the code typed in lower case, grouped. *)
Lemma invite_code_roundtrip_witness :
  let bufs := [250 :: seqZ 0 15; seqZ 100 16] in
  let raw := runes "bcdf-ghjk mnpq-rstb" in
  (inviteCodeLength <= sum_list_with usable bufs)%nat /\
  ParseInviteCode raw = Some "BCDFGHJKMNPQRSTB"%string /\
  exists code rest, NewInviteCode (Some <$> bufs) = Some (inr code, rest) /\
    letters code /\ String.length code = inviteCodeLength /\
    (ParseInviteCode raw = Some code <-> typed raw code) /\
    ParseInviteCode (runes code) = Some code /\
    (forall c, letter c -> length (filter (fun b => letter_of b = c) (seqZ 0 draw_limit)) = 12%nat).
Proof.
  intros bufs raw. split; [apply Nat.leb_le; vm_compute; reflexivity|]. split; [vm_compute; reflexivity|].
  apply (invite_code_roundtrip bufs raw). apply Nat.leb_le. vm_compute. reflexivity.
Defined.

(** A user code as it is displayed parses back. *)
Lemma user_code_display code :
  letters code -> String.length code = userCodeLength -> ParseUserCode (runes (FormatUserCode code)) = Some code.
Proof.
  intros Hl Hn. apply normalizeTypedCode_exact. split; [|done].
  unfold FormatUserCode. rewrite Hn, Nat.eqb_refl. cbn [negb]. revert Hl Hn. unfold userCodeLength.
  do 8 (destruct code as [|? code]; [done|]). destruct code; [|done]. cbn. intros Hl _. destruct_and?.
  do 4 (apply typed_letter; [done|apply spells_upper|]). apply typed_separator; [done|].
  repeat (apply typed_letter; [done|apply spells_upper|]). constructor.
Qed.
