(* ===== verification/InviteSvc.v ===== *)
(** backend/internal/guilds/invite.go and backend/internal/db/invites.sql.go: a guild's invites, the
    only way into a guild somebody else created.

    [now] is the database's now(): the start of the transaction, the same for every statement in it,
    in microseconds. The random source an operation draws codes from is the list of its reads. *)
From S2P Require Import Prelude GoStd Permissions Snowflake Rows TxMonad Queries.
From S2P Require Import Resolve StoreInv Authority ResolveMany GuildAuth GuildCommon InviteCode.

(** ** Statements (invites.sql.go) *)

(** "Live": neither expired nor used up. *)
Definition live (now : Z) (i : dbInvite) : bool :=
  match inv_expires_at i with None => true | Some e => now <? e end &&
  match inv_max_uses i with None => true | Some m => inv_uses i <? m end.

Definition invite_rows (t : Tables) : list dbInvite := (map_to_list (t_invites t)).*2.

(** WHERE code = $1 and the two conditions of a live invite; the code is unique. *)
Definition live_invite (now : Z) (code : string) (t : Tables) : option dbInvite :=
  head (filter (fun i => inv_code i = code /\ live now i = true) (invite_rows t)).

Definition live_invites (now g : Z) (t : Tables) : list dbInvite :=
  filter (fun i => inv_guild_id i = g /\ live now i = true) (invite_rows t).

Definition Queries_CountLiveGuildInvites (now g : Z) : M Z :=
  reading (fun t => inr (count (live_invites now g t))).

Definition Queries_GetLiveGuildInvite (now : Z) (code : string) : M dbInvite :=
  reading (fun t => found (live_invite now code t)).

Record CreateGuildInviteParams := mkCreateGuildInviteParams {
  gi_ID : Z; gi_Code : string; gi_GuildID : Z; gi_ChannelID : Z; gi_InviterID : Z;
  gi_MaxUses : option Z; gi_ExpiresInSeconds : option Z
}.

(** The row inserted: no uses yet, its expiry on the database's clock. *)
Definition new_invite (now : Z) (p : CreateGuildInviteParams) : dbInvite :=
  mkDbInvite (gi_ID p) (gi_Code p) (gi_GuildID p) (gi_ChannelID p) (gi_InviterID p) (gi_MaxUses p) 0
    ((fun seconds => now + seconds * 1000000) <$> gi_ExpiresInSeconds p) now.

(** The table's CHECK. *)
Definition uses_sane (i : dbInvite) : bool :=
  (0 <=? inv_uses i) &&
  match inv_max_uses i with None => true | Some m => (0 <? m) && (inv_uses i <=? m) end.

Definition code_taken (code : string) (t : Tables) : bool :=
  bool_decide (Exists (fun i => inv_code i = code) (invite_rows t)).

(** ON CONFLICT (code) DO NOTHING answers a taken code with no row. The foreign keys are checked last. *)
Definition Queries_CreateGuildInvite (now : Z) (p : CreateGuildInviteParams) : M dbInvite :=
  writing (fun t =>
    let i := new_invite now p in
    if (16 <? String.length (gi_Code p))%nat || negb (uses_sane i) then inl EDb
    else if code_taken (gi_Code p) t then inl ENoRows
    else match t_invites t !! gi_ID p with
    | Some _ => inl EUnique
    | None =>
        if fk_holds (t_guilds t) (Some (gi_GuildID p)) && fk_holds (t_channels t) (Some (gi_ChannelID p))
           && fk_holds (t_users t) (Some (gi_InviterID p))
        then inr (i, set_invites (<[gi_ID p := i]> (t_invites t)) t)
        else inl EForeignKey
    end).

Definition with_uses (n : Z) (i : dbInvite) : dbInvite :=
  mkDbInvite (inv_id i) (inv_code i) (inv_guild_id i) (inv_channel_id i) (inv_inviter_id i)
    (inv_max_uses i) n (inv_expires_at i) (inv_created_at i).

(** SET uses = uses + 1, in a 32-bit column and under the table's CHECK. *)
Definition Queries_RedeemGuildInvite (now : Z) (code : string) : M dbInvite :=
  writing (fun t =>
    match live_invite now code t with
    | None => inl ENoRows
    | Some i =>
        let i' := with_uses (inv_uses i + 1) i in
        if (2 ^ 31 - 1 <? inv_uses i') || negb (uses_sane i') then inl EDb
        else inr (i', set_invites (<[inv_id i := i']> (t_invites t)) t)
    end).

Definition without_invite (id : Z) (t : Tables) : Tables := set_invites (delete id (t_invites t)) t.

Definition Queries_DeleteGuildInvite (id : Z) : M dbInvite :=
  writing (fun t =>
    match t_invites t !! id with
    | None => inl ENoRows
    | Some i => inr (i, without_invite id t)
    end).

(** expires_at < now(): never true of an invite that does not expire. *)
Definition expired (now : Z) (i : dbInvite) : bool :=
  match inv_expires_at i with None => false | Some e => e <? now end.

Definition Queries_DeleteExpiredGuildInvites (now : Z) : M Z :=
  writing (fun t => inr
    (count (filter (fun i => expired now i = true) (invite_rows t)),
     set_invites (filter (fun kv => expired now kv.2 = false) (t_invites t)) t)).

(** LEFT JOIN users ... AND u.deleted_at IS NULL *)
Definition named_account (t : Tables) (u : Z) : option dbUser :=
  match t_users t !! u with
  | Some user => if user_deleted user then None else Some user
  | None => None
  end.

Record ListGuildInvitesRow := mkListGuildInvitesRow {
  lgi_Invite : dbInvite; lgi_InviterUsername : option string; lgi_InviterDisplayName : option string
}.

Definition invite_after (i1 i2 : dbInvite) : Prop := inv_id i2 <= inv_id i1.

#[export] Instance invite_after_dec i1 i2 : Decision (invite_after i1 i2).
Proof. unfold invite_after. apply _. Defined.

(** ORDER BY i.id DESC *)
Definition Queries_ListGuildInvites (now g : Z) : M (list ListGuildInvitesRow) :=
  reading (fun t => inr
    ((fun i => mkListGuildInvitesRow i (user_username <$> named_account t (inv_inviter_id i))
                 (user_display_name <$> named_account t (inv_inviter_id i)))
       <$> merge_sort invite_after (live_invites now g t))).

Record GetGuildInvitePreviewRow := mkGetGuildInvitePreviewRow {
  gip_Code : string; gip_ExpiresAt : option Z; gip_GuildID : Z; gip_GuildName : string;
  gip_GuildDescription : option string; gip_ChannelID : Z; gip_ChannelName : option string;
  gip_InviterID : Z; gip_InviterUsername : option string; gip_InviterDisplayName : option string
}.

Definition Queries_GetGuildInvitePreview (now : Z) (code : string) : M GetGuildInvitePreviewRow :=
  reading (fun t => found (
    i ← live_invite now code t;
    g ← t_guilds t !! inv_guild_id i;
    c ← t_channels t !! inv_channel_id i;
    Some (mkGetGuildInvitePreviewRow (inv_code i) (inv_expires_at i) (guild_id g) (guild_name g)
      (guild_description g) (channel_id c) (channel_name c) (inv_inviter_id i)
      (user_username <$> named_account t (inv_inviter_id i))
      (user_display_name <$> named_account t (inv_inviter_id i))))).

Definition Queries_LockGuildForShare (g : Z) : M dbGuild := reading (fun t => found (t_guilds t !! g)).

Definition Queries_GetUserByID (u : Z) : M dbUser := reading (fun t => found (named_account t u)).

(** ** Wire objects *)

Record Invite := mkInvite {
  Invite_ID : Z; Invite_Code : string; Invite_GuildID : Z; Invite_ChannelID : Z; Invite_InviterID : Z;
  Invite_Inviter : option PublicUser; Invite_MaxUses : option Z; Invite_Uses : Z;
  Invite_ExpiresAt : option Z; Invite_CreatedAt : Z
}.

Definition inviteFromRow (row : dbInvite) (inviter : option PublicUser) : Invite := {|
  Invite_ID := inv_id row; Invite_Code := inv_code row; Invite_GuildID := inv_guild_id row;
  Invite_ChannelID := inv_channel_id row; Invite_InviterID := inv_inviter_id row;
  Invite_Inviter := inviter; Invite_MaxUses := inv_max_uses row; Invite_Uses := inv_uses row;
  Invite_ExpiresAt := inv_expires_at row; Invite_CreatedAt := inv_created_at row
|}.

Record PreviewGuild := mkPreviewGuild {
  PreviewGuild_ID : Z; PreviewGuild_Name : string; PreviewGuild_Description : option string
}.
Record PreviewChannel := mkPreviewChannel { PreviewChannel_ID : Z; PreviewChannel_Name : option string }.
Record InvitePreview := mkInvitePreview {
  InvitePreview_Code : string; InvitePreview_ExpiresAt : option Z; InvitePreview_Guild : PreviewGuild;
  InvitePreview_Channel : PreviewChannel; InvitePreview_Inviter : option PublicUser
}.

(** ** Operations (invite.go) *)

(** Durations are nanoseconds. *)
Definition MaxInviteMaxAge : Z := 30 * 24 * 3600 * 1000000000.
Definition MaxInviteUses : Z := 1000.

Record CreateInviteInput := mkCreateInviteInput {
  cii_ChannelID : Z; cii_MaxUses : Z; cii_MaxAge : Z
}.

Definition invite_params (id g actor : Z) (input : CreateInviteInput) : CreateGuildInviteParams :=
  mkCreateGuildInviteParams id EmptyString g (cii_ChannelID input) actor
    (if 0 <? cii_MaxUses input then Some (cii_MaxUses input) else None)
    (if 0 <? cii_MaxAge input then Some (cii_MaxAge input / 1000000000) else None).

Definition with_code (code : string) (p : CreateGuildInviteParams) : CreateGuildInviteParams :=
  mkCreateGuildInviteParams (gi_ID p) code (gi_GuildID p) (gi_ChannelID p) (gi_InviterID p)
    (gi_MaxUses p) (gi_ExpiresInSeconds p).

(** The loop that draws a code and inserts under it, [tries] attempts left. *)
Fixpoint insert_invite (tries : nat) (now : Z) (reads : Reads) (p : CreateGuildInviteParams) : M dbInvite :=
  match tries with
  | O => throw ENoFreeCode
  | S tries =>
      match NewInviteCode reads with
      | None => throw EBlocked
      | Some (inl e, _) => throw e
      | Some (inr code, reads) =>
          row_or ← attempt (Queries_CreateGuildInvite now (with_code code p));
          match row_or with
          | inr row => mret row
          | inl ENoRows => insert_invite tries now reads p
          | inl EForeignKey => throw ENotFound
          | inl e => throw e
          end
      end
  end.

Definition created_invite_diff (row : dbInvite) : auditDiff :=
  let d := auditDiff_context "channel_id" (AVInt (inv_channel_id row)) ∅ in
  let d := match inv_max_uses row with Some m => auditDiff_created "max_uses" (AVInt m) d | None => d end in
  match inv_expires_at row with Some e => auditDiff_created "expires_at" (AVTime e) d | None => d end.

Definition CreateInvite_tx (svc : Service) (actor now : Z) (reads : Reads) (input : CreateInviteInput)
    (id : Z) : M Invite :=
  ch ← AuthorizeChannelUnlocked actor (cii_ChannelID input) PermCreateInvite;
  let '(channel, guildID, _) := ch in
  refuse_if (negb (channel_type channel =? ChannelGuildText)) EUnsupportedChannelType;;
  lives ← Queries_CountLiveGuildInvites now guildID;
  refuse_if (maxInvitesPerGuild svc <=? lives) EGuildFull;;
  row ← insert_invite 3 now reads (invite_params id guildID actor input);
  Service_writeAudit guildID actor "invite.create" (Some (inv_id row)) (Some (created_invite_diff row));;
  creator ← Queries_GetUserByID actor;
  mret (inviteFromRow row (Some (mkPublicUser actor (user_username creator) (user_display_name creator)))).

Definition Service_CreateInvite (svc : Service) (actor now : Z) (reads : Reads) (input : CreateInviteInput)
    : M Invite :=
  refuse_if ((cii_MaxUses input <? 0) || (MaxInviteUses <? cii_MaxUses input)) EBadRequest;;
  refuse_if ((cii_MaxAge input <? 0) || (MaxInviteMaxAge <? cii_MaxAge input)) EBadRequest;;
  id ← ids_Next;
  RunInTx (CreateInvite_tx svc actor now reads input id).

(** The channels the rows lead into, each once, in the order they first appear. *)
Fixpoint distinct_channels (seen : list Z) (rows : list ListGuildInvitesRow) : list Z :=
  match rows with
  | [] => []
  | r :: rows =>
      let c := inv_channel_id (lgi_Invite r) in
      if bool_decide (c ∈ seen) then distinct_channels seen rows
      else c :: distinct_channels (c :: seen) rows
  end.

Definition Service_ListInvites (actor now guildID : Z) : M (list Invite) :=
  allowed ← Authorize actor guildID 0 PermManageGuild;
  rows ← Queries_ListGuildInvites now guildID;
  match rows with
  | [] => mret []
  | _ =>
      overwrites ← Queries_ListGuildPermissionOverwrites (distinct_channels [] rows) guildID;
      mret (omap (fun r =>
        let channel := inv_channel_id (lgi_Invite r) in
        if negb (Decision_AllowsInChannel allowed channel (rows_of channel overwrites) PermViewChannel)
        then None
        else Some (inviteFromRow (lgi_Invite r)
               (PublicUserOf (inv_inviter_id (lgi_Invite r)) (lgi_InviterUsername r)
                  (lgi_InviterDisplayName r)))) rows)
  end.

Definition Service_PreviewInvite (now : Z) (rawCode : list Z) : M InvitePreview :=
  match ParseInviteCode rawCode with
  | None => throw ENotFound
  | Some code =>
      row ← no_rows_as ENotFound (Queries_GetGuildInvitePreview now code);
      mret (mkInvitePreview (gip_Code row) (gip_ExpiresAt row)
        (mkPreviewGuild (gip_GuildID row) (gip_GuildName row) (gip_GuildDescription row))
        (mkPreviewChannel (gip_ChannelID row) (gip_ChannelName row))
        (PublicUserOf (gip_InviterID row) (gip_InviterUsername row) (gip_InviterDisplayName row)))
  end.

Definition joined_diff (i : dbInvite) : auditDiff :=
  auditDiff_context "inviter_id" (AVInt (inv_inviter_id i))
    (auditDiff_context "invite_id" (AVInt (inv_id i)) ∅).

Definition exhausted (i : dbInvite) : bool :=
  match inv_max_uses i with Some m => m <=? inv_uses i | None => false end.

Definition RedeemInvite_tx (svc : Service) (actor now : Z) (code : string) : M Guild :=
  Queries_LockAccountOwnership actor;;
  invite ← no_rows_as ENotFound (Queries_GetLiveGuildInvite now code);
  let guildID := inv_guild_id invite in
  guild ← no_rows_as ENotFound (Queries_LockGuildForShare guildID);
  let out := guildFromRow guild in
  member_or ← attempt (Queries_GetGuildMember guildID actor);
  match member_or with
  | inr _ => mret out
  | inl ENoRows =>
      joined ← Queries_CountGuildsJoinedBy actor;
      refuse_if (maxJoinedGuildsPerAccount svc <=? joined) EGuildFull;;
      spent ← no_rows_as ENotFound (Queries_RedeemGuildInvite now code);
      (if exhausted spent then Queries_DeleteGuildInvite (inv_id spent);; mret tt else mret tt);;
      member ← Queries_AddGuildMember (inv_guild_id spent) actor None;
      Service_writeAudit guildID actor "member.join" (Some actor) (Some (joined_diff spent));;
      Publisher_Queue (events svc) (event_for "GUILD_CREATE" AudUsers guildID [actor] (PGuild out));;
      Publisher_Queue (events svc)
        (event_for "GUILD_MEMBER_ADD" AudGuild guildID [] (PMember (memberFromRow member [])));;
      mret out
  | inl e => throw e
  end.

Definition Service_RedeemInvite (svc : Service) (actor now : Z) (rawCode : list Z) : M Guild :=
  match ParseInviteCode rawCode with
  | None => throw ENotFound
  | Some code => RunInTx (RedeemInvite_tx svc actor now code)
  end.

Definition revoked_invite_diff (i : dbInvite) : auditDiff :=
  auditDiff_context "uses" (AVInt (inv_uses i))
    (auditDiff_context "inviter_id" (AVInt (inv_inviter_id i))
      (auditDiff_context "channel_id" (AVInt (inv_channel_id i)) ∅)).

Definition RevokeInvite_tx (actor now : Z) (code : string) : M unit :=
  invite ← no_rows_as ENotFound (Queries_GetLiveGuildInvite now code);
  let guildID := inv_guild_id invite in
  allowed ← Authorize actor guildID 0 0;
  overwrites ← Queries_ListChannelPermissionOverwrites (inv_channel_id invite) guildID;
  refuse_if (negb (Decision_AllowsInChannel allowed (inv_channel_id invite) overwrites PermViewChannel))
    ENotFound;;
  refuse_if (negb (inv_inviter_id invite =? actor) && negb (Decision_Allows allowed PermManageGuild))
    EForbidden;;
  deleted ← no_rows_as ENotFound (Queries_DeleteGuildInvite (inv_id invite));
  Service_writeAudit guildID actor "invite.revoke" (Some (inv_id deleted)) (Some (revoked_invite_diff deleted)).

Definition Service_RevokeInvite (actor now : Z) (rawCode : list Z) : M unit :=
  match ParseInviteCode rawCode with
  | None => throw ENotFound
  | Some code => RunInTx (RevokeInvite_tx actor now code)
  end.

(** ** What each operation did, if it returned *)

Definition CreateInvite_effect (svc : Service) (a now : Z) (input : CreateInviteInput) (id : Z)
    (t : Tables) (out : Invite) (t' : Tables) (evs : list (Event Payload)) : Prop :=
  exists g d aid ch code creator,
    let row := new_invite now (with_code code (invite_params id g a input)) in
    t_channels t !! cii_ChannelID input = Some ch /\ channel_guild_id ch = Some g /\
    channel_type ch = ChannelGuildText /\
    granted t a g (cii_ChannelID input) (PermCreateInvite ∪ₚ PermViewChannel) d /\
    count (live_invites now g t) < maxInvitesPerGuild svc /\
    letters code /\ String.length code = inviteCodeLength /\ code_taken code t = false /\
    uses_sane row = true /\ t_invites t !! id = None /\ t_audit t !! aid = None /\
    named_account t a = Some creator /\
    t' = audited aid (entry g a "invite.create" (Some id) (Some (created_invite_diff row)))
           (set_invites (<[id := row]> (t_invites t)) t) /\
    out = inviteFromRow row (Some (mkPublicUser a (user_username creator) (user_display_name creator))) /\
    evs = [].

(** The tables once a use is spent; the last one takes the invite with it. *)
Definition spend (i : dbInvite) (t : Tables) : Tables :=
  let i' := with_uses (inv_uses i + 1) i in
  if exhausted i' then without_invite (inv_id i) t
  else set_invites (<[inv_id i := i']> (t_invites t)) t.

Definition new_member (g a : Z) : dbGuildMember := mkDbGuildMember g a None false false.

Definition joined (a : Z) (i : dbInvite) (t : Tables) : Tables :=
  set_members (<[(inv_guild_id i, a) := new_member (inv_guild_id i) a]> (t_members t)) (spend i t).

Definition RedeemInvite_effect (svc : Service) (a now : Z) (code : string) (t : Tables) (out : Guild)
    (t' : Tables) (evs : list (Event Payload)) : Prop :=
  exists i g,
    live_invite now code t = Some i /\ t_guilds t !! inv_guild_id i = Some g /\ out = guildFromRow g /\
    ((is_Some (t_members t !! (inv_guild_id i, a)) /\ t' = t /\ evs = []) \/
     (exists aid,
        t_members t !! (inv_guild_id i, a) = None /\ is_Some (t_users t !! a) /\
        count (filter (fun kv => kv.1.2 = a) (map_to_list (t_members t))) < maxJoinedGuildsPerAccount svc /\
        inv_uses i < 2 ^ 31 - 1 /\ t_audit t !! aid = None /\
        t' = audited aid (entry (inv_guild_id i) a "member.join" (Some a) (Some (joined_diff i)))
               (joined a i t) /\
        evs = when (events svc)
          [event_for "GUILD_CREATE" AudUsers (inv_guild_id i) [a] (PGuild out);
           event_for "GUILD_MEMBER_ADD" AudGuild (inv_guild_id i) []
             (PMember (memberFromRow (new_member (inv_guild_id i) a) []))])).

Definition RevokeInvite_effect (a now : Z) (code : string) (t t' : Tables) (evs : list (Event Payload))
    : Prop :=
  exists i d aid,
    let g := inv_guild_id i in
    live_invite now code t = Some i /\ granted t a g 0 0 d /\
    Decision_AllowsInChannel d (inv_channel_id i)
      (if channel_in_guild t (inv_channel_id i) g then channel_overwrites t (inv_channel_id i) else [])
      PermViewChannel = true /\
    (inv_inviter_id i = a \/ Decision_Allows d PermManageGuild = true) /\ t_audit t !! aid = None /\
    t' = audited aid (entry g a "invite.revoke" (Some (inv_id i)) (Some (revoked_invite_diff i)))
           (without_invite (inv_id i) t) /\
    evs = [].

(** ** Rules *)

Lemma wp_insert_invite tries now reads p (Q : dbInvite -> St -> Prop) s :
  (forall fs code,
     let row := new_invite now (with_code code p) in
     letters code -> String.length code = inviteCodeLength -> code_taken code (tabs s) = false ->
     uses_sane row = true -> t_invites (tabs s) !! gi_ID p = None ->
     Q row (with_tabs (set_invites (<[gi_ID p := row]> (t_invites (tabs s))) (tabs s)) (with_faults fs s))) ->
  wp (insert_invite tries now reads p) Q s.
Proof.
  revert reads s. induction tries as [|tries IH]; intros reads s HQ; cbn [insert_invite]; [done|].
  destruct (NewInviteCode reads) as [[[e|code] rest]|] eqn:E; [done| |done].
  destruct (NewInviteCode_ok _ _ _ E) as [Hl Hn]. wp_step. apply wp_attempt.
  intros row_or s' H. unfold Queries_CreateGuildInvite, writing in H.
  destruct (next_fault s) as [b s1] eqn:Ef. apply next_fault_with in Ef as [fs ->].
  destruct b; [by simplify_eq|]. cbn -[new_invite] in H.
  destruct (_ || _) eqn:E1 in H; [by simplify_eq|]. apply orb_false_iff in E1 as [_ Hsane].
  apply negb_false_iff in Hsane. destruct (code_taken _ _) eqn:Ht in H.
  { simplify_eq. apply IH. intros fs' code'. apply HQ. }
  destruct (t_invites (tabs s) !! gi_ID p) eqn:Eid; [by simplify_eq|].
  destruct (_ && _) in H; simplify_eq; [|done]. apply wp_ret. by apply HQ.
Qed.

Lemma wp_CreateInvite_tx svc a now reads input id s :
  wf (tabs s) -> hooks s = [] ->
  wp (CreateInvite_tx svc a now reads input id)
    (fun out s' => CreateInvite_effect svc a now input id (tabs s) out (tabs s') (hooks s')) s.
Proof.
  intros Hwf Hh. unfold CreateInvite_tx. wp_step. apply wp_authorizeChannel; [done|].
  intros fs ch g d Hch Hg Hd. wp_step. wp_step. wp_step. wp_step. cbn beta. st_simpl.
  wp_step. wp_step. wp_step. apply wp_insert_invite. intros fs1 code row Hl Hn Ht Hs Hid. st_simpl.
  wp_step. apply wp_writeAudit. intros fs2 aid gn cl Haid _. cbn beta. st_simpl. wp_steps. bool_hyps.
  exists g, d, aid, ch, code, a0. by split_and!.
Qed.

(** Adding the member to tables that still lack it. *)
Lemma wp_AddGuildMember g u (Q : dbGuildMember -> St -> Prop) s :
  t_members (tabs s) !! (g, u) = None ->
  (forall fs, is_Some (t_guilds (tabs s) !! g) -> is_Some (t_users (tabs s) !! u) ->
     Q (new_member g u)
       (with_tabs (set_members (<[(g, u) := new_member g u]> (t_members (tabs s))) (tabs s))
          (with_faults fs s))) ->
  wp (Queries_AddGuildMember g u None) Q s.
Proof.
  intros Hm HQ. unfold Queries_AddGuildMember. wp_step. rewrite Hm in *. case_decide as Hd; [|done].
  destruct Hd. simplify_eq. by apply HQ.
Qed.

(** Spending a use of the invite the transaction has read. *)
Lemma wp_spend {A} now code i (k : dbInvite -> M A) (Q : A -> St -> Prop) s :
  live_invite now code (tabs s) = Some i ->
  (forall fs, inv_uses i < 2 ^ 31 - 1 ->
     wp (k (with_uses (inv_uses i + 1) i)) Q (with_tabs (spend i (tabs s)) (with_faults fs s))) ->
  wp (spent ← no_rows_as ENotFound (Queries_RedeemGuildInvite now code);
      (if exhausted spent then Queries_DeleteGuildInvite (inv_id spent);; mret tt else mret tt);;
      k spent) Q s.
Proof.
  intros Hi HQ. wp_step. wp_step. unfold Queries_RedeemGuildInvite. wp_step. rewrite Hi in *.
  destruct (_ || _) eqn:E; [done|]. simplify_eq. apply orb_false_iff in E as [E _].
  cbn [inv_uses with_uses] in E. bool_hyps.
  unfold spend in HQ. wp_step. destruct (exhausted _).
  - wp_step. unfold Queries_DeleteGuildInvite. wp_step. st_simpl.
    cbn [t_invites set_invites inv_id with_uses] in *. rewrite lookup_insert_eq in *. simplify_eq.
    wp_steps. cbn beta. st_simpl.
    match goal with |- wp _ _ (with_tabs ?t' (with_faults ?f _)) =>
      replace t' with (without_invite (inv_id i) (tabs s)) end.
    + apply (HQ fs0). lia.
    + unfold without_invite, set_invites. cbn. by rewrite delete_insert_eq.
  - wp_steps. apply HQ. lia.
Qed.

Lemma wp_RedeemInvite_tx svc a now code s :
  hooks s = [] ->
  wp (RedeemInvite_tx svc a now code)
    (fun out s' => RedeemInvite_effect svc a now code (tabs s) out (tabs s') (hooks s')) s.
Proof.
  intros Hh. unfold RedeemInvite_tx. wp_step. wp_step. cbn beta. st_simpl. wp_step. wp_step. wp_step.
  cbn beta. st_simpl. rename a0 into i. wp_step. wp_step. wp_step. cbn beta. st_simpl. rename a0 into g.
  wp_step. apply wp_attempt. intros member_or s1 Hm. unfold Queries_GetGuildMember, reading in Hm.
  match type of Hm with context [next_fault ?s0] => destruct (next_fault s0) as [b s2] eqn:Ef end.
  apply next_fault_with in Ef as [fs2 ->]. destruct b; [by simplify_eq|]. st_simpl.
  destruct (t_members (tabs s) !! (inv_guild_id i, a)) as [m|] eqn:Em; simplify_eq; cbn [found].
  { wp_steps. exists i, g. split_and!; try done. left. by split_and!. }
  wp_step. wp_step. cbn beta. st_simpl. wp_step. wp_step. bool_hyps. apply (wp_spend now code i); [done|].
  intros fs4 Hu. st_simpl. wp_step. cbn [inv_guild_id with_uses].
  assert (t_members (spend i (tabs s)) = t_members (tabs s) /\ t_audit (spend i (tabs s)) = t_audit (tabs s) /\
    t_users (spend i (tabs s)) = t_users (tabs s)) as (E1 & E2 & E3) by (unfold spend; by destruct (exhausted _)).
  apply wp_AddGuildMember; st_simpl; [by rewrite E1|]. intros fs5 _ Huser. st_simpl. wp_step.
  apply wp_writeAudit. intros fs6 aid gn cl Haid _. cbn beta. st_simpl. wp_steps.
  exists i, g. split_and!; try done. right. exists aid. rewrite E3 in Huser.
  change (t_audit (spend i (tabs s)) !! aid = None) in Haid. rewrite E2 in Haid.
  split_and!; try done.
  - unfold joined. rewrite E1. done.
  - rewrite Hh. by destruct (events svc).
Qed.

(** A row is filed under its id. *)
Definition invites_keyed (t : Tables) : Prop := forall id i, t_invites t !! id = Some i -> inv_id i = id.

Lemma live_invite_Some now code t i :
  invites_keyed t -> live_invite now code t = Some i ->
  t_invites t !! inv_id i = Some i /\ inv_code i = code /\ live now i = true.
Proof.
  intros Hk Hi. apply head_Some_elem_of, list_elem_of_filter in Hi as [[Hc Hl] Hi].
  apply list_elem_of_fmap in Hi as ([id i'] & -> & Hi%elem_of_map_to_list). cbn in *.
  by rewrite (Hk _ _ Hi).
Qed.

Lemma wp_RevokeInvite_tx a now code s :
  wf (tabs s) -> invites_keyed (tabs s) -> hooks s = [] ->
  wp (RevokeInvite_tx a now code)
    (fun _ s' => RevokeInvite_effect a now code (tabs s) (tabs s') (hooks s')) s.
Proof.
  intros Hwf Hk Hh. unfold RevokeInvite_tx. wp_step. wp_step. wp_step. cbn beta. st_simpl. rename a0 into i.
  wp_step. apply wp_Authorize; [done|]. intros fs1 d Hd. wp_step. wp_step. cbn beta. st_simpl.
  wp_step. wp_step. wp_step. wp_step. wp_step. wp_step. unfold Queries_DeleteGuildInvite. wp_step. st_simpl.
  match goal with Hi : live_invite _ _ _ = Some i |- _ =>
    destruct (live_invite_Some _ _ _ _ Hk Hi) as (Ei & _ & _) end.
  rewrite Ei in *. simplify_eq.
  apply wp_writeAudit. intros fs6 aid gn cl Haid _. cbn beta. st_simpl.
  exists a0, d, aid. cbn zeta. split_and!; try done; [by apply negb_false_iff|].
  apply andb_false_iff in H1 as [?|?]; bool_hyps; auto.
Qed.

Lemma quiet_insert_invite tries now reads p : quiet (insert_invite tries now reads p).
Proof. revert reads. induction tries as [|tries IH]; intros reads; cbn [insert_invite]; quiet_steps. Qed.
#[export] Hint Resolve quiet_insert_invite : norite.
Lemma quiet_CreateInvite_tx svc a now reads input id : quiet (CreateInvite_tx svc a now reads input id).
Proof. unfold CreateInvite_tx, AuthorizeChannelUnlocked. quiet_steps. Qed.
Lemma quiet_RedeemInvite_tx svc a now code : quiet (RedeemInvite_tx svc a now code).
Proof. unfold RedeemInvite_tx. quiet_steps. Qed.
Lemma quiet_RevokeInvite_tx a now code : quiet (RevokeInvite_tx a now code).
Proof. unfold RevokeInvite_tx. quiet_steps. Qed.
#[export] Hint Resolve quiet_CreateInvite_tx quiet_RedeemInvite_tx quiet_RevokeInvite_tx : norite.
