(* ===== verification/AuthTokens.v ===== *)
(** The opaque credentials of backend/internal/auth/tokens.go: their generation, shape and hash; and
    the string functions of Go's library the accounts need. *)
From S2P Require Import Prelude GoStd Utf8 Tx.

(** ** strings.TrimSpace *)

(** The bytes of a string cut where [for range] cuts them, the first [skip] belonging to the piece
    being read. *)
Fixpoint pieces (skip : nat) (cur : list Z) (l : list Z) : list (list Z) :=
  match l with
  | [] => match cur with [] => [] | _ => [cur] end
  | b :: rest =>
      match skip with
      | S k => pieces k (cur ++ [b]) rest
      | O =>
          match cur with
          | [] => pieces (default 1%nat (rune_size l) - 1) [b] rest
          | _ => cur :: pieces (default 1%nat (rune_size l) - 1) [b] rest
          end
      end
  end.

(** unicode.IsSpace: the runes of White_Space. *)
Definition space_runes : list Z :=
  [9; 10; 11; 12; 13; 32; 133; 160; 5760; 8192; 8193; 8194; 8195; 8196; 8197; 8198; 8199; 8200; 8201;
   8202; 8232; 8233; 8239; 8287; 12288].

Definition is_space (piece : list Z) : bool := bool_decide (piece ∈ encode_rune <$> space_runes).

Fixpoint drop_spaces (ps : list (list Z)) : list (list Z) :=
  match ps with
  | p :: rest => if is_space p then drop_spaces rest else ps
  | [] => []
  end.

Definition TrimSpace (s : string) : string :=
  string_of (concat (rev (drop_spaces (rev (drop_spaces (pieces 0 [] (bytes_of s))))))).

(** ** encoding/base64, RawURLEncoding *)

Definition base64url : string := "ABCDEFGHIJKLMNOPQRSTUVWXYZabcdefghijklmnopqrstuvwxyz0123456789-_".

Definition digit_char (d : Z) : ascii := default "A"%char (String.get (Z.to_nat d) base64url).

Definition char_digit (c : ascii) : option Z :=
  let n := Z.of_nat (nat_of_ascii c) in
  if between 65 90 n then Some (n - 65)
  else if between 97 122 n then Some (n - 71)
  else if between 48 57 n then Some (n + 4)
  else if n =? 45 then Some 62
  else if n =? 95 then Some 63
  else None.

(** The sextets of bytes, three bytes at a time. *)
Fixpoint sextets (l : list Z) : list Z :=
  match l with
  | a :: b :: c :: rest =>
      a / 4 :: a mod 4 * 16 + b / 16 :: b mod 16 * 4 + c / 64 :: c mod 64 :: sextets rest
  | [a; b] => [a / 4; a mod 4 * 16 + b / 16; b mod 16 * 4]
  | [a] => [a / 4; a mod 4 * 16]
  | [] => []
  end.

(** And back. The spare bits of a short last group are not looked at, and one sextet alone is an error. *)
Fixpoint octets (l : list Z) : option (list Z) :=
  match l with
  | a :: b :: c :: d :: rest =>
      rest ← octets rest;
      Some (a * 4 + b / 16 :: b mod 16 * 16 + c / 4 :: c mod 4 * 64 + d :: rest)
  | [a; b; c] => Some [a * 4 + b / 16; b mod 16 * 16 + c / 4]
  | [a; b] => Some [a * 4 + b / 16]
  | [_] => None
  | [] => Some []
  end.

Definition EncodeToString (buf : list Z) : string :=
  String.string_of_list_ascii (digit_char <$> sextets buf).

Definition newline (c : ascii) : bool := bool_decide (c = "010"%char) || bool_decide (c = "013"%char).

(** DecodeString skips line breaks. *)
Definition DecodeString (s : string) : option (list Z) :=
  digits ← mapM char_digit (filter (fun c => newline c = false) (String.list_ascii_of_string s));
  octets digits.

(** ** Tokens *)

Definition tokenEntropyBytes : nat := 32.
Definition refreshTokenPrefix : string := "nrt_".
Definition apiTokenPrefix : string := "nat_".
Definition passwordResetPrefix : string := "nrp_".
Definition oauthStatePrefix : string := "nos_".
Definition oauthExchangePrefix : string := "noc_".
Definition oauthFlowPrefix : string := "nof_".
Definition deviceCodePrefix : string := "nod_".
Definition emailVerificationPrefix : string := "nev_".

(** sha256.Sum256, of a string's bytes. *)
Class Digest := Sum256 : string -> string.

(** strings.HasPrefix, and what follows the prefix. *)
Fixpoint strip_prefix (prefix raw : string) : option string :=
  match prefix, raw with
  | EmptyString, _ => Some raw
  | String c p, String c' r => if decide (c = c') then strip_prefix p r else None
  | String _ _, EmptyString => None
  end.

Definition HasPrefix (raw prefix : string) : bool := bool_decide (is_Some (strip_prefix prefix raw)).

Section tokens.
Context {digest : Digest}.

Definition TokenHash : Type := string.

Definition HashToken (raw : string) : TokenHash := Sum256 raw.

(** [read] is what rand.Read puts in the buffer; [None] is its failure. *)
Definition generateOpaqueToken (prefix : string) (read : option (list Z)) : Err + (string * TokenHash) :=
  match read with
  | None => inl ERandom
  | Some buf => let raw := (prefix ++ EncodeToString buf)%string in inr (raw, HashToken raw)
  end.

Definition parseOpaqueToken (raw prefix : string) : option TokenHash :=
  match strip_prefix prefix raw with
  | None => None
  | Some body =>
      match DecodeString body with
      | Some decoded => if (length decoded =? tokenEntropyBytes)%nat then Some (HashToken raw) else None
      | None => None
      end
  end.

Definition GenerateRefreshToken := generateOpaqueToken refreshTokenPrefix.
Definition GenerateAPIToken := generateOpaqueToken apiTokenPrefix.
Definition GeneratePasswordResetToken := generateOpaqueToken passwordResetPrefix.
Definition GenerateEmailVerificationToken := generateOpaqueToken emailVerificationPrefix.
Definition GenerateOAuthState := generateOpaqueToken oauthStatePrefix.
Definition GenerateOAuthExchangeCode := generateOpaqueToken oauthExchangePrefix.
Definition GenerateDeviceCode := generateOpaqueToken deviceCodePrefix.
Definition GenerateOAuthFlowVerifier := generateOpaqueToken oauthFlowPrefix.

Definition ParseRefreshToken (raw : string) := parseOpaqueToken raw refreshTokenPrefix.
Definition ParseAPIToken (raw : string) := parseOpaqueToken raw apiTokenPrefix.
Definition ParsePasswordResetToken (raw : string) := parseOpaqueToken raw passwordResetPrefix.
Definition ParseEmailVerificationToken (raw : string) := parseOpaqueToken raw emailVerificationPrefix.
Definition ParseOAuthState (raw : string) := parseOpaqueToken raw oauthStatePrefix.
Definition ParseOAuthExchangeCode (raw : string) := parseOpaqueToken raw oauthExchangePrefix.
Definition ParseDeviceCode (raw : string) := parseOpaqueToken raw deviceCodePrefix.
Definition ParseOAuthFlowVerifier (raw : string) := parseOpaqueToken raw oauthFlowPrefix.

(** The challenge is the bytes of a hash. *)
Definition ParseOAuthFlowChallenge (raw : string) : option TokenHash :=
  match DecodeString raw with
  | Some decoded => if (length decoded =? 32)%nat then Some (string_of decoded) else None
  | None => None
  end.

Definition OAuthFlowChallengeFor (challenge : TokenHash) : string := EncodeToString (bytes_of challenge).

Definition LooksLikeOpaqueToken (raw : string) : bool :=
  HasPrefix raw apiTokenPrefix || HasPrefix raw refreshTokenPrefix.

(** The three bytes are the ellipsis. *)
Definition ellipsis : string := string_of [226; 128; 166].

Definition RedactToken (raw : string) : string :=
  if HasPrefix raw refreshTokenPrefix then (refreshTokenPrefix ++ ellipsis)%string
  else if HasPrefix raw apiTokenPrefix then (apiTokenPrefix ++ ellipsis)%string
  else ellipsis.
End tokens.

(** ** Lemmas *)

Definition octet (b : Z) : Prop := 0 <= b < 256.
Definition sextet (d : Z) : Prop := 0 <= d < 64.

Lemma list_ind3 {A} (P : list A -> Prop) :
  P [] -> (forall a, P [a]) -> (forall a b, P [a; b]) ->
  (forall a b c l, P l -> P (a :: b :: c :: l)) -> forall l, P l.
Proof.
  intros H0 H1 H2 H3 l. enough (P l /\ (forall a, P (a :: l)) /\ (forall a b, P (a :: b :: l))) as [? _]; [done|].
  induction l as [|x l (I0 & I1 & I2)]; [auto|]. split_and!; auto.
Qed.

Lemma octets_sextets l : Forall octet l -> octets (sextets l) = Some l.
Proof.
  induction l as [|a|a b|a b c l IH] using list_ind3; intros H; decompose_Forall_hyps; unfold octet in *; cbn [sextets octets].
  - done.
  - do 2 f_equal. by_div.
  - do 3 f_equal; [by_div|]. f_equal. by_div.
  - rewrite IH by done. cbn. f_equal. f_equal; [by_div|]. f_equal; [by_div|]. f_equal. by_div.
Qed.

Lemma sextets_range l : Forall octet l -> Forall sextet (sextets l).
Proof.
  induction l as [|a|a b|a b c l IH] using list_ind3; intros H; decompose_Forall_hyps; unfold octet, sextet in *; cbn [sextets];
    repeat constructor; auto; try by_div.
Qed.

Lemma digit_facts d : sextet d -> char_digit (digit_char d) = Some d /\ newline (digit_char d) = false.
Proof.
  intros Hd. assert (d ∈ seqZ 0 64) as Hin by (apply elem_of_seqZ; unfold sextet in Hd; lia).
  clear Hd. revert d Hin.
  assert (Forall (fun d => char_digit (digit_char d) = Some d /\ newline (digit_char d) = false) (seqZ 0 64)) as H by by_decide.
  by apply Forall_forall.
Qed.

Lemma DecodeString_EncodeToString buf : Forall octet buf -> DecodeString (EncodeToString buf) = Some buf.
Proof.
  intros H. unfold DecodeString, EncodeToString. rewrite String.list_ascii_of_string_of_list_ascii.
  pose proof (sextets_range buf H) as Hs.
  assert (mapM char_digit (filter (fun c => newline c = false) (digit_char <$> sextets buf)) = Some (sextets buf)) as ->.
  { induction Hs as [|d ds Hd Hds IH]; [done|]. destruct (digit_facts d Hd) as [H1 H2]. cbn [fmap list_fmap].
    rewrite filter_cons_True by done. cbn [mapM]. rewrite H1. cbn. change (list_fmap Z ascii digit_char ds) with (digit_char <$> ds).
    by rewrite IH. }
  cbn. by apply octets_sextets.
Qed.

Lemma strip_prefix_app p s : strip_prefix p (p ++ s)%string = Some s.
Proof. induction p as [|c p IH]; [done|]. change (String c p +:+ s) with (String c (p +:+ s)). cbn [strip_prefix]. by rewrite decide_True. Qed.

Lemma strip_prefix_other p q s :
  String.length p = String.length q -> p <> q -> strip_prefix p (q ++ s)%string = None.
Proof.
  revert q. induction p as [|c p IH]; intros [|d q] Hl Hne; try done. change (String d q +:+ s) with (String d (q +:+ s)). cbn [strip_prefix]. destruct (decide (c = d)) as [->|]; [|done].
  apply IH; [by injection Hl|congruence].
Qed.

(** The kinds of opaque token. *)
Definition token_prefixes : list string :=
  [refreshTokenPrefix; apiTokenPrefix; passwordResetPrefix; oauthStatePrefix; oauthExchangePrefix;
   oauthFlowPrefix; deviceCodePrefix; emailVerificationPrefix].

Lemma token_prefix_length p : p ∈ token_prefixes -> String.length p = 4%nat.
Proof.
  intros Hp. assert (Forall (fun p => String.length p = 4%nat) token_prefixes) as H by by_decide.
  by apply (proj1 (Forall_forall _ _) H).
Qed.

Section laws.
Context {digest : Digest}.

Lemma parse_generated p buf raw h :
  Forall octet buf -> length buf = tokenEntropyBytes -> generateOpaqueToken p (Some buf) = inr (raw, h) ->
  parseOpaqueToken raw p = Some h.
Proof.
  intros Hb Hl [= <- <-]. unfold parseOpaqueToken.
  by rewrite strip_prefix_app, DecodeString_EncodeToString, Hl by done.
Qed.

Lemma parse_other_kind p q read raw h :
  p ∈ token_prefixes -> q ∈ token_prefixes -> q <> p -> generateOpaqueToken p read = inr (raw, h) ->
  parseOpaqueToken raw q = None.
Proof.
  intros Hp Hq Hne. destruct read as [buf|]; [|done]. intros [= <- <-]. unfold parseOpaqueToken.
  rewrite strip_prefix_other; [done| |done]. by rewrite !token_prefix_length.
Qed.

Lemma parse_hash p raw h : parseOpaqueToken raw p = Some h -> h = HashToken raw.
Proof. unfold parseOpaqueToken. intros H. repeat case_match; naive_solver. Qed.

(** An opaque token is read back as what it was issued as and as nothing else: a token generated from
    32 random bytes parses under its own prefix, to the hash that was stored for it; under the prefix of any
    other kind of credential it is refused; and tokens of different bytes are different tokens. *)
Theorem token_roundtrip (p : string) (buf : list Z) (raw h : string) (Hp : p ∈ token_prefixes)
    (Hb : Forall octet buf) (Hl : length buf = tokenEntropyBytes)
    (Hg : generateOpaqueToken p (Some buf) = inr (raw, h)) :
  parseOpaqueToken raw p = Some h /\
  (forall q, q ∈ token_prefixes -> q <> p -> parseOpaqueToken raw q = None) /\
  (forall buf' raw' h', Forall octet buf' -> generateOpaqueToken p (Some buf') = inr (raw', h') ->
     raw' = raw -> buf' = buf).
Proof.
  split_and!.
  - by eapply parse_generated.
  - intros q Hq Hne. by eapply (parse_other_kind p).
  - intros buf' raw' h' Hb' [= <- <-] Heq. injection Hg as <- _.
    apply (f_equal (strip_prefix p)) in Heq. rewrite !strip_prefix_app in Heq. injection Heq as Heq.
    apply (f_equal DecodeString) in Heq. rewrite !DecodeString_EncodeToString in Heq by done. by injection Heq.
Qed.
End laws.

(** A digest that is its argument, for the examples. *)
Definition plain_digest : Digest := fun s => s.

Lemma token_roundtrip_witness :
  let raw := (refreshTokenPrefix ++ EncodeToString (seqZ 224 32))%string in
  parseOpaqueToken (digest := plain_digest) raw refreshTokenPrefix = Some raw /\
  (forall q, q ∈ token_prefixes -> q <> refreshTokenPrefix -> parseOpaqueToken (digest := plain_digest) raw q = None) /\
  raw = "nrt_4OHi4-Tl5ufo6err7O3u7_Dx8vP09fb3-Pn6-_z9_v8".
Proof.
  intros raw. destruct (token_roundtrip (digest := plain_digest) refreshTokenPrefix (seqZ 224 32) raw raw) as (H1 & H2 & _).
  - by_decide.
  - apply Forall_forall. intros b Hb%elem_of_seqZ. unfold octet. lia.
  - reflexivity.
  - reflexivity.
  - split; [exact H1|]. split; [exact H2|]. vm_compute. reflexivity.
Defined.
