(* ===== verification/MessageSvc.v ===== *)
(** backend/internal/messages and backend/internal/db/messages.sql.go: what is said in a channel. Sending,
    reading, editing and deleting messages (service.go), their earlier versions (history.go), and the
    recording of everything said in a guild that switched it on (audit.go).

    [now] is the database's now(), as in InviteSvc; [bus] is false for a service built without a
    publisher. *)
From S2P Require Import Prelude GoStd Permissions Snowflake Rows TxMonad Queries.
From S2P Require Import Resolve StoreInv Authority ResolveMany GuildAuth GuildCommon InviteSvc.
From S2P Require Import Utf8.

(** ** Constants (model.go) *)

Definition MaxContentLength : Z := 4000.
Definition TypeDefault : Z := 0.
Definition TypeAutomation : Z := 1.

Definition typeFor (actor : Actor) : Z :=
  if bool_decide (Actor_Kind actor = ActorAPIToken) then TypeAutomation else TypeDefault.

Definition defaultPageSize : Z := 50.
Definition maxPageSize : Z := 100.

(** The page a reader is given: the switch in List, History and GuildMessageAudit. *)
Definition page_size (limit : Z) : Z :=
  if limit <=? 0 then defaultPageSize else if maxPageSize <? limit then maxPageSize else limit.

(** ** Statements (messages.sql.go) *)

Definition messages_of (t : Tables) : gmap Z dbMessage := c_messages (t_chat t).

Definition on_chat (f : Chat -> Chat) (t : Tables) : Tables := set_chat (f (t_chat t)) t.

(** A message with its author's name, if the account still exists: LEFT JOIN users. *)
Record authoredRow := mkAuthoredRow {
  ar_message : dbMessage; ar_author_username : option string; ar_author_display_name : option string
}.

Definition authored (t : Tables) (m : dbMessage) : authoredRow :=
  let author := a ← msg_author_id m; named_account t a in
  mkAuthoredRow m (user_username <$> author) (user_display_name <$> author).

Record CreateMessageParams := mkCreateMessageParams {
  cmp_ID : Z; cmp_ChannelID : Z; cmp_AuthorID : option Z; cmp_Content : string; cmp_Type : Z;
  cmp_ReplyToID : option Z
}.

Definition new_message (now : Z) (p : CreateMessageParams) : dbMessage :=
  mkDbMessage (cmp_ID p) (cmp_ChannelID p) (cmp_AuthorID p) (cmp_Content p) (cmp_Type p)
    (cmp_ReplyToID p) false None None now.

(** [EForeignKey] is messages_channel_id_fkey, the one constraint the caller tells apart. *)
Definition Queries_CreateMessage (now : Z) (p : CreateMessageParams) : M authoredRow :=
  writing (fun t =>
    let m := new_message now p in
    if negb (pg_text (cmp_Content p)) then inl EDb
    else match messages_of t !! cmp_ID p with
    | Some _ => inl EUnique
    | None =>
        if negb (fk_holds (t_channels t) (Some (cmp_ChannelID p))) then inl EForeignKey
        else if fk_holds (t_users t) (cmp_AuthorID p) && fk_holds (messages_of t) (cmp_ReplyToID p)
        then inr (authored t m, on_chat (set_messages (<[cmp_ID p := m]> (messages_of t))) t)
        else inl EDb
    end).

Definition live_message (t : Tables) (id : Z) : option dbMessage :=
  m ← messages_of t !! id; if msg_deleted_at m is None then Some m else None.

Definition Queries_GetMessage (id : Z) : M dbMessage := reading (fun t => found (live_message t id)).
Definition Queries_GetMessageForUpdate (id : Z) : M dbMessage := reading (fun t => found (live_message t id)).

(** SET last_message_id = GREATEST(last_message_id, $2), which a null does not take part in. *)
Definition Queries_SetChannelLastMessage (c id : Z) : M unit :=
  writing (fun t => inr (tt,
    if bool_decide (is_Some (t_channels t !! c))
    then on_chat (fun x => set_last (<[c := Z.max id (default id (c_last x !! c))]> (c_last x)) x) t
    else t)).

Definition Queries_GuildRecordsMessages (g : Z) : M bool :=
  reading (fun t => found (guild_message_audit_enabled <$> t_guilds t !! g)).

Record RecordMessageAuditParams := mkRecordMessageAuditParams {
  rma_ID : Z; rma_ActorID : Z; rma_Action : string; rma_GuildID : Z; rma_MessageID : Z
}.

(** The row INSERT ... SELECT inserts, if its joins find one: the message, unless it is encrypted, in
    a channel of the guild, which records. *)
Definition recorded_row (now : Z) (p : RecordMessageAuditParams) (t : Tables) : option dbMessageAuditEntry :=
  m ← messages_of t !! rma_MessageID p;
  ch ← t_channels t !! msg_channel_id m;
  g ← t_guilds t !! rma_GuildID p;
  if bool_decide (channel_guild_id ch = Some (rma_GuildID p)) && guild_message_audit_enabled g
     && negb (msg_is_e2e m)
  then Some (mkDbMessageAuditEntry (rma_ID p) (rma_GuildID p) (msg_id m) (msg_channel_id m)
               (rma_ActorID p) (rma_Action p) (Some (msg_content m)) now)
  else None.

Definition Queries_RecordMessageAudit (now : Z) (p : RecordMessageAuditParams) : M unit :=
  writing (fun t =>
    match recorded_row now p t with
    | None => inr (tt, t)
    | Some row =>
        match c_recorded (t_chat t) !! rma_ID p with
        | Some _ => inl EUnique
        | None =>
            if fk_holds (t_users t) (Some (rma_ActorID p))
            then inr (tt, on_chat (fun x => set_recorded (<[rma_ID p := row]> (c_recorded x)) x) t)
            else inl EForeignKey
        end
    end).

Definition Queries_AppendMessageEditHistory (now id messageID : Z) (content : string) : M unit :=
  writing (fun t =>
    match c_history (t_chat t) !! id with
    | Some _ => inl EUnique
    | None =>
        if fk_holds (messages_of t) (Some messageID)
        then inr (tt, on_chat (fun x =>
               set_history (<[id := mkDbEditHistory id messageID content now]> (c_history x)) x) t)
        else inl EForeignKey
    end).

(** SET content = $2, edited_at = now(), type = GREATEST(type, $3) *)
Definition edited (now : Z) (content : string) (type : Z) (m : dbMessage) : dbMessage :=
  mkDbMessage (msg_id m) (msg_channel_id m) (msg_author_id m) content (Z.max (msg_type m) type)
    (msg_reply_to_id m) (msg_is_e2e m) (Some now) (msg_deleted_at m) (msg_created_at m).

Definition Queries_UpdateMessageContent (now id : Z) (content : string) (type : Z) : M authoredRow :=
  writing (fun t =>
    if negb (pg_text content) then inl EDb
    else match live_message t id with
    | None => inl ENoRows
    | Some m =>
        let m' := edited now content type m in
        inr (authored t m', on_chat (set_messages (<[id := m']> (messages_of t))) t)
    end).

Definition soft_deleted (now : Z) (m : dbMessage) : dbMessage :=
  mkDbMessage (msg_id m) (msg_channel_id m) (msg_author_id m) (msg_content m) (msg_type m)
    (msg_reply_to_id m) (msg_is_e2e m) (msg_edited_at m) (Some now) (msg_created_at m).

Definition Queries_SoftDeleteMessage (now id : Z) : M unit :=
  writing (fun t => inr (tt,
    match live_message t id with
    | None => t
    | Some m => on_chat (set_messages (<[id := soft_deleted now m]> (messages_of t))) t
    end)).

(** COALESCE of a cursor with the largest and the smallest bigint an id can be. *)
Definition below (before : option Z) (id : Z) : bool := id <? default 9223372036854775807 before.
Definition above (after : option Z) (id : Z) : bool := default 0 after <? id.

(** ORDER BY id DESC, on anything with an id. *)
Definition newer_first {A} (id : A -> Z) (x y : A) : Prop := id y <= id x.

#[export] Instance newer_first_dec {A} (id : A -> Z) x y : Decision (newer_first id x y).
Proof. unfold newer_first. apply _. Defined.

Definition rows_of_map {A} (m : gmap Z A) : list A := (map_to_list m).*2.

(** The channel's live messages between two cursors, newest first. *)
Definition channel_messages (t : Tables) (c : Z) (before after : option Z) : list dbMessage :=
  merge_sort (newer_first msg_id)
    (filter (fun m => msg_channel_id m = c /\ msg_deleted_at m = None /\
                      below before (msg_id m) = true /\ above after (msg_id m) = true)
       (rows_of_map (messages_of t))).

Definition Queries_ListChannelMessages (c limit : Z) (before after : option Z) : M (list authoredRow) :=
  reading (fun t => inr (authored t <$> take (Z.to_nat limit) (channel_messages t c before after))).

(** ** Reading conversations *)

(** A message as History reads it; the content is joined in unless it is encrypted. *)
Record GetMessageWithHistoryTargetRow := mkHistoryTargetRow {
  ht_message : dbMessage; ht_current_content : option string
}.

Definition Queries_GetMessageWithHistoryTarget (id : Z) : M GetMessageWithHistoryTargetRow :=
  reading (fun t => found (
    m ← messages_of t !! id;
    Some (mkHistoryTargetRow m (if msg_is_e2e m then None else Some (msg_content m))))).

(** JOIN messages m ON m.id = h.message_id AND NOT m.is_e2e *)
Definition unencrypted (t : Tables) (id : Z) : bool :=
  match messages_of t !! id with Some m => negb (msg_is_e2e m) | None => false end.

(** The earlier versions of a message that is not encrypted, newest first. *)
Definition versions_of (t : Tables) (id : Z) (before : option Z) : list dbEditHistory :=
  merge_sort (newer_first eh_id)
    (filter (fun h => eh_message_id h = id /\ below before (eh_id h) = true /\ unencrypted t id = true)
       (rows_of_map (c_history (t_chat t)))).

Definition Queries_ListMessageEditHistory (id limit : Z) (before : option Z) : M (list dbEditHistory) :=
  reading (fun t => inr (take (Z.to_nat limit) (versions_of t id before))).

(** A guild's recordings, newest first. *)
Definition recordings_of (t : Tables) (g : Z) (before : option Z) : list dbMessageAuditEntry :=
  merge_sort (newer_first ma_id)
    (filter (fun r => ma_guild_id r = g /\ below before (ma_id r) = true)
       (rows_of_map (c_recorded (t_chat t)))).

Definition Queries_ListGuildMessageAudit (g limit : Z) (before : option Z) : M (list dbMessageAuditEntry) :=
  reading (fun t => inr (take (Z.to_nat limit) (recordings_of t g before))).

(** tags.sql.go: the tags on some messages that a viewer may see. *)
Record ListTagsForMessagesRow := mkListTagsForMessagesRow {
  ltm_MessageID : Z; ltm_MessageTag : dbMessageTag; ltm_AppliedBy : Z; ltm_AppliedAt : Z
}.

(** ORDER BY a.message_id DESC, t.id *)
Definition tagged_before (r1 r2 : ListTagsForMessagesRow) : Prop :=
  ltm_MessageID r2 < ltm_MessageID r1 \/
  (ltm_MessageID r1 = ltm_MessageID r2 /\ tag_id (ltm_MessageTag r1) <= tag_id (ltm_MessageTag r2)).

#[export] Instance tagged_before_dec r1 r2 : Decision (tagged_before r1 r2).
Proof. unfold tagged_before. apply _. Defined.

Definition tag_visible (viewer : Z) (tag : dbMessageTag) : bool :=
  tag_is_shared tag || (tag_created_by tag =? viewer).

Definition tagged_row (x : Chat) (a : dbTagApplication) : option ListTagsForMessagesRow :=
  tag ← c_tags x !! ta_tag_id a;
  Some (mkListTagsForMessagesRow (ta_message_id a) tag (ta_applied_by a) (ta_applied_at a)).

Definition tags_for (x : Chat) (ids : list Z) (viewer : Z) : list ListTagsForMessagesRow :=
  merge_sort tagged_before
    (filter (fun r => ltm_MessageID r ∈ ids /\ tag_visible viewer (ltm_MessageTag r) = true)
       (omap (tagged_row x) ((map_to_list (c_applied x)).*2))).

Definition Queries_ListTagsForMessages (ids : list Z) (viewer : Z) : M (list ListTagsForMessagesRow) :=
  reading (fun t => inr (tags_for (t_chat t) ids viewer)).

(** ** Messages (model.go, service.go) *)

Definition messageFromRow (row : authoredRow) : Message :=
  let m := ar_message row in
  mkMessage (msg_id m) (msg_channel_id m) (msg_author_id m)
    (a ← msg_author_id m; PublicUserOf a (ar_author_username row) (ar_author_display_name row))
    (msg_content m) (msg_type m) (msg_reply_to_id m) (msg_edited_at m) (msg_created_at m) None.

Definition checkContent (content : string) : Err + unit :=
  if (content =? "")%string then inl EBadRequest
  else if MaxContentLength <? RuneCountInString content then inl EBadRequest
  else inr tt.

Definition lift {A} (r : Err + A) : M A := match r with inl e => throw e | inr a => mret a end.

Definition Service_resolveReply (c : Z) (replyTo : option Z) : M (option Z) :=
  match replyTo with
  | None => mret None
  | Some r =>
      target ← no_rows_as EBadRequest (Queries_GetMessage r);
      refuse_if (negb (msg_channel_id target =? c)) EBadRequest;;
      mret (Some (msg_id target))
  end.

Definition AuditCreate : string := "create".
Definition AuditEdit : string := "edit".
Definition AuditDelete : string := "delete".

(** The id is minted only if a row is going to be written. *)
Definition Service_record (now guildID actorID messageID : Z) (action : string) : M unit :=
  recording ← Queries_GuildRecordsMessages guildID;
  if negb recording then mret tt
  else
    id ← ids_Next;
    Queries_RecordMessageAudit now (mkRecordMessageAuditParams id actorID action guildID messageID).

(** An edit can show an old message to those who may not read the channel's history. *)
Definition message_event (event : string) (guildID : Z) (m : Message) : Event Payload :=
  mkEvent event AudGuild guildID (Message_ChannelID m)
    (if (event =? "MESSAGE_UPDATE")%string then PermReadMessageHistory else 0) [] None false
    (PMessage (with_tags None m)).

Definition Service_queueMessage (bus : bool) (event : string) (guildID : Z) (m : Message) : M unit :=
  Publisher_Queue bus (message_event event guildID m).

Definition applied_tag (row : ListTagsForMessagesRow) : AppliedTag :=
  let tag := ltm_MessageTag row in
  mkAppliedTag (tag_id tag) (tag_guild_id tag) (tag_name tag) (tag_created_by tag) (tag_is_shared tag)
    (tag_created_at tag) (ltm_AppliedBy row) (ltm_AppliedAt row).

(** The positions of the messages by id; of two with one id, the later. *)
Fixpoint index_from (i : nat) (msgs : list Message) : gmap Z nat -> gmap Z nat :=
  match msgs with
  | [] => fun m => m
  | x :: msgs => fun m => index_from (S i) msgs (<[Message_ID x := i]> m)
  end.

(** [msgs[i].Tags = append(msgs[i].Tags, tag)] *)
Definition add_tag (tag : AppliedTag) (m : Message) : Message :=
  with_tags (Some (default [] (Message_Tags m) ++ [tag])) m.

Definition attach_row (index : gmap Z nat) (msgs : list Message) (row : ListTagsForMessagesRow)
    : list Message :=
  match index !! ltm_MessageID row with
  | None => msgs
  | Some i => alter (add_tag (applied_tag row)) i msgs
  end.

Definition Service_attachTags (actor : Actor) (msgs : list Message) : M (list Message) :=
  if negb (Actor_HasScope actor ScopeTagsRead) || bool_decide (msgs = []) then mret msgs
  else
    rows ← Queries_ListTagsForMessages (Message_ID <$> msgs) (Actor_UserID actor);
    mret (foldl (attach_row (index_from 0 msgs ∅)) (with_tags (Some []) <$> msgs) rows).

(** ** Sending *)

Record SendInput := mkSendInput { si_ChannelID : Z; si_Content : string; si_ReplyToID : option Z }.

Definition Send_tx (bus : bool) (actor : Actor) (now id : Z) (input : SendInput) : M Message :=
  ch ← AuthorizeChannelUnlocked (Actor_UserID actor) (si_ChannelID input) PermSendMessages;
  let '(channel, guildID, _) := ch in
  refuse_if (negb (channel_type channel =? ChannelGuildText)) EBadRequest;;
  lift (checkContent (si_Content input));;
  reply ← Service_resolveReply (si_ChannelID input) (si_ReplyToID input);
  row_or ← attempt (Queries_CreateMessage now (mkCreateMessageParams id (si_ChannelID input)
                      (Some (Actor_UserID actor)) (si_Content input) (typeFor actor) reply));
  row ← lift (match row_or with inl EForeignKey => inl ENotFound | r => r end);
  Queries_SetChannelLastMessage (si_ChannelID input) (msg_id (ar_message row));;
  Service_record now guildID (Actor_UserID actor) (msg_id (ar_message row)) AuditCreate;;
  let out := messageFromRow row in
  let out := if Actor_HasScope actor ScopeTagsRead then with_tags (Some []) out else out in
  Service_queueMessage bus "MESSAGE_CREATE" guildID out;;
  mret out.

Definition Service_Send (bus : bool) (actor : Actor) (now : Z) (input : SendInput) : M Message :=
  id ← ids_Next;
  RunInTx (Send_tx bus actor now id input).

(** ** Reading a channel *)

Record ListInput := mkListInput {
  li_ChannelID : Z; li_Before : option Z; li_After : option Z; li_Limit : Z
}.

Definition Service_ListMessages (actor : Actor) (input : ListInput) : M (list Message) :=
  AuthorizeChannelUnlocked (Actor_UserID actor) (li_ChannelID input) PermReadMessageHistory;;
  rows ← Queries_ListChannelMessages (li_ChannelID input) (page_size (li_Limit input)) (li_Before input)
           (li_After input);
  Service_attachTags actor (messageFromRow <$> rows).

(** ** Editing and deleting *)

Definition Service_loadInChannel (c messageID : Z) : M dbMessage :=
  row ← no_rows_as ENotFound (Queries_GetMessageForUpdate messageID);
  refuse_if (negb (msg_channel_id row =? c)) ENotFound;;
  mret row.

Record UpdateInput := mkUpdateInput { ui_ChannelID : Z; ui_MessageID : Z; ui_Content : string }.

Definition is_author (row : dbMessage) (u : Z) : bool := bool_decide (msg_author_id row = Some u).

Definition UpdateMessage_tx (bus : bool) (actor : Actor) (now historyID : Z) (input : UpdateInput) : M Message :=
  ch ← AuthorizeChannelUnlocked (Actor_UserID actor) (ui_ChannelID input) PermSendMessages;
  let '(_, guildID, _) := ch in
  lift (checkContent (ui_Content input));;
  row ← Service_loadInChannel (ui_ChannelID input) (ui_MessageID input);
  refuse_if (negb (is_author row (Actor_UserID actor))) EForbidden;;
  Queries_AppendMessageEditHistory now historyID (msg_id row) (msg_content row);;
  updated ← Queries_UpdateMessageContent now (msg_id row) (ui_Content input) (typeFor actor);
  Service_record now guildID (Actor_UserID actor) (msg_id (ar_message updated)) AuditEdit;;
  single ← Service_attachTags actor [messageFromRow updated];
  let out := default (messageFromRow updated) (head single) in
  Service_queueMessage bus "MESSAGE_UPDATE" guildID out;;
  mret out.

Definition Service_UpdateMessage (bus : bool) (actor : Actor) (now : Z) (input : UpdateInput) : M Message :=
  historyID ← ids_Next;
  RunInTx (UpdateMessage_tx bus actor now historyID input).

Definition moderation_diff (row : dbMessage) : auditDiff :=
  let d := auditDiff_context "channel_id" (AVInt (msg_channel_id row)) ∅ in
  match msg_author_id row with Some a => auditDiff_context "author_id" (AVInt a) d | None => d end.

Definition Service_writeModerationAudit (auditID guildID actorID : Z) (row : dbMessage) : M unit :=
  Queries_WriteAuditLogEntry auditID
    (mkAuditRow (Some guildID) actorID "message.delete" (Some (msg_id row)) (Some (moderation_diff row))).

Definition DeleteMessage_tx (bus : bool) (actor : Actor) (now auditID c messageID : Z) : M unit :=
  ch ← AuthorizeChannelUnlocked (Actor_UserID actor) c 0;
  let '(_, guildID, decision) := ch in
  row ← Service_loadInChannel c messageID;
  let isAuthor := is_author row (Actor_UserID actor) in
  refuse_if (negb isAuthor && negb (Decision_Allows decision PermManageMessages)) EForbidden;;
  Queries_SoftDeleteMessage now (msg_id row);;
  Service_record now guildID (Actor_UserID actor) (msg_id row) AuditDelete;;
  Publisher_Queue bus (channel_event "MESSAGE_DELETE" guildID c (PMessageDeleted (msg_id row) c guildID));;
  if isAuthor then mret tt
  else Service_writeModerationAudit auditID guildID (Actor_UserID actor) row.

Definition Service_DeleteMessage (bus : bool) (actor : Actor) (now c messageID : Z) : M unit :=
  auditID ← ids_Next;
  RunInTx (DeleteMessage_tx bus actor now auditID c messageID).

(** ** Earlier versions (history.go) *)

Record MessageVersion := mkMessageVersion { MV_ID : Z; MV_Content : string; MV_EditedAt : Z }.

Record MessageHistory := mkMessageHistory {
  MH_MessageID : Z; MH_ChannelID : Z; MH_AuthorID : option Z; MH_IsE2E : bool; MH_DeletedAt : option Z;
  MH_EditedAt : option Z; MH_CurrentContent : option string; MH_Versions : list MessageVersion
}.

Definition historyFromRows (row : GetMessageWithHistoryTargetRow) (versions : list dbEditHistory)
    : MessageHistory :=
  let m := ht_message row in
  mkMessageHistory (msg_id m) (msg_channel_id m) (msg_author_id m) (msg_is_e2e m) (msg_deleted_at m)
    (msg_edited_at m) (ht_current_content row)
    ((fun v => mkMessageVersion (eh_id v) (eh_content v) (eh_edited_at v)) <$> versions).

Record HistoryInput := mkHistoryInput {
  hi_ChannelID : Z; hi_MessageID : Z; hi_Before : option Z; hi_Limit : Z
}.

(** The read-only snapshot begins with a statement of its own; the deferred rollback ends it. *)
Definition pool_BeginTx : M unit := reading (fun _ => inr tt).

Definition Service_History (actor : Actor) (input : HistoryInput) : M MessageHistory :=
  ch ← AuthorizeChannelIgnoringVisibility (Actor_UserID actor) (hi_ChannelID input) 0;
  let '(_, _, decision) := ch in
  pool_BeginTx;;
  row ← no_rows_as ENotFound (Queries_GetMessageWithHistoryTarget (hi_MessageID input));
  refuse_if (negb (msg_channel_id (ht_message row) =? hi_ChannelID input)) ENotFound;;
  (if negb (is_author (ht_message row) (Actor_UserID actor))
      && negb (Decision_Allows decision PermManageMessages)
   then
     AuthorizeChannelIgnoringVisibility (Actor_UserID actor) (hi_ChannelID input) PermManageMessages;;
     throw EForbidden
   else mret tt);;
  versions ← Queries_ListMessageEditHistory (msg_id (ht_message row)) (page_size (hi_Limit input))
               (hi_Before input);
  mret (historyFromRows row versions).

(** ** The recording (audit.go) *)

Record MessageAuditEntry := mkMessageAuditEntry {
  ME_ID : Z; ME_MessageID : Z; ME_ChannelID : Z; ME_ActorID : Z; ME_Action : string;
  ME_Content : option string; ME_CreatedAt : Z
}.

Definition auditEntryFromRow (row : dbMessageAuditEntry) : MessageAuditEntry :=
  mkMessageAuditEntry (ma_id row) (ma_message_id row) (ma_channel_id row) (ma_actor_id row)
    (ma_action row) (ma_content row) (ma_created_at row).

Record GuildAuditInput := mkGuildAuditInput { gai_GuildID : Z; gai_Before : option Z; gai_Limit : Z }.

Definition Service_GuildMessageAudit (actor : Actor) (input : GuildAuditInput) : M (list MessageAuditEntry) :=
  Authorize (Actor_UserID actor) (gai_GuildID input) 0 PermViewMessageAudit;;
  rows ← Queries_ListGuildMessageAudit (gai_GuildID input) (page_size (gai_Limit input)) (gai_Before input);
  mret (auditEntryFromRow <$> rows).

(** ** What each operation did, if it returned *)

(** The tables once an action on message [id] is recorded, if the guild records at all. *)
Definition recorded (now g a id : Z) (action : string) (t t' : Tables) : Prop :=
  if default false (guild_message_audit_enabled <$> t_guilds t !! g) then
    exists rid, let p := mkRecordMessageAuditParams rid a action g id in
      match recorded_row now p t with
      | None => t' = t
      | Some row => c_recorded (t_chat t) !! rid = None /\
          t' = on_chat (fun x => set_recorded (<[rid := row]> (c_recorded x)) x) t
      end
  else t' = t.

(** [id] is taken by a live message of the channel. *)
Definition replied (t : Tables) (c : Z) (reply : option Z) : Prop :=
  match reply with
  | None => True
  | Some r => exists m, live_message t r = Some m /\ msg_id m = r /\ msg_channel_id m = c
  end.

(** The tables with a message more, the channel's last one. *)
Definition posted (m : dbMessage) (t : Tables) : Tables :=
  on_chat (fun x => set_last (<[msg_channel_id m := Z.max (msg_id m) (default (msg_id m) (c_last x !! msg_channel_id m))]> (c_last x))
    (set_messages (<[msg_id m := m]> (c_messages x)) x)) t.

Definition Send_effect (bus : bool) (actor : Actor) (now id : Z) (input : SendInput) (t : Tables)
    (out : Message) (t' : Tables) (evs : list (Event Payload)) : Prop :=
  exists ch g d, let a := Actor_UserID actor in let c := si_ChannelID input in
    let m := new_message now (mkCreateMessageParams id c (Some a) (si_Content input) (typeFor actor)
               (si_ReplyToID input)) in
    t_channels t !! c = Some ch /\ channel_guild_id ch = Some g /\ channel_type ch = ChannelGuildText /\
    granted t a g c (PermSendMessages ∪ₚ PermViewChannel) d /\
    checkContent (si_Content input) = inr tt /\ pg_text (si_Content input) = true /\
    replied t c (si_ReplyToID input) /\ messages_of t !! id = None /\ is_Some (t_users t !! a) /\
    recorded now g a id AuditCreate (posted m t) t' /\
    out = with_tags (if Actor_HasScope actor ScopeTagsRead then Some [] else None)
            (messageFromRow (authored t m)) /\
    evs = when bus [message_event "MESSAGE_CREATE" g out].

(** The tables with the message's text changed and the old text kept under [hid]. *)
Definition rewritten (now hid id : Z) (content : string) (type : Z) (m : dbMessage) (t : Tables) : Tables :=
  on_chat (fun x => set_messages (<[id := edited now content type m]> (c_messages x))
    (set_history (<[hid := mkDbEditHistory hid id (msg_content m) now]> (c_history x)) x)) t.

Definition UpdateMessage_effect (bus : bool) (actor : Actor) (now hid : Z) (input : UpdateInput) (t : Tables)
    (out : Message) (t' : Tables) (evs : list (Event Payload)) : Prop :=
  exists ch g d m tags, let a := Actor_UserID actor in let c := ui_ChannelID input in
    let id := ui_MessageID input in
    t_channels t !! c = Some ch /\ channel_guild_id ch = Some g /\
    granted t a g c (PermSendMessages ∪ₚ PermViewChannel) d /\
    checkContent (ui_Content input) = inr tt /\ pg_text (ui_Content input) = true /\
    live_message t id = Some m /\ msg_channel_id m = c /\ msg_author_id m = Some a /\
    c_history (t_chat t) !! hid = None /\
    recorded now g a id AuditEdit (rewritten now hid id (ui_Content input) (typeFor actor) m t) t' /\
    out = with_tags tags (messageFromRow (authored t (edited now (ui_Content input) (typeFor actor) m))) /\
    evs = when bus [message_event "MESSAGE_UPDATE" g out].

(** The tables with the message marked deleted. *)
Definition redacted (now id : Z) (m : dbMessage) (t : Tables) : Tables :=
  on_chat (fun x => set_messages (<[id := soft_deleted now m]> (c_messages x)) x) t.

Definition DeleteMessage_effect (bus : bool) (actor : Actor) (now aid c id : Z) (t t' : Tables)
    (evs : list (Event Payload)) : Prop :=
  exists ch g d m t1, let a := Actor_UserID actor in
    t_channels t !! c = Some ch /\ channel_guild_id ch = Some g /\
    granted t a g c (0 ∪ₚ PermViewChannel) d /\
    live_message t id = Some m /\ msg_channel_id m = c /\
    (msg_author_id m = Some a \/ Decision_Allows d PermManageMessages = true) /\
    recorded now g a id AuditDelete (redacted now id m t) t1 /\
    (if is_author m a then t' = t1
     else t_audit t !! aid = None /\
          t' = audited aid (entry g a "message.delete" (Some id) (Some (moderation_diff m))) t1) /\
    evs = when bus [channel_event "MESSAGE_DELETE" g c (PMessageDeleted id c g)].

(** ** Rules *)

Definition messages_keyed (t : Tables) : Prop := forall id m, messages_of t !! id = Some m -> msg_id m = id.

Lemma live_message_Some t id m :
  live_message t id = Some m -> messages_of t !! id = Some m /\ msg_deleted_at m = None.
Proof.
  unfold live_message. intros (m' & Hm & H)%bind_Some. destruct (msg_deleted_at m') eqn:E; [done|].
  by simplify_eq.
Qed.

Lemma wp_lift {A} (r : Err + A) (Q : A -> St -> Prop) s :
  (forall a, r = inr a -> Q a s) -> wp (lift r) Q s.
Proof. destruct r; [done|]. intros H. by apply H. Qed.

Lemma wp_record now g a id action (Q : unit -> St -> Prop) s :
  (forall fs gn cl t', recorded now g a id action (tabs s) t' ->
     Q tt (with_tabs t' (with_faults fs (with_gen gn cl s)))) ->
  wp (Service_record now g a id action) Q s.
Proof.
  intros HQ. unfold Service_record, recorded in *. wp_step. wp_step. st_simpl. rename a0 into b.
  rewrite H in HQ. change (default false (Some b)) with b in HQ. destruct b; cbn [negb].
  2: { wp_step. specialize (HQ fs (gen s) (clock s) (tabs s) eq_refl). by destruct s. }
  wp_step. wp_step. unfold Queries_RecordMessageAudit. wp_step. st_simpl.
  set (p := mkRecordMessageAuditParams id0 a action g id) in *.
  destruct (recorded_row now p (tabs s)) as [row|] eqn:Er.
  - destruct (c_recorded (t_chat (tabs s)) !! rma_ID p) eqn:Ek; [done|].
    destruct (fk_holds _ _); [|done]. simplify_eq. apply HQ. exists id0. fold p. by rewrite Er.
  - simplify_eq. apply HQ. exists id0. fold p. by rewrite Er.
Qed.

Lemma wp_resolveReply c reply (Q : option Z -> St -> Prop) s :
  messages_keyed (tabs s) ->
  (forall fs, replied (tabs s) c reply -> Q reply (with_faults fs s)) ->
  wp (Service_resolveReply c reply) Q s.
Proof.
  intros Hk HQ. destruct reply as [r|]; cbn.
  - wp_step. wp_step. wp_step. cbn beta. st_simpl. wp_step. wp_step. wp_step. bool_hyps.
    destruct (live_message_Some _ _ _ H) as [Hm _]. rewrite (Hk _ _ Hm). apply HQ. exists a.
    split_and!; [done|by apply Hk|done].
  - apply wp_ret. specialize (HQ (faults s) I). by rewrite with_faults_id in HQ.
Qed.

Lemma wp_loadInChannel c id (Q : dbMessage -> St -> Prop) s :
  messages_keyed (tabs s) ->
  (forall fs m, live_message (tabs s) id = Some m -> msg_id m = id -> msg_channel_id m = c ->
     Q m (with_faults fs s)) ->
  wp (Service_loadInChannel c id) Q s.
Proof.
  intros Hk HQ. unfold Service_loadInChannel. wp_step. wp_step. wp_step. cbn beta. st_simpl.
  wp_step. wp_step. wp_step. bool_hyps. destruct (live_message_Some _ _ _ H) as [Hm _].
  apply HQ; [done|by apply Hk|done].
Qed.

(** Attaching tags changes nothing else of the messages, and no table. *)
Lemma wp_attachTags actor m (Q : list Message -> St -> Prop) s :
  (forall fs tags, Q [with_tags tags m] (with_faults fs s)) ->
  wp (Service_attachTags actor [m]) Q s.
Proof.
  intros HQ. unfold Service_attachTags. destruct (_ || _).
  - apply wp_ret. specialize (HQ (faults s) (Message_Tags m)). rewrite with_faults_id in HQ.
    by destruct m.
  - wp_step. wp_step. wp_step. cbn beta. st_simpl.
    enough (exists tags, foldl (attach_row (index_from 0 [m] ∅)) (with_tags (Some []) <$> [m])
      (tags_for (t_chat (tabs s)) (Message_ID <$> [m]) (Actor_UserID actor)) = [with_tags tags m])
      as [tags ->] by apply HQ.
    cbn [fmap list_fmap index_from]. generalize (Some ([] : list AppliedTag)) as tags.
    induction (tags_for _ _ _) as [|row rows IH]; intros tags; [by eexists|]. cbn [foldl].
    unfold attach_row at 2. destruct (<[_ := _]> _ !! _) as [[|i]|]; [|cbn|]; apply IH.
Qed.

Lemma moderation_diff_payload row : auditDiff_payload (moderation_diff row) = Some (moderation_diff row).
Proof.
  unfold auditDiff_payload. rewrite decide_False; [done|]. unfold moderation_diff, auditDiff_context.
  destruct (msg_author_id row); apply insert_non_empty.
Qed.

Lemma on_chat_twice f h t : on_chat f (on_chat h t) = on_chat (fun x => f (h x)) t.
Proof. done. Qed.

Lemma wp_Send_tx bus actor now id input s :
  wf (tabs s) -> messages_keyed (tabs s) -> hooks s = [] ->
  wp (Send_tx bus actor now id input)
    (fun out s' => Send_effect bus actor now id input (tabs s) out (tabs s') (hooks s')) s.
Proof.
  intros Hwf Hk Hh. unfold Send_tx, Service_queueMessage. wp_step. apply wp_authorizeChannel; [done|].
  intros fs ch g d Hch Hg Hd. wp_step. wp_step. wp_step. apply wp_lift. intros [] Hcontent.
  wp_step. apply wp_resolveReply; [done|]. intros fs1 Hreply. wp_step. apply wp_attempt.
  intros row_or s1 Hm. unfold Queries_CreateMessage, writing in Hm. st_simpl.
  match type of Hm with context [next_fault ?s0] => destruct (next_fault s0) as [b s2] eqn:Ef end.
  apply next_fault_with in Ef as [fs2 ->]. destruct b; [by simplify_eq|]. st_simpl.
  cbn [cmp_ID cmp_ChannelID cmp_AuthorID cmp_Content fk_holds] in Hm.
  destruct (pg_text _) eqn:Ept; cbn [negb] in Hm; [|by simplify_eq].
  destruct (messages_of (tabs s) !! id) eqn:Eid; [by simplify_eq|].
  rewrite bool_decide_true in Hm by (by rewrite Hch).
  cbn [negb] in Hm. destruct (bool_decide (is_Some (t_users (tabs s) !! _)) && _) eqn:Eu; [|by simplify_eq].
  apply andb_true_iff in Eu as [Eu _]. bool_hyps.
  simplify_eq. wp_step. apply wp_lift. intros row [= <-]. wp_step.
  unfold Queries_SetChannelLastMessage. wp_step. cbn beta. st_simpl.
  change (t_channels (on_chat _ ?t)) with (t_channels t). rewrite bool_decide_true by (by rewrite Hch).
  wp_step. apply wp_record. intros fs3 gn cl t' Hrec. st_simpl. wp_step. wp_step. wp_step. st_simpl.
  exists ch, g, d. cbn zeta. rewrite Hh.
  split_and!; try done.
  all: unfold when; by destruct bus, (Actor_HasScope _ _).
Qed.

Lemma wp_UpdateMessage_tx bus actor now hid input s :
  wf (tabs s) -> messages_keyed (tabs s) -> hooks s = [] ->
  wp (UpdateMessage_tx bus actor now hid input)
    (fun out s' => UpdateMessage_effect bus actor now hid input (tabs s) out (tabs s') (hooks s')) s.
Proof.
  intros Hwf Hk Hh. unfold UpdateMessage_tx, Service_queueMessage. wp_step. apply wp_authorizeChannel; [done|].
  intros fs ch g d Hch Hg Hd. wp_step. apply wp_lift. intros [] Hcontent.
  wp_step. apply wp_loadInChannel; [done|]. intros fs1 m Hm Eid Ec. rewrite Eid.
  wp_step. wp_step. wp_step. unfold Queries_AppendMessageEditHistory. wp_step. st_simpl. rename H0 into Hh2.
  destruct (c_history (t_chat (tabs s)) !! hid) eqn:Ehid; [done|]. destruct (fk_holds _ _); [|done]. simplify_eq.
  wp_step. unfold Queries_UpdateMessageContent. wp_step. st_simpl. rename H0 into Hup.
  destruct (pg_text _) eqn:Ept; cbn [negb] in Hup; [|done].
  change (live_message (on_chat _ ?t)) with (live_message t) in Hup. rewrite Hm in Hup. simplify_eq.
  wp_step. apply wp_record. intros fs4 gn cl t' Hrec. st_simpl. wp_step.
  apply wp_attachTags. intros fs5 tags. wp_step. wp_step. wp_step. st_simpl. cbn [default head].
  exists ch, g, d, m, tags. cbn zeta. rewrite Hh.
  unfold is_author in H. split_and!; try done; [by bool_hyps|].
  rewrite <- Eid at 1. exact Hrec.
Qed.

Lemma wp_DeleteMessage_tx bus actor now aid c id s :
  wf (tabs s) -> messages_keyed (tabs s) -> hooks s = [] ->
  wp (DeleteMessage_tx bus actor now aid c id)
    (fun _ s' => DeleteMessage_effect bus actor now aid c id (tabs s) (tabs s') (hooks s')) s.
Proof.
  intros Hwf Hk Hh. unfold DeleteMessage_tx. wp_step. apply wp_authorizeChannel; [done|].
  intros fs ch g d Hch Hg Hd. wp_step. apply wp_loadInChannel; [done|]. intros fs1 m Hm Eid Ec.
  rewrite Eid. wp_step. wp_step. wp_step. unfold Queries_SoftDeleteMessage. wp_step. cbn beta. st_simpl.
  rewrite Hm. wp_step. apply wp_record. intros fs2 gn cl t1 Hrec. st_simpl. wp_step. wp_step. st_simpl.
  assert (msg_author_id m = Some (Actor_UserID actor) \/ Decision_Allows d PermManageMessages = true) as Hmay.
  { unfold is_author in H. apply andb_false_iff in H as [H|H]; [left|right]; apply negb_false_iff in H; [|done].
    by apply bool_decide_eq_true in H. }
  wp_step.
  - wp_step. st_simpl. exists ch, g, d, m, t1. cbn zeta. rewrite Hh. split_and!; try done. by rewrite H0.
  - unfold Service_writeModerationAudit, Queries_WriteAuditLogEntry. wp_step. st_simpl.
    destruct (t_audit t1 !! aid) eqn:Ea; [done|]. destruct (_ && _) in H1; [|done]. simplify_eq.
    assert (t_audit t1 = t_audit (tabs s)) as Eaud.
    { revert Hrec. unfold recorded. destruct (default _ _); [|by intros ->]. intros (rid & Hrec).
      destruct (recorded_row _ _ _); [by destruct Hrec as [_ ->]|by subst]. }
    exists ch, g, d, m, t1. cbn zeta. rewrite Hh, H0, <- Eaud. split_and!; try done.
    unfold audited, entry. cbn [mbind option_bind]. by rewrite moderation_diff_payload.
Qed.

Lemma quiet_record now g a id action : quiet (Service_record now g a id action).
Proof. unfold Service_record. quiet_steps. Qed.
Lemma quiet_resolveReply c reply : quiet (Service_resolveReply c reply).
Proof. unfold Service_resolveReply. quiet_steps. Qed.
Lemma quiet_attachTags actor msgs : quiet (Service_attachTags actor msgs).
Proof. unfold Service_attachTags. quiet_steps. Qed.
Lemma quiet_lift {A} (r : Err + A) : quiet (lift r).
Proof. by destruct r. Qed.
#[export] Hint Resolve quiet_record quiet_resolveReply quiet_attachTags quiet_lift : norite.

Lemma quiet_Send_tx bus actor now id input : quiet (Send_tx bus actor now id input).
Proof. unfold Send_tx, AuthorizeChannelUnlocked, Service_queueMessage. quiet_steps. Qed.
Lemma quiet_UpdateMessage_tx bus actor now hid input : quiet (UpdateMessage_tx bus actor now hid input).
Proof.
  unfold UpdateMessage_tx, AuthorizeChannelUnlocked, Service_loadInChannel, Service_queueMessage. quiet_steps.
Qed.
Lemma quiet_DeleteMessage_tx bus actor now aid c id : quiet (DeleteMessage_tx bus actor now aid c id).
Proof.
  unfold DeleteMessage_tx, AuthorizeChannelUnlocked, Service_loadInChannel, Service_writeModerationAudit. quiet_steps.
Qed.
#[export] Hint Resolve quiet_Send_tx quiet_UpdateMessage_tx quiet_DeleteMessage_tx : norite.
