(* ===== verification/AuthStore.v ===== *)
(** The tables of accounts and credentials (backend/internal/db/models.go) and the statements on them:
    users, sessions, api_tokens, two_factor, device, password_reset_tokens, email_verification and oauth
    (backend/internal/db/*.sql.go). Times are microseconds, as a timestamptz keeps them; the database's
    clock is one of its tables, and a transaction reads it once. Columns no modelled code reads are left
    out. *)
From S2P Require Import Prelude GoStd Snowflake Rows.
From S2P Require Export Tx.

(** ** Rows *)

Record User := mkUser {
  u_username : string; u_email : string; u_password : option string;
  u_verified : option Z; u_deleted : option Z
}.

Record Session := mkSession {
  ses_user : Z; ses_device : string; ses_hash : string; ses_name : option string; ses_ip : option string;
  ses_created : Z; ses_used : Z; ses_expires : Z; ses_revoked : option Z; ses_replaced : option Z;
  ses_first : Z
}.

Record ApiToken := mkApiToken {
  tok_user : Z; tok_name : string; tok_hash : string; tok_scopes : list string; tok_created : Z;
  tok_used : option Z; tok_revoked : option Z
}.

Record ExchangeCode := mkExchangeCode {
  xc_user : Z; xc_hash : string; xc_flow : string; xc_expires : Z; xc_consumed : option Z
}.

Record DeviceCode := mkDeviceCode {
  dc_hash : string; dc_code : string; dc_device : string; dc_name : string; dc_user : option Z;
  dc_denied : option Z; dc_consumed : option Z; dc_polled : option Z; dc_created : Z; dc_expires : Z
}.

Record UserTotp := mkUserTotp {
  tt_secret : string; tt_confirmed : option Z; tt_step : option Z; tt_created : Z
}.

Record RecoveryCode := mkRecoveryCode {
  rec_user : Z; rec_hash : string; rec_used : option Z; rec_created : Z
}.

(** A row of password_reset_tokens, and one of email_verification_tokens. *)
Record MailToken := mkMailToken {
  ml_user : Z; ml_hash : string; ml_sent_to : string; ml_created : Z; ml_expires : Z; ml_used : option Z
}.

(** The primary keys are the map keys; of user_totp that is the account. *)
Record Auth := mkAuth {
  a_now : Z;
  a_users : gmap Z User; a_sessions : gmap Z Session; a_tokens : gmap Z ApiToken;
  a_exchange : gmap Z ExchangeCode; a_devices : gmap Z DeviceCode; a_totp : gmap Z UserTotp;
  a_recovery : gmap Z RecoveryCode; a_resets : gmap Z MailToken; a_verify : gmap Z MailToken
}.

Definition set_now n t := mkAuth n (a_users t) (a_sessions t) (a_tokens t) (a_exchange t) (a_devices t)
  (a_totp t) (a_recovery t) (a_resets t) (a_verify t).
Definition set_users m t := mkAuth (a_now t) m (a_sessions t) (a_tokens t) (a_exchange t) (a_devices t)
  (a_totp t) (a_recovery t) (a_resets t) (a_verify t).
Definition set_sessions m t := mkAuth (a_now t) (a_users t) m (a_tokens t) (a_exchange t) (a_devices t)
  (a_totp t) (a_recovery t) (a_resets t) (a_verify t).
Definition set_tokens m t := mkAuth (a_now t) (a_users t) (a_sessions t) m (a_exchange t) (a_devices t)
  (a_totp t) (a_recovery t) (a_resets t) (a_verify t).
Definition set_exchange m t := mkAuth (a_now t) (a_users t) (a_sessions t) (a_tokens t) m (a_devices t)
  (a_totp t) (a_recovery t) (a_resets t) (a_verify t).
Definition set_devices m t := mkAuth (a_now t) (a_users t) (a_sessions t) (a_tokens t) (a_exchange t) m
  (a_totp t) (a_recovery t) (a_resets t) (a_verify t).
Definition set_totp m t := mkAuth (a_now t) (a_users t) (a_sessions t) (a_tokens t) (a_exchange t)
  (a_devices t) m (a_recovery t) (a_resets t) (a_verify t).
Definition set_recovery m t := mkAuth (a_now t) (a_users t) (a_sessions t) (a_tokens t) (a_exchange t)
  (a_devices t) (a_totp t) m (a_resets t) (a_verify t).
Definition set_resets m t := mkAuth (a_now t) (a_users t) (a_sessions t) (a_tokens t) (a_exchange t)
  (a_devices t) (a_totp t) (a_recovery t) m (a_verify t).
Definition set_verify m t := mkAuth (a_now t) (a_users t) (a_sessions t) (a_tokens t) (a_exchange t)
  (a_devices t) (a_totp t) (a_recovery t) (a_resets t) m.

(** What the service hands on: revocations for the gateway, mail for the queue. *)
Record Mail := mkMail { mail_Kind : string; mail_To : string; mail_Subject : string; mail_Body : string }.

Inductive AuthMsg := MRevocation (r : Revocation) | MMail (m : Mail).

Abbreviation AuthSt := (StOf Auth AuthMsg).
Abbreviation AuthM := (TxM Auth AuthMsg).

(** ** Rows in bulk *)

Section rows.
Context {V : Type}.
Implicit Types m : gmap Z V.

(** UPDATE … WHERE: the rows affected, and the table. *)
Definition affected (P : V -> bool) m : Z := Z.of_nat (size (filter (fun kv => P kv.2 = true) m)).
Definition update_where (P : V -> bool) (f : V -> V) m : gmap Z V :=
  (fun v => if P v then f v else v) <$> m.
Definition delete_where (P : V -> bool) m : gmap Z V := filter (fun kv => P kv.2 = false) m.

(** The row a condition on a unique column selects. *)
Definition find_row (P : V -> bool) m : option (Z * V) := head (filter (fun kv => P kv.2 = true) (map_to_list m)).
End rows.

Definition unset {A} (o : option A) : bool := bool_decide (o = None).

Lemma unset_true {A} (o : option A) : unset o = true <-> o = None.
Proof. unfold unset. by rewrite bool_decide_eq_true. Qed.

Lemma unset_false {A} (o : option A) : unset o = false <-> is_Some o.
Proof. unfold unset. rewrite bool_decide_eq_false. by rewrite not_eq_None_Some. Qed.


(** ** users.sql, password_reset_tokens.sql's SetUserPassword, email_verification.sql's MarkEmailVerified *)

(** PostgreSQL's folding of a citext column. *)
Class Citext := citext_fold : string -> string.

Section sql.
Context {citext : Citext}.

Definition citext_eq (x y : string) : bool := (citext_fold x =? citext_fold y)%string.

Definition live_user (u : User) : bool := unset (u_deleted u).

Definition GetUserByEmail (email : string) : AuthM (Z * User) :=
  reading (fun t =>
    match find_row (fun u => citext_eq (u_email u) email && live_user u) (a_users t) with
    | Some row => inr row
    | None => inl ENoRows
    end).

Definition GetUserByID (id : Z) : AuthM User :=
  reading (fun t =>
    match a_users t !! id with
    | Some u => if live_user u then inr u else inl ENoRows
    | None => inl ENoRows
    end).

Definition with_password (h : string) (u : User) : User :=
  mkUser (u_username u) (u_email u) (Some h) (u_verified u) (u_deleted u).
Definition with_verified (n : Z) (u : User) : User :=
  mkUser (u_username u) (u_email u) (u_password u) (Some n) (u_deleted u).

Definition SetUserPassword (id : Z) (hash : string) : AuthM User :=
  writing (fun t =>
    match a_users t !! id with
    | Some u =>
        if live_user u
        then inr (with_password hash u, set_users (<[id := with_password hash u]> (a_users t)) t)
        else inl ENoRows
    | None => inl ENoRows
    end).

Definition MarkEmailVerified (id : Z) (email : string) : AuthM User :=
  writing (fun t =>
    match a_users t !! id with
    | Some u =>
        if citext_eq (u_email u) email && live_user u
        then inr (with_verified (a_now t) u, set_users (<[id := with_verified (a_now t) u]> (a_users t)) t)
        else inl ENoRows
    | None => inl ENoRows
    end).

(** ** sessions.sql *)

Definition ses_live (r : Session) : bool := unset (ses_revoked r).

Definition revoke_session (n : Z) (r : Session) : Session :=
  mkSession (ses_user r) (ses_device r) (ses_hash r) (ses_name r) (ses_ip r) (ses_created r) (ses_used r)
    (ses_expires r) (Some n) (ses_replaced r) (ses_first r).

(** RotateSession's SET. *)
Definition rotate_session (n new : Z) (r : Session) : Session :=
  mkSession (ses_user r) (ses_device r) (ses_hash r) (ses_name r) (ses_ip r) (ses_created r) n
    (ses_expires r) (Some n) (Some new) (ses_first r).

(** ON DELETE SET NULL of replaced_by_id. *)
Definition forget_replacement (gone : gset Z) (r : Session) : Session :=
  match ses_replaced r with
  | Some i =>
      if decide (i ∈ gone)
      then mkSession (ses_user r) (ses_device r) (ses_hash r) (ses_name r) (ses_ip r) (ses_created r)
             (ses_used r) (ses_expires r) (ses_revoked r) None (ses_first r)
      else r
  | None => r
  end.

Definition in_family (user : Z) (device : string) (first : Z) (r : Session) : bool :=
  (ses_user r =? user) && (ses_device r =? device)%string && (ses_first r =? first).

Definition on_device (user : Z) (device : string) (r : Session) : bool :=
  (ses_user r =? user) && (ses_device r =? device)%string.

Definition CountLiveSessionsInFamily (user : Z) (device : string) (first : Z) : AuthM Z :=
  reading (fun t =>
    inr (affected (fun r => in_family user device first r && ses_live r && (a_now t <? ses_expires r))
           (a_sessions t))).

(** The primary key, the unique index on refresh_token_hash, the references to users. *)
Definition session_conflict (t : Auth) (id user : Z) (hash : string) : option Err :=
  if bool_decide (is_Some (a_sessions t !! id))
     || existsb (fun kv => (ses_hash kv.2 =? hash)%string) (map_to_list (a_sessions t)) then Some EUnique
  else if bool_decide (a_users t !! user = None) then Some EForeignKey
  else None.

Definition new_session (n user : Z) (device hash : string) (name ip : option string) (expires : Z)
    (first : option Z) : Session :=
  mkSession user device hash name ip n n expires None None (default n first).

Definition CreateSession (id user : Z) (device hash : string) (name ip : option string) (expires : Z)
    (first : option Z) : AuthM Session :=
  writing (fun t =>
    match session_conflict t id user hash with
    | Some e => inl e
    | None =>
        let r := new_session (a_now t) user device hash name ip expires first in
        inr (r, set_sessions (<[id := r]> (a_sessions t)) t)
    end).

Definition GetSessionByID (id : Z) : AuthM Session :=
  reading (fun t => match a_sessions t !! id with Some r => inr r | None => inl ENoRows end).

Definition GetSessionByRefreshTokenHash (hash : string) : AuthM (Z * Session) :=
  reading (fun t =>
    match find_row (fun r => (ses_hash r =? hash)%string) (a_sessions t) with
    | Some row => inr row
    | None => inl ENoRows
    end).

(** DISTINCT ON (device_id) … ORDER BY device_id, created_at DESC, then by last use. Ties, which the
    query leaves open, go to the larger id. *)
Definition newer (x y : Z * Session) : Prop :=
  ses_created y.2 < ses_created x.2 \/ (ses_created y.2 = ses_created x.2 /\ y.1 <= x.1).
#[export] Instance newer_dec : RelDecision newer.
Proof. unfold newer. solve_decision. Defined.
Definition used_later (x y : Z * Session) : Prop := ses_used y.2 <= ses_used x.2.
#[export] Instance used_later_dec : RelDecision used_later.
Proof. unfold used_later. solve_decision. Defined.

Fixpoint distinct_devices (seen : list string) (rows : list (Z * Session)) : list (Z * Session) :=
  match rows with
  | [] => []
  | row :: rows =>
      if decide (ses_device row.2 ∈ seen) then distinct_devices seen rows
      else row :: distinct_devices (ses_device row.2 :: seen) rows
  end.

Definition ListSessionDevicesForUser (user : Z) : AuthM (list (Z * Session)) :=
  reading (fun t =>
    inr (merge_sort used_later
          (distinct_devices [] (merge_sort newer
            (filter (fun kv => ((ses_user kv.2 =? user) && ses_live kv.2 && (a_now t <? ses_expires kv.2))%bool = true)
               (map_to_list (a_sessions t))))))).

Definition revoking (P : Session -> bool) : AuthM Z :=
  writing (fun t =>
    let P r := P r && ses_live r in
    inr (affected P (a_sessions t),
         set_sessions (update_where P (revoke_session (a_now t)) (a_sessions t)) t)).

Definition RevokeAllSessionsForUser (user : Z) : AuthM Z := revoking (fun r => ses_user r =? user).
Definition RevokeAllSessionsForUserExceptDevice (user : Z) (device : string) : AuthM Z :=
  revoking (fun r => (ses_user r =? user) && negb (ses_device r =? device)%string).
Definition RevokeSessionsForDevice (user : Z) (device : string) : AuthM Z := revoking (on_device user device).

(** UPDATE … WHERE id = $1 AND revoked_at IS NULL. *)
Definition updating_live (id : Z) (f : Z -> Session -> Session) : AuthM Session :=
  writing (fun t =>
    match a_sessions t !! id with
    | Some r =>
        if ses_live r
        then inr (f (a_now t) r, set_sessions (<[id := f (a_now t) r]> (a_sessions t)) t)
        else inl ENoRows
    | None => inl ENoRows
    end).

Definition RevokeSession (id : Z) : AuthM Session := updating_live id revoke_session.
Definition RotateSession (id replacedBy : Z) : AuthM Session :=
  updating_live id (fun n => rotate_session n replacedBy).

(** The LIMIT picks the rows; the smallest ids here. *)
Definition expired_sessions (t : Auth) (limit : nat) : gset Z :=
  list_to_set (take limit (merge_sort Z.le
    (fst <$> filter (fun kv => (ses_expires kv.2 <? a_now t) = true) (map_to_list (a_sessions t))))).

Definition delete_sessions (gone : gset Z) (m : gmap Z Session) : gmap Z Session :=
  forget_replacement gone <$> filter (fun kv => kv.1 ∉ gone) m.

Definition DeleteExpiredSessions (limit : nat) : AuthM Z :=
  writing (fun t =>
    let gone := expired_sessions t limit in
    inr (Z.of_nat (size gone), set_sessions (delete_sessions gone (a_sessions t)) t)).

(** ** api_tokens.sql *)

Definition tok_live (r : ApiToken) : bool := unset (tok_revoked r).
Definition revoke_token (n : Z) (r : ApiToken) : ApiToken :=
  mkApiToken (tok_user r) (tok_name r) (tok_hash r) (tok_scopes r) (tok_created r) (tok_used r) (Some n).
Definition touch_token (n : Z) (r : ApiToken) : ApiToken :=
  mkApiToken (tok_user r) (tok_name r) (tok_hash r) (tok_scopes r) (tok_created r) (Some n) (tok_revoked r).

Definition CreateAPIToken (id user : Z) (name hash : string) (scopes : list string) : AuthM ApiToken :=
  writing (fun t =>
    if bool_decide (is_Some (a_tokens t !! id))
       || existsb (fun kv => (tok_hash kv.2 =? hash)%string) (map_to_list (a_tokens t)) then inl EUnique
    else if bool_decide (a_users t !! user = None) then inl EForeignKey
    else
      let r := mkApiToken user name hash scopes (a_now t) None None in
      inr (r, set_tokens (<[id := r]> (a_tokens t)) t)).

Definition GetActiveAPITokenByHash (hash : string) : AuthM (Z * ApiToken) :=
  reading (fun t =>
    match find_row (fun r => (tok_hash r =? hash)%string) (a_tokens t) with
    | Some (id, r) =>
        if tok_live r && match a_users t !! tok_user r with Some u => live_user u | None => false end
        then inr (id, r) else inl ENoRows
    | None => inl ENoRows
    end).

Definition by_id_desc (x y : Z * ApiToken) : Prop := y.1 <= x.1.
#[export] Instance by_id_desc_dec : RelDecision by_id_desc.
Proof. unfold by_id_desc. solve_decision. Defined.

Definition ListAPITokensForUser (user : Z) : AuthM (list (Z * ApiToken)) :=
  reading (fun t =>
    inr (merge_sort by_id_desc
          (filter (fun kv => ((tok_user kv.2 =? user) && tok_live kv.2)%bool = true) (map_to_list (a_tokens t))))).

Definition RevokeAPIToken (id user : Z) : AuthM ApiToken :=
  writing (fun t =>
    match a_tokens t !! id with
    | Some r =>
        if (tok_user r =? user) && tok_live r
        then inr (revoke_token (a_now t) r, set_tokens (<[id := revoke_token (a_now t) r]> (a_tokens t)) t)
        else inl ENoRows
    | None => inl ENoRows
    end).

Definition RevokeAllAPITokensForUser (user : Z) : AuthM Z :=
  writing (fun t =>
    let P r := (tok_user r =? user) && tok_live r in
    inr (affected P (a_tokens t), set_tokens (update_where P (revoke_token (a_now t)) (a_tokens t)) t)).

Definition five_minutes : Z := 5 * 60 * 1000000.

Definition touch_due (n : Z) (r : ApiToken) : bool :=
  match tok_used r with None => true | Some u => u <? n - five_minutes end.

Definition TouchAPIToken (id : Z) : AuthM unit :=
  writing (fun t =>
    match a_tokens t !! id with
    | Some r =>
        inr (tt, if touch_due (a_now t) r then set_tokens (<[id := touch_token (a_now t) r]> (a_tokens t)) t else t)
    | None => inr (tt, t)
    end).

(** ** two_factor.sql *)

Definition confirm_totp (n : Z) (r : UserTotp) : UserTotp :=
  mkUserTotp (tt_secret r) (Some n) (tt_step r) (tt_created r).
Definition use_step (step : Z) (r : UserTotp) : UserTotp :=
  mkUserTotp (tt_secret r) (tt_confirmed r) (Some step) (tt_created r).
Definition use_recovery (n : Z) (r : RecoveryCode) : RecoveryCode :=
  mkRecoveryCode (rec_user r) (rec_hash r) (Some n) (rec_created r).

Definition ConfirmTOTP (user : Z) : AuthM UserTotp :=
  writing (fun t =>
    match a_totp t !! user with
    | Some r =>
        if unset (tt_confirmed r)
        then inr (confirm_totp (a_now t) r, set_totp (<[user := confirm_totp (a_now t) r]> (a_totp t)) t)
        else inl ENoRows
    | None => inl ENoRows
    end).

Definition rec_match (user : Z) (hash : string) (r : RecoveryCode) : bool :=
  (rec_user r =? user) && (rec_hash r =? hash)%string && unset (rec_used r).

Definition ConsumeRecoveryCode (user : Z) (hash : string) : AuthM RecoveryCode :=
  writing (fun t =>
    match find_row (rec_match user hash) (a_recovery t) with
    | Some (id, r) =>
        inr (use_recovery (a_now t) r, set_recovery (<[id := use_recovery (a_now t) r]> (a_recovery t)) t)
    | None => inl ENoRows
    end).

Definition CountLiveRecoveryCodes (user : Z) : AuthM Z :=
  reading (fun t => inr (affected (fun r => (rec_user r =? user) && unset (rec_used r)) (a_recovery t))).

Definition CreateRecoveryCode (id user : Z) (hash : string) : AuthM unit :=
  writing (fun t =>
    if bool_decide (is_Some (a_recovery t !! id))
       || existsb (fun kv => (rec_hash kv.2 =? hash)%string) (map_to_list (a_recovery t)) then inl EUnique
    else if bool_decide (a_users t !! user = None) then inl EForeignKey
    else inr (tt, set_recovery (<[id := mkRecoveryCode user hash None (a_now t)]> (a_recovery t)) t)).

Definition DeleteRecoveryCodesForUser (user : Z) : AuthM Z :=
  writing (fun t =>
    let P r := rec_user r =? user in
    inr (affected P (a_recovery t), set_recovery (delete_where P (a_recovery t)) t)).

Definition DeleteTOTPForUser (user : Z) : AuthM Z :=
  writing (fun t =>
    inr (if decide (is_Some (a_totp t !! user)) then 1 else 0, set_totp (delete user (a_totp t)) t)).

Definition GetTOTPForUser (user : Z) : AuthM UserTotp :=
  reading (fun t => match a_totp t !! user with Some r => inr r | None => inl ENoRows end).

Definition step_unspent (step : Z) (r : UserTotp) : bool :=
  negb (unset (tt_confirmed r)) && match tt_step r with None => true | Some s => s <? step end.

Definition MarkTOTPStepUsed (user step : Z) : AuthM Z :=
  writing (fun t =>
    match a_totp t !! user with
    | Some r =>
        if step_unspent step r then inr (1, set_totp (<[user := use_step step r]> (a_totp t)) t)
        else inr (0, t)
    | None => inr (0, t)
    end).

(** ON CONFLICT DO UPDATE keeps the last used step. *)
Definition enroll (n : Z) (secret : string) (old : option UserTotp) : UserTotp :=
  mkUserTotp secret None (r ← old; tt_step r) n.

Definition UpsertTOTPEnrollment (user : Z) (secret : string) : AuthM unit :=
  writing (fun t =>
    if bool_decide (a_users t !! user = None) then inl EForeignKey
    else inr (tt, set_totp (<[user := enroll (a_now t) secret (a_totp t !! user)]> (a_totp t)) t)).

(** ** device.sql *)

Definition dc_unexpired (n : Z) (r : DeviceCode) : bool := n <? dc_expires r.

(** Waiting for somebody's decision. *)
Definition dc_undecided (n : Z) (r : DeviceCode) : bool :=
  unset (dc_user r) && unset (dc_denied r) && unset (dc_consumed r) && dc_unexpired n r.

Definition dc_redeemable (n : Z) (r : DeviceCode) : bool :=
  negb (unset (dc_user r)) && unset (dc_denied r) && unset (dc_consumed r) && dc_unexpired n r.

Definition approve_code (user : Z) (r : DeviceCode) : DeviceCode :=
  mkDeviceCode (dc_hash r) (dc_code r) (dc_device r) (dc_name r) (Some user) (dc_denied r) (dc_consumed r)
    (dc_polled r) (dc_created r) (dc_expires r).
Definition deny_code (n : Z) (r : DeviceCode) : DeviceCode :=
  mkDeviceCode (dc_hash r) (dc_code r) (dc_device r) (dc_name r) (dc_user r) (Some n) (dc_consumed r)
    (dc_polled r) (dc_created r) (dc_expires r).
Definition consume_code (n : Z) (r : DeviceCode) : DeviceCode :=
  mkDeviceCode (dc_hash r) (dc_code r) (dc_device r) (dc_name r) (dc_user r) (dc_denied r) (Some n)
    (dc_polled r) (dc_created r) (dc_expires r).
Definition poll_code (n : Z) (r : DeviceCode) : DeviceCode :=
  mkDeviceCode (dc_hash r) (dc_code r) (dc_device r) (dc_name r) (dc_user r) (dc_denied r) (dc_consumed r)
    (Some n) (dc_created r) (dc_expires r).

(** UPDATE … WHERE id = $1 AND a condition, RETURNING the row. *)
Definition updating_code (id : Z) (P : Z -> DeviceCode -> bool) (f : Z -> DeviceCode -> DeviceCode)
    : AuthM DeviceCode :=
  writing (fun t =>
    match a_devices t !! id with
    | Some r =>
        if P (a_now t) r
        then inr (f (a_now t) r, set_devices (<[id := f (a_now t) r]> (a_devices t)) t)
        else inl ENoRows
    | None => inl ENoRows
    end).

Definition ApproveDeviceCode (id user : Z) : AuthM DeviceCode :=
  updating_code id dc_undecided (fun _ => approve_code user).
Definition DenyDeviceCode (id : Z) : AuthM DeviceCode := updating_code id dc_undecided deny_code.
Definition RevokeApprovedDeviceCode (id user : Z) : AuthM DeviceCode :=
  updating_code id (fun _ r => bool_decide (dc_user r = Some user) && unset (dc_consumed r)) consume_code.

Definition hash_is (hash : string) (r : DeviceCode) : bool := (dc_hash r =? hash)%string.

Definition ConsumeDeviceCode (hash : string) : AuthM (Z * DeviceCode) :=
  writing (fun t =>
    match find_row (fun r => hash_is hash r && dc_redeemable (a_now t) r) (a_devices t) with
    | Some (id, r) =>
        inr ((id, consume_code (a_now t) r),
             set_devices (<[id := consume_code (a_now t) r]> (a_devices t)) t)
    | None => inl ENoRows
    end).

(** The unique indexes in the order they were made. *)
Definition CreateDeviceCode (id : Z) (hash code device name : string) (expires : Z) : AuthM DeviceCode :=
  writing (fun t =>
    if bool_decide (is_Some (a_devices t !! id))
       || existsb (fun kv => hash_is hash kv.2) (map_to_list (a_devices t)) then inl EUnique
    else if existsb (fun kv => (dc_code kv.2 =? code)%string) (map_to_list (a_devices t))
    then inl EUserCodeTaken
    else
      let r := mkDeviceCode hash code device name None None None None (a_now t) expires in
      inr (r, set_devices (<[id := r]> (a_devices t)) t)).

Definition GetDeviceCodeByID (id : Z) : AuthM DeviceCode :=
  reading (fun t =>
    match a_devices t !! id with
    | Some r => if dc_undecided (a_now t) r then inr r else inl ENoRows
    | None => inl ENoRows
    end).

Definition GetDeviceCodeByUserCode (code : string) : AuthM (Z * DeviceCode) :=
  reading (fun t =>
    match find_row (fun r => (dc_code r =? code)%string && dc_undecided (a_now t) r) (a_devices t) with
    | Some row => inr row
    | None => inl ENoRows
    end).

(** The row as the poll left it, and whether the poll came too soon after the one before it. *)
Definition PollDeviceCode (hash : string) (minInterval : Z) : AuthM (DeviceCode * bool) :=
  writing (fun t =>
    let P r := hash_is hash r && unset (dc_consumed r) && dc_unexpired (a_now t) r in
    match find_row P (a_devices t) with
    | Some (id, r) =>
        let too_soon := match dc_polled r with Some p => a_now t - minInterval <? p | None => false end in
        inr ((poll_code (a_now t) r, too_soon),
             set_devices (<[id := poll_code (a_now t) r]> (a_devices t)) t)
    | None => inl ENoRows
    end).

Definition RevokeDeviceCodesForUser (user : Z) : AuthM Z :=
  writing (fun t =>
    let P r := bool_decide (dc_user r = Some user) && unset (dc_consumed r) in
    inr (affected P (a_devices t), set_devices (update_where P (consume_code (a_now t)) (a_devices t)) t)).

Definition DeleteExpiredDeviceCodes : AuthM Z :=
  writing (fun t =>
    let P r := dc_expires r <? a_now t in
    inr (affected P (a_devices t), set_devices (delete_where P (a_devices t)) t)).

(** ** password_reset_tokens.sql and email_verification.sql *)

Definition use_mail (n : Z) (r : MailToken) : MailToken :=
  mkMailToken (ml_user r) (ml_hash r) (ml_sent_to r) (ml_created r) (ml_expires r) (Some n).

Definition mail_redeemable (n : Z) (r : MailToken) : bool := unset (ml_used r) && (n <? ml_expires r).

(** The statements the two tables share, on one of them. *)
Definition consume_mail (n id : Z) (m : gmap Z MailToken) : Err + (MailToken * gmap Z MailToken) :=
  match m !! id with
  | Some r => if mail_redeemable n r then inr (use_mail n r, <[id := use_mail n r]> m) else inl ENoRows
  | None => inl ENoRows
  end.

Definition spend_mail (n user : Z) (m : gmap Z MailToken) : gmap Z MailToken :=
  update_where (fun r => (ml_user r =? user) && unset (ml_used r)) (use_mail n) m.

Definition create_mail (t : Auth) (id : Z) (r : MailToken) (m : gmap Z MailToken)
    : Err + (MailToken * gmap Z MailToken) :=
  if bool_decide (is_Some (m !! id)) || existsb (fun kv => (ml_hash kv.2 =? ml_hash r)%string) (map_to_list m)
  then inl EUnique
  else if bool_decide (a_users t !! ml_user r = None) then inl EForeignKey
  else inr (r, <[id := r]> m).

Definition lift {A B} (set : B -> Auth) (r : Err + (A * B)) : Err + (A * Auth) :=
  match r with inl e => inl e | inr (a, b) => inr (a, set b) end.

Definition ConsumePasswordResetToken (id : Z) : AuthM MailToken :=
  writing (fun t => lift (fun m => set_resets m t) (consume_mail (a_now t) id (a_resets t))).
Definition ConsumeEmailVerificationToken (id : Z) : AuthM MailToken :=
  writing (fun t => lift (fun m => set_verify m t) (consume_mail (a_now t) id (a_verify t))).

Definition InvalidateOutstandingResetTokens (user : Z) : AuthM unit :=
  writing (fun t => inr (tt, set_resets (spend_mail (a_now t) user (a_resets t)) t)).
Definition InvalidateOutstandingVerificationTokens (user : Z) : AuthM unit :=
  writing (fun t => inr (tt, set_verify (spend_mail (a_now t) user (a_verify t)) t)).

Definition CreatePasswordResetToken (id user : Z) (hash sentTo : string) (expires : Z) : AuthM MailToken :=
  writing (fun t => lift (fun m => set_resets m t)
    (create_mail t id (mkMailToken user hash sentTo (a_now t) expires None) (a_resets t))).
Definition CreateEmailVerificationToken (id user : Z) (hash sentTo : string) (expires : Z) : AuthM MailToken :=
  writing (fun t => lift (fun m => set_verify m t)
    (create_mail t id (mkMailToken user hash sentTo (a_now t) expires None) (a_verify t))).

Definition mail_by_hash (hash : string) (m : gmap Z MailToken) : Err + (Z * MailToken) :=
  match find_row (fun r => (ml_hash r =? hash)%string) m with Some row => inr row | None => inl ENoRows end.

Definition GetPasswordResetTokenByHash (hash : string) : AuthM (Z * MailToken) :=
  reading (fun t => mail_by_hash hash (a_resets t)).
Definition GetEmailVerificationTokenByHash (hash : string) : AuthM (Z * MailToken) :=
  reading (fun t => mail_by_hash hash (a_verify t)).

Definition mail_expired (n : Z) (r : MailToken) : bool := ml_expires r <? n.

Definition DeleteExpiredPasswordResetTokens : AuthM Z :=
  writing (fun t => inr (affected (mail_expired (a_now t)) (a_resets t),
                         set_resets (delete_where (mail_expired (a_now t)) (a_resets t)) t)).
Definition DeleteExpiredEmailVerificationTokens : AuthM Z :=
  writing (fun t => inr (affected (mail_expired (a_now t)) (a_verify t),
                         set_verify (delete_where (mail_expired (a_now t)) (a_verify t)) t)).

(** ** oauth.sql: exchange codes *)

Definition consume_exchange (n : Z) (r : ExchangeCode) : ExchangeCode :=
  mkExchangeCode (xc_user r) (xc_hash r) (xc_flow r) (xc_expires r) (Some n).

Definition ConsumeOAuthExchangeCode (hash : string) : AuthM ExchangeCode :=
  writing (fun t =>
    let P r := (xc_hash r =? hash)%string && unset (xc_consumed r) && (a_now t <? xc_expires r) in
    match find_row P (a_exchange t) with
    | Some (id, r) =>
        inr (consume_exchange (a_now t) r, set_exchange (<[id := consume_exchange (a_now t) r]> (a_exchange t)) t)
    | None => inl ENoRows
    end).

Definition CreateOAuthExchangeCode (id : Z) (hash : string) (user : Z) (flow : string) (expires : Z)
    : AuthM ExchangeCode :=
  writing (fun t =>
    if bool_decide (is_Some (a_exchange t !! id))
       || existsb (fun kv => (xc_hash kv.2 =? hash)%string) (map_to_list (a_exchange t)) then inl EUnique
    else if bool_decide (a_users t !! user = None) then inl EForeignKey
    else
      let r := mkExchangeCode user hash flow expires None in
      inr (r, set_exchange (<[id := r]> (a_exchange t)) t)).

Definition RevokeOAuthExchangeCodesForUser (user : Z) : AuthM Z :=
  writing (fun t =>
    let P r := (xc_user r =? user) && unset (xc_consumed r) in
    inr (affected P (a_exchange t), set_exchange (update_where P (consume_exchange (a_now t)) (a_exchange t)) t)).

Definition DeleteExpiredOAuthExchangeCodes : AuthM Z :=
  writing (fun t =>
    let P r := xc_expires r <? a_now t in
    inr (affected P (a_exchange t), set_exchange (delete_where P (a_exchange t)) t)).
End sql.
