(* ===== verification/AuthBase.v ===== *)
(** What the account services of backend/internal/auth share: the libraries they call, the clock and
    entropy a step of a request gets, the signed tokens of jwt.go, twofactorchallenge.go and
    devicetoken.go, the passwords of password.go, and the mail they send. *)
From S2P Require Import Prelude GoStd Snowflake Utf8 InviteCode Rows.
From S2P Require Export Tx Proc AuthTokens AuthStore.

(** ** Libraries *)

(** The JSON of every token the package signs: the claims of the struct that was signed, the others
    absent. Times are seconds. *)
Record Claims := mkClaims {
  cl_iss : string; cl_sub : string; cl_nbf : Z; cl_exp : Z; cl_jti : string; cl_typ : string;
  cl_sid : string; cl_did : string; cl_dn : string; cl_ip : string; cl_dvc : string; cl_uc : string
}.

(** What hotp.ValidateCustom answers: whether the code is the counter's, or that it has not the length of
    a code, or that the secret is not base32. *)
Inductive HotpAnswer := HotpValid (ok : bool) | HotpBadLength | HotpBadSecret.

(** golang-jwt/jwt, pquerna/otp, alexedwards/argon2id, crypto/aes's GCM under the derived key, and the
    Unicode tables behind strings.ToLower and strings.EqualFold. A typed code is the list of its runes. *)
Class Outside := mkOutside {
  jwt_sign : Claims -> string;
  jwt_parse : Z -> string -> option Claims;   (* HS256, our issuer, expiry required, at this second *)
  hotp_Validate : list Z -> Z -> string -> HotpAnswer;
  totp_Generate : string -> list Z -> string * string;
  argon2id_Compare : string -> string -> option bool;   (* password, stored hash *)
  argon2id_Create : string -> list Z -> string;
  aead_Seal : list Z -> string -> string;
  aead_Open : string -> option string;
  ToLower : string -> string;
  EqualFold : string -> string -> bool
}.

Definition tokenIssuer : string := "norite".

(** What the package relies on: a token it signed parses, with the claims it was signed with, from its
    not-before second until its expiry, and at no other time. *)
Class JwtLaws (out : Outside) : Prop := {
  jwt_parse_sign : forall now c, cl_iss c = tokenIssuer ->
    jwt_parse now (jwt_sign c) = if (cl_nbf c <=? now) && (now <? cl_exp c) then Some c else None
}.

(** ** Clock and entropy *)

(** What a step sees of the world outside: the service's clock, what rand.Read yields, and whether
    argon2id fails or the gate in front of it is never passed. *)
Record AuthEnv := mkAuthEnv { e_now : Z; e_reads : Reads; e_busy : bool }.

Abbreviation AuthProc := (Proc (Tab := Auth) (Msg := AuthMsg) (Env := AuthEnv)).

Definition db {A} (m : AuthM A) : AuthProc A := atom (fun _ => m).
Definition tx {A} (fn : AuthEnv -> AuthM A) : AuthProc A := atom (fun env => RunInTx (fn env)).

(** A computation that leaves the database alone. *)
Definition local {A} (f : AuthEnv -> Err + A) : AuthProc A := atom (fun env s => (f env, s)).

Definition now : AuthProc Z := local (fun env => inr (e_now env)).

(** The first read; none left is a read that does not return. *)
Definition next_read (env : AuthEnv) : option (list Z) := default None (head (e_reads env)).

Definition drawing {A} (f : option (list Z) -> Err + A) : AuthProc A := local (fun env => f (next_read env)).

Definition random (length : nat) : AuthProc string :=
  local (fun env => match randomCode length (e_reads env) with Some (r, _) => r | None => inl EBlocked end).

Definition nextID : AuthProc Z := db ids_Next.

Definition second : Z := 1000000.
Definition minute : Z := 60 * second.
Definition hour : Z := 60 * minute.

(** ** The service *)

(** [svc_events]: a publisher was given. *)
Record Service := mkService { svc_mail : bool; svc_base : string; svc_events : bool }.

(** ** Passwords *)

Definition MinPasswordLength : Z := 12.
Definition MaxPasswordLength : Z := 256.

Definition ValidatePassword (password : string) : option Err :=
  let n := RuneCountInString password in
  if n <? MinPasswordLength then Some EPasswordTooShort
  else if MaxPasswordLength <? n then Some EPasswordTooLong
  else None.

(** What a continuation of the verification page says. *)
Record DeviceContinuation := mkContinuation { dcn_code_id : Z; dcn_user_code : string; dcn_user : Z }.

(** LoginInput, but for the password; an address that is not valid is [None]. *)
Record LoginInput := mkLogin { li_device : string; li_name : string; li_ip : option string }.

Record TokenPair := mkPair { tp_access : string; tp_refresh : string; tp_expires : Z; tp_type : string }.

Section base.
Context {digest : Digest} {out : Outside}.

(** Comparing against the dummy hash takes time and changes nothing. *)
Definition VerifyPassword (stored password : string) : AuthProc unit :=
  if (stored =? "")%string then fail EPasswordNotSet
  else
    ok ← local (fun env =>
      if e_busy env then inl EHashing
      else match argon2id_Compare password stored with None => inl EHashing | Some b => inr b end);
    fail_if (negb ok) EInvalidCredentials.

Definition VerifyPasswordForMissingUser {A} (password : string) : AuthProc A := fail EInvalidCredentials.

Definition HashPassword (password : string) : AuthProc string :=
  match ValidatePassword password with
  | Some e => fail e
  | None =>
      local (fun env =>
        if e_busy env then inl EHashing
        else match next_read env with None => inl EHashing | Some salt => inr (argon2id_Create password salt) end)
  end.

(** ** Signed tokens *)

Definition AccessTokenTTL : Z := 15 * minute.
Definition tokenTypeName : string := "access".

(** jwt.NewNumericDate truncates to the second. *)
Definition numeric_date (t : Z) : Z := t / second.

Definition newJTI (read : option (list Z)) : string :=
  match generateOpaqueToken "" read with inl _ => "" | inr (raw, _) => raw end.

(** Issue: the claims of an access token. *)
Definition access_claims (env : AuthEnv) (user session : Z) : Claims :=
  mkClaims tokenIssuer (ID_String user) (numeric_date (e_now env))
    (numeric_date (e_now env + AccessTokenTTL)) (newJTI (next_read env)) tokenTypeName (ID_String session)
    "" "" "" "" "".

Definition TokenIssuer_Issue (env : AuthEnv) (user session : Z) : string * Z :=
  (jwt_sign (access_claims env user session), e_now env + AccessTokenTTL).

(** Verify and the subject and session the middleware takes from the claims: what AuthenticateAccessToken
    answers. A session claim that does not parse is session 0. *)
Definition AuthenticateAccessToken (n : Z) (raw : string) : Err + (Z * Z) :=
  match jwt_parse (numeric_date n) raw with
  | None => inl EInvalidToken
  | Some c =>
      if negb (cl_typ c =? tokenTypeName)%string then inl EInvalidToken
      else match Parse (cl_sub c) with
           | None => inl EInvalidToken
           | Some user => inr (user, default 0 (Parse (cl_sid c)))
           end
  end.

Definition issuePair (user session : Z) (refresh : string) : AuthProc TokenPair :=
  local (fun env =>
    let '(access, expires) := TokenIssuer_Issue env user session in
    inr (mkPair access refresh expires "Bearer")).

(** ** Two-factor challenges *)

Definition twoFactorTokenType : string := "two_factor".
Definition twoFactorChallengeTTL : Z := 5 * minute.
Definition MaxDeviceIDLength : Z := 128.

Definition normalizeDeviceID (raw : string) : Err + string :=
  let id := TrimSpace raw in
  if (id =? "")%string then inl EInvalidCredentials
  else if MaxDeviceIDLength <? Z.of_nat (String.length id) then inl EInvalidCredentials
  else inr id.

Definition challenge_claims (env : AuthEnv) (user : Z) (l : LoginInput) : Claims :=
  mkClaims tokenIssuer (FormatInt user) (numeric_date (e_now env))
    (numeric_date (e_now env + twoFactorChallengeTTL)) (newJTI (next_read env)) twoFactorTokenType ""
    (li_device l) (li_name l) (default "" (li_ip l)) "" "".

(** The token and its expiry, of which twoFactorRequired makes its error. *)
Definition issueTwoFactorChallenge (user : Z) (l : LoginInput) : AuthProc (string * Z) :=
  local (fun env => inr (jwt_sign (challenge_claims env user l), e_now env + twoFactorChallengeTTL)).

Definition parseTwoFactorChallenge (n : Z) (raw : string) : Err + (Z * LoginInput) :=
  match jwt_parse (numeric_date n) raw with
  | None => inl ETwoFactorChallenge
  | Some c =>
      if negb (cl_typ c =? twoFactorTokenType)%string then inl ETwoFactorChallenge
      else match ParseInt (cl_sub c) with
           | None => inl ETwoFactorChallenge
           | Some user =>
               if user <=? 0 then inl ETwoFactorChallenge
               else match normalizeDeviceID (cl_did c) with
                    | inl _ => inl ETwoFactorChallenge
                    | inr device =>
                        inr (user, mkLogin device (cl_dn c) (if (cl_ip c =? "")%string then None else Some (cl_ip c)))
                    end
           end
  end.

(** ** The verification page's continuations *)

Definition deviceEntryTokenType : string := "device_entry".
Definition deviceFactorTokenType : string := "device_factor".
Definition deviceApprovalTokenType : string := "device_approval".
Definition deviceTokenTTL : Z := 10 * minute.

Definition device_claims (env : AuthEnv) (typ : string) (codeID : Z) (userCode : string) (user : Z) : Claims :=
  mkClaims tokenIssuer (if user =? 0 then "" else FormatInt user) (numeric_date (e_now env))
    (numeric_date (e_now env + deviceTokenTTL)) (newJTI (next_read env)) typ "" "" "" ""
    (FormatInt codeID) userCode.

Definition signDeviceToken (typ : string) (codeID : Z) (userCode : string) (user : Z) : AuthProc string :=
  local (fun env => inr (jwt_sign (device_claims env typ codeID userCode user))).

Definition issueDeviceEntryToken (codeID : Z) (userCode : string) : AuthProc string :=
  signDeviceToken deviceEntryTokenType codeID userCode 0.
Definition issueDeviceFactorToken (codeID : Z) (userCode : string) (user : Z) : AuthProc string :=
  signDeviceToken deviceFactorTokenType codeID userCode user.

Definition deviceTokenNamesAnAccount (typ : string) : bool :=
  (typ =? deviceApprovalTokenType)%string || (typ =? deviceFactorTokenType)%string.

Definition parseDeviceToken (n : Z) (raw want : string) : Err + DeviceContinuation :=
  match jwt_parse (numeric_date n) raw with
  | None => inl EDeviceContinuation
  | Some c =>
      if negb (cl_typ c =? want)%string then inl EDeviceContinuation
      else match ParseInt (cl_dvc c) with
           | None => inl EDeviceContinuation
           | Some codeID =>
               if codeID =? 0 then inl EDeviceContinuation
               else match ParseUserCode (runes (cl_uc c)) with
                    | None => inl EDeviceContinuation
                    | Some _ =>
                        if deviceTokenNamesAnAccount want then
                          match ParseInt (cl_sub c) with
                          | None => inl EDeviceContinuation
                          | Some user =>
                              if user =? 0 then inl EDeviceContinuation
                              else inr (mkContinuation codeID (cl_uc c) user)
                          end
                        else inr (mkContinuation codeID (cl_uc c) 0)
                    end
           end
  end.

(** ** Sealed secrets *)

Definition sealTOTPSecret (secret : string) : AuthProc string :=
  drawing (fun read => match read with None => inl ERandom | Some nonce => inr (aead_Seal nonce secret) end).

Definition openTOTPSecret (sealed : string) : Err + string :=
  match aead_Open sealed with None => inl ESealedSecretInvalid | Some s => inr s end.
End base.
