(* ===== verification/AuthSessions.v ===== *)
(** Refresh sessions: backend/internal/auth/service.go (startSession, writeSession, Refresh, Logout),
    sessions.go and revoke.go. A session is a row of a device's family; rotation replaces it. And the second
    factor: twofactor.go. *)
From S2P Require Import Prelude GoStd Snowflake Rows InviteCode.
From S2P Require Export AuthBase.

(** ** Proofs of the second factor (twofactor.go) *)

Record factorProof := mkFactorProof { fp_userID : Z; fp_proved : bool }.

Definition factorProof_authorizes (p : factorProof) (userID : Z) : bool :=
  fp_proved p && negb (fp_userID p =? 0) && (fp_userID p =? userID).

(** ** Revocation *)

(** RevocationScope: the device spared, the empty string for none. *)
Record RevocationResult := mkRevocationResult {
  rr_Sessions : Z; rr_APITokens : Z; rr_ExchangeCodes : Z; rr_DeviceCodes : Z
}.

Definition RevocationResult_Total (r : RevocationResult) : Z :=
  rr_Sessions r + rr_APITokens r + rr_ExchangeCodes r + rr_DeviceCodes r.

(** ** Sessions *)

Definition RefreshTokenTTL : Z := 30 * 24 * hour.

(** A listed device. *)
Record SessionDevice := mkSessionDevice {
  sd_ID : Z; sd_Name : string; sd_Address : option string; sd_FirstSeen : Z; sd_LastUsed : Z;
  sd_ExpiresAt : Z; sd_Current : bool
}.

Record SignIn := mkSignIn { si_Device : string; si_Since : Z }.
Definition no_SignIn : SignIn := mkSignIn "" 0.

Definition optionalString (s : string) : option string :=
  if (TrimSpace s =? "")%string then None else Some s.

Section sessions.
Context {digest : Digest} {citext : Citext} {out : Outside} (svc : Service).

Definition endConnections (r : Revocation) : AuthM unit :=
  if negb (svc_events svc) then mret tt
  else
    before ← (if Revocation_Before r =? 0 then ids_Next else mret (Revocation_Before r));
    AfterCommit (MRevocation (mkRevocation (Revocation_UserID r) before (Revocation_Device r)
                               (Revocation_ExceptDevice r))).

(** [keep] is the scope's KeepDeviceID. *)
Definition revokeEverything (userID : Z) (keep : string) : AuthM RevocationResult :=
  sessions ← (if (keep =? "")%string then RevokeAllSessionsForUser userID
              else RevokeAllSessionsForUserExceptDevice userID keep);
  tokens ← RevokeAllAPITokensForUser userID;
  exchange ← RevokeOAuthExchangeCodesForUser userID;
  devices ← RevokeDeviceCodesForUser userID;
  endConnections (mkRevocation userID 0 "" keep);;
  mret (mkRevocationResult sessions tokens exchange devices).

Definition writeSession (env : AuthEnv) (sessionID userID : Z) (deviceID deviceName : string)
    (ip : option string) (hash : string) : AuthM unit :=
  superseded ← RevokeSessionsForDevice userID deviceID;
  (if 0 <? superseded then endConnections (mkRevocation userID sessionID deviceID "") else mret tt);;
  CreateSession sessionID userID deviceID hash (optionalString deviceName) ip
    (e_now env + RefreshTokenTTL) None;;
  mret tt.

Definition startSession (userID : Z) (deviceID deviceName : string) (ip : option string)
    (proof : factorProof) : AuthProc TokenPair :=
  fail_if (negb (factorProof_authorizes proof userID)) ETwoFactorRequired;;
  token ← drawing GenerateRefreshToken;
  sessionID ← nextID;
  tx (fun env => writeSession env sessionID userID deviceID deviceName ip token.2);;
  issuePair userID sessionID token.1.

Definition Refresh (rawToken : string) : AuthProc TokenPair :=
  match ParseRefreshToken rawToken with
  | None => fail EInvalidRefreshToken
  | Some hash =>
      row ← db (no_rows_as EInvalidRefreshToken (GetSessionByRefreshTokenHash hash));
      let '(id, session) := row in
      if negb (unset (ses_revoked session)) then
        if unset (ses_replaced session) then fail EInvalidRefreshToken
        else
          tx (fun _ =>
            RevokeSessionsForDevice (ses_user session) (ses_device session);;
            endConnections (mkRevocation (ses_user session) 0 (ses_device session) ""));;
          fail ESessionReuse
      else
        n ← now;
        fail_if (ses_expires session <=? n) EInvalidRefreshToken;;
        token ← drawing GenerateRefreshToken;
        newID ← nextID;
        tx (fun env =>
          CreateSession newID (ses_user session) (ses_device session) token.2 (ses_name session)
            (ses_ip session) (e_now env + RefreshTokenTTL) (Some (ses_first session));;
          no_rows_as ESessionReuse (RotateSession id newID);;
          mret tt);;
        issuePair (ses_user session) newID token.1
  end.

Definition Logout (rawToken : string) : AuthProc unit :=
  match ParseRefreshToken rawToken with
  | None => mret tt
  | Some hash =>
      found ← try (db (GetSessionByRefreshTokenHash hash));
      match found with
      | inl ENoRows => mret tt
      | inl e => fail e
      | inr (id, session) =>
          if negb (unset (ses_revoked session)) then mret tt
          else
            tx (fun _ =>
              revoked ← attempt (RevokeSession id);
              match revoked with
              | inl ENoRows | inr _ =>
                  endConnections (mkRevocation (ses_user session) 0 (ses_device session) "")
              | inl e => throw e
              end)
      end
  end.

Definition currentDeviceID (userID sessionID : Z) : AuthProc string :=
  if sessionID =? 0 then mret ""
  else
    found ← try (db (GetSessionByID sessionID));
    match found with
    | inl ENoRows => mret ""
    | inl e => fail e
    | inr session => mret (if negb (ses_user session =? userID) then "" else ses_device session)
    end.

Definition session_device (current : string) (row : Z * Session) : SessionDevice :=
  mkSessionDevice row.1 (default "" (ses_name row.2)) (ses_ip row.2) (ses_first row.2) (ses_used row.2)
    (ses_expires row.2) (ses_device row.2 =? current)%string.

Definition ListSessionDevices (userID currentSessionID : Z) : AuthProc (list SessionDevice) :=
  rows ← db (ListSessionDevicesForUser userID);
  current ← currentDeviceID userID currentSessionID;
  mret (map (session_device current) rows).

Definition RevokeSessionDevice (userID sessionID : Z) : AuthProc unit :=
  session ← db (no_rows_as ENotFound (GetSessionByID sessionID));
  fail_if (negb (ses_user session =? userID)) ENotFound;;
  tx (fun _ =>
    RevokeSessionsForDevice userID (ses_device session);;
    endConnections (mkRevocation userID 0 (ses_device session) "")).

Definition RevokeOtherSessions (userID currentSessionID : Z) : AuthProc RevocationResult :=
  current ← currentDeviceID userID currentSessionID;
  tx (fun _ => revokeEverything userID current).

Definition SignInOf (userID sessionID : Z) : AuthProc SignIn :=
  if sessionID =? 0 then mret no_SignIn
  else
    found ← try (db (GetSessionByID sessionID));
    match found with
    | inl ENoRows => mret no_SignIn
    | inl e => fail e
    | inr session =>
        mret (if negb (ses_user session =? userID) then no_SignIn
              else mkSignIn (ses_device session) (ses_first session))
    end.

Definition RequireLiveSignIn (userID : Z) (signIn : SignIn) : AuthProc unit :=
  fail_if (si_Device signIn =? "")%string ESessionSignedOut;;
  live ← db (CountLiveSessionsInFamily userID (si_Device signIn) (si_Since signIn));
  fail_if (live =? 0) ESessionSignedOut.

Definition requireLiveDevice (userID sessionID : Z) : AuthProc unit :=
  signIn ← SignInOf userID sessionID;
  RequireLiveSignIn userID signIn.
End sessions.

(** ** The second factor (twofactor.go) *)

Definition recoveryCodeLength : nat := 10.
Definition recoveryCodeCount : nat := 10.
Definition totpPeriod : Z := 30.
Definition totpSkew : Z := 1.

Section twofactor.
Context {digest : Digest} {citext : Citext} {out : Outside} (svc : Service).

Definition factorSatisfied (userID : Z) : AuthProc factorProof :=
  found ← try (db (GetTOTPForUser userID));
  match found with
  | inl ENoRows => mret (mkFactorProof userID true)
  | inl e => fail e
  | inr enrollment =>
      if unset (tt_confirmed enrollment) then mret (mkFactorProof userID true) else fail ETwoFactorRequired
  end.

Definition hasConfirmedFactor (userID : Z) : AuthProc bool :=
  satisfied ← try (factorSatisfied userID);
  match satisfied with
  | inl ETwoFactorRequired => mret true
  | inl e => fail e
  | inr _ => mret false
  end.

(** The loop over the window's steps; the step a code belongs to, if any. *)
Fixpoint match_steps (secret : string) (code : list Z) (steps : list Z) : Err + option Z :=
  match steps with
  | [] => inr None
  | step :: steps =>
      match hotp_Validate code step secret with
      | HotpBadLength => inr None
      | HotpBadSecret => inl EBadSecret
      | HotpValid true => inr (Some step)
      | HotpValid false => match_steps secret code steps
      end
  end.

Definition matchTOTPStep (secret : string) (code : list Z) (n : Z) : Err + option Z :=
  match_steps secret code ((fun offset => n / second / totpPeriod + offset) <$> seqZ (- totpSkew) (2 * totpSkew + 1)).

Definition proveRecoveryCode (userID : Z) (raw : list Z) : AuthProc factorProof :=
  match normalizeTypedCode raw recoveryCodeLength with
  | None => fail EInvalidFactorCode
  | Some normalized =>
      db (no_rows_as EInvalidFactorCode (ConsumeRecoveryCode userID (HashToken normalized)));;
      mret (mkFactorProof userID true)
  end.

Definition proveFactor (userID : Z) (code : list Z) : AuthProc factorProof :=
  enrollment ← db (no_rows_as EInvalidFactorCode (GetTOTPForUser userID));
  fail_if (unset (tt_confirmed enrollment)) EInvalidFactorCode;;
  secret ← pure (openTOTPSecret (tt_secret enrollment));
  n ← now;
  matched ← pure (matchTOTPStep secret code n);
  match matched with
  | Some step =>
      spent ← db (MarkTOTPStepUsed userID step);
      fail_if (spent =? 0) EInvalidFactorCode;;
      mret (mkFactorProof userID true)
  | None => proveRecoveryCode userID code
  end.

(** The secret and its URI. *)
Definition BeginTOTPEnrollment (userID : Z) (accountName : string) : AuthProc (string * string) :=
  confirmed ← hasConfirmedFactor userID;
  fail_if confirmed ETwoFactorAlreadyEnabled;;
  key ← drawing (fun read => match read with None => inl ERandom | Some buf => inr (totp_Generate accountName buf) end);
  sealed ← sealTOTPSecret key.1;
  db (UpsertTOTPEnrollment userID sealed);;
  mret key.

Fixpoint generateRecoveryCodes (count : nat) : AuthProc (list (string * string)) :=
  match count with
  | O => mret []
  | S count =>
      code ← random recoveryCodeLength;
      rest ← generateRecoveryCodes count;
      mret ((code, HashToken code) :: rest)
  end.

Definition writeRecoveryCodes (userID : Z) (hashes : list string) : AuthM unit :=
  for_each hashes (fun hash => id ← ids_Next; CreateRecoveryCode id userID hash).

Definition ConfirmTOTPEnrollment (userID : Z) (code : list Z) : AuthProc (list string) :=
  enrollment ← db (no_rows_as ENoTwoFactorEnrollment (GetTOTPForUser userID));
  fail_if (negb (unset (tt_confirmed enrollment))) ETwoFactorAlreadyEnabled;;
  secret ← pure (openTOTPSecret (tt_secret enrollment));
  n ← now;
  matched ← pure (matchTOTPStep secret code n);
  match matched with
  | None => fail EInvalidFactorCode
  | Some step =>
      codes ← generateRecoveryCodes recoveryCodeCount;
      tx (fun _ =>
        no_rows_as ETwoFactorAlreadyEnabled (ConfirmTOTP userID);;
        MarkTOTPStepUsed userID step;;
        writeRecoveryCodes userID (map snd codes));;
      mret (map fst codes)
  end.

Definition DisableTwoFactor (userID currentSessionID : Z) (code : list Z) : AuthProc RevocationResult :=
  proveFactor userID code;;
  current ← currentDeviceID userID currentSessionID;
  tx (fun _ =>
    DeleteTOTPForUser userID;;
    DeleteRecoveryCodesForUser userID;;
    revokeEverything svc userID current).

Definition RegenerateRecoveryCodes (userID : Z) (code : list Z) : AuthProc (list string) :=
  proveFactor userID code;;
  codes ← generateRecoveryCodes recoveryCodeCount;
  tx (fun _ => DeleteRecoveryCodesForUser userID;; writeRecoveryCodes userID (map snd codes));;
  mret (map fst codes).

Definition RemainingRecoveryCodes (userID : Z) : AuthProc Z := db (CountLiveRecoveryCodes userID).

(** devicetoken.go: the approval token takes the proof. *)
Definition issueDeviceApprovalToken (codeID : Z) (userCode : string) (userID : Z) (proof : factorProof)
    : AuthProc string :=
  if negb (factorProof_authorizes proof userID) then fail ETwoFactorRequired
  else signDeviceToken deviceApprovalTokenType codeID userCode userID.
End twofactor.
