(* ===== verification/AuthLogin.v ===== *)
(** Proving who somebody is: backend/internal/auth/service.go (Login, CompleteTwoFactorLogin and
    verifyCredentials), verification.go, passwordreset.go, and oauthservice.go's exchange codes. *)
From S2P Require Import Prelude GoStd Snowflake Utf8 Rows.
From S2P Require Export AuthSessions.

(** ** Mail *)

(** url.QueryEscape *)
Definition unreserved (b : Z) : bool :=
  between 65 90 b || between 97 122 b || between 48 57 b || bool_decide (b ∈ [45; 46; 95; 126]).
Definition upper_hex (d : Z) : ascii := default "0"%char (String.get (Z.to_nat d) "0123456789ABCDEF").
Definition escape_byte (b : Z) : string :=
  if unreserved b then string_of [b]
  else if b =? 32 then "+"
  else String "%" (String (upper_hex (b / 16)) (String (upper_hex (b mod 16)) "")).
Definition QueryEscape (s : string) : string := String.concat "" (map escape_byte (bytes_of s)).

(** strings.TrimSuffix(s, "/") *)
Definition trim_slash (s : string) : string :=
  match rev (String.list_ascii_of_string s) with
  | "/"%char :: rest => String.string_of_list_ascii (rev rest)
  | _ => s
  end.

Definition nl : string := string_of [10].

Definition resetLink (base raw : string) : string := (trim_slash base ++ "/reset?token=" ++ QueryEscape raw)%string.
Definition verificationLink (base raw : string) : string := (trim_slash base ++ "/verify?token=" ++ QueryEscape raw)%string.

Definition em_dash : string := string_of [226; 128; 148].

Definition passwordResetMessage (base : string) (user : User) (raw : string) : Mail :=
  mkMail "password_reset" (u_email user) "Reset your Norite password"
    ("Someone asked to reset the password for your Norite account." ++ nl ++ nl ++
     "Open this link to choose a new one:" ++ nl ++ nl ++
     "    " ++ resetLink base raw ++ nl ++ nl ++
     "The link works once and expires in one hour." ++ nl ++ nl ++
     "Resetting your password signs you out everywhere and revokes any API tokens on the account, " ++
     "so bots and scripts will need new ones." ++ nl ++ nl ++
     "If you did not ask for this, you can ignore this message " ++ em_dash ++ " nothing has changed yet." ++ nl)%string.

Definition verificationMessage (base : string) (user : User) (raw : string) : Mail :=
  mkMail "email_verification" (u_email user) "Confirm your Norite address"
    ("Someone created a Norite account with this address." ++ nl ++ nl ++
     "Open this link to confirm it and finish signing up:" ++ nl ++ nl ++
     "    " ++ verificationLink base raw ++ nl ++ nl ++
     "The link works once and expires in 24 hours." ++ nl ++ nl ++
     "Until it is confirmed, the account cannot be signed in to." ++ nl ++ nl ++
     "If this was not you, you can ignore this message " ++ em_dash ++
     " the account stays unusable and no one " ++ "can sign in to it." ++ nl)%string.

Definition reminder (m : Mail) : Mail :=
  mkMail (mail_Kind m) (mail_To m) (mail_Subject m)
    ("You tried to sign in, but this address has not been confirmed yet." ++ nl ++ nl ++ mail_Body m)%string.

(** Enqueue refuses a full or stopped queue. *)
Definition Enqueue (m : Mail) : AuthProc unit :=
  db (fun s =>
    let '(full, s) := next_fault s in
    if full then (inl EMailNotQueued, s) else (inr tt, with_published (published s ++ [MMail m]) s)).

Definition EmailVerificationTTL : Z := 24 * hour.
Definition PasswordResetTTL : Z := hour.
Definition OAuthExchangeCodeTTL : Z := 2 * minute.

(** What a sign-in answers: the pair, or the challenge of an account that owes its second factor. *)
Inductive LoginAnswer := SignedIn (pair : TokenPair) | FactorOwed (challenge : string) (expires : Z).

Section login.
Context {digest : Digest} {citext : Citext} {out : Outside} (svc : Service).

Definition normalize_email (raw : string) : string := TrimSpace (ToLower raw).

Definition VerificationRequired : bool := svc_mail svc.

(** ** Verification *)

Definition buildVerification (env : AuthEnv) (userID : Z) (user : User) : AuthM Mail :=
  match GenerateEmailVerificationToken (next_read env) with
  | inl e => throw e
  | inr (raw, hash) =>
      id ← ids_Next;
      InvalidateOutstandingVerificationTokens userID;;
      CreateEmailVerificationToken id userID hash (u_email user) (e_now env + EmailVerificationTTL);;
      mret (verificationMessage (svc_base svc) user raw)
  end.

Definition remindToVerify (userID : Z) (user : User) : AuthProc unit :=
  if negb VerificationRequired then mret tt
  else
    built ← try (tx (fun env => buildVerification env userID user));
    match built with
    | inl _ => mret tt
    | inr msg => try (Enqueue (reminder msg));; mret tt
    end.

(** The padding to the enumeration floor takes time and changes nothing. *)
Definition RequestEmailVerification (rawEmail : string) : AuthProc unit :=
  if negb VerificationRequired then mret tt
  else
    found ← try (db (GetUserByEmail (normalize_email rawEmail)));
    match found with
    | inl ENoRows => mret tt
    | inl e => fail e
    | inr (userID, user) =>
        if negb (unset (u_verified user)) then mret tt
        else
          msg ← tx (fun env => buildVerification env userID user);
          try (Enqueue msg);; mret tt
    end.

Definition ConfirmEmailVerification (rawToken : string) : AuthProc unit :=
  match ParseEmailVerificationToken rawToken with
  | None => fail EInvalidVerificationToken
  | Some hash =>
      token ← db (no_rows_as EInvalidVerificationToken (GetEmailVerificationTokenByHash hash));
      tx (fun _ =>
        spent ← no_rows_as EInvalidVerificationToken (ConsumeEmailVerificationToken token.1);
        no_rows_as EInvalidVerificationToken (MarkEmailVerified (ml_user spent) (ml_sent_to spent));;
        mret tt)
  end.

(** ** Credentials *)

Definition verifyCredentials (rawEmail password : string) : AuthProc (Z * User) :=
  found ← try (db (GetUserByEmail (normalize_email rawEmail)));
  match found with
  | inl ENoRows => VerifyPasswordForMissingUser password
  | inl e => fail e
  | inr (userID, user) =>
      verified ← try (VerifyPassword (default "" (u_password user)) password);
      match verified with
      | inl EInvalidCredentials | inl EPasswordNotSet => fail EInvalidCredentials
      | inl e => fail e
      | inr _ =>
          if unset (u_verified user) then remindToVerify userID user;; fail EInvalidCredentials
          else mret (userID, user)
      end
  end.

(** The end of every sign-in: the session, or the challenge of an account that owes a factor. *)
Definition sign_in (userID : Z) (l : LoginInput) : AuthProc LoginAnswer :=
  satisfied ← try (factorSatisfied userID);
  match satisfied with
  | inl ETwoFactorRequired =>
      challenge ← issueTwoFactorChallenge userID l;
      mret (FactorOwed challenge.1 challenge.2)
  | inl e => fail e
  | inr proof =>
      pair ← startSession svc userID (li_device l) (li_name l) (li_ip l) proof;
      mret (SignedIn pair)
  end.

Definition Login (email password : string) (l : LoginInput) : AuthProc LoginAnswer :=
  deviceID ← pure (normalizeDeviceID (li_device l));
  user ← verifyCredentials email password;
  sign_in user.1 (mkLogin deviceID (li_name l) (li_ip l)).

Definition CompleteTwoFactorLogin (rawChallenge : string) (code : list Z) : AuthProc TokenPair :=
  n ← now;
  challenge ← pure (parseTwoFactorChallenge n rawChallenge);
  let '(userID, l) := challenge in
  proof ← proveFactor userID code;
  startSession svc userID (li_device l) (li_name l) (li_ip l) proof.

(** ** OAuth exchange codes *)

Definition issueOAuthExchangeCode (userID : Z) (challenge : string) : AuthProc string :=
  token ← drawing GenerateOAuthExchangeCode;
  id ← nextID;
  n ← now;
  db (CreateOAuthExchangeCode id token.2 userID challenge (n + OAuthExchangeCodeTTL));;
  mret token.1.

Definition ExchangeOAuthCode (rawCode rawVerifier : string) (l : LoginInput) : AuthProc LoginAnswer :=
  deviceID ← pure (normalizeDeviceID (li_device l));
  match ParseOAuthExchangeCode rawCode, ParseOAuthFlowVerifier rawVerifier with
  | Some hash, Some presented =>
      code ← db (no_rows_as EOAuthExchangeCode (ConsumeOAuthExchangeCode hash));
      fail_if (negb (presented =? xc_flow code)%string) EOAuthExchangeCode;;
      sign_in (xc_user code) (mkLogin deviceID (li_name l) (li_ip l))
  | _, _ => fail EOAuthExchangeCode
  end.

(** ** Password reset *)

Definition RequestPasswordReset (rawEmail : string) : AuthProc unit :=
  if negb (svc_mail svc) then fail EResetUnavailable
  else
    found ← try (db (GetUserByEmail (normalize_email rawEmail)));
    match found with
    | inl ENoRows => mret tt
    | inl e => fail e
    | inr (userID, user) =>
        if unset (u_password user) then mret tt
        else
          token ← drawing GeneratePasswordResetToken;
          id ← nextID;
          tx (fun env =>
            InvalidateOutstandingResetTokens userID;;
            CreatePasswordResetToken id userID token.2 (u_email user) (e_now env + PasswordResetTTL));;
          try (Enqueue (passwordResetMessage (svc_base svc) user token.1));;
          mret tt
    end.

Definition ConfirmPasswordReset (rawToken newPassword : string) : AuthProc unit :=
  match ParsePasswordResetToken rawToken with
  | None => fail EInvalidResetToken
  | Some hash =>
      token ← db (no_rows_as EInvalidResetToken (GetPasswordResetTokenByHash hash));
      let '(id, token) := token in
      user ← db (no_rows_as EInvalidResetToken (GetUserByID (ml_user token)));
      fail_if (negb (EqualFold (ml_sent_to token) (u_email user))) EInvalidResetToken;;
      newHash ← HashPassword newPassword;
      tx (fun _ =>
        no_rows_as EInvalidResetToken (ConsumePasswordResetToken id);;
        SetUserPassword (ml_user token) newHash;;
        revokeEverything svc (ml_user token) "";;
        mret tt)
  end.
End login.
