(* ===== verification/DeviceFlow.v ===== *)
(** The device-code flow: backend/internal/auth/device.go, and the steps of the verification page
    (devicepage.go) that decide what a browser may do next. Scoped API tokens (apitokens.go, the scopes of
    model.go), and the sweep of expired rows (sweeper.go). *)
From S2P Require Import Prelude GoStd Snowflake Utf8 InviteCode Rows Chat.
From S2P Require Export AuthLogin AuthSessions.

Definition DeviceCodeTTL : Z := 20 * minute.
Definition DevicePollInterval : Z := 5 * second.
Definition maxDeviceNameLength : nat := 64.

(** ** Foreign text on a page *)

(** unicode.Cc as pieces of a string: the C0 controls, DEL and the C1 controls. *)
Definition is_control (piece : list Z) : bool :=
  match piece with
  | [b] => (b <? 32) || (b =? 127)
  | [194; b] => between 128 159 b
  | _ => false
  end.

(** U+202A to U+202E and U+2066 to U+2069. *)
Definition isBidiControl (piece : list Z) : bool :=
  match piece with
  | [226; 128; b] => between 170 174 b
  | [226; 129; b] => between 166 169 b
  | _ => false
  end.

Definition replacement : list Z := [239; 191; 189].

(** WriteRune of a rune [range] decoded: a byte that is no encoding comes back as the replacement rune. *)
Definition rewrite_piece (piece : list Z) : list Z :=
  match rune_size piece with Some _ => piece | None => replacement end.

Fixpoint sanitize_loop (removed : bool) (ps : list (list Z)) : list Z :=
  match ps with
  | [] => []
  | p :: ps =>
      if is_control p || isBidiControl p then
        if removed then sanitize_loop true ps else replacement ++ sanitize_loop true ps
      else rewrite_piece p ++ sanitize_loop false ps
  end.

Definition sanitizeForPage (s : string) (maxRunes : nat) : string :=
  let clean := TrimSpace (string_of (sanitize_loop false (pieces 0 [] (bytes_of (TrimSpace s))))) in
  string_of (concat (take maxRunes (pieces 0 [] (bytes_of clean)))).

Definition sanitizeDeviceName (name : string) : string := sanitizeForPage name maxDeviceNameLength.

(** ** The flow *)

(** An issued authorization, as the client sees it. *)
Record DeviceAuth := mkDeviceAuth {
  da_DeviceCode : string; da_UserCode : string; da_ExpiresAt : Z; da_Interval : Z
}.

Inductive DeviceDenyOutcome := DeviceDenyStopped | DeviceDenyRevoked | DeviceDenyTooLate.

(** What the page shows next: the form for a second factor, or the approval. *)
Inductive PageStep := AskFactor (token : string) | AskApproval (token : string).

Section device.
Context {digest : Digest} {citext : Citext} {out : Outside} (svc : Service).

(** The attempts left, counted down from three. *)
Fixpoint create_code (attempts : nat) (hash device name : string) (expires : Z)
    : AuthProc (string * DeviceCode) :=
  userCode ← random userCodeLength;
  id ← nextID;
  created ← try (db (CreateDeviceCode id hash userCode device (sanitizeDeviceName name) expires));
  match created, attempts with
  | inr row, _ => mret (userCode, row)
  | inl EUserCodeTaken, S ((S _) as left) => create_code left hash device name expires
  | inl e, _ => fail e
  end.

Definition StartDeviceAuth (deviceID deviceName : string) : AuthProc DeviceAuth :=
  deviceID ← pure (normalizeDeviceID deviceID);
  token ← drawing GenerateDeviceCode;
  n ← now;
  created ← create_code 3 token.2 deviceID deviceName (n + DeviceCodeTTL);
  mret (mkDeviceAuth token.1 (FormatUserCode created.1) (dc_expires created.2) DevicePollInterval).

Definition RedeemDeviceCode (rawCode : string) (ip : option string) : AuthProc TokenPair :=
  match ParseDeviceCode rawCode with
  | None => fail EDeviceCodeExpired
  | Some hash =>
      polled ← db (no_rows_as EDeviceCodeExpired (PollDeviceCode hash DevicePollInterval));
      fail_if polled.2 EDeviceSlowDown;;
      fail_if (negb (unset (dc_denied polled.1))) EDeviceAccessDenied;;
      fail_if (unset (dc_user polled.1)) EDeviceAuthorizationPending;;
      token ← drawing GenerateRefreshToken;
      sessionID ← nextID;
      userID ← tx (fun env =>
        row ← no_rows_as EDeviceCodeExpired (ConsumeDeviceCode hash);
        let userID := default 0 (dc_user row.2) in
        writeSession svc env sessionID userID (dc_device row.2) (dc_name row.2) ip token.2;;
        mret userID);
      issuePair userID sessionID token.1
  end.

Definition LookUpDeviceCode (rawUserCode : list Z) : AuthProc (string * (Z * DeviceCode)) :=
  match ParseUserCode rawUserCode with
  | None => fail EDeviceUserCode
  | Some code =>
      row ← db (no_rows_as EDeviceUserCode (GetDeviceCodeByUserCode code));
      mret (code, row)
  end.

Definition deviceCodeByID (id : Z) : AuthProc DeviceCode :=
  db (no_rows_as EDeviceUserCode (GetDeviceCodeByID id)).

Definition ApproveDeviceAuthorization (codeID userID : Z) : AuthProc unit :=
  db (no_rows_as EDeviceUserCode (ApproveDeviceCode codeID userID));;
  mret tt.

Definition DenyDeviceAuthorization (codeID userID : Z) : AuthProc DeviceDenyOutcome :=
  denied ← try (db (DenyDeviceCode codeID));
  match denied with
  | inr _ => mret DeviceDenyStopped
  | inl ENoRows =>
      revoked ← try (db (RevokeApprovedDeviceCode codeID userID));
      match revoked with
      | inr _ => mret DeviceDenyRevoked
      | inl ENoRows => mret DeviceDenyTooLate
      | inl e => fail e
      end
  | inl e => fail e
  end.

(** ** The verification page: the token each step hands the browser *)

Definition parse_continuation (raw want : string) : AuthProc DeviceContinuation :=
  n ← now;
  pure (parseDeviceToken n raw want).

Definition renderDeviceApproval (codeID userID : Z) (proof : factorProof) : AuthProc PageStep :=
  row ← deviceCodeByID codeID;
  token ← issueDeviceApprovalToken codeID (dc_code row) userID proof;
  mret (AskApproval token).

Definition renderDeviceFactor (codeID userID : Z) : AuthProc PageStep :=
  row ← deviceCodeByID codeID;
  token ← issueDeviceFactorToken codeID (dc_code row) userID;
  mret (AskFactor token).

Definition continueToApproval (codeID userID : Z) : AuthProc PageStep :=
  satisfied ← try (factorSatisfied userID);
  match satisfied with
  | inl ETwoFactorRequired => renderDeviceFactor codeID userID
  | inl e => fail e
  | inr proof => renderDeviceApproval codeID userID proof
  end.

(** The code typed; the entry token. *)
Definition devicePageEntry (rawUserCode : list Z) : AuthProc string :=
  found ← LookUpDeviceCode rawUserCode;
  issueDeviceEntryToken found.2.1 found.1.

Definition devicePageSignIn (rawToken email password : string) : AuthProc PageStep :=
  entry ← parse_continuation rawToken deviceEntryTokenType;
  user ← verifyCredentials svc email password;
  continueToApproval (dcn_code_id entry) user.1.

Definition devicePageFactor (rawToken : string) (code : list Z) : AuthProc PageStep :=
  pending ← parse_continuation rawToken deviceFactorTokenType;
  proof ← proveFactor (dcn_user pending) code;
  renderDeviceApproval (dcn_code_id pending) (dcn_user pending) proof.

(** The decision: [None] is an approval. *)
Definition devicePageApprove (rawToken : string) (approve : bool) : AuthProc (option DeviceDenyOutcome) :=
  approval ← parse_continuation rawToken deviceApprovalTokenType;
  if approve then
    ApproveDeviceAuthorization (dcn_code_id approval) (dcn_user approval);;
    mret None
  else
    outcome ← DenyDeviceAuthorization (dcn_code_id approval) (dcn_user approval);
    mret (Some outcome).
End device.

(** ** API tokens and the sweep *)

Definition AllScopes : list string :=
  ["identify"; "guilds.read"; "guilds.write"; "guilds.audit"; "messages.read"; "messages.write";
   "messages.moderate"; "messages.audit"; "reports.write"; "reports.moderate"; "tags.read"; "tags.write"].

Definition ValidScope (s : string) : bool := bool_decide (s ∈ AllScopes).

Definition MaxAPITokenNameLength : Z := 100.
Definition apiTokenTouchInterval : Z := 5 * minute.
Definition sessionSweepBatch : nat := 5000.

(** The loop over the scopes asked for: unknown ones are refused, repeats dropped. *)
Fixpoint mint_scopes (seen : list string) (scopes : list string) : Err + list string :=
  match scopes with
  | [] => inr []
  | s :: scopes =>
      if negb (ValidScope s) then inl EUnknownScope
      else if bool_decide (s ∈ seen) then mint_scopes seen scopes
      else match mint_scopes (s :: seen) scopes with inl e => inl e | inr l => inr (s :: l) end
  end.

(** SweepResult, of the tables modelled. *)
Record SweepResult := mkSweepResult {
  sw_ResetTokens : Z; sw_ExchangeCodes : Z; sw_VerificationTokens : Z; sw_DeviceCodes : Z; sw_Sessions : Z
}.

Section apitokens.
Context {digest : Digest} {citext : Citext} {out : Outside} (svc : Service).

Definition MintAPIToken (userID : Z) (name : string) (scopes : list string) : AuthProc (Z * ApiToken * string) :=
  let name := TrimSpace name in
  fail_if (name =? "")%string EInvalidTokenName;;
  fail_if (MaxAPITokenNameLength <? Z.of_nat (String.length name)) EInvalidTokenName;;
  scopes ← pure (mint_scopes [] scopes);
  token ← drawing GenerateAPIToken;
  id ← nextID;
  row ← db (CreateAPIToken id userID name token.2 scopes);
  mret (id, row, token.1).

Definition ListAPITokens (userID : Z) : AuthProc (list (Z * ApiToken)) := db (ListAPITokensForUser userID).

Definition RevokeAPITokenOf (userID tokenID : Z) : AuthProc unit :=
  db (no_rows_as ENotFound (RevokeAPIToken tokenID userID));;
  mret tt.

Definition AuthenticateAPIToken (raw : string) : AuthProc Actor :=
  match ParseAPIToken raw with
  | None => fail EInvalidToken
  | Some hash =>
      row ← db (no_rows_as EInvalidToken (GetActiveAPITokenByHash hash));
      let '(id, token) := row in
      n ← now;
      (if match tok_used token with None => true | Some u => apiTokenTouchInterval <=? n - u end
       then try (db (TouchAPIToken id));; mret tt
       else mret tt);;
      mret (mkActor ActorAPIToken (tok_user token) 0 id (tok_scopes token))
  end.

(** ** The sweep *)

(** The batches, at most [rounds] of them; out of rounds the loop is still going, or the context ended. *)
Fixpoint sweep_sessions (rounds : nat) (total : Z) : AuthProc Z :=
  match rounds with
  | O => fail EBlocked
  | S rounds =>
      n ← db (DeleteExpiredSessions sessionSweepBatch);
      if n <? Z.of_nat sessionSweepBatch then mret (total + n) else sweep_sessions rounds (total + n)
  end.

Definition SweepExpired (rounds : nat) : AuthProc SweepResult :=
  resets ← db DeleteExpiredPasswordResetTokens;
  exchange ← db DeleteExpiredOAuthExchangeCodes;
  verification ← db DeleteExpiredEmailVerificationTokens;
  devices ← db DeleteExpiredDeviceCodes;
  sessions ← sweep_sessions rounds 0;
  mret (mkSweepResult resets exchange verification devices sessions).
End apitokens.
