(* ===== verification/AuthDeeds.v ===== *)
(** What the account services do to their tables as a whole: the deeds, one for each transaction or
    statement that writes, with the conditions it succeeds under; what each leaves of a row, and the
    invariant of the account tables they keep. *)
From S2P Require Import Prelude GoStd Snowflake Rows.
From S2P Require Export AuthSessions Proc.

(** ** Effects *)

Definition end_sessions (P : Session -> bool) (t : Auth) : Auth :=
  set_sessions (update_where (fun r => P r && ses_live r) (revoke_session (a_now t)) (a_sessions t)) t.
Definition end_tokens (user : Z) (t : Auth) : Auth :=
  set_tokens (update_where (fun r => (tok_user r =? user) && tok_live r) (revoke_token (a_now t)) (a_tokens t)) t.
Definition end_exchange (user : Z) (t : Auth) : Auth :=
  set_exchange (update_where (fun r => (xc_user r =? user) && unset (xc_consumed r)) (consume_exchange (a_now t))
                  (a_exchange t)) t.
Definition end_codes (user : Z) (t : Auth) : Auth :=
  set_devices (update_where (fun r => bool_decide (dc_user r = Some user) && unset (dc_consumed r))
                 (consume_code (a_now t)) (a_devices t)) t.

(** The sessions revokeEverything ends. *)
Definition in_scope (user : Z) (keep : string) (r : Session) : bool :=
  if (keep =? "")%string then ses_user r =? user else (ses_user r =? user) && negb (ses_device r =? keep)%string.

Definition end_everything (user : Z) (keep : string) (t : Auth) : Auth :=
  end_codes user (end_exchange user (end_tokens user (end_sessions (in_scope user keep) t))).

Definition put_session (id : Z) (r : Session) (t : Auth) : Auth := set_sessions (<[id := r]> (a_sessions t)) t.
Definition put_code (id : Z) (r : DeviceCode) (t : Auth) : Auth := set_devices (<[id := r]> (a_devices t)) t.

(** A row changed where it is. *)
Definition at_row {V} (id : Z) (f : V -> V) (m : gmap Z V) : gmap Z V := alter f id m.

Definition sign_in_at (id user : Z) (device hash : string) (name ip : option string) (expires : Z) (t : Auth) : Auth :=
  put_session id (new_session (a_now t) user device hash name ip expires None)
    (end_sessions (on_device user device) t).

Definition put_recovery (user n : Z) (codes : list (Z * string)) (m : gmap Z RecoveryCode)
    : gmap Z RecoveryCode :=
  foldl (fun m c => <[c.1 := mkRecoveryCode user c.2 None n]> m) m codes.

(** ** Deeds *)

(** What a statement that only reads may have seen. *)
Inductive Obs :=
  | OUser (id : Z) (u : User)
  | OTotp (user : Z) (r : option UserTotp)
  | OSession (id : Z) (r : Session)
  | OLive (user : Z) (device : string) (first : Z)
  | OToken (id : Z) (r : ApiToken)
  | OCode (id : Z) (r : DeviceCode)
  | OReset (id : Z) (r : MailToken).

Inductive Deed :=
  | Saw (o : Obs)
  | DSignIn (id user : Z) (device hash : string) (name ip : option string) (expires : Z)
  | DRotate (old new : Z) (hash : string) (expires : Z)
  | DEndDevice (user : Z) (device : string)
  | DEndSession (id : Z)
  | DEndAll (user : Z) (keep : string)
  | DMint (id user : Z) (name hash : string) (scopes : list string)
  | DRevokeToken (id user : Z)
  | DTouch (id : Z)
  | DIssueExchange (id : Z) (hash : string) (user : Z) (flow : string) (expires : Z)
  | DUseExchange (id user : Z)
  | DIssueCode (id : Z) (hash code device name : string) (expires : Z)
  | DPoll (id : Z)
  | DApprove (id user : Z)
  | DDeny (id : Z)
  | DTakeBack (id user : Z)
  | DRedeem (code : Z) (presented : string) (id user : Z) (device hash : string) (name ip : option string) (expires : Z)
  | DEnroll (user : Z) (secret : string)
  | DConfirm (user step : Z) (codes : list (Z * string))
  | DUseStep (user step : Z)
  | DUseRecovery (id user : Z) (hash : string)
  | DDisable (user : Z) (keep : string)
  | DRegenerate (user : Z) (codes : list (Z * string))
  | DAskReset (id user : Z) (hash sentTo : string) (expires : Z)
  | DReset (id user : Z) (password : string)
  | DAskVerify (id user : Z) (hash sentTo : string) (expires : Z)
  | DVerify (id : Z)
  | DSweepResets | DSweepExchange | DSweepVerify | DSweepCodes
  | DSweepSessions (gone : gset Z).

Definition obs_ok (o : Obs) (t : Auth) : Prop :=
  match o with
  | OUser id u => a_users t !! id = Some u /\ u_deleted u = None
  | OTotp user r => a_totp t !! user = r
  | OSession id r => a_sessions t !! id = Some r
  | OLive user device first => exists id r, a_sessions t !! id = Some r /\ in_family user device first r = true /\
      ses_revoked r = None /\ a_now t < ses_expires r
  | OToken id r => a_tokens t !! id = Some r /\ tok_revoked r = None /\
      exists u, a_users t !! tok_user r = Some u /\ u_deleted u = None
  | OCode id r => a_devices t !! id = Some r /\ dc_undecided (a_now t) r = true
  | OReset id r => a_resets t !! id = Some r
  end.

Definition new_in {V} (id : Z) (m : gmap Z V) : Prop := m !! id = None.

(** No row has the hash. *)
Definition unhashed {V} (h : V -> string) (hash : string) (m : gmap Z V) : Prop :=
  forall id r, m !! id = Some r -> h r <> hash.

Definition fresh_session (id : Z) (hash : string) (t : Auth) : Prop :=
  new_in id (a_sessions t) /\ unhashed ses_hash hash (a_sessions t).

(** The codes inserted one after another find their ids and hashes free. *)
Fixpoint fresh_codes (user n : Z) (codes : list (Z * string)) (m : gmap Z RecoveryCode) : Prop :=
  match codes with
  | [] => True
  | c :: codes => new_in c.1 m /\ unhashed rec_hash c.2 m /\
      fresh_codes user n codes (<[c.1 := mkRecoveryCode user c.2 None n]> m)
  end.

Definition row_ok {V} (m : gmap Z V) (id : Z) (P : V -> Prop) : Prop := exists r, m !! id = Some r /\ P r.

Definition deed_ok {citext : Citext} (d : Deed) (t : Auth) : Prop :=
  match d with
  | Saw o => obs_ok o t
  | DSignIn id user _ hash _ _ _ => fresh_session id hash t
  | DRotate old new hash _ => row_ok (a_sessions t) old (fun r => ses_revoked r = None) /\ fresh_session new hash t
  | DEndSession id => row_ok (a_sessions t) id (fun r => ses_revoked r = None)
  | DMint id user name hash scopes => new_in id (a_tokens t) /\ unhashed tok_hash hash (a_tokens t)
  | DRevokeToken id user => row_ok (a_tokens t) id (fun r => tok_user r = user /\ tok_revoked r = None)
  | DIssueExchange id hash _ _ _ => new_in id (a_exchange t)
  | DUseExchange id user =>
      row_ok (a_exchange t) id (fun r => xc_user r = user /\ xc_consumed r = None /\ a_now t < xc_expires r)
  | DIssueCode id hash code _ _ _ => new_in id (a_devices t) /\ unhashed dc_hash hash (a_devices t)
  | DPoll id => row_ok (a_devices t) id (fun r => dc_consumed r = None /\ a_now t < dc_expires r)
  | DApprove id user => row_ok (a_devices t) id (fun r => dc_undecided (a_now t) r = true)
  | DDeny id => row_ok (a_devices t) id (fun r => dc_undecided (a_now t) r = true)
  | DTakeBack id user => row_ok (a_devices t) id (fun r => dc_user r = Some user /\ dc_consumed r = None)
  | DRedeem code presented id user device hash name _ _ =>
      row_ok (a_devices t) code (fun r => dc_hash r = presented /\ dc_redeemable (a_now t) r = true /\ dc_user r = Some user /\
        dc_device r = device /\ optionalString (dc_name r) = name) /\ fresh_session id hash t
  | DConfirm user step codes => row_ok (a_totp t) user (fun r => tt_confirmed r = None) /\
      fresh_codes user (a_now t) codes (a_recovery t)
  | DUseStep user step => row_ok (a_totp t) user (fun r => step_unspent step r = true)
  | DUseRecovery id user hash => row_ok (a_recovery t) id (fun r => rec_match user hash r = true)
  | DRegenerate user codes => fresh_codes user (a_now t) codes (delete_where (fun r => rec_user r =? user) (a_recovery t))
  | DAskReset id user hash _ _ => new_in id (a_resets t)
  | DReset id user _ => row_ok (a_resets t) id (fun r => mail_redeemable (a_now t) r = true /\ ml_user r = user) /\
      row_ok (a_users t) user (fun u => u_deleted u = None)
  | DAskVerify id user hash _ _ => new_in id (a_verify t)
  | DVerify id => row_ok (a_verify t) id (fun r => mail_redeemable (a_now t) r = true /\
      row_ok (a_users t) (ml_user r) (fun u => citext_eq (u_email u) (ml_sent_to r) = true /\ u_deleted u = None))
  | DSweepSessions gone => forall id, id ∈ gone -> row_ok (a_sessions t) id (fun r => ses_expires r < a_now t)
  | DEndDevice _ _ | DEndAll _ _ | DTouch _ | DEnroll _ _ | DDisable _ _
  | DSweepResets | DSweepExchange | DSweepVerify | DSweepCodes => True
  end.

Definition deed_ids (d : Deed) : gset Z :=
  match d with
  | DSignIn id _ _ _ _ _ _ | DRotate _ id _ _ | DMint id _ _ _ _ | DIssueExchange id _ _ _ _
  | DIssueCode id _ _ _ _ _ | DRedeem _ _ id _ _ _ _ _ _ | DAskReset id _ _ _ _ | DAskVerify id _ _ _ _ => {[id]}
  | DConfirm _ _ codes | DRegenerate _ codes => list_to_set codes.*1
  | _ => ∅
  end.

(** Adding a mail token spends the account's others. *)
Definition put_mail (t : Auth) (id user : Z) (hash sentTo : string) (expires : Z) (m : gmap Z MailToken)
    : gmap Z MailToken :=
  <[id := mkMailToken user hash sentTo (a_now t) expires None]> (spend_mail (a_now t) user m).

Definition deed_do (d : Deed) (t : Auth) : Auth :=
  match d with
  | Saw _ => t
  | DSignIn id user device hash name ip expires => sign_in_at id user device hash name ip expires t
  | DRotate old new hash expires =>
      match a_sessions t !! old with
      | Some r =>
          put_session old (rotate_session (a_now t) new r)
            (put_session new (new_session (a_now t) (ses_user r) (ses_device r) hash (ses_name r) (ses_ip r) expires
                                (Some (ses_first r))) t)
      | None => t
      end
  | DEndDevice user device => end_sessions (on_device user device) t
  | DEndSession id => set_sessions (at_row id (revoke_session (a_now t)) (a_sessions t)) t
  | DEndAll user keep => end_everything user keep t
  | DMint id user name hash scopes =>
      set_tokens (<[id := mkApiToken user name hash scopes (a_now t) None None]> (a_tokens t)) t
  | DRevokeToken id _ => set_tokens (at_row id (revoke_token (a_now t)) (a_tokens t)) t
  | DTouch id =>
      set_tokens (at_row id (fun r => if touch_due (a_now t) r then touch_token (a_now t) r else r) (a_tokens t)) t
  | DIssueExchange id hash user flow expires =>
      set_exchange (<[id := mkExchangeCode user hash flow expires None]> (a_exchange t)) t
  | DUseExchange id _ => set_exchange (at_row id (consume_exchange (a_now t)) (a_exchange t)) t
  | DIssueCode id hash code device name expires =>
      put_code id (mkDeviceCode hash code device name None None None None (a_now t) expires) t
  | DPoll id => set_devices (at_row id (poll_code (a_now t)) (a_devices t)) t
  | DApprove id user => set_devices (at_row id (approve_code user) (a_devices t)) t
  | DDeny id => set_devices (at_row id (deny_code (a_now t)) (a_devices t)) t
  | DTakeBack id _ => set_devices (at_row id (consume_code (a_now t)) (a_devices t)) t
  | DRedeem code _ id user device hash name ip expires =>
      sign_in_at id user device hash name ip expires
        (set_devices (at_row code (consume_code (a_now t)) (a_devices t)) t)
  | DEnroll user secret => set_totp (<[user := enroll (a_now t) secret (a_totp t !! user)]> (a_totp t)) t
  | DConfirm user step codes =>
      let t1 := set_totp (at_row user (confirm_totp (a_now t)) (a_totp t)) t in
      let t2 := set_totp (at_row user (fun r => if step_unspent step r then use_step step r else r) (a_totp t1)) t1 in
      set_recovery (put_recovery user (a_now t) codes (a_recovery t)) t2
  | DUseStep user step => set_totp (at_row user (use_step step) (a_totp t)) t
  | DUseRecovery id _ _ => set_recovery (at_row id (use_recovery (a_now t)) (a_recovery t)) t
  | DDisable user keep =>
      end_everything user keep
        (set_recovery (delete_where (fun r => rec_user r =? user) (a_recovery t))
           (set_totp (delete user (a_totp t)) t))
  | DRegenerate user codes =>
      set_recovery (put_recovery user (a_now t) codes (delete_where (fun r => rec_user r =? user) (a_recovery t))) t
  | DAskReset id user hash sentTo expires => set_resets (put_mail t id user hash sentTo expires (a_resets t)) t
  | DReset id user password =>
      end_everything user ""
        (set_users (at_row user (with_password password) (a_users t))
           (set_resets (at_row id (use_mail (a_now t)) (a_resets t)) t))
  | DAskVerify id user hash sentTo expires => set_verify (put_mail t id user hash sentTo expires (a_verify t)) t
  | DVerify id =>
      match a_verify t !! id with
      | Some r =>
          set_users (at_row (ml_user r) (with_verified (a_now t)) (a_users t))
            (set_verify (at_row id (use_mail (a_now t)) (a_verify t)) t)
      | None => t
      end
  | DSweepResets => set_resets (delete_where (mail_expired (a_now t)) (a_resets t)) t
  | DSweepExchange => set_exchange (delete_where (fun r => xc_expires r <? a_now t) (a_exchange t)) t
  | DSweepVerify => set_verify (delete_where (mail_expired (a_now t)) (a_verify t)) t
  | DSweepCodes => set_devices (delete_where (fun r => dc_expires r <? a_now t) (a_devices t)) t
  | DSweepSessions gone => set_sessions (delete_sessions gone (a_sessions t)) t
  end.

Definition auth_tick (n : Z) (t : Auth) : Auth := set_now (a_now t + n) t.

(** ** The deeds and the rows *)

(** ** Rows in bulk *)

Section lookups.
Context {V : Type}.
Implicit Types m : gmap Z V.

Lemma lookup_update_where P (f : V -> V) m i :
  update_where P f m !! i = (fun v => if P v then f v else v) <$> m !! i.
Proof. unfold update_where. by rewrite lookup_fmap. Qed.

Lemma lookup_delete_where P m i v : delete_where P m !! i = Some v <-> m !! i = Some v /\ P v = false.
Proof. unfold delete_where. by rewrite map_lookup_filter_Some. Qed.

Lemma lookup_at_row (f : V -> V) m i j v :
  at_row i f m !! j = Some v -> exists v0, m !! j = Some v0 /\ (v = v0 \/ i = j /\ v = f v0).
Proof.
  unfold at_row. destruct (decide (i = j)) as [->|Hne].
  - rewrite lookup_alter_eq. intros (v0 & H & ->)%fmap_Some. exists v0. auto.
  - rewrite lookup_alter_ne by done. intros H. exists v. auto.
Qed.

Lemma at_row_eq (f : V -> V) m i v : m !! i = Some v -> at_row i f m !! i = Some (f v).
Proof. intros H. unfold at_row. by rewrite lookup_alter_eq, H. Qed.

Lemma at_row_insert (f : V -> V) m i v : m !! i = Some v -> at_row i f m = <[i := f v]> m.
Proof.
  intros H. apply map_eq. intros j. unfold at_row. destruct (decide (i = j)) as [<-|Hne].
  - by rewrite lookup_alter_eq, lookup_insert_eq, H.
  - by rewrite lookup_alter_ne, lookup_insert_ne by done.
Qed.

Lemma update_where_some P (f : V -> V) m i v' :
  update_where P f m !! i = Some v' -> exists v, m !! i = Some v /\ (P v = true /\ v' = f v \/ P v = false /\ v' = v).
Proof.
  rewrite lookup_update_where. intros (v & H & ->)%fmap_Some. exists v. split; [done|]. destruct (P v); auto.
Qed.

Lemma find_row_some P m id v : find_row P m = Some (id, v) -> m !! id = Some v /\ P v = true.
Proof.
  unfold find_row. intros H. destruct (filter _ (map_to_list m)) as [|x l] eqn:E; [done|]. injection H as ->.
  assert ((id, v) ∈ filter (fun kv => P kv.2 = true) (map_to_list m)) as Hin by (rewrite E; by left).
  apply list_elem_of_filter in Hin as [HP Hin]. by apply elem_of_map_to_list in Hin.
Qed.

Lemma find_row_none P m id v : find_row P m = None -> m !! id = Some v -> P v = false.
Proof.
  unfold find_row. intros H Hm. destruct (filter _ (map_to_list m)) eqn:E; [|done].
  apply not_true_iff_false. intros HP.
  assert ((id, v) ∈ filter (fun kv => P kv.2 = true) (map_to_list m)) as Hin.
  { apply list_elem_of_filter. split; [done|]. by apply elem_of_map_to_list. }
  rewrite E in Hin. by apply elem_of_nil in Hin.
Qed.
End lookups.

(** ** Sessions *)

(** What a session keeps for life. *)
Definition same_session (r r' : Session) : Prop :=
  ses_user r' = ses_user r /\ ses_device r' = ses_device r /\ ses_hash r' = ses_hash r /\
  ses_name r' = ses_name r /\ ses_ip r' = ses_ip r /\ ses_expires r' = ses_expires r /\ ses_first r' = ses_first r.

Lemma same_session_refl r : same_session r r.
Proof. done. Qed.

(** A revoked session stays as it is. *)
Definition session_evolves (r r' : Session) : Prop :=
  same_session r r' /\ (is_Some (ses_revoked r) -> ses_revoked r' = ses_revoked r).

Lemma evolves_refl r : session_evolves r r.
Proof. done. Qed.

Lemma evolves_revoke n r : session_evolves r (revoke_session n r) \/ is_Some (ses_revoked r).
Proof. destruct (ses_revoked r) eqn:E; [right; eauto|left]. split; [done|]. rewrite E. by intros [? [=]]. Qed.

Lemma evolves_trans r1 r2 r3 : session_evolves r1 r2 -> session_evolves r2 r3 -> session_evolves r1 r3.
Proof.
  intros [S1 R1] [S2 R2]. split; [unfold same_session in *; intuition congruence|].
  intros H. rewrite R2, R1 by (rewrite ?R1 by done; done). done.
Qed.

Lemma evolves_live_revoke n r : ses_live r = true -> session_evolves r (revoke_session n r).
Proof. intros H%unset_true. split; [done|]. rewrite H. by intros [? [=]]. Qed.

Lemma end_sessions_some P t id r' :
  a_sessions (end_sessions P t) !! id = Some r' -> exists r, a_sessions t !! id = Some r /\
    session_evolves r r' /\ (P r = true -> is_Some (ses_revoked r')).
Proof.
  cbn. intros (r & Hr & H)%update_where_some. exists r. split; [done|]. destruct H as [[H ->]|[H ->]].
  - apply andb_true_iff in H as [_ Hl]. split; [by apply evolves_live_revoke|]. intros _. by eexists.
  - split; [done|]. intros HP. rewrite HP in H. by apply unset_false in H.
Qed.

(** How a session comes into a table: by a sign-in, now, or by the rotation of a live one of its family. *)
Definition born (d : Deed) (t : Auth) (id : Z) (r : Session) : Prop :=
  (exists user device hash name ip expires,
     (d = DSignIn id user device hash name ip expires \/ exists code presented, d = DRedeem code presented id user device hash name ip expires) /\
     r = new_session (a_now t) user device hash name ip expires None) \/
  (exists old hash expires r0, d = DRotate old id hash expires /\ a_sessions t !! old = Some r0 /\
     ses_revoked r0 = None /\
     r = new_session (a_now t) (ses_user r0) (ses_device r0) hash (ses_name r0) (ses_ip r0) expires (Some (ses_first r0))).

Section deeds.
Context {citext : Citext}.

Lemma sign_in_at_some id user device hash name ip expires t i r' :
  a_sessions t !! id = None ->
  a_sessions (sign_in_at id user device hash name ip expires t) !! i = Some r' ->
  (exists r, a_sessions t !! i = Some r /\ session_evolves r r' /\ (on_device user device r = true -> is_Some (ses_revoked r'))) \/
  (i = id /\ r' = new_session (a_now t) user device hash name ip expires None).
Proof.
  intros Hid. unfold sign_in_at. cbn [a_sessions put_session set_sessions].
  intros [[<- <-]|[Hne H]]%lookup_insert_Some; [by right|]. left. by apply end_sessions_some.
Qed.

Lemma sessions_after d t id r' :
  deed_ok d t -> a_sessions (deed_do d t) !! id = Some r' ->
  (exists r, a_sessions t !! id = Some r /\ session_evolves r r') \/
  (a_sessions t !! id = None /\ id ∈ deed_ids d /\ born d t id r').
Proof.
  assert (forall P t id r', a_sessions (end_sessions P t) !! id = Some r' ->
    exists r, a_sessions t !! id = Some r /\ session_evolves r r') as Hend.
  { intros P t0 i r0 H. apply end_sessions_some in H as (r & ? & ? & _). eauto. }
  destruct d; cbn [deed_ok deed_do deed_ids]; intros Hok H;
    try (left; exists r'; split; [exact H|apply evolves_refl]); try (left; by apply (Hend _ _ _ _ H)).
  - destruct Hok as [Hn _]. apply sign_in_at_some in H as [(r & Hr & He & _)|[-> ->]]; [left; eauto| |done].
    right. split; [done|]. split; [set_solver|]. left. eauto 10.
  - destruct Hok as ((r & Hr & Hl) & Hn & _). rewrite Hr in H. cbn [a_sessions put_session set_sessions] in H.
    apply lookup_insert_Some in H as [[<- <-]|[Hne H]].
    + left. exists r. split; [done|]. split; [done|]. rewrite Hl. by intros [? [=]].
    + apply lookup_insert_Some in H as [[<- <-]|[Hne' H]]; [|left; eauto using evolves_refl].
      right. split; [done|]. split; [set_solver|]. right. eauto 10.
  - destruct Hok as (r & Hr & Hl). left. cbn in H. apply lookup_at_row in H as (r0 & Hr0 & [->|[<- ->]]); [eauto using evolves_refl|].
    exists r0. split; [done|]. apply evolves_live_revoke, unset_true. congruence.
  - destruct Hok as (_ & Hn & _). apply sign_in_at_some in H as [(r & Hr & He & _)|[-> ->]]; [left; eauto| |done].
    right. split; [done|]. split; [set_solver|]. left. eauto 12.
  - left. destruct (a_verify t !! id0); eauto using evolves_refl.
  - left. cbn in H. unfold delete_sessions in H. rewrite lookup_fmap in H. apply fmap_Some in H as (r & Hr & ->).
    apply map_lookup_filter_Some in Hr as [Hr _]. exists r. split; [done|]. unfold forget_replacement.
    by destruct (ses_replaced r); [destruct (decide _)|].
Qed.

(** ** The other tables *)

(** A device code keeps what it was issued with; a decision and its spending are final. *)
Definition code_evolves (r r' : DeviceCode) : Prop :=
  dc_hash r' = dc_hash r /\ dc_code r' = dc_code r /\ dc_device r' = dc_device r /\ dc_name r' = dc_name r /\
  dc_expires r' = dc_expires r /\
  (is_Some (dc_user r) -> dc_user r' = dc_user r) /\ (is_Some (dc_denied r) -> is_Some (dc_denied r')) /\
  (is_Some (dc_consumed r) -> is_Some (dc_consumed r')).

#[export] Instance code_evolves_pre : PreOrder code_evolves.
Proof.
  split; [by intros r|]. intros r1 r2 r3 (?&?&?&?&?&Hu&?&?) (?&?&?&?&?&Hu'&?&?). split_and!; try congruence; auto.
  intros Hs. rewrite Hu'; auto. by rewrite Hu.
Qed.

#[export] Instance session_evolves_pre : PreOrder session_evolves.
Proof. split; [by intros r; apply evolves_refl|by intros ???; apply evolves_trans]. Qed.

(** A token of a mail keeps what it was issued with, and once used stays used. *)
Definition mail_evolves (r r' : MailToken) : Prop :=
  ml_user r' = ml_user r /\ ml_hash r' = ml_hash r /\ ml_sent_to r' = ml_sent_to r /\ ml_expires r' = ml_expires r /\
  (is_Some (ml_used r) -> is_Some (ml_used r')).

#[export] Instance mail_evolves_pre : PreOrder mail_evolves.
Proof.
  split; [by intros r|]. intros r1 r2 r3 (?&?&?&?&?) (?&?&?&?&?). split_and!; try congruence; auto.
Qed.

Definition recovery_evolves (r r' : RecoveryCode) : Prop :=
  rec_user r' = rec_user r /\ rec_hash r' = rec_hash r /\ (is_Some (rec_used r) -> is_Some (rec_used r')).

#[export] Instance recovery_evolves_pre : PreOrder recovery_evolves.
Proof. split; [by intros r|]. intros r1 r2 r3 (?&?&?) (?&?&?). split_and!; try congruence; auto. Qed.

Definition token_evolves (r r' : ApiToken) : Prop :=
  tok_user r' = tok_user r /\ tok_hash r' = tok_hash r /\ tok_scopes r' = tok_scopes r /\
  tok_created r' = tok_created r /\ (is_Some (tok_revoked r) -> is_Some (tok_revoked r')).

#[export] Instance token_evolves_pre : PreOrder token_evolves.
Proof. split; [by intros r|]. intros r1 r2 r3 (?&?&?&?&?) (?&?&?&?&?). split_and!; try congruence; auto. Qed.

Lemma end_codes_some user t id r' :
  a_devices (end_codes user t) !! id = Some r' -> exists r, a_devices t !! id = Some r /\ code_evolves r r'.
Proof.
  cbn. intros (r & Hr & H)%update_where_some. exists r. split; [done|]. by destruct H as [[H ->]|[H ->]].
Qed.

Lemma devices_after d t id r' :
  deed_ok d t -> a_devices (deed_do d t) !! id = Some r' ->
  (exists r, a_devices t !! id = Some r /\ code_evolves r r') \/ (a_devices t !! id = None /\ id ∈ deed_ids d).
Proof.
  destruct d; cbn [deed_ok deed_do deed_ids]; intros Hok H;
    try (left; exists r'; split; [exact H|done]); try (left; by apply (end_codes_some _ _ _ _ H)).
  - left. by destruct (a_sessions t !! old); exists r'.
  - cbn [a_devices put_code set_devices] in H. apply lookup_insert_Some in H as [[<- <-]|[Hne H]]; [|by left; exists r'].
    right. split; [apply Hok|set_solver].
  - left. apply lookup_at_row in H as (r & Hr & [->|[<- ->]]); by exists r.
  - left. apply lookup_at_row in H as (r & Hr & [->|[<- ->]]); exists r; [done|]. split; [done|].
    destruct Hok as (r0 & Hr0 & Hu). unfold dc_undecided in Hu. bool_hyps.
    assert (r0 = r) as -> by congruence. apply unset_true in H. split_and!; try done. rewrite H. by intros [? [=]].
  - left. apply lookup_at_row in H as (r & Hr & [->|[<- ->]]); exists r; [done|]. by split.
  - left. apply lookup_at_row in H as (r & Hr & [->|[<- ->]]); exists r; [done|]. by split.
  - left. apply lookup_at_row in H as (r & Hr & [->|[<- ->]]); exists r; [done|]. by split.
  - left. by destruct (a_verify t !! id0); exists r'.
  - left. apply lookup_delete_where in H as [H _]. by exists r'.
Qed.

Lemma spend_mail_some n user m id r' :
  spend_mail n user m !! id = Some r' -> exists r, m !! id = Some r /\ mail_evolves r r'.
Proof. intros (r & Hr & H)%update_where_some. exists r. split; [done|]. by destruct H as [[H ->]|[H ->]]. Qed.

Lemma resets_after d t id r' :
  deed_ok d t -> a_resets (deed_do d t) !! id = Some r' ->
  (exists r, a_resets t !! id = Some r /\ mail_evolves r r') \/ (a_resets t !! id = None /\ id ∈ deed_ids d).
Proof.
  destruct d; cbn [deed_ok deed_do deed_ids]; intros Hok H; try (left; exists r'; split; [exact H|done]).
  - left. by destruct (a_sessions t !! old); exists r'.
  - cbn [a_resets set_resets] in H. unfold put_mail in H.
    apply lookup_insert_Some in H as [[<- <-]|[Hne H]]; [right; split; [apply Hok|set_solver]|].
    left. by apply spend_mail_some in H.
  - left. apply lookup_at_row in H as (r & Hr & [->|[<- ->]]); by exists r.
  - left. by destruct (a_verify t !! id0); exists r'.
  - left. apply lookup_delete_where in H as [H _]. by exists r'.
Qed.

Lemma tokens_after d t id r' :
  deed_ok d t -> a_tokens (deed_do d t) !! id = Some r' ->
  (exists r, a_tokens t !! id = Some r /\ token_evolves r r') \/ 
  (a_tokens t !! id = None /\ id ∈ deed_ids d /\ tok_created r' = a_now t).
Proof.
  assert (forall user t id r', a_tokens (end_tokens user t) !! id = Some r' ->
    exists r, a_tokens t !! id = Some r /\ token_evolves r r') as Hend.
  { intros user t0 i r0 (r & Hr & H)%update_where_some. exists r. split; [done|]. by destruct H as [[H ->]|[H ->]]. }
  destruct d; cbn [deed_ok deed_do deed_ids]; intros Hok H;
    try (left; exists r'; split; [exact H|done]); try (left; by apply (Hend _ _ _ _ H)).
  - left. by destruct (a_sessions t !! old); exists r'.
  - cbn [a_tokens set_tokens] in H.
    apply lookup_insert_Some in H as [[<- <-]|[Hne H]]; [right; split_and!; [apply Hok|set_solver|done]|]. left. by exists r'.
  - left. apply lookup_at_row in H as (r & Hr & [->|[<- ->]]); by exists r.
  - left. apply lookup_at_row in H as (r & Hr & [->|[<- ->]]); exists r; [done|]. by destruct (touch_due _ _).
  - left. by destruct (a_verify t !! id0); exists r'.
Qed.

Lemma put_recovery_some user n codes m id r' :
  fresh_codes user n codes m -> put_recovery user n codes m !! id = Some r' ->
  m !! id = Some r' \/ (m !! id = None /\ id ∈ codes.*1 /\ rec_used r' = None).
Proof.
  revert m. induction codes as [|c codes IH]; intros m; [by left|]. intros (Hn & Hu & Hf) H.
  destruct (IH _ Hf H) as [Hr|(Hr & Hi & Hx)].
  - apply lookup_insert_Some in Hr as [[<- <-]|[Hne Hr]]; [|by left]. right. split; [done|]. split; [by left|done].
  - apply lookup_insert_None in Hr as [Hr Hne]. right. split; [done|]. split; [by right|done].
Qed.

Lemma recovery_after d t id r' :
  deed_ok d t -> a_recovery (deed_do d t) !! id = Some r' ->
  (exists r, a_recovery t !! id = Some r /\ recovery_evolves r r') \/
  (id ∈ deed_ids d /\ rec_used r' = None).
Proof.
  destruct d; cbn [deed_ok deed_do deed_ids]; intros Hok H; try (left; exists r'; split; [exact H|done]).
  - left. by destruct (a_sessions t !! old); exists r'.
  - destruct Hok as [_ Hf]. apply put_recovery_some in H as [H|(H & Hi & Hx)]; [|set_solver|done]. by left; exists r'.
  - left. apply lookup_at_row in H as (r & Hr & [->|[<- ->]]); by exists r.
  - left. apply lookup_delete_where in H as [H _]. by exists r'.
  - apply put_recovery_some in H as [H|(H & Hi & Hx)]; [|set_solver|done].
    apply lookup_delete_where in H as [H _]. by left; exists r'.
  - left. by destruct (a_verify t !! id0); exists r'.
Qed.
End deeds.

(** ** The invariant *)

(** Every row's id has been used, and no two sessions have one refresh token. *)
Record auth_inv (sp : gset Z) (t : Auth) : Prop := mkAuthInv {
  ai_sessions : forall id, is_Some (a_sessions t !! id) -> id ∈ sp;
  ai_tokens : forall id, is_Some (a_tokens t !! id) -> id ∈ sp;
  ai_devices : forall id, is_Some (a_devices t !! id) -> id ∈ sp;
  ai_resets : forall id, is_Some (a_resets t !! id) -> id ∈ sp;
  ai_recovery : forall id, is_Some (a_recovery t !! id) -> id ∈ sp;
  ai_hashes : forall i j r s, a_sessions t !! i = Some r -> a_sessions t !! j = Some s ->
    ses_hash r = ses_hash s -> i = j
}.

Section machine.
Context {citext : Citext}.

Abbreviation Hap := (Happening (Deed := Deed)).
Abbreviation hap_ok := (hap_ok deed_ok).
Abbreviation hap_do := (hap_do auth_tick deed_do).
Abbreviation hap_ids := (hap_ids deed_ids).
Abbreviation replay := (replay auth_tick deed_ok deed_do deed_ids).
Abbreviation stable := (stable auth_tick deed_ok deed_do deed_ids).

(** What holds of each row after a deed holds after a happening. *)
Lemma rows_after {V} (tab : Auth -> gmap Z V) (P : Z -> V -> V -> Prop) (N : Deed -> Auth -> Z -> V -> Prop) h t id r' :
  (forall id r, P id r r) -> (forall n t, tab (auth_tick n t) = tab t) ->
  (forall d, deed_ok d t -> tab (deed_do d t) !! id = Some r' ->
     (exists r, tab t !! id = Some r /\ P id r r') \/ N d t id r') ->
  hap_ok h t -> tab (hap_do h t) !! id = Some r' ->
  (exists r, tab t !! id = Some r /\ P id r r') \/ exists c d, h = ByCall c d /\ N d t id r'.
Proof.
  intros HP Ht Hd. destruct h as [c d|n]; cbn; intros Hok H.
  - destruct (Hd d Hok H); [by left|]. right. eauto.
  - rewrite Ht in H. left. eauto.
Qed.

(** The hash of a new session is no other's. *)
Lemma born_unhashed d t id r : deed_ok d t -> born d t id r -> unhashed ses_hash (ses_hash r) (a_sessions t).
Proof.
  intros Hok [(?&?&?&?&?&?&[->|(? & ? & ->)]&->)|(?&?&?&?&->&_&_&->)]; cbn in *; apply Hok.
Qed.

Lemma born_alone d t i j r s : born d t i r -> born d t j s -> i = j.
Proof.
  intros [(?&?&?&?&?&?&[->|(? & ? & ->)]&_)|(?&?&?&?&->&_)];
    intros [(?&?&?&?&?&?&[E|(? & ? & E)]&_)|(?&?&?&?&E&_)]; congruence.
Qed.

Lemma hashes_after d t :
  deed_ok d t ->
  (forall i j r s, a_sessions t !! i = Some r -> a_sessions t !! j = Some s -> ses_hash r = ses_hash s -> i = j) ->
  forall i j r s, a_sessions (deed_do d t) !! i = Some r -> a_sessions (deed_do d t) !! j = Some s ->
    ses_hash r = ses_hash s -> i = j.
Proof.
  intros Hok Hu i j r s Hr Hs Heq.
  destruct (sessions_after d t i r Hok Hr) as [(r0 & Hr0 & Hsame & _)|(_ & _ & Hb)];
    destruct (sessions_after d t j s Hok Hs) as [(s0 & Hs0 & Hsame' & _)|(_ & _ & Hb')].
  - apply (Hu i j r0 s0); try done. destruct Hsame as (_&_&Hh&_), Hsame' as (_&_&Hh'&_). congruence.
  - destruct Hsame as (_&_&Hh&_). destruct (born_unhashed d t j s Hok Hb' i r0 Hr0). congruence.
  - destruct Hsame' as (_&_&Hh&_). destruct (born_unhashed d t i r Hok Hb j s0 Hs0). congruence.
  - by eapply born_alone.
Qed.

Lemma auth_inv_step sp (h : Hap) t :
  auth_inv sp t -> hap_ok h t -> hap_ids h ## sp -> auth_inv (sp ∪ hap_ids h) (hap_do h t).
Proof.
  intros Hi Hok _. destruct h as [c d|n]; cbn in *; [|rewrite union_empty_r_L; destruct Hi; by constructor].
  destruct Hi as [H1 H2 H3 H4 H5 H6]. constructor.
  - intros id [r' Hr]. destruct (sessions_after d t id r' Hok Hr) as [(r & Hr' & _)|(_ & Hi & _)]; [|set_solver].
    apply elem_of_union_l, H1; eauto.
  - intros id [r' Hr]. destruct (tokens_after d t id r' Hok Hr) as [(r & Hr' & _)|(_ & Hi & _)]; [|set_solver].
    apply elem_of_union_l, H2. eauto.
  - intros id [r' Hr]. destruct (devices_after d t id r' Hok Hr) as [(r & Hr' & _)|(_ & Hi)]; [|set_solver].
    apply elem_of_union_l, H3. eauto.
  - intros id [r' Hr]. destruct (resets_after d t id r' Hok Hr) as [(r & Hr' & _)|(_ & Hi)]; [|set_solver].
    apply elem_of_union_l, H4. eauto.
  - intros id [r' Hr]. destruct (recovery_after d t id r' Hok Hr) as [(r & Hr' & _)|(Hi & _)]; [|set_solver].
    apply elem_of_union_l, H5. eauto.
  - by apply hashes_after.
Qed.

(** ** Facts others keep *)

(** A row once seen is, as long as it is there, one it may have become. *)
Definition kept {V} (tab : Auth -> gmap Z V) (R : V -> V -> Prop) (id : Z) (r : V) (sp : gset Z) (t : Auth) : Prop :=
  id ∈ sp /\ forall r', tab t !! id = Some r' -> R r r'.

Lemma kept_stable {V} (tab : Auth -> gmap Z V) (R : V -> V -> Prop) `{!PreOrder R} id r :
  (forall n t, tab (auth_tick n t) = tab t) ->
  (forall d t id r', deed_ok d t -> tab (deed_do d t) !! id = Some r' ->
     (exists r, tab t !! id = Some r /\ R r r') \/ id ∈ deed_ids d) ->
  stable (kept tab R id r).
Proof.
  intros Ht Hd sp h t [Hin Hk] Hok Hids. split; [set_solver|]. intros r' Hr'. destruct h as [c d|n]; cbn in *.
  - destruct (Hd d t id r' Hok Hr') as [(r0 & Hr0 & HR)|Hi]; [|set_solver]. etrans; [by apply Hk|done].
  - rewrite Ht in Hr'. by apply Hk.
Qed.

Lemma session_kept id r : stable (kept a_sessions session_evolves id r).
Proof.
  apply kept_stable; [apply _|done|]. intros d t i r' Hok H.
  destruct (sessions_after d t i r' Hok H) as [?|(_ & ? & _)]; auto.
Qed.

Lemma code_kept id r : stable (kept a_devices code_evolves id r).
Proof. apply kept_stable; [apply _|done|]. intros d t i r' Hok H. destruct (devices_after d t i r' Hok H) as [?|(_ & ?)]; auto. Qed.

Lemma reset_kept id r : stable (kept a_resets mail_evolves id r).
Proof. apply kept_stable; [apply _|done|]. intros d t i r' Hok H. destruct (resets_after d t i r' Hok H) as [?|(_ & ?)]; auto. Qed.

Lemma recovery_kept id r : stable (kept a_recovery recovery_evolves id r).
Proof. apply kept_stable; [apply _|done|]. intros d t i r' Hok H. destruct (recovery_after d t i r' Hok H) as [?|(? & _)]; auto. Qed.

Lemma token_kept id r : stable (kept a_tokens token_evolves id r).
Proof. apply kept_stable; [apply _|done|]. intros d t i r' Hok H. destruct (tokens_after d t i r' Hok H) as [?|(_ & ? & _)]; auto. Qed.

(** Seen now, it is kept. *)
Lemma session_seen sp t id r : auth_inv sp t -> a_sessions t !! id = Some r -> kept a_sessions session_evolves id r sp t.
Proof. intros Hi Hr. split; [apply Hi; eauto|]. intros r' Hr'. assert (r' = r) as -> by congruence. done. Qed.

Lemma reset_seen sp t id r : auth_inv sp t -> a_resets t !! id = Some r -> kept a_resets mail_evolves id r sp t.
Proof. intros Hi Hr. split; [eapply ai_resets; eauto|]. intros r' Hr'. assert (r' = r) as -> by congruence. done. Qed.
End machine.
