(* ===== verification/AuthServe.v ===== *)
(** The account server: the requests the routes of backend/internal/auth/http.go, devicehttp.go and
    devicepage.go take, each with the guards of its route; what may warrant each of its deeds; and what
    each answer says of them. *)
From S2P Require Import Prelude GoStd Snowflake Chat InviteCode Rows.
From S2P Require Export DeviceFlow AuthDeeds.

(** ** Requests *)

(** The routes behind RequireUserActor and RequireLiveSession. *)
Inductive Op :=
  | OMint (name : string) (scopes : list string)
  | OListTokens
  | ORevokeToken (id : Z)
  | OLogoutAll
  | OBeginTotp
  | OConfirmTotp (code : list Z)
  | ODisable (code : list Z)
  | ORegenerate (code : list Z)
  | ORevokeSession (id : Z).

(** A [user] and [session] are those of the access token presented. [QIssueExchange] is a provider
    callback that resolved to an account; [QSignInOf] and [QLive] are the gateway's questions. *)
Inductive Request :=
  | QLogin (email password : string) (l : LoginInput)
  | QVerifyTwoFactor (challenge : string) (code : list Z)
  | QExchange (code verifier : string) (l : LoginInput)
  | QIssueExchange (user : Z) (challenge : string)
  | QRefresh (raw : string)
  | QLogout (raw : string)
  | QRequestReset (email : string)
  | QConfirmReset (raw password : string)
  | QRequestVerify (email : string)
  | QConfirmVerify (raw : string)
  | QGuarded (user session : Z) (op : Op)
  | QListSessions (user session : Z)
  | QSignInOf (user session : Z)
  | QLive (user : Z) (signIn : SignIn)
  | QAuthenticate (raw : string)
  | QDeviceCode (device name : string)
  | QDeviceToken (raw : string) (ip : option string)
  | QPageEntry (code : list Z)
  | QPageSignIn (token email password : string)
  | QPageFactor (token : string) (code : list Z)
  | QPageApprove (token : string) (approve : bool)
  | QSweep (rounds : nat).

Inductive Answer :=
  | ADone
  | APair (pair : TokenPair)
  | ALogin (a : LoginAnswer)
  | ARevoked (r : RevocationResult)
  | ADevices (l : list SessionDevice)
  | AMinted (id : Z) (row : ApiToken) (raw : string)
  | ATokens (l : list (Z * ApiToken))
  | ACodes (l : list string)
  | AEnrolled (secret uri : string)
  | AActor (a : Actor)
  | AAuth (a : DeviceAuth)
  | AText (raw : string)
  | AStep (s : PageStep)
  | ADecision (o : option DeviceDenyOutcome)
  | ASwept (r : SweepResult)
  | ASignIn (s : SignIn).

Section serve.
Context {digest : Digest} {citext : Citext} {out : Outside} (svc : Service).

Definition answer {A} (f : A -> Answer) (p : AuthProc A) : AuthProc Answer := x ← p; mret (f x).
Definition done_by {A} (p : AuthProc A) : AuthProc Answer := answer (fun _ => ADone) p.

Definition beginTOTPEnrollment (user : Z) : AuthProc (string * string) :=
  row ← db (no_rows_as ENotFound (GetUserByID user));
  BeginTOTPEnrollment user (u_email row).

Definition serve_op (user session : Z) (op : Op) : AuthProc Answer :=
  match op with
  | OMint name scopes => answer (fun m => AMinted m.1.1 m.1.2 m.2) (MintAPIToken user name scopes)
  | OListTokens => answer ATokens (ListAPITokens user)
  | ORevokeToken id => done_by (RevokeAPITokenOf user id)
  | OLogoutAll => answer ARevoked (RevokeOtherSessions svc user session)
  | OBeginTotp => answer (fun k => AEnrolled k.1 k.2) (beginTOTPEnrollment user)
  | OConfirmTotp code => answer ACodes (ConfirmTOTPEnrollment user code)
  | ODisable code => answer ARevoked (DisableTwoFactor svc user session code)
  | ORegenerate code => answer ACodes (RegenerateRecoveryCodes user code)
  | ORevokeSession id => done_by (RevokeSessionDevice svc user id)
  end.

Definition serve (q : Request) : AuthProc Answer :=
  match q with
  | QLogin email password l => answer ALogin (Login svc email password l)
  | QVerifyTwoFactor challenge code => answer APair (CompleteTwoFactorLogin svc challenge code)
  | QExchange code verifier l => answer ALogin (ExchangeOAuthCode svc code verifier l)
  | QIssueExchange user challenge => answer AText (issueOAuthExchangeCode user challenge)
  | QRefresh raw => answer APair (Refresh svc raw)
  | QLogout raw => done_by (Logout svc raw)
  | QRequestReset email => done_by (RequestPasswordReset svc email)
  | QConfirmReset raw password => done_by (ConfirmPasswordReset svc raw password)
  | QRequestVerify email => done_by (RequestEmailVerification svc email)
  | QConfirmVerify raw => done_by (ConfirmEmailVerification raw)
  | QGuarded user session op => requireLiveDevice user session;; serve_op user session op
  | QListSessions user session => answer ADevices (ListSessionDevices user session)
  | QSignInOf user session => answer ASignIn (SignInOf user session)
  | QLive user signIn => done_by (RequireLiveSignIn user signIn)
  | QAuthenticate raw => answer AActor (AuthenticateAPIToken raw)
  | QDeviceCode device name => answer AAuth (StartDeviceAuth device name)
  | QDeviceToken raw ip => answer APair (RedeemDeviceCode svc raw ip)
  | QPageEntry code => answer AText (devicePageEntry code)
  | QPageSignIn token email password => answer AStep (devicePageSignIn svc token email password)
  | QPageFactor token code => answer AStep (devicePageFactor token code)
  | QPageApprove token approve => answer ADecision (devicePageApprove token approve)
  | QSweep rounds => answer ASwept (SweepExpired rounds)
  end.

(** ** Evidence *)

(** The call saw the account with its address verified and a password this one matches. *)
Definition password_shown (log : list Deed) (user : Z) (password : string) : Prop :=
  exists row, Saw (OUser user row) ∈ log /\ is_Some (u_verified row) /\
    argon2id_Compare password (default "" (u_password row)) = Some true.

(** It saw that the account has no confirmed second factor. *)
Definition no_factor (log : list Deed) (user : Z) : Prop :=
  exists r, Saw (OTotp user r) ∈ log /\ forall row, r = Some row -> tt_confirmed row = None.

(** What it saw of the account's factor. *)
Definition factor_seen (log : list Deed) (user : Z) (secret : string) : Prop :=
  exists row, Saw (OTotp user (Some row)) ∈ log /\ is_Some (tt_confirmed row) /\
    openTOTPSecret (tt_secret row) = inr secret.

(** It spent the step the code belongs to, or the recovery code it is. *)
Definition factor_proved (log : list Deed) (user : Z) (code : list Z) : Prop :=
  (exists secret step, factor_seen log user secret /\ DUseStep user step ∈ log /\
     hotp_Validate code step secret = HotpValid true) \/
  (exists id normalized, normalizeTypedCode code recoveryCodeLength = Some normalized /\
     DUseRecovery id user (HashToken normalized) ∈ log).

(** It saw the session of the access token and that its sign-in was live. *)
Definition live_seen (log : list Deed) (user session : Z) : Prop :=
  exists r, Saw (OSession session r) ∈ log /\ ses_user r = user /\
    Saw (OLive user (ses_device r) (ses_first r)) ∈ log.

(** It saw the session the refresh token names. *)
Definition session_seen_by (log : list Deed) (raw : string) (id : Z) (r : Session) : Prop :=
  Saw (OSession id r) ∈ log /\ ParseRefreshToken raw = Some (ses_hash r).

(** ** Warrants *)

Definition may_use_factor (user : Z) (code : list Z) (log : list Deed) (d : Deed) : Prop :=
  match d with
  | DUseStep u step => u = user /\ exists secret, factor_seen log user secret /\
      hotp_Validate code step secret = HotpValid true
  | DUseRecovery _ u hash => u = user /\ exists normalized,
      normalizeTypedCode code recoveryCodeLength = Some normalized /\ hash = HashToken normalized
  | _ => False
  end.

Definition may_op (user session : Z) (op : Op) (log : list Deed) (d : Deed) : Prop :=
  live_seen log user session /\
  match op, d with
  | OMint _ _, DMint _ u _ _ scopes => u = user /\ Forall (fun s => s ∈ AllScopes) scopes
  | ORevokeToken id, DRevokeToken i u => i = id /\ u = user
  | OLogoutAll, DEndAll u _ => u = user
  | OBeginTotp, DEnroll u _ => u = user /\ no_factor log user
  | OConfirmTotp code, DConfirm u step codes => u = user /\ exists row secret,
      Saw (OTotp user (Some row)) ∈ log /\ tt_confirmed row = None /\
      openTOTPSecret (tt_secret row) = inr secret /\ hotp_Validate code step secret = HotpValid true
  | ODisable code, DDisable u _ => u = user /\ factor_proved log user code
  | ORegenerate code, DRegenerate u _ => u = user /\ factor_proved log user code
  | ODisable code, d | ORegenerate code, d => may_use_factor user code log d
  | ORevokeSession id, DEndDevice u device => u = user /\ exists r, Saw (OSession id r) ∈ log /\
      ses_user r = user /\ ses_device r = device
  | _, _ => False
  end.

(** What each deed of a call rests on: its request and its deeds before. *)
Definition may (q : Request) (log : list Deed) (d : Deed) : Prop :=
  match d with
  | Saw _ => True
  | _ =>
      match q, d with
      | QLogin _ password l, DSignIn _ user device _ _ _ _ =>
          normalizeDeviceID (li_device l) = inr device /\ password_shown log user password /\ no_factor log user
      | QLogin _ _ _, DAskVerify _ _ _ _ _ => True
      | QVerifyTwoFactor challenge code, DSignIn _ user device _ _ _ _ =>
          exists n l, parseTwoFactorChallenge n challenge = inr (user, l) /\ li_device l = device /\
            factor_proved log user code
      | QVerifyTwoFactor challenge code, d =>
          exists n user l, parseTwoFactorChallenge n challenge = inr (user, l) /\ may_use_factor user code log d
      | QExchange _ _ l, DSignIn _ user device _ _ _ _ =>
          normalizeDeviceID (li_device l) = inr device /\ (exists id, DUseExchange id user ∈ log) /\ no_factor log user
      | QExchange _ _ _, DUseExchange _ _ => True
      | QIssueExchange user _, DIssueExchange _ _ u _ _ => u = user
      | QRefresh raw, DRotate old _ _ _ => exists r, session_seen_by log raw old r
      | QRefresh raw, DEndDevice user device =>
          exists id r, session_seen_by log raw id r /\ is_Some (ses_replaced r) /\ ses_user r = user /\ ses_device r = device
      | QLogout raw, DEndSession id => exists r, session_seen_by log raw id r
      | QRequestReset _, DAskReset _ _ _ _ _ => True
      | QConfirmReset raw _, DReset id user _ => exists r, Saw (OReset id r) ∈ log /\ ml_user r = user /\
          ParsePasswordResetToken raw = Some (ml_hash r)
      | QRequestVerify _, DAskVerify _ _ _ _ _ => True
      | QConfirmVerify _, DVerify _ => True
      | QGuarded user session op, d => may_op user session op log d
      | QAuthenticate _, DTouch _ => True
      | QDeviceCode _ _, DIssueCode _ _ _ _ _ _ => True
      | QDeviceToken raw _, DPoll _ => True
      | QDeviceToken raw _, DRedeem _ presented _ _ _ _ _ _ _ => ParseDeviceCode raw = Some presented
      | QPageSignIn _ _ _, DAskVerify _ _ _ _ _ => True
      | QPageFactor token code, d =>
          exists n c, parseDeviceToken n token deviceFactorTokenType = inr c /\ may_use_factor (dcn_user c) code log d
      | QPageApprove token true, DApprove id user =>
          exists n c, parseDeviceToken n token deviceApprovalTokenType = inr c /\ id = dcn_code_id c /\ user = dcn_user c
      | QPageApprove token false, DDeny id =>
          exists n c, parseDeviceToken n token deviceApprovalTokenType = inr c /\ id = dcn_code_id c
      | QPageApprove token false, DTakeBack id user =>
          exists n c, parseDeviceToken n token deviceApprovalTokenType = inr c /\ id = dcn_code_id c /\ user = dcn_user c
      | QSweep _, (DSweepResets | DSweepExchange | DSweepVerify | DSweepCodes | DSweepSessions _) => True
      | _, _ => False
      end
  end.

(** ** Answers *)

Definition starts_session (d : Deed) : bool :=
  match d with DSignIn _ _ _ _ _ _ _ | DRotate _ _ _ _ | DRedeem _ _ _ _ _ _ _ _ _ => true | _ => false end.

Definition starts_none (log : list Deed) : Prop := forall d, d ∈ log -> starts_session d = false.

(** The device spared is the one the call came with, or none. *)
Definition spared (log : list Deed) (user session : Z) (keep : string) : Prop :=
  keep = ""%string \/ exists r, Saw (OSession session r) ∈ log /\ ses_user r = user /\ keep = ses_device r.

Definition post_op (user session : Z) (op : Op) (log : list Deed) (r : Err + Answer) : Prop :=
  match op, r with
  | OLogoutAll, inr (ARevoked _) => exists keep, DEndAll user keep ∈ log /\ spared log user session keep
  | ODisable _, inr (ARevoked _) => exists keep, DDisable user keep ∈ log /\ spared log user session keep
  | OConfirmTotp _, inr (ACodes l) => exists step codes, DConfirm user step codes ∈ log /\ codes.*2 = HashToken <$> l
  | ORegenerate _, inr (ACodes l) => exists codes, DRegenerate user codes ∈ log /\ codes.*2 = HashToken <$> l
  | ORevokeSession id, inr ADone => exists r, Saw (OSession id r) ∈ log /\ ses_user r = user /\
      DEndDevice user (ses_device r) ∈ log
  | OMint _ _, inr (AMinted id row raw) => DMint id user (tok_name row) (HashToken raw) (tok_scopes row) ∈ log
  | ORevokeToken id, inr ADone => DRevokeToken id user ∈ log
  | _, _ => True
  end.

(** What an answer says the call has done. *)
Definition post (q : Request) (log : list Deed) (r : Err + Answer) : Prop :=
  match r with
  | inl e =>
      match q, e with
      | QRefresh raw, ESessionReuse => starts_none log /\ exists id r, session_seen_by log raw id r /\
          (ses_revoked r = None \/ DEndDevice (ses_user r) (ses_device r) ∈ log)
      | _, _ => starts_none log
      end
  | inr a =>
      match q, a with
      | QLogin _ _ _, ALogin (SignedIn p) | QExchange _ _ _, ALogin (SignedIn p)
      | QVerifyTwoFactor _ _, APair p => exists id user device name ip expires,
          DSignIn id user device (HashToken (tp_refresh p)) name ip expires ∈ log
      | QRefresh raw, APair p => exists old new r expires, session_seen_by log raw old r /\
          DRotate old new (HashToken (tp_refresh p)) expires ∈ log
      | QDeviceToken raw _, APair p => exists code presented id user device name ip expires,
          DRedeem code presented id user device (HashToken (tp_refresh p)) name ip expires ∈ log
      | QConfirmReset raw _, ADone => exists id r h, Saw (OReset id r) ∈ log /\
          ParsePasswordResetToken raw = Some (ml_hash r) /\ DReset id (ml_user r) h ∈ log
      | QGuarded user session op, a => live_seen log user session /\ post_op user session op log (inr a)
      | QLive user s, ADone => Saw (OLive user (si_Device s) (si_Since s)) ∈ log
      | QAuthenticate raw, AActor a => exists id row, Saw (OToken id row) ∈ log /\
          ParseAPIToken raw = Some (tok_hash row) /\ a = mkActor ActorAPIToken (tok_user row) 0 id (tok_scopes row)
      | QPageSignIn _ _ password, AStep (AskApproval token) => exists env id code user,
          password_shown log user password /\ no_factor log user /\
          token = jwt_sign (device_claims env deviceApprovalTokenType id code user)
      | QPageFactor _ code, AStep (AskApproval token) => exists env id dcode user,
          factor_proved log user code /\
          token = jwt_sign (device_claims env deviceApprovalTokenType id dcode user)
      | QPageApprove token _, ADecision o => exists n c,
          parseDeviceToken n token deviceApprovalTokenType = inr c /\
          match o with
          | None => DApprove (dcn_code_id c) (dcn_user c) ∈ log
          | Some DeviceDenyStopped => DDeny (dcn_code_id c) ∈ log
          | Some DeviceDenyRevoked => DTakeBack (dcn_code_id c) (dcn_user c) ∈ log
          | Some DeviceDenyTooLate => True
          end
      | _, _ => True
      end
  end.
End serve.
