(* ===== verification/AuthRules.v ===== *)
(** Rules for the steps of an account request: which deeds a statement or a transaction is, each
    transaction's body one deed where it succeeds, and what the pieces requests share (looking a user up,
    proving a password or a second factor, starting a session, ending one) leave behind. *)
From S2P Require Import Prelude GoStd Snowflake InviteCode Rows.
From S2P Require Export AuthDeeds AuthServe.

(** ** The logic *)

Section logic.
Context {citext : Citext}.

Abbreviation does := (does auth_tick deed_ok deed_do deed_ids auth_inv).
Abbreviation relies := (relies auth_tick deed_ok deed_do deed_ids).
Abbreviation Warrant := (list Deed -> Deed -> Prop).

(** [runs W log p Q]: whatever the tables, [p] does warranted deeds, and when it ends they are [Q]'s. *)
Definition runs {B} (W : Warrant) (log : list Deed) (p : AuthProc B) (Q : list Deed -> Err + B -> Prop) : Prop :=
  forall X sp t g, does W X log p sp t g (fun _ log r _ _ _ => Q log r).

Section rules.
Context (W : Warrant) (HW : forall log o, W log (Saw o)).

Lemma runs_ret {B} log (a : B) (Q : list Deed -> Err + B -> Prop) : Q log (inr a) -> runs W log (mret a) Q.
Proof. intros H X sp t g. exact H. Qed.

Lemma runs_fail {B} log e (Q : list Deed -> Err + B -> Prop) : Q log (inl e) -> runs W log (fail e) Q.
Proof. intros H X sp t g. exact H. Qed.

Lemma runs_pure {B} log r (Q : list Deed -> Err + B -> Prop) : Q log r -> runs W log (pure r) Q.
Proof. intros H X sp t g. exact H. Qed.

Lemma runs_mono {B} log (p : AuthProc B) (Q R : list Deed -> Err + B -> Prop) :
  runs W log p Q -> (forall log' r, Q log' r -> R log' r) -> runs W log p R.
Proof. intros H HQ X sp t g. eapply does_mono; [apply H|]. intros. by apply HQ. Qed.

Lemma runs_bind {B C} log (p : AuthProc C) (k : C -> AuthProc B) (Q : list Deed -> Err + B -> Prop) :
  runs W log p (fun log' r => match r with inl e => Q log' (inl e) | inr a => runs W log' (k a) Q end) ->
  runs W log (p ≫= k) Q.
Proof.
  intros H X sp t g. apply does_bind. eapply does_mono; [apply H|]. intros X' log' [e|a] sp' t' g'; [done|].
  intros Hk. apply Hk.
Qed.

Lemma runs_fail_if {B} log (b : bool) e (k : unit -> AuthProc B) (Q : list Deed -> Err + B -> Prop) :
  (b = true -> Q log (inl e)) -> (b = false -> runs W log (k tt) Q) -> runs W log (fail_if b e ≫= k) Q.
Proof. intros H1 H2 X sp t g. apply does_fail_if; [exact H1|]. intros Hb. by apply H2. Qed.

Lemma runs_check {log} (b : bool) e (Q : list Deed -> Err + unit -> Prop) :
  (b = true -> Q log (inl e)) -> (b = false -> Q log (inr tt)) -> runs W log (fail_if b e) Q.
Proof. intros H1 H2 X sp t g. destruct b; [by apply H1|by apply H2]. Qed.

Lemma runs_try {B} log (p : AuthProc B) (Q : list Deed -> Err + (Err + B) -> Prop) :
  runs W log p (fun log' r => Q log' (inr r)) -> runs W log (try p) Q.
Proof. intros H X sp t g. apply does_try. apply H. Qed.

Lemma runs_local {B} log (f : AuthEnv -> Err + B) (Q : list Deed -> Err + B -> Prop) :
  (forall env, Q log (f env)) -> runs W log (local f) Q.
Proof. intros H X sp t g. apply does_local. intros. apply H. Qed.

Lemma runs_reading {B} log (f : Auth -> Err + B) (Q : list Deed -> Err + B -> Prop) :
  Q log (inl EDb) ->
  (forall sp t, auth_inv sp t -> exists oo : option Obs, from_option (fun o => obs_ok o t) True oo /\
     Q (log ++ option_list (Saw <$> oo)) (f t)) ->
  runs W log (db (reading f)) Q.
Proof.
  intros H1 H2 X sp t g. apply does_reading; [done|]. intros sp1 t1 g1 _ [Hi _ _ _ _].
  destruct (H2 sp1 t1 Hi) as (oo & Ho & HQ). exists (Saw <$> oo). split; [|done].
  destruct oo as [o|]; cbn in *; [|done]. split_and!; [done|done|done|apply HW].
Qed.

Lemma runs_writing {B} log (f : Auth -> Err + (B * Auth)) (Q : list Deed -> Err + B -> Prop) :
  (forall e, Q log (inl e)) ->
  (forall sp t a t2, auth_inv sp t -> f t = inr (a, t2) -> exists d, deed_ids d = ∅ /\ deed_ok d t /\
     t2 = deed_do d t /\ W log d /\ Q (log ++ [d]) (inr a)) ->
  runs W log (db (writing f)) Q.
Proof.
  intros H1 H2 X sp t g. apply does_writing; [done|]. intros sp1 t1 g1 a t2 _ [Hi _ _ _ _] Hf.
  destruct (H2 sp1 t1 a t2 Hi Hf) as (d & Hids & Hok & Ht & Hw & HQ). exists d. rewrite Hids.
  split_and!; try done.
Qed.

Lemma runs_tx {B} log (fn : AuthEnv -> AuthM B) (Q : list Deed -> Err + B -> Prop) :
  (forall env, quiet (fn env)) -> (forall e, Q log (inl e)) ->
  (forall env sp (s : AuthSt), auth_inv sp (tabs s) -> gen_ok (gen s) ->
     wp (fn env) (fun a s2 => exists d minted, (forall i, i ∈ minted -> mark (gen s) < i <= mark (gen s2)) /\
       deed_ids d ⊆ minted /\ deed_ok d (tabs s) /\ tabs s2 = deed_do d (tabs s) /\ W log d /\
       Q (log ++ [d]) (inr a)) s) ->
  runs W log (tx fn) Q.
Proof.
  clear HW. intros Hq H1 H2 X sp t g. apply does_tx; [done|by intros|]. intros env sp1 s1 _ [Hi Hg _ _ _].
  eapply wp_mono; [by apply (H2 env sp1 s1)|]. intros a s2 (d & minted & Hm & Hids & Hok & Ht & Hw & HQ).
  exists d, minted. split_and!; try done. set_solver.
Qed.

(** An id minted for what follows. *)
Lemma runs_nextID {B} log (k : Z -> AuthProc B) (Q : list Deed -> Err + B -> Prop) :
  (forall e, Q log (inl e)) ->
  (forall id X sp t g, id ∈ X -> does W X log (k id) sp t g (fun _ log r _ _ _ => Q log r)) ->
  runs W log (nextID ≫= k) Q.
Proof.
  clear HW. intros H1 H2 X sp t g. apply does_bind. apply does_ids_Next; [intros; by apply H1|].
  intros sp1 t1 g1 id _ _. apply H2. set_solver.
Qed.
End rules.

(** An error told apart. *)
Definition no_rows {B} (e : Err) (r : Err + B) : Err + B := match r with inl ENoRows => inl e | _ => r end.

Lemma db_no_rows_reading {B} W X log e (f : Auth -> Err + B) sp t g Φ :
  does W X log (db (reading (fun t => no_rows e (f t)))) sp t g Φ ->
  does W X log (db (no_rows_as e (reading f))) sp t g Φ.
Proof.
  intros H env sp1 s1 Hr Hs. specialize (H env sp1 s1 Hr Hs).
  assert (no_rows_as e (reading f) s1 = reading (fun t => no_rows e (f t)) s1) as ->; [|exact H].
  unfold no_rows_as, reading. destruct (next_fault s1) as [[] s2]; [done|]. destruct (f (tabs s2)) as [[]|]; done.
Qed.

Lemma db_no_rows_writing {B} W X log e (f : Auth -> Err + (B * Auth)) sp t g Φ :
  does W X log (db (writing (fun t => no_rows e (f t)))) sp t g Φ ->
  does W X log (db (no_rows_as e (writing f))) sp t g Φ.
Proof.
  intros H env sp1 s1 Hr Hs. specialize (H env sp1 s1 Hr Hs).
  assert (no_rows_as e (writing f) s1 = writing (fun t => no_rows e (f t)) s1) as ->; [|exact H].
  unfold no_rows_as, writing. destruct (next_fault s1) as [[] s2]; [done|]. destruct (f (tabs s2)) as [[]|[? ?]]; done.
Qed.
End logic.

(** ** Growing logs *)

(** Deeds that start no session, after those of [log]. *)
Definition grows (log log' : list Deed) : Prop := exists ext, log' = log ++ ext /\ starts_none ext.

#[export] Instance grows_pre : PreOrder grows.
Proof.
  split.
  - intros log. exists []. rewrite app_nil_r. split; [done|]. by intros d Hd%elem_of_nil.
  - intros l1 l2 l3 (e1 & -> & H1) (e2 & -> & H2). exists (e1 ++ e2). rewrite app_assoc. split; [done|].
    intros d [?|?]%elem_of_app; auto.
Qed.

Lemma grows_snoc log d : starts_session d = false -> grows log (log ++ [d]).
Proof. intros Hd. exists [d]. split; [done|]. by intros d' ->%list_elem_of_singleton. Qed.

Lemma grows_saw log (oo : option Obs) : grows log (log ++ option_list (Saw <$> oo)).
Proof. exists (option_list (Saw <$> oo)). split; [done|]. destruct oo; cbn; [by intros d ->%list_elem_of_singleton|by intros d Hd%elem_of_nil]. Qed.

Lemma grows_in log log' d : grows log log' -> d ∈ log -> d ∈ log'.
Proof. intros (ext & -> & _) H. apply elem_of_app. by left. Qed.

Lemma grows_none log log' : grows log log' -> starts_none log -> starts_none log'.
Proof. intros (ext & -> & H) H' d [?|?]%elem_of_app; auto. Qed.

Lemma in_snoc {A} (l : list A) x : x ∈ l ++ [x].
Proof. apply elem_of_app. right. by left. Qed.

Lemma in_saw log o : Saw o ∈ log ++ option_list (Saw <$> Some o).
Proof. apply in_snoc. Qed.

#[export] Hint Resolve grows_snoc grows_saw in_snoc in_saw : norite.

Section evidence.
Context {digest : Digest} {citext : Citext} {out : Outside}.

Lemma password_shown_grows log log' u pw : grows log log' -> password_shown log u pw -> password_shown log' u pw.
Proof. intros Hg (row & H & ?). exists row. split; [by eapply grows_in|done]. Qed.

Lemma no_factor_grows log log' u : grows log log' -> no_factor log u -> no_factor log' u.
Proof. intros Hg (r & H & ?). exists r. split; [by eapply grows_in|done]. Qed.

Lemma live_seen_grows log log' u s : grows log log' -> live_seen log u s -> live_seen log' u s.
Proof. intros Hg (r & H & Hu & Hl). exists r. split_and!; [by eapply grows_in|done|by eapply grows_in]. Qed.

Lemma factor_seen_grows log log' u s : grows log log' -> factor_seen log u s -> factor_seen log' u s.
Proof. intros Hg (r & H & ?). exists r. split; [by eapply grows_in|done]. Qed.

Lemma factor_proved_grows log log' u c : grows log log' -> factor_proved log u c -> factor_proved log' u c.
Proof.
  intros Hg [(s & st & H1 & H2 & H3)|(i & n & H1 & H2)]; [left|right].
  - exists s, st. split_and!; [by eapply factor_seen_grows|by eapply grows_in|done].
  - exists i, n. split; [done|]. by eapply grows_in.
Qed.

Lemma session_seen_by_grows log log' raw id r : grows log log' -> session_seen_by log raw id r -> session_seen_by log' raw id r.
Proof. intros Hg [H ?]. split; [by eapply grows_in|done]. Qed.
End evidence.

(** ** Transactions *)

(** ** Statements inside a transaction *)

Section tx.
Context {digest : Digest} {citext : Citext} {out : Outside} (svc : Service).
Implicit Types s : AuthSt.

(** What a computation may fail with. *)
Definition fails {A} (P : Err -> Prop) (m : AuthM A) : Prop := forall s e s', m s = (inl e, s') -> P e.

Lemma fails_bind {A B} P (m : AuthM A) (k : A -> AuthM B) :
  fails P m -> (forall a, fails P (k a)) -> fails P (m ≫= k).
Proof.
  intros Hm Hk s e s'. unfold mbind, M_bind. destruct (m s) as [[e1|a] s1] eqn:E; [|by apply Hk].
  intros [= <- <-]. by eapply Hm.
Qed.

Lemma fails_writing {A} P (f : Auth -> A) (h : Auth -> Auth) : P EDb -> fails P (writing (fun t => inr (f t, h t))).
Proof. intros H s e s'. unfold writing. destruct (next_fault s) as [[] s1]; [by intros [= <- _]|done]. Qed.

Lemma fails_ids_Next P : P EBlocked -> P EEpochExhausted -> fails P (ids_Next (Tab := Auth) (Msg := AuthMsg)).
Proof.
  intros H1 H2 s e s'. unfold ids_Next. destruct (Next _ _) as [[[[id|] g] c]|]; [done|by intros [= <- _]..].
Qed.

Lemma fails_RunInTx {A} P (m : AuthM A) : fails P m -> P EDb -> fails P (RunInTx m).
Proof.
  intros Hm H s e s'. unfold RunInTx. destruct (next_fault s) as [[] s1]; [by intros [= <- _]|].
  destruct (m _) as [[e1|a] s2] eqn:E; [intros [= <- _]; by eapply Hm|].
  destruct (next_fault s2) as [[] s3]; [by intros [= <- _]|done].
Qed.

(** An id minted in a transaction is later than any before. *)
Lemma wp_minted (Q : Z -> AuthSt -> Prop) s :
  gen_ok (gen s) ->
  (forall id g c, gen_ok g -> mark (gen s) < id <= mark g -> Q id (with_gen g c s)) -> wp ids_Next Q s.
Proof.
  intros Hg H. unfold wp, ids_Next. destruct (Next (gen s) (clock s)) as [[[[id|] g] c]|] eqn:E; [|done..].
  destruct (Next_spec _ _ _ _ _ Hg E) as (Hg' & _ & Hmk & -> & _). apply H; [done|lia].
Qed.

Lemma wp_endConnections r (Q : unit -> AuthSt -> Prop) s :
  (forall s', tabs s' = tabs s -> Q tt s') -> wp (endConnections svc r) Q s.
Proof.
  intros H. unfold endConnections. destruct (negb (svc_events svc)); [by apply H|].
  apply wp_bind. destruct (Revocation_Before r =? 0).
  - apply wp_ids_Next. intros id g c. by apply H.
  - by apply H.
Qed.

Lemma wp_revoking P (Q : Z -> AuthSt -> Prop) s :
  (forall n s', tabs s' = end_sessions P (tabs s) -> Q n s') -> wp (revoking P) Q s.
Proof. intros H. unfold revoking. wp_step. by apply H. Qed.

Lemma wp_revokeEverything user keep (Q : RevocationResult -> AuthSt -> Prop) s :
  (forall r s', tabs s' = end_everything user keep (tabs s) -> Q r s') -> wp (revokeEverything svc user keep) Q s.
Proof.
  intros H. unfold revokeEverything. apply wp_bind.
  assert (forall Q' : Z -> AuthSt -> Prop, (forall n s', tabs s' = end_sessions (in_scope user keep) (tabs s) -> Q' n s') ->
    wp (if (keep =? "")%string then RevokeAllSessionsForUser user
        else RevokeAllSessionsForUserExceptDevice user keep) Q' s) as Hs.
  { intros Q' H'. unfold RevokeAllSessionsForUser, RevokeAllSessionsForUserExceptDevice, in_scope in *.
    by destruct (keep =? "")%string; apply wp_revoking. }
  apply Hs. intros n s1 H1. unfold RevokeAllAPITokensForUser, RevokeOAuthExchangeCodesForUser, RevokeDeviceCodesForUser.
  wp_step. wp_step. wp_step. wp_step. wp_step. wp_step. wp_step. apply wp_endConnections. intros s2 H2.
  wp_step. apply H. rewrite H2. cbn [tabs with_tabs with_faults]. rewrite H1. done.
Qed.

(** What an insertion that succeeds says of its unique columns. *)
Lemma unused_id {V} (m : gmap Z V) id : ~ is_Some (m !! id) -> new_in id m.
Proof. by intros H%eq_None_not_Some. Qed.

Lemma unused_hash {V} (h : V -> string) hash (m : gmap Z V) :
  existsb (fun kv => (h kv.2 =? hash)%string) (map_to_list m) = false -> unhashed h hash m.
Proof.
  intros H i r Hr Hh. apply not_true_iff_false in H. apply H, existsb_exists. exists (i, r).
  split; [apply list_elem_of_In, elem_of_map_to_list, Hr|]. by apply String.eqb_eq.
Qed.

(** No two sessions have the new one's id or token. *)
Lemma session_conflict_none t id user hash : session_conflict t id user hash = None -> fresh_session id hash t.
Proof.
  unfold session_conflict. destruct (_ || _) eqn:E; [done|]. intros _. bool_hyps.
  split; [by apply unused_id|by apply unused_hash].
Qed.

Lemma wp_CreateSession id user device hash name ip expires first (Q : Session -> AuthSt -> Prop) s :
  (forall r s', fresh_session id hash (tabs s) ->
     tabs s' = put_session id (new_session (a_now (tabs s)) user device hash name ip expires first) (tabs s) -> Q r s') ->
  wp (CreateSession id user device hash name ip expires first) Q s.
Proof.
  intros H. unfold CreateSession. wp_step. destruct (session_conflict _ _ _ _) eqn:E; simplify_eq.
  apply H; [by eapply session_conflict_none|done].
Qed.

(** Ending sessions leaves every id and token taken. *)
Lemma fresh_after_end P id hash t : fresh_session id hash (end_sessions P t) -> fresh_session id hash t.
Proof.
  intros [Hn Hu]. split.
  - unfold new_in in *. cbn in Hn. rewrite lookup_update_where in Hn. by apply fmap_None in Hn.
  - intros i r Hr. pose proof (Hu i (if P r && ses_live r then revoke_session (a_now t) r else r)) as H.
    cbn in H. rewrite lookup_update_where, Hr in H. specialize (H eq_refl). by destruct (_ && _).
Qed.

Lemma wp_writeSession env id user device name ip hash (Q : unit -> AuthSt -> Prop) s :
  (forall s', fresh_session id hash (tabs s) ->
     tabs s' = sign_in_at id user device hash (optionalString name) ip (e_now env + RefreshTokenTTL) (tabs s) -> Q tt s') ->
  wp (writeSession svc env id user device name ip hash) Q s.
Proof.
  intros H. unfold writeSession. apply wp_bind. apply wp_revoking. intros n s1 H1. apply wp_bind.
  assert (forall s2, tabs s2 = tabs s1 ->
    wp (CreateSession id user device hash (optionalString name) ip (e_now env + RefreshTokenTTL) None;; mret tt) Q s2) as Hc.
  { intros s2 H2. apply wp_bind, wp_CreateSession. intros r s3. rewrite H2, H1. intros Hf Ht. apply wp_ret, H.
    - by eapply fresh_after_end.
    - by rewrite Ht. }
  destruct (0 <? n); [apply wp_endConnections; auto|by apply wp_ret, Hc].
Qed.

(** ** Recovery codes *)

Lemma wp_CreateRecoveryCode id user hash (Q : unit -> AuthSt -> Prop) s :
  (forall fs, new_in id (a_recovery (tabs s)) -> unhashed rec_hash hash (a_recovery (tabs s)) ->
     Q tt (with_tabs (set_recovery (<[id := mkRecoveryCode user hash None (a_now (tabs s))]> (a_recovery (tabs s)))
                       (tabs s)) (with_faults fs s))) ->
  wp (CreateRecoveryCode id user hash) Q s.
Proof.
  intros H. unfold CreateRecoveryCode. wp_step. case_hyp H0; [done|]. case_hyp H0; simplify_eq. bool_hyps.
  apply H; [by apply unused_id|by apply unused_hash].
Qed.

Lemma put_recovery_app user n c1 c2 m :
  put_recovery user n (c1 ++ c2) m = put_recovery user n c2 (put_recovery user n c1 m).
Proof. unfold put_recovery. by rewrite foldl_app. Qed.

Lemma fresh_codes_app user n c1 c2 m :
  fresh_codes user n c1 m -> fresh_codes user n c2 (put_recovery user n c1 m) -> fresh_codes user n (c1 ++ c2) m.
Proof.
  revert m. induction c1 as [|c c1 IH]; intros m; [done|]. intros (Hn & Hu & Hf) H2. cbn. split_and!; [done..|].
  by apply IH.
Qed.

(** The loop that writes the codes. *)
Lemma wp_writeRecoveryCodes user hashes (Q : unit -> AuthSt -> Prop) s :
  gen_ok (gen s) ->
  (forall s' codes, codes.*2 = hashes -> (forall i, i ∈ codes.*1 -> mark (gen s) < i <= mark (gen s')) ->
     fresh_codes user (a_now (tabs s)) codes (a_recovery (tabs s)) ->
     tabs s' = set_recovery (put_recovery user (a_now (tabs s)) codes (a_recovery (tabs s))) (tabs s) -> Q tt s') ->
  wp (writeRecoveryCodes user hashes) Q s.
Proof.
  intros Hg HQ. unfold writeRecoveryCodes. eapply wp_mono.
  - apply (wp_for_each _ _ (fun done s' => gen_ok (gen s') /\ mark (gen s) <= mark (gen s') /\ exists codes, codes.*2 = done /\
      (forall i, i ∈ codes.*1 -> mark (gen s) < i <= mark (gen s')) /\
      fresh_codes user (a_now (tabs s)) codes (a_recovery (tabs s)) /\
      tabs s' = set_recovery (put_recovery user (a_now (tabs s)) codes (a_recovery (tabs s))) (tabs s))).
    + split; [done|]. split; [lia|]. exists []. split_and!; [done|by intros i Hi%elem_of_nil|done|by destruct (tabs s)].
    + intros dn h s1 (Hg1 & Hm1 & codes & Hc & Hi & Hf & Ht) _. apply wp_bind, wp_minted; [done|].
      intros id g c Hg2 Hid. apply wp_CreateRecoveryCode. intros fs. st_simpl. rewrite Ht. cbn. intros Hn Hu.
      split; [done|]. split; [lia|]. exists (codes ++ [(id, h)]). rewrite !fmap_app, Hc. split_and!; [done| | |].
      * intros i [Hin|Hin%list_elem_of_singleton]%elem_of_app; [specialize (Hi i Hin); lia|cbn in Hin; lia].
      * apply fresh_codes_app; [done|]. cbn. by split_and!.
      * by rewrite put_recovery_app.
  - intros [] s' (_ & _ & codes & Hc & Hi & Hf & Ht). by eapply HQ.
Qed.

(** ** Quiet bodies *)

Lemma quiet_AfterCommit (m : AuthMsg) : quiet (AfterCommit (Tab := Auth) m).
Proof. by intros s. Qed.

Lemma quiet_endConnections r : quiet (endConnections svc r).
Proof.
  unfold endConnections. destruct (negb _); [apply quiet_ret|]. apply quiet_bind.
  - destruct (_ =? 0); [apply quiet_ids_Next|apply quiet_ret].
  - intros. apply quiet_AfterCommit.
Qed.

Lemma quiet_revokeEverything user keep : quiet (revokeEverything svc user keep).
Proof.
  unfold revokeEverything, RevokeAllSessionsForUser, RevokeAllSessionsForUserExceptDevice, revoking,
    RevokeAllAPITokensForUser, RevokeOAuthExchangeCodesForUser, RevokeDeviceCodesForUser.
  quiet_steps. apply quiet_endConnections.
Qed.

Lemma quiet_writeSession env id user device name ip hash : quiet (writeSession svc env id user device name ip hash).
Proof.
  unfold writeSession, RevokeSessionsForDevice, revoking, CreateSession. quiet_steps. apply quiet_endConnections.
Qed.

Lemma quiet_writeRecoveryCodes user hashes : quiet (writeRecoveryCodes user hashes).
Proof. unfold writeRecoveryCodes, CreateRecoveryCode. quiet_steps. Qed.

Lemma quiet_buildVerification env user u : quiet (buildVerification svc env user u).
Proof.
  unfold buildVerification, InvalidateOutstandingVerificationTokens, CreateEmailVerificationToken.
  destruct (GenerateEmailVerificationToken _) as [|[]]; quiet_steps.
Qed.

(** Adding a mail token, after its account's others are spent. *)
Lemma create_mail_some t id r m a m' : create_mail t id r m = inr (a, m') -> m !! id = None /\ m' = <[id := r]> m.
Proof.
  unfold create_mail. destruct (_ || _) eqn:E; [done|]. destruct (bool_decide (_ = None)); [done|]. intros [= _ <-].
  bool_hyps. split; [|done]. by apply eq_None_not_Some.
Qed.

Lemma spend_mail_none n user m id : spend_mail n user m !! id = None -> m !! id = None.
Proof. unfold spend_mail. rewrite lookup_update_where. by intros ?%fmap_None. Qed.

Lemma wp_buildVerification env user u (Q : Mail -> AuthSt -> Prop) s :
  gen_ok (gen s) ->
  (forall msg s' id hash, mark (gen s) < id <= mark (gen s') ->
     deed_ok (DAskVerify id user hash (u_email u) (e_now env + EmailVerificationTTL)) (tabs s) ->
     tabs s' = deed_do (DAskVerify id user hash (u_email u) (e_now env + EmailVerificationTTL)) (tabs s) -> Q msg s') ->
  wp (buildVerification svc env user u) Q s.
Proof.
  intros Hg H. unfold buildVerification. destruct (GenerateEmailVerificationToken _) as [e|[raw hash]]; [apply wp_throw|].
  apply wp_bind, wp_minted; [done|]. intros id g c Hg' Hid. unfold InvalidateOutstandingVerificationTokens, CreateEmailVerificationToken.
  apply wp_bind. wp_step. apply wp_bind. apply wp_writing. intros fs' a t2. st_simpl. cbn. intros Ha.
  destruct (create_mail _ _ _ _) as [|[r m']] eqn:E; [done|]. cbn in Ha. injection Ha as _ <-.
  apply create_mail_some in E as [Hn ->]. apply wp_ret. st_simpl. eapply (H _ _ id hash); st_simpl; [done| |done].
  by apply spend_mail_none in Hn.
Qed.
End tx.

#[export] Hint Resolve quiet_endConnections quiet_revokeEverything quiet_writeSession quiet_writeRecoveryCodes
  quiet_buildVerification : norite.

(** ** The pieces requests share *)

Section pieces.
Context {digest : Digest} {citext : Citext} {out : Outside} (svc : Service).
Context (W : list Deed -> Deed -> Prop) (HW : forall log o, W log (Saw o)).
Abbreviation runs := (runs W).

(** ** Statements *)

Lemma runs_no_rows_reading {B} log e (f : Auth -> Err + B) (Q : list Deed -> Err + B -> Prop) :
  runs log (db (reading (fun t => no_rows e (f t)))) Q -> runs log (db (no_rows_as e (reading f))) Q.
Proof. intros H X sp t g. apply db_no_rows_reading, H. Qed.

Lemma runs_no_rows_writing {B} log e (f : Auth -> Err + (B * Auth)) (Q : list Deed -> Err + B -> Prop) :
  runs log (db (writing (fun t => no_rows e (f t)))) Q -> runs log (db (no_rows_as e (writing f))) Q.
Proof. intros H X sp t g. apply db_no_rows_writing, H. Qed.

(** A statement that reads: it fails, or answers and saw what it answers. *)
Lemma runs_look {B} log (f : Auth -> Err + B) (o : B -> option Obs) (Q : list Deed -> Err + B -> Prop) :
  (forall e, Q log (inl e)) ->
  (forall t b, f t = inr b -> from_option (fun x => obs_ok x t) True (o b)) ->
  (forall t b, f t = inr b -> Q (log ++ option_list (Saw <$> o b)) (inr b)) ->
  runs log (db (reading f)) Q.
Proof.
  intros H1 H2 H3. apply runs_reading; [done..|]. intros sp t _. destruct (f t) as [e|b] eqn:E.
  - exists None. cbn. rewrite app_nil_r. by split.
  - exists (o b). split; [by apply H2|by eapply H3].
Qed.

(** The same, where no row is told apart. *)
Lemma runs_look_or {B} log e (f : Auth -> Err + B) (o : B -> option Obs) (Q : list Deed -> Err + B -> Prop) :
  (forall e, Q log (inl e)) ->
  (forall t b, f t = inr b -> from_option (fun x => obs_ok x t) True (o b)) ->
  (forall t b, f t = inr b -> Q (log ++ option_list (Saw <$> o b)) (inr b)) ->
  runs log (db (no_rows_as e (reading f))) Q.
Proof.
  intros H1 H2 H3.
  assert (forall t b, no_rows e (f t) = inr b -> f t = inr b) as Hf by (intros t b; by destruct (f t) as [[]|]).
  apply runs_no_rows_reading, (runs_look _ _ o); eauto.
Qed.

(** A statement that writes: it fails, or does a deed. *)
Lemma runs_write {B} log (f : Auth -> Err + (B * Auth)) (Q : list Deed -> Err + B -> Prop) :
  (forall e, Q log (inl e)) ->
  (forall sp t a t2, auth_inv sp t -> f t = inr (a, t2) -> exists d, deed_ids d = ∅ /\ deed_ok d t /\
     t2 = deed_do d t /\ W log d /\ Q (log ++ [d]) (inr a)) ->
  runs log (db (writing f)) Q.
Proof. by apply runs_writing. Qed.

Lemma runs_write_or {B} log e (f : Auth -> Err + (B * Auth)) (Q : list Deed -> Err + B -> Prop) :
  (forall e, Q log (inl e)) ->
  (forall sp t a t2, auth_inv sp t -> f t = inr (a, t2) -> exists d, deed_ids d = ∅ /\ deed_ok d t /\
     t2 = deed_do d t /\ W log d /\ Q (log ++ [d]) (inr a)) ->
  runs log (db (no_rows_as e (writing f))) Q.
Proof.
  intros H1 H2. apply runs_no_rows_writing, runs_write; [done|]. intros sp t a t2 Hi Hf.
  eapply H2; [done|]. destruct (f t) as [[]|]; cbn in Hf; congruence.
Qed.

(** A transaction that mints nothing. *)
Lemma runs_tx_plain {B} log (fn : AuthEnv -> AuthM B) (Q : list Deed -> Err + B -> Prop) :
  (forall env, quiet (fn env)) -> (forall e, Q log (inl e)) ->
  (forall env sp (s : AuthSt), auth_inv sp (tabs s) ->
     wp (fn env) (fun a s2 => exists d, deed_ids d = ∅ /\ deed_ok d (tabs s) /\ tabs s2 = deed_do d (tabs s) /\
       W log d /\ Q (log ++ [d]) (inr a)) s) ->
  runs log (tx fn) Q.
Proof.
  intros Hq H1 H2. apply runs_tx; [done..|]. intros env sp s Hi _. eapply wp_mono; [by apply (H2 env sp)|].
  intros a s2 (d & Hids & Hok & Ht & Hw & HQ). exists d, ∅. rewrite Hids. by split_and!.
Qed.

(** ** Rows looked up *)

Lemma runs_GetUserByEmail log email (Q : list Deed -> Err + (Z * User) -> Prop) :
  (forall e, Q log (inl e)) -> (forall id u, Q (log ++ [Saw (OUser id u)]) (inr (id, u))) ->
  runs log (db (GetUserByEmail email)) Q.
Proof.
  intros H1 H2. apply (runs_look _ _ (fun b => Some (OUser b.1 b.2))); [done| |by intros t [id u] _; apply H2].
  intros t [id u] Hb. case_hyp Hb; simplify_eq. apply find_row_some in E as [Hr HP]. bool_hyps.
  split; [done|]. by apply unset_true.
Qed.

Lemma user_by_id t id u :
  match a_users t !! id with Some u => if live_user u then inr u else inl ENoRows | None => inl ENoRows end = inr u ->
  obs_ok (OUser id u) t.
Proof. intros H. case_hyp H; [|done]. case_hyp H; simplify_eq. split; [done|]. by apply unset_true. Qed.

Lemma runs_GetUserByID log e id (Q : list Deed -> Err + User -> Prop) :
  (forall e, Q log (inl e)) -> (forall u, Q (log ++ [Saw (OUser id u)]) (inr u)) ->
  runs log (db (no_rows_as e (GetUserByID id))) Q.
Proof.
  intros H1 H2. apply (runs_look_or _ _ _ (fun b => Some (OUser id b))); [done| |by intros; apply H2].
  intros t u Hb. by apply user_by_id.
Qed.

Lemma runs_GetTOTP log user (Q : list Deed -> Err + UserTotp -> Prop) :
  (forall e, e <> ENoRows -> Q log (inl e)) -> (forall e, Q (log ++ [Saw (OTotp user None)]) (inl e)) ->
  (forall r, Q (log ++ [Saw (OTotp user (Some r))]) (inr r)) ->
  runs log (db (GetTOTPForUser user)) Q.
Proof.
  intros H1 H2 H3. apply runs_reading; [done|by apply H1|]. intros sp t _. exists (Some (OTotp user (a_totp t !! user))).
  split; [done|]. cbn. destruct (a_totp t !! user); auto.
Qed.

Lemma runs_GetSessionByID log id (Q : list Deed -> Err + Session -> Prop) :
  (forall e, Q log (inl e)) -> (forall r, Q (log ++ [Saw (OSession id r)]) (inr r)) ->
  runs log (db (GetSessionByID id)) Q.
Proof.
  intros H1 H2. apply (runs_look _ _ (fun b => Some (OSession id b))); [done| |by intros; apply H2].
  intros t r Hb. by case_hyp Hb; simplify_eq.
Qed.

(** ** The second factor *)

Lemma runs_factorSatisfied log user :
  runs log (factorSatisfied user) (fun log' r => grows log log' /\
    match r with inr p => p = mkFactorProof user true /\ no_factor log' user | inl _ => True end).
Proof.
  unfold factorSatisfied. apply runs_bind, runs_try, runs_GetTOTP.
  - intros e He. destruct e; first [by destruct He|by apply runs_fail].
  - intros []; try (apply runs_fail; split; [auto with norite|exact I]).
    apply runs_ret. split; [auto with norite|]. split; [done|]. exists None. split; [apply in_snoc|done].
  - intros r. destruct (unset (tt_confirmed r)) eqn:E; cbn; [apply runs_ret|apply runs_fail];
      (split; [auto with norite|]); [|exact I]. split; [done|]. exists (Some r). split; [apply in_snoc|].
    intros row [= <-]. by apply unset_true.
Qed.

Lemma match_steps_valid secret code steps step :
  match_steps secret code steps = inr (Some step) -> hotp_Validate code step secret = HotpValid true.
Proof.
  induction steps as [|x steps IH]; [done|]. cbn. destruct (hotp_Validate code x secret) as [[]| |] eqn:E; try done.
  by intros [= ->].
Qed.

Lemma runs_proveFactor log user code :
  (forall log' d, grows log log' -> may_use_factor user code log' d -> W log' d) ->
  runs log (proveFactor user code) (fun log' r => grows log log' /\
    match r with inr p => p = mkFactorProof user true /\ factor_proved log' user code | inl _ => True end).
Proof.
  intros Hw. unfold proveFactor. apply runs_bind.
  apply (runs_look_or _ _ _ (fun r => Some (OTotp user (Some r)))); [done| |].
  { intros t b Hb. cbn. by case_hyp Hb; simplify_eq. }
  intros t row _. cbv beta iota. clear t. apply runs_fail_if; [intros _; split; [apply grows_saw|exact I]|]. intros Hc.
  apply runs_bind, runs_pure. destruct (openTOTPSecret (tt_secret row)) as [e|secret] eqn:Es; [split; [apply grows_saw|exact I]|].
  apply runs_bind, runs_local. intros env. apply runs_bind, runs_pure.
  set (log1 := log ++ _). assert (grows log log1) as Hg by (unfold log1; apply grows_saw).
  destruct (matchTOTPStep _ _ _) as [e|[step|]] eqn:Em; [by split| |].
  - apply runs_bind, runs_write; [by split|]. intros sp t n t2 _ Hm. case_hyp Hm; [case_hyp Hm|]; simplify_eq.
    + exists (DUseStep user step). assert (factor_seen log1 user secret) as Hf.
      { exists row. split_and!; [apply in_snoc|by apply unset_false|done]. }
      apply match_steps_valid in Em. split_and!; [done|by eexists|..].
      * cbn. by erewrite at_row_insert.
      * apply Hw; [done|]. split; [done|]. by exists secret.
      * cbn. apply runs_ret. split; [by etrans; [|apply grows_snoc]|]. split; [done|]. left. exists secret, step.
        split_and!; [by eapply factor_seen_grows, Hf; apply grows_snoc|apply in_snoc|done].
    + exists (Saw (OTotp user (Some u))). split_and!; [done..|apply HW|]. cbn. apply runs_fail.
      split; [by etrans; [|apply grows_snoc]|done].
    + exists (Saw (OTotp user None)). split_and!; [done..|apply HW|]. cbn. apply runs_fail.
      split; [by etrans; [|apply grows_snoc]|done].
  - unfold proveRecoveryCode. destruct (normalizeTypedCode _ _) as [nm|] eqn:En; [|by apply runs_fail].
    apply runs_bind, runs_write_or; [by split|]. intros sp t r t2 _ Hm. case_hyp Hm; [|done]. destruct p as [id r0].
    injection Hm as <- <-. apply find_row_some in E as [Hr Hmt].
    exists (DUseRecovery id user (HashToken nm)). split_and!; [done|by eexists|..].
    + cbn. by erewrite at_row_insert.
    + apply Hw; [done|]. split; [done|]. by exists nm.
    + apply runs_ret. split; [by etrans; [|apply grows_snoc]|]. split; [done|]. right. exists id, nm.
      split; [done|apply in_snoc].
Qed.

(** ** Sessions *)

Lemma runs_startSession log user device name ip proof (Q : list Deed -> Err + TokenPair -> Prop) :
  (forall e, Q log (inl e)) ->
  (factorProof_authorizes proof user = true -> forall id hash nm ip expires,
     W log (DSignIn id user device hash nm ip expires)) ->
  (forall id p nm expires, Q (log ++ [DSignIn id user device (HashToken (tp_refresh p)) nm ip expires]) (inr p)) ->
  runs log (startSession svc user device name ip proof) Q.
Proof.
  intros H1 H2 H3. unfold startSession. apply runs_fail_if; [by intros|]. intros Hp%negb_false_iff.
  apply runs_bind, runs_local. intros env. unfold GenerateRefreshToken, generateOpaqueToken.
  destruct (next_read env) as [buf|]; [|done].
  apply runs_nextID; [done|]. intros id X sp t g HX. apply does_bind.
  apply does_tx; [auto with norite|done|]. intros env2 sp1 s1 _ [Hi _ _ _ _].
  apply wp_writeSession. intros s2 Hf Ht. cbn [fst snd].
  eexists (DSignIn id user device _ _ ip _), ∅. split_and!; [by intros i Hi'%elem_of_empty| |exact Hf|exact Ht|by apply H2|].
  - cbn. set_solver.
  - intros g' _. apply does_local. intros env3 sp3 t3 g3 _ _. apply (H3 id (mkPair _ _ _ _)).
Qed.

(** ** Passwords *)

Lemma runs_VerifyPassword log stored password (Q : list Deed -> Err + unit -> Prop) :
  (forall e, Q log (inl e)) -> (argon2id_Compare password stored = Some true -> Q log (inr tt)) ->
  runs log (VerifyPassword stored password) Q.
Proof.
  intros H1 H2. unfold VerifyPassword. destruct (stored =? "")%string; [by apply runs_fail|].
  apply runs_bind, runs_local. intros env. destruct (e_busy env); [done|].
  destruct (argon2id_Compare password stored) as [[]|]; [|apply runs_fail; done|done].
  apply runs_ret. by apply H2.
Qed.

Lemma runs_Enqueue log m (Q : list Deed -> Err + unit -> Prop) :
  (forall r, Q log r) -> runs log (Enqueue m) Q.
Proof.
  intros H X sp t g env sp1 s1 _ _. exists None, ∅. unfold Enqueue.
  destruct (next_fault s1) as [b s2] eqn:E. apply next_fault_with in E as [fs ->].
  split; [|split; [done|]].
  - destruct b; by apply did_nothing.
  - rewrite app_nil_r. destruct b; apply H.
Qed.

Lemma runs_buildVerification log user u (Q : list Deed -> Err + Mail -> Prop) :
  (forall id hash expires, W log (DAskVerify id user hash (u_email u) expires)) ->
  (forall e, Q log (inl e)) ->
  (forall id hash expires m, Q (log ++ [DAskVerify id user hash (u_email u) expires]) (inr m)) ->
  runs log (tx (fun env => buildVerification svc env user u)) Q.
Proof.
  intros Hw H1 H2. apply runs_tx; [auto with norite|done|]. intros env sp s _ Hg.
  apply wp_buildVerification; [done|]. intros msg s2 id hash Hid Hok Ht.
  exists (DAskVerify id user hash (u_email u) (e_now env + EmailVerificationTTL)), {[id]}.
  split_and!; try done. by intros i ->%elem_of_singleton.
Qed.

Lemma runs_remindToVerify log user u :
  (forall id hash expires, W log (DAskVerify id user hash (u_email u) expires)) ->
  runs log (remindToVerify svc user u) (fun log' _ => grows log log').
Proof.
  intros Hw. unfold remindToVerify. destruct (negb _); [by apply runs_ret|].
  apply runs_bind, runs_try, runs_buildVerification; [done|by intros; apply runs_ret|].
  intros id hash expires m. apply runs_bind, runs_try, runs_Enqueue. intros r. apply runs_ret. auto with norite.
Qed.

Lemma runs_verifyCredentials log email password :
  (forall log' id user hash sent expires, W log' (DAskVerify id user hash sent expires)) ->
  runs log (verifyCredentials svc email password) (fun log' r => grows log log' /\
    match r with inr x => password_shown log' x.1 password | inl _ => True end).
Proof.
  intros Hw. unfold verifyCredentials. apply runs_bind, runs_try, runs_GetUserByEmail.
  - intros []; by apply runs_fail.
  - intros id u. set (log1 := log ++ [_]). assert (grows log log1) as Hg by (unfold log1; auto with norite).
    apply runs_bind, runs_try, runs_VerifyPassword.
    + intros []; by apply runs_fail.
    + intros Hp. destruct (unset (u_verified u)) eqn:Ev.
      * apply runs_bind. eapply runs_mono; [by apply runs_remindToVerify|]. intros log2 r Hg2.
        destruct r; [split; [by etrans|done]|]. apply runs_fail. split; [by etrans|done].
      * apply runs_ret. split; [done|]. exists u. split_and!; [apply in_snoc|by apply unset_false|done].
Qed.
End pieces.
