(* ===== verification/AuthSafe.v ===== *)
(** Each account request does only deeds its request and its own deeds before them warrant, and its answer
    says what they were: signing in, refreshing, signing out, the mails and resets. *)
From S2P Require Import Prelude GoStd Snowflake InviteCode Rows Chat.
From S2P Require Export AuthRules.

Section safe.
Context {digest : Digest} {citext : Citext} {out : Outside} (svc : Service).

(** The call [q] from its first deed. *)
Definition served (q : Request) : Prop := runs (may q) [] (serve svc q) (post q).

Lemma may_saw q : forall log o, may q log (Saw o).
Proof. done. Qed.
#[local] Hint Resolve may_saw : core.

Lemma none_nil : starts_none [].
Proof. by intros d Hd%elem_of_nil. Qed.

Lemma none_snoc log d : starts_none log -> starts_session d = false -> starts_none (log ++ [d]).
Proof. intros H Hd d' [?| ->%list_elem_of_singleton]%elem_of_app; auto. Qed.

Lemma none_grows log : grows [] log -> starts_none log.
Proof. intros H. eapply grows_none; [exact H|apply none_nil]. Qed.
#[local] Hint Resolve none_nil none_snoc none_grows : core.

(** A call as its own steps leave it, before the handler wraps its answer. *)
Definition said (q : Request) {A} (f : A -> Answer) (log : list Deed) (r : Err + A) : Prop :=
  match r with inl e => post q log (inl e) | inr a => post q log (inr (f a)) end.

Lemma answer_said q {A} (f : A -> Answer) (p : AuthProc A) :
  runs (may q) [] p (said q f) -> runs (may q) [] (answer f p) (post q).
Proof. intros H. unfold answer. apply runs_bind. eapply runs_mono; [exact H|]. intros log [e|a] Hs; [done|by apply runs_ret]. Qed.

(** A call that starts nothing and whose answer says nothing of its deeds. *)
Lemma answer_none q {A} (f : A -> Answer) (p : AuthProc A) :
  (forall log e, starts_none log -> post q log (inl e)) -> (forall log r, starts_none log -> post q log (inr (f r))) ->
  runs (may q) [] p (fun log _ => starts_none log) -> runs (may q) [] (answer f p) (post q).
Proof.
  intros H1 H2 H. apply answer_said. eapply runs_mono; [exact H|]. intros log [e|a] Hn; [by apply H1|by apply H2].
Qed.

(** ** Signing in *)

Lemma runs_sign_in W log user l (HW : forall log o, W log (Saw o)) :
  (forall log' id hash nm ip expires, grows log log' -> no_factor log' user ->
     W log' (DSignIn id user (li_device l) hash nm ip expires)) ->
  runs W log (sign_in svc user l) (fun log' r =>
    match r with
    | inr (SignedIn p) => exists id nm ip expires,
        DSignIn id user (li_device l) (HashToken (tp_refresh p)) nm ip expires ∈ log'
    | _ => grows log log'
    end).
Proof.
  intros Hw. unfold sign_in. apply runs_bind, runs_try. eapply runs_mono; [by apply runs_factorSatisfied|].
  intros log1 [e|p] [Hg Hp].
  - destruct e; try (by apply runs_fail). apply runs_bind, runs_local. intros env. by apply runs_ret.
  - destruct Hp as [-> Hnf]. apply runs_bind, runs_startSession; [done|done|intros; by apply Hw|].
    intros id p nm expires. apply runs_ret. exists id, nm, (li_ip l), expires. apply in_snoc.
Qed.

Lemma safe_Login email password l : served (QLogin email password l).
Proof.
  unfold served. cbn [serve]. unfold answer, Login. apply runs_bind, runs_bind, runs_pure.
  destruct (normalizeDeviceID (li_device l)) as [e|device] eqn:Ed; [apply none_nil|].
  apply runs_bind. eapply runs_mono; [by apply runs_verifyCredentials|].
  intros log1 [e|[user u]] [Hg Hp]; [by apply none_grows|]. cbn [fst]. cbn in Hp.
  eapply runs_mono; [apply runs_sign_in; [done|]|].
  - intros log2 id hash nm ip expires Hg2 Hnf. cbn. split_and!; [done|by eapply password_shown_grows|done].
  - intros log2 [e|[p|c x]] H; [cbn; by apply none_grows; etrans|apply runs_ret|by apply runs_ret].
    destruct H as (id & nm & ip & expires & H). cbn. eauto 10.
Qed.

Lemma safe_VerifyTwoFactor challenge code : served (QVerifyTwoFactor challenge code).
Proof.
  unfold served. cbn [serve]. unfold answer, CompleteTwoFactorLogin. apply runs_bind, runs_bind, runs_local. intros env.
  apply runs_bind, runs_pure. destruct (parseTwoFactorChallenge (e_now env) challenge) as [e|[user l]] eqn:Ec; [apply none_nil|].
  apply runs_bind. eapply runs_mono; [apply runs_proveFactor; [done|]|].
  - intros log' d _ Hd. destruct d; try done; cbn; eauto 10.
  - intros log1 [e|p] [Hg Hp]; [by apply none_grows|]. destruct Hp as [-> Hf].
    apply runs_startSession; [done|intros; by apply none_grows| |].
    + intros _ id hash nm ip expires. cbn. eauto 10.
    + intros id p nm expires. apply runs_ret. cbn. repeat eexists. apply in_snoc.
Qed.

Lemma safe_Exchange code verifier l : served (QExchange code verifier l).
Proof.
  unfold served. cbn [serve]. unfold answer, ExchangeOAuthCode. apply runs_bind, runs_bind, runs_pure.
  destruct (normalizeDeviceID (li_device l)) as [e|device] eqn:Ed; [apply none_nil|].
  destruct (ParseOAuthExchangeCode code) as [hash|]; [|apply runs_fail, none_nil].
  destruct (ParseOAuthFlowVerifier verifier) as [presented|]; [|apply runs_fail, none_nil].
  apply runs_bind, runs_write_or; [intros; apply none_nil|]. intros sp t r t2 _ Hm. cbv zeta in Hm. case_hyp Hm; [|done].
  destruct p as [id r0]. injection Hm as <- <-. apply find_row_some in E as [Hr Hmt]. bool_hyps.
  exists (DUseExchange id (xc_user r0)). assert (starts_none [DUseExchange id (xc_user r0)]) as Hn by by intros d ->%list_elem_of_singleton.
  split_and!; [done|eexists; split_and!; [done|done|by apply unset_true|done]|cbn; by erewrite at_row_insert|done|].
  cbn [app xc_flow xc_user consume_exchange]. apply runs_fail_if; [done|]. intros _.
  eapply runs_mono; [apply runs_sign_in; [done|]|].
  - intros log2 id2 hash2 nm ip expires Hg2 Hnf. cbn. split_and!; [done| |done]. exists id. eapply grows_in; [done|by left].
  - intros log2 [e|[p|c x]] H3; [by eapply grows_none|apply runs_ret|by apply runs_ret].
    destruct H3 as (id2 & nm & ip & expires & H3). cbn. eauto 10.
Qed.

Lemma safe_IssueExchange user challenge : served (QIssueExchange user challenge).
Proof.
  unfold served. cbn [serve]. apply answer_none; [done|done|]. unfold issueOAuthExchangeCode. apply runs_bind, runs_local. intros env.
  unfold GenerateOAuthExchangeCode, generateOpaqueToken. destruct (next_read env) as [buf|]; [|done].
  apply runs_nextID; [done|]. intros id X sp t g HX. apply does_bind, does_local. intros env2 sp2 t2 g2 _ _.
  apply does_bind, does_writing; [done|]. intros sp3 t3 g3 r t4 _ [Hi _ _ _ _] Hm.
  case_hyp Hm; [done|]. case_hyp Hm; [done|]. injection Hm as <- <-. bool_hyps.
  eexists (DIssueExchange id _ user challenge _). split_and!; [|by apply eq_None_not_Some|reflexivity|done|].
  - cbn. set_solver.
  - by intros d ->%list_elem_of_singleton.
Qed.

(** ** Sessions *)

Lemma none_one d : starts_session d = false -> starts_none [d].
Proof. by intros Hd d' ->%list_elem_of_singleton. Qed.
#[local] Hint Resolve none_one : core.

Lemma session_seen_snoc log d raw id r : session_seen_by log raw id r -> session_seen_by (log ++ [d]) raw id r.
Proof. intros [H ?]. split; [|done]. apply elem_of_app. by left. Qed.

(** Nothing changes on the way to the next step. *)
Lemma session_relies id r X sp t g sp' t' g' :
  relies auth_tick deed_ok deed_do deed_ids X sp t g sp' t' g' ->
  kept a_sessions session_evolves id r sp t -> kept a_sessions session_evolves id r sp' t'.
Proof. intros Hr Hk. eapply stable_relies; [apply session_kept|done..]. Qed.

(** Rotation: the old session is still its family's, and the new one takes its place. *)
Lemma wp_rotation id r new hash expires (Q : unit -> AuthSt -> Prop) sp (s : AuthSt) :
  kept a_sessions session_evolves id r sp (tabs s) -> new ∉ sp ->
  (forall s', deed_ok (DRotate id new hash expires) (tabs s) ->
     tabs s' = deed_do (DRotate id new hash expires) (tabs s) -> Q tt s') ->
  wp (CreateSession new (ses_user r) (ses_device r) hash (ses_name r) (ses_ip r) expires (Some (ses_first r));;
      no_rows_as ESessionReuse (RotateSession id new);; mret tt) Q s.
Proof.
  intros [Hin Hk] Hnew HQ. apply wp_bind, wp_CreateSession. intros r1 s1 Hf H1.
  apply wp_bind, wp_no_rows_as, wp_writing. intros fs r2 t2. rewrite H1. cbn [a_sessions put_session set_sessions a_now].
  rewrite lookup_insert_ne by (intros ->; done). destruct (a_sessions (tabs s) !! id) as [r0|] eqn:Er; [|done].
  destruct (ses_live r0) eqn:Hl; [|done]. intros [= <- <-]. apply wp_ret.
  destruct (Hk r0 eq_refl) as [(Hu & Hd & _ & Hn & Hip & _ & Hfi) _]. apply HQ.
  - cbn. split; [exists r0; split; [done|by apply unset_true]|done].
  - cbn. rewrite Er, Hu, Hd, Hn, Hip, Hfi. done.
Qed.

(** What the transaction that ends a family cannot fail with. *)
Lemma reuse_errors user device r s e s' :
  RunInTx (RevokeSessionsForDevice user device;; endConnections svc r) s = (inl e, s') -> e <> ESessionReuse.
Proof.
  revert s e s'. change (fails (fun e => e <> ESessionReuse)
    (RunInTx (RevokeSessionsForDevice user device;; endConnections svc r))).
  apply fails_RunInTx; [|done]. apply fails_bind; [by apply fails_writing|]. intros _. unfold endConnections.
  destruct (negb _); [done|]. apply fails_bind; [|by intros a s0 e0 s1].
  destruct (_ =? 0); [|done]. by apply fails_ids_Next.
Qed.

Lemma safe_Refresh raw : served (QRefresh raw).
Proof.
  unfold served. cbn [serve]. apply answer_said. unfold Refresh.
  destruct (ParseRefreshToken raw) as [hash|] eqn:Ep; [|apply runs_fail, none_nil].
  intros X sp t g. apply does_bind, db_no_rows_reading, does_reading; [intros; apply none_nil|].
  intros sp1 t1 g1 _ [Hi _ _ _ _]. destruct (find_row _ _) as [[id r]|] eqn:E; [|exists None; split; [done|apply none_nil]].
  apply find_row_some in E as [Hr Hh%String.eqb_eq]. exists (Some (Saw (OSession id r))). split; [done|].
  set (log1 := [] ++ _). cbv beta iota delta [no_rows]. pose proof (session_seen sp1 t1 id r Hi Hr) as Hk.
  assert (session_seen_by log1 raw id r) as Hseen by (split; [by left|by rewrite Hh]).
  assert (starts_none log1) as Hn by by apply none_one.
  clear Hi Hr. destruct (negb (unset (ses_revoked r))) eqn:Erev.
  - destruct (unset (ses_replaced r)) eqn:Erep; [exact Hn|]. apply unset_false in Erep.
    apply does_bind, does_tx; [| |].
    + intros env. unfold RevokeSessionsForDevice, revoking. quiet_steps.
    + intros env s1 s2 sp2 t2 g2 e _ He. apply reuse_errors in He. by destruct e.
    + intros env sp2 s _ _. apply wp_bind, wp_revoking. intros n s1 H1. apply wp_endConnections. intros s2 H2.
      exists (DEndDevice (ses_user r) (ses_device r)), ∅.
      split_and!; [by intros i Hi%elem_of_empty|done|done|by rewrite H2|by exists id, r|].
      intros g' _. split; [by apply none_snoc|]. exists id, r. split; [by apply session_seen_snoc|]. right. apply in_snoc.
  - apply does_bind, does_local. intros env2 sp2 t2 g2 Hr2 _. apply (session_relies id r) in Hr2 as Hk2; [|done].
    clear Hk Hr2. apply negb_false_iff, unset_true in Erev.
    assert (forall e, post (QRefresh raw) log1 (inl e)) as He.
    { intros []; try exact Hn. split; [exact Hn|]. exists id, r. by split; [|left]. }
    apply does_fail_if; [intros; apply He|]. intros _. apply does_bind, does_local. intros env3 sp3 t3 g3 Hr3 _.
    apply (session_relies id r) in Hr3 as Hk3; [|done]. clear Hk2 Hr3.
    unfold GenerateRefreshToken, generateOpaqueToken. destruct (next_read env3) as [buf|]; [|apply He].
    apply does_bind, does_ids_Next; [intros; apply He|]. intros sp4 t4 g4 new Hr4 _.
    apply (session_relies id r) in Hr4 as Hk4; [|done]. clear Hk3 Hr4. apply does_bind, does_tx; [|intros; apply He|].
    + intros env. unfold CreateSession, RotateSession, updating_live. quiet_steps.
    + intros env sp5 s5 Hr5 [_ _ _ _ Hx]. apply (session_relies id r) in Hr5 as Hk5; [|done].
      eapply wp_rotation; [exact Hk5|set_solver|]. intros s6 Hok Ht. exists (DRotate id new (HashToken (refreshTokenPrefix ++ EncodeToString buf)) (e_now env + RefreshTokenTTL)), ∅.
      split_and!; [by intros i Hi%elem_of_empty| |done|done|by exists r|].
      * cbn. set_solver.
      * intros g' _. apply does_local. intros env7 sp7 t7 g7 _ _. exists id, new, r, (e_now env + RefreshTokenTTL).
        split; [by apply session_seen_snoc|apply in_snoc].
Qed.

Lemma writing_result {A} (f : Auth -> Err + (A * Auth)) (s : AuthSt) r s' :
  writing f s = (r, s') -> (exists e, r = inl e /\ tabs s' = tabs s) \/ exists a, r = inr a /\ f (tabs s) = inr (a, tabs s').
Proof.
  unfold writing. destruct (next_fault s) as [b s2] eqn:E. apply next_fault_with in E as [fs ->]. destruct b.
  - intros [= <- <-]. left. eauto.
  - cbn. destruct (f (tabs s)) as [e|[a t]]; intros [= <- <-]; [left|right]; eauto.
Qed.

(** A deed that is no change. *)
Definition looked (t : Auth) : Deed := Saw (OTotp 0 (a_totp t !! 0)).

Lemma safe_Logout raw : served (QLogout raw).
Proof.
  unfold served. cbn [serve]. apply answer_none; [done|done|]. unfold Logout.
  destruct (ParseRefreshToken raw) as [hash|] eqn:Ep; [|apply runs_ret, none_nil].
  apply runs_bind, runs_try, (runs_look _ (may_saw _) _ _ (fun b => Some (OSession b.1 b.2))).
  - intros []; (apply runs_ret || apply runs_fail); apply none_nil.
  - intros t [i r] Hb. case_hyp Hb; simplify_eq. by apply find_row_some in E as [Hr _].
  - intros t [id r] Hb. case_hyp Hb; simplify_eq. apply find_row_some in E as [_ Hh%String.eqb_eq]. clear t. set (log1 := [] ++ _). cbn [fst snd].
    assert (starts_none log1) as Hn by by apply none_one.
    destruct (negb (unset (ses_revoked r))) eqn:Erev; [by apply runs_ret|].
    apply runs_tx_plain; [|done|].
    + intros env. unfold RevokeSession, updating_live. quiet_steps.
    + intros env sp s _. apply wp_bind, wp_attempt. intros res s1 [(e & -> & H1)|(a & -> & H1)]%writing_result.
      * assert (forall s2 : AuthSt, tabs s2 = tabs s1 -> exists d, deed_ids d = ∅ /\ deed_ok d (tabs s) /\ tabs s2 = deed_do d (tabs s) /\
          may (QLogout raw) log1 d /\ starts_none (log1 ++ [d])) as Hd.
        { intros s2 H2. exists (looked (tabs s)). split_and!; [done|done|by rewrite H2|done|by apply none_snoc]. }
        destruct e; try apply wp_throw. by apply wp_endConnections.
      * case_hyp H1; [|done]. case_hyp H1; [|done]. injection H1 as _ Ht. apply wp_endConnections. intros s2 H2.
        exists (DEndSession id). split_and!; [done|exists s0; split; [done|by apply unset_true]| | |by apply none_snoc].
        -- rewrite H2, <- Ht. cbn. by erewrite at_row_insert.
        -- exists r. split; [by left|]. by rewrite Hh.
Qed.

(** ** The gateway's questions *)

Lemma runs_session_of W (HW : forall log o, W log (Saw o)) {B} log id (f : Session -> B) (d : B)
    (Q : list Deed -> Err + B -> Prop) :
  (forall e, Q log (inl e)) -> Q log (inr d) -> (forall r, Q (log ++ [Saw (OSession id r)]) (inr (f r))) ->
  runs W log (found ← try (db (GetSessionByID id));
    match found with inl ENoRows => mret d | inl e => fail e | inr session => mret (f session) end) Q.
Proof.
  intros H1 H2 H3. apply runs_bind, runs_try, runs_GetSessionByID; [done| |].
  - intros []; (by apply runs_ret) || (by apply runs_fail).
  - intros r. by apply runs_ret.
Qed.

Lemma runs_SignInOf W (HW : forall log o, W log (Saw o)) log user session (Q : list Deed -> Err + SignIn -> Prop) :
  (forall log' e, grows log log' -> Q log' (inl e)) -> (forall log', grows log log' -> Q log' (inr no_SignIn)) ->
  (forall r, ses_user r = user -> Q (log ++ [Saw (OSession session r)]) (inr (mkSignIn (ses_device r) (ses_first r)))) ->
  runs W log (SignInOf user session) Q.
Proof.
  intros H1 H2 H3. unfold SignInOf. destruct (session =? 0); [by apply runs_ret, H2|].
  apply (runs_session_of W HW log session
    (fun r => if negb (ses_user r =? user) then no_SignIn else mkSignIn (ses_device r) (ses_first r)) no_SignIn);
    [by intros; apply H1|by apply H2|].
  intros r. destruct (ses_user r =? user) eqn:E; cbn; [apply Z.eqb_eq in E; by apply H3|]. apply H2. auto with norite.
Qed.

Lemma runs_RequireLiveSignIn W (HW : forall log o, W log (Saw o)) log user s (Q : list Deed -> Err + unit -> Prop) :
  (forall log' e, grows log log' -> Q log' (inl e)) ->
  (Q (log ++ [Saw (OLive user (si_Device s) (si_Since s))]) (inr tt)) ->
  runs W log (RequireLiveSignIn user s) Q.
Proof.
  intros H1 H2. unfold RequireLiveSignIn. apply runs_fail_if; [by intros; apply H1|]. intros _.
  apply runs_bind, runs_reading; [done|by apply H1|]. intros sp t _.
  set (P := fun r => in_family user (si_Device s) (si_Since s) r && ses_live r && (a_now t <? ses_expires r)).
  destruct (affected P (a_sessions t) =? 0) eqn:Ea.
  - exists None. split; [done|]. cbn [option_list fmap option_fmap option_map]. rewrite app_nil_r. by apply runs_fail, H1.
  - exists (Some (OLive user (si_Device s) (si_Since s))). split.
    + cbn. unfold affected in Ea. destruct (map_choose (filter (fun kv => P kv.2 = true) (a_sessions t))) as (i & r & Hr).
      { intros He. rewrite He in Ea. done. }
      apply map_lookup_filter_Some in Hr as [Hr HP]. cbn in HP. unfold P in HP. bool_hyps. exists i, r.
      split_and!; [done|done|by apply unset_true|done].
    + by apply runs_ret.
Qed.
End safe.

(** ** Mail, resets and exchange codes *)

#[export] Hint Resolve may_saw none_nil none_snoc none_grows none_one : norite.

Section calls.
Context {digest : Digest} {citext : Citext} {out : Outside} (svc : Service).
#[local] Hint Resolve may_saw none_nil none_snoc none_grows none_one : core.

(** ** Mail *)

(** Mail is queued or not. *)
Lemma runs_mail W log m :
  starts_none log -> runs W log (try (Enqueue m);; mret tt) (fun log _ => starts_none log).
Proof. intros Hn. apply runs_bind, runs_try, runs_Enqueue. intros r. by apply runs_ret. Qed.

Lemma safe_RequestReset email : served svc (QRequestReset email).
Proof.
  unfold served. cbn [serve]. apply answer_none; [done|done|]. unfold RequestPasswordReset.
  destruct (negb _); [by apply runs_fail|]. apply runs_bind, runs_try, runs_GetUserByEmail; [done| |].
  - intros []; (by apply runs_ret) || (by apply runs_fail).
  - intros id u. set (log1 := [] ++ _). assert (starts_none log1) as Hn by by apply none_one.
    destruct (unset (u_password u)); [by apply runs_ret|]. apply runs_bind, runs_local. intros env.
    unfold GeneratePasswordResetToken, generateOpaqueToken. destruct (next_read env) as [buf|]; [|done].
    apply runs_nextID; [done|]. intros tid X sp t g HX. apply does_bind, does_tx; [|done|].
    + intros env2. unfold InvalidateOutstandingResetTokens, CreatePasswordResetToken. quiet_steps.
    + intros env2 sp2 s2 _ [_ _ _ _ _]. unfold InvalidateOutstandingResetTokens, CreatePasswordResetToken.
      apply wp_bind. wp_step. apply wp_writing. intros fs' a t2. st_simpl. cbn. intros Ha.
      destruct (create_mail _ _ _ _) as [|[r m']] eqn:E; [done|]. cbn in Ha. injection Ha as <- <-.
      apply create_mail_some in E as [Hnew ->]. apply spend_mail_none in Hnew.
      eexists (DAskReset tid id _ _ _), ∅. split_and!; [by intros i Hi%elem_of_empty| |exact Hnew|reflexivity|done|].
      * cbn. set_solver.
      * intros g' _. apply (runs_mail (may (QRequestReset email))). by apply (none_snoc log1).
Qed.

Lemma reset_relies id r X sp t g sp' t' g' :
  relies auth_tick deed_ok deed_do deed_ids X sp t g sp' t' g' ->
  kept a_resets mail_evolves id r sp t -> kept a_resets mail_evolves id r sp' t'.
Proof. intros Hr Hk. eapply stable_relies; [apply reset_kept|done..]. Qed.

(** A token still good is the one seen, and spending it is a reset of its account. *)
Lemma wp_reset id r hash (Q : unit -> AuthSt -> Prop) sp (s : AuthSt) :
  kept a_resets mail_evolves id r sp (tabs s) ->
  (forall s', deed_ok (DReset id (ml_user r) hash) (tabs s) -> tabs s' = deed_do (DReset id (ml_user r) hash) (tabs s) ->
     Q tt s') ->
  wp (no_rows_as EInvalidResetToken (ConsumePasswordResetToken id);; SetUserPassword (ml_user r) hash;;
      revokeEverything svc (ml_user r) "";; mret tt) Q s.
Proof.
  intros [_ Hk] HQ. apply wp_bind, wp_no_rows_as, wp_writing. intros fs a t1. unfold consume_mail.
  destruct (a_resets (tabs s) !! id) as [r0|] eqn:Er; [|done]. destruct (mail_redeemable _ r0) eqn:Em; [|done].
  intros [= _ <-]. apply wp_bind, wp_writing. intros fs2 b t2. cbn [tabs with_tabs with_faults a_users set_resets].
  destruct (a_users (tabs s) !! ml_user r) as [u|] eqn:Eu; [|done]. destruct (live_user u) eqn:El; [|done].
  intros [= _ <-]. apply wp_bind, wp_revokeEverything. intros rr s3 H3. apply wp_ret.
  destruct (Hk r0 eq_refl) as (Hu & _). apply HQ.
  - split; [by exists r0|exists u; split; [done|by apply unset_true]].
  - rewrite H3. cbn. erewrite !at_row_insert by done. done.
Qed.

Lemma safe_ConfirmReset raw password : served svc (QConfirmReset raw password).
Proof.
  unfold served. cbn [serve]. apply answer_said. unfold ConfirmPasswordReset.
  destruct (ParsePasswordResetToken raw) as [hash|] eqn:Ep; [|apply runs_fail, none_nil].
  intros X sp t g. apply does_bind, db_no_rows_reading, does_reading; [intros; apply none_nil|].
  intros sp1 t1 g1 _ [Hi _ _ _ _]. unfold mail_by_hash. destruct (find_row _ _) as [[id r]|] eqn:E;
    [|exists None; split; [done|apply none_nil]].
  apply find_row_some in E as [Hr Hh%String.eqb_eq]. exists (Some (Saw (OReset id r))). split; [done|].
  set (log1 := [] ++ _). cbv beta iota delta [no_rows]. pose proof (reset_seen sp1 t1 id r Hi Hr) as Hk.
  assert (starts_none log1) as Hn by by apply none_one. clear Hi Hr.
  apply does_bind, db_no_rows_reading, does_reading; [by intros|]. intros sp2 t2 g2 Hr2 _.
  apply (reset_relies id r) in Hr2 as Hk2; [|done]. clear Hk Hr2.
  destruct (a_users t2 !! ml_user r) as [u|] eqn:Eu; cbn [no_rows];
    [|exists None; split; [done|by rewrite app_nil_r]].
  destruct (live_user u) eqn:El; cbn [no_rows];
    [|exists None; split; [done|by rewrite app_nil_r]].
  exists None. split; [done|]. rewrite app_nil_r. apply does_fail_if; [done|]. intros _. apply does_bind.
  unfold HashPassword. destruct (ValidatePassword password); [done|]. apply does_local. intros env3 sp3 t3 g3 Hr3 _.
  apply (reset_relies id r) in Hr3 as Hk3; [|done]. clear Hk2 Hr3.
  destruct (e_busy env3); [done|]. destruct (next_read env3) as [salt|]; [|done].
  apply does_tx; [|done|].
  - intros env. unfold ConsumePasswordResetToken, SetUserPassword. quiet_steps.
  - intros env sp5 s5 Hr5 _. apply (reset_relies id r) in Hr5 as Hk5; [|done].
    eapply wp_reset; [exact Hk5|]. intros s6 Hok Ht. eexists _, ∅.
    split_and!; [by intros i Hi%elem_of_empty| |exact Hok|exact Ht| |].
    + cbn. set_solver.
    + exists r. split_and!; [by left|done|by rewrite Hh].
    + intros g' _. exists id, r, (argon2id_Create password salt).
      split_and!; [by left|by rewrite Hh|apply in_snoc].
Qed.

Lemma safe_RequestVerify email : served svc (QRequestVerify email).
Proof.
  unfold served. cbn [serve]. apply answer_none; [done|done|]. unfold RequestEmailVerification.
  destruct (negb _); [by apply runs_ret|]. apply runs_bind, runs_try, runs_GetUserByEmail; [done| |].
  - intros []; (by apply runs_ret) || (by apply runs_fail).
  - intros id u. set (log1 := [] ++ _). assert (starts_none log1) as Hn by by apply none_one.
    destruct (negb (unset (u_verified u))); [by apply runs_ret|].
    apply runs_bind, runs_buildVerification; [done|done|]. intros tid hash expires m.
    by apply runs_mail, none_snoc.
Qed.

Lemma safe_ConfirmVerify raw : served svc (QConfirmVerify raw).
Proof.
  unfold served. cbn [serve]. apply answer_none; [done|done|]. unfold ConfirmEmailVerification.
  destruct (ParseEmailVerificationToken raw) as [hash|] eqn:Ep; [|by apply runs_fail].
  apply runs_bind, (runs_look_or _ (may_saw _) _ _ _ (fun _ => None)); [done|done|]. intros t [id r] _. cbn [option_list fmap option_fmap option_map].
  apply runs_tx_plain; [|done|].
  - intros env. unfold ConsumeEmailVerificationToken, MarkEmailVerified. quiet_steps.
  - intros env sp s _. apply wp_bind, wp_no_rows_as, wp_writing. intros fs a t1. unfold consume_mail. cbn [fst].
    destruct (a_verify (tabs s) !! id) as [r0|] eqn:Er; [|done]. destruct (mail_redeemable _ r0) eqn:Em; [|done].
    intros [= <- <-]. apply wp_bind, wp_no_rows_as, wp_writing. intros fs2 b t2.
    cbn [tabs with_tabs with_faults a_users set_verify ml_user ml_sent_to use_mail].
    destruct (a_users (tabs s) !! ml_user r0) as [u|] eqn:Eu; [|done]. destruct (_ && _) eqn:El; [|done].
    intros [= <- <-]. apply wp_ret. bool_hyps. exists (DVerify id). split_and!; [done| | |done|by apply none_one].
    + exists r0. split_and!; [done..|]. exists u. split_and!; [done..|by apply unset_true].
    + cbn. rewrite Er. cbn. erewrite !at_row_insert by done. done.
Qed.
End calls.
