(* ===== verification/AuthServer.v ===== *)
(** The account server as a whole: the operations behind a live session, the device-code flow, API tokens
    and the sweep as AuthSafe has the sign-ins, and the refinement: whatever the order in which the server
    ran the steps of its calls, the tables are what a sequence of warranted deeds makes of them. At the end, its histories: what a run
    leaves to reason about, the rows it begins with and the deeds it comes to; where a session comes from and what
    ending one means from then on. *)
From S2P Require Import Prelude GoStd Snowflake InviteCode Rows Chat.
From S2P Require Export AuthSafe.

(** ** Operations behind a live session *)

Section ops.
Context {digest : Digest} {citext : Citext} {out : Outside} (svc : Service).
#[local] Hint Resolve may_saw none_nil none_snoc none_grows none_one : core.

Lemma runs_requireLive W (HW : forall log o, W log (Saw o)) log user session :
  runs W log (requireLiveDevice user session) (fun log' r => grows log log' /\
    match r with inl _ => True | inr _ => live_seen log' user session end).
Proof.
  unfold requireLiveDevice. apply runs_bind, runs_SignInOf; [done|by intros|..].
  - intros log1 Hg. unfold RequireLiveSignIn. by apply runs_fail_if.
  - intros r Hu. apply runs_RequireLiveSignIn; [done| |].
    + intros log2 e Hg. split; [|done]. etrans; [|exact Hg]. auto with norite.
    + cbn [si_Device si_Since]. split; [by etrans; apply grows_snoc|]. exists r. split_and!; [|done|apply in_snoc].
      apply elem_of_app. left. apply in_snoc.
Qed.

(** The device of the session a call came with. *)
Lemma runs_currentDeviceID W (HW : forall log o, W log (Saw o)) log user session :
  runs W log (currentDeviceID user session) (fun log' r => grows log log' /\
    match r with inl _ => True | inr device => spared log' user session device end).
Proof.
  unfold currentDeviceID. destruct (session =? 0); [apply runs_ret; split; [done|by left]|].
  apply (runs_session_of W HW log session (fun r => if negb (ses_user r =? user) then ""%string else ses_device r) ""%string);
    [done|by split; [|left]|].
  intros r. split; [auto with norite|]. destruct (ses_user r =? user) eqn:E; cbn; [|by left]. apply Z.eqb_eq in E.
  right. exists r. split_and!; [apply in_snoc|done|done].
Qed.

Lemma spared_snoc log d user session keep : spared log user session keep -> spared (log ++ [d]) user session keep.
Proof. intros [?|(r & H & ?)]; [by left|right]. exists r. split; [apply elem_of_app; by left|done]. Qed.

Lemma runs_recovery_codes W log n :
  runs W log (generateRecoveryCodes n) (fun log' r => log' = log /\
    match r with inl _ => True | inr l => map snd l = HashToken <$> map fst l end).
Proof.
  induction n as [|n IH]; cbn [generateRecoveryCodes]; [by apply runs_ret|].
  apply runs_bind, runs_local. intros env. destruct (randomCode _ _) as [[[e|code] rest]|]; [done| |done].
  apply runs_bind. eapply runs_mono; [exact IH|]. intros log' [e|l] [-> H]; [done|]. apply runs_ret.
  split; [done|]. cbn. by rewrite H.
Qed.

Lemma mint_scopes_known seen asked l : mint_scopes seen asked = inr l -> Forall (fun s => s ∈ AllScopes) l.
Proof.
  revert seen l. induction asked as [|s asked IH]; intros seen l; cbn; [intros [= <-]; constructor|].
  destruct (ValidScope s) eqn:Ev; [|done]. cbn. destruct (bool_decide (s ∈ seen)); [apply IH|].
  destruct (mint_scopes _ asked) as [e|l'] eqn:E; [done|]. intros [= <-]. constructor; [|by eapply IH].
  by apply bool_decide_eq_true in Ev.
Qed.

Context (user session : Z).
Abbreviation q op := (QGuarded user session op).

(** A call past its guard: its session is live, and what it does next must be its operation's. *)
Definition behind (op : Op) : Prop := forall log, starts_none log -> live_seen log user session ->
  runs (may (q op)) log (serve_op svc user session op) (post (q op)).

Lemma safe_behind op : behind op -> served svc (q op).
Proof.
  intros H. unfold served. cbn [serve]. apply runs_bind. eapply runs_mono; [by apply runs_requireLive|].
  intros log [e|[]] [Hg Hl]; [by apply none_grows|]. apply H; [by apply none_grows|done].
Qed.

(** How an operation ends. *)
Lemma op_answers op {A} (f : A -> Answer) (p : AuthProc A) log :
  runs (may (q op)) log p (fun log r => starts_none log /\
    match r with inl _ => True | inr a => live_seen log user session /\ post_op user session op log (inr (f a)) end) ->
  runs (may (q op)) log (answer f p) (post (q op)).
Proof.
  intros H. unfold answer. apply runs_bind. eapply runs_mono; [exact H|]. intros log' [e|a] [Hn Hp]; [done|].
  apply runs_ret. exact Hp.
Qed.

Lemma live_snoc log d : live_seen log user session -> live_seen (log ++ [d]) user session.
Proof. intros (r & H1 & H2 & H3). exists r. split_and!; [|done|]; apply elem_of_app; by left. Qed.
#[local] Hint Resolve live_snoc in_snoc : core.

Lemma behind_Mint name scopes : behind (OMint name scopes).
Proof.
  intros log Hn Hl. apply op_answers. unfold MintAPIToken.
  apply runs_fail_if; [by split|]. intros _. apply runs_fail_if; [by split|]. intros _.
  apply runs_bind, runs_pure. destruct (mint_scopes [] scopes) as [e|l] eqn:Es; [by split|].
  apply runs_bind, runs_local. intros env. unfold GenerateAPIToken, generateOpaqueToken.
  destruct (next_read env) as [buf|]; [|by split]. apply runs_nextID; [by split|]. intros id X sp t g HX.
  apply does_bind, does_writing; [by split|]. intros sp3 t3 g3 r t4 _ [Hi _ _ _ _] Hm.
  case_hyp Hm; [done|]. case_hyp Hm; [done|]. injection Hm as <- <-. bool_hyps.
  eexists (DMint id user _ _ l). split_and!; [|split; [by apply unused_id|by apply unused_hash]|reflexivity|split; [done|split; [done|]]|].
  - cbn. set_solver.
  - by eapply mint_scopes_known.
  - cbn. split; [by apply none_snoc|]. split; [by apply live_snoc|apply in_snoc].
Qed.

Lemma behind_ListTokens : behind OListTokens.
Proof.
  intros log Hn Hl. apply op_answers, (runs_look _ (may_saw _) _ _ (fun _ => None)); [by split|done|].
  intros t b _. cbn [option_list fmap option_fmap option_map]. by rewrite app_nil_r.
Qed.

Lemma behind_RevokeToken id : behind (ORevokeToken id).
Proof.
  intros log Hn Hl. apply op_answers. unfold RevokeAPITokenOf. apply runs_bind, runs_write_or; [by split|].
  intros sp t r t2 _ Hm. case_hyp Hm; [|done]. case_hyp Hm; [|done]. injection Hm as <- <-. bool_hyps.
  exists (DRevokeToken id user). split_and!; [done| | |done|].
  - exists a. split_and!; [done|done|by apply unset_true].
  - cbn. by erewrite at_row_insert.
  - apply runs_ret. split; [by apply none_snoc|]. split; [by apply live_snoc|apply in_snoc].
Qed.

Lemma behind_LogoutAll : behind OLogoutAll.
Proof.
  intros log Hn Hl. apply op_answers. unfold RevokeOtherSessions. apply runs_bind.
  eapply runs_mono; [by apply runs_currentDeviceID|]. intros log1 [e|keep] [Hg Hk]; [by split; [eapply grows_none|]|].
  assert (starts_none log1) as Hn1 by by eapply grows_none. assert (live_seen log1 user session) as Hl1 by by eapply live_seen_grows.
  apply runs_tx_plain; [auto with norite|by split|]. intros env sp s _. apply wp_revokeEverything. intros r s2 Ht.
  exists (DEndAll user keep). split_and!; [done|done|done|done|by apply none_snoc|by apply live_snoc|].
  exists keep. split; [apply in_snoc|by apply spared_snoc].
Qed.

(** Nobody enrolls over a confirmed factor. *)
Lemma behind_BeginTotp : behind OBeginTotp.
Proof.
  intros log Hn Hl. apply op_answers. unfold beginTOTPEnrollment. apply runs_bind, runs_GetUserByID; [done|by split|].
  intros u. set (log1 := log ++ _). assert (starts_none log1) as Hn1 by by apply none_snoc.
  assert (live_seen log1 user session) as Hl1 by by apply live_snoc.
  unfold BeginTOTPEnrollment, hasConfirmedFactor. apply runs_bind, runs_bind, runs_try.
  eapply runs_mono; [by apply runs_factorSatisfied|]. intros log2 [e|p] [Hg Hp].
  - assert (starts_none log2) as Hn2 by by eapply grows_none. destruct e; try (by apply runs_fail). by apply runs_ret.
  - destruct Hp as [-> Hf]. assert (starts_none log2) as Hn2 by by eapply grows_none.
    assert (live_seen log2 user session) as Hl2 by by eapply live_seen_grows.
    apply runs_ret, runs_fail_if; [done|]. intros _. apply runs_bind, runs_local. intros env.
    destruct (next_read env) as [buf|]; [|by split]. apply runs_bind, runs_local. intros env2.
    destruct (next_read env2) as [nonce|]; [|by split]. apply runs_bind, runs_write; [by split|].
    intros sp t r t2 _ Hm. case_hyp Hm; [done|]. injection Hm as <- <-.
    eexists (DEnroll user _). split_and!; [done|done|reflexivity|by split|].
    apply runs_ret. split; [by apply none_snoc|]. by split; [apply live_snoc|].
Qed.

Lemma behind_ConfirmTotp code : behind (OConfirmTotp code).
Proof.
  intros log Hn Hl. apply op_answers. unfold ConfirmTOTPEnrollment. apply runs_bind.
  apply (runs_look_or _ (may_saw _) _ _ _ (fun r => Some (OTotp user (Some r)))); [by split| |].
  { intros t b Hb. cbn. by case_hyp Hb; simplify_eq. }
  intros t row _. clear t. set (log1 := log ++ _). assert (starts_none log1) as Hn1 by by apply none_snoc.
  assert (live_seen log1 user session) as Hl1 by by apply live_snoc. cbv beta iota.
  apply runs_fail_if; [by split|]. intros Hc%negb_false_iff%unset_true.
  apply runs_bind, runs_pure. destruct (openTOTPSecret (tt_secret row)) as [e|secret] eqn:Es; [by split|].
  apply runs_bind, runs_local. intros env. apply runs_bind, runs_pure.
  destruct (matchTOTPStep _ _ _) as [e|[step|]] eqn:Em; [by split| |by apply runs_fail].
  apply match_steps_valid in Em. apply runs_bind. eapply runs_mono; [apply runs_recovery_codes|].
  intros log2 [e|l] [-> Hcs]; [by split|]. apply runs_bind, runs_tx; [|by split|].
  - intros env2. unfold ConfirmTOTP, MarkTOTPStepUsed. quiet_steps.
  - intros env2 sp s _ Hg. apply wp_bind, wp_no_rows_as, wp_writing. intros fs a t1 Ha.
    case_hyp Ha; [|done]. case_hyp Ha; [|done]. injection Ha as <- <-. apply wp_bind, wp_writing. intros fs2 b t2.
    cbn [tabs with_tabs with_faults a_totp set_totp]. rewrite lookup_insert_eq. intros Hb.
    apply wp_writeRecoveryCodes; [done|]. intros s2 codes Hco Hi Hf Ht.
    assert (t2 = let t1 := set_totp (at_row user (confirm_totp (a_now (tabs s))) (a_totp (tabs s))) (tabs s) in
      set_totp (at_row user (fun r => if step_unspent step r then use_step step r else r) (a_totp t1)) t1) as Ht2.
    { cbn. rewrite (at_row_insert (confirm_totp _) _ user u) by done. rewrite (at_row_insert _ _ _ _ (lookup_insert_eq _ _ _)).
      case_hyp Hb; injection Hb as _ <-; cbn; [done|]. by rewrite insert_insert_eq. }
    exists (DConfirm user step codes), (list_to_set codes.*1). cbn [deed_ids]. split; [|split; [done|split; [|split; [|split]]]].
    + intros i Hin%elem_of_list_to_set. by apply Hi.
    + rewrite Ht2 in Hf. split; [exists u; split; [done|by apply unset_true]|exact Hf].
    + rewrite Ht. cbn [tabs with_tabs with_faults]. rewrite Ht2. done.
    + split; [done|]. split; [done|]. exists row, secret. split_and!; [apply in_snoc|done..].
    + apply runs_ret. split; [by apply none_snoc|]. split; [by apply live_snoc|]. exists step, codes.
      split; [apply in_snoc|]. by rewrite Hco.
Qed.

(** The second factor is taken off, or its recovery codes replaced, only once it is proved. *)
Lemma behind_proved op {A} (k : factorProof -> AuthProc A) code (Q : list Deed -> Err + A -> Prop) log :
  starts_none log -> live_seen log user session ->
  (forall log' e, starts_none log' -> Q log' (inl e)) ->
  (forall log' d, live_seen log' user session -> may_use_factor user code log' d -> may (q op) log' d) ->
  (forall log' p, starts_none log' -> live_seen log' user session -> factor_proved log' user code ->
     runs (may (q op)) log' (k p) Q) ->
  runs (may (q op)) log (proveFactor user code ≫= k) Q.
Proof.
  intros Hn Hl H1 H2 H3. apply runs_bind. eapply runs_mono; [apply runs_proveFactor; [done|]|].
  - intros log' d Hg Hd. apply H2; [by eapply live_seen_grows|done].
  - intros log' [e|p] [Hg Hp]; [by apply H1; eapply grows_none|].
    apply H3; [by eapply grows_none|by eapply live_seen_grows|by destruct Hp].
Qed.

Lemma behind_Disable code : behind (ODisable code).
Proof.
  intros log Hn Hl. apply op_answers. unfold DisableTwoFactor. eapply (behind_proved _ _ code); [done|done|by split|..].
  { intros log' d Hl' Hd. destruct d; try done; by split. }
  intros log1 p Hn1 Hl1 Hf1. apply runs_bind. eapply runs_mono; [by apply runs_currentDeviceID|].
  intros log2 [e|keep] [Hg Hk]; [by split; [eapply grows_none|]|].
  assert (starts_none log2) as Hn2 by by eapply grows_none. assert (live_seen log2 user session) as Hl2 by by eapply live_seen_grows.
  apply runs_tx_plain; [|by split|].
  - intros env. unfold DeleteTOTPForUser, DeleteRecoveryCodesForUser. quiet_steps.
  - intros env sp s _. apply wp_bind, wp_writing. intros fs a t1 [= _ <-]. apply wp_bind, wp_writing. intros fs2 b t2 [= _ <-].
    apply wp_revokeEverything. intros r s2 Ht. exists (DDisable user keep).
    split; [done|split; [done|split; [by rewrite Ht|split]]].
    + split; [done|]. split; [done|]. by eapply factor_proved_grows.
    + split; [by apply none_snoc|]. split; [by apply live_snoc|]. exists keep.
      split; [apply in_snoc|by apply spared_snoc].
Qed.

Lemma behind_Regenerate code : behind (ORegenerate code).
Proof.
  intros log Hn Hl. apply op_answers. unfold RegenerateRecoveryCodes. eapply (behind_proved _ _ code); [done|done|by split|..].
  { intros log' d Hl' Hd. destruct d; try done; by split. }
  intros log1 p Hn1 Hl1 Hf1. apply runs_bind. eapply runs_mono; [apply runs_recovery_codes|].
  intros log2 [e|l] [-> Hcs]; [by split|]. apply runs_bind, runs_tx; [|by split|].
  - intros env. unfold DeleteRecoveryCodesForUser. quiet_steps.
  - intros env sp s _ Hg. apply wp_bind, wp_writing. intros fs a t1 [= _ <-].
    apply wp_writeRecoveryCodes; [done|]. intros s2 codes Hco Hi Hf Ht.
    exists (DRegenerate user codes), (list_to_set codes.*1). cbn [deed_ids]. split; [|split; [done|split; [|split; [|split]]]].
    + intros i Hin%elem_of_list_to_set. by apply Hi.
    + exact Hf.
    + rewrite Ht. done.
    + split; [done|]. by split.
    + apply runs_ret. split; [by apply none_snoc|]. split; [by apply live_snoc|]. exists codes.
      split; [apply in_snoc|]. by rewrite Hco.
Qed.

Lemma behind_RevokeSession id : behind (ORevokeSession id).
Proof.
  intros log Hn Hl. apply op_answers. unfold RevokeSessionDevice. apply runs_bind.
  apply (runs_look_or _ (may_saw _) _ _ _ (fun r => Some (OSession id r))); [by split| |].
  { intros t b Hb. cbn. by case_hyp Hb; simplify_eq. }
  intros t r _. clear t. set (log1 := log ++ _). assert (starts_none log1) as Hn1 by by apply none_snoc.
  assert (live_seen log1 user session) as Hl1 by by apply live_snoc. cbv beta iota.
  apply runs_fail_if; [by split|]. intros Hu%negb_false_iff%Z.eqb_eq. apply runs_tx_plain; [|by split|].
  - intros env. unfold RevokeSessionsForDevice, revoking. quiet_steps.
  - intros env sp s _. apply wp_bind, wp_revoking. intros n s1 H1. apply wp_endConnections. intros s2 H2.
    exists (DEndDevice user (ses_device r)). split; [done|split; [done|split; [by rewrite H2|split]]].
    + split; [done|]. split; [done|]. exists r. split_and!; [apply in_snoc|done|done].
    + split; [by apply none_snoc|]. split; [by apply live_snoc|]. exists r.
      split_and!; [apply elem_of_app; left; apply in_snoc|done|apply in_snoc].
Qed.

Lemma safe_Guarded op : served svc (q op).
Proof.
  apply safe_behind. destruct op; auto using behind_Mint, behind_ListTokens, behind_RevokeToken, behind_LogoutAll,
    behind_BeginTotp, behind_ConfirmTotp, behind_Disable, behind_Regenerate, behind_RevokeSession.
Qed.
End ops.

Section server.
Context {digest : Digest} {citext : Citext} {out : Outside} (svc : Service).
#[local] Hint Resolve may_saw none_nil none_snoc none_grows none_one : core.

(** ** Device codes *)

Lemma code_inserted t id hash code device name expires r t2 :
  (if bool_decide (is_Some (a_devices t !! id)) || existsb (fun kv => hash_is hash kv.2) (map_to_list (a_devices t))
   then inl EUnique
   else if existsb (fun kv => (dc_code kv.2 =? code)%string) (map_to_list (a_devices t)) then inl EUserCodeTaken
   else
     let r := mkDeviceCode hash code device name None None None None (a_now t) expires in
     inr (r, set_devices (<[id := r]> (a_devices t)) t)) = inr (r, t2) ->
  deed_ok (DIssueCode id hash code device name expires) t /\ t2 = deed_do (DIssueCode id hash code device name expires) t.
Proof.
  intros Hm. case_hyp Hm; [done|]. case_hyp Hm; [done|]. injection Hm as _ <-. bool_hyps.
  split; [|done]. split; [by apply unused_id|by apply unused_hash].
Qed.

Lemma runs_create_code W attempts log hash device name expires :
  (forall id h c d n e, W log (DIssueCode id h c d n e)) -> starts_none log ->
  runs W log (create_code attempts hash device name expires) (fun log' _ => starts_none log').
Proof.
  intros Hw Hn. induction attempts as [|attempts IH]; cbn [create_code];
    (apply runs_bind, runs_local; intros env; destruct (randomCode _ _) as [[[e|code] rest]|]; [done| |done];
     apply runs_nextID; [done|]; intros id X sp t g HX; apply does_bind, does_try, does_writing; [intros sp1 t1 g1 e _ _|intros sp1 t1 g1 r t2 _ _ Hm]).
  - by destruct e.
  - apply code_inserted in Hm as [Hok ->]. eexists _. split_and!; [|exact Hok|reflexivity|done|by apply none_snoc].
    cbn. set_solver.
  - destruct e; try done. destruct attempts; [done|]. apply IH.
  - apply code_inserted in Hm as [Hok ->]. eexists _. split_and!; [|exact Hok|reflexivity|done|by apply none_snoc].
    cbn. set_solver.
Qed.

Lemma safe_DeviceCode device name : served svc (QDeviceCode device name).
Proof.
  unfold served. cbn [serve]. apply answer_none; [done|done|]. unfold StartDeviceAuth. apply runs_bind, runs_pure.
  destruct (normalizeDeviceID device) as [e|dev]; [done|]. apply runs_bind, runs_local. intros env.
  unfold GenerateDeviceCode, generateOpaqueToken. destruct (next_read env) as [buf|]; [|done].
  apply runs_bind, runs_local. intros env2. apply runs_bind. eapply runs_mono; [by apply runs_create_code|].
  intros log [e|c] Hn; [done|by apply runs_ret].
Qed.

(** A code redeemed: its device's session starts, in the name of who approved it. *)
Lemma wp_redeem env hash id ip session_hash (Q : Z -> AuthSt -> Prop) (s : AuthSt) :
  (forall s' code user device name expires,
     deed_ok (DRedeem code hash id user device session_hash name ip expires) (tabs s) ->
     tabs s' = deed_do (DRedeem code hash id user device session_hash name ip expires) (tabs s) -> Q user s') ->
  wp (row ← no_rows_as EDeviceCodeExpired (ConsumeDeviceCode hash);
      let userID := default 0 (dc_user row.2) in
      writeSession svc env id userID (dc_device row.2) (dc_name row.2) ip session_hash;;
      mret userID) Q s.
Proof.
  intros HQ. apply wp_bind, wp_no_rows_as, wp_writing. intros fs row t1 Hm. case_hyp Hm; [|done]. destruct p as [code r].
  injection Hm as <- <-. apply find_row_some in E as [Hr Hd]. apply andb_true_iff in Hd as [Hh%String.eqb_eq Hd].
  cbn [snd dc_user dc_device dc_name consume_code]. pose proof Hd as Hd'. unfold dc_redeemable in Hd'. bool_hyps.
  apply unset_false in H as [user Hu]. rewrite Hu. apply wp_bind, wp_writeSession. intros s2 Hf Ht. apply wp_ret.
  apply (HQ _ code user (dc_device r) (optionalString (dc_name r)) (e_now env + RefreshTokenTTL)).
  - cbn. split; [by exists r|exact Hf].
  - rewrite Ht. cbn. by erewrite at_row_insert.
Qed.

Lemma safe_DeviceToken raw ip : served svc (QDeviceToken raw ip).
Proof.
  unfold served. cbn [serve]. apply answer_said. unfold RedeemDeviceCode.
  destruct (ParseDeviceCode raw) as [hash|] eqn:Ep; [|by apply runs_fail, none_nil].
  apply runs_bind, runs_write_or; [intros; apply none_nil|]. intros sp t a t2 _ Hm. cbv zeta in Hm. case_hyp Hm; [|done].
  destruct p as [code r]. injection Hm as <- <-. apply find_row_some in E as [Hr Hd]. bool_hyps. unfold dc_unexpired in *. bool_hyps.
  exists (DPoll code). assert (starts_none ([] ++ [DPoll code])) as Hn by by apply none_one.
  split_and!; [done|exists r; split_and!; [done|by apply unset_true|done]|cbn; by erewrite at_row_insert|done|].
  apply runs_fail_if; [done|]. intros _. apply runs_fail_if; [done|]. intros _. apply runs_fail_if; [done|]. intros _.
  apply runs_bind, runs_local. intros env. unfold GenerateRefreshToken, generateOpaqueToken.
  destruct (next_read env) as [buf|]; [|done]. apply runs_nextID; [done|]. intros id X sp1 t1 g1 HX.
  apply does_bind, does_tx; [|done|].
  - intros env2. unfold ConsumeDeviceCode. quiet_steps.
  - intros env2 sp2 s2 _ _. apply wp_redeem. intros s3 c user device name expires Hok Ht. eexists _, ∅.
    split_and!; [by intros i Hi%elem_of_empty| |exact Hok|exact Ht|done|].
    + cbn. set_solver.
    + intros g' _. apply does_local. intros env3 sp3 t3 g3 _ _. repeat eexists. apply in_snoc.
Qed.

(** ** The verification page *)

Lemma runs_code_by_id W (HW : forall log o, W log (Saw o)) log id (Q : list Deed -> Err + DeviceCode -> Prop) :
  (forall e, Q log (inl e)) -> (forall r, Q (log ++ [Saw (OCode id r)]) (inr r)) ->
  runs W log (deviceCodeByID id) Q.
Proof.
  intros H1 H2. apply (runs_look_or _ HW _ _ _ (fun r => Some (OCode id r))); [done| |by intros; apply H2].
  intros t r Hm. case_hyp Hm; [|done]. case_hyp Hm; simplify_eq. done.
Qed.

Lemma safe_PageEntry code : served svc (QPageEntry code).
Proof.
  unfold served. cbn [serve]. apply answer_none; [done|done|]. unfold devicePageEntry, LookUpDeviceCode.
  destruct (ParseUserCode code) as [c|]; [|by apply runs_fail].
  apply runs_bind, runs_bind, (runs_look_or _ (may_saw _) _ _ _ (fun _ => None)); [done|done|]. intros t b _.
  cbn [option_list fmap option_fmap option_map]. apply runs_ret, runs_local. done.
Qed.

Lemma runs_renderApproval W (HW : forall log o, W log (Saw o)) log id user proof
    (Q : list Deed -> Err + PageStep -> Prop) :
  (forall log' e, grows log log' -> Q log' (inl e)) ->
  (factorProof_authorizes proof user = true -> forall log' env code, grows log log' ->
     Q log' (inr (AskApproval (jwt_sign (device_claims env deviceApprovalTokenType id code user))))) ->
  runs W log (renderDeviceApproval id user proof) Q.
Proof.
  intros H1 H2. unfold renderDeviceApproval, issueDeviceApprovalToken. apply runs_bind, runs_code_by_id; [done|by intros; apply H1|].
  intros r. apply runs_bind. destruct (factorProof_authorizes proof user) eqn:E; cbn [negb].
  - apply runs_local. intros env. apply runs_ret, H2; auto with norite.
  - apply runs_fail, H1. auto with norite.
Qed.

Lemma safe_PageSignIn token email password : served svc (QPageSignIn token email password).
Proof.
  unfold served. cbn [serve]. apply answer_said. unfold devicePageSignIn, parse_continuation.
  apply runs_bind, runs_bind, runs_local. intros env. apply runs_pure.
  destruct (parseDeviceToken _ _ _) as [e|entry]; [apply none_nil|]. apply runs_bind.
  eapply runs_mono; [by apply runs_verifyCredentials|]. intros log1 [e|[user u]] [Hg Hp]; [by apply none_grows|]. cbn in Hp.
  cbn [fst]. unfold continueToApproval. apply runs_bind, runs_try. eapply runs_mono; [by apply runs_factorSatisfied|].
  intros log2 [e|p] [Hg2 Hp2].
  - assert (starts_none log2) as Hn2 by (apply none_grows; by etrans).
    destruct e; try (by apply runs_fail). unfold renderDeviceFactor. apply runs_bind, runs_code_by_id; [done|done|].
    intros r. apply runs_bind, runs_local. intros env2. by apply runs_ret.
  - destruct Hp2 as [-> Hnf]. apply runs_renderApproval; [done| |].
    + intros log3 e Hg3. apply none_grows. etrans; [exact Hg|]. by etrans.
    + intros _ log3 env3 code Hg3. exists env3, (dcn_code_id entry), code, user. split_and!; [|by eapply no_factor_grows|done].
      eapply password_shown_grows; [|exact Hp]. by etrans.
Qed.

Lemma safe_PageFactor token code : served svc (QPageFactor token code).
Proof.
  unfold served. cbn [serve]. apply answer_said. unfold devicePageFactor, parse_continuation.
  apply runs_bind, runs_bind, runs_local. intros env. apply runs_pure.
  destruct (parseDeviceToken _ _ _) as [e|pending] eqn:Epd; [apply none_nil|]. apply runs_bind.
  eapply runs_mono; [apply runs_proveFactor; [done|]|].
  - intros log' d _ Hd. destruct d; try done; cbn; eauto 10.
  - intros log1 [e|p] [Hg Hp]; [by apply none_grows|]. destruct Hp as [-> Hf]. apply runs_renderApproval; [done| |].
    + intros log2 e Hg2. apply none_grows. by etrans.
    + intros _ log2 env2 c Hg2. exists env2, (dcn_code_id pending), c, (dcn_user pending).
      split; [by eapply factor_proved_grows|done].
Qed.

Lemma code_updated id (P : Z -> DeviceCode -> bool) (f : Z -> DeviceCode -> DeviceCode) t a t2 d :
  match a_devices t !! id with
  | Some r => if P (a_now t) r then @inr Err _ (f (a_now t) r, set_devices (<[id := f (a_now t) r]> (a_devices t)) t)
      else inl ENoRows
  | None => @inl Err (DeviceCode * Auth) ENoRows
  end = inr (a, t2) ->
  (forall r, a_devices t !! id = Some r -> P (a_now t) r = true -> deed_ok d t) ->
  deed_do d t = set_devices (at_row id (f (a_now t)) (a_devices t)) t -> deed_ok d t /\ t2 = deed_do d t.
Proof.
  intros Hm Hok Heq. case_hyp Hm; [|done]. case_hyp Hm; [|done]. injection Hm as _ <-. split; [by eapply Hok|].
  rewrite Heq. by erewrite at_row_insert.
Qed.

Lemma safe_PageApprove token approve : served svc (QPageApprove token approve).
Proof.
  unfold served. cbn [serve]. apply answer_said. unfold devicePageApprove, parse_continuation.
  apply runs_bind, runs_bind, runs_local. intros env. apply runs_pure.
  destruct (parseDeviceToken _ _ _) as [e|c] eqn:Ec; [apply none_nil|]. destruct approve.
  - apply runs_bind. unfold ApproveDeviceAuthorization. apply runs_bind, runs_write_or; [intros; apply none_nil|].
    intros sp t a t2 _ Hm. apply (code_updated _ dc_undecided (fun _ => approve_code (dcn_user c)) _ _ _ (DApprove (dcn_code_id c) (dcn_user c))) in Hm as [Hok ->];
      [|intros r ??; by exists r|done].
    eexists. split_and!; [|exact Hok|done|by exists (e_now env), c|].
    + done.
    + apply runs_ret, runs_ret. exists (e_now env), c. split; [done|]. by left.
  - apply runs_bind. unfold DenyDeviceAuthorization. apply runs_bind, runs_try, runs_write.
    + intros e. destruct e; try apply runs_fail, none_nil. apply runs_bind, runs_try, runs_write.
      * intros e. destruct e; try apply runs_fail, none_nil. apply runs_ret, runs_ret. by exists (e_now env), c.
      * intros sp t a t2 _ Hm. apply (code_updated _ (fun _ r => bool_decide (dc_user r = Some (dcn_user c)) && unset (dc_consumed r)) consume_code _ _ _
          (DTakeBack (dcn_code_id c) (dcn_user c))) in Hm as [Hok ->];
          [| |done].
        -- eexists. split_and!; [|exact Hok|done|by exists (e_now env), c|]; [done|].
           apply runs_ret, runs_ret. exists (e_now env), c. split; [done|]. by left.
        -- intros r Hr HP. bool_hyps. exists r. split_and!; [done|done|by apply unset_true].
    + intros sp t a t2 _ Hm. apply (code_updated _ dc_undecided deny_code _ _ _ (DDeny (dcn_code_id c))) in Hm as [Hok ->];
        [|intros r ??; by exists r|done].
      eexists. split_and!; [|exact Hok|done|by exists (e_now env), c|]; [done|].
      apply runs_ret, runs_ret. exists (e_now env), c. split; [done|]. by left.
Qed.

(** ** API tokens *)

Lemma touched t id a t2 :
  match a_tokens t !! id with
  | Some r => @inr Err _ (tt, if touch_due (a_now t) r then set_tokens (<[id := touch_token (a_now t) r]> (a_tokens t)) t else t)
  | None => @inr Err _ (tt, t)
  end = inr (a, t2) -> t2 = deed_do (DTouch id) t.
Proof.
  assert (forall m, m = a_tokens t -> t = set_tokens m t) as Ht by (intros m ->; by destruct t).
  intros Hm. cbn. case_hyp Hm.
  - injection Hm as _ <-. erewrite at_row_insert by done. cbn. destruct (touch_due _ _); [done|].
    apply Ht. by rewrite insert_id.
  - injection Hm as _ <-. apply Ht. unfold at_row. rewrite alter_id; [done|]. intros v Hv. congruence.
Qed.

Lemma safe_Authenticate raw : served svc (QAuthenticate raw).
Proof.
  unfold served. cbn [serve]. apply answer_said. unfold AuthenticateAPIToken.
  destruct (ParseAPIToken raw) as [hash|] eqn:Ep; [|by apply runs_fail, none_nil].
  apply runs_bind, (runs_look_or _ (may_saw _) _ _ _ (fun b => Some (OToken b.1 b.2))); [intros; apply none_nil| |].
  - intros t [id r] Hm. case_hyp Hm; [|done]. destruct p as [i r0]. destruct (tok_live r0 && _) eqn:E0; simplify_eq.
    apply find_row_some in E as [Hr Hh]. bool_hyps. split_and!; [done|by apply unset_true|].
    case_hyp H0; [|done]. exists u. split; [done|by apply unset_true].
  - intros t [id r] Hm. case_hyp Hm; [|done]. destruct p as [i r0]. destruct (tok_live r0 && _) eqn:E0; simplify_eq.
    apply find_row_some in E as [_ Hh%String.eqb_eq]. clear t E0. set (log1 := [] ++ _).
    assert (forall log2 : list Deed, Saw (OToken id r) ∈ log2 ->
      runs (may (QAuthenticate raw)) log2 (mret (mkActor ActorAPIToken (tok_user r) 0 id (tok_scopes r)))
        (said (QAuthenticate raw) AActor)) as Hend.
    { intros log2 Hin. apply runs_ret. exists id, r. split_and!; [done|by rewrite Hh|done]. }
    apply runs_bind, runs_local. intros env. apply runs_bind. destruct (match tok_used r with Some _ => _ | None => _ end).
    + apply runs_bind, runs_try, runs_write; [intros e; apply runs_ret, Hend; by left|].
      intros sp t a t2 _ Hm. exists (DTouch id). split_and!; [done|done|by apply touched in Hm|done|].
      apply runs_ret, Hend. by left.
    + apply runs_ret, Hend. by left.
Qed.

(** ** The sweep *)

Lemma runs_sweep W log (f : Auth -> Z) d (Q : list Deed -> Err + Z -> Prop) :
  deed_ids d = ∅ -> (forall t, deed_ok d t) -> W log d -> (forall e, Q log (inl e)) -> (forall n, Q (log ++ [d]) (inr n)) ->
  runs W log (db (writing (fun t => inr (f t, deed_do d t)))) Q.
Proof.
  intros Hi Hok Hw H1 H2. apply runs_write; [done|]. intros sp t a t2 _ [= <- <-]. exists d. by split_and!.
Qed.

Lemma runs_sweep_sessions rounds0 log rounds total :
  starts_none log -> runs (may (QSweep rounds0)) log (sweep_sessions rounds total) (fun log' _ => starts_none log').
Proof.
  revert log total. induction rounds as [|rounds IH]; intros log total Hn; cbn [sweep_sessions]; [by apply runs_fail|].
  apply runs_bind, runs_write; [done|]. intros sp t n t2 _ [= <- <-].
  exists (DSweepSessions (expired_sessions t sessionSweepBatch)). split_and!; [done| |done|done|].
  - intros id Hid. unfold expired_sessions in Hid. apply elem_of_list_to_set, elem_of_take in Hid as (i & Hi & _).
    apply list_elem_of_lookup_2 in Hi. rewrite merge_sort_Permutation in Hi. apply list_elem_of_fmap in Hi as ([i' r] & -> & Hi).
    apply list_elem_of_filter in Hi as [He%Z.ltb_lt Hi]. exists r. split; [by apply elem_of_map_to_list|done].
  - destruct (_ <? _); [by apply runs_ret, none_snoc|]. by apply IH, none_snoc.
Qed.

Lemma safe_Sweep rounds : served svc (QSweep rounds).
Proof.
  unfold served. cbn [serve]. apply answer_none; [done|done|]. unfold SweepExpired.
  apply runs_bind, (runs_sweep _ _ _ DSweepResets); [done..|]. intros n1.
  apply runs_bind, (runs_sweep _ _ _ DSweepExchange); [done|done|done|by intros; apply none_one|]. intros n2.
  assert (starts_none [DSweepResets; DSweepExchange]) as Hn2 by by intros d [->|[->|[]%elem_of_nil]%elem_of_cons]%elem_of_cons.
  apply runs_bind, (runs_sweep _ _ _ DSweepVerify); [done|done|done|done|]. intros n3.
  assert (starts_none ([DSweepResets; DSweepExchange] ++ [DSweepVerify])) as Hn3 by by apply none_snoc.
  apply runs_bind, (runs_sweep _ _ _ DSweepCodes); [done|done|done|done|]. intros n4.
  apply runs_bind. eapply runs_mono; [apply runs_sweep_sessions; by apply (none_snoc _ DSweepCodes Hn3)|].
  intros log [e|n5] Hn; [done|by apply runs_ret].
Qed.

(** ** The gateway's questions *)

Lemma safe_ListSessions user session : served svc (QListSessions user session).
Proof.
  unfold served. cbn [serve]. apply answer_none; [done|done|]. unfold ListSessionDevices.
  apply runs_bind, (runs_look _ (may_saw _) _ _ (fun _ => None)); [done|done|]. intros t rows _.
  cbn [option_list fmap option_fmap option_map]. apply runs_bind. eapply runs_mono; [by apply runs_currentDeviceID|].
  intros log [e|c] [Hg _]; [by apply none_grows|]. by apply runs_ret, none_grows.
Qed.

Lemma safe_SignInOf user session : served svc (QSignInOf user session).
Proof.
  unfold served. cbn [serve]. apply answer_none; [done|done|]. apply runs_SignInOf; [done| | |].
  - intros log _ Hg. by apply none_grows.
  - intros log Hg. by apply none_grows.
  - intros r _. by apply none_one.
Qed.

Lemma safe_Live user s : served svc (QLive user s).
Proof.
  unfold served. cbn [serve]. apply answer_said, runs_RequireLiveSignIn; [done| |].
  - intros log e Hg. by apply none_grows.
  - by left.
Qed.

(** ** The server *)

Lemma serve_safe q sp t g :
  sound auth_inv ∅ sp t g ->
  does auth_tick deed_ok deed_do deed_ids auth_inv (may q) ∅ [] (serve svc q) sp t g (fun _ log r _ _ _ => post q log r).
Proof.
  assert (forall q, served svc q) as H; [|intros _; apply (H q)]. clear. intros []; auto using safe_Login, safe_VerifyTwoFactor, safe_Exchange, safe_IssueExchange, safe_Refresh,
    safe_Logout, safe_RequestReset, safe_ConfirmReset, safe_RequestVerify, safe_ConfirmVerify, safe_Guarded,
    safe_ListSessions, safe_SignInOf, safe_Live, safe_Authenticate, safe_DeviceCode, safe_DeviceToken, safe_PageEntry,
    safe_PageSignIn, safe_PageFactor, safe_PageApprove, safe_Sweep.
Qed.
End server.

(** ** Histories *)

(** ** Runs *)

(** The ids the tables use. *)
Definition row_ids (t : Auth) : gset Z :=
  dom (a_sessions t) ∪ dom (a_tokens t) ∪ dom (a_devices t) ∪ dom (a_resets t) ∪ dom (a_recovery t).

(** A state a server may start from: its generator is past every id, and no two sessions have one token. *)
Record fit (s : AuthSt) : Prop := mkFit {
  fit_gen : gen_ok (gen s);
  fit_ids : forall id, id ∈ row_ids (tabs s) -> id <= mark (gen s);
  fit_hashes : forall i j r r', a_sessions (tabs s) !! i = Some r -> a_sessions (tabs s) !! j = Some r' ->
    ses_hash r = ses_hash r' -> i = j
}.

(** The account server's pools and moves. *)
Abbreviation AuthPool := (Pool (Tab := Auth) (Msg := AuthMsg) (Env := AuthEnv) Request Answer).
Abbreviation AuthMove := (Move (Env := AuthEnv) Request).

Section history.
Context {digest : Digest} {citext : Citext} {out : Outside} (svc : Service).

#[local] Abbreviation Hap := (Happening (Deed := Deed)).
#[local] Abbreviation replay := (replay auth_tick deed_ok deed_do deed_ids).
#[local] Abbreviation pool_ok := (pool_ok auth_tick deed_ok deed_do deed_ids auth_inv may post).
#[local] Abbreviation stable := (stable auth_tick deed_ok deed_do deed_ids).
#[local] Abbreviation hap_ok := (hap_ok deed_ok).
#[local] Abbreviation hap_do := (hap_do auth_tick deed_do).
#[local] Abbreviation hap_ids := (hap_ids deed_ids).

(** The server, its calls' steps in whatever order. *)
Definition go (ls : list AuthMove) (p : AuthPool) : option AuthPool := moves (serve svc) auth_tick ls p.

Lemma fit_sound (s : AuthSt) : fit s -> sound auth_inv ∅ (row_ids (tabs s)) (tabs s) (gen s).
Proof.
  intros [Hg Hi Hh]. unfold row_ids in *. split; [|done|done|by intros i Hi'%elem_of_empty|set_solver].
  split; try done; intros id Hid%elem_of_dom; set_solver.
Qed.

(** ** Replays *)

Lemma replay_split sp t h1 h2 sp' t' :
  replay sp t (h1 ++ h2) sp' t' -> exists sp1 t1, replay sp t h1 sp1 t1 /\ replay sp1 t1 h2 sp' t'.
Proof.
  revert sp t. induction h1 as [|h h1 IH]; intros sp t; [by exists sp, t|].
  cbn. intros (Hok & Hd & Hr). destruct (IH _ _ Hr) as (sp1 & t1 & H1 & H2). exists sp1, t1. by split_and!.
Qed.

Lemma replay_at sp t h1 c d h2 sp' t' :
  replay sp t (h1 ++ ByCall c d :: h2) sp' t' -> exists sp1 t1, replay sp t h1 sp1 t1 /\ deed_ok d t1 /\
    deed_ids d ## sp1 /\ replay (sp1 ∪ deed_ids d) (deed_do d t1) h2 sp' t'.
Proof.
  intros (sp1 & t1 & H1 & Hok & Hd & H2)%replay_split. exists sp1, t1. by split_and!.
Qed.

Lemma replay_inv sp t hs sp' t' : replay sp t hs sp' t' -> auth_inv sp t -> auth_inv sp' t'.
Proof.
  revert sp t. induction hs as [|h hs IH]; intros sp t; [by intros [-> ->]|].
  intros (Hok & Hd & Hr) Hi. eapply IH; [exact Hr|]. by apply auth_inv_step.
Qed.

Lemma deed_now d t : a_now (deed_do d t) = a_now t.
Proof.
  destruct d; try reflexivity.
  - cbn. by destruct (a_sessions t !! old).
  - cbn. by destruct (a_verify t !! id).
Qed.

Lemma replay_now sp t hs sp' t' : replay sp t hs sp' t' -> a_now t <= a_now t'.
Proof.
  revert sp t. induction hs as [|[c d|n] hs IH]; intros sp t; [by intros [_ ->]|..]; intros (Hok & Hd & Hr); apply IH in Hr.
  - by rewrite <- (deed_now d t).
  - cbn in *. lia.
Qed.

(** A deed of a call, and where in the history it is. *)
Lemma deeds_of_in c d (hs : list Hap) : d ∈ deeds_of c hs -> exists h1 h2, hs = h1 ++ ByCall c d :: h2.
Proof.
  unfold deeds_of. intros (h & Hh & Hd)%list_elem_of_omap. apply list_elem_of_split in Hh as (h1 & h2 & ->).
  destruct h as [c' d'|n]; [|done]. cbn in Hd. destruct (decide (c' = c)) as [->|]; [|done]. injection Hd as ->.
  by exists h1, h2.
Qed.

Lemma deeds_of_app c (h1 h2 : list Hap) : deeds_of c (h1 ++ h2) = deeds_of c h1 ++ deeds_of c h2.
Proof. apply omap_app. Qed.

(** ** Pools *)

(** A history that explains a pool: its tables, what warrants its deeds, what its answers say. *)
Record explains (s : AuthSt) (hs : list Hap) (p : AuthPool) : Prop := mkExplains {
  ex_replay : exists sp', replay (row_ids (tabs s)) (tabs s) hs sp' (tabs (pl_st p));
  ex_may : forall h1 c d h2, hs = h1 ++ ByCall c d :: h2 -> exists q, pl_reqs p !! c = Some q /\
    may q (deeds_of c h1) d;
  ex_post : forall c r, (c, r) ∈ pl_done p -> exists q, pl_reqs p !! c = Some q /\ post q (deeds_of c hs) r
}.

Lemma pool_explains s sp hs Xs (p : AuthPool) :
  replay (row_ids (tabs s)) (tabs s) hs sp (tabs (pl_st p)) -> pool_ok sp hs Xs p -> explains s hs p.
Proof.
  intros Hr Hok. constructor; [by exists sp|by apply (po_may _ _ _ _ _ _ _ _ _ _ _ Hok)|].
  intros c r Hd. by apply (pool_answers _ _ _ _ _ _ _ _ _ _ _ _ _ Hok).
Qed.

(** A run, and more of it. *)
Lemma go_start s ls p :
  fit s -> go ls (idle s) = Some p -> exists sp hs Xs,
    replay (row_ids (tabs s)) (tabs s) hs sp (tabs (pl_st p)) /\ pool_ok sp hs Xs p.
Proof.
  intros Hf Hm. eapply pool_refines; [|by intros; apply serve_safe|by apply fit_sound|exact Hm].
  intros. by apply auth_inv_step.
Qed.

Lemma go_on sp hs Xs p ls p' :
  pool_ok sp hs Xs p -> go ls p = Some p' -> exists sp' hs' Xs', pool_ok sp' (hs ++ hs') Xs' p' /\
    replay sp (tabs (pl_st p)) hs' sp' (tabs (pl_st p')).
Proof.
  intros Hok Hm. eapply pool_moves; [|by intros; apply serve_safe|exact Hok|exact Hm].
  intros. by apply auth_inv_step.
Qed.

(** The deeds of a call that began after [p] are later than [p]. *)
Lemma begun_after sp hs Xs (p : AuthPool) hs' c :
  pool_ok sp hs Xs p -> (length (pl_reqs p) <= c)%nat -> deeds_of c (hs ++ hs') = deeds_of c hs'.
Proof. intros Hok Hc. destruct (po_new _ _ _ _ _ _ _ _ _ _ _ Hok c Hc) as [_ Hn]. by rewrite deeds_of_app, Hn. Qed.
End history.
