(* ===== verification/AuthEnding.v ===== *)
(** Ending sessions: what a sign-out, a sign-out everywhere, a password reset or the replay of a spent
    refresh token means for every later state of the tables, whatever calls were in flight. *)
From S2P Require Import Prelude GoStd Snowflake Rows.
From S2P Require Export AuthServer.

(** The sessions a deed ends. *)
Definition ends (d : Deed) (r : Session) : bool :=
  match d with
  | DEndDevice user device => on_device user device r
  | DEndAll user keep | DDisable user keep => in_scope user keep r
  | DReset _ user _ => in_scope user "" r
  | _ => false
  end.

(** None of the sessions [P] selects whose sign-in is older than [T] is live. *)
Definition no_older (P : Session -> bool) (T : Z) (t : Auth) : Prop := forall id r,
  a_sessions t !! id = Some r -> P r = true -> ses_revoked r = None -> T <= ses_first r.

(** Nor any API token of the account. *)
Definition no_older_token (user T : Z) (t : Auth) : Prop := forall id r,
  a_tokens t !! id = Some r -> tok_user r = user -> tok_revoked r = None -> T <= tok_created r.

(** A selection of families. *)
Definition by_family (P : Session -> bool) : Prop := forall r r',
  ses_user r = ses_user r' -> ses_device r = ses_device r' -> P r = P r'.

Lemma on_device_family user device : by_family (on_device user device).
Proof. intros r r' H1 H2. unfold on_device. by rewrite H1, H2. Qed.

Lemma in_scope_family user keep : by_family (in_scope user keep).
Proof. intros r r' H1 H2. unfold in_scope. by rewrite H1, H2. Qed.

Lemma ends_family d : by_family (ends d).
Proof. destruct d; cbn; try done; first [apply on_device_family|apply in_scope_family]. Qed.

(** A deed that ends all the account has: every session but those of the device spared, every token. *)
Definition ends_account (d : Deed) (user : Z) : Prop :=
  match d with DEndAll u _ | DDisable u _ | DReset _ u _ => u = user | _ => False end.

Section ending.
Context {digest : Digest} {citext : Citext} {out : Outside} (svc : Service).
#[local] Abbreviation Hap := (Happening (Deed := Deed)).
#[local] Abbreviation replay := (replay auth_tick deed_ok deed_do deed_ids).
#[local] Abbreviation pool_ok := (pool_ok auth_tick deed_ok deed_do deed_ids auth_inv may post).
#[local] Abbreviation stable := (stable auth_tick deed_ok deed_do deed_ids).
#[local] Abbreviation hap_ok := (hap_ok deed_ok).
#[local] Abbreviation hap_do := (hap_do auth_tick deed_do).

(** A new session's sign-in is now, or that of a live session of its family. *)
Lemma no_older_step P T (h : Hap) t :
  by_family P -> hap_ok h t -> T <= a_now t -> no_older P T t -> no_older P T (hap_do h t).
Proof.
  intros HP Hok HT Hn id r Hr HPr Hl. destruct h as [c d|n]; cbn in *; [|by eapply Hn].
  destruct (sessions_after d t id r Hok Hr) as [(r0 & Hr0 & Hsame & Hrev)|(_ & _ & [Hb|Hb])].
  - destruct Hsame as (Hu & Hd & _ & _ & _ & _ & ->). apply (Hn id r0 Hr0).
    + by rewrite <- (HP r r0).
    + destruct (ses_revoked r0) eqn:E; [|done]. rewrite Hrev in Hl by eauto. congruence.
  - destruct Hb as (u & dv & h & nm & ip & ex & _ & ->). exact HT.
  - destruct Hb as (old & h & ex & r0 & _ & Hr0 & Hl0 & ->). cbn. apply (Hn old r0 Hr0); [|done].
    by rewrite <- (HP (new_session (a_now t) (ses_user r0) (ses_device r0) h (ses_name r0) (ses_ip r0) ex (Some (ses_first r0))) r0).
Qed.

Lemma no_older_token_step user T (h : Hap) t :
  hap_ok h t -> T <= a_now t -> no_older_token user T t -> no_older_token user T (hap_do h t).
Proof.
  intros Hok HT Hn id r Hr Hu Hl. destruct h as [c d|n]; cbn in *; [|by eapply Hn].
  destruct (tokens_after d t id r Hok Hr) as [(r0 & Hr0 & Hu0 & _ & _ & Hc & Hrev)|(_ & _ & ->)]; [|done].
  rewrite Hc. apply (Hn id r0 Hr0); [congruence|]. destruct (tok_revoked r0) eqn:E; [|done].
  destruct Hrev as [? Hrev]; [by eauto|]. congruence.
Qed.

Lemma hap_now (h : Hap) t : hap_ok h t -> a_now t <= a_now (hap_do h t).
Proof. destruct h as [c d|n]; cbn; intros H; [by rewrite deed_now|lia]. Qed.

Lemma replay_keeps (F : Z -> Auth -> Prop) T sp t hs sp' t' :
  (forall h t, hap_ok h t -> T <= a_now t -> F T t -> F T (hap_do h t)) ->
  replay sp t hs sp' t' -> T <= a_now t -> F T t -> F T t'.
Proof.
  intros HF. revert sp t. induction hs as [|h hs IH]; intros sp t; [by intros [_ ->]|].
  intros (Hok & _ & Hr) HT H. eapply IH; [exact Hr| |by apply HF]. pose proof (hap_now h t Hok). lia.
Qed.

(** Right after a deed that ends them, none of them is live. *)
Lemma ended d t id r :
  deed_ok d t -> a_sessions (deed_do d t) !! id = Some r -> ends d r = true -> ses_revoked r <> None.
Proof.
  assert (forall P t id r, by_family P -> a_sessions (end_sessions P t) !! id = Some r -> P r = true ->
    ses_revoked r <> None) as Hend.
  { intros P t0 i r0 HP H HPr. apply end_sessions_some in H as (r1 & _ & [(Hu & Hd & _) _] & Hrev).
    rewrite (HP r0 r1) in HPr by done. destruct Hrev as [? Hr]; [done|]. congruence. }
  assert (forall user keep t id r, a_sessions (end_everything user keep t) !! id = Some r -> in_scope user keep r = true ->
    ses_revoked r <> None) as Hall.
  { intros user keep t0 i r0 H. apply (Hend (in_scope user keep) t0 i r0); [apply in_scope_family|exact H]. }
  destruct d; cbn [ends deed_do]; try done; intros _ H HP; try by eapply Hall.
  eapply Hend; [apply on_device_family|exact H|exact HP].
Qed.

Lemma ended_token d user t id r :
  ends_account d user -> a_tokens (deed_do d t) !! id = Some r -> tok_user r = user -> tok_revoked r <> None.
Proof.
  assert (forall keep t0, a_tokens (end_everything user keep t0) !! id = Some r -> tok_user r = user -> tok_revoked r <> None) as Hend.
  { intros keep t0 H Hu. cbn in H. apply update_where_some in H as (r0 & Hr0 & [[HP ->]|[HP ->]]); [done|].
    rewrite Hu, Z.eqb_refl in HP. cbn in HP. apply unset_false in HP as [? ->]. done. }
  destruct d; cbn [ends_account deed_do]; try done; intros ->; apply Hend.
Qed.

(** ** Over a run *)

Section run.
Context (s : AuthSt) (ls0 ls1 ls2 : list AuthMove) (p0 p1 p2 : AuthPool) (c : nat).
Context (Hs : fit s) (H0 : go svc ls0 (idle s) = Some p0) (H1 : go svc ls1 p0 = Some p1) (H2 : go svc ls2 p1 = Some p2).
Context (Hc : (length (pl_reqs p0) <= c)%nat).

(** The history of the run, cut at [p0] and [p1]. *)
Lemma run_history : exists sp0 sp1 sp2 hs0 hs1 Xs1,
  auth_inv sp0 (tabs (pl_st p0)) /\ pool_ok sp1 (hs0 ++ hs1) Xs1 p1 /\
  deeds_of c (hs0 ++ hs1) = deeds_of c hs1 /\
  replay sp0 (tabs (pl_st p0)) hs1 sp1 (tabs (pl_st p1)) /\
  replay (row_ids (tabs s)) (tabs s) hs0 sp0 (tabs (pl_st p0)) /\
  exists hs2, replay sp1 (tabs (pl_st p1)) hs2 sp2 (tabs (pl_st p2)).
Proof.
  destruct (go_start svc s ls0 p0 Hs H0) as (sp0 & hs0 & Xs0 & Hr0 & Hok0).
  destruct (go_on svc sp0 hs0 Xs0 p0 ls1 p1 Hok0 H1) as (sp1 & hs1 & Xs1 & Hok1 & Hr1).
  destruct (go_on svc sp1 _ Xs1 p1 ls2 p2 Hok1 H2) as (sp2 & hs2 & Xs2 & Hok2 & Hr2).
  exists sp0, sp1, sp2, hs0, hs1, Xs1. split_and!; [apply Hok0|done| |done|done|by exists hs2].
  by eapply begun_after.
Qed.

(** A deed of a call that began after [p0] and was done by [p1]: what [p2] has of it. *)
Lemma deed_between hs0 hs1 d sp0 sp1 sp2 hs2 :
  replay sp0 (tabs (pl_st p0)) hs1 sp1 (tabs (pl_st p1)) -> replay sp1 (tabs (pl_st p1)) hs2 sp2 (tabs (pl_st p2)) ->
  deeds_of c (hs0 ++ hs1) = deeds_of c hs1 -> d ∈ deeds_of c (hs0 ++ hs1) ->
  exists sp t h, replay sp0 (tabs (pl_st p0)) h sp t /\ deed_ok d t /\ deed_ids d ## sp /\
    (exists h1, replay (sp ∪ deed_ids d) (deed_do d t) h1 sp1 (tabs (pl_st p1))) /\
    exists h2, replay (sp ∪ deed_ids d) (deed_do d t) h2 sp2 (tabs (pl_st p2)).
Proof.
  intros Hr1 Hr2 -> Hd. apply deeds_of_in in Hd as (h1 & h2 & ->).
  apply replay_at in Hr1 as (sp & t & Hr & Hok & Hids & Hr1). exists sp, t, h1. split_and!; [done..|by exists h2|].
  exists (h2 ++ hs2). by eapply replay_app.
Qed.

(** From then on nothing older of what the deed ended is live. *)
Lemma ended_since d sp t h sp0 h2 sp2 :
  replay sp0 (tabs (pl_st p0)) h sp t -> deed_ok d t -> replay (sp ∪ deed_ids d) (deed_do d t) h2 sp2 (tabs (pl_st p2)) ->
  no_older (ends d) (a_now (tabs (pl_st p0))) (tabs (pl_st p2)) /\
  forall user, ends_account d user -> no_older_token user (a_now (tabs (pl_st p0))) (tabs (pl_st p2)).
Proof.
  intros Hr Hok Hr2. apply replay_now in Hr as Hn. split.
  - eapply (replay_keeps (no_older (ends d))); [|exact Hr2|by rewrite deed_now|].
    + intros h' t' Hok' HT. apply no_older_step; [apply ends_family|done|done].
    + intros id r Hr' HP Hl. by destruct (ended d t id r Hok Hr' HP).
  - intros user Hu. eapply (replay_keeps (no_older_token user)); [|exact Hr2|by rewrite deed_now|].
    + intros h' t' Hok' HT. by apply no_older_token_step.
    + intros id r Hr' HP Hl. by destruct (ended_token d user t id r Hu Hr' HP).
Qed.
End run.

(** A session seen later is the one there was. *)
Lemma kept_now sp0 t0 h sp t id r0 r :
  auth_inv sp0 t0 -> a_sessions t0 !! id = Some r0 -> replay sp0 t0 h sp t -> a_sessions t !! id = Some r ->
  session_evolves r0 r.
Proof.
  intros Hi Hr0 Hr H. destruct (stable_replay _ _ _ _ _ _ _ _ _ _ (session_kept id r0) Hr) as [_ Hk];
    [by apply session_seen|by apply Hk].
Qed.

Lemma reset_now sp0 t0 h sp t id r0 r :
  auth_inv sp0 t0 -> a_resets t0 !! id = Some r0 -> replay sp0 t0 h sp t -> a_resets t !! id = Some r ->
  mail_evolves r0 r.
Proof.
  intros Hi Hr0 Hr H. destruct (stable_replay _ _ _ _ _ _ _ _ _ _ (reset_kept id r0) Hr) as [_ Hk];
    [by apply reset_seen|by apply Hk].
Qed.

(** An id used and not there any more does not come back. *)
Lemma gone_stays sp t hs sp' t' id :
  replay sp t hs sp' t' -> id ∈ sp -> is_Some (a_sessions t' !! id) -> is_Some (a_sessions t !! id).
Proof.
  intros Hr Hid Hs. apply not_eq_None_Some. intros Hn.
  assert (stable (fun sp t => id ∈ sp /\ a_sessions t !! id = None)) as Hst.
  { clear. intros sp [c d|n] t [Hin Hn] Hok Hids; cbn in *; [|split; [set_solver|done]]. split; [set_solver|].
    destruct (a_sessions (deed_do d t) !! id) as [r|] eqn:E; [|done]. exfalso.
    destruct (sessions_after d t id r Hok E) as [(r0 & Hr0 & _)|(_ & Hi & _)]; [congruence|set_solver]. }
  destruct (stable_replay _ _ _ _ _ _ _ _ _ _ Hst Hr) as [_ Hn']; [done|]. rewrite Hn' in Hs. by destruct Hs.
Qed.

(** C6: Signing a device out is final, as long as no transaction of the account service overlaps another. With
    each run whole, between the statements of the calls around it in any order: once a call to end the session [id],
    received when the pool was [p0], has answered, in no later state is a session of that device live whose sign-in
    is older than the call, whether of a refresh that had looked its session up before, or of any other call then
    under way. (A refresh whose transaction overlaps the sign-out's at READ COMMITTED escapes it:
    [refresh_outlives_sign_out].) *)
Theorem sign_out_final s ls0 p0 ls1 p1 ls2 p2 c user session id :
  fit s -> go svc ls0 (idle s) = Some p0 -> go svc ls1 p0 = Some p1 -> go svc ls2 p1 = Some p2 ->
  (length (pl_reqs p0) <= c)%nat -> pl_reqs p1 !! c = Some (QGuarded user session (ORevokeSession id)) ->
  (c, inr ADone) ∈ pl_done p1 ->
  exists device,
    (forall r, a_sessions (tabs (pl_st p0)) !! id = Some r -> ses_user r = user /\ ses_device r = device) /\
    forall i r, a_sessions (tabs (pl_st p2)) !! i = Some r -> ses_user r = user -> ses_device r = device ->
      ses_revoked r = None -> a_now (tabs (pl_st p0)) <= ses_first r.
Proof.
  intros Hs H0 H1 H2 Hc Hq Hdone.
  destruct (run_history s ls0 ls1 ls2 p0 p1 p2 c Hs H0 H1 H2 Hc) as (sp0 & sp1 & sp2 & hs0 & hs1 & Xs1 & Hi & Hok & Hds & Hr1 & Hrs & hs2 & Hr2).
  apply (pool_answers _ _ _ _ _ _ _ _ _ _ _ _ _ Hok) in Hdone as (q & Hq' & Hp). rewrite Hq in Hq'. injection Hq' as <-.
  destruct Hp as (_ & r & Hsaw & Hu & Hend). exists (ses_device r). split.
  - intros r0 Hr0. destruct (deed_between p0 p1 p2 c hs0 hs1 _ sp0 sp1 sp2 hs2 Hr1 Hr2 Hds Hsaw) as (sp & t & h & Hr & Hok2 & _).
    pose proof (kept_now sp0 _ h sp t id r0 r Hi Hr0 Hr Hok2) as [(Hu' & Hd & _) _]. by rewrite <- Hu', <- Hd.
  - intros i r' Hr' Hu' Hd' Hl.
    destruct (deed_between p0 p1 p2 c hs0 hs1 _ sp0 sp1 sp2 hs2 Hr1 Hr2 Hds Hend) as (sp & t & h & Hr & Hok2 & _ & _ & h2 & Hr3).
    destruct (ended_since p0 p2 _ sp t h sp0 h2 sp2 Hr Hok2 Hr3) as [Hno _]. apply (Hno i r' Hr'); [|done].
    cbn. unfold on_device. by rewrite Hu', Hd', Z.eqb_refl, String.eqb_refl.
Qed.

(** What is left of an account once all it had is ended: nothing older than [T], but on the device spared. *)
Definition secured (user : Z) (keep : string) (T : Z) (t : Auth) : Prop :=
  (forall i r, a_sessions t !! i = Some r -> ses_user r = user -> keep = ""%string \/ ses_device r <> keep ->
     ses_revoked r = None -> T <= ses_first r) /\
  no_older_token user T t.

Lemma in_scope_true user keep r :
  ses_user r = user -> keep = ""%string \/ ses_device r <> keep -> in_scope user keep r = true.
Proof.
  intros Hu H. unfold in_scope. rewrite Hu, Z.eqb_refl. destruct (keep =? "")%string eqn:E; [done|].
  destruct H as [->|H]; [done|]. by apply String.eqb_neq in H as ->.
Qed.

Lemma secured_of d user keep T t :
  (forall r, ends d r = in_scope user keep r) -> no_older (ends d) T t -> no_older_token user T t ->
  secured user keep T t.
Proof.
  intros Hd Hno Hnt. split; [|done]. intros i r Hr Hu Hk Hl. apply (Hno i r Hr); [|done]. rewrite Hd.
  by apply in_scope_true.
Qed.

(** C7: A password reset, a sign-out everywhere and taking the second factor off end all the account has, as
    long as no transaction of the account service overlaps another. With each run whole: once the call, received
    when the pool was [p0], has answered, in no later state is a session of the account older than the call live, or
    an API token older than it usable, but for the sessions of the device the call came from; a reset spares none,
    and is of the account its token was mailed to. (A refresh whose transaction overlaps the call's at READ
    COMMITTED escapes it, as [refresh_outlives_sign_out] shows of a sign-out.) *)
Theorem account_ended s ls0 p0 ls1 p1 ls2 p2 c q a :
  fit s -> go svc ls0 (idle s) = Some p0 -> go svc ls1 p0 = Some p1 -> go svc ls2 p1 = Some p2 ->
  (length (pl_reqs p0) <= c)%nat -> pl_reqs p1 !! c = Some q -> (c, inr a) ∈ pl_done p1 ->
  let T := a_now (tabs (pl_st p0)) in
  match q, a with
  | QConfirmReset raw _, ADone => exists id user,
      (forall r, a_resets (tabs (pl_st p0)) !! id = Some r ->
         ml_user r = user /\ ParsePasswordResetToken raw = Some (ml_hash r)) /\
      secured user "" T (tabs (pl_st p2))
  | QGuarded user session OLogoutAll, ARevoked _ | QGuarded user session (ODisable _), ARevoked _ => exists keep,
      (forall r, a_sessions (tabs (pl_st p0)) !! session = Some r -> keep = ""%string \/ keep = ses_device r) /\
      secured user keep T (tabs (pl_st p2))
  | _, _ => True
  end.
Proof.
  intros Hs H0 H1 H2 Hc Hq Hdone T.
  destruct (run_history s ls0 ls1 ls2 p0 p1 p2 c Hs H0 H1 H2 Hc) as (sp0 & sp1 & sp2 & hs0 & hs1 & Xs1 & Hi & Hok & Hds & Hr1 & Hrs & hs2 & Hr2).
  pose proof (fun d => deed_between p0 p1 p2 c hs0 hs1 d sp0 sp1 sp2 hs2 Hr1 Hr2 Hds) as Hat.
  assert (forall d user keep, d ∈ deeds_of c (hs0 ++ hs1) -> (forall r, ends d r = in_scope user keep r) ->
    ends_account d user -> secured user keep T (tabs (pl_st p2))) as Hsec.
  { intros d user keep Hd He Ha. destruct (Hat d Hd) as (sp & t & h & Hr & Hok2 & _ & _ & h2 & Hr3).
    destruct (ended_since p0 p2 d sp t h sp0 h2 sp2 Hr Hok2 Hr3) as [Hno Hnt].
    apply (secured_of d); [done|exact Hno|by apply Hnt]. }
  assert (forall user session keep, spared (deeds_of c (hs0 ++ hs1)) user session keep ->
    forall r, a_sessions (tabs (pl_st p0)) !! session = Some r -> keep = ""%string \/ keep = ses_device r) as Hsp.
  { intros user session keep [->|(r & Hsaw & Hu & ->)] r0 Hr0; [by left|right].
    destruct (Hat _ Hsaw) as (sp & t & h & Hr & Hok2 & _).
    by pose proof (kept_now sp0 _ h sp t session r0 r Hi Hr0 Hr Hok2) as [(_ & Hd & _) _]. }
  apply (pool_answers _ _ _ _ _ _ _ _ _ _ _ _ _ Hok) in Hdone as (q' & Hq' & Hp). assert (q' = q) as -> by congruence.
  destruct q; try done; [|destruct op; try done]; destruct a; try done.
  - destruct Hp as (id & r & h & Hsaw & Hh & Hd). exists id, (ml_user r). split; [|by apply (Hsec _ _ _ Hd)].
    intros r0 Hr0. destruct (Hat _ Hsaw) as (sp & t & h' & Hr & Hok2 & _).
    destruct (reset_now sp0 _ h' sp t id r0 r Hi Hr0 Hr Hok2) as (Hu & Hh' & _). by rewrite <- Hu, <- Hh'.
  - destruct Hp as (_ & keep & Hd & Hk). exists keep. split; [by eapply Hsp|by apply (Hsec _ _ _ Hd)].
  - destruct Hp as (_ & keep & Hd & Hk). exists keep. split; [by eapply Hsp|by apply (Hsec _ _ _ Hd)].
Qed.

(** A refresh token that was rotated away is of no more use than to end its family. A call, received
    when the pool was [p0], that presents the token of a session revoked there never gets a pair of tokens;
    and if it answers that the token was reused, in no later state is a session of that device older than
    the call live. (The session must not have been swept meanwhile.) *)
Theorem replay_ends_family s ls0 p0 ls1 p1 ls2 p2 c raw id r x :
  fit s -> go svc ls0 (idle s) = Some p0 -> go svc ls1 p0 = Some p1 -> go svc ls2 p1 = Some p2 ->
  (length (pl_reqs p0) <= c)%nat -> pl_reqs p1 !! c = Some (QRefresh raw) ->
  a_sessions (tabs (pl_st p0)) !! id = Some r -> is_Some (ses_revoked r) ->
  ParseRefreshToken raw = Some (ses_hash r) -> is_Some (a_sessions (tabs (pl_st p1)) !! id) ->
  (c, x) ∈ pl_done p1 ->
  (forall pair, x <> inr (APair pair)) /\
  (x = inl ESessionReuse -> forall i r', a_sessions (tabs (pl_st p2)) !! i = Some r' ->
     ses_user r' = ses_user r -> ses_device r' = ses_device r -> ses_revoked r' = None ->
     a_now (tabs (pl_st p0)) <= ses_first r').
Proof.
  intros Hs H0 H1 H2 Hc Hq Hr0 Hrev Hraw Hstill Hdone.
  destruct (run_history s ls0 ls1 ls2 p0 p1 p2 c Hs H0 H1 H2 Hc) as (sp0 & sp1 & sp2 & hs0 & hs1 & Xs1 & Hi & Hok & Hds & Hr1 & Hrs & hs2 & Hr2).
  pose proof (fun d => deed_between p0 p1 p2 c hs0 hs1 d sp0 sp1 sp2 hs2 Hr1 Hr2 Hds) as Hat.
  assert (forall sp t h, replay sp0 (tabs (pl_st p0)) h sp t -> id ∈ sp) as Hin.
  { intros sp t h Hr. destruct (stable_replay _ _ _ _ _ _ _ _ _ _ (session_kept id r) Hr) as [? _]; [by apply session_seen|done]. }
  assert (forall i r1, session_seen_by (deeds_of c (hs0 ++ hs1)) raw i r1 -> i = id /\ session_evolves r r1) as Hseen.
  { intros i r1 [Hsaw Hh]. destruct (Hat _ Hsaw) as (sp & t & h & Hr & Hok2 & _ & (h1 & Hr3) & _). cbn in Hok2.
    destruct (gone_stays (sp ∪ ∅) t h1 sp1 _ id Hr3) as [r2 Hr2']; [by apply elem_of_union_l, (Hin sp t h)|done|].
    pose proof (kept_now sp0 _ h sp t id r r2 Hi Hr0 Hr Hr2') as Hev.
    assert (i = id) as ->.
    { apply (ai_hashes _ _ (replay_inv _ _ _ _ _ Hr Hi) i id r1 r2 Hok2 Hr2'). destruct Hev as [(_ & _ & -> & _) _]. congruence. }
    split; [done|]. by assert (r1 = r2) as -> by congruence. }
  apply (pool_answers _ _ _ _ _ _ _ _ _ _ _ _ _ Hok) in Hdone as (q' & Hq' & Hp). rewrite Hq in Hq'. injection Hq' as <-.
  split.
  - intros pair ->. destruct Hp as (old & new & r1 & ex & Hs1 & Hd). apply Hseen in Hs1 as [-> _].
    destruct (Hat _ Hd) as (sp & t & h & Hr & Hok2 & _). destruct Hok2 as ((r2 & Hr2' & Hl) & _).
    destruct (kept_now sp0 _ h sp t id r r2 Hi Hr0 Hr Hr2') as [_ Hk]. rewrite Hk in Hl by done. by rewrite Hl in Hrev; destruct Hrev.
  - intros -> i r' Hr' Hu Hd Hl. destruct Hp as (_ & i1 & r1 & Hs1 & Hend). apply Hseen in Hs1 as [-> [(Hu1 & Hd1 & _) Hk]].
    destruct Hend as [Hno|Hend]; [rewrite Hk in Hno by done; rewrite Hno in Hrev; by destruct Hrev|].
    destruct (Hat _ Hend) as (sp & t & h & Hr & Hok2 & _ & _ & h2 & Hr3).
    destruct (ended_since p0 p2 _ sp t h sp0 h2 sp2 Hr Hok2 Hr3) as [Hno _]. apply (Hno i r' Hr'); [|done].
    cbn. unfold on_device. by rewrite Hu, Hd, Hu1, Hd1, Z.eqb_refl, String.eqb_refl.
Qed.
End ending.
