(* ===== verification/AuthOnce.v ===== *)
(** What is good for one use, over a whole history: refresh and reset tokens, the codes of the second
    factor. *)
From S2P Require Import Prelude GoStd Snowflake Rows Chat InviteCode.
From S2P Require Export AuthServer.

(** The session a deed starts, and the hash of its refresh token. *)
Definition token_started (d : Deed) : option (Z * string) :=
  match d with
  | DSignIn id _ _ hash _ _ _ | DRotate _ id hash _ | DRedeem _ _ id _ _ hash _ _ _ => Some (id, hash)
  | _ => None
  end.

Section once.
Context {digest : Digest} {citext : Citext} {out : Outside} (svc : Service).
#[local] Abbreviation Hap := (Happening (Deed := Deed)).
#[local] Abbreviation replay := (replay auth_tick deed_ok deed_do deed_ids).
#[local] Abbreviation stable := (stable auth_tick deed_ok deed_do deed_ids).

(** The refresh token was issued for the session [id]: it is a row of the tables the server began with, or
    a deed of the history made it. *)
Definition refresh_issued (t : Auth) (hs : list Hap) (hash : string) (id : Z) : Prop :=
  (exists r, a_sessions t !! id = Some r /\ ses_hash r = hash) \/
  (exists c d, ByCall c d ∈ hs /\ token_started d = Some (id, hash)).

(** The reset token was issued as [id]. *)
Definition reset_issued (t : Auth) (hs : list Hap) (hash : string) (id : Z) : Prop :=
  (exists r, a_resets t !! id = Some r /\ ml_hash r = hash) \/
  (exists c user sentTo expires, ByCall c (DAskReset id user hash sentTo expires) ∈ hs).

(** ** Where rows come from *)

(** A row is of the table the replay began with, or a deed made it. *)
Lemma row_origin {V} (tab : Auth -> gmap Z V) (R : V -> V -> Prop) `{!PreOrder R} (N : Deed -> Auth -> Z -> V -> Prop)
    sp t hs sp' t' id r :
  (forall n t, tab (auth_tick n t) = tab t) ->
  (forall d t id r', deed_ok d t -> tab (deed_do d t) !! id = Some r' ->
     (exists r, tab t !! id = Some r /\ R r r') \/ N d t id r') ->
  replay sp t hs sp' t' -> tab t' !! id = Some r ->
  (exists r0, tab t !! id = Some r0 /\ R r0 r) \/
  exists h1 c d h2 sp1 t1 r0, hs = h1 ++ ByCall c d :: h2 /\ replay sp t h1 sp1 t1 /\ deed_ok d t1 /\ N d t1 id r0 /\ R r0 r.
Proof.
  intros Ht Hd. revert sp' t' r. induction hs as [|h hs IH] using rev_ind; intros sp' t' r.
  - intros [-> ->] Hr. left. by exists r.
  - intros (sp1 & t1 & H1 & Hok & Hids & -> & ->)%replay_split Hr.
    destruct h as [c d|n]; cbn in Hr, Hok.
    + destruct (Hd d t1 id r Hok Hr) as [(r1 & Hr1 & HR)|HN].
      * destruct (IH sp1 t1 r1 H1 Hr1) as [(r0 & Hr0 & HR0)|(h1 & c0 & d0 & h2 & sp2 & t2 & r0 & -> & H2 & Hok2 & HN & HR0)].
        -- left. exists r0. split; [done|]. by etrans.
        -- right. exists h1, c0, d0, (h2 ++ [ByCall c d]), sp2, t2, r0. split_and!; try done; [by rewrite <- app_assoc|]. by etrans.
      * right. exists hs, c, d, [], sp1, t1, r. by split_and!.
    + rewrite Ht in Hr.
      destruct (IH sp1 t1 r H1 Hr) as [?|(h1 & c0 & d0 & h2 & sp2 & t2 & r0 & -> & H2 & Hok2 & HN & HR0)]; [by left|].
      right. exists h1, c0, d0, (h2 ++ [Ticked n]), sp2, t2, r0. split_and!; try done. by rewrite <- app_assoc.
Qed.

Lemma deed_in_history c d (hs : list Hap) : d ∈ deeds_of c hs -> ByCall c d ∈ hs.
Proof. intros (h1 & h2 & ->)%deeds_of_in. apply elem_of_app. right. by left. Qed.

Lemma in_mid {A} (l1 : list A) x l2 : x ∈ l1 ++ x :: l2.
Proof. apply elem_of_app. right. by left. Qed.

Lemma born_started d t id r : born d t id r -> token_started d = Some (id, ses_hash r).
Proof. by intros [(?&?&?&?&?&?&[->|(?&?&->)]&->)|(?&?&?&?&->&_&_&->)]. Qed.

Lemma refresh_origin sp t hs sp' t' id r :
  replay sp t hs sp' t' -> a_sessions t' !! id = Some r -> refresh_issued t hs (ses_hash r) id.
Proof.
  intros Hr H.
  destruct (row_origin a_sessions session_evolves (fun d t id r => born d t id r) sp t hs sp' t' id r) as
    [(r0 & Hr0 & (_ & _ & Hh & _) & _)|(h1 & c & d & h2 & sp1 & t1 & r0 & -> & _ & _ & Hb & (_ & _ & Hh & _) & _)]; [done| |done|done|left|right].
  - intros d t0 i r' Hok Hr'. destruct (sessions_after d t0 i r' Hok Hr') as [?|(_ & _ & ?)]; auto.
  - by exists r0.
  - exists c, d. split; [apply in_mid|]. rewrite Hh. by eapply born_started.
Qed.

Lemma asked d t id r' :
  deed_ok d t -> a_resets (deed_do d t) !! id = Some r' ->
  (exists r, a_resets t !! id = Some r /\ mail_evolves r r') \/
  exists user sentTo expires, d = DAskReset id user (ml_hash r') sentTo expires.
Proof.
  intros Hok H. destruct (resets_after d t id r' Hok H) as [?|[Hn Hid]]; [by left|right].
  destruct d; cbn in Hid, H; try (set_solver || congruence).
  - destruct (a_sessions t !! old); cbn in H; congruence.
  - apply elem_of_singleton in Hid as ->. unfold put_mail in H. rewrite lookup_insert_eq in H. injection H as <-. eauto.
Qed.

Lemma reset_origin sp t hs sp' t' id r :
  replay sp t hs sp' t' -> a_resets t' !! id = Some r -> reset_issued t hs (ml_hash r) id.
Proof.
  intros Hr H.
  destruct (row_origin a_resets mail_evolves (fun d _ id r => exists user sentTo expires, d = DAskReset id user (ml_hash r) sentTo expires)
    sp t hs sp' t' id r) as
    [(r0 & Hr0 & _ & Hh & _)|(h1 & c & d & h2 & sp1 & t1 & r0 & -> & _ & _ & (u & sn & ex & ->) & _ & Hh & _)]; [done|by apply asked|done|done|left|right].
  - by exists r0.
  - exists c, u, sn, ex. rewrite Hh. apply in_mid.
Qed.

(** ** Order *)

Lemma two_of {A} (l : list A) x y : x ∈ l -> y ∈ l -> x <> y ->
  (exists l1 l2 l3, l = l1 ++ x :: l2 ++ y :: l3) \/ exists l1 l2 l3, l = l1 ++ y :: l2 ++ x :: l3.
Proof.
  intros (l1 & l2 & ->)%list_elem_of_split Hy Hne. apply elem_of_app in Hy as [Hy|Hy].
  - right. apply list_elem_of_split in Hy as (a & b & ->). exists a, b, l2. by rewrite <- app_assoc.
  - left. apply elem_of_cons in Hy as [->|Hy]; [done|]. apply list_elem_of_split in Hy as (a & b & ->). by exists l1, a, b.
Qed.

(** The states two deeds of a history were done in. *)
Lemma replay_two sp t h1 c1 d1 h2 c2 d2 h3 sp' t' :
  replay sp t (h1 ++ ByCall c1 d1 :: h2 ++ ByCall c2 d2 :: h3) sp' t' ->
  exists sp1 t1 sp2 t2, replay sp t h1 sp1 t1 /\ deed_ok d1 t1 /\ deed_ids d1 ## sp1 /\
    replay (sp1 ∪ deed_ids d1) (deed_do d1 t1) h2 sp2 t2 /\ deed_ok d2 t2.
Proof.
  intros (sp1 & t1 & Hr1 & Hok1 & Hi1 & Hr)%replay_at. apply replay_at in Hr as (sp2 & t2 & Hr2 & Hok2 & _ & _).
  by exists sp1, t1, sp2, t2.
Qed.

(** A session is rotated once. *)
Lemma rotated_once sp t h1 c1 old1 n1 k1 e1 h2 c2 old2 n2 k2 e2 h3 sp' t' :
  auth_inv sp t -> replay sp t (h1 ++ ByCall c1 (DRotate old1 n1 k1 e1) :: h2 ++ ByCall c2 (DRotate old2 n2 k2 e2) :: h3) sp' t' ->
  old1 <> old2.
Proof.
  intros Hi (sp1 & t1 & sp2 & t2 & Hr1 & Hok1 & Hd1 & Hr2 & Hok2)%replay_two ->.
  pose proof (replay_inv _ _ _ _ _ Hr1 Hi) as Hi1.
  pose proof (auth_inv_step sp1 (ByCall c1 (DRotate old2 n1 k1 e1)) t1 Hi1 Hok1 Hd1) as Hi2. cbn in Hi2.
  destruct Hok1 as ((r & Hr & Hl) & Hf). destruct Hok2 as ((r2 & Hr' & Hl2) & _).
  assert (a_sessions (deed_do (DRotate old2 n1 k1 e1) t1) !! old2 = Some (rotate_session (a_now t1) n1 r)) as Hrot.
  { cbn. rewrite Hr. cbn. apply lookup_insert_eq. }
  destruct (stable_replay _ _ _ _ _ _ _ _ _ _ (session_kept old2 _) Hr2 (session_seen _ _ _ _ Hi2 Hrot)) as [_ Hk].
  destruct (Hk r2 Hr') as [_ Hrev]. cbn in Hrev. rewrite Hrev in Hl2 by done. done.
Qed.

(** A reset token is spent once. *)
Lemma reset_once sp t h1 c1 i1 u1 k1 h2 c2 i2 u2 k2 h3 sp' t' :
  auth_inv sp t -> replay sp t (h1 ++ ByCall c1 (DReset i1 u1 k1) :: h2 ++ ByCall c2 (DReset i2 u2 k2) :: h3) sp' t' ->
  i1 <> i2.
Proof.
  intros Hi (sp1 & t1 & sp2 & t2 & Hr1 & Hok1 & Hd1 & Hr2 & Hok2)%replay_two ->.
  pose proof (replay_inv _ _ _ _ _ Hr1 Hi) as Hi1.
  pose proof (auth_inv_step sp1 (ByCall c1 (DReset i2 u1 k1)) t1 Hi1 Hok1 Hd1) as Hi2. cbn [hap_ids hap_do] in Hi2.
  destruct Hok1 as ((r & Hr & _ & _) & _). destruct Hok2 as ((r2 & Hr' & Hm & _) & _).
  assert (a_resets (deed_do (DReset i2 u1 k1) t1) !! i2 = Some (use_mail (a_now t1) r)) as Hused by by apply at_row_eq.
  destruct (stable_replay _ _ _ _ _ _ _ _ _ _ (reset_kept i2 _) Hr2 (reset_seen _ _ _ _ Hi2 Hused)) as [_ Hk].
  destruct (Hk r2 Hr') as (_ & _ & _ & _ & Hu). unfold mail_redeemable in Hm. bool_hyps.
  apply unset_true in H. destruct Hu as [? Hu]; [by eexists|]. cbn in Hu. congruence.
Qed.

(** Two calls' answers, each from its own deeds. *)
Lemma two_calls s ls p c1 c2 q x1 x2 :
  fit s -> go svc ls (idle s) = Some p -> pl_reqs p !! c1 = Some q -> pl_reqs p !! c2 = Some q ->
  (c1, x1) ∈ pl_done p -> (c2, x2) ∈ pl_done p -> exists hs sp',
  explains s hs p /\ auth_inv (row_ids (tabs s)) (tabs s) /\
  replay (row_ids (tabs s)) (tabs s) hs sp' (tabs (pl_st p)) /\
  post q (deeds_of c1 hs) x1 /\ post q (deeds_of c2 hs) x2.
Proof.
  intros Hs Hg Hq1 Hq2 Hd1 Hd2. destruct (go_start svc s ls p Hs Hg) as (sp' & hs & Xs & Hr & Hok).
  exists hs, sp'. split; [by eapply pool_explains|]. split; [apply fit_sound in Hs as [Hi _ _ _ _]; exact Hi|]. split; [done|].
  apply (pool_answers _ _ _ _ _ _ _ _ _ _ _ _ _ Hok) in Hd1 as (q1 & Hq1' & H1).
  apply (pool_answers _ _ _ _ _ _ _ _ _ _ _ _ _ Hok) in Hd2 as (q2 & Hq2' & H2).
  rewrite Hq1 in Hq1'. rewrite Hq2 in Hq2'. injection Hq1' as <-. injection Hq2' as <-. done.
Qed.

(** What a call saw was issued. *)
Lemma seen_issued sp t hs sp' t' c raw id r :
  replay sp t hs sp' t' -> session_seen_by (deeds_of c hs) raw id r ->
  exists hash, ParseRefreshToken raw = Some hash /\ refresh_issued t hs hash id.
Proof.
  intros Hr [Hsaw Hp]. apply deeds_of_in in Hsaw as (h1 & h2 & ->). exists (ses_hash r). split; [done|].
  apply replay_at in Hr as (sp1 & t1 & Hr1 & Hok & _). destruct (refresh_origin _ _ _ _ _ _ _ Hr1 Hok) as [?|(c0 & d & Hin & Hs)]; [by left|].
  right. exists c0, d. split; [apply elem_of_app; by left|done].
Qed.

(** C15: A refresh token is good for one rotation. Two calls presenting the same token both get a pair only
    if that very token was issued twice, for two different sessions: that is, 32 random bytes came up
    again. *)
Theorem refresh_single_use s ls p c1 c2 raw pair1 pair2 :
  fit s -> go svc ls (idle s) = Some p -> c1 <> c2 ->
  pl_reqs p !! c1 = Some (QRefresh raw) -> pl_reqs p !! c2 = Some (QRefresh raw) ->
  (c1, inr (APair pair1)) ∈ pl_done p -> (c2, inr (APair pair2)) ∈ pl_done p ->
  exists hs hash id1 id2, explains s hs p /\ ParseRefreshToken raw = Some hash /\ id1 <> id2 /\
    refresh_issued (tabs s) hs hash id1 /\ refresh_issued (tabs s) hs hash id2.
Proof.
  intros Hs Hg Hne Hq1 Hq2 Hd1 Hd2.
  destruct (two_calls s ls p c1 c2 _ _ _ Hs Hg Hq1 Hq2 Hd1 Hd2) as (hs & sp' & Hex & Hi & Hr & P1 & P2).
  destruct P1 as (i1 & n1 & r1 & e1 & S1 & D1). destruct P2 as (i2 & n2 & r2 & e2 & S2 & D2).
  destruct (seen_issued _ _ _ _ _ _ _ _ _ Hr S1) as (hash & Hp & I1).
  destruct (seen_issued _ _ _ _ _ _ _ _ _ Hr S2) as (hash' & Hp' & I2). assert (hash' = hash) as -> by congruence.
  exists hs, hash, i1, i2. split_and!; [done|done| |done|done].
  apply deed_in_history in D1, D2. destruct (two_of hs _ _ D1 D2) as [(h1 & h2 & h3 & E)|(h1 & h2 & h3 & E)];
    [by intros [= ?]| |]; rewrite E in Hr.
  - by eapply rotated_once.
  - intros Heq. symmetry in Heq. revert Heq. by eapply rotated_once.
Qed.

(** A password reset token is good for one reset: two calls presenting the same token both succeed
    only if that token was issued twice. *)
Theorem reset_single_use s ls p c1 c2 raw pw1 pw2 :
  fit s -> go svc ls (idle s) = Some p -> c1 <> c2 ->
  pl_reqs p !! c1 = Some (QConfirmReset raw pw1) -> pl_reqs p !! c2 = Some (QConfirmReset raw pw2) ->
  (c1, inr ADone) ∈ pl_done p -> (c2, inr ADone) ∈ pl_done p ->
  exists hs hash id1 id2, explains s hs p /\ ParsePasswordResetToken raw = Some hash /\ id1 <> id2 /\
    reset_issued (tabs s) hs hash id1 /\ reset_issued (tabs s) hs hash id2.
Proof.
  intros Hs Hg Hne Hq1 Hq2 Hd1 Hd2. destruct (go_start svc s ls p Hs Hg) as (sp' & hs & Xs & Hr & Hok).
  apply (pool_answers _ _ _ _ _ _ _ _ _ _ _ _ _ Hok) in Hd1 as (q1 & Hq1' & P1). rewrite Hq1 in Hq1'. injection Hq1' as <-.
  apply (pool_answers _ _ _ _ _ _ _ _ _ _ _ _ _ Hok) in Hd2 as (q2 & Hq2' & P2). rewrite Hq2 in Hq2'. injection Hq2' as <-.
  destruct P1 as (i1 & r1 & k1 & S1 & H1 & D1). destruct P2 as (i2 & r2 & k2 & S2 & H2 & D2).
  assert (forall c i r, Saw (OReset i r) ∈ deeds_of c hs -> reset_issued (tabs s) hs (ml_hash r) i) as Hiss.
  { intros c i r Hsaw. apply deeds_of_in in Hsaw as (h1 & h2 & ->). apply replay_at in Hr as (sp1 & t1 & Hr1 & Hok1 & _).
    destruct (reset_origin _ _ _ _ _ _ _ Hr1 Hok1) as [?|(c0 & u & sn & ex & Hin)]; [by left|right]. exists c0, u, sn, ex.
    apply elem_of_app. by left. }
  exists hs, (ml_hash r1), i1, i2. apply Hiss in S1, S2. assert (ml_hash r2 = ml_hash r1) as E2 by congruence. rewrite E2 in S2.
  split_and!; [by eapply pool_explains|done| |done|done].
  apply fit_sound in Hs as [Hi _ _ _ _].
  apply deed_in_history in D1, D2. destruct (two_of hs _ _ D1 D2) as [(h1 & h2 & h3 & E)|(h1 & h2 & h3 & E)];
    [by intros [= ?]| |]; rewrite E in Hr.
  - by eapply reset_once.
  - intros Heq. symmetry in Heq. revert Heq. by eapply reset_once.
Qed.
End once.

(** ** Codes of the second factor *)

Section codes.
Context {digest : Digest} {citext : Citext} {out : Outside} (svc : Service).
#[local] Abbreviation Hap := (Happening (Deed := Deed)).
#[local] Abbreviation replay := (replay auth_tick deed_ok deed_do deed_ids).
#[local] Abbreviation hap_ok := (hap_ok deed_ok).
#[local] Abbreviation hap_do := (hap_do auth_tick deed_do).

(** ** Steps of an authenticator *)

(** The deed spends the step for the account. *)
Definition spends_step (user step : Z) (d : Deed) : Prop := d = DUseStep user step \/ exists codes, d = DConfirm user step codes.

(** The account's enrollment has spent a step no earlier than this one. *)
Definition step_floor (user step : Z) (t : Auth) : Prop := exists r s0,
  a_totp t !! user = Some r /\ tt_step r = Some s0 /\ step <= s0.

Lemma floor_after user step d t :
  deed_ok d t -> step_floor user step t ->
  step_floor user step (deed_do d t) \/ exists keep, d = DDisable user keep.
Proof.
  intros Hok (r & s0 & Hr & Hs & Hle).
  assert (forall t', a_totp t' !! user = a_totp t !! user -> step_floor user step t') as Hsame.
  { intros t' Ht. exists r, s0. by rewrite Ht. }
  destruct d; try (left; by apply Hsame).
  - left. apply Hsame. cbn. by destruct (a_sessions t !! old).
  - left. cbn. destruct (decide (user0 = user)) as [->|Hne]; [|apply Hsame; cbn; by rewrite lookup_insert_ne].
    eexists _, s0. split; [apply lookup_insert_eq|]. cbn. by rewrite Hr.
  - left. destruct Hok as [(r0 & Hr0 & _) _].
    destruct (decide (user0 = user)) as [->|Hne]; [|apply Hsame; cbn; unfold at_row; by rewrite !lookup_alter_ne].
    unfold step_floor. cbn. unfold at_row. rewrite lookup_alter_eq, lookup_alter_eq, Hr. cbn.
    rewrite Hs. destruct (s0 <? step0) eqn:E; [|by exists (confirm_totp (a_now t) r), s0].
    bool_hyps. eexists _, _. split; [done|]. split; [done|]. lia.
  - left. destruct Hok as (r0 & Hr0 & Hu).
    destruct (decide (user0 = user)) as [->|Hne]; [|apply Hsame; cbn; unfold at_row; by rewrite lookup_alter_ne].
    assert (r0 = r) as -> by congruence. unfold step_unspent in Hu. rewrite Hs in Hu. bool_hyps.
    exists (use_step step0 r), step0. split; [by apply at_row_eq|]. split; [done|lia].
  - destruct (decide (user0 = user)) as [->|Hne]; [right; eauto|]. left. apply Hsame. cbn. by rewrite lookup_delete_ne.
  - left. apply Hsame. cbn. by destruct (a_verify t !! id).
Qed.

Lemma floor_replay user step sp t hs sp' t' :
  replay sp t hs sp' t' -> step_floor user step t ->
  step_floor user step t' \/ exists c keep, ByCall c (DDisable user keep) ∈ hs.
Proof.
  revert sp t. induction hs as [|h hs IH]; intros sp t; [by intros [_ ->]; left|].
  intros (Hok & _ & Hr) Hf.
  assert (step_floor user step (hap_do h t) \/ exists c keep, h = ByCall c (DDisable user keep)) as [Hf'|(c & keep & ->)].
  { destruct h as [c d|n]; cbn in *; [|by left]. destruct (floor_after user step d t Hok Hf) as [?|[keep ->]]; eauto. }
  - destruct (IH _ _ Hr Hf') as [?|(c & keep & Hin)]; [by left|]. right. exists c, keep. by right.
  - right. exists c, keep. by left.
Qed.

Lemma floor_spent user step d t : deed_ok d t -> spends_step user step d -> step_floor user step (deed_do d t).
Proof.
  intros Hok [->|[codes ->]]; unfold step_floor.
  - destruct Hok as (r & Hr & _). exists (use_step step r), step. split; [by apply at_row_eq|]. by split.
  - destruct Hok as [(r & Hr & Hc) _]. cbn. unfold at_row. rewrite lookup_alter_eq, lookup_alter_eq, Hr. cbn.
    destruct (tt_step r) as [s0|] eqn:Es; [|by eexists _, step]. destruct (s0 <? step) eqn:E; [by eexists _, step|].
    bool_hyps. exists (confirm_totp (a_now t) r), s0. split; [done|]. split; [done|]. lia.
Qed.

(** C16: A code of the second factor is good once. However calls interleave, an authenticator's step is
    spent after every step spent before it, whether it was spent enrolling or proving, unless the factor was
    taken off in between; and a recovery code is spent at most once. *)
Theorem factor_codes_once s ls p :
  fit s -> go svc ls (idle s) = Some p -> exists hs, explains s hs p /\
    (forall h1 c1 d1 h2 c2 user step1 step2 h3,
       hs = h1 ++ ByCall c1 d1 :: h2 ++ ByCall c2 (DUseStep user step2) :: h3 -> spends_step user step1 d1 ->
       step1 < step2 \/ exists c keep, ByCall c (DDisable user keep) ∈ h2) /\
    forall h1 c1 id user1 hash1 h2 c2 user2 hash2 h3,
      hs <> h1 ++ ByCall c1 (DUseRecovery id user1 hash1) :: h2 ++ ByCall c2 (DUseRecovery id user2 hash2) :: h3.
Proof.
  intros Hs Hg. destruct (go_start svc s ls p Hs Hg) as (sp' & hs & Xs & Hr & Hok). apply fit_sound in Hs as [Hi _ _ _ _].
  exists hs. split; [by eapply pool_explains|]. split.
  - intros h1 c1 d1 h2 c2 user step1 step2 h3 -> Hd.
    apply replay_two in Hr as (sp1 & t1 & sp2 & t2 & _ & Hok1 & _ & Hr2 & (r & Hr' & Hu)).
    destruct (floor_replay user step1 _ _ _ _ _ Hr2 (floor_spent _ _ _ _ Hok1 Hd)) as [(r0 & s0 & Hr0 & Hs0 & Hle)|?]; [left|by right].
    assert (r0 = r) as -> by congruence. unfold step_unspent in Hu. rewrite Hs0 in Hu. bool_hyps. lia.
  - intros h1 c1 id user1 hash1 h2 c2 user2 hash2 h3 ->.
    apply replay_two in Hr as (sp1 & t1 & sp2 & t2 & Hr1 & Hok1 & Hd1 & Hr2 & Hok2).
    pose proof (replay_inv _ _ _ _ _ Hr1 Hi) as Hi1.
    pose proof (auth_inv_step sp1 (ByCall c1 (DUseRecovery id user1 hash1)) t1 Hi1 Hok1 Hd1) as Hi2.
    destruct Hok1 as (r & Hr' & _). destruct Hok2 as (r2 & Hr2' & Hm).
    assert (kept a_recovery recovery_evolves id (use_recovery (a_now t1) r) (sp1 ∪ ∅) (deed_do (DUseRecovery id user1 hash1) t1)) as Hk.
    { assert (a_recovery (deed_do (DUseRecovery id user1 hash1) t1) !! id = Some (use_recovery (a_now t1) r)) as H by by apply at_row_eq.
      split; [eapply ai_recovery; [exact Hi2|eauto]|]. intros r' H'. by assert (r' = use_recovery (a_now t1) r) as -> by congruence. }
    destruct (stable_replay _ _ _ _ _ _ _ _ _ _ (recovery_kept id _) Hr2 Hk) as [_ Hk2].
    destruct (Hk2 r2 Hr2') as (_ & _ & Hu). unfold rec_match in Hm. bool_hyps.
    apply unset_true in H0. destruct Hu as [? Hu]; [by eexists|]. congruence.
Qed.
End codes.
