(* ===== verification/AuthGrounds.v ===== *)
(** Why a session is there: its sign-in, what that call had shown, and for a device code who approved it. *)
From S2P Require Import Prelude GoStd Snowflake InviteCode Rows Chat.
From S2P Require Export AuthOnce.

Section grounds.
Context {digest : Digest} {citext : Citext} {out : Outside} (svc : Service).
#[local] Abbreviation Hap := (Happening (Deed := Deed)).
#[local] Abbreviation replay := (replay auth_tick deed_ok deed_do deed_ids).

(** ** Device codes *)

Lemma end_codes_user u t id r' :
  a_devices (end_codes u t) !! id = Some r' -> exists r, a_devices t !! id = Some r /\ dc_user r = dc_user r'.
Proof. cbn. intros (r & Hr & [[_ ->]|[_ ->]])%update_where_some; by exists r. Qed.

Lemma at_row_user id0 f m id r' :
  (forall r, dc_user (f r) = dc_user r) -> at_row id0 f m !! id = Some r' -> exists r, m !! id = Some r /\ dc_user r = dc_user r'.
Proof. intros Hf (r & Hr & [->|[_ ->]])%lookup_at_row; exists r; [done|by rewrite Hf]. Qed.

(** Nobody but an approver is put on a code. *)
Lemma approved_after d t id r' user :
  deed_ok d t -> a_devices (deed_do d t) !! id = Some r' -> dc_user r' = Some user ->
  (exists r, a_devices t !! id = Some r /\ dc_user r = Some user) \/ d = DApprove id user.
Proof.
  intros Hok H Hu.
  assert ((exists r, a_devices t !! id = Some r /\ dc_user r = dc_user r') \/ d = DApprove id user) as [(r & ? & ?)|?];
    [|left; exists r; split; congruence|by right].
  destruct d; try (left; by exists r'); try (left; by apply end_codes_user in H);
    try (left; by eapply at_row_user; [|exact H]).
  - left. exists r'. split; [|done]. cbn in H. by destruct (a_sessions t !! old).
  - cbn in H. apply lookup_insert_Some in H as [[<- <-]|[_ H]]; [done|]. left. by exists r'.
  - cbn in H. apply lookup_at_row in H as (r & Hr & [->|[<- ->]]); [left; by exists r|]. right. cbn in Hu. congruence.
  - left. exists r'. split; [|done]. cbn in H. by destruct (a_verify t !! id0).
  - left. cbn in H. apply lookup_delete_where in H as [H _]. by exists r'.
Qed.

(** Who is on a code was there at the beginning, or approved it. *)
Lemma approver sp t hs sp' t' id r user :
  replay sp t hs sp' t' -> a_devices t' !! id = Some r -> dc_user r = Some user ->
  (exists r0, a_devices t !! id = Some r0 /\ dc_user r0 = Some user) \/
  exists h1 c h2, hs = h1 ++ ByCall c (DApprove id user) :: h2.
Proof.
  revert sp' t' r. induction hs as [|h hs IH] using rev_ind; intros sp' t' r; [intros [-> ->]; left; by exists r|].
  intros (sp1 & t1 & H1 & Hok & _ & -> & ->)%replay_split Hr Hu.
  assert ((exists r0, a_devices t1 !! id = Some r0 /\ dc_user r0 = Some user) \/
    exists c, h = ByCall c (DApprove id user)) as [(r0 & Hr0 & Hu0)|(c & ->)].
  { destruct h as [c d|n]; cbn in *; [|left; by exists r].
    destruct (approved_after d t1 id r user Hok Hr Hu) as [?| ->]; eauto. }
  - destruct (IH sp1 t1 r0 H1 Hr0 Hu0) as [?|(h1 & c & h2 & ->)]; [by left|right]. exists h1, c, (h2 ++ [h]). by rewrite <- app_assoc.
  - right. by exists hs, c, [].
Qed.

(** The code has been decided against, or spent. *)
Definition settles (code : Z) (d : Deed) : Prop :=
  d = DDeny code \/ (exists user, d = DTakeBack code user) \/
  exists presented id user device hash name ip expires, d = DRedeem code presented id user device hash name ip expires.

Lemma settled code d t :
  deed_ok d t -> settles code d ->
  exists r, a_devices (deed_do d t) !! code = Some r /\ (is_Some (dc_denied r) \/ is_Some (dc_consumed r)).
Proof.
  intros Hok [->|[(user & ->)|(pr & id & user & dv & hash & name & ip & ex & ->)]].
  - destruct Hok as (r & Hr & _). eexists. split; [by apply at_row_eq|]. left. by eexists.
  - destruct Hok as (r & Hr & _). eexists. split; [by apply at_row_eq|]. right. by eexists.
  - destruct Hok as ((r & Hr & _) & _). eexists. split; [by apply at_row_eq|]. right. by eexists.
Qed.

(** Which requests such deeds are of. *)
Lemma may_redeem q log code presented id user device hash name ip expires :
  may q log (DRedeem code presented id user device hash name ip expires) ->
  exists raw ip', q = QDeviceToken raw ip' /\ ParseDeviceCode raw = Some presented.
Proof.
  destruct q; cbn; try done; [by intros (?&?&?&?&?)|intros [_ Hm]; by destruct op|by eauto|by intros (?&?&?&?)|by destruct approve].
Qed.

Lemma may_approve q log id user :
  may q log (DApprove id user) -> exists token n dc, q = QPageApprove token true /\
    parseDeviceToken n token deviceApprovalTokenType = inr dc /\ dcn_code_id dc = id /\ dcn_user dc = user.
Proof.
  destruct q; cbn; try done; [by intros (?&?&?&?&?)|intros [_ Hm]; by destruct op|by intros (?&?&?&?)|].
  destruct approve; [|done]. intros (n & dc & Hp & -> & ->). by exists token, n, dc.
Qed.

(** C17: A device code starts at most one session, of the device it was asked for, for the account that
    approved it. However calls interleave, no code is redeemed after it was redeemed, denied or taken back;
    and for every one that is, the token presented is the code's, and the account redeeming it was put there by an
    approval earlier in the history, on the page, by a call whose continuation names that account and code
    (or was on the code before the history began). *)
Theorem device_code_once s ls p :
  fit s -> go svc ls (idle s) = Some p -> exists hs, explains s hs p /\
    forall h1 c code presented id user device hash name ip expires h3,
      hs = h1 ++ ByCall c (DRedeem code presented id user device hash name ip expires) :: h3 ->
      (forall c1 d1, ByCall c1 d1 ∈ h1 -> ~ settles code d1) /\
      (exists raw ip', pl_reqs p !! c = Some (QDeviceToken raw ip') /\ ParseDeviceCode raw = Some presented) /\
      ((exists r, a_devices (tabs s) !! code = Some r /\ dc_user r = Some user) \/
       exists c1 token n dc, ByCall c1 (DApprove code user) ∈ h1 /\
         pl_reqs p !! c1 = Some (QPageApprove token true) /\
         parseDeviceToken n token deviceApprovalTokenType = inr dc /\ dcn_code_id dc = code /\ dcn_user dc = user).
Proof.
  intros Hs Hg. destruct (go_start svc s ls p Hs Hg) as (sp' & hs & Xs & Hr & Hok). apply fit_sound in Hs as [Hi _ _ _ _].
  pose proof (pool_explains s sp' hs Xs p Hr Hok) as Hex. exists hs. split; [done|].
  intros h1 c code presented id user device hash name ip expires h3 ->. split_and!.
  - intros c1 d1 (ha & hb & ->)%list_elem_of_split Hset. rewrite <- app_assoc in Hr.
    apply replay_two in Hr as (sp1 & t1 & sp2 & t2 & Hr1 & Hok1 & Hd1 & Hr2 & ((r2 & Hr2' & _ & Hred & _) & _)).
    pose proof (replay_inv _ _ _ _ _ Hr1 Hi) as Hi1.
    pose proof (auth_inv_step sp1 (ByCall c1 d1) t1 Hi1 Hok1 Hd1) as Hi2.
    destruct (settled code d1 t1 Hok1 Hset) as (r & Hrow & Hfin).
    assert (kept a_devices code_evolves code r (sp1 ∪ deed_ids d1) (deed_do d1 t1)) as Hk.
    { split; [eapply ai_devices; [exact Hi2|eauto]|]. intros r' H'. by assert (r' = r) as -> by congruence. }
    destruct (stable_replay _ _ _ _ _ _ _ _ _ _ (code_kept code r) Hr2 Hk) as [_ Hk2].
    destruct (Hk2 r2 Hr2') as (_ & _ & _ & _ & _ & _ & Hden & Hcon). unfold dc_redeemable in Hred. bool_hyps.
    repeat match goal with H : unset _ = true |- _ => apply unset_true in H end.
    destruct Hfin as [Hf|Hf]; [apply Hden in Hf|apply Hcon in Hf]; destruct Hf as [? Hf]; congruence.
  - destruct (ex_may _ _ _ Hex h1 c _ h3 eq_refl) as (q & Hq & Hm). apply may_redeem in Hm as (raw & ip' & -> & Hp). by exists raw, ip'.
  - apply replay_at in Hr as (sp1 & t1 & Hr1 & ((r & Hrow & _ & _ & Hu & _) & _) & _).
    destruct (approver _ _ _ _ _ _ _ _ Hr1 Hrow Hu) as [?|(ha & c1 & hb & ->)]; [by left|right].
    destruct (ex_may _ _ _ Hex ha c1 (DApprove code user) (hb ++ ByCall c (DRedeem code presented id user device hash name ip expires) :: h3)) as (q & Hq & Hm);
      [by rewrite <- app_assoc|].
    apply may_approve in Hm as (token & n & dc & -> & Hp & <- & <-). exists c1, token, n, dc. split_and!; try done. apply in_mid.
Qed.

(** ** Sessions *)

Definition same_family (r r' : Session) : Prop :=
  ses_user r = ses_user r' /\ ses_device r = ses_device r' /\ ses_first r = ses_first r'.

(** The deed starts the family: a sign-in, not a rotation. *)
Definition signs_in (user : Z) (device : string) (d : Deed) : Prop :=
  (exists id hash name ip expires, d = DSignIn id user device hash name ip expires) \/
  exists code presented id hash name ip expires, d = DRedeem code presented id user device hash name ip expires.

(** A session is of a family there was, or that a sign-in started. *)
Lemma family_origin sp t hs sp' t' id r :
  replay sp t hs sp' t' -> a_sessions t' !! id = Some r ->
  (exists id0 r0, a_sessions t !! id0 = Some r0 /\ same_family r0 r) \/
  exists h1 c d h2 sp1 t1, hs = h1 ++ ByCall c d :: h2 /\ signs_in (ses_user r) (ses_device r) d /\
    replay sp t h1 sp1 t1 /\ a_now t1 = ses_first r.
Proof.
  revert sp' t' id r. induction hs as [|h hs IH] using rev_ind; intros sp' t' id r.
  - intros [-> ->] Hr. left. by exists id, r.
  - intros (sp1 & t1 & H1 & Hok & _ & -> & ->)%replay_split Hr.
    assert (forall id0 r0, a_sessions t1 !! id0 = Some r0 -> same_family r0 r ->
      (exists id0 r0, a_sessions t !! id0 = Some r0 /\ same_family r0 r) \/
      exists h1 c d h2 sp1 t1, hs ++ [h] = h1 ++ ByCall c d :: h2 /\ signs_in (ses_user r) (ses_device r) d /\
        replay sp t h1 sp1 t1 /\ a_now t1 = ses_first r) as Hold.
    { intros id0 r0 Hr0 (Hu & Hd & Hf). destruct (IH sp1 t1 id0 r0 H1 Hr0) as [(i & r1 & Hr1 & Hu1 & Hd1 & Hf1)|(h1 & c & d & h2 & sp2 & t2 & -> & Hs & Hr2 & Hn)].
      - left. exists i, r1. split; [done|]. split_and!; congruence.
      - right. exists h1, c, d, (h2 ++ [h]), sp2, t2. rewrite <- app_assoc, <- Hu, <- Hd, <- Hf. done. }
    destruct h as [c d|n]; cbn in Hr, Hok; [|by apply (Hold id r)].
    destruct (sessions_after d t1 id r Hok Hr) as [(r0 & Hr0 & (Hu & Hd & _ & _ & _ & _ & Hf) & _)|(_ & _ & [Hb|Hb])].
    + by apply (Hold id r0).
    + destruct Hb as (u & dv & hash & nm & ip & ex & Hd & ->). right. exists hs, c, d, [], sp1, t1. split_and!; [done| |done|done].
      destruct Hd as [->|(code & pr & ->)]; [left|right]; repeat eexists.
    + destruct Hb as (old & hash & ex & r0 & -> & Hr0 & _ & ->). by apply (Hold old r0).
Qed.

(** What a call has shown by its deeds to sign the account in on the device. *)
Definition shows (q : Request) (log : list Deed) (user : Z) (device : string) : Prop :=
  match q with
  | QLogin _ password l =>
      normalizeDeviceID (li_device l) = inr device /\ password_shown log user password /\ no_factor log user
  | QVerifyTwoFactor challenge code => exists n l,
      parseTwoFactorChallenge n challenge = inr (user, l) /\ li_device l = device /\ factor_proved log user code
  | QExchange _ _ l =>
      normalizeDeviceID (li_device l) = inr device /\ (exists id, DUseExchange id user ∈ log) /\ no_factor log user
  | _ => False
  end.

Lemma may_sign_in q log id user device hash name ip expires :
  may q log (DSignIn id user device hash name ip expires) -> shows q log user device.
Proof.
  destruct q; cbn; try done; try (intros [_ Hm]; by destruct op); try (by intros (?&?&?&?)); by destruct approve.
Qed.

(** C5: Every session has its grounds. Whatever the order in which the server ran its calls, a session is of a
    family it began with or of one that a call started, having shown in its own steps, before: the account's
    password, its address verified, with no second factor confirmed; or a challenge naming the account and a
    proof of its factor, spent; or a provider's exchange code spent for the account, with no factor; or the code
    of a device that the account approved. The family dates from that moment, on the device named there. *)
Theorem session_grounds s ls p id r :
  fit s -> go svc ls (idle s) = Some p -> a_sessions (tabs (pl_st p)) !! id = Some r -> exists hs, explains s hs p /\
    ((exists id0 r0, a_sessions (tabs s) !! id0 = Some r0 /\ same_family r0 r) \/
     exists h1 c d h2 q, hs = h1 ++ ByCall c d :: h2 /\ pl_reqs p !! c = Some q /\
       (exists sp1 t1, replay (row_ids (tabs s)) (tabs s) h1 sp1 t1 /\ a_now t1 = ses_first r) /\
       (shows q (deeds_of c h1) (ses_user r) (ses_device r) \/
        exists raw ip code presented id hash name ip' expires,
          q = QDeviceToken raw ip /\ ParseDeviceCode raw = Some presented /\
          d = DRedeem code presented id (ses_user r) (ses_device r) hash name ip' expires)).
Proof.
  intros Hs Hg Hr. destruct (go_start svc s ls p Hs Hg) as (sp' & hs & Xs & Hrep & Hok).
  pose proof (pool_explains s sp' hs Xs p Hrep Hok) as Hex. exists hs. split; [done|].
  destruct (family_origin _ _ _ _ _ id r Hrep Hr) as [?|(h1 & c & d & h2 & sp1 & t1 & -> & Hsi & Hr1 & Hn)]; [by left|right].
  destruct (ex_may _ _ _ Hex h1 c d h2 eq_refl) as (q & Hq & Hm). exists h1, c, d, h2, q. split_and!; [done|done|by exists sp1, t1|].
  destruct Hsi as [(i & hash & nm & ip & ex & ->)|(code & pr & i & hash & nm & ip & ex & ->)].
  - left. by eapply may_sign_in.
  - right. apply may_redeem in Hm as (raw & ip' & -> & Hp). exists raw, ip', code, pr, i, hash, nm, ip, ex. done.
Qed.
End grounds.
