(* ===== verification/AuthAccess.v ===== *)
(** Access: the signed tokens (jwt.go, twofactorchallenge.go, devicetoken.go), each kind read back as what
    it was signed with while it lives and never taken for another's; the account server refines the machine
    of its deeds; and what an API token speaks for. *)
From S2P Require Import Prelude GoStd Snowflake InviteCode Rows Chat.
From S2P Require Export AuthBase AuthEnding AuthGrounds.

(** ** Signed tokens *)

Definition device_types : list string := [deviceEntryTokenType; deviceFactorTokenType; deviceApprovalTokenType].

(** What the package signs. *)
Inductive Signed :=
  | SAccess (user session : Z)
  | SChallenge (user : Z) (l : LoginInput)
  | SDevice (typ : string) (code : Z) (userCode : string) (user : Z).

Section signed.
Context {digest : Digest} {out : Outside}.

Definition claims_of (env : AuthEnv) (x : Signed) : Claims :=
  match x with
  | SAccess user session => access_claims env user session
  | SChallenge user l => challenge_claims env user l
  | SDevice typ code userCode user => device_claims env typ code userCode user
  end.

Definition life (x : Signed) : Z :=
  match x with SAccess _ _ => AccessTokenTTL | SChallenge _ _ => twoFactorChallengeTTL | SDevice _ _ _ _ => deviceTokenTTL end.

(** The token lives: in whole seconds, from its signing until its life is over. *)
Definition alive (env : AuthEnv) (x : Signed) (n : Z) : Prop :=
  numeric_date (e_now env) <= numeric_date n < numeric_date (e_now env + life x).

Definition id_range (i : Z) : Prop := 0 <= i < 2 ^ 63.

(** The token is one the package would sign: the user code is one that was drawn, and only an entry token names
    no account. *)
Definition signable (x : Signed) : Prop :=
  match x with
  | SAccess user session => id_range user /\ id_range session
  | SChallenge user l => id_range user /\ user <> 0 /\ li_ip l <> Some ""%string
  | SDevice typ code userCode user =>
      typ ∈ device_types /\ id_range code /\ code <> 0 /\ letters userCode /\ String.length userCode = userCodeLength /\
      id_range user /\ (user = 0 <-> deviceTokenNamesAnAccount typ = false)
  end.

Lemma Parse_String i : id_range i -> Parse (ID_String i) = Some i.
Proof.
  intros [? ?]. unfold Parse, ID_String. rewrite ParseInt_FormatInt by lia. by destruct (Z.ltb_spec i 0); [lia|].
Qed.

Lemma device_type_other typ :
  typ ∈ device_types -> (typ =? tokenTypeName)%string = false /\ (typ =? twoFactorTokenType)%string = false.
Proof. intros [->|[->|[->|[]%elem_of_nil]%elem_of_cons]%elem_of_cons]%elem_of_cons; done. Qed.

Context {laws : JwtLaws out}.

Lemma parse_signed env x n :
  jwt_parse (numeric_date n) (jwt_sign (claims_of env x)) =
    if decide (alive env x n) then Some (claims_of env x) else None.
Proof.
  rewrite jwt_parse_sign by by destruct x. destruct (decide (alive env x n)) as [[H1 H2]|Hn].
  - destruct x; cbn in *; by rewrite (proj2 (Z.leb_le _ _) H1), (proj2 (Z.ltb_lt _ _) H2).
  - destruct (_ && _) eqn:E; [|done]. destruct Hn. bool_hyps. destruct x; by split.
Qed.

Lemma drawn_code_parses code :
  letters code -> String.length code = userCodeLength -> ParseUserCode (runes code) = Some code.
Proof. intros Hl Hn. apply normalizeTypedCode_exact. split; [by apply typed_runes|done]. Qed.

End signed.

(** ** The account server *)

Section access.
Context {digest : Digest} {citext : Citext} {out : Outside} (svc : Service).
#[local] Abbreviation replay := (replay auth_tick deed_ok deed_do deed_ids).

(** C4: The account server refines the machine of its deeds. Whatever calls it receives and in whatever order it
    runs their statements and transactions, under any failures, its tables are what one sequence of deeds
    makes of those it began with, each deed done whole where its condition held and no id used twice; each
    deed is one its call's request and own deeds before it warrant (a password shown, a factor proved, a
    live session seen); and each answer says truly which deeds its call has done. *)
Theorem accounts_refine s ls p :
  fit s -> go svc ls (idle s) = Some p -> exists hs, explains s hs p.
Proof.
  intros Hs Hg. destruct (go_start svc s ls p Hs Hg) as (sp' & hs & Xs & Hr & Hok). exists hs. by eapply pool_explains.
Qed.

(** ** API tokens *)

Lemma minted d t id r' :
  deed_ok d t -> a_tokens (deed_do d t) !! id = Some r' ->
  (exists r, a_tokens t !! id = Some r /\ token_evolves r r') \/
  exists name, d = DMint id (tok_user r') name (tok_hash r') (tok_scopes r').
Proof.
  intros Hok H. destruct (tokens_after d t id r' Hok H) as [?|(Hn & Hid & _)]; [by left|right].
  assert (forall t', a_tokens t' = a_tokens t -> a_tokens t' !! id = Some r' -> False) as Hsame.
  { intros t' Ht. rewrite Ht. congruence. }
  destruct d; cbn in Hid, H; try (set_solver || congruence).
  - destruct (a_sessions t !! old); cbn in H; congruence.
  - apply elem_of_singleton in Hid as ->. rewrite lookup_insert_eq in H. injection H as <-. by exists name.
Qed.

Lemma token_origin sp t hs sp' t' id r :
  replay sp t hs sp' t' -> a_tokens t' !! id = Some r ->
  (exists r0, a_tokens t !! id = Some r0 /\ token_evolves r0 r) \/
  exists h1 c h2 name, hs = h1 ++ ByCall c (DMint id (tok_user r) name (tok_hash r) (tok_scopes r)) :: h2.
Proof.
  intros Hr H.
  destruct (row_origin a_tokens token_evolves
    (fun d _ id r => exists name, d = DMint id (tok_user r) name (tok_hash r) (tok_scopes r))
    sp t hs sp' t' id r) as
    [?|(h1 & c & d & h2 & sp1 & t1 & r0 & -> & _ & _ & (nm & ->) & (Hu & Hh & Hs & _))]; [done|by apply minted|done|done|by left|right].
  exists h1, c, h2, nm. by rewrite Hu, Hh, Hs.
Qed.

(** Only a call behind a live session mints. *)
Lemma may_mint q log id user name hash scopes :
  may q log (DMint id user name hash scopes) -> exists session nm asked, q = QGuarded user session (OMint nm asked) /\
    live_seen log user session /\ Forall (fun x => x ∈ AllScopes) scopes.
Proof.
  destruct q; cbn; try done; try (by intros (?&?&?&?&?)); try (by intros (?&?&?&?)); try (by destruct approve).
  intros [Hl Hm]. destruct op; try done. destruct Hm as [-> Hm]. by exists session, name0, scopes0.
Qed.

Lemma token_now sp0 t0 h sp t id r0 r :
  auth_inv sp0 t0 -> a_tokens t0 !! id = Some r0 -> replay sp0 t0 h sp t -> a_tokens t !! id = Some r ->
  token_evolves r0 r.
Proof.
  intros Hi Hr0 Hr H. destruct (stable_replay _ _ _ _ _ _ _ _ _ _ (token_kept id r0) Hr) as [_ Hk]; [|by apply Hk].
  split; [eapply ai_tokens; eauto|]. intros r' H'. by assert (r' = r0) as -> by congruence.
Qed.

(** C18: An API token speaks for whoever minted it, with the scopes it was minted with, until it is revoked. A
    call, received when the pool was [p0], that presents a token and is answered with an actor: if the token
    was there at [p0], the actor is of its account and has its scopes, its hash is the presented token's, and
    it was not revoked; and the token was there when the history began, or was minted in it, by a call of that
    same account behind a session seen live, with scopes the server knows. *)
Theorem api_token_authentic s ls0 p0 ls1 p1 c raw a :
  fit s -> go svc ls0 (idle s) = Some p0 -> go svc ls1 p0 = Some p1 ->
  (length (pl_reqs p0) <= c)%nat -> pl_reqs p1 !! c = Some (QAuthenticate raw) ->
  (c, inr (AActor a)) ∈ pl_done p1 ->
  exists hs id user scopes, explains s hs p1 /\ a = mkActor ActorAPIToken user 0 id scopes /\
    (forall r, a_tokens (tabs (pl_st p0)) !! id = Some r ->
       tok_user r = user /\ tok_scopes r = scopes /\ ParseAPIToken raw = Some (tok_hash r) /\ tok_revoked r = None) /\
    ((exists r, a_tokens (tabs s) !! id = Some r /\ tok_user r = user /\ tok_scopes r = scopes) \/
     exists h1 c1 d h2 session name asked, hs = h1 ++ ByCall c1 d :: h2 /\
       pl_reqs p1 !! c1 = Some (QGuarded user session (OMint name asked)) /\
       live_seen (deeds_of c1 h1) user session /\ Forall (fun x => x ∈ AllScopes) scopes).
Proof.
  intros Hs H0 H1 Hc Hq Hdone.
  destruct (run_history svc s ls0 ls1 [] p0 p1 p1 c Hs H0 H1 eq_refl Hc) as (sp0 & sp1 & sp2 & hs0 & hs1 & Xs1 & Hi & Hok & Hds & Hr1 & Hrs & hs2 & Hr2).
  apply (pool_answers _ _ _ _ _ _ _ _ _ _ _ _ _ Hok) in Hdone as (q' & Hq' & Hp). rewrite Hq in Hq'. injection Hq' as <-.
  destruct Hp as (id & r & Hsaw & Hh & ->). exists (hs0 ++ hs1), id, (tok_user r), (tok_scopes r).
  split; [eapply pool_explains; [eapply replay_app; [exact Hrs|exact Hr1]|exact Hok]|]. split; [done|].
  pose proof Hsaw as Hsaw1. rewrite Hds in Hsaw1. apply deeds_of_in in Hsaw1 as (h & h1 & ->).
  apply replay_at in Hr1 as (sp & t & Hr & (Hrow & Hl & _) & _). split.
  - intros r0 Hr0. destruct (token_now sp0 _ h sp t id r0 r Hi Hr0 Hr Hrow) as (Hu & Hh' & Hsc & _ & Hrev).
    split_and!; [done|done|by rewrite Hh, Hh'|]. destruct (tok_revoked r0) eqn:E; [|done]. destruct Hrev as [? Hx]; [by eauto|]. congruence.
  - pose proof (replay_app _ _ _ _ _ _ _ _ _ _ _ _ Hrs Hr) as Hall.
    destruct (token_origin _ _ _ _ _ _ _ Hall Hrow) as [(r0 & Hr0 & Hu & _ & Hsc & _)|(ha & c1 & hb & name & E)]; [left; by exists r0|right].
    destruct (po_may _ _ _ _ _ _ _ _ _ _ _ Hok ha c1 (DMint id (tok_user r) name (tok_hash r) (tok_scopes r))
      (hb ++ ByCall c (Saw (OToken id r)) :: h1)) as (q & Hq1 & Hm).
    { rewrite app_assoc, E, <- app_assoc. done. }
    apply may_mint in Hm as (session & nm & asked & -> & Hl' & Hsc).
    eexists ha, c1, _, _, session, nm, asked. split_and!; [|done|done|done]. by rewrite app_assoc, E, <- app_assoc.
Qed.
End access.
