(* ===== verification/AuthRuns.v ===== *)
(** A concrete world for the account server (libraries that do what the package relies on, an account with
    a session) and runs in it, where the theorems of AuthEnding, AuthOnce, AuthGrounds and AuthAccess
    apply. *)
From S2P Require Import Prelude GoStd Snowflake Utf8 InviteCode Rows Chat.
From S2P Require Export AuthAccess AuthServer.

(** ** Signed tokens as their claims *)

Fixpoint pos_string (p : positive) : string :=
  match p with
  | xH => ""
  | xO p => String "0" (pos_string p)
  | xI p => String "1" (pos_string p)
  end.

Fixpoint string_pos (s : string) : positive :=
  match s with
  | "" => xH
  | String c s => if (c =? "0")%char then xO (string_pos s) else xI (string_pos s)
  end%string.

Lemma string_pos_string p : string_pos (pos_string p) = p.
Proof. induction p as [p IH|p IH|]; cbn; by rewrite ?IH. Qed.

Definition int_string (z : Z) : string := pos_string (countable.encode z).
Definition string_int (s : string) : Z := default 0 (countable.decode (string_pos s)).

Lemma string_int_string z : string_int (int_string z) = z.
Proof. unfold string_int, int_string. by rewrite string_pos_string, decode_encode. Qed.

(** A field, each character behind a mark, and the rest. *)
Fixpoint put (field rest : string) : string :=
  match field with
  | "" => String "0" rest
  | String c field => String "1" (String c (put field rest))
  end%string.

Fixpoint get (s : string) : option (string * string) :=
  match s with
  | String m s =>
      if (m =? "0")%char then Some ("", s)
      else match s with
           | String c s => match get s with Some (field, rest) => Some (String c field, rest) | None => None end
           | "" => None
           end
  | "" => None
  end%string.

Lemma get_put field rest : get (put field rest) = Some (field, rest).
Proof. induction field as [|c field IH]; [done|]. cbn. by rewrite IH. Qed.

Definition claims_string (c : Claims) : string :=
  put (cl_iss c) (put (cl_sub c) (put (int_string (cl_nbf c)) (put (int_string (cl_exp c)) (put (cl_jti c)
    (put (cl_typ c) (put (cl_sid c) (put (cl_did c) (put (cl_dn c) (put (cl_ip c) (put (cl_dvc c)
      (put (cl_uc c) ""))))))))))).

Definition string_claims (s : string) : option Claims :=
  '(iss, s) ← get s; '(sub, s) ← get s; '(nbf, s) ← get s; '(exp, s) ← get s; '(jti, s) ← get s;
  '(typ, s) ← get s; '(sid, s) ← get s; '(did, s) ← get s; '(dn, s) ← get s; '(ip, s) ← get s;
  '(dvc, s) ← get s; '(uc, s) ← get s;
  Some (mkClaims iss sub (string_int nbf) (string_int exp) jti typ sid did dn ip dvc uc).

Lemma string_claims_string c : string_claims (claims_string c) = Some c.
Proof. unfold string_claims, claims_string. repeat (rewrite get_put; cbn [mbind option_bind]). rewrite !string_int_string. by destruct c. Qed.

(** Passwords are stored as they are, the code of a step is the step, and a sealed secret is the secret. *)
Definition demo_out : Outside := {|
  jwt_sign := claims_string;
  jwt_parse n s :=
    match string_claims s with
    | Some c => if (cl_iss c =? tokenIssuer)%string && ((cl_nbf c <=? n) && (n <? cl_exp c)) then Some c else None
    | None => None
    end;
  hotp_Validate code step _ := HotpValid (bool_decide (code = [step]));
  totp_Generate name buf := (string_of buf, name);
  argon2id_Compare password stored := Some (password =? stored)%string;
  argon2id_Create password _ := password;
  aead_Seal _ s := s;
  aead_Open s := Some s;
  ToLower s := s;
  EqualFold x y := (x =? y)%string
|}.

#[export] Instance demo_laws : JwtLaws demo_out.
Proof.
  split. intros now c Hi. cbn [jwt_parse jwt_sign demo_out]. rewrite string_claims_string, Hi, String.eqb_refl. done.
Qed.

Definition demo_digest : Digest := fun s => s.
Definition demo_citext : Citext := fun s => s.
#[export] Existing Instances demo_out demo_digest demo_citext.

Definition demo_svc : Service := mkService true "https://norite.example" true.

(** ** An account with two devices *)

Definition bytes32 (b : Z) : list Z := repeat b 32.
Definition refresh_of (b : Z) : string := (refreshTokenPrefix ++ EncodeToString (bytes32 b))%string.
Definition demo_session (device : string) (hash : string) : Session :=
  mkSession 1 device hash None None 0 0 (1000 * hour) None None 0.
Definition demo_user : User := mkUser "ada" "ada@example.org" (Some "correct horse"%string) (Some 0) None.

Definition demo_tabs : Auth :=
  mkAuth 0 {[1 := demo_user]}
    {[5 := demo_session "phone" (refresh_of 7); 6 := demo_session "laptop" (refresh_of 8)]}
    ∅ ∅ ∅ ∅ ∅ ∅ ∅.

Definition demo_gen : Generator := mkGenerator 1 1 0.
Definition demo_state : AuthSt := mkSt demo_tabs [] demo_gen ((fun i => Epoch + i) <$> seqZ 10 40) [] [].

(** Fitness, decided. *)
Lemma fit_by (s : AuthSt) :
  gen_ok (gen s) -> set_Forall (fun id => id <= mark (gen s)) (row_ids (tabs s)) ->
  map_Forall (fun i r => map_Forall (fun j r' => ses_hash r = ses_hash r' -> i = j) (a_sessions (tabs s)))
    (a_sessions (tabs s)) -> fit s.
Proof. intros Hg Hi Hh. split; [done|done|]. intros i j r r' Hr Hr'. by apply (Hh i r Hr j r' Hr'). Qed.

Lemma demo_fit : fit demo_state.
Proof. apply fit_by; [split; vm_compute; intuition congruence|by_decide|by_decide]. Qed.

(** The world of a step: the clock at [n] seconds, the next 32 bytes drawn all [b]. *)
Definition at_time (n b : Z) : AuthEnv := mkAuthEnv (n * second) [Some (bytes32 b); Some (bytes32 b)] false.

(** A call served from its first step to its answer, in one go. *)
Definition whole (q : Request) (c steps : nat) (env : AuthEnv) : list AuthMove :=
  MCall q :: repeat (MRun c env) (S steps).

Definition pool_of (o : option AuthPool) : AuthPool := default (idle demo_state) o.

Lemma pool_of_some (o : option AuthPool) : bool_decide (is_Some o) = true -> o = Some (pool_of o).
Proof. intros [p ->]%bool_decide_eq_true. done. Qed.

(** What a call was answered. *)
Definition answer_of (c : nat) (p : AuthPool) : option (Err + Answer) :=
  snd <$> head (filter (fun x => x.1 = c) (pl_done p)).

Lemma answer_of_done c p x : answer_of c p = Some x -> (c, x) ∈ pl_done p.
Proof.
  unfold answer_of. destruct (filter _ (pl_done p)) as [|y l] eqn:E; [done|]. intros [= <-].
  assert (y ∈ filter (fun x => x.1 = c) (pl_done p)) as Hy by (rewrite E; by left).
  apply list_elem_of_filter in Hy as [<- Hy]. by destruct y.
Qed.

(** The texts answered. *)
Definition text_of (o : option (Err + Answer)) : string :=
  match o with
  | Some (inr (AText t)) => t
  | Some (inr (AAuth a)) => da_UserCode a
  | Some (inr (AStep (AskApproval t))) => t
  | Some (inr (AStep (AskFactor t))) => t
  | Some (inr (ALogin (FactorOwed t _))) => t
  | Some (inr (AMinted _ _ t)) => t
  | _ => ""
  end.

Definition pair_of (o : option (Err + Answer)) : TokenPair :=
  match o with
  | Some (inr (APair p)) | Some (inr (ALogin (SignedIn p))) => p
  | _ => mkPair "" "" 0 ""
  end.

(** ** Runs *)

Abbreviation ran ls := (pool_of (go demo_svc ls (idle demo_state))).
Abbreviation ran_on ls p := (pool_of (go demo_svc ls p)).
Definition t1 : AuthEnv := at_time 1 9.

(** A run exists, decided. *)
Ltac runs_to := apply pool_of_some; vm_compute; reflexivity.
Ltac answers := apply answer_of_done; vm_compute; reflexivity.

(** ** A sign-out with a refresh in flight *)

(** The phone's refresh has looked its session up; the laptop then signs the phone out; the refresh goes on. *)
Definition looked_up : list AuthMove := [MCall (QRefresh (refresh_of 7)); MRun 0 t1].
Definition signed_out : list AuthMove := whole (QGuarded 1 6 (ORevokeSession 5)) 1 4 t1.
Definition went_on : list AuthMove := repeat (MRun 0 t1) 5.
Definition out0 : AuthPool := ran looked_up.
Definition out1 : AuthPool := ran_on signed_out out0.
Definition out2 : AuthPool := ran_on went_on out1.

Example refresh_refused : answer_of 0 out2 = Some (inl ESessionReuse).
Proof. vm_compute. reflexivity. Qed.

Lemma sign_out_final_witness : exists device,
  (forall r, a_sessions (tabs (pl_st out0)) !! 5 = Some r -> ses_user r = 1 /\ ses_device r = device) /\
  forall i r, a_sessions (tabs (pl_st out2)) !! i = Some r -> ses_user r = 1 -> ses_device r = device ->
    ses_revoked r = None -> a_now (tabs (pl_st out0)) <= ses_first r.
Proof.
  apply (sign_out_final demo_svc demo_state looked_up out0 signed_out out1 went_on out2 1 1 6 5 demo_fit).
  - runs_to.
  - runs_to.
  - runs_to.
  - vm_compute. lia.
  - vm_compute. reflexivity.
  - answers.
Defined.

(** ** A sign-out that overlaps a refresh

    Each transaction above ran whole. At READ COMMITTED two can overlap: an UPDATE considers the rows committed
    when it began, and changes those that still satisfy it once it holds their locks. *)
Definition revoking_overlapped (P : Session -> bool) (began t : Auth) : Auth :=
  set_sessions
    (map_imap (fun i r => Some match a_sessions began !! i with
                               | Some r0 => if P r0 && ses_live r0 && (P r && ses_live r) then revoke_session (a_now t) r else r
                               | None => r
                               end) (a_sessions t)) t.

(** With nothing in between it is the statement of the model. *)
Lemma revoking_alone P t :
  revoking_overlapped P t t =
    set_sessions (update_where (fun r => P r && ses_live r) (revoke_session (a_now t)) (a_sessions t)) t.
Proof.
  unfold revoking_overlapped. f_equal. apply map_eq. intros i. rewrite map_lookup_imap. unfold update_where. rewrite lookup_fmap.
  destruct (a_sessions t !! i) as [r|] eqn:E; [|done]. cbn. by destruct (P r && ses_live r).
Qed.

(** The phone's refresh has inserted its new row and rotated the old one; the sign-out's UPDATE begins, waits for the
    old row, and finds it rotated when the refresh commits. The new row it never considered: a session of the device
    that was signed out, older than the sign-out, is live. *)
Example refresh_outlives_sign_out :
  let began := tabs (pl_st out0) in
  let committed := tabs (pl_st (ran (whole (QRefresh (refresh_of 7)) 0 6 t1))) in
  map_to_list (filter (fun x => on_device 1 "phone" x.2 && ses_live x.2 = true)
    (a_sessions (revoking_overlapped (on_device 1 "phone") began committed))) <> [] /\
  map_Forall (fun _ r => ses_first r = 0) (a_sessions committed) /\
  map_to_list (filter (fun x => on_device 1 "phone" x.2 && ses_live x.2 = true)
    (a_sessions (revoking_overlapped (on_device 1 "phone") committed committed))) = [].
Proof. split_and!; [vm_compute; done|by_decide|vm_compute; reflexivity]. Qed.

(** ** A reset *)

Definition asked_reset : list AuthMove := whole (QRequestReset "ada@example.org") 0 5 t1.
Definition reset_raw : string := (passwordResetPrefix ++ EncodeToString (bytes32 9))%string.
Definition confirmed_reset (c : nat) : list AuthMove := whole (QConfirmReset reset_raw "staple battery") c 4 t1.
Definition reset0 : AuthPool := ran asked_reset.
Definition reset1 : AuthPool := ran_on (confirmed_reset 1) reset0.

Lemma account_ended_witness : exists id user,
  (forall r, a_resets (tabs (pl_st reset0)) !! id = Some r ->
     ml_user r = user /\ ParsePasswordResetToken reset_raw = Some (ml_hash r)) /\
  secured user "" 0 (tabs (pl_st reset1)).
Proof.
  apply (account_ended demo_svc demo_state asked_reset reset0 (confirmed_reset 1) reset1 [] reset1 1
           (QConfirmReset reset_raw "staple battery") ADone demo_fit).
  - runs_to.
  - runs_to.
  - reflexivity.
  - vm_compute. lia.
  - vm_compute. reflexivity.
  - answers.
Defined.

(** ** A refresh token replayed *)

Definition rotated : list AuthMove := whole (QRefresh (refresh_of 7)) 0 6 t1.
Definition replayed : list AuthMove := whole (QRefresh (refresh_of 7)) 1 2 (at_time 2 10).
Definition rot0 : AuthPool := ran rotated.
Definition rot1 : AuthPool := ran_on replayed rot0.

Lemma replay_ends_family_witness :
  match a_sessions (tabs (pl_st rot0)) !! 5 with
  | Some r => (forall pair, inl ESessionReuse <> inr (APair pair)) /\
      forall i r', a_sessions (tabs (pl_st rot1)) !! i = Some r' -> ses_user r' = ses_user r ->
        ses_device r' = ses_device r -> ses_revoked r' = None -> a_now (tabs (pl_st rot0)) <= ses_first r'
  | None => False
  end.
Proof.
  destruct (a_sessions (tabs (pl_st rot0)) !! 5) as [r|] eqn:Er.
  - destruct (replay_ends_family demo_svc demo_state rotated rot0 replayed rot1 [] rot1 1 (refresh_of 7) 5 r (inl ESessionReuse)
      demo_fit) as [H1 H2]; [runs_to|runs_to|reflexivity|vm_compute; lia|vm_compute; reflexivity|exact Er| | | |answers|].
    + vm_compute in Er. injection Er as <-. by eexists.
    + vm_compute in Er. injection Er as <-. vm_compute. reflexivity.
    + apply (bool_decide_unpack _). vm_compute. exact I.
    + split; [exact H1|by apply H2].
  - vm_compute in Er. discriminate.
Defined.

(** ** A token drawn twice *)

(** The phone refreshes; long after, its rows are swept; a sign-in then draws the very bytes of the first
    token, which is good again. *)
Definition long : Z := 2000 * 3600.
Definition redrawn : list AuthMove :=
  rotated ++ MTick (long * second) :: whole (QSweep 1) 1 5 t1 ++
  whole (QLogin "ada@example.org" "correct horse" (mkLogin "phone" "" None)) 2 7 (at_time long 7) ++
  whole (QRefresh (refresh_of 7)) 3 6 (at_time (long + 1) 11).
Definition twice : AuthPool := ran redrawn.

Lemma refresh_single_use_witness : exists hs hash id1 id2, explains demo_state hs twice /\
  ParseRefreshToken (refresh_of 7) = Some hash /\ id1 <> id2 /\
  refresh_issued (tabs demo_state) hs hash id1 /\ refresh_issued (tabs demo_state) hs hash id2.
Proof.
  apply (refresh_single_use demo_svc demo_state redrawn twice 0 3 (refresh_of 7) (pair_of (answer_of 0 twice))
           (pair_of (answer_of 3 twice)) demo_fit).
  - runs_to.
  - lia.
  - vm_compute. reflexivity.
  - vm_compute. reflexivity.
  - answers.
  - answers.
Defined.

Definition reset_again : list AuthMove :=
  asked_reset ++ confirmed_reset 1 ++ MTick (long * second) :: whole (QSweep 1) 2 5 t1 ++
  whole (QRequestReset "ada@example.org") 3 5 (at_time long 9) ++ confirmed_reset 4.
Definition resets : AuthPool := ran reset_again.

Lemma reset_single_use_witness : exists hs hash id1 id2, explains demo_state hs resets /\
  ParsePasswordResetToken reset_raw = Some hash /\ id1 <> id2 /\
  reset_issued (tabs demo_state) hs hash id1 /\ reset_issued (tabs demo_state) hs hash id2.
Proof.
  apply (reset_single_use demo_svc demo_state reset_again resets 1 4 reset_raw "staple battery" "staple battery" demo_fit).
  - runs_to.
  - lia.
  - vm_compute. reflexivity.
  - vm_compute. reflexivity.
  - answers.
  - answers.
Defined.

(** ** A device code *)

Definition asked_code : list AuthMove := whole (QDeviceCode "tablet" "Tab") 0 5 t1.
Definition typed : list Z := runes (text_of (answer_of 0 (ran asked_code))).
Definition entered : list AuthMove := asked_code ++ whole (QPageEntry typed) 1 2 t1.
Definition signed_in : list AuthMove :=
  entered ++ whole (QPageSignIn (text_of (answer_of 1 (ran entered))) "ada@example.org" "correct horse") 2 6 t1.
Definition approved : list AuthMove :=
  signed_in ++ whole (QPageApprove (text_of (answer_of 2 (ran signed_in))) true) 3 2 t1.
Definition device_raw : string := (deviceCodePrefix ++ EncodeToString (bytes32 9))%string.
Definition redeemed : list AuthMove := approved ++ whole (QDeviceToken device_raw None) 4 5 (at_time 2 11).
Definition device_pool : AuthPool := ran redeemed.

Lemma device_code_once_witness : exists hs, explains demo_state hs device_pool /\
  forall h1 c code presented id user device hash name ip expires h3,
    hs = h1 ++ ByCall c (DRedeem code presented id user device hash name ip expires) :: h3 ->
    (forall c1 d1, ByCall c1 d1 ∈ h1 -> ~ settles code d1) /\
    (exists raw ip', pl_reqs device_pool !! c = Some (QDeviceToken raw ip') /\ ParseDeviceCode raw = Some presented) /\
    ((exists r, a_devices (tabs demo_state) !! code = Some r /\ dc_user r = Some user) \/
     exists c1 token n dc, ByCall c1 (DApprove code user) ∈ h1 /\
       pl_reqs device_pool !! c1 = Some (QPageApprove token true) /\
       parseDeviceToken n token deviceApprovalTokenType = inr dc /\ dcn_code_id dc = code /\ dcn_user dc = user).
Proof. apply (device_code_once demo_svc demo_state redeemed device_pool demo_fit). runs_to. Defined.

(** The refinement, on the same run: five calls, the last of which got a pair. *)
Lemma accounts_refine_witness :
  length (pl_done device_pool) = 5%nat /\ exists hs, explains demo_state hs device_pool.
Proof.
  split; [vm_compute; reflexivity|]. apply (accounts_refine demo_svc demo_state redeemed device_pool demo_fit). runs_to.
Defined.

(** The session the device got. *)
Definition device_session : Z :=
  default 0 (fst <$> head (filter (fun kv => ses_device kv.2 = "tablet"%string) (map_to_list (a_sessions (tabs (pl_st device_pool)))))).

Lemma session_grounds_witness :
  match a_sessions (tabs (pl_st device_pool)) !! device_session with
  | Some r => ses_user r = 1 /\ exists hs, explains demo_state hs device_pool /\
      ((exists id0 r0, a_sessions (tabs demo_state) !! id0 = Some r0 /\ same_family r0 r) \/
       exists h1 c d h2 q, hs = h1 ++ ByCall c d :: h2 /\ pl_reqs device_pool !! c = Some q /\
         (exists sp1 t1, replay auth_tick deed_ok deed_do deed_ids (row_ids (tabs demo_state)) (tabs demo_state) h1 sp1 t1 /\
            a_now t1 = ses_first r) /\
         (shows q (deeds_of c h1) (ses_user r) (ses_device r) \/
          exists raw ip code presented id hash name ip' expires,
            q = QDeviceToken raw ip /\ ParseDeviceCode raw = Some presented /\
            d = DRedeem code presented id (ses_user r) (ses_device r) hash name ip' expires))
  | None => False
  end.
Proof.
  destruct (a_sessions (tabs (pl_st device_pool)) !! device_session) as [r|] eqn:Er.
  - split; [vm_compute in Er; injection Er as <-; reflexivity|].
    apply (session_grounds demo_svc demo_state redeemed device_pool device_session r demo_fit); [runs_to|exact Er].
  - vm_compute in Er. discriminate.
Defined.

(** ** An authenticator *)

(** Ada enrolls, confirms with the code of step 2, and signs in with that of step 3. *)
Definition enrolled : list AuthMove := whole (QGuarded 1 6 OBeginTotp) 0 7 t1.
Definition confirmed : list AuthMove := enrolled ++
  MCall (QGuarded 1 6 (OConfirmTotp [2])) :: ((fun b => MRun 1 (at_time 60 b)) <$> seqZ 20 16).
Definition challenged : list AuthMove :=
  confirmed ++ whole (QLogin "ada@example.org" "correct horse" (mkLogin "tablet" "" None)) 2 4 (at_time 61 14).
Definition two_factor : list AuthMove :=
  challenged ++ whole (QVerifyTwoFactor (text_of (answer_of 2 (ran challenged))) [3]) 3 8 (at_time 90 15).
Definition factor_pool : AuthPool := ran two_factor.

Lemma factor_codes_once_witness : exists hs, explains demo_state hs factor_pool /\
  (forall h1 c1 d1 h2 c2 user step1 step2 h3,
     hs = h1 ++ ByCall c1 d1 :: h2 ++ ByCall c2 (DUseStep user step2) :: h3 -> spends_step user step1 d1 ->
     step1 < step2 \/ exists c keep, ByCall c (DDisable user keep) ∈ h2) /\
  forall h1 c1 id user1 hash1 h2 c2 user2 hash2 h3,
    hs <> h1 ++ ByCall c1 (DUseRecovery id user1 hash1) :: h2 ++ ByCall c2 (DUseRecovery id user2 hash2) :: h3.
Proof. apply (factor_codes_once demo_svc demo_state two_factor factor_pool demo_fit). runs_to. Defined.

(** ** An API token *)

Definition token_minted : list AuthMove := whole (QGuarded 1 6 (OMint "bot" ["identify"; "messages.read"])) 0 5 t1.
Definition minted0 : AuthPool := ran token_minted.
Definition token_used : list AuthMove := whole (QAuthenticate (text_of (answer_of 0 minted0))) 1 3 (at_time 2 10).
Definition minted1 : AuthPool := ran_on token_used minted0.
Definition bot_id : Z := default 0 (fst <$> head (map_to_list (a_tokens (tabs (pl_st minted0))))).

Lemma api_token_authentic_witness :
  let a := mkActor ActorAPIToken 1 0 bot_id ["identify"; "messages.read"]%string in
  exists hs id user scopes, explains demo_state hs minted1 /\ a = mkActor ActorAPIToken user 0 id scopes /\
    (forall r, a_tokens (tabs (pl_st minted0)) !! id = Some r ->
       tok_user r = user /\ tok_scopes r = scopes /\
       ParseAPIToken (text_of (answer_of 0 minted0)) = Some (tok_hash r) /\ tok_revoked r = None) /\
    ((exists r, a_tokens (tabs demo_state) !! id = Some r /\ tok_user r = user /\ tok_scopes r = scopes) \/
     exists h1 c1 d h2 session name asked, hs = h1 ++ ByCall c1 d :: h2 /\
       pl_reqs minted1 !! c1 = Some (QGuarded user session (OMint name asked)) /\
       live_seen (deeds_of c1 h1) user session /\ Forall (fun x => x ∈ AllScopes) scopes).
Proof.
  apply (api_token_authentic demo_svc demo_state token_minted minted0 token_used minted1 1 _ _ demo_fit).
  - runs_to.
  - runs_to.
  - vm_compute. lia.
  - vm_compute. reflexivity.
  - answers.
Defined.

(** ** Signed tokens *)

