(* ===== verification/TagSvc.v ===== *)
(** backend/internal/tags and backend/internal/db/tags.sql.go: a guild's vocabulary of tags, each
    member's own, and what they have been put on.

    Two names clash when the database's lower() makes them equal, which depends on its locale: it is
    the class [Collation], and nothing is assumed of it. *)
From S2P Require Import Prelude GoStd Permissions Snowflake Rows TxMonad Queries.
From S2P Require Import Resolve StoreInv Authority ResolveMany GuildAuth GuildCommon Utf8.
From S2P Require Import MessageSvc.

Class Collation := lower : string -> string.

(** ** Statements (tags.sql.go) *)

Record CreateMessageTagParams := mkCreateMessageTagParams {
  cmt_ID : Z; cmt_GuildID : Z; cmt_Name : string; cmt_CreatedBy : Z; cmt_IsShared : bool
}.

Definition new_tag (now : Z) (p : CreateMessageTagParams) : dbMessageTag :=
  mkDbMessageTag (cmt_ID p) (cmt_GuildID p) (cmt_Name p) (cmt_CreatedBy p) (cmt_IsShared p) now.

(** The two partial unique indexes: one name to a guild's shared tags, one to a member's own. *)
Definition same_name `{Collation} (tag other : dbMessageTag) : bool :=
  bool_decide (tag_guild_id tag = tag_guild_id other /\ tag_is_shared tag = tag_is_shared other /\
               lower (tag_name tag) = lower (tag_name other)) &&
  (tag_is_shared tag || (tag_created_by tag =? tag_created_by other)).

Definition name_taken `{Collation} (tag : dbMessageTag) (x : Chat) : bool :=
  existsb (same_name tag) (rows_of_map (c_tags x)).

Definition varchar (n : Z) (s : string) : bool := pg_text s && (RuneCountInString s <=? n).

Definition Queries_CreateMessageTag `{Collation} (now : Z) (p : CreateMessageTagParams) : M dbMessageTag :=
  writing (fun t =>
    let tag := new_tag now p in
    if negb (varchar 50 (cmt_Name p)) then inl EDb
    else if bool_decide (is_Some (c_tags (t_chat t) !! cmt_ID p)) || name_taken tag (t_chat t) then inl EUnique
    else if fk_holds (t_guilds t) (Some (cmt_GuildID p)) && fk_holds (t_users t) (Some (cmt_CreatedBy p))
    then inr (tag, on_chat (fun x => set_tags (<[cmt_ID p := tag]> (c_tags x)) x) t)
    else inl EForeignKey).

Definition Queries_GetMessageTag (id : Z) : M dbMessageTag :=
  reading (fun t => found (c_tags (t_chat t) !! id)).

Definition shared_tags (x : Chat) (g : Z) : list dbMessageTag :=
  filter (fun tag => tag_guild_id tag = g /\ tag_is_shared tag = true) (rows_of_map (c_tags x)).

Definition private_tags (x : Chat) (g u : Z) : list dbMessageTag :=
  filter (fun tag => tag_guild_id tag = g /\ tag_created_by tag = u /\ tag_is_shared tag = false)
    (rows_of_map (c_tags x)).

Definition Queries_CountGuildSharedTags (g : Z) : M Z :=
  reading (fun t => inr (count (shared_tags (t_chat t) g))).

Definition Queries_CountMemberPrivateTags (g u : Z) : M Z :=
  reading (fun t => inr (count (private_tags (t_chat t) g u))).

Definition Queries_ListGuildMessageTags (g u : Z) : M (list dbMessageTag) :=
  reading (fun t => inr (merge_sort (newer_first tag_id)
    (filter (fun tag => tag_guild_id tag = g /\ tag_visible u tag = true) (rows_of_map (c_tags (t_chat t)))))).

(** SELECT ... FOR UPDATE, its row not read. *)
Definition Queries_LockMessageTag (id : Z) : M unit := reading (fun _ => inr tt).

Definition by_others (x : Chat) (id u : Z) : list dbTagApplication :=
  filter (fun a => ta_tag_id a = id /\ ta_applied_by a <> u) ((map_to_list (c_applied x)).*2).

Definition Queries_CountMessageTagApplicationsByOthers (id u : Z) : M Z :=
  reading (fun t => inr (count (by_others (t_chat t) id u))).

(** The applications of the tag cascade. *)
Definition without_tag (id : Z) (x : Chat) : Chat :=
  set_tags (delete id (c_tags x)) (set_applied (filter (fun kv => kv.1.1 <> id) (c_applied x)) x).

Definition Queries_DeleteMessageTag (id g : Z) : M Z :=
  writing (fun t => inr
    (match c_tags (t_chat t) !! id with
     | Some tag => if tag_guild_id tag =? g then (1, on_chat (without_tag id) t) else (0, t)
     | None => (0, t)
     end)).

Definition Queries_GetMessageTagApplication (tagID messageID : Z) : M dbTagApplication :=
  reading (fun t => found (c_applied (t_chat t) !! (tagID, messageID))).

Record ApplyMessageTagParams := mkApplyMessageTagParams {
  amt_TagID : Z; amt_MessageID : Z; amt_ChannelID : Z; amt_AppliedBy : Z
}.

(** The joins of the INSERT ... SELECT: the tag, and a live message of the channel, whose guild is the
    tag's. *)
Definition applicable (p : ApplyMessageTagParams) (t : Tables) : bool :=
  match c_tags (t_chat t) !! amt_TagID p, live_message t (amt_MessageID p),
        t_channels t !! amt_ChannelID p with
  | Some tag, Some m, Some ch =>
      (msg_channel_id m =? amt_ChannelID p) && bool_decide (channel_guild_id ch = Some (tag_guild_id tag))
  | _, _, _ => false
  end.

Definition Queries_ApplyMessageTag (now : Z) (p : ApplyMessageTagParams) : M Z :=
  writing (fun t =>
    let k := (amt_TagID p, amt_MessageID p) in
    if negb (applicable p t) then inr (0, t)
    else match c_applied (t_chat t) !! k with
    | Some _ => inr (0, t)
    | None =>
        if fk_holds (t_users t) (Some (amt_AppliedBy p))
        then inr (1, on_chat (fun x => set_applied
               (<[k := mkDbTagApplication k.1 k.2 (amt_AppliedBy p) now]> (c_applied x)) x) t)
        else inl EForeignKey
    end).

Definition Queries_UnapplyMessageTag (tagID messageID : Z) : M Z :=
  writing (fun t => inr
    (match c_applied (t_chat t) !! (tagID, messageID) with
     | Some _ => (1, on_chat (fun x => set_applied (delete (tagID, messageID) (c_applied x)) x) t)
     | None => (0, t)
     end)).

(** ** The vocabulary (model.go, service.go) *)

Definition MaxSharedTagsPerGuild : Z := 200.
Definition MaxPrivateTagsPerMember : Z := 100.
Definition MaxTagNameLength : Z := 50.

Record Tag := mkTag {
  Tag_ID : Z; Tag_GuildID : Z; Tag_Name : string; Tag_CreatedBy : Z; Tag_IsShared : bool; Tag_CreatedAt : Z
}.

Definition tagFromRow (row : dbMessageTag) : Tag :=
  mkTag (tag_id row) (tag_guild_id row) (tag_name row) (tag_created_by row) (tag_is_shared row)
    (tag_created_at row).

(** A byte is NUL exactly when the rune there is. *)
Definition checkName (name : string) : Err + unit :=
  if (name =? "")%string then inl EBadRequest
  else if bool_decide (0 ∈ bytes_of name) then inl EBadRequest
  else if MaxTagNameLength <? RuneCountInString name then inl EBadRequest
  else inr tt.

Record CreateTagInput := mkCreateTagInput { cti_GuildID : Z; cti_Name : string; cti_IsShared : bool }.

Definition Service_checkCeiling (actor : Z) (input : CreateTagInput) : M unit :=
  if cti_IsShared input then
    n ← Queries_CountGuildSharedTags (cti_GuildID input);
    refuse_if (MaxSharedTagsPerGuild <=? n) EConflict
  else
    n ← Queries_CountMemberPrivateTags (cti_GuildID input) actor;
    refuse_if (MaxPrivateTagsPerMember <=? n) EConflict.

Definition tag_need (shared : bool) : Z :=
  if shared then PermViewChannel ∪ₚ PermManageMessages else PermViewChannel.

Definition CreateTag_tx `{Collation} (actor now id : Z) (input : CreateTagInput) : M Tag :=
  Authorize actor (cti_GuildID input) 0 (tag_need (cti_IsShared input));;
  Service_checkCeiling actor input;;
  row_or ← attempt (Queries_CreateMessageTag now (mkCreateMessageTagParams id (cti_GuildID input)
                      (cti_Name input) actor (cti_IsShared input)));
  row ← lift (match row_or with inl EUnique => inl EConflict | inl EForeignKey => inl ENotFound | r => r end);
  mret (tagFromRow row).

Definition Service_CreateTag `{Collation} (actor now : Z) (input : CreateTagInput) : M Tag :=
  lift (checkName (cti_Name input));;
  id ← ids_Next;
  RunInTx (CreateTag_tx actor now id input).

Definition Service_ListTags (actor guildID : Z) : M (list Tag) :=
  Authorize actor guildID 0 PermViewChannel;;
  rows ← Queries_ListGuildMessageTags guildID actor;
  mret (tagFromRow <$> rows).

(** The service's tagVisibleTo is [tag_visible] of the statements, for one row. *)
Definition Service_loadInGuild (actor guildID tagID : Z) : M dbMessageTag :=
  tag ← no_rows_as ENotFound (Queries_GetMessageTag tagID);
  refuse_if (negb (tag_guild_id tag =? guildID)) ENotFound;;
  refuse_if (negb (tag_visible actor tag)) ENotFound;;
  mret tag.

Definition mayDeleteTag (actor : Z) (decision : GuildDecision) (tag : dbMessageTag) : bool :=
  if negb (tag_is_shared tag) then tag_created_by tag =? actor
  else Decision_Allows decision PermManageMessages.

(** tags/audit.go *)
Definition Tags_writeAudit (guildID actorID : Z) (action : string) (targetID : Z) (changes : auditDiff) : M unit :=
  auditID ← ids_Next;
  Queries_WriteAuditLogEntry auditID (mkAuditRow (Some guildID) actorID action (Some targetID) (Some changes)).

Definition deleted_tag_diff (tag : dbMessageTag) (others : Z) : auditDiff :=
  auditDiff_context "applications_removed" (AVInt others)
    (auditDiff_removed "name" (AVString (tag_name tag)) ∅).

Definition DeleteTag_tx (actor guildID tagID : Z) : M unit :=
  decision ← Authorize actor guildID 0 PermViewChannel;
  tag ← Service_loadInGuild actor guildID tagID;
  refuse_if (negb (mayDeleteTag actor decision tag)) EForbidden;;
  others ← (if tag_is_shared tag
            then Queries_LockMessageTag tagID;; Queries_CountMessageTagApplicationsByOthers tagID actor
            else mret 0);
  affected ← Queries_DeleteMessageTag tagID guildID;
  refuse_if (affected =? 0) ENotFound;;
  if others =? 0 then mret tt
  else Tags_writeAudit guildID actor "tag.delete" tagID (deleted_tag_diff tag others).

Definition Service_DeleteTag (actor guildID tagID : Z) : M unit := RunInTx (DeleteTag_tx actor guildID tagID).

(** ** Tags on messages (apply.go) *)

Record ApplyInput := mkApplyInput { ai_ChannelID : Z; ai_MessageID : Z; ai_TagID : Z }.

Definition loadMessageInChannel (c messageID : Z) : M unit :=
  msg ← no_rows_as ENotFound (Queries_GetMessage messageID);
  refuse_if (negb (msg_channel_id msg =? c)) ENotFound.

Definition ApplyTag_tx (actor now : Z) (input : ApplyInput) : M unit :=
  ch ← AuthorizeChannelUnlocked actor (ai_ChannelID input) PermReadMessageHistory;
  let '(_, guildID, decision) := ch in
  loadMessageInChannel (ai_ChannelID input) (ai_MessageID input);;
  tag ← Service_loadInGuild actor guildID (ai_TagID input);
  refuse_if (tag_is_shared tag && negb (Decision_Allows decision PermSendMessages)) EForbidden;;
  affected_or ← attempt (Queries_ApplyMessageTag now
    (mkApplyMessageTagParams (ai_TagID input) (ai_MessageID input) (ai_ChannelID input) actor));
  affected ← lift (match affected_or with inl EForeignKey => inl ENotFound | r => r end);
  if affected =? 0
  then no_rows_as ENotFound (Queries_GetMessageTagApplication (ai_TagID input) (ai_MessageID input));; mret tt
  else mret tt.

Definition Service_ApplyTag (actor now : Z) (input : ApplyInput) : M unit := RunInTx (ApplyTag_tx actor now input).

Definition removed_tag_diff (input : ApplyInput) (tag : dbMessageTag) (application : dbTagApplication) : auditDiff :=
  auditDiff_context "applied_by" (AVInt (ta_applied_by application))
    (auditDiff_context "tag_name" (AVString (tag_name tag))
      (auditDiff_context "tag_id" (AVInt (ai_TagID input))
        (auditDiff_context "channel_id" (AVInt (ai_ChannelID input)) ∅))).

Definition UnapplyTag_tx (actor : Z) (input : ApplyInput) : M unit :=
  ch ← AuthorizeChannelUnlocked actor (ai_ChannelID input) PermReadMessageHistory;
  let '(_, guildID, decision) := ch in
  loadMessageInChannel (ai_ChannelID input) (ai_MessageID input);;
  tag ← Service_loadInGuild actor guildID (ai_TagID input);
  application ← no_rows_as ENotFound (Queries_GetMessageTagApplication (ai_TagID input) (ai_MessageID input));
  let isApplier := ta_applied_by application =? actor in
  refuse_if (negb isApplier && negb (Decision_Allows decision PermManageMessages)) EForbidden;;
  affected ← Queries_UnapplyMessageTag (ai_TagID input) (ai_MessageID input);
  refuse_if (affected =? 0) ENotFound;;
  if isApplier then mret tt
  else Tags_writeAudit guildID actor "tag.remove" (ai_MessageID input) (removed_tag_diff input tag application).

Definition Service_UnapplyTag (actor : Z) (input : ApplyInput) : M unit := RunInTx (UnapplyTag_tx actor input).

Record TagOnMessage := mkTagOnMessage { TM_Tag : Tag; TM_AppliedBy : Z; TM_AppliedAt : Z }.

Definition Service_ForMessage (actor c messageID : Z) : M (list TagOnMessage) :=
  AuthorizeChannelUnlocked actor c PermReadMessageHistory;;
  loadMessageInChannel c messageID;;
  rows ← Queries_ListTagsForMessages [messageID] actor;
  mret ((fun row => mkTagOnMessage (tagFromRow (ltm_MessageTag row)) (ltm_AppliedBy row) (ltm_AppliedAt row)) <$> rows).

(** ** What each operation did, if it returned *)

Definition CreateTag_effect `{Collation} (a now id : Z) (input : CreateTagInput) (t : Tables) (out : Tag)
    (t' : Tables) : Prop :=
  exists d, let g := cti_GuildID input in
    let tag := new_tag now (mkCreateMessageTagParams id g (cti_Name input) a (cti_IsShared input)) in
    granted t a g 0 (tag_need (cti_IsShared input)) d /\
    (if cti_IsShared input then count (shared_tags (t_chat t) g) < MaxSharedTagsPerGuild
     else count (private_tags (t_chat t) g a) < MaxPrivateTagsPerMember) /\
    varchar 50 (cti_Name input) = true /\ c_tags (t_chat t) !! id = None /\ name_taken tag (t_chat t) = false /\
    is_Some (t_guilds t !! g) /\ is_Some (t_users t !! a) /\
    t' = on_chat (fun x => set_tags (<[id := tag]> (c_tags x)) x) t /\ out = tagFromRow tag.

(** The tag a request may name: of the guild, and visible to the account. *)
Definition loaded (t : Tables) (a g id : Z) (tag : dbMessageTag) : Prop :=
  c_tags (t_chat t) !! id = Some tag /\ tag_guild_id tag = g /\ tag_visible a tag = true.

(** [t'] is [t1], with the audit entry if the act was over somebody else. *)
Definition audited_if (over : bool) (row : AuditRow) (t1 t' : Tables) : Prop :=
  if over then exists aid, t_audit t1 !! aid = None /\ t' = audited aid row t1 else t' = t1.

Definition DeleteTag_effect (a g id : Z) (t t' : Tables) : Prop :=
  exists d tag, let others := if tag_is_shared tag then count (by_others (t_chat t) id a) else 0 in
    granted t a g 0 PermViewChannel d /\ loaded t a g id tag /\ mayDeleteTag a d tag = true /\
    audited_if (negb (others =? 0)) (entry g a "tag.delete" (Some id) (Some (deleted_tag_diff tag others)))
      (on_chat (without_tag id) t) t'.

(** The channel and message a tag request acts on. *)
Definition acts_on (t : Tables) (a c id g : Z) (d : GuildDecision) : Prop :=
  exists ch m, t_channels t !! c = Some ch /\ channel_guild_id ch = Some g /\
    granted t a g c (PermReadMessageHistory ∪ₚ PermViewChannel) d /\
    live_message t id = Some m /\ msg_channel_id m = c.

Definition ApplyTag_effect (a now : Z) (input : ApplyInput) (t t' : Tables) : Prop :=
  exists g d tag, let k := (ai_TagID input, ai_MessageID input) in
    acts_on t a (ai_ChannelID input) (ai_MessageID input) g d /\ loaded t a g (ai_TagID input) tag /\
    (tag_is_shared tag = true -> Decision_Allows d PermSendMessages = true) /\
    ((is_Some (c_applied (t_chat t) !! k) /\ t' = t) \/
     (c_applied (t_chat t) !! k = None /\ is_Some (t_users t !! a) /\
      t' = on_chat (fun x => set_applied (<[k := mkDbTagApplication k.1 k.2 a now]> (c_applied x)) x) t)).

Definition UnapplyTag_effect (a : Z) (input : ApplyInput) (t t' : Tables) : Prop :=
  exists g d tag app, let k := (ai_TagID input, ai_MessageID input) in
    acts_on t a (ai_ChannelID input) (ai_MessageID input) g d /\ loaded t a g (ai_TagID input) tag /\
    c_applied (t_chat t) !! k = Some app /\
    (ta_applied_by app = a \/ Decision_Allows d PermManageMessages = true) /\
    audited_if (negb (ta_applied_by app =? a))
      (entry g a "tag.remove" (Some (ai_MessageID input)) (Some (removed_tag_diff input tag app)))
      (on_chat (fun x => set_applied (delete k (c_applied x)) x) t) t'.

(** ** Rules *)

Lemma Tags_writeAudit_Service g a action target d :
  auditDiff_payload d = Some d ->
  Tags_writeAudit g a action target d = Service_writeAudit g a action (Some target) (Some d).
Proof. intros H. unfold Tags_writeAudit, Service_writeAudit. cbn [mbind option_bind]. by rewrite H. Qed.

Lemma payload_insert k v (d : auditDiff) : auditDiff_payload (<[k := v]> d) = Some (<[k := v]> d).
Proof. unfold auditDiff_payload. rewrite decide_False; [done|]. apply insert_non_empty. Qed.

Lemma wp_Tags_writeAudit g a action target k v (d : auditDiff) (Q : unit -> St -> Prop) s :
  (forall fs aid gn cl, t_audit (tabs s) !! aid = None ->
     Q tt (with_tabs (audited aid (entry g a action (Some target) (Some (<[k := v]> d))) (tabs s))
             (with_faults fs (with_gen gn cl s)))) ->
  wp (Tags_writeAudit g a action target (<[k := v]> d)) Q s.
Proof.
  intros HQ. rewrite Tags_writeAudit_Service by apply payload_insert. apply wp_writeAudit.
  intros fs aid gn cl Ha _. by apply HQ.
Qed.

Lemma wp_loadInGuild a g id (Q : dbMessageTag -> St -> Prop) s :
  (forall fs tag, loaded (tabs s) a g id tag -> Q tag (with_faults fs s)) ->
  wp (Service_loadInGuild a g id) Q s.
Proof.
  intros HQ. unfold Service_loadInGuild. wp_step. wp_step. wp_step. cbn beta. st_simpl.
  wp_step. wp_step. wp_step. wp_step. wp_step. bool_hyps. apply HQ. split_and!; done.
Qed.

Lemma wp_loadMessageInChannel c id (Q : unit -> St -> Prop) s :
  (forall fs m, live_message (tabs s) id = Some m -> msg_channel_id m = c -> Q tt (with_faults fs s)) ->
  wp (loadMessageInChannel c id) Q s.
Proof.
  intros HQ. unfold loadMessageInChannel. wp_step. wp_step. wp_step. cbn beta. st_simpl. wp_step.
  bool_hyps. by eapply HQ.
Qed.

Lemma wp_CreateTag_tx `{Collation} a now id input s :
  wf (tabs s) ->
  wp (CreateTag_tx a now id input)
    (fun out s' => CreateTag_effect a now id input (tabs s) out (tabs s') /\ hooks s' = hooks s) s.
Proof.
  intros Hwf. unfold CreateTag_tx. wp_step. apply wp_Authorize; [done|]. intros fs d Hd. wp_step.
  set (P := if cti_IsShared input then count (shared_tags (t_chat (tabs s)) (cti_GuildID input)) < MaxSharedTagsPerGuild
     else count (private_tags (t_chat (tabs s)) (cti_GuildID input) a) < MaxPrivateTagsPerMember).
  eapply (wp_mono _ (fun _ s' => P /\ exists fs, s' = with_faults fs s)).
  { unfold Service_checkCeiling, P. destruct (cti_IsShared input); wp_step; wp_step; wp_step; st_simpl; bool_hyps;
      (split; [lia|by eexists]). }
  intros _ s1 [HP (fs1 & ->)]. wp_step. apply wp_attempt. intros row_or s2 Hr.
  unfold Queries_CreateMessageTag, writing in Hr.
  match type of Hr with context [next_fault ?s0] => destruct (next_fault s0) as [b s3] eqn:Ef end.
  apply next_fault_with in Ef as [fs2 ->]. destruct b; [by simplify_eq|]. st_simpl.
  cbn [cmt_ID cmt_GuildID cmt_Name cmt_CreatedBy fk_holds] in Hr.
  destruct (varchar _ _) eqn:Ev; cbn [negb] in Hr; [|by simplify_eq].
  destruct (_ || _) eqn:Eu in Hr; [by simplify_eq|]. apply orb_false_iff in Eu as [Eid En].
  apply bool_decide_eq_false, eq_None_not_Some in Eid.
  destruct (_ && _) eqn:Ek in Hr; [|by simplify_eq]. apply andb_true_iff in Ek as [Eg Ea]. bool_hyps.
  simplify_eq. wp_step. apply wp_lift. intros row [= <-]. wp_step. st_simpl. split; [|done].
  exists d. by split_and!.
Qed.

Lemma wp_DeleteTag_tx a g id s :
  wf (tabs s) ->
  wp (DeleteTag_tx a g id) (fun _ s' => DeleteTag_effect a g id (tabs s) (tabs s') /\ hooks s' = hooks s) s.
Proof.
  intros Hwf. unfold DeleteTag_tx. wp_step. apply wp_Authorize; [done|]. intros fs d Hd. wp_step.
  apply wp_loadInGuild. intros fs1 tag Htag. st_simpl. wp_step. wp_step. apply negb_false_iff in H. wp_step.
  set (others := if tag_is_shared tag then count (by_others (t_chat (tabs s)) id a) else 0).
  eapply (wp_mono _ (fun n s' => n = others /\ exists fs, s' = with_faults fs s)).
  { unfold others. destruct (tag_is_shared tag); [|wp_step; split; [done|by eexists]].
    wp_step. unfold Queries_LockMessageTag. wp_step. cbn beta. wp_step. cbn beta. st_simpl. split; [done|by eexists]. }
  intros n s1 [-> (fs2 & ->)]. wp_step. unfold Queries_DeleteMessageTag. wp_step. st_simpl.
  destruct Htag as (Hl & Hg & Hv). rewrite Hl in H0. rewrite Hg, Z.eqb_refl in H0. simplify_eq.
  wp_step. wp_step. clear H0.
  assert (loaded (tabs s) a (tag_guild_id tag) id tag) as Htag by done.
  destruct (others =? 0) eqn:Eo.
  - wp_step. st_simpl. split; [|done]. exists d, tag. split_and!; try done. fold others. by rewrite Eo.
  - unfold deleted_tag_diff, auditDiff_context. apply wp_Tags_writeAudit. intros fs4 aid gn cl Haid. st_simpl.
    split; [|done]. exists d, tag. split_and!; try done. fold others. rewrite Eo. by exists aid.
Qed.

Lemma wp_ApplyTag_tx a now input s :
  wf (tabs s) ->
  wp (ApplyTag_tx a now input) (fun _ s' => ApplyTag_effect a now input (tabs s) (tabs s') /\ hooks s' = hooks s) s.
Proof.
  intros Hwf. unfold ApplyTag_tx. wp_step. apply wp_authorizeChannel; [done|].
  intros fs ch g d Hch Hg Hd. wp_step. apply wp_loadMessageInChannel. intros fs1 m Hm Ec. st_simpl.
  wp_step. apply wp_loadInGuild. intros fs2 tag Htag. st_simpl. wp_step. wp_step.
  assert (tag_is_shared tag = true -> Decision_Allows d PermSendMessages = true) as Hsend.
  { intros Hs. rewrite Hs in H. by apply negb_false_iff in H. }
  assert (acts_on (tabs s) a (ai_ChannelID input) (ai_MessageID input) g d) as Hacts by (by exists ch, m).
  wp_step. apply wp_attempt. intros n_or s1 Hr. unfold Queries_ApplyMessageTag, writing in Hr.
  match type of Hr with context [next_fault ?s0] => destruct (next_fault s0) as [b s2] eqn:Ef end.
  apply next_fault_with in Ef as [fs3 ->]. destruct b; [by simplify_eq|]. st_simpl.
  set (p := mkApplyMessageTagParams _ _ _ _) in *.
  assert (applicable p (tabs s) = true) as Happ.
  { destruct Htag as (Ht & Hg' & _). unfold applicable, p. cbn. rewrite Ht, Hm, Hch.
    rewrite Ec, Z.eqb_refl. apply bool_decide_eq_true. congruence. }
  rewrite Happ in Hr. cbn [negb amt_TagID amt_MessageID amt_AppliedBy p fk_holds] in Hr.
  destruct (c_applied (t_chat (tabs s)) !! (ai_TagID input, ai_MessageID input)) as [app|] eqn:Ek.
  - simplify_eq. wp_step. apply wp_lift. intros n [= <-]. cbn [Z.eqb]. wp_step. wp_step. wp_step. cbn beta.
    wp_step. st_simpl. split; [|done]. exists g, d, tag. cbn zeta. split_and!; try done. left.
    split; [by rewrite Ek|done].
  - destruct (bool_decide _) eqn:Eu; [|by simplify_eq]. bool_hyps. simplify_eq.
    wp_step. apply wp_lift. intros n [= <-]. cbn [Z.eqb]. wp_step. st_simpl.
    split; [|done]. exists g, d, tag. cbn zeta. split_and!; try done. by right.
Qed.

Lemma wp_UnapplyTag_tx a input s :
  wf (tabs s) ->
  wp (UnapplyTag_tx a input) (fun _ s' => UnapplyTag_effect a input (tabs s) (tabs s') /\ hooks s' = hooks s) s.
Proof.
  intros Hwf. unfold UnapplyTag_tx. wp_step. apply wp_authorizeChannel; [done|].
  intros fs ch g d Hch Hg Hd. wp_step. apply wp_loadMessageInChannel. intros fs1 m Hm Ec. st_simpl.
  wp_step. apply wp_loadInGuild. intros fs2 tag Htag. st_simpl. wp_step. wp_step. wp_step. cbn beta. st_simpl.
  rename a0 into app. rename H into Happ. wp_step. wp_step. apply andb_false_iff in H.
  assert (acts_on (tabs s) a (ai_ChannelID input) (ai_MessageID input) g d) as Hacts by (by exists ch, m).
  wp_step. unfold Queries_UnapplyMessageTag. wp_step. st_simpl. rewrite Happ in *. simplify_eq. wp_step. wp_step.
  assert (ta_applied_by app = a \/ Decision_Allows d PermManageMessages = true) as Hmay.
  { destruct H as [H|H]; [left|right]; apply negb_false_iff in H; [by apply Z.eqb_eq in H|done]. }
  destruct (ta_applied_by app =? a) eqn:Ea.
  - wp_step. st_simpl. split; [|done]. exists g, d, tag, app. cbn zeta. split_and!; try done. by rewrite Ea.
  - unfold removed_tag_diff, auditDiff_context. apply wp_Tags_writeAudit. intros fs4 aid gn cl Haid. st_simpl.
    split; [|done]. exists g, d, tag, app. cbn zeta. split_and!; try done. rewrite Ea. by exists aid.
Qed.

Lemma quiet_Tags_writeAudit g a action target d : quiet (Tags_writeAudit g a action target d).
Proof. unfold Tags_writeAudit. quiet_steps. Qed.
#[export] Hint Resolve quiet_Tags_writeAudit : norite.
Lemma quiet_CreateTag_tx `{Collation} a now id input : quiet (CreateTag_tx a now id input).
Proof. unfold CreateTag_tx, Service_checkCeiling. quiet_steps. Qed.
Lemma quiet_DeleteTag_tx a g id : quiet (DeleteTag_tx a g id).
Proof. unfold DeleteTag_tx, Service_loadInGuild. quiet_steps. Qed.
Lemma quiet_ApplyTag_tx a now input : quiet (ApplyTag_tx a now input).
Proof. unfold ApplyTag_tx, AuthorizeChannelUnlocked, Service_loadInGuild, loadMessageInChannel. quiet_steps. Qed.
Lemma quiet_UnapplyTag_tx a input : quiet (UnapplyTag_tx a input).
Proof. unfold UnapplyTag_tx, AuthorizeChannelUnlocked, Service_loadInGuild, loadMessageInChannel. quiet_steps. Qed.
#[export] Hint Resolve quiet_CreateTag_tx quiet_DeleteTag_tx quiet_ApplyTag_tx quiet_UnapplyTag_tx : norite.
