(* ===== verification/ReportSvc.v ===== *)
(** backend/internal/reports and backend/internal/db/reports.sql.go: reporting a message to the
    moderators of its guild, and their triage: open, then resolved or dismissed. *)
From S2P Require Import Prelude GoStd Permissions Snowflake Rows TxMonad Queries.
From S2P Require Import Resolve StoreInv Authority ResolveMany GuildAuth GuildCommon Utf8.
From S2P Require Import MessageSvc.

(** ** Vocabularies (model.go) *)

Definition TargetMessage : Z := 0.
Definition TargetWhisper : Z := 1.
Definition TargetChannel : Z := 2.
Definition TargetUser : Z := 3.

Definition RoutedToGuildModerators : Z := 0.

Definition StatusOpen : Z := 0.
Definition StatusUnderReview : Z := 1.
Definition StatusResolved : Z := 2.
Definition StatusDismissed : Z := 3.

Definition reasonCategories : list string :=
  ["spam"; "harassment"; "hate_speech"; "violence"; "nsfw"; "self_harm"; "illegal"; "other"]%string.

Definition knownReasonCategory (c : string) : bool := bool_decide (c ∈ reasonCategories).

Definition MaxDetailLength : Z := 2000.

Definition targetTypeName (t : Z) : option string :=
  if t =? TargetMessage then Some "message"%string
  else if t =? TargetWhisper then Some "whisper"%string
  else if t =? TargetChannel then Some "channel"%string
  else if t =? TargetUser then Some "user"%string
  else None.

Definition targetTypeValue (name : string) : option Z :=
  if (name =? "message")%string then Some TargetMessage
  else if (name =? "whisper")%string then Some TargetWhisper
  else if (name =? "channel")%string then Some TargetChannel
  else if (name =? "user")%string then Some TargetUser
  else None.

Definition statusName (s : Z) : option string :=
  if s =? StatusOpen then Some "open"%string
  else if s =? StatusUnderReview then Some "under_review"%string
  else if s =? StatusResolved then Some "resolved"%string
  else if s =? StatusDismissed then Some "dismissed"%string
  else None.

Definition statusValue (name : string) : option Z :=
  if (name =? "open")%string then Some StatusOpen
  else if (name =? "under_review")%string then Some StatusUnderReview
  else if (name =? "resolved")%string then Some StatusResolved
  else if (name =? "dismissed")%string then Some StatusDismissed
  else None.

(** The reporter is on none of them. *)
Record Report := mkReport {
  Report_ID : Z; Report_GuildID : option Z; Report_TargetType : string; Report_TargetID : Z;
  Report_ReasonCategory : string; Report_Detail : option string; Report_Status : string;
  Report_ResolvedBy : option Z; Report_CreatedAt : Z; Report_ResolvedAt : option Z
}.

Record TriageEntry := mkTriageEntry {
  TE_Report : Report; TE_TargetIsE2E : option bool; TE_TargetDeletedAt : option Z
}.

Record TriageDetail := mkTriageDetail {
  TD_Entry : TriageEntry; TD_TargetContent : option string; TD_TargetChannelID : option Z;
  TD_TargetAuthorID : option Z
}.

Definition reportFromRow (row : dbReport) : Err + Report :=
  match targetTypeName (rep_target_type row) with
  | None => inl EUnknownValue
  | Some target =>
      match statusName (rep_status row) with
      | None => inl EUnknownValue
      | Some status => inr (mkReport (rep_id row) (rep_guild_id row) target (rep_target_id row)
          (rep_reason_category row) (rep_detail row) status (rep_resolved_by row) (rep_created_at row)
          (rep_resolved_at row))
      end
  end.

(** ** Statements (reports.sql.go) *)

(** A deleted message is found too. *)
Definition Queries_GetMessageForReport (id : Z) : M dbMessage := reading (fun t => found (messages_of t !! id)).

Record CreateReportParams := mkCreateReportParams {
  crp_ID : Z; crp_ReporterID : Z; crp_TargetType : Z; crp_TargetID : Z; crp_ReasonCategory : string;
  crp_RoutedTo : Z; crp_GuildID : option Z; crp_Detail : option string
}.

Definition new_report (now : Z) (p : CreateReportParams) : dbReport :=
  mkDbReport (crp_ID p) (crp_ReporterID p) (crp_TargetType p) (crp_TargetID p) (crp_GuildID p)
    (crp_ReasonCategory p) (crp_Detail p) StatusOpen (crp_RoutedTo p) None now None.

(** The partial unique index: one open report to a reporter and target. *)
Definition same_open (r other : dbReport) : bool :=
  bool_decide (rep_reporter_id r = rep_reporter_id other /\ rep_target_type r = rep_target_type other /\
               rep_target_id r = rep_target_id other /\ rep_status other = StatusOpen).

(** [EUnique] is that index, the constraint the caller tells apart. *)
Definition Queries_CreateReport (now : Z) (p : CreateReportParams) : M dbReport :=
  writing (fun t =>
    let r := new_report now p in
    let x := t_chat t in
    if negb (from_option pg_text true (crp_Detail p)) then inl EDb
    else if bool_decide (is_Some (c_reports x !! crp_ID p)) then inl EDb
    else if existsb (same_open r) (rows_of_map (c_reports x)) then inl EUnique
    else if fk_holds (t_users t) (Some (crp_ReporterID p)) && fk_holds (t_guilds t) (crp_GuildID p)
    then inr (r, on_chat (fun x => set_reports (<[crp_ID p := r]> (c_reports x)) x) t)
    else inl EForeignKey).

(** A report with the message it is about, if that is still there: LEFT JOIN. *)
Record reportRow := mkReportRow { rr_Report : dbReport; rr_target : option dbMessage }.

Definition with_target (t : Tables) (r : dbReport) : reportRow :=
  mkReportRow r (if rep_target_type r =? TargetMessage then messages_of t !! rep_target_id r else None).

Definition rr_TargetIsE2e (row : reportRow) : option bool := msg_is_e2e <$> rr_target row.
Definition rr_TargetDeletedAt (row : reportRow) : option Z := m ← rr_target row; msg_deleted_at m.
Definition rr_TargetChannelID (row : reportRow) : option Z := msg_channel_id <$> rr_target row.
Definition rr_TargetAuthorID (row : reportRow) : option Z := m ← rr_target row; msg_author_id m.

(** mv.content, joined in unless the message is encrypted *)
Definition rr_TargetContent (row : reportRow) : option string :=
  m ← rr_target row; if msg_is_e2e m then None else Some (msg_content m).

Definition Queries_GetGuildReport (id g : Z) : M reportRow :=
  reading (fun t => found (
    r ← c_reports (t_chat t) !! id;
    if bool_decide (rep_guild_id r = Some g) then Some (with_target t r) else None)).

Definition guild_reports (t : Tables) (g : Z) (status before : option Z) : list dbReport :=
  merge_sort (newer_first rep_id)
    (filter (fun r => rep_guild_id r = Some g /\ below before (rep_id r) = true /\
                      match status with None => true | Some s => rep_status r =? s end = true)
       (rows_of_map (c_reports (t_chat t)))).

Definition Queries_ListGuildReports (g limit : Z) (before : option Z) : M (list reportRow) :=
  reading (fun t => inr (with_target t <$> take (Z.to_nat limit) (guild_reports t g None before))).

Definition Queries_ListGuildReportsByStatus (g status limit : Z) (before : option Z) : M (list reportRow) :=
  reading (fun t => inr (with_target t <$> take (Z.to_nat limit) (guild_reports t g (Some status) before))).

(** SET status = $3, resolved_at = now(), resolved_by = $4 *)
Definition closed (now status by_ : Z) (r : dbReport) : dbReport :=
  mkDbReport (rep_id r) (rep_reporter_id r) (rep_target_type r) (rep_target_id r) (rep_guild_id r)
    (rep_reason_category r) (rep_detail r) status (rep_routed_to r) (Some by_) (rep_created_at r) (Some now).

Definition Queries_ResolveReport (now id g status by_ : Z) : M dbReport :=
  writing (fun t =>
    match c_reports (t_chat t) !! id with
    | None => inl ENoRows
    | Some r =>
        if negb (bool_decide (rep_guild_id r = Some g)) || negb (rep_status r =? StatusOpen) then inl ENoRows
        else if fk_holds (t_users t) (Some by_)
        then inr (closed now status by_ r,
                  on_chat (fun x => set_reports (<[id := closed now status by_ r]> (c_reports x)) x) t)
        else inl EForeignKey
    end).

(** ** Filing (service.go) *)

Record FileInput := mkFileInput {
  fi_TargetType : string; fi_TargetID : Z; fi_ReasonCategory : string; fi_Detail : option string
}.

Definition File_tx (actor now id : Z) (input : FileInput) (targetType : Z) : M Report :=
  message ← no_rows_as ENotFound (Queries_GetMessageForReport (fi_TargetID input));
  ch ← AuthorizeChannelUnlocked actor (msg_channel_id message) 0;
  let '(_, guildID, _) := ch in
  row_or ← attempt (Queries_CreateReport now (mkCreateReportParams id actor targetType (fi_TargetID input)
                      (fi_ReasonCategory input) RoutedToGuildModerators (Some guildID) (fi_Detail input)));
  row ← lift (match row_or with inl EUnique => inl EConflict | r => r end);
  lift (reportFromRow row).

Definition Service_File (actor now : Z) (input : FileInput) : M Report :=
  match targetTypeValue (fi_TargetType input) with
  | None => throw EBadRequest
  | Some targetType =>
      refuse_if (negb (targetType =? TargetMessage)) EBadRequest;;
      refuse_if (negb (knownReasonCategory (fi_ReasonCategory input))) EBadRequest;;
      refuse_if (match fi_Detail input with Some d => MaxDetailLength <? RuneCountInString d | None => false end)
        EBadRequest;;
      id ← ids_Next;
      RunInTx (File_tx actor now id input targetType)
  end.

(** ** Triage *)

Definition triageEntry (row : reportRow) : Err + TriageEntry :=
  match reportFromRow (rr_Report row) with
  | inl e => inl e
  | inr base => inr (mkTriageEntry base (rr_TargetIsE2e row) (rr_TargetDeletedAt row))
  end.

(** The loop over the rows, which returns the first error. *)
Fixpoint triageEntries (rows : list reportRow) : Err + list TriageEntry :=
  match rows with
  | [] => inr []
  | row :: rows =>
      match triageEntry row, triageEntries rows with
      | inl e, _ | _, inl e => inl e
      | inr entry, inr rest => inr (entry :: rest)
      end
  end.

Record ListReportsInput := mkListReportsInput { lri_Status : string; lri_Before : option Z; lri_Limit : Z }.

Definition Service_ListReports (actor guildID : Z) (input : ListReportsInput) : M (list TriageEntry) :=
  status ← (if (lri_Status input =? "")%string then mret None
            else match statusValue (lri_Status input) with
                 | None => throw EBadRequest
                 | Some v => mret (Some v)
                 end);
  Authorize actor guildID 0 PermManageMessages;;
  rows ← match status with
         | None => Queries_ListGuildReports guildID (page_size (lri_Limit input)) (lri_Before input)
         | Some v => Queries_ListGuildReportsByStatus guildID v (page_size (lri_Limit input)) (lri_Before input)
         end;
  lift (triageEntries rows).

Definition Service_GetReport (actor guildID reportID : Z) : M TriageDetail :=
  Authorize actor guildID 0 PermManageMessages;;
  row ← no_rows_as ENotFound (Queries_GetGuildReport reportID guildID);
  entry ← lift (triageEntry row);
  mret (mkTriageDetail entry (rr_TargetContent row) (rr_TargetChannelID row) (rr_TargetAuthorID row)).

Definition Service_explainFailedResolve (guildID reportID : Z) : M Report :=
  row ← no_rows_as ENotFound (Queries_GetGuildReport reportID guildID);
  if negb (rep_status (rr_Report row) =? StatusOpen) then throw EConflict else throw EInconsistent.

Definition resolution_diff (row : dbReport) (targetType newStatus : string) : auditDiff :=
  auditDiff_context "target_id" (AVInt (rep_target_id row))
    (auditDiff_context "target_type" (AVString targetType)
      (<["status" := FromTo (AVString "open") (AVString newStatus)]> ∅)).

Definition resolution_action (row : dbReport) : string :=
  if rep_status row =? StatusDismissed then "report.dismiss" else "report.resolve".

Definition Service_writeResolutionAudit (guildID actorID : Z) (row : dbReport) : M unit :=
  auditID ← ids_Next;
  targetType ← lift (from_option inr (inl EUnknownValue) (targetTypeName (rep_target_type row)));
  newStatus ← lift (from_option inr (inl EUnknownValue) (statusName (rep_status row)));
  Queries_WriteAuditLogEntry auditID
    (mkAuditRow (Some guildID) actorID (resolution_action row) (Some (rep_id row))
       (Some (resolution_diff row targetType newStatus))).

Definition ResolveReport_tx (actor now guildID reportID status : Z) : M Report :=
  Authorize actor guildID 0 PermManageMessages;;
  row_or ← attempt (Queries_ResolveReport now reportID guildID status actor);
  match row_or with
  | inl ENoRows => Service_explainFailedResolve guildID reportID
  | inl e => throw e
  | inr row =>
      Service_writeResolutionAudit guildID actor row;;
      lift (reportFromRow row)
  end.

Definition Service_ResolveReport (actor now guildID reportID : Z) (outcome : string) : M Report :=
  match statusValue outcome with
  | None => throw EBadRequest
  | Some status =>
      refuse_if (negb (status =? StatusResolved) && negb (status =? StatusDismissed)) EBadRequest;;
      RunInTx (ResolveReport_tx actor now guildID reportID status)
  end.

(** ** What each operation did, if it returned *)

Definition File_effect (a now id : Z) (input : FileInput) (targetType : Z) (t : Tables) (out : Report)
    (t' : Tables) : Prop :=
  exists m ch g d,
    let r := new_report now (mkCreateReportParams id a targetType (fi_TargetID input)
               (fi_ReasonCategory input) RoutedToGuildModerators (Some g) (fi_Detail input)) in
    messages_of t !! fi_TargetID input = Some m /\
    t_channels t !! msg_channel_id m = Some ch /\ channel_guild_id ch = Some g /\
    granted t a g (msg_channel_id m) (0 ∪ₚ PermViewChannel) d /\
    c_reports (t_chat t) !! id = None /\ existsb (same_open r) (rows_of_map (c_reports (t_chat t))) = false /\
    is_Some (t_users t !! a) /\ is_Some (t_guilds t !! g) /\
    t' = on_chat (fun x => set_reports (<[id := r]> (c_reports x)) x) t /\ reportFromRow r = inr out.

Definition ResolveReport_effect (a now g id status : Z) (t : Tables) (out : Report) (t' : Tables) : Prop :=
  exists d r aid targetType newStatus, let r' := closed now status a r in
    granted t a g 0 PermManageMessages d /\
    c_reports (t_chat t) !! id = Some r /\ rep_guild_id r = Some g /\ rep_status r = StatusOpen /\
    is_Some (t_users t !! a) /\ t_audit t !! aid = None /\
    targetTypeName (rep_target_type r) = Some targetType /\ statusName status = Some newStatus /\
    t' = audited aid (entry g a (resolution_action r') (Some (rep_id r))
                        (Some (resolution_diff r' targetType newStatus)))
           (on_chat (fun x => set_reports (<[id := r']> (c_reports x)) x) t) /\
    reportFromRow r' = inr out.

(** ** Rules *)

Lemma wp_File_tx a now id input targetType s :
  wf (tabs s) ->
  wp (File_tx a now id input targetType)
    (fun out s' => File_effect a now id input targetType (tabs s) out (tabs s') /\ hooks s' = hooks s) s.
Proof.
  intros Hwf. unfold File_tx. wp_step. wp_step. wp_step. cbn beta. st_simpl. rename a0 into m. rename H into Hm.
  wp_step. apply wp_authorizeChannel; [done|]. intros fs1 ch g d Hch Hg Hd. wp_step. apply wp_attempt.
  intros row_or s1 Hr. unfold Queries_CreateReport, writing in Hr.
  match type of Hr with context [next_fault ?s0] => destruct (next_fault s0) as [b s2] eqn:Ef end.
  apply next_fault_with in Ef as [fs2 ->]. destruct b; [by simplify_eq|]. st_simpl.
  cbn [crp_ID crp_ReporterID crp_GuildID crp_Detail fk_holds] in Hr.
  destruct (from_option _ _ _); cbn [negb] in Hr; [|by simplify_eq].
  destruct (bool_decide (is_Some (c_reports _ !! _))) eqn:Eid; [by simplify_eq|].
  destruct (existsb _ _) eqn:Ed; [by simplify_eq|].
  destruct (_ && _) eqn:Ek in Hr; [|by simplify_eq]. apply andb_true_iff in Ek as [Eu Eg]. bool_hyps.
  apply eq_None_not_Some in Eid. simplify_eq. wp_step. apply wp_lift. intros row [= <-].
  apply wp_lift. intros out Hout. st_simpl. split; [|done]. exists m, ch, g, d. cbn zeta. by split_and!.
Qed.

Lemma wp_ResolveReport_tx a now g id status s :
  wf (tabs s) ->
  wp (ResolveReport_tx a now g id status)
    (fun out s' => ResolveReport_effect a now g id status (tabs s) out (tabs s') /\ hooks s' = hooks s) s.
Proof.
  intros Hwf. unfold ResolveReport_tx. wp_step. apply wp_Authorize; [done|]. intros fs d Hd.
  wp_step. apply wp_attempt. intros row_or s1 Hr. unfold Queries_ResolveReport, writing in Hr.
  match type of Hr with context [next_fault ?s0] => destruct (next_fault s0) as [b s2] eqn:Ef end.
  apply next_fault_with in Ef as [fs2 ->]. destruct b; [by simplify_eq|]. st_simpl.
  assert (forall s0, wp (Service_explainFailedResolve g id)
    (fun out s' => ResolveReport_effect a now g id status (tabs s) out (tabs s') /\ hooks s' = hooks s) s0) as Hex.
  { intros s0. unfold Service_explainFailedResolve. wp_step. wp_step. wp_step. cbn beta. by destruct (negb _). }
  destruct (c_reports (t_chat (tabs s)) !! id) as [r|] eqn:Er; [|simplify_eq; apply Hex].
  destruct (_ || _) eqn:Eg in Hr; [simplify_eq; apply Hex|]. apply orb_false_iff in Eg as [Eg Eo]. bool_hyps.
  destruct (fk_holds _ _) eqn:Eu; [|by simplify_eq]. cbn [fk_holds] in Eu. bool_hyps. simplify_eq.
  wp_step. unfold Service_writeResolutionAudit. wp_step. wp_step. wp_step. apply wp_lift. intros ty Hty.
  wp_step. apply wp_lift. intros st Hst. unfold Queries_WriteAuditLogEntry. wp_step. st_simpl.
  destruct (targetTypeName _) as [ty'|] eqn:Et; [|done]. destruct (statusName _) as [st'|] eqn:Es; [|done].
  cbn in Hty, Hst. simplify_eq.
  change (t_audit (on_chat _ ?t)) with (t_audit t) in *.
  destruct (t_audit (tabs s) !! id0) eqn:Ea; [done|]. destruct (_ && _) in H; [|done]. simplify_eq.
  apply wp_lift. intros out Hout. st_simpl. split; [|done]. exists d, r, id0, ty, st. cbn zeta. by split_and!.
Qed.

Lemma quiet_File_tx a now id input ty : quiet (File_tx a now id input ty).
Proof. unfold File_tx, AuthorizeChannelUnlocked. quiet_steps. Qed.
Lemma quiet_ResolveReport_tx a now g id status : quiet (ResolveReport_tx a now g id status).
Proof. unfold ResolveReport_tx, Service_explainFailedResolve, Service_writeResolutionAudit. quiet_steps. Qed.
#[export] Hint Resolve quiet_File_tx quiet_ResolveReport_tx : norite.
