(* ===== verification/ChatInv.v ===== *)
(** The invariant of conversations: what the schema enforces of messages, tags and reports and what
    their services add to it, and that no request of the guild service breaks it. *)
From S2P Require Import Prelude GoStd Permissions Snowflake Rows TxMonad Queries.
From S2P Require Import Resolve StoreInv Authority ResolveMany GuildAuth GuildCommon RoleSvc.
From S2P Require Import OverwriteSvc MemberSvc GuildSvc ChannelSvc Preserve GuildService Layers.
From S2P Require Import Escalation Limits Utf8 MessageSvc TagSvc ReportSvc.

(** ** The invariant *)

(** A message is text of an account, in a text channel of a guild, and replies within its channel; the
    versions kept are of a message, and a recording's guild exists. *)
Record messages_ok (t : Tables) : Prop := {
  mo_key : messages_keyed t;
  mo_channel : forall id m, messages_of t !! id = Some m -> exists ch g,
    t_channels t !! msg_channel_id m = Some ch /\ channel_guild_id ch = Some g /\
    channel_type ch = ChannelGuildText;
  mo_author : forall id m, messages_of t !! id = Some m -> exists a,
    msg_author_id m = Some a /\ is_Some (t_users t !! a);
  mo_content : forall id m, messages_of t !! id = Some m ->
    checkContent (msg_content m) = inr tt /\ pg_text (msg_content m) = true;
  mo_reply : forall id m r, messages_of t !! id = Some m -> msg_reply_to_id m = Some r -> exists m',
    messages_of t !! r = Some m' /\ msg_channel_id m' = msg_channel_id m;
  mo_history : forall hid h, c_history (t_chat t) !! hid = Some h ->
    eh_id h = hid /\ is_Some (messages_of t !! eh_message_id h);
  mo_recorded : forall rid r, c_recorded (t_chat t) !! rid = Some r ->
    ma_id r = rid /\ is_Some (t_guilds t !! ma_guild_id r)
}.

(** A tag is on messages of its own guild only, and a private one was put there by its owner; names
    are unique and the numbers of tags bounded. *)
Record tags_ok `{Collation} (t : Tables) : Prop := {
  to_key : forall id tag, c_tags (t_chat t) !! id = Some tag ->
    tag_id tag = id /\ is_Some (t_guilds t !! tag_guild_id tag);
  to_names : forall id1 id2 tag1 tag2, c_tags (t_chat t) !! id1 = Some tag1 ->
    c_tags (t_chat t) !! id2 = Some tag2 -> same_name tag1 tag2 = true -> id1 = id2;
  to_applied : forall tid mid app, c_applied (t_chat t) !! (tid, mid) = Some app ->
    ta_tag_id app = tid /\ ta_message_id app = mid /\ exists tag m ch,
      c_tags (t_chat t) !! tid = Some tag /\ messages_of t !! mid = Some m /\
      t_channels t !! msg_channel_id m = Some ch /\ channel_guild_id ch = Some (tag_guild_id tag) /\
      (tag_is_shared tag = false -> ta_applied_by app = tag_created_by tag);
  to_shared : forall g, count (shared_tags (t_chat t) g) <= MaxSharedTagsPerGuild;
  to_private : forall g u, count (private_tags (t_chat t) g u) <= MaxPrivateTagsPerMember
}.

(** A report is open, or closed by somebody at some time; an account has one open report to a target. *)
Record reports_ok (t : Tables) : Prop := {
  ro_key : forall id r, c_reports (t_chat t) !! id = Some r ->
    rep_id r = id /\ exists g, rep_guild_id r = Some g /\ is_Some (t_guilds t !! g);
  ro_target : forall id r, c_reports (t_chat t) !! id = Some r -> rep_target_type r = TargetMessage;
  ro_state : forall id r, c_reports (t_chat t) !! id = Some r ->
    (rep_status r = StatusOpen /\ rep_resolved_by r = None /\ rep_resolved_at r = None) \/
    ((rep_status r = StatusResolved \/ rep_status r = StatusDismissed) /\
     is_Some (rep_resolved_by r) /\ is_Some (rep_resolved_at r));
  ro_once : forall id1 id2 r1 r2, c_reports (t_chat t) !! id1 = Some r1 ->
    c_reports (t_chat t) !! id2 = Some r2 -> rep_status r1 = StatusOpen -> same_open r1 r2 = true -> id1 = id2
}.

Record chat_ok `{Collation} (t : Tables) : Prop := {
  co_messages : messages_ok t; co_tags : tags_ok t; co_reports : reports_ok t
}.

(** ** Cascades *)

Lemma message_in_true chs x id :
  message_in chs x id = true <-> exists m, c_messages x !! id = Some m /\ chs (msg_channel_id m) = true.
Proof. unfold message_in. destruct (c_messages x !! id) as [m|]; naive_solver. Qed.

Lemma forget_reply_same gone m :
  let m' := forget_reply gone m in
  msg_id m' = msg_id m /\ msg_channel_id m' = msg_channel_id m /\ msg_author_id m' = msg_author_id m /\
  msg_content m' = msg_content m /\ msg_is_e2e m' = msg_is_e2e m /\ msg_deleted_at m' = msg_deleted_at m /\
  forall r, msg_reply_to_id m' = Some r -> msg_reply_to_id m = Some r /\ gone r = false.
Proof.
  unfold forget_reply. destruct (msg_reply_to_id m) as [r|] eqn:E; [destruct (gone r) eqn:Eg|];
    cbn; split_and!; try done; intros r'; rewrite ?E; naive_solver.
Qed.

Lemma lookup_without_channels chs x id m' :
  c_messages (chat_without_channels chs x) !! id = Some m' <->
  exists m, c_messages x !! id = Some m /\ chs (msg_channel_id m) = false /\
    m' = forget_reply (message_in chs x) m.
Proof.
  cbn. rewrite lookup_fmap, fmap_Some. split.
  - intros (m & [Hm Hc]%map_lookup_filter_Some & ->). by exists m.
  - intros (m & Hm & Hc & ->). exists m. split; [|done]. by apply map_lookup_filter_Some.
Qed.

Lemma chat_without_nothing x : chat_without_channels (fun _ => false) x = x.
Proof.
  assert (forall id, message_in (fun _ => false) x id = false) as Hin.
  { intros id. unfold message_in. by destruct (_ !! _). }
  unfold chat_without_channels. destruct x as [ms hs rs ts apps reps last]. cbn in *. f_equal.
  - apply map_eq. intros id. rewrite lookup_fmap, map_filter_id by done.
    destruct (ms !! id) as [m|]; [|done]. cbn. f_equal. unfold forget_reply.
    destruct (msg_reply_to_id m); [by rewrite Hin|done].
  - apply map_filter_id. intros. apply Hin.
  - apply map_filter_id. intros. apply Hin.
  - by apply map_filter_id.
Qed.

(** What a guild request leaves of the conversations: channels may go, with or without their guild. *)
Record leaves (gone : Z -> bool) (og : option Z) (t t' : Tables) : Prop := {
  lv_chat : t_chat t' = match og with
                        | None => chat_without_channels gone (t_chat t)
                        | Some g => chat_without_guild g gone (t_chat t)
                        end;
  lv_channels : forall c ch, t_channels t !! c = Some ch -> gone c = false -> exists ch',
    t_channels t' !! c = Some ch' /\ channel_guild_id ch' = channel_guild_id ch /\
    channel_type ch' = channel_type ch;
  lv_guilds : forall g, is_Some (t_guilds t !! g) -> og <> Some g -> is_Some (t_guilds t' !! g);
  lv_guild : forall g, og = Some g -> forall c, gone c = channel_in_guild t c g;
  lv_gone : forall c, gone c = true -> t_channels t' !! c = None;
  lv_gone_guild : forall g, og = Some g -> t_guilds t' !! g = None;
  lv_users : t_users t' = t_users t
}.

(** The rows of a map that satisfy a condition, counted. *)
Lemma count_rows {A} (P : A -> Prop) `{forall x, Decision (P x)} (m : gmap Z A) :
  count (filter P (rows_of_map m)) = matching (fun kv => P kv.2) m.
Proof. rewrite <- matching_list. unfold count, rows_of_map. by rewrite length_filter_fmap. Qed.

Lemma count_tags_le (P : dbMessageTag -> Prop) `{forall x, Decision (P x)} (m m' : gmap Z dbMessageTag) :
  (forall id tag, m' !! id = Some tag -> m !! id = Some tag) ->
  count (filter P (rows_of_map m')) <= count (filter P (rows_of_map m)).
Proof. intros Hm. rewrite !count_rows. apply matching_subseteq. apply map_subseteq_spec. exact Hm. Qed.

Section leaves.
Context `{Collation} (gone : Z -> bool) (og : option Z) (t t' : Tables) (L : leaves gone og t t').

Lemma leaves_message id m' :
  messages_of t' !! id = Some m' <->
  exists m, messages_of t !! id = Some m /\ gone (msg_channel_id m) = false /\
    m' = forget_reply (message_in gone (t_chat t)) m.
Proof.
  unfold messages_of at 1. rewrite (lv_chat _ _ _ _ L). destruct og; apply lookup_without_channels.
Qed.

Lemma leaves_message_kept id m :
  messages_of t !! id = Some m -> message_in gone (t_chat t) id = false -> is_Some (messages_of t' !! id).
Proof.
  intros Hm Hin. eexists. apply leaves_message. exists m. split_and!; [done| |done].
  destruct (gone _) eqn:E; [|done]. unfold message_in in Hin.
  change (c_messages (t_chat t) !! id = Some m) in Hm. by rewrite Hm, E in Hin.
Qed.

Lemma leaves_history : c_history (t_chat t') =
  filter (fun kv => message_in gone (t_chat t) (eh_message_id kv.2) = false) (c_history (t_chat t)).
Proof. rewrite (lv_chat _ _ _ _ L). by destruct og. Qed.

Lemma leaves_recorded rid r : c_recorded (t_chat t') !! rid = Some r ->
  c_recorded (t_chat t) !! rid = Some r /\ og <> Some (ma_guild_id r).
Proof.
  rewrite (lv_chat _ _ _ _ L). destruct og as [g|]; cbn; [|done].
  intros [Hr Hg]%map_lookup_filter_Some. split; [done|]. cbn in Hg. congruence.
Qed.

Lemma leaves_tags id tag : c_tags (t_chat t') !! id = Some tag <->
  c_tags (t_chat t) !! id = Some tag /\ og <> Some (tag_guild_id tag).
Proof.
  rewrite (lv_chat _ _ _ _ L). destruct og as [g|]; cbn; [|naive_solver].
  rewrite map_lookup_filter_Some. cbn. naive_solver.
Qed.

Lemma leaves_applied tid mid app : c_applied (t_chat t') !! (tid, mid) = Some app ->
  c_applied (t_chat t) !! (tid, mid) = Some app /\ message_in gone (t_chat t) mid = false /\
  forall g, og = Some g -> tag_in g (t_chat t) tid = false.
Proof.
  rewrite (lv_chat _ _ _ _ L). destruct og as [g|]; cbn.
  - intros [[Ha Hm]%map_lookup_filter_Some Ht]%map_lookup_filter_Some. cbn in *. naive_solver.
  - intros [Ha Hm]%map_lookup_filter_Some. naive_solver.
Qed.

Lemma leaves_reports id r : c_reports (t_chat t') !! id = Some r ->
  c_reports (t_chat t) !! id = Some r /\ forall g, rep_guild_id r = Some g -> og <> Some g.
Proof.
  rewrite (lv_chat _ _ _ _ L). destruct og as [g|]; cbn; [|done].
  intros [Hr Hg]%map_lookup_filter_Some. split; [done|]. cbn in Hg. congruence.
Qed.

Lemma leaves_messages_ok : messages_ok t -> messages_ok t'.
Proof.
  intros []. split.
  - intros id m' (m & Hm & _ & ->)%leaves_message. destruct (forget_reply_same (message_in gone (t_chat t)) m) as [-> _].
    by apply mo_key0.
  - intros id m' (m & Hm & Hc & ->)%leaves_message.
    destruct (forget_reply_same (message_in gone (t_chat t)) m) as (_ & -> & _).
    destruct (mo_channel0 _ _ Hm) as (ch & g & Hch & Hg & Hty).
    destruct (lv_channels _ _ _ _ L _ _ Hch Hc) as (ch' & Hch' & Eg & Et). exists ch', g. split_and!; congruence.
  - intros id m' (m & Hm & _ & ->)%leaves_message. rewrite (lv_users _ _ _ _ L).
    destruct (forget_reply_same (message_in gone (t_chat t)) m) as (_ & _ & -> & _). eauto.
  - intros id m' (m & Hm & _ & ->)%leaves_message.
    destruct (forget_reply_same (message_in gone (t_chat t)) m) as (_ & _ & _ & -> & _). eauto.
  - intros id m' r (m & Hm & Hc & ->)%leaves_message Hr.
    destruct (forget_reply_same (message_in gone (t_chat t)) m) as (_ & -> & _ & _ & _ & _ & Hre).
    destruct (Hre r Hr) as [Hr' Hkeep]. destruct (mo_reply0 _ _ _ Hm Hr') as (mr & Hmr & Ec).
    exists (forget_reply (message_in gone (t_chat t)) mr). split.
    + apply leaves_message. exists mr. split_and!; congruence.
    + by destruct (forget_reply_same (message_in gone (t_chat t)) mr) as (_ & -> & _).
  - intros hid h. rewrite leaves_history. intros [Hh Hk]%map_lookup_filter_Some. cbn in Hk.
    destruct (mo_history0 _ _ Hh) as [? [m Hm]]. split; [done|]. by eapply leaves_message_kept.
  - intros rid r [Hr Hg]%leaves_recorded. destruct (mo_recorded0 _ _ Hr) as [? ?]. split; [done|].
    by apply (lv_guilds _ _ _ _ L).
Qed.

Lemma leaves_tags_ok : tags_ok t -> tags_ok t'.
Proof.
  intros []. split.
  - intros id tag [Ht Hg]%leaves_tags. destruct (to_key0 _ _ Ht). split; [done|]. by apply (lv_guilds _ _ _ _ L).
  - intros id1 id2 tag1 tag2 [H1 _]%leaves_tags [H2 _]%leaves_tags. eauto.
  - intros tid mid app (Ha & Hm & Hg)%leaves_applied.
    destruct (to_applied0 _ _ _ Ha) as (E1 & E2 & tag & m & ch & Ht & Hmm & Hch & Egt & Hpriv).
    split_and!; [done..|].
    assert (gone (msg_channel_id m) = false) as Hc.
    { destruct (gone _) eqn:E; [|done]. rewrite (proj2 (message_in_true _ _ _)) in Hm; [done|]. by exists m. }
    destruct (lv_channels _ _ _ _ L _ _ Hch Hc) as (ch' & Hch' & Eg & _).
    exists tag, (forget_reply (message_in gone (t_chat t)) m), ch'. split_and!.
    + apply leaves_tags. split; [done|]. intros E. specialize (Hg _ E). unfold tag_in in Hg.
      rewrite Ht, Z.eqb_refl in Hg. done.
    + apply leaves_message. by exists m.
    + by destruct (forget_reply_same (message_in gone (t_chat t)) m) as (_ & -> & _).
    + congruence.
    + done.
  - intros g. etrans; [|apply (to_shared0 g)]. apply count_tags_le. by intros id tag [? _]%leaves_tags.
  - intros g u. etrans; [|apply (to_private0 g u)]. apply count_tags_le. by intros id tag [? _]%leaves_tags.
Qed.

Lemma leaves_reports_ok : reports_ok t -> reports_ok t'.
Proof.
  intros []. split.
  - intros id r [Hr Hg]%leaves_reports. destruct (ro_key0 _ _ Hr) as (? & g & Eg & ?). split; [done|].
    exists g. split; [done|]. apply (lv_guilds _ _ _ _ L); [done|]. by apply Hg.
  - intros id r [Hr _]%leaves_reports. eauto.
  - intros id r [Hr _]%leaves_reports. eauto.
  - intros id1 id2 r1 r2 [H1 _]%leaves_reports [H2 _]%leaves_reports. eauto.
Qed.

Lemma leaves_chat_ok : chat_ok t -> chat_ok t'.
Proof. intros []. split; [by apply leaves_messages_ok|by apply leaves_tags_ok|by apply leaves_reports_ok]. Qed.
End leaves.

Lemma leaves_nothing t t' :
  t_chat t' = t_chat t -> t_users t' = t_users t ->
  (forall c ch, t_channels t !! c = Some ch -> exists ch', t_channels t' !! c = Some ch' /\
     channel_guild_id ch' = channel_guild_id ch /\ channel_type ch' = channel_type ch) ->
  (forall g, is_Some (t_guilds t !! g) -> is_Some (t_guilds t' !! g)) ->
  leaves (fun _ => false) None t t'.
Proof. intros Hc Hu Hch Hg. split; [by rewrite chat_without_nothing|eauto|eauto|done..]. Qed.

(** The guild and type of a channel never change. *)
Lemma channels_same (m m' : gmap Z dbChannel) : m' = m ->
  forall c ch, m !! c = Some ch -> exists ch', m' !! c = Some ch' /\
     channel_guild_id ch' = channel_guild_id ch /\ channel_type ch' = channel_type ch.
Proof. intros -> c ch Hch. by exists ch. Qed.

Lemma effect_leaves svc a req t t' evs :
  effect svc a req t t' evs -> exists gone og, leaves gone og t t'.
Proof.
  intros He. destruct (effect_accounts _ _ _ _ _ _ He) as [Hu _]. revert Hu.
  destruct req; cbn [effect] in He; effect_tables He; intros Hu;
    try (exists (fun _ => false), None; apply leaves_nothing; [reflexivity|done|by apply channels_same|done]).
  - exists (fun _ => false), None. apply leaves_nothing; [done|done|by apply channels_same|].
    intros g' Hg'. cbn. by apply lookup_insert_is_Some'; right.
  - exists (fun _ => false), None. apply leaves_nothing; [done|done|by apply channels_same|].
    intros g' Hg'. cbn. by apply lookup_insert_is_Some'; right.
  - exists (fun c => channel_in_guild t c g), (Some g). split; [done| | |by intros g' [= <-]| |by intros g' [= <-]; apply lookup_delete_eq|done].
    + intros c ch Hch Hc. exists ch. split; [|done]. apply map_lookup_filter_Some. split; [done|]. cbn.
      intros Hg'. rewrite (proj2 (channel_in_guild_true t _ g)) in Hc; [done|]. eauto.
    + intros g' Hg' Hne. cbn. rewrite lookup_delete_ne; [done|congruence].
    + intros c (ch & Hch & Hg)%channel_in_guild_true. apply map_lookup_filter_None. right. intros ch' Hch'. cbn.
      change (t_channels t !! c = Some ch') in Hch'. congruence.
  - exists (fun _ => false), None. apply leaves_nothing; [done|done|by apply channels_same|].
    intros g' Hg'. cbn. by apply lookup_insert_is_Some'; right.
  - exists (fun _ => false), None.
    assert (t_channels (with_copied (cci_ParentID r) x (set_channels (<[x := new_channel x g r]> (t_channels t)) t))
      = <[x := new_channel x g r]> (t_channels t)) as E by (by destruct (cci_ParentID r)).
    apply leaves_nothing; cbn; [by destruct (cci_ParentID r)|done| |by destruct (cci_ParentID r)].
    intros c ch Hch. exists ch. split; [|done]. rewrite E, lookup_insert_ne; congruence.
  - exists (fun _ => false), None. apply leaves_nothing; [done|done| |done].
    intros c' ch Hch. cbn. destruct (decide (c' = c)) as [->|].
    + rewrite lookup_insert_eq. eexists. split; [done|]. by simplify_eq.
    + rewrite lookup_insert_ne by done. eauto.
  - exists (fun c' => c' =? c), None. split; [done| |done|done| |done|done].
    2: { intros c' ->%Z.eqb_eq. cbn. unfold channels_without. by rewrite lookup_fmap, lookup_delete_eq. }
    intros c' ch Hch Hne. cbn. unfold channels_without. apply Z.eqb_neq in Hne.
    rewrite lookup_fmap, lookup_delete_ne, Hch by done. eexists. split; [done|].
    unfold detach. by case_decide.
Qed.

(** ** Frames *)

Lemma messages_ok_frame t t' :
  messages_ok t -> c_messages (t_chat t') = c_messages (t_chat t) ->
  c_history (t_chat t') = c_history (t_chat t) -> c_recorded (t_chat t') = c_recorded (t_chat t) ->
  t_channels t' = t_channels t -> t_users t' = t_users t -> t_guilds t' = t_guilds t -> messages_ok t'.
Proof.
  intros [] Em Eh Er Ec Eu Eg. split; unfold messages_keyed, messages_of in *;
    rewrite ?Em, ?Eh, ?Er, ?Ec, ?Eu, ?Eg; assumption.
Qed.

(** Whether the messages, with the channels they are in, are all still there. *)
Definition messages_kept (t t' : Tables) : Prop := forall id m, messages_of t !! id = Some m -> exists m',
  messages_of t' !! id = Some m' /\ msg_channel_id m' = msg_channel_id m.

Lemma messages_kept_same t t' : c_messages (t_chat t') = c_messages (t_chat t) -> messages_kept t t'.
Proof. intros E id m Hm. exists m. unfold messages_of in *. by rewrite E. Qed.

Lemma messages_kept_insert t id m m' :
  messages_of t !! id = Some m -> msg_channel_id m' = msg_channel_id m ->
  forall id0 m0, messages_of t !! id0 = Some m0 -> exists m1,
    <[id := m']> (messages_of t) !! id0 = Some m1 /\ msg_channel_id m1 = msg_channel_id m0.
Proof.
  intros Hm Hc id0 m0 Hm0. destruct (decide (id0 = id)) as [->|].
  - rewrite lookup_insert_eq. exists m'. split; [done|]. congruence.
  - rewrite lookup_insert_ne by done. by exists m0.
Qed.

Lemma tags_ok_frame `{Collation} t t' :
  tags_ok t -> c_tags (t_chat t') = c_tags (t_chat t) -> c_applied (t_chat t') = c_applied (t_chat t) ->
  t_channels t' = t_channels t -> t_guilds t' = t_guilds t -> messages_kept t t' -> tags_ok t'.
Proof.
  intros [] Et Ea Ec Eg Hm. split; unfold shared_tags, private_tags in *; rewrite ?Et, ?Ea, ?Ec, ?Eg; try assumption.
  intros tid mid app Happ. destruct (to_applied0 _ _ _ Happ) as (E1 & E2 & tag & m & ch & Ht & Hmm & Hch & Hg & Hp).
  split_and!; [done..|]. destruct (Hm _ _ Hmm) as (m' & Hm' & Ecm).
  exists tag, m', ch. rewrite Ecm. by split_and!.
Qed.

Lemma reports_ok_frame t t' :
  reports_ok t -> c_reports (t_chat t') = c_reports (t_chat t) -> t_guilds t' = t_guilds t -> reports_ok t'.
Proof. intros [] Er Eg. split; rewrite ?Er, ?Eg; assumption. Qed.

(** ** What the services keep *)

Lemma recorded_is now g a id action t t' :
  recorded now g a id action t t' -> exists m, t' = on_chat (set_recorded m) t.
Proof.
  unfold recorded. destruct (default _ _); [intros (rid & Hrec)|intros ->].
  - destruct (recorded_row _ _ _); [destruct Hrec as [_ ->]; by eexists|subst].
    exists (c_recorded (t_chat t)). by destruct t as [? ? ? ? ? ? ? ? ? ? []].
  - exists (c_recorded (t_chat t)). by destruct t as [? ? ? ? ? ? ? ? ? ? []].
Qed.

Lemma recorded_ok `{Collation} now g a id action t t' :
  chat_ok t -> recorded now g a id action t t' -> chat_ok t'.
Proof.
  intros [Hm Ht Hr] Hrec. destruct (recorded_is _ _ _ _ _ _ _ Hrec) as [m0 E].
  split; [|rewrite E; apply (tags_ok_frame t); [done..|by apply messages_kept_same]|rewrite E; by apply (reports_ok_frame t)].
  unfold recorded in Hrec. destruct (default _ _); [|by subst].
  destruct Hrec as (rid & Hrec). destruct (recorded_row _ _ _) as [row|] eqn:Er; [|by subst].
  destruct Hrec as [Hrid ->]. destruct Hm. split; try assumption.
  unfold recorded_row in Er. repeat (apply bind_Some in Er as (? & ? & Er)).
  destruct (_ && _); [|done]. simplify_eq. cbn.
  intros rid' r [[<- <-]|[_ Hr']]%lookup_insert_Some; [|by apply mo_recorded0]. by split; [|eexists].
Qed.

(** A message whose text, times and type change. *)
Lemma rewritten_message_ok t id m m' :
  messages_ok t -> messages_of t !! id = Some m -> msg_id m' = id ->
  msg_channel_id m' = msg_channel_id m -> msg_author_id m' = msg_author_id m ->
  msg_reply_to_id m' = msg_reply_to_id m -> checkContent (msg_content m') = inr tt ->
  pg_text (msg_content m') = true ->
  messages_ok (on_chat (fun x => set_messages (<[id := m']> (c_messages x)) x) t).
Proof.
  intros [] Hm Ei Ec Ea Er Hcontent Htext.
  assert (forall id0 m0, <[id := m']> (messages_of t) !! id0 = Some m0 ->
    (id0 = id /\ m0 = m') \/ messages_of t !! id0 = Some m0) as Hback.
  { intros id0 m0 [[<- <-]|[_ ?]]%lookup_insert_Some; [by left|by right]. }
  split; unfold messages_keyed; cbn.
  - intros id0 m0 [[-> ->]|?]%Hback; [done|]. by apply mo_key0.
  - intros id0 m0 [[-> ->]|?]%Hback; [rewrite Ec|]; eauto.
  - intros id0 m0 [[-> ->]|?]%Hback; [rewrite Ea|]; eauto.
  - intros id0 m0 [[-> ->]|?]%Hback; eauto.
  - intros id0 m0 r Hm0 Hr0. assert (exists m1, messages_of t !! id0 = Some m1 /\
      msg_reply_to_id m1 = Some r /\ msg_channel_id m1 = msg_channel_id m0) as (m1 & Hm1 & Hr1 & Ec1).
    { apply Hback in Hm0 as [[-> ->]|?]; [exists m|exists m0]; split_and!; congruence. }
    destruct (mo_reply0 _ _ _ Hm1 Hr1) as (mr & Hmr & Ecr).
    destruct (messages_kept_insert t id m m' Hm Ec _ _ Hmr) as (mr' & Hmr' & Ecr'). exists mr'.
    split; [done|congruence].
  - intros hid h Hh. destruct (mo_history0 _ _ Hh) as [? [mh Hmh]]. split; [done|].
    destruct (messages_kept_insert t id m m' Hm Ec _ _ Hmh) as (? & ? & _). by eexists.
  - done.
Qed.

Lemma rewritten_ok `{Collation} now hid id content type m t :
  chat_ok t -> live_message t id = Some m -> checkContent content = inr tt -> pg_text content = true ->
  c_history (t_chat t) !! hid = None -> chat_ok (rewritten now hid id content type m t).
Proof.
  intros [Hm Ht Hr] [Hl _]%live_message_Some Hcontent Htext Hh. pose proof (mo_key _ Hm _ _ Hl) as Ei.
  assert (messages_kept t (rewritten now hid id content type m t)) as Hkept.
  { intros id0 m0 Hm0. by eapply messages_kept_insert. }
  split; [|by apply (tags_ok_frame t)|by apply (reports_ok_frame t)].
  assert (messages_ok (on_chat (fun x =>
    set_history (<[hid := mkDbEditHistory hid id (msg_content m) now]> (c_history x)) x) t)) as Hm1.
  { destruct Hm. split; try assumption. cbn. intros hid' h [[<- <-]|[_ Hh']]%lookup_insert_Some; [|by apply mo_history0].
    split; [done|]. by exists m. }
  apply (rewritten_message_ok _ id m (edited now content type m)) in Hm1; try done.
Qed.

Lemma redacted_ok `{Collation} now id m t :
  chat_ok t -> live_message t id = Some m -> chat_ok (redacted now id m t).
Proof.
  intros [Hm Ht Hr] [Hl _]%live_message_Some. pose proof (mo_key _ Hm _ _ Hl) as Ei.
  assert (messages_kept t (redacted now id m t)) as Hkept.
  { intros id0 m0 Hm0. by eapply messages_kept_insert. }
  split; [|by apply (tags_ok_frame t)|by apply (reports_ok_frame t)].
  destruct (mo_content _ Hm _ _ Hl). by apply (rewritten_message_ok t id m).
Qed.

Lemma posted_ok `{Collation} t m ch g a :
  chat_ok t -> messages_of t !! msg_id m = None ->
  t_channels t !! msg_channel_id m = Some ch -> channel_guild_id ch = Some g ->
  channel_type ch = ChannelGuildText -> msg_author_id m = Some a -> is_Some (t_users t !! a) ->
  checkContent (msg_content m) = inr tt -> pg_text (msg_content m) = true ->
  replied t (msg_channel_id m) (msg_reply_to_id m) -> chat_ok (posted m t).
Proof.
  intros [Hm Ht Hr] Hid Hch Hg Hty Ha Hu Hcontent Htext Hre.
  assert (forall id m0, messages_of t !! id = Some m0 -> messages_of (posted m t) !! id = Some m0) as Hold.
  { intros id m0 H0. unfold messages_of, posted. cbn. rewrite lookup_insert_ne; [done|]. intros <-. congruence. }
  split; [|apply (tags_ok_frame t); try done; intros id m0 H0; exists m0; auto|by apply (reports_ok_frame t)].
  destruct Hm. split; unfold messages_keyed;
    try change (messages_of (posted m t)) with (<[msg_id m := m]> (messages_of t)).
  - intros id m0 [[<- <-]|[_ H0]]%lookup_insert_Some; [done|by apply mo_key0].
  - intros id m0 [[<- <-]|[_ H0]]%lookup_insert_Some; [by exists ch, g|eauto].
  - intros id m0 [[<- <-]|[_ H0]]%lookup_insert_Some; [by exists a|eauto].
  - intros id m0 [[<- <-]|[_ H0]]%lookup_insert_Some; [done|eauto].
  - intros id m0 r [[<- <-]|[_ H0]]%lookup_insert_Some Hr0.
    + rewrite Hr0 in Hre. destruct Hre as (mr & Hl & _ & Ec). apply live_message_Some in Hl as [Hl _]. eauto.
    + destruct (mo_reply0 _ _ _ H0 Hr0) as (mr & Hmr & ?). eauto.
  - intros hid h Hh. destruct (mo_history0 _ _ Hh) as [? [m0 H0]]. split; [done|]. exists m0. by apply Hold.
  - done.
Qed.

(** A table's audit log and invites are no part of the conversations. *)
Lemma chat_frame `{Collation} t t' :
  chat_ok t -> t_chat t' = t_chat t -> t_channels t' = t_channels t -> t_users t' = t_users t ->
  t_guilds t' = t_guilds t -> chat_ok t'.
Proof.
  intros [] Ex Ec Eu Eg. split.
  - apply (messages_ok_frame t); congruence.
  - apply (tags_ok_frame t); try congruence. apply messages_kept_same. congruence.
  - apply (reports_ok_frame t); congruence.
Qed.

Lemma audited_if_ok `{Collation} over row t1 t' : chat_ok t1 -> audited_if over row t1 t' -> chat_ok t'.
Proof. intros Hok. destruct over; [intros (aid & _ & ->); by apply (chat_frame t1)|by intros ->]. Qed.

Lemma same_name_sym `{Collation} t1 t2 : same_name t1 t2 = true -> same_name t2 t1 = true.
Proof.
  unfold same_name. rewrite !andb_true_iff, !bool_decide_eq_true. intros [(-> & E & ->) Ho].
  split; [done|]. rewrite <- E. apply orb_true_iff in Ho as [->|Ho%Z.eqb_eq]; [done|]. rewrite Ho.
  by rewrite Z.eqb_refl, orb_true_r.
Qed.

Lemma existsb_rows {A} (f : A -> bool) (m : gmap Z A) :
  existsb f (rows_of_map m) = false -> forall id x, m !! id = Some x -> f x = false.
Proof.
  intros He id x Hx. destruct (f x) eqn:E; [|done]. rewrite <- He. symmetry. apply existsb_exists.
  exists x. split; [|done]. apply list_elem_of_In, list_elem_of_fmap. exists (id, x). split; [done|].
  by apply elem_of_map_to_list.
Qed.

Lemma CreateTag_ok `{Collation} a now id input t out t' :
  chat_ok t -> CreateTag_effect a now id input t out t' -> chat_ok t'.
Proof.
  intros [Hm Ht Hr] (d & _ & Hcount & _ & Hid & Hname & Hg & _ & -> & _).
  set (tag := new_tag _ _) in *. pose proof (existsb_rows _ _ Hname) as Hfresh.
  split; [by apply (messages_ok_frame t)| |by apply (reports_ok_frame t)]. destruct Ht. split; cbn.
  - intros id' tag' [[<- <-]|[_ H0]]%lookup_insert_Some; [done|by apply to_key0].
  - intros id1 id2 t1 t2 [[<- <-]|[_ H1]]%lookup_insert_Some [[<- <-]|[_ H2]]%lookup_insert_Some Hs;
      [done|exfalso|exfalso|eauto].
    + rewrite (Hfresh _ _ H2) in Hs. done.
    + apply same_name_sym in Hs. rewrite (Hfresh _ _ H1) in Hs. done.
  - intros tid mid app Happ. destruct (to_applied0 _ _ _ Happ) as (E1 & E2 & tag0 & m & ch & H0 & Hrest).
    split_and!; [done..|]. exists tag0, m, ch. split; [|exact Hrest]. rewrite lookup_insert_ne; [done|congruence].
  - intros g. specialize (to_shared0 g). unfold shared_tags in *. cbn. rewrite count_rows in *.
    destruct (cti_IsShared input) eqn:Es.
    + destruct (decide (g = cti_GuildID input)) as [->|].
      * etrans; [apply matching_insert|]. lia.
      * etrans; [apply matching_insert_out; subst tag; cbn; naive_solver|exact to_shared0].
    + etrans; [apply matching_insert_out; subst tag; cbn; rewrite ?Es; naive_solver|exact to_shared0].
  - intros g u. specialize (to_private0 g u). unfold private_tags in *. cbn. rewrite count_rows in *.
    destruct (cti_IsShared input) eqn:Es.
    + etrans; [apply matching_insert_out; subst tag; cbn; rewrite ?Es; naive_solver|exact to_private0].
    + destruct (decide (g = cti_GuildID input /\ u = a)) as [[-> ->]|].
      * etrans; [apply matching_insert|]. lia.
      * etrans; [apply matching_insert_out; subst tag; cbn; naive_solver|exact to_private0].
Qed.

Lemma without_tag_ok `{Collation} id t : chat_ok t -> chat_ok (on_chat (without_tag id) t).
Proof.
  intros [Hm Ht Hr]. split; [by apply (messages_ok_frame t)| |by apply (reports_ok_frame t)].
  destruct Ht. split; cbn.
  - intros id' tag [_ H0]%lookup_delete_Some. eauto.
  - intros id1 id2 t1 t2 [_ H1]%lookup_delete_Some [_ H2]%lookup_delete_Some. eauto.
  - intros tid mid app [Happ Hne]%map_lookup_filter_Some. cbn in Hne.
    destruct (to_applied0 _ _ _ Happ) as (E1 & E2 & tag0 & m & ch & H0 & Hrest).
    split_and!; [done..|]. exists tag0, m, ch. split; [|exact Hrest]. by rewrite lookup_delete_ne.
  - intros g. etrans; [|apply (to_shared0 g)]. apply count_tags_le. cbn. by intros id' tag [_ ?]%lookup_delete_Some.
  - intros g u. etrans; [|apply (to_private0 g u)]. apply count_tags_le. cbn. by intros id' tag [_ ?]%lookup_delete_Some.
Qed.

Lemma ApplyTag_ok `{Collation} a now input t t' : chat_ok t -> ApplyTag_effect a now input t t' -> chat_ok t'.
Proof.
  intros Hok (g & d & tag & (ch & m & Hch & Hg & _ & Hm & Ec) & (Htag & Htg & Hvis) & _ & [[_ ->]|(_ & _ & ->)]); [done|].
  apply live_message_Some in Hm as [Hm _]. destruct Hok as [Hmo Ht Hr].
  split; [by apply (messages_ok_frame t)| |by apply (reports_ok_frame t)].
  destruct Ht. split; try assumption. cbn. intros tid mid app [[[= <- <-] <-]|[_ H0]]%lookup_insert_Some; [|eauto].
  split_and!; [done..|]. exists tag, m, ch. rewrite Ec. split_and!; try done; [congruence|].
  cbn. unfold tag_visible in Hvis. intros Hp. rewrite Hp in Hvis. cbn in Hvis. by apply Z.eqb_eq in Hvis.
Qed.

Lemma UnapplyTag_ok `{Collation} a input t t' : chat_ok t -> UnapplyTag_effect a input t t' -> chat_ok t'.
Proof.
  intros Hok (g & d & tag & app & _ & _ & _ & _ & Ha). eapply audited_if_ok; [|exact Ha].
  destruct Hok as [Hm Ht Hr]. split; [by apply (messages_ok_frame t)| |by apply (reports_ok_frame t)].
  destruct Ht. split; try assumption. cbn. intros tid mid app' [_ H0]%lookup_delete_Some. eauto.
Qed.

Lemma File_ok `{Collation} a now id input t out t' :
  chat_ok t -> File_effect a now id input TargetMessage t out t' -> chat_ok t'.
Proof.
  intros [Hm Ht Hr] (m & ch & g & d & Hmsg & Hch & Hg & _ & Hid & Hdup & _ & Hgg & -> & _).
  set (r := new_report _ _) in *. pose proof (existsb_rows _ _ Hdup) as Hfresh.
  split; [by apply (messages_ok_frame t)|apply (tags_ok_frame t); [done..|by apply messages_kept_same]|].
  destruct Hr. split; cbn.
  - intros id' r' [[<- <-]|[_ H0]]%lookup_insert_Some; [|by apply ro_key0]. split; [done|]. by exists g.
  - intros id' r' [[<- <-]|[_ H0]]%lookup_insert_Some; [done|eauto].
  - intros id' r' [[<- <-]|[_ H0]]%lookup_insert_Some; [by left|eauto].
  - intros id1 id2 r1 r2 [[<- <-]|[_ H1]]%lookup_insert_Some [[<- <-]|[_ H2]]%lookup_insert_Some Ho Hs;
      [done|exfalso|exfalso|eauto].
    + rewrite (Hfresh _ _ H2) in Hs. done.
    + assert (same_open r r1 = true) as Hs'; [|by rewrite (Hfresh _ _ H1) in Hs'].
      unfold same_open in *. rewrite bool_decide_eq_true in *. naive_solver.
Qed.

Lemma ResolveReport_ok `{Collation} a now g id status t out t' :
  chat_ok t -> status = StatusResolved \/ status = StatusDismissed ->
  ResolveReport_effect a now g id status t out t' -> chat_ok t'.
Proof.
  intros [Hm Ht Hr] Hstatus (d & r & aid & ty & st & _ & Hl & Hg & Ho & _ & _ & _ & _ & -> & _).
  set (r' := closed now status a r). assert (rep_status r' <> StatusOpen) as Hclosed by (by destruct Hstatus as [->| ->]).
  apply (chat_frame (on_chat (fun x => set_reports (<[id := r']> (c_reports x)) x) t)); [|done..].
  split; [by apply (messages_ok_frame t)|apply (tags_ok_frame t); [done..|by apply messages_kept_same]|].
  destruct Hr. split; cbn.
  - intros id' r0 [[<- <-]|[_ H0]]%lookup_insert_Some; [by apply (ro_key0 _ r)|by apply ro_key0].
  - intros id' r0 [[<- <-]|[_ H0]]%lookup_insert_Some; [by apply (ro_target0 _ r Hl)|eauto].
  - intros id' r0 [[<- <-]|[_ H0]]%lookup_insert_Some; [right|eauto]. split_and!; [done|by eexists..].
  - intros id1 id2 r1 r2 [[<- <-]|[_ H1]]%lookup_insert_Some [[<- <-]|[_ H2]]%lookup_insert_Some Ho' Hs; [done..| |eauto].
    unfold same_open in Hs. rewrite bool_decide_eq_true in Hs. naive_solver.
Qed.

Lemma chat_empty_ok `{Collation} t : t_chat t = Chat_empty -> chat_ok t.
Proof.
  intros E. split; split; unfold messages_keyed, messages_of; rewrite ?E; cbn; intros *;
    try (rewrite !lookup_empty; discriminate); by vm_compute.
Qed.
