(* ===== verification/Conversations.v ===== *)
(** Messages, tags and reports as one type of requests, with what each committed request did. *)
From S2P Require Import Prelude GoStd Permissions Snowflake Rows TxMonad Queries.
From S2P Require Import Resolve StoreInv Authority ResolveMany GuildAuth GuildCommon RoleSvc.
From S2P Require Import OverwriteSvc MemberSvc GuildSvc ChannelSvc Preserve GuildService Layers.
From S2P Require Import Escalation Limits InviteSvc Utf8 MessageSvc TagSvc ReportSvc ChatInv.

(** ** Requests *)

(** How a request authenticated: a user, or a token with the scopes it was given. *)
Record Credential := mkCredential { cred_kind : ActorKind; cred_scopes : list string }.

Definition actor_with (a : Z) (k : Credential) : Actor := mkActor (cred_kind k) a 0 0 (cred_scopes k).

(** [now] is the database's clock when the request runs. *)
Inductive ChatRequest :=
  | ChSend (k : Credential) (now : Z) (input : SendInput)
  | ChUpdate (k : Credential) (now : Z) (input : UpdateInput)
  | ChDelete (k : Credential) (now c id : Z)
  | ChCreateTag (now : Z) (input : CreateTagInput)
  | ChDeleteTag (g id : Z)
  | ChApplyTag (now : Z) (input : ApplyInput)
  | ChUnapplyTag (input : ApplyInput)
  | ChFile (now : Z) (input : FileInput)
  | ChResolve (now g id : Z) (outcome : string).

Section requests.
Context `{Collation}.

(** [bus] is whether the services publish. *)
Definition handle_chat (bus : bool) (a : Z) (req : ChatRequest) : M unit :=
  match req with
  | ChSend k now input => Service_Send bus (actor_with a k) now input;; mret tt
  | ChUpdate k now input => Service_UpdateMessage bus (actor_with a k) now input;; mret tt
  | ChDelete k now c id => Service_DeleteMessage bus (actor_with a k) now c id
  | ChCreateTag now input => Service_CreateTag a now input;; mret tt
  | ChDeleteTag g id => Service_DeleteTag a g id
  | ChApplyTag now input => Service_ApplyTag a now input
  | ChUnapplyTag input => Service_UnapplyTag a input
  | ChFile now input => Service_File a now input;; mret tt
  | ChResolve now g id outcome => Service_ResolveReport a now g id outcome;; mret tt
  end.

Definition fileable (input : FileInput) : Prop :=
  targetTypeValue (fi_TargetType input) = Some TargetMessage /\
  knownReasonCategory (fi_ReasonCategory input) = true /\
  forall d, fi_Detail input = Some d -> RuneCountInString d <= MaxDetailLength.

(** What a committed request did to the tables, and the events it registered. *)
Definition chat_effect (bus : bool) (a : Z) (req : ChatRequest) (t t' : Tables) (evs : list (Event Payload))
    : Prop :=
  match req with
  | ChSend k now input => exists id out, Send_effect bus (actor_with a k) now id input t out t' evs
  | ChUpdate k now input => exists hid out, UpdateMessage_effect bus (actor_with a k) now hid input t out t' evs
  | ChDelete k now c id => exists aid, DeleteMessage_effect bus (actor_with a k) now aid c id t t' evs
  | ChCreateTag now input => checkName (cti_Name input) = inr tt /\ evs = [] /\
      exists id out, CreateTag_effect a now id input t out t'
  | ChDeleteTag g id => DeleteTag_effect a g id t t' /\ evs = []
  | ChApplyTag now input => ApplyTag_effect a now input t t' /\ evs = []
  | ChUnapplyTag input => UnapplyTag_effect a input t t' /\ evs = []
  | ChFile now input => fileable input /\ evs = [] /\
      exists id out, File_effect a now id input TargetMessage t out t'
  | ChResolve now g id outcome => evs = [] /\ exists status out, statusValue outcome = Some status /\
      (status = StatusResolved \/ status = StatusDismissed) /\ ResolveReport_effect a now g id status t out t'
  end.

(** ** From the operations to their effects *)

Lemma lift_outcome {A} (r : Err + A) (k : A -> M unit) E s :
  (forall x, r = inr x -> outcome E s (k x s)) -> outcome E s ((lift r ≫= k) s).
Proof. destruct r; [done|]. intros Hk. by apply Hk. Qed.

(** A transaction that registers no event. *)
Lemma tx_outcome_silent {A} (fn : M A) (E : Tables -> A -> Tables -> Prop) s :
  quiet fn ->
  (forall s1, tabs s1 = tabs s -> wp fn (fun a s2 => E (tabs s1) a (tabs s2) /\ hooks s2 = hooks s1) s1) ->
  outcome (fun t t' evs => evs = [] /\ exists a, E t a t') s ((RunInTx fn;; mret tt) s).
Proof.
  intros Hq Hwp. eapply outcome_mono; [|apply (tx_outcome fn (fun t a t' evs => evs = [] /\ E t a t') s Hq)].
  - intros t' evs (a & -> & HE). split; [done|]. by exists a.
  - intros s1 Ht Hh. eapply wp_mono; [by apply Hwp|]. intros a s2 [HE He]. split; [congruence|done].
Qed.

Lemma tx_outcome_silent_unit (fn : M unit) (E : Tables -> Tables -> Prop) s :
  quiet fn ->
  (forall s1, tabs s1 = tabs s -> wp fn (fun _ s2 => E (tabs s1) (tabs s2) /\ hooks s2 = hooks s1) s1) ->
  outcome (fun t t' evs => E t t' /\ evs = []) s (RunInTx fn s).
Proof.
  intros Hq Hwp. apply tx_outcome_unit; [done|]. intros s1 Ht Hh. eapply wp_mono; [by apply Hwp|].
  intros u s2 [HE He]. split; [done|congruence].
Qed.

(** The id minted before a transaction that commits is a new one. *)
Lemma fresh_tx {A} (fn : Z -> M A) (E : Z -> Tables -> A -> Tables -> list (Event Payload) -> Prop) s u s' :
  (forall id, quiet (fn id)) -> gen_ok (gen s) ->
  (forall id s1, tabs s1 = tabs s -> hooks s1 = [] -> wp (fn id) (fun a s2 => E id (tabs s) a (tabs s2) (hooks s2)) s1) ->
  (id ← ids_Next; RunInTx (fn id);; mret tt) s = (inr u, s') ->
  exists id a evs, mark (gen s) < id <= mark (gen s') /\ E id (tabs s) a (tabs s') evs.
Proof.
  intros Hq Hg Hwp. unfold mbind, M_bind, ids_Next.
  destruct (Next (gen s) (clock s)) as [[[[id|] g'] c']|] eqn:E0; [|done..].
  destruct (Next_spec _ _ _ _ _ Hg E0) as (Hg' & _ & Hm & -> & _). set (s1 := with_gen g' c' s).
  destruct (RunInTx (fn (mark g')) s1) as [[e|a] s2] eqn:Er; [done|]. intros [= _ <-].
  pose proof (RunInTx_later (fn (mark g')) s1 (Hq _)) as Hl. rewrite Er in Hl.
  destruct Hl as [_ Hl]; [done|]. cbn in Hl.
  eapply (RunInTx_commit _ _ _ _ (fun a t' evs => E (mark g') (tabs s) a t' evs)) in Er as (evs & He & _);
    [exists (mark g'), a, evs; split; [lia|done]|done|]. intros s3 Ht Hh. by apply Hwp.
Qed.

Lemma handle_chat_outcome bus a req s :
  wf (tabs s) -> messages_keyed (tabs s) -> outcome (chat_effect bus a req) s (handle_chat bus a req s).
Proof.
  intros Hwf Hk. destruct req; cbn [handle_chat chat_effect].
  - unfold Service_Send. rewrite bind_assoc_run. apply ids_Next_outcome. intros id s1 Ht1 _ _.
    eapply outcome_mono; [|apply (tx_outcome _ (fun t out t' evs => Send_effect bus (actor_with a k) now id input t out t' evs));
      [auto with norite|intros s2 Ht2 Hh; apply wp_Send_tx; [by rewrite Ht2, Ht1..|done]]].
    intros t' evs [out He]. by exists id, out.
  - unfold Service_UpdateMessage. rewrite bind_assoc_run. apply ids_Next_outcome. intros hid s1 Ht1 _ _.
    eapply outcome_mono; [|apply (tx_outcome _ (fun t out t' evs => UpdateMessage_effect bus (actor_with a k) now hid input t out t' evs));
      [auto with norite|intros s2 Ht2 Hh; apply wp_UpdateMessage_tx; [by rewrite Ht2, Ht1..|done]]].
    intros t' evs [out He]. by exists hid, out.
  - unfold Service_DeleteMessage. apply ids_Next_outcome. intros aid s1 Ht1 _ _.
    eapply outcome_mono; [|apply (tx_outcome_unit _ (fun t t' evs => DeleteMessage_effect bus (actor_with a k) now aid c id t t' evs));
      [auto with norite|intros s2 Ht2 Hh; apply wp_DeleteMessage_tx; [by rewrite Ht2, Ht1..|done]]].
    intros t' evs He. by exists aid.
  - unfold Service_CreateTag. rewrite bind_assoc_run. apply lift_outcome. intros [] Hname.
    rewrite bind_assoc_run. apply ids_Next_outcome. intros id s1 Ht1 _ _.
    eapply outcome_mono; [|apply (tx_outcome_silent _ (fun t out t' => CreateTag_effect a now id input t out t'));
      [auto with norite|intros s2 Ht2; apply wp_CreateTag_tx; by rewrite Ht2, Ht1]].
    intros t' evs (He & out & HE). split; [done|]. split; [done|]. by exists id, out.
  - apply tx_outcome_silent_unit; [auto with norite|]. intros s1 Ht. apply wp_DeleteTag_tx. by rewrite Ht.
  - apply tx_outcome_silent_unit; [auto with norite|]. intros s1 Ht. apply wp_ApplyTag_tx. by rewrite Ht.
  - apply tx_outcome_silent_unit; [auto with norite|]. intros s1 Ht. apply wp_UnapplyTag_tx. by rewrite Ht.
  - unfold Service_File. destruct (targetTypeValue _) as [ty|] eqn:Ety; [|done].
    rewrite bind_assoc_run. apply refuse_if_outcome. intros Hm. rewrite bind_assoc_run. apply refuse_if_outcome.
    intros Hreason. rewrite bind_assoc_run. apply refuse_if_outcome. intros Hd. rewrite bind_assoc_run.
    apply ids_Next_outcome. intros id s1 Ht1 _ _. bool_hyps. subst ty.
    eapply outcome_mono; [|apply (tx_outcome_silent _ (fun t out t' => File_effect a now id input TargetMessage t out t'));
      [auto with norite|intros s2 Ht2; apply wp_File_tx; by rewrite Ht2, Ht1]].
    intros t' evs (He & out & HE). split; [|by eauto]. split_and!; [done|done|].
    intros d Ed. rewrite Ed in Hd. by apply Z.ltb_ge in Hd.
  - unfold Service_ResolveReport. destruct (statusValue outcome) as [status|] eqn:Es; [|done].
    rewrite bind_assoc_run. apply refuse_if_outcome. intros Hst.
    eapply outcome_mono; [|apply (tx_outcome_silent _ (fun t out t' => ResolveReport_effect a now g id status t out t'));
      [auto with norite|intros s2 Ht2; apply wp_ResolveReport_tx; by rewrite Ht2]].
    intros t' evs (He & out & HE). split; [done|]. exists status, out. split_and!; [done| |done].
    apply andb_false_iff in Hst as [Hst|Hst]; bool_hyps; auto.
Qed.

(** ** What they leave alone *)

(** Every table but the conversations and the audit log, which at most grows by one entry. *)
Record chat_only (t t' : Tables) : Prop := {
  cf_guilds : t_guilds t' = t_guilds t; cf_members : t_members t' = t_members t;
  cf_roles : t_roles t' = t_roles t; cf_member_roles : t_member_roles t' = t_member_roles t;
  cf_channels : t_channels t' = t_channels t; cf_overwrites : t_overwrites t' = t_overwrites t;
  cf_users : t_users t' = t_users t; cf_admins : t_admins t' = t_admins t;
  cf_invites : t_invites t' = t_invites t;
  cf_audit : t_audit t' = t_audit t \/ exists aid row, t_audit t !! aid = None /\
    t_audit t' = <[aid := row]> (t_audit t)
}.

Lemma chat_only_on_chat f t : chat_only t (on_chat f t).
Proof. split; try done. by left. Qed.

Lemma chat_only_audited f aid row t : t_audit t !! aid = None -> chat_only t (audited aid row (on_chat f t)).
Proof. intros Ha. split; try done. right. by exists aid, row. Qed.

Lemma chat_only_audited_if f over row t t' : audited_if over row (on_chat f t) t' -> chat_only t t'.
Proof.
  destruct over; [intros (aid & Ha & ->); by apply chat_only_audited|intros ->; apply chat_only_on_chat].
Qed.

Lemma recorded_only now g a id action f t t' : recorded now g a id action (on_chat f t) t' ->
  exists h, t' = on_chat h t.
Proof. intros [m ->]%recorded_is. rewrite on_chat_twice. by eexists. Qed.

Lemma chat_effect_only bus a req t t' evs : chat_effect bus a req t t' evs -> chat_only t t'.
Proof.
  destruct req; cbn [chat_effect].
  - intros (id & out & ch & g & d & _ & _ & _ & _ & _ & _ & _ & _ & _ & [h ->]%recorded_only & _). apply chat_only_on_chat.
  - intros (hid & out & ch & g & d & m & tags & _ & _ & _ & _ & _ & _ & _ & _ & _ & [h ->]%recorded_only & _).
    apply chat_only_on_chat.
  - intros (aid & ch & g & d & m & t1 & _ & _ & _ & _ & _ & _ & [h ->]%recorded_only & Ht & _).
    destruct (is_author _ _); [subst; apply chat_only_on_chat|]. destruct Ht as [Ha ->]. by apply chat_only_audited.
  - intros (_ & _ & id & out & d & _ & _ & _ & _ & _ & _ & _ & -> & _). apply chat_only_on_chat.
  - intros [(d & tag & _ & _ & _ & Ha) _]. by eapply chat_only_audited_if.
  - intros [(g & d & tag & _ & _ & _ & [[_ ->]|(_ & _ & ->)]) _]; [split; try done; by left|apply chat_only_on_chat].
  - intros [(g & d & tag & app & _ & _ & _ & _ & Ha) _]. by eapply chat_only_audited_if.
  - intros (_ & _ & id & out & m & ch & g & d & _ & _ & _ & _ & _ & _ & _ & _ & -> & _). apply chat_only_on_chat.
  - intros (_ & status & out & _ & _ & d & r & aid & ty & st & _ & _ & _ & _ & _ & Ha & _ & _ & -> & _).
    by apply chat_only_audited.
Qed.

(** ** What they keep *)

Lemma chat_effect_ok bus a req t t' evs : chat_ok t -> chat_effect bus a req t t' evs -> chat_ok t'.
Proof.
  intros Hok. destruct req; cbn [chat_effect].
  - intros (id & out & ch & g & d & Hch & Hg & Hty & _ & Hc & Hp & Hr & Hid & Hu & Hrec & _).
    eapply recorded_ok; [|exact Hrec]. by eapply posted_ok.
  - intros (hid & out & ch & g & d & m & tags & _ & _ & _ & Hc & Hp & Hm & _ & _ & Hh & Hrec & _).
    eapply recorded_ok; [|exact Hrec]. by apply rewritten_ok.
  - intros (aid & ch & g & d & m & t1 & _ & _ & _ & Hm & _ & _ & Hrec & Ht & _).
    assert (chat_ok t1) as Hok1 by (eapply recorded_ok; [|exact Hrec]; by apply redacted_ok).
    destruct (is_author _ _); [by subst|]. destruct Ht as [_ ->]. by apply (chat_frame t1).
  - intros (_ & _ & id & out & He). by eapply CreateTag_ok.
  - intros [(d & tag & _ & _ & _ & Ha) _]. eapply audited_if_ok; [|exact Ha]. by apply without_tag_ok.
  - intros [He _]. by eapply ApplyTag_ok.
  - intros [He _]. by eapply UnapplyTag_ok.
  - intros (_ & _ & id & out & He). by eapply File_ok.
  - intros (_ & status & out & _ & Hst & He). by eapply ResolveReport_ok.
Qed.
End requests.

(** The collation of PostgreSQL's C locale: only the letters of ASCII have a case. *)
Definition C_lower : Collation :=
  fun s => String.string_of_list_ascii
    ((fun c => if between 65 90 (Z.of_nat (Ascii.nat_of_ascii c)) then Ascii.ascii_of_nat (Ascii.nat_of_ascii c + 32) else c)
       <$> String.list_ascii_of_string s).
