(* ===== verification/Invites.v ===== *)
(** Guild invites as a whole, and every request of the backend's services side by side: those of the
    guild service, of the invites and of the conversations, what each did, and what holds over every
    history of them. *)
From S2P Require Import Prelude GoStd Permissions Snowflake Rows TxMonad Queries.
From S2P Require Import Resolve StoreInv Authority ResolveMany GuildAuth GuildCommon RoleSvc.
From S2P Require Import OverwriteSvc MemberSvc GuildSvc ChannelSvc Preserve GuildService Layers.
From S2P Require Import Escalation Hierarchy Limits InviteCode InviteSvc Utf8 MessageSvc TagSvc.
From S2P Require Import ReportSvc ChatInv Conversations.

(** ** Requests *)

(** [now] is the database's clock when the request runs. The sweep is the server's own: it deletes
    what has expired (auth.SweepExpired). *)
Inductive InviteRequest :=
  | InvCreate (now : Z) (reads : Reads) (input : CreateInviteInput)
  | InvRedeem (now : Z) (rawCode : list Z)
  | InvRevoke (now : Z) (rawCode : list Z)
  | InvSweep (now : Z).

Definition handle_invite (svc : Service) (actor : Z) (req : InviteRequest) : M unit :=
  match req with
  | InvCreate now reads input => Service_CreateInvite svc actor now reads input;; mret tt
  | InvRedeem now rawCode => Service_RedeemInvite svc actor now rawCode;; mret tt
  | InvRevoke now rawCode => Service_RevokeInvite actor now rawCode
  | InvSweep now => Queries_DeleteExpiredGuildInvites now;; mret tt
  end.

Definition Sweep_effect (now : Z) (t t' : Tables) (evs : list (Event Payload)) : Prop :=
  t' = set_invites (filter (fun kv => expired now kv.2 = false) (t_invites t)) t /\ evs = [].

(** What a committed request did to the tables, and the events it registered. *)
Definition invite_effect (svc : Service) (a : Z) (req : InviteRequest) (t t' : Tables)
    (evs : list (Event Payload)) : Prop :=
  match req with
  | InvCreate now reads input =>
      0 <= cii_MaxUses input <= MaxInviteUses /\ 0 <= cii_MaxAge input <= MaxInviteMaxAge /\
      exists id out, CreateInvite_effect svc a now input id t out t' evs
  | InvRedeem now rawCode =>
      exists code out, ParseInviteCode rawCode = Some code /\ RedeemInvite_effect svc a now code t out t' evs
  | InvRevoke now rawCode =>
      exists code, ParseInviteCode rawCode = Some code /\ RevokeInvite_effect a now code t t' evs
  | InvSweep now => Sweep_effect now t t' evs
  end.

Lemma handle_invite_outcome svc a req s :
  wf (tabs s) -> invites_keyed (tabs s) -> outcome (invite_effect svc a req) s (handle_invite svc a req s).
Proof.
  intros Hwf Hk. destruct req; cbn [handle_invite invite_effect].
  - unfold Service_CreateInvite. rewrite bind_assoc_run. apply refuse_if_outcome. intros Hu.
    rewrite bind_assoc_run. apply refuse_if_outcome. intros Hm. rewrite bind_assoc_run.
    apply ids_Next_outcome. intros id s1 Ht1 _ _. bool_hyps.
    eapply outcome_mono; [|apply (tx_outcome _ (fun t out t' evs => CreateInvite_effect svc a now input id t out t' evs));
      [auto with norite|intros s2 Ht2 Hh; apply wp_CreateInvite_tx; [by rewrite Ht2, Ht1|done]]].
    intros t' evs [out He]. split; [done|]. split; [done|]. by exists id, out.
  - unfold Service_RedeemInvite. destruct (ParseInviteCode rawCode) as [code|] eqn:E; [|done].
    eapply outcome_mono; [|apply (tx_outcome _ (fun t out t' evs => RedeemInvite_effect svc a now code t out t' evs));
      [auto with norite|intros s1 Ht1 Hh; by apply wp_RedeemInvite_tx]].
    intros t' evs [out H]. by exists code, out.
  - unfold Service_RevokeInvite. destruct (ParseInviteCode rawCode) as [code|] eqn:E; [|done].
    eapply outcome_mono; [|apply (tx_outcome_unit _ (fun t t' evs => RevokeInvite_effect a now code t t' evs));
      [auto with norite|intros s1 Ht1 Hh; apply wp_RevokeInvite_tx; [by rewrite Ht1..|done]]].
    intros t' evs H. by exists code.
  - unfold Queries_DeleteExpiredGuildInvites, mbind, M_bind, writing.
    destruct (next_fault s) as [b s1] eqn:Ef. apply next_fault_with in Ef as [fs ->].
    destruct b; cbn; [done|]. exists []. split; [done|]. exists []. cbn. by rewrite app_nil_r.
Qed.

(** ** Histories *)

Inductive Action :=
  | ActGuild (r : Request)
  | ActInvite (r : InviteRequest)
  | ActChat (r : ChatRequest).

Section histories.
Context {coll : Collation}.

Definition act (svc : Service) (actor : Z) (x : Action) : M unit :=
  match x with
  | ActGuild r => handle svc actor r
  | ActInvite r => handle_invite svc actor r
  | ActChat r => handle_chat (events svc) actor r
  end.

Definition history (svc : Service) (acts : list (Z * Action)) (s : St) : St :=
  foldl (fun s ax => (act svc ax.1 ax.2 s).2) s acts.

Definition act_effect (svc : Service) (a : Z) (x : Action) (t t' : Tables) (evs : list (Event Payload))
    : Prop :=
  match x with
  | ActGuild r => effect svc a r t t' evs
  | ActInvite r => invite_effect svc a r t t' evs
  | ActChat r => chat_effect (events svc) a r t t' evs
  end.

(** ** The invariant *)

(** Codes are unique and well formed, an invite leads into a text channel of its own guild, its issuer
    is an account, and its uses are within its bound. *)
Record invites_ok (t : Tables) : Prop := {
  iv_key : invites_keyed t;
  iv_code : forall id1 id2 i1 i2, t_invites t !! id1 = Some i1 -> t_invites t !! id2 = Some i2 ->
    inv_code i1 = inv_code i2 -> id1 = id2;
  iv_letters : forall id i, t_invites t !! id = Some i ->
    letters (inv_code i) /\ String.length (inv_code i) = inviteCodeLength;
  iv_channel : forall id i, t_invites t !! id = Some i -> exists ch,
    t_channels t !! inv_channel_id i = Some ch /\ channel_guild_id ch = Some (inv_guild_id i) /\
    channel_type ch = ChannelGuildText;
  iv_inviter : forall id i, t_invites t !! id = Some i -> is_Some (t_users t !! inv_inviter_id i);
  iv_uses : forall id i, t_invites t !! id = Some i -> uses_sane i = true
}.

Definition guild_inv (t : Tables) : Prop := inv t /\ invites_ok t.

Record whole_inv (t : Tables) : Prop := { wi_guild : guild_inv t; wi_chat : chat_ok t }.

(** Fewer invites, into channels that are still there. *)
Lemma invites_fewer t t' :
  invites_ok t -> t_users t' = t_users t -> t_invites t' ⊆ t_invites t ->
  (forall id i ch, t_invites t' !! id = Some i -> t_channels t !! inv_channel_id i = Some ch ->
     exists ch', t_channels t' !! inv_channel_id i = Some ch' /\
       channel_guild_id ch' = channel_guild_id ch /\ channel_type ch' = channel_type ch) ->
  invites_ok t'.
Proof.
  intros [] Hu Hsub Hch. assert (forall id i, t_invites t' !! id = Some i -> t_invites t !! id = Some i)
    as Hback by (intros; by eapply lookup_weaken). split; rewrite ?Hu.
  - intros id i H. eauto.
  - intros id1 id2 i1 i2 H1 H2. eauto.
  - eauto.
  - intros id i H. destruct (iv_channel0 _ _ (Hback _ _ H)) as (ch & Hc & Hg & Hty).
    destruct (Hch _ _ _ H Hc) as (ch' & ? & Eg & Et). exists ch'. split_and!; congruence.
  - eauto.
  - eauto.
Qed.

(** A guild request adds no invite, and keeps the channel of each it leaves. *)
Lemma effect_invites svc a req t t' evs :
  effect svc a req t t' evs ->
  t_invites t' ⊆ t_invites t /\
  forall id i ch, t_invites t' !! id = Some i -> t_channels t !! inv_channel_id i = Some ch ->
    exists ch', t_channels t' !! inv_channel_id i = Some ch' /\
      channel_guild_id ch' = channel_guild_id ch /\ channel_type ch' = channel_type ch.
Proof.
  destruct req; cbn [effect]; intros He; effect_tables He; try (split; [done|by eauto]).
  - split; [apply map_filter_subseteq|]. cbn. intros id i ch [_ [_ Hi]]%map_lookup_filter_Some Hch.
    cbn in Hi. change (channel_in_guild t (inv_channel_id i) g = false) in Hi.
    exists ch. split_and!; try done. apply map_lookup_filter_Some. split; [done|]. cbn.
    intros Hg. rewrite (proj2 (channel_in_guild_true t _ g)) in Hi; [done|eauto].
  - assert (t_invites (with_copied (cci_ParentID r) x (set_channels (<[x := new_channel x g r]> (t_channels t)) t))
      = t_invites t /\ t_channels (with_copied (cci_ParentID r) x
        (set_channels (<[x := new_channel x g r]> (t_channels t)) t)) = <[x := new_channel x g r]> (t_channels t))
      as [E1 E2] by (by destruct (cci_ParentID r)).
    split; [by rewrite <- E1|]. intros id i ch _ Hch. exists ch. split; [|done].
    change (t_channels (with_copied (cci_ParentID r) x
      (set_channels (<[x := new_channel x g r]> (t_channels t)) t)) !! inv_channel_id i = Some ch).
    rewrite E2, lookup_insert_ne; congruence.
  - split; [done|]. intros id i ch _ Hch. cbn. destruct (decide (inv_channel_id i = c)) as [E|].
    + rewrite E in *. rewrite lookup_insert_eq. eexists. split; [done|]. by simplify_eq.
    + rewrite lookup_insert_ne by done. eauto.
  - split; [apply map_filter_subseteq|]. cbn. intros id i ch [_ Hi]%map_lookup_filter_Some Hch. cbn in Hi.
    unfold channels_without. rewrite lookup_fmap, lookup_delete_ne, Hch by done. eexists. split; [done|].
    unfold detach. by case_decide.
Qed.

Lemma code_taken_false code t :
  code_taken code t = false -> forall id i, t_invites t !! id = Some i -> inv_code i <> code.
Proof.
  unfold code_taken. rewrite bool_decide_eq_false, Exists_exists. intros H id i Hi E. apply H. exists i.
  split; [|done]. apply list_elem_of_fmap. exists (id, i). split; [done|]. by apply elem_of_map_to_list.
Qed.

(** Replacing a row by one that differs in its uses, or dropping it. *)
Lemma invites_spend i t :
  invites_ok t -> t_invites t !! inv_id i = Some i -> exhausted i = false -> invites_ok (spend i t).
Proof.
  intros Hok Hi Hex. pose proof Hok as []. unfold spend. destruct (exhausted (with_uses _ i)) eqn:E.
  { apply (invites_fewer t); [done|done|apply delete_subseteq|]. intros id i' ch _ Hch. by exists ch. }
  assert (forall id i', <[inv_id i := with_uses (inv_uses i + 1) i]> (t_invites t) !! id = Some i' ->
    exists i0, t_invites t !! id = Some i0 /\ inv_id i' = inv_id i0 /\ inv_code i' = inv_code i0 /\
      inv_guild_id i' = inv_guild_id i0 /\ inv_channel_id i' = inv_channel_id i0 /\
      inv_inviter_id i' = inv_inviter_id i0 /\ (uses_sane i' = true \/ i' = i0)) as Hback.
  { intros id i' [[<- <-]|[Hne H]]%lookup_insert_Some.
    - exists i. split_and!; try done. left. specialize (iv_uses0 _ _ Hi).
      unfold uses_sane, exhausted, with_uses in *. cbn in *. destruct (inv_max_uses i); bool_hyps;
        rewrite ?andb_true_r; [|by apply Z.leb_le; lia].
      apply andb_true_iff. split; [apply Z.leb_le; lia|]. apply andb_true_iff. split; [by apply Z.ltb_lt|].
      apply Z.leb_le. lia.
    - exists i'. split_and!; auto. }
  split; cbn.
  - intros id i' (i0 & H & -> & _)%Hback. by apply iv_key0.
  - intros id1 id2 i1 i2 (j1 & H1 & _ & E1 & _)%Hback (j2 & H2 & _ & E2 & _)%Hback Hc.
    eapply iv_code0; [exact H1|exact H2|congruence].
  - intros id i' (i0 & H & _ & -> & _)%Hback. eauto.
  - intros id i' (i0 & H & _ & _ & -> & -> & _)%Hback. eauto.
  - intros id i' (i0 & H & _ & _ & _ & _ & -> & _)%Hback. eauto.
  - intros id i' (i0 & H & _ & _ & _ & _ & _ & [?| ->])%Hback; eauto.
Qed.

Lemma live_not_exhausted now i : live now i = true -> exhausted i = false.
Proof.
  unfold live, exhausted. intros [_ H]%andb_true_iff. destruct (inv_max_uses i); [|done].
  apply Z.leb_gt. by apply Z.ltb_lt in H.
Qed.

Lemma wf_new_member t g a :
  wf t -> is_Some (t_guilds t !! g) ->
  wf (set_members (<[(g, a) := new_member g a]> (t_members t)) t).
Proof.
  intros [] Hg. split; cbn; try assumption.
  - intros g' u m [[[= <- <-] <-]|[_ H]]%lookup_insert_Some; [done|eauto].
  - intros g' gr H. destruct (wf_owner _ _ H) as [? ?]. split; [done|]. by apply lookup_insert_is_Some'; right.
  - intros g' u id H. destruct (wf_grant _ _ _ H) as [? ?]. split; [|done]. by apply lookup_insert_is_Some'; right.
Qed.

Lemma spend_frame i t : exists m, spend i t = set_invites m t.
Proof. unfold spend, without_invite. destruct (exhausted _); by eexists. Qed.

(** The tables' invariant does not look at the invites. *)
Lemma inv_frame t t' :
  inv t -> t_users t' = t_users t -> t_guilds t' = t_guilds t -> t_members t' = t_members t ->
  t_roles t' = t_roles t -> t_member_roles t' = t_member_roles t -> t_channels t' = t_channels t ->
  t_overwrites t' = t_overwrites t -> inv t'.
Proof. intros [Hwf Hc] ???????. split; [by apply (wf_frame t)|by apply (channels_frame t)]. Qed.

Lemma invites_frame t t' :
  invites_ok t -> t_users t' = t_users t -> t_invites t' = t_invites t -> t_channels t' = t_channels t ->
  invites_ok t'.
Proof.
  intros H Hu Hi Hc. apply (invites_fewer t); [done|done|by rewrite Hi|]. rewrite Hi, Hc. eauto.
Qed.

Lemma invites_create t now p code :
  let i := new_invite now (with_code code p) in
  invites_ok t -> letters code -> String.length code = inviteCodeLength -> code_taken code t = false ->
  uses_sane i = true -> t_invites t !! gi_ID p = None -> is_Some (t_users t !! gi_InviterID p) ->
  (exists ch, t_channels t !! gi_ChannelID p = Some ch /\ channel_guild_id ch = Some (gi_GuildID p) /\
     channel_type ch = ChannelGuildText) ->
  invites_ok (set_invites (<[gi_ID p := i]> (t_invites t)) t).
Proof.
  intros i [] Hl Hn Ht Hs Hid Hu Hch. pose proof (code_taken_false _ _ Ht) as Hfresh.
  split; unfold invites_keyed; cbn.
  - intros id i' [[<- <-]|[_ H]]%lookup_insert_Some; [done|]. by apply iv_key0.
  - intros id1 id2 i1 i2 [[<- <-]|[? H1]]%lookup_insert_Some [[<- <-]|[? H2]]%lookup_insert_Some Hc.
    + done.
    + exfalso. by apply (Hfresh _ _ H2).
    + exfalso. by apply (Hfresh _ _ H1).
    + eauto.
  - intros id i' [[<- <-]|[_ H]]%lookup_insert_Some; [done|eauto].
  - intros id i' [[<- <-]|[_ H]]%lookup_insert_Some; [done|eauto].
  - intros id i' [[<- <-]|[_ H]]%lookup_insert_Some; [done|eauto].
  - intros id i' [[<- <-]|[_ H]]%lookup_insert_Some; [done|eauto].
Qed.

Lemma named_account_user t u user : named_account t u = Some user -> is_Some (t_users t !! u).
Proof. unfold named_account. by destruct (t_users t !! u). Qed.

Lemma invite_effect_inv svc a req t t' evs :
  guild_inv t -> invite_effect svc a req t t' evs -> guild_inv t'.
Proof.
  intros [Hinv Hok]. pose proof (iv_key _ Hok) as Hk. destruct req; cbn [invite_effect].
  - intros (_ & _ & id & out & g & d & aid & ch & code & creator & Hch & Hg & Hty & _ & _ & Hl & Hn & Ht & Hs &
      Hid & _ & Hc & -> & _). split; [by apply (inv_frame t)|].
    apply (invites_frame (set_invites (<[id := new_invite now (with_code code (invite_params id g a input))]>
      (t_invites t)) t)); [|done..].
    apply (invites_create t now (invite_params id g a input)); try done; [by eapply named_account_user|].
    cbn. eauto.
  - intros (code & out & _ & i & g & Hi & Hg & _ & [(_ & -> & _)|(aid & Hm & Hu & _ & _ & _ & -> & _)]); [done|].
    destruct (live_invite_Some _ _ _ _ Hk Hi) as (Hl & _ & Hlive).
    destruct (spend_frame i t) as [m Em]. split.
    + apply (inv_frame (set_members (<[(inv_guild_id i, a) := new_member (inv_guild_id i) a]> (t_members t)) t));
        [|unfold joined; by rewrite Em..].
      destruct Hinv as [Hwf Hc]. split; [by apply wf_new_member; eauto|]. by apply (channels_frame t).
    + apply (invites_frame (spend i t)); [|done..]. apply invites_spend; [done|done|].
      by eapply live_not_exhausted.
  - intros (code & _ & i & d & aid & _ & _ & _ & _ & _ & -> & _). split; [by apply (inv_frame t)|].
    apply (invites_fewer t); [done|done|apply delete_subseteq|]. cbn. eauto.
  - intros [-> _]. split; [by apply (inv_frame t)|].
    apply (invites_fewer t); [done|done|apply map_filter_subseteq|]. cbn. eauto.
Qed.

Lemma guild_effect_inv svc a req t t' evs : guild_inv t -> effect svc a req t t' evs -> guild_inv t'.
Proof.
  intros [Hinv Hok] He. split; [split; [by eapply effect_wf|by eapply effect_channels]|].
  destruct (effect_invites _ _ _ _ _ _ He) as [Hsub Hch]. destruct (effect_accounts _ _ _ _ _ _ He).
  by apply (invites_fewer t).
Qed.

(** The invites leave the conversations and the channels they are in alone. *)
Lemma invite_effect_leaves svc a req t t' evs :
  invite_effect svc a req t t' evs -> leaves (fun _ => false) None t t'.
Proof.
  intros He. destruct req; cbn in He.
  - destruct He as (_ & _ & id & out & g' & d & aid & ch & code & creator & _ & _ & _ & _ & _ & _ & _ & _ & _ & _ & _ & _ & -> & _).
    by apply leaves_nothing; [..|apply channels_same|].
  - destruct He as (code & out & _ & i & g' & _ & _ & _ & [(_ & -> & _)|(aid & _ & _ & _ & _ & _ & -> & _)]);
      [by apply leaves_nothing; [..|apply channels_same|]|].
    destruct (spend_frame i t) as [m Em]. unfold joined. rewrite Em. by apply leaves_nothing; [..|apply channels_same|].
  - destruct He as (code & _ & i & d & aid & _ & _ & _ & _ & _ & -> & _).
    by apply leaves_nothing; [..|apply channels_same|].
  - destruct He as [-> _]. by apply leaves_nothing; [..|apply channels_same|].
Qed.

Lemma chat_effect_inv bus a req t t' evs : guild_inv t -> chat_effect bus a req t t' evs -> guild_inv t'.
Proof.
  intros [Hinv Hok] []%chat_effect_only. split; [by apply (inv_frame t)|by apply (invites_frame t)].
Qed.

Lemma act_effect_inv svc a x t t' evs : whole_inv t -> act_effect svc a x t t' evs -> whole_inv t'.
Proof.
  intros [Hg Hc]. destruct x as [r|r|r]; cbn; intros He; split.
  - by eapply guild_effect_inv.
  - destruct (effect_leaves _ _ _ _ _ _ He) as (gone & og & L). by eapply leaves_chat_ok.
  - by eapply invite_effect_inv.
  - eapply leaves_chat_ok; [by eapply invite_effect_leaves|done].
  - by eapply chat_effect_inv.
  - by eapply chat_effect_ok.
Qed.

Lemma act_outcome svc a x s : whole_inv (tabs s) -> outcome (act_effect svc a x) s (act svc a x s).
Proof.
  intros [[[Hwf _] Hok] [[] _ _]]. destruct x; [by apply handle_outcome|..|by apply handle_chat_outcome].
  apply handle_invite_outcome; [done|]. apply (iv_key _ Hok).
Qed.

Lemma act_inv svc a x s : whole_inv (tabs s) -> whole_inv (tabs (act svc a x s).2).
Proof.
  intros H. pose proof (act_outcome svc a x s H) as Ho. unfold outcome in Ho.
  destruct (act svc a x s) as [[e|u] s']; cbn; [by destruct Ho as [-> _]|].
  destruct Ho as (evs & He & _). by eapply act_effect_inv.
Qed.

(** A property of the tables that every committed action keeps holds after every history. *)
Lemma history_ind svc (P : Tables -> Prop) acts s :
  (forall a x t t' evs, whole_inv t -> P t -> act_effect svc a x t t' evs -> P t') ->
  whole_inv (tabs s) -> P (tabs s) -> whole_inv (tabs (history svc acts s)) /\ P (tabs (history svc acts s)).
Proof.
  intros Hstep. revert s. induction acts as [|[a x] acts IH]; intros s Hinv HP; [done|]. cbn.
  apply IH; [by apply act_inv|]. pose proof (act_outcome svc a x s Hinv) as Ho. unfold outcome in Ho.
  destruct (act svc a x s) as [[e|u] s']; cbn; [by destruct Ho as [-> _]|].
  destruct Ho as (evs & He & _). by eapply Hstep.
Qed.

(** ** The generator over a history *)

Definition forward {A} (m : M A) : Prop := forall s, later (gen s) (gen (m s).2).

Lemma forward_quiet {A} (m : M A) : quiet m -> forward m.
Proof. intros Hq s. apply Hq. Qed.
Lemma forward_tx {A} (fn : M A) : quiet fn -> forward (RunInTx fn).
Proof. intros Hq s. by apply RunInTx_later. Qed.
Lemma forward_bind {A B} (m : M A) (k : A -> M B) : forward m -> (forall a, forward (k a)) -> forward (m ≫= k).
Proof.
  intros Hm Hk s. unfold mbind, M_bind. specialize (Hm s). destruct (m s) as [[e|a] s']; [done|].
  cbn in *. by etrans; [|apply Hk].
Qed.

Ltac forward_steps :=
  repeat first
    [ apply forward_bind; [|intros ?]
    | apply forward_tx; solve [auto with norite]
    | apply forward_quiet; solve [quiet_steps] ].

Lemma act_forward svc a x : forward (act svc a x).
Proof.
  destruct x as [[]|[]|[]]; cbn [act handle handle_invite handle_chat];
    unfold Service_Create, Service_Update, Service_Delete, Service_CreateRole, Service_UpdateRole,
      Service_DeleteRole, Service_ReorderRoles, Service_changeMemberRole, Service_UpdateMember,
      Service_RemoveMember, Service_TransferOwnership, Service_SetOverwrite, Service_DeleteOverwrite,
      Service_CreateChannel, Service_UpdateChannel, Service_DeleteChannel, Service_CreateInvite,
      Service_RedeemInvite, Service_RevokeInvite, Service_Send, Service_UpdateMessage, Service_DeleteMessage,
      Service_CreateTag, Service_DeleteTag, Service_ApplyTag, Service_UnapplyTag, Service_File,
      Service_ResolveReport;
    try destruct (ParseInviteCode _); try destruct (targetTypeValue _); try destruct (statusValue _); forward_steps.
Qed.

Lemma refuse_if_passed {A} b e (k : M A) s a s' : (refuse_if b e;; k) s = (inr a, s') -> k s = (inr a, s').
Proof. by destruct b. Qed.

(** A created invite's id comes from the generator. *)
Lemma CreateInvite_id svc a now reads input s s' :
  wf (tabs s) -> gen_ok (gen s) -> handle_invite svc a (InvCreate now reads input) s = (inr tt, s') ->
  exists id out evs, mark (gen s) < id <= mark (gen s') /\
    CreateInvite_effect svc a now input id (tabs s) out (tabs s') evs.
Proof.
  intros Hwf Hg. cbn [handle_invite]. unfold Service_CreateInvite. rewrite !bind_assoc_run.
  intros H%refuse_if_passed. rewrite bind_assoc_run in H. apply refuse_if_passed in H. rewrite bind_assoc_run in H.
  revert H. apply (fresh_tx _ (fun id t out t' evs => CreateInvite_effect svc a now input id t out t' evs)); [auto with norite|done|].
  intros id s1 Ht Hh. rewrite <- Ht. apply wp_CreateInvite_tx; [by rewrite Ht|done].
Qed.

(** ** Counting the joins *)

(** The invite a redemption let its account in through: it was not a member, and is one now. *)
Definition joined_through (svc : Service) (a : Z) (x : Action) (s : St) : option Z :=
  match x with
  | ActInvite (InvRedeem now rawCode) =>
      code ← ParseInviteCode rawCode;
      i ← live_invite now code (tabs s);
      if bool_decide (t_members (tabs s) !! (inv_guild_id i, a) = None) &&
         bool_decide (is_Some (t_members (tabs (act svc a x s).2) !! (inv_guild_id i, a)))
      then Some (inv_id i) else None
  | _ => None
  end.

(** The invites used over a history, one entry for each account let in. *)
Fixpoint joins (svc : Service) (acts : list (Z * Action)) (s : St) : list Z :=
  match acts with
  | [] => []
  | (a, x) :: acts => option_list (joined_through svc a x s) ++ joins svc acts (act svc a x s).2
  end.

Definition times (id : Z) (l : list Z) : Z := count (filter (fun j => j = id) l).

Lemma times_nil id : times id [] = 0.
Proof. done. Qed.

Lemma times_app id l1 l2 : times id (l1 ++ l2) = times id l1 + times id l2.
Proof. unfold times, count. rewrite filter_app, length_app. lia. Qed.

Lemma times_option id o : times id (option_list o) = if decide (o = Some id) then 1 else 0.
Proof.
  unfold times, count. destruct o as [j|]; [|by rewrite decide_False]. change (option_list (Some j)) with [j].
  rewrite filter_cons, filter_nil. destruct (decide (j = id)) as [->|].
  - by rewrite decide_True.
  - rewrite decide_False by congruence. done.
Qed.

(** No invite has an id the generator has yet to issue. *)
Definition ids_issued (s : St) : Prop :=
  gen_ok (gen s) /\ forall id, is_Some (t_invites (tabs s) !! id) -> id <= mark (gen s).

(** What one action does to the invite with an id already issued: it may end, a join through it counts
    one use of it that it had left, and nothing else changes its uses or their bound. *)
Definition uses_step (id n : Z) (t t' : Tables) : Prop :=
  (n = 0 \/ exists i, t_invites t !! id = Some i /\ n = 1 /\
     (forall m, inv_max_uses i = Some m -> inv_uses i + 1 <= m)) /\
  forall i', t_invites t' !! id = Some i' -> exists i, t_invites t !! id = Some i /\
    inv_max_uses i' = inv_max_uses i /\ inv_uses i' = inv_uses i + n.

Lemma uses_fewer id t t' : t_invites t' ⊆ t_invites t -> uses_step id 0 t t'.
Proof.
  intros Hs. split; [by left|]. intros i' Hi'. exists i'. split_and!; [by eapply lookup_weaken|done|lia].
Qed.

(** An action answered without a join: no use is spent. *)
Lemma redeem_uses svc a now code t out t' evs id :
  invites_keyed t -> RedeemInvite_effect svc a now code t out t' evs ->
  exists i, live_invite now code t = Some i /\
    uses_step id (if decide ((if bool_decide (t_members t !! (inv_guild_id i, a) = None) &&
         bool_decide (is_Some (t_members t' !! (inv_guild_id i, a)))
      then Some (inv_id i) else None) = Some id) then 1 else 0) t t'.
Proof.
  intros Hk (i & g & Hi & _ & _ & [([m Hm] & -> & _)|(aid & Hm & _ & _ & _ & _ & -> & _)]); exists i; (split; [done|]).
  - rewrite bool_decide_false by congruence. cbn. by apply uses_fewer.
  - rewrite bool_decide_true by done. cbn. rewrite bool_decide_true by (by rewrite lookup_insert_eq).
    destruct (live_invite_Some _ _ _ _ Hk Hi) as (Hl & _ & Hlive). cbn. split.
    + destruct (decide (Some (inv_id i) = Some id)) as [[= <-]|]; [right|by left]. exists i.
      split_and!; [done..|]. intros m Hmax. apply live_not_exhausted in Hlive. unfold exhausted in Hlive.
      rewrite Hmax in Hlive. bool_hyps. lia.
    + intros i'. unfold joined, spend. cbn. destruct (exhausted _); cbn.
      * intros [Hne H]%lookup_delete_Some. exists i'. rewrite decide_False by congruence. split_and!; [done..|lia].
      * intros [[<- <-]|[Hne H]]%lookup_insert_Some; [exists i|exists i'].
        -- by rewrite decide_True.
        -- rewrite decide_False by congruence. split_and!; [done..|lia].
Qed.

Lemma joined_through_same svc a x s :
  tabs (act svc a x s).2 = tabs s -> joined_through svc a x s = None.
Proof.
  intros E. unfold joined_through. rewrite E. destruct x as [|[]|]; try done.
  destruct (ParseInviteCode rawCode) as [code|]; [|done]. cbn.
  destruct (live_invite now code (tabs s)) as [i|]; [|done]. cbn.
  case_bool_decide as H1; [|done]. case_bool_decide as H2; [|done]. rewrite H1 in H2. by destruct H2.
Qed.

Lemma issued_fewer svc a x s :
  ids_issued s -> t_invites (tabs (act svc a x s).2) ⊆ t_invites (tabs s) -> ids_issued (act svc a x s).2.
Proof.
  intros [Hg Hids] Hs. destruct (act_forward svc a x s Hg) as [Hg' Hm]. split; [done|].
  intros j [i Hj]. assert (j <= mark (gen s)); [|lia]. apply Hids. exists i. by eapply lookup_weaken.
Qed.

Lemma dom_issued svc a x s :
  ids_issued s -> (forall j, is_Some (t_invites (tabs (act svc a x s).2) !! j) -> is_Some (t_invites (tabs s) !! j)) ->
  ids_issued (act svc a x s).2.
Proof.
  intros [Hg Hids] Hs. destruct (act_forward svc a x s Hg) as [Hg' Hm]. split; [done|].
  intros j Hj. specialize (Hids j (Hs j Hj)). lia.
Qed.

Lemma act_uses svc a x s id :
  whole_inv (tabs s) -> ids_issued s -> id <= mark (gen s) ->
  ids_issued (act svc a x s).2 /\
  uses_step id (if decide (joined_through svc a x s = Some id) then 1 else 0) (tabs s) (tabs (act svc a x s).2).
Proof.
  intros Hinv Hids Hid. pose proof (act_outcome svc a x s Hinv) as Ho.
  pose proof (iv_key _ (proj2 (wi_guild _ Hinv))) as Hk.
  pose proof (issued_fewer svc a x s Hids) as Hfew. pose proof (dom_issued svc a x s Hids) as Hdom.
  pose proof (act_forward svc a x s) as Hfwd.
  unfold joined_through. pose proof (joined_through_same svc a x s) as Hsame. unfold joined_through in Hsame.
  destruct (act svc a x s) as [[e|[]] s'] eqn:E; cbn [snd outcome] in *.
  { destruct Ho as [Ht _]. rewrite Hsame, decide_False by done. rewrite Ht in *.
    split; [by apply Hfew|by apply uses_fewer]. }
  destruct Ho as (evs & He & _). destruct x as [r|[now reads input|now raw|now raw|now]|r]; cbn in He.
  - destruct (effect_invites _ _ _ _ _ _ He) as [Hs _]. split; [by apply Hfew|by apply uses_fewer].
  - clear He. destruct Hids as [Hg Hids]. destruct (CreateInvite_id _ _ _ _ _ _ _ (proj1 (proj1 (wi_guild _ Hinv))) Hg E)
      as (id' & out & evs' & Hid' & g & d & aid & ch & code & creator & _ & _ & _ & _ & _ & _ & _ & _ & _ & _ & _ & _ & Ht & _).
    rewrite Ht. cbn. split.
    + split; [by apply Hfwd|]. rewrite Ht. cbn. intros j [<-|Hj]%lookup_insert_is_Some'; [lia|].
      specialize (Hids j Hj). lia.
    + split; [by left|]. intros i'. cbn. rewrite lookup_insert_ne by lia. intros Hi'. exists i'.
      split_and!; [done..|]. symmetry. apply Z.add_0_r.
  - destruct He as (code & out & -> & He). cbn. destruct (redeem_uses _ _ _ _ _ _ _ _ id Hk He) as (i & -> & Hu).
    split; [|exact Hu]. apply Hdom. intros j Hj. clear Hu.
    destruct He as (i' & g & Hi & _ & _ & [(_ & Ht & _)|(aid & _ & _ & _ & _ & _ & Ht & _)]); rewrite Ht in Hj; [done|].
    revert Hj. unfold joined, spend. destruct (live_invite_Some _ _ _ _ Hk Hi) as (Hl & _).
    cbn. destruct (exhausted _); cbn.
    + intros [? [_ ?]%lookup_delete_Some]. by eexists.
    + intros [<-|?]%lookup_insert_is_Some'; [by eexists|done].
  - destruct He as (code & _ & i & d & aid & _ & _ & _ & _ & _ & Ht & _). rewrite Ht in *. cbn in *.
    split; [apply Hfew, delete_subseteq|apply uses_fewer, delete_subseteq].
  - destruct He as [Ht _]. rewrite Ht in *. split; [apply Hfew, map_filter_subseteq|apply uses_fewer, map_filter_subseteq].
  - apply chat_effect_only in He. split; [apply Hfew|apply uses_fewer]; by rewrite (cf_invites _ _ He).
Qed.

(** An invite that has ended never comes back. *)
Lemma joins_ended svc acts s id :
  whole_inv (tabs s) -> ids_issued s -> id <= mark (gen s) -> t_invites (tabs s) !! id = None ->
  times id (joins svc acts s) = 0 /\ t_invites (tabs (history svc acts s)) !! id = None.
Proof.
  revert s. induction acts as [|[a x] acts IH]; intros s Hinv Hids Hid Hnone; [done|]. cbn.
  destruct (act_uses svc a x s id Hinv Hids Hid) as (Hids' & Hn & Hback).
  destruct (act_forward svc a x s (proj1 Hids)) as [_ Hm].
  assert (t_invites (tabs (act svc a x s).2) !! id = None) as Hnone'.
  { apply eq_None_not_Some. intros [i' (i & Hi & _)%Hback]. congruence. }
  destruct (IH (act svc a x s).2) as [H1 H2]; [by apply act_inv|done|lia|done|]. split; [|done].
  rewrite times_app, times_option, H1. destruct Hn as [->|(i & Hi & _)]; [done|congruence].
Qed.

Lemma joins_bounded svc acts s id i m :
  whole_inv (tabs s) -> ids_issued s -> t_invites (tabs s) !! id = Some i -> inv_max_uses i = Some m ->
  inv_uses i <= m ->
  times id (joins svc acts s) <= m - inv_uses i /\
  forall i', t_invites (tabs (history svc acts s)) !! id = Some i' ->
    times id (joins svc acts s) = inv_uses i' - inv_uses i.
Proof.
  revert s i. induction acts as [|[a x] acts IH]; intros s i Hinv Hids Hi Hm Hle.
  { cbn. rewrite times_nil. split; [lia|]. intros i' Hi'. simplify_eq. lia. }
  cbn. assert (id <= mark (gen s)) as Hid by (apply (proj2 Hids); eauto).
  destruct (act_uses svc a x s id Hinv Hids Hid) as (Hids' & Hn & Hback).
  destruct (act_forward svc a x s (proj1 Hids)) as [_ Hmk]. rewrite times_app, times_option.
  set (n := if decide _ then 1 else 0) in *.
  destruct (t_invites (tabs (act svc a x s).2) !! id) as [i1|] eqn:Hi1.
  - destruct (Hback i1 eq_refl) as (i0 & Hi0 & Hmax & Hu). simplify_eq. rewrite Hm in Hmax.
    assert (inv_uses i + n <= m) as Hle'.
    { destruct Hn as [->|(j & Hj & -> & Hj')]; [lia|]. simplify_eq. by apply Hj'. }
    destruct (IH (act svc a x s).2 i1) as [H1 H2]; [by apply act_inv|done..|lia|]. split; [lia|].
    intros i' Hi'. specialize (H2 i' Hi'). lia.
  - destruct (joins_ended svc acts (act svc a x s).2 id) as [H1 H2]; [by apply act_inv|done|lia|done|].
    rewrite H1. split.
    2: { intros i' Hi'. change (t_invites (tabs (history svc acts (act svc a x s).2)) !! id = Some i') in Hi'.
         congruence. }
    destruct Hn as [->|(j & Hj & -> & Hj')]; [lia|].
    simplify_eq. specialize (Hj' m Hm). lia.
Qed.

(** ** Ceilings *)

Definition live_in (now g : Z) (kv : Z * dbInvite) : Prop := inv_guild_id kv.2 = g /\ live now kv.2 = true.
#[export] Instance live_in_dec now g kv : Decision (live_in now g kv).
Proof. unfold live_in. apply _. Defined.

Lemma count_live t now g : count (live_invites now g t) = matching (live_in now g) (t_invites t).
Proof.
  rewrite <- matching_list. unfold count, live_invites, invite_rows. by rewrite length_filter_fmap.
Qed.

(** What is live later was live before. *)
Lemma live_earlier now now' i : now <= now' -> live now' i = true -> live now i = true.
Proof.
  unfold live. intros Hle [He Hu]%andb_true_iff. rewrite Hu, andb_true_r.
  destruct (inv_expires_at i); [|done]. apply Z.ltb_lt. apply Z.ltb_lt in He. lia.
Qed.

Lemma live_count_later t now now' g :
  now <= now' -> count (live_invites now' g t) <= count (live_invites now g t).
Proof.
  intros Hle. rewrite !count_live. apply matching_mono. intros k i Hi [Hg Hl]. exists i. split; [done|].
  split; [done|]. by eapply live_earlier.
Qed.

(** The database's clock at an action that reads it. *)
Definition clock_of (x : Action) : option Z :=
  match x with
  | ActGuild _ | ActChat _ => None
  | ActInvite (InvCreate now _ _) | ActInvite (InvRedeem now _) | ActInvite (InvRevoke now _)
  | ActInvite (InvSweep now) => Some now
  end.

(** The clock after a history that starts at [now]; [None] if it ever goes back. *)
Fixpoint clock_after (now : Z) (acts : list (Z * Action)) : option Z :=
  match acts with
  | [] => Some now
  | (_, x) :: acts =>
      match clock_of x with
      | None => clock_after now acts
      | Some now' => if now <=? now' then clock_after now' acts else None
      end
  end.

(** No guild has more live invites than the ceiling. *)
Definition invites_within (svc : Service) (now : Z) (t : Tables) : Prop :=
  forall g, count (live_invites now g t) <= maxInvitesPerGuild svc.

Lemma act_effect_live svc a x t t' evs now :
  act_effect svc a x t t' evs -> invites_keyed t ->
  (forall now', clock_of x = Some now' -> now = now') ->
  invites_within svc now t -> invites_within svc now t'.
Proof.
  intros He Hk Hnow Hw g. specialize (Hw g). rewrite count_live in *.
  assert (t_invites t' ⊆ t_invites t -> matching (live_in now g) (t_invites t') <= maxInvitesPerGuild svc)
    as Hfew by (intros; etrans; [by apply matching_subseteq|done]).
  destruct x as [r|[now' reads input|now' raw|now' raw|now']|r]; cbn in He.
  - destruct (effect_invites _ _ _ _ _ _ He) as [Hs _]. by apply Hfew.
  - destruct He as (_ & _ & id & out & g' & d & aid & ch & code & creator & _ & _ & _ & _ & Hmax & _ & _ & _ & _ & _ & _ & _ & -> & _).
    rewrite <- (Hnow now' eq_refl) in *. rewrite count_live in Hmax. cbn.
    destruct (decide (g' = g)) as [->|Hne]; [etrans; [apply matching_insert|]; lia|].
    etrans; [apply matching_insert_out|done]. by intros [? _].
  - destruct He as (code & out & _ & i & g' & Hi & _ & _ & [(_ & -> & _)|(aid & _ & _ & _ & _ & _ & -> & _)]); [done|].
    destruct (live_invite_Some _ _ _ _ Hk Hi) as (Hl & _ & Hlive). unfold joined, spend. cbn.
    destruct (exhausted _); cbn; [etrans; [apply matching_subseteq, delete_subseteq|done]|].
    etrans; [eapply matching_replace; [exact Hl|]|done]. intros [Hg _]. split; [done|].
    by rewrite (Hnow now' eq_refl).
  - destruct He as (code & _ & i & d & aid & _ & _ & _ & _ & _ & -> & _). cbn. apply Hfew, delete_subseteq.
  - destruct He as [-> _]. cbn. apply Hfew, map_filter_subseteq.
  - apply chat_effect_only in He. apply Hfew. by rewrite (cf_invites _ _ He).
Qed.

Lemma limits_frame svc t t1 :
  within_limits svc t -> t_roles t1 = t_roles t -> t_channels t1 = t_channels t -> t_guilds t1 = t_guilds t ->
  t_members t1 = t_members t -> t_overwrites t1 = t_overwrites t -> within_limits svc t1.
Proof.
  intros [H1 H2 H3 H4 H5] Er Ec Eg Em Eo.
  split; intros k; [rewrite count_roles, Er|rewrite count_channels, Ec|rewrite count_owned, Eg
    |rewrite count_joined, Em|rewrite count_overwrites, Eo];
    rewrite <- ?count_roles, <- ?count_channels, <- ?count_owned, <- ?count_joined, <- ?count_overwrites; auto.
Qed.

Lemma invite_effect_limits svc a r t t' evs :
  invite_effect svc a r t t' evs -> within_limits svc t -> within_limits svc t'.
Proof.
  intros He Hl.
  destruct r; cbn in He.
  - destruct He as (_ & _ & id & out & g' & d & aid & ch & code & creator & _ & _ & _ & _ & _ & _ & _ & _ & _ & _ & _ & _ & -> & _).
    by apply (limits_frame svc t).
  - destruct He as (code & out & _ & i & g' & _ & _ & _ & [(_ & -> & _)|(aid & Hm & _ & Hj & _ & _ & -> & _)]); [done|].
    destruct (spend_frame i t) as [m Em]. unfold joined. rewrite Em. destruct Hl as [H1 H2 H3 H4 H5].
    split; [exact H1|exact H2|exact H3| |exact H5]. intros u. rewrite count_joined. cbn.
    destruct (decide (a = u)) as [->|Hne].
    + etrans; [apply matching_insert|]. rewrite count_joined in Hj. lia.
    + etrans; [by apply matching_insert_out|]. rewrite <- count_joined. apply H4.
  - destruct He as (code & _ & i & d & aid & _ & _ & _ & _ & _ & -> & _). by apply (limits_frame svc t).
  - destruct He as [-> _]. by apply (limits_frame svc t).
Qed.

Lemma act_effect_limits svc a x t t' evs :
  whole_inv t -> 1 <= maxRolesPerGuild svc -> act_effect svc a x t t' evs ->
  within_limits svc t -> within_limits svc t'.
Proof.
  intros Hinv Hmax He Hl. destruct x as [r|r|r]; cbn in He; [by eapply effect_limits; [apply Hinv|..]|..].
  - by eapply invite_effect_limits.
  - apply chat_effect_only in He as []. by apply (limits_frame svc t).
Qed.

Lemma act_ceilings svc a x s now :
  whole_inv (tabs s) -> 1 <= maxRolesPerGuild svc -> within_limits svc (tabs s) ->
  (forall now', clock_of x = Some now' -> now = now') -> invites_within svc now (tabs s) ->
  within_limits svc (tabs (act svc a x s).2) /\ invites_within svc now (tabs (act svc a x s).2).
Proof.
  intros Hinv Hmax Hl Hc Hw. pose proof (act_outcome svc a x s Hinv) as Ho. unfold outcome in Ho.
  destruct (act svc a x s) as [[e|u] s']; cbn; [by destruct Ho as [-> _]|]. destruct Ho as (evs & He & _).
  split; [by eapply act_effect_limits|]. eapply act_effect_live; [done|apply (iv_key _ (proj2 (wi_guild _ Hinv)))|done..].
Qed.

(** ** Properties *)

(** Every invite request is atomic and does what its specification says. From tables in the
    invariant, whoever sends it and whichever statements fail, a request either answers, and then the
    tables are exactly those its effect describes and the bus received the effect's events, some of
    them at least in order and all of them if nothing failed; or it reports an error, and then no
    table and nothing on the bus changed. A redemption that joins spends one use, adds a member with
    no roles, writes the entry and tells the joiner before the guild; one by a member changes nothing. *)
Theorem invite_request_atomic (svc : Service) (a : Z) (req : InviteRequest) (s : St)
    (Hwf : wf (tabs s)) (Hk : invites_keyed (tabs s)) :
  match handle_invite svc a req s with
  | (inr _, s') => exists evs, invite_effect svc a req (tabs s) (tabs s') evs /\ delivered s s' evs
  | (inl _, s') => tabs s' = tabs s /\ published s' = published s
  end.
Proof. pose proof (handle_invite_outcome svc a req s Hwf Hk) as H. exact H. Qed.

(** Every request is atomic and does what its specification says, those of invites, messages, tags
    and reports too. From tables in the invariant, whoever sends it and whichever statements fail, a
    request either answers, and then the tables are exactly those its effect describes and the bus
    received the effect's events, in order and all of them if nothing failed; or it reports an error,
    and then no table and nothing on the bus changed. Nothing but the effect happens: a message request
    writes its message, its earlier version, its recording and its entry, and leaves the guild alone. *)
Theorem action_atomic (svc : Service) (a : Z) (x : Action) (s : St) (Hinv : whole_inv (tabs s)) :
  match act svc a x s with
  | (inr _, s') => (exists evs, act_effect svc a x (tabs s) (tabs s') evs /\ delivered s s' evs) /\
      match x with ActChat _ => chat_only (tabs s) (tabs s') | _ => True end
  | (inl _, s') => tabs s' = tabs s /\ published s' = published s
  end.
Proof.
  pose proof (act_outcome svc a x s Hinv) as H. unfold outcome in H. destruct (act svc a x s) as [[e|u] s']; [done|].
  split; [done|]. destruct H as (evs & He & _). destruct x; try done. by eapply chat_effect_only.
Qed.

(** C3: the invariant of the tables holds over every history of requests, of the guild, its invites, its
    messages, tags and reports, and of sweeps, whoever sends them, at any clock readings, with any
    statement failing. Besides the guild tables' own: codes stay unique and well formed, every invite
    leads into a text channel of its own guild (so none outlives its channel or its guild) and none is
    used past its bound; every message is in a channel there is and answers one there, every earlier
    version is of a message there is; a tag belongs to a guild there is, its name taken once where it is
    seen, and sits on messages of its own guild, with at most 200 shared and 100 private to a member;
    and no account has two open reports on one message. *)
Theorem history_preserves_invariant (svc : Service) (acts : list (Z * Action)) (s : St)
    (Hinv : whole_inv (tabs s)) : whole_inv (tabs (history svc acts s)).
Proof. by apply (history_ind svc (fun _ => True)). Qed.

(** C20: a counted invite lets in exactly as many as it says. Over any history, at any clock readings
    and with any statement failing, at most as many accounts join through an invite as it had uses
    left, and while it is there its counter is the number that did. Its id is never issued again, so
    this is every join it ever gives. *)
Theorem invite_admits_at_most (svc : Service) (acts : list (Z * Action)) (s : St) (id m : Z) (i : dbInvite)
    (Hinv : whole_inv (tabs s)) (Hids : ids_issued s) (Hi : t_invites (tabs s) !! id = Some i)
    (Hm : inv_max_uses i = Some m) :
  times id (joins svc acts s) <= m - inv_uses i /\
  forall i', t_invites (tabs (history svc acts s)) !! id = Some i' ->
    times id (joins svc acts s) = inv_uses i' - inv_uses i.
Proof.
  apply joins_bounded; try done. pose proof (iv_uses _ (proj2 (wi_guild _ Hinv)) _ _ Hi) as Hs. unfold uses_sane in Hs.
  rewrite Hm in Hs. bool_hyps. lia.
Qed.

(** The ceilings a service is built with hold over every history, invites and messages included. NewService
    accepts no ceiling below 1, and from tables within them no history whose database clock does not go
    back takes a guild past its roles, channels or live invites, an account past the guilds it owns or
    is in, or a channel past fifty overwrites. *)
Theorem history_within_ceilings (opts svc : Service) (acts : list (Z * Action)) (s : St) (now now' : Z)
    (Hsvc : NewService opts = Some svc) (Hinv : whole_inv (tabs s)) (Hlimits : within_limits svc (tabs s))
    (Hlive : invites_within svc now (tabs s)) (Hclock : clock_after now acts = Some now') :
  within_limits svc (tabs (history svc acts s)) /\ invites_within svc now' (tabs (history svc acts s)).
Proof.
  apply NewService_ceilings in Hsvc as [_ Hmax]. revert s now Hinv Hlimits Hlive Hclock.
  induction acts as [|[a x] acts IH]; intros s now Hinv Hl Hw Hc; cbn in *; [by simplify_eq|].
  destruct (clock_of x) as [n|] eqn:E.
  - destruct (Z.leb_spec now n); [|done].
    assert (invites_within svc n (tabs s)) as Hn by (intros g; etrans; [by apply live_count_later|apply Hw]).
    destruct (act_ceilings svc a x s n) as [H1 H2]; try done; [intros ? E'; congruence|].
    apply (IH (act svc a x s).2 n); [by apply act_inv|done..].
  - destruct (act_ceilings svc a x s now) as [H1 H2]; try done; [intros ? E'; congruence|].
    apply (IH (act svc a x s).2 now); [by apply act_inv|done..].
Qed.

End histories.

(** ** A concrete guild with an invite *)

#[local] Existing Instance C_lower.

(** The example guild, with one more account outside it and an invite of 100's into channel 8, for
    one use. *)
Definition invite_tables : Tables :=
  mkTables (t_guilds example_tables) (t_members example_tables) (t_roles example_tables)
    (t_member_roles example_tables) (t_channels example_tables) (t_overwrites example_tables)
    (<[201 := mkDbUser "fay" "Fay" false]> (t_users example_tables)) (t_admins example_tables)
    (t_audit example_tables)
    {[ 50 := mkDbInvite 50 "BCDFGHJKMNPQRSTB" 1 8 100 (Some 1) 0 None 0 ]} Chat_empty.

Definition invite_state : St :=
  mkSt invite_tables [] (mkGenerator 3 0 0) (Z.add Epoch <$> seqZ 1 40) [] [].

Definition typed_code : list Z := runes "bcdf-ghjk-mnpq-rstb".

(** The clauses of [invites_ok] as a computation. *)
Definition invites_check (t : Tables) : bool :=
  bool_decide (map_Forall (fun id i =>
    inv_id i = id /\ letters (inv_code i) /\
    ((String.length (inv_code i) =? inviteCodeLength)%nat && uses_sane i) = true /\
    is_Some (t_users t !! inv_inviter_id i) /\
    match t_channels t !! inv_channel_id i with
    | Some ch => bool_decide (channel_guild_id ch = Some (inv_guild_id i)) &&
                 (channel_type ch =? ChannelGuildText)
    | None => false
    end = true /\
    map_Forall (fun id2 i2 => inv_code i = inv_code i2 -> id = id2) (t_invites t)) (t_invites t)).

Lemma invites_check_sound t : invites_check t = true -> invites_ok t.
Proof.
  unfold invites_check. rewrite bool_decide_eq_true. intros H. split.
  - intros id i Hi. apply (H _ _ Hi).
  - intros id1 id2 i1 i2 H1 H2. destruct (H _ _ H1) as (_ & _ & _ & _ & _ & Hu). by apply Hu.
  - intros id i Hi. destruct (H _ _ Hi) as (_ & Hl & Hn & _). bool_hyps. split; [done|].
    by apply Nat.eqb_eq.
  - intros id i Hi. destruct (H _ _ Hi) as (_ & _ & _ & _ & Hc & _).
    destruct (t_channels t !! inv_channel_id i) as [ch|]; [|done]. exists ch. bool_hyps. done.
  - intros id i Hi. apply (H _ _ Hi).
  - intros id i Hi. destruct (H _ _ Hi) as (_ & _ & Hn & _). by bool_hyps.
Qed.

Lemma invite_tables_whole : whole_inv invite_tables.
Proof.
  split; [|by apply chat_empty_ok].
  split; [split; [apply wf_check_sound|apply channels_check_sound]|apply invites_check_sound];
    vm_compute; reflexivity.
Qed.

(** 200 gets in, 201 comes too late, 200 tries again; then 100 makes an invite for two that lives an
    hour, 201 joins with it, the sweep runs, and 103 may not revoke it. *)
Definition second_code : list Z := runes "BCDFGHJKMNPQRSTV".
Definition invite_acts : list (Z * Action) := [
  (200, ActInvite (InvRedeem 1 typed_code)); (201, ActInvite (InvRedeem 2 typed_code));
  (200, ActInvite (InvRedeem 3 typed_code));
  (100, ActInvite (InvCreate 4 [Some (seqZ 0 15 ++ [15])] (mkCreateInviteInput 8 2 3600000000000)));
  (201, ActInvite (InvRedeem 5 second_code)); (201, ActInvite (InvSweep 6));
  (103, ActInvite (InvRevoke 7 second_code)) ].

Lemma invite_request_atomic_witness :
  let req := InvRedeem 1 typed_code in
  (handle_invite example_service 200 req invite_state).1 = inr tt /\
  (handle_invite example_service 200 req (with_faults [false; false; true] invite_state)).1 = inl EDb /\
  forall fs, match handle_invite example_service 200 req (with_faults fs invite_state) with
  | (inr _, s') => exists evs, invite_effect example_service 200 req invite_tables (tabs s') evs /\
                               delivered (with_faults fs invite_state) s' evs
  | (inl _, s') => tabs s' = invite_tables /\ published s' = []
  end.
Proof.
  intros req. split; [vm_compute; reflexivity|]. split; [vm_compute; reflexivity|]. intros fs.
  exact (invite_request_atomic example_service 200 req (with_faults fs invite_state)
    (proj1 (proj1 (wi_guild _ invite_tables_whole))) (iv_key _ (proj2 (wi_guild _ invite_tables_whole)))).
Defined.

Lemma action_atomic_witness :
  let say := ActChat (ChSend (mkCredential ActorUser []) 9 (mkSendInput 8 "hello" None)) in
  (act example_service 100 say invite_state).1 = inr tt /\
  (act example_service 100 say (with_faults [false; false; true] invite_state)).1 = inl EDb /\
  forall fs, match act example_service 100 say (with_faults fs invite_state) with
  | (inr _, s') => (exists evs, act_effect example_service 100 say invite_tables (tabs s') evs /\
                                delivered (with_faults fs invite_state) s' evs) /\ chat_only invite_tables (tabs s')
  | (inl _, s') => tabs s' = invite_tables /\ published s' = []
  end.
Proof.
  intros say. split; [vm_compute; reflexivity|]. split; [vm_compute; reflexivity|]. intros fs.
  exact (action_atomic example_service 100 say (with_faults fs invite_state) invite_tables_whole).
Defined.

Lemma history_preserves_invariant_witness :
  let s' := history example_service invite_acts invite_state in
  (size (t_members (tabs s')), size (t_invites (tabs s')), size (t_audit (tabs s'))) = (6%nat, 1%nat, 3%nat) /\
  whole_inv (tabs s').
Proof.
  intros s'. split; [vm_compute; reflexivity|].
  exact (history_preserves_invariant example_service invite_acts invite_state invite_tables_whole).
Defined.

Lemma invite_admits_at_most_witness :
  joins example_service invite_acts invite_state = [50; first_ids 2] /\
  times 50 (joins example_service invite_acts invite_state) <= 1 - 0.
Proof.
  split; [vm_compute; reflexivity|].
  apply (invite_admits_at_most example_service invite_acts invite_state 50 1
    (mkDbInvite 50 "BCDFGHJKMNPQRSTB" 1 8 100 (Some 1) 0 None 0) invite_tables_whole);
    [|reflexivity|reflexivity].
  split; [constructor; vm_compute; intuition congruence|]. intros id [i Hi]. cbn in Hi.
  apply lookup_singleton_Some in Hi as [<- _]. vm_compute. discriminate.
Defined.

Lemma history_within_ceilings_witness :
  let svc := mkService true 5 5 2 6 1 in
  let more := (100, ActInvite (InvCreate 8 [Some (seqZ 0 14 ++ [16; 17])] (mkCreateInviteInput 8 0 0))) in
  let s' := history svc invite_acts invite_state in
  count (live_invites 8 1 (tabs s')) = 1 /\
  (act svc more.1 more.2 s').1 = inl EGuildFull /\
  within_limits svc (tabs (history svc (invite_acts ++ [more]) invite_state)) /\
  invites_within svc 8 (tabs (history svc (invite_acts ++ [more]) invite_state)).
Proof.
  intros svc more s'. split; [vm_compute; reflexivity|]. split; [vm_compute; reflexivity|].
  apply (history_within_ceilings svc svc (invite_acts ++ [more]) invite_state 0 8);
    [reflexivity|exact invite_tables_whole| | |reflexivity].
  - apply small_within_limits; vm_compute; discriminate.
  - intros g. rewrite count_live. etrans; [apply matching_size|]. vm_compute. discriminate.
Defined.
