(* ===== verification/InviteAnswers.v ===== *)
(** What the invite operations tell their callers: nothing that tells one dead code from another, and
    of the live ones only those into channels the caller sees. And what joining gives: exactly what
    @everyone has, whatever the account had in the guild before. *)
From S2P Require Import Prelude GoStd Permissions Snowflake Rows TxMonad Queries.
From S2P Require Import Resolve StoreInv Authority ResolveMany GuildAuth GuildCommon RoleSvc.
From S2P Require Import OverwriteSvc MemberSvc GuildSvc ChannelSvc Preserve GuildService Layers.
From S2P Require Import Escalation Hierarchy Limits InviteCode InviteSvc Invites Conversations.
From S2P Require Import TagSvc.

(** ** Dead codes *)

(** Malformed, never issued, revoked, expired or used up. *)
Definition dead (now : Z) (rawCode : list Z) (t : Tables) : Prop :=
  match ParseInviteCode rawCode with
  | None => True
  | Some code => live_invite now code t = None
  end.

(** Answers "not found", or with the database's own error; nothing but the schedule of faults moves. *)
Definition refuses {A} (m : M A) (s : St) : Prop :=
  exists e fs, m s = (inl e, with_faults fs s) /\ (e = ENotFound \/ (e = EDb /\ true ∈ faults s)).

Lemma next_fault_cases (s : St) :
  exists fs, fs `suffix_of` faults s /\
    ((next_fault s = (true, with_faults fs s) /\ true ∈ faults s) \/ next_fault s = (false, with_faults fs s)).
Proof.
  unfold next_fault. destruct (faults s) as [|b fs] eqn:E.
  - exists []. split; [done|]. right. by rewrite <- E, with_faults_id.
  - exists fs. split; [by exists [b]|]. destruct b; [left|by right]. split; [done|]. by left.
Qed.

Lemma suffix_elem_of (l l' : list bool) : l `suffix_of` l' -> true ∈ l -> true ∈ l'.
Proof. intros [k ->] H. apply elem_of_app. by right. Qed.

Lemma refuses_reading_not_found {A B} (f : Tables -> Err + A) (k : A -> M B) s :
  f (tabs s) = inl ENoRows -> refuses (no_rows_as ENotFound (reading f) ≫= k) s.
Proof.
  intros Hf. unfold refuses, no_rows_as, reading, mbind, M_bind.
  destruct (next_fault_cases s) as (fs & _ & [[-> Hin]| ->]); cbn.
  - exists EDb, fs. auto.
  - rewrite Hf. exists ENotFound, fs. auto.
Qed.

Lemma refuses_reading_then {A B} (f : Tables -> Err + A) (a : A) (k : A -> M B) s :
  f (tabs s) = inr a -> (forall fs, fs `suffix_of` faults s -> refuses (k a) (with_faults fs s)) ->
  refuses (reading f ≫= k) s.
Proof.
  intros Hf Hk. unfold refuses, reading, mbind, M_bind.
  destruct (next_fault_cases s) as (fs & Hs & [[-> Hin]| ->]); cbn; [exists EDb, fs; auto|].
  rewrite Hf. destruct (Hk fs Hs) as (e & fs' & E & He). exists e, fs'. rewrite E. split; [done|].
  destruct He as [|[? ?]]; [by left|right]. split; [done|]. by eapply suffix_elem_of.
Qed.

Lemma refuses_tx {A} (fn : M A) s :
  (forall s1, tabs s1 = tabs s -> refuses fn s1) -> refuses (RunInTx fn) s.
Proof.
  intros Hfn. unfold refuses, RunInTx. destruct (next_fault_cases s) as (fs & Hs & [[-> Hin]| ->]);
    [exists EDb, fs; auto|].
  destruct (Hfn (with_hooks [] (with_faults fs s)) eq_refl) as (e & fs' & -> & He). exists e, fs'.
  split; [done|]. destruct He as [|[? ?]]; [by left|right]. split; [done|]. by eapply suffix_elem_of.
Qed.

Lemma dead_redeem svc a now raw s : dead now raw (tabs s) -> refuses (Service_RedeemInvite svc a now raw) s.
Proof.
  unfold dead, Service_RedeemInvite. destruct (ParseInviteCode raw) as [code|].
  - intros Hd. apply refuses_tx. intros s1 Ht. unfold RedeemInvite_tx, Queries_LockAccountOwnership.
    eapply refuses_reading_then; [done|]. intros fs _. apply refuses_reading_not_found. cbn. by rewrite Ht, Hd.
  - intros _. exists ENotFound, (faults s). rewrite with_faults_id. auto.
Qed.

Lemma dead_revoke a now raw s : dead now raw (tabs s) -> refuses (Service_RevokeInvite a now raw) s.
Proof.
  unfold dead, Service_RevokeInvite. destruct (ParseInviteCode raw) as [code|].
  - intros Hd. apply refuses_tx. intros s1 Ht. apply refuses_reading_not_found. by rewrite Ht, Hd.
  - intros _. exists ENotFound, (faults s). rewrite with_faults_id. auto.
Qed.

Lemma dead_preview now raw s : dead now raw (tabs s) -> refuses (Service_PreviewInvite now raw) s.
Proof.
  unfold dead, Service_PreviewInvite. destruct (ParseInviteCode raw) as [code|].
  - intros Hd. apply refuses_reading_not_found. by rewrite Hd.
  - intros _. exists ENotFound, (faults s). rewrite with_faults_id. auto.
Qed.

(** A code's live invite is the row that has it. *)
Lemma live_invite_iff now code t i :
  invites_ok t ->
  live_invite now code t = Some i <-> t_invites t !! inv_id i = Some i /\ inv_code i = code /\ live now i = true.
Proof.
  intros Hok. split; [apply live_invite_Some, (iv_key _ Hok)|]. intros (Hi & Hc & Hl).
  unfold live_invite. assert (i ∈ filter (fun i => inv_code i = code /\ live now i = true) (invite_rows t)) as Hin.
  { apply list_elem_of_filter. split; [done|]. apply list_elem_of_fmap. exists (inv_id i, i). split; [done|].
    by apply elem_of_map_to_list. }
  destruct (filter _ (invite_rows t)) as [|j l] eqn:E; [by apply elem_of_nil in Hin|]. cbn. f_equal.
  destruct (live_invite_Some now code t j (iv_key _ Hok)) as (Hj & Hcj & _).
  { unfold live_invite. by rewrite E. }
  assert (inv_id j = inv_id i) as Eid by (apply (iv_code _ Hok _ _ _ _ Hj Hi); congruence). congruence.
Qed.

Lemma live_not_expired now now' i : now <= now' -> live now' i = true -> expired now i = false.
Proof.
  unfold live, expired. intros Hle [He _]%andb_true_iff. destruct (inv_expires_at i); [|done].
  apply Z.ltb_lt in He. apply Z.ltb_ge. lia.
Qed.

(** The sweep leaves every live invite, so it makes no code live or dead. *)
Lemma sweep_live now now' code t t' :
  invites_ok t -> now <= now' -> Sweep_effect now t t' [] -> live_invite now' code t' = live_invite now' code t.
Proof.
  intros Hok Hle [-> _]. set (t' := set_invites _ t).
  assert (invites_ok t') as Hok'.
  { apply (invites_fewer t); [done|done|apply map_filter_subseteq|]. cbn. eauto. }
  apply option_eq. intros i. rewrite !live_invite_iff by done. cbn. rewrite map_lookup_filter_Some. cbn.
  split; [tauto|]. intros (Hi & Hc & Hl). split_and!; try done. by eapply live_not_expired.
Qed.

(** What a preview of a live invite shows. *)
Definition preview_of (t : Tables) (i : dbInvite) (g : dbGuild) (ch : dbChannel) : InvitePreview :=
  mkInvitePreview (inv_code i) (inv_expires_at i)
    (mkPreviewGuild (inv_guild_id i) (guild_name g) (guild_description g))
    (mkPreviewChannel (inv_channel_id i) (channel_name ch))
    ((fun u => mkPublicUser (inv_inviter_id i) (user_username u) (user_display_name u))
       <$> named_account t (inv_inviter_id i)).

Lemma public_user_of id (o : option dbUser) :
  PublicUserOf id (user_username <$> o) (user_display_name <$> o) =
  (fun u => mkPublicUser id (user_username u) (user_display_name u)) <$> o.
Proof. by destruct o. Qed.

Lemma PreviewInvite_live now raw code i s :
  guild_inv (tabs s) -> faults s = [] -> ParseInviteCode raw = Some code ->
  live_invite now code (tabs s) = Some i ->
  exists g ch, t_guilds (tabs s) !! inv_guild_id i = Some g /\
    t_channels (tabs s) !! inv_channel_id i = Some ch /\ channel_guild_id ch = Some (inv_guild_id i) /\
    Service_PreviewInvite now raw s = (inr (preview_of (tabs s) i g ch), s).
Proof.
  intros [[Hwf Hc] Hok] Hup Hp Hi. apply live_invite_iff in Hi as Hi'; [|done]. destruct Hi' as (Hl & _).
  destruct (iv_channel _ Hok _ _ Hl) as (ch & Hch & Hg & _). destruct (ch_guild _ Hc _ _ _ Hch Hg) as [g Hgr].
  exists g, ch. split_and!; try done. unfold Service_PreviewInvite. rewrite Hp.
  unfold Queries_GetGuildInvitePreview, no_rows_as, mbind at 1, M_bind. rewrite reading_run by done.
  rewrite Hi. cbn. rewrite Hgr. cbn. rewrite Hch. cbn. unfold mret, M_ret, preview_of. cbn.
  by rewrite (wf_guild_key _ Hwf _ _ Hgr), (ch_key _ Hc _ _ Hch), public_user_of.
Qed.

(** One answer for every dead code. Redeeming, revoking or previewing a code that is malformed,
    was never issued, was revoked, has expired or is used up answers "not found", or with the
    database's own error if a statement fails, and changes nothing whatever account asks; a live code
    is previewed with where it leads; and sweeping expired invites away makes no code live or dead, so
    no answer tells whether a dead code's row is still there. *)
Theorem dead_codes_alike (svc : Service) (a now : Z) (raw : list Z) (s : St) (Hinv : guild_inv (tabs s)) :
  (dead now raw (tabs s) ->
     refuses (Service_RedeemInvite svc a now raw) s /\ refuses (Service_RevokeInvite a now raw) s /\
     refuses (Service_PreviewInvite now raw) s) /\
  (faults s = [] -> ~ dead now raw (tabs s) ->
     exists i g ch, t_invites (tabs s) !! inv_id i = Some i /\ live now i = true /\
       ParseInviteCode raw = Some (inv_code i) /\
       Service_PreviewInvite now raw s = (inr (preview_of (tabs s) i g ch), s)) /\
  (forall swept t', swept <= now -> Sweep_effect swept (tabs s) t' [] -> (dead now raw t' <-> dead now raw (tabs s))).
Proof.
  split; [|split].
  - intros Hd. split_and!; [by apply dead_redeem|by apply dead_revoke|by apply dead_preview].
  - intros Hup Hn. unfold dead in Hn. destruct (ParseInviteCode raw) as [code|] eqn:Hp; [|done].
    destruct (live_invite now code (tabs s)) as [i|] eqn:Hi; [|done].
    destruct (PreviewInvite_live now raw code i s Hinv Hup Hp Hi) as (g & ch & _ & _ & _ & E).
    apply live_invite_iff in Hi as (Hl & Hc & Hlive); [|apply Hinv]. exists i, g, ch. by rewrite Hc.
  - intros swept t' Hle Hs. unfold dead. destruct (ParseInviteCode raw) as [code|]; [|done].
    by rewrite (sweep_live _ _ _ _ _ (proj2 Hinv) Hle Hs).
Qed.

#[local] Existing Instance C_lower.

(** Once 200 has used the invite, 201 is told what a made-up code is told. *)
Lemma dead_codes_alike_witness :
  let s' := history example_service [(200, ActInvite (InvRedeem 1 typed_code))] invite_state in
  let made_up := runes "ZZZZ-ZZZZ-ZZZZ-ZZZZ" in
  (Service_RedeemInvite example_service 201 2 typed_code s').1 = inl ENotFound /\
  (Service_RedeemInvite example_service 201 2 made_up s').1 = inl ENotFound /\
  (Service_PreviewInvite 2 typed_code s').1 = inl ENotFound /\
  exists i g ch, Service_PreviewInvite 1 typed_code invite_state = (inr (preview_of invite_tables i g ch), invite_state).
Proof.
  intros s' made_up. do 3 (split; [vm_compute; reflexivity|]).
  destruct (proj1 (proj2 (dead_codes_alike example_service 200 1 typed_code invite_state (wi_guild _ invite_tables_whole)))
    eq_refl) as (i & g & ch & _ & _ & _ & E); [vm_compute; discriminate|].
  exists i, g, ch. exact E.
Defined.

(** ** The list *)

(** Who may list a guild's invites. *)
Definition may_manage (t : Tables) (g a : Z) : bool :=
  is_admin t a || bool_decide (layered t g a 0 8 = Some true).

Lemma holds_manage t g a : holds t g a 0 PermManageGuild <-> layered t g a 0 8 = Some true.
Proof.
  unfold holds. split; [intros H; by apply H|]. intros H i Hi.
  change PermManageGuild with (2 ^ 8) in Hi. destruct (Z.eq_dec i 8) as [->|Hne]; [done|].
  destruct (Z.lt_ge_cases i 0); [by rewrite Z.testbit_neg_r in Hi|].
  by rewrite Z.pow2_bits_false in Hi.
Qed.

Lemma Authorize_manage s a g :
  wf (tabs s) -> faults s = [] ->
  if may_manage (tabs s) g a
  then exists d, granted (tabs s) a g 0 PermManageGuild d /\ Authorize a g 0 PermManageGuild s = (inr d, s)
  else Authorize a g 0 PermManageGuild s =
       (inl (if may_read (tabs s) g a then EForbidden else ENotFound), s).
Proof.
  intros Hwf Hup. rewrite (transparent_nil _ s (transparent_Authorize a g 0 PermManageGuild) Hup).
  pose proof (Authorize_verdict (tabs s) a g 0 PermManageGuild s Hwf Hup eq_refl) as Hv.
  unfold may_manage, may_read. destruct (Authorize a g 0 PermManageGuild s).1 as [[]|d]; try done.
  - destruct Hv as [-> Hn]. cbn. rewrite bool_decide_eq_false_2.
    + unfold in_guild in Hn. rewrite not_true_iff_false in Hn. by rewrite Hn.
    + intros Hl. by apply layered_in_guild in Hl.
  - destruct Hv as (-> & Hin & Hn). cbn. rewrite bool_decide_eq_false_2 by (by rewrite <- holds_manage).
    unfold in_guild in Hin. by rewrite Hin.
  - assert (may_manage (tabs s) g a = true) as E; [|unfold may_manage in E; rewrite E; by exists d].
    unfold may_manage. cbn in Hv. destruct (is_admin (tabs s) a); [done|]. cbn. apply bool_decide_eq_true.
    destruct Hv as (_ & _ & Hv). exact (proj1 (holds_manage _ _ _) Hv).
Qed.

Lemma distinct_channels_all rows seen r :
  r ∈ rows -> inv_channel_id (lgi_Invite r) ∈ seen \/ inv_channel_id (lgi_Invite r) ∈ distinct_channels seen rows.
Proof.
  revert seen. induction rows as [|x rows IH]; intros seen; [by intros ?%elem_of_nil|]. cbn.
  intros [->|Hr]%elem_of_cons; case_bool_decide as Hin; [by left|right; by left|by apply IH|].
  destruct (IH (inv_channel_id (lgi_Invite x) :: seen) Hr) as [[->|?]%elem_of_cons|?];
    [right; by left|by left|right; by right].
Qed.

Lemma omap_of_fmap {A B C} (f : B -> option C) (h : A -> B) (l : list A) : omap f (h <$> l) = omap (fun x => f (h x)) l.
Proof. induction l as [|x l IH]; [done|]. rewrite fmap_cons. cbn [omap list_omap]. by rewrite IH. Qed.

(** An invite as the list shows it. *)
Definition listed_invite (t : Tables) (i : dbInvite) : Invite :=
  inviteFromRow i ((fun u => mkPublicUser (inv_inviter_id i) (user_username u) (user_display_name u))
    <$> named_account t (inv_inviter_id i)).

Definition invite_list_row (t : Tables) (i : dbInvite) : ListGuildInvitesRow :=
  mkListGuildInvitesRow i (user_username <$> named_account t (inv_inviter_id i))
    (user_display_name <$> named_account t (inv_inviter_id i)).

Lemma elem_of_live_invites t now g i :
  invites_keyed t -> i ∈ live_invites now g t ->
  t_invites t !! inv_id i = Some i /\ inv_guild_id i = g /\ live now i = true.
Proof.
  intros Hk. unfold live_invites. rewrite list_elem_of_filter. intros [[Hg Hl] Hi].
  apply list_elem_of_fmap in Hi as ([id i'] & -> & Hi%elem_of_map_to_list). cbn in *. by rewrite (Hk _ _ Hi).
Qed.

(** ListInvites answers exactly the live invites the caller may be shown. With no failing
    statement it always answers: not found to an account outside the guild, forbidden to a member
    without the permission to manage it, and otherwise, newest first, every live invite of the guild
    into a channel the account sees, with the name of an issuer whose account still exists, and
    neither a dead invite, nor one into a channel hidden from it, nor another guild's. It changes
    nothing. *)
Theorem ListInvites_visible (s : St) (a now g : Z) (Hinv : guild_inv (tabs s)) (Hup : faults s = [])
    (Hzero : t_channels (tabs s) !! 0 = None) :
  Service_ListInvites a now g s =
  (if may_manage (tabs s) g a
   then inr (listed_invite (tabs s) <$> filter (fun i => sees (tabs s) a g (inv_channel_id i))
               (merge_sort invite_after (live_invites now g (tabs s))))
   else inl (if may_read (tabs s) g a then EForbidden else ENotFound), s).
Proof.
  destruct Hinv as [[Hwf Hc] Hok]. pose proof (Authorize_manage s a g Hwf Hup) as Ha.
  unfold Service_ListInvites, mbind, M_bind. destruct (may_manage (tabs s) g a); [|by rewrite Ha].
  destruct Ha as (d & Hv & ->). unfold Queries_ListGuildInvites. rewrite reading_run by done.
  set (ivs := merge_sort invite_after (live_invites now g (tabs s))).
  fold (invite_list_row (tabs s)). set (rows := invite_list_row (tabs s) <$> ivs).
  assert (forall i, i ∈ ivs -> inv_channel_id i <> 0 /\ channel_in_guild (tabs s) (inv_channel_id i) g = true)
    as Hrows.
  { intros i. unfold ivs. rewrite merge_sort_Permutation. intros Hi.
    destruct (elem_of_live_invites _ _ _ _ (iv_key _ Hok) Hi) as (Hl & <- & _).
    destruct (iv_channel _ Hok _ _ Hl) as (ch & Hch & Hg & _). split; [congruence|].
    apply channel_in_guild_true. eauto. }
  destruct rows as [|row rows0] eqn:E; unfold rows in E.
  { apply fmap_nil_inv in E. by rewrite E. }
  rewrite <- E. clear E row rows0 rows. unfold Queries_ListGuildPermissionOverwrites. rewrite reading_run by done.
  unfold mret, M_ret. do 2 f_equal. rewrite omap_of_fmap.
  apply omap_filter. intros i Hi. destruct (Hrows i Hi) as [Hne Hin]. 
  cbn [lgi_Invite lgi_InviterUsername lgi_InviterDisplayName invite_list_row].
  rewrite rows_of_surrounding; [|destruct (distinct_channels_all (invite_list_row (tabs s) <$> ivs) [] (invite_list_row (tabs s) i)) as [?%elem_of_nil|?];
    [by apply list_elem_of_fmap_2|done|done]|done].
  rewrite (AllowsInChannel_sees _ a g PermManageGuild d) by done.
  rewrite public_user_of. destruct (decide (sees (tabs s) a g (inv_channel_id i))).
  + by rewrite bool_decide_eq_true_2.
  + by rewrite bool_decide_eq_false_2.
Qed.

(** 100, the owner, is shown the invite; 102 may not ask and 200 is outside. *)
Lemma ListInvites_visible_witness :
  let codes a := match (Service_ListInvites a 1 1 invite_state).1 with
                 | inl e => inl e | inr l => inr (map Invite_Code l) end in
  codes 100 = inr ["BCDFGHJKMNPQRSTB"%string] /\ codes 102 = inl EForbidden /\ codes 200 = inl ENotFound /\
  Service_ListInvites 100 1 1 invite_state =
  (inr (map (listed_invite invite_tables) (filter (fun i => sees invite_tables 100 1 (inv_channel_id i))
          (merge_sort invite_after (live_invites 1 1 invite_tables)))), invite_state).
Proof.
  intros codes. do 3 (split; [vm_compute; reflexivity|]).
  exact (ListInvites_visible invite_state 100 1 1 (wi_guild _ invite_tables_whole) eq_refl eq_refl).
Defined.

(** ** Joining *)

(** ** Overwrites of members only *)

(** Every overwrite of an account is of a member of the channel's guild: one that leaves takes its
    overwrites along. *)
Definition attended (t : Tables) : Prop := forall c u g,
  is_Some (t_overwrites t !! (c, OverwriteTargetMember, u)) -> channel_in_guild t c g = true ->
  is_Some (t_members t !! (g, u)).

Lemma filter_is_Some {K} `{Countable K} {A} (P : K * A -> Prop) `{forall x, Decision (P x)} (m : gmap K A) k :
  is_Some (filter P m !! k) -> is_Some (m !! k) /\ exists v, m !! k = Some v /\ P (k, v).
Proof. intros [v [Hl HP]%map_lookup_filter_Some]. eauto. Qed.

(** The overwrites a new channel starts with are its category's. *)
Lemma attended_create t g cid r p :
  channels_ok t -> attended t -> t_channels t !! cid = None ->
  (forall q, p = Some q -> channel_in_guild t q g = true) ->
  attended (with_copied p cid (set_channels (<[cid := new_channel cid g r]> (t_channels t)) t)).
Proof.
  intros Hok Ha Hn Hp c u g' Ho Hc. set (t1 := set_channels _ t) in *.
  assert (channel_in_guild t1 c g' = true) as Hc1 by (by destruct p).
  assert (is_Some (t_members t !! (g', u))) as Hm; [|by destruct p].
  assert (c = cid -> g' = g) as Hg.
  { intros ->. apply channel_in_guild_true in Hc1 as (ch & Hch & Hg). cbn in Hch. rewrite lookup_insert_eq in Hch.
    injection Hch as <-. cbn in Hg. congruence. }
  assert (c <> cid -> channel_in_guild t c g' = true) as Hold.
  { intros Hne. revert Hc1. unfold channel_in_guild. cbn. by rewrite lookup_insert_ne. }
  assert (is_Some (t_overwrites t !! (c, OverwriteTargetMember, u)) -> is_Some (t_members t !! (g', u))) as Hkept.
  { intros [v Hv]. destruct (ch_overwrite _ Hok _ _ _ _ Hv) as [ch Hch].
    assert (c <> cid) by congruence. apply (Ha c); [by eexists|auto]. }
  destruct p as [p|]; [|by apply Hkept]. destruct Ho as [v Hv]. cbn in Hv.
  apply lookup_union_Some_raw in Hv as [Hv|[_ Hv]]; [apply Hkept; by eexists|].
  apply copied_lookup in Hv as (ty & id & [= -> <- <-] & Hv). rewrite (Hg eq_refl).
  apply (Ha p); [by eexists|by apply Hp].
Qed.

Lemma effect_attended svc a req t t' evs :
  inv t -> effect svc a req t t' evs -> attended t -> attended t'.
Proof.
  intros Hinv He Ha.
  destruct req; cbn [effect] in He; effect_tables He; try done; intros c' u' g' Ho Hc.
  - cbn. apply lookup_insert_is_Some'. right. by apply (Ha c').
  - apply filter_is_Some in Ho as [Ho (v & _ & Hf)]. cbn in Hf.
    apply channel_in_guild_true in Hc as (ch & [Hch _]%map_lookup_filter_Some & Hg).
    assert (channel_in_guild t c' g' = true) as Hc by (apply channel_in_guild_true; eauto).
    destruct (Ha c' u' g' Ho Hc) as [m Hm]. exists m. apply map_lookup_filter_Some. split; [done|]. cbn.
    intros ->. change (channel_in_guild t c' g = false) in Hf. congruence.
  - apply filter_is_Some in Ho as [Ho _]. by apply (Ha c').
  - cbn. apply lookup_insert_is_Some'. right. by apply (Ha c').
  - apply filter_is_Some in Ho as [Ho (v & _ & Hf)]. cbn in Hf. cbn. rewrite lookup_delete_ne; [by apply (Ha c')|].
    intros [= -> ->]. by apply Hf.
  - destruct Ho as [v Hv]. cbn in Hv. apply lookup_insert_Some in Hv as [[[= <- Hty <-] _]|[_ Hv]]; [|apply (Ha c'); [by eexists|done]].
    match goal with H : channel_in_guild t (so_ChannelID r) ?g0 = true |- _ =>
      assert (g' = g0) as -> by exact (channel_in_guild_inj t _ _ _ Hc H) end.
    match goal with H : target_ok _ _ _ _ _ _ |- _ => destruct H as [[E _]|(_ & Hm & _)]; [|exact Hm] end.
    rewrite Hty in E. discriminate E.
  - destruct Ho as [v Hv]. cbn in Hv. apply lookup_delete_Some in Hv as [_ Hv]. apply (Ha c'); [by eexists|done].
  - refine (attended_create t g x r (cci_ParentID r) (proj2 Hinv) Ha _ _ c' u' g' Ho Hc); [done|].
    intros q Hq. match goal with H : forall p, _ = Some p -> parent_ok _ _ _ _ p |- _ =>
      destruct (H q Hq) as (row & Hrow & Hg & _) end. apply channel_in_guild_true. eauto.
  - apply (Ha c' u' g' Ho). apply channel_in_guild_true in Hc as (ch & Hch & Hg). cbn in Hch.
    apply channel_in_guild_true. apply lookup_insert_Some in Hch as [[<- <-]|[_ Hch]]; eauto.
  - apply filter_is_Some in Ho as [Ho _]. apply (Ha c' u' g' Ho).
    apply channel_in_guild_true in Hc as (ch & Hch & Hg). cbn in Hch. unfold channels_without in Hch.
    rewrite lookup_fmap in Hch. destruct (delete c (t_channels t) !! c') as [ch0|] eqn:E; [|done].
    injection Hch as <-. apply lookup_delete_Some in E as [_ E]. apply channel_in_guild_true. exists ch0.
    split; [done|]. unfold detach in Hg. by case_decide.
Qed.

Lemma invite_effect_attended svc a req t t' evs :
  invite_effect svc a req t t' evs -> attended t -> attended t'.
Proof.
  intros He Ha. destruct req; cbn in He.
  - destruct He as (_ & _ & id & out & g & d & aid & ch & code & creator & _ & _ & _ & _ & _ & _ & _ & _ & _ & _ & _ & _ & -> & _).
    done.
  - destruct He as (code & out & _ & i & g & _ & _ & _ & [(_ & -> & _)|(aid & _ & _ & _ & _ & _ & -> & _)]); [done|].
    destruct (spend_frame i t) as [m Em]. unfold joined. rewrite Em. intros c u g' Ho Hc. cbn.
    apply lookup_insert_is_Some'. right. by apply (Ha c).
  - destruct He as (code & _ & i & d & aid & _ & _ & _ & _ & _ & -> & _). done.
  - by destruct He as [-> _].
Qed.

Lemma attended_frame t t' :
  attended t -> t_overwrites t' = t_overwrites t -> t_channels t' = t_channels t ->
  t_members t' = t_members t -> attended t'.
Proof. intros Ha Eo Ec Em c u g. unfold channel_in_guild. rewrite Eo, Ec, Em. apply Ha. Qed.

Lemma history_attended `{Collation} svc acts s :
  whole_inv (tabs s) -> attended (tabs s) ->
  whole_inv (tabs (history svc acts s)) /\ attended (tabs (history svc acts s)).
Proof.
  intros Hinv Ha. apply history_ind; [|done..]. intros a [r|r|r] t t' evs Hi Ht; cbn.
  - intros He. eapply effect_attended; [apply Hi|done..].
  - intros He. by eapply invite_effect_attended.
  - intros He%chat_effect_only. by apply (attended_frame t); destruct He.
Qed.

(** ** What a newcomer has *)

(** The bit @everyone has in the guild, and in channel [c] unless it is 0. *)
Definition everyone_bit (t : Tables) (g c i : Z) : bool :=
  let b j := existsb (role_bit j) (default_roles t g) in
  if b 9 then Z.testbit permAll i
  else if (c =? 0) || negb (channel_in_guild t c g) then b i
  else everyone_tier t g c i (b i).

(** An account outside a guild has neither roles nor overwrites in it. *)
Lemma outsider_granted t g a : wf t -> t_members t !! (g, a) = None -> granted_roles t g a = [].
Proof.
  intros Hwf Hm. destruct (granted_roles t g a) as [|r l] eqn:E; [done|].
  assert (r ∈ granted_roles t g a) as [Hg _]%elem_of_granted_roles by (rewrite E; by left).
  destruct (wf_grant _ Hwf _ _ _ Hg) as [[m ?] _]. congruence.
Qed.

Lemma outsider_overwrite t g a c side i :
  attended t -> t_members t !! (g, a) = None -> channel_in_guild t c g = true ->
  ow_bit side t c OverwriteTargetMember a i = false.
Proof.
  intros Ha Hm Hc. unfold ow_bit. destruct (t_overwrites t !! _) eqn:E; [|done].
  destruct (Ha c a g) as [m ?]; [by rewrite E|done|congruence].
Qed.

Lemma tier_none b : tier false false b = b.
Proof. unfold tier. by rewrite andb_true_r, orb_false_r. Qed.

(** The tables with one member more. *)
Section newcomer.
Context (t : Tables) (Hwf : wf t) (g a : Z).
Context (Hg : is_Some (t_guilds t !! g)) (Hm : t_members t !! (g, a) = None).
Let t' := set_members (<[(g, a) := new_member g a]> (t_members t)) t.

Lemma newcomer_layered c i : attended t -> layered t' g a c i = Some (everyone_bit t g c i).
Proof.
  intros Ha. assert (is_owner t' g a = false) as Ho.
  { unfold is_owner. cbn. destruct (t_guilds t !! g) as [gr|] eqn:E; [|done]. apply Z.eqb_neq. intros <-.
    destruct (wf_owner _ Hwf _ _ E) as [_ [? ?]]. congruence. }
  assert (is_member t' g a = true) as Hmem.
  { unfold is_member. cbn. rewrite lookup_insert_eq. apply andb_true_iff. split; by apply bool_decide_eq_true. }
  assert (granted_roles t' g a = []) as Hr by exact (outsider_granted t g a Hwf Hm).
  assert (forall j, base_bit t' g a j = existsb (role_bit j) (default_roles t g)) as Hb.
  { intros j. unfold base_bit. rewrite Hr. apply orb_false_r. }
  unfold layered, bypasses, everyone_bit. rewrite Ho, Hmem, !Hb. cbn. f_equal.
  destruct (existsb (role_bit 9) (default_roles t g)); [done|]. destruct (c =? 0); [done|]. cbn.
  unfold channel_bit. change (channel_in_guild t' c g) with (channel_in_guild t c g).
  destruct (channel_in_guild t c g) eqn:Hc; cbn; [|by rewrite Hb].
  unfold role_tier, member_tier. rewrite Hr. cbn [existsb].
  change (ow_bit fst t' c OverwriteTargetMember a i) with (ow_bit fst t c OverwriteTargetMember a i).
  change (ow_bit snd t' c OverwriteTargetMember a i) with (ow_bit snd t c OverwriteTargetMember a i).
  rewrite !(outsider_overwrite t g a c) by done. rewrite !tier_none, Hb. done.
Qed.

Lemma others_layered g' u c i : (g', u) <> (g, a) -> layered t' g' u c i = layered t g' u c i.
Proof.
  intros Hne. apply same_rows_layered; [done|by apply wf_new_member|]. split; try done.
  unfold is_member. cbn. by rewrite lookup_insert_ne by congruence.
Qed.
End newcomer.

(** The layers do not read the invites or the log. *)
Lemma layered_frame t t' g u c i :
  wf t -> wf t' -> t_guilds t' = t_guilds t -> t_members t' = t_members t -> t_roles t' = t_roles t ->
  t_member_roles t' = t_member_roles t -> t_channels t' = t_channels t -> t_overwrites t' = t_overwrites t ->
  layered t' g u c i = layered t g u c i.
Proof. intros Hwf Hwf' ??????. apply same_rows_layered; [done..|]. by apply same_rows_frame. Qed.

Lemma joined_through_Some `{Collation} svc a now raw s id :
  whole_inv (tabs s) -> joined_through svc a (ActInvite (InvRedeem now raw)) s = Some id ->
  exists i m aid row, t_invites (tabs s) !! id = Some i /\ t_members (tabs s) !! (inv_guild_id i, a) = None /\
    is_Some (t_guilds (tabs s) !! inv_guild_id i) /\
    tabs (act svc a (ActInvite (InvRedeem now raw)) s).2 =
      audited aid row (set_members (<[(inv_guild_id i, a) := new_member (inv_guild_id i) a]> (t_members (tabs s)))
        (set_invites m (tabs s))).
Proof.
  intros Hinv. pose proof (joined_through_same svc a (ActInvite (InvRedeem now raw)) s) as Hsame.
  pose proof (act_outcome svc a (ActInvite (InvRedeem now raw)) s Hinv) as Ho. unfold outcome in Ho.
  destruct (act svc a (ActInvite (InvRedeem now raw)) s) as [[e|u] s'] eqn:E; cbn [snd] in *.
  { destruct Ho as [Ht _]. by rewrite Hsame. }
  destruct Ho as (evs & (code & out & Hp & He) & _). intros Hj.
  destruct He as (i & g & Hi & Hg & _ & [(_ & Ht & _)|(aid & Hm & _ & _ & _ & _ & Ht & _)]); [by rewrite Hsame in Hj|].
  unfold joined_through in Hj. rewrite Hp in Hj. cbn in Hj. rewrite Hi in Hj. cbn in Hj.
  assert (inv_id i = id) as <- by (by destruct (_ && _); simplify_eq).
  destruct (live_invite_Some _ _ _ _ (iv_key _ (proj2 (wi_guild _ Hinv))) Hi) as (Hl & _).
  destruct (spend_frame i (tabs s)) as [m Em]. unfold joined in Ht. rewrite Em in Ht.
  exists i, m, aid. eexists. split_and!; [done..|by eexists|exact Ht].
Qed.

(** ** Property *)

(** C10: joining gives exactly what @everyone has. After any history of requests from
    tables in which members alone have overwrites, an account that joins through an invite has, in the
    guild and in each of its channels, exactly the bits @everyone has there: no role or overwrite it
    had before it left or was kicked is waiting for it. And nobody else's permissions change anywhere,
    nor its own in another guild. *)
Theorem newcomer_as_everyone `{Collation} (svc : Service) (acts : list (Z * Action)) (s : St) (a now id : Z) (raw : list Z)
    (Hinv : whole_inv (tabs s)) (Hatt : attended (tabs s)) :
  let before := history svc acts s in
  let after := (act svc a (ActInvite (InvRedeem now raw)) before).2 in
  joined_through svc a (ActInvite (InvRedeem now raw)) before = Some id ->
  exists i, t_invites (tabs before) !! id = Some i /\
    (forall c j, layered (tabs before) (inv_guild_id i) a c j = None) /\
    (forall c j, layered (tabs after) (inv_guild_id i) a c j = Some (everyone_bit (tabs before) (inv_guild_id i) c j)) /\
    (forall g u c j, (g, u) <> (inv_guild_id i, a) -> layered (tabs after) g u c j = layered (tabs before) g u c j).
Proof.
  intros before after Hj. destruct (history_attended svc acts s Hinv Hatt) as [Hb Hab]. fold before in Hb, Hab.
  destruct (joined_through_Some _ _ _ _ _ _ Hb Hj) as (i & m & aid & row & Hi & Hm & Hg & Ht). fold after in Ht.
  pose proof (proj1 (proj1 (wi_guild _ Hb))) as Hwf.
  set (t1 := set_members (<[(inv_guild_id i, a) := new_member (inv_guild_id i) a]> (t_members (tabs before))) (tabs before)).
  assert (forall g u c j, layered (tabs after) g u c j = layered t1 g u c j) as Hl.
  { intros g u c j. apply layered_frame; try (by rewrite Ht); [by apply wf_new_member|].
    unfold after. apply (act_inv svc a _ before Hb). }
  exists i. split; [done|]. split_and!.
  - intros c j. apply layered_None. unfold in_guild, is_owner, is_member. rewrite Hm.
    rewrite (bool_decide_eq_false_2 (is_Some None)) by (by intros []). rewrite andb_false_r, orb_false_r.
    destruct (t_guilds _ !! _) as [gr|] eqn:E; [|done]. intros Heq%Z.eqb_eq. subst a.
    destruct (wf_owner _ Hwf _ _ E) as [_ [? ?]]. congruence.
  - intros c j. rewrite Hl. by apply newcomer_layered.
  - intros g u c j Hne. rewrite Hl. by apply others_layered.
Qed.

Lemma attended_none t :
  bool_decide (map_Forall (fun k _ => k.1.2 <> OverwriteTargetMember) (t_overwrites t)) = true -> attended t.
Proof. intros H%bool_decide_eq_true c u g [v Hv]. by destruct (H _ _ Hv). Qed.

#[local] Existing Instance C_lower.

(** 103 is shown the hidden channel 7, then kicked; back through the invite, it sees the open channel
    8 and not 7. *)
Definition kick_acts : list (Z * Action) := [
  (100, ActGuild (ReqSetOverwrite (mkSetOverwriteInput 7 OverwriteTargetMember 103 PermViewChannel 0)));
  (100, ActGuild (ReqRemoveMember 1 103)) ].

Lemma newcomer_as_everyone_witness :
  let before := history example_service kick_acts invite_state in
  let after := (act example_service 103 (ActInvite (InvRedeem 1 typed_code)) before).2 in
  layered (tabs (history example_service (take 1 kick_acts) invite_state)) 1 103 7 0 = Some true /\
  layered (tabs before) 1 103 7 0 = None /\
  layered (tabs after) 1 103 7 0 = Some false /\ layered (tabs after) 1 103 8 0 = Some true /\
  exists i, t_invites (tabs before) !! 50 = Some i /\
    forall c j, layered (tabs after) (inv_guild_id i) 103 c j = Some (everyone_bit (tabs before) (inv_guild_id i) c j).
Proof.
  intros before after. do 4 (split; [vm_compute; reflexivity|]).
  destruct (newcomer_as_everyone example_service kick_acts invite_state 103 1 50 typed_code invite_tables_whole)
    as (i & Hi & _ & Hn & _); [apply attended_none; vm_compute; reflexivity|vm_compute; reflexivity|].
  exists i. split; [exact Hi|exact Hn].
Defined.
