(* ===== verification/Backlog.v ===== *)
(** Reading a channel back: rows kept newest first and read in pages, the tags a page comes with, and a client
    that scrolls to the beginning. And what is said, and by whom: only an author changes its words, what was
    said before stays, and a guild that records keeps all of it. *)
From S2P Require Import Prelude GoStd Permissions Snowflake Rows TxMonad Queries.
From S2P Require Import Resolve StoreInv Authority ResolveMany GuildAuth GuildCommon RoleSvc.
From S2P Require Import OverwriteSvc MemberSvc GuildSvc ChannelSvc Preserve GuildService Layers.
From S2P Require Import Escalation Limits InviteSvc Utf8 MessageSvc TagSvc ReportSvc ChatInv.
From S2P Require Import Conversations Invites.

(** ** Rows, newest first *)

#[export] Instance newer_first_total {A} (key : A -> Z) : Total (newer_first key).
Proof. intros x y. unfold newer_first. lia. Qed.
#[export] Instance newer_first_trans {A} (key : A -> Z) : Transitive (newer_first key).
Proof. intros x y z. unfold newer_first. lia. Qed.

Section newest.
Context {A} (key : A -> Z).

Definition newest (P : A -> Prop) `{forall x, Decision (P x)} (m : gmap Z A) : list A :=
  merge_sort (newer_first key) (filter P (rows_of_map m)).

Context (m : gmap Z A) (Hk : forall k x, m !! k = Some x -> key x = k).
Implicit Types (P Q : A -> Prop).

Lemma elem_of_newest P `{forall x, Decision (P x)} x : x ∈ newest P m <-> m !! key x = Some x /\ P x.
Proof.
  unfold newest, rows_of_map. rewrite merge_sort_Permutation, list_elem_of_filter, list_elem_of_fmap. split.
  - intros [HPx ([k y] & -> & Hl%elem_of_map_to_list)]. cbn in *. by rewrite (Hk _ _ Hl).
  - intros [Hl HPx]. split; [done|]. exists (key x, x). split; [done|]. by apply elem_of_map_to_list.
Qed.

Lemma newest_sorted P `{forall x, Decision (P x)} : StronglySorted (newer_first key) (newest P m).
Proof. apply StronglySorted_merge_sort; apply _. Qed.

Lemma newest_keys P `{forall x, Decision (P x)} : NoDup (key <$> newest P m).
Proof.
  unfold newest, rows_of_map. rewrite merge_sort_Permutation.
  assert (NoDup (key <$> (map_to_list m).*2)) as Hnd.
  { rewrite <- list_fmap_compose, (list_fmap_ext _ fst); [apply NoDup_fst_map_to_list|].
    intros ? [k x] Hx. apply list_elem_of_lookup_2, elem_of_map_to_list in Hx. by apply Hk. }
  revert Hnd. generalize ((map_to_list m).*2) as l. induction l as [|x l IH]; intros Hnd; [done|].
  apply NoDup_cons in Hnd as [Hx Hnd]. rewrite filter_cons. destruct (decide (P x)); [|by apply IH].
  apply NoDup_cons. split; [|by apply IH]. intros (y & E & [_ Hy]%list_elem_of_filter)%list_elem_of_fmap.
  apply Hx, list_elem_of_fmap. eauto.
Qed.

Lemma newest_nodup P `{forall x, Decision (P x)} : NoDup (newest P m).
Proof. eapply NoDup_fmap_1, newest_keys. Qed.

(** It is the only such list. *)
Lemma newest_unique P `{forall x, Decision (P x)} l :
  StronglySorted (newer_first key) l -> NoDup l -> (forall x, x ∈ l <-> m !! key x = Some x /\ P x) ->
  l = newest P m.
Proof.
  intros Hs Hnd Hl. eapply StronglySorted_unique_strong; [|exact Hs|apply newest_sorted|].
  - intros x y [Hx _]%Hl [Hy _]%elem_of_newest Hxy Hyx. unfold newer_first in *.
    assert (key x = key y) as E by lia. rewrite E in Hx. congruence.
  - apply NoDup_Permutation; [done|apply newest_nodup|]. intros x. by rewrite Hl, elem_of_newest.
Qed.

(** Reading on below the last of the first [n] gives the rest. *)
Lemma newest_next P `{forall x, Decision (P x)} Q `{forall x, Decision (Q x)} n x :
  last (take n (newest P m)) = Some x -> (forall y, Q y <-> P y /\ key y < key x) ->
  newest Q m = drop n (newest P m).
Proof.
  intros Hlast HQ. pose proof (newest_sorted P) as Hs. pose proof (newest_nodup P) as Hnd.
  rewrite <- (take_drop n (newest P m)) in Hs, Hnd.
  apply last_Some in Hlast as [l Hl]. rewrite Hl in Hs, Hnd.
  assert (forall y, y ∈ newest P m <-> y ∈ l ++ [x] \/ y ∈ drop n (newest P m)) as Hsplit.
  { intros y. rewrite <- (take_drop n (newest P m)) at 1. by rewrite elem_of_app, Hl. }
  assert (x ∈ l ++ [x]) as Hx by (apply elem_of_app; right; by left).
  assert (x ∈ newest P m) as [Hmx _]%elem_of_newest by (apply Hsplit; by left).
  assert (forall y, y ∈ l ++ [x] -> key x <= key y) as Hfirst.
  { intros y [Hy|Hy]%elem_of_app; [|apply list_elem_of_singleton in Hy as ->; lia].
    apply StronglySorted_app_1_l in Hs.
    assert (newer_first key y x) as Hb by (eapply StronglySorted_app_1_elem_of; [exact Hs|done|by left]).
    exact Hb. }
  pose proof Hs as Hs'. apply StronglySorted_app_1_r in Hs'. apply NoDup_app in Hnd as (_ & Hdisj & Hnd).
  symmetry. apply newest_unique; [done|done|]. intros y. rewrite HQ. split.
  - intros Hy. assert (y ∈ newest P m) as [Hmy HPy]%elem_of_newest by (apply Hsplit; by right).
    split_and!; [done..|]. assert (newer_first key x y) as Hb by (eapply StronglySorted_app_1_elem_of; [exact Hs|done|done]).
    unfold newer_first in Hb. destruct (Z.eq_dec (key y) (key x)) as [E|]; [|lia]. exfalso.
    rewrite E in Hmy. assert (x = y) as -> by congruence. by apply (Hdisj y).
  - intros (Hmy & HPy & Hlt). assert (y ∈ newest P m) as [Hin|?]%Hsplit by (by apply elem_of_newest); [|done].
    apply Hfirst in Hin. lia.
Qed.
End newest.

(** A row newer than every other comes first. *)
Lemma newest_insert {A} (key : A -> Z) (m : gmap Z A) (P : A -> Prop) `{forall x, Decision (P x)} k x :
  (forall j y, m !! j = Some y -> key y = j /\ j < k) -> key x = k -> P x ->
  newest key P (<[k := x]> m) = x :: newest key P m.
Proof.
  intros Hm Hx HP. assert (forall j y, m !! j = Some y -> key y = j) as Hk by (intros; by apply Hm).
  assert (m !! k = None) as Hfresh.
  { apply eq_None_not_Some. intros [y Hy]. destruct (Hm _ _ Hy). lia. }
  symmetry. apply newest_unique.
  - intros j y [[<- <-]|[_ Hy]]%lookup_insert_Some; [done|]. by apply Hk.
  - constructor; [by apply newest_sorted|]. apply Forall_forall. intros y [Hy _]%elem_of_newest; [|done].
    destruct (Hm _ _ Hy). unfold newer_first. lia.
  - apply NoDup_cons_2; [|by apply newest_nodup]. intros [Hy _]%elem_of_newest; [|done]. rewrite Hx in Hy. congruence.
  - intros y. rewrite elem_of_cons, elem_of_newest by done. split.
    + intros [->|[Hy HPy]]; [by rewrite Hx, lookup_insert_eq|]. split; [|done].
      rewrite lookup_insert_ne; [done|]. destruct (Hm _ _ Hy). lia.
    + intros [[[? <-]|[_ Hy]]%lookup_insert_Some HPy]; [by left|by right].
Qed.

Lemma newest_ext {A} (key : A -> Z) (m m' : gmap Z A) (P Q : A -> Prop)
    `{forall x, Decision (P x)} `{forall x, Decision (Q x)} :
  (forall k x, m !! k = Some x -> key x = k) -> (forall k x, m' !! k = Some x -> key x = k) ->
  (forall x, m !! key x = Some x /\ P x <-> m' !! key x = Some x /\ Q x) -> newest key P m = newest key Q m'.
Proof.
  intros Hk Hk' HPQ. apply newest_unique; [done|by apply newest_sorted|by apply newest_nodup|].
  intros x. by rewrite elem_of_newest.
Qed.

(** ** Who may read a channel *)

(** The account may do [need] in the channel, which it sees. *)
Definition may_in (t : Tables) (a c need : Z) : Prop := exists g,
  channel_in_guild t c g = true /\ (is_admin t a = true \/ holds t g a c (need ∪ₚ PermViewChannel)).

Lemma holds_one t g a c i : 0 <= i -> layered t g a c i = Some true -> holds t g a c (Z.shiftl 1 i).
Proof.
  intros Hi Hl j Hj. rewrite Z.shiftl_1_l, Z.pow2_bits_eqb in Hj by done. by apply Z.eqb_eq in Hj as <-.
Qed.

Lemma AuthorizeChannel_run s a c need :
  wf (tabs s) -> faults s = [] -> may_in (tabs s) a c need ->
  exists row g d, AuthorizeChannelUnlocked a c need s = (inr (row, g, d), s) /\
    t_channels (tabs s) !! c = Some row /\ channel_guild_id row = Some g /\
    granted (tabs s) a g c (need ∪ₚ PermViewChannel) d.
Proof.
  intros Hwf Hup (g & Hg & Hmay).
  pose proof (authorizeChannel_verdict (tabs s) a c need (mkChannelAuth false true) s Hwf Hup eq_refl) as Hv.
  unfold AuthorizeChannelUnlocked.
  rewrite (transparent_nil _ s (transparent_authorizeChannel a c need _) Hup).
  destruct (authorizeChannel a c need _ s).1 as [[]|[[row g'] d]]; try done; cbn in Hv.
  - destruct (Hv g Hg) as [Ha Hn]. destruct Hmay as [?|[_ Hview]%holds_add]; [congruence|].
    by rewrite holds_view in Hview.
  - destruct Hv as (g' & Hg' & Ha & Hview & Hn). assert (g' = g) as -> by exact (channel_in_guild_inj _ _ _ _ Hg' Hg).
    destruct Hmay as [?|[? _]%holds_add]; [congruence|done].
  - destruct Hv as (Hrow & Eg & Hv). by exists row, g', d.
Qed.

(** ** The tags of a page *)

Lemma StronglySorted_filter {A} (R : A -> A -> Prop) (P : A -> Prop) `{forall x, Decision (P x)} (l : list A) :
  StronglySorted R l -> StronglySorted R (filter P l).
Proof.
  induction 1 as [|x l Hs IH Hx]; [constructor|]. rewrite filter_cons. destruct (decide (P x)); [|done].
  constructor; [done|]. apply Forall_forall. intros y [_ Hy]%list_elem_of_filter. by eapply Forall_forall in Hx.
Qed.

#[export] Instance tagged_before_total : Total tagged_before.
Proof. intros r1 r2. unfold tagged_before. lia. Qed.
#[export] Instance tagged_before_trans : Transitive tagged_before.
Proof. intros r1 r2 r3. unfold tagged_before. lia. Qed.

(** What one message shows of its tags, the same as ForMessage answers. *)
Definition tags_on (x : Chat) (viewer id : Z) : list AppliedTag := applied_tag <$> tags_for x [id] viewer.

Lemma elem_of_tags_for x ids v r :
  r ∈ tags_for x ids v <-> (ltm_MessageID r ∈ ids /\ tag_visible v (ltm_MessageTag r) = true) /\
    exists k app, c_applied x !! k = Some app /\ tagged_row x app = Some r.
Proof.
  unfold tags_for. rewrite merge_sort_Permutation, list_elem_of_filter, list_elem_of_omap. split.
  - intros [? (app & Happ & Hr)]. split; [done|]. apply list_elem_of_fmap in Happ as ([k app'] & -> & H').
    exists k, app'. split; [|done]. by apply elem_of_map_to_list.
  - intros [? (k & app & Happ & Hr)]. split; [done|]. exists app. split; [|done]. apply list_elem_of_fmap.
    exists (k, app). split; [done|]. by apply elem_of_map_to_list.
Qed.

(** Tags, and what they are on, keyed as the tables are. *)
Definition tags_keyed (x : Chat) : Prop :=
  (forall id tag, c_tags x !! id = Some tag -> tag_id tag = id) /\
  (forall tid mid app, c_applied x !! (tid, mid) = Some app -> ta_tag_id app = tid /\ ta_message_id app = mid).

Lemma tags_ok_keyed `{Collation} t : tags_ok t -> tags_keyed (t_chat t).
Proof.
  intros Hok. split; [intros id tag Ht; apply (to_key _ Hok _ _ Ht)|].
  intros tid mid app Ha. destruct (to_applied _ Hok _ _ _ Ha) as (? & ? & _). done.
Qed.

Lemma tagged_row_inv x app r : tags_keyed x -> tagged_row x app = Some r ->
  c_tags x !! ta_tag_id app = Some (ltm_MessageTag r) /\ tag_id (ltm_MessageTag r) = ta_tag_id app /\
  ltm_MessageID r = ta_message_id app.
Proof.
  intros [Hk _]. unfold tagged_row. intros (tag & Ht & [= <-])%bind_Some. split_and!; [done| |done].
  by apply Hk.
Qed.

Lemma tags_for_antisym x ids ids' v r1 r2 :
  tags_keyed x -> r1 ∈ tags_for x ids v -> r2 ∈ tags_for x ids' v ->
  tagged_before r1 r2 -> tagged_before r2 r1 -> r1 = r2.
Proof.
  intros Hk (_ & [tid1 mid1] & a1 & Ha1 & Hr1)%elem_of_tags_for (_ & [tid2 mid2] & a2 & Ha2 & Hr2)%elem_of_tags_for H12 H21.
  destruct (tagged_row_inv _ _ _ Hk Hr1) as (_ & E1 & M1), (tagged_row_inv _ _ _ Hk Hr2) as (_ & E2 & M2).
  destruct (proj2 Hk _ _ _ Ha1), (proj2 Hk _ _ _ Ha2). unfold tagged_before in *.
  assert (tid1 = tid2 /\ mid1 = mid2) as [-> ->] by lia. congruence.
Qed.

(** A page's tags are each message's own. *)
Lemma tags_for_each x ids v id : tags_keyed x -> id ∈ ids ->
  filter (fun r => ltm_MessageID r = id) (tags_for x ids v) = tags_for x [id] v.
Proof.
  intros Hk Hid. eapply StronglySorted_unique_strong.
  - intros r1 r2 [_ H1]%list_elem_of_filter H2. by apply (tags_for_antisym x ids [id] v).
  - apply StronglySorted_filter. apply StronglySorted_merge_sort; apply _.
  - apply StronglySorted_merge_sort; apply _.
  - unfold tags_for. rewrite !merge_sort_Permutation, list_filter_filter. apply reflexive_eq, list_filter_iff.
    intros r. rewrite list_elem_of_singleton. naive_solver.
Qed.


(** ** Attaching tags to a page *)

Definition with_rows (rows : list ListTagsForMessagesRow) (m : Message) : Message :=
  with_tags (Some (applied_tag <$> filter (fun r => ltm_MessageID r = Message_ID m) rows)) m.

Lemma index_from_ne msgs i idx id : id ∉ (Message_ID <$> msgs) -> index_from i msgs idx !! id = idx !! id.
Proof.
  revert i idx. induction msgs as [|m msgs IH]; intros i idx Hid; [done|]. cbn in *. apply not_elem_of_cons in Hid as [Hne Hid].
  rewrite IH by done. by rewrite lookup_insert_ne.
Qed.

(** The index is exact when no two messages have one id. *)
Lemma index_from_lookup msgs i idx j m :
  NoDup (Message_ID <$> msgs) -> msgs !! j = Some m ->
  index_from i msgs idx !! Message_ID m = Some (i + j)%nat.
Proof.
  revert i idx j. induction msgs as [|x msgs IH]; intros i idx j Hnd Hj; [done|]. cbn in *.
  apply NoDup_cons in Hnd as [Hx Hnd]. destruct j as [|j]; cbn in Hj.
  - simplify_eq. rewrite index_from_ne by done. rewrite lookup_insert_eq. f_equal. lia.
  - rewrite (IH (S i) _ j) by done. f_equal. lia.
Qed.

Lemma attach_row_spec msgs rows r :
  NoDup (Message_ID <$> msgs) ->
  attach_row (index_from 0 msgs ∅) (with_rows rows <$> msgs) r = with_rows (rows ++ [r]) <$> msgs.
Proof.
  intros Hnd. assert (forall m, ltm_MessageID r <> Message_ID m -> with_rows (rows ++ [r]) m = with_rows rows m) as Hother.
  { intros m Hne. unfold with_rows. rewrite filter_app, filter_cons_False, filter_nil, app_nil_r by done. done. }
  unfold attach_row. destruct (decide (ltm_MessageID r ∈ (Message_ID <$> msgs))) as [Hin|Hout].
  - apply list_elem_of_fmap in Hin as (m & Hid & [j Hj]%list_elem_of_lookup_1). rewrite Hid, (index_from_lookup msgs 0 ∅ j m Hnd Hj).
    cbn [plus]. apply list_eq. intros k. destruct (decide (k = j)) as [->|Hne].
    + rewrite list_lookup_alter_eq, !list_lookup_fmap, Hj. cbn. f_equal. unfold add_tag, with_rows. cbn.
      rewrite filter_app, filter_cons_True, filter_nil, fmap_app by done. done.
    + rewrite list_lookup_alter_ne by done. rewrite !list_lookup_fmap.
      destruct (msgs !! k) as [m'|] eqn:Hk; [|done]. cbn. f_equal. symmetry. apply Hother. intros E.
      apply Hne. eapply (NoDup_lookup (Message_ID <$> msgs)); [exact Hnd|by rewrite list_lookup_fmap, Hk|].
      rewrite list_lookup_fmap, Hj. cbn. congruence.
  - rewrite index_from_ne by done. rewrite lookup_empty. apply list_fmap_ext. intros k m Hm. symmetry. apply Hother.
    intros E. apply Hout. rewrite E. apply list_elem_of_fmap. exists m. split; [done|]. by eapply list_elem_of_lookup_2.
Qed.

Lemma attach_rows_spec msgs rows :
  NoDup (Message_ID <$> msgs) ->
  foldl (attach_row (index_from 0 msgs ∅)) (with_tags (Some []) <$> msgs) rows = with_rows rows <$> msgs.
Proof.
  intros Hnd. induction rows as [|r rows IH] using rev_ind; [done|].
  rewrite foldl_app, IH. cbn [foldl]. by apply attach_row_spec.
Qed.

(** A page as its reader gets it: with the tags the reader may see, if its credential reads tags. *)
Definition tagged (x : Chat) (actor : Actor) (m : Message) : Message :=
  if Actor_HasScope actor ScopeTagsRead
  then with_tags (Some (tags_on x (Actor_UserID actor) (Message_ID m))) m else m.

Lemma attachTags_run actor msgs s :
  faults s = [] -> tags_keyed (t_chat (tabs s)) -> NoDup (Message_ID <$> msgs) ->
  Service_attachTags actor msgs s = (inr (tagged (t_chat (tabs s)) actor <$> msgs), s).
Proof.
  intros Hup Hk Hnd. unfold Service_attachTags, tagged. destruct (Actor_HasScope actor ScopeTagsRead); cbn [negb orb].
  - case_bool_decide as He; [by rewrite He|]. unfold mbind, M_bind, Queries_ListTagsForMessages.
    rewrite reading_run by done. unfold mret, M_ret. do 2 f_equal. rewrite attach_rows_spec by done.
    apply list_fmap_ext. intros j m Hm. unfold with_rows, tags_on. do 3 f_equal. apply tags_for_each; [done|].
    apply list_elem_of_fmap. exists m. split; [done|]. by eapply list_elem_of_lookup_2.
  - by rewrite list_fmap_id.
Qed.

(** ** Scrolling back *)

(** A channel's message as its reader gets it. *)
Definition shown_message (t : Tables) (actor : Actor) (m : dbMessage) : Message :=
  tagged (t_chat t) actor (messageFromRow (authored t m)).

Lemma page_size_range limit : 1 <= page_size limit <= maxPageSize.
Proof. unfold page_size, defaultPageSize, maxPageSize. repeat case_match; lia. Qed.

Lemma ListMessages_run s actor c before after limit :
  wf (tabs s) -> messages_keyed (tabs s) -> tags_keyed (t_chat (tabs s)) -> faults s = [] ->
  may_in (tabs s) (Actor_UserID actor) c PermReadMessageHistory ->
  Service_ListMessages actor (mkListInput c before after limit) s =
  (inr (shown_message (tabs s) actor <$>
          take (Z.to_nat (page_size limit)) (channel_messages (tabs s) c before after)), s).
Proof.
  intros Hwf Hk Hkt Hup Hmay. unfold Service_ListMessages, mbind, M_bind. cbn [li_ChannelID li_Before li_After li_Limit].
  destruct (AuthorizeChannel_run _ _ _ _ Hwf Hup Hmay) as (row & g & d & -> & _). unfold Queries_ListChannelMessages.
  rewrite reading_run by done. rewrite attachTags_run; [by rewrite <- list_fmap_compose, <- list_fmap_compose|done|done|].
  rewrite <- !list_fmap_compose. pose proof (newest_keys msg_id (messages_of (tabs s)) Hk
    (fun m => msg_channel_id m = c /\ msg_deleted_at m = None /\ below before (msg_id m) = true /\
              above after (msg_id m) = true)) as Hnd.
  rewrite <- (take_drop (Z.to_nat (page_size limit)) (newest _ _ _)), fmap_app in Hnd.
  by apply NoDup_app in Hnd as [Hnd _].
Qed.

(** A client scrolling back from the last message it was given, until a page is empty. *)
Fixpoint read_back (fuel : nat) (actor : Actor) (c : Z) (before : option Z) (limit : Z) : M (list Message) :=
  match fuel with
  | O => mret []
  | S fuel =>
      page ← Service_ListMessages actor (mkListInput c before None limit);
      match last page with
      | None => mret []
      | Some m => rest ← read_back fuel actor c (Some (Message_ID m)) limit; mret (page ++ rest)
      end
  end.

Lemma channel_messages_next t c before n m :
  messages_keyed t -> last (take n (channel_messages t c before None)) = Some m ->
  channel_messages t c (Some (msg_id m)) None = drop n (channel_messages t c before None).
Proof.
  intros Hk Hlast. assert (below before (msg_id m) = true) as Hb.
  { apply last_Some in Hlast as [l Hl]. assert (m ∈ channel_messages t c before None) as Hm.
    { rewrite <- (take_drop n (channel_messages t c before None)), Hl. apply elem_of_app. left. apply elem_of_app. right. by left. }
    by apply (elem_of_newest msg_id (messages_of t) Hk) in Hm as (_ & _ & _ & ? & _). }
  apply (newest_next msg_id (messages_of t) Hk _ _ n m Hlast). intros y. unfold below in *.
  change (default 9223372036854775807 (Some (msg_id m))) with (msg_id m). rewrite Z.ltb_lt in *.
  split; [intros (? & ? & ? & ?); split_and!; try done; lia|intros [(? & ? & ? & ?) ?]; by split_and!].
Qed.

(** C33: scrolling back through a channel shows every message once. Whatever limit the client asks for,
    a page holds between one and a hundred messages until there are none left, and reading on below
    the last message of each page until one is empty, which more pages than there are messages always
    reach, gives exactly the channel's messages that are not deleted, newest first, each once. A
    message comes with the tags its reader may see, in the order ForMessage gives them, and with none
    if the credential does not read tags. *)
Theorem ListMessages_pages `{Collation} (s : St) (actor : Actor) (c limit : Z) (fuel : nat)
    (Hinv : whole_inv (tabs s)) (Hup : faults s = [])
    (Hmay : may_in (tabs s) (Actor_UserID actor) c PermReadMessageHistory)
    (Hfuel : (length (channel_messages (tabs s) c None None) < fuel)%nat) :
  let backlog := channel_messages (tabs s) c None None in
  read_back fuel actor c None limit s = (inr (shown_message (tabs s) actor <$> backlog), s) /\
  StronglySorted (fun m1 m2 => msg_id m2 <= msg_id m1) backlog /\ NoDup (msg_id <$>backlog) /\
  (forall m, m ∈ backlog <-> messages_of (tabs s) !! msg_id m = Some m /\ msg_channel_id m = c /\
     msg_deleted_at m = None /\ 0 < msg_id m < 2 ^ 63 - 1) /\
  (forall before page s1, Service_ListMessages actor (mkListInput c before None limit) s = (inr page, s1) ->
     (length page <= 100)%nat /\ (page = [] -> channel_messages (tabs s) c before None = [])).
Proof.
  intros backlog. destruct Hinv as [[[Hwf _] _] [Hm Ht _]]. pose proof (mo_key _ Hm) as Hk.
  pose proof (tags_ok_keyed _ Ht) as Hkt. pose proof (page_size_range limit) as Hr. unfold maxPageSize in Hr.
  split; [|split_and!].
  - unfold backlog. enough (forall before, (length (channel_messages (tabs s) c before None) < fuel)%nat ->
      read_back fuel actor c before limit s =
      (inr (shown_message (tabs s) actor <$> channel_messages (tabs s) c before None), s)) as Hall by (by apply Hall).
    clear Hfuel backlog. induction fuel as [|fuel IH]; intros before Hfuel; [lia|].
    cbn [read_back]. unfold mbind, M_bind. rewrite ListMessages_run by done.
    set (n := Z.to_nat (page_size limit)). rewrite fmap_last.
    destruct (last (take n (channel_messages (tabs s) c before None))) as [m|] eqn:Hlast; cbn.
    + pose proof (channel_messages_next _ _ _ _ _ Hk Hlast) as Hnext.
      assert (Message_ID (shown_message (tabs s) actor m) = msg_id m) as ->.
      { unfold shown_message, tagged. by destruct (Actor_HasScope _ _). }
      rewrite (IH (Some (msg_id m))).
      * unfold mret, M_ret. rewrite Hnext, <- fmap_app. by rewrite take_drop.
      * rewrite Hnext, length_drop. destruct (channel_messages (tabs s) c before None) eqn:E; [by rewrite take_nil in Hlast|].
        cbn in *. lia.
    + apply last_None in Hlast. destruct (channel_messages (tabs s) c before None) as [|x l]; [done|].
      by destruct n eqn:En; [lia|].
  - apply (newest_sorted msg_id).
  - by apply newest_keys.
  - intros m. rewrite (elem_of_newest msg_id (messages_of (tabs s)) Hk
      (fun m => msg_channel_id m = c /\ msg_deleted_at m = None /\ below None (msg_id m) = true /\
                above None (msg_id m) = true) m : m ∈ backlog <-> _). unfold below, above. cbn [default]. rewrite !Z.ltb_lt. change (2 ^ 63 - 1) with 9223372036854775807. naive_solver lia.
  - intros before page s1. rewrite ListMessages_run by done. intros [= <- _].
    rewrite length_fmap, length_take. split; [lia|]. intros He%fmap_nil_inv.
    destruct (channel_messages (tabs s) c before None); [done|].
    destruct (Z.to_nat (page_size limit)) eqn:E; [lia|done].
Qed.

(** ** A concrete conversation *)

#[local] Existing Instance C_lower.

Definition by_user : Credential := mkCredential ActorUser [].

(** The example guild lets everyone speak in channel 8 and records it. 103 says something, 102 answers,
    103 corrects itself; the owner tags the answer for everyone, 103 its own message for itself, and
    102 says one thing more. *)
Definition talk_acts : list (Z * Action) := [
  (100, ActGuild (ReqUpdateRole 1 1 (mkUpdateRoleInput None None
    (Some (PermViewChannel ∪ₚ PermSendMessages ∪ₚ PermReadMessageHistory)) None None)));
  (100, ActGuild (ReqUpdateGuild 1 (mkUpdateGuildInput None None false (Some true))));
  (103, ActChat (ChSend by_user 10 (mkSendInput 8 "helo" None)));
  (102, ActChat (ChSend by_user 20 (mkSendInput 8 "hi" (Some (first_ids 3)))));
  (103, ActChat (ChUpdate by_user 30 (mkUpdateInput 8 (first_ids 3) "hello")));
  (100, ActChat (ChCreateTag 40 (mkCreateTagInput 1 "todo" true)));
  (103, ActChat (ChCreateTag 50 (mkCreateTagInput 1 "mine" false)));
  (100, ActChat (ChApplyTag 60 (mkApplyInput 8 (first_ids 5) (first_ids 9))));
  (103, ActChat (ChApplyTag 70 (mkApplyInput 8 (first_ids 3) (first_ids 10))));
  (102, ActChat (ChSend by_user 80 (mkSendInput 8 "bye" None))) ].

Definition talk_state : St := history example_service talk_acts invite_state.

Lemma talk_whole : whole_inv (tabs talk_state).
Proof.
  apply (history_ind example_service (fun _ => True)); [done|exact invite_tables_whole|done].
Qed.

(** 103 reads the three messages in pages of two, each with the tags it may see; 102 does not see the
    private one. *)
Lemma ListMessages_pages_witness :
  let s := talk_state in
  let shows u := match (read_back 4 (actor_with u by_user) 8 None 2 s).1 with
                 | inl _ => []
                 | inr l => map (fun m => (Message_Content m, map AppliedTag_Name <$> Message_Tags m)) l
                 end in
  shows 103 = [("bye", Some []); ("hi", Some ["todo"]); ("hello", Some ["mine"])]%string /\
  shows 102 = [("bye", Some []); ("hi", Some ["todo"]); ("hello", Some [])]%string /\
  read_back 4 (actor_with 103 by_user) 8 None 2 s =
    (inr (shown_message (tabs s) (actor_with 103 by_user) <$> channel_messages (tabs s) 8 None None), s).
Proof.
  intros s shows. do 2 (split; [vm_compute; reflexivity|]).
  apply (ListMessages_pages s (actor_with 103 by_user) 8 2 4 talk_whole); [vm_compute; reflexivity| |].
  - exists 1. split; [vm_compute; reflexivity|]. right.
    apply holds_add. split; (apply holds_one; [lia|vm_compute; reflexivity]).
  - vm_compute. lia.
Defined.

(** ** Words and their authors *)

(** ** What a request may have been granted *)

Lemma granted_may_in t a c ch g p d :
  t_channels t !! c = Some ch -> channel_guild_id ch = Some g -> granted t a g c (p ∪ₚ PermViewChannel) d ->
  may_in t a c p.
Proof.
  intros Hch Hg Hd. exists g. split; [apply channel_in_guild_true; eauto|]. unfold granted in Hd. cbn in Hd.
  destruct (is_admin t a); [by left|right]. apply Hd.
Qed.

Lemma allowed_may_in t a c ch g q p d :
  t_channels t !! c = Some ch -> channel_guild_id ch = Some g -> granted t a g c (q ∪ₚ PermViewChannel) d ->
  Decision_Allows d p = true -> may_in t a c p.
Proof.
  intros Hch Hg Hd Ha. exists g. split; [apply channel_in_guild_true; eauto|]. unfold granted in Hd. cbn in Hd.
  destruct (is_admin t a); [by left|right]. destruct Hd as (Hi & Hr & [_ Hv]%holds_add).
  apply holds_add. split; [|done]. apply (resolved_holds _ _ _ _ _ _ Hr). unfold Decision_Allows in Ha.
  by rewrite Hi in Ha.
Qed.

(** ** One message through one action *)

(** What an account may do to a message that is there: leave it, let it go with its channel, change its
    own, or delete one. *)
Inductive message_step (t t' : Tables) (a : Z) (x : Action) (id : Z) (m : dbMessage) : option dbMessage -> Prop :=
  | message_same : message_step t t' a x id m (Some m)
  | message_gone : t_channels t' !! msg_channel_id m = None -> message_step t t' a x id m None
  | message_edited k now c content : x = ActChat (ChUpdate k now (mkUpdateInput c id content)) ->
      msg_channel_id m = c -> msg_author_id m = Some a -> msg_deleted_at m = None ->
      may_in t a c PermSendMessages ->
      message_step t t' a x id m (Some (edited now content (typeFor (actor_with a k)) m))
  | message_deleted k now c : x = ActChat (ChDelete k now c id) ->
      msg_channel_id m = c -> msg_deleted_at m = None ->
      (msg_author_id m = Some a /\ may_in t a c 0 \/ may_in t a c PermManageMessages) ->
      message_step t t' a x id m (Some (soft_deleted now m)).

(** A message that was not there is the account's own. *)
Inductive message_new (t : Tables) (a : Z) (x : Action) (id : Z) : option dbMessage -> Prop :=
  | message_none : message_new t a x id None
  | message_sent k now input : x = ActChat (ChSend k now input) -> may_in t a (si_ChannelID input) PermSendMessages ->
      message_new t a x id (Some (new_message now (mkCreateMessageParams id (si_ChannelID input) (Some a)
        (si_Content input) (typeFor (actor_with a k)) (si_ReplyToID input)))).

Definition message_next (t t' : Tables) (a : Z) (x : Action) (id : Z) : Prop :=
  match messages_of t !! id with
  | Some m => message_step t t' a x id m (messages_of t' !! id)
  | None => message_new t a x id (messages_of t' !! id)
  end.

Section words.
Context {coll : Collation}.

Lemma message_stays t t' a x id :
  match messages_of t !! id with
  | Some m => message_step t t' a x id m (messages_of t !! id)
  | None => message_new t a x id (messages_of t !! id)
  end.
Proof. destruct (messages_of t !! id); constructor. Qed.

Lemma message_kept t t' a x id : messages_of t' !! id = messages_of t !! id -> message_next t t' a x id.
Proof. intros E. unfold message_next. rewrite E. apply message_stays. Qed.

Lemma message_kept_all t t' a x id : messages_of t' = messages_of t -> message_next t t' a x id.
Proof. intros E. apply message_kept. by rewrite E. Qed.

Lemma recorded_messages now g a id action t t' :
  recorded now g a id action t t' -> messages_of t' = messages_of t.
Proof. by intros [m ->]%recorded_is. Qed.

Lemma audited_if_messages over row t1 t' : audited_if over row t1 t' -> messages_of t' = messages_of t1.
Proof. destruct over; [by intros (? & _ & ->)|by intros ->]. Qed.

Lemma chat_effect_message bus a req t t' evs id :
  chat_effect bus a req t t' evs -> message_next t t' a (ActChat req) id.
Proof.
  destruct req; cbn [chat_effect].
  - intros (id' & out & ch & g & d & Hch & Hg & _ & Hd & _ & _ & _ & Hid & _ & Hrec%recorded_messages & _).
    unfold message_next. rewrite Hrec. unfold posted. change (messages_of (on_chat _ t)) with (<[id' := new_message now
      (mkCreateMessageParams id' (si_ChannelID input) (Some a) (si_Content input) (typeFor (actor_with a k))
         (si_ReplyToID input))]> (messages_of t)).
    destruct (decide (id = id')) as [->|Hne].
    + rewrite Hid, lookup_insert_eq. econstructor; [done|]. by eapply granted_may_in.
    + rewrite lookup_insert_ne by done. apply message_stays.
  - intros (hid & out & ch & g & d & m & tags & Hch & Hg & Hd & _ & _ & Hm & Hc & Ha & _ & Hrec%recorded_messages & _).
    destruct input as [c0 id0 content]. cbn in *. unfold message_next. rewrite Hrec.
    change (messages_of (rewritten _ _ _ ?co ?ty _ t)) with (<[id0 := edited now co ty m]> (messages_of t)).
    destruct (decide (id = id0)) as [->|Hne]; [|rewrite lookup_insert_ne by done; apply message_stays].
    apply live_message_Some in Hm as [Hm Hlive]. rewrite Hm, lookup_insert_eq.
    eapply message_edited; try done. by eapply granted_may_in.
  - intros (aid & ch & g & d & m & t1 & Hch & Hg & Hd & Hm & Hc & Hmay & Hrec%recorded_messages & Ht & _).
    assert (messages_of t' = messages_of t1) as E by (destruct (is_author _ _); [by subst|by destruct Ht as [_ ->]]).
    unfold message_next. rewrite E, Hrec.
    change (messages_of (redacted _ _ _ t)) with (<[id0 := soft_deleted now m]> (messages_of t)).
    destruct (decide (id = id0)) as [->|Hne]; [|rewrite lookup_insert_ne by done; apply message_stays].
    apply live_message_Some in Hm as [Hm Hlive]. rewrite Hm, lookup_insert_eq.
    eapply message_deleted; try done.
    destruct Hmay as [Hauthor|Hallow]; [left|right]; [split; [done|]; by eapply granted_may_in|].
    by eapply allowed_may_in.
  - intros (_ & _ & id' & out & d & _ & _ & _ & _ & _ & _ & _ & -> & _). by apply message_kept_all.
  - intros [(d & tag & _ & _ & _ & Ha%audited_if_messages) _]. by apply message_kept_all.
  - intros [(g & d & tag & _ & _ & _ & [[_ ->]|(_ & _ & ->)]) _]; by apply message_kept_all.
  - intros [(g & d & tag & app & _ & _ & _ & _ & Ha%audited_if_messages) _]. by apply message_kept_all.
  - intros (_ & _ & id' & out & m & ch & g & d & _ & _ & _ & _ & _ & _ & _ & _ & -> & _). by apply message_kept_all.
  - intros (_ & status & out & _ & _ & d & r & aid & ty & st & _ & _ & _ & _ & _ & Ha & _ & _ & -> & _).
    by apply message_kept_all.
Qed.

(** A channel goes with all its messages, and so with what they reply to. *)
Lemma leaves_message_next gone og t t' a x id :
  leaves gone og t t' -> messages_ok t -> message_next t t' a x id.
Proof.
  intros L Hm. unfold message_next. destruct (messages_of t !! id) as [m|] eqn:Em.
  - destruct (messages_of t' !! id) as [m'|] eqn:Em'.
    + apply (leaves_message _ _ _ _ L) in Em' as (m0 & Hm0 & Hc & ->). simplify_eq.
      assert (forget_reply (message_in gone (t_chat t)) m = m) as ->; [|constructor].
      unfold forget_reply. destruct (msg_reply_to_id m) as [r|] eqn:Er; [|done].
      destruct (mo_reply _ Hm _ _ _ Em Er) as (mr & Hmr & Ec). unfold message_in.
      change (c_messages (t_chat t) !! r) with (messages_of t !! r). by rewrite Hmr, Ec, Hc.
    + constructor. destruct (gone (msg_channel_id m)) eqn:Hg; [by apply (lv_gone _ _ _ _ L)|].
      assert (is_Some (messages_of t' !! id)) as [? ?]; [|congruence].
      eapply leaves_message_kept; [exact L|exact Em|]. unfold message_in.
      change (c_messages (t_chat t) !! id) with (messages_of t !! id). by rewrite Em.
  - destruct (messages_of t' !! id) as [m'|] eqn:Em'; [|constructor].
    apply (leaves_message _ _ _ _ L) in Em' as (m0 & Hm0 & _). congruence.
Qed.

Lemma act_message svc a x t t' evs id :
  messages_ok t -> act_effect svc a x t t' evs -> message_next t t' a x id.
Proof.
  intros Hm. destruct x as [r|r|r]; cbn.
  - intros (gone & og & L)%effect_leaves. by eapply leaves_message_next.
  - intros L%invite_effect_leaves. by eapply leaves_message_next.
  - apply chat_effect_message.
Qed.

(** The same for an action that may be refused. *)
Lemma act_message_run svc a x s id :
  whole_inv (tabs s) -> message_next (tabs s) (tabs (act svc a x s).2) a x id.
Proof.
  intros Hinv. pose proof (act_outcome svc a x s Hinv) as Ho. unfold outcome in Ho.
  destruct (act svc a x s) as [[e|u] s']; cbn; [destruct Ho as [-> _]; by apply message_kept|].
  destruct Ho as (evs & He & _). eapply act_message; [|done]. apply Hinv.
Qed.

(** ** What was said before *)

Definition of_message (id : Z) (h : dbEditHistory) : Prop := eh_message_id h = id.
#[export] Instance of_message_dec id h : Decision (of_message id h).
Proof. unfold of_message. apply _. Defined.

Definition versions (t : Tables) (id : Z) : list dbEditHistory :=
  newest eh_id (of_message id) (c_history (t_chat t)).

(** Everything a message ever said that is still kept, the present text first. *)
Definition texts (t : Tables) (id : Z) : list string :=
  match messages_of t !! id with
  | Some m => msg_content m :: (eh_content <$> versions t id)
  | None => []
  end.

(** The text an action gives the message, if it is an edit and accepted. *)
Definition correction (svc : Service) (a : Z) (x : Action) (s : St) (id : Z) : list string :=
  match (act svc a x s).1 with
  | inl _ => []
  | inr _ => match x with
             | ActChat (ChUpdate _ _ input) => if ui_MessageID input =? id then [ui_Content input] else []
             | _ => []
             end
  end.

(** The texts given over a history, the last one first. *)
Fixpoint corrections (svc : Service) (acts : list (Z * Action)) (s : St) (id : Z) : list string :=
  match acts with
  | [] => []
  | (a, x) :: acts => corrections svc acts (act svc a x s).2 id ++ correction svc a x s id
  end.

(** No message or earlier version has an id the generator has yet to issue. *)
Definition chat_issued (s : St) : Prop :=
  gen_ok (gen s) /\ (forall id, is_Some (messages_of (tabs s) !! id) -> id <= mark (gen s)) /\
  (forall hid, is_Some (c_history (t_chat (tabs s)) !! hid) -> hid <= mark (gen s)).

Lemma Send_fresh bus a k now input s u s' :
  wf (tabs s) -> messages_keyed (tabs s) -> gen_ok (gen s) ->
  handle_chat bus a (ChSend k now input) s = (inr u, s') ->
  exists id out evs, mark (gen s) < id <= mark (gen s') /\
    Send_effect bus (actor_with a k) now id input (tabs s) out (tabs s') evs.
Proof.
  intros Hwf Hk Hg. cbn [handle_chat]. unfold Service_Send. rewrite bind_assoc_run.
  apply (fresh_tx _ (fun id t out t' evs => Send_effect bus (actor_with a k) now id input t out t' evs)); [auto with norite|done|].
  intros id s1 Ht Hh. rewrite <- Ht. apply wp_Send_tx; [by rewrite Ht..|done].
Qed.

Lemma UpdateMessage_fresh bus a k now input s u s' :
  wf (tabs s) -> messages_keyed (tabs s) -> gen_ok (gen s) ->
  handle_chat bus a (ChUpdate k now input) s = (inr u, s') ->
  exists hid out evs, mark (gen s) < hid <= mark (gen s') /\
    UpdateMessage_effect bus (actor_with a k) now hid input (tabs s) out (tabs s') evs.
Proof.
  intros Hwf Hk Hg. cbn [handle_chat]. unfold Service_UpdateMessage. rewrite bind_assoc_run.
  apply (fresh_tx _ (fun id t out t' evs => UpdateMessage_effect bus (actor_with a k) now id input t out t' evs)); [auto with norite|done|].
  intros id s1 Ht Hh. rewrite <- Ht. apply wp_UpdateMessage_tx; [by rewrite Ht..|done].
Qed.

Lemma recorded_history now g a id action t t' :
  recorded now g a id action t t' -> c_history (t_chat t') = c_history (t_chat t).
Proof. by intros [m ->]%recorded_is. Qed.

Lemma audited_if_history over row t1 t' :
  audited_if over row t1 t' -> c_history (t_chat t') = c_history (t_chat t1).
Proof. destruct over; [by intros (? & _ & ->)|by intros ->]. Qed.

(** Whether a request writes to the messages' texts. *)
Definition writes (x : Action) : bool :=
  match x with ActChat (ChSend _ _ _) | ActChat (ChUpdate _ _ _) => true | _ => false end.

Lemma chat_effect_history bus a req t t' evs :
  chat_effect bus a req t t' evs -> writes (ActChat req) = false -> c_history (t_chat t') = c_history (t_chat t).
Proof.
  destruct req; cbn [chat_effect writes]; try done.
  - intros (aid & ch & g & d & m & t1 & _ & _ & _ & _ & _ & _ & Hrec%recorded_history & Ht & _) _.
    destruct (is_author _ _); [by subst|by destruct Ht as [_ ->]].
  - intros (_ & _ & id' & out & d & _ & _ & _ & _ & _ & _ & _ & -> & _). done.
  - intros [(d & tag & _ & _ & _ & Ha%audited_if_history) _]. done.
  - intros [(g & d & tag & _ & _ & _ & [[_ ->]|(_ & _ & ->)]) _]; done.
  - intros [(g & d & tag & app & _ & _ & _ & _ & Ha%audited_if_history) _]. done.
  - intros (_ & _ & id' & out & m & ch & g & d & _ & _ & _ & _ & _ & _ & _ & _ & -> & _). done.
  - by intros (_ & status & out & _ & _ & d & r & aid & ty & st & _ & _ & _ & _ & _ & Ha & _ & _ & -> & _).
Qed.

(** Any other action keeps the text and the earlier versions of every message it leaves. *)
Lemma act_texts_kept svc a x t t' evs :
  whole_inv t -> act_effect svc a x t t' evs -> writes x = false ->
  (forall id, is_Some (messages_of t' !! id) -> is_Some (messages_of t !! id) /\ texts t' id = texts t id) /\
  c_history (t_chat t') ⊆ c_history (t_chat t).
Proof.
  intros Hinv He Hw. pose proof (co_messages _ (wi_chat _ Hinv)) as Hm.
  assert (forall gone og, leaves gone og t t' ->
    (forall id, is_Some (messages_of t' !! id) -> is_Some (messages_of t !! id) /\ texts t' id = texts t id) /\
    c_history (t_chat t') ⊆ c_history (t_chat t)) as Hleaves.
  { intros gone og L. split; [|rewrite (leaves_history _ _ _ _ L); apply map_filter_subseteq].
    intros id [m' Hm']. pose proof Hm' as (m & Hl & Hc & ->)%(leaves_message _ _ _ _ L). split; [by eexists|].
    unfold texts. rewrite Hm', Hl. f_equal; [by destruct (forget_reply_same (message_in gone (t_chat t)) m) as (_ & _ & _ & -> & _)|].
    f_equal. unfold versions. apply newest_ext.
    - intros k h. rewrite (leaves_history _ _ _ _ L). intros [Hh _]%map_lookup_filter_Some. apply (mo_history _ Hm _ _ Hh).
    - intros k h Hh. apply (mo_history _ Hm _ _ Hh).
    - intros h. rewrite (leaves_history _ _ _ _ L), map_lookup_filter_Some. cbn. unfold of_message, message_in.
      change (c_messages (t_chat t)) with (messages_of t). split; [tauto|]. intros [Hh <-]. by rewrite Hl, Hc. }
  destruct x as [r|r|r]; cbn in He; [destruct (effect_leaves _ _ _ _ _ _ He) as (gone & og & L); by eapply Hleaves
    |by eapply Hleaves, invite_effect_leaves|].
  pose proof (chat_effect_history _ _ _ _ _ _ He Hw) as Eh. split; [|by rewrite Eh].
  intros id [m' Hm']. pose proof (chat_effect_message _ _ _ _ _ _ id He) as Hn. unfold message_next in Hn.
  rewrite Hm' in Hn. unfold texts, versions. rewrite Hm', Eh. destruct (messages_of t !! id) as [m|].
  - split; [by eexists|]. f_equal. inversion Hn; by simplify_eq.
  - inversion Hn; by simplify_eq.
Qed.

Lemma act_committed svc a x s :
  whole_inv (tabs s) ->
  (exists e, (act svc a x s).1 = inl e /\ tabs (act svc a x s).2 = tabs s) \/
  (exists evs, (act svc a x s).1 = inr tt /\ act_effect svc a x (tabs s) (tabs (act svc a x s).2) evs).
Proof.
  intros Hinv. pose proof (act_outcome svc a x s Hinv) as Ho. unfold outcome in Ho.
  destruct (act svc a x s) as [[e|[]] s']; cbn; [left|right].
  - destruct Ho as [-> _]. by exists e.
  - destruct Ho as (evs & He & _). by exists evs.
Qed.

(** One action on the texts: an accepted edit puts its text in front, and no other changes them. *)
Lemma act_texts svc a x s :
  whole_inv (tabs s) -> chat_issued s ->
  chat_issued (act svc a x s).2 /\
  forall id, id <= mark (gen s) -> is_Some (messages_of (tabs (act svc a x s).2) !! id) ->
    is_Some (messages_of (tabs s) !! id) /\
    texts (tabs (act svc a x s).2) id = correction svc a x s id ++ texts (tabs s) id.
Proof.
  intros Hinv (Hg & Hmi & Hhi). destruct (act_forward svc a x s Hg) as [Hg' Hmark].
  pose proof (co_messages _ (wi_chat _ Hinv)) as Hm. pose proof (mo_key _ Hm) as Hk.
  pose proof (proj1 (proj1 (wi_guild _ Hinv))) as Hwf. unfold correction.
  destruct (act_committed svc a x s Hinv) as [(e & -> & Ht)|(evs & Er & He)].
  { split; [|intros id _; rewrite Ht; by destruct x as [| |[]]]. split; [done|]. rewrite Ht.
    split; intros j Hj; [specialize (Hmi j Hj)|specialize (Hhi j Hj)]; lia. }
  rewrite Er. destruct (writes x) eqn:Hw.
  2: { destruct (act_texts_kept _ _ _ _ _ _ Hinv He Hw) as [Hkept Hsub]. split.
    - split; [done|]. split; intros j Hj; [specialize (Hmi j (proj1 (Hkept j Hj))); lia|].
      destruct Hj as [h Hj]. assert (j <= mark (gen s)); [|lia]. apply Hhi. exists h. by eapply lookup_weaken.
    - intros id _ Hid. destruct (Hkept id Hid) as [? ->]. split; [done|]. by destruct x as [| |[]]. }
  destruct x as [| |[k now input|k now input| | | | | | |]]; try done; cbn [act] in *.
  - destruct (handle_chat _ a _ s) as [r s'] eqn:E. cbn in Er. subst r. cbn [snd] in *. clear He.
    destruct (Send_fresh _ _ _ _ _ _ _ _ Hwf Hk Hg E) as (id & out & evs' & Hid & ch & g & d & _ & _ & _ & _ & _ & _ & _ & Hnone & _ & Hrec & _).
    pose proof (recorded_messages _ _ _ _ _ _ _ Hrec) as Em. pose proof (recorded_history _ _ _ _ _ _ _ Hrec) as Eh.
    change (messages_of (posted ?m _)) with (<[id := m]> (messages_of (tabs s))) in Em.
    change (c_history (t_chat (posted _ ?t))) with (c_history (t_chat t)) in Eh. split.
    + split; [done|]. rewrite Em, Eh. split; intros j Hj; [|specialize (Hhi j Hj); lia].
      apply lookup_insert_is_Some' in Hj as [<-|Hj]; [lia|]. specialize (Hmi j Hj). lia.
    + intros j Hj Hs. unfold texts, versions. rewrite Em, Eh in *. rewrite lookup_insert_ne in * by lia. done.
  - destruct (handle_chat _ a _ s) as [r s'] eqn:E. cbn in Er. subst r. cbn [snd] in *. clear He.
    destruct (UpdateMessage_fresh _ _ _ _ _ _ _ _ Hwf Hk Hg E) as (hid & out & evs' & Hid & ch & g & d & m & tags & _ & _ & _ & _ & _ & Hlm & _ & _ & Hnone & Hrec & _).
    pose proof (recorded_messages _ _ _ _ _ _ _ Hrec) as Em. pose proof (recorded_history _ _ _ _ _ _ _ Hrec) as Eh.
    apply live_message_Some in Hlm as [Hlm _].
    set (id := ui_MessageID input) in *.
    change (messages_of (rewritten _ _ _ ?co ?ty _ _)) with (<[id := edited now co ty m]> (messages_of (tabs s))) in Em.
    change (c_history (t_chat (rewritten _ _ _ _ _ _ ?t))) with
      (<[hid := mkDbEditHistory hid id (msg_content m) now]> (c_history (t_chat t))) in Eh. split.
    + split; [done|]. rewrite Em, Eh. split; intros j [<-|Hj]%lookup_insert_is_Some'; try lia;
        [specialize (Hmi id (ex_intro _ m Hlm)); lia|specialize (Hmi j Hj); lia|specialize (Hhi j Hj); lia].
    + intros j Hj Hs. unfold texts, versions. rewrite Em, Eh in *. destruct (Z.eqb_spec id j) as [<-|Hne].
      * rewrite lookup_insert_eq, Hlm. split; [by eexists|]. cbn. do 2 f_equal.
        rewrite newest_insert; [done| |done|done]. intros k0 h Hh. destruct (mo_history _ Hm _ _ Hh). split; [done|].
        specialize (Hhi k0 (ex_intro _ h Hh)). lia.
      * rewrite lookup_insert_ne in * by done. split; [done|]. cbn. destruct (messages_of (tabs s) !! j); [|done].
        do 2 f_equal. apply newest_ext.
        -- intros k0 h [[<- <-]|[_ Hh]]%lookup_insert_Some; [done|]. apply (mo_history _ Hm _ _ Hh).
        -- intros k0 h Hh. apply (mo_history _ Hm _ _ Hh).
        -- intros h. unfold of_message. rewrite lookup_insert_Some. split.
           ++ intros [[[_ <-]|[_ ?]] Ej]; [by destruct (Hne Ej)|done].
           ++ intros [Hh ?]. split; [|done]. right. split; [|done]. intros E0. rewrite <- E0 in Hh. congruence.
Qed.

Lemma texts_history svc acts s id :
  whole_inv (tabs s) -> chat_issued s -> id <= mark (gen s) ->
  chat_issued (history svc acts s) /\
  (is_Some (messages_of (tabs (history svc acts s)) !! id) ->
   is_Some (messages_of (tabs s) !! id) /\
   texts (tabs (history svc acts s)) id = corrections svc acts s id ++ texts (tabs s) id).
Proof.
  revert s. induction acts as [|[a x] acts IH]; intros s Hinv Hids Hid; [done|]. cbn.
  destruct (act_texts svc a x s Hinv Hids) as [Hids' Hstep].
  destruct (act_forward svc a x s (proj1 Hids)) as [_ Hm].
  destruct (IH (act svc a x s).2) as [Hi Ht]; [by apply act_inv|done|lia|]. split; [done|]. intros Hend.
  destruct (Ht Hend) as [Hmid E]. destruct (Hstep id Hid Hmid) as [? E1]. split; [done|].
  change (texts (tabs (history svc acts (act svc a x s).2)) id =
    (corrections svc acts (act svc a x s).2 id ++ correction svc a x s id) ++ texts (tabs s) id).
  by rewrite E, E1, app_assoc.
Qed.
End words.

(** ** Reading earlier versions *)

(** Who may read a message's earlier versions: its author while in the guild, and moderators of the
    channel. *)
Definition may_read_versions (t : Tables) (a c : Z) (m : dbMessage) : Prop := exists g,
  channel_in_guild t c g = true /\
  ((msg_author_id m = Some a /\ may_read t g a = true) \/ is_admin t a = true \/ holds t g a c PermManageMessages).

Lemma Authorize_granted s a g c need :
  wf (tabs s) -> faults s = [] -> is_admin (tabs s) a = true \/ (in_guild (tabs s) g a /\ holds (tabs s) g a c need) ->
  exists d, granted (tabs s) a g c need d /\ Authorize a g c need s = (inr d, s).
Proof.
  intros Hwf Hup Hh. rewrite (transparent_nil _ s (transparent_Authorize a g c need) Hup).
  pose proof (Authorize_verdict (tabs s) a g c need s Hwf Hup eq_refl) as Hv.
  destruct (Authorize a g c need s).1 as [[]|d]; try done; [| |by exists d]; cbn in Hv;
    destruct Hh as [Ha|[Hin Hh]].
  - destruct Hv. congruence.
  - by destruct Hv.
  - destruct Hv. congruence.
  - by destruct Hv as (_ & _ & ?).
Qed.

Lemma holds_nothing t g a c : holds t g a c 0.
Proof. intros i Hi. by rewrite Z.testbit_0_l in Hi. Qed.

Lemma holds_in_guild t g a c : holds t g a c PermManageMessages -> in_guild t g a.
Proof. intros Hh. eapply (layered_in_guild t g a c 2). by apply Hh. Qed.

Lemma History_authorized s a c m :
  wf (tabs s) -> faults s = [] -> may_read_versions (tabs s) a c m ->
  exists row g d, AuthorizeChannelIgnoringVisibility a c 0 s = (inr (row, g, d), s) /\
    (msg_author_id m = Some a \/ Decision_Allows d PermManageMessages = true).
Proof.
  intros Hwf Hup (g & Hg & Hmay). pose proof Hg as (row & Hrow & Eg)%channel_in_guild_true.
  destruct (Authorize_granted s a g c 0 Hwf Hup) as (d & Hd & Ha).
  { destruct Hmay as [[_ Hr]|[?|Hh]]; [|by left|right; split; [by eapply holds_in_guild|apply holds_nothing]].
    unfold may_read in Hr. apply orb_true_iff in Hr as [Hr|Hr]; [|right; split; [|apply holds_nothing]; unfold in_guild; by rewrite Hr, orb_true_r].
    apply orb_true_iff in Hr as [?|Hr]; [by left|right]. split; [|apply holds_nothing]. unfold in_guild. by rewrite Hr. }
  exists row, g, d. split.
  - unfold AuthorizeChannelIgnoringVisibility, authorizeChannel, no_rows_as, mbind at 1, M_bind at 1, Queries_GetChannel.
    cbn [lock requireView]. rewrite reading_run by done. rewrite Hrow. cbn. unfold guildOf. rewrite Eg.
    unfold mbind, M_bind, attempt. by rewrite Ha.
  - destruct Hmay as [[? _]|[Hadm|Hh]]; [by left|right..]; unfold granted in Hd; cbn in Hd; unfold Decision_Allows.
    + rewrite Hadm in Hd. by subst d.
    + destruct (is_admin (tabs s) a); [by subst d|]. destruct Hd as (-> & Hr & _). by apply (resolved_holds _ _ _ _ _ _ Hr).
Qed.

Definition version_of (h : dbEditHistory) : MessageVersion := mkMessageVersion (eh_id h) (eh_content h) (eh_edited_at h).

Lemma History_run s actor c id before limit m :
  wf (tabs s) -> messages_keyed (tabs s) -> faults s = [] ->
  messages_of (tabs s) !! id = Some m -> msg_channel_id m = c -> msg_is_e2e m = false ->
  may_read_versions (tabs s) (Actor_UserID actor) c m ->
  Service_History actor (mkHistoryInput c id before limit) s =
  (inr (mkMessageHistory id c (msg_author_id m) false (msg_deleted_at m) (msg_edited_at m) (Some (msg_content m))
          (version_of <$> take (Z.to_nat (page_size limit)) (versions_of (tabs s) id before))), s).
Proof.
  intros Hwf Hk Hup Hm Hc He Hmay. destruct (History_authorized _ _ _ _ Hwf Hup Hmay) as (row & g & d & Ha & Hd).
  unfold Service_History, mbind, M_bind. cbn [hi_ChannelID hi_MessageID hi_Before hi_Limit]. rewrite Ha.
  unfold pool_BeginTx, no_rows_as, Queries_GetMessageWithHistoryTarget, Queries_ListMessageEditHistory.
  rewrite !reading_run by done. rewrite Hm. cbn. rewrite He, Hc, Z.eqb_refl. cbn.
  assert (negb (is_author m (Actor_UserID actor)) && negb (Decision_Allows d PermManageMessages) = false) as ->.
  { unfold is_author. destruct Hd as [->| ->]; [by rewrite bool_decide_true|by rewrite andb_false_r]. }
  unfold mret, M_ret. cbn. rewrite (Hk _ _ Hm), reading_run by done. unfold historyFromRows. cbn.
  by rewrite He, Hc, (Hk _ _ Hm).
Qed.

Lemma versions_read t id m :
  messages_ok t -> messages_of t !! id = Some m -> msg_is_e2e m = false ->
  (forall hid, is_Some (c_history (t_chat t) !! hid) -> hid < 2 ^ 63 - 1) ->
  versions_of t id None = versions t id.
Proof.
  intros Hok Hm He Hb. apply newest_ext; try (intros k h Hh; apply (mo_history _ Hok _ _ Hh)).
  intros h. unfold of_message, unencrypted, below. cbn [default]. rewrite Hm, He. rewrite Z.ltb_lt. split; [tauto|].
  intros [Hh E]. split_and!; try done. change (eh_id h < 2 ^ 63 - 1). apply Hb. by eexists.
Qed.

(** ** Properties *)

(** C11: only its author changes what a message says, and only its author or a moderator deletes it.
    After any history, any action of any account does to each message one of these: nothing; it goes
    because its channel went; the account edits a message of its own that is not deleted, in a channel
    it sees and may send in, and the text becomes what it sent; or a message not yet deleted is
    deleted by its author, who sees the channel, or by one who may manage messages there. A message
    that was not there is the account's own. Author, channel, reply and time of sending never change. *)
Theorem words_are_the_authors `{Collation} (svc : Service) (acts : list (Z * Action)) (s : St) (a : Z) (x : Action)
    (id : Z) (Hinv : whole_inv (tabs s)) :
  let before := history svc acts s in
  message_next (tabs before) (tabs (act svc a x before).2) a x id.
Proof.
  intros before. apply act_message_run.
  by apply (history_ind svc (fun _ => True)).
Qed.

(** editing loses nothing that was said. Over any history, a message that is still there says the
    texts it was given by the edits that were accepted, the last first, and then, one by one in order,
    what it said before: each text once, none missing, none reordered. And its author, while in the
    guild, and the moderators of its channel are shown them: the present text, and a page of the
    earlier ones, newest first. *)
Theorem edits_lose_nothing `{Collation} (svc : Service) (acts : list (Z * Action)) (s : St) (id : Z)
    (Hinv : whole_inv (tabs s)) (Hids : chat_issued s) (Hold : id <= mark (gen s)) :
  let s' := history svc acts s in
  is_Some (messages_of (tabs s') !! id) ->
  texts (tabs s') id = corrections svc acts s id ++ texts (tabs s) id /\
  forall m actor limit, messages_of (tabs s') !! id = Some m -> msg_is_e2e m = false -> faults s' = [] ->
    may_read_versions (tabs s') (Actor_UserID actor) (msg_channel_id m) m -> mark (gen s') < 2 ^ 63 - 1 ->
    exists shown, Service_History actor (mkHistoryInput (msg_channel_id m) id None limit) s' = (inr shown, s') /\
      MH_CurrentContent shown = head (texts (tabs s') id) /\
      MV_Content <$> MH_Versions shown = take (Z.to_nat (page_size limit)) (tail (texts (tabs s') id)).
Proof.
  intros s' Hend. destruct (texts_history svc acts s id Hinv Hids Hold) as [Hids' Ht]. split; [by apply Ht|].
  intros m actor limit Hm He Hup Hmay Hmark. fold s' in Hids', Ht.
  assert (whole_inv (tabs s')) as Hinv' by (by apply (history_ind svc (fun _ => True))).
  pose proof (co_messages _ (wi_chat _ Hinv')) as Hok.
  eexists. split; [apply (History_run s' actor _ id None limit m); try done; [apply Hinv'|apply Hok]|]. cbn.
  unfold texts. rewrite Hm. cbn. split; [done|].
  rewrite (versions_read _ _ m) by (try done; intros hid Hh; destruct Hids' as (_ & _ & Hv); specialize (Hv hid Hh); lia).
  by rewrite <- list_fmap_compose, fmap_take.
Qed.

(** ** In the concrete conversation *)

#[local] Existing Instance C_lower.

(** The owner may not touch what 103 said, and may delete it. *)
Lemma words_are_the_authors_witness :
  let x := ActChat (ChUpdate by_user 90 (mkUpdateInput 8 (first_ids 3) "never said")) in
  let y := ActChat (ChDelete by_user 90 8 (first_ids 3)) in
  (act example_service 100 x talk_state).1 = inl EForbidden /\
  (act example_service 102 y talk_state).1 = inl EForbidden /\
  (act example_service 100 y talk_state).1 = inr tt /\
  (msg_deleted_at <$> messages_of (tabs (act example_service 100 y talk_state).2) !! first_ids 3) = Some (Some 90) /\
  message_next (tabs talk_state) (tabs (act example_service 100 y talk_state).2) 100 y (first_ids 3).
Proof.
  intros x y. do 4 (split; [vm_compute; reflexivity|]).
  exact (words_are_the_authors example_service talk_acts invite_state 100 y (first_ids 3) invite_tables_whole).
Defined.

(** 103 corrects itself twice more, and is refused once. *)
Definition correcting : list (Z * Action) := [
  (103, ActChat (ChUpdate by_user 90 (mkUpdateInput 8 (first_ids 3) "hello all")));
  (103, ActChat (ChUpdate by_user 91 (mkUpdateInput 8 (first_ids 3) "")));
  (103, ActChat (ChUpdate by_user 92 (mkUpdateInput 8 (first_ids 3) "bye all"))) ].

(** The clauses of [chat_issued] as a computation. *)
Definition issued_check (s : St) : bool :=
  (0 <=? node (gen s)) && (node (gen s) <? 2 ^ nodeBits) && (0 <=? lastMS (gen s)) &&
  (0 <=? sequence (gen s)) && (sequence (gen s) <? 2 ^ sequenceBits) &&
  forallb (fun kv => kv.1 <=? mark (gen s)) (map_to_list (messages_of (tabs s))) &&
  forallb (fun kv => kv.1 <=? mark (gen s)) (map_to_list (c_history (t_chat (tabs s)))).

Lemma forallb_keys {A} (m : gmap Z A) (n : Z) :
  forallb (fun kv => kv.1 <=? n) (map_to_list m) = true -> forall k, is_Some (m !! k) -> k <= n.
Proof.
  intros H k [v Hv]. rewrite forallb_forall in H. apply (Z.leb_le k n), (H (k, v)).
  by apply list_elem_of_In, elem_of_map_to_list.
Qed.

Lemma issued_check_sound s : issued_check s = true -> chat_issued s.
Proof.
  unfold issued_check. intros H. rewrite !andb_true_iff in H. destruct H as ((((((H1 & H2) & H3) & H4) & H5) & H6) & H7).
  apply Z.leb_le in H1, H3, H4. apply Z.ltb_lt in H2, H5. split; [done|].
  split; by apply forallb_keys.
Qed.

Lemma edits_lose_nothing_witness :
  let s' := history example_service correcting talk_state in
  (act example_service 103 (ActChat (ChUpdate by_user 91 (mkUpdateInput 8 (first_ids 3) ""))) talk_state).1 = inl EBadRequest /\
  texts (tabs talk_state) (first_ids 3) = ["hello"; "helo"]%string /\
  texts (tabs s') (first_ids 3) = ["bye all"; "hello all"; "hello"; "helo"]%string /\
  texts (tabs s') (first_ids 3) =
    corrections example_service correcting talk_state (first_ids 3) ++ texts (tabs talk_state) (first_ids 3).
Proof.
  intros s'. do 3 (split; [vm_compute; reflexivity|]).
  apply (edits_lose_nothing example_service correcting talk_state (first_ids 3) talk_whole).
  - apply issued_check_sound. vm_compute. reflexivity.
  - vm_compute. discriminate.
  - vm_compute. by eexists.
Defined.
