(* ===== verification/Moderation.v ===== *)
(** What a guild keeps of what was said and done in it: the recording of messages, the course of a
    report, and the trail moderators leave. *)
From S2P Require Import Prelude GoStd Permissions Snowflake Rows TxMonad Queries.
From S2P Require Import Resolve StoreInv Authority ResolveMany GuildAuth GuildCommon RoleSvc.
From S2P Require Import OverwriteSvc MemberSvc GuildSvc ChannelSvc Preserve GuildService Layers.
From S2P Require Import Escalation Limits InviteSvc Utf8 MessageSvc TagSvc ReportSvc.
From S2P Require Import ChatInv.
From S2P Require Import Conversations Invites Backlog.

(** ** Recordings *)

(** One action on message [id] is recorded with the text the message now has, if its guild records
    and the text is not encrypted; otherwise nothing is. *)
Definition record_kept (t t' : Tables) (a now id : Z) (action : string) : Prop := exists m g,
  messages_of t' !! id = Some m /\ channel_in_guild t (msg_channel_id m) g = true /\
  if default false (guild_message_audit_enabled <$> t_guilds t !! g) && negb (msg_is_e2e m)
  then exists rid, c_recorded (t_chat t) !! rid = None /\
         c_recorded (t_chat t') = <[rid := mkDbMessageAuditEntry rid g id (msg_channel_id m) a action
                                     (Some (msg_content m)) now]> (c_recorded (t_chat t))
  else c_recorded (t_chat t') = c_recorded (t_chat t).

(** The recordings of the guilds that are still there. *)
Definition recordings_left (t t' : Tables) : Prop :=
  c_recorded (t_chat t') = filter (fun kv => is_Some (t_guilds t' !! ma_guild_id kv.2)) (c_recorded (t_chat t)).

Section moderation.
Context {coll : Collation}.

Lemma recorded_kept now g a id action m t t1 t' :
  recorded now g a id action t1 t' -> t_guilds t1 = t_guilds t -> t_channels t1 = t_channels t ->
  c_recorded (t_chat t1) = c_recorded (t_chat t) -> messages_of t1 !! id = Some m -> msg_id m = id ->
  channel_in_guild t (msg_channel_id m) g = true -> record_kept t t' a now id action.
Proof.
  intros Hrec Eg Ec Er Hm Hid Hg. exists m, g. rewrite (recorded_messages _ _ _ _ _ _ _ Hrec). split_and!; [done..|].
  unfold recorded, recorded_row in Hrec. rewrite Eg in Hrec. cbn [rma_ID rma_MessageID rma_GuildID] in Hrec.
  apply channel_in_guild_true in Hg as (ch & Hch & Hgch).
  rewrite Hm, Ec in Hrec. cbn in Hrec. rewrite Hch in Hrec. cbn in Hrec.
  destruct (t_guilds t !! g) as [gr|]; cbn in *; [|by rewrite Hrec, Er].
  destruct (guild_message_audit_enabled gr); cbn in *; [|by rewrite Hrec, Er].
  rewrite bool_decide_true in Hrec by done. cbn in Hrec. destruct Hrec as (rid & Hrec).
  destruct (msg_is_e2e m); cbn in *; [by rewrite Hrec, Er|]. destruct Hrec as [Hn ->]. exists rid.
  rewrite Er in Hn. split; [done|]. cbn. by rewrite Er, Hid.
Qed.

Lemma recordings_same t t' :
  messages_ok t -> c_recorded (t_chat t') = c_recorded (t_chat t) ->
  (forall g, is_Some (t_guilds t !! g) -> is_Some (t_guilds t' !! g)) -> recordings_left t t'.
Proof.
  intros Hm E Hg. unfold recordings_left. rewrite E. symmetry. apply map_filter_id. intros rid r Hr.
  apply Hg, (mo_recorded _ Hm _ _ Hr).
Qed.

Lemma leaves_recordings gone og t t' : messages_ok t -> leaves gone og t t' -> recordings_left t t'.
Proof.
  intros Hm L. unfold recordings_left. apply map_eq. intros rid. apply option_eq. intros r.
  rewrite map_lookup_filter_Some, (lv_chat _ _ _ _ L). destruct og as [g|]; cbn.
  - rewrite map_lookup_filter_Some. cbn. split; intros [Hr Hg]; (split; [done|]).
    + apply (lv_guilds _ _ _ _ L); [apply (mo_recorded _ Hm _ _ Hr)|congruence].
    + intros <-. rewrite (lv_gone_guild _ _ _ _ L _ eq_refl) in Hg. by destruct Hg.
  - split; [|by intros [? _]]. intros Hr. split; [done|].
    apply (lv_guilds _ _ _ _ L); [apply (mo_recorded _ Hm _ _ Hr)|done].
Qed.

(** What an action leaves of the recordings. *)
Definition recording_next (t t' : Tables) (a : Z) (x : Action) : Prop :=
  match x with
  | ActChat (ChSend _ now _) => exists id, messages_of t !! id = None /\ record_kept t t' a now id AuditCreate
  | ActChat (ChUpdate _ now input) => record_kept t t' a now (ui_MessageID input) AuditEdit
  | ActChat (ChDelete _ now _ id) => record_kept t t' a now id AuditDelete
  | _ => recordings_left t t'
  end.

Lemma chat_effect_recording bus a req t t' evs :
  messages_ok t -> chat_effect bus a req t t' evs -> recording_next t t' a (ActChat req).
Proof.
  intros Hm He. pose proof (chat_effect_only _ _ _ _ _ _ He) as Ho.
  assert (c_recorded (t_chat t') = c_recorded (t_chat t) -> recordings_left t t') as Hsame.
  { intros E. apply recordings_same; [done..|]. by rewrite (cf_guilds _ _ Ho). }
  revert He. destruct req; cbn [chat_effect recording_next].
  - intros (id & out & ch & g & d & Hch & Hg & _ & _ & _ & _ & _ & Hid & _ & Hrec & _). exists id. split; [done|].
    eapply recorded_kept; [exact Hrec|done..| | |].
    + unfold posted, messages_of. cbn. apply lookup_insert_eq.
    + done.
    + apply channel_in_guild_true. eauto.
  - intros (hid & out & ch & g & d & m & tags & Hch & Hg & _ & _ & _ & Hl & Hc & _ & _ & Hrec & _).
    apply live_message_Some in Hl as [Hl _]. eapply recorded_kept; [exact Hrec|done..| | |].
    + unfold rewritten, messages_of. cbn. apply lookup_insert_eq.
    + exact (mo_key _ Hm _ _ Hl).
    + apply channel_in_guild_true. cbn. rewrite Hc. eauto.
  - intros (aid & ch & g & d & m & t1 & Hch & Hg & _ & Hl & Hc & _ & Hrec & Ht & _).
    apply live_message_Some in Hl as [Hl _].
    assert (record_kept t t1 a now id AuditDelete) as Hk.
    { eapply recorded_kept; [exact Hrec|done..| | |].
      + unfold redacted, messages_of. cbn. apply lookup_insert_eq.
      + exact (mo_key _ Hm _ _ Hl).
      + apply channel_in_guild_true. cbn. rewrite Hc. eauto. }
    destruct (is_author _ _); [by subst|]. by destruct Ht as [_ ->].
  - intros (_ & _ & id' & out & d & _ & _ & _ & _ & _ & _ & _ & -> & _). by apply Hsame.
  - intros [(d & tag & _ & _ & _ & Ha) _]. apply Hsame. by destruct (negb _); [destruct Ha as (? & _ & ->)|rewrite Ha].
  - intros [(g & d & tag & _ & _ & _ & [[_ ->]|(_ & _ & ->)]) _]; by apply Hsame.
  - intros [(g & d & tag & app & _ & _ & _ & _ & Ha) _]. apply Hsame. by destruct (negb _); [destruct Ha as (? & _ & ->)|rewrite Ha].
  - intros (_ & _ & id' & out & m & ch & g & d & _ & _ & _ & _ & _ & _ & _ & _ & -> & _). by apply Hsame.
  - intros (_ & status & out & _ & _ & d & r & aid & ty & st & _ & _ & _ & _ & _ & Ha & _ & _ & -> & _). by apply Hsame.
Qed.

Lemma act_recording svc a x t t' evs :
  messages_ok t -> act_effect svc a x t t' evs -> recording_next t t' a x.
Proof.
  intros Hm. destruct x as [r|r|r]; cbn.
  - intros (gone & og & L)%effect_leaves. by eapply leaves_recordings.
  - intros L%invite_effect_leaves. by eapply leaves_recordings.
  - by apply chat_effect_recording.
Qed.

End moderation.

(** ** Reports *)

(** The account may do [need] in the guild at large. *)
Definition may_at (t : Tables) (a g need : Z) : Prop := is_admin t a = true \/ holds t g a 0 need.

(** What an account may do to a report that is there: leave it, let it go with its guild, or close it. *)
Inductive report_step (t t' : Tables) (a : Z) (x : Action) (id : Z) (r : dbReport) : option dbReport -> Prop :=
  | report_same : report_step t t' a x id r (Some r)
  | report_gone g : rep_guild_id r = Some g -> t_guilds t' !! g = None -> report_step t t' a x id r None
  | report_closed now g outcome status : x = ActChat (ChResolve now g id outcome) ->
      statusValue outcome = Some status -> (status = StatusResolved \/ status = StatusDismissed) ->
      rep_status r = StatusOpen -> rep_guild_id r = Some g -> may_at t a g PermManageMessages ->
      report_step t t' a x id r (Some (closed now status a r)).

(** A report that was not there is the account's own: open, about a message of a channel it sees, and
    the only one it has open about it. *)
Inductive report_new (t : Tables) (a : Z) (x : Action) (id : Z) : option dbReport -> Prop :=
  | report_none : report_new t a x id None
  | report_filed now input m g : x = ActChat (ChFile now input) -> fileable input ->
      messages_of t !! fi_TargetID input = Some m -> channel_in_guild t (msg_channel_id m) g = true ->
      may_in t a (msg_channel_id m) 0 ->
      (forall id' r', c_reports (t_chat t) !! id' = Some r' -> rep_reporter_id r' = a ->
         rep_target_type r' = TargetMessage -> rep_target_id r' = fi_TargetID input -> rep_status r' <> StatusOpen) ->
      report_new t a x id (Some (new_report now (mkCreateReportParams id a TargetMessage (fi_TargetID input)
        (fi_ReasonCategory input) RoutedToGuildModerators (Some g) (fi_Detail input)))).

Definition report_next (t t' : Tables) (a : Z) (x : Action) (id : Z) : Prop :=
  match c_reports (t_chat t) !! id with
  | Some r => report_step t t' a x id r (c_reports (t_chat t') !! id)
  | None => report_new t a x id (c_reports (t_chat t') !! id)
  end.

Lemma report_stays t t' a x id :
  match c_reports (t_chat t) !! id with
  | Some r => report_step t t' a x id r (c_reports (t_chat t) !! id)
  | None => report_new t a x id (c_reports (t_chat t) !! id)
  end.
Proof. destruct (c_reports (t_chat t) !! id); constructor. Qed.

Lemma report_kept t t' a x id :
  c_reports (t_chat t') !! id = c_reports (t_chat t) !! id -> report_next t t' a x id.
Proof. intros E. unfold report_next. rewrite E. apply report_stays. Qed.

Lemma report_kept_all t t' a x id : c_reports (t_chat t') = c_reports (t_chat t) -> report_next t t' a x id.
Proof. intros E. apply report_kept. by rewrite E. Qed.

Lemma granted_may_at t a g need d : granted t a g 0 need d -> may_at t a g need.
Proof. unfold granted, may_at. cbn. destruct (is_admin t a); [by left|right]. tauto. Qed.

Lemma recorded_reports now g a id action t t' :
  recorded now g a id action t t' -> c_reports (t_chat t') = c_reports (t_chat t).
Proof. by intros [m ->]%recorded_is. Qed.

Lemma chat_effect_report `{Collation} bus a req t t' evs id :
  chat_effect bus a req t t' evs -> report_next t t' a (ActChat req) id.
Proof.
  destruct req; cbn [chat_effect].
  - intros (id' & out & ch & g & d & _ & _ & _ & _ & _ & _ & _ & _ & _ & Hrec%recorded_reports & _). by apply report_kept_all.
  - intros (hid & out & ch & g & d & m & tags & _ & _ & _ & _ & _ & _ & _ & _ & _ & Hrec%recorded_reports & _).
    by apply report_kept_all.
  - intros (aid & ch & g & d & m & t1 & _ & _ & _ & _ & _ & _ & Hrec%recorded_reports & Ht & _).
    apply report_kept_all. destruct (is_author _ _); [by subst|]. by destruct Ht as [_ ->].
  - intros (_ & _ & id' & out & d & _ & _ & _ & _ & _ & _ & _ & -> & _). by apply report_kept_all.
  - intros [(d & tag & _ & _ & _ & Ha) _]. apply report_kept_all. by destruct (negb _); [destruct Ha as (? & _ & ->)|rewrite Ha].
  - intros [(g & d & tag & _ & _ & _ & [[_ ->]|(_ & _ & ->)]) _]; by apply report_kept_all.
  - intros [(g & d & tag & app & _ & _ & _ & _ & Ha) _]. apply report_kept_all.
    by destruct (negb _); [destruct Ha as (? & _ & ->)|rewrite Ha].
  - intros (Hf & _ & id' & out & m & ch & g & d & Hm & Hch & Hg & Hd & Hid & Hdup & _ & _ & -> & _). unfold report_next. cbn.
    destruct (decide (id = id')) as [->|]; [|rewrite lookup_insert_ne by done; apply report_stays].
    rewrite Hid, lookup_insert_eq. eapply report_filed; try done.
    + apply channel_in_guild_true. eauto.
    + by eapply granted_may_in.
    + intros id0 r0 Hr0 E1 E2 E3 E4. pose proof (existsb_rows _ _ Hdup _ _ Hr0) as Hs. unfold same_open in Hs.
      rewrite bool_decide_eq_false in Hs. apply Hs. cbn. by rewrite E1, E2, E3.
  - intros (_ & status & out & Hs & Hst & d & r & aid & ty & st & Hd & Hr & Hg & Ho & _ & _ & _ & _ & -> & _).
    unfold report_next. cbn. destruct (decide (id = id0)) as [->|]; [|rewrite lookup_insert_ne by done; apply report_stays].
    rewrite Hr, lookup_insert_eq. eapply report_closed; try done. by eapply granted_may_at.
Qed.

Lemma leaves_report_next gone og t t' a x id : leaves gone og t t' -> report_next t t' a x id.
Proof.
  intros L. pose proof (lv_chat _ _ _ _ L) as E. destruct og as [g|]; [|apply report_kept_all; by rewrite E].
  unfold report_next. assert (c_reports (t_chat t') = filter (fun kv => rep_guild_id kv.2 <> Some g) (c_reports (t_chat t))) as ->
    by by rewrite E.
  destruct (c_reports (t_chat t) !! id) as [r|] eqn:Er.
  - destruct (decide (rep_guild_id r = Some g)) as [Eg|Hne].
    + rewrite (proj2 (map_lookup_filter_None _ _ _)) by (right; intros r'; cbn; congruence).
      econstructor; [done|]. by eapply (lv_gone_guild _ _ _ _ L).
    + rewrite (proj2 (map_lookup_filter_Some _ _ _ _)) by done. constructor.
  - rewrite (proj2 (map_lookup_filter_None _ _ _)) by (by left). constructor.
Qed.

Lemma act_report `{Collation} svc a x s id :
  whole_inv (tabs s) -> report_next (tabs s) (tabs (act svc a x s).2) a x id.
Proof.
  intros Hinv. destruct (act_committed svc a x s Hinv) as [(e & _ & ->)|(evs & _ & He)]; [by apply report_kept|].
  destruct x as [r|r|r]; cbn in He.
  - apply effect_leaves in He as (gone & og & L). by eapply leaves_report_next.
  - apply invite_effect_leaves in He. by eapply leaves_report_next.
  - by eapply chat_effect_report.
Qed.
(** ** The trail moderators leave *)

(** Whether the request acts on what is somebody else's: a message, a tag others use, a tag another
    put on a message, a report; and what it acts on. *)
Definition acted_over (t : Tables) (a : Z) (req : ChatRequest) : option (string * Z) :=
  match req with
  | ChDelete _ _ _ id =>
      m ← messages_of t !! id; if is_author m a then None else Some ("message.delete"%string, id)
  | ChDeleteTag _ id =>
      tag ← c_tags (t_chat t) !! id;
      if tag_is_shared tag && negb (count (by_others (t_chat t) id a) =? 0) then Some ("tag.delete"%string, id) else None
  | ChUnapplyTag input =>
      app ← c_applied (t_chat t) !! (ai_TagID input, ai_MessageID input);
      if ta_applied_by app =? a then None else Some ("tag.remove"%string, ai_MessageID input)
  | ChResolve _ _ id outcome =>
      Some (if (outcome =? "dismissed")%string then "report.dismiss"%string else "report.resolve"%string, id)
  | _ => None
  end.

Definition trail_next (t t' : Tables) (a : Z) (req : ChatRequest) : Prop :=
  match acted_over t a req with
  | None => t_audit t' = t_audit t
  | Some (action, target) => exists aid g changes, t_audit t !! aid = None /\
      t_audit t' = <[aid := mkAuditRow (Some g) a action (Some target) changes]> (t_audit t)
  end.

Lemma recorded_audit now g a id action t t' : recorded now g a id action t t' -> t_audit t' = t_audit t.
Proof. by intros [m ->]%recorded_is. Qed.

Lemma chat_effect_trail `{Collation} bus a req t t' evs :
  chat_ok t -> chat_effect bus a req t t' evs -> trail_next t t' a req.
Proof.
  intros [Hm _ Hr] He. revert He. unfold trail_next. destruct req; cbn [chat_effect acted_over].
  - intros (id' & out & ch & g & d & _ & _ & _ & _ & _ & _ & _ & _ & _ & Hrec%recorded_audit & _). done.
  - intros (hid & out & ch & g & d & m & tags & _ & _ & _ & _ & _ & _ & _ & _ & _ & Hrec%recorded_audit & _). done.
  - intros (aid & ch & g & d & m & t1 & _ & _ & _ & Hl & _ & _ & Hrec%recorded_audit & Ht & _).
    apply live_message_Some in Hl as [Hl _]. rewrite Hl. cbn in *. destruct (is_author m a); [by subst|].
    destruct Ht as [Ha ->]. do 3 eexists. split; [exact Ha|]. cbn. by rewrite Hrec.
  - by intros (_ & _ & id' & out & d & _ & _ & _ & _ & _ & _ & _ & -> & _).
  - intros [(d & tag & _ & (Ht & _) & _ & Ha) _]. rewrite Ht. cbn. destruct (tag_is_shared tag); cbn in *; [|by subst].
    destruct (negb (_ =? _)); cbn in Ha; [|by subst]. destruct Ha as (aid & Hn & ->). do 3 eexists. split; [exact Hn|done].
  - by intros [(g & d & tag & _ & _ & _ & [[_ ->]|(_ & _ & ->)]) _].
  - intros [(g & d & tag & app & _ & _ & Happ & _ & Ha) _]. rewrite Happ. cbn.
    destruct (ta_applied_by app =? a); cbn in Ha; [by subst|]. destruct Ha as (aid & Hn & ->). do 3 eexists. split; [exact Hn|done].
  - by intros (_ & _ & id' & out & m & ch & g & d & _ & _ & _ & _ & _ & _ & _ & _ & -> & _).
  - intros (_ & status & out & Hs & Hst & d & r & aid & ty & st & _ & Hl & _ & _ & _ & Ha & _ & _ & -> & _).
    do 3 eexists. split; [exact Ha|]. cbn. unfold entry, resolution_action. cbn.
    destruct (ro_key _ Hr _ _ Hl) as [-> _]. repeat f_equal. revert Hs. unfold statusValue.
    destruct (String.eqb_spec outcome "open") as [->|]; [intros [= <-]; by destruct Hst|].
    destruct (String.eqb_spec outcome "under_review") as [->|]; [intros [= <-]; by destruct Hst|].
    destruct (String.eqb_spec outcome "resolved") as [->|]; [by intros [= <-]|].
    destruct (String.eqb_spec outcome "dismissed") as [->|]; [by intros [= <-]|done].
Qed.

(** ** Properties *)

(** A guild that records keeps exactly what was said in it. After any history, when an account
    sends, edits or deletes a message and is answered, one recording is added if the message's guild
    records and the text is not encrypted: who did it, what, when, and the text the message has now;
    and none otherwise. Nothing else adds a recording or changes one, and they go only with their
    guild. A refused request leaves them alone. *)
Theorem recording_exact `{Collation} (svc : Service) (acts : list (Z * Action)) (s : St) (a : Z) (x : Action)
    (Hinv : whole_inv (tabs s)) :
  let before := history svc acts s in
  let after := (act svc a x before).2 in
  match (act svc a x before).1 with
  | inr _ => recording_next (tabs before) (tabs after) a x
  | inl _ => c_recorded (t_chat (tabs after)) = c_recorded (t_chat (tabs before))
  end.
Proof.
  intros before after. assert (whole_inv (tabs before)) as Hb by (by apply (history_ind svc (fun _ => True))).
  unfold after. destruct (act_committed svc a x before Hb) as [(e & -> & ->)|(evs & -> & He)]; [done|].
  eapply act_recording; [apply Hb|exact He].
Qed.

(** the course of a report. After any history, whatever an account does next, a report stays as it
    is, or goes because its guild went, or - if it was open - is resolved or dismissed by one who may
    manage messages in its guild, who is entered with the time; a closed one never changes again. A
    new one is open, the account's own, about a message in a channel it sees, with a known reason,
    and the account has no other open one about that message. *)
Theorem report_course `{Collation} (svc : Service) (acts : list (Z * Action)) (s : St) (a : Z) (x : Action) (id : Z)
    (Hinv : whole_inv (tabs s)) :
  let before := history svc acts s in
  report_next (tabs before) (tabs (act svc a x before).2) a x id /\
  forall r, c_reports (t_chat (tabs before)) !! id = Some r -> rep_status r <> StatusOpen ->
    c_reports (t_chat (tabs (act svc a x before).2)) !! id = Some r \/
    exists g, rep_guild_id r = Some g /\ t_guilds (tabs (act svc a x before).2) !! g = None.
Proof.
  intros before. assert (whole_inv (tabs before)) as Hb by (by apply (history_ind svc (fun _ => True))).
  pose proof (act_report svc a x before id Hb) as Hn. split; [done|]. intros r Hr Hc.
  unfold report_next in Hn. rewrite Hr in Hn. inversion Hn; [by left|right; eauto|done].
Qed.

(** what is done to others is on the record. After any history, an accepted request of the
    conversations writes exactly one entry into the audit log when it deletes another's message,
    deletes a tag others have put on messages, takes off a tag another put on, or closes a report:
    with the account, the action and its target. When it touches only the account's own it writes
    none, and no entry is ever changed. *)
Theorem moderation_recorded `{Collation} (svc : Service) (acts : list (Z * Action)) (s : St) (a : Z)
    (req : ChatRequest) (Hinv : whole_inv (tabs s)) :
  let before := history svc acts s in
  let after := (act svc a (ActChat req) before).2 in
  match (act svc a (ActChat req) before).1 with
  | inr _ => trail_next (tabs before) (tabs after) a req
  | inl _ => t_audit (tabs after) = t_audit (tabs before)
  end.
Proof.
  intros before after. assert (whole_inv (tabs before)) as Hb by (by apply (history_ind svc (fun _ => True))).
  unfold after. destruct (act_committed svc a (ActChat req) before Hb) as [(e & -> & ->)|(evs & -> & He)]; [done|].
  eapply chat_effect_trail; [apply Hb|exact He].
Qed.

(** ** In the concrete conversation *)

#[local] Existing Instance C_lower.

(** The owner deletes what 103 said: recorded with its last text. *)
Lemma recording_exact_witness :
  let x := ActChat (ChDelete by_user 90 8 (first_ids 3)) in
  (act example_service 100 x talk_state).1 = inr tt /\
  (size (c_recorded (t_chat (tabs talk_state)))) = 4%nat /\
  ((fun kv => (ma_action kv.2, ma_actor_id kv.2, ma_content kv.2)) <$>
     filter (fun kv => c_recorded (t_chat (tabs talk_state)) !! kv.1 = None)
       (map_to_list (c_recorded (t_chat (tabs (act example_service 100 x talk_state).2))))) =
  [("delete", 100, Some "hello")]%string /\
  recording_next (tabs talk_state) (tabs (act example_service 100 x talk_state).2) 100 x.
Proof.
  intros x. unfold talk_state. assert ((act example_service 100 x (history example_service talk_acts invite_state)).1 = inr tt) as E by (vm_compute; reflexivity).
  split; [exact E|]. do 2 (split; [vm_compute; reflexivity|]).
  pose proof (recording_exact example_service talk_acts invite_state 100 x invite_tables_whole) as H. cbv zeta in H.
  rewrite E in H. exact H.
Defined.

(** 102 reports what 103 said; the owner dismisses it, and may not resolve it again. *)
Definition reporting : list (Z * Action) := [
  (102, ActChat (ChFile 90 (mkFileInput "message" (first_ids 3) "spam" None)));
  (100, ActChat (ChResolve 91 1 (first_ids 13) "dismissed")) ].

Lemma report_course_witness :
  let s' := history example_service (talk_acts ++ reporting) invite_state in
  let again := ActChat (ChResolve 92 1 (first_ids 13) "resolved") in
  (rep_status <$> c_reports (t_chat (tabs s')) !! first_ids 13) = Some StatusDismissed /\
  (act example_service 102 again s').1 = inl EForbidden /\
  (act example_service 100 again s').1 = inl EConflict /\
  report_next (tabs s') (tabs (act example_service 100 again s').2) 100 again (first_ids 13).
Proof.
  intros s' again. do 3 (split; [vm_compute; reflexivity|]).
  pose proof (report_course example_service (talk_acts ++ reporting) invite_state 100 again (first_ids 13)
    invite_tables_whole) as H. cbv zeta in H. destruct H as [H _]. exact H.
Defined.

Lemma moderation_recorded_witness :
  let own := ChDelete by_user 90 8 (first_ids 3) in
  (act example_service 103 (ActChat own) talk_state).1 = inr tt /\
  acted_over (tabs talk_state) 103 own = None /\
  acted_over (tabs talk_state) 100 own = Some ("message.delete"%string, first_ids 3) /\
  trail_next (tabs talk_state) (tabs (act example_service 103 (ActChat own) talk_state).2) 103 own /\
  trail_next (tabs talk_state) (tabs (act example_service 100 (ActChat own) talk_state).2) 100 own.
Proof.
  intros own. unfold talk_state.
  assert ((act example_service 103 (ActChat own) (history example_service talk_acts invite_state)).1 = inr tt) as E1
    by (vm_compute; reflexivity).
  assert ((act example_service 100 (ActChat own) (history example_service talk_acts invite_state)).1 = inr tt) as E2
    by (vm_compute; reflexivity).
  split; [exact E1|]. do 2 (split; [vm_compute; reflexivity|]).
  pose proof (moderation_recorded example_service talk_acts invite_state 103 own invite_tables_whole) as H1.
  pose proof (moderation_recorded example_service talk_acts invite_state 100 own invite_tables_whole) as H2.
  cbv zeta in H1, H2. rewrite E1 in H1. rewrite E2 in H2. split; [exact H1|exact H2].
Defined.
