(* ===== verification/AuditLog.v ===== *)
(** Reading a guild's audit log (backend/internal/guilds/auditlog.go): the vocabulary of actions, a
    page of entries, and that the vocabulary knows every entry any request writes. *)
From S2P Require Import Prelude GoStd Permissions Snowflake Rows TxMonad Queries.
From S2P Require Import Resolve StoreInv Authority ResolveMany GuildAuth GuildCommon RoleSvc.
From S2P Require Import OverwriteSvc MemberSvc GuildSvc ChannelSvc Preserve GuildService Layers.
From S2P Require Import Escalation Limits InviteSvc Utf8 MessageSvc TagSvc ReportSvc ChatInv.
From S2P Require Import Conversations Invites Backlog Moderation.

(** ** The vocabulary (model.go) *)

Definition allAuditActions : list string := [
  "guild.create"; "guild.update"; "guild.delete"; "channel.create"; "channel.update"; "channel.delete";
  "role.create"; "role.update"; "role.delete"; "role.reorder"; "member.update"; "member.remove";
  "member.role_add"; "member.role_remove"; "overwrite.set"; "overwrite.delete";
  "guild.message_audit_enable"; "guild.message_audit_disable"; "guild.owner_transfer";
  "invite.create"; "invite.revoke"; "member.join"; "message.delete"; "report.resolve";
  "report.dismiss"; "tag.remove"; "tag.delete" ]%string.

Definition knownAuditAction (action : string) : bool := existsb (String.eqb action) allAuditActions.

Definition refuseUnknownAuditAction (action : string) : M unit :=
  if knownAuditAction action then mret tt else throw EBadRequest.

(** ** The statement (guilds.sql.go) *)

Record ListGuildAuditLogParams := mkListGuildAuditLogParams {
  lga_GuildID : Z; lga_Before : option Z; lga_Action : option string; lga_ActorID : option Z; lga_Lim : Z
}.

(** An absent filter lets everything through. *)
Definition selects {A} `{EqDecision A} (filter : option A) (x : A) : bool :=
  match filter with None => true | Some want => bool_decide (x = want) end.

Definition in_log (p : ListGuildAuditLogParams) (id : Z) (row : AuditRow) : bool :=
  bool_decide (audit_guild_id row = Some (lga_GuildID p)) && below (lga_Before p) id &&
  selects (lga_Action p) (audit_action row) && selects (lga_ActorID p) (audit_actor_id row).

(** The entries with their ids, newest first. *)
Definition log_entries (p : ListGuildAuditLogParams) (t : Tables) : list (Z * AuditRow) :=
  merge_sort (newer_first fst) (filter (fun e => in_log p e.1 e.2 = true) (map_to_list (t_audit t))).

Definition Queries_ListGuildAuditLog (p : ListGuildAuditLogParams) : M (list (Z * AuditRow)) :=
  reading (fun t => inr (take (Z.to_nat (lga_Lim p)) (log_entries p t))).

(** ** The operation (auditlog.go) *)

Definition defaultAuditLogPageSize : Z := 50.
Definition maxAuditLogPageSize : Z := 100.

Record ListAuditLogInput := mkListAuditLogInput {
  lai_Before : option Z; lai_Action : string; lai_ActorID : option Z; lai_Limit : Z
}.

Record AuditLogEntry := mkAuditLogEntry {
  ALE_ID : Z; ALE_ActorID : Z; ALE_Action : string; ALE_TargetID : option Z; ALE_Changes : option auditDiff;
  ALE_CreatedAt : Z
}.

Section log.
(** When the database stamped an entry: the column created_at, which nothing else reads. *)
Context (created_at : Z -> Z).

Definition auditLogEntryFromRow (e : Z * AuditRow) : AuditLogEntry :=
  mkAuditLogEntry e.1 (audit_actor_id e.2) (audit_action e.2) (audit_target_id e.2) (audit_changes e.2)
    (created_at e.1).

Definition audit_limit (limit : Z) : Z :=
  if limit <=? 0 then defaultAuditLogPageSize
  else if maxAuditLogPageSize <? limit then maxAuditLogPageSize else limit.

Definition audit_params (guildID : Z) (input : ListAuditLogInput) : ListGuildAuditLogParams :=
  mkListGuildAuditLogParams guildID (lai_Before input)
    (if (lai_Action input =? "")%string then None else Some (lai_Action input))
    (lai_ActorID input) (audit_limit (lai_Limit input)).

Definition Service_ListAuditLog (actor guildID : Z) (input : ListAuditLogInput) : M (list AuditLogEntry) :=
  (if (lai_Action input =? "")%string then mret tt else refuseUnknownAuditAction (lai_Action input));;
  Service_authorize actor guildID 0 PermViewAuditLog;;
  rows ← Queries_ListGuildAuditLog (audit_params guildID input);
  mret (auditLogEntryFromRow <$> rows).

(** A client reading on below the last entry it was given, until a page is empty. *)
Fixpoint read_log (fuel : nat) (actor g : Z) (input : ListAuditLogInput) : M (list AuditLogEntry) :=
  match fuel with
  | O => mret []
  | S fuel =>
      page ← Service_ListAuditLog actor g input;
      match last page with
      | None => mret []
      | Some e =>
          rest ← read_log fuel actor g
            (mkListAuditLogInput (Some (ALE_ID e)) (lai_Action input) (lai_ActorID input) (lai_Limit input));
          mret (page ++ rest)
      end
  end.
End log.

(** ** A page *)

Definition with_ids (m : gmap Z AuditRow) : gmap Z (Z * AuditRow) := map_imap (fun id row => Some (id, row)) m.

Lemma lookup_with_ids m id : with_ids m !! id = (fun row => (id, row)) <$> m !! id.
Proof. unfold with_ids. rewrite map_lookup_imap. by destruct (m !! id). Qed.

Lemma with_ids_keyed m id e : with_ids m !! id = Some e -> e.1 = id.
Proof. rewrite lookup_with_ids. by destruct (m !! id); intros [= <-]. Qed.

Lemma elem_of_log p t e :
  e ∈ log_entries p t <-> t_audit t !! e.1 = Some e.2 /\ in_log p e.1 e.2 = true.
Proof.
  unfold log_entries. rewrite merge_sort_Permutation, list_elem_of_filter. destruct e as [id row].
  rewrite elem_of_map_to_list. naive_solver.
Qed.

Lemma log_sorted p t : StronglySorted (newer_first fst) (log_entries p t).
Proof. apply StronglySorted_merge_sort; apply _. Qed.

Lemma log_ids p t : NoDup (log_entries p t).*1.
Proof.
  unfold log_entries. rewrite merge_sort_Permutation.
  eapply sublist_NoDup; [apply (NoDup_fst_map_to_list (t_audit t))|]. apply fmap_sublist, sublist_filter.
Qed.

(** The log is the newest of its entries, so reading on below one of them gives the rest. *)
Lemma log_newest p t : log_entries p t = newest fst (fun e => in_log p e.1 e.2 = true) (with_ids (t_audit t)).
Proof.
  apply newest_unique; [apply with_ids_keyed|apply log_sorted|eapply NoDup_fmap_1, log_ids|].
  intros [id row]. rewrite elem_of_log, lookup_with_ids. cbn. destruct (t_audit t !! id); naive_solver.
Qed.

Definition below_entry (id : Z) (p : ListGuildAuditLogParams) : ListGuildAuditLogParams :=
  mkListGuildAuditLogParams (lga_GuildID p) (Some id) (lga_Action p) (lga_ActorID p) (lga_Lim p).

Lemma log_next p t n e :
  last (take n (log_entries p t)) = Some e -> log_entries (below_entry e.1 p) t = drop n (log_entries p t).
Proof.
  intros Hlast. assert (below (lga_Before p) e.1 = true) as Hb.
  { apply last_Some in Hlast as [l Hl]. assert (e ∈ log_entries p t) as [_ Hin]%elem_of_log.
    { rewrite <- (take_drop n (log_entries p t)), Hl. apply elem_of_app. left. apply elem_of_app. right. by left. }
    unfold in_log in Hin. bool_hyps. done. }
  rewrite !log_newest in *. apply (newest_next fst _ (with_ids_keyed _) _ _ n e Hlast). intros [id row].
  unfold in_log, below_entry, below in *. cbn [lga_GuildID lga_Before lga_Action lga_ActorID fst snd default].
  rewrite !andb_true_iff, !bool_decide_eq_true, !Z.ltb_lt in *. split; [|tauto].
  intros [[[Hg Hid] Ha] Hc]. change (Datatypes.id e.1) with e.1 in Hid. split_and!; try done. lia.
Qed.

Lemma audit_limit_range l : 1 <= audit_limit l <= maxAuditLogPageSize.
Proof. unfold audit_limit, defaultAuditLogPageSize, maxAuditLogPageSize. repeat case_match; lia. Qed.

Lemma Authorize_run s a g need :
  wf (tabs s) -> faults s = [] -> need <> 0 -> 0 <= need ->
  is_admin (tabs s) a = true \/ holds (tabs s) g a 0 need ->
  exists d, Authorize a g 0 need s = (inr d, s).
Proof.
  intros Hwf Hup Hne Hp Hmay. pose proof (Authorize_verdict (tabs s) a g 0 need s Hwf Hup eq_refl) as Hv.
  rewrite (transparent_nil _ s (transparent_Authorize a g 0 need) Hup).
  destruct (Authorize a g 0 need s).1 as [e|d]; [|by exists d]. exfalso.
  assert (is_admin (tabs s) a = false) as Ha by (destruct e; cbn in Hv; tauto).
  destruct Hmay as [?|Hh]; [congruence|]. assert (~ in_guild (tabs s) g a) as Hn by (destruct e; try done; cbn in Hv; tauto).
  assert (exists i, Z.testbit need i = true) as [i Hi].
  { exists (Z.log2 need). apply Z.bit_log2. lia. }
  apply Hh in Hi. by rewrite (proj2 (layered_None (tabs s) g a 0)) in Hi.
Qed.

(** ** What requests write *)

(** Every entry of [t'] was there, or has an action of the vocabulary. *)
Definition logged (t t' : Tables) : Prop := forall id row, t_audit t' !! id = Some row ->
  t_audit t !! id = Some row \/ knownAuditAction (audit_action row) = true.

Lemma logged_less t t' : t_audit t' ⊆ t_audit t -> logged t t'.
Proof. intros Hs id row Hl. left. by eapply lookup_weaken. Qed.

Lemma logged_same t t' : t_audit t' = t_audit t -> logged t t'.
Proof. intros E. apply logged_less. by rewrite E. Qed.

Lemma logged_insert t t' aid row :
  t_audit t' ⊆ <[aid := row]> (t_audit t) -> knownAuditAction (audit_action row) = true -> logged t t'.
Proof.
  intros Hs Hk id row' Hl. eapply lookup_weaken in Hl; [|exact Hs].
  apply lookup_insert_Some in Hl as [[_ <-]|[_ Hl]]; [by right|by left].
Qed.

Lemma logged_entry t t' aid row :
  t_audit t' = <[aid := row]> (t_audit t) -> knownAuditAction (audit_action row) = true -> logged t t'.
Proof. intros E. apply logged_insert with aid. by rewrite E. Qed.

Lemma logged_all t t0 ids rows :
  t_audit t0 = t_audit t -> Forall (fun row => knownAuditAction (audit_action row) = true) rows ->
  logged t (audited_all ids rows t0).
Proof.
  intros E Hk. assert (logged t t0) as H0 by (by apply logged_same). clear E. revert ids t0 H0.
  induction Hk as [|row rows Hr _ IH]; intros [|id ids] t0 H0; try done. cbn [audited_all].
  apply IH. intros id' row' Hl. cbn in Hl. apply lookup_insert_Some in Hl as [[_ <-]|[_ Hl]]; [by right|]. by apply H0.
Qed.

Lemma update_entries_known a g existing r :
  Forall (fun row => knownAuditAction (audit_action row) = true) (update_entries a g existing r).
Proof.
  unfold update_entries, toggle_action. apply Forall_app. split.
  - case_match; repeat constructor.
  - destruct (recording_toggled existing r) as [[]|]; repeat constructor.
Qed.

Lemma effect_logged svc a req t t' evs : effect svc a req t t' evs -> logged t t'.
Proof.
  intros He.
  destruct req as [q|g' q|g'|g' q|g' role q|g' role|g' wants|g' u' role b|g' u' q|g' u'|g' to|q|c' ty id'|g' q|c' q|c'];
    cbn [effect] in *.
  - destruct He as (gid & rid & out & aid & _ & _ & _ & _ & _ & _ & _ & -> & _). by eapply logged_entry.
  - destruct He as (out & d & existing & ids & _ & _ & _ & _ & _ & _ & -> & _).
    apply logged_all; [done|apply update_entries_known].
  - destruct He as (d & aid & gr & _ & _ & _ & _ & -> & _).
    eapply logged_insert; [apply map_filter_subseteq|done].
  - destruct He as (rid & out & d & aid & _ & _ & _ & _ & _ & _ & _ & -> & _). by eapply logged_entry.
  - destruct He as (out & d & aid & existing & _ & _ & _ & _ & _ & _ & -> & _). by eapply logged_entry.
  - destruct He as (d & aid & existing & _ & _ & _ & _ & _ & _ & -> & _). by eapply logged_entry.
  - destruct He as (out & d & aid & _ & _ & _ & _ & -> & _). by eapply logged_entry.
  - destruct He as (out & d & x & m & _ & _ & _ & _ & _ & _ & _ & _ & Ht & _).
    destruct (Bool.eqb _ _); [by apply logged_same; subst|]. destruct Ht as (aid & _ & ->).
    eapply logged_entry; [done|]. by destruct b.
  - destruct He as (out & d & aid & m & _ & _ & _ & _ & _ & -> & _). by eapply logged_entry.
  - destruct He as (d & aid & gr & m & _ & _ & _ & _ & _ & -> & _). by eapply logged_entry.
  - destruct He as (out & d & aid & gr & _ & _ & _ & _ & _ & _ & _ & _ & -> & _). by eapply logged_entry.
  - destruct He as (out & g' & d & aid & _ & _ & _ & _ & _ & _ & _ & _ & -> & _). by eapply logged_entry.
  - destruct He as (g' & d & aid & row & _ & _ & _ & _ & _ & _ & _ & -> & _). by eapply logged_entry.
  - destruct He as (_ & _ & cid & out & d & aid & _ & _ & _ & _ & _ & _ & -> & _).
    eapply logged_entry; [by cbn; destruct (cci_ParentID q)|done].
  - destruct He as (out & g' & d & aid & existing & _ & _ & _ & _ & _ & -> & _). by eapply logged_entry.
  - destruct He as (g' & d & aid & existing & _ & _ & _ & _ & -> & _). by eapply logged_entry.
Qed.

Lemma audit_without_invite id t : t_audit (without_invite id t) = t_audit t.
Proof. done. Qed.

Lemma audit_joined a i t : t_audit (joined a i t) = t_audit t.
Proof. unfold joined, spend. by destruct (exhausted _). Qed.

Lemma invite_effect_logged svc a req t t' evs : invite_effect svc a req t t' evs -> logged t t'.
Proof.
  intros He. destruct req; cbn [invite_effect] in *.
  - destruct He as (_ & _ & id & out & g & d & aid & ch & code & creator & He). cbv zeta in He.
    destruct He as (_ & _ & _ & _ & _ & _ & _ & _ & _ & _ & _ & _ & -> & _). by eapply logged_entry.
  - destruct He as (code & out & _ & i & g & _ & _ & _ & [(_ & -> & _)|(aid & _ & _ & _ & _ & _ & -> & _)]);
      [by apply logged_same|].
    eapply logged_entry; [by cbn [audited t_audit set_audit]; rewrite audit_joined|done].
  - destruct He as (code & _ & i & d & aid & He). cbv zeta in He. destruct He as (_ & _ & _ & _ & _ & -> & _).
    by eapply logged_entry.
  - by destruct He as [-> _]; apply logged_same.
Qed.

Lemma acted_over_known t a req action target :
  acted_over t a req = Some (action, target) -> knownAuditAction action = true.
Proof.
  unfold acted_over. destruct req; try done; rewrite ?bind_Some.
  - intros (m & _ & E). by destruct (is_author m a); simplify_eq.
  - intros (tag & _ & E). by destruct (_ && _); simplify_eq.
  - intros (app & _ & E). by destruct (_ =? _); simplify_eq.
  - intros E. by destruct (_ =? _)%string; simplify_eq.
Qed.

Lemma trail_next_logged t t' a req : trail_next t t' a req -> logged t t'.
Proof.
  unfold trail_next. destruct (acted_over t a req) as [[action target]|] eqn:E; [|by apply logged_same].
  intros (aid & g & changes & _ & Ht). eapply logged_entry; [exact Ht|]. cbn [audit_action].
  by eapply acted_over_known.
Qed.

Lemma act_logged `{Collation} svc a x s :
  whole_inv (tabs s) -> logged (tabs s) (tabs (act svc a x s).2).
Proof.
  intros Hinv. destruct (act_committed svc a x s Hinv) as [(e & _ & ->)|(evs & _ & He)]; [by apply logged_same|].
  destruct x; cbn in He.
  - by eapply effect_logged.
  - by eapply invite_effect_logged.
  - eapply trail_next_logged, chat_effect_trail; [apply Hinv|exact He].
Qed.

Lemma history_logged `{Collation} svc acts s :
  whole_inv (tabs s) -> logged (tabs s) (tabs (history svc acts s)).
Proof.
  revert s. induction acts as [|[a x] acts IH]; intros s Hinv; [by apply logged_same|].
  pose proof (act_logged svc a x s Hinv) as H1.
  assert (whole_inv (tabs (act svc a x s).2)) as Hinv' by (by apply act_inv).
  intros id row Hl. destruct (IH _ Hinv' _ _ Hl) as [Hl'|?]; [by apply H1|by right].
Qed.

(** ** Reading the log *)

Lemma ListAuditLog_run created_at s a g input :
  wf (tabs s) -> faults s = [] -> may_at (tabs s) a g PermViewAuditLog ->
  (lai_Action input = "" \/ knownAuditAction (lai_Action input) = true)%string ->
  Service_ListAuditLog created_at a g input s =
  (inr (auditLogEntryFromRow created_at <$>
        take (Z.to_nat (audit_limit (lai_Limit input))) (log_entries (audit_params g input) (tabs s))), s).
Proof.
  intros Hwf Hup Hmay Hact. unfold Service_ListAuditLog, refuseUnknownAuditAction.
  assert ((if (lai_Action input =? "")%string then mret tt
           else if knownAuditAction (lai_Action input) then mret tt else throw EBadRequest) = mret (M := M) tt) as ->.
  { destruct Hact as [->| ->]; [done|]. by destruct (_ =? _)%string. }
  destruct (Authorize_run s a g PermViewAuditLog) as [d Ha]; [done|done|done|done|done|].
  unfold Service_authorize, mbind, M_bind, mret, M_ret. rewrite Ha. unfold Queries_ListGuildAuditLog.
  by rewrite reading_run.
Qed.

Lemma elem_of_audit_page g input t id row :
  (id, row) ∈ log_entries (audit_params g input) t <->
  t_audit t !! id = Some row /\ audit_guild_id row = Some g /\
  id < default (2 ^ 63 - 1) (lai_Before input) /\
  (lai_Action input = "" \/ lai_Action input = audit_action row)%string /\
  (forall u, lai_ActorID input = Some u -> u = audit_actor_id row).
Proof.
  rewrite elem_of_log. cbn [fst snd]. unfold in_log, audit_params, below, selects.
  cbn [lga_GuildID lga_Before lga_Action lga_ActorID].
  rewrite !andb_true_iff, bool_decide_eq_true, Z.ltb_lt. change (2 ^ 63 - 1) with 9223372036854775807.
  destruct (lai_Action input =? "")%string eqn:E.
  - apply String.eqb_eq in E as ->. destruct (lai_ActorID input); rewrite ?bool_decide_eq_true; naive_solver.
  - apply String.eqb_neq in E. destruct (lai_ActorID input); rewrite ?bool_decide_eq_true; naive_solver.
Qed.

Definition log_vocabulary (t : Tables) : Prop := logged (set_audit ∅ t) t.

(** C34: the audit log hides nothing from who may read it. After any history, reading a guild's log on
    below the last entry of each page, with whatever limit and filters, until a page is empty gives
    exactly the guild's entries the filters select, newest first, each once, and no page has more than
    a hundred. A filter on an action is refused only when no entry, of any guild, has that action: the
    vocabulary has every action that any request writes, so an empty answer means there is nothing. *)
Theorem audit_log_complete `{Collation} (created_at : Z -> Z) (svc : Service) (acts : list (Z * Action)) (s : St)
    (a g : Z) (input : ListAuditLogInput) (fuel : nat) (Hinv : whole_inv (tabs s)) (Hvoc : log_vocabulary (tabs s))
    (Hup : faults (history svc acts s) = [])
    (Hmay : may_at (tabs (history svc acts s)) a g PermViewAuditLog)
    (Hfuel : (length (log_entries (audit_params g input) (tabs (history svc acts s))) < fuel)%nat) :
  let now := history svc acts s in
  let log := log_entries (audit_params g input) (tabs now) in
  StronglySorted (newer_first fst) log /\ NoDup log.*1 /\
  (forall id row, (id, row) ∈ log <-> t_audit (tabs now) !! id = Some row /\ audit_guild_id row = Some g /\
     id < default (2 ^ 63 - 1) (lai_Before input) /\
     (lai_Action input = "" \/ lai_Action input = audit_action row)%string /\
     (forall u, lai_ActorID input = Some u -> u = audit_actor_id row)) /\
  ((read_log created_at fuel a g input now = (inr (auditLogEntryFromRow created_at <$> log), now) /\
    forall page s1, Service_ListAuditLog created_at a g input now = (inr page, s1) ->
      (length page <= 100)%nat /\ (page = [] -> log = [])) \/
   (Service_ListAuditLog created_at a g input now = (inl EBadRequest, now) /\
    forall id row, t_audit (tabs now) !! id = Some row -> audit_action row <> lai_Action input)).
Proof.
  intros now log. split; [apply log_sorted|]. split; [apply log_ids|]. split; [intros; apply elem_of_audit_page|].
  assert (whole_inv (tabs now)) as [[[Hwf _] _] _] by (by apply (history_ind svc (fun _ => True))).
  destruct (decide ((lai_Action input = "" \/ knownAuditAction (lai_Action input) = true)%string)) as [Hk|Hk]; [left|right].
  - pose proof (audit_limit_range (lai_Limit input)) as Hr. unfold maxAuditLogPageSize in Hr. split.
    + unfold log in *. fold now in Hfuel, Hmay, Hup. clearbody now. clear log. revert input Hk Hr Hfuel.
      induction fuel as [|fuel IH]; intros input Hk Hr Hfuel; [lia|].
      cbn [read_log]. unfold mbind, M_bind. rewrite ListAuditLog_run by done.
      set (n := Z.to_nat (audit_limit (lai_Limit input))). rewrite fmap_last.
      destruct (last (take n (log_entries (audit_params g input) (tabs now)))) as [e|] eqn:Hlast; cbn.
      * pose proof (log_next _ _ _ _ Hlast) as Hnext.
        change (below_entry e.1 (audit_params g input)) with
          (audit_params g (mkListAuditLogInput (Some e.1) (lai_Action input) (lai_ActorID input) (lai_Limit input))) in Hnext.
        rewrite IH; [|done|done|].
        -- unfold mret, M_ret. rewrite Hnext, <- fmap_app. by rewrite take_drop.
        -- rewrite Hnext, length_drop. destruct (log_entries (audit_params g input) (tabs now)) eqn:E; [by rewrite take_nil in Hlast|].
           cbn in *. lia.
      * apply last_None in Hlast. destruct (log_entries (audit_params g input) (tabs now)); [done|]. by destruct n eqn:En; [lia|].
    + intros page s1. rewrite ListAuditLog_run by done. intros [= <- _]. rewrite length_fmap, length_take.
      split; [lia|]. intros He%fmap_nil_inv. fold log in He. destruct log; [done|].
      destruct (Z.to_nat (audit_limit _)) eqn:E; [lia|done].
  - split.
    + unfold Service_ListAuditLog, refuseUnknownAuditAction. destruct (String.eqb_spec (lai_Action input) ""); [tauto|].
      by destruct (knownAuditAction _); [tauto|].
    + intros id row Hl E. apply Hk. right. rewrite <- E.
      destruct (history_logged svc acts s Hinv _ _ Hl) as [Hl'|?]; [|done].
      by destruct (Hvoc _ _ Hl').
Qed.

(** ** In the concrete conversation *)

#[local] Existing Instance C_lower.

(** After the talk and its reports the owner reads the log in pages of one, a moderator's acts only, and
    asks for an action that is misspelt. *)
Lemma audit_log_complete_witness :
  let stamp := fun id : Z => 0 in
  let now := history example_service (talk_acts ++ reporting) invite_state in
  let input := mkListAuditLogInput None "" None 1 in
  let typo := mkListAuditLogInput None "report.dissmiss" None 1 in
  let actions x := match (read_log stamp 30 100 1 x now).1 with
                   | inl e => inl e | inr l => inr (map ALE_Action l) end in
  actions input = inr ["report.dismiss"; "guild.message_audit_enable"; "role.update"]%string /\
  actions typo = inl EBadRequest /\
  (Service_ListAuditLog stamp 103 1 input now).1 = inl EForbidden /\
  StronglySorted (newer_first fst) (log_entries (audit_params 1 input) (tabs now)).
Proof.
  intros stamp now input typo actions. do 3 (split; [vm_compute; reflexivity|]).
  refine (proj1 (audit_log_complete stamp example_service (talk_acts ++ reporting) invite_state 100 1 input 30
    invite_tables_whole _ _ _ _)).
  - apply logged_same. vm_compute. reflexivity.
  - vm_compute. reflexivity.
  - right. apply holds_one; [lia|vm_compute; reflexivity].
  - vm_compute. lia.
Defined.
