(* ===== verification/PrivateTags.v ===== *)
(** A private tag is its owner's alone: what any account is answered does not depend on the private
    tags of others. Requests commute with hiding those tags from the tables. *)
From S2P Require Import Prelude GoStd Permissions Snowflake Rows TxMonad Queries.
From S2P Require Import Resolve StoreInv Authority ResolveMany GuildAuth GuildCommon RoleSvc.
From S2P Require Import OverwriteSvc MemberSvc GuildSvc ChannelSvc Preserve GuildService Layers.
From S2P Require Import Escalation Limits InviteSvc Utf8 MessageSvc TagSvc ReportSvc.
From S2P Require Import ChatInv.
From S2P Require Import Conversations Invites Backlog.

(** ** Computations that commute with a view of the tables *)

Section views.
Context (view : Tables -> Tables) (I : Tables -> Prop).

Definition seen (s : St) : St := with_tabs (view (tabs s)) s.

(** From tables with [P], running on the view is the view of running; [I] holds afterwards. *)
Definition commutes {A} (P : Tables -> Prop) (m : M A) : Prop := forall s, P (tabs s) ->
  I (tabs (m s).2) /\ m (seen s) = ((m s).1, seen (m s).2).

Lemma commutes_weaken {A} (P Q : Tables -> Prop) (m : M A) :
  commutes Q m -> (forall t, P t -> Q t) -> commutes P m.
Proof. intros Hm HPQ s HP. by apply Hm, HPQ. Qed.

Lemma commutes_ret {A} (a : A) : commutes I (mret a).
Proof. by intros s HI. Qed.
Lemma commutes_throw {A} e : commutes I (throw (A := A) e).
Proof. by intros s HI. Qed.
Lemma commutes_refuse_if b e : commutes I (refuse_if b e).
Proof. by destruct b. Qed.

(** The continuation may use what the first part established. *)
Lemma commutes_bind_with {A B} P (Q : A -> Tables -> Prop) (m : M A) (k : A -> M B) :
  commutes P m -> (forall s a s', P (tabs s) -> m s = (inr a, s') -> Q a (tabs s')) ->
  (forall a, commutes (Q a) (k a)) -> commutes P (m ≫= k).
Proof.
  intros Hm HQ Hk s HP. unfold mbind, M_bind. destruct (Hm s HP) as [HI E].
  destruct (m s) as [[e|a] s'] eqn:Em; cbn in *; rewrite E; [done|].
  destruct (Hk a s') as [HI' E']; [by eapply HQ|]. by rewrite E'.
Qed.

Lemma commutes_bind {A B} P (m : M A) (k : A -> M B) :
  commutes P m -> (forall a, commutes I (k a)) -> commutes P (m ≫= k).
Proof.
  intros Hm Hk. apply (commutes_bind_with P (fun _ => I)); [done| |done].
  intros s a s' HP E. destruct (Hm s HP) as [HI _]. by rewrite E in HI.
Qed.

Lemma commutes_attempt {A} P (m : M A) : commutes P m -> commutes P (attempt m).
Proof.
  intros Hm s HP. destruct (Hm s HP) as [HI E]. unfold attempt. rewrite E. by destruct (m s).
Qed.

Lemma commutes_no_rows_as {A} P e (m : M A) : commutes P m -> commutes P (no_rows_as e m).
Proof.
  intros Hm s HP. destruct (Hm s HP) as [HI E]. unfold no_rows_as. rewrite E. by destruct (m s) as [[[]|] ?].
Qed.

Lemma commutes_lift {A} (r : Err + A) : commutes I (lift r).
Proof. by destruct r. Qed.

Lemma next_fault_seen s : next_fault (seen s) = ((next_fault s).1, seen (next_fault s).2) /\
  tabs (next_fault s).2 = tabs s.
Proof. unfold next_fault, seen. destruct s as [t h g c [|[] fs] p]; done. Qed.

Lemma commutes_reading {A} P (f : Tables -> Err + A) :
  (forall t, P t -> I t) -> (forall t, P t -> f (view t) = f t) -> commutes P (reading f).
Proof.
  intros HPI Hf s HP. unfold reading. destruct (next_fault_seen s) as [-> Et].
  destruct (next_fault s) as [[] s']; cbn in *; rewrite Et; split; try done; [by apply HPI|by apply HPI|].
  by rewrite Hf.
Qed.

Lemma commutes_writing {A} P (f : Tables -> Err + (A * Tables)) :
  (forall t, P t -> I t) ->
  (forall t, P t -> match f t with
                    | inl e => f (view t) = inl e
                    | inr (a, t') => I t' /\ f (view t) = inr (a, view t')
                    end) -> commutes P (writing f).
Proof.
  intros HPI Hf s HP. unfold writing. destruct (next_fault_seen s) as [-> Et].
  destruct (next_fault s) as [[] s']; cbn in *; rewrite Et; [split; [by apply HPI|done]|].
  specialize (Hf _ HP). destruct (f (tabs s)) as [e|[a t']]; cbn in *; [rewrite Hf, Et; split; [by apply HPI|done]|].
  destruct Hf as [HI ->]. done.
Qed.

Lemma commutes_ids_Next P : (forall t, P t -> I t) -> commutes P ids_Next.
Proof.
  intros HPI s HP. unfold ids_Next, seen. cbn. destruct (Next (gen s) (clock s)) as [[[[] g] c]|]; cbn; by split; [apply HPI|].
Qed.

Lemma commutes_Queue bus ev : commutes I (Publisher_Queue bus ev).
Proof. by destruct bus. Qed.

Lemma afterCommit_run_seen evs s : afterCommit_run evs (seen s) = seen (afterCommit_run evs s).
Proof.
  revert s. induction evs as [|ev evs IH]; intros s; [done|]. cbn.
  destruct (next_fault_seen s) as [-> _]. destruct (next_fault s) as [[] s']; cbn; by rewrite <- IH.
Qed.

Lemma commutes_RunInTx {A} P (fn : M A) :
  (forall t, P t -> I t) -> commutes P fn -> commutes P (RunInTx fn).
Proof.
  intros HPI Hfn s HP. unfold RunInTx. destruct (next_fault_seen s) as [-> Et].
  destruct (next_fault s) as [[] s0]; cbn in *; [rewrite Et; split; [by apply HPI|done]|].
  destruct (Hfn (with_hooks [] s0)) as [HI E]; [by cbn; rewrite Et|].
  change (with_hooks [] (seen s0)) with (seen (with_hooks [] s0)). rewrite E.
  destruct (fn (with_hooks [] s0)) as [[e|a] s1]; cbn in *; rewrite ?Et; [split; [by apply HPI|done]|].
  destruct (next_fault_seen s1) as [-> Et1]. destruct (next_fault s1) as [[] s2]; cbn in *; rewrite ?Et.
  - split; [by apply HPI|done].
  - change (hooks (seen s2)) with (hooks s2). rewrite afterCommit_run_seen.
    destruct (afterCommit_run_frame (hooks s2) s2) as [E2 _]. split; [by rewrite E2, Et1|done].
Qed.
End views.

(** A first part that keeps what the rest needs. *)
Lemma commutes_bind_inv {A B} view (I J : Tables -> Prop) (m : M A) (k : A -> M B) :
  commutes view J J m -> (forall t, J t -> I t) -> (forall a, commutes view I J (k a)) -> commutes view I J (m ≫= k).
Proof.
  intros Hm HJI Hk. apply (commutes_bind_with _ _ _ (fun _ => J)).
  - intros s Hs. destruct (Hm s Hs) as [? ?]. split; [by apply HJI|done].
  - intros s a s' Hs E. destruct (Hm s Hs) as [HJ _]. by rewrite E in HJ.
  - done.
Qed.

(** Splits a computation down to the constructs above. *)
Ltac commutes_steps :=
  repeat first
    [ match goal with
      | |- forall _, _ => intro
      | |- commutes _ _ _ (_ ≫= _) => apply commutes_bind
      | |- commutes _ _ _ (attempt _) => apply commutes_attempt
      | |- commutes _ _ _ (no_rows_as _ _) => apply commutes_no_rows_as
      | |- commutes _ _ _ ids_Next => apply commutes_ids_Next; [done]
      end
    | apply commutes_ret
    | apply commutes_throw
    | apply commutes_refuse_if
    | apply commutes_lift
    | apply commutes_Queue
    | solve [auto with norite]
    | apply commutes_reading; [done|intros ? _; reflexivity]
    | match goal with
      | |- commutes _ _ _ (match ?x with _ => _ end) => destruct x
      | |- commutes _ _ _ (if ?x then _ else _) => destruct x
      end ].

(** ** Hiding the private tags of others *)

Section hide.
Context (v : Z).

(** A tag other accounts keep to themselves. *)
Definition others_own (x : Chat) (id : Z) : bool :=
  match c_tags x !! id with Some tag => negb (tag_visible v tag) | None => false end.

Definition hide (x : Chat) : Chat :=
  set_tags (filter (fun kv => tag_visible v kv.2 = true) (c_tags x))
    (set_applied (filter (fun kv => others_own x kv.1.1 = false) (c_applied x)) x).

Definition hide_tables (t : Tables) : Tables := on_chat hide t.

Definition keyed (t : Tables) : Prop := tags_keyed (t_chat t).

Lemma hide_tag x id tag : c_tags (hide x) !! id = Some tag <-> c_tags x !! id = Some tag /\ tag_visible v tag = true.
Proof. cbn. by rewrite map_lookup_filter_Some. Qed.

Lemma hide_tag_visible x id tag : c_tags x !! id = Some tag -> tag_visible v tag = true -> c_tags (hide x) !! id = Some tag.
Proof. intros. by apply hide_tag. Qed.

Lemma hide_tag_none x id :
  c_tags (hide x) !! id = None <-> forall tag, c_tags x !! id = Some tag -> tag_visible v tag = false.
Proof.
  rewrite eq_None_not_Some. split.
  - intros H tag Ht. destruct (tag_visible v tag) eqn:E; [|done]. destruct H. exists tag. by apply hide_tag.
  - intros H [tag [Ht Hv]%hide_tag]. by rewrite (H tag Ht) in Hv.
Qed.

Lemma hide_applied x k app :
  c_applied (hide x) !! k = Some app <-> c_applied x !! k = Some app /\ others_own x k.1 = false.
Proof. cbn. by rewrite map_lookup_filter_Some. Qed.

Lemma hide_keyed x : tags_keyed x -> tags_keyed (hide x).
Proof.
  intros [H1 H2]. split; [by intros id tag [? _]%hide_tag; eauto|]. intros tid mid app [? _]%hide_applied. eauto.
Qed.

(** ** The statements on tags *)

Lemma NoDup_omap {A B} (f : A -> option B) (l : list A) :
  (forall x y b, x ∈ l -> y ∈ l -> f x = Some b -> f y = Some b -> x = y) -> NoDup l -> NoDup (omap f l).
Proof.
  induction l as [|x l IH]; intros Hf Hnd; [constructor|]. apply NoDup_cons in Hnd as [Hx Hnd].
  assert (NoDup (omap f l)) as Hl.
  { apply IH; [|done]. intros y z b Hy Hz. apply Hf; by right. }
  change (omap f (x :: l)) with (match f x with Some b => b :: omap f l | None => omap f l end).
  destruct (f x) as [b|] eqn:E; [|done]. apply NoDup_cons. split; [|done].
  intros (y & Hy & Ey)%list_elem_of_omap. assert (x = y) as <-; [|done].
  apply (Hf x y b); [by left|by right|done..].
Qed.

Lemma applied_nodup x : tags_keyed x -> NoDup ((map_to_list (c_applied x)).*2).
Proof.
  intros Hk. apply (NoDup_fmap_1 (fun a => (ta_tag_id a, ta_message_id a))).
  rewrite <- list_fmap_compose, (list_fmap_ext _ fst); [apply NoDup_fst_map_to_list|].
  intros ? [[tid mid] a] H. apply list_elem_of_lookup_2, elem_of_map_to_list in H. cbn.
  by destruct (proj2 Hk _ _ _ H) as [-> ->].
Qed.

Lemma tags_for_nodup x ids u : tags_keyed x -> NoDup (tags_for x ids u).
Proof.
  intros Hk. unfold tags_for. rewrite merge_sort_Permutation. apply NoDup_filter, NoDup_omap.
  - intros a1 a2 r H1 H2 E1 E2. apply list_elem_of_fmap in H1 as ([[t1 m1] a1'] & -> & H1%elem_of_map_to_list).
    apply list_elem_of_fmap in H2 as ([[t2 m2] a2'] & -> & H2%elem_of_map_to_list). cbn in *.
    destruct (tagged_row_inv _ _ _ Hk E1) as (_ & I1 & M1), (tagged_row_inv _ _ _ Hk E2) as (_ & I2 & M2).
    destruct (proj2 Hk _ _ _ H1) as [K1 L1], (proj2 Hk _ _ _ H2) as [K2 L2].
    assert (t1 = t2 /\ m1 = m2) as [-> ->] by (split; congruence). congruence.
  - by apply applied_nodup.
Qed.

Lemma tags_for_hide x ids : tags_keyed x -> tags_for (hide x) ids v = tags_for x ids v.
Proof.
  intros Hk. pose proof (hide_keyed _ Hk) as Hk'.
  assert (forall r, r ∈ tags_for (hide x) ids v <-> r ∈ tags_for x ids v) as Hin.
  { intros r. rewrite !elem_of_tags_for. split; intros [[Hids Hv] (k & app & Ha & Hr)]; (split; [done|]); exists k, app.
    - apply hide_applied in Ha as [Ha _]. split; [done|]. unfold tagged_row in *. apply bind_Some in Hr as (tag & [Ht _]%hide_tag & Hr).
      by rewrite Ht.
    - destruct k as [tid mid]. destruct (proj2 Hk _ _ _ Ha) as [E _]. pose proof (tagged_row_inv _ _ _ Hk Hr) as (Ht & _).
      split.
      + apply hide_applied. split; [done|]. unfold others_own. cbn. by rewrite <- E, Ht, Hv.
      + unfold tagged_row. rewrite (hide_tag_visible _ _ _ Ht Hv). cbn. unfold tagged_row in Hr. rewrite Ht in Hr. done. }
  eapply StronglySorted_unique_strong; [|apply StronglySorted_merge_sort; apply _..|].
  - intros r1 r2 H1%Hin H2. by apply (tags_for_antisym x ids ids v).
  - apply NoDup_Permutation; [by apply tags_for_nodup|by apply tags_for_nodup|done].
Qed.

Lemma list_tags_hide x g : tags_keyed x ->
  newest tag_id (fun tag => tag_guild_id tag = g /\ tag_visible v tag = true) (c_tags (hide x)) =
  newest tag_id (fun tag => tag_guild_id tag = g /\ tag_visible v tag = true) (c_tags x).
Proof.
  intros Hk. apply newest_ext; [intros k tag [? _]%hide_tag|intros k tag ?|]; try by apply (proj1 Hk).
  intros tag. rewrite hide_tag. tauto.
Qed.

Lemma matching_hide (P : Z * dbMessageTag -> Prop) `{forall kv, Decision (P kv)} x :
  (forall kv, P kv -> tag_visible v kv.2 = true) -> matching P (c_tags (hide x)) = matching P (c_tags x).
Proof.
  intros HP. apply Z.le_antisymm.
  - apply matching_subseteq. apply map_filter_subseteq.
  - apply matching_mono. intros id tag Ht Hp. exists tag. split; [|done]. apply hide_tag. split; [done|]. by apply (HP (id, tag)).
Qed.

Lemma shared_tags_hide x g : count (shared_tags (hide x) g) = count (shared_tags x g).
Proof.
  unfold shared_tags. rewrite !count_rows. apply matching_hide. intros [id tag] [_ Hs]. unfold tag_visible. cbn in *. by rewrite Hs.
Qed.

Lemma private_tags_hide x g : count (private_tags (hide x) g v) = count (private_tags x g v).
Proof.
  unfold private_tags. rewrite !count_rows. apply matching_hide. intros [id tag] (_ & Hc & _). unfold tag_visible. cbn in *.
  by rewrite Hc, Z.eqb_refl, orb_true_r.
Qed.

Lemma name_taken_hide `{Collation} tag x :
  tag_created_by tag = v -> name_taken tag (hide x) = name_taken tag x.
Proof.
  intros Hc. unfold name_taken. apply eq_true_iff_eq. rewrite !existsb_exists. unfold rows_of_map.
  split; intros (other & Hin & Hs); exists other; (split; [|done]);
    apply list_elem_of_In, list_elem_of_fmap in Hin as ([id o] & -> & Hin%elem_of_map_to_list); cbn in *;
    apply list_elem_of_In, list_elem_of_fmap; exists (id, o); (split; [done|]); apply elem_of_map_to_list.
  - by apply hide_tag in Hin as [? _].
  - apply hide_tag. split; [done|]. unfold same_name in Hs. rewrite Hc in Hs. apply andb_true_iff in Hs as [Hb Ho].
    rewrite bool_decide_eq_true in Hb. destruct Hb as (_ & Es & _). unfold tag_visible. rewrite <- Es.
    by rewrite (Z.eqb_sym (tag_created_by o) v).
Qed.

Lemma by_others_hide x id u tag :
  tags_keyed x -> c_tags x !! id = Some tag -> tag_visible v tag = true ->
  count (by_others (hide x) id u) = count (by_others x id u).
Proof.
  intros Hk Ht Hv. unfold count. f_equal. apply Permutation_length, NoDup_Permutation;
    [by apply NoDup_filter, applied_nodup, hide_keyed|by apply NoDup_filter, applied_nodup|].
  intros a. unfold by_others. rewrite !list_elem_of_filter, !list_elem_of_fmap.
  split; intros [[Hid Hne] ([[tid mid] a'] & -> & Ha%elem_of_map_to_list)]; cbn in *; (split; [done|]);
    exists ((tid, mid), a'); (split; [done|]); apply elem_of_map_to_list.
  - by apply hide_applied in Ha as [? _].
  - apply hide_applied. split; [done|]. unfold others_own. cbn.
    destruct (proj2 Hk _ _ _ Ha) as [<- _]. by rewrite Hid, Ht, Hv.
Qed.

(** ** The services *)

Local Abbreviation commuting := (commutes hide_tables keyed).

Lemma commutes_Authorize I a g c need : commutes hide_tables I I (Authorize a g c need).
Proof. unfold Authorize, Resolve. commutes_steps. Qed.

Lemma commutes_authorizeChannel a c need opts : commuting keyed (authorizeChannel a c need opts).
Proof.
  unfold authorizeChannel. destruct (lock opts); commutes_steps;
    apply commutes_Authorize || (apply commutes_attempt, commutes_Authorize).
Qed.

(** A statement that writes other tables than those of tags. *)
Lemma commutes_elsewhere_of {A} (I : Tables -> Prop) (f : Tables -> Err + (A * Tables)) :
  (forall t t', c_tags (t_chat t') = c_tags (t_chat t) -> c_applied (t_chat t') = c_applied (t_chat t) -> I t -> I t') ->
  (forall t, match f t with
             | inl e => f (hide_tables t) = inl e
             | inr (a, t') => c_tags (t_chat t') = c_tags (t_chat t) /\ c_applied (t_chat t') = c_applied (t_chat t) /\
                 f (hide_tables t) = inr (a, hide_tables t')
             end) -> commutes hide_tables I I (writing f).
Proof.
  intros HI Hf. apply commutes_writing; [done|]. intros t Hk. specialize (Hf t). destruct (f t) as [e|[a t']]; [done|].
  destruct Hf as (E1 & E2 & Hf). split; [|done]. by apply (HI t).
Qed.

Lemma keyed_same t t' :
  c_tags (t_chat t') = c_tags (t_chat t) -> c_applied (t_chat t') = c_applied (t_chat t) -> keyed t -> keyed t'.
Proof. unfold keyed, tags_keyed. by intros -> ->. Qed.

Definition commutes_elsewhere {A} f := commutes_elsewhere_of (A := A) keyed f keyed_same.

Lemma commutes_audit_of (I : Tables -> Prop) id row :
  (forall t t', c_tags (t_chat t') = c_tags (t_chat t) -> c_applied (t_chat t') = c_applied (t_chat t) -> I t -> I t') ->
  commutes hide_tables I I (Queries_WriteAuditLogEntry id row).
Proof.
  intros HI. apply commutes_elsewhere_of; [done|]. intros t. change (t_audit (hide_tables t)) with (t_audit t).
  change (t_guilds (hide_tables t)) with (t_guilds t). change (t_users (hide_tables t)) with (t_users t).
  destruct (t_audit t !! id); [done|]. by destruct (_ && _).
Qed.

Lemma commutes_audit id row : commuting keyed (Queries_WriteAuditLogEntry id row).
Proof. apply commutes_audit_of, keyed_same. Qed.

Lemma commutes_CreateMessage now p : commuting keyed (Queries_CreateMessage now p).
Proof.
  apply commutes_elsewhere. intros t. destruct (negb (pg_text _)); [done|].
  change (messages_of (hide_tables t)) with (messages_of t). destruct (messages_of t !! _); [done|].
  change (t_channels (hide_tables t)) with (t_channels t). destruct (negb _); [done|].
  change (t_users (hide_tables t)) with (t_users t). by destruct (_ && _).
Qed.

Lemma commutes_SetLast c id : commuting keyed (Queries_SetChannelLastMessage c id).
Proof.
  apply commutes_elsewhere. intros t. change (t_channels (hide_tables t)) with (t_channels t). by case_bool_decide.
Qed.

Lemma commutes_RecordMessageAudit now p : commuting keyed (Queries_RecordMessageAudit now p).
Proof.
  apply commutes_elsewhere. intros t. change (recorded_row now p (hide_tables t)) with (recorded_row now p t).
  destruct (recorded_row now p t); [|done]. change (c_recorded (t_chat (hide_tables t))) with (c_recorded (t_chat t)).
  destruct (_ !! _); [done|]. change (t_users (hide_tables t)) with (t_users t). by destruct (fk_holds _ _).
Qed.

Lemma commutes_AppendHistory now id mid content : commuting keyed (Queries_AppendMessageEditHistory now id mid content).
Proof.
  apply commutes_elsewhere. intros t. change (c_history (t_chat (hide_tables t))) with (c_history (t_chat t)).
  destruct (_ !! _); [done|]. change (messages_of (hide_tables t)) with (messages_of t). by destruct (fk_holds _ _).
Qed.

Lemma commutes_UpdateContent now id content ty : commuting keyed (Queries_UpdateMessageContent now id content ty).
Proof.
  apply commutes_elsewhere. intros t. destruct (negb _); [done|].
  change (live_message (hide_tables t) id) with (live_message t id). by destruct (live_message t id).
Qed.

Lemma commutes_SoftDelete now id : commuting keyed (Queries_SoftDeleteMessage now id).
Proof.
  apply commutes_elsewhere. intros t. change (live_message (hide_tables t) id) with (live_message t id).
  by destruct (live_message t id).
Qed.

Lemma commutes_CreateReport now p : commuting keyed (Queries_CreateReport now p).
Proof.
  apply commutes_elsewhere. intros t. cbn zeta. change (c_reports (t_chat (hide_tables t))) with (c_reports (t_chat t)).
  destruct (negb _); [done|]. destruct (bool_decide _); [done|]. destruct (existsb _ _); [done|].
  change (t_guilds (hide_tables t)) with (t_guilds t). change (t_users (hide_tables t)) with (t_users t).
  by destruct (_ && _).
Qed.

Lemma commutes_ResolveStatement now id g status b : commuting keyed (Queries_ResolveReport now id g status b).
Proof.
  apply commutes_elsewhere. intros t. change (c_reports (t_chat (hide_tables t))) with (c_reports (t_chat t)).
  destruct (_ !! _); [|done]. destruct (_ || _); [done|]. change (t_users (hide_tables t)) with (t_users t).
  by destruct (fk_holds _ _).
Qed.

#[local] Hint Resolve commutes_Authorize commutes_authorizeChannel commutes_audit commutes_CreateMessage
  commutes_SetLast commutes_RecordMessageAudit commutes_AppendHistory commutes_UpdateContent
  commutes_SoftDelete commutes_CreateReport commutes_ResolveStatement : norite.

Lemma commutes_tags_for ids : commuting keyed (Queries_ListTagsForMessages ids v).
Proof. apply commutes_reading; [done|]. intros t Hk. f_equal. by apply tags_for_hide. Qed.
#[local] Hint Resolve commutes_tags_for : norite.

Lemma commutes_attachTags actor msgs : Actor_UserID actor = v -> commuting keyed (Service_attachTags actor msgs).
Proof. intros Hv. unfold Service_attachTags. rewrite Hv. commutes_steps. Qed.

Lemma commutes_loadInGuild g id : commuting keyed (Service_loadInGuild v g id).
Proof.
  intros s Hk. unfold Service_loadInGuild, no_rows_as, Queries_GetMessageTag, mbind, M_bind, reading.
  destruct (next_fault_seen hide_tables s) as [-> Et]. destruct (next_fault s) as [[] s']; cbn -[hide hide_tables] in *.
  { by rewrite Et. }
  rewrite Et.
  change (t_chat (hide_tables (tabs s))) with (hide (t_chat (tabs s))).
  destruct (c_tags (t_chat (tabs s)) !! id) as [tag|] eqn:Ht.
  - destruct (tag_visible v tag) eqn:Hv.
    + rewrite (hide_tag_visible _ _ _ Ht Hv). cbn. destruct (negb (tag_guild_id tag =? g)); cbn; [by rewrite Et|].
      rewrite Hv. cbn. by rewrite Et.
    + rewrite (proj2 (hide_tag_none _ _)) by congruence. cbn.
      destruct (negb (tag_guild_id tag =? g)); cbn; [by rewrite Et|]. rewrite Hv. cbn. by rewrite Et.
  - rewrite (proj2 (hide_tag_none _ _)) by congruence. cbn. by rewrite Et.
Qed.

(** ** A tag the account may name *)

Definition held (id : Z) (tag : dbMessageTag) (t : Tables) : Prop :=
  keyed t /\ c_tags (t_chat t) !! id = Some tag /\ tag_visible v tag = true.

Lemma held_same id tag t t' :
  c_tags (t_chat t') = c_tags (t_chat t) -> c_applied (t_chat t') = c_applied (t_chat t) -> held id tag t -> held id tag t'.
Proof. unfold held. intros E1 E2 (Hk & Ht & Hv). rewrite E1. split; [by apply (keyed_same t)|done]. Qed.

Lemma reading_keeps {A} (f : Tables -> Err + A) (s : St) a s' : reading f s = (inr a, s') -> tabs s' = tabs s.
Proof.
  unfold reading. destruct (next_fault_seen id s) as [_ Et]. destruct (next_fault s) as [[] s1]; cbn in *; [done|].
  by intros [= _ <-].
Qed.

Lemma loadInGuild_held g id s tag s' :
  keyed (tabs s) -> Service_loadInGuild v g id s = (inr tag, s') -> held id tag (tabs s').
Proof.
  intros Hk. unfold Service_loadInGuild, no_rows_as, Queries_GetMessageTag, mbind, M_bind, reading.
  destruct (next_fault_seen (fun t => t) s) as [_ Et]. destruct (next_fault s) as [[] s1]; cbn in *; [done|]. rewrite Et.
  destruct (c_tags (t_chat (tabs s)) !! id) as [tag'|] eqn:Ht; cbn; [|done].
  destruct (negb _); cbn; [done|]. destruct (tag_visible v tag') eqn:Hv; cbn; [|done].
  intros [= <- <-]. rewrite Et. by split_and!.
Qed.

Lemma others_own_held x id tag : c_tags x !! id = Some tag -> tag_visible v tag = true -> others_own x id = false.
Proof. unfold others_own. intros -> ->. done. Qed.

Lemma hide_without_tag id x : hide (without_tag id x) = without_tag id (hide x).
Proof.
  destruct x as [ms hs rs ts apps reps last]. unfold hide, without_tag, others_own, set_tags, set_applied. cbn. f_equal.
  - apply map_eq. intros j. apply option_eq. intros tag. rewrite map_lookup_filter_Some, !lookup_delete_Some, map_lookup_filter_Some.
    naive_solver.
  - apply map_eq. intros [tid mid]. apply option_eq. intros app. rewrite !map_lookup_filter_Some. cbn.
    destruct (decide (id = tid)) as [->|]; [naive_solver|]. rewrite lookup_delete_ne by done. naive_solver.
Qed.

Lemma keyed_without_tag id t : keyed t -> keyed (on_chat (without_tag id) t).
Proof.
  intros [H1 H2]. split; cbn.
  - intros j tag [_ Hj]%lookup_delete_Some. eauto.
  - intros tid mid app [Hj _]%map_lookup_filter_Some. eauto.
Qed.

Lemma hide_apply k app x : others_own x k.1 = false ->
  hide (set_applied (<[k := app]> (c_applied x)) x) = set_applied (<[k := app]> (c_applied (hide x))) (hide x).
Proof.
  intros Hk. unfold hide. cbn. unfold set_tags, set_applied. f_equal. cbn.
  rewrite <- map_filter_insert_True by done. done.
Qed.

Lemma hide_unapply k x :
  hide (set_applied (delete k (c_applied x)) x) = set_applied (delete k (c_applied (hide x))) (hide x).
Proof.
  unfold hide. cbn. unfold set_tags, set_applied. f_equal. cbn. rewrite <- map_filter_delete. done.
Qed.

Lemma held_applied id tag t mid : held id tag t ->
  c_applied (t_chat (hide_tables t)) !! (id, mid) = c_applied (t_chat t) !! (id, mid).
Proof.
  intros (_ & Ht & Hv). change (t_chat (hide_tables t)) with (hide (t_chat t)).
  apply option_eq. intros app. rewrite hide_applied. cbn. rewrite (others_own_held _ _ _ Ht Hv). tauto.
Qed.

Lemma commutes_DeleteStatement id tag g : commutes hide_tables keyed (held id tag) (Queries_DeleteMessageTag id g).
Proof.
  apply commutes_writing; [by intros t []|]. intros t (Hk & Ht & Hv).
  change (t_chat (hide_tables t)) with (hide (t_chat t)). rewrite (hide_tag_visible _ _ _ Ht Hv), Ht.
  destruct (tag_guild_id tag =? g); [|done]. split; [by apply keyed_without_tag|]. do 2 f_equal.
  unfold hide_tables. rewrite !on_chat_twice. unfold on_chat. by rewrite hide_without_tag.
Qed.

Lemma commutes_others id tag : commutes hide_tables keyed (held id tag)
  (if tag_is_shared tag then Queries_LockMessageTag id;; Queries_CountMessageTagApplicationsByOthers id v else mret 0).
Proof.
  destruct (tag_is_shared tag).
  - apply (commutes_bind_with _ _ _ (fun _ => held id tag)); [apply commutes_reading; [by intros t []|done]| |].
    + intros s u s' Hh E%reading_keeps. by rewrite E.
    + intros []. apply commutes_reading; [by intros t []|]. intros t (Hk & Ht & Hv). f_equal.
      by apply (by_others_hide (t_chat t) id v tag).
  - eapply commutes_weaken; [apply commutes_ret|by intros t []].
Qed.

Lemma others_keeps id tag s n s' :
  (if tag_is_shared tag then Queries_LockMessageTag id;; Queries_CountMessageTagApplicationsByOthers id v else mret 0) s
    = (inr n, s') -> tabs s' = tabs s.
Proof.
  destruct (tag_is_shared tag); [|by intros [= _ <-]]. unfold mbind, M_bind.
  destruct (Queries_LockMessageTag id s) as [[e|[]] s1] eqn:E; [done|]. intros E2%reading_keeps. apply reading_keeps in E. congruence.
Qed.

Lemma commutes_DeleteTag_tx g id : commuting keyed (DeleteTag_tx v g id).
Proof.
  unfold DeleteTag_tx. apply commutes_bind; [auto with norite|]. intros d.
  apply (commutes_bind_with _ _ _ (fun tag => held id tag)); [apply commutes_loadInGuild|by intros s tag s' Hk; apply loadInGuild_held|].
  intros tag. apply (commutes_bind_with _ _ _ (fun _ => held id tag)).
  { eapply commutes_weaken; [apply commutes_refuse_if|by intros t []]. }
  { intros s u s' Hh. by destruct (negb _); intros [= _ <-]. }
  intros _. apply (commutes_bind_with _ _ _ (fun _ => held id tag)); [apply commutes_others|by intros s n s' Hh E%others_keeps; rewrite E|].
  intros n. apply commutes_bind; [apply commutes_DeleteStatement|]. unfold Tags_writeAudit. commutes_steps.
Qed.

Local Abbreviation commuting_held id tag := (commutes hide_tables (held id tag) (held id tag)).

Lemma commutes_held_keyed {A} id tag (m : M A) : commuting_held id tag m -> commutes hide_tables keyed (held id tag) m.
Proof. intros Hm s Hh. destruct (Hm s Hh) as [[? _] E]. done. Qed.

Lemma commutes_GetApplication id tag mid : commuting_held id tag (Queries_GetMessageTagApplication id mid).
Proof. apply commutes_reading; [done|]. intros t Hh. by rewrite (held_applied _ _ _ _ Hh). Qed.

Lemma commutes_ApplyStatement id tag now mid c :
  commuting_held id tag (Queries_ApplyMessageTag now (mkApplyMessageTagParams id mid c v)).
Proof.
  apply commutes_writing; [done|]. intros t Hh. pose proof Hh as (Hk & Ht & Hv). cbn zeta. cbn [amt_TagID amt_MessageID amt_AppliedBy].
  assert (applicable (mkApplyMessageTagParams id mid c v) (hide_tables t) = applicable (mkApplyMessageTagParams id mid c v) t) as ->.
  { unfold applicable. cbn [amt_TagID amt_MessageID amt_ChannelID].
    change (t_chat (hide_tables t)) with (hide (t_chat t)). rewrite (hide_tag_visible _ _ _ Ht Hv), Ht. done. }
  destruct (negb _); [done|]. rewrite (held_applied _ _ _ _ Hh). destruct (c_applied _ !! _); [done|].
  change (t_users (hide_tables t)) with (t_users t). destruct (fk_holds _ _); [|done]. split.
  - split_and!; [|done|done]. destruct Hk as [H1 H2]. split; [done|]. cbn.
    intros tid m app [[[= <- <-] <-]|[_ Ha]]%lookup_insert_Some; [done|eauto].
  - do 2 f_equal. unfold hide_tables. rewrite !on_chat_twice. unfold on_chat. f_equal.
    rewrite hide_apply by (cbn; by apply (others_own_held _ _ tag)). done.
Qed.

Lemma commutes_UnapplyStatement id tag mid : commuting_held id tag (Queries_UnapplyMessageTag id mid).
Proof.
  apply commutes_writing; [done|]. intros t Hh. pose proof Hh as (Hk & Ht & Hv). rewrite (held_applied _ _ _ _ Hh).
  destruct (c_applied _ !! _); [|done]. split.
  - split_and!; [|done|done]. destruct Hk as [H1 H2]. split; [done|]. cbn.
    intros tid m app [_ Ha]%lookup_delete_Some. eauto.
  - do 2 f_equal. unfold hide_tables. rewrite !on_chat_twice. unfold on_chat. f_equal. by rewrite hide_unapply.
Qed.

Lemma commutes_audit_held id tag aid row : commuting_held id tag (Queries_WriteAuditLogEntry aid row).
Proof. apply commutes_audit_of, held_same. Qed.

#[local] Hint Resolve commutes_GetApplication commutes_ApplyStatement commutes_UnapplyStatement commutes_audit_held : norite.

Lemma commutes_loadMessage c mid : commuting keyed (loadMessageInChannel c mid).
Proof. unfold loadMessageInChannel. commutes_steps. Qed.
#[local] Hint Resolve commutes_loadMessage : norite.

Lemma commutes_ApplyTag_tx now input : commuting keyed (ApplyTag_tx v now input).
Proof.
  unfold ApplyTag_tx. apply commutes_bind; [unfold AuthorizeChannelUnlocked; auto with norite|]. intros [[ch g] d].
  apply commutes_bind; [auto with norite|]. intros _.
  apply (commutes_bind_with _ _ _ (fun tag => held (ai_TagID input) tag)); [apply commutes_loadInGuild|by intros s tag s' Hk; apply loadInGuild_held|].
  intros tag. apply commutes_held_keyed. commutes_steps.
Qed.

Lemma commutes_UnapplyTag_tx input : commuting keyed (UnapplyTag_tx v input).
Proof.
  unfold UnapplyTag_tx. apply commutes_bind; [unfold AuthorizeChannelUnlocked; auto with norite|]. intros [[ch g] d].
  apply commutes_bind; [auto with norite|]. intros _.
  apply (commutes_bind_with _ _ _ (fun tag => held (ai_TagID input) tag)); [apply commutes_loadInGuild|by intros s tag s' Hk; apply loadInGuild_held|].
  intros tag. apply commutes_held_keyed. unfold Tags_writeAudit. commutes_steps.
Qed.

(** No tag has the id. *)
Definition unused (id : Z) (t : Tables) : Prop := keyed t /\ c_tags (t_chat t) !! id = None.

Lemma commutes_CreateStatement `{Collation} id now g name shared :
  commutes hide_tables keyed (unused id) (Queries_CreateMessageTag now (mkCreateMessageTagParams id g name v shared)).
Proof.
  apply commutes_writing; [by intros t []|]. intros t [Hk Hid]. cbn zeta. cbn [cmt_ID cmt_Name cmt_GuildID cmt_CreatedBy].
  destruct (negb _); [done|]. change (t_chat (hide_tables t)) with (hide (t_chat t)).
  assert (c_tags (hide (t_chat t)) !! id = None) as Hid' by (apply hide_tag_none; congruence).
  rewrite Hid, Hid', name_taken_hide by done. destruct (_ || _); [done|].
  change (t_users (hide_tables t)) with (t_users t). change (t_guilds (hide_tables t)) with (t_guilds t).
  destruct (_ && _); [|done]. split.
  - destruct Hk as [H1 H2]. split; [|done]. cbn. intros j tag [[<- <-]|[_ Hj]]%lookup_insert_Some; [done|eauto].
  - do 2 f_equal. unfold hide_tables. rewrite !on_chat_twice. unfold on_chat. f_equal. unfold hide. cbn.
    unfold set_tags, set_applied. f_equal; cbn.
    + rewrite <- map_filter_insert_True; [done|]. unfold tag_visible. cbn. by rewrite Z.eqb_refl, orb_true_r.
    + apply map_eq. intros [tid mid]. apply option_eq. intros app. rewrite !map_lookup_filter_Some. cbn.
      unfold others_own. cbn. destruct (decide (id = tid)) as [->|]; [|by rewrite lookup_insert_ne].
      rewrite lookup_insert_eq, Hid. unfold tag_visible. cbn. by rewrite Z.eqb_refl, orb_true_r.
Qed.

Lemma commutes_CreateTag_tx `{Collation} id now input : commutes hide_tables keyed (unused id) (CreateTag_tx v now id input).
Proof.
  unfold CreateTag_tx. apply commutes_bind_inv; [apply commutes_Authorize|by intros t []|]. intros d.
  apply commutes_bind_inv; [|by intros t []|].
  - unfold Service_checkCeiling. destruct (cti_IsShared input); (apply commutes_bind; [|intros n; apply commutes_refuse_if]);
      (apply commutes_reading; [done|]); intros t _; f_equal; [apply shared_tags_hide|apply private_tags_hide].
  - intros _. apply commutes_bind; [apply commutes_attempt, commutes_CreateStatement|]. commutes_steps.
Qed.

(** ** Every request *)

(** No tag has an id the generator has yet to issue. *)
Definition tags_issued (s : St) : Prop :=
  gen_ok (gen s) /\ forall id, is_Some (c_tags (t_chat (tabs s)) !! id) -> id <= mark (gen s).

Lemma CreateTag_seen `{Collation} now input s :
  keyed (tabs s) -> tags_issued s ->
  Service_CreateTag v now input (seen hide_tables s) =
  ((Service_CreateTag v now input s).1, seen hide_tables (Service_CreateTag v now input s).2).
Proof.
  intros Hk [Hg Hids]. unfold Service_CreateTag. destruct (checkName _) as [e|[]]; [done|].
  unfold mbind, M_bind, lift, mret, M_ret, ids_Next. cbn [gen clock seen with_tabs].
  destruct (Next (gen s) (clock s)) as [[[[id|] g] c]|] eqn:E; [|done..].
  destruct (Next_spec _ _ _ _ _ Hg E) as (_ & _ & Hm & -> & _).
  change (with_gen g c (seen hide_tables s)) with (seen hide_tables (with_gen g c s)).
  refine (proj2 (commutes_RunInTx _ keyed (unused (mark g)) _ _ (commutes_CreateTag_tx (mark g) now input) (with_gen g c s) _));
    [by intros t []|]. split; [done|]. apply eq_None_not_Some. intros Hs. specialize (Hids _ Hs). lia.
Qed.

Lemma commutes_Send_tx bus actor now id input :
  Actor_UserID actor = v -> commuting keyed (Send_tx bus actor now id input).
Proof.
  intros Hv. unfold Send_tx, AuthorizeChannelUnlocked, Service_resolveReply, Service_record, Service_queueMessage. commutes_steps.
Qed.

Lemma commutes_UpdateMessage_tx bus actor now hid input :
  Actor_UserID actor = v -> commuting keyed (UpdateMessage_tx bus actor now hid input).
Proof.
  intros Hv. pose proof (fun msgs => commutes_attachTags actor msgs Hv).
  unfold UpdateMessage_tx, AuthorizeChannelUnlocked, Service_loadInChannel, Service_record, Service_queueMessage. commutes_steps.
Qed.

Lemma commutes_DeleteMessage_tx bus actor now aid c id : commuting keyed (DeleteMessage_tx bus actor now aid c id).
Proof.
  unfold DeleteMessage_tx, AuthorizeChannelUnlocked, Service_loadInChannel, Service_record, Service_writeModerationAudit.
  commutes_steps.
Qed.

Lemma commutes_File_tx a now id input ty : commuting keyed (File_tx a now id input ty).
Proof. unfold File_tx, AuthorizeChannelUnlocked. commutes_steps. Qed.

Lemma commutes_ResolveReport_tx a now g id status : commuting keyed (ResolveReport_tx a now g id status).
Proof. unfold ResolveReport_tx, Service_explainFailedResolve, Service_writeResolutionAudit. commutes_steps. Qed.

Lemma commutes_tx {A} (fn : M A) : commuting keyed fn -> commuting keyed (RunInTx fn).
Proof. by apply commutes_RunInTx. Qed.

#[local] Hint Resolve commutes_Send_tx commutes_UpdateMessage_tx commutes_DeleteMessage_tx commutes_File_tx
  commutes_ResolveReport_tx commutes_tx commutes_DeleteTag_tx commutes_ApplyTag_tx commutes_UnapplyTag_tx : norite.

Lemma handle_chat_seen `{Collation} bus req s :
  keyed (tabs s) -> tags_issued s ->
  handle_chat bus v req (seen hide_tables s) =
  ((handle_chat bus v req s).1, seen hide_tables (handle_chat bus v req s).2).
Proof.
  intros Hk Hids. assert (forall m : M unit, commuting keyed m ->
    m (seen hide_tables s) = ((m s).1, seen hide_tables (m s).2)) as Hc by (intros m Hm; by apply Hm).
  destruct req; cbn [handle_chat]; try (apply Hc; solve [unfold Service_Send, Service_UpdateMessage, Service_DeleteMessage,
    Service_DeleteTag, Service_ApplyTag, Service_UnapplyTag, Service_File, Service_ResolveReport; commutes_steps]).
  unfold mbind, M_bind. cbv beta. rewrite CreateTag_seen by done. by destruct (Service_CreateTag v now input s) as [[e|tag] s'].
Qed.
End hide.

(** ** What others do with theirs *)

(** Whether the request makes, deletes, puts on or takes off a private tag. *)
Definition about_private (t : Tables) (req : ChatRequest) : bool :=
  let private id := match c_tags (t_chat t) !! id with Some tag => negb (tag_is_shared tag) | None => false end in
  match req with
  | ChCreateTag _ input => negb (cti_IsShared input)
  | ChDeleteTag _ id => private id
  | ChApplyTag _ input | ChUnapplyTag input => private (ai_TagID input)
  | _ => false
  end.

Lemma loaded_private t u g id tag v :
  loaded t u g id tag -> tag_is_shared tag = false -> u <> v -> others_own v (t_chat t) id = true /\ tag_created_by tag = u.
Proof.
  unfold loaded, others_own, tag_visible. intros (-> & _ & Hu) Hs Hne. rewrite Hs in *. cbn in *. apply Z.eqb_eq in Hu.
  split; [|done]. rewrite Hu. apply negb_true_iff. by apply Z.eqb_neq.
Qed.

(** The applications that are shown do not change with one of a tag that is not. *)
Lemma hide_other_application v x f tid mid :
  others_own v x tid = true -> (forall k, k <> (tid, mid) -> f !! k = c_applied x !! k) ->
  hide v (set_applied f x) = hide v x.
Proof.
  intros Ho Hf. unfold hide. cbn. unfold set_tags, set_applied. f_equal. cbn.
  apply map_eq. intros k. apply option_eq. intros app. rewrite !map_lookup_filter_Some. unfold others_own in *. cbn in *.
  destruct (decide (k = (tid, mid))) as [->|Hne]; [cbn in *; rewrite Ho; naive_solver|]. by rewrite Hf.
Qed.

Lemma private_acts_hidden `{Collation} bus u req t t' evs v :
  chat_ok t -> chat_effect bus u req t t' evs -> about_private t req = true -> u <> v ->
  hide_tables v t' = hide_tables v t.
Proof.
  intros [_ Hok _]. destruct req; cbn [chat_effect about_private]; try done.
  - intros (_ & _ & id & out & d & _ & _ & _ & Hid & _ & _ & _ & -> & _) Hp%negb_true_iff Hne.
    unfold hide_tables. rewrite on_chat_twice. unfold on_chat. f_equal. unfold hide, set_tags, set_applied, others_own. cbn. f_equal.
    + apply map_filter_insert_not'; [|by rewrite Hid]. unfold tag_visible. cbn. rewrite Hp. cbn. by apply not_true_iff_false, Z.eqb_neq.
    + apply map_eq. intros [tid mid]. apply option_eq. intros app. rewrite !map_lookup_filter_Some. cbn.
      split; intros [Ha Hv]; (split; [done|]); destruct (to_applied _ Hok _ _ _ Ha) as (_ & _ & tag & m & ch & Ht & _);
        (rewrite lookup_insert_ne in * by congruence); done.
  - intros [(d & tag & _ & Hl & _ & Ha) _] Hp Hne. pose proof Hl as (Ht & _). rewrite Ht in Hp. apply negb_true_iff in Hp.
    rewrite Hp in Ha. cbn in Ha. subst t'. destruct (loaded_private _ _ _ _ _ v Hl Hp Hne) as [Ho _].
    unfold hide_tables. rewrite on_chat_twice. unfold on_chat. f_equal. rewrite hide_without_tag.
    unfold without_tag, hide, set_tags, set_applied. cbn. f_equal.
    + apply delete_id, hide_tag_none. intros tag' Ht'. unfold others_own in Ho. rewrite Ht in Ho. apply negb_true_iff in Ho. congruence.
    + apply map_filter_id. intros k app [_ Hk]%map_lookup_filter_Some. cbn in *. congruence.
  - intros [(g & d & tag & _ & Hl & _ & [[_ ->]|(_ & _ & ->)]) _] Hp Hne; [done|]. pose proof Hl as (Ht & _). rewrite Ht in Hp.
    apply negb_true_iff in Hp. destruct (loaded_private _ _ _ _ _ v Hl Hp Hne) as [Ho _].
    unfold hide_tables. rewrite on_chat_twice. unfold on_chat. f_equal.
    apply (hide_other_application v _ _ (ai_TagID input) (ai_MessageID input) Ho). intros k Hk. by rewrite lookup_insert_ne.
  - intros [(g & d & tag & app & _ & Hl & Happ & _ & Ha) _] Hp Hne. pose proof Hl as (Ht & _). rewrite Ht in Hp.
    apply negb_true_iff in Hp. destruct (loaded_private _ _ _ _ _ v Hl Hp Hne) as [Ho Hc].
    destruct (to_applied _ Hok _ _ _ Happ) as (_ & _ & tag' & m & ch & Ht' & _ & _ & _ & Hby). simplify_eq.
    rewrite (Hby Hp), Z.eqb_refl in Ha. cbn in Ha. subst t'.
    unfold hide_tables. rewrite on_chat_twice. unfold on_chat. f_equal.
    apply (hide_other_application v _ _ (ai_TagID input) (ai_MessageID input) Ho). intros k Hk. by rewrite lookup_delete_ne.
Qed.

(** ** Property *)

(** States that differ in the private tags of others than [v] alone. *)
Definition alike (v : Z) (s1 s2 : St) : Prop := seen (hide_tables v) s1 = seen (hide_tables v) s2.

#[export] Instance alike_equivalence v : Equivalence (alike v).
Proof. unfold alike. split; [by intros s|intros s s' E; exact (eq_sym E)|intros s s' s'' E E'; exact (eq_trans E E')]. Qed.

Lemma commutes_alike {A} v (m : M A) s1 s2 :
  m (seen (hide_tables v) s1) = ((m s1).1, seen (hide_tables v) (m s1).2) ->
  m (seen (hide_tables v) s2) = ((m s2).1, seen (hide_tables v) (m s2).2) ->
  alike v s1 s2 -> (m s1).1 = (m s2).1 /\ alike v (m s1).2 (m s2).2.
Proof. unfold alike. intros E1 E2 E. rewrite E in E1. rewrite E1 in E2.
  split; [exact (f_equal fst E2)|exact (f_equal snd E2)].
Qed.

Lemma commuting_alike {A} v (m : M A) s1 s2 :
  commutes (hide_tables v) keyed keyed m -> keyed (tabs s1) -> keyed (tabs s2) -> alike v s1 s2 ->
  (m s1).1 = (m s2).1 /\ alike v (m s1).2 (m s2).2.
Proof. intros Hm H1 H2. by apply commutes_alike; apply Hm. Qed.

(** C12: a private tag is its owner's alone. Two states that differ only in the private tags of accounts
    other than [v], and what those are on, answer every request of [v] the same - its sends, edits,
    deletions, tags and reports, refusals and failures included, the edited message with its tags, the
    tags it may use, those on a message, the pages of a channel - and leave states that again differ
    only there. And making, deleting, putting on or taking off a private tag by another account
    changes nothing else. *)
Theorem private_tags_unseen `{Collation} (bus : bool) (v : Z) (s1 s2 : St)
    (H1 : whole_inv (tabs s1)) (H2 : whole_inv (tabs s2)) (I1 : tags_issued s1) (I2 : tags_issued s2) :
  alike v s1 s2 ->
  (forall req, (handle_chat bus v req s1).1 = (handle_chat bus v req s2).1 /\
     alike v (handle_chat bus v req s1).2 (handle_chat bus v req s2).2) /\
  (forall actor now input, Actor_UserID actor = v ->
     (Service_UpdateMessage bus actor now input s1).1 = (Service_UpdateMessage bus actor now input s2).1) /\
  (forall g, (Service_ListTags v g s1).1 = (Service_ListTags v g s2).1) /\
  (forall c id, (Service_ForMessage v c id s1).1 = (Service_ForMessage v c id s2).1) /\
  (forall actor input, Actor_UserID actor = v ->
     (Service_ListMessages actor input s1).1 = (Service_ListMessages actor input s2).1) /\
  (forall u req evs t', u <> v -> chat_effect bus u req (tabs s1) t' evs -> about_private (tabs s1) req = true ->
     alike v (with_tabs t' s1) s1).
Proof.
  intros Ha. pose proof (tags_ok_keyed _ (co_tags _ (wi_chat _ H1))) as K1.
  pose proof (tags_ok_keyed _ (co_tags _ (wi_chat _ H2))) as K2. split_and!.
  - intros req. apply commutes_alike; [by apply handle_chat_seen..|done].
  - intros actor now input Hv. apply (commuting_alike v); [|done..]. unfold Service_UpdateMessage.
    apply commutes_bind; [by apply commutes_ids_Next|]. intros hid. by apply commutes_tx, commutes_UpdateMessage_tx.
  - intros g. apply (commuting_alike v); [|done..]. unfold Service_ListTags. apply commutes_bind; [apply commutes_Authorize|].
    intros d. apply commutes_bind; [|intros rows; apply commutes_ret]. apply commutes_reading; [done|].
    intros t Hk. f_equal. by apply (list_tags_hide v (t_chat t) g).
  - intros c id. apply (commuting_alike v); [|done..]. unfold Service_ForMessage, AuthorizeChannelUnlocked.
    apply commutes_bind; [apply commutes_authorizeChannel|]. intros d. apply commutes_bind; [apply commutes_loadMessage|].
    intros _. apply commutes_bind; [apply commutes_tags_for|]. intros rows. apply commutes_ret.
  - intros actor input Hv. apply (commuting_alike v); [|done..]. unfold Service_ListMessages, AuthorizeChannelUnlocked.
    apply commutes_bind; [apply commutes_authorizeChannel|]. intros d.
    apply commutes_bind; [apply commutes_reading; [done|intros t _; reflexivity]|]. intros rows. by apply commutes_attachTags.
  - intros u req evs t' Hne He Hp. unfold alike, seen. cbn.
    by rewrite (private_acts_hidden bus u req (tabs s1) t' evs v (wi_chat _ H1) He Hp Hne).
Qed.

(** ** In the concrete conversation *)

Lemma hide_twice v x : hide v x = hide v (hide v x).
Proof.
  unfold hide, set_tags, set_applied. cbn. f_equal; apply map_eq; intros k; apply option_eq; intros y;
    rewrite !map_lookup_filter_Some; cbn; [tauto|]. split; [|tauto]. intros [Hy Ho]. split; [done|].
  unfold others_own in *. cbn in *. destruct (filter _ (c_tags x) !! k.1) as [tag|] eqn:E; [|done].
  apply map_lookup_filter_Some in E as [_ E]. cbn in E. by rewrite E.
Qed.

(** The view is itself a state of the tables. *)
Lemma hide_whole `{Collation} v t : whole_inv t -> whole_inv (hide_tables v t).
Proof.
  intros [[Hi Hok] [Hm Ht Hr]]. split; [split; [by apply (inv_frame t)|by apply (invites_frame t)]|].
  split; [by apply (messages_ok_frame t)| |by apply (reports_ok_frame t)].
  change (t_chat (hide_tables v t)) with (hide v (t_chat t)). destruct Ht as [Hk Hn Ha Hs Hp].
  split; change (t_chat (hide_tables v t)) with (hide v (t_chat t)).
  - intros id tag [H' _]%hide_tag. eauto.
  - intros id1 id2 t1 t2 [H1 _]%hide_tag [H2 _]%hide_tag. eauto.
  - intros tid mid app [H' Ho]%hide_applied. destruct (Ha _ _ _ H') as (E1 & E2 & tag & m & ch & H0 & Hrest).
    split_and!; [done..|]. exists tag, m, ch. split; [|exact Hrest]. apply hide_tag. split; [done|].
    unfold others_own in Ho. cbn in Ho. rewrite H0 in Ho. by apply negb_false_iff.
  - intros g. etrans; [|apply (Hs g)]. apply count_tags_le. by intros id tag [? _]%hide_tag.
  - intros g u. etrans; [|apply (Hp g u)]. apply count_tags_le. by intros id tag [? _]%hide_tag.
Qed.

#[local] Existing Instance C_lower.

Lemma issued_seen v s : tags_issued s -> tags_issued (seen (hide_tables v) s).
Proof. intros [Hg Hids]. split; [done|]. intros id [tag [Ht _]%hide_tag]. apply Hids. by eexists. Qed.

Lemma alike_seen v s : alike v s (seen (hide_tables v) s).
Proof.
  assert (hide_tables v (hide_tables v (tabs s)) = hide_tables v (tabs s)) as E.
  { unfold hide_tables. rewrite on_chat_twice. unfold on_chat. by rewrite <- hide_twice. }
  unfold alike, seen. cbn [tabs with_tabs]. by rewrite E.
Qed.

(** 103's private tag on its message, seen and unseen: 102 is answered the same as by a server on which
    103 never made it; and so when it makes a tag of that name for itself. *)
Lemma private_tags_unseen_witness :
  let s := talk_state in
  let s' := seen (hide_tables 102) s in
  size (c_tags (t_chat (tabs s))) = 2%nat /\ size (c_tags (t_chat (tabs s'))) = 1%nat /\
  (let names u st := match (Service_ListTags u 1 st).1 with inr l => map Tag_Name l | inl _ => [] end in
   names 103 s = ["mine"; "todo"]%string /\ names 102 s = ["todo"]%string) /\
  (handle_chat true 102 (ChCreateTag 90 (mkCreateTagInput 1 "Mine" false)) s).1 = inr tt /\
  (handle_chat true 103 (ChCreateTag 90 (mkCreateTagInput 1 "Mine" false)) s).1 = inl EConflict /\
  forall g, (Service_ListTags 102 g s).1 = (Service_ListTags 102 g s').1.
Proof.
  intros s s'. do 2 (split; [vm_compute; reflexivity|]). split; [split; vm_compute; reflexivity|].
  do 2 (split; [vm_compute; reflexivity|]).
  assert (tags_issued s) as Hi.
  { assert (issued_check s = true) as Hc by (vm_compute; reflexivity). apply issued_check_sound in Hc as [Hg _].
    split; [exact Hg|]. apply forallb_keys. vm_compute. reflexivity. }
  exact (proj1 (proj2 (proj2 (private_tags_unseen true 102 s s' talk_whole (hide_whole 102 _ talk_whole) Hi
    (issued_seen 102 s Hi) (alike_seen 102 s))))).
Defined.
