(* ===== verification/EventBus.v ===== *)
(** The in-process event bus (backend/internal/platform/events): what carries a committed request's events to
    the gateway. Its critical sections, the deliveries of its goroutines and the pieces of a publication are the
    steps, in any order the lock allows; what the package comment promises is proved of every run. *)
From S2P Require Import Prelude GoStd.

Section bus.
Context {P : Type}.

(** ** The bus *)

Definition subscriptionBuffer : Z := 4096.

Inductive BusErr := ErrClosed.

(** A subscription and its goroutine: [handling] is a call of its handler in progress. The last fields are what
    happened to it: each payload offered, by whom, with how many were waiting; the calls of its handler; and how
    many publications there had been when it was entered in the table and when it was taken out of it, and
    whether by Unsubscribe. *)
Record inprocSub := mkSub {
  sb_topic : string; sb_queue : list P; sb_stop : bool; sb_done : bool; sb_handling : bool; sb_dropped : Z;
  sb_offers : list (nat * P * Z); sb_handled : list P; sb_since : nat; sb_until : option nat; sb_left : bool
}.

(** [publishing] is each goroutine inside Publish, which holds the read lock: its payload and the subscriptions
    still to be offered it. [closing] is what Close has still to halt. [published] is every publication so far. *)
Record InProc := mkBus {
  bu_subs : gmap string (gset nat); bu_closed : bool; bu_all : gmap nat inprocSub;
  bu_publishing : gmap nat (P * list nat); bu_closing : list nat; bu_published : list (nat * string * P)
}.

Definition NewInProc : InProc := mkBus ∅ false ∅ ∅ [] [].

Definition topic_subs (topic : string) (b : InProc) : gset nat := default ∅ (bu_subs b !! topic).

(** ** What happens to a subscription *)

Definition offered (p : nat) (m : P) (s : inprocSub) : inprocSub :=
  let waiting := Z.of_nat (length (sb_queue s)) in
  let sent := waiting <? subscriptionBuffer in
  mkSub (sb_topic s) (if sent then sb_queue s ++ [m] else sb_queue s) (sb_stop s) (sb_done s) (sb_handling s)
    (if sent then sb_dropped s else sb_dropped s + 1) (sb_offers s ++ [(p, m, waiting)]) (sb_handled s)
    (sb_since s) (sb_until s) (sb_left s).

Definition stopped (s : inprocSub) : inprocSub :=
  mkSub (sb_topic s) (sb_queue s) true (sb_done s) (sb_handling s) (sb_dropped s) (sb_offers s) (sb_handled s)
    (sb_since s) (sb_until s) (sb_left s).

(** The two cases of [deliver]'s select, and the end of a handler's call. *)
Definition taken (s : inprocSub) : option inprocSub :=
  match sb_queue s with
  | m :: queue =>
      if sb_done s || sb_handling s then None
      else Some (mkSub (sb_topic s) queue (sb_stop s) (sb_done s) true (sb_dropped s) (sb_offers s) (sb_handled s ++ [m])
                   (sb_since s) (sb_until s) (sb_left s))
  | [] => None
  end.
Definition returned (s : inprocSub) : option inprocSub :=
  if sb_handling s
  then Some (mkSub (sb_topic s) (sb_queue s) (sb_stop s) (sb_done s) false (sb_dropped s) (sb_offers s) (sb_handled s)
               (sb_since s) (sb_until s) (sb_left s))
  else None.
Definition quit (s : inprocSub) : option inprocSub :=
  if sb_stop s && negb (sb_done s) && negb (sb_handling s)
  then Some (mkSub (sb_topic s) (sb_queue s) (sb_stop s) true (sb_handling s) (sb_dropped s) (sb_offers s) (sb_handled s)
               (sb_since s) (sb_until s) (sb_left s))
  else None.

(** Out of the table, by Unsubscribe or by Close. *)
Definition removed (at_ : nat) (left : bool) (s : inprocSub) : inprocSub :=
  match sb_until s with
  | Some _ => s
  | None => mkSub (sb_topic s) (sb_queue s) (sb_stop s) (sb_done s) (sb_handling s) (sb_dropped s) (sb_offers s)
              (sb_handled s) (sb_since s) (Some at_) left
  end.

Definition with_all (all : gmap nat inprocSub) (b : InProc) : InProc :=
  mkBus (bu_subs b) (bu_closed b) all (bu_publishing b) (bu_closing b) (bu_published b).
Definition with_publishing (pub : gmap nat (P * list nat)) (b : InProc) : InProc :=
  mkBus (bu_subs b) (bu_closed b) (bu_all b) pub (bu_closing b) (bu_published b).

(** ** The steps

    A step that the lock or a channel does not allow now is [None]; an error is one the caller gets. The order in
    which a map is ranged over arrives with the step. *)

Inductive BusStep :=
| BPublish (p : nat) (topic : string) (m : P) (order : list nat)
| BOffer (p : nat)
| BPublished (p : nat)
| BSubscribe (s : nat) (topic : string)
| BTake (s : nat)
| BReturn (s : nat)
| BQuit (s : nat)
| BRemove (s : nat)
| BHalt (s : nat)
| BClose (order : list nat)
| BCloseHalt
| BCloseNext.

(** [Publish] up to its loop; the loop is [BOffer]s, and it returns with [BPublished]. *)
Definition Publish (p : nat) (topic : string) (m : P) (order : list nat) (b : InProc) : option (BusErr + InProc) :=
  match bu_publishing b !! p with
  | Some _ => None
  | None =>
      if bu_closed b then Some (inl ErrClosed)
      else if decide (NoDup order /\ list_to_set order = topic_subs topic b) then
        Some (inr (mkBus (bu_subs b) (bu_closed b) (bu_all b) (<[p := (m, order)]> (bu_publishing b)) (bu_closing b)
                     (bu_published b ++ [(p, topic, m)])))
      else None
  end.

Definition offer (p : nat) (b : InProc) : option (BusErr + InProc) :=
  match bu_publishing b !! p with
  | Some (m, s :: rest) =>
      Some (inr (with_publishing (<[p := (m, rest)]> (bu_publishing b)) (with_all (alter (offered p m) s (bu_all b)) b)))
  | _ => None
  end.

(** The write lock: nobody is publishing. *)
Definition locked {A} (b : InProc) (k : option A) : option A := if decide (bu_publishing b = ∅) then k else None.

Definition Subscribe (s : nat) (topic : string) (b : InProc) : option (BusErr + InProc) :=
  locked b
    (if bu_closed b then Some (inl ErrClosed)
     else match bu_all b !! s with
          | Some _ => None
          | None =>
              Some (inr (mkBus (<[topic := {[s]} ∪ topic_subs topic b]> (bu_subs b)) (bu_closed b)
                (<[s := mkSub topic [] false false false 0 [] [] (length (bu_published b)) None false]> (bu_all b))
                (bu_publishing b) (bu_closing b) (bu_published b)))
          end).

(** [Unsubscribe] under the lock; then [halt]: the closing of [stop], and the wait for [done]. *)
Definition Unsubscribe_remove (s : nat) (b : InProc) : option (BusErr + InProc) :=
  locked b
    (match bu_all b !! s with
     | None => None
     | Some sub =>
         let rest := topic_subs (sb_topic sub) b ∖ {[s]} in
         Some (inr (mkBus (if decide (rest = ∅) then delete (sb_topic sub) (bu_subs b) else <[sb_topic sub := rest]> (bu_subs b))
           (bu_closed b) (alter (removed (length (bu_published b)) true) s (bu_all b)) (bu_publishing b) (bu_closing b)
           (bu_published b)))
     end).

Definition halt (s : nat) (b : InProc) : InProc := with_all (alter stopped s (bu_all b)) b.

Definition registered (b : InProc) : gset nat := ⋃ ((map_to_list (bu_subs b)).*2).

Definition InProc_Close (order : list nat) (b : InProc) : option (BusErr + InProc) :=
  locked b
    (if bu_closed b then Some (inr b)
     else if decide (NoDup order /\ list_to_set order = registered b) then
       Some (inr (mkBus ∅ true (removed (length (bu_published b)) false <$> bu_all b) (bu_publishing b) order (bu_published b)))
     else None).

Definition on_sub (s : nat) (f : inprocSub -> option inprocSub) (b : InProc) : option (BusErr + InProc) :=
  sub ← bu_all b !! s; sub' ← f sub; Some (inr (with_all (<[s := sub']> (bu_all b)) b)).

Definition bus_step (st : BusStep) (b : InProc) : option (BusErr + InProc) :=
  match st with
  | BPublish p topic m order => Publish p topic m order b
  | BOffer p => offer p b
  | BPublished p =>
      match bu_publishing b !! p with
      | Some (_, []) => Some (inr (with_publishing (delete p (bu_publishing b)) b))
      | _ => None
      end
  | BSubscribe s topic => Subscribe s topic b
  | BTake s => on_sub s taken b
  | BReturn s => on_sub s returned b
  | BQuit s => on_sub s quit b
  | BRemove s => Unsubscribe_remove s b
  | BHalt s =>
      match bu_all b !! s with
      | Some sub => if bool_decide (is_Some (sb_until sub)) then Some (inr (halt s b)) else None
      | None => None
      end
  | BClose order => InProc_Close order b
  | BCloseHalt => match bu_closing b with s :: _ => Some (inr (halt s b)) | [] => None end
  | BCloseNext =>
      match bu_closing b with
      | s :: rest =>
          match bu_all b !! s with
          | Some sub => if sb_done sub then Some (inr (mkBus (bu_subs b) (bu_closed b) (bu_all b) (bu_publishing b) rest (bu_published b))) else None
          | None => None
          end
      | [] => None
      end
  end.

(** An error leaves the bus as it was; a step that is not allowed is no step. *)
Definition bus_run (sts : list BusStep) (b : InProc) : option InProc :=
  foldl (fun o st => b ← o; r ← bus_step st b; Some (match r with inl _ => b | inr b' => b' end)) (Some b) sts.

(** ** What the package comment promises *)

(** The payloads that were queued, of those offered. *)
Definition accepted (offers : list (nat * P * Z)) : list P :=
  (fun x => x.1.2) <$> filter (fun x => x.2 < subscriptionBuffer) offers.
Definition by_publisher (p : nat) (offers : list (nat * P * Z)) : list P :=
  (fun x => x.1.2) <$> filter (fun x => x.1.1 = p) offers.

(** What [p] published to a topic. *)
Definition said_by (p : nat) (topic : string) (l : list (nat * string * P)) : list P :=
  snd <$> filter (fun x => x.1 = (p, topic)) l.

#[local] Arguments said_by : simpl never.
#[local] Arguments by_publisher : simpl never.
#[local] Arguments accepted : simpl never.

(** What was published from when a subscription was made until it was taken out of the table. *)
Definition while_there (b : InProc) (s : inprocSub) : list (nat * string * P) :=
  take (default (length (bu_published b)) (sb_until s) - sb_since s) (drop (sb_since s) (bu_published b)).

(** What [p] is about to offer it. *)
Definition pending (b : InProc) (p s : nat) : list P :=
  match bu_publishing b !! p with
  | Some (m, order) => if bool_decide (s ∈ order) then [m] else []
  | None => []
  end.

Record sub_ok (b : InProc) (i : nat) (s : inprocSub) : Prop := mkSubOk {
  so_handled : sb_handled s ++ sb_queue s = accepted (sb_offers s);
  so_room : Z.of_nat (length (sb_queue s)) <= subscriptionBuffer;
  so_dropped : sb_dropped s = Z.of_nat (length (sb_offers s)) - Z.of_nat (length (accepted (sb_offers s)));
  so_full : Forall (fun x => x.2 <= subscriptionBuffer) (sb_offers s);
  so_all : forall p, by_publisher p (sb_offers s) ++ pending b p i = said_by p (sb_topic s) (while_there b s);
  so_since : (sb_since s <= length (bu_published b))%nat;
  so_until : forall u, sb_until s = Some u -> (sb_since s <= u <= length (bu_published b))%nat;
  so_done : sb_done s = true -> sb_handling s = false /\ sb_stop s = true;
  so_stop : sb_stop s = true -> is_Some (sb_until s);
  so_gone : bu_closed b = false -> is_Some (sb_until s) -> sb_left s = true;
  so_closed : bu_closed b = true -> is_Some (sb_until s) /\ (sb_left s = true \/ sb_done s = true \/ i ∈ bu_closing b)
}.

Record bus_ok (b : InProc) : Prop := mkBusOk {
  bo_subs : forall i s, bu_all b !! i = Some s -> sub_ok b i s;
  bo_table : forall topic i, i ∈ topic_subs topic b <-> exists s, bu_all b !! i = Some s /\ sb_topic s = topic /\ sb_until s = None;
  bo_publishing : forall p m order, bu_publishing b !! p = Some (m, order) ->
    NoDup order /\ forall i, i ∈ order -> exists s, bu_all b !! i = Some s /\ sb_until s = None;
  bo_closing : bu_closed b = false -> bu_closing b = []
}.

Lemma accepted_snoc l p m n :
  accepted (l ++ [(p, m, n)]) = accepted l ++ (if decide (n < subscriptionBuffer) then [m] else []).
Proof. unfold accepted. rewrite filter_app, fmap_app. f_equal. rewrite filter_cons. cbn. by case_decide. Qed.

Lemma by_publisher_snoc q l p m n :
  by_publisher q (l ++ [(p, m, n)]) = by_publisher q l ++ (if decide (p = q) then [m] else []).
Proof. unfold by_publisher. rewrite filter_app, fmap_app. f_equal. rewrite filter_cons. cbn. by case_decide. Qed.

Lemma said_by_snoc q t l p topic m :
  said_by q t (l ++ [(p, topic, m)]) = said_by q t l ++ (if decide ((p, topic) = (q, t)) then [m] else []).
Proof. unfold said_by. rewrite filter_app, fmap_app. f_equal. rewrite filter_cons. cbn. by case_decide. Qed.

(** A step on a subscription that neither offers it anything nor takes it out of the table. *)
Lemma sub_ok_step b i s s' :
  sub_ok b i s -> sb_handled s' ++ sb_queue s' = sb_handled s ++ sb_queue s ->
  (length (sb_queue s') <= length (sb_queue s))%nat ->
  sb_topic s' = sb_topic s -> sb_dropped s' = sb_dropped s -> sb_offers s' = sb_offers s -> sb_since s' = sb_since s ->
  sb_until s' = sb_until s -> sb_left s' = sb_left s ->
  (sb_done s' = true -> sb_handling s' = false /\ sb_stop s' = true) -> (sb_stop s' = true -> is_Some (sb_until s)) ->
  (sb_done s = true -> sb_done s' = true) -> sub_ok b i s'.
Proof.
  intros [] E1 E2 E3 E4 E5 E6 E7 E8 H1 H2 H3. split; rewrite ?E3, ?E4, ?E5, ?E6, ?E7, ?E8; try done.
  - by rewrite E1.
  - lia.
  - intros p. unfold while_there. rewrite E6, E7. apply so_all0.
  - intros Hc. destruct (so_closed0 Hc) as [? [?|[?|?]]]; auto.
Qed.

Lemma elem_of_registered b i : i ∈ registered b <-> exists topic, i ∈ topic_subs topic b.
Proof.
  unfold registered, topic_subs. rewrite elem_of_union_list. split.
  - intros (X & ([t Y] & -> & Ht%elem_of_map_to_list)%list_elem_of_fmap & Hi). exists t. by rewrite Ht.
  - intros (t & Hi). destruct (bu_subs b !! t) as [X|] eqn:E; [|by apply not_elem_of_empty in Hi].
    exists X. split; [|done]. apply list_elem_of_fmap. exists (t, X). split; [done|]. by apply elem_of_map_to_list.
Qed.

Lemma pending_same b b' p i : bu_publishing b' = bu_publishing b -> pending b' p i = pending b p i.
Proof. intros E. unfold pending. by rewrite E. Qed.

(** A step that changes one subscription and nothing else. *)
Lemma bus_ok_one b i s s' :
  bus_ok b -> bu_all b !! i = Some s -> (sub_ok b i s -> sub_ok b i s') -> sb_topic s' = sb_topic s -> sb_until s' = sb_until s ->
  bus_ok (with_all (<[i := s']> (bu_all b)) b).
Proof.
  intros [B1 B2 B3 B4] Hs Hok Ht Hu. split; cbn.
  - intros j r. destruct (decide (j = i)) as [->|Hne].
    + rewrite lookup_insert_eq. intros [= <-]. destruct (Hok (B1 _ _ Hs)). by split.
    + rewrite lookup_insert_ne by done. intros Hr. destruct (B1 _ _ Hr). by split.
  - intros topic j. change (topic_subs topic (with_all (<[i:=s']> (bu_all b)) b)) with (topic_subs topic b). rewrite B2.
    destruct (decide (j = i)) as [->|Hne]; [rewrite lookup_insert_eq|by rewrite lookup_insert_ne]. rewrite Hs.
    split; intros (r & [= <-] & ? & ?); eexists; (split; [done|]); split; congruence.
  - intros p m order Hp. destruct (B3 _ _ _ Hp) as [Hn Hr]. split; [done|]. intros j Hj. destruct (Hr j Hj) as (r & Hr1 & Hr2).
    destruct (decide (j = i)) as [->|Hne]; [rewrite lookup_insert_eq; exists s'; split; congruence|].
    rewrite lookup_insert_ne by done. by exists r.
  - done.
Qed.

Lemma bus_ok_new : bus_ok NewInProc.
Proof.
  split; cbn.
  - intros i s. by rewrite lookup_empty.
  - intros topic i. unfold topic_subs. cbn. rewrite lookup_empty. split; [by intros ?%not_elem_of_empty|].
    intros (s & Hs & _). by rewrite lookup_empty in Hs.
  - intros p m order. by rewrite lookup_empty.
  - done.
Qed.

(** A publication is one more of its topic's, for the subscriptions it is about to be offered. *)
Lemma bus_ok_publish p topic m order b b' :
  bus_ok b -> Publish p topic m order b = Some (inr b') -> bus_ok b'.
Proof.
  intros [B1 B2 B3 B4]. unfold Publish. destruct (bu_publishing b !! p) eqn:Hp; [done|].
  destruct (bu_closed b) eqn:Hc; [done|]. case_decide as Ho; [|done]. destruct Ho as [Hnd Hset]. intros [= <-].
  assert (forall i, i ∈ order <-> i ∈ topic_subs topic b) as Hin by (intros i; rewrite <- Hset; set_solver).
  split; cbn.
  - intros i s Hs. destruct (B1 i s Hs) as [S1 S2 S3 S4 S5 S6 S7 S8 S9 S10 S11]. split; try done.
    + intros q. unfold while_there. cbn. specialize (S5 q). unfold while_there, pending in *. cbn. rewrite length_app. cbn.
      rewrite drop_app_le by done. destruct (decide (q = p)) as [->|Hq].
      * rewrite lookup_insert_eq. rewrite Hp, app_nil_r in S5. destruct (sb_until s) as [u|] eqn:Hu; cbn in *.
        -- destruct (S7 u eq_refl). rewrite take_app_le by (rewrite length_drop; lia). rewrite bool_decide_eq_false_2; [by rewrite app_nil_r|].
           rewrite Hin, B2. intros (r & Hr & _ & Hr2). congruence.
        -- rewrite take_ge by (rewrite length_app, length_drop; cbn; lia). rewrite take_ge in S5 by (rewrite length_drop; lia).
           rewrite said_by_snoc, S5. f_equal. destruct (decide (sb_topic s = topic)) as [<-|Ht].
           ++ rewrite decide_True by done. rewrite bool_decide_eq_true_2; [done|]. rewrite Hin, B2. by exists s.
           ++ rewrite decide_False by congruence. rewrite bool_decide_eq_false_2; [done|]. rewrite Hin, B2.
              intros (r & Hr & Hr2 & _). congruence.
      * rewrite lookup_insert_ne by done. destruct (sb_until s) as [u|] eqn:Hu; cbn in *.
        -- destruct (S7 u eq_refl). by rewrite take_app_le by (rewrite length_drop; lia).
        -- rewrite take_ge by (rewrite length_app, length_drop; cbn; lia). rewrite take_ge in S5 by (rewrite length_drop; lia).
           rewrite said_by_snoc, S5, decide_False by congruence. by rewrite app_nil_r.
    + cbn. rewrite length_app. lia.
    + intros u Hu. cbn. rewrite length_app. destruct (S7 u Hu). lia.
    + cbn. intros _. by apply S10.
  - intros t i. apply B2.
  - intros q m' order' [[-> [= -> ->]]|[Hq Hq']]%lookup_insert_Some; [|by apply (B3 q m')].
    split; [done|]. intros i Hi. rewrite Hin, B2 in Hi. destruct Hi as (s & ? & _ & ?). by exists s.
  - intros Hc'. apply B4. congruence.
Qed.

Lemma bus_ok_offer p b b' : bus_ok b -> offer p b = Some (inr b') -> bus_ok b'.
Proof.
  intros [B1 B2 B3 B4]. unfold offer. destruct (bu_publishing b !! p) as [[m [|i rest]]|] eqn:Hp; [done| |done]. intros [= <-].
  destruct (B3 _ _ _ Hp) as [[Hni Hnd]%NoDup_cons Hreg]. destruct (Hreg i ltac:(set_solver)) as (s & Hs & Hu).
  unfold with_publishing, with_all. cbn.
  split; cbn.
  - intros j r Hr. destruct (decide (j = i)) as [->|Hji].
    + rewrite lookup_alter_eq, Hs in Hr. injection Hr as <-. destruct (B1 i s Hs) as [S1 S2 S3 S4 S5 S6 S7 S8 S9 S10 S11].
      split; cbn; try done.
      * rewrite accepted_snoc. destruct (Z.ltb_spec (Z.of_nat (length (sb_queue s))) subscriptionBuffer).
        -- rewrite decide_True by done. by rewrite app_assoc, S1.
        -- rewrite decide_False by lia. by rewrite app_nil_r.
      * destruct (Z.ltb_spec (Z.of_nat (length (sb_queue s))) subscriptionBuffer); [|done]. rewrite length_app. cbn. lia.
      * rewrite accepted_snoc, !length_app. destruct (Z.ltb_spec (Z.of_nat (length (sb_queue s))) subscriptionBuffer).
        -- rewrite decide_True by done. cbn. lia.
        -- rewrite decide_False by lia. cbn. lia.
      * apply Forall_app. split; [done|]. by apply Forall_singleton.
      * intros q. change (while_there _ _) with (while_there b s). rewrite <- S5, by_publisher_snoc. unfold pending. cbn.
        destruct (decide (q = p)) as [->|Hq].
        -- rewrite lookup_insert_eq, Hp, decide_True by done. rewrite bool_decide_eq_false_2 by done.
           rewrite bool_decide_eq_true_2 by set_solver. by rewrite app_nil_r.
        -- rewrite lookup_insert_ne by done. rewrite decide_False by done. by rewrite app_nil_r.
    + rewrite lookup_alter_ne in Hr by done. destruct (B1 j r Hr) as [S1 S2 S3 S4 S5 S6 S7 S8 S9 S10 S11]. split; try done.
      intros q. change (while_there _ _) with (while_there b r). rewrite <- S5. f_equal. unfold pending. cbn.
      destruct (decide (q = p)) as [->|Hq]; [|by rewrite lookup_insert_ne]. rewrite lookup_insert_eq, Hp.
      erewrite bool_decide_ext; [done|]. set_solver.
  - intros t j. change (topic_subs t _) with (topic_subs t b). rewrite B2.
    destruct (decide (j = i)) as [->|Hji]; [|by rewrite lookup_alter_ne]. rewrite lookup_alter_eq, Hs. cbn.
    split; intros (r & [= <-] & ? & ?); by eexists.
  - intros q m' order' Hq. assert (exists order0, bu_publishing b !! q = Some (m', order0) /\ NoDup order' /\ order' ⊆ order0) as (o & Ho & Hno & Hsub).
    { apply lookup_insert_Some in Hq as [[-> [= -> ->]]|[_ Hq]].
      - exists (i :: order'). split; [done|]. split; [done|]. set_solver.
      - exists order'. split; [done|]. split; [by apply (B3 q m')|done]. }
    split; [done|]. intros j Hj. destruct (B3 _ _ _ Ho) as [_ Hr]. destruct (Hr j (Hsub j Hj)) as (r & Hr1 & Hr2).
    destruct (decide (j = i)) as [->|Hji]; [rewrite lookup_alter_eq, Hs; by eexists|]. rewrite lookup_alter_ne by done. by exists r.
  - done.
Qed.

Lemma bus_ok_published p m b :
  bus_ok b -> bu_publishing b !! p = Some (m, []) -> bus_ok (with_publishing (delete p (bu_publishing b)) b).
Proof.
  intros [B1 B2 B3 B4] Hp. split; cbn.
  - intros i s Hs. destruct (B1 i s Hs). split; try done. intros q. change (while_there _ _) with (while_there b s).
    rewrite <- so_all0. f_equal. unfold pending. cbn. destruct (decide (q = p)) as [->|Hq]; [|by rewrite lookup_delete_ne].
    rewrite lookup_delete_eq, Hp. by rewrite bool_decide_eq_false_2 by apply not_elem_of_nil.
  - apply B2.
  - intros q m' o [_ Hq]%lookup_delete_Some. by apply (B3 q m').
  - done.
Qed.

(** A step that leaves the subscriptions' payloads alone. *)
Lemma sub_ok_bus b b' i s :
  sub_ok b i s -> bu_publishing b' = bu_publishing b -> bu_published b' = bu_published b ->
  bu_closed b' = bu_closed b -> (i ∈ bu_closing b -> i ∈ bu_closing b' \/ sb_done s = true) -> sub_ok b' i s.
Proof.
  intros [] E1 E2 E3 H. split; rewrite ?E2, ?E3; try done.
  - intros p. unfold while_there, pending. rewrite E1, E2. apply so_all0.
  - intros Hc. destruct (so_closed0 Hc) as [? [?|[?|Hi]]]; [by auto..|]. destruct (H Hi); auto.
Qed.

Lemma locked_some {A} b (k : option A) r : locked b k = Some r -> bu_publishing b = ∅ /\ k = Some r.
Proof. unfold locked. by case_decide. Qed.

Lemma bus_ok_subscribe i topic b b' : bus_ok b -> Subscribe i topic b = Some (inr b') -> bus_ok b'.
Proof.
  intros [B1 B2 B3 B4] [Hp H]%locked_some. destruct (bu_closed b) eqn:Hc; [done|]. destruct (bu_all b !! i) eqn:Hi; [done|].
  injection H as <-. split; cbn.
  - intros j s [[<- <-]|[Hne Hs]]%lookup_insert_Some.
    + split; cbn; try done; try (by intros; lia).
      * intros q. unfold pending, while_there. cbn. rewrite Hp, lookup_empty, Nat.sub_diag. done.
    + apply (sub_ok_bus b); [by apply B1|done..|by left].
  - intros t j. unfold topic_subs at 1. cbn. destruct (decide (j = i)) as [->|Hji].
    + rewrite (lookup_insert_eq (bu_all b)). destruct (decide (t = topic)) as [->|Ht].
      * rewrite lookup_insert_eq. cbn. split; [intros _|set_solver]. by eexists.
      * rewrite lookup_insert_ne by done. change (default ∅ _) with (topic_subs t b). rewrite B2.
        split; [intros (s & Hs & _); congruence|]. intros (s & [= <-] & Hs & _). cbn in Hs. congruence.
    + rewrite (lookup_insert_ne (bu_all b)) by done. rewrite <- B2. destruct (decide (t = topic)) as [->|Ht].
      * rewrite lookup_insert_eq. cbn. set_solver.
      * by rewrite lookup_insert_ne.
  - intros p m o. by rewrite Hp, lookup_empty.
  - by intros _; apply B4.
Qed.

Lemma sub_ok_removed b i s : sub_ok b i s -> sub_ok b i (removed (length (bu_published b)) true s).
Proof.
  intros []. unfold removed. destruct (sb_until s) as [u|] eqn:Hu; [by split; rewrite ?Hu|].
  split; cbn; try done; try (by intros; eauto).
  - intros p. unfold while_there in *. cbn. specialize (so_all0 p). by rewrite Hu in so_all0.
  - by intros u [= <-].
Qed.

Lemma bus_ok_remove i b b' : bus_ok b -> Unsubscribe_remove i b = Some (inr b') -> bus_ok b'.
Proof.
  intros [B1 B2 B3 B4] [Hp H]%locked_some. destruct (bu_all b !! i) as [s|] eqn:Hi; [|done]. injection H as <-. split; cbn.
  - intros j r Hr. apply (sub_ok_bus b); [|done..|by left]. destruct (decide (j = i)) as [->|Hji].
    + rewrite lookup_alter_eq, Hi in Hr. injection Hr as <-. by apply sub_ok_removed, B1.
    + rewrite lookup_alter_ne in Hr by done. by apply B1.
  - intros t j. transitivity (j ∈ topic_subs t b /\ j <> i).
    + unfold topic_subs at 1. cbn. case_decide as Hrest.
      * destruct (decide (t = sb_topic s)) as [->|Ht]; [rewrite lookup_delete_eq; set_solver|].
        rewrite lookup_delete_ne by done. change (default ∅ _) with (topic_subs t b). split; [|by intros []].
        intros Hj. split; [done|]. intros ->. apply B2 in Hj as (r & Hr & <- & _). congruence.
      * destruct (decide (t = sb_topic s)) as [->|Ht]; [rewrite lookup_insert_eq; cbn; set_solver|].
        rewrite lookup_insert_ne by done. change (default ∅ _) with (topic_subs t b). split; [|by intros []].
        intros Hj. split; [done|]. intros ->. apply B2 in Hj as (r & Hr & <- & _). congruence.
    + rewrite B2. destruct (decide (j = i)) as [->|Hji].
      * rewrite lookup_alter_eq, Hi. split; [by intros []|]. intros (r & [= <-] & _ & Hu). unfold removed in Hu.
        by destruct (sb_until s) eqn:E; cbn in Hu; [rewrite E in Hu|].
      * rewrite lookup_alter_ne by done. split; [by intros []|]. by intros ?.
  - intros p m o. by rewrite Hp, lookup_empty.
  - done.
Qed.

Lemma alter_there {A} (f : A -> A) (m : gmap nat A) i x : m !! i = Some x -> alter f i m = <[i := f x]> m.
Proof.
  intros Hx. apply map_eq. intros j. destruct (decide (j = i)) as [->|Hj].
  - by rewrite lookup_alter_eq, lookup_insert_eq, Hx.
  - by rewrite lookup_alter_ne, lookup_insert_ne.
Qed.

Lemma bus_ok_halt i b :
  bus_ok b -> (forall s, bu_all b !! i = Some s -> is_Some (sb_until s)) -> bus_ok (halt i b).
Proof.
  intros Hb Hu. unfold halt. destruct (bu_all b !! i) as [s|] eqn:Hs.
  - rewrite (alter_there _ _ _ _ Hs). apply (bus_ok_one b i s); [done..| |done|done]. intros Hok. apply (sub_ok_step b i s); try done; cbn; [|by auto].
    intros Hd. by destruct (so_done _ _ _ Hok Hd).
  - rewrite alter_id by (intros x; by rewrite Hs). destruct b. done.
Qed.

Lemma bus_ok_close order b b' : bus_ok b -> InProc_Close order b = Some (inr b') -> bus_ok b'.
Proof.
  intros Hb [Hp H]%locked_some. destruct (bu_closed b) eqn:Hc; [by injection H as <-|]. case_decide as Ho; [|done].
  destruct Ho as [Hnd Hset]. injection H as <-. destruct Hb as [B1 B2 B3 B4]. split; cbn.
  - intros i s'. rewrite lookup_fmap. destruct (bu_all b !! i) as [s|] eqn:Hs; [|done]. intros [= <-].
    destruct (B1 i s Hs). unfold removed. destruct (sb_until s) as [u|] eqn:Hu.
    + split; rewrite ?Hu; try done. intros _. split; [by eexists|left; by apply so_gone0].
    + split; cbn; try done; try (by intros; eauto).
      * intros p. specialize (so_all0 p). unfold while_there, pending in *. cbn. by rewrite Hu, Hp in *.
      * by intros u [= <-].
      * intros _. split; [by eexists|]. right; right. assert (i ∈ registered b) as Hi; [|rewrite <- Hset in Hi; set_solver].
        apply elem_of_registered. exists (sb_topic s). apply B2. by exists s.
  - intros t i. unfold topic_subs. cbn. rewrite lookup_empty. split; [by intros ?%not_elem_of_empty|].
    intros (s' & Hs' & _ & Hu). rewrite lookup_fmap in Hs'. destruct (bu_all b !! i) as [s|]; [|done]. injection Hs' as <-.
    unfold removed in Hu. by destruct (sb_until s) eqn:E; cbn in Hu; [rewrite E in Hu|].
  - intros p m o. by rewrite Hp, lookup_empty.
  - done.
Qed.

Lemma bus_ok_close_next i rest b s :
  bus_ok b -> bu_closing b = i :: rest -> bu_all b !! i = Some s -> sb_done s = true ->
  bus_ok (mkBus (bu_subs b) (bu_closed b) (bu_all b) (bu_publishing b) rest (bu_published b)).
Proof.
  intros [B1 B2 B3 B4] Hcl Hs Hd. split; cbn; [|apply B2|apply B3|intros Hc; rewrite (B4 Hc) in Hcl; done]. intros j r Hr.
  apply (sub_ok_bus b); [by apply B1|done..|]. cbn. rewrite Hcl. intros [->|?]%elem_of_cons; [right; congruence|by left].
Qed.

Lemma on_sub_inv i f b r :
  on_sub i f b = Some r -> exists s s', bu_all b !! i = Some s /\ f s = Some s' /\ r = inr (with_all (<[i := s']> (bu_all b)) b).
Proof. intros (s & Hs & (s' & Hs' & [= <-])%bind_Some)%bind_Some. by exists s, s'. Qed.

(** The goroutine's steps keep what was handled and what waits. *)
Lemma own_step_keeps f b i s s' :
  f = taken \/ f = returned \/ f = quit -> f s = Some s' -> sub_ok b i s -> sub_ok b i s'.
Proof.
  intros Hf Hs Hok. pose proof (so_done _ _ _ Hok) as Hd. pose proof (so_stop _ _ _ Hok) as Hst.
  destruct Hf as [-> | [-> | ->]]; [unfold taken in Hs|unfold returned in Hs|unfold quit in Hs].
  - destruct (sb_queue s) as [|m q] eqn:Hq; [done|]. destruct (sb_done s) eqn:Ed; [done|].
    destruct (sb_handling s) eqn:Eh; [done|]. injection Hs as <-. apply (sub_ok_step b i s); cbn; try done; [|rewrite Hq; cbn; lia|congruence].
    rewrite Hq. by rewrite <- app_assoc.
  - destruct (sb_handling s) eqn:Eh; [|done]. injection Hs as <-. apply (sub_ok_step b i s); cbn; try done.
    intros Hx. by destruct (Hd Hx).
  - destruct (sb_stop s) eqn:Es, (sb_done s) eqn:Ed, (sb_handling s) eqn:Eh; try done. injection Hs as <-.
    by apply (sub_ok_step b i s); cbn; auto.
Qed.

Lemma own_step_same f s s' :
  f = taken \/ f = returned \/ f = quit -> f s = Some s' -> sb_topic s' = sb_topic s /\ sb_until s' = sb_until s.
Proof.
  intros [-> | [-> | ->]]; unfold taken, returned, quit; repeat (case_match; [|try done]); intros [= <-] || done; done.
Qed.

Lemma bus_ok_step st b b' : bus_ok b -> bus_step st b = Some (inr b') -> bus_ok b'.
Proof.
  intros Hb. assert (forall i f, f = taken \/ f = returned \/ f = quit -> on_sub i f b = Some (inr b') -> bus_ok b') as Hown.
  { intros i f Hf (s & s' & Hs & Hs' & [= ->])%on_sub_inv. destruct (own_step_same f s s' Hf Hs') as [??].
    apply (bus_ok_one b i s); [done..| |done|done]. by apply (own_step_keeps f). }
  destruct st as [p t m order|p|p|i t|i|i|i|i|i|order| |]; cbn.
  - by apply bus_ok_publish.
  - by apply bus_ok_offer.
  - destruct (bu_publishing b !! p) as [[m [|]]|] eqn:Hp; [|done..]. intros [= <-]. by apply (bus_ok_published p m).
  - by apply bus_ok_subscribe.
  - apply Hown. auto.
  - apply Hown. auto.
  - apply Hown. auto.
  - by apply bus_ok_remove.
  - destruct (bu_all b !! i) as [s|] eqn:Hs; [|done]. case_bool_decide as Hu; [|done]. intros [= <-].
    apply bus_ok_halt; [done|]. intros s' Hs'. by simplify_eq.
  - by apply bus_ok_close.
  - destruct (bu_closing b) as [|i rest] eqn:Hcl; [done|]. intros [= <-]. apply bus_ok_halt; [done|]. intros s Hs. apply (so_closed _ _ _ (bo_subs _ Hb _ _ Hs)).
    destruct (bu_closed b) eqn:Hc; [done|]. rewrite (bo_closing _ Hb Hc) in Hcl. done.
  - destruct (bu_closing b) as [|i rest] eqn:Hcl; [done|]. destruct (bu_all b !! i) as [s|] eqn:Hs; [|done].
    destruct (sb_done s) eqn:Hd; [|done]. intros [= <-]. by apply (bus_ok_close_next i rest b s).
Qed.

Lemma bus_run_app sts sts' b : bus_run (sts ++ sts') b = bus_run sts b ≫= bus_run sts'.
Proof.
  unfold bus_run. rewrite foldl_app. destruct (foldl _ (Some b) sts) as [b'|]; [done|]. cbn.
  induction sts' as [|st sts' IH]; [done|]. exact IH.
Qed.

Lemma bus_run_cons st sts b b' :
  bus_step st b = Some (inr b') -> bus_run (st :: sts) b = bus_run sts b'.
Proof. intros H. change (st :: sts) with ([st] ++ sts). rewrite bus_run_app. unfold bus_run at 1. cbn. by rewrite H. Qed.

(** What every step keeps, a run keeps. *)
Lemma bus_run_ind (Q : InProc -> Prop) sts b b' :
  (forall st c c', Q c -> bus_step st c = Some (inr c') -> Q c') -> Q b -> bus_run sts b = Some b' -> Q b'.
Proof.
  intros Hstep. revert b. induction sts as [|st sts IH]; intros b Hb; [by intros [= <-]|].
  change (st :: sts) with ([st] ++ sts). rewrite bus_run_app. intros (c & Hc & H)%bind_Some. apply (IH c); [|done].
  unfold bus_run in Hc. cbn in Hc. apply bind_Some in Hc as ([|c'] & Hst & [= <-]); [done|]. by apply (Hstep st b).
Qed.

Lemma bus_ok_run sts b : bus_run sts NewInProc = Some b -> bus_ok b.
Proof. apply bus_run_ind; [intros st c c'; apply bus_ok_step|apply bus_ok_new]. Qed.

(** ** A goroutine that has returned *)

Definition silent (i : nat) (said : list P) (b : InProc) : Prop :=
  exists s, bu_all b !! i = Some s /\ sb_done s = true /\ sb_handled s = said.

Lemma silent_alter i said j f b pub :
  silent i said b -> (forall s, sb_done (f s) = sb_done s /\ sb_handled (f s) = sb_handled s) ->
  silent i said (with_publishing pub (with_all (alter f j (bu_all b)) b)).
Proof.
  intros (s & Hs & Hd & Hh) Hf. destruct (Hf s) as [Ed Eh]. destruct (decide (i = j)) as [<-|Hij].
  - exists (f s). cbn. rewrite lookup_alter_eq, Hs. split; [done|]. split; congruence.
  - exists s. cbn. by rewrite lookup_alter_ne.
Qed.

Lemma silent_own i said j f b r :
  f = taken \/ f = returned \/ f = quit -> silent i said b -> on_sub j f b = Some (inr r) -> silent i said r.
Proof.
  intros Hf (s & Hs & Hd & Hh) (t & t' & Ht & Ht' & [= ->])%on_sub_inv. destruct (decide (i = j)) as [<-|Hij].
  - assert (t = s) as -> by congruence. exists t'. cbn. rewrite lookup_insert_eq. split; [done|].
    destruct Hf as [-> | [-> | ->]]; [unfold taken in Ht'|unfold returned in Ht'|unfold quit in Ht']; rewrite Hd in Ht'.
    + by destruct (sb_queue s).
    + destruct (sb_handling s); [|done]. injection Ht' as <-. done.
    + rewrite andb_false_r in Ht'. done.
  - exists s. cbn. by rewrite lookup_insert_ne.
Qed.

Lemma silent_step i said st b b' : silent i said b -> bus_step st b = Some (inr b') -> silent i said b'.
Proof.
  intros Hq. destruct st as [p t m order|p|p|j t|j|j|j|j|j|order| |]; cbn.
  - unfold Publish. repeat (case_match; try done). by intros [= <-].
  - unfold offer. repeat (case_match; try done). intros [= <-]. by apply silent_alter.
  - repeat (case_match; try done). by intros [= <-].
  - intros [_ H]%locked_some. repeat (case_match; try done). injection H as <-. destruct Hq as (s & Hs & ?). exists s. cbn.
    by rewrite lookup_insert_ne by congruence.
  - apply silent_own; auto.
  - apply silent_own; auto.
  - apply silent_own; auto.
  - intros [_ H]%locked_some. destruct (bu_all b !! j); [|done]. injection H as <-.
    destruct (silent_alter i said j (removed (length (bu_published b)) true) b (bu_publishing b) Hq) as (s & Hs); [|by exists s].
    intros s. unfold removed. by case_match.
  - repeat (case_match; try done). intros [= <-]. by apply (silent_alter i said j stopped b (bu_publishing b)).
  - intros [_ H]%locked_some. repeat (case_match; try done); [by injection H as <-|]. injection H as <-.
    destruct Hq as (s & Hs & Hd & Hh). exists (removed (length (bu_published b)) false s). cbn. rewrite lookup_fmap, Hs.
    split; [done|]. unfold removed. by case_match.
  - repeat (case_match; try done). intros [= <-]. by apply (silent_alter i said _ stopped b (bu_publishing b)).
  - repeat (case_match; try done). by intros [= <-].
Qed.

(** ** Nobody waits for a slow handler *)

(** A publisher's own steps take it to the end, whatever the subscriptions are doing. *)
Lemma publish_returns p m order b :
  bu_publishing b !! p = Some (m, order) -> is_Some (bus_run (replicate (length order) (BOffer p) ++ [BPublished p]) b).
Proof.
  revert b. induction order as [|i order IH]; intros b Hp; cbn -[bus_run].
  - eexists. unfold bus_run. cbn. by rewrite Hp.
  - erewrite bus_run_cons by (cbn; unfold offer; by rewrite Hp). apply IH. cbn. by rewrite lookup_insert_eq.
Qed.

(** A goroutine told to stop does, once its handler's call returns. *)
Lemma halt_ends i s b :
  bu_all b !! i = Some s -> sb_stop s = true -> sb_done s = false ->
  exists b' s', bus_run ((if sb_handling s then [BReturn i] else []) ++ [BQuit i]) b = Some b' /\
    bu_all b' !! i = Some s' /\ sb_done s' = true.
Proof.
  intros Hs Hst Hd. destruct (sb_handling s) eqn:Hh; cbn -[bus_run].
  - erewrite bus_run_cons by (cbn; unfold on_sub; rewrite Hs; cbn; unfold returned; by rewrite Hh). eexists _, _. split.
    + unfold bus_run. cbn. unfold on_sub. cbn. rewrite lookup_insert_eq. cbn. unfold quit. cbn. by rewrite Hst, Hd.
    + cbn. by rewrite lookup_insert_eq.
  - eexists _, _. split; [unfold bus_run; cbn; unfold on_sub; rewrite Hs; cbn; unfold quit; by rewrite Hst, Hd, Hh|].
    cbn. by rewrite lookup_insert_eq.
Qed.

End bus.

(** Two subscriptions, two publishers in the middle of each other, an Unsubscribe while a handler runs, then Close. *)
Definition bus_example : list (BusStep (P := nat)) :=
  [BSubscribe 0 "guild"; BSubscribe 1 "guild"; BPublish 7 "guild" 10 [1; 0]; BPublish 8 "guild" 20 [0; 1];
   BOffer 7; BOffer 8; BOffer 7; BOffer 8; BPublished 8; BPublish 8 "other" 30 []; BPublished 8; BTake 0;
   BPublished 7; BRemove 0; BHalt 0; BReturn 0; BQuit 0; BPublish 7 "guild" 40 [1]; BOffer 7; BPublished 7; BTake 1; BReturn 1;
   BClose [1]; BCloseHalt; BQuit 1; BCloseNext; BPublish 9 "guild" 50 []]%nat.

