(* ===== verification/GatewayProto.v ===== *)
(** backend/gatewayproto: the op and close codes, and the version rule both ends apply at the
    handshake (version.go). *)
From S2P Require Import Prelude GoStd.

(** ** Op codes and close codes (gatewayproto.go) *)

Definition OpDispatch : Z := 0.
Definition OpHeartbeat : Z := 1.
Definition OpIdentify : Z := 2.
Definition OpResume : Z := 6.
Definition OpReconnect : Z := 7.
Definition OpInvalidSess : Z := 9.
Definition OpHello : Z := 10.
Definition OpHeartbeatAck : Z := 11.

Definition CloseUnknownError : Z := 4000.
Definition CloseUnknownOpcode : Z := 4001.
Definition CloseDecodeError : Z := 4002.
Definition CloseNotAuthenticated : Z := 4003.
Definition CloseAuthenticationFailed : Z := 4004.
Definition CloseAlreadyAuthenticated : Z := 4005.
Definition CloseInvalidSeq : Z := 4007.
Definition CloseRateLimited : Z := 4008.
Definition CloseSessionTimedOut : Z := 4009.
Definition CloseVersionMismatch : Z := 4010.
Definition CloseSessionRevoked : Z := 4011.
Definition CloseTooSlow : Z := 4012.
Definition CloseInvalidIntents : Z := 4013.

(** ** Versions (version.go) *)

Definition DevVersion : string := "dev".
Definition MinorWindow : Z := 2.

Record Version := mkVersion { Major : Z; Minor : Z; Patch : Z; Pre : string }.

#[export] Instance Version_eq_dec : EqDecision Version.
Proof. solve_decision. Defined.

Definition is_digit (c : ascii) : bool :=
  let n := N_of_ascii c in (48 <=? n)%N && (n <=? 57)%N.
Definition is_alpha (c : ascii) : bool :=
  let n := N_of_ascii c in
  ((65 <=? n)%N && (n <=? 90)%N) || ((97 <=? n)%N && (n <=? 122)%N) || (n =? 45)%N.
Definition is_ident (c : ascii) : bool := is_digit c || is_alpha c.

Definition all_chars (f : ascii -> bool) (s : string) : bool :=
  forallb f (String.list_ascii_of_string s).

(** strings.Split(s, sep), for a one-byte separator. *)
Fixpoint split_on (sep : ascii) (s : string) : list string :=
  match s with
  | EmptyString => [EmptyString]
  | String c s =>
      if (c =? sep)%char then EmptyString :: split_on sep s
      else match split_on sep s with
           | part :: parts => String c part :: parts
           | [] => [String c EmptyString]
           end
  end.

(** The text before the first [sep], and what follows it when there is one. *)
Fixpoint cut (sep : ascii) (s : string) : string * option string :=
  match s with
  | EmptyString => (EmptyString, None)
  | String c s =>
      if (c =? sep)%char then (EmptyString, Some s)
      else let '(before, after) := cut sep s in (String c before, after)
  end.

(** [0|[1-9]\d*] *)
Definition is_numeric (s : string) : bool :=
  match s with
  | EmptyString => false
  | String c EmptyString => is_digit c
  | String c _ => all_chars is_digit s && negb (c =? "0")%char
  end.

(** A pre-release identifier: a number without leading zero, or a word of the alphabet that is
    not all digits. A build identifier is any word of it. *)
Definition is_pre_identifier (s : string) : bool :=
  is_numeric s || (all_chars is_ident s && negb (all_chars is_digit s)).
Definition is_build_identifier (s : string) : bool :=
  all_chars is_ident s && negb (s =? "")%string.

(** The optional leading v. *)
Definition trim_v (s : string) : string := match s with String "v"%char s' => s' | _ => s end.

(** semverPattern: the text splits at its first plus, then at its first hyphen, since the core holds
    neither and the pre-release no plus. *)
Definition semver_match (s : string) : option (string * string * string * string) :=
  let '(release, build) := cut "+"%char (trim_v s) in
  let '(core, pre) := cut "-"%char release in
  let pre_ok :=
    match pre with None => true | Some p => forallb is_pre_identifier (split_on "."%char p) end in
  let build_ok :=
    match build with None => true | Some b => forallb is_build_identifier (split_on "."%char b) end in
  match split_on "."%char core with
  | [major; minor; patch] =>
      if is_numeric major && is_numeric minor && is_numeric patch && pre_ok && build_ok
      then Some (major, minor, patch, default ""%string pre) else None
  | _ => None
  end.

Definition ParseVersion (s : string) : option Version :=
  '(major, minor, patch, pre) ← semver_match s;
  major ← ParseUint major;
  minor ← ParseUint minor;
  patch ← ParseUint patch;
  Some (mkVersion major minor patch pre).

Definition Version_String (v : Version) : string :=
  (FormatUint (Major v) ++ "." ++ FormatUint (Minor v) ++ "." ++ FormatUint (Patch v)
   ++ if (Pre v =? "")%string then "" else "-" ++ Pre v)%string.

(** strings.EqualFold with an ASCII word: letters match whatever their case. *)
Definition fold_case (c : ascii) : ascii :=
  let n := N_of_ascii c in
  if ((65 <=? n)%N && (n <=? 90)%N) then ascii_of_N (n + 32) else c.
Definition isDev (s : string) : bool :=
  bool_decide (fold_case <$> String.list_ascii_of_string s = String.list_ascii_of_string DevVersion).

Inductive Reason := NoReason | ServerUnreadable | ClientUnreadable | PreReleaseDiffers | MajorDiffers
  | MinorDiffers | ClientNewer | ClientTooOld.

(** The reason's text is for people; which one it is, is kept. *)
Record Compatibility := mkCompatibility { Compatible : bool; Checked : bool; Compat_Reason : Reason }.

(** Named Check in the source. The subtraction of the minor versions is the unsigned one, after the
    case that the client's is larger. *)
Definition Check_versions (server client : string) : Compatibility :=
  if isDev server || isDev client then mkCompatibility true false NoReason
  else
    match ParseVersion server with
    | None => mkCompatibility false true ServerUnreadable
    | Some sv =>
        match ParseVersion client with
        | None => mkCompatibility false true ClientUnreadable
        | Some cv =>
            if negb (Pre sv =? "")%string || negb (Pre cv =? "")%string then
              if bool_decide (sv = cv) then mkCompatibility true true NoReason
              else mkCompatibility false true PreReleaseDiffers
            else if negb (Major sv =? Major cv) then mkCompatibility false true MajorDiffers
            else if Major sv =? 0 then
              if negb (Minor sv =? Minor cv) then mkCompatibility false true MinorDiffers
              else mkCompatibility true true NoReason
            else if Minor sv <? Minor cv then mkCompatibility false true ClientNewer
            else if MinorWindow <? (Minor sv - Minor cv) mod 2 ^ 64
            then mkCompatibility false true ClientTooOld
            else mkCompatibility true true NoReason
        end
    end.

(** ** The order of versions *)

(** strings.Compare: by bytes. *)
Fixpoint string_compare (a b : string) : Z :=
  match a, b with
  | EmptyString, EmptyString => 0
  | EmptyString, String _ _ => -1
  | String _ _, EmptyString => 1
  | String x a, String y b =>
      if (N_of_ascii x <? N_of_ascii y)%N then -1
      else if (N_of_ascii y <? N_of_ascii x)%N then 1
      else string_compare a b
  end.

Definition preNumber (s : string) : string * bool :=
  if all_chars is_digit s then (s, negb (s =? "")%string) else (""%string, false).

Definition len (s : string) : Z := Z.of_nat (String.length s).

Definition comparePreIdentifier (a b : string) : Z :=
  let '(na, aIsNumber) := preNumber a in
  let '(nb, bIsNumber) := preNumber b in
  if aIsNumber && bIsNumber then
    if negb (len na =? len nb) then len na - len nb else string_compare na nb
  else if aIsNumber then -1
  else if bIsNumber then 1
  else string_compare a b.

(** The loop over the identifiers, then the difference of their numbers. *)
Fixpoint comparePre (a b : list string) : Z :=
  match a, b with
  | x :: a, y :: b =>
      let c := comparePreIdentifier x y in if negb (c =? 0) then c else comparePre a b
  | _, _ => Z.of_nat (length a) - Z.of_nat (length b)
  end.

Fixpoint comparePairs (pairs : list (Z * Z)) : Z :=
  match pairs with
  | [] => 0
  | (v, w) :: pairs => if negb (v =? w) then (if v <? w then -1 else 1) else comparePairs pairs
  end.

Definition Version_Compare (v w : Version) : Z :=
  let c := comparePairs [(Major v, Major w); (Minor v, Minor w); (Patch v, Patch w)] in
  if negb (c =? 0) then c
  else if (Pre v =? Pre w)%string then 0
  else if (Pre v =? "")%string then 1
  else if (Pre w =? "")%string then -1
  else comparePre (split_on "."%char (Pre v)) (split_on "."%char (Pre w)).
