(* ===== verification/GatewaySession.v ===== *)
(** backend/internal/gateway/session.go and index.go: an account's event stream, which outlives
    any one connection to it, and the index that finds the streams an event could be for.

    Everything a session does under its lock is one function on [Sec], what such a critical section
    reads and writes: the session, the index, the timers, and the frames and goroutines it hands
    out. The gateway's lock order takes the index's lock last and inside the session's, so a whole
    section is one step of the system. *)
From S2P Require Import Prelude GoStd Permissions Snowflake Rows GatewayProto.

(** ** Pointers *)

(** A *session, a *conn and a *time.Timer are numbers, in the order they were made. *)
Abbreviation SRef := Z (only parsing).
Abbreviation CRef := Z (only parsing).

(** ** The index (index.go) *)

Record sessionIndex := mkIndex {
  byUser : gmap Z (gset SRef); byGuild : gmap Z (gset SRef); unready : gset SRef
}.

Definition addTo (m : gmap Z (gset SRef)) (key : Z) (s : SRef) : gmap Z (gset SRef) :=
  <[key := {[s]} ∪ default ∅ (m !! key)]> m.

Definition removeFrom (m : gmap Z (gset SRef)) (key : Z) (s : SRef) : gmap Z (gset SRef) :=
  let set := default ∅ (m !! key) ∖ {[s]} in
  if decide (set = ∅) then delete key m else <[key := set]> m.

(** [for g := range guilds]: in some order of the set. *)
Definition addToAll (m : gmap Z (gset SRef)) (keys : gset Z) (s : SRef) : gmap Z (gset SRef) :=
  foldr (fun g m => addTo m g s) m (elements keys).
Definition removeFromAll (m : gmap Z (gset SRef)) (keys : gset Z) (s : SRef) : gmap Z (gset SRef) :=
  foldr (fun g m => removeFrom m g s) m (elements keys).

Definition sessionIndex_register (s : SRef) (userID : Z) (x : sessionIndex) : sessionIndex :=
  mkIndex (addTo (byUser x) userID s) (byGuild x) ({[s]} ∪ unready x).
Definition sessionIndex_ready (s : SRef) (guilds : gset Z) (x : sessionIndex) : sessionIndex :=
  mkIndex (byUser x) (addToAll (byGuild x) guilds s) (unready x ∖ {[s]}).
Definition sessionIndex_joined (s : SRef) (guildID : Z) (x : sessionIndex) : sessionIndex :=
  mkIndex (byUser x) (addTo (byGuild x) guildID s) (unready x).
Definition sessionIndex_left (s : SRef) (guildID : Z) (x : sessionIndex) : sessionIndex :=
  mkIndex (byUser x) (removeFrom (byGuild x) guildID s) (unready x).
Definition sessionIndex_remove (s : SRef) (userID : Z) (guilds : gset Z) (x : sessionIndex) : sessionIndex :=
  mkIndex (removeFrom (byUser x) userID s) (removeFromAll (byGuild x) guilds s) (unready x ∖ {[s]}).

Definition sessionIndex_ofUser (userID : Z) (x : sessionIndex) : list SRef :=
  elements (default ∅ (byUser x !! userID)).

(** [seen] skips an account already listed. *)
Fixpoint ofUsers_from (users : list Z) (seen : gset Z) (x : sessionIndex) : list SRef :=
  match users with
  | [] => []
  | u :: users =>
      if decide (u ∈ seen) then ofUsers_from users seen x
      else sessionIndex_ofUser u x ++ ofUsers_from users ({[u]} ∪ seen) x
  end.
Definition sessionIndex_ofUsers (users : list Z) (x : sessionIndex) : list SRef :=
  ofUsers_from users ∅ x.

Definition sessionIndex_ofGuild (guildID : Z) (x : sessionIndex) : list SRef :=
  elements (default ∅ (byGuild x !! guildID)) ++ elements (unready x).

(** ** Frames *)

(** What waits for a socket: a dispatch the session numbered, or a control frame of some op. *)
Inductive OutFrame := OutDispatch (seq : Z) (frame : string) | OutControl (op : Z).

(** gatewayproto.Frame around an encoded payload; the type encoded as a JSON string. *)
Definition appendDispatchFrame (seq : Z) (event d : string) : string :=
  ("{" ++ quoted "op" ++ ":" ++ FormatInt OpDispatch ++ "," ++ quoted "d" ++ ":" ++ d ++ ","
   ++ quoted "s" ++ ":" ++ FormatInt seq ++ "," ++ quoted "t" ++ ":" ++ MarshalString event ++ "}")%string.

(** ** A session *)

Record session := mkSession {
  s_id : string; s_userID : Z; s_deviceID : string; s_signIn : Z; s_since : Z; s_seq : Z;
  s_guilds : gset Z; s_ready : bool; s_pending : list (Event string); s_ended : bool;
  s_buf : list (Z * string); s_bufBytes : Z; s_conn : option CRef; s_expiry : option Z
}.

Definition set_stream (seq : Z) (buf : list (Z * string)) (bytes : Z) (s : session) : session :=
  mkSession (s_id s) (s_userID s) (s_deviceID s) (s_signIn s) (s_since s) seq (s_guilds s)
    (s_ready s) (s_pending s) (s_ended s) buf bytes (s_conn s) (s_expiry s).
Definition set_guild_set (gs : gset Z) (s : session) : session :=
  mkSession (s_id s) (s_userID s) (s_deviceID s) (s_signIn s) (s_since s) (s_seq s) gs
    (s_ready s) (s_pending s) (s_ended s) (s_buf s) (s_bufBytes s) (s_conn s) (s_expiry s).
Definition set_ready (pending : list (Event string)) (b : bool) (s : session) : session :=
  mkSession (s_id s) (s_userID s) (s_deviceID s) (s_signIn s) (s_since s) (s_seq s)
    (s_guilds s) b pending (s_ended s) (s_buf s) (s_bufBytes s) (s_conn s) (s_expiry s).
Definition set_conn (c : option CRef) (s : session) : session :=
  mkSession (s_id s) (s_userID s) (s_deviceID s) (s_signIn s) (s_since s) (s_seq s)
    (s_guilds s) (s_ready s) (s_pending s) (s_ended s) (s_buf s) (s_bufBytes s) c (s_expiry
    s).
Definition set_expiry (t : option Z) (s : session) : session :=
  mkSession (s_id s) (s_userID s) (s_deviceID s) (s_signIn s) (s_since s) (s_seq s)
    (s_guilds s) (s_ready s) (s_pending s) (s_ended s) (s_buf s) (s_bufBytes s) (s_conn s) t.
Definition set_sign_in (signIn since : Z) (s : session) : session :=
  mkSession (s_id s) (s_userID s) (s_deviceID s) signIn since (s_seq s) (s_guilds s)
    (s_ready s) (s_pending s) (s_ended s) (s_buf s) (s_bufBytes s) (s_conn s) (s_expiry s).
Definition set_ended  (s : session) : session :=
  mkSession (s_id s) (s_userID s) (s_deviceID s) (s_signIn s) (s_since s) (s_seq s)
    (s_guilds s) (s_ready s) [] true [] (s_bufBytes s) (s_conn s) (s_expiry s).

(** ** A critical section *)

(** A frame the session numbered, with the event it carries; READY and RESUMED carry none. The code
    keeps no such record: it is what the theorems speak of. *)
Record Entry := mkEntry { en_seq : Z; en_frame : string; en_event : option (Event string) }.

(** What a section sees and does. [x_timers] are the timers that are running, each with the session
    it would expire, [x_timer] the next one's number; [x_sent] the frames queued on connections,
    [x_closing] the goroutines [go c.closeWith(code)] started, [x_log] what was numbered. *)
Record Sec := mkSec {
  x_s : session; x_idx : sessionIndex; x_timers : gmap Z SRef; x_timer : Z;
  x_sent : list (CRef * OutFrame); x_closing : list (CRef * Z); x_log : list Entry
}.

Definition on_s (f : session -> session) (x : Sec) : Sec :=
  mkSec (f (x_s x)) (x_idx x) (x_timers x) (x_timer x) (x_sent x) (x_closing x) (x_log x).
Definition on_idx (f : sessionIndex -> sessionIndex) (x : Sec) : Sec :=
  mkSec (x_s x) (f (x_idx x)) (x_timers x) (x_timer x) (x_sent x) (x_closing x) (x_log x).
Definition on_timers (f : gmap Z SRef -> gmap Z SRef) (x : Sec) : Sec :=
  mkSec (x_s x) (x_idx x) (f (x_timers x)) (x_timer x) (x_sent x) (x_closing x) (x_log x).
Definition on_sent (f : list (CRef * OutFrame) -> list (CRef * OutFrame)) (x : Sec) : Sec :=
  mkSec (x_s x) (x_idx x) (x_timers x) (x_timer x) (f (x_sent x)) (x_closing x) (x_log x).
Definition on_closing (f : list (CRef * Z) -> list (CRef * Z)) (x : Sec) : Sec :=
  mkSec (x_s x) (x_idx x) (x_timers x) (x_timer x) (x_sent x) (f (x_closing x)) (x_log x).
Definition on_log (f : list Entry -> list Entry) (x : Sec) : Sec :=
  mkSec (x_s x) (x_idx x) (x_timers x) (x_timer x) (x_sent x) (x_closing x) (f (x_log x)).

Definition maxResumeBytes : Z := 2 ^ 20.

Section operations.
(** [opts.ResumeBuffer], and the session's own pointer. *)
Context (ResumeBuffer : Z) (self : SRef).

(** [if s.conn != nil { s.conn.enqueueFrame(frame) }] *)
Definition send_attached (f : OutFrame) (x : Sec) : Sec :=
  match s_conn (x_s x) with
  | Some c => on_sent (fun l => l ++ [(c, f)]) x
  | None => x
  end.

(** The loop that bounds the buffer, oldest first. It would index an empty buffer only if the bytes
    counted exceeded those of no frame. *)
Fixpoint trim (buf : list (Z * string)) (bytes : Z) : list (Z * string) * Z :=
  match buf with
  | [] => ([], bytes)
  | b :: rest =>
      if (ResumeBuffer <? Z.of_nat (length buf)) || (maxResumeBytes <? bytes)
      then trim rest (bytes - Z.of_nat (String.length b.2))
      else (buf, bytes)
  end.

(** [payload] is [None] when it could not be encoded. *)
Definition dispatchLocked (event : string) (ev : option (Event string)) (payload : option string)
    (x : Sec) : Sec :=
  match payload with
  | None => x
  | Some d =>
      let s := x_s x in
      let seq := s_seq s + 1 in
      let frame := appendDispatchFrame seq event d in
      let '(buf, bytes) :=
        trim (s_buf s ++ [(seq, frame)]) (s_bufBytes s + Z.of_nat (String.length frame)) in
      send_attached (OutDispatch seq frame)
        (on_log (fun l => l ++ [mkEntry seq frame ev]) (on_s (set_stream seq buf bytes) x))
  end.

Definition applyLocked (ev : Event string) (x : Sec) : Sec :=
  let g := Event_GuildID ev in
  if bool_decide (Event_Audience ev = AudFormerMembers) && negb (bool_decide (g ∈ s_guilds (x_s x)))
  then x
  else
    let x :=
      if (Event_Type ev =? "GUILD_CREATE")%string
      then on_idx (sessionIndex_joined self g) (on_s (set_guild_set ({[g]} ∪ s_guilds (x_s x))) x)
      else if (Event_Type ev =? "GUILD_DELETE")%string
      then on_idx (sessionIndex_left self g) (on_s (set_guild_set (s_guilds (x_s x) ∖ {[g]})) x)
      else x in
    dispatchLocked (Event_Type ev) (Some ev) (Some (Event_Data ev)) x.

Definition deliver (ev : Event string) (x : Sec) : Sec :=
  let s := x_s x in
  if s_ended s then x
  else if negb (s_ready s) then on_s (set_ready (s_pending s ++ [ev]) false) x
  else applyLocked ev x.

Definition becomeReady (payload : option string) (guilds : gset Z) (x : Sec) : Sec :=
  if s_ended (x_s x) then x
  else
    let x := on_idx (sessionIndex_ready self guilds) (on_s (set_guild_set guilds) x) in
    let x := dispatchLocked "READY" None payload x in
    let pending := s_pending (x_s x) in
    let x := on_s (set_ready pending true) x in
    on_s (set_ready [] true) (foldl (fun x ev => applyLocked ev x) x pending).

(** [if s.expiry != nil { s.expiry.Stop(); s.expiry = nil }]: a timer that has fired already is not
    running any more, and stopping it changes nothing. *)
Definition stop_expiry (x : Sec) : Sec :=
  match s_expiry (x_s x) with
  | Some t => on_s (set_expiry None) (on_timers (delete t) x)
  | None => x
  end.

Inductive resumeResult := resumed | resumeInvalidSeq | resumeGap | resumeEnded.

(** [oldest := s.seq + 1; if len(s.buf) > 0 { oldest = s.buf[0].seq }] *)
Definition oldest (s : session) : Z :=
  match s_buf s with
  | b :: _ => b.1
  | [] => s_seq s + 1
  end.

(** The buffered frames a client at [afterSeq] has not had. *)
Definition replay (afterSeq : Z) (buf : list (Z * string)) : list OutFrame :=
  (fun b => OutDispatch b.1 b.2) <$> filter (fun b => afterSeq < b.1) buf.

Definition resume (c : CRef) (signIn since afterSeq : Z) (x : Sec) : resumeResult * Sec :=
  let s := x_s x in
  if s_ended s then (resumeEnded, x)
  else if s_seq s <? afterSeq then (resumeInvalidSeq, x)
  else if afterSeq <? oldest s - 1 then (resumeGap, x)
  else
    let x := stop_expiry x in
    let x :=
      match s_conn s with
      | Some old => if old =? c then x else on_closing (fun l => l ++ [(old, CloseSessionTimedOut)]) x
      | None => x
      end in
    let x := on_s (fun s => set_sign_in signIn since (set_conn (Some c) s)) x in
    let x := foldl (fun x f => send_attached f x) x (replay afterSeq (s_buf s)) in
    (resumed, dispatchLocked "RESUMED" None (Some "{}") x).

Definition attach (c : CRef) (x : Sec) : Sec := on_s (set_conn (Some c)) x.

Definition detach (c : CRef) (x : Sec) : Sec :=
  if negb (bool_decide (s_conn (x_s x) = Some c)) then x
  else
    let x := on_s (set_conn None) x in
    if s_ended (x_s x) then x
    else
      let t := x_timer x in
      mkSec (set_expiry (Some t) (x_s x)) (x_idx x) (<[t := self]> (x_timers x)) (t + 1)
        (x_sent x) (x_closing x) (x_log x).

Definition revokedBy (r : Revocation) (s : session) : bool :=
  Revocation_Matches r (s_userID s) (s_signIn s) (s_deviceID s).

(** The unbinding half; the connection it returns is the session's own before. *)
Definition takeConn (x : Sec) : Sec := on_s (set_conn None) x.

Definition stop (x : Sec) : Sec :=
  let x := stop_expiry x in
  let s := x_s x in
  let x := if s_ended s then x
           else on_idx (sessionIndex_remove self (s_userID s) (s_guilds s)) x in
  on_s set_ended x.

End operations.
