(* ===== verification/GatewayStream.v ===== *)
(** What a session's critical sections do to its stream (the numbering, the replay buffer, the frames handed
    to the attached connection) and to the index, which says of a session exactly what the session says of
    itself. *)
From S2P Require Import Prelude GoStd Permissions Snowflake Rows GatewayProto GatewaySession.

(** ** The numbering and the buffer *)

Definition pair_of (e : Entry) : Z * string := (en_seq e, en_frame e).
Definition frame_of (e : Entry) : OutFrame := OutDispatch (en_seq e) (en_frame e).

(** Frames numbered from [n + 1] on without a gap. *)
Fixpoint numbered (n : Z) (es : list Entry) : Prop :=
  match es with
  | [] => True
  | e :: es => en_seq e = n + 1 /\ numbered (n + 1) es
  end.

Definition frame_bytes (buf : list (Z * string)) : Z :=
  foldr (fun b n => Z.of_nat (String.length b.2) + n) 0 buf.

(** A session against everything it ever numbered: the last number is their count, the buffer holds
    the latest of them, within both bounds. *)
Record stream_ok (ResumeBuffer : Z) (s : session) (log : list Entry) : Prop := {
  so_numbered : numbered 0 log;
  so_seq : s_seq s = Z.of_nat (length log);
  so_buf : s_ended s = false -> exists older kept, log = older ++ kept /\ s_buf s = pair_of <$> kept;
  so_bytes : s_ended s = false -> s_bufBytes s = frame_bytes (s_buf s);
  so_bounded : s_ended s = false ->
    Z.of_nat (length (s_buf s)) <= ResumeBuffer /\ s_bufBytes s <= maxResumeBytes
}.

Lemma numbered_app n es es' :
  numbered n (es ++ es') <-> numbered n es /\ numbered (n + Z.of_nat (length es)) es'.
Proof.
  revert n. induction es as [|e es IH]; intros n; cbn [numbered length app].
  { rewrite Z.add_0_r. tauto. }
  rewrite IH. replace (n + 1 + Z.of_nat (length es)) with (n + Z.of_nat (S (length es))) by lia.
  tauto.
Qed.

Lemma numbered_lookup n es i e : numbered n es -> es !! i = Some e -> en_seq e = n + 1 + Z.of_nat i.
Proof.
  revert n i. induction es as [|e' es IH]; intros n [|i]; [done..| |]; cbn [numbered].
  - intros [He _] [= <-]. lia.
  - intros [_ Hn] Hi. rewrite (IH _ _ Hn Hi). lia.
Qed.

Lemma frame_bytes_app buf buf' : frame_bytes (buf ++ buf') = frame_bytes buf + frame_bytes buf'.
Proof.
  unfold frame_bytes. induction buf as [|b buf IH]; [done|]. cbn [app foldr]. rewrite IH. lia.
Qed.

Lemma trim_spec limit buf bytes :
  bytes = frame_bytes buf -> 0 <= limit ->
  exists older, buf = older ++ (trim limit buf bytes).1 /\
    (trim limit buf bytes).2 = frame_bytes (trim limit buf bytes).1 /\
    Z.of_nat (length (trim limit buf bytes).1) <= limit /\ (trim limit buf bytes).2 <= maxResumeBytes.
Proof.
  intros -> Hl. induction buf as [|b buf IH].
  { exists []. repeat split; done || (cbn; lia). }
  cbn [trim]. destruct (_ || _) eqn:E.
  - replace (frame_bytes (b :: buf) - Z.of_nat (String.length b.2)) with (frame_bytes buf)
      by (cbn [frame_bytes foldr]; unfold frame_bytes; lia).
    destruct IH as (older & Hb & Hrest). exists (b :: older). split; [by rewrite Hb at 1|done].
  - bool_hyps. exists []. by repeat split.
Qed.

(** ** A section's effect on the stream *)

(** What the section added, on top of [log], leaves the stream in order. *)
Definition sec_ok (limit : Z) (log : list Entry) (x : Sec) : Prop :=
  stream_ok limit (x_s x) (log ++ x_log x).

Section sections.
Context (limit : Z) (Hlimit : 0 <= limit) (self : Z) (log : list Entry).

Lemma stream_ok_dispatch s es frame ev :
  stream_ok limit s es -> s_ended s = false ->
  let seq := s_seq s + 1 in
  let kept := trim limit (s_buf s ++ [(seq, frame)]) (s_bufBytes s + Z.of_nat (String.length frame)) in
  stream_ok limit (set_stream seq kept.1 kept.2 s) (es ++ [mkEntry seq frame ev]).
Proof.
  intros [Hn Hs Hb Hy Hbd] Hend seq kept.
  destruct (Hb Hend) as (older & es' & -> & Hbuf).
  destruct (trim_spec limit (s_buf s ++ [(seq, frame)])
              (s_bufBytes s + Z.of_nat (String.length frame))) as (cut & Hcut & Hbytes & Hlen & Hmax);
    [rewrite frame_bytes_app, Hy by done; simpl; lia|done|].
  fold kept in Hcut, Hbytes, Hlen, Hmax.
  split; cbn [set_stream s_seq s_ended s_buf s_bufBytes]; try done.
  - apply numbered_app. split; [done|]. cbn. split; [unfold seq; rewrite Hs; lia|done].
  - rewrite length_app. cbn. unfold seq. rewrite Hs. lia.
  - intros _. rewrite Hbuf in Hcut.
    change [(seq, frame)] with (pair_of <$> [mkEntry seq frame ev]) in Hcut.
    rewrite <- fmap_app in Hcut.
    pose proof (f_equal length Hcut) as Hl. rewrite length_app, length_fmap in Hl.
    exists (older ++ take (length cut) (es' ++ [mkEntry seq frame ev])),
      (drop (length cut) (es' ++ [mkEntry seq frame ev])).
    split; [by rewrite <- !app_assoc, take_drop|].
    rewrite fmap_drop, Hcut, drop_app_length. done.
Qed.

(** Changes that leave the stream's fields alone. *)
Definition same_stream (s s' : session) : Prop :=
  s_seq s' = s_seq s /\ s_buf s' = s_buf s /\ s_bufBytes s' = s_bufBytes s /\ s_ended s' = s_ended s.

Lemma stream_ok_same s s' es : same_stream s s' -> stream_ok limit s es -> stream_ok limit s' es.
Proof. intros (H1 & H2 & H3 & H4) []. split; rewrite ?H1, ?H2, ?H3, ?H4; done. Qed.

Lemma sec_ok_same x x' :
  sec_ok limit log x -> same_stream (x_s x) (x_s x') -> x_log x' = x_log x -> sec_ok limit log x'.
Proof. unfold sec_ok. intros Hok Hs ->. by eapply stream_ok_same. Qed.

Lemma x_s_send f x : x_s (send_attached f x) = x_s x.
Proof. unfold send_attached. by destruct (s_conn (x_s x)). Qed.
Lemma x_log_send f x : x_log (send_attached f x) = x_log x.
Proof. unfold send_attached. by destruct (s_conn (x_s x)). Qed.

Lemma sec_ok_dispatch ty ev payload x :
  sec_ok limit log x -> s_ended (x_s x) = false -> sec_ok limit log (dispatchLocked limit ty ev payload x).
Proof.
  intros Hok Hend. unfold dispatchLocked. destruct payload as [d|]; [|done].
  pose proof (stream_ok_dispatch _ _ (appendDispatchFrame (s_seq (x_s x) + 1) ty d) ev Hok Hend) as H.
  cbv zeta in *. destruct (trim _ _ _) as [buf bytes]. unfold sec_ok.
  rewrite x_s_send, x_log_send. cbn. by rewrite app_assoc.
Qed.

(** ** What sections add *)

(** The frames of [es], queued on the connection [c] if there is one. *)
Definition sends (c : option Z) (es : list Entry) : list (Z * OutFrame) :=
  match c with Some c => (fun e => (c, frame_of e)) <$> es | None => [] end.

(** [x'] is [x] after numbering [es] and handing them to the attached connection. Only the stream's
    fields, the guild set and the index can differ otherwise. *)
Record grows (x x' : Sec) (es : list Entry) : Prop := {
  g_log : x_log x' = x_log x ++ es;
  g_sent : x_sent x' = x_sent x ++ sends (s_conn (x_s x)) es;
  g_conn : s_conn (x_s x') = s_conn (x_s x);
  g_who : s_userID (x_s x') = s_userID (x_s x) /\ s_deviceID (x_s x') = s_deviceID (x_s x) /\
    s_id (x_s x') = s_id (x_s x);
  g_state : s_ended (x_s x') = s_ended (x_s x) /\ s_ready (x_s x') = s_ready (x_s x) /\
    s_pending (x_s x') = s_pending (x_s x) /\ s_expiry (x_s x') = s_expiry (x_s x);
  g_rest : x_timers x' = x_timers x /\ x_timer x' = x_timer x /\ x_closing x' = x_closing x
}.

Lemma grows_refl x : grows x x [].
Proof.
  split; try done; [by rewrite app_nil_r|]. by destruct (s_conn _); cbn; rewrite app_nil_r.
Qed.

Lemma sends_app c es es' : sends c (es ++ es') = sends c es ++ sends c es'.
Proof. destruct c; [apply fmap_app|done]. Qed.

Lemma grows_trans x y z es es' : grows x y es -> grows y z es' -> grows x z (es ++ es').
Proof.
  intros [L1 S1 C1 W1 T1 R1] [L2 S2 C2 W2 T2 R2].
  split; [by rewrite L2, L1, app_assoc|by rewrite S2, S1, C1, sends_app, app_assoc|by rewrite C2| | |];
    destruct_and!; split_and!; congruence.
Qed.

Lemma grows_dispatch ty ev payload x :
  exists es, grows x (dispatchLocked limit ty ev payload x) es /\ Forall (fun e => en_event e = ev) es /\
    x_idx (dispatchLocked limit ty ev payload x) = x_idx x /\
    s_guilds (x_s (dispatchLocked limit ty ev payload x)) = s_guilds (x_s x) /\
    (is_Some payload -> length es = 1%nat).
Proof.
  unfold dispatchLocked. destruct payload as [d|].
  2: { exists []. split_and!; try done; apply grows_refl. }
  cbv zeta. destruct (trim _ _ _) as [buf bytes]. set (frame := appendDispatchFrame _ _ _).
  exists [mkEntry (s_seq (x_s x) + 1) frame ev]. unfold send_attached. cbn.
  destruct (s_conn (x_s x)) as [c|] eqn:E; cbn; split_and!; auto;
    split; cbn; rewrite ?E; cbn; rewrite ?app_nil_r; done.
Qed.

(** The guild set and the index of an applied event, before it is numbered. *)
Definition applied_guilds (ev : Event string) (x : Sec) : Sec :=
  let g := Event_GuildID ev in
  if (Event_Type ev =? "GUILD_CREATE")%string
  then on_idx (sessionIndex_joined self g) (on_s (set_guild_set ({[g]} ∪ s_guilds (x_s x))) x)
  else if (Event_Type ev =? "GUILD_DELETE")%string
  then on_idx (sessionIndex_left self g) (on_s (set_guild_set (s_guilds (x_s x) ∖ {[g]})) x)
  else x.

Lemma applied_guilds_grows ev x : grows x (applied_guilds ev x) [].
Proof.
  unfold applied_guilds. do 2 (case_match; [split; cbn; rewrite ?app_nil_r; try done;
    by destruct (s_conn (x_s x)); cbn; rewrite ?app_nil_r|]). apply grows_refl.
Qed.

(** An event is applied, or left out because the stream never heard of the guild it is about. *)
Lemma applyLocked_cases ev x :
  applyLocked limit self ev x = x \/
  applyLocked limit self ev x =
    dispatchLocked limit (Event_Type ev) (Some ev) (Some (Event_Data ev)) (applied_guilds ev x).
Proof. unfold applyLocked. case_match; [by left|by right]. Qed.

Lemma grows_apply ev x :
  exists es, grows x (applyLocked limit self ev x) es /\ Forall (fun e => en_event e = Some ev) es /\
    (length es <= 1)%nat.
Proof.
  destruct (applyLocked_cases ev x) as [->| ->].
  { exists []. split_and!; [apply grows_refl|done|cbn; lia]. }
  destruct (grows_dispatch (Event_Type ev) (Some ev) (Some (Event_Data ev)) (applied_guilds ev x))
    as (es & Hg & He & _ & _ & Hl).
  exists es. split_and!; [|done|rewrite Hl by done; lia].
  apply (grows_trans _ _ _ [] es (applied_guilds_grows ev x) Hg).
Qed.

Lemma sec_ok_guilds ev x : sec_ok limit log x -> sec_ok limit log (applied_guilds ev x).
Proof.
  intros Hok. apply (sec_ok_same x); [done| |]; unfold applied_guilds;
    repeat (case_match; [done|]); done.
Qed.

Lemma sec_ok_apply ev x :
  sec_ok limit log x -> s_ended (x_s x) = false -> sec_ok limit log (applyLocked limit self ev x).
Proof.
  intros Hok Hend. destruct (applyLocked_cases ev x) as [->| ->]; [done|].
  apply sec_ok_dispatch; [by apply sec_ok_guilds|].
  by destruct (g_state _ _ _ (applied_guilds_grows ev x)) as [-> _].
Qed.

(** A list of events, applied one after another. *)
Definition apply_all (evs : list (Event string)) (x : Sec) : Sec :=
  foldl (fun x ev => applyLocked limit self ev x) x evs.

Lemma grows_apply_all evs x :
  exists es, grows x (apply_all evs x) es /\ omap en_event es `sublist_of` evs /\
    Forall (fun e => is_Some (en_event e)) es.
Proof.
  revert x. induction evs as [|ev evs IH]; intros x; cbn.
  { exists []. split_and!; [apply grows_refl|done|done]. }
  destruct (grows_apply ev x) as (es & Hg & He & Hl).
  destruct (IH (applyLocked limit self ev x)) as (es' & Hg' & Hs' & Hsome).
  exists (es ++ es'). split_and!; [by eapply grows_trans| |].
  - destruct es as [|e [|]]; cbn in Hl; [by apply sublist_cons| |lia].
    apply Forall_cons in He as [He _]. cbn. rewrite He. by apply sublist_skip.
  - apply Forall_app. split; [|done]. eapply Forall_impl; [exact He|]. intros e ->. done.
Qed.

Lemma sec_ok_apply_all evs x :
  sec_ok limit log x -> s_ended (x_s x) = false -> sec_ok limit log (apply_all evs x).
Proof.
  revert x. induction evs as [|ev evs IH]; intros x Hok Hend; [done|]. cbn. apply IH.
  - by apply sec_ok_apply.
  - destruct (grows_apply ev x) as (es & Hg & _). by destruct (g_state _ _ _ Hg) as [-> _].
Qed.


(** ** The sections *)

(** What every section keeps, whatever it is: who the session is, that an ended session stays ended
    and numbers nothing, that a READY one stays READY, the order of its stream, and that events reach
    the stream in the order they were delivered. [evs] are the events the section delivers, [es] the
    frames it numbers. *)
Record section (evs : list (Event string)) (x x' : Sec) (es : list Entry) : Prop := {
  sc_log : x_log x' = x_log x ++ es;
  sc_who : s_userID (x_s x') = s_userID (x_s x) /\ s_deviceID (x_s x') = s_deviceID (x_s x) /\
    s_id (x_s x') = s_id (x_s x);
  sc_ended : s_ended (x_s x) = true -> s_ended (x_s x') = true /\ es = [];
  sc_ready : s_ready (x_s x) = true -> s_ready (x_s x') = true;
  sc_events : omap en_event es ++ s_pending (x_s x') `sublist_of` s_pending (x_s x) ++ evs;
  sc_ok : sec_ok limit log x -> sec_ok limit log x'
}.

(** And what it does to the connection: the new frames go to the one attached, which stays, or there
    are none and the session is attached to [c] from here on. *)
Definition conn_kept (c : option Z) (x x' : Sec) (es : list Entry) : Prop :=
  x_sent x' = x_sent x ++ sends (s_conn (x_s x)) es /\
  (s_conn (x_s x') = s_conn (x_s x) \/ es = [] /\ s_conn (x_s x') = c).

(** A section that numbers nothing and delivers nothing. *)
Lemma section_quiet x x' :
  x_log x' = x_log x -> s_userID (x_s x') = s_userID (x_s x) ->
  s_deviceID (x_s x') = s_deviceID (x_s x) -> s_id (x_s x') = s_id (x_s x) ->
  s_ready (x_s x') = s_ready (x_s x) -> s_pending (x_s x') = s_pending (x_s x) ->
  same_stream (x_s x) (x_s x') -> section [] x x' [].
Proof.
  intros Hl Hu Hd Hi Hr Hp Hs. split; try done; rewrite ?app_nil_r; try done.
  - intros He. destruct Hs as (_ & _ & _ & ->). done.
  - by rewrite Hr.
  - by rewrite Hp.
  - intros Hok. by eapply sec_ok_same.
Qed.

Lemma conn_kept_quiet c x x' :
  x_sent x' = x_sent x -> s_conn (x_s x') = s_conn (x_s x) \/ s_conn (x_s x') = c ->
  conn_kept c x x' [].
Proof.
  intros Hs Hc. split; [|naive_solver]. rewrite Hs. by destruct (s_conn (x_s x)); cbn; rewrite app_nil_r.
Qed.

Lemma section_grows evs x x' es :
  grows x x' es -> s_ended (x_s x) = false -> omap en_event es `sublist_of` evs ->
  (sec_ok limit log x -> sec_ok limit log x') -> s_pending (x_s x) = [] -> section evs x x' es.
Proof.
  intros [Hl Hs Hc (Hu & Hd & Hi) (He & Hr & Hp & _) _] Hend Hev Hok Hnil. split; try done.
  - by rewrite Hend.
  - by rewrite Hr.
  - rewrite Hp, Hnil. by rewrite app_nil_r.
Qed.

Lemma section_deliver ev x :
  (s_ready (x_s x) = true -> s_pending (x_s x) = []) ->
  exists es, section [ev] x (deliver limit self ev x) es /\ conn_kept None x (deliver limit self ev x) es.
Proof.
  intros Hnil. unfold deliver. destruct (s_ended (x_s x)) eqn:E.
  { exists []. split; [|apply conn_kept_quiet; auto].
    split; rewrite ?app_nil_r; try done; cbn. by apply sublist_inserts_r. }
  destruct (s_ready (x_s x)) eqn:R; cbn [negb].
  - destruct (grows_apply ev x) as (es & Hg & He & Hl). exists es. split.
    + apply section_grows; [done..| | |by apply Hnil].
      * destruct es as [|e [|]]; cbn in Hl; [apply sublist_nil_l| |lia].
        apply Forall_cons in He as [He _]. cbn. by rewrite He.
      * intros Hok. by apply sec_ok_apply.
    + split; [apply Hg|left; apply Hg].
  - exists []. split; [|apply conn_kept_quiet; auto]. split; cbn; rewrite ?app_nil_r; try done.
    + by rewrite R.
    + intros Hok. by apply (sec_ok_same x).
Qed.

Lemma section_becomeReady payload guilds x :
  exists es, section [] x (becomeReady limit self payload guilds x) es /\
    conn_kept None x (becomeReady limit self payload guilds x) es.
Proof.
  unfold becomeReady. destruct (s_ended (x_s x)) eqn:E.
  { exists []. split; [by apply section_quiet|apply conn_kept_quiet; auto]. }
  cbv zeta. set (x1 := on_idx _ _). set (x2 := dispatchLocked _ _ _ _ x1).
  set (x3 := on_s (set_ready (s_pending (x_s x2)) true) x2).
  destruct (grows_dispatch "READY" None payload x1) as (es & Hg & He & _). fold x2 in Hg.
  destruct (grows_apply_all (s_pending (x_s x3)) x3) as (es' & Hg' & Hs' & _).
  change (foldl _ x3 _) with (apply_all (s_pending (x_s x3)) x3).
  destruct Hg as [Hl Hs Hc (Hu & Hd & Hi) (Hend & Hr & Hp & _) _].
  destruct Hg' as [Hl' Hss' Hc' (Hu' & Hd' & Hi') (Hend' & Hr' & Hp' & _) _].
  cbn [x1 x3 on_s on_idx x_log x_sent x_s set_ready set_guild_set s_userID s_deviceID s_id s_ended s_ready
       s_pending s_conn] in *.
  exists (es ++ es'). split; [|split; cbn; [|left; by rewrite Hc', Hc]].
  - split; cbn; rewrite ?app_nil_r; try done.
    + by rewrite Hl', Hl, app_assoc.
    + split_and!; congruence.
    + by rewrite E.
    + rewrite omap_app. replace (omap en_event es) with (@nil (Event string)).
      2: { clear -He. induction He as [|e es He _ IH]; [done|]. cbn. by rewrite He. }
      cbn. by rewrite <- Hp.
    + intros Hok. eapply (sec_ok_same (apply_all (s_pending (x_s x2)) x3)); [|done..].
      apply sec_ok_apply_all; [|cbn; by rewrite Hend].
      eapply (sec_ok_same x2); [|done..]. apply sec_ok_dispatch; [|done].
      by eapply (sec_ok_same x).
  - rewrite Hss', Hc, Hs, sends_app, app_assoc. done.
Qed.

Lemma section_attach c x : section [] x (attach c x) [] /\ conn_kept (Some c) x (attach c x) [].
Proof. split; [by apply section_quiet|apply conn_kept_quiet; auto]. Qed.

Lemma section_takeConn x : section [] x (takeConn x) [] /\ conn_kept None x (takeConn x) [].
Proof. split; [by apply section_quiet|apply conn_kept_quiet; auto]. Qed.

Lemma section_detach c x : section [] x (detach self c x) [] /\ conn_kept None x (detach self c x) [].
Proof.
  unfold detach. destruct (negb _); [split; [by apply section_quiet|apply conn_kept_quiet; auto]|].
  cbv zeta. destruct (s_ended _); (split; [by apply section_quiet|apply conn_kept_quiet; auto]).
Qed.

Lemma section_stop x : section [] x (stop self x) [] /\ conn_kept None x (stop self x) [].
Proof.
  assert (section [] x (stop_expiry x) [] /\ conn_kept None x (stop_expiry x) []) as [Hs Hk].
  { unfold stop_expiry. destruct (s_expiry (x_s x)); (split; [by apply section_quiet|];
      apply conn_kept_quiet; auto). }
  destruct Hs as [Hl Hw _ _ _ Hok], Hk as [Hsent Hconn]. unfold stop. cbv zeta.
  set (y := if s_ended (x_s (stop_expiry x)) then _ else _).
  assert (x_s y = x_s (stop_expiry x) /\ x_log y = x_log (stop_expiry x) /\
          x_sent y = x_sent (stop_expiry x)) as (Hy & Hyl & Hys) by (unfold y; by case_match).
  split; [|split; cbn; rewrite ?Hy, ?Hys; naive_solver].
  split; cbn; rewrite ?Hy, ?Hyl, ?app_nil_r; try done.
  - by rewrite app_nil_r in Hl.
  - intros Hr. unfold stop_expiry. by destruct (s_expiry (x_s x)).
  - apply sublist_nil_l.
  - intros Hso. specialize (Hok Hso). unfold sec_ok in *. cbn. rewrite Hy, Hyl.
    destruct Hok as [Hn Hseq _ _ _]. by split.
Qed.

(** ** Resume *)

Lemma send_all_spec fs x :
  foldl (fun x f => send_attached f x) x fs =
  match s_conn (x_s x) with Some c => on_sent (fun l => l ++ ((c,.) <$> fs)) x | None => x end.
Proof.
  revert x. induction fs as [|f fs IH]; intros x; cbn.
  { destruct (s_conn (x_s x)); [|done]. destruct x. unfold on_sent. cbn. by rewrite app_nil_r. }
  rewrite IH, x_s_send. unfold send_attached. destruct (s_conn (x_s x)); [|done].
  unfold on_sent. cbn. by rewrite <- app_assoc.
Qed.

(** A resume that does not succeed changes nothing. *)
Lemma resume_refused c signIn since n x :
  (resume limit c signIn since n x).1 <> resumed -> (resume limit c signIn since n x).2 = x.
Proof. unfold resume. by repeat case_match. Qed.

(** One that does hands the connection what is buffered past [n], then RESUMED. *)
Lemma resume_resumed c signIn since n x :
  (resume limit c signIn since n x).1 = resumed ->
  let x' := (resume limit c signIn since n x).2 in
  exists e, section [] x x' [e] /\ en_event e = None /\ s_ended (x_s x) = false /\
    oldest (x_s x) - 1 <= n <= s_seq (x_s x) /\ s_conn (x_s x') = Some c /\
    x_sent x' = x_sent x ++ ((c,.) <$> (replay n (s_buf (x_s x)) ++ [frame_of e])) /\
    x_idx x' = x_idx x /\ s_guilds (x_s x') = s_guilds (x_s x) /\ s_ready (x_s x') = s_ready (x_s x) /\
    s_ended (x_s x') = false.
Proof.
  unfold resume. destruct (s_ended (x_s x)) eqn:E; [done|].
  destruct (Z.ltb_spec (s_seq (x_s x)) n); [done|].
  destruct (Z.ltb_spec n (oldest (x_s x) - 1)); [done|]. intros _. cbn [snd].
  set (x1 := match s_conn (x_s x) with Some _ => _ | None => _ end).
  set (x2 := on_s _ x1).
  assert (x_log x1 = x_log x /\ x_sent x1 = x_sent x /\ x_idx x1 = x_idx x /\
          same_stream (x_s x) (x_s x1) /\
          s_userID (x_s x1) = s_userID (x_s x) /\ s_deviceID (x_s x1) = s_deviceID (x_s x) /\
          s_id (x_s x1) = s_id (x_s x) /\ s_pending (x_s x1) = s_pending (x_s x) /\
          s_guilds (x_s x1) = s_guilds (x_s x) /\ s_ready (x_s x1) = s_ready (x_s x))
    as (Hl & Hs & Hi & Hst & Hu & Hd & Hid & Hp & Hg & Hr).
  { unfold x1, stop_expiry, same_stream. repeat case_match; by split_and!. }
  rewrite send_all_spec. cbn [x2 on_s set_sign_in set_conn s_conn x_s].
  set (x3 := on_sent _ x2).
  destruct (grows_dispatch "RESUMED" None (Some "{}") x3) as (es & Hgr & Hev & Hidx & Hgs & Hlen).
  specialize (Hlen ltac:(by eexists)). destruct es as [|e [|]]; try done.
  apply Forall_cons in Hev as [Hev _]. exists e.
  destruct Hgr as [Gl Gs Gc (Gu & Gd & Gi) (Ge & Gr & Gp & _) _].
  destruct Hst as (Hs1 & Hs2 & Hs3 & Hs4).
  cbn [x3 x2 on_sent on_s x_log x_sent x_s x_idx set_sign_in set_conn s_conn s_userID s_deviceID s_id
       s_ended s_ready s_pending s_guilds] in *.
  split_and!; try congruence; try lia; try done.
  - split.
    + congruence.
    + split_and!; congruence.
    + congruence.
    + congruence.
    + rewrite Gp, Hp, app_nil_r. cbn [omap list_omap]. by rewrite Hev.
    + intros Hok. apply sec_ok_dispatch; [|cbn; congruence].
      apply (sec_ok_same x); [done|by split_and!|done].
  - rewrite Gs, Hs. cbn. by rewrite fmap_app, app_assoc.
Qed.

Lemma replay_all es m n :
  numbered m es -> n <= m -> replay n (pair_of <$> es) = frame_of <$> es.
Proof.
  unfold replay. revert m. induction es as [|e es IH]; intros m Hn Hle; [done|].
  cbn in Hn. destruct Hn as [Hseq Hn]. cbn [fmap list_fmap]. rewrite filter_cons. cbn [pair_of fst].
  rewrite decide_True by lia. cbn [fmap list_fmap]. f_equal. apply (IH (m + 1)); [done|lia].
Qed.

(** The buffered frames past [n] are the numbered ones past [n]. *)
Lemma replay_spec s es n :
  stream_ok limit s es -> s_ended s = false -> oldest s - 1 <= n <= s_seq s -> 0 <= n ->
  replay n (s_buf s) = frame_of <$> drop (Z.to_nat n) es.
Proof.
  intros [Hn Hs Hb _ _] He Ho H0. destruct (Hb He) as (older & kept & -> & Hbuf).
  rewrite length_app in Hs. apply numbered_app in Hn as [_ Hn]. rewrite Z.add_0_l in Hn.
  assert (Z.of_nat (length older) <= n) as Hle.
  { unfold oldest in Ho. rewrite Hbuf in Ho. destruct kept as [|e kept]; cbn in *; lia. }
  rewrite drop_app_ge, Hbuf by lia. clear Hbuf Hs Ho Hb.
  remember (Z.of_nat (length older)) as m eqn:Hm.
  replace (Z.to_nat n - length older)%nat with (Z.to_nat (n - m)) by lia. clear Hm He.
  revert m Hn Hle. induction kept as [|e kept IH]; intros m Hn Hle; [by rewrite drop_nil|].
  destruct (decide (n = m)) as [->|Hne].
  - rewrite Z.sub_diag. by rewrite (replay_all _ m).
  - cbn in Hn. destruct Hn as [Hseq Hn]. unfold replay in *. cbn [fmap list_fmap].
    rewrite filter_cons. cbn [pair_of fst].
    rewrite decide_False by lia. rewrite (IH (m + 1)) by (done || lia).
    replace (Z.to_nat (n - m)) with (S (Z.to_nat (n - (m + 1)))) by lia. done.
Qed.

End sections.

(** ** The index *)

(** ** Membership *)

Definition of_user (x : sessionIndex) (u s : Z) : Prop := s ∈ default ∅ (byUser x !! u).
Definition of_guild (x : sessionIndex) (g s : Z) : Prop := s ∈ default ∅ (byGuild x !! g).

Lemma elem_addTo m k s k' r :
  r ∈ default ∅ (addTo m k s !! k') <-> (k' = k /\ r = s) \/ r ∈ default ∅ (m !! k').
Proof.
  unfold addTo. destruct (decide (k' = k)) as [->|Hk].
  - rewrite lookup_insert_eq. cbn. set_solver.
  - rewrite lookup_insert_ne by done. naive_solver.
Qed.

Lemma elem_removeFrom m k s k' r :
  r ∈ default ∅ (removeFrom m k s !! k') <-> r ∈ default ∅ (m !! k') /\ ~ (k' = k /\ r = s).
Proof.
  unfold removeFrom. destruct (decide (k' = k)) as [->|Hk].
  - destruct (decide _) as [He|].
    + rewrite lookup_delete_eq. cbn. set_solver.
    + rewrite lookup_insert_eq. cbn. set_solver.
  - destruct (decide _); [rewrite lookup_delete_ne by done|rewrite lookup_insert_ne by done]; naive_solver.
Qed.

Lemma elem_addToAll m ks s k' r :
  r ∈ default ∅ (addToAll m ks s !! k') <-> (k' ∈ ks /\ r = s) \/ r ∈ default ∅ (m !! k').
Proof.
  unfold addToAll. setoid_rewrite <- (elem_of_elements ks k').
  induction (elements ks) as [|k l IH]; cbn; [set_solver|].
  rewrite elem_addTo, IH. set_solver.
Qed.

Lemma elem_removeFromAll m ks s k' r :
  r ∈ default ∅ (removeFromAll m ks s !! k') <-> r ∈ default ∅ (m !! k') /\ ~ (k' ∈ ks /\ r = s).
Proof.
  unfold removeFromAll. setoid_rewrite <- (elem_of_elements ks k').
  induction (elements ks) as [|k l IH]; cbn; [set_solver|].
  rewrite elem_removeFrom, IH. set_solver.
Qed.

(** ** One session's entries *)

(** What the index holds of [self] is what [s] says, and nothing once the session has ended. *)
Record indexed (self : Z) (s : session) (x : sessionIndex) : Prop := {
  ix_user u : of_user x u self <-> s_ended s = false /\ s_userID s = u;
  ix_unready : self ∈ unready x <-> s_ended s = false /\ s_ready s = false;
  ix_guild g : of_guild x g self <-> s_ended s = false /\ g ∈ s_guilds s;
  ix_early : s_ready s = false -> s_guilds s = ∅
}.

(** The two indexes agree on every other session. *)
Definition same_others (self : Z) (x x' : sessionIndex) : Prop :=
  forall r, r <> self ->
    (forall u, of_user x' u r <-> of_user x u r) /\ (r ∈ unready x' <-> r ∈ unready x) /\
    (forall g, of_guild x' g r <-> of_guild x g r).

Lemma same_others_refl self x : same_others self x x.
Proof. done. Qed.

Lemma same_others_trans self x y z :
  same_others self x y -> same_others self y z -> same_others self x z.
Proof.
  intros H1 H2 r Hr. destruct (H1 r Hr) as (U1 & R1 & G1), (H2 r Hr) as (U2 & R2 & G2).
  split_and!; intros; [by rewrite U2, U1|by rewrite R2, R1|by rewrite G2, G1].
Qed.

#[export] Hint Resolve same_others_refl : norite.

Section sections.
Context (limit : Z) (self : Z).

(** A section's step on the index. *)
Definition sec_indexed (x x' : Sec) : Prop :=
  (indexed self (x_s x) (x_idx x) -> indexed self (x_s x') (x_idx x')) /\
  same_others self (x_idx x) (x_idx x').

Lemma sec_indexed_refl x : sec_indexed x x.
Proof. split; [done|apply same_others_refl]. Qed.

Lemma sec_indexed_trans x y z : sec_indexed x y -> sec_indexed y z -> sec_indexed x z.
Proof. intros [H1 O1] [H2 O2]. split; [auto|by eapply same_others_trans]. Qed.

(** Sections that leave alone what the index is about. *)
Lemma sec_indexed_same x x' :
  x_idx x' = x_idx x -> s_userID (x_s x') = s_userID (x_s x) -> s_ended (x_s x') = s_ended (x_s x) ->
  s_ready (x_s x') = s_ready (x_s x) -> s_guilds (x_s x') = s_guilds (x_s x) -> sec_indexed x x'.
Proof.
  intros Hi Hu He Hr Hg. unfold sec_indexed. rewrite Hi. split; [|apply same_others_refl].
  intros []. split; rewrite ?Hu, ?He, ?Hr, ?Hg; done.
Qed.

Lemma sec_indexed_dispatch ty ev payload x : sec_indexed x (dispatchLocked limit ty ev payload x).
Proof.
  destruct (grows_dispatch limit ty ev payload x) as (es & Hg & _ & Hi & Hgs & _).
  destruct (g_who _ _ _ Hg) as (? & _ & _), (g_state _ _ _ Hg) as (? & ? & _).
  by apply sec_indexed_same.
Qed.

Lemma sec_indexed_guilds ev x :
  s_ended (x_s x) = false -> s_ready (x_s x) = true -> sec_indexed x (applied_guilds self ev x).
Proof.
  intros Hend Hready. unfold applied_guilds. repeat case_match; [| |apply sec_indexed_refl].
  - split.
    + intros [Hu Hr Hg _]. split; cbn; [done|done| |by rewrite Hready].
      intros g. unfold of_guild in *. cbn. rewrite elem_addTo, Hg, elem_of_union, elem_of_singleton.
      naive_solver.
    + intros r Hr. split_and!; [done|done|]. intros g. unfold of_guild. cbn. rewrite elem_addTo.
      naive_solver.
  - split.
    + intros [Hu Hr Hg _]. split; cbn; [done|done| |by rewrite Hready].
      intros g. unfold of_guild in *. cbn.
      rewrite elem_removeFrom, Hg, elem_of_difference, elem_of_singleton. naive_solver.
    + intros r Hr. split_and!; [done|done|]. intros g. unfold of_guild. cbn. rewrite elem_removeFrom.
      naive_solver.
Qed.

Lemma sec_indexed_apply ev x :
  s_ended (x_s x) = false -> s_ready (x_s x) = true -> sec_indexed x (applyLocked limit self ev x).
Proof.
  intros Hend Hready. destruct (applyLocked_cases limit self ev x) as [->| ->]; [apply sec_indexed_refl|].
  eapply sec_indexed_trans; [by apply sec_indexed_guilds|apply sec_indexed_dispatch].
Qed.

Lemma sec_indexed_apply_all evs x :
  s_ended (x_s x) = false -> s_ready (x_s x) = true -> sec_indexed x (apply_all limit self evs x).
Proof.
  revert x. induction evs as [|ev evs IH]; intros x Hend Hready; [apply sec_indexed_refl|].
  cbn. eapply sec_indexed_trans; [by apply sec_indexed_apply|].
  destruct (grows_apply limit self ev x) as (es & Hg & _).
  destruct (g_state _ _ _ Hg) as (? & ? & _). apply IH; congruence.
Qed.

Lemma sec_indexed_deliver ev x : sec_indexed x (deliver limit self ev x).
Proof.
  unfold deliver. destruct (s_ended (x_s x)) eqn:E; [apply sec_indexed_refl|].
  destruct (s_ready (x_s x)) eqn:R; cbn [negb].
  - by apply sec_indexed_apply.
  - apply sec_indexed_same; cbn; congruence.
Qed.

(** Only a session that is not READY yet becomes READY. *)
Lemma sec_indexed_becomeReady payload guilds x :
  s_ready (x_s x) = false -> sec_indexed x (becomeReady limit self payload guilds x).
Proof.
  intros R. unfold becomeReady. destruct (s_ended (x_s x)) eqn:E; [apply sec_indexed_refl|].
  cbv zeta. set (x1 := on_idx _ _). set (x2 := dispatchLocked _ _ _ _ x1).
  set (x3 := on_s (set_ready (s_pending (x_s x2)) true) x2).
  destruct (grows_dispatch limit "READY" None payload x1) as (es & Hg & _ & Hi & Hgs & _).
  fold x2 in Hg, Hi, Hgs. destruct (g_who _ _ _ Hg) as (Hu & _ & _), (g_state _ _ _ Hg) as (He & _).
  assert (s_ended (x_s x3) = false) as E3 by (cbn; rewrite He; exact E).
  apply (sec_indexed_trans _ x3).
  { split.
    - intros [Hxu Hxr Hxg Hxe]. specialize (Hxe R). split; cbn; rewrite ?He, ?Hu, ?Hi, ?Hgs; cbn.
      + exact Hxu.
      + split; [|by intros [_ ?]]. set_solver.
      + intros g. unfold of_guild in *. cbn. rewrite elem_addToAll, Hxg, Hxe, E. set_solver.
      + done.
    - intros r Hr. rewrite !(eq_refl : x_idx x3 = x_idx x2), Hi. cbn.
      split_and!; [done|set_solver|]. intros g. unfold of_guild. cbn. rewrite elem_addToAll.
      naive_solver. }
  eapply sec_indexed_trans; [by apply (sec_indexed_apply_all (s_pending (x_s x3)))|].
  destruct (grows_apply_all limit self (s_pending (x_s x3)) x3) as (es' & Hg' & _).
  destruct (g_state _ _ _ Hg') as (_ & Hr' & _).
  by apply sec_indexed_same.
Qed.

Lemma stop_expiry_idx x :
  x_idx (stop_expiry x) = x_idx x /\ s_userID (x_s (stop_expiry x)) = s_userID (x_s x) /\
  s_ended (x_s (stop_expiry x)) = s_ended (x_s x) /\ s_ready (x_s (stop_expiry x)) = s_ready (x_s x) /\
  s_guilds (x_s (stop_expiry x)) = s_guilds (x_s x).
Proof. unfold stop_expiry. by destruct (s_expiry (x_s x)). Qed.

Lemma sec_indexed_stop x : sec_indexed x (stop self x).
Proof.
  unfold stop. cbv zeta. destruct (stop_expiry_idx x) as (Hi & Hu & He & Hr & Hg).
  destruct (s_ended (x_s (stop_expiry x))) eqn:E.
  { apply sec_indexed_same; cbn; congruence. }
  split.
  - intros [Hxu Hxr Hxg Hxe]. split; cbn; rewrite ?Hi, ?Hu, ?Hr, ?Hg.
    + intros u. unfold of_user in *. cbn. rewrite elem_removeFrom, Hxu. naive_solver.
    + set_solver.
    + intros g. unfold of_guild in *. cbn. rewrite elem_removeFromAll, Hxg. naive_solver.
    + done.
  - intros r Hr'. cbn. rewrite Hi. split_and!.
    + intros u. unfold of_user. cbn. rewrite elem_removeFrom. naive_solver.
    + set_solver.
    + intros g. unfold of_guild. cbn. rewrite elem_removeFromAll. naive_solver.
Qed.

End sections.
