(* ===== verification/GatewayServer.v ===== *)
(** backend/internal/gateway: gateway.go (the server's sessions and connections), conn.go (what a
    connection does with its client's frames) and fanout.go (how an event reaches the sessions it
    is for), as one system of goroutines.

    A goroutine is the list of what it has left to do ([Instr]); one step of the system runs one
    instruction of one goroutine, and an instruction holds exactly one critical section of the code,
    so every interleaving the locks allow is a run. newSession is the one function that keeps the
    server's lock across several sections: while it does ([w_mu]), no other goroutine takes that
    lock. What the code asks of the world outside the gateway comes with the step: the answers of
    the accounts service and of the database, the clocks and timers, the network.

    The audience check is an interface, as in the code ([AudienceResolver]). *)
From S2P Require Import Prelude GoStd Permissions Snowflake Rows GatewayProto.
From S2P Require Import GatewaySession.

(** ** The interface to the authorization chokepoint (fanout.go) *)

(** [Allowed ev candidates db] is what the resolver answers when the database is [db]: [None] for an
    error. What it promises: whom it allows was asked about, and may receive the event. *)
Class AudienceResolver (DB : Type) := {
  Allowed : Event string -> list Z -> DB -> option (list Z);
  may_receive : DB -> Event string -> Z -> Prop;
  Allowed_sound ev candidates db out u :
    Allowed ev candidates db = Some out -> u ∈ out -> u ∈ candidates /\ may_receive db ev u
}.

(** ** Data *)

(** auth.SignIn, as far as the gateway reads it. *)
Record SignIn := mkSignIn { SignIn_Device : string; SignIn_Since : Z }.

(** Options, with the zero values replaced (gateway.go, New). *)
Record Options := mkOptions {
  opt_Version : string; opt_MaxUnidentifiedPerAddress : Z; opt_ResumeBuffer : Z; opt_FanoutLanes : Z
}.

Definition maxConnectionsPerAccount : Z := 16.
Definition outboundBuffer : Z := 1024.
Definition laneDepth : Z := 256.

Definition or_default (n d : Z) : Z := if n <=? 0 then d else n.
Definition New_options (o : Options) : Options :=
  mkOptions (opt_Version o) (or_default (opt_MaxUnidentifiedPerAddress o) 64)
    (or_default (opt_ResumeBuffer o) 512) (or_default (opt_FanoutLanes o) 1).

(** What a connection or a background goroutine has left to do. *)
Inductive Instr :=
  (* newSession: takes the server's lock, looks at the account's sessions one by one, registers *)
  | INewSession (id : string) (actor : Actor) (sign : SignIn)
  | INewScan (id : string) (actor : Actor) (sign : SignIn) (olds superseded : list SRef)
  (* identify, after it *)
  | IAttach (s : SRef) (actor : Actor) (sign : SignIn)
  | IBind (s : SRef)
  | ICheckLive (s : SRef)
  | IReady (s : SRef)
  | IIdentified
  (* resume *)
  | IResumeLive (id : string) (actor : Actor) (sign : SignIn) (seq : Z)
  | ILookup (id : string) (actor : Actor) (sign : SignIn) (seq : Z)
  | IResume (s : SRef) (actor : Actor) (sign : SignIn) (seq : Z)
  (* the end of serve *)
  | IEnd
  | IDetach
  | IUntrack
  (* shared with the background goroutines *)
  | ISend (op : Z)
  | ICloseWith (c : CRef) (code : Z)
  | IGoClose (c : CRef) (code : Z)
  | IForget (s : SRef)
  | IStop (s : SRef)
  | ITakeConn (s : SRef)
  | IExpire (s : SRef)
  | IRevokeScan (r : Revocation) (todo ended : list SRef).

(** A connection. [c_code] is its serve goroutine: empty while it waits in Read. [c_written] is what
    the socket has carried. *)
Record conn := mkConn {
  c_addr : string; c_slotReleased : bool; c_sess : option SRef; c_out : list OutFrame;
  c_written : list OutFrame; c_closing : option Z; c_code : list Instr; c_over : bool
}.

Inductive LaneWork := LaneIdle | LaneResolve (ev : Event string) (sessions : list SRef)
  | LaneDeliver (ev : Event string) (sessions : list SRef).
Record Lane := mkLane { lane_queue : list (Event string); lane_work : LaneWork }.

(** What the theorems remember of a connection: the stream it was attached to, the sequence number
    its client had reached then, the account and device its token stood for, and whether a frame
    found its queue full. *)
Record Attachment := mkAttachment {
  at_session : SRef; at_after : Z; at_user : Z; at_device : string
}.

(** The server with its goroutines. The last five fields are history the code does not keep. *)
Record World (DB : Type) := mkWorld {
  w_heap : gmap SRef session; w_nextSession : SRef; w_idx : sessionIndex;
  w_sessions : gmap string SRef; w_perUser : gmap Z Z; w_unidentified : gmap string Z;
  w_conns : gmap CRef conn; w_nextConn : CRef; w_timers : gmap Z SRef; w_nextTimer : Z;
  w_mu : option CRef; w_gos : list (list Instr); w_lanes : list Lane;
  w_log : gmap SRef (list Entry); w_attached : gmap CRef Attachment; w_dropped : gset CRef;
  w_published : list (Event string); w_judged : list (Event string * DB)
}.
Arguments mkWorld {DB}. Arguments w_heap {DB}. Arguments w_nextSession {DB}. Arguments w_idx {DB}.
Arguments w_sessions {DB}. Arguments w_perUser {DB}. Arguments w_unidentified {DB}. Arguments
w_conns {DB}. Arguments w_nextConn {DB}. Arguments w_timers {DB}. Arguments w_nextTimer {DB}.
Arguments w_mu {DB}. Arguments w_gos {DB}. Arguments w_lanes {DB}. Arguments w_log {DB}. Arguments
w_attached {DB}. Arguments w_dropped {DB}. Arguments w_published {DB}. Arguments w_judged {DB}.

Section setters.
Context {DB : Type}.

Definition up_heap f (w : World DB) : World DB :=
  mkWorld (f (w_heap w)) (w_nextSession w) (w_idx w) (w_sessions w) (w_perUser w)
    (w_unidentified w) (w_conns w) (w_nextConn w) (w_timers w) (w_nextTimer w) (w_mu w) (w_gos
    w) (w_lanes w) (w_log w) (w_attached w) (w_dropped w) (w_published w) (w_judged w).
Definition up_nextSession f (w : World DB) : World DB :=
  mkWorld (w_heap w) (f (w_nextSession w)) (w_idx w) (w_sessions w) (w_perUser w)
    (w_unidentified w) (w_conns w) (w_nextConn w) (w_timers w) (w_nextTimer w) (w_mu w) (w_gos
    w) (w_lanes w) (w_log w) (w_attached w) (w_dropped w) (w_published w) (w_judged w).
Definition up_idx f (w : World DB) : World DB :=
  mkWorld (w_heap w) (w_nextSession w) (f (w_idx w)) (w_sessions w) (w_perUser w)
    (w_unidentified w) (w_conns w) (w_nextConn w) (w_timers w) (w_nextTimer w) (w_mu w) (w_gos
    w) (w_lanes w) (w_log w) (w_attached w) (w_dropped w) (w_published w) (w_judged w).
Definition up_sessions f (w : World DB) : World DB :=
  mkWorld (w_heap w) (w_nextSession w) (w_idx w) (f (w_sessions w)) (w_perUser w)
    (w_unidentified w) (w_conns w) (w_nextConn w) (w_timers w) (w_nextTimer w) (w_mu w) (w_gos
    w) (w_lanes w) (w_log w) (w_attached w) (w_dropped w) (w_published w) (w_judged w).
Definition up_perUser f (w : World DB) : World DB :=
  mkWorld (w_heap w) (w_nextSession w) (w_idx w) (w_sessions w) (f (w_perUser w))
    (w_unidentified w) (w_conns w) (w_nextConn w) (w_timers w) (w_nextTimer w) (w_mu w) (w_gos
    w) (w_lanes w) (w_log w) (w_attached w) (w_dropped w) (w_published w) (w_judged w).
Definition up_unidentified f (w : World DB) : World DB :=
  mkWorld (w_heap w) (w_nextSession w) (w_idx w) (w_sessions w) (w_perUser w) (f
    (w_unidentified w)) (w_conns w) (w_nextConn w) (w_timers w) (w_nextTimer w) (w_mu w)
    (w_gos w) (w_lanes w) (w_log w) (w_attached w) (w_dropped w) (w_published w) (w_judged w).
Definition up_conns f (w : World DB) : World DB :=
  mkWorld (w_heap w) (w_nextSession w) (w_idx w) (w_sessions w) (w_perUser w) (w_unidentified
    w) (f (w_conns w)) (w_nextConn w) (w_timers w) (w_nextTimer w) (w_mu w) (w_gos w) (w_lanes
    w) (w_log w) (w_attached w) (w_dropped w) (w_published w) (w_judged w).
Definition up_nextConn f (w : World DB) : World DB :=
  mkWorld (w_heap w) (w_nextSession w) (w_idx w) (w_sessions w) (w_perUser w) (w_unidentified
    w) (w_conns w) (f (w_nextConn w)) (w_timers w) (w_nextTimer w) (w_mu w) (w_gos w) (w_lanes
    w) (w_log w) (w_attached w) (w_dropped w) (w_published w) (w_judged w).
Definition up_timers f (w : World DB) : World DB :=
  mkWorld (w_heap w) (w_nextSession w) (w_idx w) (w_sessions w) (w_perUser w) (w_unidentified
    w) (w_conns w) (w_nextConn w) (f (w_timers w)) (w_nextTimer w) (w_mu w) (w_gos w) (w_lanes
    w) (w_log w) (w_attached w) (w_dropped w) (w_published w) (w_judged w).
Definition up_nextTimer f (w : World DB) : World DB :=
  mkWorld (w_heap w) (w_nextSession w) (w_idx w) (w_sessions w) (w_perUser w) (w_unidentified
    w) (w_conns w) (w_nextConn w) (w_timers w) (f (w_nextTimer w)) (w_mu w) (w_gos w) (w_lanes
    w) (w_log w) (w_attached w) (w_dropped w) (w_published w) (w_judged w).
Definition up_mu f (w : World DB) : World DB :=
  mkWorld (w_heap w) (w_nextSession w) (w_idx w) (w_sessions w) (w_perUser w) (w_unidentified
    w) (w_conns w) (w_nextConn w) (w_timers w) (w_nextTimer w) (f (w_mu w)) (w_gos w) (w_lanes
    w) (w_log w) (w_attached w) (w_dropped w) (w_published w) (w_judged w).
Definition up_gos f (w : World DB) : World DB :=
  mkWorld (w_heap w) (w_nextSession w) (w_idx w) (w_sessions w) (w_perUser w) (w_unidentified
    w) (w_conns w) (w_nextConn w) (w_timers w) (w_nextTimer w) (w_mu w) (f (w_gos w)) (w_lanes
    w) (w_log w) (w_attached w) (w_dropped w) (w_published w) (w_judged w).
Definition up_lanes f (w : World DB) : World DB :=
  mkWorld (w_heap w) (w_nextSession w) (w_idx w) (w_sessions w) (w_perUser w) (w_unidentified
    w) (w_conns w) (w_nextConn w) (w_timers w) (w_nextTimer w) (w_mu w) (w_gos w) (f (w_lanes
    w)) (w_log w) (w_attached w) (w_dropped w) (w_published w) (w_judged w).
Definition up_log f (w : World DB) : World DB :=
  mkWorld (w_heap w) (w_nextSession w) (w_idx w) (w_sessions w) (w_perUser w) (w_unidentified
    w) (w_conns w) (w_nextConn w) (w_timers w) (w_nextTimer w) (w_mu w) (w_gos w) (w_lanes w)
    (f (w_log w)) (w_attached w) (w_dropped w) (w_published w) (w_judged w).
Definition up_attached f (w : World DB) : World DB :=
  mkWorld (w_heap w) (w_nextSession w) (w_idx w) (w_sessions w) (w_perUser w) (w_unidentified
    w) (w_conns w) (w_nextConn w) (w_timers w) (w_nextTimer w) (w_mu w) (w_gos w) (w_lanes w)
    (w_log w) (f (w_attached w)) (w_dropped w) (w_published w) (w_judged w).
Definition up_dropped f (w : World DB) : World DB :=
  mkWorld (w_heap w) (w_nextSession w) (w_idx w) (w_sessions w) (w_perUser w) (w_unidentified
    w) (w_conns w) (w_nextConn w) (w_timers w) (w_nextTimer w) (w_mu w) (w_gos w) (w_lanes w)
    (w_log w) (w_attached w) (f (w_dropped w)) (w_published w) (w_judged w).
Definition up_published f (w : World DB) : World DB :=
  mkWorld (w_heap w) (w_nextSession w) (w_idx w) (w_sessions w) (w_perUser w) (w_unidentified
    w) (w_conns w) (w_nextConn w) (w_timers w) (w_nextTimer w) (w_mu w) (w_gos w) (w_lanes w)
    (w_log w) (w_attached w) (w_dropped w) (f (w_published w)) (w_judged w).
Definition up_judged f (w : World DB) : World DB :=
  mkWorld (w_heap w) (w_nextSession w) (w_idx w) (w_sessions w) (w_perUser w) (w_unidentified
    w) (w_conns w) (w_nextConn w) (w_timers w) (w_nextTimer w) (w_mu w) (w_gos w) (w_lanes w)
    (w_log w) (w_attached w) (w_dropped w) (w_published w) (f (w_judged w)).

End setters.

Definition on_conn {DB} (f : conn -> conn) (c : CRef) (w : World DB) : World DB :=
  up_conns (alter f c) w.

Definition set_slotReleased  (k : conn) : conn :=
  mkConn (c_addr k) true (c_sess k) (c_out k) (c_written k) (c_closing k) (c_code k) (c_over
    k).
Definition set_sess (s : SRef) (k : conn) : conn :=
  mkConn (c_addr k) (c_slotReleased k) (Some s) (c_out k) (c_written k) (c_closing k) (c_code
    k) (c_over k).
Definition set_out (out written : list OutFrame) (k : conn) : conn :=
  mkConn (c_addr k) (c_slotReleased k) (c_sess k) out written (c_closing k) (c_code k) (c_over
    k).
Definition set_closing (code : Z) (k : conn) : conn :=
  mkConn (c_addr k) (c_slotReleased k) (c_sess k) (c_out k) (c_written k) (Some code) (c_code
    k) (c_over k).
Definition set_code (code : list Instr) (k : conn) : conn :=
  mkConn (c_addr k) (c_slotReleased k) (c_sess k) (c_out k) (c_written k) (c_closing k) code
    (c_over k).
Definition set_over  (k : conn) : conn :=
  mkConn (c_addr k) (c_slotReleased k) (c_sess k) (c_out k) (c_written k) (c_closing k)
    (c_code k) true.

(** ** Connections (conn.go) *)

Section server.
Context {DB : Type} `{AudienceResolver DB} (o : Options).
Implicit Types w : World DB.

(** A new goroutine. *)
Definition spawn (code : list Instr) w : World DB := up_gos (fun gos => gos ++ [code]) w.

(** Never blocks: a full queue drops the frame and closes the connection. *)
Definition enqueueFrame (c : CRef) (f : OutFrame) w : World DB :=
  match w_conns w !! c with
  | None => w
  | Some k =>
      if Z.of_nat (length (c_out k)) <? outboundBuffer
      then on_conn (fun k => set_out (c_out k ++ [f]) (c_written k) k) c w
      else spawn [ICloseWith c CloseTooSlow] (up_dropped (fun d => {[c]} ∪ d) w)
  end.

(** Only the first call closes the connection. *)
Definition closeWith (c : CRef) (code : Z) w : World DB :=
  on_conn (fun k => match c_closing k with Some _ => k | None => set_closing code k end) c w.

(** One critical section of session [s]. *)
Definition locked (s : SRef) (f : Sec -> Sec) w : option (World DB) :=
  sess ← w_heap w !! s;
  let x := f (mkSec sess (w_idx w) (w_timers w) (w_nextTimer w) [] [] []) in
  let w := up_heap (insert s (x_s x)) w in
  let w := up_idx (fun _ => x_idx x) w in
  let w := up_timers (fun _ => x_timers x) w in
  let w := up_nextTimer (fun _ => x_timer x) w in
  let w := up_log (fun l => <[s := default [] (l !! s) ++ x_log x]> l) w in
  let w := foldl (fun w cc => spawn [ICloseWith cc.1 cc.2] w) w (x_closing x) in
  Some (foldl (fun w cf => enqueueFrame cf.1 cf.2 w) w (x_sent x)).

(** ** The server's sessions (gateway.go) *)

(** [s.unidentified[addr]--; if it is <= 0 { delete }] *)
Definition identified (addr : string) w : World DB :=
  up_unidentified (fun m =>
    let n := default 0 (m !! addr) - 1 in
    if n <=? 0 then delete addr m else <[addr := n]> m) w.

Definition markIdentified (c : CRef) w : World DB :=
  match w_conns w !! c with
  | None => w
  | Some k =>
      if c_slotReleased k then w else identified (c_addr k) (on_conn set_slotReleased c w)
  end.

(** The half of dropSession under the server's lock; its other half is the session's stop. *)
Definition forget (s : SRef) w : option (World DB) :=
  sess ← w_heap w !! s;
  Some (if bool_decide (w_sessions w !! s_id sess = Some s)
        then up_perUser (fun m =>
               let n := default 0 (m !! s_userID sess) - 1 in
               if n <=? 0 then delete (s_userID sess) m else <[s_userID sess := n]> m)
               (up_sessions (delete (s_id sess)) w)
        else w).
Definition dropSession (s : SRef) : list Instr := [IForget s; IStop s].

Definition lookupSession (id : string) w : option SRef := w_sessions w !! id.

(** newSession's loop body: a detached session of the same device is superseded. *)
Definition newSession_scan (actor : Actor) (sign : SignIn) (old : SRef) (superseded : list SRef) w
    : option (World DB * list SRef) :=
  sess ← w_heap w !! old;
  Some
    (if negb (s_deviceID sess =? SignIn_Device sign)%string then (w, superseded)
     else if bool_decide (s_conn sess = None) then
       (up_perUser (fun m => <[Actor_UserID actor := default 0 (m !! Actor_UserID actor) - 1]> m)
          (up_sessions (delete (s_id sess)) w), superseded ++ [old])
     else (w, superseded)).

(** The rest of newSession: the account's ceiling, then a registered session or [None]. *)
Definition newSession_register (id : string) (actor : Actor) (sign : SignIn) w
    : World DB * option SRef :=
  let n := default 0 (w_perUser w !! Actor_UserID actor) in
  if maxConnectionsPerAccount <=? n then (w, None)
  else
    let s := w_nextSession w in
    let sess := mkSession id (Actor_UserID actor) (SignIn_Device sign) (Actor_SessionID actor)
                  (SignIn_Since sign) 0 ∅ false [] false [] 0 None None in
    let w := up_perUser (insert (Actor_UserID actor) (n + 1)) w in
    let w := up_nextSession (fun s => s + 1) (up_heap (insert s sess) w) in
    let w := up_sessions (insert id s) w in
    (up_idx (sessionIndex_register s (Actor_UserID actor)) w, Some s).

(** stopAll *)
Definition stopAll (superseded : list SRef) : list Instr := IStop <$> superseded.

(** ** One instruction *)

(** The answers of the world outside, one per question. *)
Inductive LiveAnswer := Live | SignedOut | LiveError.
Inductive Answer :=
  | ANone
  | ALive (live : LiveAnswer)
  (* ReadyUser's and ListForMember's: an error of either, or READY's payload and the guilds *)
  | AReady (data : option (option string * list Z)).

(** [closeWith] for a sign-in that is not live, then [return false]. *)
Definition live_code (live : LiveAnswer) : Z :=
  match live with SignedOut => CloseAuthenticationFailed | _ => CloseUnknownError end.

(** Takes the server's lock only when nobody holds it. *)
Definition under_mu {A} w (r : option A) : option A :=
  match w_mu w with None => r | Some _ => None end.

(** newSession, from the lock to the unlock. *)
Definition exec_newSession (self : CRef) (i : Instr) w : option (World DB * list Instr) :=
  match i with
  | INewSession id actor sign =>
      under_mu w (Some (up_mu (fun _ => Some self) w,
        [INewScan id actor sign (sessionIndex_ofUser (Actor_UserID actor) (w_idx w)) []]))
  | INewScan id actor sign (old :: olds) superseded =>
      '(w, superseded) ← newSession_scan actor sign old superseded w;
      Some (w, [INewScan id actor sign olds superseded])
  | INewScan id actor sign [] superseded =>
      let '(w, made) := newSession_register id actor sign w in
      let w := up_mu (fun _ => None) w in
      match made with
      | None => Some (w, stopAll superseded ++ [ICloseWith self CloseRateLimited; IEnd])
      | Some s => Some (w, stopAll superseded ++ [IAttach s actor sign; IBind s; ICheckLive s])
      end
  | _ => None
  end.

(** What the stream looks like to the connection that takes it over. *)
Definition attached_to (self s : CRef) (after : Z) (actor : Actor) (sign : SignIn) w : World DB :=
  up_attached (insert self (mkAttachment s after (Actor_UserID actor) (SignIn_Device sign))) w.

(** The rest of identify. *)
Definition exec_identify (self : CRef) (i : Instr) (a : Answer) w : option (World DB * list Instr) :=
  match i, a with
  | IAttach s actor sign, _ =>
      sess ← w_heap w !! s;
      w ← locked s (attach self) w;
      Some (attached_to self s (s_seq sess) actor sign w, [])
  | IBind s, _ => Some (on_conn (set_sess s) self w, [])
  | ICheckLive s, ALive Live => Some (w, [IReady s])
  | ICheckLive s, ALive live =>
      Some (w, [ICloseWith self (live_code live)] ++ dropSession s ++ [IEnd])
  | IReady s, AReady None =>
      Some (w, dropSession s ++ [ICloseWith self CloseUnknownError; IEnd])
  | IReady s, AReady (Some (payload, memberOf)) =>
      w ← locked s (becomeReady (opt_ResumeBuffer o) s payload (list_to_set memberOf)) w;
      Some (w, [IIdentified])
  | IIdentified, _ => under_mu w (Some (markIdentified self w, []))
  | _, _ => None
  end.

(** resume, from the liveness check on. *)
Definition exec_resume (self : CRef) (i : Instr) (a : Answer) w : option (World DB * list Instr) :=
  match i, a with
  | IResumeLive id actor sign seq, ALive Live => Some (w, [ILookup id actor sign seq])
  | IResumeLive id actor sign seq, ALive live => Some (w, [ICloseWith self (live_code live); IEnd])
  | ILookup id actor sign seq, _ =>
      under_mu w
        match lookupSession id w with
        | None => Some (w, [ISend OpInvalidSess])
        | Some s =>
            sess ← w_heap w !! s;
            if negb (s_userID sess =? Actor_UserID actor)
               || negb (s_deviceID sess =? SignIn_Device sign)%string
            then Some (w, [ISend OpInvalidSess])
            else Some (w, [IResume s actor sign seq])
        end
  | IResume s actor sign seq, _ =>
      sess ← w_heap w !! s;
      let run := resume (opt_ResumeBuffer o) self (Actor_SessionID actor) (SignIn_Since sign) seq in
      w' ← locked s (fun x => (run x).2) w;
      match (run (mkSec sess (w_idx w) (w_timers w) (w_nextTimer w) [] [] [])).1 with
      | resumeEnded => Some (w', [ISend OpInvalidSess])
      | resumeInvalidSeq => Some (w', [ICloseWith self CloseInvalidSeq; IEnd])
      | resumeGap => Some (w', dropSession s ++ [ISend OpInvalidSess])
      | resumed => Some (attached_to self s seq actor sign w', [IBind s; IIdentified])
      end
  | _, _ => None
  end.

(** The end of a connection's goroutine, and what background goroutines share with it. *)
Definition exec_shared (self : CRef) (i : Instr) w : option (World DB * list Instr) :=
  match i with
  | IEnd => Some (w, [IDetach; IUntrack])
  | IDetach =>
      k ← w_conns w !! self;
      match c_sess k with
      | None => Some (w, [])
      | Some s => w ← locked s (detach s self) w; Some (w, [])
      end
  | IUntrack => under_mu w (Some (on_conn set_over self (markIdentified self w), []))
  | ISend op => Some (enqueueFrame self (OutControl op) w, [])
  | ICloseWith c code => Some (closeWith c code w, [])
  | IGoClose c code => Some (spawn [ICloseWith c code] w, [])
  | IForget s => under_mu w (w ← forget s w; Some (w, []))
  | IStop s => w ← locked s (stop s) w; Some (w, [])
  | ITakeConn s =>
      sess ← w_heap w !! s;
      w ← locked s takeConn w;
      Some (w, dropSession s ++ match s_conn sess with
                                | Some c => [IGoClose c CloseSessionRevoked]
                                | None => []
                                end)
  | IExpire s =>
      sess ← w_heap w !! s;
      Some (w, if bool_decide (s_conn sess = None) then dropSession s else [])
  | IRevokeScan r (s :: todo) ended =>
      sess ← w_heap w !! s;
      Some (w, [IRevokeScan r todo (if revokedBy r sess then ended ++ [s] else ended)])
  | IRevokeScan r [] ended => Some (w, ITakeConn <$> ended)
  | _ => None
  end.

Definition exec (self : CRef) (i : Instr) (a : Answer) w : option (World DB * list Instr) :=
  match i with
  | INewSession _ _ _ | INewScan _ _ _ _ _ => exec_newSession self i w
  | IAttach _ _ _ | IBind _ | ICheckLive _ | IReady _ | IIdentified => exec_identify self i a w
  | IResumeLive _ _ _ _ | ILookup _ _ _ _ | IResume _ _ _ _ => exec_resume self i a w
  | _ => exec_shared self i w
  end.

(** ** A client's frames (conn.go, handle) *)

Record Identify := mkIdentify { id_Token : string; id_Intents : option Z; id_Version : string }.
Record Resume := mkResume { r_Token : string; r_SessionID : string; r_Seq : Z }.

(** A frame by its op; [None] is a payload strictDecode refuses. *)
Inductive Inbound := InHeartbeat | InIdentify (d : option Identify) | InResume (d : option Resume)
  | InOther (op : Z).

(** What authenticating the frame's token finds: no valid access token ([None]), or an actor;
    whether its account identifies too often; and its sign-in, if the lookup succeeds. *)
Record TokenAnswer := mkTokenAnswer {
  ta_actor : option Actor; ta_limited : bool; ta_sign : option SignIn
}.

Definition authenticate (ta : TokenAnswer) : Z + Actor * SignIn :=
  match ta_actor ta with
  | None => inl CloseAuthenticationFailed
  | Some actor =>
      if negb (bool_decide (Actor_Kind actor = ActorUser)) then inl CloseAuthenticationFailed
      else if ta_limited ta then inl CloseRateLimited
      else match ta_sign ta with
           | None => inl CloseUnknownError
           | Some sign =>
               if (SignIn_Device sign =? "")%string then inl CloseAuthenticationFailed
               else inr (actor, sign)
           end
  end.

(** [sessionID] is the id newSessionID mints, [None] if it fails. *)
Definition identify (self : CRef) (d : option Identify) (ta : TokenAnswer) (sessionID : option string)
    : list Instr :=
  let refuse code := [ICloseWith self code; IEnd] in
  match d with
  | None => refuse CloseDecodeError
  | Some id =>
      if (id_Token id =? "")%string then refuse CloseDecodeError
      else if negb (default 0 (id_Intents id) =? 0) then refuse CloseInvalidIntents
      else if negb (Compatible (Check_versions (opt_Version o) (id_Version id)))
      then refuse CloseVersionMismatch
      else match authenticate ta with
           | inl code => refuse code
           | inr (actor, sign) =>
               match sessionID with
               | None => refuse CloseUnknownError
               | Some sid => [INewSession sid actor sign]
               end
           end
  end.

Definition conn_resume (self : CRef) (d : option Resume) (ta : TokenAnswer) : list Instr :=
  let refuse code := [ICloseWith self code; IEnd] in
  match d with
  | None => refuse CloseDecodeError
  | Some r =>
      if (r_Token r =? "")%string || (r_SessionID r =? "")%string || (r_Seq r <? 0)
      then refuse CloseDecodeError
      else match authenticate ta with
           | inl code => refuse code
           | inr (actor, sign) => [IResumeLive (r_SessionID r) actor sign (r_Seq r)]
           end
  end.

(** [checked] is the answer of stillSignedIn's read, [None] while LivenessInterval has not passed
    since the last. *)
Definition handle (self : CRef) (k : conn) (f : Inbound) (ta : TokenAnswer) (sessionID : option string)
    (checked : option LiveAnswer) : list Instr :=
  match f, c_sess k with
  | InHeartbeat, Some s =>
      match checked with
      | Some SignedOut => [ITakeConn s; IEnd]
      | _ => [ISend OpHeartbeatAck]
      end
  | InHeartbeat, None => [ISend OpHeartbeatAck]
  | (InIdentify _ | InResume _), Some _ => [ICloseWith self CloseAlreadyAuthenticated; IEnd]
  | InIdentify d, None => identify self d ta sessionID
  | InResume d, None => conn_resume self d ta
  | InOther _, None => [ICloseWith self CloseNotAuthenticated; IEnd]
  | InOther _, Some _ => [ICloseWith self CloseUnknownOpcode; IEnd]
  end.

(** ** Fan-out (fanout.go) *)

Definition candidates (ev : Event string) w : list SRef :=
  if bool_decide (Event_Audience ev = AudUsers)
  then sessionIndex_ofUsers (Event_Users ev) (w_idx w)
  else sessionIndex_ofGuild (Event_GuildID ev) (w_idx w).

(** The account of a session; it never changes. *)
Definition user_of w (s : SRef) : Z :=
  match w_heap w !! s with Some sess => s_userID sess | None => 0 end.

Fixpoint distinct_from (ids : list Z) (seen : gset Z) : list Z :=
  match ids with
  | [] => []
  | id :: ids =>
      if decide (id ∈ seen) then distinct_from ids seen else id :: distinct_from ids ({[id]} ∪ seen)
  end.
Definition distinctUsers (sessions : list SRef) w : list Z :=
  distinct_from (user_of w <$> sessions) ∅.

(** It filters nothing yet. *)
Definition withoutBlocked (ev : Event string) (sessions : list SRef) : list SRef := sessions.

(** [uint64(ev.GuildID) % uint64(len(s.lanes))] *)
Definition lane_of (lanes : Z) (ev : Event string) : nat :=
  Z.to_nat (uint64_of_int64 (Event_GuildID ev) mod lanes).

(** One step of lane [n]'s worker; [db] is the database when it resolves an audience. *)
Definition fanOut (n : nat) (db : DB) w : option (World DB) :=
  l ← w_lanes w !! n;
  let set_lane l w := up_lanes (insert n l) w in
  match lane_work l with
  | LaneIdle =>
      match lane_queue l with
      | [] => None
      | ev :: queue =>
          let sessions := candidates ev w in
          Some (set_lane (mkLane queue
            (if bool_decide (sessions = []) then LaneIdle else LaneResolve ev sessions)) w)
      end
  | LaneResolve ev sessions =>
      match Allowed ev (distinctUsers sessions w) db with
      | None => Some (set_lane (mkLane (lane_queue l) LaneIdle) w)
      | Some allowed =>
          let permitted := filter (fun s => user_of w s ∈ allowed) (withoutBlocked ev sessions) in
          Some (up_judged (fun j => j ++ [(ev, db)])
            (set_lane (mkLane (lane_queue l) (LaneDeliver ev permitted)) w))
      end
  | LaneDeliver ev [] => Some (set_lane (mkLane (lane_queue l) LaneIdle) w)
  | LaneDeliver ev (s :: sessions) =>
      w ← locked s (deliver (opt_ResumeBuffer o) s ev) w;
      Some (set_lane (mkLane (lane_queue l) (LaneDeliver ev sessions)) w)
  end.

(** onEvent: a full lane holds the bus's goroutine back. *)
Definition onEvent (ev : Event string) w : option (World DB) :=
  let n := lane_of (Z.of_nat (length (w_lanes w))) ev in
  l ← w_lanes w !! n;
  if laneDepth <=? Z.of_nat (length (lane_queue l)) then None
  else Some (up_published (fun p => p ++ [ev])
    (up_lanes (insert n (mkLane (lane_queue l ++ [ev]) (lane_work l))) w)).

(** ** The system *)

(** ServeHTTP, up to the start of serve: a slot, the upgrade, HELLO. *)
Definition Server_admit (addr : string) w : bool :=
  default 0 (w_unidentified w !! addr) <? opt_MaxUnidentifiedPerAddress o.
Definition ServeHTTP (addr : string) w : option (World DB) :=
  under_mu w
    (Some (if negb (Server_admit addr w) then w
           else
             let c := w_nextConn w in
             let w := up_unidentified (fun m => <[addr := default 0 (m !! addr) + 1]> m) w in
             let w := up_nextConn (fun c => c + 1) w in
             up_conns (insert c (mkConn addr false None [OutControl OpHello] [] None [] false)) w)).

Inductive Label :=
  | LConnect (addr : string)
  | LFrame (c : CRef) (f : Inbound) (ta : TokenAnswer) (sessionID : option string)
      (checked : option LiveAnswer)
  | LBadFrame (c : CRef) (code : Z)        (* too many frames, or not a gateway frame *)
  | LReadError (c : CRef)                  (* the socket ended *)
  | LServe (c : CRef) (a : Answer)         (* the connection's own goroutine *)
  | LGo (n : nat)                          (* a background goroutine *)
  | LWrite (c : CRef)                      (* the write loop *)
  | LWatchdog (c : CRef)                   (* no IDENTIFY, or no heartbeat, in time *)
  | LTimer (t : Z)                         (* a resume window passed *)
  | LEvent (ev : Event string)
  | LRevocation (r : Revocation)
  | LLane (n : nat) (db : DB).

(** A connection whose goroutine waits in Read. *)
Definition reading (c : CRef) w : option conn :=
  k ← w_conns w !! c;
  match c_code k with
  | [] => if c_over k then None else Some k
  | _ => None
  end.

Definition step (l : Label) w : option (World DB) :=
  match l with
  | LConnect addr => ServeHTTP addr w
  | LFrame c f ta sessionID checked =>
      k ← reading c w;
      Some (on_conn (set_code (handle c k f ta sessionID checked)) c w)
  | LBadFrame c code => _ ← reading c w; Some (on_conn (set_code [ICloseWith c code; IEnd]) c w)
  | LReadError c => _ ← reading c w; Some (on_conn (set_code [IEnd]) c w)
  | LServe c a =>
      k ← w_conns w !! c;
      match c_code k with
      | [] => None
      | i :: rest => '(w, code) ← exec c i a w; Some (on_conn (set_code (code ++ rest)) c w)
      end
  | LGo n =>
      g ← w_gos w !! n;
      match g with
      | [] => None
      | i :: rest => '(w, code) ← exec 0 i ANone w; Some (up_gos (insert n (code ++ rest)) w)
      end
  | LWrite c =>
      k ← w_conns w !! c;
      match c_out k with
      | [] => None
      | f :: out => Some (on_conn (fun k => set_out out (c_written k ++ [f]) k) c w)
      end
  | LWatchdog c => Some (closeWith c CloseSessionTimedOut w)
  | LTimer t => s ← w_timers w !! t; Some (spawn [IExpire s] (up_timers (delete t) w))
  | LEvent ev => onEvent ev w
  | LRevocation r =>
      Some (spawn [IRevokeScan r (sessionIndex_ofUser (Revocation_UserID r) (w_idx w)) []] w)
  | LLane n db => fanOut n db w
  end.

(** A server that has just started. *)
Definition New : World DB :=
  mkWorld ∅ 1 (mkIndex ∅ ∅ ∅) ∅ ∅ ∅ ∅ 1 ∅ 1 None []
    (replicate (Z.to_nat (opt_FanoutLanes o)) (mkLane [] LaneIdle)) ∅ ∅ ∅ [] [].

(** A run: [None] when some label names a step that cannot be taken there. *)
Fixpoint run (ls : list Label) w : option (World DB) :=
  match ls with
  | [] => Some w
  | l :: ls => w ← step l w; run ls w
  end.

Definition reachable w : Prop := exists ls, run ls New = Some w.

End server.
