(* ===== verification/GatewaySteps.v ===== *)
(** What one step of the gateway is: what queueing frames and a session's critical section change, seen from
    outside; at most one section of one session, a session registered, or bookkeeping around them; how the
    goroutines' remaining code moves on; and the rule for proving an invariant of all runs. *)
From S2P Require Import Prelude GoStd Permissions Snowflake Rows GatewayProto GatewaySession.
From S2P Require Import GatewayServer GatewayStream.

(** ** The steps from outside a section *)

(** Splits a computation in the option monad that succeeded. *)
Ltac opt_inv :=
  repeat match goal with
  | H : under_mu _ _ = Some _ |- _ => unfold under_mu in H
  | H : (_ ≫= _) = Some _ |- _ => apply bind_Some in H as (? & ? & H)
  | H : (let '(_, _) := ?p in _) = Some _ |- _ => destruct p eqn:?
  | H : match ?x with _ => _ end = Some _ |- _ => destruct x eqn:?; try discriminate H
  end; simplify_eq.

(** ** Frames on a connection *)

(** The dispatches among frames, as the session numbered them. *)
Definition dispatches (fs : list OutFrame) : list (Z * string) :=
  omap (fun f => match f with OutDispatch n s => Some (n, s) | OutControl _ => None end) fs.

(** Everything a connection's socket has carried or still will. *)
Definition traffic (k : conn) : list (Z * string) := dispatches (c_written k ++ c_out k).

(** Of frames for several connections, those for [c]. *)
Definition frames_to (c : Z) (sent : list (Z * OutFrame)) : list OutFrame :=
  omap (fun cf => if decide (cf.1 = c) then Some cf.2 else None) sent.

Lemma frames_to_app c s s' : frames_to c (s ++ s') = frames_to c s ++ frames_to c s'.
Proof. apply omap_app. Qed.

Lemma frames_to_same c fs : frames_to c ((c,.) <$> fs) = fs.
Proof.
  unfold frames_to. induction fs as [|f fs IH]; [done|]. cbn. rewrite decide_True by done. by f_equal.
Qed.

Lemma frames_to_other c c' fs : c' <> c -> frames_to c ((c',.) <$> fs) = [].
Proof.
  intros Hc. unfold frames_to. induction fs as [|f fs IH]; [done|]. cbn. by rewrite decide_False.
Qed.

Lemma dispatches_app fs fs' : dispatches (fs ++ fs') = dispatches fs ++ dispatches fs'.
Proof. apply omap_app. Qed.

Lemma dispatches_frames es : dispatches (frame_of <$> es) = pair_of <$> es.
Proof. unfold dispatches. induction es as [|e es IH]; [done|]. cbn. by f_equal. Qed.

(** A goroutine that only closes a connection. *)
Definition closer (cc : Z * Z) : list Instr := [ICloseWith cc.1 cc.2].

Section world.
Context {DB : Type} `{!AudienceResolver DB} (o : Options).
Implicit Types w : World DB.

(** ** Queueing frames *)

(** [w'] is [w] after [sent] was queued: a connection's queue grows by its frames unless it was full
    for some, and the connections that overran are being closed. Nothing else changes. *)
Record handed (sent : list (Z * OutFrame)) w w' : Prop := {
  h_heap : w_heap w' = w_heap w /\ w_nextSession w' = w_nextSession w /\ w_log w' = w_log w;
  h_server : w_idx w' = w_idx w /\ w_sessions w' = w_sessions w /\ w_perUser w' = w_perUser w /\
    w_unidentified w' = w_unidentified w /\ w_mu w' = w_mu w /\ w_nextConn w' = w_nextConn w;
  h_timers : w_timers w' = w_timers w /\ w_nextTimer w' = w_nextTimer w;
  h_lanes : w_lanes w' = w_lanes w /\ w_published w' = w_published w /\ w_judged w' = w_judged w;
  h_attached : w_attached w' = w_attached w;
  h_gos : exists cs, w_gos w' = w_gos w ++ (closer <$> cs);
  h_dropped : w_dropped w ⊆ w_dropped w';
  h_conns c : match w_conns w !! c with
              | None => w_conns w' !! c = None
              | Some k => exists out, w_conns w' !! c = Some (set_out out (c_written k) k) /\
                  (c ∉ w_dropped w' -> out = c_out k ++ frames_to c sent)
              end
}.

Lemma set_out_id k : set_out (c_out k) (c_written k) k = k.
Proof. by destruct k. Qed.

Lemma handed_refl w : handed [] w w.
Proof.
  split; try done.
  - exists []. by rewrite app_nil_r.
  - intros c. destruct (w_conns w !! c) as [k|]; [|done].
    exists (c_out k). rewrite set_out_id, app_nil_r. done.
Qed.

Lemma handed_trans s s' w1 w2 w3 : handed s w1 w2 -> handed s' w2 w3 -> handed (s ++ s') w1 w3.
Proof.
  intros [A1 A2 A3 A4 A5 [cs A6] A7 A8] [B1 B2 B3 B4 B5 [cs' B6] B7 B8].
  split; try (destruct_and!; split_and?; congruence).
  - exists (cs ++ cs'). by rewrite B6, A6, fmap_app, app_assoc.
  - by etrans.
  - intros c. specialize (A8 c). specialize (B8 c). destruct (w_conns w1 !! c) as [k|].
    + destruct A8 as (out & Hk & Hout). rewrite Hk in B8. destruct B8 as (out' & Hk' & Hout').
      exists out'. split; [done|]. intros Hc. cbn in Hout'.
      rewrite Hout', Hout by set_solver. by rewrite frames_to_app, app_assoc.
    + by rewrite A8 in B8.
Qed.

Lemma handed_spawn cc w : handed [] w (spawn (closer cc) w).
Proof.
  split; try done.
  - by exists [cc].
  - intros c. cbn. destruct (w_conns w !! c) as [k|]; [|done].
    exists (c_out k). rewrite set_out_id, app_nil_r. done.
Qed.

Lemma handed_enqueue c f w : handed [(c, f)] w (enqueueFrame c f w).
Proof.
  unfold enqueueFrame. destruct (w_conns w !! c) as [k|] eqn:Hk.
  - case_match.
    + split; try done; [exists []; by rewrite app_nil_r|]. intros c'. cbn.
      destruct (decide (c' = c)) as [->|Hc].
      * rewrite lookup_alter_eq, Hk. cbn. eexists. split; [done|]. by rewrite decide_True.
      * rewrite lookup_alter_ne by done. destruct (w_conns w !! c') as [k'|]; [|done].
        exists (c_out k'). rewrite set_out_id, decide_False by done. by rewrite app_nil_r.
    + split; try done; [by exists [(c, CloseTooSlow)]|cbn; set_solver|]. intros c'. cbn.
      destruct (w_conns w !! c') as [k'|]; [|done]. exists (c_out k'). split; [by rewrite set_out_id|].
      intros Hc. rewrite decide_False by set_solver. by rewrite app_nil_r.
  - split; try done; [exists []; by rewrite app_nil_r|]. intros c'.
    destruct (w_conns w !! c') as [k'|] eqn:Hk'; [|done]. exists (c_out k').
    split; [by rewrite set_out_id|]. intros _. cbn. rewrite decide_False by congruence.
    by rewrite app_nil_r.
Qed.

Lemma handed_enqueue_all sent w :
  handed sent w (foldl (fun w cf => enqueueFrame cf.1 cf.2 w) w sent).
Proof.
  revert w. induction sent as [|cf sent IH]; intros w; [apply handed_refl|].
  apply (handed_trans [cf] sent w (enqueueFrame cf.1 cf.2 w)); [|apply IH].
  destruct cf. apply handed_enqueue.
Qed.

Lemma handed_spawn_all cs w :
  handed [] w (foldl (fun w cc => spawn [ICloseWith cc.1 cc.2] w) w cs).
Proof.
  revert w. induction cs as [|cc cs IH]; intros w; [apply handed_refl|].
  apply (handed_trans [] [] w (spawn (closer cc) w)); [apply handed_spawn|apply IH].
Qed.

(** ** A critical section *)

(** The section a session's lock opens. *)
Definition opened w (sess : session) : Sec :=
  mkSec sess (w_idx w) (w_timers w) (w_nextTimer w) [] [] [].

(** What it leaves, before its frames are queued. *)
Definition left_by (s : Z) (x : Sec) w : World DB :=
  let w := up_heap (insert s (x_s x)) w in
  let w := up_idx (fun _ => x_idx x) w in
  let w := up_timers (fun _ => x_timers x) w in
  let w := up_nextTimer (fun _ => x_timer x) w in
  up_log (fun l => <[s := default [] (l !! s) ++ x_log x]> l) w.

Lemma locked_spec s f w w' :
  locked s f w = Some w' ->
  exists sess, w_heap w !! s = Some sess /\
    let x := f (opened w sess) in handed (x_sent x) (left_by s x w) w'.
Proof.
  unfold locked. destruct (w_heap w !! s) as [sess|] eqn:Hs; [|done]. cbn [mbind option_bind].
  cbv zeta. intros [= <-]. exists sess. split; [done|].
  apply (handed_trans [] _ _ _ _ (handed_spawn_all _ _) (handed_enqueue_all _ _)).
Qed.

(** ** Invariants of all runs *)

Lemma run_invariant (I : World DB -> Prop) w w' ls :
  (forall l w w', I w -> step o l w = Some w' -> I w') -> I w -> run o ls w = Some w' -> I w'.
Proof.
  intros Hstep. revert w. induction ls as [|l ls IH]; intros w Hw; cbn.
  - by intros [= <-].
  - destruct (step o l w) as [w1|] eqn:E; [|done]. cbn. apply IH. by eapply Hstep.
Qed.

Lemma run_app ls ls' w w' w'' :
  run o ls w = Some w' -> run o ls' w' = Some w'' -> run o (ls ++ ls') w = Some w''.
Proof.
  revert w. induction ls as [|l ls IH]; intros w; cbn; [by intros [= ->]|].
  destruct (step o l w) as [w1|]; [|done]. cbn. apply IH.
Qed.

Lemma run_snoc ls l w w' :
  run o (ls ++ [l]) w = Some w' -> exists w1, run o ls w = Some w1 /\ step o l w1 = Some w'.
Proof.
  revert w. induction ls as [|l' ls IH]; intros w; cbn.
  - intros (w1 & Hst & [= <-])%bind_Some. by exists w.
  - intros (w1 & -> & Hr)%bind_Some. cbn. by apply IH.
Qed.

End world.

(** ** The sections a step can open *)

Inductive SecOp :=
  | ODeliver (ev : Event string)
  | OReady (payload : option string) (guilds : gset Z)
  | OResume (c : Z) (actor : Actor) (sign : SignIn) (seq : Z)
  | OAttach (c : Z) (actor : Actor) (sign : SignIn)
  | ODetach (c : Z)
  | OTake
  | OStop.

Definition sec_of (limit s : Z) (op : SecOp) (x : Sec) : Sec :=
  match op with
  | ODeliver ev => deliver limit s ev x
  | OReady payload guilds => becomeReady limit s payload guilds x
  | OResume c actor sign seq =>
      (resume limit c (Actor_SessionID actor) (SignIn_Since sign) seq x).2
  | OAttach c _ _ => attach c x
  | ODetach c => detach s c x
  | OTake => takeConn x
  | OStop => stop s x
  end.

(** The attachment a section makes, with the session as it was. *)
Definition attaches (limit s : Z) (op : SecOp) (x : Sec) : option (Z * Attachment) :=
  match op with
  | OAttach c actor sign =>
      Some (c, mkAttachment s (s_seq (x_s x)) (Actor_UserID actor) (SignIn_Device sign))
  | OResume c actor sign seq =>
      match (resume limit c (Actor_SessionID actor) (SignIn_Since sign) seq x).1 with
      | resumed => Some (c, mkAttachment s seq (Actor_UserID actor) (SignIn_Device sign))
      | _ => None
      end
  | _ => None
  end.

(** ** The code of connections *)

Definition code_of {DB} (w : World DB) (c : Z) : list Instr :=
  match w_conns w !! c with Some k => c_code k | None => [] end.
Definition sess_of {DB} (w : World DB) (c : Z) : option Z := w_conns w !! c ≫= c_sess.

(** Instructions of identify and resume, which belong to one connection. *)
Definition private (i : Instr) : bool :=
  match i with
  | INewSession _ _ _ | INewScan _ _ _ _ _ | IAttach _ _ _ | IBind _ | ICheckLive _ | IReady _
  | IIdentified | IResumeLive _ _ _ _ | ILookup _ _ _ _ | IResume _ _ _ _ => true
  | _ => false
  end.

(** Those that may still lead to an attachment. *)
Definition attaching (i : Instr) : bool :=
  match i with
  | INewSession _ _ _ | INewScan _ _ _ _ _ | IAttach _ _ _
  | IResumeLive _ _ _ _ | ILookup _ _ _ _ | IResume _ _ _ _ => true
  | _ => false
  end.

(** Those on the way from a registered session to its READY. *)
Definition readying (s : Z) (i : Instr) : Prop :=
  match i with IAttach s' _ _ | ICheckLive s' | IReady s' => s' = s | _ => False end.

(** The shape of what a connection has left: private instructions end it. *)
Fixpoint shaped (code : list Instr) : Prop :=
  match code with
  | [] => True
  | IAttach s _ _ :: rest => rest = [IBind s; ICheckLive s]
  | IBind s :: rest => rest = [ICheckLive s] \/ rest = [IIdentified]
  | i :: rest => if private i then rest = [] else shaped rest
  end.

Lemma shaped_shared js rest :
  Forall (fun i => private i = false) js -> shaped rest -> shaped (js ++ rest).
Proof.
  intros Hjs Hr. induction Hjs as [|i js Hi _ IH]; [done|]. cbn [app].
  destruct i; cbn in Hi |- *; done.
Qed.

Section steps.
Context {DB : Type} `{!AudienceResolver DB} (o : Options).
Implicit Types w : World DB.
Let limit := opt_ResumeBuffer o.

(** Nothing but bookkeeping: the sessions, what they numbered, the index, the attachments and the
    frames of every connection are the same. A connection may have opened. *)
Record quiet w w' : Prop := {
  q_heap : w_heap w' = w_heap w /\ w_nextSession w' = w_nextSession w /\ w_log w' = w_log w /\
    w_idx w' = w_idx w;
  q_attached : w_attached w' = w_attached w;
  q_dropped : w_dropped w ⊆ w_dropped w';
  q_conns c k' : w_conns w' !! c = Some k' -> c ∉ w_dropped w' ->
    match w_conns w !! c with
    | Some k => traffic k' = traffic k
    | None => traffic k' = []
    end;
  q_open c : is_Some (w_conns w !! c) -> is_Some (w_conns w' !! c)
}.

(** The section [op] of session [s]. *)
Definition acted (s : Z) (op : SecOp) w w' : Prop :=
  exists sess w1, w_heap w !! s = Some sess /\
    let x := opened w sess in
    handed (x_sent (sec_of limit s op x)) (left_by s (sec_of limit s op x) w) w1 /\
    quiet (match attaches limit s op x with
           | Some (c, a) => up_attached (insert c a) w1
           | None => w1
           end) w'.

(** A session that newSession registers. *)
Definition new_session (id : string) (actor : Actor) (sign : SignIn) : session :=
  mkSession id (Actor_UserID actor) (SignIn_Device sign) (Actor_SessionID actor) (SignIn_Since sign)
    0 ∅ false [] false [] 0 None None.
Definition registered (id : string) (actor : Actor) (sign : SignIn) w w' : Prop :=
  quiet (up_idx (sessionIndex_register (w_nextSession w) (Actor_UserID actor))
           (up_nextSession (fun s => s + 1)
              (up_heap (insert (w_nextSession w) (new_session id actor sign)) w))) w'.

(** The instruction that opens the section, for the sections not every goroutine may open. *)
Definition opens (self : Z) (i : Instr) (s : Z) (op : SecOp) : Prop :=
  match op with
  | ODeliver _ => False
  | OReady _ _ => i = IReady s
  | OAttach c actor sign => c = self /\ i = IAttach s actor sign
  | OResume c actor sign seq => c = self /\ i = IResume s actor sign seq
  | ODetach c => c = self /\ i = IDetach
  | OTake | OStop => True
  end.

(** What an instruction does. *)
Definition executed (self : Z) (i : Instr) w w' : Prop :=
  quiet w w' \/
  (exists id actor sign olds, i = INewScan id actor sign [] olds /\ registered id actor sign w w') \/
  (exists s op, opens self i s op /\ acted s op w w').

Lemma quiet_refl w : quiet w w.
Proof. split; try done. intros c k' -> _. done. Qed.

Lemma quiet_trans w1 w2 w3 : quiet w1 w2 -> quiet w2 w3 -> quiet w1 w3.
Proof.
  intros [(H1 & H2 & H3 & H4) A D C O] [(H1' & H2' & H3' & H4') A' D' C' O'].
  split; [split_and!; congruence|congruence|by etrans| |by auto].
  intros c k' Hk' Hc. specialize (C' c k' Hk' Hc). destruct (w_conns w2 !! c) as [k2|] eqn:Hk2.
  - specialize (C c k2 Hk2 ltac:(set_solver)). rewrite C'. by destruct (w_conns w1 !! c).
  - destruct (w_conns w1 !! c) eqn:Hk1; [|done]. destruct (O c) as [? ?]; [by eexists|congruence].
Qed.

(** Setters of what [quiet] is not about. *)
Lemma quiet_same w w' :
  w_heap w' = w_heap w -> w_nextSession w' = w_nextSession w -> w_log w' = w_log w ->
  w_idx w' = w_idx w -> w_attached w' = w_attached w -> w_dropped w' = w_dropped w ->
  w_conns w' = w_conns w -> quiet w w'.
Proof.
  intros ?????? Hc. split; [done|done|set_solver| |by rewrite Hc].
  intros c k'. rewrite Hc. by intros ->.
Qed.

Lemma quiet_conn_at f c w :
  (forall k, w_conns w !! c = Some k -> traffic (f k) = traffic k) -> quiet w (on_conn f c w).
Proof.
  intros Hf. split; try done.
  - intros c' k'. cbn. rewrite lookup_alter_Some.
    intros [(-> & k & Hk & ->)|[_ ->]] _; [|done]. rewrite Hk. by apply Hf.
  - intros c'. cbn. destruct (decide (c' = c)) as [->|].
    + rewrite lookup_alter_eq. intros [k ->]. done.
    + by rewrite lookup_alter_ne.
Qed.

Lemma quiet_conn f c w : (forall k, traffic (f k) = traffic k) -> quiet w (on_conn f c w).
Proof. intros Hf. apply quiet_conn_at. auto. Qed.

(** Control frames are not part of a stream. *)
Lemma quiet_handed sent w w' :
  Forall (fun cf => match cf.2 with OutControl _ => True | _ => False end) sent ->
  handed sent w w' -> quiet w w'.
Proof.
  intros Hctl [(H1 & H2 & H3) (I1 & _) _ _ A _ D C]. split; [done|done|done| |].
  - intros c k' Hk' Hd. specialize (C c). destruct (w_conns w !! c) as [k|] eqn:Hk; [|congruence].
    destruct C as (out & Hout & Heq). rewrite Hout in Hk'. injection Hk' as <-.
    rewrite (Heq Hd). unfold traffic. cbn. rewrite app_assoc, (dispatches_app _ (frames_to c sent)).
    replace (dispatches (frames_to c sent)) with (@nil (Z * string)); [by rewrite app_nil_r|].
    clear -Hctl. induction Hctl as [|[c' f] sent Hf _ IH]; [done|]. cbn in *.
    destruct f; [done|]. by case_decide.
  - intros c [k Hk]. specialize (C c). rewrite Hk in C. destruct C as (out & -> & _). done.
Qed.

Lemma executed_quiet self i w w' : quiet w w' -> executed self i w w'.
Proof. by left. Qed.

Lemma acted_locked s op w w' :
  (forall x, attaches limit s op x = None) -> locked s (sec_of limit s op) w = Some w' -> acted s op w w'.
Proof.
  intros Hat Hl. destruct (locked_spec _ _ _ _ Hl) as (sess & Hs & Hh).
  exists sess, w'. split; [done|]. split; [exact Hh|]. rewrite Hat. apply quiet_refl.
Qed.

Lemma executed_locked self i s op w w' :
  (forall x, attaches limit s op x = None) -> opens self i s op ->
  locked s (sec_of limit s op) w = Some w' -> executed self i w w'.
Proof. intros Hat Ho Hl. right; right. exists s, op. split; [done|]. by apply acted_locked. Qed.

Lemma executed_newSession self i w w' code :
  exec_newSession self i w = Some (w', code) -> executed self i w w'.
Proof.
  unfold exec_newSession. intros Hex. destruct i; try done.
  - opt_inv. left. by apply quiet_same.
  - destruct olds as [|old olds].
    + destruct (newSession_register id actor sign w) as [w1 made] eqn:E.
      unfold newSession_register in E. cbv zeta in E. destruct (_ <=? _) in E; simplify_eq.
      * opt_inv. left. by apply quiet_same.
      * opt_inv. right; left. do 4 eexists. split; [done|]. by apply quiet_same.
    + opt_inv. unfold newSession_scan in *. opt_inv. left. repeat case_match; simplify_eq;
        try apply quiet_refl; by apply quiet_same.
Qed.

Lemma quiet_markIdentified c w : quiet w (markIdentified c w).
Proof.
  unfold markIdentified. destruct (w_conns w !! c) as [k|]; [|apply quiet_refl].
  case_match; [apply quiet_refl|].
  eapply quiet_trans; [by apply (quiet_conn set_slotReleased c)|by apply quiet_same].
Qed.

Lemma quiet_control c op w : quiet w (enqueueFrame c (OutControl op) w).
Proof. eapply quiet_handed; [|apply handed_enqueue]. by repeat constructor. Qed.

Lemma quiet_closeWith c code w : quiet w (closeWith c code w).
Proof. apply quiet_conn. intros k. by destruct (c_closing k). Qed.

Lemma executed_identify self i a w w' code :
  exec_identify o self i a w = Some (w', code) -> executed self i w w'.
Proof.
  unfold exec_identify. intros Hex. destruct i; try done.
  - opt_inv. right; right. exists s, (OAttach self actor sign). split; [done|].
    destruct (locked_spec _ _ _ _ H0) as (sess & Hs & Hh). simplify_eq.
    eexists _, x0. split; [done|]. split; [exact Hh|]. apply quiet_refl.
  - opt_inv. left. by apply quiet_conn.
  - opt_inv; left; by apply quiet_refl.
  - opt_inv; [|left; by apply quiet_refl].
    by eapply (executed_locked _ _ _ (OReady o0 (list_to_set l))).
  - opt_inv. left. apply quiet_markIdentified.
Qed.

Lemma executed_resume self i a w w' code :
  exec_resume o self i a w = Some (w', code) -> executed self i w w'.
Proof.
  unfold exec_resume. intros Hex. destruct i; try done.
  - opt_inv; left; by apply quiet_refl.
  - opt_inv; left; by apply quiet_refl.
  - opt_inv; right; right; exists s, (OResume self actor sign seq); (split; [done|]);
      destruct (locked_spec _ _ _ _ H0) as (sess & Hs & Hh); simplify_eq;
      eexists _, _; (split; [done|]); (split; [exact Hh|]); cbn;
      unfold opened, limit; rewrite Heqr; apply quiet_refl.
Qed.

Lemma executed_shared self i w w' code :
  exec_shared self i w = Some (w', code) -> executed self i w w'.
Proof.
  unfold exec_shared. intros Hex. destruct i; try done; opt_inv; try (left; apply quiet_refl).
  - by eapply (executed_locked _ _ _ (ODetach self)).
  - left. eapply quiet_trans; [apply quiet_markIdentified|by apply quiet_conn].
  - left. apply quiet_control.
  - left. apply quiet_closeWith.
  - left. by apply quiet_same.
  - left. unfold forget in *. opt_inv. case_match; [by apply quiet_same|apply quiet_refl].
  - by eapply (executed_locked _ _ _ OStop).
  - by eapply (executed_locked _ _ _ OTake).
Qed.

Lemma exec_executed self i a w w' code :
  exec o self i a w = Some (w', code) -> executed self i w w'.
Proof.
  unfold exec. intros Hex. destruct i;
    first [by eapply executed_newSession|by eapply executed_identify|by eapply executed_resume
          |by eapply executed_shared].
Qed.

(** ** The code that is left *)

(** How the code [i] makes way for relates to [i]. *)
Definition follows w w' (i j : Instr) : Prop :=
  match j with
  | INewSession _ _ _ | IResumeLive _ _ _ _ => False
  | INewScan id actor sign _ _ =>
      i = INewSession id actor sign \/ exists olds superseded, i = INewScan id actor sign olds superseded
  | IAttach s actor sign =>
      s = w_nextSession w /\ (exists id superseded, i = INewScan id actor sign [] superseded) /\
      exists sess, w_heap w' !! s = Some sess /\ s_ready sess = false /\
        s_userID sess = Actor_UserID actor /\ s_deviceID sess = SignIn_Device sign
  | ICheckLive s =>
      s = w_nextSession w /\ (exists id actor sign superseded, i = INewScan id actor sign [] superseded) /\
      exists sess, w_heap w' !! s = Some sess /\ s_ready sess = false
  | IReady s => i = ICheckLive s
  | ILookup id actor sign seq => i = IResumeLive id actor sign seq
  | IResume s actor sign seq => exists id, i = ILookup id actor sign seq /\
      exists sess, w_heap w !! s = Some sess /\ s_userID sess = Actor_UserID actor /\
        s_deviceID sess = SignIn_Device sign
  | _ => private j = true -> private i = true
  end.

Lemma follows_shared w w' i js :
  Forall (fun j => private j = false) js -> Forall (follows w w' i) js.
Proof. intros Hjs. eapply Forall_impl; [exact Hjs|]. intros j Hj. by destruct j. Qed.

Lemma exec_code self i a w w' code :
  exec o self i a w = Some (w', code) -> Forall (follows w w' i) code.
Proof.
  unfold exec. intros Hex.
  destruct i; unfold exec_newSession, exec_identify, exec_resume, exec_shared in Hex; opt_inv;
    try (by repeat constructor); try (by apply follows_shared; repeat constructor).
  - unfold newSession_register in Heqp. cbv zeta in Heqp. destruct (_ <=? _) in Heqp; simplify_eq.
    apply Forall_app. split; [apply follows_shared; by apply Forall_fmap, Forall_true|].
    repeat constructor; cbn; eauto 10; eexists; rewrite lookup_insert_eq; done.
  - apply Forall_app. split; [apply follows_shared; by apply Forall_fmap, Forall_true|].
    by repeat constructor.
  - constructor; [|done]. right. by eexists _, _.
  - bool_hyps. constructor; [|done]. exists id. split; [done|]. eexists. split_and!; [done|lia|].
    by apply String.eqb_eq.
  - apply follows_shared, Forall_app. split; [by repeat constructor|].
    destruct (s_conn x); by repeat constructor.
  - apply follows_shared. case_bool_decide; by repeat constructor.
  - apply follows_shared. by apply Forall_fmap, Forall_true.
Qed.

(** Shared instructions make way for shared ones. *)
Lemma exec_shared_code self i a w w' code :
  private i = false -> exec o self i a w = Some (w', code) ->
  Forall (fun j => private j = false) code.
Proof.
  intros Hi Hex. eapply Forall_impl; [by eapply exec_code|]. intros j Hj.
  destruct (private j) eqn:Ep; [|done]. destruct j, i; try done; cbn in Hj; naive_solver.
Qed.

(** What an instruction leaves alone: the other connections, the code of every goroutine already
    running, the lanes and what was published. *)
Record calm w w' : Prop := {
  ca_conns c : match w_conns w !! c, w_conns w' !! c with
               | Some k, Some k' => c_code k' = c_code k /\ (c_sess k' = c_sess k)
               | None, None => True
               | _, _ => False
               end;
  ca_gos : exists cs, w_gos w' = w_gos w ++ (closer <$> cs);
  ca_lanes : w_lanes w' = w_lanes w /\ w_published w' = w_published w /\ w_judged w' = w_judged w;
  ca_next : w_nextConn w' = w_nextConn w
}.

Lemma calm_trans w1 w2 w3 : calm w1 w2 -> calm w2 w3 -> calm w1 w3.
Proof.
  intros [C1 [cs G1] L1 N1] [C2 [cs' G2] L2 N2]. split; [|exists (cs ++ cs')| |congruence].
  - intros c. specialize (C1 c). specialize (C2 c).
    destruct (w_conns w1 !! c), (w_conns w2 !! c), (w_conns w3 !! c); try done. naive_solver congruence.
  - by rewrite G2, G1, fmap_app, app_assoc.
  - destruct_and!. split_and!; congruence.
Qed.

Lemma calm_same w w' :
  w_conns w' = w_conns w -> w_gos w' = w_gos w -> w_lanes w' = w_lanes w ->
  w_published w' = w_published w -> w_judged w' = w_judged w -> w_nextConn w' = w_nextConn w ->
  calm w w'.
Proof.
  intros Hc Hg Hl Hp Hj Hn. split; [|exists []; by rewrite app_nil_r|done|done].
  intros c. rewrite Hc. by destruct (w_conns w !! c).
Qed.

Lemma calm_refl w : calm w w.
Proof. by apply calm_same. Qed.

Lemma calm_conn f c w :
  (forall k, c_code (f k) = c_code k /\ c_sess (f k) = c_sess k) -> calm w (on_conn f c w).
Proof.
  intros Hf. split; [|exists []; by rewrite app_nil_r|done|done].
  intros c'. cbn. destruct (decide (c' = c)) as [->|].
  - rewrite lookup_alter_eq. destruct (w_conns w !! c); [apply Hf|done].
  - rewrite lookup_alter_ne by done. by destruct (w_conns w !! c').
Qed.

Lemma calm_handed sent w w' : handed sent w w' -> calm w w'.
Proof.
  intros [_ (_ & _ & _ & _ & _ & N) _ L _ G _ C]. split; try done.
  intros c. specialize (C c). destruct (w_conns w !! c) as [k|]; [|by rewrite C].
  by destruct C as (out & -> & _).
Qed.

Lemma calm_locked s f w w' : locked s f w = Some w' -> calm w w'.
Proof.
  intros Hl. destruct (locked_spec _ _ _ _ Hl) as (sess & Hs & Hh).
  eapply calm_trans; [|by eapply calm_handed]. by apply calm_same.
Qed.

Lemma calm_markIdentified c w : calm w (markIdentified c w).
Proof.
  unfold markIdentified. destruct (w_conns w !! c) as [k|]; [|apply calm_refl].
  case_match; [apply calm_refl|].
  eapply calm_trans; [by apply (calm_conn set_slotReleased c)|by apply calm_same].
Qed.

Hint Resolve calm_refl calm_locked calm_markIdentified : norite.

Lemma exec_calm self i a w w' code :
  exec o self i a w = Some (w', code) ->
  calm w w' \/ exists s, i = IBind s /\ w' = on_conn (set_sess s) self w.
Proof.
  unfold exec. intros Hex.
  destruct i; unfold exec_newSession, exec_identify, exec_resume, exec_shared in Hex; opt_inv;
    try (by right; eexists); left; eauto with norite; try (by apply calm_same).
  - unfold newSession_register in Heqp. cbv zeta in Heqp. destruct (_ <=? _) in Heqp; simplify_eq;
      by apply calm_same.
  - unfold newSession_register in Heqp. cbv zeta in Heqp. destruct (_ <=? _) in Heqp; simplify_eq;
      by apply calm_same.
  - unfold newSession_scan in *. opt_inv. repeat case_match; simplify_eq;
      try apply calm_refl; by apply calm_same.
  - eapply calm_trans; [by eapply calm_locked|by apply calm_same].
  - eapply calm_trans; [by eapply calm_locked|by apply calm_same].
  - eapply calm_trans; [apply calm_markIdentified|by apply calm_conn].
  - eapply calm_handed, handed_enqueue.
  - apply calm_conn. intros k. by destruct (c_closing k).
  - apply (calm_handed []), (handed_spawn (_, _)).
  - unfold forget in *. opt_inv. case_match; [by apply calm_same|apply calm_refl].
Qed.

(** ** One step *)

(** What made the section [op] of [s] happen. *)
Definition asked (l : Label (DB := DB)) (s : Z) (op : SecOp) w : Prop :=
  match op with
  | ODeliver ev => exists n db q rest,
      l = LLane n db /\ w_lanes w !! n = Some (mkLane q (LaneDeliver ev (s :: rest)))
  | OReady _ _ => exists c a rest, l = LServe c a /\ code_of w c = IReady s :: rest
  | OAttach c actor sign => exists a rest, l = LServe c a /\ code_of w c = IAttach s actor sign :: rest
  | OResume c actor sign seq =>
      exists a rest, l = LServe c a /\ code_of w c = IResume s actor sign seq :: rest
  | ODetach _ | OTake | OStop => True
  end.

(** A session is registered, or a section runs, or neither. *)
Definition moved (l : Label (DB := DB)) w w' : Prop :=
  quiet w w' \/
  (exists id actor sign c a rest olds, l = LServe c a /\
     code_of w c = INewScan id actor sign [] olds :: rest /\ registered id actor sign w w') \/
  (exists s op, asked l s op w /\ acted s op w w').

(** Background goroutines hold shared instructions only. *)
Definition shared_gos w : Prop := Forall (Forall (fun i => private i = false)) (w_gos w).
Definition fresh_conns w : Prop := forall c, is_Some (w_conns w !! c) -> c < w_nextConn w.

Lemma acted_quiet s op w w1 w' : acted s op w w1 -> quiet w1 w' -> acted s op w w'.
Proof.
  intros (sess & w2 & Hs & Hh & Hq) Hq'. exists sess, w2. split; [done|]. split; [done|].
  by eapply quiet_trans.
Qed.

Lemma moved_quiet l w w1 w' : moved l w w1 -> quiet w1 w' -> moved l w w'.
Proof.
  intros [H1|[(id & actor & sign & c & a & rest & olds & Hl & Hc & H1)|(s & op & Ha & H1)]] Hq.
  - left. by eapply quiet_trans.
  - right; left. exists id, actor, sign, c, a, rest, olds. split_and!; [done..|]. by eapply quiet_trans.
  - right; right. exists s, op. split; [done|]. by eapply acted_quiet.
Qed.

Lemma moved_executed c a i rest w w' :
  code_of w c = i :: rest -> executed c i w w' -> moved (LServe c a) w w'.
Proof.
  intros Hc [H1|[(id & actor & sign & olds & -> & H1)|(s & op & Ho & H1)]]; [by left| |].
  { right; left. by exists id, actor, sign, c, a, rest, olds. }
  right; right. exists s, op. split; [|done].
  destruct op; cbn in Ho |- *; destruct_and?; subst; eauto 10; done.
Qed.

Lemma moved_shared l i w w' : private i = false -> executed 0 i w w' -> moved l w w'.
Proof.
  intros Hi [H1|[(id & actor & sign & olds & -> & H1)|(s & op & Ho & H1)]]; [by left|done|].
  right; right. exists s, op. split; [|done]. destruct op; cbn in Ho |- *; destruct_and?; subst; done.
Qed.

Lemma step_moved l w w' :
  step o l w = Some w' -> fresh_conns w -> shared_gos w -> moved l w w'.
Proof.
  intros Hst Hf Hg. destruct l; cbn in Hst.
  - unfold ServeHTTP in Hst. opt_inv. left. case_match; [apply quiet_refl|]. split; try done.
    + intros c k'. cbn. rewrite lookup_insert_Some. intros [[<- <-]|[_ ->]] _; [|done].
      destruct (w_conns w !! w_nextConn w) eqn:E; [|done].
      specialize (Hf (w_nextConn w) ltac:(by eexists)). lia.
    + intros c Hc. cbn. apply lookup_insert_is_Some'. by right.
  - opt_inv. left. by apply quiet_conn.
  - opt_inv. left. by apply quiet_conn.
  - opt_inv. left. by apply quiet_conn.
  - opt_inv. eapply moved_quiet; [|by apply quiet_conn].
    eapply moved_executed; [|by eapply exec_executed]. unfold code_of. by simplify_option_eq.
  - opt_inv. apply (moved_quiet _ _ w0); [|by apply quiet_same].
    eapply moved_shared; [|by eapply exec_executed].
    assert (Forall (fun j => private j = false) (i :: l)) as Hgl by (by eapply (Forall_lookup_1 _ _ n)).
    by apply Forall_cons in Hgl as [Hi _].
  - opt_inv. left. apply quiet_conn_at. intros k Hk. simplify_eq. unfold traffic. cbn.
    rewrite Heql. by rewrite <- app_assoc.
  - opt_inv. left. apply quiet_closeWith.
  - opt_inv. left. by apply quiet_same.
  - unfold onEvent in Hst. opt_inv. left. by apply quiet_same.
  - opt_inv. left. by apply quiet_same.
  - unfold fanOut in Hst. opt_inv; try (left; by apply quiet_same).
    apply (moved_quiet _ _ x0); [|by apply quiet_same]. right; right. exists z, (ODeliver ev). split.
    + exists n, db. destruct x. cbn in *. subst. eauto.
    + by apply acted_locked.
Qed.

End steps.
