(* ===== verification/GatewayInv.v ===== *)
(** The invariants of every run of the gateway: the code goroutines have left is coherent, the index
    agrees with the sessions, and every stream is in order. *)
From S2P Require Import Prelude GoStd Permissions Snowflake Rows GatewayProto GatewaySession.
From S2P Require Import GatewayServer GatewayStream GatewaySteps.

Section inv.
Context {DB : Type} `{!AudienceResolver DB} (o : Options).
Implicit Types w : World DB.
Let limit := opt_ResumeBuffer o.
Context (Hlimit : 0 <= opt_ResumeBuffer o).

(** ** How code moves on *)

(** The frame [l] of connection [c] held a token that authenticated. *)
Definition presents (l : Label (DB := DB)) (c : Z) (actor : Actor) (sign : SignIn) : Prop :=
  exists f ta sid checked, l = LFrame c f ta sid checked /\ authenticate ta = inr (actor, sign).

(** What a client's frame may start. *)
Definition starts (l : Label (DB := DB)) (c : Z) (i : Instr) : Prop :=
  match i with
  | INewSession _ actor sign => presents l c actor sign
  | IResumeLive _ actor sign n => 0 <= n /\ presents l c actor sign
  | _ => False
  end.

(** One connection's code and session moved, or none's. *)
Definition code_moved (l : Label (DB := DB)) (c : Z) w w' : Prop :=
  (forall c', c' <> c -> code_of w' c' = code_of w c' /\ sess_of w' c' = sess_of w c') /\
  ((code_of w' c = code_of w c /\ sess_of w' c = sess_of w c) \/
   (code_of w c = [] /\ sess_of w' c = sess_of w c /\
      (Forall (fun i => private i = false) (code_of w' c) \/
       sess_of w c = None /\ exists i, code_of w' c = [i] /\ starts l c i)) \/
   (exists a i rest code, l = LServe c a /\ code_of w c = i :: rest /\ code_of w' c = code ++ rest /\
      (exists w1, Forall (follows w w1 i) code) /\ (shaped (i :: rest) -> shaped (code ++ rest)) /\
      ((sess_of w' c = sess_of w c /\ (forall s, i <> IBind s)) \/ exists s, i = IBind s /\ sess_of w' c = Some s))).

Lemma handle_code self k f ta sid checked :
  let js := handle o self k f ta sid checked in
  Forall (fun i => private i = false) js \/
  c_sess k = None /\ exists i, js = [i] /\ starts (LFrame self f ta sid checked) self i.
Proof.
  unfold handle. destruct f, (c_sess k) as [s|]; try (by left; repeat constructor).
  - left. destruct checked as [[]|]; by repeat constructor.
  - unfold identify. repeat (case_match; try (by left; repeat constructor)).
    right. split; [done|]. eexists. split; [done|]. cbn. by do 4 eexists.
  - unfold conn_resume. repeat (case_match; try (by left; repeat constructor)).
    right. split; [done|]. eexists. split; [done|]. bool_hyps. split; [lia|]. by do 4 eexists.
Qed.

Lemma exec_shaped self i a w w' code rest :
  exec o self i a w = Some (w', code) -> shaped (i :: rest) -> shaped (code ++ rest).
Proof.
  unfold exec. intros Hex Hsh.
  destruct i; unfold exec_newSession, exec_identify, exec_resume, exec_shared in Hex; opt_inv;
    cbn in Hsh; subst; try done; try (by rewrite ?app_nil_r; cbn; auto);
    try (by destruct Hsh as [->| ->]; cbn; auto);
    try (by rewrite app_nil_r; apply shaped_shared; [apply Forall_fmap, Forall_true|]);
    (apply shaped_shared; [|done]).
  - apply Forall_app. split; [by repeat constructor|]. destruct (s_conn x); by repeat constructor.
  - case_bool_decide; by repeat constructor.
  - by apply Forall_fmap, Forall_true.
Qed.

Lemma calm_code w w' c : calm w w' -> code_of w' c = code_of w c /\ sess_of w' c = sess_of w c.
Proof.
  intros [C _ _ _]. specialize (C c). unfold code_of, sess_of.
  destruct (w_conns w !! c), (w_conns w' !! c); naive_solver.
Qed.

Lemma conn_code f c w c' :
  code_of (on_conn f c w) c' =
    (if decide (c' = c) then match w_conns w !! c with Some k => c_code (f k) | None => [] end
     else code_of w c') /\
  sess_of (on_conn f c w) c' =
    (if decide (c' = c) then w_conns w !! c ≫= (fun k => c_sess (f k)) else sess_of w c').
Proof.
  unfold code_of, sess_of. cbn. destruct (decide (c' = c)) as [->|].
  - rewrite lookup_alter_eq. by destruct (w_conns w !! c).
  - by rewrite lookup_alter_ne.
Qed.

Lemma code_same l c w w' :
  (forall c, code_of w' c = code_of w c /\ sess_of w' c = sess_of w c) -> code_moved l c w w'.
Proof. intros H1. split; [auto|]. left. apply H1. Qed.

(** A label that sets the code of a connection waiting in Read. *)
Lemma code_moved_frame l c k js w :
  reading c w = Some k ->
  (Forall (fun i => private i = false) js \/ c_sess k = None /\ exists i, js = [i] /\ starts l c i) ->
  code_moved l c w (on_conn (set_code js) c w).
Proof.
  unfold reading. intros Hr Hjs. opt_inv. destruct (conn_code (set_code js) c w c) as [Hc Hs].
  rewrite decide_True, H in Hc by done. rewrite decide_True, H in Hs by done. cbn in Hc, Hs. split.
  - intros c' Hne. destruct (conn_code (set_code js) c w c') as [-> ->]. by rewrite !decide_False by done.
  - right; left. unfold code_of at 1, sess_of at 2 3. rewrite H. cbn.
    rewrite Hc, Hs. split; [done|]. split; [done|]. exact Hjs.
Qed.

Lemma is_bind i : (exists s, i = IBind s) \/ forall s, i <> IBind s.
Proof. destruct i; try (by right); left. by eexists. Qed.

(** A step of the connection's own goroutine. *)
Lemma code_moved_serve c a i rest code w w1 :
  code_of w c = i :: rest -> exec o c i a w = Some (w1, code) ->
  code_moved (LServe c a) c w (on_conn (set_code (code ++ rest)) c w1).
Proof.
  intros Hc Hex.
  pose proof (exec_code _ _ _ _ _ _ _ Hex) as Hfol.
  assert (forall rest', shaped (i :: rest') -> shaped (code ++ rest')) as Hsh by (by intros; eapply exec_shaped).
  destruct (conn_code (set_code (code ++ rest)) c w1 c) as [Hc1 Hs1].
  rewrite decide_True in Hc1 by done. rewrite decide_True in Hs1 by done. cbn in Hs1.
  assert (exists k, w_conns w !! c = Some k) as [k Hk].
  { unfold code_of in Hc. destruct (w_conns w !! c); [by eexists|done]. }
  destruct (exec_calm _ _ _ _ _ _ _ Hex) as [Hcalm|(s & -> & ->)].
  - assert (exists k1, w_conns w1 !! c = Some k1 /\ c_sess k1 = c_sess k) as (k1 & Hk1 & Hks).
    { destruct Hcalm as [C _ _ _]. specialize (C c). rewrite Hk in C.
      destruct (w_conns w1 !! c); [|done]. eexists. split; [done|]. apply C. }
    split.
    + intros c' Hne. destruct (conn_code (set_code (code ++ rest)) c w1 c') as [-> ->].
      rewrite !decide_False by done. by apply calm_code.
    + right; right. exists a, i, rest, code. split_and!; try done.
      * by rewrite Hc1, Hk1.
      * by eexists.
      * auto.
      * destruct (is_bind i) as [(s & ->)|Hn].
        { right. exists s. split; [done|]. cbn in Hex. simplify_eq. rewrite Hs1.
          cbn. rewrite lookup_alter_eq, Hk. done. }
        left. split; [|done]. rewrite Hs1, Hk1. unfold sess_of. rewrite Hk. cbn. done.
  - cbn in Hex. simplify_eq. split.
    + intros c' Hne. destruct (conn_code (set_code ([] ++ rest)) c (on_conn (set_sess s) c w) c') as [-> ->].
      rewrite !decide_False by done. destruct (conn_code (set_sess s) c w c') as [-> ->].
      by rewrite !decide_False by done.
    + right; right. exists a, (IBind s), rest, []. split_and!; try done.
      * rewrite Hc1. cbn. by rewrite lookup_alter_eq, Hk.
      * by exists w.
      * auto.
      * right. exists s. split; [done|]. rewrite Hs1. cbn. by rewrite lookup_alter_eq, Hk.
Qed.

Lemma step_code l w w' :
  step o l w = Some w' -> fresh_conns w -> shared_gos w -> exists c, code_moved l c w w'.
Proof.
  intros Hst Hf Hg. destruct l; cbn in Hst.
  - unfold ServeHTTP in Hst. opt_inv. case_match; [by exists 0; apply code_same|].
    exists 0. apply code_same. intros c. unfold code_of, sess_of. cbn.
    destruct (decide (c = w_nextConn w)) as [->|].
    + rewrite lookup_insert_eq. destruct (w_conns w !! w_nextConn w) eqn:E; [|done].
      specialize (Hf (w_nextConn w) ltac:(by eexists)). lia.
    + by rewrite lookup_insert_ne.
  - opt_inv. exists c. by eapply code_moved_frame, handle_code.
  - opt_inv. exists c. eapply code_moved_frame; [done|]. left. by repeat constructor.
  - opt_inv. exists c. eapply code_moved_frame; [done|]. left. by repeat constructor.
  - opt_inv. exists c. eapply code_moved_serve; [|done]. unfold code_of. by simplify_option_eq.
  - opt_inv. exists 0. apply code_same. intros c.
    assert (Forall (fun j => private j = false) (i :: l)) as Hgl by (by eapply (Forall_lookup_1 _ _ n)).
    apply Forall_cons in Hgl as [Hi _].
    destruct (exec_calm _ _ _ _ _ _ _ H0) as [Hc|(s & -> & _)]; [by apply (calm_code w w0)|done].
  - opt_inv. exists c. apply code_same. intros c'.
    destruct (conn_code (fun k => set_out l (c_written k ++ [o0]) k) c w c') as [-> ->].
    unfold code_of, sess_of. case_decide; [|done]. subst. by rewrite H.
  - opt_inv. exists c. apply code_same. intros c'. eapply calm_code, calm_conn. intros k. by destruct (c_closing k).
  - opt_inv. exists 0. by apply code_same.
  - unfold onEvent in Hst. opt_inv. exists 0. by apply code_same.
  - opt_inv. exists 0. by apply code_same.
  - exists 0. apply code_same. intros c. unfold fanOut in Hst. opt_inv; try done.
    apply (calm_code w x0). by eapply calm_locked.
Qed.

(** ** How sessions move on *)

Lemma sec_ready s op x :
  (forall payload guilds, op <> OReady payload guilds) ->
  s_ready (x_s (sec_of limit s op x)) = s_ready (x_s x).
Proof.
  intros Hop. destruct op; cbn; try done.
  - unfold deliver. destruct (s_ended (x_s x)); [done|].
    destruct (s_ready (x_s x)) eqn:R; cbn; [|done].
    destruct (grows_apply limit s ev x) as (es & Hg & _).
    destruct (g_state _ _ _ Hg) as (_ & -> & _). done.
  - by destruct (Hop payload guilds).
  - destruct ((resume limit c (Actor_SessionID actor) (SignIn_Since sign) seq x).1) eqn:E;
      [|by rewrite resume_refused by congruence..].
    destruct (resume_resumed limit Hlimit [] _ _ _ _ _ E) as (e & _ & _ & _ & _ & _ & _ & _ & _ & Hr & _). done.
  - unfold detach. case_match; [done|]. cbn. by case_match.
  - unfold stop, stop_expiry. by repeat (case_match; cbn).
Qed.

(** A READY session holds nothing back. *)
Definition settled (s : session) : Prop := s_ready s = true -> s_pending s = [].

Lemma sec_settled s op x : settled (x_s x) -> settled (x_s (sec_of limit s op x)).
Proof.
  unfold settled. intros Hst. destruct op; cbn; try done.
  - unfold deliver. destruct (s_ended (x_s x)); [done|].
    destruct (s_ready (x_s x)) eqn:R; cbn; [|done].
    destruct (grows_apply limit s ev x) as (es & Hg & _).
    destruct (g_state _ _ _ Hg) as (_ & _ & -> & _). auto.
  - unfold becomeReady. destruct (s_ended (x_s x)); [done|]. by cbn.
  - destruct ((resume limit c (Actor_SessionID actor) (SignIn_Since sign) seq x).1) eqn:E;
      [|by rewrite resume_refused by congruence..].
    destruct (resume_resumed limit Hlimit [] _ _ _ _ _ E) as (e & Hsec & _ & _ & _ & _ & _ & _ & _ & -> & _).
    intros Hr. specialize (Hst Hr). pose proof (sc_events _ _ _ _ _ _ Hsec) as Hev.
    rewrite Hst in Hev. apply sublist_nil_r in Hev. by apply app_eq_nil in Hev as [_ ?].
  - unfold detach. case_match; [done|]. cbn. by case_match.
Qed.

(** The facts every section shares, for whichever section it is, and where its frames go. *)
Definition delivered (op : SecOp) : list (Event string) :=
  match op with ODeliver ev => [ev] | _ => [] end.
Definition sec_conn (op : SecOp) (x x' : Sec) (es : list Entry) : Prop :=
  match op with
  | OAttach c _ _ => conn_kept (Some c) x x' es
  | OResume c actor sign n =>
      match (resume limit c (Actor_SessionID actor) (SignIn_Since sign) n x).1 with
      | resumed => s_ended (x_s x) = false /\ oldest (x_s x) - 1 <= n <= s_seq (x_s x) /\
          s_conn (x_s x') = Some c /\
          x_sent x' = x_sent x ++ ((c,.) <$> replay n (s_buf (x_s x))) ++ sends (Some c) es
      | _ => conn_kept None x x' es
      end
  | _ => conn_kept None x x' es
  end.

Lemma sec_section log s op x :
  settled (x_s x) ->
  exists es, section limit log (delivered op) x (sec_of limit s op x) es /\
    sec_conn op x (sec_of limit s op x) es.
Proof.
  intros Hst. destruct op; cbn.
  - by apply section_deliver.
  - by apply section_becomeReady.
  - destruct ((resume limit c (Actor_SessionID actor) (SignIn_Since sign) seq x).1) eqn:E.
    + destruct (resume_resumed limit Hlimit log _ _ _ _ _ E)
        as (e & Hsec & _ & He & Hseq & Hc & Hsent & _).
      exists [e]. split; [done|]. split_and!; try done; [lia..|].
      by rewrite Hsent, fmap_app.
    + exists []. rewrite resume_refused by congruence.
      split; [by apply section_quiet|apply conn_kept_quiet; auto].
    + exists []. rewrite resume_refused by congruence.
      split; [by apply section_quiet|apply conn_kept_quiet; auto].
    + exists []. rewrite resume_refused by congruence.
      split; [by apply section_quiet|apply conn_kept_quiet; auto].
  - exists []. apply section_attach.
  - exists []. apply section_detach.
  - exists []. apply section_takeConn.
  - exists []. apply section_stop.
Qed.

(** What a section leaves of the world. *)
Lemma acted_world s op w w' :
  acted o s op w w' ->
  exists sess, w_heap w !! s = Some sess /\
    let x := opened w sess in let x' := sec_of limit s op x in
    w_heap w' = <[s := x_s x']> (w_heap w) /\ w_idx w' = x_idx x' /\
    w_log w' = <[s := default [] (w_log w !! s) ++ x_log x']> (w_log w) /\
    w_nextSession w' = w_nextSession w /\
    w_attached w' = match attaches limit s op x with
                    | Some (c, a) => <[c := a]> (w_attached w) | None => w_attached w end.
Proof.
  intros (sess & w1 & Hs & Hh & Hq). exists sess. split; [done|]. cbv zeta.
  destruct Hh as [(H1 & H2 & H3) (H4 & _) _ _ H5 _ _ _], Hq as [(Q1 & Q2 & Q3 & Q4) Q5 _ _ _].
  unfold limit in |- *. destruct (attaches (opt_ResumeBuffer o) s op (opened w sess)) as [[c a]|]; cbn in *;
    rewrite ?Q1, ?Q2, ?Q3, ?Q4, ?Q5, ?H1, ?H2, ?H3, ?H4, ?H5; done.
Qed.

(** Sessions live on, READY or not as before, unless it is the session's own READY. *)
Lemma moved_session l w w' s sess :
  moved o l w w' -> (forall s sess, w_heap w !! s = Some sess -> s < w_nextSession w) ->
  w_heap w !! s = Some sess ->
  exists sess', w_heap w' !! s = Some sess' /\
    (s_ready sess' = s_ready sess \/
     exists c a rest, l = LServe c a /\ code_of w c = IReady s :: rest).
Proof.
  intros [[(Hh & _) _ _ _ _]|[(id & actor & sign & c & a & rest & olds & -> & Hc & Hr)|(s' & op & Ha & Hac)]]
    Hfresh Hs.
  - exists sess. rewrite Hh. auto.
  - destruct Hr as [(Hh & _) _ _ _ _]. exists sess. rewrite Hh. cbn. specialize (Hfresh _ _ Hs).
    rewrite lookup_insert_ne by lia. auto.
  - destruct (acted_world _ _ _ _ Hac) as (sess' & Hs' & Hh & _). rewrite Hh.
    destruct (decide (s' = s)) as [->|]; [|rewrite lookup_insert_ne by done; eauto].
    rewrite lookup_insert_eq. eexists. split; [done|]. simplify_eq.
    destruct op; try (left; by rewrite sec_ready). right. exact Ha.
Qed.

Lemma moved_fresh l w w' :
  moved o l w w' -> (forall s sess, w_heap w !! s = Some sess -> s < w_nextSession w) ->
  forall s sess, w_heap w' !! s = Some sess -> s < w_nextSession w'.
Proof.
  intros [[(Hh & Hn & _) _ _ _ _]|[(id & actor & sign & c & a & rest & olds & -> & Hc & Hr)|(s' & op & Ha & Hac)]]
    Hfresh s sess.
  - rewrite Hh, Hn. apply Hfresh.
  - destruct Hr as [(Hh & Hn & _) _ _ _ _]. rewrite Hh, Hn. cbn. rewrite lookup_insert_Some.
    intros [[<- _]|[_ Hs]]; [lia|]. specialize (Hfresh _ _ Hs). lia.
  - destruct (acted_world _ _ _ _ Hac) as (sess' & Hs' & Hh & _ & _ & Hn & _). rewrite Hh, Hn.
    rewrite lookup_insert_Some. intros [[<- _]|[_ Hs]]; by eapply Hfresh.
Qed.

(** ** Background goroutines and open connections *)

Lemma step_gos l w w' : step o l w = Some w' -> shared_gos w -> shared_gos w'.
Proof.
  assert (forall cs gos, Forall (Forall (fun i => private i = false)) gos ->
            Forall (Forall (fun i => private i = false)) (gos ++ (closer <$> cs))) as Hcl.
  { intros cs gos Hg. apply Forall_app. split; [done|]. apply Forall_fmap, Forall_true.
    intros cc. by repeat constructor. }
  intros Hst Hg. destruct l; cbn in Hst; try (opt_inv; done).
  - unfold ServeHTTP in Hst. opt_inv. case_match; done.
  - opt_inv. destruct (exec_calm _ _ _ _ _ _ _ H0) as [[_ [cs Hgs] _ _]|(s & _ & ->)]; [|done].
    unfold shared_gos. cbn. rewrite Hgs. by apply Hcl.
  - opt_inv. pose proof (Forall_lookup_1 _ _ _ _ Hg H) as Hx. apply Forall_cons in Hx as [Hi Hl].
    destruct (exec_calm _ _ _ _ _ _ _ H0) as [[_ [cs Hgs] _ _]|(s & -> & _)]; [|done].
    unfold shared_gos. cbn. rewrite Hgs. apply Forall_insert; [by apply Hcl|].
    apply Forall_app. split; [|done]. eapply exec_shared_code; eauto.
  - opt_inv. unfold shared_gos. cbn. apply Forall_app. split; [done|]. by repeat constructor.
  - unfold onEvent in Hst. opt_inv. done.
  - opt_inv. unfold shared_gos. cbn. apply Forall_app. split; [done|]. by repeat constructor.
  - unfold fanOut in Hst. opt_inv; try done.
    destruct (calm_locked _ _ _ _ H0) as [_ [cs Hgs] _ _]. unfold shared_gos. cbn. rewrite Hgs. by apply Hcl.
Qed.

(** The same connections, open or not. *)
Definition same_conns w w' : Prop :=
  w_nextConn w' = w_nextConn w /\ forall c, is_Some (w_conns w' !! c) <-> is_Some (w_conns w !! c).

Lemma same_conns_trans w1 w2 w3 : same_conns w1 w2 -> same_conns w2 w3 -> same_conns w1 w3.
Proof. intros [N1 C1] [N2 C2]. split; [congruence|]. intros c. by rewrite C2, C1. Qed.

Lemma same_conns_calm w w' : calm w w' -> same_conns w w'.
Proof.
  intros [C _ _ N]. split; [done|]. intros c. specialize (C c). by repeat case_match.
Qed.

Lemma same_conns_conn f c w : same_conns w (on_conn f c w).
Proof.
  split; [done|]. intros c'. cbn. destruct (decide (c' = c)) as [->|]; [|by rewrite lookup_alter_ne].
  rewrite lookup_alter_eq. apply fmap_is_Some.
Qed.

Lemma same_conns_exec self i a w w' code : exec o self i a w = Some (w', code) -> same_conns w w'.
Proof.
  intros Hex. destruct (exec_calm _ _ _ _ _ _ _ Hex) as [Hc|(s & -> & ->)];
    [by apply same_conns_calm|apply same_conns_conn].
Qed.

Lemma step_conns l w w' :
  step o l w = Some w' ->
  same_conns w w' \/
  w_nextConn w' = w_nextConn w + 1 /\
    exists k, w_conns w' = <[w_nextConn w := k]> (w_conns w).
Proof.
  intros Hst. destruct l; cbn in Hst.
  - unfold ServeHTTP in Hst. opt_inv. case_match; [by left|]. right. split; [done|]. by eexists.
  - opt_inv. left. apply same_conns_conn.
  - opt_inv. left. apply same_conns_conn.
  - opt_inv. left. apply same_conns_conn.
  - opt_inv. left. eapply same_conns_trans; [by eapply same_conns_exec|apply same_conns_conn].
  - opt_inv. left. by eapply same_conns_trans; [eapply same_conns_exec|].
  - opt_inv. left. apply same_conns_conn.
  - opt_inv. left. apply same_conns_conn.
  - opt_inv. by left.
  - unfold onEvent in Hst. opt_inv. by left.
  - opt_inv. by left.
  - unfold fanOut in Hst. opt_inv; try by left. left.
    eapply same_conns_trans; [by eapply same_conns_calm, calm_locked|done].
Qed.

(** ** Coherence of what goroutines have left *)

Record coherent w : Prop := {
  co_conns : fresh_conns w;
  co_heap s sess : w_heap w !! s = Some sess -> s < w_nextSession w;
  co_gos : shared_gos w;
  co_shaped c : shaped (code_of w c);
  co_readying c i s : i ∈ code_of w c -> readying s i ->
    exists sess, w_heap w !! s = Some sess /\ s_ready sess = false /\
      forall c' i', i' ∈ code_of w c' -> readying s i' -> c' = c;
  co_attached c a : w_attached w !! c = Some a ->
    is_Some (w_conns w !! c) /\ Forall (fun i => attaching i = false) (code_of w c) /\
    (is_Some (sess_of w c) \/ exists s, IBind s ∈ code_of w c)
}.

Lemma step_fresh_conns l w w' : step o l w = Some w' -> fresh_conns w -> fresh_conns w'.
Proof.
  intros Hst Hf c Hc. destruct (step_conns _ _ _ Hst) as [[N C]|[N [k Hk]]].
  - rewrite N. apply Hf. by apply C.
  - rewrite N. rewrite Hk in Hc. destruct (decide (c = w_nextConn w)) as [->|]; [lia|].
    rewrite lookup_insert_ne in Hc by done. specialize (Hf _ Hc). lia.
Qed.

Lemma step_shaped l w w' c :
  step o l w = Some w' -> fresh_conns w -> shared_gos w -> (forall c, shaped (code_of w c)) ->
  shaped (code_of w' c).
Proof.
  intros Hst Hf Hg Hsh. destruct (step_code _ _ _ Hst Hf Hg) as (c0 & Hothers & Hc0).
  destruct (decide (c = c0)) as [->|Hne]; [|by destruct (Hothers c Hne) as [-> _]].
  destruct Hc0 as [[-> _]|[(_ & _ & [Hall|(_ & i & -> & Hi)])|(a & i & rest & code & -> & Hold & -> & _ & Himp & _)]].
  - done.
  - rewrite <- (app_nil_r (code_of w' c0)). by apply shaped_shared.
  - by destruct i.
  - apply Himp. rewrite <- Hold. done.
Qed.

(** The sessions on their way to READY, after a step of the connection that owns the code. *)
Lemma readying_serve c a i rest code w w1 w' :
  coherent w -> code_of w c = i :: rest -> exec o c i a w = Some (w1, code) ->
  w_heap w' = w_heap w1 -> moved o (LServe c a) w w' ->
  forall j s, j ∈ code ++ rest -> readying s j ->
    exists sess, w_heap w' !! s = Some sess /\ s_ready sess = false /\
      (s = w_nextSession w \/ exists i0, i0 ∈ code_of w c /\ readying s i0).
Proof.
  intros [Hcc Hch Hcg Hcs Hcr Hca] Hc Hex Hheap Hmoved j s Hj Hr.
  assert (forall i0, i0 ∈ i :: rest -> readying s i0 -> (forall s', i <> IReady s') ->
            exists sess, w_heap w' !! s = Some sess /\ s_ready sess = false /\
              (s = w_nextSession w \/ exists i0, i0 ∈ code_of w c /\ readying s i0)) as Hold.
  { intros i0 Hi0 Hr0 Hni. destruct (Hcr c i0 s) as (sess & Hs & Hrd & _); [by rewrite Hc|done|].
    destruct (moved_session _ _ _ _ _ Hmoved Hch Hs) as (sess' & Hs' & Hrdy).
    exists sess'. split; [done|]. split.
    - destruct Hrdy as [->|(c' & a' & rest' & [= <- <-] & Hc')]; [done|].
      rewrite Hc in Hc'. injection Hc' as Hi _. by destruct (Hni s).
    - right. exists i0. by rewrite Hc. }
  specialize (Hcs c). rewrite Hc in Hcs.
  apply elem_of_app in Hj as [Hj|Hj].
  - pose proof (exec_code _ _ _ _ _ _ _ Hex) as Hfol.
    rewrite Forall_forall in Hfol. specialize (Hfol _ Hj). destruct j; try done; cbn in Hr, Hfol; subst.
    + destruct Hfol as (-> & _ & sess & Hs & Hrd & _). exists sess. rewrite Hheap. auto.
    + destruct Hfol as (-> & _ & sess & Hs & Hrd). exists sess. rewrite Hheap. auto.
    + apply (Hold (ICheckLive s)); [by left|done|done].
  - apply (Hold j); [by right|done|]. intros s' ->. cbn in Hcs. subst. by apply elem_of_nil in Hj.
Qed.

Lemma step_served c a w w' :
  step o (LServe c a) w = Some w' ->
  exists i rest code w1, code_of w c = i :: rest /\ exec o c i a w = Some (w1, code) /\
    w' = on_conn (set_code (code ++ rest)) c w1.
Proof.
  cbn. intros Hst. opt_inv. do 4 eexists. split; [|done]. unfold code_of. by simplify_option_eq.
Qed.

Lemma step_readying_serve c a w w' :
  step o (LServe c a) w = Some w' -> coherent w -> forall c' j s,
  j ∈ code_of w' c' -> readying s j ->
  exists sess, w_heap w' !! s = Some sess /\ s_ready sess = false /\
    forall c'' i', i' ∈ code_of w' c'' -> readying s i' -> c'' = c'.
Proof.
  intros Hst Hco. pose proof (step_moved o _ _ _ Hst (co_conns _ Hco) (co_gos _ Hco)) as Hm.
  destruct (step_served _ _ _ _ Hst) as (i & rest & code & w1 & Hc & Hex & Hw').
  pose proof (code_moved_serve c a i rest code w w1 Hc Hex) as [Hothers _].
  assert (code_of w' c = code ++ rest) as Hcc.
  { rewrite Hw'. destruct (conn_code (set_code (code ++ rest)) c w1 c) as [-> _].
    rewrite decide_True by done. destruct (same_conns_exec _ _ _ _ _ _ Hex) as [_ Hsc].
    destruct (w_conns w1 !! c) eqn:E; [done|]. exfalso.
    assert (is_Some (w_conns w !! c)) as H1.
    { unfold code_of in Hc. destruct (w_conns w !! c); [by eexists|done]. }
    apply Hsc in H1. rewrite E in H1. by destruct H1. }
  assert (w_heap w' = w_heap w1) as Hh by (by rewrite Hw').
  rewrite <- Hw' in Hothers.
  pose proof (readying_serve _ _ _ _ _ _ _ _ Hco Hc Hex Hh Hm) as Hown.
  intros c' j s Hj Hr. destruct (decide (c' = c)) as [->|Hne].
  - rewrite Hcc in Hj. destruct (Hown j s Hj Hr) as (sess & Hs & Hrd & Hwho). exists sess.
    split_and!; [done..|]. intros c'' i' Hi' Hr'. destruct (decide (c'' = c)) as [|Hne]; [done|].
    destruct (Hothers c'' Hne) as [Heq _]. rewrite Heq in Hi'.
    destruct (co_readying _ Hco _ _ _ Hi' Hr') as (sess' & Hs' & _ & Huni).
    destruct Hwho as [->|(i0 & Hi0 & Hr0)]; [|symmetry; by eapply Huni].
    pose proof (co_heap _ Hco _ _ Hs'). lia.
  - destruct (Hothers c' Hne) as [Heq _]. rewrite Heq in Hj.
    destruct (co_readying _ Hco _ _ _ Hj Hr) as (sess & Hs & Hrd & Huni).
    destruct (moved_session _ _ _ _ _ Hm (co_heap _ Hco) Hs) as (sess' & Hs' & Hrdy).
    exists sess'. split_and!; [done| |].
    + destruct Hrdy as [->|(c2 & a2 & rest2 & [= <- <-] & Hc2)]; [done|].
      destruct Hne. symmetry. apply (Huni c (IReady s)); [rewrite Hc2; by left|done].
    + intros c'' i' Hi' Hr'. destruct (decide (c'' = c)) as [->|Hne2].
      * rewrite Hcc in Hi'. destruct (Hown i' s Hi' Hr') as (_ & _ & _ & [->|(i0 & Hi0 & Hr0)]).
        { pose proof (co_heap _ Hco _ _ Hs). lia. }
        by eapply Huni.
      * destruct (Hothers c'' Hne2) as [Heq2 _]. rewrite Heq2 in Hi'. by eapply Huni.
Qed.

Lemma is_serve (l : Label (DB := DB)) :
  (exists c a, l = LServe c a) \/ forall c a, l <> LServe c a.
Proof. destruct l; try (by right); left. by eexists _, _. Qed.

(** Away from the connections' own steps, the code of a connection stays, or is what a client's frame
    or the end of its socket starts. *)
Lemma step_code_other l w w' c :
  step o l w = Some w' -> coherent w -> (forall c a, l <> LServe c a) ->
  sess_of w' c = sess_of w c /\
  (code_of w' c = code_of w c \/
   code_of w c = [] /\
     (Forall (fun i => private i = false) (code_of w' c) \/
      sess_of w c = None /\ exists i, code_of w' c = [i] /\ starts l c i)).
Proof.
  intros Hst Hco Hl. destruct (step_code _ _ _ Hst (co_conns _ Hco) (co_gos _ Hco)) as (c0 & Hothers & Hc0).
  destruct (decide (c = c0)) as [->|Hne]; [|by destruct (Hothers c Hne); auto].
  destruct Hc0 as [[Hsame Hs]|[(Hidle & Hs & Hstart)|(a & i & rest & code & -> & _)]]; [auto|auto|].
  by destruct (Hl c0 a).
Qed.

Lemma step_readying l w w' :
  step o l w = Some w' -> coherent w -> forall c j s,
  j ∈ code_of w' c -> readying s j ->
  exists sess, w_heap w' !! s = Some sess /\ s_ready sess = false /\
    forall c' i', i' ∈ code_of w' c' -> readying s i' -> c' = c.
Proof.
  intros Hst Hco. destruct (is_serve l) as [(c0 & a & ->)|Hl]; [by eapply step_readying_serve|].
  pose proof (step_moved o _ _ _ Hst (co_conns _ Hco) (co_gos _ Hco)) as Hm.
  assert (forall c j s, j ∈ code_of w' c -> readying s j -> j ∈ code_of w c) as Hback.
  { intros c j s Hj Hr. destruct (step_code_other _ _ _ c Hst Hco Hl) as [_ [<-|(_ & [Hall|(_ & i & Hi & Hk)])]].
    - done.
    - rewrite Forall_forall in Hall. specialize (Hall _ Hj). by destruct j.
    - rewrite Hi in Hj. apply list_elem_of_singleton in Hj as ->. by destruct i. }
  intros c j s Hj Hr. destruct (co_readying _ Hco c j s) as (sess & Hs & Hrd & Huni); [eauto..|].
  destruct (moved_session _ _ _ _ _ Hm (co_heap _ Hco) Hs) as (sess' & Hs' & Hrdy).
  exists sess'. split_and!; [done| |eauto].
  destruct Hrdy as [->|(c2 & a2 & rest2 & -> & _)]; [done|]. by destruct (Hl c2 a2).
Qed.

(** ** Attachments *)

Lemma locked_attached s f w w' : locked s f w = Some w' -> w_attached w' = w_attached w.
Proof. intros Hl. destruct (locked_spec _ _ _ _ Hl) as (sess & _ & [_ _ _ _ -> _ _ _]). done. Qed.

Lemma enqueue_attached c f w : w_attached (enqueueFrame c f w) = w_attached w.
Proof. unfold enqueueFrame. by repeat case_match. Qed.

Lemma markIdentified_attached c w : w_attached (markIdentified c w) = w_attached w.
Proof. unfold markIdentified. by repeat case_match. Qed.

Lemma exec_attached self i a w w1 code :
  exec o self i a w = Some (w1, code) ->
  w_attached w1 = w_attached w \/
  exists at_, w_attached w1 = <[self := at_]> (w_attached w) /\
    ((exists s actor sign, i = IAttach s actor sign /\ code = []) \/
     (exists s actor sign n, i = IResume s actor sign n /\ code = [IBind s; IIdentified])).
Proof.
  unfold exec. intros Hex.
  destruct i; unfold exec_newSession, exec_identify, exec_resume, exec_shared in Hex; opt_inv;
    repeat match goal with H1 : locked _ _ _ = Some _ |- _ => apply locked_attached in H1 end;
    try (by left); try (left; cbn; by rewrite ?markIdentified_attached, ?enqueue_attached).
  - left. unfold newSession_register in Heqp. cbv zeta in Heqp. by destruct (_ <=? _) in Heqp; simplify_eq.
  - left. unfold newSession_register in Heqp. cbv zeta in Heqp. by destruct (_ <=? _) in Heqp; simplify_eq.
  - left. unfold newSession_scan in *. opt_inv. by repeat case_match; simplify_eq.
  - right. eexists. cbn. rewrite H0. split; [done|]. left. eauto.
  - right. eexists. cbn. rewrite H0. split; [done|]. right. eauto 10.
  - left. unfold forget in *. opt_inv. by case_match.
Qed.

Lemma other_attached l w w' :
  step o l w = Some w' -> coherent w -> (forall c a, l <> LServe c a) -> w_attached w' = w_attached w.
Proof.
  intros Hst Hco Hl. pose proof (step_moved o _ _ _ Hst (co_conns _ Hco) (co_gos _ Hco)) as Hm.
  destruct Hm as [[_ Ha _ _ _]|[(id & actor & sign & c & a & rest & olds & -> & _)|(s & op & Ha & Hac)]];
    [done|by destruct (Hl c a)|].
  destruct (acted_world _ _ _ _ Hac) as (sess & Hs & _ & _ & _ & _ & ->).
  destruct op; try done; destruct Ha as (ca & rest & -> & _); by destruct (Hl c ca).
Qed.

Lemma conn_of_code w c i rest : code_of w c = i :: rest -> is_Some (w_conns w !! c).
Proof. unfold code_of. by destruct (w_conns w !! c). Qed.

Lemma step_open l w w' c : step o l w = Some w' -> is_Some (w_conns w !! c) -> is_Some (w_conns w' !! c).
Proof.
  intros Hst Hc. destruct (step_conns _ _ _ Hst) as [[_ H1]|[_ [k Hk]]]; [by apply H1|].
  rewrite Hk. apply lookup_insert_is_Some'. by right.
Qed.

Lemma follows_attaching w w1 i j : follows w w1 i j -> attaching j = true -> attaching i = true.
Proof. destruct j; cbn; try done; intros Hf _; destruct i; cbn in *; naive_solver. Qed.

(** A connection's own step, on its own code and session. *)
Lemma serve_code c a w w' :
  step o (LServe c a) w = Some w' ->
  exists i rest code w1, code_of w c = i :: rest /\ exec o c i a w = Some (w1, code) /\
    w_attached w' = w_attached w1 /\ code_of w' c = code ++ rest /\
    (sess_of w' c = sess_of w c \/ exists s, i = IBind s /\ sess_of w' c = Some s) /\
    (forall s, i = IBind s -> sess_of w' c = Some s) /\
    (forall c', c' <> c -> code_of w' c' = code_of w c' /\ sess_of w' c' = sess_of w c').
Proof.
  intros Hst. destruct (step_served _ _ _ _ Hst) as (i & rest & code & w1 & Hc & Hex & Hw').
  pose proof (code_moved_serve c a i rest code w w1 Hc Hex) as [Hothers Hmoved].
  exists i, rest, code, w1. rewrite <- Hw' in Hothers, Hmoved.
  assert (code_of w' c = code ++ rest) as Hcode.
  { rewrite Hw'. destruct (conn_code (set_code (code ++ rest)) c w1 c) as [-> _].
    rewrite decide_True by done. destruct (same_conns_exec _ _ _ _ _ _ Hex) as [_ Hsc].
    destruct (conn_of_code _ _ _ _ Hc) as [k Hk].
    assert (is_Some (w_conns w1 !! c)) as [k1 ->]; [|done]. apply Hsc. by eexists. }
  assert (forall s, i = IBind s -> sess_of w' c = Some s) as Hbind.
  { intros s ->. cbn in Hex. simplify_eq. destruct (conn_of_code _ _ _ _ Hc) as [k Hk].
    unfold sess_of. cbn. by rewrite !lookup_alter_eq, Hk. }
  split_and!; [done|done|by rewrite Hw'|done| |done|done].
  destruct Hmoved as [[_ ->]|[(_ & -> & _)|(a' & i' & rest' & code' & _ & Hc' & _ & _ & _ & Hs)]]; [by left..|].
  rewrite Hc in Hc'. injection Hc' as <- <-. destruct Hs as [[-> _]|(s & -> & Hs)]; [by left|]. right. eauto.
Qed.

Lemma step_attached l w w' c a :
  step o l w = Some w' -> coherent w -> w_attached w' !! c = Some a ->
  is_Some (w_conns w' !! c) /\ Forall (fun i => attaching i = false) (code_of w' c) /\
  (is_Some (sess_of w' c) \/ exists s, IBind s ∈ code_of w' c).
Proof.
  intros Hst Hco Ha. destruct (is_serve l) as [(c0 & ca & ->)|Hl].
  - destruct (serve_code _ _ _ _ Hst) as (i & rest & code & w1 & Hc & Hex & Hat & Hcode & Hs & Hb & Hothers).
    pose proof (co_shaped _ Hco c0) as Hsh. rewrite Hc in Hsh.
    pose proof (conn_of_code _ _ _ _ Hc) as Hopen.
    rewrite Hat in Ha. destruct (exec_attached _ _ _ _ _ _ Hex) as [Heq|(at_ & Heq & Hkind)].
    + rewrite Heq in Ha. destruct (co_attached _ Hco _ _ Ha) as (Ho & Hna & Hb0).
      split; [by eapply step_open|]. destruct (decide (c = c0)) as [->|Hne].
      2: { by destruct (Hothers c Hne) as [-> ->]. }
      rewrite Hc in Hna, Hb0. apply Forall_cons in Hna as [Hni Hnr]. rewrite Hcode. split.
      * apply Forall_app. split; [|done]. pose proof (exec_code _ _ _ _ _ _ _ Hex) as Hf.
        eapply Forall_impl; [exact Hf|]. intros j Hj. destruct (attaching j) eqn:E; [|done].
        by rewrite (follows_attaching _ _ _ _ Hj E) in Hni.
      * destruct Hb0 as [Hs0|(s & Hin)].
        { left. destruct Hs as [->|(s & _ & ->)]; [done|by eexists]. }
        apply elem_of_cons in Hin as [<-|Hin]; [left; rewrite (Hb s) by done; by eexists|].
        right. exists s. rewrite elem_of_app. by right.
    + rewrite Heq in Ha. destruct (decide (c = c0)) as [->|Hne].
      * split; [by eapply step_open|]. rewrite Hcode.
        destruct Hkind as [(s & actor & sign & -> & ->)|(s & actor & sign & n & -> & ->)]; cbn in Hsh; subst rest.
        { split; [by repeat constructor|]. right. exists s. by left. }
        { split; [by repeat constructor|]. right. exists s. by left. }
      * rewrite lookup_insert_ne in Ha by done. destruct (co_attached _ Hco _ _ Ha) as (Ho & Hna & Hb0).
        split; [by eapply step_open|]. by destruct (Hothers c Hne) as [-> ->].
  - rewrite (other_attached _ _ _ Hst Hco Hl) in Ha.
    destruct (co_attached _ Hco _ _ Ha) as (Ho & Hna & Hb0). split; [by eapply step_open|].
    destruct (step_code_other _ _ _ c Hst Hco Hl) as [-> [->|(Hnil & Hstart)]]; [done|].
    rewrite Hnil in Hb0. destruct Hb0 as [Hs|(s & Hin)]; [|by apply elem_of_nil in Hin].
    destruct Hstart as [Hall|(Hnone & _)]; [|rewrite Hnone in Hs; by destruct Hs].
    split; [|by left]. eapply Forall_impl; [exact Hall|]. by intros [].
Qed.

Lemma step_coherent l w w' : step o l w = Some w' -> coherent w -> coherent w'.
Proof.
  intros Hst Hco. pose proof (step_moved o _ _ _ Hst (co_conns _ Hco) (co_gos _ Hco)) as Hm.
  split.
  - eapply step_fresh_conns; [done|apply Hco].
  - eapply moved_fresh; [done|apply Hco].
  - eapply step_gos; [done|apply Hco].
  - intros c. eapply step_shaped; [done|apply Hco..].
  - by eapply step_readying.
  - intros c a. by eapply step_attached.
Qed.

Lemma New_coherent : coherent (New o).
Proof.
  split.
  - intros c [k Hk]. cbn in Hk. by rewrite lookup_empty in Hk.
  - intros s sess Hs. cbn in Hs. by rewrite lookup_empty in Hs.
  - by constructor.
  - intros c. unfold code_of. cbn. by rewrite lookup_empty.
  - intros c i s Hi. unfold code_of in Hi. cbn in Hi. rewrite lookup_empty in Hi. by apply elem_of_nil in Hi.
  - intros c a Ha. cbn in Ha. by rewrite lookup_empty in Ha.
Qed.

End inv.
