(* ===== verification/GatewayRuns.v ===== *)
(** What holds in every state a run of the gateway reaches: the index, the streams and the frames of
    every connection, for any interleaving of the goroutines; what a lane still holds for a session, that a
    guild's events reach a session in the order they were published and at most once, and that every event
    a session holds was allowed for its account by the audience resolver. *)
From S2P Require Import Prelude GoStd Permissions Snowflake Rows GatewayProto GatewaySession.
From S2P Require Import GatewayServer GatewayStream GatewaySteps GatewayInv.

Section runs.
Context {DB : Type} `{!AudienceResolver DB} (o : Options).
Context (Hlimit : 0 <= opt_ResumeBuffer o).
Implicit Types w : World DB.
Let limit := opt_ResumeBuffer o.

(** Everything session [s] has numbered. *)
Definition log_of w (s : Z) : list Entry := default [] (w_log w !! s).

(** The index knows nothing of [s]. *)
Definition unknown (s : Z) (x : sessionIndex) : Prop :=
  (forall u, ~ of_user x u s) /\ (s ∉ unready x) /\ (forall g, ~ of_guild x g s).

(** The instructions of a connection name what its token stood for. *)
Definition belongs w (i : Instr) : Prop :=
  match i with
  | IAttach s actor sign => exists sess, w_heap w !! s = Some sess /\
      s_userID sess = Actor_UserID actor /\ s_deviceID sess = SignIn_Device sign
  | IResume s actor sign n => 0 <= n /\ exists sess, w_heap w !! s = Some sess /\
      s_userID sess = Actor_UserID actor /\ s_deviceID sess = SignIn_Device sign
  | IResumeLive _ _ _ n | ILookup _ _ _ n => 0 <= n
  | _ => True
  end.

(** The dispatches of a connection that never overran its queue are the frames its session numbered
    after the attachment, in order, up to some point: while it is attached, all of them. *)
Definition streams w (c : Z) (a : Attachment) (fs : list (Z * string)) : Prop :=
  exists es rest, drop (Z.to_nat (at_after a)) (log_of w (at_session a)) = es ++ rest /\
    fs = pair_of <$> es /\
    forall sess, w_heap w !! at_session a = Some sess -> s_conn sess = Some c -> rest = [].

Record good w : Prop := {
  gd_index s : match w_heap w !! s with
               | Some sess => indexed s sess (w_idx w)
               | None => unknown s (w_idx w)
               end;
  gd_stream s sess : w_heap w !! s = Some sess -> stream_ok limit sess (log_of w s) /\ settled sess;
  gd_nolog s : w_heap w !! s = None -> log_of w s = [];
  gd_conn s sess c : w_heap w !! s = Some sess -> s_conn sess = Some c ->
    exists a, w_attached w !! c = Some a /\ at_session a = s;
  gd_attached c a : w_attached w !! c = Some a ->
    exists sess, w_heap w !! at_session a = Some sess /\
      s_userID sess = at_user a /\ s_deviceID sess = at_device a /\
      0 <= at_after a <= Z.of_nat (length (log_of w (at_session a)));
  gd_traffic c k : w_conns w !! c = Some k -> c ∉ w_dropped w ->
    match w_attached w !! c with
    | Some a => streams w c a (traffic k)
    | None => traffic k = []
    end
}.

(** ** Bookkeeping *)

Lemma good_quiet w w' : coherent w -> quiet w w' -> good w -> good w'.
Proof.
  intros Hco [(Qh & Qn & Ql & Qi) Qa Qd Qc Qo] [Gi Gs Gn Gc Ga Gt].
  assert (forall s, log_of w' s = log_of w s) as Hlog by (intros; unfold log_of; by rewrite Ql).
  split.
  - intros s. rewrite Qh, Qi. apply Gi.
  - intros s sess. rewrite Qh, Hlog. apply Gs.
  - intros s. rewrite Qh, Hlog. apply Gn.
  - intros s sess c. rewrite Qh, Qa. apply Gc.
  - intros c a. rewrite Qa, Qh, Hlog. apply Ga.
  - intros c k Hk Hd. rewrite Qa. specialize (Qc c k Hk Hd). destruct (w_conns w !! c) as [k0|] eqn:Hk0.
    + specialize (Gt c k0 Hk0 ltac:(set_solver)). rewrite Qc. destruct (w_attached w !! c) as [a|]; [|done].
      destruct Gt as (es & rest & Hd' & Hfs & Hr). exists es, rest. rewrite Hlog, Qh. done.
    + destruct (w_attached w !! c) as [a|] eqn:Ha; [|done].
      destruct (co_attached _ Hco _ _ Ha) as ([? ?] & _). congruence.
Qed.

(** ** A session registered *)

Lemma indexed_new s id actor sign x :
  unknown s x -> indexed s (new_session id actor sign) (sessionIndex_register s (Actor_UserID actor) x).
Proof.
  intros (Hu & Hr & Hg). split; cbn; try done.
  - intros u. unfold of_user. cbn. rewrite elem_addTo. specialize (Hu u). unfold of_user in Hu. naive_solver.
  - set_solver.
  - intros g. specialize (Hg g). unfold of_guild in *. cbn. set_solver.
Qed.

Lemma register_others s u x : same_others s x (sessionIndex_register s u x).
Proof.
  intros r Hr. split_and!.
  - intros u'. unfold of_user. cbn. rewrite elem_addTo. naive_solver.
  - cbn. set_solver.
  - done.
Qed.

Lemma same_others_indexed self s sess x x' :
  same_others self x x' -> s <> self -> indexed s sess x -> indexed s sess x'.
Proof.
  intros Ho Hne [Hu Hr Hg He]. destruct (Ho s Hne) as (U & R & G).
  split; [intros; by rewrite U|by rewrite R|intros; by rewrite G|done].
Qed.

Lemma same_others_unknown self s x x' :
  same_others self x x' -> s <> self -> unknown s x -> unknown s x'.
Proof.
  intros Ho Hne (Hu & Hr & Hg). destruct (Ho s Hne) as (U & R & G).
  split_and!; [intros u; by rewrite U|by rewrite R|intros g; by rewrite G].
Qed.

Lemma good_registered id actor sign w w' :
  coherent w -> coherent w' -> registered id actor sign w w' -> good w -> good w'.
Proof.
  intros Hco Hco' [(Qh & Qn & Ql & Qi) Qa Qd Qc Qo] [Gi Gs Gn Gc Ga Gt]. cbn in *.
  set (n := w_nextSession w) in *.
  assert (w_heap w !! n = None) as Hnew.
  { destruct (w_heap w !! n) eqn:E; [|done]. pose proof (co_heap _ Hco _ _ E). lia. }
  assert (forall s, log_of w' s = log_of w s) as Hlog by (intros; unfold log_of; by rewrite Ql).
  split.
  - intros s. rewrite Qh, Qi. specialize (Gi s). destruct (decide (s = n)) as [->|Hne].
    + rewrite lookup_insert_eq. rewrite Hnew in Gi. by apply indexed_new.
    + rewrite lookup_insert_ne by done. pose proof (register_others n (Actor_UserID actor) (w_idx w)) as Ho.
      destruct (w_heap w !! s); [by eapply same_others_indexed|by eapply same_others_unknown].
  - intros s sess. rewrite Qh, Hlog, lookup_insert_Some. intros [[<- <-]|[_ Hs]]; [|auto].
    rewrite (Gn n Hnew). split; [|done]. split; cbn; try done; intros _. by exists [], []. 
  - intros s. rewrite Qh, Hlog, lookup_insert_None. intros [Hs _]. auto.
  - intros s sess c. rewrite Qh, Qa, lookup_insert_Some. intros [[<- <-]|[_ Hs]]; [done|eauto].
  - intros c a. rewrite Qa, Qh. intros Ha. destruct (Ga c a Ha) as (sess & Hs & Hrest). exists sess.
    rewrite Hlog. split; [|done]. rewrite lookup_insert_ne; [done|]. intros E. rewrite <- E in Hs. congruence.
  - intros c k Hk Hd. rewrite Qa. specialize (Qc c k Hk Hd). destruct (w_conns w !! c) as [k0|] eqn:Hk0.
    + specialize (Gt c k0 Hk0 ltac:(set_solver)). rewrite Qc. destruct (w_attached w !! c) as [a|] eqn:Ha; [|done].
      destruct Gt as (es & rest & Hd' & Hfs & Hr). exists es, rest. rewrite Hlog, Qh.
      destruct (Ga c a Ha) as (sess & Hs & _).
      rewrite lookup_insert_ne by (intros E; rewrite E in Hnew; congruence). done.
    + destruct (w_attached w !! c) as [a|] eqn:Ha; [|done].
      destruct (co_attached _ Hco _ _ Ha) as ([? ?] & _). congruence.
Qed.

(** ** A critical section *)

Lemma sec_indexed_op s op x :
  (forall payload guilds, op = OReady payload guilds -> s_ready (x_s x) = false) ->
  sec_indexed s x (sec_of limit s op x).
Proof.
  intros Hr. destruct op; cbn.
  - apply sec_indexed_deliver.
  - apply sec_indexed_becomeReady. by eapply Hr.
  - destruct ((resume limit c (Actor_SessionID actor) (SignIn_Since sign) seq x).1) eqn:E;
      [|rewrite resume_refused by congruence; apply sec_indexed_refl..].
    destruct (resume_resumed limit Hlimit [] _ _ _ _ _ E)
      as (e & [_ (Hu & _) _ _ _ _] & _ & He & _ & _ & _ & Hi & Hg & Hrd & He').
    apply sec_indexed_same; congruence.
  - by apply sec_indexed_same.
  - unfold detach. case_match; [apply sec_indexed_refl|]. cbv zeta. by case_match; apply sec_indexed_same.
  - by apply sec_indexed_same.
  - apply sec_indexed_stop.
Qed.

(** The frames a section sends, connection by connection. *)
Lemma frames_to_sends c c' es :
  frames_to c (sends c' es) = if decide (c' = Some c) then frame_of <$> es else [].
Proof.
  destruct c' as [c'|]; [|by rewrite decide_False]. unfold sends.
  replace ((fun e => (c', frame_of e)) <$> es) with ((c',.) <$> (frame_of <$> es))
    by (by rewrite <- list_fmap_compose).
  destruct (decide (c' = c)) as [->|]; [by rewrite frames_to_same, decide_True|].
  rewrite frames_to_other, decide_False by congruence. done.
Qed.

(** What the section [op] did for the stream of a connection [c] of session [s]: [es] numbered, [fs]
    the dispatches it was handed. *)
Definition stream_effect (s : Z) (op : SecOp) (sess : session) w (c : Z) (es : list Entry) : Prop :=
  let x := opened w sess in let x' := sec_of limit s op x in
  let fs := dispatches (frames_to c (x_sent x')) in
  match attaches limit s op x with
  | Some (c0, a) =>
      at_session a = s /\ 0 <= at_after a <= Z.of_nat (length (log_of w s)) /\ s_conn (x_s x') = Some c0 /\
      (c = c0 -> fs = pair_of <$> (drop (Z.to_nat (at_after a)) (log_of w s) ++ es)) /\
      (c <> c0 -> fs = [])
  | None =>
      (fs = if decide (s_conn sess = Some c) then pair_of <$> es else []) /\
      (s_conn (x_s x') = s_conn sess \/ s_conn (x_s x') = None)
  end.

Lemma sec_traffic s op sess w c es :
  let x := opened w sess in let x' := sec_of limit s op x in
  stream_ok limit sess (log_of w s) -> (forall c0 a sg n, op = OResume c0 a sg n -> 0 <= n) ->
  sec_conn o op x x' es -> stream_effect s op sess w c es.
Proof.
  intros x x' Hok Hn Hc. unfold stream_effect. fold x x'. assert (forall c0, conn_kept c0 x x' es ->
    dispatches (frames_to c (x_sent x')) = if decide (s_conn sess = Some c) then pair_of <$> es else []) as Hk.
  { intros c0 [Hs _]. rewrite Hs. change (x_sent x) with (@nil (Z * OutFrame)). rewrite app_nil_l, frames_to_sends.
    change (s_conn (x_s x)) with (s_conn sess). case_decide; [apply dispatches_frames|done]. }
  destruct op; cbn [attaches sec_conn] in Hc |- *;
    try (split; [by eapply Hk|]; destruct Hc as [_ [?|[_ ?]]]; by auto).
  - unfold sec_conn in Hc. fold limit in Hc.
    destruct ((resume limit c0 (Actor_SessionID actor) (SignIn_Since sign) seq x).1) eqn:E;
      try (split; [by eapply Hk|]; destruct Hc as [_ [?|[_ ?]]]; by auto).
    destruct Hc as (He & Ho & Hconn & Hsent). cbn [x opened x_s] in He, Ho. specialize (Hn _ _ _ _ eq_refl).
    rewrite Hsent. change (x_sent x) with (@nil (Z * OutFrame)). rewrite app_nil_l.
    change (x_s x) with sess. rewrite (replay_spec limit sess (log_of w s)) by done.
    rewrite frames_to_app, frames_to_sends. split_and!; try done; cbn.
    + pose proof (so_seq _ _ _ Hok). lia.
    + intros <-. rewrite frames_to_same, decide_True, dispatches_app, !dispatches_frames, fmap_app by done.
      done.
    + intros Hne. rewrite frames_to_other, decide_False by congruence. done.
  - rewrite (Hk _ Hc). destruct Hc as [_ Hc]. pose proof (so_seq _ _ _ Hok) as Hseq.
    split_and!; try done; [cbn; lia..| |].
    + intros <-. cbn [at_after x opened x_s]. rewrite Hseq, Nat2Z.id, drop_all. cbn [app].
      case_decide as Hd; [done|]. destruct Hc as [Hc|[-> _]]; [|done]. by destruct Hd.
    + intros Hne. case_decide; [|done]. destruct Hc as [Hc|[-> _]]; [|done]. cbn in Hc. congruence.
Qed.

(** What must hold for a section to be opened: the instructions that open it see to it. *)
Definition allowed (s : Z) (op : SecOp) (sess : session) w : Prop :=
  (forall payload guilds, op = OReady payload guilds -> s_ready sess = false) /\
  (forall c a sg n, op = OResume c a sg n -> 0 <= n) /\
  (forall c a, attaches limit s op (opened w sess) = Some (c, a) ->
     w_attached w !! c = None /\ is_Some (w_conns w !! c) /\
     at_user a = s_userID sess /\ at_device a = s_deviceID sess).

Lemma log_of_acted w w' s x es :
  w_log w' = <[s := default [] (w_log w !! s) ++ x]> (w_log w) -> x = es ->
  forall s', log_of w' s' = if decide (s' = s) then log_of w s ++ es else log_of w s'.
Proof.
  intros Hl -> s'. unfold log_of. rewrite Hl. case_decide as Hd.
  - subst. by rewrite lookup_insert_eq.
  - by rewrite lookup_insert_ne.
Qed.

(** Attaching a connection twice does not happen, so the attachments of the others stand. *)
Lemma attached_acted w w' s op sess :
  allowed s op sess w ->
  w_attached w' = match attaches limit s op (opened w sess) with
                  | Some (c, a) => <[c := a]> (w_attached w) | None => w_attached w end ->
  forall c a, w_attached w !! c = Some a -> w_attached w' !! c = Some a.
Proof.
  intros (_ & _ & Hat) -> c a Ha. destruct (attaches _ _ _ _) as [[c0 a0]|] eqn:E; [|done].
  destruct (Hat c0 a0 eq_refl) as (Hnone & _). rewrite lookup_insert_ne; [done|]. intros ->. congruence.
Qed.

(** The frames of a connection after a section. *)
Lemma traffic_acted s op sess w w' c k' :
  acted o s op w w' -> w_heap w !! s = Some sess -> w_conns w' !! c = Some k' -> (c ∉ w_dropped w') ->
  match w_conns w !! c with
  | Some k => (c ∉ w_dropped w) /\
      traffic k' = traffic k ++ dispatches (frames_to c (x_sent (sec_of limit s op (opened w sess))))
  | None => traffic k' = []
  end.
Proof.
  intros (sess' & w1 & Hs' & Hh & Hq) Hs Hk' Hd. rewrite Hs in Hs'. injection Hs' as <-. fold limit in Hh, Hq.
  set (w2 := match attaches limit s op (opened w sess) with Some _ => _ | None => _ end) in Hq.
  assert (w_conns w2 = w_conns w1 /\ w_dropped w2 = w_dropped w1) as [Hc2 Hd2].
  { unfold w2. by destruct (attaches _ _ _ _) as [[? ?]|]. }
  destruct Hq as [_ _ Qd Qc _], Hh as [_ _ _ _ _ _ D C]. rewrite Hc2, Hd2 in *.
  specialize (Qc c k' Hk' Hd). specialize (C c). cbn in C, D.
  destruct (w_conns w !! c) as [k|] eqn:Hk.
  - destruct C as (out & Hk1 & Hout). rewrite Hk1 in Qc. split; [set_solver|].
    rewrite Qc. unfold traffic at 1. cbn. rewrite Hout by set_solver.
    unfold traffic. by rewrite app_assoc, dispatches_app.
  - by rewrite C in Qc.
Qed.

(** The world after the section [op] of [s], which numbered [es]. *)
Record after_section (s : Z) (op : SecOp) (sess : session) w w' (es : list Entry) : Prop := {
  as_heap : w_heap w' = <[s := x_s (sec_of limit s op (opened w sess))]> (w_heap w);
  as_idx : w_idx w' = x_idx (sec_of limit s op (opened w sess));
  as_log s' : log_of w' s' = if decide (s' = s) then log_of w s ++ es else log_of w s';
  as_attached : w_attached w' = match attaches limit s op (opened w sess) with
                                | Some (c, a) => <[c := a]> (w_attached w) | None => w_attached w end;
  as_section : section limit (log_of w s) (delivered op) (opened w sess) (sec_of limit s op (opened w sess)) es;
  as_conn : sec_conn o op (opened w sess) (sec_of limit s op (opened w sess)) es
}.

Lemma acted_after s op sess w w' :
  good w -> acted o s op w w' -> w_heap w !! s = Some sess -> exists es, after_section s op sess w w' es.
Proof.
  intros Hg Hac Hs. destruct (acted_world o _ _ _ _ Hac) as (sess' & Hs' & Hh & Hi & Hl & _ & Hat).
  rewrite Hs in Hs'. injection Hs' as <-. cbv zeta in *.
  destruct (gd_stream _ Hg _ _ Hs) as [_ Hset].
  destruct (sec_section o Hlimit (log_of w s) s op (opened w sess) Hset) as (es & Hsec & Hconn).
  exists es. split; try done. intros s'. apply (log_of_acted _ _ _ _ _ Hl).
  by rewrite (sc_log _ _ _ _ _ _ Hsec).
Qed.

Section after.
Context (s : Z) (op : SecOp) (sess : session) w w' (es : list Entry).
Context (Hg : good w) (Hs : w_heap w !! s = Some sess) (Hal : allowed s op sess w)
  (Has : after_section s op sess w w' es).
Let x := opened w sess.
Let x' := sec_of limit s op x.

Lemma after_index s' :
  match w_heap w' !! s' with
  | Some sess' => indexed s' sess' (w_idx w')
  | None => unknown s' (w_idx w')
  end.
Proof.
  rewrite (as_heap _ _ _ _ _ _ Has), (as_idx _ _ _ _ _ _ Has). pose proof (gd_index _ Hg s') as Gi.
  destruct (sec_indexed_op s op x (proj1 Hal)) as [Hix Hothers]. unfold x in Hix, Hothers.
  destruct (decide (s' = s)) as [->|Hne].
  - rewrite lookup_insert_eq. rewrite Hs in Gi. auto.
  - rewrite lookup_insert_ne by done.
    destruct (w_heap w !! s'); [by eapply same_others_indexed|by eapply same_others_unknown].
Qed.

Lemma after_stream s' sess' :
  w_heap w' !! s' = Some sess' -> stream_ok limit sess' (log_of w' s') /\ settled sess'.
Proof.
  rewrite (as_heap _ _ _ _ _ _ Has), (as_log _ _ _ _ _ _ Has), lookup_insert_Some.
  intros [[<- <-]|[Hne Hs']]; [|rewrite decide_False by done; by apply Hg].
  destruct (gd_stream _ Hg _ _ Hs) as [Hok Hset]. rewrite decide_True by done.
  split; [|by apply sec_settled].
  pose proof (as_section _ _ _ _ _ _ Has) as Hsec. pose proof (sc_ok _ _ _ _ _ _ Hsec) as Hso.
  unfold sec_ok in Hso. rewrite (sc_log _ _ _ _ _ _ Hsec) in Hso. apply Hso. cbn. by rewrite app_nil_r.
Qed.

Lemma after_traffic c : stream_effect s op sess w c es.
Proof.
  destruct (gd_stream _ Hg _ _ Hs) as [Hok _].
  by apply sec_traffic; [|apply (proj1 (proj2 Hal))|apply Has].
Qed.

Lemma after_keep c a : w_attached w !! c = Some a -> w_attached w' !! c = Some a.
Proof. eapply attached_acted; [exact Hal|apply Has]. Qed.

Lemma after_conn s' sess' c :
  w_heap w' !! s' = Some sess' -> s_conn sess' = Some c ->
  exists a, w_attached w' !! c = Some a /\ at_session a = s'.
Proof.
  rewrite (as_heap _ _ _ _ _ _ Has), lookup_insert_Some. intros [[<- <-]|[Hne Hs']] Hc.
  - pose proof (after_traffic c) as Htr. unfold stream_effect in Htr. cbv zeta in Htr. rewrite (as_attached _ _ _ _ _ _ Has).
    destruct (attaches limit s op (opened w sess)) as [[c0 a0]|].
    + destruct Htr as (Ha & _ & Hc0 & _). rewrite Hc in Hc0. injection Hc0 as ->.
      exists a0. by rewrite lookup_insert_eq.
    + destruct Htr as [_ [Heq|Heq]]; [|congruence]. apply (gd_conn _ Hg s sess); congruence.
  - destruct (gd_conn _ Hg _ _ _ Hs' Hc) as (a & Ha & Hsa). exists a. split; [by apply after_keep|done].
Qed.

Lemma after_who : s_userID (x_s x') = s_userID sess /\ s_deviceID (x_s x') = s_deviceID sess.
Proof. destruct (sc_who _ _ _ _ _ _ (as_section _ _ _ _ _ _ Has)) as (? & ? & _). by split. Qed.

Lemma after_attached c a :
  w_attached w' !! c = Some a ->
  exists sess0, w_heap w' !! at_session a = Some sess0 /\
    s_userID sess0 = at_user a /\ s_deviceID sess0 = at_device a /\
    0 <= at_after a <= Z.of_nat (length (log_of w' (at_session a))).
Proof.
  rewrite (as_attached _ _ _ _ _ _ Has), (as_heap _ _ _ _ _ _ Has). fold x x'.
  destruct after_who as [Hu Hd]. fold x x' in Hu, Hd.
  assert (w_attached w !! c = Some a -> exists sess0, <[s:=x_s x']> (w_heap w) !! at_session a = Some sess0 /\
    s_userID sess0 = at_user a /\ s_deviceID sess0 = at_device a /\
    0 <= at_after a <= Z.of_nat (length (log_of w' (at_session a)))) as Hold.
  { intros Ha. destruct (gd_attached _ Hg _ _ Ha) as (sess0 & Hs0 & Hu0 & Hd0 & Hb).
    rewrite (as_log _ _ _ _ _ _ Has). destruct (decide (at_session a = s)) as [Heq|Hne].
    - rewrite Heq in *. rewrite Hs in Hs0. injection Hs0 as <-. exists (x_s x').
      rewrite lookup_insert_eq, length_app, Hu, Hd. split_and!; done || lia.
    - exists sess0. by rewrite lookup_insert_ne. }
  pose proof (after_traffic c) as Htr. unfold stream_effect in Htr. cbv zeta in Htr. fold x x' in Htr.
  destruct (attaches limit s op x) as [[c0 a0]|] eqn:E; [|exact Hold].
  rewrite lookup_insert_Some. intros [[<- <-]|[_ Ha]]; [|auto].
  destruct Htr as (-> & Hb & _). destruct (proj2 (proj2 Hal) c0 a0 E) as (_ & _ & Hu0 & Hd0).
  exists (x_s x'). rewrite lookup_insert_eq, (as_log _ _ _ _ _ _ Has), decide_True, length_app, Hu, Hd by done.
  split_and!; done || lia.
Qed.

(** A connection attached before gets the session's new frames, or is not attached any more. *)
Lemma streams_kept c a fs fs' :
  w_attached w !! c = Some a -> streams w c a fs ->
  (fs' = fs ++ (pair_of <$> es) /\ s_conn sess = Some c) \/ (fs' = fs /\ s_conn (x_s x') <> Some c) ->
  streams w' c a fs'.
Proof.
  intros Ha (es0 & rest & Hdrop & -> & Hrest) Hfs. unfold streams.
  rewrite (as_log _ _ _ _ _ _ Has), (as_heap _ _ _ _ _ _ Has). fold x x'.
  destruct (gd_attached _ Hg _ _ Ha) as (sess0 & Hs0 & _ & _ & Hb).
  destruct Hfs as [[-> Hc]|[-> Hc]].
  - destruct (gd_conn _ Hg _ _ _ Hs Hc) as (a' & Ha' & Hsa). rewrite Ha in Ha'. injection Ha' as <-.
    rewrite Hsa in *. rewrite decide_True, lookup_insert_eq by done.
    rewrite (Hrest sess Hs Hc), app_nil_r in Hdrop.
    exists (es0 ++ es), []. rewrite drop_app_le, Hdrop, fmap_app, app_nil_r by lia. by split_and!.
  - case_decide as Heq.
    + rewrite Heq in *. rewrite lookup_insert_eq. exists es0, (rest ++ es).
      rewrite drop_app_le, Hdrop, app_assoc by lia. split_and!; [done..|]. by intros sess1 [= <-] Hc1.
    + exists es0, rest. rewrite lookup_insert_ne by done. by split_and!.
Qed.

End after.

Lemma good_acted s op sess w w' :
  coherent w -> good w -> acted o s op w w' -> w_heap w !! s = Some sess -> allowed s op sess w -> good w'.
Proof.
  intros Hco Hg Hac Hs Hal. destruct (acted_after _ _ _ _ _ Hg Hac Hs) as (es & Has).
  split.
  - by eapply after_index.
  - by eapply after_stream.
  - intros s'. rewrite (as_heap _ _ _ _ _ _ Has), (as_log _ _ _ _ _ _ Has), lookup_insert_None.
    intros [Hs' Hne]. rewrite decide_False by done. by apply Hg.
  - by eapply after_conn.
  - by eapply after_attached.
  - intros c k' Hk' Hd. pose proof (traffic_acted _ _ _ _ _ _ _ Hac Hs Hk' Hd) as Htf.
    pose proof (after_traffic _ _ _ _ _ _ Hg Hs Hal Has c) as Htr. unfold stream_effect in Htr. cbv zeta in Htr.
    destruct Hal as (Hr & Hp & Hat). rewrite (as_attached _ _ _ _ _ _ Has).
    pose proof (gd_traffic _ Hg c) as Gt.
    destruct (attaches limit s op (opened w sess)) as [[c0 a0]|] eqn:E.
    + destruct Htr as (Ha0 & Hb & Hc0 & Heq & Hne). destruct (Hat c0 a0 eq_refl) as (Hnone & [k0 Hk0] & _).
      destruct (decide (c = c0)) as [->|Hc].
      * rewrite lookup_insert_eq, Hk0 in *. destruct Htf as [Hd0 Htf]. specialize (Gt k0 eq_refl Hd0).
        rewrite Hnone in Gt. rewrite Htf, Gt, Heq by done. rewrite app_nil_l.
        exists (drop (Z.to_nat (at_after a0)) (log_of w s) ++ es), [].
        rewrite Ha0, (as_log _ _ _ _ _ _ Has), decide_True, drop_app_le, app_nil_r by (done || lia).
        by split_and!.
      * rewrite lookup_insert_ne by done. rewrite (Hne Hc) in Htf.
        destruct (w_conns w !! c) as [k|] eqn:Hk; [destruct Htf as [Hd0 Htf]; rewrite app_nil_r in Htf|].
        { specialize (Gt k eq_refl Hd0). rewrite Htf. destruct (w_attached w !! c) as [a|] eqn:Ha; [|done].
          apply (streams_kept _ _ _ _ _ _ Hg Hs Has c a (traffic k)); [done..|]. right. split; [done|congruence]. }
        destruct (w_attached w !! c) as [a|] eqn:Ha; [|done].
        destruct (co_attached _ Hco _ _ Ha) as ([? ?] & _). congruence.
    + destruct (w_conns w !! c) as [k|] eqn:Hk.
      * destruct Htf as [Hd0 Htf], Htr as [Heq Hcn]. specialize (Gt k eq_refl Hd0). rewrite Htf, Heq.
        destruct (w_attached w !! c) as [a|] eqn:Ha.
        { apply (streams_kept _ _ _ _ _ _ Hg Hs Has c a (traffic k)); [done..|].
          case_decide as Hc; [by left|right]. rewrite app_nil_r. split; [done|]. destruct Hcn; congruence. }
        case_decide as Hc; [|by rewrite Gt]. destruct (gd_conn _ Hg _ _ _ Hs Hc) as (a & Ha' & _). congruence.
      * destruct (w_attached w !! c) as [a|] eqn:Ha; [|done].
        destruct (co_attached _ Hco _ _ Ha) as ([? ?] & _). congruence.
Qed.

(** ** Every step *)

(** All that holds of a reachable state. *)
Record sound w : Prop := {
  sd_coherent : coherent w;
  sd_good : good w;
  sd_owned c i : i ∈ code_of w c -> belongs w i
}.

Lemma moved_who l w w' s sess :
  moved o l w w' -> sound w -> w_heap w !! s = Some sess ->
  exists sess', w_heap w' !! s = Some sess' /\ s_userID sess' = s_userID sess /\
    s_deviceID sess' = s_deviceID sess /\ s_id sess' = s_id sess /\
    (s_ended sess = true -> s_ended sess' = true /\ log_of w' s = log_of w s).
Proof.
  intros Hm [Hco Hg _] Hs.
  destruct Hm as [[(Hh & _ & Hl & _) _ _ _ _]|[(id & actor & sign & c & a & rest & olds & -> & Hc & Hr)|
    (s' & op & Ha & Hac)]].
  - exists sess. unfold log_of. by rewrite Hh, Hl.
  - destruct Hr as [(Hh & _ & Hl & _) _ _ _ _]. exists sess. unfold log_of. rewrite Hh, Hl. cbn.
    pose proof (co_heap _ Hco _ _ Hs). by rewrite lookup_insert_ne by lia.
  - destruct Hac as (sess0 & w1 & Hs0 & Hrest).
    destruct (acted_after s' op sess0 w w' Hg) as (es & Has); [by exists sess0, w1|done|].
    rewrite (as_heap _ _ _ _ _ _ Has), (as_log _ _ _ _ _ _ Has).
    destruct (decide (s' = s)) as [->|Hne].
    + rewrite lookup_insert_eq, decide_True by done. rewrite Hs in Hs0. injection Hs0 as <-.
      destruct (as_section _ _ _ _ _ _ Has) as [_ (Hu & Hd & Hi) He _ _ _].
      eexists. split_and!; try done. intros Hend. destruct (He Hend) as [? ->]. by rewrite app_nil_r.
    + rewrite lookup_insert_ne, decide_False by done. by exists sess.
Qed.

Lemma belongs_mono w w' i :
  (forall s sess, w_heap w !! s = Some sess -> exists sess', w_heap w' !! s = Some sess' /\
     s_userID sess' = s_userID sess /\ s_deviceID sess' = s_deviceID sess) ->
  belongs w i -> belongs w' i.
Proof.
  intros Hw. destruct i; cbn; try done.
  - intros (sess & Hs & Hu & Hd). destruct (Hw _ _ Hs) as (sess' & Hs' & Hu' & Hd').
    exists sess'. by rewrite Hu', Hd'.
  - intros (Hn & sess & Hs & Hu & Hd). destruct (Hw _ _ Hs) as (sess' & Hs' & Hu' & Hd').
    split; [done|]. exists sess'. by rewrite Hu', Hd'.
Qed.

Lemma follows_belongs w w1 w' i j :
  follows w w1 i j -> w_heap w' = w_heap w1 -> belongs w i ->
  (forall i, belongs w i -> belongs w' i) -> belongs w' j.
Proof.
  intros Hf Hh Hi Hmono. destruct j; cbn in Hf |- *; try done.
  - destruct Hf as (-> & _ & sess & Hs & _ & Hu & Hd). exists sess. by rewrite Hh.
  - subst i. exact Hi.
  - destruct Hf as (id & -> & sess & Hs & Hu & Hd). cbn in Hi.
    apply (Hmono (IResume s actor sign seq)). cbn. split; [done|]. by exists sess.
Qed.

Lemma step_owned l w w' :
  step o l w = Some w' -> sound w -> moved o l w w' -> forall c i, i ∈ code_of w' c -> belongs w' i.
Proof.
  intros Hst Hsd Hm c i Hin. pose proof Hsd as [Hco Hg Ho].
  assert (forall i, belongs w i -> belongs w' i) as Hmono.
  { intros j. apply belongs_mono. intros s sess Hs.
    destruct (moved_who _ _ _ _ _ Hm Hsd Hs) as (sess' & ? & ? & ? & _). eauto. }
  destruct (is_serve l) as [(c0 & a & ->)|Hl].
  - destruct (step_served o _ _ _ _ Hst) as (i0 & rest & code & w1 & Hc0 & Hex & Hw').
    destruct (serve_code o _ _ _ _ Hst) as (i1 & rest1 & code1 & w2 & Hc1 & Hex1 & _ & Hcode & _ & _ & Hoth).
    rewrite Hc0 in Hc1. injection Hc1 as <- <-. rewrite Hex in Hex1. injection Hex1 as <- <-.
    destruct (decide (c = c0)) as [->|Hne]; [|destruct (Hoth c Hne) as [Heq _]; rewrite Heq in Hin; eauto].
    rewrite Hcode in Hin. apply elem_of_app in Hin as [Hin|Hin].
    + pose proof (exec_code _ _ _ _ _ _ _ Hex) as Hf. rewrite Forall_forall in Hf. specialize (Hf _ Hin).
      eapply follows_belongs; [done|by rewrite Hw'| |done]. apply (Ho c0). rewrite Hc0. by left.
    + apply Hmono, (Ho c0). rewrite Hc0. by right.
  - destruct (step_code_other o _ _ _ c Hst Hco Hl) as [_ [Heq|(_ & [Hall|(_ & j & Hj & Hs)])]].
    + rewrite Heq in Hin. eauto.
    + rewrite Forall_forall in Hall. specialize (Hall _ Hin). by destruct i.
    + rewrite Hj in Hin. apply list_elem_of_singleton in Hin as ->. destruct j; by try destruct Hs.
Qed.

(** What opens a section has the right to. *)
Lemma asked_allowed l s op sess w :
  sound w -> asked l s op w -> w_heap w !! s = Some sess -> allowed s op sess w.
Proof.
  intros [Hco Hg Ho] Ha Hs.
  assert (forall c i rest, code_of w c = i :: rest -> attaching i = true -> w_attached w !! c = None) as Hnew.
  { intros c i rest Hc Hi. destruct (w_attached w !! c) as [a|] eqn:E; [|done].
    destruct (co_attached _ Hco _ _ E) as (_ & Hf & _). rewrite Hc in Hf.
    apply Forall_cons in Hf as [Hf _]. congruence. }
  split; [|split].
  - intros payload guilds ->. destruct Ha as (c & a & rest & _ & Hc).
    destruct (co_readying _ Hco c (IReady s) s) as (sess' & Hs' & Hr & _); [rewrite Hc; by left|done|].
    congruence.
  - intros c a sg n ->. destruct Ha as (a' & rest & _ & Hc).
    destruct (Ho c (IResume s a sg n)) as [Hn _]; [rewrite Hc; by left|done].
  - intros c a Hat. destruct op; cbn in Hat; try done.
    + case_match; try done. injection Hat as <- <-. destruct Ha as (a' & rest & _ & Hc).
      destruct (Ho c0 (IResume s actor sign seq)) as (_ & sess' & Hs' & Hu & Hd); [rewrite Hc; by left|].
      rewrite Hs in Hs'. injection Hs' as <-. split_and!; [by eapply Hnew|by eapply conn_of_code|done..].
    + injection Hat as <- <-. destruct Ha as (a' & rest & _ & Hc).
      destruct (Ho c0 (IAttach s actor sign)) as (sess' & Hs' & Hu & Hd); [rewrite Hc; by left|].
      rewrite Hs in Hs'. injection Hs' as <-. split_and!; [by eapply Hnew|by eapply conn_of_code|done..].
Qed.

Lemma step_sound l w w' : step o l w = Some w' -> sound w -> sound w'.
Proof.
  intros Hst Hsd. pose proof Hsd as [Hco Hg Ho].
  pose proof (step_moved o _ _ _ Hst (co_conns _ Hco) (co_gos _ Hco)) as Hm.
  pose proof (step_coherent o Hlimit _ _ _ Hst Hco) as Hco'.
  split; [done| |by eapply step_owned].
  destruct Hm as [Hq|[(id & actor & sign & c & a & rest & olds & -> & Hc & Hr)|(s & op & Ha & Hac)]].
  - exact (good_quiet _ _ Hco Hq Hg).
  - exact (good_registered _ _ _ _ _ Hco Hco' Hr Hg).
  - pose proof Hac as (sess & w1 & Hs & _).
    exact (good_acted _ _ _ _ _ Hco Hg Hac Hs (asked_allowed _ _ _ _ _ Hsd Ha Hs)).
Qed.

Lemma New_sound : sound (New o).
Proof.
  assert (forall s, w_heap (New (DB := DB) o) !! s = None) as Hn by (intros; apply lookup_empty).
  split; [by apply New_coherent| |].
  - split; intros *; rewrite ?Hn; done.
  - intros c i Hi. unfold code_of in Hi. cbn in Hi. rewrite lookup_empty in Hi. by apply elem_of_nil in Hi.
Qed.

Lemma reachable_sound w : reachable o w -> sound w.
Proof. intros [ls Hr]. eapply (run_invariant o sound); [|apply New_sound|done]. intros l w1 w2 Hsd Hst. by eapply step_sound. Qed.

End runs.

(** ** Fan-out *)

(** ** Candidates *)

Lemma elem_distinct_from ids seen u : u ∈ distinct_from ids seen -> u ∈ ids.
Proof.
  revert seen. induction ids as [|i ids IH]; intros seen; cbn; [done|].
  case_decide; rewrite ?elem_of_cons; naive_solver.
Qed.

Lemma elem_ofUser u x s : s ∈ sessionIndex_ofUser u x <-> of_user x u s.
Proof. unfold sessionIndex_ofUser, of_user. by rewrite elem_of_elements. Qed.

Lemma elem_ofUsers_from users seen x s :
  s ∈ ofUsers_from users seen x <-> exists u, u ∈ users /\ (u ∉ seen) /\ of_user x u s.
Proof.
  revert seen. induction users as [|u users IH]; intros seen; cbn.
  { split; [by intros ?%elem_of_nil|]. intros (u & Hu & _). by apply elem_of_nil in Hu. }
  case_decide as Hd; rewrite ?elem_of_app, IH; setoid_rewrite elem_of_cons.
  - split; intros (u' & ? & ? & ?); exists u'; [by auto|]. destruct_or!; [subst; done|by auto].
  - rewrite elem_ofUser. split.
    + intros [Hs|(u' & ? & Hn & ?)]; [exists u; by auto|]. exists u'. split_and!; [by auto|set_solver|done].
    + intros (u' & Hor & Hn & Hs). destruct (decide (u' = u)) as [->|Hne]; [by left|].
      right. exists u'. split_and!; [by destruct Hor|set_solver|done].
Qed.

(** When the index names each session under one account, every session is listed once. *)
Lemma NoDup_ofUsers users seen x :
  (forall u u' s, of_user x u s -> of_user x u' s -> u = u') -> NoDup (ofUsers_from users seen x).
Proof.
  intros Hone. revert seen. induction users as [|u users IH]; intros seen; cbn; [by constructor|].
  case_decide; [by apply IH|]. apply NoDup_app. split_and!; [apply NoDup_elements| |by apply IH].
  intros s Hs Hin. apply elem_ofUser in Hs. apply elem_ofUsers_from in Hin as (u' & _ & Hn & Hs').
  rewrite (Hone u u' s) in Hn by done. set_solver.
Qed.

Lemma elem_ofGuild g x s : s ∈ sessionIndex_ofGuild g x <-> of_guild x g s \/ s ∈ unready x.
Proof. unfold sessionIndex_ofGuild, of_guild. by rewrite elem_of_app, !elem_of_elements. Qed.

Lemma NoDup_ofGuild g x :
  (forall s, of_guild x g s -> s ∈ unready x -> False) -> NoDup (sessionIndex_ofGuild g x).
Proof.
  intros Hd. unfold sessionIndex_ofGuild. apply NoDup_app. split_and!; [apply NoDup_elements| |apply NoDup_elements].
  intros s Hs Hu. apply elem_of_elements in Hs, Hu. by apply (Hd s).
Qed.

Section lanes.
Context {DB : Type} `{!AudienceResolver DB} (o : Options).
Context (Hlimit : 0 <= opt_ResumeBuffer o).
Implicit Types w : World DB.

(** In a reachable state a session is a candidate for an event when it is live and the event names
    its account, or is about a guild of its set, or reaches it before its READY. *)
Lemma candidates_spec w ev s :
  good o w ->
  s ∈ candidates ev w <->
  exists sess, w_heap w !! s = Some sess /\ s_ended sess = false /\
    (if bool_decide (Event_Audience ev = AudUsers) then s_userID sess ∈ Event_Users ev
     else Event_GuildID ev ∈ s_guilds sess \/ s_ready sess = false).
Proof.
  clear Hlimit. intros Hg. unfold candidates. pose proof (gd_index _ _ Hg s) as Hi.
  case_bool_decide.
  - unfold sessionIndex_ofUsers. rewrite elem_ofUsers_from. destruct (w_heap w !! s) as [sess|].
    + split.
      * intros (u & Hu & _ & Hs). apply (ix_user _ _ _ Hi) in Hs as [He <-]. eauto.
      * intros (sess' & [= <-] & He & Hu). exists (s_userID sess). split_and!; [done|set_solver|].
        by apply (ix_user _ _ _ Hi).
    + destruct Hi as (Hi & _). naive_solver.
  - rewrite elem_ofGuild. destruct (w_heap w !! s) as [sess|].
    + rewrite (ix_guild _ _ _ Hi), (ix_unready _ _ _ Hi). naive_solver.
    + destruct Hi as (_ & Hi & Hi'). naive_solver.
Qed.

Lemma candidates_NoDup w ev : good o w -> NoDup (candidates ev w).
Proof.
  intros Hg. unfold candidates. case_bool_decide.
  - apply NoDup_ofUsers. intros u u' s. pose proof (gd_index _ _ Hg s) as Hi.
    destruct (w_heap w !! s) as [sess|]; [|by destruct Hi as (Hi & _); intros ?%Hi].
    rewrite !(ix_user _ _ _ Hi). naive_solver.
  - apply NoDup_ofGuild. intros s. pose proof (gd_index _ _ Hg s) as Hi.
    destruct (w_heap w !! s) as [sess|]; [|by destruct Hi as (_ & _ & Hi); intros ?%Hi].
    rewrite (ix_guild _ _ _ Hi), (ix_unready _ _ _ Hi). intros [_ Hgd] [_ Hr].
    rewrite (ix_early _ _ _ Hi Hr) in Hgd. set_solver.
Qed.

(** ** The events of a session *)

(** What a session numbered, and what it holds until its READY. *)
Definition events_of w (s : Z) : list (Event string) :=
  omap en_event (log_of w s) ++
  match w_heap w !! s with Some sess => s_pending sess | None => [] end.

(** Sections deliver nothing but what a lane hands them, and lose the order of nothing. *)
Lemma events_moved l w w' s :
  moved o l w w' -> sound o w ->
  events_of w' s `sublist_of` events_of w s \/
  exists n db q ev rest, l = LLane n db /\ w_lanes w !! n = Some (mkLane q (LaneDeliver ev (s :: rest))) /\
    events_of w' s `sublist_of` events_of w s ++ [ev].
Proof.
  intros Hm [Hco Hg _].
  destruct Hm as [[(Hh & _ & Hl & _) _ _ _ _]|[(id & actor & sign & c & a & rest & olds & -> & Hc & Hr)|
    (s' & op & Ha & Hac)]].
  - left. unfold events_of, log_of. by rewrite Hh, Hl.
  - left. destruct Hr as [(Hh & _ & Hl & _) _ _ _ _]. unfold events_of, log_of. rewrite Hh, Hl. cbn.
    destruct (decide (s = w_nextSession w)) as [->|Hne]; [|by rewrite lookup_insert_ne].
    rewrite lookup_insert_eq. cbn. apply sublist_app; [done|apply sublist_nil_l].
  - pose proof Hac as (sess & w1 & Hs & _).
    destruct (acted_after o Hlimit _ _ _ _ _ Hg Hac Hs) as (es & Has).
    unfold events_of. rewrite (as_log _ _ _ _ _ _ _ Has), (as_heap _ _ _ _ _ _ _ Has).
    destruct (decide (s = s')) as [->|Hne]; [|left; by rewrite lookup_insert_ne].
    rewrite lookup_insert_eq, Hs, omap_app, <- app_assoc.
    pose proof (sc_events _ _ _ _ _ _ (as_section _ _ _ _ _ _ _ Has)) as Hev.
    destruct op; cbn [delivered] in Hev; try (rewrite (app_nil_r (s_pending (x_s (opened w sess)))) in Hev; left; by apply sublist_app).
    right. destruct Ha as (n & db & q & rest & -> & Hlane). exists n, db, q, ev, rest.
    split_and!; [done..|]. rewrite <- app_assoc. by apply sublist_app.
Qed.

Lemma user_of_moved l w w' s :
  moved o l w w' -> sound o w -> is_Some (w_heap w !! s) ->
  is_Some (w_heap w' !! s) /\ user_of w' s = user_of w s.
Proof.
  intros Hm Hsd [sess Hs]. destruct (moved_who o Hlimit _ _ _ _ _ Hm Hsd Hs) as (sess' & Hs' & Hu & _).
  unfold user_of. by rewrite Hs, Hs', Hu.
Qed.

(** ** What a step does to the lanes *)

Lemma exec_lanes self i a w w' code :
  exec o self i a w = Some (w', code) ->
  w_lanes w' = w_lanes w /\ w_published w' = w_published w /\ w_judged w' = w_judged w.
Proof. intros Hex. by destruct (exec_calm _ _ _ _ _ _ _ Hex) as [[_ _ Hl _]|(s & -> & ->)]. Qed.

Lemma step_lanes l w w' :
  step o l w = Some w' ->
  (w_lanes w' = w_lanes w /\ w_published w' = w_published w /\ w_judged w' = w_judged w /\
   forall n db, l <> LLane n db) \/
  (exists ev, l = LEvent ev /\ onEvent ev w = Some w') \/
  (exists n db, l = LLane n db /\ fanOut o n db w = Some w').
Proof.
  intros Hst. destruct l as [| | | | | | | | |ev| |n db];
    [..|right; left; by exists ev| |right; right; by exists n, db]; left; cbn in Hst.
  - unfold ServeHTTP in Hst. opt_inv. by case_match.
  - by opt_inv.
  - by opt_inv.
  - by opt_inv.
  - opt_inv. cbn. by destruct (exec_lanes _ _ _ _ _ _ H0) as (-> & -> & ->).
  - opt_inv. cbn. by destruct (exec_lanes _ _ _ _ _ _ H0) as (-> & -> & ->).
  - by opt_inv.
  - by opt_inv.
  - by opt_inv.
  - by opt_inv.
Qed.

(** ** The invariant of the lanes *)

Definition lane_sessions (l : Lane) : list Z :=
  match lane_work l with LaneIdle => [] | LaneResolve _ ss | LaneDeliver _ ss => ss end.
Definition lane_current (l : Lane) : list (Event string) :=
  match lane_work l with LaneIdle => [] | LaneResolve ev _ | LaneDeliver ev _ => [ev] end.

(** What lane [l] may still hand session [s]. *)
Definition awaits (s : Z) (l : Lane) : list (Event string) :=
  (if decide (s ∈ lane_sessions l) then lane_current l else []) ++ lane_queue l.

(** The events of lane [n], of those listed. *)
Definition lane_count : Z := Z.of_nat (Z.to_nat (opt_FanoutLanes o)).
Definition on_lane (n : nat) (evs : list (Event string)) : list (Event string) :=
  filter (fun ev => lane_of lane_count ev = n) evs.

(** The resolver allowed [ev] for the account [u], with the database it was asked about. *)
Definition judged_for w (ev : Event string) (u : Z) : Prop :=
  exists db, (ev, db) ∈ w_judged w /\ may_receive db ev u.

(** An event about accounts names [u]. *)
Definition named (ev : Event string) (u : Z) : Prop := Event_Audience ev = AudUsers -> u ∈ Event_Users ev.

Record flowing w : Prop := {
  fl_count : Z.of_nat (length (w_lanes w)) = lane_count;
  fl_nodup n l : w_lanes w !! n = Some l -> NoDup (lane_sessions l);
  fl_known n l s : w_lanes w !! n = Some l -> s ∈ lane_sessions l -> is_Some (w_heap w !! s);
  fl_own n l ev : w_lanes w !! n = Some l -> ev ∈ lane_current l ++ lane_queue l ->
    lane_of lane_count ev = n;
  fl_order n l s : w_lanes w !! n = Some l ->
    exists past, on_lane n (w_published w) = past ++ awaits s l /\
      on_lane n (events_of w s) `sublist_of` past;
  fl_permitted n l ev ss s : w_lanes w !! n = Some l -> lane_work l = LaneDeliver ev ss -> s ∈ ss ->
    judged_for w ev (user_of w s);
  fl_named n l ev s : w_lanes w !! n = Some l -> ev ∈ lane_current l -> s ∈ lane_sessions l ->
    named ev (user_of w s);
  fl_judged s ev : ev ∈ events_of w s ->
    is_Some (w_heap w !! s) /\ judged_for w ev (user_of w s) /\ named ev (user_of w s)
}.

Lemma on_lane_sublist n evs evs' :
  evs `sublist_of` evs' -> on_lane n evs `sublist_of` on_lane n evs'.
Proof.
  unfold on_lane. induction 1 as [|ev evs evs' _ IH|ev evs evs' _ IH]; [done| |]; rewrite !filter_cons.
  - case_decide; [by apply sublist_skip|done].
  - case_decide; [by apply sublist_cons|done].
Qed.

Lemma judged_mono w w' ev u :
  (forall p, p ∈ w_judged w -> p ∈ w_judged w') -> judged_for w ev u -> judged_for w' ev u.
Proof. intros Hj (db & Hin & Hm). exists db. auto. Qed.

(** What every step keeps of the sessions. *)
Definition kept w w' : Prop :=
  forall s, is_Some (w_heap w !! s) -> is_Some (w_heap w' !! s) /\ user_of w' s = user_of w s.

(** Steps that are not a lane's. *)
Lemma flowing_other w w' :
  flowing w -> kept w w' -> w_lanes w' = w_lanes w -> w_published w' = w_published w ->
  w_judged w' = w_judged w -> (forall s, events_of w' s `sublist_of` events_of w s) -> flowing w'.
Proof.
  intros [Fc Fn Fk Fo Fr Fp Fa Fj] Hk Hl Hp Hj He.
  assert (forall ev u, judged_for w ev u -> judged_for w' ev u) as Hjj.
  { intros ev u. apply judged_mono. by rewrite Hj. }
  split; rewrite ?Hl; try done.
  - intros n l s Hn Hs. by apply Hk, (Fk n l s).
  - intros n l s Hn. rewrite Hp. destruct (Fr n l s Hn) as (past & Hpast & Hsub). exists past.
    split; [done|]. etrans; [|exact Hsub]. by apply on_lane_sublist.
  - intros n l ev ss s Hn Hw Hs. destruct (Hk s) as [_ ->]; [|by eauto].
    eapply Fk; [done|]. unfold lane_sessions. by rewrite Hw.
  - intros n l ev s Hn Hev Hs. destruct (Hk s) as [_ ->]; [by eapply Fk|by eauto].
  - intros s ev Hin. destruct (Fj s ev) as (Hs & Hjf & Ha); [by eapply elem_of_sublist|].
    destruct (Hk s Hs) as [? ->]. auto.
Qed.

(** A lane moves on: each session has less to wait for, and was handed the first event it waited for
    or none. *)
Lemma flowing_advance n l l' w w' :
  flowing w -> kept w w' -> w_lanes w !! n = Some l -> w_lanes w' = <[n := l']> (w_lanes w) ->
  w_published w' = w_published w -> (forall p, p ∈ w_judged w -> p ∈ w_judged w') ->
  NoDup (lane_sessions l') -> (forall s, s ∈ lane_sessions l' -> is_Some (w_heap w !! s)) ->
  (lane_current l' ++ lane_queue l' `sublist_of` lane_current l ++ lane_queue l) ->
  (forall ev ss s, lane_work l' = LaneDeliver ev ss -> s ∈ ss -> judged_for w' ev (user_of w s)) ->
  (forall ev s, ev ∈ lane_current l' -> s ∈ lane_sessions l' -> named ev (user_of w s)) ->
  (forall s, exists gone, awaits s l = gone ++ awaits s l' /\
     (events_of w' s `sublist_of` events_of w s \/
      exists ev ss, gone = [ev] /\ lane_work l = LaneDeliver ev ss /\ s ∈ ss /\
        events_of w' s `sublist_of` events_of w s ++ [ev])) ->
  flowing w'.
Proof.
  intros [Fc Fn Fk Fo Fr Fp Fa Fj] Hk Hn Hl Hp Hj Hnd Hks Hsub Hpm Hnm Hs.
  assert (forall ev u, judged_for w ev u -> judged_for w' ev u) as Hjj by (intros; by eapply judged_mono).
  assert (forall m lm, w_lanes w' !! m = Some lm -> m = n /\ lm = l' \/ m <> n /\ w_lanes w !! m = Some lm) as Hlook.
  { intros m lm. rewrite Hl, list_lookup_insert_Some. naive_solver. }
  split.
  - by rewrite Hl, length_insert.
  - intros m lm [[-> ->]|[_ Hm]]%Hlook; eauto.
  - intros m lm s [[-> ->]|[_ Hm]]%Hlook Hin; apply Hk; eauto.
  - intros m lm ev [[-> ->]|[_ Hm]]%Hlook Hin; [|eauto]. eapply Fo; [done|]. by eapply elem_of_sublist.
  - intros m lm s Hm. rewrite Hp. destruct (Hs s) as (gone & Hgone & Hev).
    apply Hlook in Hm as [[-> ->]|[Hne Hm]].
    + destruct (Fr n l s Hn) as (past & -> & Hpast). exists (past ++ gone). split; [by rewrite Hgone, app_assoc|].
      destruct Hev as [Hev|(ev & ss & -> & Hw & _ & Hev)]; apply (on_lane_sublist n) in Hev.
      * rewrite Hev, Hpast. by apply sublist_inserts_r.
      * rewrite Hev. unfold on_lane at 1. rewrite filter_app. apply sublist_app; [done|]. apply sublist_filter.
    + destruct (Fr m lm s Hm) as (past & Hpast & Hsb). exists past. split; [done|].
      destruct Hev as [Hev|(ev & ss & _ & Hw & _ & Hev)]; apply (on_lane_sublist m) in Hev; rewrite Hev; [done|].
      unfold on_lane at 1. rewrite filter_app. cbn. rewrite decide_False; [by rewrite app_nil_r|].
      rewrite (Fo n l ev Hn); [done|]. unfold lane_current. rewrite Hw. by left.
  - intros m lm ev ss s [[-> ->]|[_ Hm]]%Hlook Hw Hin.
    + assert (is_Some (w_heap w !! s)) as Hsome by (apply Hks; unfold lane_sessions; by rewrite Hw).
      destruct (Hk s Hsome) as [_ ->]. eauto.
    + destruct (Hk s) as [_ ->]; [eapply Fk; [done|]; unfold lane_sessions; by rewrite Hw|eauto].
  - intros m lm ev s [[-> ->]|[_ Hm]]%Hlook Hev Hin.
    + destruct (Hk s) as [_ ->]; [by apply Hks|by eauto].
    + destruct (Hk s) as [_ ->]; [by eapply Fk|by eauto].
  - intros s ev Hin.
    assert (is_Some (w_heap w !! s) /\ judged_for w ev (user_of w s) /\ named ev (user_of w s)) as (Hsome & Hjd & Ha).
    { destruct (Hs s) as (gone & _ & [Hev|(ev' & ss & _ & Hw & Hss & Hev)]).
      - apply Fj. by eapply elem_of_sublist.
      - eapply elem_of_sublist in Hin; [|exact Hev]. apply elem_of_app in Hin as [?| ->%list_elem_of_singleton]; [by apply Fj|].
        assert (s ∈ lane_sessions l /\ ev' ∈ lane_current l) as [? ?].
        { unfold lane_sessions, lane_current. rewrite Hw. split; [done|by left]. }
        split_and!; [by eapply Fk|by eapply Fp|by eapply Fa]. }
    destruct (Hk s Hsome) as [? ->]. auto.
Qed.

(** An event published: it goes to the end of its lane. *)
Lemma flowing_event ev w w' : flowing w -> onEvent ev w = Some w' -> flowing w'.
Proof.
  intros [Fc Fn Fk Fo Fr Fp Fa Fj] Hst. unfold onEvent in Hst. rewrite Fc in Hst. opt_inv. rename x into l, H into Hl.
  assert (forall m lm, <[lane_of lane_count ev := mkLane (lane_queue l ++ [ev]) (lane_work l)]> (w_lanes w) !! m = Some lm ->
    exists l0, w_lanes w !! m = Some l0 /\ lane_work lm = lane_work l0 /\
      lane_queue lm = lane_queue l0 ++ on_lane m [ev] /\ (forall ev', ev' ∈ on_lane m [ev] -> lane_of lane_count ev' = m)) as Hlook.
  { intros m lm. rewrite list_lookup_insert_Some. unfold on_lane. cbn.
    intros [(<- & <- & _)|[Hne Hm]].
    - exists l. rewrite decide_True by done. split_and!; [done..|]. by intros ? ->%list_elem_of_singleton.
    - exists lm. rewrite decide_False by congruence. rewrite app_nil_r. split_and!; [done..|].
      by intros ? ?%elem_of_nil. }
  split; cbn; try done.
  - by rewrite length_insert.
  - intros m lm (l0 & Hm & Hw & _)%Hlook. unfold lane_sessions. rewrite Hw. by apply (Fn m).
  - intros m lm s (l0 & Hm & Hw & _)%Hlook. unfold lane_sessions. rewrite Hw. by apply (Fk m).
  - intros m lm ev' (l0 & Hm & Hw & Hq & Ho)%Hlook. unfold lane_current. rewrite Hw, Hq, app_assoc, elem_of_app.
    intros [Hin|Hin]; [by eapply Fo|by apply Ho].
  - intros m lm s (l0 & Hm & Hw & Hq & _)%Hlook. destruct (Fr m l0 s Hm) as (past & Hpast & Hsub).
    exists past. split; [|done]. unfold awaits, lane_sessions, lane_current in *. rewrite Hw, Hq.
    unfold on_lane in *. by rewrite filter_app, Hpast, <- !app_assoc.
  - intros m lm ev' ss s (l0 & Hm & Hw & _)%Hlook. rewrite Hw. by apply (Fp m).
  - intros m lm ev' s (l0 & Hm & Hw & _)%Hlook. unfold lane_current, lane_sessions. rewrite Hw. by apply (Fa m).
Qed.

Lemma awaits_idle s q : awaits s (mkLane q LaneIdle) = q.
Proof. unfold awaits, lane_sessions, lane_current. cbn. by case_decide. Qed.

(** One of a lane's worker's steps. *)
Lemma flowing_fanOut n db w w' :
  flowing w -> sound o w -> kept w w' -> moved o (LLane n db) w w' -> fanOut o n db w = Some w' -> flowing w'.
Proof.
  intros Hf Hsd Hk Hm Hst. pose proof (sd_good _ _ Hsd) as Hg.
  assert (forall l, w_lanes w !! n = Some l -> (forall ev s ss, lane_work l <> LaneDeliver ev (s :: ss)) ->
    forall s, events_of w' s `sublist_of` events_of w s) as Hquiet.
  { intros l Hl Hnd s. destruct (events_moved _ _ _ s Hm Hsd) as [?|(n' & db' & q & ev & rest & Heq & Hl' & _)]; [done|].
    injection Heq as <- <-. rewrite Hl in Hl'. injection Hl' as ->. by destruct (Hnd ev s rest). }
  unfold fanOut in Hst. destruct (w_lanes w !! n) as [l|] eqn:Hl; [|done]. cbn [mbind option_bind] in Hst.
  cbv zeta in Hst. specialize (Hquiet l eq_refl). destruct l as [queue work]. cbn [lane_work lane_queue] in *.
  destruct work as [|ev ss|ev [|s ss]].
  - destruct queue as [|ev queue]; [done|]. injection Hst as <-.
    eapply (flowing_advance n); [done|done|done|reflexivity|reflexivity|..]; case_bool_decide as Hc; cbn; try done.
    + constructor.
    + by apply candidates_NoDup.
    + by intros ? ?%elem_of_nil.
    + intros s (sess & Hs & _)%candidates_spec; [by eexists|done].
    + by apply sublist_cons.
    + intros ev' s Hev. by intros ?%elem_of_nil.
    + intros ev' s Hev (sess & Hs & _ & Ha)%candidates_spec; [|done]. apply list_elem_of_singleton in Hev as ->.
      unfold named, user_of. intros Hau. rewrite Hs. by rewrite bool_decide_true in Ha.
    + intros s. rewrite !awaits_idle. exists [ev]. split; [done|]. left. by apply Hquiet.
    + intros s. rewrite awaits_idle. unfold awaits, lane_sessions, lane_current. cbn [lane_work lane_queue].
      destruct (decide _).
      * exists []. split; [done|]. left. by apply Hquiet.
      * exists [ev]. split; [done|]. left. by apply Hquiet.
  - destruct (Allowed ev (distinctUsers ss w) db) as [out|] eqn:Ha; injection Hst as <-.
    + eapply (flowing_advance n); [done|done|done|reflexivity|reflexivity|..]; cbn.
      * intros p Hin. rewrite elem_of_app. by left.
      * by apply NoDup_filter, (fl_nodup _ Hf n _ Hl).
      * intros s [_ Hin]%list_elem_of_filter. by apply (fl_known _ Hf n _ _ Hl).
      * done.
      * intros ev' ss' s [= <- <-] [Hin _]%list_elem_of_filter. exists db. cbn. split; [set_solver|].
        by eapply Allowed_sound.
      * intros ev' s Hev [_ Hin]%list_elem_of_filter. by apply (fl_named _ Hf n _ ev' s Hl).
      * intros s. unfold awaits, lane_sessions, lane_current. cbn [lane_work lane_queue withoutBlocked].
        destruct (decide (s ∈ ss)), (decide (s ∈ filter _ _)) as [Hin|]; try (exists []; split; [done|]; left; by apply Hquiet).
        { exists [ev]. split; [done|]. left. by apply Hquiet. }
        by apply list_elem_of_filter in Hin as [_ ?].
    + eapply (flowing_advance n); [done|done|done|reflexivity|reflexivity|..]; cbn;
        try done; try (by constructor); try (by intros ? ?%elem_of_nil); try (by intros ? ? ?%elem_of_nil);
      try (by apply sublist_cons).
      intros s. rewrite awaits_idle. unfold awaits. cbn [lane_queue]. eexists. split; [done|]. left. by apply Hquiet.
  - injection Hst as <-.
    eapply (flowing_advance n); [done|done|done|reflexivity|reflexivity|..]; cbn;
      try done; try (by constructor); try (by intros ? ?%elem_of_nil); try (by intros ? ? ?%elem_of_nil);
      try (by apply sublist_cons).
    intros s. rewrite awaits_idle. unfold awaits. cbn [lane_queue]. eexists. split; [done|]. left. by apply Hquiet.
  - destruct (locked s _ w) as [w1|] eqn:El; [|done]. injection Hst as <-.
    destruct (calm_locked _ _ _ _ El) as [_ _ (Hl1 & Hp1 & Hj1) _].
    pose proof (fl_nodup _ Hf n _ Hl) as Hnd. cbn in Hnd. apply NoDup_cons in Hnd as [Hns Hnd].
    eapply (flowing_advance n); [done|done|done|cbn; by rewrite Hl1|done|..]; cbn; rewrite ?Hl1, ?Hj1; try done.
    + intros r Hr. apply (fl_known _ Hf n _ _ Hl). by right.
    + intros ev' ss' r [= <- <-] Hr. destruct (fl_permitted _ Hf n _ ev (s :: ss) r Hl eq_refl) as (db' & ? & ?); [by right|].
      exists db'. cbn. by rewrite Hj1.
    + intros ev' r Hev Hr. apply (fl_named _ Hf n _ ev' r Hl); [done|by right].
    + intros r. unfold awaits, lane_sessions, lane_current. cbn [lane_work lane_queue].
      destruct (decide (r = s)) as [->|Hne].
      * rewrite decide_True, decide_False by (done || by left). exists [ev]. split; [done|].
        destruct (events_moved _ _ _ s Hm Hsd) as [?|(n' & db' & q & ev' & rest & Heq & Hl' & Hsub)]; [by left|right].
        injection Heq as <- <-. rewrite Hl in Hl'. injection Hl' as -> -> ->.
        exists ev', (s :: rest). split_and!; [done|done|by left|done].
      * exists []. split.
        { destruct (decide (r ∈ s :: ss)) as [[?|?]%elem_of_cons|Hn], (decide (r ∈ ss)); try done. set_solver. }
        left. destruct (events_moved _ _ _ r Hm Hsd) as [?|(n' & db' & q & ev' & rest & Heq & Hl' & _)]; [done|].
        injection Heq as <- <-. rewrite Hl in Hl'. injection Hl' as -> -> -> ->. done.
Qed.

Lemma step_flowing l w w' : step o l w = Some w' -> sound o w -> flowing w -> flowing w'.
Proof.
  intros Hst Hsd Hf. pose proof (sd_coherent _ _ Hsd) as Hco.
  pose proof (step_moved o _ _ _ Hst (co_conns _ Hco) (co_gos _ Hco)) as Hm.
  assert (kept w w') as Hk by (intros s; by eapply user_of_moved).
  destruct (step_lanes _ _ _ Hst) as [(Hl & Hp & Hj & Hn)|[(ev & -> & He)|(n & db & -> & Hfo)]].
  - apply (flowing_other w); [done..|]. intros s.
    destruct (events_moved _ _ _ s Hm Hsd) as [?|(n & db & _ & _ & _ & -> & _)]; [done|]. by destruct (Hn n db).
  - by eapply flowing_event.
  - by eapply flowing_fanOut.
Qed.

Lemma New_flowing : flowing (New o).
Proof.
  assert (forall n l, w_lanes (New (DB := DB) o) !! n = Some l -> l = mkLane [] LaneIdle) as Hl.
  { intros n l. cbn. by intros [-> _]%lookup_replicate. }
  split.
  - cbn. by rewrite length_replicate.
  - intros n l ->%Hl. constructor.
  - intros n l s ->%Hl. by intros ?%elem_of_nil.
  - intros n l ev ->%Hl. by intros ?%elem_of_nil.
  - intros n l s ->%Hl. rewrite awaits_idle. by exists [].
  - intros n l ev ss s ->%Hl. done.
  - intros n l ev s ->%Hl. by intros ?%elem_of_nil.
  - intros s ev. by intros ?%elem_of_nil.
Qed.

Lemma reachable_flowing w : reachable o w -> sound o w /\ flowing w.
Proof.
  intros [ls Hr]. eapply (run_invariant o (fun w => sound o w /\ flowing w)); [| |done].
  - intros l w1 w2 [Hsd Hf] Hst. split; [by eapply step_sound|by eapply step_flowing].
  - split; [by apply New_sound|by apply New_flowing].
Qed.

End lanes.
