(* ===== verification/Gateway.v ===== *)
(** What the gateway promises its clients, for every run: any interleaving of its connections,
    lanes, timers, revocations and frames. *)
From S2P Require Import Prelude GoStd Permissions Snowflake Rows GatewayProto GatewaySession.
From S2P Require Import GatewayServer GatewayStream GatewaySteps.
From S2P Require Import GatewayInv GatewayRuns.

Lemma New_options_positive o :
  0 <= opt_ResumeBuffer (New_options o) /\ 0 < opt_FanoutLanes (New_options o).
Proof. unfold New_options, or_default. cbn. repeat case_match; bool_hyps; lia. Qed.

(** ** A resolver and a run for the witnesses *)

(** The database is the list of the accounts that may receive anything. *)
#[export] Instance listed : AudienceResolver (list Z).
Proof.
  refine {| Allowed ev cs db := Some (filter (fun u => u ∈ db) cs);
            may_receive db ev u := u ∈ db |}.
  intros ev cs db out u [= <-] [? ?]%list_elem_of_filter. by split.
Defined.

Definition example_options : Options := New_options (mkOptions "1.2.0" 0 0 2).
Definition example_token : TokenAnswer :=
  mkTokenAnswer (Some (mkActor ActorUser 7 70 0 [])) false (Some (mkSignIn "laptop" 5)).
Definition example_event (type data : string) : Event string :=
  mkEvent type AudGuild 3 0 0 [] None false data.

(** Account 7 identifies, is sent two events of guild 3, loses its connection after the first has
    reached it, and resumes on another. *)
Definition example_identify : list (Label (DB := list Z)) :=
  [LConnect "::1"; LFrame 1 (InIdentify (Some (mkIdentify "t" None "1.2.0"))) example_token (Some "sid") None]
  ++ replicate 5 (LServe 1 (ALive Live)) ++ [LServe 1 (AReady (Some (Some "{}", [3]))); LServe 1 ANone].
Definition example_fan_out (ev : Event string) : list (Label (DB := list Z)) :=
  LEvent ev :: replicate 4 (LLane 1 [7; 8]).
Definition example_resume : list (Label (DB := list Z)) :=
  [LConnect "::1"; LFrame 2 (InResume (Some (mkResume "t" "sid" 2))) example_token None None]
  ++ replicate 5 (LServe 2 (ALive Live)).
Definition example_run : list (Label (DB := list Z)) :=
  example_identify ++ example_fan_out (example_event "A" "1") ++ [LReadError 1; LServe 1 ANone; LServe 1 ANone]
  ++ example_fan_out (example_event "B" "2") ++ example_resume.
Definition example_world : World (list Z) :=
  default (New example_options) (run example_options example_run (New example_options)).

Lemma example_reachable : reachable example_options example_world.
Proof. exists example_run. vm_compute. reflexivity. Qed.

Section promises.
Context {DB : Type} `{!AudienceResolver DB}.
Implicit Types w : World DB.

(** The frames a session numbered, with their numbers. *)
Definition stream_of w (s : Z) : list (Z * string) := pair_of <$> log_of w s.

Lemma reached o w : reachable (New_options o) w -> sound (New_options o) w /\ flowing (New_options o) w.
Proof. apply reachable_flowing, New_options_positive. Qed.

Lemma numbered_seqZ n es : numbered n es -> (pair_of <$> es).*1 = seqZ (n + 1) (Z.of_nat (length es)).
Proof.
  revert n. induction es as [|e es IH]; intros n; [done|]. intros [He Hn]. cbn [fmap list_fmap length].
  rewrite Nat2Z.inj_succ, seqZ_cons, Z.pred_succ by lia. cbn. rewrite He. f_equal.
  rewrite (IH _ Hn). f_equal; lia.
Qed.

Lemma numbered_drop m n es :
  (m <= length es)%nat -> numbered n es -> numbered (n + Z.of_nat m) (drop m es).
Proof.
  intros Hm Hn. rewrite <- (take_drop m es) in Hn. apply numbered_app in Hn as [_ Hn].
  by rewrite length_take_le in Hn by lia.
Qed.

(** What a connection that never overran its queue has carried. *)
Lemma carried o w c k a :
  good (New_options o) w -> w_conns w !! c = Some k -> c ∉ w_dropped w -> w_attached w !! c = Some a ->
  traffic k `prefix_of` drop (Z.to_nat (at_after a)) (stream_of w (at_session a)) /\
  (traffic k).*1 = seqZ (at_after a + 1) (Z.of_nat (length (traffic k))) /\
  0 <= at_after a <= Z.of_nat (length (stream_of w (at_session a))) /\
  (forall sess, w_heap w !! at_session a = Some sess -> s_conn sess = Some c ->
     traffic k = drop (Z.to_nat (at_after a)) (stream_of w (at_session a))).
Proof.
  intros Hg Hk Hd Ha. pose proof (gd_traffic _ _ Hg c k Hk Hd) as Ht. rewrite Ha in Ht.
  destruct Ht as (es & rest & Hdrop & Hes & Hrest).
  destruct (gd_attached _ _ Hg c a Ha) as (sess & Hs & _ & _ & Hb).
  destruct (gd_stream _ _ Hg _ _ Hs) as [[Hn _ _ _ _] _].
  unfold stream_of. rewrite <- fmap_drop, Hdrop, fmap_app, length_fmap, Hes.
  split_and!; [by eexists| |lia..|].
  - apply (numbered_drop (Z.to_nat (at_after a))) in Hn; [|lia]. rewrite Hdrop in Hn.
    apply numbered_app in Hn as [Hn _]. rewrite (numbered_seqZ _ _ Hn), length_fmap. f_equal. lia.
  - intros sess' Hs' Hc. by rewrite (Hrest _ Hs' Hc), app_nil_r.
Qed.

End promises.

(** a connection that never overran its queue has been sent exactly the frames its session
    numbered after the point it was attached at, in order and without a gap in their numbers; while
    it is attached, every one of them. *)
Theorem connection_carries_stream {DB} `{!AudienceResolver DB} o (w : World DB) c k a :
  reachable (New_options o) w -> w_conns w !! c = Some k -> (c ∉ w_dropped w) ->
  w_attached w !! c = Some a ->
  traffic k `prefix_of` drop (Z.to_nat (at_after a)) (stream_of w (at_session a)) /\
  (traffic k).*1 = seqZ (at_after a + 1) (Z.of_nat (length (traffic k))) /\
  (forall sess, w_heap w !! at_session a = Some sess -> s_conn sess = Some c ->
     traffic k = drop (Z.to_nat (at_after a)) (stream_of w (at_session a))).
Proof.
  intros Hr Hk Hd Ha. destruct (reached _ _ Hr) as [[_ Hg _] _].
  destruct (carried _ _ _ _ _ Hg Hk Hd Ha) as (? & ? & _ & ?). by split_and!.
Qed.

Lemma connection_carries_stream_witness :
  exists w k a, reachable (New_options example_options) w /\
    w_conns w !! 2 = Some k /\ (2 ∉ w_dropped w) /\ w_attached w !! 2 = Some a /\
    length (traffic k) = 2%nat /\ (traffic k).*1 = seqZ (at_after a + 1) 2.
Proof.
  exists example_world. do 2 eexists.
  assert (reachable (New_options example_options) example_world) as Hr by exact example_reachable.
  split_and!; [exact Hr|vm_compute; reflexivity|vm_compute; set_solver|vm_compute; reflexivity|reflexivity|].
  eapply (connection_carries_stream example_options example_world 2);
    [exact Hr|vm_compute; reflexivity|vm_compute; set_solver|vm_compute; reflexivity].
Defined.

(** C27: A client that was attached twice to a session, by connections neither of which ever overran its queue,
    and resumed from a frame it had been sent, has the session's frames from its first attachment on, each once and
    in order: what it had up to the number it resumed from, followed by all the second connection carries. (A
    connection that overran its queue lost a frame for good: [overrun_loses_a_frame].) *)
Theorem resume_continues_stream {DB} `{!AudienceResolver DB} o (w : World DB) c1 c2 k1 k2 a1 a2 :
  reachable (New_options o) w -> w_conns w !! c1 = Some k1 -> w_conns w !! c2 = Some k2 ->
  (c1 ∉ w_dropped w) -> (c2 ∉ w_dropped w) -> w_attached w !! c1 = Some a1 -> w_attached w !! c2 = Some a2 ->
  at_session a2 = at_session a1 ->
  at_after a1 <= at_after a2 <= at_after a1 + Z.of_nat (length (traffic k1)) ->
  let seen := take (Z.to_nat (at_after a2 - at_after a1)) (traffic k1) in
  let stream := drop (Z.to_nat (at_after a1)) (stream_of w (at_session a1)) in
  (seen ++ traffic k2) `prefix_of` stream /\
  (forall sess, w_heap w !! at_session a1 = Some sess -> s_conn sess = Some c2 -> seen ++ traffic k2 = stream).
Proof.
  intros Hr Hk1 Hk2 Hd1 Hd2 Ha1 Ha2 Hsame Hle. destruct (reached _ _ Hr) as [[_ Hg _] _].
  destruct (carried _ _ _ _ _ Hg Hk1 Hd1 Ha1) as ([rest1 Hp1] & _ & Hb1 & _).
  destruct (carried _ _ _ _ _ Hg Hk2 Hd2 Ha2) as ([rest2 Hp2] & _ & Hb2 & Hall2). rewrite Hsame in *.
  cbv zeta. set (n := Z.to_nat (at_after a2 - at_after a1)).
  assert (drop (Z.to_nat (at_after a1)) (stream_of w (at_session a1)) =
          take n (traffic k1) ++ drop (Z.to_nat (at_after a2)) (stream_of w (at_session a1))) as ->.
  { rewrite <- (take_drop n (drop _ _)), drop_drop. f_equal; [|f_equal; lia].
    rewrite Hp1, take_app_le; [done|lia]. }
  split.
  - rewrite Hp2, app_assoc. by eexists.
  - intros sess Hs Hc. by rewrite (Hall2 _ Hs Hc).
Qed.

Lemma resume_continues_stream_witness :
  exists w k1 k2, reachable (New_options example_options) w /\ w_conns w !! 1 = Some k1 /\
    w_conns w !! 2 = Some k2 /\ length (traffic k1) = 2%nat /\ take 2 (traffic k1) ++ traffic k2 = stream_of w 1.
Proof.
  exists example_world. do 2 eexists.
  assert (reachable (New_options example_options) example_world) as Hr by exact example_reachable.
  split_and!; [exact Hr|vm_compute; reflexivity|vm_compute; reflexivity|reflexivity|].
  edestruct (resume_continues_stream example_options example_world 1 2) as [_ H];
    [exact Hr|vm_compute; reflexivity|vm_compute; reflexivity|vm_compute; set_solver|vm_compute; set_solver
    |vm_compute; reflexivity|vm_compute; reflexivity|reflexivity|vm_compute; split; discriminate|].
  eapply H; vm_compute; reflexivity.
Defined.

(** Every session has numbered its frames from 1 without a gap. Until it ends, its replay buffer
    is the latest of them, at most as many as configured and one MiB in all, and the bytes it counts
    are those of the frames it keeps. *)
Theorem sessions_numbered_and_bounded {DB} `{!AudienceResolver DB} o (w : World DB) s sess :
  reachable (New_options o) w -> w_heap w !! s = Some sess ->
  (stream_of w s).*1 = seqZ 1 (s_seq sess) /\ s_seq sess = Z.of_nat (length (stream_of w s)) /\
  (s_ended sess = false ->
     s_buf sess `suffix_of` stream_of w s /\
     Z.of_nat (length (s_buf sess)) <= opt_ResumeBuffer (New_options o) /\
     s_bufBytes sess = frame_bytes (s_buf sess) /\ frame_bytes (s_buf sess) <= maxResumeBytes).
Proof.
  intros Hr Hs. destruct (reached _ _ Hr) as [[_ Hg _] _].
  destruct (gd_stream _ _ Hg _ _ Hs) as [[Hn Hq Hb Hy Hbd] _].
  unfold stream_of. rewrite (numbered_seqZ 0), length_fmap by done. split_and!; [by rewrite Hq|done|].
  intros He. destruct (Hb He) as (older & kept & -> & Hbuf), (Hbd He) as [? ?].
  rewrite <- (Hy He). split_and!; [|done..]. rewrite fmap_app, Hbuf. by eexists.
Qed.

Lemma sessions_numbered_and_bounded_witness :
  exists w sess, reachable (New_options example_options) w /\ w_heap w !! 1 = Some sess /\
    (stream_of w 1).*1 = seqZ 1 4 /\ s_bufBytes sess = frame_bytes (s_buf sess).
Proof.
  exists example_world. eexists.
  assert (reachable (New_options example_options) example_world) as Hr by exact example_reachable.
  split_and!; [exact Hr|vm_compute; reflexivity|vm_compute; reflexivity|].
  eapply (sessions_numbered_and_bounded example_options example_world 1); [exact Hr|vm_compute; reflexivity..].
Defined.

(** the index is exact. A session is a candidate for an event about accounts when it is live and
    of one of them, and for an event about a guild when it is live and its guild set holds the
    guild or its READY is still to come; each is a candidate once, and a revocation finds precisely
    the live sessions of its account. *)
Theorem candidates_exact {DB} `{!AudienceResolver DB} o (w : World DB) ev s u :
  reachable (New_options o) w ->
  (s ∈ candidates ev w <->
   exists sess, w_heap w !! s = Some sess /\ s_ended sess = false /\
     (if bool_decide (Event_Audience ev = AudUsers) then s_userID sess ∈ Event_Users ev
      else Event_GuildID ev ∈ s_guilds sess \/ s_ready sess = false)) /\
  NoDup (candidates ev w) /\
  (s ∈ sessionIndex_ofUser u (w_idx w) <->
   exists sess, w_heap w !! s = Some sess /\ s_ended sess = false /\ s_userID sess = u).
Proof.
  intros Hr. destruct (reached _ _ Hr) as [[_ Hg _] _]. split; [exact (candidates_spec _ _ _ _ Hg)|split].
  - exact (candidates_NoDup _ _ _ Hg).
  - rewrite elem_ofUser. pose proof (gd_index _ _ Hg s) as Hi. destruct (w_heap w !! s) as [sess|].
    + rewrite (ix_user _ _ _ Hi). naive_solver.
    + destruct Hi as (Hi & _). naive_solver.
Qed.

Lemma candidates_exact_witness :
  exists w, reachable (New_options example_options) w /\ 1 ∈ candidates (example_event "C" "3") w.
Proof.
  exists example_world.
  assert (reachable (New_options example_options) example_world) as Hr by exact example_reachable.
  split; [exact Hr|]. apply (proj1 (candidates_exact example_options example_world (example_event "C" "3") 1 7 Hr)).
  eexists. split_and!; [vm_compute; reflexivity|reflexivity|].
  rewrite bool_decide_false by done. left. vm_compute. reflexivity.
Defined.

(** Every event a session was sent or holds for its READY was judged by the audience resolver,
    which allowed it for the session's account; one about accounts names that account. *)
Theorem events_were_permitted {DB} `{!AudienceResolver DB} o (w : World DB) s sess ev :
  reachable (New_options o) w -> w_heap w !! s = Some sess ->
  (exists e, e ∈ log_of w s /\ en_event e = Some ev) \/ ev ∈ s_pending sess ->
  (exists db, (ev, db) ∈ w_judged w /\ may_receive db ev (s_userID sess)) /\
  (Event_Audience ev = AudUsers -> s_userID sess ∈ Event_Users ev).
Proof.
  intros Hr Hs Hev. destruct (reached _ _ Hr) as [_ Hf].
  assert (ev ∈ events_of w s) as Hin.
  { unfold events_of. rewrite Hs, elem_of_app. destruct Hev as [(e & He & Hee)|Hp]; [left|by right].
    apply list_elem_of_omap. by exists e. }
  destruct (fl_judged _ _ Hf _ _ Hin) as (_ & Hj & Ha). unfold user_of in Hj, Ha. by rewrite Hs in Hj, Ha.
Qed.

Lemma events_were_permitted_witness :
  exists w sess, reachable (New_options example_options) w /\ w_heap w !! 1 = Some sess /\
    exists db, (example_event "B" "2", db) ∈ w_judged w /\ may_receive db (example_event "B" "2") (s_userID sess).
Proof.
  exists example_world. eexists.
  assert (reachable (New_options example_options) example_world) as Hr by exact example_reachable.
  split_and!; [exact Hr|vm_compute; reflexivity|].
  eapply (events_were_permitted example_options example_world 1); [exact Hr|vm_compute; reflexivity|].
  left. exists (mkEntry 3 (appendDispatchFrame 3 "B" "2") (Some (example_event "B" "2"))).
  split; [|reflexivity]. apply (list_elem_of_lookup_2 _ 2). vm_compute. reflexivity.
Defined.

Lemma on_guild_lane o g evs :
  filter (fun ev => Event_GuildID ev = g) evs =
  filter (fun ev => Event_GuildID ev = g)
    (on_lane o (lane_of (lane_count o) (mkEvent "" AudGuild g 0 0 [] None false "")) evs).
Proof.
  unfold on_lane. induction evs as [|ev evs IH]; [done|]. rewrite !filter_cons.
  destruct (decide (Event_GuildID ev = g)) as [He|He].
  - rewrite decide_True by (unfold lane_of; by rewrite He). rewrite filter_cons, decide_True by done. by f_equal.
  - case_decide; [|done]. by rewrite filter_cons, decide_False.
Qed.

Lemma filter_sublist_mono {A} (P : A -> Prop) `{!forall x, Decision (P x)} (l l' : list A) :
  l `sublist_of` l' -> filter P l `sublist_of` filter P l'.
Proof.
  induction 1 as [|x l l' _ IH|x l l' _ IH]; [done| |]; rewrite !filter_cons; case_decide; try done.
  - by apply sublist_skip.
  - by apply sublist_cons.
Qed.

(** C29: a guild's events reach every session in the order they were published, each at most once,
    whatever lanes, connections and READYs do in between. *)
Theorem guild_events_in_order {DB} `{!AudienceResolver DB} o (w : World DB) s g :
  reachable (New_options o) w ->
  filter (fun ev => Event_GuildID ev = g) (events_of w s) `sublist_of`
  filter (fun ev => Event_GuildID ev = g) (w_published w).
Proof.
  intros Hr. destruct (reached _ _ Hr) as [_ Hf]. set (oo := New_options o) in *.
  rewrite (on_guild_lane oo g (events_of w s)), (on_guild_lane oo g (w_published w)).
  set (n := lane_of _ _). apply filter_sublist_mono.
  assert (is_Some (w_lanes w !! n)) as [l Hl].
  { apply lookup_lt_is_Some. pose proof (fl_count _ _ Hf) as Hc.
    destruct (New_options_positive o) as [_ Hp]. fold oo in Hp. unfold n, lane_of, lane_count in *.
    pose proof (Z.mod_pos_bound (uint64_of_int64 g) (Z.of_nat (Z.to_nat (opt_FanoutLanes oo)))). cbn in *. lia. }
  destruct (fl_order _ _ Hf n l s Hl) as (past & -> & Hsub). rewrite Hsub. by apply sublist_inserts_r.
Qed.

Lemma guild_events_in_order_witness :
  exists w, reachable (New_options example_options) w /\
    events_of w 1 = [example_event "A" "1"; example_event "B" "2"] /\
    filter (fun ev => Event_GuildID ev = 3) (events_of w 1) `sublist_of`
    filter (fun ev => Event_GuildID ev = 3) (w_published w).
Proof.
  exists example_world.
  assert (reachable (New_options example_options) example_world) as Hr by exact example_reachable.
  split_and!; [exact Hr|vm_compute; reflexivity|].
  exact (guild_events_in_order example_options example_world 1 3 Hr).
Defined.

(** A session that has ended, by a sign-out, its expiry or a newer IDENTIFY, stays ended and is
    never sent another frame, whatever happens afterwards. *)
Theorem ended_session_silent {DB} `{!AudienceResolver DB} o (w w' : World DB) ls s sess :
  reachable (New_options o) w -> run (New_options o) ls w = Some w' ->
  w_heap w !! s = Some sess -> s_ended sess = true ->
  exists sess', w_heap w' !! s = Some sess' /\ s_ended sess' = true /\ stream_of w' s = stream_of w s.
Proof.
  intros Hr Hls Hs He. destruct (reached _ _ Hr) as [Hsd _].
  pose proof (proj1 (New_options_positive o)) as Hp.
  eapply (run_invariant (New_options o) (fun w1 => sound (New_options o) w1 /\
    exists sess', w_heap w1 !! s = Some sess' /\ s_ended sess' = true /\ stream_of w1 s = stream_of w s)).
  - intros l w1 w2 (Hsd1 & sess1 & Hs1 & He1 & Hl1) Hst. split; [by eapply step_sound|].
    pose proof (sd_coherent _ _ Hsd1) as Hco.
    pose proof (step_moved _ _ _ _ Hst (co_conns _ Hco) (co_gos _ Hco)) as Hm.
    destruct (moved_who _ Hp _ _ _ _ _ Hm Hsd1 Hs1) as (sess2 & Hs2 & _ & _ & _ & Hend).
    destruct (Hend He1) as [He2 Hl2]. exists sess2. split_and!; [done..|].
    rewrite <- Hl1. unfold stream_of. by rewrite Hl2.
  - split; [done|]. by exists sess.
  - done.
Qed.

(** The example's account signs out: its session ends, and an event published afterwards finds
    nobody. *)
Definition example_revocation : list (Label (DB := list Z)) :=
  LRevocation (mkRevocation 7 100 "" "") :: replicate 5 (LGo 0).
Definition example_ended : World (list Z) :=
  default example_world (run example_options example_revocation example_world).

Definition example_late : World (list Z) :=
  default example_ended (run example_options [LEvent (example_event "C" "3"); LLane 1 [7]] example_ended).

Lemma ended_session_silent_witness :
  reachable (New_options example_options) example_ended /\
  run (New_options example_options) [LEvent (example_event "C" "3"); LLane 1 [7]] example_ended = Some example_late /\
  exists sess sess', w_heap example_ended !! 1 = Some sess /\ s_ended sess = true /\
    w_heap example_late !! 1 = Some sess' /\ stream_of example_late 1 = stream_of example_ended 1.
Proof.
  assert (reachable (New_options example_options) example_ended) as Hr.
  { exists (example_run ++ example_revocation). vm_compute. reflexivity. }
  assert (run (New_options example_options) [LEvent (example_event "C" "3"); LLane 1 [7]] example_ended
          = Some example_late) as Hl by (vm_compute; reflexivity).
  assert (exists sess, w_heap example_ended !! 1 = Some sess /\ s_ended sess = true) as (sess & Hs & He).
  { eexists. split; [vm_compute; reflexivity|reflexivity]. }
  destruct (ended_session_silent _ _ _ _ _ _ Hr Hl Hs He) as (sess' & Hs' & _ & Heq).
  exact (conj Hr (conj Hl (ex_intro _ sess (ex_intro _ sess' (conj Hs (conj He (conj Hs' Heq))))))).
Defined.
