(* ===== verification/GatewayTokens.v ===== *)
(** Whose stream a connection can be attached to, over every run: the account and the device of a token the
    connection itself presented. And the server's counter of unidentified connections against the connections
    themselves, and its lock: newSession always gives it back. At the end, runs in which the gateway does not do
    what its comments say. *)
From S2P Require Import Prelude GoStd Permissions Snowflake Rows GatewayProto GatewaySession.
From S2P Require Import GatewayServer GatewayStream GatewaySteps GatewayInv GatewayRuns Gateway.

Section tokens.
Context {DB : Type} `{!AudienceResolver DB} (o : Options).
Context (Hlimit : 0 <= opt_ResumeBuffer o).
Implicit Types w : World DB.
Implicit Types ls : list (Label (DB := DB)).

(** Connection [c] sent a frame whose token authenticated as [p]. *)
Definition presented ls (c : Z) (p : Actor * SignIn) : Prop :=
  exists l, l ∈ ls /\ presents l c p.1 p.2.

(** The actor and sign-in an instruction carries. *)
Definition carries (i : Instr) : option (Actor * SignIn) :=
  match i with
  | INewSession _ actor sign | INewScan _ actor sign _ _ | IAttach _ actor sign
  | IResumeLive _ actor sign _ | ILookup _ actor sign _ | IResume _ actor sign _ => Some (actor, sign)
  | _ => None
  end.

Record vouched ls w : Prop := {
  vo_code c i p : i ∈ code_of w c -> carries i = Some p -> presented ls c p;
  vo_attached c a : w_attached w !! c = Some a ->
    exists actor sign, presented ls c (actor, sign) /\
      at_user a = Actor_UserID actor /\ at_device a = SignIn_Device sign
}.

Lemma presented_mono ls l c p : presented ls c p -> presented (ls ++ [l]) c p.
Proof.
  intros (l' & Hin & Ha). exists l'. rewrite elem_of_app. auto.
Qed.

Lemma follows_carries w w' i j p : follows w w' i j -> carries j = Some p -> carries i = Some p.
Proof.
  destruct j; cbn; try done.
  - intros [->|(olds' & superseded' & ->)]; done.
  - intros (_ & (id & superseded & ->) & _). done.
  - intros ->. done.
  - intros (id & -> & _). done.
Qed.

(** The code of a connection after a step: it carries what it carried, or what its frame presented. *)
Lemma step_carries ls l w w' c i p :
  step o l w = Some w' -> coherent w -> vouched ls w -> i ∈ code_of w' c -> carries i = Some p ->
  presented (ls ++ [l]) c p.
Proof.
  intros Hst Hco [Hv _] Hin Hp. destruct (is_serve l) as [(c0 & a & ->)|Hl].
  - apply presented_mono. destruct (serve_code o _ _ _ _ Hst) as (i0 & rest & code & w1 & Hc & Hex & _ & Hcode & _ & _ & Hoth).
    destruct (decide (c = c0)) as [->|Hne]; [|destruct (Hoth c Hne) as [Heq _]; rewrite Heq in Hin; eauto].
    rewrite Hcode in Hin. apply elem_of_app in Hin as [Hin|Hin].
    + pose proof (exec_code _ _ _ _ _ _ _ Hex) as Hf. rewrite Forall_forall in Hf.
      apply (Hv c0 i0); [rewrite Hc; by left|]. eapply follows_carries; [by apply Hf|done].
    + apply (Hv c0 i); [rewrite Hc; by right|done].
  - destruct (step_code_other o _ _ _ c Hst Hco Hl) as [_ [Heq|(_ & [Hall|(_ & j & Hj & Hs)])]].
    + rewrite Heq in Hin. apply presented_mono. eauto.
    + rewrite Forall_forall in Hall. specialize (Hall _ Hin). by destruct i.
    + rewrite Hj in Hin. apply list_elem_of_singleton in Hin as ->. exists l. split; [set_solver|].
      destruct j; cbn in Hs, Hp; try done; injection Hp as <-; [exact Hs|exact (proj2 Hs)].
Qed.

Lemma step_vouched ls l w w' :
  step o l w = Some w' -> coherent w -> vouched ls w -> vouched (ls ++ [l]) w'.
Proof.
  intros Hst Hco Hv. split; [intros c i p; by apply (step_carries ls l w)|].
  intros c a Ha. pose proof (step_moved o _ _ _ Hst (co_conns _ Hco) (co_gos _ Hco)) as Hm.
  assert (w_attached w !! c = Some a -> exists actor sign, presented (ls ++ [l]) c (actor, sign) /\
    at_user a = Actor_UserID actor /\ at_device a = SignIn_Device sign) as Hold.
  { intros Hwa. destruct (vo_attached _ _ Hv _ _ Hwa) as (actor & sign & Hp & Hrest). exists actor, sign.
    split; [by apply presented_mono|done]. }
  destruct Hm as [[_ Hat _ _ _]|[(id & actor & sign & c0 & a0 & rest & olds & -> & _ & [_ Hat _ _ _])|
    (s & op & Hask & Hac)]]; [rewrite Hat in Ha; auto..|].
  destruct (acted_world o _ _ _ _ Hac) as (sess & Hs & _ & _ & _ & _ & Hat). cbv zeta in Hat.
  rewrite Hat in Ha. destruct op; cbn in Hat, Ha; auto.
  - destruct (resume _ _ _ _ _ _).1; auto. apply lookup_insert_Some in Ha as [[-> <-]|[_ Ha]]; [|auto].
    destruct Hask as (a0 & rest & -> & Hc). exists actor, sign. split; [|done]. apply presented_mono.
    eapply (vo_code _ _ Hv); [rewrite Hc; by left|done].
  - apply lookup_insert_Some in Ha as [[-> <-]|[_ Ha]]; [|auto].
    destruct Hask as (a0 & rest & -> & Hc). exists actor, sign. split; [|done]. apply presented_mono.
    eapply (vo_code _ _ Hv); [rewrite Hc; by left|done].
Qed.

Lemma run_vouched ls w : run o ls (New o) = Some w -> sound o w /\ vouched ls w.
Proof.
  revert w. induction ls as [|l ls IH] using rev_ind; intros w Hr.
  - injection Hr as <-. split; [by apply New_sound|]. split.
    + intros c i p Hi. unfold code_of in Hi. cbn in Hi. rewrite lookup_empty in Hi. by apply elem_of_nil in Hi.
    + intros c a. cbn. by rewrite lookup_empty.
  - apply run_snoc in Hr as (w1 & Hr & Hst). destruct (IH _ Hr) as [Hsd Hv].
    split; [by eapply step_sound|]. eapply step_vouched; [done|apply Hsd|done].
Qed.

End tokens.

(** Only a user's own access token authenticates. *)
Lemma authenticate_user ta actor sign : authenticate ta = inr (actor, sign) -> Actor_Kind actor = ActorUser.
Proof. unfold authenticate. intros H. repeat case_match; simplify_eq; by bool_hyps. Qed.

(** C28: a connection is attached to a session only after it sent a token of its own that
    authenticated, a user's access token and not an API token, for the session's account and from the
    session's device; a session is attached to no other connection. A session id alone resumes
    nothing. *)
Theorem streams_need_tokens {DB} `{!AudienceResolver DB} o ls (w : World DB) :
  run (New_options o) ls (New (New_options o)) = Some w ->
  (forall c a, w_attached w !! c = Some a ->
     exists sess f ta sid checked actor sign, w_heap w !! at_session a = Some sess /\
       LFrame c f ta sid checked ∈ ls /\ authenticate ta = inr (actor, sign) /\
       Actor_Kind actor = ActorUser /\ Actor_UserID actor = s_userID sess /\ SignIn_Device sign = s_deviceID sess) /\
  (forall s sess c, w_heap w !! s = Some sess -> s_conn sess = Some c ->
     exists a, w_attached w !! c = Some a /\ at_session a = s).
Proof.
  intros Hr. pose proof (proj1 (New_options_positive o)) as Hp.
  destruct (run_vouched _ Hp _ _ Hr) as [[_ Hg _] Hv]. split; [|apply Hg].
  intros c a Ha. destruct (gd_attached _ _ Hg _ _ Ha) as (sess & Hs & Hu & Hd & _).
  destruct (vo_attached _ _ Hv _ _ Ha) as (actor & sign & (l & Hin & f & ta & sid & checked & -> & Hau) & Hu' & Hd').
  exists sess, f, ta, sid, checked, actor, sign. split_and!; [done..|by eapply authenticate_user|congruence|congruence].
Qed.

Lemma streams_need_tokens_witness :
  run (New_options example_options) example_run (New (New_options example_options)) = Some example_world /\
  exists sess, w_heap example_world !! 1 = Some sess /\ s_conn sess = Some 2 /\
    exists a, w_attached example_world !! 2 = Some a /\ at_session a = 1.
Proof.
  assert (run (New_options example_options) example_run (New (New_options example_options)) = Some example_world)
    as Hr by (vm_compute; reflexivity).
  split; [exact Hr|]. eexists. split; [vm_compute; reflexivity|]. split; [reflexivity|].
  eapply (proj2 (streams_need_tokens example_options _ _ Hr)); [vm_compute; reflexivity|reflexivity].
Defined.

(** ** The counter and the lock *)

(** ** Slots *)

(** Of each connection, the address it came from and whether it gave its slot back. *)
Definition slots {DB} (w : World DB) : gmap Z (string * bool) :=
  (fun k => (c_addr k, c_slotReleased k)) <$> w_conns w.

(** How many connections of [addr] hold a slot. *)
Definition holding (v : gmap Z (string * bool)) (addr : string) : Z :=
  Z.of_nat (size (filter (fun cp => cp.2 = (addr, false)) v)).

Lemma holding_open v c a addr :
  v !! c = None -> holding (<[c := (a, false)]> v) addr = holding v addr + (if decide (a = addr) then 1 else 0).
Proof.
  intros Hc. unfold holding. case_decide as Ha.
  - subst. rewrite map_filter_insert_True by done. rewrite map_size_insert_None; [lia|].
    apply map_lookup_filter_None. by left.
  - rewrite map_filter_insert_False by (cbn; congruence). rewrite delete_id by done. lia.
Qed.

Lemma holding_release v c a addr :
  v !! c = Some (a, false) ->
  holding (<[c := (a, true)]> v) addr = holding v addr - (if decide (a = addr) then 1 else 0).
Proof.
  intros Hc. unfold holding. rewrite map_filter_insert_False by (cbn; congruence). rewrite map_filter_delete.
  case_decide as Ha.
  - subst. assert (filter (fun cp : Z * (string * bool) => cp.2 = (addr, false)) v !! c = Some (addr, false)) as Hf
      by (by apply map_lookup_filter_Some).
    rewrite (map_size_delete_Some _ _ (ex_intro _ _ Hf)).
    assert (size (filter (fun cp : Z * (string * bool) => cp.2 = (addr, false)) v) <> 0%nat); [|lia].
    intros Hz%map_size_empty_inv. rewrite Hz in Hf. by rewrite lookup_empty in Hf.
  - rewrite delete_id; [lia|]. apply map_lookup_filter_None. right. intros p. rewrite Hc. intros [= <-]. cbn. congruence.
Qed.

Section slots.
Context {DB : Type} `{!AudienceResolver DB} (o : Options).
Implicit Types w : World DB.

(** The counter counts the connections that hold a slot, and no address has more than its share. *)
Definition counted w : Prop :=
  forall addr, default 0 (w_unidentified w !! addr) = holding (slots w) addr /\
    holding (slots w) addr <= Z.max 0 (opt_MaxUnidentifiedPerAddress o).

Definition same_slots w w' : Prop := slots w' = slots w /\ w_unidentified w' = w_unidentified w.

Lemma counted_same w w' : same_slots w w' -> counted w -> counted w'.
Proof. intros [Hs Hu] Hc addr. by rewrite Hs, Hu. Qed.

Lemma same_slots_refl w : same_slots w w.
Proof. done. Qed.

Lemma same_slots_trans w1 w2 w3 : same_slots w1 w2 -> same_slots w2 w3 -> same_slots w1 w3.
Proof. intros [] []. split; congruence. Qed.

Lemma same_slots_conn f c w :
  (forall k, c_addr (f k) = c_addr k /\ c_slotReleased (f k) = c_slotReleased k) -> same_slots w (on_conn f c w).
Proof.
  intros Hf. split; [|done]. apply map_eq. intros c'. unfold slots. rewrite !lookup_fmap. cbn.
  destruct (decide (c' = c)) as [->|]; [|by rewrite lookup_alter_ne].
  rewrite lookup_alter_eq. destruct (w_conns w !! c) as [k|]; [|done]. cbn. by destruct (Hf k) as [-> ->].
Qed.

Lemma same_slots_handed sent w w' : handed sent w w' -> same_slots w w'.
Proof.
  intros [_ (_ & _ & _ & Hu & _) _ _ _ _ _ C]. split; [|done]. apply map_eq. intros c. unfold slots.
  rewrite !lookup_fmap. specialize (C c). destruct (w_conns w !! c) as [k|]; [|by rewrite C].
  by destruct C as (out & -> & _).
Qed.

Lemma same_slots_locked s f w w' : locked s f w = Some w' -> same_slots w w'.
Proof.
  intros Hl. destruct (locked_spec _ _ _ _ Hl) as (sess & _ & Hh). by apply same_slots_handed in Hh.
Qed.

Lemma counted_markIdentified c w : counted w -> counted (markIdentified c w).
Proof.
  intros Hc. unfold markIdentified. destruct (w_conns w !! c) as [k|] eqn:Hk; [|done].
  destruct (c_slotReleased k) eqn:Hr; [done|]. intros addr.
  assert (slots (identified (c_addr k) (on_conn set_slotReleased c w)) = <[c := (c_addr k, true)]> (slots w)) as ->.
  { apply map_eq. intros c'. unfold slots. rewrite lookup_fmap. cbn. destruct (decide (c' = c)) as [->|].
    - by rewrite lookup_alter_eq, lookup_insert_eq, Hk.
    - by rewrite lookup_alter_ne, lookup_insert_ne, lookup_fmap. }
  assert (slots w !! c = Some (c_addr k, false)) as Hs by (unfold slots; by rewrite lookup_fmap, Hk; cbn; rewrite Hr).
  rewrite (holding_release _ _ _ _ Hs). destruct (Hc addr) as [Heq Hle]. cbn.
  split; [|case_decide; lia]. case_decide as Ha.
  - subst addr. rewrite Heq. case_match; bool_hyps.
    + rewrite lookup_delete_eq. cbn. pose proof (holding_release _ _ _ (c_addr k) Hs) as Hh.
      rewrite decide_True in Hh by done. unfold holding in *. lia.
    + by rewrite lookup_insert_eq.
  - rewrite Z.sub_0_r, <- Heq. case_match; [by rewrite lookup_delete_ne|by rewrite lookup_insert_ne].
Qed.

Lemma exec_slots self i a w w' code :
  exec o self i a w = Some (w', code) ->
  same_slots w w' \/ exists w1, w1 = markIdentified self w /\ same_slots w1 w'.
Proof.
  unfold exec. intros Hex.
  destruct i; unfold exec_newSession, exec_identify, exec_resume, exec_shared in Hex; opt_inv;
    try (right; eexists; split; [reflexivity|]; first [by apply same_slots_conn|apply same_slots_refl]);
    left; try done; try (by apply same_slots_conn); try (by eapply same_slots_locked).
  - unfold newSession_register in Heqp. cbv zeta in Heqp. by destruct (_ <=? _) in Heqp; simplify_eq.
  - unfold newSession_register in Heqp. cbv zeta in Heqp. by destruct (_ <=? _) in Heqp; simplify_eq.
  - unfold newSession_scan in *. opt_inv. by repeat case_match; simplify_eq.
  - eapply same_slots_trans; [by eapply same_slots_locked|done].
  - eapply same_slots_trans; [by eapply same_slots_locked|done].
  - eapply same_slots_handed, handed_enqueue.
  - apply same_slots_conn. intros k. by destruct (c_closing k).
  - unfold forget in *. opt_inv. by case_match.
Qed.

Lemma counted_exec self i a w w' code : exec o self i a w = Some (w', code) -> counted w -> counted w'.
Proof.
  intros Hex Hc. destruct (exec_slots _ _ _ _ _ _ Hex) as [Hs|(w1 & -> & Hs)].
  - by eapply counted_same.
  - eapply counted_same; [done|]. by apply counted_markIdentified.
Qed.

Lemma counted_ServeHTTP addr w w' :
  fresh_conns w -> ServeHTTP o addr w = Some w' -> counted w -> counted w'.
Proof.
  unfold ServeHTTP. intros Hf Hst Hc. opt_inv. destruct (Server_admit o addr w) eqn:Had; [|done].
  cbn [negb]. unfold Server_admit in Had. bool_hyps. intros a.
  assert (slots w !! w_nextConn w = None) as Hn.
  { unfold slots. rewrite lookup_fmap. destruct (w_conns w !! w_nextConn w) eqn:E; [|done].
    specialize (Hf (w_nextConn w) ltac:(by eexists)). lia. }
  change (slots (up_conns _ _)) with
    ((fun k => (c_addr k, c_slotReleased k)) <$>
     <[w_nextConn w := mkConn addr false None [OutControl OpHello] [] None [] false]> (w_conns w)).
  rewrite fmap_insert. fold (slots w). rewrite (holding_open _ _ _ _ Hn). destruct (Hc a) as [Heq Hle]. cbn.
  case_decide as Ha.
  - subst. rewrite lookup_insert_eq. cbn. lia.
  - rewrite lookup_insert_ne by done. lia.
Qed.

Lemma step_counted l w w' : step o l w = Some w' -> fresh_conns w -> counted w -> counted w'.
Proof.
  intros Hst Hf Hc. destruct l; cbn in Hst; try (opt_inv; exact Hc).
  - by eapply counted_ServeHTTP.
  - opt_inv. eapply counted_same; [by apply same_slots_conn|done].
  - opt_inv. eapply counted_same; [by apply same_slots_conn|done].
  - opt_inv. eapply counted_same; [by apply same_slots_conn|done].
  - opt_inv. eapply counted_same; [by apply same_slots_conn|]. by eapply counted_exec.
  - opt_inv. eapply (counted_same w0); [done|]. by eapply counted_exec.
  - opt_inv. eapply counted_same; [by apply same_slots_conn|done].
  - opt_inv. eapply counted_same; [apply same_slots_conn|done]. intros k. by destruct (c_closing k).
  - unfold onEvent in Hst. by opt_inv.
  - unfold fanOut in Hst. opt_inv; try done. apply (counted_same w); [|done].
    eapply same_slots_trans; [by eapply same_slots_locked|done].
Qed.

Lemma New_counted : counted (New o).
Proof. intros addr. split; [done|]. unfold holding, slots. cbn. rewrite fmap_empty, map_filter_empty, map_size_empty. lia. Qed.

End slots.

(** At every moment the server's counter for an address is the number of its connections that
    have neither identified, resumed nor ended, and no address holds more of them than configured. *)
Theorem unidentified_counted {DB} `{!AudienceResolver DB} o (w : World DB) addr :
  reachable (New_options o) w ->
  default 0 (w_unidentified w !! addr) =
    Z.of_nat (size (filter (fun ck => c_addr ck.2 = addr /\ c_slotReleased ck.2 = false) (w_conns w))) /\
  default 0 (w_unidentified w !! addr) <= opt_MaxUnidentifiedPerAddress (New_options o).
Proof.
  intros [ls Hr]. pose proof (proj1 (New_options_positive o)) as Hp.
  assert (0 < opt_MaxUnidentifiedPerAddress (New_options o)) as Hm.
  { unfold New_options, or_default. cbn. repeat case_match; bool_hyps; lia. }
  assert (sound (New_options o) w /\ counted (New_options o) w) as [_ Hc].
  { eapply (run_invariant _ (fun w => sound (New_options o) w /\ counted (New_options o) w)); [| |exact Hr].
    - intros l w1 w2 [Hsd Hc] Hst. split; [by eapply step_sound|]. eapply step_counted; [done|apply Hsd|done].
    - split; [by apply New_sound|apply New_counted]. }
  destruct (Hc addr) as [Heq Hle]. split; [|rewrite Heq; lia]. rewrite Heq. unfold holding, slots. f_equal.
  rewrite map_filter_fmap, map_size_fmap. f_equal. apply map_filter_ext. intros c k Hk. cbn.
  split; [by intros [= -> ->]|by intros [-> ->]].
Qed.

Definition example_arrivals : list (Label (DB := list Z)) :=
  [LConnect "::1"; LConnect "::1"; LConnect "::2"; LReadError 1; LServe 1 ANone; LServe 1 ANone; LServe 1 ANone].
Definition example_waiting : World (list Z) :=
  default (New example_options) (run example_options example_arrivals (New example_options)).

Lemma unidentified_counted_witness :
  reachable (New_options example_options) example_waiting /\ size (w_conns example_waiting) = 3%nat /\
  default 0 (w_unidentified example_waiting !! "::1"%string) = 1 /\
  default 0 (w_unidentified example_waiting !! "::1"%string) <=
    opt_MaxUnidentifiedPerAddress (New_options example_options).
Proof.
  assert (reachable (New_options example_options) example_waiting) as Hr.
  { exists example_arrivals. vm_compute. reflexivity. }
  split; [exact Hr|split; [vm_compute; reflexivity|split; [vm_compute; reflexivity|]]].
  exact (proj2 (unidentified_counted example_options example_waiting "::1" Hr)).
Defined.

(** ** The server's lock *)

Section lock.
Context {DB : Type} `{!AudienceResolver DB} (o : Options).
Context (Hlimit : 0 <= opt_ResumeBuffer o).
Implicit Types w : World DB.

(** newSession is the one that holds the lock from one step to the next, and looks only at sessions
    there are. *)
Record held w : Prop := {
  hd_scan c id actor sign olds superseded : INewScan id actor sign olds superseded ∈ code_of w c ->
    w_mu w = Some c /\ Forall (fun s => is_Some (w_heap w !! s)) olds;
  hd_owner c : w_mu w = Some c ->
    exists id actor sign olds superseded, code_of w c = [INewScan id actor sign olds superseded]
}.

Lemma locked_mu s f w w' : locked s f w = Some w' -> w_mu w' = w_mu w.
Proof. intros Hl. destruct (locked_spec _ _ _ _ Hl) as (sess & _ & [_ (_ & _ & _ & _ & -> & _) _ _ _ _ _ _]). done. Qed.

Lemma enqueue_mu c f w : w_mu (enqueueFrame c f w) = w_mu w.
Proof. unfold enqueueFrame. by repeat case_match. Qed.

Lemma markIdentified_mu c w : w_mu (markIdentified c w) = w_mu w.
Proof. unfold markIdentified. by repeat case_match. Qed.

(** An instruction and the lock: newSession's first takes it, its last gives it back, and every other
    leaves it as it is. *)
Lemma exec_mu self i a w w' code :
  exec o self i a w = Some (w', code) ->
  match i with
  | INewSession id actor sign => w_mu w = None /\ w_mu w' = Some self /\
      code = [INewScan id actor sign (sessionIndex_ofUser (Actor_UserID actor) (w_idx w)) []]
  | INewScan id actor sign (old :: olds) superseded => w_mu w' = w_mu w /\
      exists superseded', code = [INewScan id actor sign olds superseded']
  | INewScan id actor sign [] superseded => w_mu w' = None /\ Forall (fun j => forall id actor sign olds sup, j <> INewScan id actor sign olds sup) code
  | _ => w_mu w' = w_mu w /\ Forall (fun j => forall id actor sign olds sup, j <> INewScan id actor sign olds sup) code
  end.
Proof.
  intros Hex. pose proof (exec_code _ _ _ _ _ _ _ Hex) as Hf.
  assert ((forall j, follows w w' i j -> forall id actor sign olds sup, j <> INewScan id actor sign olds sup) ->
    Forall (fun j => forall id actor sign olds sup, j <> INewScan id actor sign olds sup) code) as Hno.
  { intros Hj. eapply Forall_impl; [exact Hf|]. exact Hj. }
  unfold exec in Hex. destruct i.
  all: try (split; [|apply Hno; intros j Hj id' actor' sign' olds' sup' ->; cbn in Hj; naive_solver]).
  all: unfold exec_newSession, exec_identify, exec_resume, exec_shared in Hex; opt_inv; try done;
    repeat match goal with H1 : locked _ _ _ = Some _ |- _ => apply locked_mu in H1 end;
    try (cbn; by rewrite ?markIdentified_mu, ?enqueue_mu).
  - cbn. split; [done|]. unfold newSession_register in Heqp. cbv zeta in Heqp. destruct (_ <=? _) in Heqp; simplify_eq.
    apply Forall_app. split; [by apply Forall_fmap, Forall_true|by repeat constructor].
  - cbn. split; [done|]. apply Forall_app. split; [by apply Forall_fmap, Forall_true|by repeat constructor].
  - unfold newSession_scan in *. opt_inv. split; [|by eexists]. by repeat case_match; simplify_eq.
  - unfold forget in *. opt_inv. by case_match.
Qed.

Lemma step_mu_other l w w' :
  step o l w = Some w' -> shared_gos w -> (forall c a, l <> LServe c a) -> w_mu w' = w_mu w.
Proof.
  intros Hst Hg Hl. destruct l; cbn in Hst; try (by destruct (Hl c a)); try (opt_inv; done).
  - unfold ServeHTTP in Hst. opt_inv. by case_match.
  - opt_inv. cbn. pose proof (Forall_lookup_1 _ _ _ _ Hg H) as Hx. apply Forall_cons in Hx as [Hi _].
    pose proof (exec_mu _ _ _ _ _ _ H0) as Hm. by destruct i; try discriminate Hi; apply Hm.
  - unfold onEvent in Hst. by opt_inv.
  - unfold fanOut in Hst. opt_inv; try done. cbn. by eapply locked_mu.
Qed.

Lemma kept_olds w w' olds :
  kept w w' -> Forall (fun s => is_Some (w_heap w !! s)) olds -> Forall (fun s => is_Some (w_heap w' !! s)) olds.
Proof. intros Hk Hf. eapply Forall_impl; [exact Hf|]. intros s Hs. by apply Hk. Qed.

Lemma step_held_serve c a w w' :
  step o (LServe c a) w = Some w' -> sound o w -> kept w w' -> held w -> held w'.
Proof.
  intros Hst Hsd Hk [Hs Ho]. pose proof Hsd as [Hco Hg _].
  destruct (serve_code o _ _ _ _ Hst) as (i & rest & code & w1 & Hc & Hex & _ & Hcode & _ & _ & Hoth).
  assert (w_mu w' = w_mu w1) as Hmu.
  { destruct (step_served o _ _ _ _ Hst) as (i' & rest' & code' & w1' & Hc' & Hex' & ->).
    rewrite Hc in Hc'. injection Hc' as <- <-. rewrite Hex in Hex'. by injection Hex' as <- <-. }
  pose proof (exec_mu _ _ _ _ _ _ Hex) as Hm. rewrite <- Hmu in Hm.
  pose proof (co_shaped _ Hco c) as Hsh. rewrite Hc in Hsh.
  assert (forall c', c' <> c -> code_of w' c' = code_of w c') as Hother by (intros; by apply Hoth).
  assert ((exists id actor sign olds sup, i = INewScan id actor sign olds sup) \/
    (exists id actor sign, i = INewSession id actor sign) \/
    (w_mu w' = w_mu w /\ (forall id actor sign olds sup, i <> INewScan id actor sign olds sup) /\
     forall id actor sign olds sup, INewScan id actor sign olds sup ∉ code)) as Hcase.
  { destruct i; try (by left; do 5 eexists); try (by right; left; do 3 eexists);
      destruct Hm as [? Hn]; right; right; (split; [done|split; [done|]]);
      intros id' actor' sign' olds' sup' Hin; rewrite Forall_forall in Hn; by eapply (Hn _ Hin). }
  destruct Hcase as [(id & actor & sign & olds & sup & ->)|[(id & actor & sign & ->)|(Heq & Hni & Hnc)]].
  - destruct (Hs c id actor sign olds sup) as [Hown Holds]; [rewrite Hc; by left|]. cbn in Hsh. subst rest.
    rewrite app_nil_r in Hcode.
    assert (forall c' id actor sign olds sup, c' <> c -> INewScan id actor sign olds sup ∈ code_of w' c' -> False) as Hnone.
    { intros c' id' actor' sign' olds' sup' Hne Hin. rewrite Hother in Hin by done.
      destruct (Hs _ _ _ _ _ _ Hin) as [? _]. congruence. }
    destruct olds as [|old olds].
    + destruct Hm as [Hmn Hn]. split.
      * intros c' id' actor' sign' olds' sup' Hin. destruct (decide (c' = c)) as [->|Hne]; [|by edestruct Hnone].
        rewrite Hcode in Hin. rewrite Forall_forall in Hn. by destruct (Hn _ Hin id' actor' sign' olds' sup').
      * intros c'. by rewrite Hmn.
    + destruct Hm as [Hmn [sup' ->]]. apply Forall_cons in Holds as [_ Holds]. split.
      * intros c' id' actor' sign' olds' sup'' Hin. destruct (decide (c' = c)) as [->|Hne]; [|by edestruct Hnone].
        rewrite Hcode in Hin. apply list_elem_of_singleton in Hin as [= -> -> -> -> ->].
        split; [congruence|by eapply kept_olds].
      * intros c' Hc'. assert (c' = c) as -> by congruence. rewrite Hcode. by do 5 eexists.
  - destruct Hm as (Hnone & Hsome & ->). cbn in Hsh. subst rest. split.
    + intros c' id' actor' sign' olds' sup' Hin. destruct (decide (c' = c)) as [->|Hne].
      * rewrite Hcode in Hin. apply list_elem_of_singleton in Hin as [= -> -> -> -> ->]. split; [done|].
        apply (kept_olds w); [done|]. apply Forall_forall. intros s Hin. apply elem_ofUser in Hin.
        pose proof (gd_index _ _ Hg s) as Hi. destruct (w_heap w !! s); [by eexists|]. by destruct Hi as (Hi & _); apply Hi in Hin.
      * rewrite Hother in Hin by done. destruct (Hs _ _ _ _ _ _ Hin) as [? _]. congruence.
    + intros c' Hc'. assert (c' = c) as -> by congruence. rewrite Hcode. by do 5 eexists.
  - split.
    + intros c' id' actor' sign' olds' sup' Hin.
      assert (INewScan id' actor' sign' olds' sup' ∈ code_of w c') as Hin'.
      { destruct (decide (c' = c)) as [->|Hne]; [|by rewrite <- Hother].
        rewrite Hcode in Hin. apply elem_of_app in Hin as [Hin|Hin]; [by destruct (Hnc _ _ _ _ _ Hin)|].
        rewrite Hc. by right. }
      destruct (Hs _ _ _ _ _ _ Hin') as [? ?]. split; [congruence|by eapply kept_olds].
    + intros c' Hc'. rewrite Heq in Hc'. destruct (Ho c' Hc') as (id' & actor' & sign' & olds' & sup' & Hcc).
      destruct (decide (c' = c)) as [->|Hne]; [|rewrite Hother by done; by do 5 eexists].
      rewrite Hc in Hcc. injection Hcc as -> _. by destruct (Hni id' actor' sign' olds' sup').
Qed.

Lemma step_held l w w' : step o l w = Some w' -> sound o w -> held w -> held w'.
Proof.
  intros Hst Hsd Hh. pose proof (sd_coherent _ _ Hsd) as Hco.
  pose proof (step_moved o _ _ _ Hst (co_conns _ Hco) (co_gos _ Hco)) as Hm.
  assert (kept w w') as Hk by (intros s; by eapply user_of_moved).
  destruct (is_serve l) as [(c0 & a & ->)|Hl]; [by eapply step_held_serve|].
  destruct Hh as [Hs Ho]. pose proof (step_mu_other _ _ _ Hst (co_gos _ Hco) Hl) as Hmu.
  split.
  - intros c id actor sign olds sup Hin.
    destruct (step_code_other o _ _ _ c Hst Hco Hl) as [_ [Heq|(_ & [Hall|(_ & j & Hj & Hstart)])]].
    + rewrite Heq in Hin. rewrite Hmu. destruct (Hs _ _ _ _ _ _ Hin). split; [done|by eapply kept_olds].
    + rewrite Forall_forall in Hall. by specialize (Hall _ Hin).
    + rewrite Hj in Hin. apply list_elem_of_singleton in Hin as <-. done.
  - intros c. rewrite Hmu. intros Hc. destruct (Ho c Hc) as (id & actor & sign & olds & sup & Hcode).
    destruct (step_code_other o _ _ _ c Hst Hco Hl) as [_ [->|(Hnil & _)]]; [by do 5 eexists|congruence].
Qed.

Lemma New_held : held (New o).
Proof.
  split; [|done]. intros c id actor sign olds sup Hin. unfold code_of in Hin. cbn in Hin.
  rewrite lookup_empty in Hin. by apply elem_of_nil in Hin.
Qed.

Lemma reachable_held w : reachable o w -> sound o w /\ held w.
Proof.
  intros [ls Hr]. eapply (run_invariant o (fun w => sound o w /\ held w)); [| |exact Hr].
  - intros l w1 w2 [Hsd Hf] Hst. split; [by eapply step_sound|by eapply step_held].
  - split; [by apply New_sound|by apply New_held].
Qed.

(** One turn of the goroutine that holds the lock. *)
Lemma serve_scan c id actor sign olds sup w :
  code_of w c = [INewScan id actor sign olds sup] -> Forall (fun s => is_Some (w_heap w !! s)) olds ->
  exists w', step o (LServe c ANone) w = Some w'.
Proof.
  intros Hc Hf. unfold code_of in Hc. cbn. destruct (w_conns w !! c) as [k|]; [|done]. cbn. rewrite Hc.
  destruct olds as [|old olds]; cbn.
  - destruct (newSession_register id actor sign w) as [w1 [s|]]; cbn; by eexists.
  - apply Forall_cons in Hf as [[sess Hs] _]. unfold newSession_scan. rewrite Hs. cbn.
    by repeat case_match; eexists.
Qed.

Lemma lock_released w c : sound o w -> held w -> w_mu w = Some c ->
  exists n w', run o (replicate n (LServe c ANone)) w = Some w' /\ w_mu w' = None.
Proof.
  intros Hsd Hh Hmu. destruct (hd_owner _ Hh c Hmu) as (id & actor & sign & olds & sup & Hc).
  revert w sup Hsd Hh Hmu Hc. induction olds as [|old olds IH]; intros w sup Hsd Hh Hmu Hc.
  all: edestruct (hd_scan _ Hh c id actor sign) as [_ Hf]; [rewrite Hc; by left|];
    destruct (serve_scan _ _ _ _ _ _ _ Hc Hf) as [w1 Hst];
    pose proof (step_served o _ _ _ _ Hst) as (i & rest & code & w2 & Hc' & Hex & Hw1);
    rewrite Hc in Hc'; injection Hc' as <- <-; pose proof (exec_mu _ _ _ _ _ _ Hex) as Hm; cbn in Hm.
  - exists 1%nat, w1. cbn [replicate run]. rewrite Hst. split; [done|]. rewrite Hw1. apply Hm.
  - destruct Hm as [Hm [sup' ->]].
    destruct (IH w1 sup') as (n & w' & Hr & Hn); [exact (step_sound o Hlimit _ _ _ Hst Hsd)|exact (step_held _ _ _ Hst Hsd Hh)| | |].
    + rewrite Hw1. cbn. congruence.
    + rewrite Hw1. destruct (conn_code (set_code ([INewScan id actor sign olds sup'] ++ [])) c w2 c) as [-> _].
      rewrite decide_True by done. cbn. destruct (same_conns_exec o _ _ _ _ _ _ Hex) as [_ Hsc].
      assert (is_Some (w_conns w2 !! c)) as [k ->]; [|done].
      apply Hsc, (conn_of_code _ _ _ _ Hc).
    + exists (S n), w'. cbn [replicate run]. rewrite Hst. done.
Qed.

End lock.

(** whatever a run does, newSession gives the server's lock back: when a connection holds it, that
    connection's goroutine alone, in finitely many steps that wait for nobody, releases it. So no
    goroutine waits for the lock for ever. *)
Theorem server_lock_released {DB} `{!AudienceResolver DB} o (w : World DB) c :
  reachable (New_options o) w -> w_mu w = Some c ->
  exists n w', run (New_options o) (replicate n (LServe c ANone)) w = Some w' /\ w_mu w' = None.
Proof.
  intros Hr Hmu. pose proof (proj1 (New_options_positive o)) as Hp.
  destruct (reachable_held _ Hp _ Hr) as [Hsd Hh]. by eapply lock_released.
Qed.

(** The example's account identifies again, and its newSession has just taken the lock. *)
Definition example_second : list (Label (DB := list Z)) :=
  [LConnect "::1"; LFrame 3 (InIdentify (Some (mkIdentify "t" None "1.2.0"))) example_token (Some "sid2") None;
   LServe 3 ANone].
Definition example_locked : World (list Z) :=
  default example_world (run example_options example_second example_world).

Lemma server_lock_released_witness :
  reachable (New_options example_options) example_locked /\ w_mu example_locked = Some 3 /\
  exists n w', run (New_options example_options) (replicate n (LServe 3 ANone)) example_locked = Some w' /\
    w_mu w' = None.
Proof.
  assert (reachable (New_options example_options) example_locked) as Hr.
  { exists (example_run ++ example_second). vm_compute. reflexivity. }
  assert (w_mu example_locked = Some 3) as Hmu by (vm_compute; reflexivity).
  exact (conj Hr (conj Hmu (server_lock_released example_options example_locked 3 Hr Hmu))).
Defined.

(** ** Runs in which it breaks a promise

    What the interleavings its locks allow make of the ceiling on an account's sessions, of an expiry that meets
    a RESUME, of a RESUME from too far behind, and of a queue that is full. Each is one concrete run. *)

Abbreviation Run := (list (Label (DB := list Z))).

Definition token (device : string) : TokenAnswer :=
  mkTokenAnswer (Some (mkActor ActorUser 7 70 0 [])) false (Some (mkSignIn device 5)).
Definition asks_identify (c : Z) (device sid : string) : Run :=
  [LConnect "::1"; LFrame c (InIdentify (Some (mkIdentify "t" None "1.2.0"))) (token device) (Some sid) None].
Definition serves (n : nat) (c : Z) : Run := replicate n (LServe c (ALive Live)).
Definition readies (c : Z) : Run := [LServe c (AReady (Some (Some "{}", [3]))); LServe c ANone].

(** Account 7 identifies from [device] on connection [c] while it has [n] sessions, and reaches its
    READY. *)
Definition logs_in (n : nat) (c : Z) (device sid : string) : Run :=
  asks_identify c device sid ++ serves (5 + n) c ++ readies c.
Definition leaves (c : Z) : Run := LReadError c :: serves 3 c.
Definition asks_resume (c : Z) (device sid : string) (seq : Z) : Run :=
  [LConnect "::1"; LFrame c (InResume (Some (mkResume "t" sid seq))) (token device) None None].

Definition after (ls : Run) : World (list Z) := default (New example_options) (run example_options ls (New example_options)).

(** The account's sessions that are live and have a connection. *)
Definition in_use (w : World (list Z)) (s : Z) : bool :=
  match w_heap w !! s with
  | Some sess => negb (s_ended sess) && bool_decide (is_Some (s_conn sess))
  | None => false
  end.
Definition sessions_in_use (w : World (list Z)) (u : Z) : list Z :=
  filter (fun s => in_use w s = true) (sessionIndex_ofUser u (w_idx w)).

(** ** The ceiling on an account's sessions *)

(** Two IDENTIFYs of one device while an earlier session of it waits to be resumed: the second
    supersedes that session again, because the first has not taken it off the index yet, and gives its
    place back a second time. *)
Definition twice_superseded : Run :=
  logs_in 0 1 "d" "s1" ++ leaves 1 ++ asks_identify 2 "d" "s2" ++ asks_identify 3 "d" "s3"
  ++ serves 3 2 ++ serves 9 3 ++ readies 3.

(** Sixteen other devices of the account then identify, one after another. *)
Definition sixteen_more : Run :=
  mjoin ((fun n => let name := FormatUint (Z.of_nat n) in logs_in (n - 3) (Z.of_nat n) name name) <$> seq 4 16).

(** An account comes to hold more sessions in use than [maxConnectionsPerAccount], the ceiling
    newSession enforces and gateway.go states for the process. *)
Theorem account_ceiling_passed :
  exists (w : World (list Z)) u, reachable (New_options example_options) w /\
    maxConnectionsPerAccount < Z.of_nat (length (sessions_in_use w u)).
Proof.
  exists (after (twice_superseded ++ sixteen_more)), 7. split; [|vm_compute; reflexivity].
  exists (twice_superseded ++ sixteen_more). vm_compute. reflexivity.
Qed.

(** ** An expiry that meets a RESUME *)

(** An open connection of an ended session, which nothing is going to close: no goroutine is left,
    and an ended session is never sent anything. *)
Definition stranded (w : World (list Z)) (c : Z) : bool :=
  match w_conns w !! c with
  | Some k =>
      bool_decide (c_closing k = None) && negb (c_over k) && bool_decide (c_code k = [])
      && forallb (fun g => match g with [] => true | _ => false end) (w_gos w)
      && match c_sess k ≫= (w_heap w !!.) with
         | Some sess => s_ended sess && bool_decide (s_conn sess = Some c)
         | None => false
         end
  | None => false
  end.

(** The resume window passes; its timer finds the session detached; a RESUME attaches a new
    connection and answers it RESUMED; then the timer drops the session. *)
Definition expiry_meets_resume : Run :=
  logs_in 0 1 "d" "s1" ++ leaves 1 ++ [LTimer 1; LGo 0] ++ asks_resume 2 "d" "s1" 1 ++ serves 5 2 ++ [LGo 0; LGo 0].

(** expireSession reads whether a connection is attached in one critical section and drops the
    session in others, so it takes a session that was resumed while the timer was firing. *)
Theorem expiry_strands_resumed :
  exists (w : World (list Z)) c, reachable (New_options example_options) w /\ stranded w c = true /\
    exists k, w_conns w !! c = Some k /\ (2, appendDispatchFrame 2 "RESUMED" "{}") ∈ traffic k.
Proof.
  exists (after expiry_meets_resume), 2.
  split; [exists expiry_meets_resume; vm_compute; reflexivity|]. split; [vm_compute; reflexivity|].
  eexists. split; [vm_compute; reflexivity|]. apply (list_elem_of_lookup_2 _ 0). vm_compute. reflexivity.
Qed.

(** ** A RESUME from too far behind *)

(** A session whose buffer holds one frame. *)
Definition small_options : Options := New_options (mkOptions "1.2.0" 0 1 1).
Definition after_small (ls : Run) : World (list Z) :=
  default (New small_options) (run small_options ls (New small_options)).

(** While connection 1 is attached and served, the same device asks to resume from before the
    buffer's first frame. *)
Definition resume_from_too_far : Run :=
  logs_in 0 1 "d" "s1" ++ (LEvent (example_event "A" "1") :: replicate 4 (LLane 0 [7]))
  ++ asks_resume 2 "d" "s1" 0 ++ serves 6 2.

(** conn.resume drops the session on resumeGap, "of no further use to anybody", whoever else is
    attached to it: the connection in use stays open and is sent nothing more. *)
Theorem gap_strands_attached :
  exists (w : World (list Z)) c, reachable (New_options small_options) w /\ stranded w c = true.
Proof.
  exists (after_small resume_from_too_far), 1. split; [|vm_compute; reflexivity].
  exists resume_from_too_far. vm_compute. reflexivity.
Qed.

(** ** A queue that is full *)

(** A session is sent more than its connection's queue holds; the frame that does not fit is left
    out, but the queue drains before the close and takes the next ones. The client, seeing the frames
    after the gap, resumes from the last of them. *)
Definition overrun : Run :=
  logs_in 0 1 "d" "s1"
  ++ mjoin (replicate 1023 (example_fan_out (example_event "A" "1")))
  ++ [LWrite 1] ++ example_fan_out (example_event "B" "2")
  ++ asks_resume 2 "d" "s1" 1025 ++ serves 5 2.

(** enqueueFrame leaves a frame out when the queue is full and closes the connection later, from another
    goroutine, after waiting for the queue to drain; frames numbered after the one left out are queued
    in between. "Its session keeps buffering, so it can resume" does not bring the frame back. *)
Theorem overrun_loses_a_frame :
  exists (w : World (list Z)) k1 k2 a2 n, reachable (New_options example_options) w /\
    w_conns w !! 1 = Some k1 /\ w_conns w !! 2 = Some k2 /\ w_attached w !! 2 = Some a2 /\
    fst <$> last (traffic k1) = Some (at_after a2) /\
    bool_decide (n ∈ (stream_of w (at_session a2)).*1) = true /\
    bool_decide (n ∈ (traffic k1 ++ traffic k2).*1) = false.
Proof.
  exists (after overrun). do 3 eexists. exists 1024.
  split; [exists overrun; vm_compute; reflexivity|].
  split; [vm_compute; reflexivity|]. split; [vm_compute; reflexivity|]. split; [vm_compute; reflexivity|].
  split; [vm_compute; reflexivity|]. split; vm_compute; reflexivity.
Qed.
