(* ===== verification/GatewayAudience.v ===== *)
(** The gateway with the authorization chokepoint it runs with: guildauth.Audience as its
    [AudienceResolver], and what that makes of every event a session was sent. *)
From S2P Require Import Prelude GoStd Permissions Snowflake Rows TxMonad Queries.
From S2P Require Import Resolve StoreInv Authority ResolveMany GuildAuth.
From S2P Require Import GatewayProto GatewaySession GatewayServer GatewayStream.
From S2P Require Import GatewaySteps GatewayInv GatewayRuns Gateway.

(** On tables in the invariant: a guild event is for accounts in the guild now and, unless it carries
    the overwrites of a channel that is gone, for those it reaches. *)
Definition entitled {D} (s : St) (ev : Event D) (u : Z) : Prop :=
  wf (tabs s) -> Event_Audience ev = AudGuild ->
  in_guild (tabs s) (Event_GuildID ev) u /\
  (Event_Overwrites ev = None -> Event_Snapshot ev = false -> reaches (tabs s) ev u).

Lemma resolve_rows_in_guild t g u r :
  wf t -> resolve_rows u (authority_rows t g u) = inr r -> in_guild t g u.
Proof.
  intros Hwf Hr. pose proof (Resolve_result_spec t Hwf g u 0) as H. unfold Resolve_result in H.
  rewrite Hr, orb_true_r in H. by apply resolved_in_guild in H.
Qed.

Lemma Allowed_sublist {D} (ev : Event D) cs s out :
  (Audience_Allowed ev cs s).1 = inr out -> out `sublist_of` cs.
Proof.
  unfold Audience_Allowed. destruct (Event_Audience ev); try (by intros [= <-]); try done.
  unfold mbind, M_bind. destruct (ResolveMany _ _ _ _ s) as [[e|perms] s']; cbn; [done|].
  intros [= <-]. apply sublist_filter.
Qed.

Lemma Allowed_members {D} (ev : Event D) cs s out u :
  wf (tabs s) -> faults s = [] -> Event_Audience ev = AudGuild ->
  (Audience_Allowed ev cs s).1 = inr out -> u ∈ out -> in_guild (tabs s) (Event_GuildID ev) u.
Proof.
  intros Hwf Hf Ha. unfold Audience_Allowed. rewrite Ha. unfold mbind, M_bind.
  set (ows := match Event_Overwrites ev with Some _ => _ | None => _ end).
  destruct (ResolveMany_run (Event_GuildID ev) (Event_ChannelID ev) cs ows s Hwf Hf) as (perms & -> & Hp).
  cbn. intros [= <-] [Hk _]%list_elem_of_filter.
  apply audience_keeps_spec in Hk as (p & Hpu & _). rewrite Hp in Hpu.
  case_bool_decide; [|done]. destruct (many_overwrites _ _ _ s).1 as [|[l|]]; try done.
  destruct (resolve_rows u _) as [|r] eqn:Hr; [done|]. by eapply resolve_rows_in_guild.
Qed.

Lemma Allowed_entitled {D} (ev : Event D) cs s out u :
  (Audience_Allowed ev cs s).1 = inr out -> u ∈ out -> entitled s ev u.
Proof.
  intros Hout Hu Hwf Ha. set (s0 := with_faults [] s).
  assert ((Audience_Allowed ev cs s0).1 = inr out) as H0.
  { destruct (transparent_Allowed ev cs s) as (fs & _ & [[He _]|He]); rewrite He in Hout; [done|].
    unfold s0. done. }
  split; [by apply (Allowed_members ev cs s0 out)|]. intros How Hsn.
  pose proof (Allowed_verdict ev cs s0 Hwf eq_refl Ha How Hsn) as Hv. rewrite H0 in Hv.
  destruct Hv as [_ Hv]. by apply Hv.
Qed.

#[export] Instance guild_audience : AudienceResolver St.
Proof.
  refine {| Allowed ev cs s := match (Audience_Allowed ev cs s).1 with inr out => Some out | inl _ => None end;
            may_receive s ev u := entitled s ev u |}.
  intros ev cs s out u Ha Hu. destruct (Audience_Allowed ev cs s).1 as [e|out'] eqn:Hout; [done|].
  injection Ha as ->. split; [by eapply elem_of_sublist, Allowed_sublist|by eapply Allowed_entitled].
Defined.

(** C26: with the chokepoint in place, an event of a channel reaches an account's stream only if, in
    the rows its fan-out read, the account was in the guild, could view that channel, a channel
    the guild still had, and held every permission the event asks for; an event of a deleted
    channel, only if the account was in the guild. *)
Theorem streams_respect_permissions o (w : World St) s sess ev :
  reachable (New_options o) w -> w_heap w !! s = Some sess -> ev ∈ events_of w s ->
  Event_Audience ev = AudGuild ->
  exists db, (ev, db) ∈ w_judged w /\
    (wf (tabs db) -> in_guild (tabs db) (Event_GuildID ev) (s_userID sess) /\
       (Event_Overwrites ev = None -> Event_Snapshot ev = false -> reaches (tabs db) ev (s_userID sess))).
Proof.
  intros Hr Hs Hin Ha. destruct (reached _ _ Hr) as [_ Hf].
  destruct (fl_judged _ _ Hf _ _ Hin) as (_ & (db & Hj & Hm) & _). unfold user_of in Hm. rewrite Hs in Hm.
  exists db. split; [done|]. intros Hwf. by apply Hm.
Qed.

(** Accounts 100 and 101 identify; an event of channel 7 of guild 1, which 101 may not view, is
    published. *)
Definition example_login (c u : Z) (sid : string) : list (Label (DB := St)) :=
  [LConnect "::1"; LFrame c (InIdentify (Some (mkIdentify "t" None "1.2.0")))
     (mkTokenAnswer (Some (mkActor ActorUser u u 0 [])) false (Some (mkSignIn sid 5))) (Some sid) None]
  ++ replicate 5 (LServe c (ALive Live)) ++ [LServe c (AReady (Some (Some "{}", [1]))); LServe c ANone].
Definition example_staff : Event string := mkEvent "MESSAGE_CREATE" AudGuild 1 7 0 [] None false "1".
Definition example_guild_run : list (Label (DB := St)) :=
  example_login 1 100 "a" ++ example_login 2 101 "b" ++ LEvent example_staff :: replicate 4 (LLane 1 example_state).
Definition example_guild_world : World St :=
  default (New example_options) (run example_options example_guild_run (New example_options)).

Lemma streams_respect_permissions_witness :
  reachable (New_options example_options) example_guild_world /\ events_of example_guild_world 2 = [] /\
  exists sess, w_heap example_guild_world !! 1 = Some sess /\
    exists db, (example_staff, db) ∈ w_judged example_guild_world /\
      (wf (tabs db) -> in_guild (tabs db) 1 (s_userID sess) /\
         (Event_Overwrites example_staff = None -> Event_Snapshot example_staff = false ->
          reaches (tabs db) example_staff (s_userID sess))).
Proof.
  assert (reachable (New_options example_options) example_guild_world) as Hr.
  { exists example_guild_run. vm_compute. reflexivity. }
  assert (exists sess, w_heap example_guild_world !! 1 = Some sess) as [sess Hs] by (eexists; vm_compute; reflexivity).
  assert (example_staff ∈ events_of example_guild_world 1) as Hin.
  { apply (list_elem_of_lookup_2 _ 0). vm_compute. reflexivity. }
  split; [exact Hr|split; [vm_compute; reflexivity|]]. exists sess. split; [exact Hs|].
  exact (streams_respect_permissions example_options _ 1 sess example_staff Hr Hs Hin eq_refl).
Defined.
