(* ===== verification/GatewayVersion.v ===== *)
(** The version rule of the handshake: versions print and parse back, [Compare] is a total order that
    compares numeric identifiers as numbers, and [Check] accepts exactly the pairs the strict rule
    allows. *)
From S2P Require Import Prelude GoStd GatewayProto.
From Stdlib Require Import DecimalString DecimalFacts DecimalN DecimalPos.

(** ** Orders *)

(** A comparison function that is a total order: negative for before, positive for after. *)
Record orders {A} (cmp : A -> A -> Z) : Prop := {
  ord_zero x y : cmp x y = 0 <-> x = y;
  ord_neg x y : cmp x y < 0 <-> 0 < cmp y x;
  ord_trans x y z : cmp x y < 0 -> cmp y z < 0 -> cmp x z < 0
}.

Lemma orders_string : orders string_compare.
Proof.
  split.
  - induction x as [|x a IH]; intros [|y b]; cbn; try done.
    destruct (N.ltb_spec (N_of_ascii x) (N_of_ascii y)).
    { split; [lia|]. intros [= -> _]. lia. }
    destruct (N.ltb_spec (N_of_ascii y) (N_of_ascii x)).
    { split; [lia|]. intros [= -> _]. lia. }
    assert (x = y) as ->.
    { rewrite <- (ascii_N_embedding x), <- (ascii_N_embedding y). f_equal. lia. }
    rewrite IH. split; [by intros ->|by intros [= ->]].
  - induction x as [|x a IH]; intros [|y b]; cbn; try lia.
    destruct (N.ltb_spec (N_of_ascii x) (N_of_ascii y)), (N.ltb_spec (N_of_ascii y) (N_of_ascii x)); try lia.
    apply IH.
  - induction x as [|x a IH]; intros [|y b] [|z c]; cbn; try lia.
    destruct (N.ltb_spec (N_of_ascii x) (N_of_ascii y)), (N.ltb_spec (N_of_ascii y) (N_of_ascii x)),
      (N.ltb_spec (N_of_ascii y) (N_of_ascii z)), (N.ltb_spec (N_of_ascii z) (N_of_ascii y)),
      (N.ltb_spec (N_of_ascii x) (N_of_ascii z)), (N.ltb_spec (N_of_ascii z) (N_of_ascii x)); try lia.
    apply IH.
Qed.

(** Whether an identifier is a number. *)
Definition numeric (s : string) : bool := (preNumber s).2.

Lemma comparePreIdentifier_cases a b :
  comparePreIdentifier a b =
  match numeric a, numeric b with
  | true, true => if len a =? len b then string_compare a b else len a - len b
  | true, false => -1
  | false, true => 1
  | false, false => string_compare a b
  end.
Proof.
  unfold comparePreIdentifier, numeric, preNumber.
  destruct (all_chars is_digit a), (all_chars is_digit b); cbn; try done;
    destruct (a =? "")%string, (b =? "")%string; cbn; try done; by destruct (len a =? len b).
Qed.

Lemma orders_identifier : orders comparePreIdentifier.
Proof.
  destruct orders_string as [Z0 Zn Zt].
  split; intros *; rewrite ?comparePreIdentifier_cases.
  - destruct (numeric x) eqn:X, (numeric y) eqn:Y; try (split; [lia|intros ->; congruence]); [|apply Z0].
    destruct (Z.eqb_spec (len x) (len y)); [apply Z0|]. split; [lia|]. intros ->. lia.
  - destruct (numeric x), (numeric y); try lia; [|apply Zn].
    destruct (Z.eqb_spec (len x) (len y)), (Z.eqb_spec (len y) (len x)); try lia. apply Zn.
  - destruct (numeric x), (numeric y), (numeric z); try lia; [|apply Zt].
    destruct (Z.eqb_spec (len x) (len y)), (Z.eqb_spec (len y) (len z)), (Z.eqb_spec (len x) (len z)); try lia.
    apply Zt.
Qed.

Lemma orders_identifiers : orders comparePre.
Proof.
  destruct orders_identifier as [Z0 Zn Zt].
  split.
  - induction x as [|x a IH]; intros [|y b]; cbn; try (split; [lia|done]); [done|].
    destruct (Z.eqb_spec (comparePreIdentifier x y) 0) as [E|E]; cbn.
    + rewrite IH. apply Z0 in E as ->. split; [by intros ->|by intros [= ->]].
    + split; [done|]. intros [= -> _]. by rewrite (proj2 (Z0 y y)) in E.
  - induction x as [|x a IH]; intros [|y b]; cbn; try lia.
    pose proof (Zn x y). pose proof (Zn y x).
    destruct (Z.eqb_spec (comparePreIdentifier x y) 0), (Z.eqb_spec (comparePreIdentifier y x) 0); cbn; try lia.
    apply IH.
  - induction x as [|x a IH]; intros [|y b] [|z c]; cbn; try lia.
    destruct (Z.eqb_spec (comparePreIdentifier x y) 0) as [E|E]; cbn.
    + apply Z0 in E as ->. destruct (Z.eqb_spec (comparePreIdentifier y z) 0); cbn; [apply IH|done].
    + destruct (Z.eqb_spec (comparePreIdentifier y z) 0) as [E'|E']; cbn.
      * apply Z0 in E' as ->. destruct (Z.eqb_spec (comparePreIdentifier x z) 0); cbn; [lia|done].
      * intros H1 H2. pose proof (Zt _ _ _ H1 H2).
        destruct (Z.eqb_spec (comparePreIdentifier x z) 0); cbn; lia.
Qed.

(** The identifiers determine the text. *)
Fixpoint joined (parts : list string) : string :=
  match parts with
  | [] => ""
  | [p] => p
  | p :: parts => (p ++ String "."%char (joined parts))%string
  end.

Lemma split_not_nil sep s : split_on sep s <> [].
Proof. destruct s as [|c s]; cbn; [done|]. destruct (c =? sep)%char; [done|]. by destruct (split_on sep s). Qed.

Lemma joined_char c p parts : joined (String c p :: parts) = String c (joined (p :: parts)).
Proof. by destruct parts. Qed.

Lemma joined_split s : joined (split_on "."%char s) = s.
Proof.
  induction s as [|c s IH]; [done|]. cbn. pose proof (split_not_nil "."%char s) as Hn.
  destruct (Ascii.eqb_spec c "."%char) as [->|Hc].
  - destruct (split_on "."%char s) as [|p ps]; [done|]. change (String "."%char (joined (p :: ps)) = String "."%char s). by rewrite IH.
  - destruct (split_on "."%char s) as [|p ps]; [done|]. by rewrite joined_char, IH.
Qed.

(** ** The order of versions *)

Definition cores (v w : Version) : Z := comparePairs [(Major v, Major w); (Minor v, Minor w); (Patch v, Patch w)].
Definition pres (a b : string) : Z :=
  if (a =? b)%string then 0 else if (a =? "")%string then 1 else if (b =? "")%string then -1
  else comparePre (split_on "."%char a) (split_on "."%char b).

Lemma orders_pres : orders pres.
Proof.
  destruct orders_identifiers as [Z0 Zn Zt].
  assert (forall a b, comparePre (split_on "."%char a) (split_on "."%char b) = 0 <-> a = b) as Zs.
  { intros a b. rewrite Z0. split; [|by intros ->]. intros H. by rewrite <- (joined_split a), H, joined_split. }
  unfold pres. split; intros *.
  - destruct (String.eqb_spec x y), (String.eqb_spec x ""), (String.eqb_spec y ""); subst; done || apply Zs.
  - destruct (String.eqb_spec x y), (String.eqb_spec y x), (String.eqb_spec x ""), (String.eqb_spec y ""); subst; done || apply Zn.
  - destruct (String.eqb_spec x y), (String.eqb_spec y z), (String.eqb_spec x z), (String.eqb_spec x ""),
      (String.eqb_spec y ""), (String.eqb_spec z ""); subst; try done; try lia; [|apply Zt].
    intros H1 H2. pose proof (Zt _ _ _ H1 H2). rewrite (proj2 (Z0 _ _) eq_refl) in H. lia.
Qed.

Lemma cores_cases v w :
  cores v w = 0 /\ Major v = Major w /\ Minor v = Minor w /\ Patch v = Patch w \/
  cores v w = -1 /\ (Major v < Major w \/ Major v = Major w /\ (Minor v < Minor w \/ Minor v = Minor w /\ Patch v < Patch w)) \/
  cores v w = 1 /\ (Major w < Major v \/ Major v = Major w /\ (Minor w < Minor v \/ Minor v = Minor w /\ Patch w < Patch v)).
Proof.
  unfold cores, comparePairs.
  destruct (Z.eqb_spec (Major v) (Major w));
    [destruct (Z.eqb_spec (Minor v) (Minor w));
       [destruct (Z.eqb_spec (Patch v) (Patch w)); [|destruct (Z.ltb_spec (Patch v) (Patch w))]
       |destruct (Z.ltb_spec (Minor v) (Minor w))]
    |destruct (Z.ltb_spec (Major v) (Major w))]; cbn [negb]; lia.
Qed.

Lemma Compare_split v w : Version_Compare v w = if cores v w =? 0 then pres (Pre v) (Pre w) else cores v w.
Proof. unfold Version_Compare, pres. fold (cores v w). by destruct (cores v w =? 0). Qed.

(** Compare is a total order on versions: zero exactly for equal versions, opposite signs both
    ways round, and transitive, so the newest of a list of releases does not depend on the order
    they are looked at. *)
Theorem Compare_total_order (v w x : Version) :
  (Version_Compare v w = 0 <-> v = w) /\ (Version_Compare v w < 0 <-> 0 < Version_Compare w v) /\
  (Version_Compare v w < 0 -> Version_Compare w x < 0 -> Version_Compare v x < 0).
Proof.
  destruct orders_pres as [Z0 Zn Zt]. rewrite !Compare_split.
  pose proof (Zt (Pre v) (Pre w) (Pre x)). pose proof (Zn (Pre v) (Pre w)). pose proof (Z0 (Pre v) (Pre w)) as Heq.
  pose proof (cores_cases v w). pose proof (cores_cases w v). pose proof (cores_cases w x). pose proof (cores_cases v x).
  split; [|split].
  - destruct (Z.eqb_spec (cores v w) 0).
    + rewrite Heq. destruct v, w; cbn in *. split; [intros ->|by intros [= ? ? ? ?]]. f_equal; lia.
    + split; [lia|]. intros ->. lia.
  - destruct (Z.eqb_spec (cores v w) 0), (Z.eqb_spec (cores w v) 0); lia.
  - destruct (Z.eqb_spec (cores v w) 0), (Z.eqb_spec (cores w x) 0), (Z.eqb_spec (cores v x) 0); lia.
Qed.

Lemma Compare_total_order_witness :
  Version_Compare (mkVersion 1 0 0 "alpha.9") (mkVersion 1 0 0 "alpha.10") < 0 /\
  Version_Compare (mkVersion 1 0 0 "alpha.10") (mkVersion 1 0 0 "") < 0 /\
  Version_Compare (mkVersion 1 0 0 "alpha.9") (mkVersion 1 0 0 "") < 0.
Proof.
  split; [vm_compute; reflexivity|split; [vm_compute; reflexivity|]].
  eapply (Compare_total_order _ (mkVersion 1 0 0 "alpha.10")); vm_compute; reflexivity.
Defined.

(** ** Printing and parsing *)

(** No character of [s] is [sep]. *)
Definition lacks (sep : ascii) (s : string) : Prop := all_chars (fun c => negb (c =? sep)%char) s = true.

Lemma all_chars_cons f c s : all_chars f (String c s) = f c && all_chars f s.
Proof. done. Qed.

Lemma all_chars_app f s t : all_chars f (s ++ t) = all_chars f s && all_chars f t.
Proof. induction s as [|c s IH]; [done|]. by rewrite app_char, !all_chars_cons, IH, andb_assoc. Qed.

Lemma all_chars_impl (f g : ascii -> bool) s :
  (forall c, f c = true -> g c = true) -> all_chars f s = true -> all_chars g s = true.
Proof.
  intros Hfg. induction s as [|c s IH]; [done|]. rewrite !all_chars_cons, !andb_true_iff. naive_solver.
Qed.

Lemma lacks_cons sep c s : lacks sep (String c s) <-> c <> sep /\ lacks sep s.
Proof. unfold lacks. rewrite all_chars_cons, andb_true_iff, negb_true_iff. by rewrite Ascii.eqb_neq. Qed.

Lemma lacks_app sep s t : lacks sep (s ++ t) <-> lacks sep s /\ lacks sep t.
Proof. unfold lacks. by rewrite all_chars_app, andb_true_iff. Qed.

Lemma cut_none sep s : lacks sep s -> cut sep s = (s, None).
Proof.
  induction s as [|c s IH]; [done|]. intros [Hc Hs]%lacks_cons. cbn.
  by rewrite (proj2 (Ascii.eqb_neq c sep) Hc), IH.
Qed.

Lemma cut_some sep s t : lacks sep s -> cut sep (s ++ String sep t) = (s, Some t).
Proof.
  induction s as [|c s IH].
  { intros _. rewrite app_nil. cbn [cut]. by rewrite Ascii.eqb_refl. }
  intros [Hc Hs]%lacks_cons. rewrite app_char. cbn [cut]. by rewrite (proj2 (Ascii.eqb_neq c sep) Hc), IH.
Qed.

Lemma split_one sep s : lacks sep s -> split_on sep s = [s].
Proof.
  induction s as [|c s IH]; [done|]. intros [Hc Hs]%lacks_cons. cbn.
  by rewrite (proj2 (Ascii.eqb_neq c sep) Hc), IH.
Qed.

Lemma split_app sep s t : lacks sep s -> split_on sep (s ++ String sep t) = s :: split_on sep t.
Proof.
  induction s as [|c s IH].
  { intros _. rewrite app_nil. cbn [split_on]. by rewrite Ascii.eqb_refl. }
  intros [Hc Hs]%lacks_cons. rewrite app_char. cbn [split_on]. by rewrite (proj2 (Ascii.eqb_neq c sep) Hc), IH.
Qed.

Lemma digits_of_uint d : all_chars is_digit (NilEmpty.string_of_uint d) = true.
Proof. by induction d. Qed.

Lemma FormatUint_digits v : all_chars is_digit (FormatUint v) = true.
Proof.
  unfold FormatUint. pose proof (digits_of_uint (N.to_uint (Z.to_N v))). pose proof (to_uint_not_nil (Z.to_N v)).
  by destruct (N.to_uint (Z.to_N v)).
Qed.

(** The decimal rendering has no leading zero. *)
Lemma FormatUint_numeric v : is_numeric (FormatUint v) = true.
Proof.
  pose proof (FormatUint_digits v) as Hd. unfold FormatUint in *. set (d := N.to_uint (Z.to_N v)) in *.
  assert (Decimal.unorm d = d) as Hn.
  { unfold d. by rewrite <- DecimalN.Unsigned.to_of, DecimalN.Unsigned.of_to. }
  pose proof (to_uint_not_nil (Z.to_N v)) as Hnil. fold d in Hnil.
  destruct d as [|d|d|d|d|d|d|d|d|d|d]; try done; cbn [NilZero.string_of_uint NilEmpty.string_of_uint] in *;
    try (cbn; destruct (NilEmpty.string_of_uint d) eqn:E; [done|]; cbn in Hd |- *; by rewrite Hd).
  unfold Decimal.unorm in Hn. cbn in Hn.
  pose proof (DecimalFacts.nzhead_nonzero d) as Hz. destruct (Decimal.nzhead d); simplify_eq; try done.
  by edestruct Hz.
Qed.

Lemma digits_lack sep s : is_digit sep = false -> all_chars is_digit s = true -> lacks sep s.
Proof.
  intros Hs. apply all_chars_impl. intros c Hc. destruct (Ascii.eqb_spec c sep) as [->|]; [congruence|done].
Qed.

Definition pre_ok (pre : string) : bool := forallb is_pre_identifier (split_on "."%char pre).

(** What ParseVersion can return. *)
Definition valid (v : Version) : Prop :=
  0 <= Major v < 2 ^ 64 /\ 0 <= Minor v < 2 ^ 64 /\ 0 <= Patch v < 2 ^ 64 /\
  (Pre v = ""%string \/ pre_ok (Pre v) = true).

Lemma pre_identifier_chars s : is_pre_identifier s = true -> all_chars is_ident s = true.
Proof.
  unfold is_pre_identifier. rewrite orb_true_iff, andb_true_iff. intros [Hn|[H _]]; [|done].
  assert (all_chars is_digit s = true) as Hd.
  { destruct s as [|c [|d s]]; cbn in Hn |- *; [done|by rewrite Hn|].
    apply andb_true_iff in Hn as [Hn _]. exact Hn. }
  eapply all_chars_impl; [|exact Hd]. intros c Hc. unfold is_ident. by rewrite Hc.
Qed.

Lemma pre_lacks_plus pre : pre_ok pre = true -> lacks "+"%char pre.
Proof.
  unfold pre_ok. rewrite <- (joined_split pre) at 2. induction (split_on "."%char pre) as [|p [|q ps] IH]; [done| |].
  - cbn [forallb joined]. rewrite andb_true_r. intros Hp. eapply all_chars_impl; [|by apply pre_identifier_chars].
    intros c Hc. destruct (Ascii.eqb_spec c "+"%char) as [->|]; [done|done].
  - change (joined (p :: q :: ps)) with (p ++ String "."%char (joined (q :: ps)))%string.
    cbn [forallb] in *. rewrite andb_true_iff. intros [Hp Hps]. apply lacks_app. split.
    + eapply all_chars_impl; [|by apply pre_identifier_chars].
      intros c Hc. destruct (Ascii.eqb_spec c "+"%char) as [->|]; [done|done].
    + apply lacks_cons. split; [done|]. by apply IH.
Qed.

Lemma ParseVersion_valid s v : ParseVersion s = Some v -> valid v.
Proof.
  unfold ParseVersion. intros ([[[ma mi] pa] pre] & Hm & H)%bind_Some.
  apply bind_Some in H as (ma' & H1 & H). apply bind_Some in H as (mi' & H2 & H).
  apply bind_Some in H as (pa' & H3 & [= <-]). apply ParseUint_range in H1, H2, H3.
  split_and!; cbn; try lia. unfold semver_match in Hm.
  destruct (cut "+"%char _) as [release build]. destruct (cut "-"%char release) as [core p].
  destruct (split_on "."%char core) as [|? [|? [|? []]]]; try done.
  destruct (_ && _) eqn:E; [|done]. injection Hm as <- <- <- <-. rewrite !andb_true_iff in E.
  destruct E as [[_ Hp] _]. destruct p as [p|]; [right|by left]. exact Hp.
Qed.

(** The text of a version's core. *)
Definition core_text (v : Version) : string :=
  (FormatUint (Major v) ++ "." ++ FormatUint (Minor v) ++ "." ++ FormatUint (Patch v))%string.

Lemma core_lacks sep v : is_digit sep = false -> sep <> "."%char -> lacks sep (core_text v).
Proof.
  intros Hd Hs. unfold core_text. rewrite !app_char, !app_nil.
  repeat (apply lacks_app; split; [by apply digits_lack, FormatUint_digits|apply lacks_cons; split; [done|]]).
  by apply digits_lack, FormatUint_digits.
Qed.

Lemma core_split v :
  split_on "."%char (core_text v) = [FormatUint (Major v); FormatUint (Minor v); FormatUint (Patch v)].
Proof.
  assert (forall n, lacks "."%char (FormatUint n)) as Hl by (intros; by apply digits_lack, FormatUint_digits).
  unfold core_text. rewrite !app_char, !app_nil. by rewrite !split_app, split_one.
Qed.

Lemma core_unprefixed v t :
  trim_v (core_text v ++ t) = (core_text v ++ t)%string.
Proof.
  unfold core_text. pose proof (FormatUint_numeric (Major v)) as Hn. pose proof (FormatUint_digits (Major v)) as Hd.
  destruct (FormatUint (Major v)) as [|c s]; [done|]. rewrite all_chars_cons, andb_true_iff in Hd.
  destruct Hd as [Hc _]. rewrite !app_char. unfold trim_v. by destruct c as [[] [] [] [] [] [] [] []].
Qed.

(** A version that parses prints as a text that parses to the same version: nothing of it but
    the leading v and the build metadata is lost, and there is one printed form per version. *)
Theorem version_print_parse (s : string) (v : Version) :
  ParseVersion s = Some v -> ParseVersion (Version_String v) = Some v.
Proof.
  intros (Ha & Hi & Hp & Hpre)%ParseVersion_valid. destruct v as [a i p pre]. cbn [Major Minor Patch Pre] in *.
  set (v := mkVersion a i p pre).
  assert (Version_String v = core_text v ++ (if (pre =? "")%string then "" else "-" ++ pre))%string as ->.
  { unfold Version_String, core_text. cbn [Major Minor Patch Pre v]. by rewrite !app_join. }
  unfold ParseVersion, semver_match. rewrite core_unprefixed.
  assert (cut "+"%char (core_text v ++ (if (pre =? "")%string then "" else "-" ++ pre)) =
          ((core_text v ++ (if (pre =? "")%string then "" else "-" ++ pre))%string, None)) as ->.
  { apply cut_none, lacks_app. split; [by apply core_lacks|]. destruct (String.eqb_spec pre ""); [done|].
    apply lacks_cons. split; [done|]. destruct Hpre as [|Hpre]; [done|]. by apply pre_lacks_plus. }
  assert (cut "-"%char (core_text v ++ (if (pre =? "")%string then "" else "-" ++ pre)) =
          (core_text v, if (pre =? "")%string then None else Some pre)) as ->.
  { destruct (String.eqb_spec pre "").
    - rewrite app_end. by apply cut_none, core_lacks.
    - by apply cut_some, core_lacks. }
  rewrite core_split, !FormatUint_numeric. cbn [Major Minor Patch v].
  assert (match (if (pre =? "")%string then None else Some pre) with
          | None => true | Some q => forallb is_pre_identifier (split_on "."%char q) end = true) as ->.
  { destruct (String.eqb_spec pre ""); [done|]. by destruct Hpre. }
  cbn [andb mbind option_bind]. rewrite !ParseUint_FormatUint by lia. cbn. unfold v. do 2 f_equal.
  by destruct (String.eqb_spec pre "").
Qed.

Lemma version_print_parse_witness :
  ParseVersion "v1.20.3-rc.1+build.7" = Some (mkVersion 1 20 3 "rc.1") /\
  ParseVersion (Version_String (mkVersion 1 20 3 "rc.1")) = Some (mkVersion 1 20 3 "rc.1").
Proof.
  assert (ParseVersion "v1.20.3-rc.1+build.7" = Some (mkVersion 1 20 3 "rc.1")) as H by (vm_compute; reflexivity).
  exact (conj H (version_print_parse _ _ H)).
Defined.

(** ** The handshake's rule *)

Lemma ParseVersion_range s v :
  ParseVersion s = Some v -> 0 <= Major v < 2 ^ 64 /\ 0 <= Minor v < 2 ^ 64 /\ 0 <= Patch v < 2 ^ 64.
Proof. intros (? & ? & ? & _)%ParseVersion_valid. auto. Qed.

(** Two versions the strict rule lets talk. *)
Definition may_talk (sv cv : Version) : Prop :=
  sv = cv \/
  Pre sv = ""%string /\ Pre cv = ""%string /\ Major sv = Major cv /\
  (Major sv = 0 /\ Minor sv = Minor cv \/
   0 < Major sv /\ Minor cv <= Minor sv <= Minor cv + MinorWindow).

(** The rule on two parsed versions. *)
Lemma Check_parsed server client sv cv :
  isDev server = false -> isDev client = false ->
  ParseVersion server = Some sv -> ParseVersion client = Some cv ->
  (Compatible (Check_versions server client) = true <-> may_talk sv cv) /\
  (Compatible (Check_versions server client) = true <-> Compat_Reason (Check_versions server client) = NoReason) /\
  Checked (Check_versions server client) = true.
Proof.
  intros Hs Hc Hsv Hcv. pose proof (ParseVersion_range _ _ Hsv) as Rs. pose proof (ParseVersion_range _ _ Hcv) as Rc.
  unfold Check_versions, may_talk, MinorWindow in *. rewrite Hs, Hc, Hsv, Hcv. cbn [orb].
  destruct (String.eqb_spec (Pre sv) ""), (String.eqb_spec (Pre cv) ""); cbn [negb orb].
  2-4: case_bool_decide; cbn; (split; [naive_solver|done]).
  destruct (Z.eqb_spec (Major sv) (Major cv)) as [Em|Em]; cbn [negb].
  2: { cbn. split; [|done]. split; [done|]. intros [->|?]; [done|lia]. }
  destruct (Z.eqb_spec (Major sv) 0).
  { destruct (Z.eqb_spec (Minor sv) (Minor cv)); cbn; (split; [|done]).
    - split; [|done]. intros _. right. split_and!; [done..|]. by left.
    - split; [done|]. intros [->|?]; [done|lia]. }
  destruct (Z.ltb_spec (Minor sv) (Minor cv)).
  { cbn. split; [|done]. split; [done|]. intros [->|?]; lia. }
  rewrite Z.mod_small by lia. destruct (Z.ltb_spec 2 (Minor sv - Minor cv)); cbn; (split; [|done]).
  - split; [done|]. intros [->|?]; lia.
  - split; [|done]. intros _. right. split_and!; [done..|]. right. lia.
Qed.

(** The handshake accepts exactly what the strict rule allows. A development build on either side
    is compatible and reported unchecked; otherwise both versions must parse, and be identical, or be
    releases of one MAJOR whose MINORs are equal while it is 0 and, from 1 on, with the client's at
    most MinorWindow behind the server's and never ahead. A refusal always gives a reason. *)
Theorem Check_accepts_exactly (server client : string) :
  let c := Check_versions server client in
  Checked c = negb (isDev server || isDev client) /\
  (Compatible c = true <->
     isDev server || isDev client = true \/
     exists sv cv, ParseVersion server = Some sv /\ ParseVersion client = Some cv /\ may_talk sv cv) /\
  (Compatible c = true <-> Compat_Reason c = NoReason).
Proof.
  cbv zeta. destruct (isDev server || isDev client) eqn:Ed.
  { unfold Check_versions. rewrite Ed. cbn. split; [done|]. split; [|done]. split; auto. }
  pose proof Ed as [Hs Hc]%orb_false_iff.
  destruct (ParseVersion server) as [sv|] eqn:Hsv, (ParseVersion client) as [cv|] eqn:Hcv.
  { destruct (Check_parsed _ _ _ _ Hs Hc Hsv Hcv) as (Hm & Hr & Hck). split; [done|]. split; [|done].
    rewrite Hm. split; [intros ?; right; by exists sv, cv|]. intros [?|(? & ? & ? & ? & ?)]; [done|]. by simplify_eq. }
  all: unfold Check_versions; rewrite Ed, Hsv, ?Hcv; cbn; split; [done|]; (split; [|done]); split; [done|];
    intros [?|(? & ? & ? & ? & ?)]; done.
Qed.
