(* ===== verification/VoiceSlot.v ===== *)
(** What the voice server forwards, packet by packet: backend/internal/voice/slot.go, which rewrites the
    packets of whoever fills a slot into one RTP stream, and voice/rate/rate.go, the meter in front of it.

    Sequence numbers and timestamps are Z at 16 and 32 bits. A pointer to a source is its number. *)
From S2P Require Import Prelude GoStd.

(** ** Words *)

Definition u16 (x : Z) : Z := x mod 2 ^ 16.
Definition u32 (x : Z) : Z := x mod 2 ^ 32.
(** int16 of a uint16. *)
Definition int16 (x : Z) : Z := if x <? 2 ^ 15 then x else x - 2 ^ 16.

Definition nanosecond : Z := 1.
Definition millis : Z := 1000000.
Definition secs : Z := 1000000000.

(** ** Slots (slot.go) *)

Record slot := mkSlot {
  sl_index : Z; sl_kind : string; sl_src : option nat; sl_fresh : bool; sl_first : Z; sl_guarding : bool;
  sl_seqOff : Z; sl_tsOff : Z; sl_sent : bool; sl_lastSeq : Z; sl_lastTS : Z; sl_lastAt : Z; sl_lastStep : Z
}.

Definition new_slot (index : Z) (kind : string) : slot :=
  mkSlot index kind None false 0 false 0 0 false 0 0 0 0.

(** What negotiation settled; [b_bound] is whether there is a writer yet. *)
Record binding := mkBinding {
  b_bound : bool; b_ssrc : Z; b_payloadType : Z; b_clockRate : Z; b_codec : string; b_levelID : Z
}.

Record Packet := mkPacket {
  pk_Marker : bool; pk_SequenceNumber : Z; pk_Timestamp : Z; pk_Payload : string
}.

(** The header as it leaves; the level is the audio-level extension, when it is set. *)
Record Header := mkHeader {
  h_Marker : bool; h_PayloadType : Z; h_SequenceNumber : Z; h_Timestamp : Z; h_SSRC : Z; h_CSRC : list Z;
  h_level : option Z
}.

(** [source], as far as a packet's way goes: its id and codec. *)
Record sender := mkSender { sd_ref : nat; sd_id : Z; sd_codec : string }.

Definition maxGap : Z := 10 * secs.
Definition switchGuard : Z := 1000.

Definition slot_assign (src : option nat) (s : slot) : slot :=
  if bool_decide (sl_src s = src) then s
  else mkSlot (sl_index s) (sl_kind s) src true (sl_first s) (sl_guarding s) (sl_seqOff s) (sl_tsOff s)
         (sl_sent s) (sl_lastSeq s) (sl_lastTS s) (sl_lastAt s) (sl_lastStep s).

Section write.
(** uint32(gap.Seconds() * float64(clockRate)), in floating point: gap in nanoseconds, then the rate. *)
Context (ticks : Z -> Z -> Z).

(** The timestamp a new sender's first packet leaves with, past the last one sent. *)
Definition switch_advance (b : binding) (s : slot) (now : Z) : Z :=
  let gap := Z.max (Z.min (now - sl_lastAt s) maxGap) 0 in
  let adv := ticks gap (b_clockRate b) in
  let frame := if sl_lastStep s =? 0 then b_clockRate b / 50 else sl_lastStep s in
  Z.max adv (Z.max frame 1).

(** The first packet of a sender in the slot settles its offsets. *)
Definition begin_run (b : binding) (p : Packet) (now : Z) (s : slot) : slot :=
  let '(seqOff, tsOff) :=
    if sl_sent s
    then (u16 (sl_lastSeq s + 1 - pk_SequenceNumber p),
          u32 (sl_lastTS s + switch_advance b s now - pk_Timestamp p))
    else (0, 0) in
  mkSlot (sl_index s) (sl_kind s) (sl_src s) false (pk_SequenceNumber p) true seqOff tsOff
    (sl_sent s) (sl_lastSeq s) (sl_lastTS s) (sl_lastAt s) (sl_lastStep s).

(** Whether a later packet of the same sender goes out, and the guard as it leaves it. *)
Definition guard (p : Packet) (s : slot) : option slot :=
  if sl_guarding s then
    let since := int16 (u16 (pk_SequenceNumber p - sl_first s)) in
    if since <? 0 then None
    else if switchGuard <? since
    then Some (mkSlot (sl_index s) (sl_kind s) (sl_src s) (sl_fresh s) (sl_first s) false (sl_seqOff s)
                 (sl_tsOff s) (sl_sent s) (sl_lastSeq s) (sl_lastTS s) (sl_lastAt s) (sl_lastStep s))
    else Some s
  else Some s.

(** The newest packet out, and how long one of its sender's frames is. *)
Definition record_sent (b : binding) (switched : bool) (seq ts now : Z) (s : slot) : slot :=
  if negb (sl_sent s) || (0 <? int16 (u16 (seq - sl_lastSeq s))) then
    let step := u32 (ts - sl_lastTS s) in
    let lastStep :=
      if sl_sent s && negb switched && (seq =? u16 (sl_lastSeq s + 1))
         && (step <=? u32 (b_clockRate b * 120) / 1000)
      then step else sl_lastStep s in
    mkSlot (sl_index s) (sl_kind s) (sl_src s) (sl_fresh s) (sl_first s) (sl_guarding s) (sl_seqOff s)
      (sl_tsOff s) true seq ts now lastStep
  else s.

Definition slot_write (b : binding) (src : sender) (p : Packet) (level : option Z) (now : Z) (s : slot)
    : slot * option (Header * string) :=
  if negb (bool_decide (sl_src s = Some (sd_ref src))) then (s, None)
  else if negb (b_bound b) || negb (b_codec b =? sd_codec src)%string then (s, None)
  else
    let switched := sl_fresh s in
    match (if switched then Some (begin_run b p now s) else guard p s) with
    | None => (s, None)
    | Some s =>
        let seq := u16 (pk_SequenceNumber p + sl_seqOff s) in
        let ts := u32 (pk_Timestamp p + sl_tsOff s) in
        (record_sent b switched seq ts now s,
         Some (mkHeader (if switched then true else pk_Marker p) (b_payloadType b) seq ts (b_ssrc b)
                 [sd_id src] (if b_levelID b =? 0 then None else level),
               pk_Payload p))
    end.
End write.

(** ** The meter (rate/rate.go) *)

(** [m_start] is [None] while the field is the zero time. *)
Record Meter := mkMeter { m_start : option Z; m_count : Z; m_bytes : Z; m_strikes : Z }.

Definition new_meter : Meter := mkMeter None 0 0 0.

Definition closeWindow (perSecond bitsPerSecond : Z) (m : Meter) : Meter :=
  match m_start m with
  | None => m
  | Some _ =>
      if (2 * perSecond <? m_count m) || ((0 <? bitsPerSecond) && (2 * bitsPerSecond <? m_bytes m * 8))
      then mkMeter (m_start m) (m_count m) (m_bytes m) (m_strikes m + 1)
      else mkMeter (m_start m) (m_count m) (m_bytes m) 0
  end.

(** A window still open at [now]; the zero time is longer ago than any window. *)
Definition window_open (now : Z) (m : Meter) : bool :=
  match m_start m with Some start => (0 <=? now - start) && (now - start <? secs) | None => false end.

(** The gap is two seconds or more. *)
Definition long_gap (now : Z) (m : Meter) : bool :=
  match m_start m with Some start => 2 * secs <=? now - start | None => true end.

Definition Admit (now size perSecond bitsPerSecond strikesOut : Z) (m : Meter) : Meter * bool * bool :=
  let m :=
    if window_open now m then m
    else
      let closed := closeWindow perSecond bitsPerSecond m in
      mkMeter (Some now) 0 0 (if long_gap now m then 0 else m_strikes closed) in
  let m := mkMeter (m_start m) (m_count m + 1) (m_bytes m + size) (m_strikes m) in
  (m, (m_count m <=? perSecond) && ((bitsPerSecond =? 0) || (m_bytes m * 8 <=? bitsPerSecond)),
   strikesOut <=? m_strikes m).

(** ** One stream

    The same slot with its numbers unwrapped: a packet has its place [i] in its sender's own stream, of which
    the wire carries 16 bits, and leaves at a place of the slot's stream. *)

(** A sender's turn in the slot: the place of its first packet, of the newest, how far its places are
    moved, and whether older packets than the first are still looked for. *)
Record Turn := mkTurn { tn_first : Z; tn_newest : Z; tn_moved : Z; tn_guarding : bool }.

(** [st_no] counts the turns; [st_turn] is [None] before a turn's first packet. *)
Record Stream := mkStream { st_no : nat; st_src : option nat; st_newest : option Z; st_turn : option Turn }.

Definition stream_assign (src : option nat) (st : Stream) : Stream :=
  if bool_decide (st_src st = src) then st else mkStream (S (st_no st)) src (st_newest st) None.

(** The place a packet leaves at. *)
Definition stream_write (src : nat) (i : Z) (st : Stream) : Stream * option Z :=
  if negb (bool_decide (st_src st = Some src)) then (st, None)
  else match st_turn st with
       | None =>
           let moved := match st_newest st with Some m => m + 1 - i | None => 0 end in
           (mkStream (st_no st) (st_src st) (Some (i + moved)) (Some (mkTurn i i moved true)), Some (i + moved))
       | Some t =>
           if tn_guarding t && (i <? tn_first t) then (st, None)
           else
             let newest := Z.max (tn_newest t) i in
             (mkStream (st_no st) (st_src st) (Some (newest + tn_moved t))
                (Some (mkTurn (tn_first t) newest (tn_moved t)
                         (tn_guarding t && (i - tn_first t <=? switchGuard)))),
              Some (i + tn_moved t))
       end.

(** How far out of order the network may deliver: a packet is within 2^14 of the newest of its turn, and none
    from before the turn is still under way once a packet a thousand past its first has come. *)
Definition arrives (src : nat) (i : Z) (st : Stream) : Prop :=
  st_src st = Some src -> forall t, st_turn st = Some t ->
    tn_newest t - 2 ^ 14 < i < tn_newest t + 2 ^ 14 /\ (tn_guarding t = false -> tn_first t <= i).

Inductive SlotEvent :=
  | SAssign (src : option nat)
  | SPacket (src : nat) (i : Z) (p : Packet) (level : option Z) (now : Z).

Fixpoint arrivals_ok (evs : list SlotEvent) (st : Stream) : Prop :=
  match evs with
  | [] => True
  | SAssign src :: evs => arrivals_ok evs (stream_assign src st)
  | SPacket src i p _ _ :: evs =>
      pk_SequenceNumber p = u16 i /\ arrives src i st /\ arrivals_ok evs (stream_write src i st).1
  end.

(** What leaves: with its turn, the place it had and the place it has; and on the wire. *)
Fixpoint stream_out (evs : list SlotEvent) (st : Stream) : list (nat * Z * Z) :=
  match evs with
  | [] => []
  | SAssign src :: evs => stream_out evs (stream_assign src st)
  | SPacket src i _ _ _ :: evs =>
      let '(st', out) := stream_write src i st in
      match out with Some o => (st_no st, i, o) :: stream_out evs st' | None => stream_out evs st' end
  end.

Section out.
Context (ticks : Z -> Z -> Z) (b : binding) (ids : nat -> Z).

Fixpoint slot_out (evs : list SlotEvent) (s : slot) : list Header :=
  match evs with
  | [] => []
  | SAssign src :: evs => slot_out evs (slot_assign src s)
  | SPacket src _ p level now :: evs =>
      let '(s', out) := slot_write ticks b (mkSender src (ids src) (b_codec b)) p level now s in
      match out with Some (h, _) => h :: slot_out evs s' | None => slot_out evs s' end
  end.

(** *** The slot keeps the wrapped numbers of its stream *)

Lemma u16_mod x : u16 x = x mod 2 ^ 16. Proof. done. Qed.
Lemma u16_add x y : u16 (u16 x + y) = u16 (x + y).
Proof. unfold u16. by rewrite Zplus_mod_idemp_l. Qed.
Lemma u16_add_r x y : u16 (x + u16 y) = u16 (x + y).
Proof. unfold u16. by rewrite Zplus_mod_idemp_r. Qed.
Lemma u16_sub x y : u16 (u16 x - u16 y) = u16 (x - y).
Proof. unfold u16. by rewrite Zminus_mod_idemp_l, Zminus_mod_idemp_r. Qed.

Lemma int16_u16 x : - 2 ^ 15 <= x < 2 ^ 15 -> int16 (u16 x) = x.
Proof.
  intros Hx. unfold int16, u16. destruct (Z.lt_ge_cases x 0).
  - assert (x mod 2 ^ 16 = x + 2 ^ 16) as ->.
    { rewrite <- (Z.mod_add x 1 (2 ^ 16)) by lia. apply Z.mod_small. lia. }
    destruct (Z.ltb_spec (x + 2 ^ 16) (2 ^ 15)); lia.
  - rewrite Z.mod_small by lia. destruct (Z.ltb_spec x (2 ^ 15)); lia.
Qed.

Record tracks (s : slot) (st : Stream) : Prop := mkTracks {
  tr_src : sl_src s = st_src st;
  tr_sent : sl_sent s = bool_decide (is_Some (st_newest st));
  tr_last : forall m, st_newest st = Some m -> sl_lastSeq s = u16 m;
  tr_fresh : sl_src s <> None -> sl_fresh s = bool_decide (st_turn st = None);
  tr_turn : forall t, st_turn st = Some t -> st_newest st = Some (tn_newest t + tn_moved t) /\
    sl_first s = u16 (tn_first t) /\ sl_guarding s = tn_guarding t /\ u16 (sl_seqOff s) = u16 (tn_moved t) /\
    tn_first t <= tn_newest t /\ (tn_guarding t = true -> tn_newest t - tn_first t <= switchGuard)
}.

Lemma tracks_assign src s st : tracks s st -> tracks (slot_assign src s) (stream_assign src st).
Proof.
  intros Ht. unfold slot_assign, stream_assign. rewrite (tr_src _ _ Ht).
  case_bool_decide as E; [done|]. destruct Ht as [H1 H2 H3 H4 H5]. split; cbn; done.
Qed.

Lemma record_sent_same switched seq ts now s :
  let s' := record_sent b switched seq ts now s in
  sl_src s' = sl_src s /\ sl_fresh s' = sl_fresh s /\ sl_first s' = sl_first s /\
  sl_guarding s' = sl_guarding s /\ sl_seqOff s' = sl_seqOff s /\ sl_sent s' = true /\
  sl_lastSeq s' = (if negb (sl_sent s) || (0 <? int16 (u16 (seq - sl_lastSeq s))) then seq else sl_lastSeq s).
Proof.
  unfold record_sent. destruct (negb (sl_sent s)) eqn:E; cbn [orb].
  - done.
  - destruct (0 <? _); [done|]. apply negb_false_iff in E. done.
Qed.

Lemma begin_run_fields p now s :
  let s1 := begin_run ticks b p now s in
  sl_src s1 = sl_src s /\ sl_fresh s1 = false /\ sl_first s1 = pk_SequenceNumber p /\ sl_guarding s1 = true /\
  sl_sent s1 = sl_sent s /\
  sl_seqOff s1 = if sl_sent s then u16 (sl_lastSeq s + 1 - pk_SequenceNumber p) else 0.
Proof. unfold begin_run. by destruct (sl_sent s). Qed.

Definition same_out (out : option (Header * string)) (k : option Z) (src : nat) : Prop :=
  match out, k with
  | Some (h, _), Some k => h_SequenceNumber h = u16 k /\ h_CSRC h = [ids src]
  | None, None => True
  | _, _ => False
  end.

(** The number a packet leaves with is its place in the stream, wrapped. *)
Lemma out_number i moved seqOff : u16 seqOff = u16 moved -> u16 (u16 i + seqOff) = u16 (i + moved).
Proof. intros H. by rewrite u16_add, <- u16_add_r, H, u16_add_r. Qed.

(** What a turn's packet leaves of the slot, the guard having passed it as [s1]. *)
Lemma tracks_later s s1 st t src i ts now seq g :
  tracks s st -> st_src st = Some src -> st_turn st = Some t -> seq = u16 (i + tn_moved t) ->
  tn_newest t - 2 ^ 14 < i < tn_newest t + 2 ^ 14 -> tn_first t <= i ->
  sl_src s1 = sl_src s -> sl_fresh s1 = false -> sl_first s1 = sl_first s -> sl_seqOff s1 = sl_seqOff s ->
  sl_sent s1 = sl_sent s -> sl_lastSeq s1 = sl_lastSeq s ->
  sl_guarding s1 = g -> (g = true -> tn_guarding t = true /\ i - tn_first t <= switchGuard) ->
  tracks (record_sent b false seq ts now s1)
    (mkStream (st_no st) (st_src st) (Some (Z.max (tn_newest t) i + tn_moved t))
       (Some (mkTurn (tn_first t) (Z.max (tn_newest t) i) (tn_moved t) g))).
Proof.
  intros Ht Hs Et -> Hi Hf E1 E2 E3 E4 E5 E6 E7 E8.
  destruct (tr_turn _ _ Ht t Et) as (Hn & Hfirst & Hg & Ho & Hle & Hgap).
  destruct (record_sent_same false (u16 (i + tn_moved t)) ts now s1) as (R1 & R2 & R3 & R4 & R5 & R6 & R7).
  split; cbn; rewrite ?R1, ?R2, ?R3, ?R4, ?R5, ?R6.
  - by rewrite E1, (tr_src _ _ Ht).
  - done.
  - intros m [= <-]. rewrite R7, E5, (tr_sent _ _ Ht), Hn, bool_decide_eq_true_2 by eauto. cbn [negb orb].
    rewrite E6, (tr_last _ _ Ht _ Hn), u16_sub, int16_u16 by lia.
    destruct (Z.ltb_spec 0 (i + tn_moved t - (tn_newest t + tn_moved t))); f_equal; lia.
  - intros _. rewrite E2. done.
  - intros t' [= <-]. cbn. rewrite E3, E4, E7. split_and!; [done|done|done|done|lia|].
    intros [H1 H2]%E8. specialize (Hgap H1). lia.
Qed.

Lemma tracks_write s st src i p level now :
  b_bound b = true -> tracks s st -> pk_SequenceNumber p = u16 i -> arrives src i st ->
  let r := slot_write ticks b (mkSender src (ids src) (b_codec b)) p level now s in
  let q := stream_write src i st in
  tracks r.1 q.1 /\ same_out r.2 q.2 src.
Proof.
  intros Hb Ht Hp Ha. cbv zeta. unfold slot_write, stream_write. cbn [sd_ref sd_id sd_codec].
  rewrite (tr_src _ _ Ht). case_bool_decide as Hs; cbn [negb]; [|done].
  rewrite Hb, String.eqb_refl. cbn [negb orb].
  rewrite (tr_fresh _ _ Ht) by (rewrite (tr_src _ _ Ht); congruence).
  destruct (st_turn st) as [t|] eqn:Et.
  - rewrite (bool_decide_eq_false_2 (Some t = None)) by done.
    destruct (tr_turn _ _ Ht t Et) as (Hn & Hf & Hg & Ho & Hle & Hgap).
    destruct (Ha Hs t Et) as [Hi Hold].
    assert (sl_fresh s = false) as Hfr.
    { rewrite (tr_fresh _ _ Ht) by (rewrite (tr_src _ _ Ht); congruence). by rewrite Et. }
    unfold guard. rewrite Hg. destruct (tn_guarding t) eqn:Eg; cbn [andb].
    + assert (int16 (u16 (pk_SequenceNumber p - sl_first s)) = i - tn_first t) as ->.
      { specialize (Hgap eq_refl). unfold switchGuard in Hgap. rewrite Hp, Hf, u16_sub. apply int16_u16. lia. }
      destruct (Z.ltb_spec i (tn_first t)), (Z.ltb_spec (i - tn_first t) 0); try lia; [done|].
      split.
      * destruct (Z.ltb_spec switchGuard (i - tn_first t)), (Z.leb_spec (i - tn_first t) switchGuard); try lia;
          cbn [fst]; eapply tracks_later; try done; cbn; rewrite ?Hp, ?Hg; by try apply out_number.
      * destruct (switchGuard <? i - tn_first t); cbn; (split; [rewrite Hp; by apply out_number|done]).
    + cbn [fst snd]. split; [|cbn; split; [rewrite Hp; by apply out_number|done]].
      eapply tracks_later; try done; rewrite ?Hp; [by apply out_number|by apply Hold].
  - rewrite (bool_decide_eq_true_2 (None = None)) by done. cbn [fst snd].
    set (moved := match st_newest st with Some m => m + 1 - i | None => 0 end).
    pose proof (begin_run_fields p now s) as (B1 & B2 & B3 & B4 & B5 & B6).
    set (s1 := begin_run ticks b p now s) in *.
    assert (u16 (sl_seqOff s1) = u16 moved) as Ho.
    { rewrite B6, (tr_sent _ _ Ht). unfold moved. destruct (st_newest st) as [m|] eqn:Em; cbn; [|done].
      rewrite (tr_last _ _ Ht _ Em), Hp. unfold u16. rewrite Zmod_mod.
      rewrite <- (Zminus_mod_idemp_l _ (i mod _)), Zplus_mod_idemp_l, Zminus_mod_idemp_l. apply Zminus_mod_idemp_r. }
    assert (u16 (pk_SequenceNumber p + sl_seqOff s1) = u16 (i + moved)) as Hseq by (rewrite Hp; by apply out_number).
    split; [|cbn; by rewrite Hseq]. rewrite Hseq.
    destruct (record_sent_same true (u16 (i + moved)) (u32 (pk_Timestamp p + sl_tsOff s1)) now s1)
      as (R1 & R2 & R3 & R4 & R5 & R6 & R7).
    split; cbn; rewrite ?R1, ?R2, ?R3, ?R4, ?R5, ?R6, ?B1, ?B2, ?B3, ?B4.
    + by rewrite (tr_src _ _ Ht).
    + done.
    + intros m [= <-]. rewrite R7, B5, (tr_sent _ _ Ht). destruct (st_newest st) as [m|] eqn:Em; [|done].
      cbn [negb orb is_Some]. rewrite bool_decide_eq_true_2 by eauto. cbn [negb orb].
      assert (sl_lastSeq s1 = u16 m) as ->.
      { rewrite <- (tr_last _ _ Ht _ Em). unfold s1, begin_run. by destruct (sl_sent s). }
      rewrite u16_sub, int16_u16 by (unfold moved; lia). destruct (Z.ltb_spec 0 (i + moved - m)); [done|unfold moved in *; lia].
    + done.
    + intros t [= <-]. cbn. rewrite Hp. split_and!; [done|done|done|done|lia|unfold switchGuard; lia].
Qed.

Lemma slot_stream evs s st :
  b_bound b = true -> tracks s st -> arrivals_ok evs st ->
  Forall2 (fun h o => h_SequenceNumber h = u16 o.2) (slot_out evs s) (stream_out evs st).
Proof.
  intros Hb. revert s st. induction evs as [|[src|src i p level now] evs IH]; intros s st Ht Ha; cbn in *; [constructor|..].
  - apply IH; [by apply tracks_assign|done].
  - destruct Ha as (Hp & Ha & Hr). pose proof (tracks_write s st src i p level now Hb Ht Hp Ha) as [H1 H2].
    destruct (slot_write _ _ _ _ _ _ _) as [s' out], (stream_write src i st) as [st' k]. cbn in *.
    destruct out as [[h x]|], k as [k|]; try done; [|by apply IH].
    constructor; [by destruct H2|by apply IH].
Qed.
End out.

(** *** The places of a stream *)

(** The newest place, one more packet out. *)
Definition newer_place (newest : option Z) (x : nat * Z * Z) : option Z :=
  Some (match newest with Some m => Z.max m x.2 | None => x.2 end).

Definition turn_of (x : nat * Z * Z) : nat := x.1.1.

(** Packets of one turn keep their distances; those of a later turn come after. *)
Definition in_stream (x y : nat * Z * Z) : Prop :=
  (turn_of x = turn_of y /\ y.2 - x.2 = y.1.2 - x.1.2) \/ ((turn_of x < turn_of y)%nat /\ x.2 < y.2).

Record stream_ok (st : Stream) : Prop := mkStreamOk {
  so_turn : forall t, st_turn st = Some t ->
    st_newest st = Some (tn_newest t + tn_moved t) /\ tn_first t <= tn_newest t
}.

Lemma stream_ok_assign src st : stream_ok st -> stream_ok (stream_assign src st).
Proof. intros H. unfold stream_assign. case_bool_decide; [done|]. by split. Qed.

(** One packet: nothing changes, or it goes out at a place the turn gives it. *)
Lemma stream_write_cases src i st :
  stream_ok st -> arrives src i st ->
  (stream_write src i st = (st, None)) \/
  exists o t, stream_write src i st =
      (mkStream (st_no st) (st_src st) (newer_place (st_newest st) (st_no st, i, o)) (Some t), Some o) /\
    o = i + tn_moved t /\ tn_first t <= tn_newest t /\ o <= tn_newest t + tn_moved t /\
    newer_place (st_newest st) (st_no st, i, o) = Some (tn_newest t + tn_moved t) /\
    tn_first t <= i /\
    (forall t0, st_turn st = Some t0 -> tn_moved t = tn_moved t0 /\ tn_first t = tn_first t0) /\
    (st_turn st = None -> tn_first t = i /\ forall m, st_newest st = Some m -> o = m + 1).
Proof.
  intros Hok Ha. unfold stream_write. case_bool_decide as Hs; cbn [negb]; [|by left].
  destruct (st_turn st) as [t|] eqn:Et.
  - destruct (so_turn _ Hok t Et) as [Hn Hle]. destruct (tn_guarding t && (i <? tn_first t)) eqn:Eg; [by left|].
    right. eexists (i + tn_moved t), _. rewrite Hn. unfold newer_place. cbn.
    rewrite Z.add_max_distr_r. split_and!; try done; cbn; try lia; [|by intros t0 [= <-]].
    destruct (Ha Hs t Et) as [_ Hold]. destruct (tn_guarding t); cbn in Eg; [bool_hyps; lia|by apply Hold].
  - right. unfold newer_place. destruct (st_newest st) as [m|]; cbn.
    + exists (i + (m + 1 - i)), (mkTurn i i (m + 1 - i) true). cbn. rewrite Z.max_r by lia.
      split_and!; try done; try lia. intros _. split; [done|]. intros m' [= <-]. lia.
    + exists (i + 0), (mkTurn i i 0 true). cbn. split_and!; try done; lia.
Qed.

Lemma stream_places evs st :
  stream_ok st -> arrivals_ok evs st ->
  (forall x, x ∈ stream_out evs st -> (st_no st <= turn_of x)%nat /\
     (forall t, st_turn st = Some t -> turn_of x = st_no st -> x.2 = x.1.2 + tn_moved t /\ tn_first t <= x.1.2) /\
     (turn_of x <> st_no st \/ st_turn st = None -> forall m, st_newest st = Some m -> m < x.2)) /\
  (forall l1 x l2 y l3, stream_out evs st = l1 ++ x :: l2 ++ y :: l3 -> in_stream x y) /\
  (forall l1 x l2, stream_out evs st = l1 ++ x :: l2 -> Forall (fun y => turn_of y <> turn_of x) l1 ->
     turn_of x <> st_no st \/ st_turn st = None ->
     forall m, foldl newer_place (st_newest st) l1 = Some m -> x.2 = m + 1).
Proof.
  revert st. induction evs as [|[src|src i p level now] evs IH]; intros st Hok Ha; cbn [stream_out arrivals_ok] in *.
  - split_and!; [by intros x ?%not_elem_of_nil|by intros [|? l1]|by intros [|? l1]].
  - pose proof (IH _ (stream_ok_assign src st Hok) Ha) as (H1 & H2 & H3).
    unfold stream_assign in *. case_bool_decide; [done|]. cbn in *.
    split_and!; [|done|].
    + intros x Hx. destruct (H1 x Hx) as (Hle & _ & Hm). split_and!; [lia|intros; lia|]. intros _ m Hm'. apply Hm; [by right|done].
    + intros l1 x l2 E Hf _ m Hm. apply (H3 l1 x l2 E Hf); [by right|done].
  - destruct Ha as (_ & Ha & Hr).
    destruct (stream_write_cases src i st Hok Ha) as [Ew|(o & t & Ew & Ho & Hft & Hot & Hnew & Hi & Hmv & Hfirst)];
      rewrite Ew in *; cbn [fst] in Hr; [by apply IH|].
    set (st' := mkStream _ _ _ _) in *.
    assert (stream_ok st') as Hok' by (split; cbn; by intros t' [= <-]).
    destruct (IH st' Hok' Hr) as (H1 & H2 & H3).
    assert (forall x, x ∈ stream_out evs st' -> in_stream (st_no st, i, o) x) as Hhead.
    { intros x Hx. destruct (H1 x Hx) as (Hle & Hsame & Hlater). destruct (decide (turn_of x = st_no st)) as [E|E].
      - left. destruct (Hsame t eq_refl E) as [-> _]. cbn. split; [done|lia].
      - right. cbn. split; [cbn in Hle; lia|]. assert (tn_newest t + tn_moved t < x.2); [|lia].
        apply Hlater; [by left|exact Hnew]. }
    assert (forall m, st_newest st = Some m -> m <= tn_newest t + tn_moved t) as Hup.
    { intros m Hm. rewrite Hm in Hnew. cbn in Hnew. injection Hnew as Hnew. lia. }
    split_and!.
    + intros x [->|Hx]%elem_of_cons.
      * cbn. split_and!; [lia|intros t0 E _; destruct (Hmv t0 E) as [<- <-]; by split|].
        intros [?|E] m Hm; [done|]. destruct (Hfirst E) as [_ Hf]. rewrite (Hf m Hm). lia.
      * destruct (H1 x Hx) as (Hle & Hsame & Hlater). cbn in Hle, Hsame, Hlater. split_and!; [done| |].
        -- intros t0 E Et. destruct (Hmv t0 E) as [<- <-]. by apply Hsame.
        -- intros Hc m Hm. specialize (Hup m Hm). destruct (decide (turn_of x = st_no st)) as [E|E].
           ++ destruct Hc as [?|Hc]; [done|]. destruct (Hfirst Hc) as [E1 Hf]. specialize (Hf m Hm).
              destruct (Hsame t eq_refl E). lia.
           ++ assert (tn_newest t + tn_moved t < x.2); [|lia]. apply Hlater; [by left|exact Hnew].
    + intros [|z l1] x l2 y l3; cbn; intros [= <- E].
      * apply Hhead. rewrite E. apply elem_of_app. right. by left.
      * by eapply H2.
    + intros [|z l1] x l2; cbn; intros [= E1 E2] Hf Hc m Hm.
      * subst x. cbn in Hc. destruct Hc as [?|Hc]; [done|]. by apply (proj2 (Hfirst Hc)).
      * apply Forall_cons in Hf as [Hz Hf]. subst z. apply (H3 l1 x l2 E2 Hf); [by left|done].
Qed.

Definition empty_stream : Stream := mkStream 0 None None None.

(** C25: A negotiated slot is one stream, from its making on, for packets of its codec that arrive in reach:
    each within 2^14 places of the newest of its turn, and none from before a turn's first once a packet a thousand
    past it has come. Whoever then speaks in the slot and however often it changes hands, what a receiver is sent
    has, modulo 2^16, the places of one stream: packets of one turn keep the distances they had, every packet of a
    later turn has a place after every packet of an earlier one, and a turn's first packet is numbered one past the
    newest sent, so none is skipped at a change of hands. The slot does not enforce the reach:
    [jump_repeats_numbers] is a sender that leaves it, and whose numbers the next sender's packets repeat. *)
Theorem slot_one_stream (ticks : Z -> Z -> Z) (b : binding) (ids : nat -> Z) (evs : list SlotEvent) :
  b_bound b = true -> arrivals_ok evs empty_stream ->
  let outs := stream_out evs empty_stream in
  Forall2 (fun h o => h_SequenceNumber h = u16 o.2) (slot_out ticks b ids evs (new_slot 0 "audio")) outs /\
  (forall l1 x l2 y l3, outs = l1 ++ x :: l2 ++ y :: l3 -> in_stream x y) /\
  (forall l1 x l2, outs = l1 ++ x :: l2 -> Forall (fun y => turn_of y <> turn_of x) l1 ->
     forall m, foldl newer_place None l1 = Some m -> x.2 = m + 1).
Proof.
  intros Hb Ha. assert (stream_ok empty_stream) as Hok by by split.
  destruct (stream_places evs empty_stream Hok Ha) as (_ & H2 & H3). split_and!; [|done|].
  - apply slot_stream; [done| |done]. by split.
  - intros l1 x l2 E Hf. apply (H3 l1 x l2 E Hf). by right.
Qed.

(** Two speakers, the second from the middle of its own stream, which wraps; a packet of the first from before
    the change comes late. *)
Definition demo_binding : binding := mkBinding true 77 111 48000 "audio/opus" 1.
Definition demo_packet (src : nat) (i : Z) : SlotEvent :=
  SPacket src i (mkPacket false (u16 i) (u32 (i * 960)) "x") None (i * 20 * millis).
Definition demo_slot_events : list SlotEvent :=
  [SAssign (Some 1%nat); demo_packet 1 65534; demo_packet 1 65536; demo_packet 1 65535;
   SAssign (Some 2%nat); demo_packet 1 65537; demo_packet 2 10; demo_packet 2 9; demo_packet 2 11].

Lemma slot_one_stream_witness :
  let ticks gap rate := gap * rate / secs in
  let outs := stream_out demo_slot_events empty_stream in
  h_SequenceNumber <$> slot_out ticks demo_binding Z.of_nat demo_slot_events (new_slot 0 "audio") =
    [65534; 0; 65535; 1; 2] /\
  Forall2 (fun h o => h_SequenceNumber h = u16 o.2)
    (slot_out ticks demo_binding Z.of_nat demo_slot_events (new_slot 0 "audio")) outs.
Proof.
  intros ticks outs. split; [by vm_compute|].
  assert (arrivals_ok demo_slot_events empty_stream) as Ha.
  { cbn. unfold arrives. cbn. split_and!; try done; intros _ t [= <-]; cbn; lia. }
  exact (proj1 (slot_one_stream ticks demo_binding Z.of_nat demo_slot_events eq_refl Ha)).
Defined.

(** A sender whose second packet jumps out of reach leaves the newest number behind: the next sender's packets then
    come to the number the jump was given. *)
Definition jumping_events : list SlotEvent :=
  [SAssign (Some 1%nat); demo_packet 1 0; demo_packet 1 1001; demo_packet 1 40000;
   SAssign (Some 2%nat); demo_packet 2 0; demo_packet 2 16000; demo_packet 2 32000; demo_packet 2 38998].

Example jump_repeats_numbers :
  let ticks gap rate := gap * rate / secs in
  map (fun h => (h_CSRC h, h_SequenceNumber h)) (slot_out ticks demo_binding Z.of_nat jumping_events (new_slot 0 "audio")) =
    [([1], 0); ([1], 1001); ([1], 40000); ([2], 1002); ([2], 17002); ([2], 33002); ([2], 40000)].
Proof. vm_compute. reflexivity. Qed.
