(* ===== verification/Sfu.v ===== *)
(** The voice server's rooms: backend/internal/voice/sfu.go, room.go, limits.go, and of conn.go and
    datachannel.go what decides who is in a room and who is forwarded to whom. Each definition is one critical
    section: what runs under the SFU's lock, a room's, or a connection's.

    Connections, rooms, sources and slots are entries of heaps, as the code's pointers make them; times are
    nanoseconds. What WebRTC does, and the loudness of a source, arrive as arguments. *)
From S2P Require Import Prelude GoStd Snowflake.
From S2P Require Export VoiceSlot.

(** ** Limits (limits.go) *)

Definition KindAudio : string := "audio".
Definition KindVideo : string := "video".

Record TrackBounds := mkTrackBounds { tb_Send : Z; tb_Slots : Z }.

Record Limits := mkLimits {
  Rooms : Z; ParticipantsPerRoom : Z; ConnsPerUser : Z; Tracks : gmap string TrackBounds; MaxCandidates : Z;
  ProvisionTimeout : Z; PacketsPerSecond : Z; BitsPerSecond : Z; StrikesToEvict : Z; RTCPPerSecond : Z;
  MessagesPerSecond : Z; ExtraChannels : Z
}.

(** [voiceproto.MaxCandidates] *)
Definition proto_MaxCandidates : Z := 16.

Definition DefaultLimits : Limits :=
  mkLimits 1024 64 2 {[KindAudio := mkTrackBounds 1 16; KindVideo := mkTrackBounds 0 0]} proto_MaxCandidates
    (30 * secs) 150 256000 3 100 20 4.

Definition maxSections (l : Limits) : Z := map_fold (fun _ b n => n + tb_Send b + tb_Slots b) 1 (Tracks l).

(** Whether [validate] returns no error. *)
Definition limits_valid (l : Limits) : bool :=
  forallb (fun v => 0 <? v)
    [Rooms l; ParticipantsPerRoom l; ConnsPerUser l; MaxCandidates l; PacketsPerSecond l; BitsPerSecond l;
     StrikesToEvict l; RTCPPerSecond l; MessagesPerSecond l; ProvisionTimeout l] &&
  (0 <=? ExtraChannels l) &&
  forallb (fun kv => (bool_decide (kv.1 = KindAudio) || bool_decide (kv.1 = KindVideo)) &&
                     (0 <=? tb_Send kv.2) && (0 <=? tb_Slots kv.2)) (map_to_list (Tracks l)) &&
  match Tracks l !! KindAudio with Some a => (1 <=? tb_Send a) && (1 <=? tb_Slots a) | None => false end.

(** ** State *)

Inductive VoiceErr := ErrFull | ErrEvicted | ErrStale | ErrDuplicate | ErrNotFound | ErrClosed.

(** A client's preference over who fills its slots; [sub_cap] is -1 for all of them. *)
Record subscription := mkSubscription { sub_pin : list Z; sub_drop : gset Z; sub_cap : Z }.
Definition noSubscription : subscription := mkSubscription [] ∅ (-1).

Record SlotEntry := mkSlotEntry {
  se_Slot : Z; se_Kind : string; se_Source : Z; se_User : string; se_Conn : string
}.
#[export] Instance SlotEntry_eq_dec : EqDecision SlotEntry.
Proof. solve_decision. Defined.

Record conn := mkConn {
  cn_room : nat; cn_id : Z; cn_user : Z; cn_issued : Z; cn_closed : bool; cn_cause : option VoiceErr;
  cn_inRoom : bool; cn_slots : gmap string (list nat); cn_sub : subscription;
  cn_slotMap : list SlotEntry; cn_mapVersion : Z; cn_speaking : list string; cn_speakingVersion : Z
}.

Record source := mkSource {
  src_conn : nat; src_user : Z; src_id : Z; src_kind : string; src_codec : string; src_slots : list nat
}.

Record room := mkRoom {
  rm_id : Z; rm_conns : gmap Z nat; rm_perUser : gmap Z Z; rm_excluded : gmap Z (gset Z);
  rm_sources : gmap Z nat; rm_nextSource : Z; rm_gone : bool
}.

Record cutoff := mkCutoff { ct_id : Z; ct_until : Z }.

Record SFU := mkSFU {
  sf_closed : bool; sf_rooms : gmap Z nat; sf_conns : gmap Z nat; sf_cutoffs : gmap (Z * Z) cutoff;
  sf_closedRooms : gmap Z cutoff; sf_evictedConns : gmap Z Z;
  sf_room : gmap nat room; sf_conn : gmap nat conn; sf_source : gmap nat source; sf_slot : gmap nat slot;
  sf_next : nat
}.

Definition newSFU : SFU := mkSFU false ∅ ∅ ∅ ∅ ∅ ∅ ∅ ∅ ∅ 0.

Definition set_tables (rooms conns : gmap Z nat) (s : SFU) : SFU :=
  mkSFU (sf_closed s) rooms conns (sf_cutoffs s) (sf_closedRooms s) (sf_evictedConns s) (sf_room s) (sf_conn s)
    (sf_source s) (sf_slot s) (sf_next s).
Definition set_room (r : nat) (rm : room) (s : SFU) : SFU :=
  mkSFU (sf_closed s) (sf_rooms s) (sf_conns s) (sf_cutoffs s) (sf_closedRooms s) (sf_evictedConns s)
    (<[r := rm]> (sf_room s)) (sf_conn s) (sf_source s) (sf_slot s) (sf_next s).
Definition set_conn (c : nat) (k : conn) (s : SFU) : SFU :=
  mkSFU (sf_closed s) (sf_rooms s) (sf_conns s) (sf_cutoffs s) (sf_closedRooms s) (sf_evictedConns s)
    (sf_room s) (<[c := k]> (sf_conn s)) (sf_source s) (sf_slot s) (sf_next s).
Definition set_source (x : nat) (v : source) (s : SFU) : SFU :=
  mkSFU (sf_closed s) (sf_rooms s) (sf_conns s) (sf_cutoffs s) (sf_closedRooms s) (sf_evictedConns s)
    (sf_room s) (sf_conn s) (<[x := v]> (sf_source s)) (sf_slot s) (sf_next s).
Definition set_slot (x : nat) (v : slot) (s : SFU) : SFU :=
  mkSFU (sf_closed s) (sf_rooms s) (sf_conns s) (sf_cutoffs s) (sf_closedRooms s) (sf_evictedConns s)
    (sf_room s) (sf_conn s) (sf_source s) (<[x := v]> (sf_slot s)) (sf_next s).
Definition set_cutoffs (cutoffs : gmap (Z * Z) cutoff) (rooms : gmap Z cutoff) (conns : gmap Z Z) (s : SFU) : SFU :=
  mkSFU (sf_closed s) (sf_rooms s) (sf_conns s) cutoffs rooms conns (sf_room s) (sf_conn s)
    (sf_source s) (sf_slot s) (sf_next s).
(** The next pointer. *)
Definition bump (s : SFU) : SFU :=
  mkSFU (sf_closed s) (sf_rooms s) (sf_conns s) (sf_cutoffs s) (sf_closedRooms s) (sf_evictedConns s) (sf_room s)
    (sf_conn s) (sf_source s) (sf_slot s) (S (sf_next s)).
Definition set_closed (s : SFU) : SFU :=
  mkSFU true (sf_rooms s) (sf_conns s) (sf_cutoffs s) (sf_closedRooms s) (sf_evictedConns s) (sf_room s)
    (sf_conn s) (sf_source s) (sf_slot s) (sf_next s).

(** ** Rooms (room.go) *)

Definition newRoom (id : Z) : room := mkRoom id ∅ ∅ ∅ ∅ 0 false.

Definition count_of (m : gmap Z Z) (u : Z) : Z := default 0 (m !! u).

Definition room_admit (lim : Limits) (user : Z) (rm : room) : bool :=
  (Z.of_nat (size (rm_conns rm)) <? ParticipantsPerRoom lim) && (count_of (rm_perUser rm) user <? ConnsPerUser lim).

Definition room_add (c : nat) (id user : Z) (rm : room) : room :=
  mkRoom (rm_id rm) (<[id := c]> (rm_conns rm)) (<[user := count_of (rm_perUser rm) user + 1]> (rm_perUser rm))
    (rm_excluded rm) (rm_sources rm) (rm_nextSource rm) (rm_gone rm).

(** Whether a source is one the connection sends. *)
Definition sent_by (sources : gmap nat source) (c : nat) (x : nat) : bool :=
  match sources !! x with Some v => (src_conn v =? c)%nat | None => false end.

Definition room_remove (sources : gmap nat source) (c : nat) (id user : Z) (rm : room) : room :=
  if negb (bool_decide (rm_conns rm !! id = Some c)) then rm
  else
    let left := count_of (rm_perUser rm) user - 1 in
    mkRoom (rm_id rm) (delete id (rm_conns rm))
      (if left <=? 0 then delete user (rm_perUser rm) else <[user := left]> (rm_perUser rm))
      (if left <=? 0 then delete user (rm_excluded rm) else rm_excluded rm)
      (filter (fun kv => sent_by sources c kv.2 = false) (rm_sources rm)) (rm_nextSource rm) (rm_gone rm).

Definition room_empty (rm : room) : bool := bool_decide (rm_conns rm = ∅).

Definition room_shut (rm : room) : room :=
  mkRoom (rm_id rm) (rm_conns rm) (rm_perUser rm) (rm_excluded rm) (rm_sources rm) (rm_nextSource rm) true.

Definition room_exclude (receiver : Z) (users : list Z) (rm : room) : option room :=
  if count_of (rm_perUser rm) receiver =? 0 then None
  else Some (mkRoom (rm_id rm) (rm_conns rm) (rm_perUser rm)
    (match users with
     | [] => delete receiver (rm_excluded rm)
     | _ => <[receiver := list_to_set users]> (rm_excluded rm)
     end) (rm_sources rm) (rm_nextSource rm) (rm_gone rm)).

(** ** The SFU (sfu.go) *)

Section sfu.
Context (lim : Limits).

(** [id.Time()], in nanoseconds. *)
Definition issued_at (id : Z) : Z := ID_Time id * millis.

Definition dropRoomLocked (r : nat) (s : SFU) : SFU :=
  match sf_room s !! r with
  | None => s
  | Some rm =>
      let s := if bool_decide (sf_rooms s !! rm_id rm = Some r)
               then set_tables (delete (rm_id rm) (sf_rooms s)) (sf_conns s) s else s in
      set_room r (room_shut rm) s
  end.

(** A cutoff that refuses a provision issued at [issued] and read at [now]. *)
Definition cut_off (now issued : Z) (cut : option cutoff) : bool :=
  match cut with Some cut => (now <? ct_until cut) && (issued <=? ct_id cut) | None => false end.

Definition refused (now roomID user connID issued : Z) (s : SFU) : option VoiceErr :=
  if sf_closed s then Some ErrClosed
  else if issued_at issued <=? now - ProvisionTimeout lim then Some ErrStale
  else if cut_off now issued (sf_cutoffs s !! (roomID, user)) then Some ErrEvicted
  else if cut_off now issued (sf_closedRooms s !! roomID) then Some ErrEvicted
  else if match sf_evictedConns s !! connID with Some until => now <? until | None => false end
  then Some ErrEvicted
  else if bool_decide (is_Some (sf_conns s !! connID)) then Some ErrDuplicate
  else None.

(** The room a provision is for, made if it is not there; [None] is a server with no room left. *)
Definition room_for (roomID : Z) (s : SFU) : option (nat * SFU) :=
  match sf_rooms s !! roomID with
  | Some r => Some (r, s)
  | None =>
      if Rooms lim <=? Z.of_nat (size (sf_rooms s)) then None
      else
        let r := sf_next s in
        Some (r, bump (set_room r (newRoom roomID) (set_tables (<[roomID := r]> (sf_rooms s)) (sf_conns s) s)))
  end.

Definition new_conn (r : nat) (id user issued : Z) : conn :=
  mkConn r id user issued false None false ∅ noSubscription [] 0 [] 0.

Definition reserve (now roomID user connID issued : Z) (s : SFU) : (VoiceErr + nat) * SFU :=
  match refused now roomID user connID issued s with
  | Some e => (inl e, s)
  | None =>
      match room_for roomID s with
      | None => (inl ErrFull, s)
      | Some (r, s) =>
          let rm := default (newRoom roomID) (sf_room s !! r) in
          if negb (room_admit lim user rm)
          then (inl ErrFull, if room_empty rm then dropRoomLocked r s else s)
          else
            let c := sf_next s in
            let s := bump (set_conn c (new_conn r connID user issued) s) in
            let s := set_room r (room_add c connID user rm) s in
            (inr c, set_tables (sf_rooms s) (<[connID := c]> (sf_conns s)) s)
      end
  end.

(** closeFor's own section: whether this call is the one that closes the connection. *)
Definition closeFor (c : nat) (cause : option VoiceErr) (s : SFU) : bool * SFU :=
  match sf_conn s !! c with
  | Some k =>
      if cn_closed k then (false, s)
      else (true, set_conn c (mkConn (cn_room k) (cn_id k) (cn_user k) (cn_issued k) true cause (cn_inRoom k)
                                (cn_slots k) (cn_sub k) (cn_slotMap k) (cn_mapVersion k) (cn_speaking k)
                                (cn_speakingVersion k)) s)
  | None => (false, s)
  end.

Definition forget (c : nat) (s : SFU) : SFU :=
  match sf_conn s !! c with
  | None => s
  | Some k =>
      let s := if bool_decide (sf_conns s !! cn_id k = Some c)
               then set_tables (sf_rooms s) (delete (cn_id k) (sf_conns s)) s else s in
      match sf_room s !! cn_room k with
      | None => s
      | Some rm =>
          let rm := room_remove (sf_source s) c (cn_id k) (cn_user k) rm in
          let s := set_room (cn_room k) rm s in
          if room_empty rm then dropRoomLocked (cn_room k) s else s
      end
  end.

Definition room_members (r : nat) (s : SFU) : list nat :=
  match sf_room s !! r with Some rm => snd <$> map_to_list (rm_conns rm) | None => [] end.

(** A cutoff as an eviction leaves it. *)
Definition raise_cutoff (now cut : Z) (prev : option cutoff) : cutoff :=
  mkCutoff (match prev with Some p => if ct_id p <? cut then cut else ct_id p | None => cut end)
    (now + ProvisionTimeout lim).

Definition evicts (user cut : Z) (k : option conn) : bool :=
  match k with Some k => (cn_user k =? user) && (cn_issued k <=? cut) | None => false end.

(** The connections to close, and the SFU. *)
Definition Evict (now roomID user cut : Z) (s : SFU) : list nat * SFU :=
  let key := (roomID, user) in
  let victims :=
    match sf_rooms s !! roomID with
    | Some r => filter (fun c => evicts user cut (sf_conn s !! c) = true) (room_members r s)
    | None => []
    end in
  (victims, set_cutoffs (<[key := raise_cutoff now cut (sf_cutoffs s !! key)]> (sf_cutoffs s)) (sf_closedRooms s)
     (sf_evictedConns s) s).

Definition EvictConnection (now connID : Z) (s : SFU) : list nat * SFU :=
  (match sf_conns s !! connID with Some c => [c] | None => [] end,
   set_cutoffs (sf_cutoffs s) (sf_closedRooms s)
     (<[connID := now + ProvisionTimeout lim]> (sf_evictedConns s)) s).

Definition CloseRoom (now roomID cut : Z) (s : SFU) : list nat * SFU :=
  let s := set_cutoffs (sf_cutoffs s) (<[roomID := raise_cutoff now cut (sf_closedRooms s !! roomID)]> (sf_closedRooms s))
             (sf_evictedConns s) s in
  match sf_rooms s !! roomID with
  | Some r => (room_members r s, dropRoomLocked r s)
  | None => ([], s)
  end.

Definition sweep (now : Z) (s : SFU) : SFU :=
  set_cutoffs (filter (fun kv => now < ct_until kv.2) (sf_cutoffs s))
    (filter (fun kv => now < ct_until kv.2) (sf_closedRooms s))
    (filter (fun kv => now < kv.2) (sf_evictedConns s)) s.

Definition shut_listed (s : SFU) : gmap nat room :=
  map_imap (fun r rm => Some (if bool_decide (sf_rooms s !! rm_id rm = Some r) then room_shut rm else rm)) (sf_room s).

Definition Close (s : SFU) : list nat * SFU :=
  if sf_closed s then ([], s)
  else (snd <$> map_to_list (sf_conns s),
        set_closed (mkSFU (sf_closed s) (sf_rooms s) (sf_conns s) (sf_cutoffs s) (sf_closedRooms s)
          (sf_evictedConns s) (shut_listed s) (sf_conn s) (sf_source s) (sf_slot s) (sf_next s))).

(** SetExclusion's two sections: finding the room, and [room.exclude] on it. *)
Definition find_room (roomID : Z) (s : SFU) : option nat := sf_rooms s !! roomID.

Definition SetExclusion (r : nat) (receiver : Z) (users : list Z) (s : SFU) : option SFU :=
  rm ← sf_room s !! r; rm ← room_exclude receiver users rm; Some (set_room r rm s).
End sfu.

(** ** Connections (conn.go, datachannel.go) *)

Definition with_inRoom (k : conn) : conn :=
  mkConn (cn_room k) (cn_id k) (cn_user k) (cn_issued k) (cn_closed k) (cn_cause k) true (cn_slots k) (cn_sub k)
    (cn_slotMap k) (cn_mapVersion k) (cn_speaking k) (cn_speakingVersion k).
Definition with_sub (sub : subscription) (k : conn) : conn :=
  mkConn (cn_room k) (cn_id k) (cn_user k) (cn_issued k) (cn_closed k) (cn_cause k) (cn_inRoom k) (cn_slots k) sub
    (cn_slotMap k) (cn_mapVersion k) (cn_speaking k) (cn_speakingVersion k).
Definition with_slots (slots : gmap string (list nat)) (k : conn) : conn :=
  mkConn (cn_room k) (cn_id k) (cn_user k) (cn_issued k) (cn_closed k) (cn_cause k) (cn_inRoom k) slots (cn_sub k)
    (cn_slotMap k) (cn_mapVersion k) (cn_speaking k) (cn_speakingVersion k).

Definition slotsByKind (kind : string) (k : conn) : list nat := default [] (cn_slots k !! kind).

(** The slots a negotiated connection receives on: the SFU carries no codec but audio's. *)
Definition negotiated (c : nat) (n : nat) (s : SFU) : option SFU :=
  k ← sf_conn s !! c;
  if bool_decide (cn_slots k = ∅) then
    let refs := seq (sf_next s) n in
    let slots := imap (fun i x => (x, new_slot (Z.of_nat i) KindAudio)) refs in
    Some (set_conn c (with_slots {[KindAudio := refs]} k)
      (mkSFU (sf_closed s) (sf_rooms s) (sf_conns s) (sf_cutoffs s) (sf_closedRooms s) (sf_evictedConns s)
         (sf_room s) (sf_conn s) (sf_source s) (list_to_map slots ∪ sf_slot s) (sf_next s + n)))
  else None.

(** What [onSubscribe] makes of a subscribe whose ids parse; a cap that is there is not negative. *)
Fixpoint keep_first (seen pins : list Z) : list Z :=
  match pins with
  | [] => []
  | u :: pins => if bool_decide (u ∈ seen) then keep_first seen pins else u :: keep_first (u :: seen) pins
  end.

Definition onSubscribe (pin drop : list Z) (cap : option Z) : option subscription :=
  if match cap with Some n => n <? 0 | None => false end then None
  else Some (mkSubscription (keep_first [] pin) (list_to_set drop) (default (-1) cap)).

Definition setSlotMap (m : list SlotEntry) (k : conn) : conn * bool :=
  if bool_decide (cn_slotMap k = m) then (k, false)
  else (mkConn (cn_room k) (cn_id k) (cn_user k) (cn_issued k) (cn_closed k) (cn_cause k) (cn_inRoom k) (cn_slots k)
          (cn_sub k) m (cn_mapVersion k + 1) (cn_speaking k) (cn_speakingVersion k), true).

Definition setSpeaking (users : list string) (k : conn) : conn * bool :=
  if bool_decide (cn_speaking k = users) then (k, false)
  else (mkConn (cn_room k) (cn_id k) (cn_user k) (cn_issued k) (cn_closed k) (cn_cause k) (cn_inRoom k) (cn_slots k)
          (cn_sub k) (cn_slotMap k) (cn_mapVersion k) users (cn_speakingVersion k + 1), true).

(** ** Sources *)

Definition addSource (c : nat) (kind codec : string) (s : SFU) : option SFU :=
  k ← sf_conn s !! c; rm ← sf_room s !! cn_room k;
  if rm_gone rm || negb (bool_decide (rm_conns rm !! cn_id k = Some c)) then None
  else
    let id := u32 (rm_nextSource rm + 1) in
    let x := sf_next s in
    Some (bump (set_source x (mkSource c (cn_user k) id kind codec [])
      (set_room (cn_room k)
         (mkRoom (rm_id rm) (rm_conns rm) (rm_perUser rm) (rm_excluded rm) (<[id := x]> (rm_sources rm)) id (rm_gone rm))
         s))).

Definition removeSource (x : nat) (s : SFU) : option SFU :=
  v ← sf_source s !! x; k ← sf_conn s !! src_conn v; rm ← sf_room s !! cn_room k;
  Some (if bool_decide (rm_sources rm !! src_id v = Some x)
        then set_room (cn_room k)
               (mkRoom (rm_id rm) (rm_conns rm) (rm_perUser rm) (rm_excluded rm) (delete (src_id v) (rm_sources rm))
                  (rm_nextSource rm) (rm_gone rm)) s
        else s).

(** ** Selection (room.go) *)

(** How loud a source has been: a floating-point number, ordered by cmp.Compare, and what times
    [incumbency] makes of it. *)
Class Loudness := mkLoudness {
  loud : Type;
  loud_le : loud -> loud -> bool;
  louder : loud -> loud
}.

(** The orders of [cmp.Compare] on ids and of [slices.Sort] on strings. *)
Definition id_le {A} (x y : Z * A) : Prop := x.1 <= y.1.
#[export] Instance id_le_dec {A} : RelDecision (@id_le A).
Proof. intros x y. unfold id_le. apply _. Defined.
Definition text_le (x y : string) : Prop := String.leb x y = true.
#[export] Instance text_le_dec : RelDecision text_le.
Proof. intros x y. unfold text_le. apply _. Defined.

Section selection.
Context {LD : Loudness}.

(** What [judge] answered for a source this time. *)
Record Judged := mkJudged { jd_loudness : loud; jd_speaking : bool }.
Context (judge : nat -> Judged).

(** The candidates a receiver pinned, in the order it pinned them. *)
Fixpoint pinned (sources : gmap nat source) (pin : list Z) (candidates taken : list nat) : list nat :=
  match pin with
  | [] => []
  | user :: pin =>
      let mine := filter (fun x => (match sources !! x with Some v => src_user v =? user | None => false end
                                    && negb (bool_decide (x ∈ taken)))%bool = true) candidates in
      mine ++ pinned sources pin candidates (taken ++ mine)
  end.

Definition score (holding : list (option nat)) (x : nat) : loud :=
  if bool_decide (Some x ∈ holding) then louder (jd_loudness (judge x)) else jd_loudness (judge x).

(** The comparison of [slices.SortStableFunc]: whether [x] goes strictly before [y]. *)
Definition goes_before (holding : list (option nat)) (x y : nat) : bool :=
  let xy := loud_le (score holding x) (score holding y) in
  let yx := loud_le (score holding y) (score holding x) in
  if xy && yx then bool_decide (Some x ∈ holding) && negb (bool_decide (Some y ∈ holding)) else yx.

Fixpoint stable_insert (before : nat -> nat -> bool) (x : nat) (l : list nat) : list nat :=
  match l with
  | [] => [x]
  | y :: l => if before x y then x :: y :: l else y :: stable_insert before x l
  end.

Definition stable_sort (before : nat -> nat -> bool) (l : list nat) : list nat :=
  foldl (fun acc x => stable_insert before x acc) [] l.

Definition choose (sources : gmap nat source) (candidates : list nat) (sub : subscription)
    (holding : list (option nat)) : list nat :=
  let chosen := pinned sources (sub_pin sub) candidates [] in
  let rest := filter (fun x => x ∉ chosen) candidates in
  chosen ++ stable_sort (goes_before holding) rest.

(** First pass of [place]: the slots that keep their source. *)
Fixpoint keep_placed (slots : list (option nat)) (chosen placed : list nat) : list (option nat) * list nat :=
  match slots with
  | [] => ([], placed)
  | Some x :: slots =>
      if bool_decide (x ∈ chosen) && negb (bool_decide (x ∈ placed))
      then let '(kept, placed) := keep_placed slots chosen (x :: placed) in (Some x :: kept, placed)
      else let '(kept, placed) := keep_placed slots chosen placed in (None :: kept, placed)
  | None :: slots => let '(kept, placed) := keep_placed slots chosen placed in (None :: kept, placed)
  end.

(** Second pass: newcomers into the free slots in order; [None] is the panic of [free[0]]. *)
Fixpoint fill_free (kept : list (option nat)) (newcomers : list nat) : option (list (option nat)) :=
  match kept with
  | [] => match newcomers with [] => Some [] | _ => None end
  | Some x :: kept => rest ← fill_free kept newcomers; Some (Some x :: rest)
  | None :: kept =>
      match newcomers with
      | [] => rest ← fill_free kept []; Some (None :: rest)
      | x :: newcomers => rest ← fill_free kept newcomers; Some (Some x :: rest)
      end
  end.

Definition place (slots : list (option nat)) (chosen : list nat) : option (list (option nat)) :=
  let chosen := take (length slots) chosen in
  let '(kept, placed) := keep_placed slots chosen [] in
  fill_free kept (filter (fun x => x ∉ placed) chosen).

(** Sources and connections in the order of their ids. *)
Definition by_id {A} (m : gmap Z A) : list A := snd <$> merge_sort id_le (map_to_list m).

Definition mayReceive (rm : room) (user : Z) (v : source) : bool :=
  negb (src_user v =? user) && negb (bool_decide (src_user v ∈ default ∅ (rm_excluded rm !! user))).

Definition current (slots : gmap nat slot) (x : nat) : option nat := v ← slots !! x; sl_src v.

(** Whether a source's connection takes part, as the selection saw it. *)
Definition takes_part (conns : gmap nat conn) (c : nat) : bool :=
  match conns !! c with Some k => cn_inRoom k | None => false end.

Definition candidate (s : SFU) (rm : room) (k : conn) (kind : string) (x : nat) : bool :=
  match sf_source s !! x with
  | Some v => takes_part (sf_conn s) (src_conn v) && (cn_inRoom k && (src_kind v =? kind)%string
              && mayReceive rm (cn_user k) v && negb (bool_decide (src_user v ∈ sub_drop (cn_sub k))))
  | None => false
  end.

(** The entry of the slot map a filled slot has. *)
Definition entry_of (s : SFU) (slot : slot) (x : nat) : option SlotEntry :=
  v ← sf_source s !! x; k ← sf_conn s !! src_conn v;
  Some (mkSlotEntry (sl_index slot) (sl_kind slot) (src_id v) (FormatInt (cn_user k)) (FormatInt (cn_id k))).

(** What one kind's slots of a connection come to, the cap having [left] of it. *)
Definition fill_kind (s : SFU) (rm : room) (k : conn) (sources : list nat) (left : Z) (kind : string)
    : option (list (nat * option nat) * Z) :=
  let refs := slotsByKind kind k in
  match refs with
  | [] => Some ([], left)
  | _ =>
      let holding := current (sf_slot s) <$> refs in
      let candidates := filter (fun x => candidate s rm k kind x = true) sources in
      let chosen := choose (sf_source s) candidates (cn_sub k) holding in
      let chosen := if 0 <=? left then take (Nat.min (length chosen) (Z.to_nat left)) chosen else chosen in
      placed ← place holding chosen;
      let filled := Z.of_nat (length (filter (fun o => o <> None) placed)) in
      Some (zip refs placed, if 0 <? left then Z.max 0 (left - filled) else left)
  end.

Definition put_slots (placed : list (nat * option nat)) (slots : gmap nat slot) : gmap nat slot :=
  foldl (fun m kv => alter (slot_assign kv.2) kv.1 m) slots placed.

Definition entries_of (s : SFU) (placed : list (nat * option nat)) : list SlotEntry :=
  omap (fun kv => x ← kv.2; slot ← sf_slot s !! kv.1; entry_of s slot x) placed.

Definition heard_by (rm : room) (user : Z) (speaking : list (Z * string)) : list string :=
  merge_sort text_le
    (snd <$> filter (fun kv => kv.1 ∉ default ∅ (rm_excluded rm !! user)) speaking).

(** One receiver: its slots filled, its slot map and speaking list recorded. *)
Definition fill_conn (rm : room) (sources : list nat) (speaking : list (Z * string)) (c : nat) (s : SFU)
    : option (SFU * list (nat * option nat) * bool) :=
  k ← sf_conn s !! c;
  audio ← fill_kind s rm k sources (sub_cap (cn_sub k)) KindAudio;
  video ← fill_kind s rm k sources audio.2 KindVideo;
  let placed := audio.1 ++ video.1 in
  let '(k, mapped) := setSlotMap (entries_of s placed) k in
  let '(k, spoken) := setSpeaking (heard_by rm (cn_user k) speaking) k in
  Some (mkSFU (sf_closed s) (sf_rooms s) (sf_conns s) (sf_cutoffs s) (sf_closedRooms s) (sf_evictedConns s)
          (sf_room s) (<[c := k]> (sf_conn s)) (sf_source s) (put_slots placed (sf_slot s)) (sf_next s),
        placed, mapped || spoken).

Fixpoint fill_conns (rm : room) (sources : list nat) (speaking : list (Z * string)) (cs : list nat) (s : SFU)
    (fills : list (nat * option nat)) (moved : list nat) : option (SFU * list (nat * option nat) * list nat) :=
  match cs with
  | [] => Some (s, fills, moved)
  | c :: cs =>
      '(s, placed, changed) ← fill_conn rm sources speaking c s;
      fill_conns rm sources speaking cs s (fills ++ placed) (if (changed : bool) then moved ++ [c] else moved)
  end.

(** Who is speaking: each account once, by its last source in the order of the sources. *)
Definition speaking_of (s : SFU) (sources : list nat) : list (Z * string) :=
  map_to_list (foldl (fun (m : gmap Z string) x =>
    match sf_source s !! x with
    | Some v => if jd_speaking (judge x) then <[src_user v := FormatInt (src_user v)]> m else m
    | None => m
    end) ∅ sources).

(** Each source told the slots it fills. *)
Definition tell_source (fills : list (nat * option nat)) (x : nat) (sources : gmap nat source) : gmap nat source :=
  alter (fun v => mkSource (src_conn v) (src_user v) (src_id v) (src_kind v) (src_codec v)
                    (fst <$> filter (fun kv => kv.2 = Some x) fills)) x sources.

Definition tell_sources (fills : list (nat * option nat)) (xs : list nat) (s : SFU) : SFU :=
  mkSFU (sf_closed s) (sf_rooms s) (sf_conns s) (sf_cutoffs s) (sf_closedRooms s) (sf_evictedConns s)
    (sf_room s) (sf_conn s) (foldl (fun m x => tell_source fills x m) (sf_source s) xs) (sf_slot s) (sf_next s).

(** [None] is a panic, which [changed] contains. *)
Definition assignLocked (r : nat) (s : SFU) : option (SFU * list nat) :=
  rm ← sf_room s !! r;
  if rm_gone rm then Some (tell_sources [] (by_id (rm_sources rm)) s, [])
  else
    let sources := filter (fun x => match sf_source s !! x with
                                    | Some v => takes_part (sf_conn s) (src_conn v)
                                    | None => false
                                    end = true) (by_id (rm_sources rm)) in
    '(s, fills, moved) ← fill_conns rm sources (speaking_of s sources) (by_id (rm_conns rm)) s [] [];
    Some (tell_sources fills (by_id (rm_sources rm)) s, moved).
End selection.
