(* ===== verification/VoiceRoom.v ===== *)
(** The voice server as a system of critical sections, and what every reachable state of it is like: its
    tables agree with its rooms, and every bound of limits.go is kept. *)
From S2P Require Import Prelude GoStd Snowflake VoiceSlot Sfu.

(** ** The critical sections, in whatever order their locks are taken *)

Section steps.
Context {LD : Loudness} (lim : Limits).

Inductive VoiceStep :=
| VReserve (now roomID user connID issued : Z)
| VNegotiated (c n : nat)
| VHello (c : nat)
| VSubscribe (c : nat) (pin drop : list Z) (cap : option Z)
| VTrack (c : nat) (kind codec : string)
| VTrackEnd (x : nat)
| VSelect (r : nat) (judge : nat -> Judged)
| VExclude (r : nat) (receiver : Z) (users : list Z)
| VClosing (c : nat) (cause : option VoiceErr)
| VForget (c : nat)
| VEvict (now roomID user cut : Z)
| VEvictConnection (now connID : Z)
| VCloseRoom (now roomID cut : Z)
| VSweep (now : Z)
| VStop.

Definition update_conn (f : conn -> conn) (c : nat) (s : SFU) : SFU :=
  match sf_conn s !! c with Some k => set_conn c (f k) s | None => s end.

(** What a section makes of the server. A contained panic, and a refusal, leave it as it was. *)
Definition voice_do (l : VoiceStep) (s : SFU) : SFU :=
  match l with
  | VReserve now roomID user connID issued => (reserve lim now roomID user connID issued s).2
  | VNegotiated c n => default s (negotiated c n s)
  | VHello c => update_conn with_inRoom c s
  | VSubscribe c pin drop cap =>
      match onSubscribe pin drop cap with Some sub => update_conn (with_sub sub) c s | None => s end
  | VTrack c kind codec => default s (addSource c kind codec s)
  | VTrackEnd x => default s (removeSource x s)
  | VSelect r judge => match assignLocked judge r s with Some (s', _) => s' | None => s end
  | VExclude r receiver users => default s (SetExclusion r receiver users s)
  | VClosing c cause => (closeFor c cause s).2
  | VForget c => match sf_conn s !! c with Some k => if cn_closed k then forget c s else s | None => s end
  | VEvict now roomID user cut => (Evict lim now roomID user cut s).2
  | VEvictConnection now connID => (EvictConnection lim now connID s).2
  | VCloseRoom now roomID cut => (CloseRoom lim now roomID cut s).2
  | VSweep now => sweep now s
  | VStop => (Close s).2
  end.

Definition voice_run (ls : list VoiceStep) (s : SFU) : SFU := foldl (fun s l => voice_do l s) s ls.
End steps.

(** ** What a state says of its connections, sources and slots *)

Definition conn_at (s : SFU) (c : nat) : option (nat * Z * Z) :=
  (fun k => (cn_room k, cn_id k, cn_user k)) <$> sf_conn s !! c.
Definition user_at (s : SFU) (c : nat) : option Z := snd <$> conn_at s c.
Definition slots_at (s : SFU) (c : nat) : option (gmap string (list nat)) := cn_slots <$> sf_conn s !! c.
Definition source_at (s : SFU) (x : nat) : option (nat * Z * Z * string) :=
  (fun v => (src_conn v, src_user v, src_id v, src_kind v)) <$> sf_source s !! x.
Definition kind_at (s : SFU) (x : nat) : option string := sl_kind <$> sf_slot s !! x.

(** How many of a room's connections an account holds. *)
Definition held (s : SFU) (rm : room) (u : Z) : Z :=
  Z.of_nat (size (filter (fun kv => user_at s kv.2 = Some u) (rm_conns rm))).

Section invariant.
Context (lim : Limits).

Record room_ok (s : SFU) (r : nat) (rm : room) : Prop := mkRoomOk {
  ro_conns : forall id c, rm_conns rm !! id = Some c ->
    sf_conns s !! id = Some c /\ exists u, conn_at s c = Some (r, id, u);
  ro_perUser : forall u, count_of (rm_perUser rm) u = held s rm u;
  ro_positive : forall u n, rm_perUser rm !! u = Some n -> 0 < n;
  ro_full : Z.of_nat (size (rm_conns rm)) <= ParticipantsPerRoom lim;
  ro_user : forall u, held s rm u <= ConnsPerUser lim;
  ro_excluded : forall u, is_Some (rm_excluded rm !! u) -> is_Some (rm_perUser rm !! u);
  ro_sources : forall id x, rm_sources rm !! id = Some x -> exists c u kind k,
    source_at s x = Some (c, u, id, kind) /\ conn_at s c = Some (r, k, u) /\ rm_conns rm !! k = Some c
}.

(** The invariant, a room given as [spare] perhaps listed while it is empty. *)
Record sfu_ok (spare : option nat) (s : SFU) : Prop := mkSfuOk {
  ok_rooms : forall id r, sf_rooms s !! id = Some r -> exists rm, sf_room s !! r = Some rm /\ rm_id rm = id /\
    (rm_conns rm <> ∅ \/ spare = Some r);
  ok_listed : forall r rm, sf_room s !! r = Some rm -> rm_gone rm = false -> sf_rooms s !! rm_id rm = Some r;
  ok_room : forall r rm, sf_room s !! r = Some rm -> room_ok s r rm;
  ok_conns : forall id c, sf_conns s !! id = Some c -> exists r u rm,
    conn_at s c = Some (r, id, u) /\ sf_room s !! r = Some rm /\ rm_conns rm !! id = Some c;
  ok_count : Z.of_nat (size (sf_rooms s)) <= Rooms lim;
  ok_home : forall c r id u, conn_at s c = Some (r, id, u) -> is_Some (sf_room s !! r);
  ok_slots : forall c m kind refs, slots_at s c = Some m -> m !! kind = Some refs ->
    NoDup refs /\ forall x, x ∈ refs -> kind_at s x = Some kind;
  ok_apart : forall c c' m m' kind kind' refs refs' x, slots_at s c = Some m -> slots_at s c' = Some m' ->
    m !! kind = Some refs -> m' !! kind' = Some refs' -> x ∈ refs -> x ∈ refs' -> c = c' /\ kind = kind';
  ok_fresh : forall n, (sf_next s <= n)%nat ->
    sf_room s !! n = None /\ sf_conn s !! n = None /\ sf_source s !! n = None /\ sf_slot s !! n = None
}.

(** Nothing the invariant speaks of has changed. *)
Record alike (s s' : SFU) : Prop := mkAlike {
  al_rooms : sf_rooms s' = sf_rooms s; al_conns : sf_conns s' = sf_conns s; al_room : sf_room s' = sf_room s;
  al_next : sf_next s' = sf_next s; al_conn : forall c, conn_at s' c = conn_at s c;
  al_slots : forall c, slots_at s' c = slots_at s c; al_source : forall x, source_at s' x = source_at s x;
  al_kind : forall x, kind_at s' x = kind_at s x
}.

Lemma held_alike s s' rm u : (forall c, conn_at s' c = conn_at s c) -> held s' rm u = held s rm u.
Proof.
  intros H. unfold held. do 2 f_equal. apply map_filter_ext. intros i c _. simpl. unfold user_at. by rewrite H.
Qed.

Lemma held_empty s rm u : rm_conns rm = ∅ -> held s rm u = 0.
Proof. intros H. unfold held. rewrite H, map_filter_empty, map_size_empty. done. Qed.

Lemma fmap_None_lookup {A B} (f : A -> B) (o : option A) : f <$> o = None <-> o = None.
Proof. by destruct o. Qed.

Lemma sfu_ok_alike spare s s' : alike s s' -> sfu_ok spare s -> sfu_ok spare s'.
Proof.
  intros [Hr Hc Hm Hn Hk Hs Hx Ht] [K1 K2 K3 K4 K5 K6 K7 K8 K9]. split.
  - rewrite Hr, Hm. exact K1.
  - rewrite Hr, Hm. exact K2.
  - rewrite Hm. intros r rm [P1 P2 P3 P4 P5 P6 P7]%K3. split; try done.
    + intros id c. rewrite Hc, Hk. apply P1.
    + intros u. by rewrite (held_alike s).
    + intros u. by rewrite (held_alike s).
    + intros id x (c & u & kind & k & ?)%P7. exists c, u, kind, k. by rewrite Hx, Hk.
  - intros id c. rewrite Hc. intros (r & u & rm & ?)%K4. exists r, u, rm. by rewrite Hk, Hm.
  - by rewrite Hr.
  - intros c r id u. rewrite Hk, Hm. apply K6.
  - intros c m kind refs. rewrite Hs. intros. edestruct K7; [done..|]. split; [done|]. intros. rewrite Ht. auto.
  - intros c c' m m' kind kind' refs refs' x. rewrite !Hs. apply K8.
  - intros n. rewrite Hn, Hm. intros (? & H1 & H2 & H3)%K9. split_and!; [done| | |].
    + apply (fmap_None_lookup (fun k => (cn_room k, cn_id k, cn_user k))). fold (conn_at s' n). rewrite Hk.
      unfold conn_at. by rewrite H1.
    + apply (fmap_None_lookup (fun v => (src_conn v, src_user v, src_id v, src_kind v))). fold (source_at s' n).
      rewrite Hx. unfold source_at. by rewrite H2.
    + apply (fmap_None_lookup sl_kind). fold (kind_at s' n). rewrite Ht. unfold kind_at. by rewrite H3.
Qed.

(** A connection changed in what the invariant does not speak of. *)
Lemma alike_set_conn s c k k' :
  sf_conn s !! c = Some k -> cn_room k' = cn_room k -> cn_id k' = cn_id k -> cn_user k' = cn_user k ->
  cn_slots k' = cn_slots k -> alike s (set_conn c k' s).
Proof.
  intros Hc H1 H2 H3 H4. split; try done; intros c'; unfold conn_at, slots_at; simpl;
    (destruct (decide (c = c')) as [->|]; [rewrite lookup_insert_eq, Hc; simpl; congruence|by rewrite lookup_insert_ne]).
Qed.

Lemma alike_update_conn (f : conn -> conn) s c :
  (forall k, cn_room (f k) = cn_room k /\ cn_id (f k) = cn_id k /\ cn_user (f k) = cn_user k /\
             cn_slots (f k) = cn_slots k) -> alike s (update_conn f c s).
Proof.
  intros Hf. unfold update_conn. destruct (sf_conn s !! c) as [k|] eqn:E; [|by split].
  destruct (Hf k) as (? & ? & ? & ?). by eapply alike_set_conn.
Qed.

Lemma alike_closeFor s c cause : alike s (closeFor c cause s).2.
Proof.
  unfold closeFor. destruct (sf_conn s !! c) as [k|] eqn:E; [|by split].
  destruct (cn_closed k); [by split|]. by eapply alike_set_conn.
Qed.

Lemma ok_weaken r s : sfu_ok None s -> sfu_ok (Some r) s.
Proof. intros [K1 ????????]. split; try done. intros id x (rm & ? & ? & [?|[=]])%K1. eauto 6. Qed.

Lemma ok_settle r rm s : sf_room s !! r = Some rm -> rm_conns rm <> ∅ -> sfu_ok (Some r) s -> sfu_ok None s.
Proof.
  intros Hr Hne [K1 ????????]. split; try done. intros id x (rm' & ? & ? & [?|[= ->]])%K1; [eauto 6|].
  simplify_eq. eauto 6.
Qed.

(** What a room is held to does not depend on the other cells of the heaps. *)
Lemma room_ok_mono s s' r rm :
  sf_conns s' = sf_conns s -> (forall c p, conn_at s c = Some p -> conn_at s' c = Some p) ->
  (forall x p, source_at s x = Some p -> source_at s' x = Some p) -> room_ok s r rm -> room_ok s' r rm.
Proof.
  intros Hc Hk Hx [P1 P2 P3 P4 P5 P6 P7].
  assert (forall u, held s' rm u = held s rm u) as Hh.
  { intros u. unfold held. do 2 f_equal. apply map_filter_ext. intros id c Hi. simpl. unfold user_at.
    destruct (P1 _ _ Hi) as (_ & v & Hv). by rewrite Hv, (Hk _ _ Hv). }
  split; try done.
  - intros id c Hi. rewrite Hc. destruct (P1 _ _ Hi) as (? & u & ?). eauto.
  - intros u. by rewrite Hh.
  - intros u. by rewrite Hh.
  - intros id x (c & u & kind & k & ? & ? & ?)%P7. eauto 10.
Qed.

(** A room changed in place, its connections as they were. *)
Lemma ok_set_room spare s r rm rm' :
  sfu_ok spare s -> sf_room s !! r = Some rm -> rm_id rm' = rm_id rm -> rm_conns rm' = rm_conns rm ->
  (rm_gone rm' = false -> rm_gone rm = false) -> room_ok s r rm' -> sfu_ok spare (set_room r rm' s).
Proof.
  intros [K1 K2 K3 K4 K5 K6 K7 K8 K9] Hr Hid Hc Hg Hok. split; try done; simpl.
  - intros id x (rm0 & H1 & H2 & H3)%K1. destruct (decide (r = x)) as [<-|].
    + rewrite lookup_insert_eq. simplify_eq. exists rm'. rewrite Hid, Hc. eauto.
    + rewrite lookup_insert_ne by done. eauto.
  - intros x rm0. destruct (decide (r = x)) as [<-|].
    + rewrite lookup_insert_eq. intros [= <-] ?. rewrite Hid. apply (K2 _ rm); auto.
    + rewrite lookup_insert_ne by done. apply K2.
  - intros x rm0. destruct (decide (r = x)) as [<-|].
    + rewrite lookup_insert_eq. intros [= <-]. by apply (room_ok_mono s).
    + rewrite lookup_insert_ne by done. intros ?. by apply (room_ok_mono s); [..|by apply K3].
  - intros id c (x & u & rm0 & H1 & H2 & H3)%K4. exists x, u. destruct (decide (r = x)) as [<-|].
    + rewrite lookup_insert_eq. simplify_eq. exists rm'. by rewrite Hc.
    + rewrite lookup_insert_ne by done. eauto.
  - intros c x id u Hx. rewrite lookup_insert_is_Some'. right. by eapply K6.
  - intros n Hn. destruct (K9 n Hn) as (? & ?). rewrite lookup_insert_ne; [done|congruence].
Qed.

(** A new cell at the next pointer. *)
Lemma ok_new_conn spare s k :
  sfu_ok spare s -> cn_slots k = ∅ -> is_Some (sf_room s !! cn_room k) ->
  sfu_ok spare (bump (set_conn (sf_next s) k s)).
Proof.
  intros [K1 K2 K3 K4 K5 K6 K7 K8 K9] Hsl Hr. set (s' := bump _).
  destruct (K9 (sf_next s)) as (_ & Hfresh & _); [lia|].
  assert (forall c p, conn_at s c = Some p -> conn_at s' c = Some p) as Hmono.
  { intros c p. unfold conn_at, s'. simpl. destruct (decide (sf_next s = c)) as [<-|].
    - by rewrite Hfresh.
    - by rewrite lookup_insert_ne. }
  assert (forall c m, slots_at s' c = Some m -> slots_at s c = Some m \/ m = ∅) as Hslots.
  { intros c m. unfold slots_at, s'. simpl. destruct (decide (sf_next s = c)) as [<-|].
    - rewrite lookup_insert_eq. intros [= <-]. by right.
    - rewrite lookup_insert_ne by done. by left. }
  split; try done; simpl.
  - intros r rm ?. eapply room_ok_mono; [..|by apply K3]; done.
  - intros id c (r & u & rm & ? & ? & ?)%K4. eauto 10.
  - intros c r id u. unfold conn_at, s'. simpl. destruct (decide (sf_next s = c)) as [<-|].
    + rewrite lookup_insert_eq. by intros [= <- _ _].
    + rewrite lookup_insert_ne by done. apply K6.
  - intros c m kind refs [H| ->]%Hslots; [by eapply K7|by rewrite lookup_empty].
  - intros c c' m m' kind kind' refs refs' x [H| ->]%Hslots [H'| ->]%Hslots; rewrite ?lookup_empty; try done.
    by eapply K8.
  - intros n Hn. destruct (K9 n) as (? & ? & ?); [lia|]. rewrite lookup_insert_ne by lia. done.
Qed.

Lemma ok_new_source spare s v : sfu_ok spare s -> sfu_ok spare (bump (set_source (sf_next s) v s)).
Proof.
  intros [K1 K2 K3 K4 K5 K6 K7 K8 K9]. set (s' := bump _).
  destruct (K9 (sf_next s)) as (_ & _ & Hfresh & _); [lia|].
  split; try done; simpl.
  - intros r rm ?. eapply room_ok_mono; [..|by apply K3]; try done.
    intros x p. unfold source_at, s'. simpl. destruct (decide (sf_next s = x)) as [<-|].
    + by rewrite Hfresh.
    + by rewrite lookup_insert_ne.
  - intros n Hn. destruct (K9 n) as (? & ? & ? & ?); [lia|]. rewrite lookup_insert_ne by lia. done.
Qed.

Lemma ok_new_room s roomID :
  sfu_ok None s -> sf_rooms s !! roomID = None -> Z.of_nat (size (sf_rooms s)) < Rooms lim ->
  0 <= ParticipantsPerRoom lim -> 0 <= ConnsPerUser lim ->
  sfu_ok (Some (sf_next s))
    (bump (set_room (sf_next s) (newRoom roomID) (set_tables (<[roomID := sf_next s]> (sf_rooms s)) (sf_conns s) s))).
Proof.
  intros [K1 K2 K3 K4 K5 K6 K7 K8 K9] Hno Hroom Hl1 Hl2. set (s' := bump _).
  destruct (K9 (sf_next s)) as (Hfresh & _); [lia|].
  split; try done; simpl.
  - intros id r. destruct (decide (roomID = id)) as [<-|].
    + rewrite lookup_insert_eq. intros [= <-]. rewrite lookup_insert_eq. eauto.
    + rewrite lookup_insert_ne by done. intros (rm & ? & ? & [?|[=]])%K1. rewrite lookup_insert_ne by congruence. eauto.
  - intros r rm. destruct (decide (sf_next s = r)) as [<-|].
    + rewrite lookup_insert_eq. intros [= <-] _. apply lookup_insert_eq.
    + rewrite lookup_insert_ne by done. intros Hr Hg. rewrite lookup_insert_ne; [by apply K2|].
      intros ->. rewrite (K2 _ _ Hr Hg) in Hno. done.
  - intros r rm. destruct (decide (sf_next s = r)) as [<-|].
    + rewrite lookup_insert_eq. intros [= <-]. split; try done; intros; rewrite ?held_empty by done; simpl in *;
        rewrite ?map_size_empty; first [done|lia|simplify_map_eq; by eauto using is_Some_None].
    + rewrite lookup_insert_ne by done. intros ?. by apply (room_ok_mono s); [..|by apply K3].
  - intros id c (r & u & rm & ? & ? & ?)%K4. exists r, u, rm. rewrite lookup_insert_ne by congruence. done.
  - rewrite map_size_insert_None by done. lia.
  - intros c r id u H. rewrite lookup_insert_is_Some'. right. by eapply K6.
  - intros n Hn. destruct (K9 n) as (? & ?); [lia|]. rewrite lookup_insert_ne by lia. done.
Qed.

Lemma ok_drop_room r s : sfu_ok (Some r) s -> sfu_ok None (dropRoomLocked r s).
Proof.
  intros Hok. unfold dropRoomLocked. destruct (sf_room s !! r) as [rm|] eqn:Hr.
  2: { destruct Hok as [K1 ????????]. split; try done. intros id x (rm & ? & ? & [?|[= ->]])%K1; [eauto 6|congruence]. }
  destruct Hok as [K1 K2 K3 K4 K5 K6 K7 K8 K9].
  set (s1 := if bool_decide _ then _ else s).
  assert (sf_room s1 = sf_room s /\ sf_conns s1 = sf_conns s /\ sf_conn s1 = sf_conn s /\ sf_source s1 = sf_source s /\
          sf_slot s1 = sf_slot s /\ sf_next s1 = sf_next s) as (E1 & E2 & E3 & E4 & E5 & E6).
  { unfold s1. by case_bool_decide. }
  assert (forall id x, sf_rooms s1 !! id = Some x <-> sf_rooms s !! id = Some x /\ x <> r) as E7.
  { intros id x. unfold s1. case_bool_decide as Hb; simpl.
    - rewrite lookup_delete_Some. split.
      + intros [Hne H]. split; [done|]. intros ->. destruct (K1 _ _ H) as (rm0 & ? & ? & _). simplify_eq.
      + intros [H Hne]. split; [|done]. intros <-. congruence.
    - split; [|tauto]. intros H. split; [done|]. intros ->. destruct (K1 _ _ H) as (rm0 & ? & <- & _). simplify_eq. }
  assert (Z.of_nat (size (sf_rooms s1)) <= Rooms lim) as E8.
  { unfold s1. case_bool_decide; simpl; [|done]. rewrite map_size_delete_Some by eauto. lia. }
  split; unfold conn_at, slots_at, source_at, kind_at; simpl; rewrite ?E1, ?E2, ?E3, ?E4, ?E5, ?E6; try done.
  - intros id x [(rm0 & ? & ? & [?|[= <-]])%K1 ?]%E7; [|done]. rewrite lookup_insert_ne by done. eauto.
  - intros x rm0. destruct (decide (r = x)) as [<-|].
    + rewrite lookup_insert_eq. intros [= <-]. done.
    + rewrite lookup_insert_ne by done. intros ??. apply E7. split; [by apply K2|done].
  - intros x rm0 H. assert (exists rm1, sf_room s !! x = Some rm1 /\ (rm0 = rm1 \/ rm0 = room_shut rm1)) as (rm1 & H1 & H2).
    { destruct (decide (r = x)) as [<-|]; [rewrite lookup_insert_eq in H; simplify_eq; eauto|].
      rewrite lookup_insert_ne in H by done. eauto. }
    apply (room_ok_mono s); try done; unfold conn_at, source_at; simpl; rewrite ?E3, ?E4; try done.
    specialize (K3 _ _ H1). destruct H2 as [->| ->]; [done|]. by destruct K3.
  - intros id c (x & u & rm0 & H1 & H2 & H3)%K4. exists x, u. destruct (decide (r = x)) as [<-|].
    + rewrite lookup_insert_eq. simplify_eq. by exists (room_shut rm).
    + rewrite lookup_insert_ne by done. eauto.
  - intros c x id u Hx. rewrite lookup_insert_is_Some'. right. by eapply K6.
  - intros n Hn. destruct (K9 n Hn) as (? & ?). rewrite lookup_insert_ne; [done|congruence].
Qed.

(** A connection just made takes the place held for it. *)
Lemma ok_join spare s r rm c id u :
  sfu_ok spare s -> (spare = None \/ spare = Some r) -> sf_room s !! r = Some rm -> conn_at s c = Some (r, id, u) ->
  sf_conns s !! id = None -> room_admit lim u rm = true ->
  sfu_ok None (set_tables (sf_rooms s) (<[id := c]> (sf_conns s)) (set_room r (room_add c id u rm) s)).
Proof.
  intros [K1 K2 K3 K4 K5 K6 K7 K8 K9] Hsp Hr Hc Hno Hadm. unfold room_admit in Hadm. bool_hyps.
  pose proof (K3 _ _ Hr) as [P1 P2 P3 P4 P5 P6 P7].
  assert (rm_conns rm !! id = None) as Hnew.
  { destruct (rm_conns rm !! id) eqn:E; [|done]. apply P1 in E as [E _]. congruence. }
  set (s' := set_tables _ _ _).
  assert (forall v, held s' (room_add c id u rm) v = held s rm v + (if decide (u = v) then 1 else 0)) as Hheld.
  { intros v. unfold held, room_add. simpl. unfold user_at. change (conn_at s') with (conn_at s). case_decide as E.
    - subst. rewrite map_filter_insert_True by (simpl; by rewrite Hc).
      rewrite map_size_insert_None by (rewrite map_lookup_filter_None; by left). lia.
    - rewrite map_filter_insert_False by (simpl; rewrite Hc; simpl; congruence).
      rewrite delete_id by done. lia. }
  split; try done; simpl.
  - intros i x (rm0 & ? & ? & Hne)%K1. destruct (decide (r = x)) as [<-|].
    + rewrite lookup_insert_eq. simplify_eq. eexists. split; [done|]. split; [done|]. left. apply insert_non_empty.
    + rewrite lookup_insert_ne by done. exists rm0. split_and!; try done. destruct Hne; naive_solver.
  - intros x rm0. destruct (decide (r = x)) as [<-|].
    + rewrite lookup_insert_eq. intros [= <-] Hg. exact (K2 _ rm Hr Hg).
    + rewrite lookup_insert_ne by done. apply K2.
  - intros x rm0. destruct (decide (r = x)) as [<-|].
    + rewrite lookup_insert_eq. intros [= <-]. split; unfold room_add; simpl.
      * intros i y. destruct (decide (id = i)) as [<-|].
        -- rewrite !lookup_insert_eq. intros [= <-]. eauto.
        -- rewrite !lookup_insert_ne by done. apply P1.
      * intros v. change (mkRoom _ _ _ _ _ _ _) with (room_add c id u rm). rewrite Hheld.
        unfold count_of. case_decide as E.
        -- subst. rewrite lookup_insert_eq. simpl. by rewrite <- P2.
        -- rewrite lookup_insert_ne by done. unfold count_of in P2. rewrite <- P2. lia.
      * intros v n. destruct (decide (u = v)) as [<-|].
        -- rewrite lookup_insert_eq. intros [= <-]. rewrite P2. unfold held. lia.
        -- rewrite lookup_insert_ne by done. apply P3.
      * rewrite map_size_insert_None by done. lia.
      * intros v. change (mkRoom _ _ _ _ _ _ _) with (room_add c id u rm). rewrite Hheld. case_decide as E.
        -- subst. rewrite <- P2. lia.
        -- specialize (P5 v). lia.
      * intros v Hv. rewrite lookup_insert_is_Some'. right. by apply P6.
      * intros i y (c0 & u0 & kind & k & ? & ? & ?)%P7. exists c0, u0, kind, k. split_and!; try done.
        rewrite lookup_insert_ne; [done|congruence].
    + rewrite lookup_insert_ne by done. intros Hx. pose proof (K3 _ _ Hx) as [Q1 Q2 Q3 Q4 Q5 Q6 Q7]. split; try done.
      intros i y Hi. simpl. destruct (Q1 _ _ Hi) as (? & ? & ?). rewrite lookup_insert_ne by congruence. eauto.
  - intros i y. destruct (decide (id = i)) as [<-|].
    + rewrite lookup_insert_eq. intros [= <-]. exists r, u, (room_add c id u rm).
      rewrite lookup_insert_eq. split_and!; try done. simpl. by rewrite lookup_insert_eq.
    + rewrite lookup_insert_ne by done. intros (x & v & rm0 & H1 & H2 & H3)%K4. exists x, v.
      destruct (decide (r = x)) as [<-|].
      * rewrite lookup_insert_eq. simplify_eq. eexists. split_and!; [done..|]. simpl. by rewrite lookup_insert_ne.
      * rewrite lookup_insert_ne by done. eauto.
  - intros y x i v Hx. rewrite lookup_insert_is_Some'. right. by eapply K6.
  - intros n Hn. destruct (K9 n Hn) as (? & ?). rewrite lookup_insert_ne; [done|congruence].
Qed.

Lemma room_remove_spec sources c id u rm :
  rm_conns rm !! id = Some c ->
  rm_conns (room_remove sources c id u rm) = delete id (rm_conns rm) /\
  rm_id (room_remove sources c id u rm) = rm_id rm /\ rm_gone (room_remove sources c id u rm) = rm_gone rm.
Proof. intros H. unfold room_remove. rewrite bool_decide_true by done. done. Qed.

(** A room once a connection of it has left. *)
Lemma room_ok_leave s s' r rm c id u :
  room_ok s r rm -> conn_at s c = Some (r, id, u) -> rm_conns rm !! id = Some c ->
  (forall y, conn_at s' y = conn_at s y) -> (forall x, source_at s' x = source_at s x) ->
  sf_conns s' = delete id (sf_conns s) -> room_ok s' r (room_remove (sf_source s) c id u rm).
Proof.
  intros [P1 P2 P3 P4 P5 P6 P7] Hc Hin Hk Hx Ht. set (rm' := room_remove _ _ _ _ _).
  destruct (room_remove_spec (sf_source s) c id u rm Hin) as (Hcs & _ & _). fold rm' in Hcs.
  assert (forall v, held s' rm' v = held s rm v - (if decide (u = v) then 1 else 0)) as Hheld.
  { intros v. rewrite (held_alike s) by done. unfold held. rewrite Hcs, map_filter_delete. unfold user_at. case_decide as E.
    - subst. rewrite map_size_delete_Some by (exists c; apply map_lookup_filter_Some; split; [done|simpl; by rewrite Hc]).
      assert (0 < size (filter (fun kv => snd <$> conn_at s kv.2 = Some v) (rm_conns rm)))%nat; [|lia].
      apply Nat.neq_0_lt_0. intros E%map_size_empty_iff.
      assert (filter (fun kv => snd <$> conn_at s kv.2 = Some v) (rm_conns rm) !! id = Some c) as E'
        by (apply map_lookup_filter_Some; split; [done|simpl; by rewrite Hc]).
      rewrite E in E'. done.
    - rewrite delete_id; [lia|]. apply map_lookup_filter_None. right. intros y Hy. simplify_eq. simpl. rewrite Hc.
      simpl. congruence. }
  assert (forall v, count_of (rm_perUser rm') v = held s rm v - (if decide (u = v) then 1 else 0)) as Hper.
  { intros v. unfold rm', room_remove. rewrite bool_decide_true by done. simpl. rewrite <- !P2. unfold count_of.
    case_decide as E; [subst|].
    - destruct (Z.leb_spec (default 0 (rm_perUser rm !! v) - 1) 0).
      + rewrite lookup_delete_eq. simpl. specialize (Hheld v). rewrite decide_True in Hheld by done.
        unfold count_of in P2. rewrite P2 in *. unfold held in *. lia.
      + by rewrite lookup_insert_eq.
    - destruct (_ <=? 0); rewrite ?lookup_delete_ne, ?lookup_insert_ne by done; lia. }
  split.
  - intros i y. rewrite Hcs, Ht, !lookup_delete_Some, Hk. intros [? H]. destruct (P1 _ _ H) as (? & ?). done.
  - intros v. by rewrite Hper, Hheld.
  - intros v n. unfold rm', room_remove. rewrite bool_decide_true by done. simpl.
    destruct (Z.leb_spec (count_of (rm_perUser rm) u - 1) 0).
    + intros [_ H']%lookup_delete_Some. by eapply P3.
    + destruct (decide (u = v)) as [<-|]; [rewrite lookup_insert_eq; intros [= <-]; lia|].
      rewrite lookup_insert_ne by done. apply P3.
  - rewrite Hcs, map_size_delete_Some by eauto. lia.
  - intros v. rewrite Hheld. specialize (P5 v). case_decide; lia.
  - intros v. unfold rm', room_remove. rewrite bool_decide_true by done. simpl. destruct (_ <=? 0).
    + intros [y [? H]%lookup_delete_Some]. rewrite lookup_delete_ne by done. apply P6. by exists y.
    + intros ?. rewrite lookup_insert_is_Some'. right. by apply P6.
  - intros i x. unfold rm' at 1, room_remove. rewrite bool_decide_true by done. simpl.
    intros [H Hs]%map_lookup_filter_Some. destruct (P7 _ _ H) as (c0 & u0 & kind & k & H1 & H2 & H3).
    exists c0, u0, kind, k. rewrite Hx, Hk, Hcs. split_and!; [done..|]. apply lookup_delete_Some. split; [|done].
    intros <-. simpl in Hs. unfold sent_by in Hs. unfold source_at in H1.
    destruct (sf_source s !! x); simplify_eq/=. apply Nat.eqb_neq in Hs. congruence.
Qed.

Lemma ok_leave s r rm c id u :
  sfu_ok None s -> conn_at s c = Some (r, id, u) -> sf_room s !! r = Some rm ->
  sfu_ok (Some r)
    (set_room r (room_remove (sf_source s) c id u rm)
       (if bool_decide (sf_conns s !! id = Some c) then set_tables (sf_rooms s) (delete id (sf_conns s)) s else s)).
Proof.
  intros Hok Hc Hr. pose proof Hok as [K1 K2 K3 K4 K5 K6 K7 K8 K9]. pose proof (K3 _ _ Hr) as Hrm.
  destruct (decide (rm_conns rm !! id = Some c)) as [Hin|Hout].
  2: { rewrite bool_decide_false.
       2: { intros (x & v & rm0 & ? & ? & ?)%K4. rewrite Hc in H. simplify_eq. }
       unfold room_remove. rewrite bool_decide_false by done. simpl. apply ok_weaken. by apply (ok_set_room _ _ _ rm). }
  rewrite bool_decide_true by by apply (ro_conns _ _ _ Hrm).
  set (rm' := room_remove _ _ _ _ _).
  destruct (room_remove_spec (sf_source s) c id u rm Hin) as (Hcs & Hid & Hg). fold rm' in Hcs, Hid, Hg.
  split; try done; simpl.
  - intros i x (rm0 & ? & ? & [Hne|[=]])%K1. destruct (decide (r = x)) as [<-|].
    + rewrite lookup_insert_eq. simplify_eq. exists rm'. auto.
    + rewrite lookup_insert_ne by done. eauto.
  - intros x rm0. destruct (decide (r = x)) as [<-|].
    + rewrite lookup_insert_eq. intros [= <-]. rewrite Hid, Hg. by apply K2.
    + rewrite lookup_insert_ne by done. apply K2.
  - intros x rm0. destruct (decide (r = x)) as [<-|].
    + rewrite lookup_insert_eq. intros [= <-]. by apply room_ok_leave.
    + rewrite lookup_insert_ne by done. intros Hx. pose proof (K3 _ _ Hx) as [Q1 Q2 Q3 Q4 Q5 Q6 Q7]. split; try done.
      intros i y Hi. simpl. destruct (Q1 _ _ Hi) as (? & v & Hv). split; [|by exists v].
      apply lookup_delete_Some. split; [|done]. intros <-. destruct (ro_conns _ _ _ Hrm _ _ Hin) as (? & ?). 
      assert (y = c) as -> by congruence. change (conn_at _ c) with (conn_at s c) in Hv. congruence.
  - intros i y [Hne (x & v & rm0 & H1 & H2 & H3)%K4]%lookup_delete_Some. exists x, v.
    destruct (decide (r = x)) as [<-|].
    + rewrite lookup_insert_eq. simplify_eq. exists rm'. rewrite Hcs, lookup_delete_ne by done. done.
    + rewrite lookup_insert_ne by done. eauto.
  - intros y x i v Hx. rewrite lookup_insert_is_Some'. right. by eapply K6.
  - intros n Hn. destruct (K9 n Hn) as (? & ?). rewrite lookup_insert_ne; [done|congruence].
Qed.

Lemma alike_refl s : alike s s.
Proof. by split. Qed.

Lemma alike_trans s1 s2 s3 : alike s1 s2 -> alike s2 s3 -> alike s1 s3.
Proof. intros [] []. split; intros; etrans; eauto. Qed.

Lemma fst_imap {A B} (f : nat -> A -> B) (l : list A) : fst <$> imap (fun i x => (x, f i x)) l = l.
Proof. revert f. induction l as [|x l IH]; intros f; simpl; [done|]. f_equal. apply (IH (fun i => f (S i))). Qed.

(** The slots a connection is given are new ones. *)
Lemma ok_negotiated spare s c n s' : sfu_ok spare s -> negotiated c n s = Some s' -> sfu_ok spare s'.
Proof.
  intros [K1 K2 K3 K4 K5 K6 K7 K8 K9] E. unfold negotiated in E.
  destruct (sf_conn s !! c) as [k|] eqn:Hk; [|done]. simpl in E. case_bool_decide as Hsl; [|done].
  injection E as <-. set (refs := seq (sf_next s) n). set (s' := set_conn _ _ _).
  assert (NoDup refs) as Hnd by apply NoDup_seq.
  assert (forall c', conn_at s' c' = conn_at s c') as Hc.
  { intros c'. unfold conn_at. simpl. destruct (decide (c = c')) as [<-|];
      [by rewrite lookup_insert_eq, Hk|by rewrite lookup_insert_ne]. }
  assert (forall x, kind_at s' x = if decide (x ∈ refs) then Some KindAudio else kind_at s x) as Hkind.
  { intros x. unfold kind_at. simpl. case_decide as Hx.
    - assert (exists i, (list_to_map (imap (fun i x => (x, new_slot (Z.of_nat i) KindAudio)) refs) : gmap nat slot) !! x
                = Some (new_slot (Z.of_nat i) KindAudio)) as [i Hi].
      { apply list_elem_of_lookup_1 in Hx as [i Hi]. exists i. apply elem_of_list_to_map_1.
        - by rewrite fst_imap.
        - apply list_elem_of_lookup_2 with i. by rewrite list_lookup_imap, Hi. }
      by rewrite (lookup_union_Some_l _ _ _ _ Hi).
    - rewrite lookup_union_r; [done|]. apply not_elem_of_list_to_map_1. by rewrite fst_imap. }
  assert (forall x, x ∈ refs -> sf_slot s !! x = None) as Hnew.
  { intros x Hx%elem_of_seq. apply (K9 x). lia. }
  assert (forall c' m, slots_at s' c' = Some m ->
            (slots_at s c' = Some m /\ c' <> c) \/ (c' = c /\ m = {[KindAudio := refs]})) as Hslots.
  { intros c' m. unfold slots_at. simpl. destruct (decide (c = c')) as [<-|].
    - rewrite lookup_insert_eq. intros [= <-]. by right.
    - rewrite lookup_insert_ne by done. left. done. }
  assert (forall c' m kind l x, slots_at s c' = Some m -> m !! kind = Some l -> x ∈ l -> x ∉ refs) as Hold.
  { intros c' m kind l x H1 H2 H3 H4. destruct (K7 _ _ _ _ H1 H2) as [_ H]. specialize (H x H3).
    unfold kind_at in H. by rewrite (Hnew x H4) in H. }
  split; try done.
  - intros r rm Hr. apply (room_ok_mono s); try done; [|by apply K3]. intros c' p. by rewrite Hc.
  - intros id c' (r & u & rm & ?)%K4. exists r, u, rm. by rewrite Hc.
  - intros c' r id u. rewrite Hc. apply K6.
  - intros c' m kind l [[H _]|[-> ->]]%Hslots Hl.
    + destruct (K7 _ _ _ _ H Hl) as [? Hx]. split; [done|]. intros x Hin. rewrite Hkind, decide_False; [by apply Hx|].
      by eapply Hold.
    + apply lookup_singleton_Some in Hl as [<- <-]. split; [done|]. intros x ?. by rewrite Hkind, decide_True.
  - intros c1 c2 m1 m2 k1 k2 l1 l2 x [[H1 N1]|[-> ->]]%Hslots [[H2 N2]|[-> ->]]%Hslots L1 L2 X1 X2;
      try apply lookup_singleton_Some in L1 as [<- <-]; try apply lookup_singleton_Some in L2 as [<- <-].
    + by eapply K8.
    + by destruct (Hold _ _ _ _ _ H1 L1 X1).
    + by destruct (Hold _ _ _ _ _ H2 L2 X2).
    + done.
  - intros y Hy. simpl in *. destruct (K9 y) as (? & ? & ? & ?); [lia|]. rewrite lookup_insert_ne by congruence.
    split_and!; try done. apply lookup_union_None. split; [|done]. apply not_elem_of_list_to_map_1.
    rewrite fst_imap. intros Hin%elem_of_seq. lia.
Qed.

(** Who fills a slot does not change what it is. *)
Lemma slot_assign_kind src v : sl_kind (slot_assign src v) = sl_kind v /\ sl_index (slot_assign src v) = sl_index v.
Proof. unfold slot_assign. by case_bool_decide. Qed.

Lemma kind_put_slots placed m x : sl_kind <$> (put_slots placed m !! x) = sl_kind <$> (m !! x).
Proof.
  unfold put_slots. revert m. induction placed as [|[y o] placed IH]; intros m; simpl; [done|]. rewrite IH.
  destruct (decide (y = x)) as [<-|]; [|by rewrite lookup_alter_ne].
  rewrite lookup_alter_eq. destruct (m !! y); simpl; [|done]. f_equal. apply slot_assign_kind.
Qed.

Section selecting.
Context {LD : Loudness} (judge : nat -> Judged).

Lemma setSlotMap_keeps m k :
  let k' := (setSlotMap m k).1 in
  cn_room k' = cn_room k /\ cn_id k' = cn_id k /\ cn_user k' = cn_user k /\ cn_slots k' = cn_slots k /\
  cn_closed k' = cn_closed k /\ cn_inRoom k' = cn_inRoom k /\ cn_sub k' = cn_sub k /\ cn_issued k' = cn_issued k.
Proof. unfold setSlotMap. by case_bool_decide. Qed.

Lemma setSpeaking_keeps users k :
  let k' := (setSpeaking users k).1 in
  cn_room k' = cn_room k /\ cn_id k' = cn_id k /\ cn_user k' = cn_user k /\ cn_slots k' = cn_slots k /\
  cn_closed k' = cn_closed k /\ cn_inRoom k' = cn_inRoom k /\ cn_sub k' = cn_sub k /\ cn_issued k' = cn_issued k.
Proof. unfold setSpeaking. by case_bool_decide. Qed.
End selecting.
End invariant.
