(* ===== verification/VoiceSelect.v ===== *)
(** A room's selection (backend/internal/voice/room.go: [choose], [place], [assignLocked]). A choice is a
    permutation of the candidates and placing it never panics. The selection as a whole forwards to a receiver
    only what it may be sent, moves no source that keeps its slot, and changes nothing when it is made again
    over its own result. *)
From S2P Require Import Prelude GoStd Snowflake VoiceSlot Sfu VoiceRoom.

(** ** Choosing and placing *)

(** What the order on loudness has to be: total, and a holder's [incumbency] never makes it quieter. The
    loudness is a sum of shares that are not negative, and [incumbency] is 1.25. *)
Class LoudnessLaws (LD : Loudness) := {
  loud_total : forall x y, loud_le x y = true \/ loud_le y x = true;
  loud_trans : forall x y z, loud_le x y = true -> loud_le y z = true -> loud_le x z = true;
  louder_le : forall x, loud_le x (louder x) = true
}.

Lemma list_filter_every {A} (P : A -> Prop) `{forall x, Decision (P x)} (l : list A) :
  (forall x, x ∈ l -> P x) -> filter P l = l.
Proof.
  induction l as [|x l IH]; intros HP; [done|]. rewrite filter_cons_True by (apply HP; set_solver).
  f_equal. apply IH. set_solver.
Qed.

Lemma list_filter_no {A} (P : A -> Prop) `{forall x, Decision (P x)} (l : list A) :
  (forall x, x ∈ l -> ~ P x) -> filter P l = [].
Proof.
  induction l as [|x l IH]; intros HP; [done|]. rewrite filter_cons_False by (apply HP; set_solver).
  apply IH. set_solver.
Qed.

(** ** A stable sort by a strict order *)

Section stable_sort.
Context (before : nat -> nat -> bool)
  (asym : forall x y, before x y = true -> before y x = false)
  (trans : forall x y z, before x y = true -> before y z = true -> before x z = true).

(** [x] may stand ahead of [y]. *)
Definition may_precede (x y : nat) : Prop := before y x = false.

Lemma stable_insert_perm x l : stable_insert before x l ≡ₚ x :: l.
Proof.
  induction l as [|y l IH]; simpl; [done|]. destruct (before x y); [done|]. rewrite IH. constructor.
Qed.

Lemma stable_sort_perm l : stable_sort before l ≡ₚ l.
Proof.
  unfold stable_sort. enough (forall acc, foldl (fun acc x => stable_insert before x acc) acc l ≡ₚ acc ++ l) as H
    by apply (H []).
  induction l as [|x l IH]; intros acc; simpl; [by rewrite app_nil_r|].
  by rewrite IH, stable_insert_perm, <- Permutation_middle.
Qed.

Lemma stable_insert_sorted x l :
  StronglySorted may_precede l -> StronglySorted may_precede (stable_insert before x l).
Proof using asym trans.
  induction 1 as [|y l Hl IH Hy]; simpl; [repeat constructor|].
  destruct (before x y) eqn:E.
  - constructor; [by constructor|]. constructor; [by apply asym|].
    eapply Forall_impl; [exact Hy|]. intros z Hz. unfold may_precede in *.
    destruct (before z x) eqn:Ez; [|done]. by rewrite (trans z x y) in Hz.
  - constructor; [done|]. rewrite stable_insert_perm. by constructor.
Qed.

Lemma stable_sort_sorted l : StronglySorted may_precede (stable_sort before l).
Proof using asym trans.
  unfold stable_sort. enough (forall acc, StronglySorted may_precede acc ->
    StronglySorted may_precede (foldl (fun acc x => stable_insert before x acc) acc l)) as H
    by (apply H; constructor).
  induction l as [|x l IH]; intros acc Hacc; simpl; [done|]. by apply IH, stable_insert_sorted.
Qed.
End stable_sort.

Lemma StronglySorted_take {A} (R : A -> A -> Prop) (l : list A) n x y :
  StronglySorted R l -> x ∈ take n l -> y ∈ drop n l -> R x y.
Proof.
  intros Hl. revert n. induction Hl as [|z l Hl IH Hz]; intros [|n] Hx Hy; simpl in *; try by apply not_elem_of_nil in Hx.
  apply elem_of_cons in Hx as [->|Hx]; [|by eapply IH].
  rewrite Forall_forall in Hz. apply Hz. rewrite <- (take_drop n l). set_solver.
Qed.

(** In a sorted list whose members of [top] all go strictly before the others, [top] comes first. *)
Lemma sorted_top (before : nat -> nat -> bool) (top l : list nat) :
  StronglySorted (may_precede before) l ->
  (forall a b, a ∈ top -> b ∉ top -> b ∈ l -> before a b = true) ->
  l = filter (fun x => x ∈ top) l ++ filter (fun x => x ∉ top) l.
Proof.
  induction 1 as [|x l Hl IH Hx]; intros Htop; [done|].
  rewrite !filter_cons. destruct (decide (x ∈ top)) as [Hin|Hout].
  - rewrite decide_False by tauto. simpl. f_equal. apply IH. intros a b ???. apply Htop; set_solver.
  - rewrite decide_True by done.
    assert (forall y, y ∈ l -> y ∉ top) as Hnone.
    { intros y Hy Hyt. rewrite Forall_forall in Hx. specialize (Hx y Hy). unfold may_precede in Hx.
      rewrite Htop in Hx; [done|done|done|set_solver]. }
    rewrite (list_filter_no (fun y => y ∈ top)) by done. simpl. f_equal.
    symmetry. by apply list_filter_every.
Qed.

(** ** Placing *)

(** The sources in a row of slots. *)
Definition filled (slots : list (option nat)) : list nat := omap id slots.

Lemma elem_of_filled slots x : x ∈ filled slots <-> Some x ∈ slots.
Proof. unfold filled. rewrite list_elem_of_omap. split; [intros (? & ? & ?); by simplify_eq/=|by eexists]. Qed.

Lemma length_filled slots : (length (filled slots) <= length slots)%nat.
Proof.
  induction slots as [|[x|] slots IH]; [done|..]; change (filled (_ :: slots)) with (x :: filled slots) ||
    change (filled (None :: slots)) with (filled slots); simpl; lia.
Qed.

(** A row that has every source another has where the other has it. *)
Definition keeps (l l' : list (option nat)) : Prop := forall i x, l !! i = Some (Some x) -> l' !! i = Some (Some x).

Lemma keeps_trans l1 l2 l3 : keeps l1 l2 -> keeps l2 l3 -> keeps l1 l3.
Proof. unfold keeps. auto. Qed.

Lemma keeps_cons o o' l l' :
  (forall x, o = Some x -> o' = Some x) -> keeps l l' -> keeps (o :: l) (o' :: l').
Proof. intros Ho Hl [|i] x; simpl; [|apply Hl]. intros [= E]. by rewrite (Ho _ E). Qed.

Lemma keep_placed_spec slots chosen placed kept placed' :
  keep_placed slots chosen placed = (kept, placed') ->
  NoDup placed ->
  length kept = length slots /\ keeps kept slots /\ placed' ≡ₚ filled kept ++ placed /\ NoDup placed' /\
  (forall x, x ∈ filled kept -> x ∈ chosen) /\
  (forall x, Some x ∈ slots -> x ∈ chosen -> x ∈ placed').
Proof.
  revert placed kept placed'. induction slots as [|o slots IH]; intros placed kept placed' E Hnd; simpl in E.
  { simplify_eq. repeat split; try done; set_solver. }
  destruct o as [x|].
  - destruct (bool_decide (x ∈ chosen) && negb (bool_decide (x ∈ placed)))%bool eqn:Ex; bool_hyps.
    + destruct (keep_placed slots chosen (x :: placed)) as [k p] eqn:Ek. simplify_eq.
      destruct (IH _ _ _ Ek) as (Hl & Hk & Hp & Hn & Hc & Hall); [by constructor|].
      split_and!; simpl; [lia| |by rewrite Hp, <- Permutation_middle|done| |].
      * by apply keeps_cons.
      * intros y [->|]%elem_of_cons; auto.
      * intros y [[= ->]|]%elem_of_cons ?; [|auto]. rewrite Hp. set_solver.
    + destruct (keep_placed slots chosen placed) as [k p] eqn:Ek. simplify_eq.
      destruct (IH _ _ _ Ek) as (Hl & Hk & Hp & Hn & Hc & Hall); [done|].
      split_and!; simpl; [lia|by apply keeps_cons|done|done|done|].
      intros y [[= ->]|]%elem_of_cons ?; [|auto]. apply andb_false_iff in Ex as [?|?]; bool_hyps; [done|].
      rewrite Hp. set_solver.
  - destruct (keep_placed slots chosen placed) as [k p] eqn:Ek. simplify_eq.
    destruct (IH _ _ _ Ek) as (Hl & Hk & Hp & Hn & Hc & Hall); [done|].
    split_and!; simpl; [lia|by apply keeps_cons|done|done|done|].
    intros y [[=]|]%elem_of_cons ?; auto.
Qed.

Lemma fill_free_spec kept newcomers :
  (length newcomers + length (filled kept) <= length kept)%nat ->
  exists placed, fill_free kept newcomers = Some placed /\ length placed = length kept /\ keeps kept placed /\
    filled placed ≡ₚ filled kept ++ newcomers.
Proof.
  revert newcomers. induction kept as [|o kept IH]; intros new Hn; simpl in *.
  { destruct new; [|simpl in Hn; lia]. by eexists. }
  destruct o as [x|]; simpl in Hn.
  - destruct (IH new) as (p & -> & Hl & Hk & Hf); [lia|]. eexists. split; [done|].
    simpl. split_and!; [lia|by apply keeps_cons|by rewrite Hf].
  - destruct new as [|y new].
    + destruct (IH []) as (p & -> & Hl & Hk & Hf); [pose proof (length_filled kept); simpl; lia|].
      eexists. split; [done|]. simpl. split_and!; [lia|by apply keeps_cons|by rewrite Hf].
    + destruct (IH new) as (p & -> & Hl & Hk & Hf); [simpl in *; lia|].
      eexists. split; [done|]. simpl. split_and!; [lia|by apply keeps_cons|].
      change (filled (Some y :: p)) with (y :: filled p). change (filled (None :: kept)) with (filled kept).
      by rewrite Hf, <- Permutation_middle.
Qed.

Lemma filled_once l i j x :
  NoDup (filled l) -> l !! i = Some (Some x) -> l !! j = Some (Some x) -> i = j.
Proof.
  revert i j. induction l as [|o l IH]; [done|]. intros i j Hnd Hi Hj.
  assert (NoDup (filled l)) as Hl by (destruct o; [by inversion Hnd|done]).
  assert (forall n, o = Some x -> l !! n = Some (Some x) -> False) as Hno.
  { intros n -> Hn. inversion Hnd; subst. apply list_elem_of_lookup_2, elem_of_filled in Hn. done. }
  destruct i as [|i], j as [|j]; simpl in *; [done|exfalso; naive_solver..|f_equal; by apply IH].
Qed.

Lemma place_spec slots chosen :
  NoDup chosen ->
  exists placed, place slots chosen = Some placed /\ length placed = length slots /\ NoDup (filled placed) /\
    filled placed ≡ₚ take (length slots) chosen /\
    (NoDup (filled slots) -> forall i x, slots !! i = Some (Some x) -> x ∈ take (length slots) chosen ->
       placed !! i = Some (Some x)).
Proof.
  intros Hnd. unfold place. set (top := take (length slots) chosen).
  assert (NoDup top) as Htop.
  { rewrite <- (take_drop (length slots) chosen) in Hnd. by apply NoDup_app in Hnd as (? & _). }
  destruct (keep_placed slots top []) as [kept placed] eqn:E.
  destruct (keep_placed_spec _ _ _ _ _ E) as (Hl & Hk & Hp & Hn & Hc & Hall); [constructor|].
  rewrite app_nil_r in Hp.
  assert (filled kept ++ filter (fun x => x ∉ placed) top ≡ₚ top) as Hperm.
  { apply NoDup_Permutation; [|done|].
    - apply NoDup_app. split_and!; [by rewrite <- Hp| |by apply NoDup_filter].
      intros x Hx [Hx' _]%list_elem_of_filter. by rewrite Hp in Hx'.
    - intros x. rewrite elem_of_app, list_elem_of_filter, Hp. split; [intros [?|[_ ?]]; auto|].
      intros ?. destruct (decide (x ∈ filled kept)); auto. }
  destruct (fill_free_spec kept (filter (fun x => x ∉ placed) top)) as (row & Hrow & Hlr & Hkr & Hfr).
  { apply Permutation_length in Hperm. rewrite length_app in Hperm. rewrite Hl.
    assert (length top <= length slots)%nat by (unfold top; rewrite length_take; lia). lia. }
  exists row. rewrite Hrow. rewrite Hperm in Hfr. split_and!; [done|lia|by rewrite Hfr|done|].
  intros Hds i x Hi Hx. apply Hkr.
  assert (x ∈ filled kept) as (j & Hj)%elem_of_filled%list_elem_of_lookup_1.
  { rewrite <- Hp. apply Hall; [by eapply list_elem_of_lookup_2|done]. }
  pose proof (Hk _ _ Hj) as Hj'. by rewrite (filled_once _ _ _ _ Hds Hi Hj').
Qed.

(** Placing who is already there changes nothing. *)
Lemma place_settled row chosen :
  NoDup chosen -> filled row ≡ₚ take (length row) chosen -> place row chosen = Some row.
Proof.
  intros Hnd Hrow. destruct (place_spec row chosen Hnd) as (placed & -> & Hl & Hndp & Hf & Hkeep). f_equal.
  rewrite <- Hrow in Hf. rewrite Hf in Hndp. specialize (Hkeep Hndp).
  assert (keeps row placed) as Hk.
  { intros i x Hi. apply Hkeep; [done|]. rewrite <- Hrow. by apply elem_of_filled; eapply list_elem_of_lookup_2. }
  apply list_eq. intros i. destruct (row !! i) as [[x|]|] eqn:E; [by apply Hk| |].
  - destruct (lookup_lt_is_Some_2 placed i) as [[y|] Hy]; [|
      |done]; [by rewrite Hl; eapply lookup_lt_Some|]. exfalso.
    assert (y ∈ filled row) as (j & Hj)%elem_of_filled%list_elem_of_lookup_1.
    { rewrite <- Hf. by apply elem_of_filled; eapply list_elem_of_lookup_2. }
    assert (i = j) as ->; [|congruence]. eapply (filled_once placed); [by rewrite Hf|done|by apply Hk].
  - apply lookup_ge_None. rewrite Hl. by apply lookup_ge_None.
Qed.

(** ** Choosing *)

Section choosing.
Context {LD : Loudness} {laws : LoudnessLaws LD} (judge : nat -> Judged).

Lemma goes_before_true holding x y :
  goes_before judge holding x y = true <->
  loud_le (score judge holding y) (score judge holding x) = true /\
  (loud_le (score judge holding x) (score judge holding y) = false \/ (Some x ∈ holding /\ Some y ∉ holding)).
Proof using laws.
  unfold goes_before. pose proof (loud_total (score judge holding x) (score judge holding y)).
  destruct (loud_le (score judge holding x) _), (loud_le (score judge holding y) _); simpl;
    rewrite ?andb_true_iff, ?negb_true_iff, ?bool_decide_eq_true, ?bool_decide_eq_false; naive_solver.
Qed.

Lemma goes_before_asym holding x y : goes_before judge holding x y = true -> goes_before judge holding y x = false.
Proof using laws.
  intros [H1 H2]%goes_before_true. apply not_true_iff_false. rewrite goes_before_true.
  intros [H3 H4]. destruct H2 as [H2|H2]; [congruence|]. destruct H4 as [H4|H4]; [congruence|tauto].
Qed.

Lemma goes_before_trans holding x y z :
  goes_before judge holding x y = true -> goes_before judge holding y z = true ->
  goes_before judge holding x z = true.
Proof using laws.
  rewrite !goes_before_true. intros [Hyx Hxy] [Hzy Hyz].
  split; [by eapply loud_trans|].
  destruct (loud_le (score judge holding x) (score judge holding z)) eqn:E; [right|by left].
  pose proof (loud_trans _ _ _ E Hzy). pose proof (loud_trans _ _ _ Hyx E).
  destruct Hxy as [?|[? ?]]; [congruence|]. destruct Hyz as [?|[? ?]]; [congruence|]. done.
Qed.

Lemma elem_of_pinned sources pin candidates taken x :
  x ∈ pinned sources pin candidates taken -> x ∈ candidates /\ x ∉ taken.
Proof.
  revert taken. induction pin as [|u pin IH]; intros taken; simpl; [by intros ?%not_elem_of_nil|].
  intros [[Hx ?]%list_elem_of_filter|Hx]%elem_of_app.
  - bool_hyps. done.
  - apply IH in Hx. set_solver.
Qed.

Lemma pinned_NoDup sources pin candidates taken : NoDup candidates -> NoDup (pinned sources pin candidates taken).
Proof.
  intros Hc. revert taken. induction pin as [|u pin IH]; intros taken; simpl; [constructor|].
  apply NoDup_app. split_and!; [by apply NoDup_filter| |done].
  intros x Hx [_ Hx']%elem_of_pinned. set_solver.
Qed.

Lemma choose_perm sources candidates sub holding :
  NoDup candidates -> choose judge sources candidates sub holding ≡ₚ candidates.
Proof.
  intros Hc. unfold choose. rewrite stable_sort_perm.
  set (first := pinned sources (sub_pin sub) candidates []).
  apply NoDup_Permutation; [apply NoDup_app; split_and!|done|].
  - by apply pinned_NoDup.
  - intros x ? [? _]%list_elem_of_filter. done.
  - by apply NoDup_filter.
  - intros x. rewrite elem_of_app, list_elem_of_filter. split.
    + intros [[? _]%elem_of_pinned|[_ ?]]; done.
    + intros ?. destruct (decide (x ∈ first)); auto.
Qed.

(** What the slots of one kind come to. *)
Definition fill_row (sources : gmap nat source) (candidates : list nat) (sub : subscription) (left : Z)
    (holding : list (option nat)) : option (list (option nat)) :=
  let chosen := choose judge sources candidates sub holding in
  place holding (if 0 <=? left then take (Nat.min (length chosen) (Z.to_nat left)) chosen else chosen).

(** Taking a prefix of a prefix. *)
Lemma prefix_of_choice (left : Z) (n : nat) (chosen : list nat) :
  exists j, take n (if 0 <=? left then take (Nat.min (length chosen) (Z.to_nat left)) chosen else chosen) = take j chosen /\
            (j <= n)%nat /\ (0 <= left -> (j <= Z.to_nat left)%nat) /\
            forall chosen' : list nat, length chosen' = length chosen ->
              take n (if 0 <=? left then take (Nat.min (length chosen') (Z.to_nat left)) chosen' else chosen')
              = take j chosen'.
Proof.
  destruct (Z.leb_spec 0 left).
  - exists (Nat.min n (Nat.min (length chosen) (Z.to_nat left))). split_and!; [by rewrite take_take|lia|lia|].
    intros chosen' ->. by rewrite take_take.
  - exists n. split_and!; [done|lia|lia|done].
Qed.

Lemma choice_NoDup (left : Z) (chosen : list nat) :
  NoDup chosen -> NoDup (if 0 <=? left then take (Nat.min (length chosen) (Z.to_nat left)) chosen else chosen).
Proof.
  intros Hnd. case_match; [|done]. rewrite <- (take_drop (Nat.min (length chosen) (Z.to_nat left)) chosen) in Hnd.
  by apply NoDup_app in Hnd as (? & _).
Qed.

Lemma fill_row_spec sources candidates sub left holding :
  NoDup candidates ->
  exists row j, fill_row sources candidates sub left holding = Some row /\ length row = length holding /\
    NoDup (filled row) /\ filled row ≡ₚ take j (choose judge sources candidates sub holding) /\
    (j <= length holding)%nat /\ (0 <= left -> (j <= Z.to_nat left)%nat) /\
    (NoDup (filled holding) -> forall i x, holding !! i = Some (Some x) -> x ∈ filled row -> row !! i = Some (Some x)).
Proof.
  intros Hc. unfold fill_row. set (chosen := choose judge sources candidates sub holding).
  assert (NoDup chosen) as Hnd by (unfold chosen; by rewrite choose_perm).
  destruct (place_spec holding _ (choice_NoDup left chosen Hnd)) as (row & -> & Hl & Hndr & Hf & Hk).
  destruct (prefix_of_choice left (length holding) chosen) as (j & Hj & Hjn & Hjl & _). rewrite Hj in Hf, Hk.
  exists row, j. split_and!; try done. intros Hh i x Hi Hx. apply Hk; [done..|]. by rewrite <- Hf.
Qed.

(** The first [j] of the choice made again, once exactly those hold the slots, are the same sources. *)
Lemma choose_settled sources candidates sub holding row j :
  NoDup candidates ->
  (forall x, Some x ∈ row <-> x ∈ take j (choose judge sources candidates sub holding)) ->
  take j (choose judge sources candidates sub row) ≡ₚ take j (choose judge sources candidates sub holding).
Proof using laws.
  intros Hc Hrow. unfold choose in *.
  set (first := pinned sources (sub_pin sub) candidates []) in *.
  set (rest := filter (fun x => x ∉ first) candidates) in *.
  set (old := stable_sort (goes_before judge holding) rest) in *.
  set (new := stable_sort (goes_before judge row) rest).
  assert (NoDup rest) as Hrest by by apply NoDup_filter.
  assert (old ≡ₚ rest) as Hold by apply stable_sort_perm.
  assert (new ≡ₚ rest) as Hnew by apply stable_sort_perm.
  rewrite !take_app in *. apply Permutation_app_head. set (n := (j - length first)%nat) in *.
  set (top := take n old) in *.
  assert (NoDup old) as Hndold by by rewrite Hold.
  assert (forall x, x ∈ top -> x ∈ rest) as Htopin.
  { intros x Hx. rewrite <- Hold, <- (take_drop n old). set_solver. }
  assert (new = filter (fun x => x ∈ top) new ++ filter (fun x => x ∉ top) new) as Hsplit.
  { apply (sorted_top (goes_before judge row)).
    { apply stable_sort_sorted; [apply goes_before_asym|apply goes_before_trans]. }
    intros a b Ha Hb Hbn. rewrite Hnew in Hbn.
    assert (b ∈ drop n old) as Hbd.
    { rewrite <- Hold, <- (take_drop n old) in Hbn. set_solver. }
    assert (goes_before judge holding b a = false) as Hba.
    { eapply (StronglySorted_take (may_precede (goes_before judge holding))); [|exact Ha|exact Hbd].
      apply stable_sort_sorted; [apply goes_before_asym|apply goes_before_trans]. }
    assert (Some a ∈ row) as Har by (apply Hrow; set_solver).
    assert (Some b ∉ row) as Hbr.
    { rewrite Hrow. intros [Hx|?]%elem_of_app; [|done]. apply Htopin in Ha.
      apply list_elem_of_filter in Hbn as [Hbf _]. apply Hbf.
      rewrite <- (take_drop j first). set_solver. }
    apply goes_before_true. split; [|by right].
    assert (loud_le (jd_loudness (judge b)) (score judge holding b) = true) as Hb1.
    { unfold score. case_bool_decide; [apply louder_le|]. by destruct (loud_total (jd_loudness (judge b)) (jd_loudness (judge b))). }
    assert (loud_le (score judge holding a) (score judge row a) = true) as Ha1.
    { unfold score. rewrite (bool_decide_true _ Har). case_bool_decide; [|apply louder_le].
      by destruct (loud_total (louder (jd_loudness (judge a))) (louder (jd_loudness (judge a)))). }
    assert (loud_le (score judge holding b) (score judge holding a) = true) as Hba'.
    { apply not_true_iff_false in Hba. rewrite goes_before_true in Hba.
      destruct (loud_total (score judge holding a) (score judge holding b)) as [Hab|]; [|done].
      apply not_false_iff_true. intros Hn. apply Hba. split; [done|by left]. }
    unfold score at 1. rewrite (bool_decide_false _ Hbr). eapply loud_trans; [exact Hb1|].
    by eapply loud_trans. }
  assert (filter (fun x => x ∈ top) new ≡ₚ top) as Htop.
  { apply NoDup_Permutation; [by apply NoDup_filter; rewrite Hnew| |].
    - rewrite <- (take_drop n old) in Hndold. by apply NoDup_app in Hndold as (? & _).
    - intros x. rewrite list_elem_of_filter, Hnew. naive_solver. }
  rewrite Hsplit. pose proof (Permutation_length Htop) as Hlen.
  assert (length top = Nat.min n (length new)) as Hlt.
  { unfold top. by rewrite length_take, Hold, Hnew. }
  destruct (decide (n <= length new)%nat).
  - rewrite take_app_le by lia. rewrite take_ge by lia. done.
  - rewrite take_ge by (rewrite <- Hsplit; lia).
    assert (filter (fun x => x ∉ top) new = []) as ->; [|by rewrite app_nil_r].
    apply length_zero_iff_nil. apply (f_equal length) in Hsplit. rewrite length_app in Hsplit. lia.
Qed.

(** Filling a row again over its own result, as loud as it was, leaves it as it is. *)
Lemma fill_row_settled sources candidates sub left holding row :
  NoDup candidates -> fill_row sources candidates sub left holding = Some row ->
  fill_row sources candidates sub left row = Some row.
Proof using laws.
  intros Hc Hrow. unfold fill_row in Hrow.
  set (chosen := choose judge sources candidates sub holding) in Hrow.
  assert (chosen ≡ₚ candidates) as Hperm by by apply choose_perm.
  assert (NoDup chosen) as Hnd by by rewrite Hperm.
  destruct (place_spec holding _ (choice_NoDup left chosen Hnd)) as (row' & Hrow' & Hl & Hndr & Hf & _).
  rewrite Hrow' in Hrow. simplify_eq.
  destruct (prefix_of_choice left (length holding) chosen) as (j & Hj & _ & _ & Hany). rewrite Hj in Hf.
  unfold fill_row. set (again := choose judge sources candidates sub row).
  assert (again ≡ₚ candidates) as Hperm' by by apply choose_perm.
  apply place_settled; [apply choice_NoDup; by rewrite Hperm'|].
  rewrite Hl, Hany by (by rewrite Hperm, Hperm'). rewrite Hf. symmetry.
  apply choose_settled; [done|]. intros x. by rewrite <- elem_of_filled, Hf.
Qed.
End choosing.

(** ** The selection *)

(** ** What the selection reads *)

Definition source_facts (v : source) : nat * Z * Z * string := (src_conn v, src_user v, src_id v, src_kind v).
Definition conn_facts (k : conn) : nat * Z * Z * bool * gmap string (list nat) * subscription :=
  (cn_room k, cn_id k, cn_user k, cn_inRoom k, cn_slots k, cn_sub k).
Definition slot_facts (v : slot) : Z * string := (sl_index v, sl_kind v).

Definition map_facts {A B} (f : A -> B) (m m' : gmap nat A) : Prop := forall x, f <$> m' !! x = f <$> m !! x.

(** Two states the selection reads the same, who fills the slots aside. *)
Record view_eq (s s' : SFU) : Prop := mkView {
  vw_source : map_facts source_facts (sf_source s) (sf_source s');
  vw_conn : map_facts conn_facts (sf_conn s) (sf_conn s');
  vw_slot : map_facts slot_facts (sf_slot s) (sf_slot s')
}.

Lemma view_refl s : view_eq s s.
Proof. by split. Qed.
Lemma view_trans s1 s2 s3 : view_eq s1 s2 -> view_eq s2 s3 -> view_eq s1 s3.
Proof. intros [A B C] [A' B' C']. split; intros x; [by rewrite A', A|by rewrite B', B|by rewrite C', C]. Qed.

(** The cells of two heaps that agree on their facts. *)
Lemma facts_lookup {A B} (f : A -> B) m m' x :
  map_facts f m m' ->
  (m !! x = None /\ m' !! x = None) \/ (exists v v', m !! x = Some v /\ m' !! x = Some v' /\ f v' = f v).
Proof.
  intros H. specialize (H x). destruct (m !! x), (m' !! x); simpl in H; simplify_eq; [right; eauto|by left].
Qed.

(** ** Slots, receivers and sources as a selection leaves them *)

Lemma length_filled_filter (row : list (option nat)) :
  length (filter (fun o : option nat => o <> None) row) = length (filled row).
Proof.
  induction row as [|[x|] row IH]; [done|..].
  - rewrite filter_cons_True by done. change (filled (Some x :: row)) with (x :: filled row). simpl. by rewrite IH.
  - rewrite filter_cons_False by tauto. change (filled (None :: row)) with (filled row). done.
Qed.

Definition slot_of (s : SFU) (c : nat) (kind : string) (x : nat) : Prop :=
  exists k, sf_conn s !! c = Some k /\ x ∈ slotsByKind kind k.

(** Every slot is there, and is one connection's, once, of one kind. *)
Record slots_apart (s : SFU) : Prop := mkApart {
  sa_there : forall c kind x, slot_of s c kind x -> is_Some (sf_slot s !! x);
  sa_nodup : forall c k kind, sf_conn s !! c = Some k -> NoDup (slotsByKind kind k);
  sa_once : forall c c' kind kind' x, slot_of s c kind x -> slot_of s c' kind' x -> c = c' /\ kind = kind'
}.

Lemma facts_slots k k' kind : conn_facts k' = conn_facts k -> slotsByKind kind k' = slotsByKind kind k.
Proof. intros H. unfold slotsByKind. by injection H as _ _ _ _ -> _. Qed.

Lemma slot_of_view s s' c kind x : view_eq s s' -> slot_of s' c kind x <-> slot_of s c kind x.
Proof.
  intros [_ Hc _]. unfold slot_of.
  destruct (facts_lookup _ _ _ c Hc) as [[-> ->]|(k & k' & -> & -> & Hk)]; [naive_solver|].
  split; intros (k0 & [= <-] & Hx); eexists; (split; [done|]); by rewrite (facts_slots _ _ _ Hk) in *.
Qed.

Lemma slots_apart_view s s' : view_eq s s' -> slots_apart s -> slots_apart s'.
Proof.
  intros Hv [H1 H2 H3]. split.
  - intros c kind x Hx%(slot_of_view s); [|done]. apply H1 in Hx.
    destruct (facts_lookup _ _ _ x (vw_slot _ _ Hv)) as [[E _]|(? & ? & _ & -> & _)]; [rewrite E in Hx|]; [by destruct Hx|eauto].
  - intros c k kind Hk. destruct (facts_lookup _ _ _ c (vw_conn _ _ Hv)) as [[_ E]|(k0 & k1 & E1 & E2 & Hf)]; [congruence|].
    assert (k = k1) as -> by congruence. rewrite (facts_slots _ _ _ Hf). by eapply H2.
  - intros c c' kind kind' x Hx%(slot_of_view s) Hx'%(slot_of_view s); [|done..]. by eapply H3.
Qed.

Lemma entries_of_view s s' placed : view_eq s s' -> entries_of s' placed = entries_of s placed.
Proof.
  intros [Hs Hc Ht]. unfold entries_of. apply list_omap_ext, Forall_Forall2_diag, Forall_forall.
  intros [x [y|]] _; simpl; [|done].
  destruct (facts_lookup _ _ _ x Ht) as [[-> ->]|(v & v' & -> & -> & Hv)]; [done|]. simpl. unfold entry_of.
  destruct (facts_lookup _ _ _ y Hs) as [[-> ->]|(w & w' & -> & -> & Hw)]; [done|]. simpl. injection Hw as -> _ Hid _.
  destruct (facts_lookup _ _ _ (src_conn w) Hc) as [[-> ->]|(k & k' & -> & -> & Hk)]; [done|]. simpl.
  by injection Hv as -> ->; injection Hk as _ -> -> _ _ _; rewrite Hid.
Qed.

Lemma put_slots_other placed m x : x ∉ placed.*1 -> put_slots placed m !! x = m !! x.
Proof.
  unfold put_slots. revert m. induction placed as [|[y o] placed IH]; intros m Hx; simpl in *; [done|].
  rewrite IH by set_solver. rewrite lookup_alter_ne by set_solver. done.
Qed.

Lemma put_slots_in placed m x o v :
  NoDup placed.*1 -> (x, o) ∈ placed -> m !! x = Some v -> put_slots placed m !! x = Some (slot_assign o v).
Proof.
  unfold put_slots. revert m. induction placed as [|[y o'] placed IH]; intros m Hnd Hx Hv; simpl in *.
  { by apply not_elem_of_nil in Hx. }
  inversion Hnd as [|? ? Hy Hnd']; subst. apply elem_of_cons in Hx as [[= <- <-]|Hx].
  - change (foldl _ ?a placed) with (put_slots placed a). rewrite put_slots_other by done. by rewrite lookup_alter_eq, Hv.
  - apply IH; [done..|]. rewrite lookup_alter_ne; [done|]. intros ->. apply Hy. apply list_elem_of_fmap. by exists (x, o).
Qed.

Lemma slot_assign_src o v : sl_src (slot_assign o v) = o.
Proof. unfold slot_assign. by case_bool_decide. Qed.

Lemma slot_assign_same v : slot_assign (sl_src v) v = v.
Proof. unfold slot_assign. by rewrite bool_decide_true. Qed.

Lemma put_slots_same placed m :
  (forall x o, (x, o) ∈ placed -> current m x = o) -> put_slots placed m = m.
Proof.
  unfold put_slots. induction placed as [|[y o] placed IH]; intros H; simpl; [done|].
  assert (alter (slot_assign o) y m = m) as ->; [|apply IH; set_solver].
  apply map_eq. intros x. destruct (decide (y = x)) as [<-|]; [|by rewrite lookup_alter_ne].
  rewrite lookup_alter_eq. specialize (H y o ltac:(set_solver)). unfold current in H.
  destruct (m !! y) as [v|]; simpl in *; [|done]. by rewrite <- H, slot_assign_same.
Qed.

Lemma zip_holding (refs : list nat) (row : list (option nat)) (m : gmap nat slot) :
  length row = length refs -> (forall x o, (x, o) ∈ zip refs row -> current m x = o) -> current m <$> refs = row.
Proof.
  revert row. induction refs as [|x refs IH]; intros [|o row] Hl H; simpl in *; try done.
  f_equal; [apply H; set_solver|apply IH; [lia|set_solver]].
Qed.

(** What a receiver's connection records. *)
Definition recorded (entries : list SlotEntry) (users : list string) (k : conn) : conn * bool :=
  let '(k, mapped) := setSlotMap entries k in
  let '(k, spoken) := setSpeaking users k in (k, mapped || spoken).

Lemma recorded_spec entries users k :
  conn_facts (recorded entries users k).1 = conn_facts k /\ cn_slotMap (recorded entries users k).1 = entries /\
  cn_speaking (recorded entries users k).1 = users.
Proof. unfold recorded, setSlotMap, setSpeaking. repeat (case_bool_decide; simpl); done. Qed.

Lemma recorded_same k : recorded (cn_slotMap k) (cn_speaking k) k = (k, false).
Proof. unfold recorded, setSlotMap, setSpeaking. rewrite !bool_decide_true by done. done. Qed.

Definition with_fill (c : nat) (k : conn) (placed : list (nat * option nat)) (s : SFU) : SFU :=
  mkSFU (sf_closed s) (sf_rooms s) (sf_conns s) (sf_cutoffs s) (sf_closedRooms s) (sf_evictedConns s)
    (sf_room s) (<[c := k]> (sf_conn s)) (sf_source s) (put_slots placed (sf_slot s)) (sf_next s).

Lemma view_with_fill c k k' placed s :
  sf_conn s !! c = Some k -> conn_facts k' = conn_facts k -> view_eq s (with_fill c k' placed s).
Proof.
  intros Hk Hf. split; intros x; simpl; [done| |].
  - destruct (decide (c = x)) as [<-|]; [by rewrite lookup_insert_eq, Hk; simpl; rewrite Hf|by rewrite lookup_insert_ne].
  - unfold put_slots. generalize (sf_slot s) as m. induction placed as [|[y o] placed IH]; intros m; simpl; [done|].
    rewrite IH. destruct (decide (y = x)) as [<-|]; [|by rewrite lookup_alter_ne].
    rewrite lookup_alter_eq. destruct (m !! y) as [v|]; [|done]. simpl. unfold slot_assign. by case_bool_decide.
Qed.

(** The rest of the server as it was. *)
Record same_tables (s s' : SFU) : Prop := mkSame {
  st_closed : sf_closed s' = sf_closed s; st_rooms : sf_rooms s' = sf_rooms s; st_conns : sf_conns s' = sf_conns s;
  st_cutoffs : sf_cutoffs s' = sf_cutoffs s; st_closedRooms : sf_closedRooms s' = sf_closedRooms s;
  st_evicted : sf_evictedConns s' = sf_evictedConns s; st_room : sf_room s' = sf_room s; st_next : sf_next s' = sf_next s
}.

Lemma same_tables_trans s1 s2 s3 : same_tables s1 s2 -> same_tables s2 s3 -> same_tables s1 s3.
Proof. intros [] []. split; etrans; eauto. Qed.

Definition retold (fills : list (nat * option nat)) (x : nat) (v : source) : source :=
  mkSource (src_conn v) (src_user v) (src_id v) (src_kind v) (src_codec v)
    (fst <$> filter (fun kv => kv.2 = Some x) fills).

Definition told (fills : list (nat * option nat)) (xs : list nat) (m : gmap nat source) : gmap nat source :=
  foldl (fun m x => tell_source fills x m) m xs.

Lemma lookup_told fills xs m x :
  told fills xs m !! x = if decide (x ∈ xs) then retold fills x <$> m !! x else m !! x.
Proof.
  unfold told. revert m. induction xs as [|y xs IH]; intros m.
  { rewrite decide_False by apply not_elem_of_nil. done. }
  cbn [foldl]. rewrite IH. unfold tell_source. destruct (decide (y = x)) as [<-|].
  - rewrite lookup_alter_eq, (decide_True (P := y ∈ y :: xs)) by set_solver. case_decide; by destruct (m !! y).
  - rewrite lookup_alter_ne by done. repeat case_decide; try done; set_solver.
Qed.

Lemma told_again fills xs m : told fills xs (told fills xs m) = told fills xs m.
Proof.
  apply map_eq. intros x. rewrite !lookup_told. case_decide; [|done]. by destruct (m !! x).
Qed.

Lemma told_facts fills xs m : map_facts source_facts m (told fills xs m).
Proof. intros x. rewrite lookup_told. case_decide; [|done]. by destruct (m !! x). Qed.

Lemma view_told fills xs s : view_eq s (tell_sources fills xs s).
Proof. split; [apply told_facts|done|done]. Qed.

Lemma elem_of_by_id {A} (m : gmap Z A) x : x ∈ by_id m <-> exists id, m !! id = Some x.
Proof.
  unfold by_id. rewrite list_elem_of_fmap. split.
  - intros ([id y] & -> & H). rewrite merge_sort_Permutation in H. exists id. by apply elem_of_map_to_list in H.
  - intros [id H]. exists (id, x). split; [done|]. rewrite merge_sort_Permutation. by apply elem_of_map_to_list.
Qed.

Lemma by_id_NoDup {A} (m : gmap Z A) :
  (forall i j x, m !! i = Some x -> m !! j = Some x -> i = j) -> NoDup (by_id m).
Proof.
  intros Hinj. unfold by_id. rewrite merge_sort_Permutation. apply NoDup_fmap_2_strong.
  - intros [i x] [j y] Hi%elem_of_map_to_list Hj%elem_of_map_to_list ?; simpl in *; subst. f_equal. by eapply Hinj.
  - apply NoDup_map_to_list.
Qed.

Section selection.
Context {LD : Loudness} {laws : LoudnessLaws LD} (judge : nat -> Judged).

Lemma candidate_view s s' rm k k' kind x :
  view_eq s s' -> conn_facts k' = conn_facts k -> candidate s' rm k' kind x = candidate s rm k kind x.
Proof.
  intros [Hs Hc _] Hk. unfold candidate. injection Hk as _ _ -> -> _ ->.
  destruct (facts_lookup _ _ _ x Hs) as [[-> ->]|(v & v' & -> & -> & Hv)]; [done|].
  injection Hv as -> Hu _ ->. unfold mayReceive. rewrite Hu. unfold takes_part.
  destruct (facts_lookup _ _ _ (src_conn v) Hc) as [[-> ->]|(w & w' & -> & -> & Hw)]; [done|].
  by injection Hw as _ _ _ -> _ _.
Qed.

Lemma pinned_ext sources sources' pin candidates taken :
  map_facts source_facts sources sources' ->
  pinned sources' pin candidates taken = pinned sources pin candidates taken.
Proof.
  intros H. revert taken. induction pin as [|u pin IH]; intros taken; simpl; [done|].
  assert (forall x, match sources' !! x with Some v => src_user v =? u | None => false end =
                    match sources !! x with Some v => src_user v =? u | None => false end) as E.
  { intros x. destruct (facts_lookup _ _ _ x H) as [[-> ->]|(v & v' & -> & -> & Hv)]; [done|].
    by injection Hv as _ -> _ _. }
  rewrite IH. f_equal; [|f_equal; f_equal]; apply list_filter_iff; intros x; by rewrite E.
Qed.

Lemma choose_ext sources sources' candidates sub holding :
  map_facts source_facts sources sources' ->
  choose judge sources' candidates sub holding = choose judge sources candidates sub holding.
Proof. intros H. unfold choose. by rewrite (pinned_ext _ _ _ _ _ H). Qed.

Definition holding_of (s : SFU) (k : conn) (kind : string) : list (option nat) :=
  current (sf_slot s) <$> slotsByKind kind k.
Definition candidates_of (s : SFU) (rm : room) (k : conn) (sources : list nat) (kind : string) : list nat :=
  filter (fun x => candidate s rm k kind x = true) sources.

(** What is left of the cap after a row of slots. *)
Definition left_after (left : Z) (row : list (option nat)) : Z :=
  if 0 <? left then Z.max 0 (left - Z.of_nat (length (filter (fun o => o <> None) row))) else left.

Lemma fill_kind_row s rm k sources left kind :
  fill_kind judge s rm k sources left kind =
  match slotsByKind kind k with
  | [] => Some ([], left)
  | refs => row ← fill_row judge (sf_source s) (candidates_of s rm k sources kind) (cn_sub k) left (holding_of s k kind);
            Some (zip refs row, left_after left row)
  end.
Proof. unfold fill_kind, holding_of, candidates_of. by destruct (slotsByKind kind k). Qed.

(** One kind's slots, filled. *)
Lemma fill_kind_spec s rm k sources left kind :
  NoDup sources ->
  exists row left', fill_kind judge s rm k sources left kind = Some (zip (slotsByKind kind k) row, left') /\
    length row = length (slotsByKind kind k) /\ NoDup (filled row) /\
    (forall x, x ∈ filled row -> x ∈ sources /\ candidate s rm k kind x = true) /\
    (0 <= left -> left' = left - Z.of_nat (length (filled row)) /\ 0 <= left') /\ (left < 0 -> left' = left) /\
    (NoDup (filled (holding_of s k kind)) -> forall i x, holding_of s k kind !! i = Some (Some x) -> x ∈ filled row ->
       row !! i = Some (Some x)).
Proof.
  intros Hnd. rewrite fill_kind_row. destruct (slotsByKind kind k) as [|ref refs] eqn:Er.
  { exists [], left. simpl. split_and!; try done; try constructor; try lia.
    1,2: by match goal with H : _ ∈ _ |- _ => apply not_elem_of_nil in H end.
    intros _ i y _ Hy. by apply not_elem_of_nil in Hy. }
  set (cands := candidates_of s rm k sources kind).
  assert (NoDup cands) as Hc by by apply NoDup_filter.
  destruct (fill_row_spec judge (sf_source s) cands (cn_sub k) left (holding_of s k kind) Hc)
    as (row & j & Hrow & Hl & Hndr & Hf & Hj & Hjl & Hst).
  exists row, (left_after left row). rewrite Hrow. simpl.
  split_and!; [done|by rewrite Hl; unfold holding_of; rewrite length_fmap, Er|done| | | |done].
  - intros x Hx. rewrite Hf in Hx.
    assert (x ∈ choose judge (sf_source s) cands (cn_sub k) (holding_of s k kind)) as Hx'.
    { rewrite <- (take_drop j). set_solver. }
    rewrite choose_perm in Hx' by done. by apply list_elem_of_filter in Hx' as [? ?].
  - intros H. apply Permutation_length in Hf. rewrite length_take in Hf. specialize (Hjl H).
    unfold left_after. rewrite length_filled_filter. destruct (Z.ltb_spec 0 left); lia.
  - intros H. unfold left_after. destruct (Z.ltb_spec 0 left); lia.
Qed.

(** Read the same, a kind's slots are filled the same. *)
Lemma fill_kind_view s s' rm k k' sources left kind :
  view_eq s s' -> conn_facts k' = conn_facts k ->
  (forall x, x ∈ slotsByKind kind k -> current (sf_slot s') x = current (sf_slot s) x) ->
  fill_kind judge s' rm k' sources left kind = fill_kind judge s rm k sources left kind.
Proof.
  intros Hv Hk Hcur. rewrite !fill_kind_row.
  assert (slotsByKind kind k' = slotsByKind kind k) as E1.
  { unfold slotsByKind. by injection Hk as _ _ _ _ -> _. }
  assert (cn_sub k' = cn_sub k) as E2 by by injection Hk as _ _ _ _ _ ->.
  assert (holding_of s' k' kind = holding_of s k kind) as E3.
  { unfold holding_of. rewrite E1. apply list_fmap_ext. intros i x Hi. apply Hcur. by eapply list_elem_of_lookup_2. }
  assert (candidates_of s' rm k' sources kind = candidates_of s rm k sources kind) as E4.
  { unfold candidates_of. apply list_filter_iff. intros x. by rewrite (candidate_view s s' rm k k'). }
  rewrite E1, E2, E3, E4. destruct (slotsByKind kind k); [done|].
  unfold fill_row. by rewrite (choose_ext (sf_source s) (sf_source s')) by apply Hv.
Qed.

(** Filled again where they hold what they were given, they are given the same. *)
Lemma fill_kind_settled s s' rm k k' sources left kind row left' :
  NoDup sources -> view_eq s s' -> conn_facts k' = conn_facts k ->
  fill_kind judge s rm k sources left kind = Some (zip (slotsByKind kind k) row, left') ->
  length row = length (slotsByKind kind k) -> holding_of s' k kind = row ->
  fill_kind judge s' rm k' sources left kind = Some (zip (slotsByKind kind k) row, left').
Proof using laws.
  intros Hnd Hv Hk Hfill Hlen Hheld. rewrite !fill_kind_row in *.
  assert (slotsByKind kind k' = slotsByKind kind k) as E1.
  { unfold slotsByKind. by injection Hk as _ _ _ _ -> _. }
  assert (cn_sub k' = cn_sub k) as E2 by by injection Hk as _ _ _ _ _ ->.
  assert (holding_of s' k' kind = row) as E3 by (unfold holding_of; rewrite E1; done).
  assert (candidates_of s' rm k' sources kind = candidates_of s rm k sources kind) as E4.
  { unfold candidates_of. apply list_filter_iff. intros x. by rewrite (candidate_view s s' rm k k'). }
  rewrite E1, E2, E3, E4. destruct (slotsByKind kind k) as [|ref refs] eqn:Er; [done|].
  set (cands := candidates_of s rm k sources kind) in *.
  destruct (fill_row judge (sf_source s) cands (cn_sub k) left (holding_of s k kind)) as [row'|] eqn:Hrow; [|done].
  simpl in Hfill. injection Hfill as Hz Hl.
  assert (length row' = length (ref :: refs)) as Hlen'.
  { destruct (fill_row_spec judge (sf_source s) cands (cn_sub k) left (holding_of s k kind)) as (r & j & Hr & Hlr & _);
      [by apply NoDup_filter|]. rewrite Hrow in Hr. injection Hr as <-. rewrite Hlr. unfold holding_of.
    by rewrite length_fmap, Er. }
  assert (row' = row) as ->.
  { destruct row' as [|o' row'], row as [|o row]; simpl in *; try lia. injection Hz as <- Hz.
    f_equal. apply (f_equal (fmap snd)) in Hz. rewrite !snd_zip in Hz by lia. done. }
  apply fill_row_settled in Hrow; [|by apply NoDup_filter].
  assert (fill_row judge (sf_source s') cands (cn_sub k) left row = Some row) as ->.
  { unfold fill_row in *. by rewrite (choose_ext (sf_source s) (sf_source s')) by apply Hv. }
  simpl. by rewrite Hl.
Qed.

(** ** One receiver *)

(** What a receiver's slots of both kinds come to. *)
Definition conn_fill (s : SFU) (rm : room) (sources : list nat) (k : conn) : option (list (nat * option nat)) :=
  audio ← fill_kind judge s rm k sources (sub_cap (cn_sub k)) KindAudio;
  video ← fill_kind judge s rm k sources audio.2 KindVideo;
  Some (audio.1 ++ video.1).

Lemma conn_fill_refs s rm sources k placed x o :
  NoDup sources -> conn_fill s rm sources k = Some placed -> (x, o) ∈ placed ->
  x ∈ slotsByKind KindAudio k \/ x ∈ slotsByKind KindVideo k.
Proof.
  intros Hnd E Hx. unfold conn_fill in E.
  destruct (fill_kind_spec s rm k sources (sub_cap (cn_sub k)) KindAudio Hnd) as (ra & la & Ea & _). rewrite Ea in E.
  destruct (fill_kind_spec s rm k sources la KindVideo Hnd) as (rv & lv & Ev & _). simpl in E. rewrite Ev in E.
  simpl in E. injection E as <-.
  apply elem_of_app in Hx as [Hx|Hx]; apply elem_of_zip_l in Hx; auto.
Qed.

Lemma conn_fill_total s rm sources k : NoDup sources -> is_Some (conn_fill s rm sources k).
Proof.
  intros Hnd. unfold conn_fill.
  destruct (fill_kind_spec s rm k sources (sub_cap (cn_sub k)) KindAudio Hnd) as (ra & la & -> & _). simpl.
  destruct (fill_kind_spec s rm k sources la KindVideo Hnd) as (rv & lv & -> & _). by eexists.
Qed.

Lemma conn_fill_nodup s rm sources c k placed :
  slots_apart s -> sf_conn s !! c = Some k -> NoDup sources -> conn_fill s rm sources k = Some placed ->
  NoDup placed.*1.
Proof.
  intros Ha Hk Hnd E. unfold conn_fill in E.
  destruct (fill_kind_spec s rm k sources (sub_cap (cn_sub k)) KindAudio Hnd) as (ra & la & Ea & Hla & _). rewrite Ea in E.
  destruct (fill_kind_spec s rm k sources la KindVideo Hnd) as (rv & lv & Ev & Hlv & _). simpl in E. rewrite Ev in E.
  simpl in E. injection E as <-. rewrite fmap_app, !fst_zip by lia.
  apply NoDup_app. split_and!; [by eapply sa_nodup| |by eapply sa_nodup].
  intros x Hx Hx'. destruct (sa_once _ Ha c c KindAudio KindVideo x) as [_ [=]]; by exists k.
Qed.

(** [conn_fill] on a state read the same, where the receiver's slots hold what they held. *)
Lemma conn_fill_view s s' rm sources k k' :
  view_eq s s' -> conn_facts k' = conn_facts k ->
  (forall kind x, x ∈ slotsByKind kind k -> current (sf_slot s') x = current (sf_slot s) x) ->
  conn_fill s' rm sources k' = conn_fill s rm sources k.
Proof.
  intros Hv Hk Hcur. unfold conn_fill. assert (cn_sub k' = cn_sub k) as -> by by injection Hk as _ _ _ _ _ ->.
  rewrite (fill_kind_view s s' rm k k') by eauto. destruct (fill_kind _ s _ _ _ _ KindAudio) as [[a l]|]; [|done].
  simpl. by rewrite (fill_kind_view s s' rm k k') by eauto.
Qed.

(** ** Slots written, receivers recorded *)

Lemma fill_conn_unfold rm sources speaking c s :
  fill_conn judge rm sources speaking c s =
  k ← sf_conn s !! c; placed ← conn_fill s rm sources k;
  let r := recorded (entries_of s placed) (heard_by rm (cn_user k) speaking) k in
  Some (with_fill c r.1 placed s, placed, r.2).
Proof.
  unfold fill_conn, conn_fill, recorded. destruct (sf_conn s !! c) as [k|]; [|done]. simpl.
  destruct (fill_kind judge s rm k sources _ KindAudio) as [[a l]|]; [|done]. simpl.
  destruct (fill_kind judge s rm k sources l KindVideo) as [[v lv]|]; [|done]. simpl.
  destruct (setSlotMap _ k) as [k1 m] eqn:E1.
  assert (cn_user k1 = cn_user k) as -> by (unfold setSlotMap in E1; case_bool_decide; by simplify_eq).
  by destruct (setSpeaking _ k1).
Qed.

(** What the selection leaves of a receiver [c], from the state [s] it began in. *)
Record conn_done (rm : room) (sources : list nat) (speaking : list (Z * string)) (s s' : SFU) (c : nat)
    (placed : list (nat * option nat)) : Prop := mkDone {
  cd_conn : exists k k', sf_conn s !! c = Some k /\ sf_conn s' !! c = Some k' /\ conn_facts k' = conn_facts k /\
    conn_fill s rm sources k = Some placed /\ cn_slotMap k' = entries_of s placed /\
    cn_speaking k' = heard_by rm (cn_user k) speaking;
  cd_slots : forall x o, (x, o) ∈ placed -> current (sf_slot s') x = o
}.

Definition placed_of (s : SFU) (rm : room) (sources : list nat) (c : nat) : list (nat * option nat) :=
  default [] (k ← sf_conn s !! c; conn_fill s rm sources k).

Lemma fill_conns_spec rm sources speaking cs s fills moved :
  NoDup cs -> NoDup sources -> slots_apart s -> (forall c, c ∈ cs -> is_Some (sf_conn s !! c)) ->
  exists s' moved', fill_conns judge rm sources speaking cs s fills moved
      = Some (s', fills ++ mjoin (placed_of s rm sources <$> cs), moved') /\
    view_eq s s' /\ same_tables s s' /\ sf_source s' = sf_source s /\
    (forall c, c ∈ cs -> conn_done rm sources speaking s s' c (placed_of s rm sources c)) /\
    (forall c, c ∉ cs -> sf_conn s' !! c = sf_conn s !! c) /\
    (forall x, (forall c kind, c ∈ cs -> ~ slot_of s c kind x) -> sf_slot s' !! x = sf_slot s !! x).
Proof.
  intros Hcs Hnd. revert s fills moved. induction cs as [|c cs IH]; intros s fills moved Ha Hin; simpl.
  { exists s, moved. rewrite app_nil_r. split_and!; try done. all: set_solver. }
  inversion Hcs as [|? ? Hc Hcs']; subst.
  destruct (Hin c) as [k Hk]; [set_solver|].
  destruct (conn_fill_total s rm sources k Hnd) as [placed Hp].
  rewrite fill_conn_unfold, Hk. simpl. rewrite Hp. simpl.
  set (r := recorded _ _ _). destruct (recorded_spec (entries_of s placed) (heard_by rm (cn_user k) speaking) k) as (Hr1 & Hr2 & Hr3).
  fold r in Hr1, Hr2, Hr3.
  set (s1 := with_fill c r.1 placed s).
  assert (view_eq s s1) as Hv by by eapply view_with_fill.
  assert (placed_of s rm sources c = placed) as Ep by (unfold placed_of; rewrite Hk; simpl; by rewrite Hp).
  assert (forall x o, (x, o) ∈ placed -> exists kind, slot_of s c kind x) as Hrefs.
  { intros x o Hx. destruct (conn_fill_refs s rm sources k placed x o Hnd Hp Hx); [exists KindAudio|exists KindVideo]; by exists k. }
  assert (forall x, (forall kind, ~ slot_of s c kind x) -> sf_slot s1 !! x = sf_slot s !! x) as Hother.
  { intros x Hx. simpl. apply put_slots_other. intros ([y o] & -> & Ho)%list_elem_of_fmap.
    destruct (Hrefs _ _ Ho) as [kind ?]. by eapply Hx. }
  assert (forall c2 kind x, c2 ∈ cs -> slot_of s c2 kind x -> sf_slot s1 !! x = sf_slot s !! x) as Hcs2.
  { intros c2 kind x H2 Hx. apply Hother. intros kind' Hx'. destruct (sa_once _ Ha _ _ _ _ _ Hx Hx') as [-> _]. done. }
  assert (forall c2, c2 ∈ cs -> sf_conn s1 !! c2 = sf_conn s !! c2) as Hconn2.
  { intros c2 H2. simpl. rewrite lookup_insert_ne; [done|congruence]. }
  assert (forall c2, c2 ∈ cs -> placed_of s1 rm sources c2 = placed_of s rm sources c2) as Hplaced.
  { intros c2 H2. unfold placed_of. rewrite Hconn2 by done. destruct (sf_conn s !! c2) as [k2|] eqn:E2; [|done]. simpl.
    f_equal. apply conn_fill_view; [done|done|]. intros kind x Hx. unfold current. rewrite (Hcs2 c2 kind x); [done..|by exists k2]. }
  destruct (IH Hcs' s1 (fills ++ placed) (if r.2 then moved ++ [c] else moved)) as (s' & moved' & -> & Hv' & Ht & Hso & Hdone & Hcn & Hsl).
  { by eapply slots_apart_view. }
  { intros c2 H2. rewrite Hconn2 by done. apply Hin. set_solver. }
  assert (placed_of s1 rm sources <$> cs = placed_of s rm sources <$> cs) as Emap.
  { apply list_fmap_ext. intros i c2 H2. apply Hplaced. by eapply list_elem_of_lookup_2. }
  exists s', moved'. split_and!.
  - rewrite Ep, Emap, app_assoc. done.
  - by eapply view_trans.
  - apply (same_tables_trans s s1); [by split|done].
  - by rewrite Hso.
  - intros c2 [->|H2]%elem_of_cons.
    + rewrite Ep. split.
      * exists k, r.1. split_and!; try done. rewrite Hcn by done. simpl. by rewrite lookup_insert_eq.
      * intros x o Hx. destruct (Hrefs _ _ Hx) as [kind Hxs]. unfold current. rewrite Hsl.
        2: { intros c3 kind3 H3 Hx3%(slot_of_view s); [|done]. by destruct (sa_once _ Ha _ _ _ _ _ Hxs Hx3) as [-> _]. }
        destruct (sa_there _ Ha _ _ _ Hxs) as [v Hvx]. simpl.
        rewrite (put_slots_in placed (sf_slot s) x o v); [|by apply (conn_fill_nodup s rm sources c k)|done|done].
        simpl. apply slot_assign_src.
    + destruct (Hdone c2 H2) as [(k2 & k2' & D1 & D2 & D3 & D4 & D5 & D6) D7]. rewrite Hplaced in * by done. split; [|done].
      rewrite Hconn2 in D1 by done. exists k2, k2'. split_and!; try done.
      * rewrite <- D4. symmetry. apply conn_fill_view; [done|done|]. intros kind x Hx. unfold current.
        rewrite (Hcs2 c2 kind x); [done..|by exists k2].
      * rewrite D5. by apply entries_of_view.
  - intros c2 H2. rewrite Hcn by set_solver. simpl. rewrite lookup_insert_ne; [done|set_solver].
  - intros x Hx. rewrite Hsl.
    + apply Hother. intros kind. apply Hx. set_solver.
    + intros c2 kind H2 Hx2%(slot_of_view s); [|done]. apply (Hx c2 kind); [set_solver|done].
Qed.

(** ** Filling again what was filled *)

Lemma conn_fill_settled s s' rm sources k k' placed :
  NoDup sources -> view_eq s s' -> conn_facts k' = conn_facts k -> conn_fill s rm sources k = Some placed ->
  (forall x o, (x, o) ∈ placed -> current (sf_slot s') x = o) -> conn_fill s' rm sources k' = Some placed.
Proof using laws.
  intros Hnd Hv Hk E Hcur. unfold conn_fill in *.
  destruct (fill_kind_spec s rm k sources (sub_cap (cn_sub k)) KindAudio Hnd) as (ra & la & Ea & Hla & _). rewrite Ea in E.
  destruct (fill_kind_spec s rm k sources la KindVideo Hnd) as (rv & lv & Ev & Hlv & _). simpl in E. rewrite Ev in E.
  simpl in E. injection E as <-.
  assert (cn_sub k' = cn_sub k) as -> by by injection Hk as _ _ _ _ _ ->.
  rewrite (fill_kind_settled s s' rm k k' sources (sub_cap (cn_sub k)) KindAudio ra la Hnd Hv Hk Ea Hla)
    by (apply zip_holding; [done|]; intros; apply Hcur; set_solver).
  simpl. rewrite (fill_kind_settled s s' rm k k' sources la KindVideo rv lv Hnd Hv Hk Ev Hlv)
    by (apply zip_holding; [done|]; intros; apply Hcur; set_solver).
  done.
Qed.

Lemma fill_conns_settled rm sources speaking cs s s' fills moved :
  NoDup sources -> view_eq s s' ->
  (forall c, c ∈ cs -> conn_done rm sources speaking s s' c (placed_of s rm sources c)) ->
  fill_conns judge rm sources speaking cs s' fills moved =
  Some (s', fills ++ mjoin (placed_of s rm sources <$> cs), moved).
Proof using laws.
  intros Hnd Hv. revert fills moved. induction cs as [|c cs IH]; intros fills moved Hdone; simpl.
  { by rewrite app_nil_r. }
  destruct (Hdone c) as [(k & k' & D1 & D2 & D3 & D4 & D5 & D6) D7]; [set_solver|].
  rewrite fill_conn_unfold, D2. simpl.
  rewrite (conn_fill_settled s s' rm sources k k' _ Hnd Hv D3 D4 D7). simpl.
  assert (cn_user k' = cn_user k) as -> by by injection D3 as _ _ -> _ _ _.
  rewrite (entries_of_view s s') by done. rewrite <- D5, <- D6, recorded_same. simpl.
  assert (with_fill c k' (placed_of s rm sources c) s' = s') as ->.
  { unfold with_fill. rewrite insert_id by done. rewrite put_slots_same by done. by destruct s'. }
  rewrite IH by set_solver. by rewrite app_assoc.
Qed.

(** ** The room's lists *)

(** The sources that are considered: those whose connections take part. *)
Definition heard_sources (s : SFU) (rm : room) : list nat :=
  filter (fun x => match sf_source s !! x with
                   | Some v => takes_part (sf_conn s) (src_conn v)
                   | None => false
                   end = true) (by_id (rm_sources rm)).

Lemma heard_sources_view s s' rm : view_eq s s' -> heard_sources s' rm = heard_sources s rm.
Proof.
  intros [Hs Hc _]. unfold heard_sources. apply list_filter_iff. intros x.
  destruct (facts_lookup _ _ _ x Hs) as [[-> ->]|(v & v' & -> & -> & Hv)]; [done|]. injection Hv as -> _ _ _.
  unfold takes_part. destruct (facts_lookup _ _ _ (src_conn v) Hc) as [[-> ->]|(k & k' & -> & -> & Hk)]; [done|].
  by injection Hk as _ _ _ -> _ _.
Qed.

Lemma speaking_view s s' sources : view_eq s s' -> speaking_of judge s' sources = speaking_of judge s sources.
Proof.
  intros [Hs _ _]. unfold speaking_of. f_equal. generalize (∅ : gmap Z string) as m.
  induction sources as [|x sources IH]; intros m; simpl; [done|]. rewrite IH. f_equal.
  destruct (facts_lookup _ _ _ x Hs) as [[-> ->]|(v & v' & -> & -> & Hv)]; [done|]. by injection Hv as _ -> _ _.
Qed.

Lemma assign_unfold r s rm :
  sf_room s !! r = Some rm -> rm_gone rm = false ->
  assignLocked judge r s =
  '(s1, fills, moved) ← fill_conns judge rm (heard_sources s rm) (speaking_of judge s (heard_sources s rm))
     (by_id (rm_conns rm)) s [] [];
  Some (tell_sources fills (by_id (rm_sources rm)) s1, moved).
Proof. intros Hr Hg. unfold assignLocked. rewrite Hr. simpl. by rewrite Hg. Qed.
End selection.

(** ** What a state that keeps the invariant offers the selection *)

Lemma lookup_facts {A B C} (f : A -> B) (g : B -> C) (h : A -> C) (m m' : gmap nat A) x :
  (forall a, h a = g (f a)) -> map_facts f m m' -> h <$> m' !! x = h <$> m !! x.
Proof. intros Hh H. specialize (H x). destruct (m !! x), (m' !! x); simpl in *; rewrite ?Hh; congruence. Qed.

Lemma alike_view s s' : view_eq s s' -> same_tables s s' -> alike s s'.
Proof.
  intros [Hs Hc Ht] [T1 T2 T3 T4 T5 T6 T7 T8]. split; try done; intros x;
    unfold conn_at, slots_at, source_at, kind_at.
  - by apply (lookup_facts conn_facts (fun p => (p.1.1.1.1.1, p.1.1.1.1.2, p.1.1.1.2))).
  - by apply (lookup_facts conn_facts (fun p => p.1.2)).
  - by apply (lookup_facts slot_facts snd).
Qed.

Section system.
Context {LD : Loudness} {laws : LoudnessLaws LD} (lim : Limits).

Lemma ok_slots_apart spare s : sfu_ok lim spare s -> slots_apart s.
Proof.
  intros Hok. assert (forall c kind x, slot_of s c kind x -> exists m refs, slots_at s c = Some m /\ m !! kind = Some refs /\ x ∈ refs) as H.
  { intros c kind x (k & Hk & Hx). unfold slotsByKind in Hx. exists (cn_slots k).
    destruct (cn_slots k !! kind) as [refs|] eqn:E; simpl in Hx; [|by apply not_elem_of_nil in Hx].
    exists refs. split_and!; [unfold slots_at; by rewrite Hk|done|done]. }
  split.
  - intros c kind x (m & refs & H1 & H2 & H3)%H. destruct (ok_slots _ _ _ Hok _ _ _ _ H1 H2) as [_ Hx].
    specialize (Hx x H3). unfold kind_at in Hx. destruct (sf_slot s !! x); [by eexists|done].
  - intros c k kind Hk. unfold slotsByKind. destruct (cn_slots k !! kind) as [refs|] eqn:E; simpl; [|constructor].
    eapply (ok_slots _ _ _ Hok c); [|done]. unfold slots_at. by rewrite Hk.
  - intros c c' kind kind' x (m & refs & H1 & H2 & H3)%H (m' & refs' & H1' & H2' & H3')%H. by eapply ok_apart.
Qed.

Lemma ok_conns_listed spare s r rm :
  sfu_ok lim spare s -> sf_room s !! r = Some rm ->
  NoDup (by_id (rm_conns rm)) /\ (forall c, c ∈ by_id (rm_conns rm) -> is_Some (sf_conn s !! c)) /\
  NoDup (heard_sources s rm).
Proof.
  intros Hok Hr. pose proof (ok_room _ _ _ Hok _ _ Hr) as Hrm. split_and!.
  - apply by_id_NoDup. intros i j c Hi Hj. destruct (ro_conns _ _ _ _ Hrm _ _ Hi) as (_ & u & Hu).
    destruct (ro_conns _ _ _ _ Hrm _ _ Hj) as (_ & u' & Hu'). congruence.
  - intros c [i Hi]%elem_of_by_id. destruct (ro_conns _ _ _ _ Hrm _ _ Hi) as (_ & u & Hu).
    unfold conn_at in Hu. destruct (sf_conn s !! c); [by eexists|done].
  - apply NoDup_filter, by_id_NoDup. intros i j x Hi Hj.
    destruct (ro_sources _ _ _ _ Hrm _ _ Hi) as (? & ? & ? & ? & Hu & _).
    destruct (ro_sources _ _ _ _ Hrm _ _ Hj) as (? & ? & ? & ? & Hu' & _). congruence.
Qed.

(** The selection of a room that is not gone, whole. *)
Lemma select_spec spare judge s r rm :
  sfu_ok lim spare s -> sf_room s !! r = Some rm -> rm_gone rm = false ->
  let sources := heard_sources s rm in
  let speaking := speaking_of judge s sources in
  let fills := mjoin (placed_of judge s rm sources <$> by_id (rm_conns rm)) in
  exists s' moved, assignLocked judge r s = Some (s', moved) /\ view_eq s s' /\ same_tables s s' /\
    (forall c, c ∈ by_id (rm_conns rm) -> conn_done judge rm sources speaking s s' c (placed_of judge s rm sources c)) /\
    sf_source s' = told fills (by_id (rm_sources rm)) (sf_source s).
Proof.
  intros Hok Hr Hg sources speaking fills.
  destruct (ok_conns_listed _ _ _ _ Hok Hr) as (Hcs & Hin & Hnd).
  destruct (fill_conns_spec judge rm sources speaking (by_id (rm_conns rm)) s [] [] Hcs Hnd (ok_slots_apart _ _ Hok) Hin)
    as (s1 & moved & E & Hv & Ht & Hso & Hdone & _).
  exists (tell_sources fills (by_id (rm_sources rm)) s1), moved.
  rewrite (assign_unfold judge r s rm Hr Hg). fold sources speaking. rewrite E. simpl. split_and!.
  - done.
  - eapply view_trans; [exact Hv|apply view_told].
  - by apply (same_tables_trans s s1).
  - intros c Hc. destruct (Hdone c Hc) as [D1 D2]. by split.
  - unfold told. by rewrite Hso.
Qed.

Lemma alike_assign spare judge s r s' moved :
  sfu_ok lim spare s -> assignLocked judge r s = Some (s', moved) -> alike s s'.
Proof.
  intros Hok E. destruct (sf_room s !! r) as [rm|] eqn:Hr; [|unfold assignLocked in E; by rewrite Hr in E].
  destruct (rm_gone rm) eqn:Hg.
  - unfold assignLocked in E. rewrite Hr in E. simpl in E. rewrite Hg in E. injection E as <- <-.
    apply alike_view; [apply view_told|by split].
  - destruct (select_spec spare judge s r rm Hok Hr Hg) as (s1 & m & E1 & Hv & Ht & _). rewrite E in E1.
    injection E1 as <- <-. by apply alike_view.
Qed.

(** ** Every section keeps the invariant *)

Context (Hlim : limits_valid lim = true).

Lemma limits_positive :
  0 < Rooms lim /\ 0 < ParticipantsPerRoom lim /\ 0 < ConnsPerUser lim /\ 0 < ProvisionTimeout lim.
Proof using Hlim.
  unfold limits_valid in Hlim. apply andb_true_iff in Hlim as [[[H _]%andb_true_iff _]%andb_true_iff _].
  rewrite forallb_forall in H. repeat split; apply Z.ltb_lt, H; simpl; tauto.
Qed.

Lemma ok_new : sfu_ok lim None newSFU.
Proof using Hlim.
  pose proof limits_positive. split; try done; try (intros; simplify_map_eq; done).
  simpl. rewrite map_size_empty. lia.
Qed.

Lemma ok_reserve now roomID user connID issued s :
  sfu_ok lim None s -> sfu_ok lim None (reserve lim now roomID user connID issued s).2.
Proof using Hlim.
  intros Hok. pose proof limits_positive as (L1 & L2 & L3 & _). unfold reserve.
  destruct (refused _ _ _ _ _ _ s) eqn:Href; [done|].
  assert (sf_conns s !! connID = None) as Hno.
  { destruct (sf_conns s !! connID) eqn:E; [|done]. exfalso. revert Href. unfold refused. rewrite E.
    rewrite (bool_decide_true (is_Some (Some _))) by by eexists. by repeat case_match. }
  unfold room_for. destruct (sf_rooms s !! roomID) as [r|] eqn:Er.
  - destruct (ok_rooms _ _ _ Hok _ _ Er) as (rm & Hr & _ & [Hne|[=]]). rewrite Hr. simpl.
    destruct (room_admit lim user rm) eqn:Ha; simpl.
    2: { unfold room_empty. by rewrite bool_decide_false. }
    set (k := new_conn r connID user issued).
    apply (ok_join lim None (bump (set_conn (sf_next s) k s)) r rm (sf_next s) connID user); try done; [|by left|].
    + by apply ok_new_conn; [|done|eexists].
    + unfold conn_at. simpl. by rewrite lookup_insert_eq.
  - destruct (Z.leb_spec (Rooms lim) (Z.of_nat (size (sf_rooms s)))); [done|].
    pose proof (ok_new_room lim s roomID Hok Er) as Hok1. specialize (Hok1 ltac:(lia) ltac:(lia) ltac:(lia)).
    set (s1 := bump _) in *. simpl. rewrite lookup_insert_eq. simpl.
    destruct (room_admit lim user (newRoom roomID)) eqn:Ha; simpl.
    2: { by apply ok_drop_room. }
    set (k := new_conn (sf_next s) connID user issued).
    apply (ok_join lim (Some (sf_next s)) (bump (set_conn (sf_next s1) k s1)) (sf_next s) (newRoom roomID) (sf_next s1) connID user);
      try done; [|by right|by simpl; rewrite lookup_insert_eq|].
    + apply ok_new_conn; [done|done|]. simpl. rewrite lookup_insert_eq. by eexists.
    + unfold conn_at. simpl. by rewrite lookup_insert_eq.
Qed.

Lemma ok_forget c s : sfu_ok lim None s -> sfu_ok lim None (forget c s).
Proof.
  intros Hok. unfold forget. destruct (sf_conn s !! c) as [k|] eqn:Hk; [|done].
  assert (conn_at s c = Some (cn_room k, cn_id k, cn_user k)) as Hc by (unfold conn_at; by rewrite Hk).
  destruct (ok_home _ _ _ Hok _ _ _ _ Hc) as [rm Hr].
  pose proof (ok_leave lim s _ rm c _ _ Hok Hc Hr) as Hok'.
  set (s1 := if bool_decide _ then _ else s) in *.
  assert (sf_room s1 = sf_room s /\ sf_source s1 = sf_source s) as [-> ->] by (unfold s1; by case_bool_decide).
  rewrite Hr. set (rm' := room_remove _ _ _ _ rm) in *. unfold room_empty. case_bool_decide.
  - by apply ok_drop_room.
  - eapply ok_settle; [|done|exact Hok']. apply lookup_insert_eq.
Qed.

(** A room changed in what only its own fields bound. *)
Lemma ok_addSource c kind codec s s' : sfu_ok lim None s -> addSource c kind codec s = Some s' -> sfu_ok lim None s'.
Proof.
  intros Hok E. unfold addSource in E. destruct (sf_conn s !! c) as [k|] eqn:Hk; [|done]. simpl in E.
  destruct (sf_room s !! cn_room k) as [rm|] eqn:Hr; [|done]. simpl in E.
  destruct (rm_gone rm || _)%bool eqn:Hg; [done|]. bool_hyps.
  injection E as <-. set (id := u32 _). set (v := mkSource _ _ _ _ _ _). set (rm' := mkRoom _ _ _ _ _ _ _).
  pose proof (ok_new_source lim None s v Hok) as Hok1.
  assert (sf_source s !! sf_next s = None) as Hfresh by (apply (ok_fresh _ _ _ Hok); lia).
  assert (sfu_ok lim None (set_room (cn_room k) rm' (bump (set_source (sf_next s) v s)))) as Hok2; [|exact Hok2].
  apply (ok_set_room lim None _ _ rm); try done.
  pose proof (ok_room _ _ _ Hok1 _ _ Hr) as [P1 P2 P3 P4 P5 P6 P7]. split; try done.
  intros i x. unfold rm'. simpl. destruct (decide (id = i)) as [<-|].
  - rewrite lookup_insert_eq. intros [= <-]. exists c, (cn_user k), kind, (cn_id k). split_and!; [| |done].
    + unfold source_at. simpl. by rewrite lookup_insert_eq.
    + unfold conn_at. simpl. by rewrite Hk.
  - rewrite lookup_insert_ne by done. apply P7.
Qed.

Lemma ok_removeSource x s s' : sfu_ok lim None s -> removeSource x s = Some s' -> sfu_ok lim None s'.
Proof.
  intros Hok E. unfold removeSource in E. destruct (sf_source s !! x) as [v|]; [|done]. simpl in E.
  destruct (sf_conn s !! src_conn v) as [k|]; [|done]. simpl in E.
  destruct (sf_room s !! cn_room k) as [rm|] eqn:Hr; [|done]. simpl in E. injection E as <-.
  case_bool_decide; [|done]. apply (ok_set_room lim None _ _ rm); try done.
  pose proof (ok_room _ _ _ Hok _ _ Hr) as [P1 P2 P3 P4 P5 P6 P7]. split; try done. simpl.
  intros i y [_ ?]%lookup_delete_Some. by apply P7.
Qed.

Lemma ok_SetExclusion r receiver users s s' :
  sfu_ok lim None s -> SetExclusion r receiver users s = Some s' -> sfu_ok lim None s'.
Proof.
  intros Hok E. unfold SetExclusion in E. destruct (sf_room s !! r) as [rm|] eqn:Hr; [|done]. simpl in E.
  unfold room_exclude in E. destruct (Z.eqb_spec (count_of (rm_perUser rm) receiver) 0) as [|Hn]; [done|]. simpl in E.
  injection E as <-. apply (ok_set_room lim None _ _ rm); try done.
  pose proof (ok_room _ _ _ Hok _ _ Hr) as [P1 P2 P3 P4 P5 P6 P7]. split; try done. simpl.
  intros u. assert (is_Some (rm_perUser rm !! receiver)) as Hrec.
  { unfold count_of in Hn. destruct (rm_perUser rm !! receiver); [by eexists|done]. }
  destruct users.
  - intros [y [_ Hy]%lookup_delete_Some]. apply P6. by exists y.
  - intros [<-|[_ ?]]%lookup_insert_is_Some; [done|by apply P6].
Qed.

Lemma ok_Close s : sfu_ok lim None s -> sfu_ok lim None (Close s).2.
Proof.
  intros Hok. unfold Close. destruct (sf_closed s); [done|]. cbn [snd].
  destruct Hok as [K1 K2 K3 K4 K5 K6 K7 K8 K9].
  assert (forall r, shut_listed s !! r = (fun rm => if bool_decide (sf_rooms s !! rm_id rm = Some r) then room_shut rm else rm) <$> sf_room s !! r) as Hsh.
  { intros r. unfold shut_listed. rewrite map_lookup_imap. by destruct (sf_room s !! r). }
  split; try done; simpl.
  - intros id r (rm & H1 & H2 & H3)%K1. rewrite Hsh, H1. simpl. eexists. split; [done|]. by case_bool_decide.
  - intros r rm. rewrite Hsh. destruct (sf_room s !! r) as [rm0|] eqn:Hr; [|done]. simpl. intros [= <-].
    case_bool_decide; [done|]. intros Hg. by rewrite (K2 _ _ Hr Hg) in H.
  - intros r rm. rewrite Hsh. destruct (sf_room s !! r) as [rm0|] eqn:Hr; [|done]. simpl. intros [= <-].
    apply (room_ok_mono lim s); try done. destruct (K3 _ _ Hr). by case_bool_decide.
  - intros id c (r & u & rm & H1 & H2 & H3)%K4. exists r, u. rewrite Hsh, H2. eexists. split_and!; [done|by simpl|].
    by case_bool_decide.
  - intros c r id u [rm H]%K6. rewrite Hsh, H. by eexists.
  - intros n Hn. rewrite Hsh. destruct (K9 n Hn) as (-> & ?). done.
Qed.

(** Every section keeps the invariant. *)
Lemma ok_do l s : sfu_ok lim None s -> sfu_ok lim None (voice_do lim l s).
Proof using Hlim laws.
  intros Hok. destruct l; simpl.
  - by apply ok_reserve.
  - destruct (negotiated c n s) eqn:E; [by eapply ok_negotiated|done].
  - eapply sfu_ok_alike; [|done]. by apply alike_update_conn.
  - destruct (onSubscribe pin drop cap); [|done]. eapply sfu_ok_alike; [|done]. by apply alike_update_conn.
  - destruct (addSource c kind codec s) eqn:E; [by eapply ok_addSource|done].
  - destruct (removeSource x s) eqn:E; [by eapply ok_removeSource|done].
  - destruct (assignLocked judge r s) as [[s' m]|] eqn:E; [|done]. eapply sfu_ok_alike; [|done]. by eapply alike_assign.
  - destruct (SetExclusion r receiver users s) eqn:E; [by eapply ok_SetExclusion|done].
  - eapply sfu_ok_alike; [|done]. apply alike_closeFor.
  - destruct (sf_conn s !! c) as [k|]; [|done]. destruct (cn_closed k); [by apply ok_forget|done].
  - by apply (sfu_ok_alike lim None s).
  - by apply (sfu_ok_alike lim None s).
  - unfold CloseRoom. set (s1 := set_cutoffs _ _ _ _). assert (sfu_ok lim None s1) by by apply (sfu_ok_alike lim None s).
    destruct (sf_rooms s1 !! roomID); simpl; [|done]. by apply ok_drop_room, ok_weaken.
  - by apply (sfu_ok_alike lim None s).
  - by apply ok_Close.
Qed.

Lemma ok_run ls s : sfu_ok lim None s -> sfu_ok lim None (voice_run lim ls s).
Proof using Hlim laws. revert s. induction ls as [|l ls IH]; intros s Hok; simpl; [done|]. by apply IH, ok_do. Qed.

Lemma ok_reached ls : sfu_ok lim None (voice_run lim ls newSFU).
Proof using Hlim laws. apply ok_run, ok_new. Qed.
End system.
