(* ===== verification/VoiceEviction.v ===== *)
(** That an eviction from voice holds (backend/internal/voice/sfu.go): the calls that evict and the closes they
    have yet to make, the readings of the clock, and what every critical section does to the connections an
    eviction is about. *)
From S2P Require Import Prelude GoStd Snowflake VoiceSlot Sfu VoiceSelect VoiceRoom.

Section evictions.
Context {LD : Loudness} {laws : LoudnessLaws LD} (lim : Limits) (Hlim : limits_valid lim = true).

(** The connections an evicting section hands to the calls that close them. *)
Definition victims (l : VoiceStep) (s : SFU) : list nat :=
  match l with
  | VEvict now roomID user cut => (Evict lim now roomID user cut s).1
  | VEvictConnection now connID => (EvictConnection lim now connID s).1
  | VCloseRoom now roomID cut => (CloseRoom lim now roomID cut s).1
  | VStop => (Close s).1
  | _ => []
  end.

(** The server, and the connections that a running call of [closeAll] or [closeFor] is about to close. *)
Record VoiceWorld := mkWorld { wd_sfu : SFU; wd_doomed : gset nat }.

Definition world_do (l : VoiceStep) (w : VoiceWorld) : VoiceWorld :=
  mkWorld (voice_do lim l (wd_sfu w))
    (match l with
     | VClosing c _ => wd_doomed w ∖ {[c]}
     | _ => wd_doomed w ∪ list_to_set (victims l (wd_sfu w))
     end).

Definition world_run (ls : list VoiceStep) (w : VoiceWorld) : VoiceWorld := foldl (fun w l => world_do l w) w ls.

(** The reading of the clock a section acts on. *)
Definition reading (l : VoiceStep) : option Z :=
  match l with
  | VReserve now _ _ _ _ | VEvict now _ _ _ | VEvictConnection now _ | VCloseRoom now _ _ | VSweep now => Some now
  | _ => None
  end.

(** Readings never earlier than those of the sections before them. *)
Fixpoint in_order (t : Z) (ls : list VoiceStep) : Prop :=
  match ls with
  | [] => True
  | l :: ls => match reading l with Some n => t <= n /\ in_order n ls | None => in_order t ls end
  end.

(** ** What a section does to a connection *)

Definition person (k : conn) : nat * Z * Z * Z := (cn_room k, cn_id k, cn_user k, cn_issued k).
Definition closes (l : VoiceStep) (c : nat) : bool := match l with VClosing c' _ => (c' =? c)%nat | _ => false end.
Definition life (k : conn) : nat * Z * Z * Z * bool := (person k, cn_closed k).

Lemma fill_conns_life judge rm sources speaking cs s fills moved s' fills' moved' :
  fill_conns judge rm sources speaking cs s fills moved = Some (s', fills', moved') ->
  map_facts life (sf_conn s) (sf_conn s') /\ same_tables s s'.
Proof.
  revert s fills moved. induction cs as [|c cs IH]; intros s fills moved E; simpl in E.
  { injection E as <- _ _. split; [done|by split]. }
  rewrite fill_conn_unfold in E. destruct (sf_conn s !! c) as [k|] eqn:Hk; [|done]. simpl in E.
  destruct (conn_fill judge s rm sources k) as [placed|]; [|done]. simpl in E. apply IH in E as [E T].
  split; [|by apply (same_tables_trans _ _ _ (mkSame s (with_fill c _ placed s) eq_refl eq_refl eq_refl eq_refl eq_refl eq_refl eq_refl eq_refl) T)].
  intros x. rewrite E. simpl. destruct (decide (c = x)) as [<-|]; [|by rewrite lookup_insert_ne].
  rewrite lookup_insert_eq, Hk. simpl. f_equal. unfold recorded, setSlotMap, setSpeaking.
  by repeat (case_bool_decide; simpl).
Qed.

Lemma assign_life judge r s s' moved :
  assignLocked judge r s = Some (s', moved) -> map_facts life (sf_conn s) (sf_conn s') /\ same_tables s s'.
Proof.
  intros E. destruct (sf_room s !! r) as [rm|] eqn:Hr; [|unfold assignLocked in E; by rewrite Hr in E].
  destruct (rm_gone rm) eqn:Hg.
  - unfold assignLocked in E. rewrite Hr in E. simpl in E. rewrite Hg in E. injection E as <- _. split; [done|by split].
  - rewrite (assign_unfold judge r s rm Hr Hg) in E.
    destruct (fill_conns _ _ _ _ _ _ _ _) as [[[s1 f] m]|] eqn:Ef; [|done]. simpl in E. injection E as <- _.
    apply fill_conns_life in Ef as [H T]. split; [done|]. apply (same_tables_trans _ _ _ T). by split.
Qed.

(** What a provision that is let in comes to. *)
Lemma reserve_shape now roomID user connID issued s :
  sfu_ok lim None s ->
  (exists e, reserve lim now roomID user connID issued s = (inl e, s)) \/
  (refused lim now roomID user connID issued s = None /\
   exists r rm c s', reserve lim now roomID user connID issued s = (inr c, s') /\
     rm_id rm = roomID /\ sf_rooms s' !! roomID = Some r /\ sf_room s' !! r = Some (room_add c connID user rm) /\
     (sf_room s !! r = Some rm \/ sf_room s !! r = None) /\
     (forall r', r' <> r -> sf_room s' !! r' = sf_room s !! r') /\
     (forall id r', sf_rooms s !! id = Some r' -> sf_rooms s' !! id = Some r') /\
     sf_conn s' = <[c := new_conn r connID user issued]> (sf_conn s) /\ sf_conn s !! c = None /\
     sf_cutoffs s' = sf_cutoffs s /\ sf_closedRooms s' = sf_closedRooms s /\ sf_evictedConns s' = sf_evictedConns s /\
     rm_conns rm !! connID = None).
Proof using Hlim.
  intros Hok. pose proof (limits_positive lim Hlim) as (L1 & L2 & L3 & _). unfold reserve.
  destruct (refused _ _ _ _ _ _ s) eqn:Href; [left; eauto|].
  assert (sf_conns s !! connID = None) as Hno.
  { destruct (sf_conns s !! connID) eqn:E; [|done]. exfalso. revert Href. unfold refused. rewrite E.
    rewrite (bool_decide_true (is_Some (Some _))) by by eexists. by repeat case_match. }
  unfold room_for. destruct (sf_rooms s !! roomID) as [r|] eqn:Er.
  - destruct (ok_rooms _ _ _ Hok _ _ Er) as (rm & Hr & Hid & [Hne|[=]]). rewrite Hr. simpl.
    destruct (room_admit lim user rm) eqn:Ha; simpl.
    2: { left. unfold room_empty. rewrite (bool_decide_false _ Hne). eauto. }
    right. split; [done|]. exists r, rm, (sf_next s). eexists. split; [done|]. simpl. rewrite lookup_insert_eq.
    split_and!; try done; [by left| |apply (ok_fresh _ _ _ Hok); lia|].
    + intros r' ?. by rewrite lookup_insert_ne.
    + destruct (rm_conns rm !! connID) eqn:E; [|done].
      apply (ro_conns _ _ _ _ (ok_room _ _ _ Hok _ _ Hr)) in E as [E _]. congruence.
  - destruct (Z.leb_spec (Rooms lim) (Z.of_nat (size (sf_rooms s)))); [left; eauto|].
    simpl. rewrite lookup_insert_eq. simpl.
    assert (room_admit lim user (newRoom roomID) = true) as ->.
    { unfold room_admit, newRoom, count_of. simpl. rewrite map_size_empty, lookup_empty. simpl.
      apply andb_true_iff. split; apply Z.ltb_lt; lia. }
    right. split; [done|]. exists (sf_next s), (newRoom roomID), (S (sf_next s)). eexists. split; [done|]. simpl.
    rewrite !lookup_insert_eq. split_and!; try done.
    + right. apply (ok_fresh _ _ _ Hok). lia.
    + intros r' ?. by rewrite !lookup_insert_ne.
    + intros id r' ?. rewrite lookup_insert_ne; [done|congruence].
    + apply (ok_fresh _ _ _ Hok). lia.
Qed.

(** A connection stays who it is; only its closing closes it. *)
Lemma person_after l s c k :
  sfu_ok lim None s -> sf_conn s !! c = Some k ->
  exists k', sf_conn (voice_do lim l s) !! c = Some k' /\ person k' = person k /\ cn_closed k' = (cn_closed k || closes l c).
Proof using Hlim.
  intros Hok Hk.
  assert (forall f c', (forall k, life (f k) = life k) ->
    exists k', sf_conn (update_conn f c' s) !! c = Some k' /\ person k' = person k /\ cn_closed k' = (cn_closed k || false)) as Hup.
  { intros f c' Hf. unfold update_conn. destruct (sf_conn s !! c') as [k1|] eqn:E1; [|exists k; by rewrite orb_false_r].
    simpl. destruct (decide (c' = c)) as [->|]; [|rewrite lookup_insert_ne by done; exists k; by rewrite orb_false_r].
    rewrite lookup_insert_eq. exists (f k1). rewrite orb_false_r. simplify_eq.
    specialize (Hf k). split_and!; [done|exact (f_equal fst Hf)|exact (f_equal snd Hf)]. }
  assert (exists k', Some k = Some k' /\ person k' = person k /\ cn_closed k' = (cn_closed k || false)) as Hsame
    by (exists k; by rewrite orb_false_r).
  destruct l; simpl; try (rewrite Hk; exact Hsame).
  - destruct (reserve_shape now roomID user connID issued s Hok) as [[e ->]|(_ & r & rm & n & s' & -> & H)]; simpl; [by rewrite Hk|].
    destruct H as (_ & _ & _ & _ & _ & _ & -> & Hn & _). rewrite lookup_insert_ne by congruence. by rewrite Hk.
  - unfold negotiated. destruct (sf_conn s !! c0) as [k0|] eqn:E0; simpl; [|by rewrite Hk].
    case_bool_decide; simpl; [|by rewrite Hk]. destruct (decide (c0 = c)) as [->|]; [|by rewrite lookup_insert_ne, Hk].
    rewrite lookup_insert_eq. eexists. split; [done|]. simplify_eq. by rewrite orb_false_r.
  - by apply Hup.
  - destruct (onSubscribe pin drop cap); [by apply Hup|by rewrite Hk].
  - unfold addSource. destruct (sf_conn s !! c0) as [k0|]; simpl; [|by rewrite Hk].
    destruct (sf_room s !! cn_room k0) as [rm|]; simpl; [|by rewrite Hk].
    destruct (rm_gone rm || _)%bool; simpl; by rewrite Hk.
  - unfold removeSource. destruct (sf_source s !! x) as [v|]; simpl; [|by rewrite Hk].
    destruct (sf_conn s !! src_conn v) as [k0|]; simpl; [|by rewrite Hk].
    destruct (sf_room s !! cn_room k0) as [rm|]; simpl; [|by rewrite Hk].
    case_bool_decide; simpl; by rewrite Hk.
  - destruct (assignLocked judge r s) as [[s' m]|] eqn:E; [|by rewrite Hk]. apply assign_life in E as [H _].
    specialize (H c). rewrite Hk in H. simpl in H. destruct (sf_conn s' !! c) as [k'|]; [|done]. exists k'.
    injection H as H1 H2 H3 H4 H5. rewrite orb_false_r. unfold person. by rewrite H1, H2, H3, H4.
  - unfold SetExclusion. destruct (sf_room s !! r) as [rm|]; simpl; [|by rewrite Hk].
    destruct (room_exclude receiver users rm); simpl; by rewrite Hk.
  - unfold closeFor. destruct (sf_conn s !! c0) as [k0|] eqn:E0; simpl.
    2: { rewrite Hk. exists k. split_and!; try done. destruct (Nat.eqb_spec c0 c); [congruence|by rewrite orb_false_r]. }
    destruct (cn_closed k0) eqn:Ec; simpl.
    { rewrite Hk. exists k. split_and!; try done. destruct (Nat.eqb_spec c0 c); [|by rewrite orb_false_r]. simplify_eq. by rewrite Ec. }
    destruct (Nat.eqb_spec c0 c) as [->|]; [|by rewrite lookup_insert_ne, Hk, orb_false_r by done; exists k].
    rewrite lookup_insert_eq. eexists. split; [done|]. simplify_eq. by rewrite orb_true_r.
  - destruct (sf_conn s !! c0) as [k0|]; [|by rewrite Hk]. destruct (cn_closed k0); [|by rewrite Hk].
    assert (sf_conn (forget c0 s) = sf_conn s) as ->; [|by rewrite Hk].
    unfold forget, dropRoomLocked. repeat (case_match; simpl; try done).
  - unfold CloseRoom. set (s1 := set_cutoffs _ _ _ _). destruct (sf_rooms s1 !! roomID); simpl; [|by rewrite Hk].
    assert (sf_conn (dropRoomLocked n s1) = sf_conn s) as ->; [|by rewrite Hk].
    unfold dropRoomLocked. repeat (case_match; simpl; try done).
  - unfold Close. destruct (sf_closed s); simpl; by rewrite Hk.
Qed.

(** A room's tables after a room is dropped. *)
Lemma drop_shape r s :
  (forall r', rm_id <$> sf_room (dropRoomLocked r s) !! r' = rm_id <$> sf_room s !! r') /\
  (forall r', rm_conns <$> sf_room (dropRoomLocked r s) !! r' = rm_conns <$> sf_room s !! r') /\
  (forall id r', r' <> r -> sf_rooms s !! id = Some r' -> sf_rooms (dropRoomLocked r s) !! id = Some r').
Proof.
  unfold dropRoomLocked. destruct (sf_room s !! r) as [rm|] eqn:Hr; [|done].
  assert (forall id r', r' <> r -> sf_rooms s !! id = Some r' ->
     sf_rooms s !! rm_id rm = Some r -> delete (rm_id rm) (sf_rooms s) !! id = Some r') as Hdel.
  { intros id r' Hne H H'. rewrite lookup_delete_ne; [done|]. intros <-. congruence. }
  split; [|split].
  - intros r'. case_bool_decide; simpl; (destruct (decide (r = r')) as [<-|];
      [by rewrite lookup_insert_eq, Hr|by rewrite lookup_insert_ne]).
  - intros r'. case_bool_decide; simpl; (destruct (decide (r = r')) as [<-|];
      [by rewrite lookup_insert_eq, Hr|by rewrite lookup_insert_ne]).
  - intros id r' Hne H. case_bool_decide; simpl; [by apply Hdel|done].
Qed.

(** What a room held and still holds. *)
Definition still_there (s s' : SFU) (r : nat) (rm : room) (id : Z) (c : nat) : Prop :=
  exists rm', sf_room s' !! r = Some rm' /\ rm_id rm' = rm_id rm /\ rm_conns rm' !! id = Some c.

Lemma drop_still r r' s rm id c :
  sf_room s !! r = Some rm -> rm_conns rm !! id = Some c -> still_there s (dropRoomLocked r' s) r rm id c.
Proof.
  intros Hr Hc. destruct (drop_shape r' s) as (H1 & H2 & _). specialize (H1 r). specialize (H2 r).
  rewrite Hr in H1, H2. unfold still_there. destruct (sf_room (dropRoomLocked r' s) !! r) as [rm'|]; [|done].
  simpl in *. injection H1 as H1. injection H2 as H2. exists rm'. by rewrite H2.
Qed.

(** A connection that is not closed keeps its place, and its room its listing unless it is handed to be closed. *)
Lemma members_after l s r rm id c k :
  sfu_ok lim None s -> sf_room s !! r = Some rm -> rm_conns rm !! id = Some c -> sf_conn s !! c = Some k ->
  cn_closed k = false ->
  still_there s (voice_do lim l s) r rm id c /\
  (sf_rooms s !! rm_id rm = Some r -> sf_rooms (voice_do lim l s) !! rm_id rm = Some r \/ c ∈ victims l s).
Proof using Hlim.
  intros Hok Hr Hc Hk Hopen.
  assert (still_there s s r rm id c) as Hsame by (exists rm; done).
  assert (forall s', sf_room s' = sf_room s -> sf_rooms s' = sf_rooms s -> still_there s s' r rm id c /\
    (sf_rooms s !! rm_id rm = Some r -> sf_rooms s' !! rm_id rm = Some r \/ c ∈ victims l s)) as Hunch.
  { intros s' E1 E2. unfold still_there. rewrite E1, E2. split; [by exists rm|by left]. }
  assert (forall r0 rm0, sf_room s !! r0 = Some rm0 -> forall rm0', rm_id rm0' = rm_id rm0 -> rm_conns rm0' = rm_conns rm0 ->
    still_there s (set_room r0 rm0' s) r rm id c) as Hset.
  { intros r0 rm0 H0 rm0' E1 E2. unfold still_there. simpl. destruct (decide (r0 = r)) as [->|].
    - rewrite lookup_insert_eq. exists rm0'. simplify_eq. by rewrite E2.
    - rewrite lookup_insert_ne by done. by exists rm. }
  destruct l; try (by apply Hunch); simpl; try (by apply Hunch).
  - destruct (reserve_shape now roomID user connID issued s Hok) as [[e ->]|(_ & r0 & rm0 & n & s' & -> & H)]; [by apply Hunch|].
    destruct H as (_ & _ & Hr0 & Hold & Hother & Hrooms & _ & _ & _ & _ & _ & Hnew). simpl. split; [|left; by apply Hrooms].
    unfold still_there. destruct (decide (r = r0)) as [->|]; [|rewrite Hother by done; by exists rm].
    destruct Hold as [Hold|Hold]; [|congruence]. simplify_eq. rewrite Hr0. eexists. split_and!; [done..|]. simpl.
    rewrite lookup_insert_ne; [done|congruence].
  - apply Hunch; unfold negotiated; destruct (sf_conn s !! c0); simpl; try done; by case_bool_decide.
  - apply Hunch; unfold update_conn; by destruct (sf_conn s !! c0).
  - apply Hunch; destruct (onSubscribe pin drop cap); try done; unfold update_conn; by destruct (sf_conn s !! c0).
  - unfold addSource. destruct (sf_conn s !! c0) as [k0|]; simpl; [|by apply Hunch].
    destruct (sf_room s !! cn_room k0) as [rm0|] eqn:H0; simpl; [|by apply Hunch].
    destruct (rm_gone rm0 || _)%bool; simpl; [by apply Hunch|]. split; [by eapply Hset|by left].
  - unfold removeSource. destruct (sf_source s !! x) as [v|]; simpl; [|by apply Hunch].
    destruct (sf_conn s !! src_conn v) as [k0|]; simpl; [|by apply Hunch].
    destruct (sf_room s !! cn_room k0) as [rm0|] eqn:H0; simpl; [|by apply Hunch].
    case_bool_decide; simpl; [|by apply Hunch]. split; [by eapply Hset|by left].
  - destruct (assignLocked judge r0 s) as [[s' m]|] eqn:E; [|by apply Hunch]. apply assign_life in E as [_ T].
    apply Hunch; apply T.
  - unfold SetExclusion. destruct (sf_room s !! r0) as [rm0|] eqn:H0; simpl; [|by apply Hunch].
    unfold room_exclude. destruct (_ =? 0); simpl; [by apply Hunch|]. split; [by eapply Hset|by left].
  - apply Hunch; unfold closeFor; destruct (sf_conn s !! c0) as [k0|]; try done; by destruct (cn_closed k0).
  - destruct (sf_conn s !! c0) as [k0|] eqn:Hk0; [|by apply Hunch]. destruct (cn_closed k0) eqn:Ec; [|by apply Hunch].
    assert (c <> c0) as Hne by congruence.
    unfold forget. rewrite Hk0. set (s1 := if bool_decide _ then _ else s).
    assert (sf_room s1 = sf_room s /\ sf_source s1 = sf_source s /\ sf_rooms s1 = sf_rooms s) as (E1 & E2 & E3)
      by (unfold s1; by case_bool_decide).
    rewrite E1, E2. destruct (sf_room s !! cn_room k0) as [rm0|] eqn:H0.
    2: { unfold still_there. rewrite E1, E3. split; [by exists rm|by left]. }
    set (rm0' := room_remove _ _ _ _ rm0).
    assert (rm_id rm0' = rm_id rm0 /\ (forall i, rm_conns rm0 !! i = Some c -> rm_conns rm0' !! i = Some c)) as [F1 F2].
    { unfold rm0', room_remove. case_bool_decide; simpl; [|done]. split; [done|]. intros i Hi.
      rewrite lookup_delete_ne; [done|congruence]. }
    assert (still_there s (set_room (cn_room k0) rm0' s1) r rm id c) as Hthere.
    { unfold still_there. simpl. rewrite E1. destruct (decide (cn_room k0 = r)) as [<-|].
      - rewrite lookup_insert_eq. exists rm0'. simplify_eq. split_and!; [done|done|]. by apply F2.
      - rewrite lookup_insert_ne by done. by exists rm. }
    destruct (room_empty rm0') eqn:He; simpl; [|split; [done|left; by rewrite E3]].
    unfold room_empty in He. apply bool_decide_eq_true in He.
    assert (cn_room k0 <> r) as Hr0.
    { intros <-. simplify_eq. apply F2 in Hc. by rewrite He in Hc. }
    destruct Hthere as (rm1 & T1 & T2 & T3). split.
    + destruct (drop_still r (cn_room k0) _ _ _ _ T1 T3) as (rm2 & ? & ? & ?). exists rm2. split_and!; [done|congruence|done].
    + intros Hl. left. apply (drop_shape (cn_room k0)); [done|]. simpl. by rewrite E3.
  - unfold CloseRoom. set (s1 := set_cutoffs _ _ _ _). destruct (sf_rooms s1 !! roomID) as [r0|] eqn:H0; simpl; [|split; [by exists rm|by left]].
    split; [by apply (drop_still r r0 s1)|]. intros Hl. destruct (decide (r = r0)) as [->|].
    + right. unfold room_members. change (sf_room s1) with (sf_room s). rewrite Hr.
      apply list_elem_of_fmap. exists (id, c). split; [done|]. by apply elem_of_map_to_list.
    + left. by apply (drop_shape r0 s1).
  - unfold Close. destruct (sf_closed s) eqn:Ecl; simpl; [split; [by exists rm|by left]|]. split; [|by left].
    unfold still_there. simpl. unfold shut_listed. rewrite map_lookup_imap, Hr. simpl. eexists. split; [done|]. by case_bool_decide.
Qed.

(** Only a provision let in makes a connection. *)
Lemma newcomer_after l s c k' :
  sfu_ok lim None s -> sf_conn s !! c = None -> sf_conn (voice_do lim l s) !! c = Some k' ->
  exists now roomID user connID issued rm, l = VReserve now roomID user connID issued /\
    refused lim now roomID user connID issued s = None /\ cn_id k' = connID /\ cn_user k' = user /\
    cn_issued k' = issued /\ sf_room (voice_do lim l s) !! cn_room k' = Some rm /\ rm_id rm = roomID /\
    rm_conns rm !! connID = Some c /\ sf_rooms (voice_do lim l s) !! roomID = Some (cn_room k').
Proof using Hlim.
  intros Hok Hno Hk'.
  assert (forall s', (forall x, sf_conn s !! x = None -> sf_conn s' !! x = None) -> sf_conn s' !! c = Some k' -> False) as Hfalse.
  { intros s' H E. rewrite (H c Hno) in E. done. }
  assert (forall f c', sf_conn (update_conn f c' s) !! c = Some k' -> False) as Hup.
  { intros f c'. unfold update_conn. destruct (sf_conn s !! c') eqn:E; simpl; [|congruence].
    rewrite lookup_insert_ne by congruence. congruence. }
  destruct l; simpl in Hk'; try (exfalso; congruence).
  - destruct (reserve_shape now roomID user connID issued s Hok) as [[e E]|(Href & r & rm & n & s' & E & H)];
      rewrite E in Hk'; simpl in Hk'; [congruence|].
    destruct H as (H1 & H2 & H3 & _ & _ & _ & H4 & _). rewrite H4 in Hk'.
    assert (n = c) as -> by (destruct (decide (n = c)); [done|rewrite lookup_insert_ne in Hk' by done; congruence]).
    rewrite lookup_insert_eq in Hk'. injection Hk' as <-.
    exists now, roomID, user, connID, issued, (room_add c connID user rm). simpl. rewrite E. simpl.
    split_and!; try done. by rewrite lookup_insert_eq.
  - exfalso. unfold negotiated in Hk'. destruct (sf_conn s !! c0) eqn:E; simpl in Hk'; [|congruence].
    case_bool_decide; simpl in Hk'; [|congruence]. rewrite lookup_insert_ne in Hk' by congruence. congruence.
  - destruct (onSubscribe pin drop cap); [by apply Hup in Hk'|congruence].
  - exfalso. unfold addSource in Hk'. destruct (sf_conn s !! c0) as [k0|]; simpl in Hk'; [|congruence].
    destruct (sf_room s !! cn_room k0) as [rm0|]; simpl in Hk'; [|congruence].
    destruct (rm_gone rm0 || _)%bool; simpl in Hk'; congruence.
  - exfalso. unfold removeSource in Hk'. destruct (sf_source s !! x) as [v|]; simpl in Hk'; [|congruence].
    destruct (sf_conn s !! src_conn v) as [k0|]; simpl in Hk'; [|congruence].
    destruct (sf_room s !! cn_room k0) as [rm0|]; simpl in Hk'; [|congruence].
    case_bool_decide; simpl in Hk'; congruence.
  - exfalso. destruct (assignLocked judge r s) as [[s' m]|] eqn:E; [|congruence]. apply assign_life in E as [H _].
    specialize (H c). rewrite Hno, Hk' in H. done.
  - exfalso. unfold SetExclusion in Hk'. destruct (sf_room s !! r) as [rm0|]; simpl in Hk'; [|congruence].
    destruct (room_exclude receiver users rm0); simpl in Hk'; congruence.
  - exfalso. unfold closeFor in Hk'. destruct (sf_conn s !! c0) as [k0|] eqn:E; [|simpl in Hk'; congruence].
    destruct (cn_closed k0); simpl in Hk'; [congruence|]. rewrite lookup_insert_ne in Hk' by congruence. congruence.
  - exfalso. destruct (sf_conn s !! c0) as [k0|]; [|congruence]. destruct (cn_closed k0); [|congruence].
    assert (sf_conn (forget c0 s) = sf_conn s) as E; [|congruence].
    unfold forget, dropRoomLocked. repeat (case_match; simpl; try done).
  - exfalso. unfold CloseRoom in Hk'. set (s1 := set_cutoffs _ _ _ _) in *.
    destruct (sf_rooms s1 !! roomID); simpl in Hk'; [|congruence].
    assert (sf_conn (dropRoomLocked n s1) = sf_conn s) as E; [|congruence].
    unfold dropRoomLocked. repeat (case_match; simpl; try done).
  - exfalso. unfold Close in Hk'. destruct (sf_closed s); simpl in Hk'; congruence.
Qed.

(** ** The bars an eviction leaves *)

(** Who an eviction is about: an account in a room, everybody in a room, or one connection, each as far as it
    was issued at or before an identifier. *)
Inductive Bar :=
| BarUser (roomID user cut : Z)
| BarRoom (roomID cut : Z)
| BarConn (connID cut : Z).

Definition bar_cut (b : Bar) : Z := match b with BarUser _ _ cut | BarRoom _ cut | BarConn _ cut => cut end.

Definition barred (b : Bar) (roomID user connID issued : Z) : Prop :=
  issued <= bar_cut b /\
  match b with
  | BarUser r u _ => r = roomID /\ u = user
  | BarRoom r _ => r = roomID
  | BarConn i _ => i = connID
  end.

(** The evicting section, at a reading of the clock. *)
Definition bar_step (t : Z) (b : Bar) : VoiceStep :=
  match b with
  | BarUser roomID user cut => VEvict t roomID user cut
  | BarRoom roomID cut => VCloseRoom t roomID cut
  | BarConn connID _ => VEvictConnection t connID
  end.

(** The cutoff of an eviction made at [t] is kept, at least until it can refuse nothing. *)
Definition cut_kept (t cut : Z) (o : option cutoff) : Prop :=
  exists e, o = Some e /\ cut <= ct_id e /\ t + ProvisionTimeout lim <= ct_until e.

Definition bar_kept (t clock : Z) (b : Bar) (s : SFU) : Prop :=
  t + ProvisionTimeout lim <= clock \/
  match b with
  | BarUser roomID user cut => cut_kept t cut (sf_cutoffs s !! (roomID, user))
  | BarRoom roomID cut => cut_kept t cut (sf_closedRooms s !! roomID)
  | BarConn connID _ => exists until, sf_evictedConns s !! connID = Some until /\ t + ProvisionTimeout lim <= until
  end.

Lemma issued_at_mono i j : i <= j -> issued_at i <= issued_at j.
Proof.
  intros H. unfold issued_at, ID_Time, timestampShift. assert (Z.shiftr i 22 <= Z.shiftr j 22); [|change (sequenceBits + nodeBits) with 22; unfold millis; lia].
  rewrite !Z.shiftr_div_pow2 by lia. by apply Z.div_le_mono.
Qed.

(** A provision an eviction is about is refused as long as its bar is kept. *)
Lemma barred_refused t clock now b s roomID user connID issued :
  bar_kept t clock b s -> clock <= now -> issued_at (bar_cut b) <= t -> barred b roomID user connID issued ->
  refused lim now roomID user connID issued s <> None.
Proof.
  intros Hkept Hnow Hminted [Hcut Hb] Href. apply issued_at_mono in Hcut as Hat. unfold refused in Href.
  destruct (sf_closed s); [done|].
  destruct (Z.leb_spec (issued_at issued) (now - ProvisionTimeout lim)) as [|Hfresh]; [done|].
  assert (now < t + ProvisionTimeout lim) as Hsoon by lia. destruct Hkept as [?|Hkept]; [lia|].
  assert (forall o, cut_kept t (bar_cut b) o -> cut_off now issued o = true) as Hcutoff.
  { intros o (e & -> & ? & ?). simpl. apply andb_true_iff. split; [apply Z.ltb_lt|apply Z.leb_le]; lia. }
  destruct b as [r u cut|r cut|i cut]; simpl in *.
  - destruct Hb as [-> ->]. by rewrite (Hcutoff _ Hkept) in Href.
  - subst. destruct (cut_off now issued (sf_cutoffs s !! _)); [done|]. by rewrite (Hcutoff _ Hkept) in Href.
  - subst. destruct (cut_off now issued (sf_cutoffs s !! _)); [done|].
    destruct (cut_off now issued (sf_closedRooms s !! _)); [done|]. destruct Hkept as (until & E & ?). rewrite E in Href.
    destruct (Z.ltb_spec now until); [done|lia].
Qed.

(** The tables of cutoffs change only in the evictions and the sweep. *)
Lemma cutoffs_after l s :
  sfu_ok lim None s ->
  (match l with VEvict _ _ _ _ | VEvictConnection _ _ | VCloseRoom _ _ _ | VSweep _ => True | _ => False end) \/
  (sf_cutoffs (voice_do lim l s) = sf_cutoffs s /\ sf_closedRooms (voice_do lim l s) = sf_closedRooms s /\
   sf_evictedConns (voice_do lim l s) = sf_evictedConns s).
Proof using Hlim.
  intros Hok. destruct l; simpl; try (by left); right; try done.
  - destruct (reserve_shape now roomID user connID issued s Hok) as [[e ->]|(_ & r & rm & n & s' & -> & H)]; [done|].
    by destruct H as (_ & _ & _ & _ & _ & _ & _ & _ & ? & ? & ? & _).
  - unfold negotiated. destruct (sf_conn s !! c); simpl; [|done]. by case_bool_decide.
  - unfold update_conn. by destruct (sf_conn s !! c).
  - destruct (onSubscribe pin drop cap); [|done]. unfold update_conn. by destruct (sf_conn s !! c).
  - unfold addSource. destruct (sf_conn s !! c); simpl; [|done]. destruct (sf_room s !! _) as [rm0|]; simpl; [|done].
    by destruct (rm_gone rm0 || _)%bool.
  - unfold removeSource. destruct (sf_source s !! x) as [v|]; simpl; [|done]. destruct (sf_conn s !! _); simpl; [|done].
    destruct (sf_room s !! _); simpl; [|done]. by case_bool_decide.
  - destruct (assignLocked judge r s) as [[s' m]|] eqn:E; [|done]. apply assign_life in E as [_ T]. by destruct T.
  - unfold SetExclusion. destruct (sf_room s !! r) as [rm0|]; simpl; [|done]. by destruct (room_exclude receiver users rm0).
  - unfold closeFor. destruct (sf_conn s !! c) as [k|]; [|done]. by destruct (cn_closed k).
  - destruct (sf_conn s !! c) as [k|]; [|done]. destruct (cn_closed k); [|done].
    unfold forget, dropRoomLocked. repeat (case_match; simpl; try done).
  - unfold Close. by destruct (sf_closed s).
Qed.

(** The clock after a section. *)
Definition clock_after (clock : Z) (l : VoiceStep) : Z := default clock (reading l).

Lemma raise_kept t now cut cut' o :
  t <= now -> cut_kept t cut o -> cut_kept t cut (Some (raise_cutoff lim now cut' o)).
Proof.
  intros Hnow (e & -> & ? & ?). eexists. split; [done|]. unfold raise_cutoff. simpl.
  split; [destruct (Z.ltb_spec (ct_id e) cut'); lia|lia].
Qed.

Lemma bar_made t b s : bar_kept t t b (voice_do lim (bar_step t b) s).
Proof.
  right. destruct b as [r u cut|r cut|i cut]; simpl.
  - rewrite lookup_insert_eq. eexists. split; [done|]. unfold raise_cutoff. simpl.
    destruct (sf_cutoffs s !! (r, u)) as [p|]; [destruct (Z.ltb_spec (ct_id p) cut)|]; simpl; lia.
  - unfold CloseRoom. set (s1 := set_cutoffs _ _ _ _).
    assert (forall n, sf_closedRooms (dropRoomLocked n s1) = sf_closedRooms s1) as Hd.
    { intros n. unfold dropRoomLocked. repeat (case_match; simpl; try done). }
    assert (cut_kept t cut (sf_closedRooms s1 !! r)) as Hk.
    { simpl. rewrite lookup_insert_eq. eexists. split; [done|]. unfold raise_cutoff. simpl.
      destruct (sf_closedRooms s !! r) as [p|]; [destruct (Z.ltb_spec (ct_id p) cut)|]; simpl; lia. }
    destruct (sf_rooms s1 !! r); simpl; [by rewrite Hd|done].
  - rewrite lookup_insert_eq. eexists. split; [done|]. lia.
Qed.

Lemma bar_after t clock b l s :
  sfu_ok lim None s -> t <= clock -> clock <= clock_after clock l -> bar_kept t clock b s ->
  bar_kept t (clock_after clock l) b (voice_do lim l s).
Proof using Hlim.
  intros Hok Ht Hclock [Hlate|Hkept]; [left; lia|].
  destruct (cutoffs_after l s Hok) as [Hl|(E1 & E2 & E3)]; [|right; by rewrite E1, E2, E3].
  destruct l; try done; unfold clock_after in *; simpl in *.
  - right. destruct b as [r u c|r c|i c]; simpl; try done.
    destruct (decide ((roomID, user) = (r, u))) as [[= -> ->]|]; [|by rewrite lookup_insert_ne].
    rewrite lookup_insert_eq. apply raise_kept; [lia|done].
  - right. destruct b as [r u c|r c|i c]; simpl; try done.
    destruct (decide (connID = i)) as [->|]; [|by rewrite lookup_insert_ne].
    rewrite lookup_insert_eq. eexists. split; [done|]. lia.
  - right. unfold CloseRoom. set (s1 := set_cutoffs _ _ _ _).
    assert (forall n, sf_cutoffs (dropRoomLocked n s1) = sf_cutoffs s1 /\ sf_closedRooms (dropRoomLocked n s1) = sf_closedRooms s1 /\
              sf_evictedConns (dropRoomLocked n s1) = sf_evictedConns s1) as Hd.
    { intros n. unfold dropRoomLocked. repeat (case_match; simpl; try done). }
    assert (match b with
            | BarUser r u c => cut_kept t c (sf_cutoffs s1 !! (r, u))
            | BarRoom r c => cut_kept t c (sf_closedRooms s1 !! r)
            | BarConn i _ => exists until, sf_evictedConns s1 !! i = Some until /\ t + ProvisionTimeout lim <= until
            end) as Hk.
    { destruct b as [r u c|r c|i c]; simpl; try done.
      destruct (decide (roomID = r)) as [->|]; [|by rewrite lookup_insert_ne].
      rewrite lookup_insert_eq. apply raise_kept; [lia|done]. }
    destruct (sf_rooms s1 !! roomID) as [n|]; simpl; [|exact Hk].
    destruct (Hd n) as (-> & -> & ->). exact Hk.
  - unfold bar_kept.
    destruct (decide (t + ProvisionTimeout lim <= now)) as [|Hsoon]; [by left|right].
    destruct b as [r u c|r c|i c]; simpl.
    + destruct Hkept as (e & E & ? & ?). exists e. split; [|done]. apply map_lookup_filter_Some. split; [done|simpl; lia].
    + destruct Hkept as (e & E & ? & ?). exists e. split; [|done]. apply map_lookup_filter_Some. split; [done|simpl; lia].
    + destruct Hkept as (u & E & ?). exists u. split; [|done]. apply map_lookup_filter_Some. split; [done|simpl; lia].
Qed.

(** ** Open connections are in their rooms, and their rooms listed or about to be emptied *)

Record world_ok (w : VoiceWorld) : Prop := mkWorldOk {
  wo_sfu : sfu_ok lim None (wd_sfu w);
  wo_open : forall c k, sf_conn (wd_sfu w) !! c = Some k -> cn_closed k = false ->
    exists rm, sf_room (wd_sfu w) !! cn_room k = Some rm /\ rm_conns rm !! cn_id k = Some c /\
      (sf_rooms (wd_sfu w) !! rm_id rm = Some (cn_room k) \/ c ∈ wd_doomed w)
}.

Definition newWorld : VoiceWorld := mkWorld newSFU ∅.

Lemma world_ok_new : world_ok newWorld.
Proof using Hlim laws. split; [by apply ok_new|]. intros c k H. simpl in H. by rewrite lookup_empty in H. Qed.

Lemma doomed_after l w c :
  closes l c = false -> c ∈ wd_doomed w \/ c ∈ victims l (wd_sfu w) -> c ∈ wd_doomed (world_do l w).
Proof.
  intros Hc Hin. destruct l; simpl in *; try set_solver. destruct Hin as [?|?%not_elem_of_nil]; [|done].
  apply Nat.eqb_neq in Hc. set_solver.
Qed.

Lemma world_ok_do l w : world_ok w -> world_ok (world_do l w).
Proof using Hlim laws.
  intros [Hok Hopen]. split; [by apply ok_do|]. simpl. intros c k' Hk' Hc'.
  destruct (sf_conn (wd_sfu w) !! c) as [k|] eqn:Hk.
  - destruct (person_after l _ c k Hok Hk) as (k1 & E1 & Hp & Hcl). rewrite E1 in Hk'. injection Hk' as ->.
    rewrite Hc' in Hcl. symmetry in Hcl. apply orb_false_iff in Hcl as [Hcl Hnc].
    destruct (Hopen c k Hk Hcl) as (rm & Hr & Hin & Hl). injection Hp as Hp1 Hp2 Hp3 Hp4. rewrite Hp1, Hp2.
    destruct (members_after l _ _ rm _ c k Hok Hr Hin Hk Hcl) as [(rm' & R1 & R2 & R3) Hlist].
    exists rm'. split_and!; [done..|]. rewrite R2.
    destruct Hl as [Hl|Hl]; [destruct (Hlist Hl) as [?|?]; [by left|]|]; right; apply doomed_after; auto.
  - destruct (newcomer_after l _ c k' Hok Hk Hk') as (now & roomID & user & connID & issued & rm & -> & _ & Hid & _ & _ & Hr & Hrid & Hin & Hl).
    exists rm. rewrite Hid, Hrid. auto.
Qed.

Lemma world_ok_run ls w : world_ok w -> world_ok (world_run ls w).
Proof using Hlim laws. revert w. induction ls as [|l ls IH]; intros w Hw; simpl; [done|]. by apply IH, world_ok_do. Qed.

(** ** What is barred is out *)

Definition bar_of (b : Bar) (s : SFU) (k : conn) : Prop :=
  exists rm, sf_room s !! cn_room k = Some rm /\ barred b (rm_id rm) (cn_user k) (cn_id k) (cn_issued k).

Definition all_out (b : Bar) (base : SFU) (w : VoiceWorld) : Prop :=
  forall c k, sf_conn (wd_sfu w) !! c = Some k -> bar_of b (wd_sfu w) k ->
    is_Some (sf_conn base !! c) /\ (cn_closed k = true \/ c ∈ wd_doomed w).

(** A room keeps the channel it is for. *)
Lemma bar_of_before b l s c k k' :
  sfu_ok lim None s -> sf_conn s !! c = Some k -> person k' = person k -> bar_of b (voice_do lim l s) k' -> bar_of b s k.
Proof using Hlim laws.
  intros Hok Hk Hp (rm' & Hr' & Hb). injection Hp as Hp1 Hp2 Hp3 Hp4. rewrite Hp1, Hp2, Hp3, Hp4 in *.
  destruct (ok_home _ _ _ Hok c (cn_room k) (cn_id k) (cn_user k)) as [rm Hr]; [unfold conn_at; by rewrite Hk|].
  exists rm. split; [done|]. enough (rm_id rm' = rm_id rm) as <- by done.
  clear -Hlim Hok Hr Hr'.
  assert (forall f c', rm_id <$> sf_room (update_conn f c' s) !! cn_room k = Some (rm_id rm)) as Hup.
  { intros f c'. unfold update_conn. destruct (sf_conn s !! c'); simpl; by rewrite Hr. }
  assert (forall r0 rm0 rm1, sf_room s !! r0 = Some rm0 -> rm_id rm1 = rm_id rm0 ->
    rm_id <$> <[r0 := rm1]> (sf_room s) !! cn_room k = Some (rm_id rm)) as Hset.
  { intros r0 rm0 rm1 H0 E. destruct (decide (r0 = cn_room k)) as [->|]; [rewrite lookup_insert_eq; simpl; congruence|].
    rewrite lookup_insert_ne by done. by rewrite Hr. }
  enough (rm_id <$> sf_room (voice_do lim l s) !! cn_room k = Some (rm_id rm)) as E
    by (rewrite Hr' in E; simpl in E; congruence).
  assert (rm_id <$> sf_room s !! cn_room k = Some (rm_id rm)) as Hs by by rewrite Hr.
  destruct l; simpl; try done.
  - destruct (reserve_shape now roomID user connID issued s Hok) as [[e ->]|(_ & r & rm0 & n & s' & -> & H)]; [done|].
    destruct H as (Hid & _ & H2 & H3 & H4 & _). simpl. destruct (decide (cn_room k = r)) as [E|]; [|by rewrite H4].
    subst r. rewrite H2. simpl. destruct H3; congruence.
  - unfold negotiated. destruct (sf_conn s !! c); simpl; [|done]. by case_bool_decide.
  - destruct (onSubscribe pin drop cap); [by apply Hup|done].
  - unfold addSource. destruct (sf_conn s !! c) as [k0|]; simpl; [|done].
    destruct (sf_room s !! cn_room k0) as [rm0|] eqn:H0; simpl; [|done].
    destruct (rm_gone rm0 || _)%bool; simpl; [done|by eapply Hset].
  - unfold removeSource. destruct (sf_source s !! x) as [v|]; simpl; [|done].
    destruct (sf_conn s !! src_conn v) as [k0|]; simpl; [|done].
    destruct (sf_room s !! cn_room k0) as [rm0|] eqn:H0; simpl; [|done]. case_bool_decide; simpl; [by eapply Hset|done].
  - destruct (assignLocked judge r s) as [[s' m]|] eqn:E; [|done]. apply assign_life in E as [_ T]. by rewrite (st_room _ _ T).
  - unfold SetExclusion. destruct (sf_room s !! r) as [rm0|] eqn:H0; simpl; [|done].
    unfold room_exclude. destruct (_ =? 0); simpl; [done|by eapply Hset].
  - unfold closeFor. destruct (sf_conn s !! c) as [k0|]; [|done]. by destruct (cn_closed k0).
  - destruct (sf_conn s !! c) as [k0|] eqn:Hk0; [|done]. destruct (cn_closed k0); [|done].
    unfold forget. rewrite Hk0. set (s1 := if bool_decide _ then _ else s).
    assert (sf_room s1 = sf_room s) as E1 by (unfold s1; by case_bool_decide). rewrite E1.
    destruct (sf_room s !! cn_room k0) as [rm0|] eqn:H0; [|by rewrite E1].
    assert (rm_id <$> sf_room (set_room (cn_room k0) (room_remove (sf_source s1) c (cn_id k0) (cn_user k0) rm0) s1) !! cn_room k
            = Some (rm_id rm)) as E2.
    { simpl. rewrite E1. eapply Hset; [exact H0|]. unfold room_remove. by case_bool_decide. }
    destruct (room_empty _); [|exact E2]. by rewrite (proj1 (drop_shape _ _)).
  - unfold CloseRoom. set (s1 := set_cutoffs _ _ _ _). destruct (sf_rooms s1 !! roomID) as [r0|]; simpl; [|done].
    by rewrite (proj1 (drop_shape _ _)).
  - unfold Close. destruct (sf_closed s); simpl; [done|]. unfold shut_listed. rewrite map_lookup_imap, Hr. simpl.
    by case_bool_decide.
Qed.

(** The evicting section hands over everybody it is about. *)
Lemma all_out_made t b w : world_ok w -> all_out b (wd_sfu w) (world_do (bar_step t b) w).
Proof using Hlim laws.
  intros Hw c k' Hk' Hbar. pose proof (wo_sfu _ Hw) as Hok. simpl in Hk', Hbar.
  destruct (sf_conn (wd_sfu w) !! c) as [k|] eqn:Hk.
  2: { destruct (newcomer_after _ _ c k' Hok Hk Hk') as (? & ? & ? & ? & ? & ? & E & _). by destruct b. }
  split; [by eexists|].
  destruct (person_after (bar_step t b) _ c k Hok Hk) as (k1 & E1 & Hp & Hcl). rewrite E1 in Hk'. injection Hk' as ->.
  apply (bar_of_before b _ _ c k k' Hok Hk Hp) in Hbar as (rm & Hr & Hcut & Hb).
  destruct (cn_closed k) eqn:Hopen; [left; by rewrite Hcl|].
  destruct (wo_open _ Hw c k Hk Hopen) as (rm0 & Hr0 & Hin & Hl). rewrite Hr in Hr0. injection Hr0 as <-.
  right. apply doomed_after; [by destruct b|]. destruct Hl as [Hl|]; [right|by left].
  assert (c ∈ room_members (cn_room k) (wd_sfu w)) as Hmem.
  { unfold room_members. rewrite Hr. apply list_elem_of_fmap. exists (cn_id k, c). split; [done|].
    by apply elem_of_map_to_list. }
  destruct b as [r u cut|r cut|i cut]; simpl in *.
  - destruct Hb as [-> ->]. rewrite Hl. apply list_elem_of_filter. split; [|done]. rewrite Hk. simpl.
    apply andb_true_iff. split; [by apply Z.eqb_eq|by apply Z.leb_le].
  - subst. unfold CloseRoom. set (s1 := set_cutoffs _ _ _ _). change (sf_rooms s1) with (sf_rooms (wd_sfu w)).
    rewrite Hl. simpl. exact Hmem.
  - subst. apply (ro_conns _ _ _ _ (ok_room _ _ _ Hok _ _ Hr)) in Hin as [-> _]. by left.
Qed.

(** Kept out by the bar, nobody it is about comes in. *)
Lemma all_out_after t clock b l base w :
  world_ok w -> t <= clock -> clock <= clock_after clock l -> issued_at (bar_cut b) <= t ->
  bar_kept t clock b (wd_sfu w) -> all_out b base w -> all_out b base (world_do l w).
Proof using Hlim laws.
  intros Hw Ht Hclock Hminted Hkept Hout c k' Hk' Hbar. pose proof (wo_sfu _ Hw) as Hok. simpl in Hk', Hbar.
  destruct (sf_conn (wd_sfu w) !! c) as [k|] eqn:Hk.
  - destruct (person_after l _ c k Hok Hk) as (k1 & E1 & Hp & Hcl). rewrite E1 in Hk'. injection Hk' as ->.
    apply (bar_of_before b _ _ c k k' Hok Hk Hp) in Hbar. destruct (Hout c k Hk Hbar) as [Hb Hin]. split; [done|].
    rewrite Hcl. destruct (closes l c) eqn:Ec; [left; apply orb_true_r|]. rewrite orb_false_r.
    destruct Hin as [?|?]; [by left|right]. apply doomed_after; auto.
  - exfalso. destruct (newcomer_after l _ c k' Hok Hk Hk') as (now & roomID & user & connID & issued & rm & -> & Href & Hid & Hu & Hi & Hr & Hrid & _).
    destruct Hbar as (rm' & Hr' & Hb). rewrite Hr in Hr'. injection Hr' as <-. rewrite Hrid, Hu, Hid, Hi in Hb.
    eapply barred_refused; [exact Hkept| |exact Hminted|exact Hb|exact Href]. exact Hclock.
Qed.

Lemma all_out_run t clock b ls base w :
  world_ok w -> t <= clock -> in_order clock ls -> issued_at (bar_cut b) <= t ->
  bar_kept t clock b (wd_sfu w) -> all_out b base w -> all_out b base (world_run ls w).
Proof using Hlim laws.
  revert clock w. induction ls as [|l ls IH]; intros clock w Hw Ht Hord Hminted Hkept Hout; simpl; [done|].
  assert (clock <= clock_after clock l /\ in_order (clock_after clock l) ls) as [Hclock Hord'].
  { simpl in Hord. unfold clock_after. destruct (reading l); simpl; [done|split; [lia|done]]. }
  apply (IH (clock_after clock l)); [by apply world_ok_do|lia|done|done| |].
  - by apply bar_after; [apply Hw|..].
  - by apply (all_out_after t clock).
Qed.
End evictions.
