(* ===== verification/VoiceRuns.v ===== *)
(** What the voice server guarantees over every run of its critical sections: its bounds, who is forwarded to
    whom, and that an eviction holds. *)
From S2P Require Import Prelude GoStd Snowflake VoiceSlot Sfu VoiceSelect VoiceRoom.
From S2P Require Import VoiceEviction.

Section runs.
Context {LD : Loudness} {laws : LoudnessLaws LD} (lim : Limits).

(** C23: Whatever the order in which the voice server's critical sections run, it stays within its limits and
    its tables agree: there are at most [Rooms] rooms listed, and no listed room is empty; a room holds at most
    [ParticipantsPerRoom] connections and [ConnsPerUser] of one account, which is what its counts say; it keeps
    exclusions only for accounts that are in it; a room whose selection still runs is listed; and a connection
    is in the server's table exactly while it is in a room. *)
Theorem voice_bounds ls :
  limits_valid lim = true ->
  let s := voice_run lim ls newSFU in
  Z.of_nat (size (sf_rooms s)) <= Rooms lim /\
  (forall id r, sf_rooms s !! id = Some r ->
     exists rm, sf_room s !! r = Some rm /\ rm_id rm = id /\ rm_conns rm <> ∅) /\
  (forall r rm, sf_room s !! r = Some rm ->
     Z.of_nat (size (rm_conns rm)) <= ParticipantsPerRoom lim /\
     (forall u, count_of (rm_perUser rm) u = held s rm u /\ held s rm u <= ConnsPerUser lim) /\
     (forall u, is_Some (rm_excluded rm !! u) -> 0 < held s rm u) /\
     (rm_gone rm = false -> sf_rooms s !! rm_id rm = Some r)) /\
  (forall id c, sf_conns s !! id = Some c <->
     exists r rm, sf_room s !! r = Some rm /\ rm_conns rm !! id = Some c).
Proof using laws.
  intros Hlim s. pose proof (ok_reached lim Hlim ls) as Hok. fold s in Hok. split_and!.
  - apply Hok.
  - intros id r Hr. destruct (ok_rooms _ _ _ Hok _ _ Hr) as (rm & ? & ? & [?|[=]]). eauto.
  - intros r rm Hr. destruct (ok_room _ _ _ Hok _ _ Hr) as [P1 P2 P3 P4 P5 P6 P7]. split_and!; [done|auto| |].
    + intros u [n Hn]%P6. rewrite <- P2. unfold count_of. rewrite Hn. by eapply P3.
    + by apply (ok_listed _ _ _ Hok).
  - intros id c. split.
    + intros (r & u & rm & _ & ? & ?)%(ok_conns _ _ _ Hok). eauto.
    + intros (r & rm & Hr & Hc). by apply (ro_conns _ _ _ _ (ok_room _ _ _ Hok _ _ Hr)).
Qed.

(** Who a receiver may be sent: the source and its sender in the room and taking part, of the slot's kind, not
    the receiver's own, and neither excluded for it nor dropped by it. *)
Definition may_be_sent (s : SFU) (rm : room) (k : conn) (kind : string) (x : nat) : Prop :=
  exists v k2, sf_source s !! x = Some v /\ rm_sources rm !! src_id v = Some x /\ sf_conn s !! src_conn v = Some k2 /\
    rm_conns rm !! cn_id k2 = Some (src_conn v) /\
    cn_inRoom k = true /\ cn_inRoom k2 = true /\ src_kind v = kind /\ src_user v <> cn_user k /\
    (src_user v ∉ default ∅ (rm_excluded rm !! cn_user k)) /\ (src_user v ∉ sub_drop (cn_sub k)).

Lemma candidate_may s r rm k kind x :
  sfu_ok lim None s -> sf_room s !! r = Some rm -> x ∈ heard_sources s rm -> candidate s rm k kind x = true ->
  may_be_sent s rm k kind x.
Proof.
  intros Hok Hr [Hx [id Hin]%elem_of_by_id]%list_elem_of_filter Hc. unfold candidate in Hc.
  destruct (ro_sources _ _ _ _ (ok_room _ _ _ Hok _ _ Hr) _ _ Hin) as (c & u & kind' & i & Hs & Hk & Hi).
  unfold source_at in Hs. unfold conn_at in Hk. destruct (sf_source s !! x) as [v|] eqn:Ev; [|done]. simpl in Hs.
  injection Hs as <- <- <- <-. destruct (sf_conn s !! src_conn v) as [k2|] eqn:Ek; [|done]. simpl in Hk.
  injection Hk as H1 <- H2. unfold takes_part, mayReceive in Hc. rewrite Ek in Hc. bool_hyps.
  match goal with H : (_ =? _)%string = true |- _ => apply String.eqb_eq in H end.
  exists v, k2. split_and!; auto.
Qed.

(** The rows a receiver's slots come to. *)
Lemma conn_rows judge s rm sources k placed m :
  NoDup sources -> conn_fill judge s rm sources k = Some placed ->
  (forall x o, (x, o) ∈ placed -> current m x = o) ->
  let row kind := current m <$> slotsByKind kind k in
  (forall kind, kind = KindAudio \/ kind = KindVideo ->
     NoDup (filled (row kind)) /\
     (forall x, x ∈ filled (row kind) -> x ∈ sources /\ candidate s rm k kind x = true) /\
     (NoDup (filled (holding_of s k kind)) -> forall i x, holding_of s k kind !! i = Some (Some x) ->
        x ∈ filled (row kind) -> row kind !! i = Some (Some x))) /\
  (0 <= sub_cap (cn_sub k) ->
     Z.of_nat (length (filled (row KindAudio)) + length (filled (row KindVideo))) <= sub_cap (cn_sub k)) /\
  (forall x, (exists kind, (kind = KindAudio \/ kind = KindVideo) /\ x ∈ slotsByKind kind k) <-> x ∈ placed.*1).
Proof.
  intros Hnd E Hcur row. unfold conn_fill in E.
  destruct (fill_kind_spec judge s rm k sources (sub_cap (cn_sub k)) KindAudio Hnd)
    as (ra & la & Ea & Hla & A1 & A2 & A3 & _ & A5). rewrite Ea in E.
  destruct (fill_kind_spec judge s rm k sources la KindVideo Hnd) as (rv & lv & Ev & Hlv & V1 & V2 & V3 & _ & V5).
  simpl in E. rewrite Ev in E. simpl in E. injection E as <-.
  assert (row KindAudio = ra) as Hra by (apply (zip_holding (slotsByKind KindAudio k) ra m); [done|]; intros; apply Hcur; set_solver).
  assert (row KindVideo = rv) as Hrv by (apply (zip_holding (slotsByKind KindVideo k) rv m); [done|]; intros; apply Hcur; set_solver).
  split_and!.
  - intros kind [->| ->]; rewrite ?Hra, ?Hrv; auto.
  - intros Hcap. rewrite Hra, Hrv. destruct (A3 Hcap) as [-> ?]. destruct V3 as [? ?]; lia.
  - intros x. rewrite fmap_app, !fst_zip, elem_of_app by lia. naive_solver.
Qed.

(** C22: Once a room's selection has run, in any state the server can reach, it did not panic, and each receiver's
    slots carry only sources that receiver may be sent: taking part in the room, of the slot's kind, never its
    own account's, never one the server excluded for it or it dropped. No source fills two of its slots of a
    kind, its cap holds over the kinds together, a source that still fills a slot of it is in the slot it was
    in, and each source is told exactly the slots that carry it. *)
Theorem selection_forwards_the_allowed ls r rm judge :
  limits_valid lim = true ->
  let s := voice_run lim ls newSFU in
  sf_room s !! r = Some rm -> rm_gone rm = false ->
  exists s' moved, assignLocked judge r s = Some (s', moved) /\
  (forall id c k, rm_conns rm !! id = Some c -> sf_conn s !! c = Some k ->
     (forall kind, kind = KindAudio \/ kind = KindVideo ->
        NoDup (filled (holding_of s' k kind)) /\
        (forall x, x ∈ filled (holding_of s' k kind) -> may_be_sent s rm k kind x) /\
        (NoDup (filled (holding_of s k kind)) -> forall i x, holding_of s k kind !! i = Some (Some x) ->
           x ∈ filled (holding_of s' k kind) -> holding_of s' k kind !! i = Some (Some x))) /\
     (0 <= sub_cap (cn_sub k) ->
        Z.of_nat (length (filled (holding_of s' k KindAudio)) + length (filled (holding_of s' k KindVideo)))
          <= sub_cap (cn_sub k))) /\
  (forall id x v, rm_sources rm !! id = Some x -> sf_source s' !! x = Some v ->
     forall ref, ref ∈ src_slots v <->
       exists i c kind, (kind = KindAudio \/ kind = KindVideo) /\ rm_conns rm !! i = Some c /\
         slot_of s c kind ref /\ current (sf_slot s') ref = Some x).
Proof using laws.
  intros Hlim s Hr Hg. pose proof (ok_reached lim Hlim ls) as Hok. fold s in Hok.
  destruct (select_spec lim None judge s r rm Hok Hr Hg) as (s' & moved & E & Hv & Ht & Hdone & Hso).
  destruct (ok_conns_listed lim None s r rm Hok Hr) as (_ & _ & Hnd).
  exists s', moved. split; [done|].
  assert (forall id c k, rm_conns rm !! id = Some c -> sf_conn s !! c = Some k ->
    conn_fill judge s rm (heard_sources s rm) k = Some (placed_of judge s rm (heard_sources s rm) c) /\
    forall x o, (x, o) ∈ placed_of judge s rm (heard_sources s rm) c -> current (sf_slot s') x = o) as Hc.
  { intros id c k Hin Hk. destruct (Hdone c) as [(k1 & k2 & D1 & _ & _ & D4 & _) D7]; [apply elem_of_by_id; eauto|].
    split; [congruence|done]. }
  split.
  - intros id c k Hin Hk. destruct (Hc _ _ _ Hin Hk) as [Hf Hcur].
    destruct (conn_rows judge s rm _ k _ _ Hnd Hf Hcur) as (R1 & R2 & _). split; [|exact R2].
    intros kind Hkind. destruct (R1 kind Hkind) as (Q1 & Q2 & Q3). split_and!; [done| |done].
    intros x [Hx Hcand]%Q2. by eapply candidate_may.
  - intros id x v Hin Hx ref. rewrite Hso, lookup_told, decide_True in Hx by (apply elem_of_by_id; eauto).
    destruct (sf_source s !! x) as [v0|]; [|done]. simpl in Hx. injection Hx as <-. simpl.
    rewrite list_elem_of_fmap. split.
    + intros ([y o] & -> & [Ho Hy]%list_elem_of_filter). simpl in *. subst.
      apply list_elem_of_join in Hy as (l & Hy & (c & -> & [i Hi]%elem_of_by_id)%list_elem_of_fmap).
      destruct (ok_conns_listed lim None s r rm Hok Hr) as (_ & Hsome & _).
      destruct (Hsome c) as [k Hk]; [apply elem_of_by_id; eauto|]. destruct (Hc _ _ _ Hi Hk) as [Hf Hcur].
      destruct (conn_rows judge s rm _ k _ _ Hnd Hf Hcur) as (_ & _ & R3).
      destruct (proj2 (R3 y)) as (kind & Hkind & Hyk); [apply list_elem_of_fmap; by exists (y, Some x)|].
      exists i, c, kind. split_and!; [done..|by exists k|by apply Hcur].
    + intros (i & c & kind & Hkind & Hi & (k & Hk & Href) & Hcx). destruct (Hc _ _ _ Hi Hk) as [Hf Hcur].
      destruct (conn_rows judge s rm _ k _ _ Hnd Hf Hcur) as (_ & _ & R3).
      assert (ref ∈ (placed_of judge s rm (heard_sources s rm) c).*1) as ([y o] & -> & Hy)%list_elem_of_fmap
        by (apply R3; eauto). simpl in *.
      exists (y, o). split; [done|]. apply list_elem_of_filter. split; [simpl; rewrite <- Hcx; symmetry; by apply Hcur|].
      apply list_elem_of_join. eexists. split; [exact Hy|]. apply list_elem_of_fmap. exists c. split; [done|].
      apply elem_of_by_id; eauto.
Qed.

(** C24: A room's selection made again over its own result, everybody as loud as they were, is the same
    selection: it leaves the whole server as it is and nobody has a new slot map or speaking list to be sent.
    Who holds a slot counts as louder, so two voices near the boundary do not trade it. *)
Theorem selection_settles ls r rm judge s' moved :
  limits_valid lim = true ->
  let s := voice_run lim ls newSFU in
  sf_room s !! r = Some rm -> rm_gone rm = false ->
  assignLocked judge r s = Some (s', moved) -> assignLocked judge r s' = Some (s', []).
Proof using laws.
  intros Hlim s Hr Hg E. pose proof (ok_reached lim Hlim ls) as Hok. fold s in Hok.
  destruct (select_spec lim None judge s r rm Hok Hr Hg) as (s1 & moved1 & E1 & Hv & Ht & Hdone & Hso).
  rewrite E in E1. injection E1 as <- <-.
  destruct (ok_conns_listed lim None s r rm Hok Hr) as (_ & _ & Hnd).
  assert (sf_room s' !! r = Some rm) as Hr' by by rewrite (st_room _ _ Ht).
  rewrite (assign_unfold judge r s' rm Hr' Hg).
  rewrite (heard_sources_view s s' rm Hv), (speaking_view judge s s' _ Hv).
  rewrite (fill_conns_settled judge rm _ _ _ s s' [] [] Hnd Hv Hdone). simpl.
  do 2 f_equal. unfold tell_sources. change (foldl _ (sf_source s') _) with (told (mjoin (placed_of judge s rm (heard_sources s rm) <$> by_id (rm_conns rm))) (by_id (rm_sources rm)) (sf_source s')).
  rewrite Hso, told_again, <- Hso. by destruct s'.
Qed.

(** C21: An eviction from voice holds. Take any run up to it, the section that makes it at a reading [t] of the
    clock, and any run after it whose sections read the clock in the order they take the lock. Then every
    connection the eviction is about (an account in a room, a whole room, or one connection, issued at or before
    a cutoff made by [t]) was there when it ran, and is closed or held by a call that is about to close it; a
    provision issued before the cutoff is never let in, however late it arrives, whatever the sweep forgets. *)
Theorem evicted_stay_out ls t b ls' :
  limits_valid lim = true -> issued_at (bar_cut b) <= t -> in_order t ls' ->
  let w := world_run lim ls newWorld in
  let w' := world_run lim ls' (world_do lim (bar_step t b) w) in
  forall c k rm, sf_conn (wd_sfu w') !! c = Some k -> sf_room (wd_sfu w') !! cn_room k = Some rm ->
    barred b (rm_id rm) (cn_user k) (cn_id k) (cn_issued k) ->
    is_Some (sf_conn (wd_sfu w) !! c) /\ (cn_closed k = true \/ c ∈ wd_doomed w').
Proof using laws.
  intros Hlim Hminted Hord w w' c k rm Hk Hr Hb.
  assert (world_ok lim w) as Hw by by apply world_ok_run, world_ok_new.
  refine (all_out_run lim Hlim t t b ls' (wd_sfu w) _ _ _ Hord Hminted _ _ c k Hk _); [|lia| | |by exists rm].
  - by apply world_ok_do.
  - apply bar_made.
  - by apply all_out_made.
Qed.
End runs.

(** ** Concrete runs *)

(** Loudness in whole steps, a quarter more for who holds the slot. *)
Definition step_loudness : Loudness := mkLoudness nat Nat.leb (fun n => n + n / 4)%nat.

Lemma step_laws : LoudnessLaws step_loudness.
Proof.
  split; simpl.
  - intros x y. rewrite !Nat.leb_le. lia.
  - intros x y z. rewrite !Nat.leb_le. lia.
  - intros x. rewrite Nat.leb_le. pose proof (Nat.Div0.div_le_mono 0 x 4). lia.
Qed.

Definition dawn : Z := issued_at 5.

(** Three accounts in a room, each sending, the second never forwarded to the first. *)
Definition party : list (@VoiceStep step_loudness) :=
  [VReserve dawn 100 1 11 5; VNegotiated 1 2; VReserve dawn 100 2 12 5; VNegotiated 4 2; VReserve dawn 100 3 13 5;
   VNegotiated 7 1; VHello 1; VHello 4; VHello 7; VTrack 1 KindAudio "audio/opus"; VTrack 4 KindAudio "audio/opus";
   VTrack 7 KindAudio "audio/opus"; VExclude 0 1 [2]].

Abbreviation at_party := (voice_run DefaultLimits party newSFU).
Definition party_room : room := default (newRoom 0) (sf_room at_party !! 0%nat).

(** The second account is louder than the third, which is louder than the first. *)
Definition party_judge (x : nat) : @Judged step_loudness :=
  @mkJudged step_loudness (match x with 10 => 8 | 11 => 7 | _ => 2 end)%nat (x =? 10)%nat.

Lemma voice_bounds_witness :
  limits_valid DefaultLimits = true /\ Z.of_nat (size (sf_rooms at_party)) <= Rooms DefaultLimits /\
  held at_party party_room 1 = 1.
Proof.
  destruct (@voice_bounds step_loudness step_laws DefaultLimits party ltac:(vm_compute; reflexivity)) as (H & _ & _).
  split_and!; [vm_compute; reflexivity|exact H|vm_compute; reflexivity].
Defined.

Definition row_at (s : SFU) (c : nat) : option (list (option nat)) :=
  k ← sf_conn s !! c; Some (holding_of s k KindAudio).

Lemma selection_forwards_the_allowed_witness :
  exists s' moved, assignLocked party_judge 0 at_party = Some (s', moved) /\
    row_at s' 1 = Some [Some 11; None]%nat /\ row_at s' 4 = Some [Some 11; Some 9]%nat /\ row_at s' 7 = Some [Some 10]%nat.
Proof.
  destruct (@selection_forwards_the_allowed step_loudness step_laws DefaultLimits party 0 party_room party_judge
              ltac:(vm_compute; reflexivity) ltac:(vm_compute; reflexivity) ltac:(vm_compute; reflexivity))
    as (s' & moved & E & _ & _).
  exists s', moved. split; [exact E|].
  assert (row_at (default newSFU (fst <$> assignLocked party_judge 0 at_party)) 1 = Some [Some 11; None]%nat) as H1
    by (vm_compute; reflexivity).
  assert (row_at (default newSFU (fst <$> assignLocked party_judge 0 at_party)) 4 = Some [Some 11; Some 9]%nat) as H2
    by (vm_compute; reflexivity).
  assert (row_at (default newSFU (fst <$> assignLocked party_judge 0 at_party)) 7 = Some [Some 10]%nat) as H3
    by (vm_compute; reflexivity).
  rewrite E in H1, H2, H3. exact (conj H1 (conj H2 H3)).
Defined.

Lemma selection_settles_witness :
  let s' := default newSFU (fst <$> assignLocked party_judge 0 at_party) in
  assignLocked party_judge 0 s' = Some (s', []).
Proof.
  destruct (assignLocked party_judge 0 at_party) as [[s' moved]|] eqn:E; [|vm_compute in E; discriminate E].
  refine (@selection_settles step_loudness step_laws DefaultLimits party 0 party_room party_judge s' moved
            ltac:(vm_compute; reflexivity) ltac:(vm_compute; reflexivity) ltac:(vm_compute; reflexivity) _).
  exact E.
Defined.

(** The first account evicted at dawn; the provision it still had in hand arrives late, and later still. *)
Definition aftermath : list (@VoiceStep step_loudness) :=
  [VClosing 1 (Some ErrEvicted); VForget 1; VReserve (dawn + secs) 100 1 14 5; VSweep (dawn + 31 * secs);
   VReserve (dawn + 31 * secs) 100 1 15 5].

Lemma evicted_stay_out_witness :
  let w' := world_run DefaultLimits aftermath
              (world_do DefaultLimits (@bar_step step_loudness dawn (BarUser 100 1 5)) (world_run DefaultLimits party newWorld)) in
  (exists k rm, sf_conn (wd_sfu w') !! 1%nat = Some k /\ sf_room (wd_sfu w') !! cn_room k = Some rm /\
     barred (BarUser 100 1 5) (rm_id rm) (cn_user k) (cn_id k) (cn_issued k) /\
     (cn_closed k = true \/ 1%nat ∈ wd_doomed w')) /\
  held (wd_sfu w') (default (newRoom 0) (sf_room (wd_sfu w') !! 0%nat)) 1 = 0.
Proof.
  intros w'. split; [|vm_compute; reflexivity].
  destruct (sf_conn (wd_sfu w') !! 1%nat) as [k|] eqn:Hk; [|vm_compute in Hk; discriminate Hk].
  assert (cn_room k = 0%nat /\ cn_user k = 1 /\ cn_issued k = 5) as (H1 & H2 & H3).
  { vm_compute in Hk. injection Hk as <-. vm_compute. done. }
  destruct (sf_room (wd_sfu w') !! 0%nat) as [rm|] eqn:Hr; [|vm_compute in Hr; discriminate Hr].
  assert (rm_id rm = 100) as H4 by (vm_compute in Hr; injection Hr as <-; vm_compute; done).
  assert (barred (BarUser 100 1 5) (rm_id rm) (cn_user k) (cn_id k) (cn_issued k)) as Hb.
  { rewrite H2, H3, H4. split; [apply Z.le_refl|split; reflexivity]. }
  assert (sf_room (wd_sfu w') !! cn_room k = Some rm) as Hr' by (rewrite H1; exact Hr).
  exists k, rm. split; [reflexivity|split; [exact Hr'|split; [exact Hb|]]].
  refine (proj2 (@evicted_stay_out step_loudness step_laws DefaultLimits party dawn (BarUser 100 1 5) aftermath
            ltac:(vm_compute; reflexivity) ltac:(vm_compute; discriminate) _ 1%nat k rm Hk Hr' Hb)).
  simpl. repeat split; vm_compute; discriminate.
Defined.

(** [reserve] reads the clock before it takes the lock. A sweep between the two that reads the clock at or after
    the cutoff's end forgets it, and a provision of the very instant of the eviction, read a nanosecond before
    that end, is let in: neither too old nor, any longer, cut off. *)
Example late_reading_lets_in :
  let s := voice_run DefaultLimits
             [VEvict dawn 100 1 5; VSweep (dawn + 30 * secs); @VReserve step_loudness (dawn + 30 * secs - 1) 100 1 11 5] newSFU in
  match sf_conns s !! 11 ≫= (fun c => sf_conn s !! c) with
  | Some k => cn_user k = 1 /\ cn_issued k = 5 /\ cn_closed k = false
  | None => False
  end.
Proof. vm_compute. done. Qed.
