(* ===== verification/DaemonState.v ===== *)
(** What the daemon keeps of its gateway connection: daemon/internal/state/state.go. The account, the guild
    summaries, and a bounded buffer of recent messages for each channel; what it shows has no holes, and it stays
    bounded whatever the instance sends. Each definition is what runs under the state's lock. *)
From S2P Require Import Prelude GoStd Utf8 Termsafe.

(** ** Data *)

Record StateLimits := mkStateLimits { MessagesPerChannel : Z; TotalBytes : Z }.
Definition state_DefaultLimits : StateLimits := mkStateLimits 200 (64 * 2 ^ 20).

Definition maxGuilds : Z := 1000.
Definition maxNameRunes : nat := 100.
Definition entryOverhead : Z := 64.

(** What json makes of the events: the fields that are read, and the rest of a message as it came. *)
Record WireUser := mkWireUser { wu_Id : string; wu_Username : string; wu_DisplayName : string }.
Record WireGuild := mkWireGuild { wg_Id : string; wg_Name : string; wg_OwnerId : string }.
Record Message := mkMessage { msg_Id : string; msg_ChannelId : string; msg_rest : string }.

Record User := mkUser { us_ID : string; us_Username : string; us_DisplayName : string }.
Record Guild := mkGuild { gd_ID : string; gd_Name : string; gd_OwnerID : string }.
Record entry := mkEntry { en_message : Message; en_size : Z }.
Record buffer := mkBuffer { bf_entries : list entry; bf_bytes : Z }.

(** [recency] from its front to its back. *)
Record State := mkState {
  st_generation : Z; st_user : option User; st_guilds : gmap string Guild; st_channels : gmap string buffer;
  st_recency : list string; st_bytes : Z
}.

(** [json.Unmarshal] into the five shapes [Dispatch] knows. *)
Class Unmarshal := mkUnmarshal {
  as_ready : string -> option (WireUser * list WireGuild);
  as_guild : string -> option WireGuild;
  as_gone : string -> option string;
  as_message : string -> option Message;
  as_deleted : string -> option (string * string)
}.

Section state.
Context {U : Unmarshal} (limits : StateLimits).

(** [New]'s limits: zero or less means the default. *)
Definition New_limits (l : StateLimits) : StateLimits :=
  mkStateLimits (if MessagesPerChannel l <=? 0 then MessagesPerChannel state_DefaultLimits else MessagesPerChannel l)
    (if TotalBytes l <=? 0 then TotalBytes state_DefaultLimits else TotalBytes l).

Definition newState : State := mkState 0 None ∅ ∅ [] 0.

Definition set_buffers (channels : gmap string buffer) (recency : list string) (bytes : Z) (s : State) : State :=
  mkState (st_generation s) (st_user s) (st_guilds s) channels recency bytes.

Definition dropMessagesLocked (s : State) : State := set_buffers ∅ [] 0 s.

Definition Begin (generation : Z) (s : State) : State := dropMessagesLocked (mkState generation None ∅ (st_channels s) (st_recency s) (st_bytes s)).
Definition End_ (s : State) : State := dropMessagesLocked (mkState 0 None ∅ (st_channels s) (st_recency s) (st_bytes s)).

(** The first [n] runes of a string. *)
Fixpoint first_runes (n skip : nat) (l : list Z) : list Z :=
  match l with
  | [] => []
  | b :: rest =>
      match skip with
      | S k => b :: first_runes n k rest
      | O => match n with O => [] | S n => b :: first_runes n (default 1%nat (rune_size l) - 1) rest end
      end
  end.

Definition truncateRunes (s : string) (n : nat) : string := string_of (first_runes n 0 (bytes_of s)).

Definition putGuildLocked (g : WireGuild) (s : State) : State :=
  if negb (bool_decide (is_Some (st_guilds s !! wg_Id g))) && (maxGuilds <=? Z.of_nat (size (st_guilds s))) then s
  else mkState (st_generation s) (st_user s)
         (<[wg_Id g := mkGuild (wg_Id g) (truncateRunes (Text (wg_Name g)) maxNameRunes) (wg_OwnerId g)]> (st_guilds s))
         (st_channels s) (st_recency s) (st_bytes s).

Definition ready (u : WireUser) (guilds : list WireGuild) (s : State) : State :=
  let user := mkUser (wu_Id u) (Text (wu_Username u)) (Text (wu_DisplayName u)) in
  foldl (fun s g => putGuildLocked g s)
    (mkState (st_generation s) (Some user) ∅ (st_channels s) (st_recency s) (st_bytes s)) guilds.

(** ** Buffers *)

Definition has_message (id : string) (l : list entry) : bool := existsb (fun e => msg_Id (en_message e) =? id)%string l.

(** [trimOldestLocked], while more than [limit] are held: the entries, their bytes, and the state's. *)
Fixpoint trim_over (limit : Z) (entries : list entry) (b total : Z) : list entry * Z * Z :=
  match entries with
  | e :: rest => if limit <? Z.of_nat (length entries) then trim_over limit rest (b - en_size e) (total - en_size e)
                 else (entries, b, total)
  | [] => (entries, b, total)
  end.

(** What is left of a list once its back is removed. *)
Definition drop_back (l : list string) : list string := take (length l - 1) l.

(** [enforceBudgetLocked]; [None] is a panic. *)
Fixpoint enforceBudgetLocked (fuel : nat) (keep : string) (s : State) : option State :=
  match fuel with
  | O => None
  | S fuel =>
      if st_bytes s <=? TotalBytes limits then Some s
      else
        victim ← last (st_recency s);
        if negb (victim =? keep)%string then
          b ← st_channels s !! victim;
          enforceBudgetLocked fuel keep
            (set_buffers (delete victim (st_channels s)) (drop_back (st_recency s)) (st_bytes s - bf_bytes b) s)
        else
          b ← st_channels s !! keep;
          match bf_entries b with
          | e :: (_ :: _) as rest =>
              enforceBudgetLocked fuel keep
                (set_buffers (<[keep := mkBuffer (tl (bf_entries b)) (bf_bytes b - en_size e)]> (st_channels s))
                   (st_recency s) (st_bytes s - en_size e) s)
          | _ => Some s
          end
  end.

(** Rounds enough for every channel and every entry of the kept one. *)
Definition budget_rounds (keep : string) (s : State) : nat :=
  S (length (st_recency s) + match st_channels s !! keep with Some b => length (bf_entries b) | None => 0 end).

Definition enforced (keep : string) (s : State) : option State := enforceBudgetLocked (budget_rounds keep s) keep s.

Definition addLocked (e : entry) (s : State) : option State :=
  let id := msg_ChannelId (en_message e) in
  let '(b, recency) := match st_channels s !! id with
                       | Some b => (b, st_recency s)
                       | None => (mkBuffer [] 0, id :: st_recency s)
                       end in
  if has_message (msg_Id (en_message e)) (bf_entries b) then Some s
  else
    let recency := id :: filter (fun x => x <> id) recency in
    let '(entries, bb, total) :=
      trim_over (MessagesPerChannel limits) (bf_entries b ++ [e]) (bf_bytes b + en_size e) (st_bytes s + en_size e) in
    enforced id (set_buffers (<[id := mkBuffer entries bb]> (st_channels s)) recency total s).

(** The first entry of that id, replaced; and what its size was. *)
Fixpoint replace_first (e : entry) (l : list entry) : option (list entry * Z) :=
  match l with
  | [] => None
  | x :: l =>
      if (msg_Id (en_message x) =? msg_Id (en_message e))%string then Some (e :: l, en_size x)
      else '(l, size) ← replace_first e l; Some (x :: l, size)
  end.

Definition replaceLocked (e : entry) (s : State) : option State :=
  let id := msg_ChannelId (en_message e) in
  match st_channels s !! id with
  | None => Some s
  | Some b =>
      match replace_first e (bf_entries b) with
      | None => Some s
      | Some (entries, old) =>
          let delta := en_size e - old in
          enforced id (set_buffers (<[id := mkBuffer entries (bf_bytes b + delta)]> (st_channels s)) (st_recency s)
                         (st_bytes s + delta) s)
      end
  end.

Fixpoint remove_first (id : string) (l : list entry) : option (list entry * Z) :=
  match l with
  | [] => None
  | x :: l =>
      if (msg_Id (en_message x) =? id)%string then Some (l, en_size x)
      else '(l, size) ← remove_first id l; Some (x :: l, size)
  end.

Definition removeLocked (channelID messageID : string) (s : State) : State :=
  match st_channels s !! channelID with
  | None => s
  | Some b =>
      match remove_first messageID (bf_entries b) with
      | None => s
      | Some (entries, size) =>
          set_buffers (<[channelID := mkBuffer entries (bf_bytes b - size)]> (st_channels s)) (st_recency s)
            (st_bytes s - size) s
      end
  end.

Definition dropChannelLocked (id : string) (s : State) : State :=
  match st_channels s !! id with
  | None => s
  | Some b => set_buffers (delete id (st_channels s)) (filter (fun x => x <> id) (st_recency s)) (st_bytes s - bf_bytes b) s
  end.

(** ** Dispatch *)

Definition charged (data : string) : Z := Z.of_nat (String.length data) + entryOverhead.

(** [None] is a panic; an event that does not decode is logged and changes nothing. *)
Definition Dispatch (eventType data : string) (s : State) : option State :=
  if (eventType =? "READY")%string then
    Some (match as_ready data with Some (u, guilds) => ready u guilds s | None => s end)
  else if (eventType =? "GUILD_CREATE")%string || (eventType =? "GUILD_UPDATE")%string then
    Some (match as_guild data with Some g => putGuildLocked g s | None => s end)
  else if (eventType =? "GUILD_DELETE")%string then
    Some (match as_gone data with
          | Some id => dropMessagesLocked (mkState (st_generation s) (st_user s) (delete id (st_guilds s))
                                             (st_channels s) (st_recency s) (st_bytes s))
          | None => s
          end)
  else if (eventType =? "CHANNEL_DELETE")%string then
    Some (match as_gone data with Some id => dropChannelLocked id s | None => s end)
  else if (eventType =? "GUILD_PERMISSIONS_UPDATE")%string then Some (dropMessagesLocked s)
  else if (eventType =? "MESSAGE_CREATE")%string then
    match as_message data with Some m => addLocked (mkEntry m (charged data)) s | None => Some s end
  else if (eventType =? "MESSAGE_UPDATE")%string then
    match as_message data with Some m => replaceLocked (mkEntry m (charged data)) s | None => Some s end
  else if (eventType =? "MESSAGE_DELETE")%string then
    Some (match as_deleted data with Some (id, channelID) => removeLocked channelID id s | None => s end)
  else Some s.

(** ** Reading *)

Definition Messages (channelID : string) (s : State) : list Message :=
  match st_channels s !! channelID with Some b => en_message <$> bf_entries b | None => [] end.

(** ** Calls *)

Inductive StateCall := SCBegin (generation : Z) | SCEnd | SCDispatch (eventType data : string).

Definition state_call (c : StateCall) (s : State) : option State :=
  match c with
  | SCBegin generation => Some (Begin generation s)
  | SCEnd => Some (End_ s)
  | SCDispatch eventType data => Dispatch eventType data s
  end.

Definition state_run (cs : list StateCall) (s : State) : option State := foldl (fun o c => o ≫= state_call c) (Some s) cs.
End state.

(** ** The state's invariant *)

Definition sizes (l : list entry) : Z := foldr (fun e n => en_size e + n) 0 l.
Definition total (m : gmap string buffer) : Z := map_fold (fun _ b n => bf_bytes b + n) 0 m.
Definition ids (l : list entry) : list string := (fun e => msg_Id (en_message e)) <$> l.

Lemma sizes_app l1 l2 : sizes (l1 ++ l2) = sizes l1 + sizes l2.
Proof. induction l1 as [|e l1 IH]; simpl; [done|]. rewrite IH. lia. Qed.

Lemma sizes_nonneg l : Forall (fun e => 0 < en_size e) l -> 0 <= sizes l.
Proof. induction 1; simpl; lia. Qed.

Lemma total_insert m id b : m !! id = None -> total (<[id := b]> m) = bf_bytes b + total m.
Proof. intros H. unfold total. rewrite map_fold_insert_L; [done|intros; lia|done]. Qed.

Lemma total_delete m id b : m !! id = Some b -> total m = bf_bytes b + total (delete id m).
Proof.
  intros H. rewrite <- (insert_id m id b H) at 1. rewrite <- insert_delete_eq.
  apply total_insert, lookup_delete_eq.
Qed.

Lemma total_replace m id b b' : m !! id = Some b -> total (<[id := b']> m) = total m - bf_bytes b + bf_bytes b'.
Proof.
  intros H. rewrite <- insert_delete_eq, total_insert by apply lookup_delete_eq. rewrite (total_delete m id b H). lia.
Qed.

Section invariant.
Context (limits : StateLimits) (Hper : 0 < MessagesPerChannel limits) (Hbudget : 0 < TotalBytes limits).

Record buffer_ok (id : string) (b : buffer) : Prop := mkBufferOk {
  bo_bytes : bf_bytes b = sizes (bf_entries b);
  bo_sizes : Forall (fun e => 0 < en_size e) (bf_entries b);
  bo_channel : Forall (fun e => msg_ChannelId (en_message e) = id) (bf_entries b);
  bo_ids : NoDup (ids (bf_entries b));
  bo_length : Z.of_nat (length (bf_entries b)) <= MessagesPerChannel limits
}.

(** The buffers agree with the recency list and with the count of bytes. *)
Record sound (s : State) : Prop := mkSound {
  so_nodup : NoDup (st_recency s);
  so_listed : forall id, id ∈ st_recency s <-> is_Some (st_channels s !! id);
  so_buffer : forall id b, st_channels s !! id = Some b -> buffer_ok id b;
  so_total : st_bytes s = total (st_channels s)
}.

(** Within the budget, a single message of the quietest channel aside. *)
Definition within (s : State) : Prop :=
  st_bytes s <= TotalBytes limits \/
  exists id b, last (st_recency s) = Some id /\ st_channels s !! id = Some b /\
    (length (bf_entries b) <= 1)%nat /\ st_bytes s - bf_bytes b <= TotalBytes limits.

Definition short_name (t : string) : Prop :=
  exists rs, runes_of t = Some <$> rs /\ (length rs <= maxNameRunes)%nat /\ forall r, r ∈ rs -> hostile false r = false.
Definition safe_name (t : string) : Prop :=
  exists rs, runes_of t = Some <$> rs /\ forall r, r ∈ rs -> hostile false r = false.

Record state_ok (s : State) : Prop := mkStateOk {
  sk_sound : sound s;
  sk_within : within s;
  sk_guilds : Z.of_nat (size (st_guilds s)) <= maxGuilds;
  sk_names : forall id g, st_guilds s !! id = Some g -> gd_ID g = id /\ short_name (gd_Name g);
  sk_user : forall u, st_user s = Some u -> safe_name (us_Username u) /\ safe_name (us_DisplayName u)
}.

Lemma buffer_bytes_nonneg id b : buffer_ok id b -> 0 <= bf_bytes b.
Proof. intros [-> ? _ _ _]. by apply sizes_nonneg. Qed.

Lemma total_nonneg m : (forall id b, m !! id = Some b -> 0 <= bf_bytes b) -> 0 <= total m.
Proof.
  induction m as [|id b m Hno IH] using map_ind; intros H; [done|]. rewrite total_insert by done.
  assert (0 <= bf_bytes b) by (apply (H id), lookup_insert_eq).
  assert (0 <= total m); [|lia]. apply IH. intros i c Hi. apply (H i). rewrite lookup_insert_ne; congruence.
Qed.

(** The back of a list, and what is left of it. *)
Lemma last_drop_back l x : last l = Some x -> l = drop_back l ++ [x].
Proof.
  intros H. apply last_Some in H as [l' ->]. f_equal. unfold drop_back. rewrite length_app. simpl.
  rewrite Nat.add_sub. rewrite take_app_le by lia. by rewrite take_ge by lia.
Qed.

Lemma sound_evict id b s :
  sound s -> last (st_recency s) = Some id -> st_channels s !! id = Some b ->
  sound (set_buffers (delete id (st_channels s)) (drop_back (st_recency s)) (st_bytes s - bf_bytes b) s).
Proof.
  intros [H1 H2 H3 H4] Hl Hb. apply last_drop_back in Hl. rewrite Hl in H1, H2.
  apply NoDup_app in H1 as (Hn & Hd & _). split; simpl.
  - done.
  - intros i. rewrite lookup_delete_is_Some, <- H2, elem_of_app, list_elem_of_singleton.
    split; [intros Hi; split; [|by left]|naive_solver]. intros <-. apply (Hd id Hi). by left.
  - intros i c [_ Hc]%lookup_delete_Some. by apply H3.
  - rewrite H4, (total_delete _ _ _ Hb). lia.
Qed.

Lemma sound_trim id b e rest s :
  sound s -> st_channels s !! id = Some b -> bf_entries b = e :: rest ->
  sound (set_buffers (<[id := mkBuffer rest (bf_bytes b - en_size e)]> (st_channels s)) (st_recency s)
           (st_bytes s - en_size e) s).
Proof.
  intros [H1 H2 H3 H4] Hb He. destruct (H3 _ _ Hb) as [B1 B2 B3 B4 B5]. rewrite He in *. split; simpl.
  - done.
  - intros i. rewrite H2, lookup_insert_is_Some'. split; [by right|]. intros [<-|?]; [by eexists|done].
  - intros i c. destruct (decide (id = i)) as [<-|]; [|rewrite lookup_insert_ne by done; apply H3].
    rewrite lookup_insert_eq. intros [= <-]. split; simpl.
    + rewrite B1. simpl. lia.
    + by inversion B2.
    + by inversion B3.
    + by inversion B4.
    + simpl in B5. lia.
  - rewrite (total_replace _ _ _ _ Hb), H4. simpl. lia.
Qed.

(** What shows in one state is the end of what showed in the other. *)
Definition shrinks (s s' : State) : Prop := forall ch, Messages ch s' `suffix_of` Messages ch s.

Lemma shrinks_refl s : shrinks s s.
Proof. intros ch. done. Qed.
Lemma shrinks_trans s1 s2 s3 : shrinks s1 s2 -> shrinks s2 s3 -> shrinks s1 s3.
Proof. intros H1 H2 ch. etrans; [apply H2|apply H1]. Qed.

(** Nothing but the buffers. *)
Definition same_rest (s s' : State) : Prop :=
  st_generation s' = st_generation s /\ st_user s' = st_user s /\ st_guilds s' = st_guilds s.

(** The channel kept aside, the others fit, or would without the quietest of them. *)
Definition others_fit (keep : string) (kept : Z) (s : State) : Prop :=
  st_bytes s - kept <= TotalBytes limits \/
  exists id b, id <> keep /\ last (st_recency s) = Some id /\ st_channels s !! id = Some b /\
    st_bytes s - kept - bf_bytes b <= TotalBytes limits.

Lemma enforce_spec fuel keep s b :
  sound s -> st_channels s !! keep = Some b -> others_fit keep (bf_bytes b) s ->
  (length (st_recency s) + length (bf_entries b) < fuel)%nat ->
  exists s', enforceBudgetLocked limits fuel keep s = Some s' /\ sound s' /\ within s' /\ shrinks s s' /\ same_rest s s' /\
    (bf_entries b <> [] -> Messages keep s' <> []).
Proof using Hbudget.
  revert s b. induction fuel as [|fuel IH]; intros s b Hs Hb Hfit Hfuel; [lia|]. simpl.
  assert (Messages keep s = en_message <$> bf_entries b) as Hmsg by (unfold Messages; by rewrite Hb).
  destruct (Z.leb_spec (st_bytes s) (TotalBytes limits)) as [Hle|Hover].
  { exists s. split_and!; [done|done|by left|apply shrinks_refl|done|]. rewrite Hmsg. by destruct (bf_entries b). }
  assert (keep ∈ st_recency s) as Hkeep by (apply (so_listed _ Hs); eauto).
  destruct (last (st_recency s)) as [victim|] eqn:Hl.
  2: { apply last_None in Hl. rewrite Hl in Hkeep. by apply not_elem_of_nil in Hkeep. }
  simpl. destruct (String.eqb_spec victim keep) as [->|Hne]; simpl.
  - rewrite Hb. simpl. destruct (bf_entries b) as [|e rest] eqn:He.
    { exists s. split_and!; try done; [|apply shrinks_refl].
      right. exists keep, b. rewrite He. split_and!; [done..|simpl; lia|].
      destruct Hfit as [?|(id & c & ? & ? & _)]; [done|congruence]. }
    destruct rest as [|e' rest].
    { exists s. split_and!; try done; [|apply shrinks_refl|].
      - right. exists keep, b. rewrite He. split_and!; [done..|simpl; lia|].
        destruct Hfit as [?|(id & c & ? & ? & _)]; [done|congruence].
      - rewrite Hmsg. done. }
    simpl. destruct (IH (set_buffers (<[keep := mkBuffer (e' :: rest) (bf_bytes b - en_size e)]> (st_channels s))
                 (st_recency s) (st_bytes s - en_size e) s) (mkBuffer (e' :: rest) (bf_bytes b - en_size e)))
      as (s' & E & H1 & H2 & H3 & H4 & H5).
    + by apply sound_trim.
    + simpl. by rewrite lookup_insert_eq.
    + destruct Hfit as [Hfit|(id & c & ? & ? & _)]; [left; simpl; lia|congruence].
    + simpl in *. lia.
    + exists s'. split_and!; try done.
      * eapply shrinks_trans; [|exact H3]. intros ch. unfold Messages. simpl.
        destruct (decide (keep = ch)) as [<-|]; [rewrite lookup_insert_eq, Hb, He; simpl; by apply suffix_cons_r|].
        by rewrite lookup_insert_ne.
      * intros _. by apply H5.
  - assert (is_Some (st_channels s !! victim)) as [c Hc].
    { apply (so_listed _ Hs). apply last_Some_elem_of in Hl. done. }
    rewrite Hc. simpl.
    destruct (IH (set_buffers (delete victim (st_channels s)) (drop_back (st_recency s)) (st_bytes s - bf_bytes c) s) b)
      as (s' & E & H1 & H2 & H3 & H4 & H5).
    + by apply sound_evict.
    + simpl. by rewrite lookup_delete_ne.
    + left. simpl. pose proof (buffer_bytes_nonneg _ _ (so_buffer _ Hs _ _ Hc)).
      destruct Hfit as [?|(id & c' & ? & Hl' & Hc' & ?)]; [lia|]. rewrite Hl in Hl'. simplify_eq. lia.
    + simpl. apply last_drop_back in Hl. apply (f_equal length) in Hl. rewrite length_app in Hl. simpl in Hl. lia.
    + exists s'. split_and!; try done. eapply shrinks_trans; [|exact H3]. intros ch. unfold Messages. simpl.
      destruct (decide (victim = ch)) as [<-|]; [rewrite lookup_delete_eq; apply suffix_nil|].
      by rewrite lookup_delete_ne.
Qed.

(** ** The operations *)

Lemma trim_over_spec entries b total :
  b = sizes entries ->
  exists k, let '(entries', b', total') := trim_over (MessagesPerChannel limits) entries b total in
    entries' = drop k entries /\ b' = sizes entries' /\ total' = total - (b - b') /\
    Z.of_nat (length entries') <= MessagesPerChannel limits /\ (entries <> [] -> entries' <> []).
Proof using Hper.
  revert b total. induction entries as [|e entries IH]; intros b total ->; simpl.
  { exists 0%nat. split_and!; [done..|lia|simpl; lia|done]. }
  destruct (Z.ltb_spec (MessagesPerChannel limits) (Z.of_nat (S (length entries)))) as [Hlt|Hge].
  - destruct (IH (en_size e + sizes entries - en_size e) (total - en_size e)) as [k Hk]; [lia|].
    exists (S k). destruct (trim_over _ _ _ _) as [[entries' b'] total']. destruct Hk as (H1 & H2 & H3 & H4 & H5).
    split_and!; [done|done|lia|done|]. intros _. apply H5. intros ->. simpl in *. lia.
  - exists 0%nat. split_and!; [done|done|lia|simpl; lia|done].
Qed.

Lemma last_filter_ne (l : list string) id x : last l = Some x -> x <> id -> last (filter (fun y => y <> id) l) = Some x.
Proof.
  intros H Hne. apply last_Some in H as [l' ->]. rewrite filter_app, filter_cons_True by done.
  apply last_snoc.
Qed.

(** A channel changed: whether the others fit is as it was. *)
Lemma others_fit_after keep s s1 old new :
  within s -> 0 <= old ->
  match st_channels s !! keep with Some b => bf_bytes b = old | None => old = 0 end ->
  st_bytes s1 - new = st_bytes s - old ->
  (forall id, id <> keep -> last (st_recency s) = Some id -> last (st_recency s1) = Some id) ->
  (forall id, id <> keep -> st_channels s1 !! id = st_channels s !! id) -> others_fit keep new s1.
Proof.
  intros Hw Hpos Hold Hbytes Hlast Hch. destruct Hw as [Hle|(id & b & Hl & Hb & _ & Hle)].
  - left. lia.
  - destruct (decide (id = keep)) as [->|Hne].
    + left. rewrite Hb in Hold. lia.
    + right. exists id, b. split_and!; [done|by apply Hlast|by rewrite Hch|lia].
Qed.

Lemma addLocked_spec e s :
  sound s -> within s -> 0 < en_size e ->
  exists s', addLocked limits e s = Some s' /\ sound s' /\ within s' /\ same_rest s s' /\
    (if has_message (msg_Id (en_message e)) (match st_channels s !! msg_ChannelId (en_message e) with Some b => bf_entries b | None => [] end)
     then s' = s
     else (forall ch, Messages ch s' `suffix_of`
             Messages ch s ++ (if decide (ch = msg_ChannelId (en_message e)) then [en_message e] else [])) /\
          Messages (msg_ChannelId (en_message e)) s' <> []).
Proof using Hper Hbudget.
  intros Hs Hw He. unfold addLocked. set (ch := msg_ChannelId (en_message e)).
  pose proof Hs as [H1 H2 H3 H4].
  set (p := match st_channels s !! ch with Some b => (b, st_recency s) | None => (mkBuffer [] 0, ch :: st_recency s) end).
  assert (Hp : exists b recency, p = (b, recency) /\ buffer_ok ch b /\
            bf_entries b = match st_channels s !! ch with Some b => bf_entries b | None => [] end /\
            match st_channels s !! ch with Some b' => bf_bytes b' = bf_bytes b | None => bf_bytes b = 0 end /\
            filter (fun x => x <> ch) recency = filter (fun x => x <> ch) (st_recency s) /\
            total (<[ch := b]> (st_channels s)) = total (st_channels s)).
  { unfold p. destruct (st_channels s !! ch) as [b|] eqn:E.
    - exists b, (st_recency s). split_and!; try done; [by apply H3|]. by rewrite insert_id.
    - exists (mkBuffer [] 0), (ch :: st_recency s). split_and!; try done.
      + split; simpl; try done; try constructor. lia.
      + rewrite filter_cons_False by tauto. done.
      + rewrite total_insert by done. simpl. lia. }
  destruct Hp as (b & recency & -> & Hb & Hent & Hbytes & Hrec & Htot). rewrite <- Hent.
  destruct (has_message _ (bf_entries b)) eqn:Hhas.
  { by exists s. }
  destruct Hb as [B1 B2 B3 B4 B5].
  destruct (trim_over_spec (bf_entries b ++ [e]) (bf_bytes b + en_size e) (st_bytes s + en_size e)) as [k Hk].
  { rewrite sizes_app, B1. simpl. lia. }
  destruct (trim_over _ _ _ _) as [[entries' bb] tot]. destruct Hk as (K1 & K2 & K3 & K4 & K5).
  assert (forall x, x ∈ entries' -> x ∈ bf_entries b ++ [e]) as Hsub.
  { intros x Hx. rewrite <- (take_drop k (bf_entries b ++ [e])), <- K1. set_solver. }
  set (s1 := set_buffers _ _ _ _).
  assert (sound s1) as Hs1.
  { split; simpl.
    - constructor; [by intros [? _]%list_elem_of_filter|]. rewrite Hrec. by apply NoDup_filter.
    - intros i. rewrite Hrec, elem_of_cons, list_elem_of_filter, H2, lookup_insert_is_Some'.
      destruct (decide (i = ch)); naive_solver.
    - intros i c. destruct (decide (ch = i)) as [<-|]; [|rewrite lookup_insert_ne by done; apply H3].
      rewrite lookup_insert_eq. intros [= <-]. split; simpl; [done| | | |done].
      + apply Forall_forall. intros x [Hx| ->%list_elem_of_singleton]%Hsub%elem_of_app; [|done].
        rewrite Forall_forall in B2. by apply B2.
      + apply Forall_forall. intros x [Hx| ->%list_elem_of_singleton]%Hsub%elem_of_app; [|done].
        rewrite Forall_forall in B3. by apply B3.
      + assert (NoDup (ids (bf_entries b ++ [e]))) as Hnd.
        { unfold ids. rewrite fmap_app. apply NoDup_app. split_and!; [done| |simpl; apply NoDup_singleton].
          intros i (x & -> & Hx)%list_elem_of_fmap Hi. simpl in Hi. apply list_elem_of_singleton in Hi.
          apply (proj1 (existsb_false _ _) Hhas) in Hx. apply String.eqb_neq in Hx. done. }
        rewrite <- (take_drop k (bf_entries b ++ [e])), <- K1 in Hnd. unfold ids in *. rewrite fmap_app in Hnd.
        by apply NoDup_app in Hnd as (_ & _ & ?).
    - rewrite K3. rewrite <- (insert_insert_eq _ ch (mkBuffer entries' bb) b).
      rewrite (total_replace _ ch b) by apply lookup_insert_eq. rewrite Htot, <- H4. simpl. lia. }
  assert (st_channels s1 !! ch = Some (mkBuffer entries' bb)) as Hch by (simpl; by rewrite lookup_insert_eq).
  destruct (enforce_spec (budget_rounds ch s1) ch s1 (mkBuffer entries' bb) Hs1 Hch) as (s' & E & R1 & R2 & R3 & R4 & R5).
  { apply (others_fit_after ch s s1 (bf_bytes b)); [done| | | | |].
    - rewrite B1. by apply sizes_nonneg.
    - destruct (st_channels s !! ch); done.
    - simpl. rewrite K3. lia.
    - intros i Hne Hl. simpl. rewrite Hrec. assert (last (filter (fun x => x <> ch) (st_recency s)) = Some i) as E
        by by apply last_filter_ne. by rewrite last_cons, E.
    - intros i Hne. simpl. by rewrite lookup_insert_ne. }
  { unfold budget_rounds. rewrite Hch. simpl. lia. }
  exists s'. split; [exact E|]. do 3 (split; [done|]).
  split; [|by apply R5, K5; destruct (bf_entries b)].
  intros c. etrans; [apply R3|]. unfold Messages at 1. simpl. destruct (decide (c = ch)) as [->|Hne].
  - rewrite lookup_insert_eq. simpl. rewrite K1.
    assert (Messages ch s = en_message <$> bf_entries b) as -> by (unfold Messages; rewrite Hent; by destruct (st_channels s !! ch)).
    exists (en_message <$> take k (bf_entries b ++ [e])). rewrite <- fmap_app, take_drop, fmap_app. done.
  - rewrite lookup_insert_ne by done. rewrite app_nil_r. done.
Qed.

(** A message put in the place of another with its id. *)
Definition replaced (m : Message) (l : list Message) : list Message :=
  (fun x => if (msg_Id x =? msg_Id m)%string then m else x) <$> l.

Lemma replaced_absent m l : msg_Id m ∉ msg_Id <$> l -> replaced m l = l.
Proof.
  intros H. unfold replaced. induction l as [|x l IH]; [done|]. simpl in *.
  destruct (String.eqb_spec (msg_Id x) (msg_Id m)); [set_solver|]. f_equal. apply IH. set_solver.
Qed.

Lemma replace_first_spec e l :
  NoDup (ids l) ->
  match replace_first e l with
  | None => msg_Id (en_message e) ∉ ids l
  | Some (l', old) => ids l' = ids l /\ length l' = length l /\ sizes l' = sizes l + (en_size e - old) /\
      (forall P : entry -> Prop, P e -> Forall P l -> Forall P l') /\
      en_message <$> l' = replaced (en_message e) (en_message <$> l)
  end.
Proof.
  induction l as [|x l IH]; intros Hnd; simpl; [apply not_elem_of_nil|].
  inversion Hnd as [|? ? Hx Hnd']; subst. specialize (IH Hnd').
  destruct (String.eqb_spec (msg_Id (en_message x)) (msg_Id (en_message e))) as [E|Hne].
  - split_and!; simpl; [by rewrite E|done|lia|intros P HP HF; constructor; [done|by inversion HF]|].
    f_equal. symmetry. apply replaced_absent. rewrite <- E. intros (m & Em & (y & -> & Hy)%list_elem_of_fmap)%list_elem_of_fmap.
    apply Hx. rewrite Em. apply list_elem_of_fmap. by exists y.
  - destruct (replace_first e l) as [[l' old]|]; simpl.
    + destruct IH as (I1 & I2 & I3 & I4 & I5). split_and!; [by rewrite I1|by rewrite I2|lia| |].
      * intros P HP HF. inversion HF; subst. constructor; auto.
      * f_equal. exact I5.
    + set_solver.
Qed.

Lemma replaceLocked_spec e s :
  sound s -> within s -> 0 < en_size e ->
  exists s', replaceLocked limits e s = Some s' /\ sound s' /\ within s' /\ same_rest s s' /\
    forall ch, Messages ch s' `suffix_of`
      (if decide (ch = msg_ChannelId (en_message e)) then replaced (en_message e) (Messages ch s) else Messages ch s).
Proof using Hper Hbudget.
  intros Hs Hw He. unfold replaceLocked. set (ch := msg_ChannelId (en_message e)).
  assert (forall o, msg_Id (en_message e) ∉ msg_Id <$> Messages ch s -> o = Some s ->
    exists s', o = Some s' /\ sound s' /\ within s' /\ same_rest s s' /\
      forall c, Messages c s' `suffix_of` (if decide (c = ch) then replaced (en_message e) (Messages c s) else Messages c s)) as Hsame.
  { intros o Ho ->. exists s. split_and!; try done. intros c. case_decide as Ec; [|done]. subst c. by rewrite replaced_absent. }
  destruct (st_channels s !! ch) as [b|] eqn:Hb.
  2: { apply Hsame; [|done]. unfold Messages. rewrite Hb. apply not_elem_of_nil. }
  pose proof Hs as [H1 H2 H3 H4]. pose proof (H3 _ _ Hb) as [B1 B2 B3 B4 B5].
  assert (Messages ch s = en_message <$> bf_entries b) as Hmsg by (unfold Messages; by rewrite Hb).
  pose proof (replace_first_spec e (bf_entries b) B4) as Hrep.
  destruct (replace_first e (bf_entries b)) as [[entries' old]|].
  2: { apply Hsame; [|done]. rewrite Hmsg. unfold ids in Hrep. by rewrite <- list_fmap_compose. }
  destruct Hrep as (R1 & R2 & R3 & R4 & R5).
  set (b1 := mkBuffer entries' (bf_bytes b + (en_size e - old))). set (s1 := set_buffers _ _ _ _).
  assert (sound s1) as Hs1.
  { split; simpl.
    - done.
    - intros i. rewrite H2, lookup_insert_is_Some'. split; [by right|]. intros [<-|?]; [by eexists|done].
    - intros i c. destruct (decide (ch = i)) as [<-|]; [|rewrite lookup_insert_ne by done; apply H3].
      rewrite lookup_insert_eq. intros [= <-]. split; simpl; [lia|by apply R4|by apply R4|by rewrite R1|lia].
    - rewrite (total_replace _ _ _ _ Hb), H4. simpl. lia. }
  assert (st_channels s1 !! ch = Some b1) as Hch by (simpl; by rewrite lookup_insert_eq).
  destruct (enforce_spec (budget_rounds ch s1) ch s1 b1 Hs1 Hch) as (s' & E & Q1 & Q2 & Q3 & Q4 & _).
  { apply (others_fit_after ch s s1 (bf_bytes b)); [done| | | | |].
    - rewrite B1. by apply sizes_nonneg.
    - by rewrite Hb.
    - simpl. lia.
    - done.
    - intros i Hne. simpl. by rewrite lookup_insert_ne. }
  { unfold budget_rounds. rewrite Hch. simpl. lia. }
  exists s'. split; [exact E|]. do 3 (split; [done|]). intros c. etrans; [apply Q3|]. unfold Messages at 1. simpl.
  case_decide as Ec.
  - subst c. rewrite lookup_insert_eq. simpl. by rewrite R5, Hmsg.
  - by rewrite lookup_insert_ne.
Qed.

Lemma remove_first_spec id l :
  NoDup (ids l) ->
  match remove_first id l with
  | None => id ∉ ids l
  | Some (l', size) => (exists x, x ∈ l /\ en_size x = size) /\ sizes l' = sizes l - size /\ length l = S (length l') /\
      ids l' = filter (fun i => i <> id) (ids l) /\ (forall P : entry -> Prop, Forall P l -> Forall P l') /\
      en_message <$> l' = filter (fun m => msg_Id m <> id) (en_message <$> l)
  end.
Proof.
  induction l as [|x l IH]; intros Hnd; simpl; [apply not_elem_of_nil|].
  inversion Hnd as [|? ? Hx Hnd']; subst. specialize (IH Hnd').
  destruct (String.eqb_spec (msg_Id (en_message x)) id) as [E|Hne].
  - subst id. rewrite !filter_cons_False by tauto. split_and!.
    + exists x. split; [by left|done].
    + lia.
    + done.
    + symmetry. clear -Hx. induction (ids l) as [|i js IH]; [done|]. rewrite filter_cons_True by set_solver. f_equal. apply IH. set_solver.
    + intros P HF. by inversion HF.
    + symmetry. clear -Hx. induction l as [|y l IH]; [done|]. unfold ids in Hx. simpl in *.
      rewrite filter_cons_True by set_solver. f_equal. apply IH. unfold ids. set_solver.
  - destruct (remove_first id l) as [[l' size]|]; simpl; [|set_solver].
    destruct IH as ((y & Hy & Hs) & I2 & I3 & I4 & I5 & I6). rewrite !filter_cons_True by done. split_and!.
    + exists y. split; [by right|done].
    + lia.
    + lia.
    + by rewrite I4.
    + intros P HF. inversion HF; subst. constructor; auto.
    + f_equal. exact I6.
Qed.

Lemma filter_ne_absent id (l : list Message) : id ∉ msg_Id <$> l -> filter (fun m => msg_Id m <> id) l = l.
Proof.
  induction l as [|x l IH]; intros H; [done|]. simpl in H. rewrite filter_cons_True by set_solver. f_equal. apply IH. set_solver.
Qed.

Lemma removeLocked_spec ch id s :
  sound s -> within s ->
  let s' := removeLocked ch id s in
  sound s' /\ within s' /\ same_rest s s' /\
  forall c, Messages c s' = (if decide (c = ch) then filter (fun m => msg_Id m <> id) (Messages c s) else Messages c s).
Proof using Hper Hbudget.
  intros Hs Hw s'. unfold s', removeLocked.
  assert (id ∉ msg_Id <$> Messages ch s -> forall c, Messages c s =
    (if decide (c = ch) then filter (fun m => msg_Id m <> id) (Messages c s) else Messages c s)) as Hsame.
  { intros Ho c. case_decide as Ec; [|done]. subst c. by rewrite filter_ne_absent. }
  destruct (st_channels s !! ch) as [b|] eqn:Hb.
  2: { split_and!; try done. apply Hsame. unfold Messages. rewrite Hb. apply not_elem_of_nil. }
  pose proof Hs as [H1 H2 H3 H4]. pose proof (H3 _ _ Hb) as [B1 B2 B3 B4 B5].
  assert (Messages ch s = en_message <$> bf_entries b) as Hmsg by (unfold Messages; by rewrite Hb).
  pose proof (remove_first_spec id (bf_entries b) B4) as Hrem.
  destruct (remove_first id (bf_entries b)) as [[entries' size]|].
  2: { split_and!; try done. apply Hsame. rewrite Hmsg. unfold ids in Hrem. by rewrite <- list_fmap_compose. }
  destruct Hrem as ((x & Hx & Hsize) & R2 & R3 & R4 & R5 & R6).
  assert (0 < size) as Hpos by (rewrite Forall_forall in B2; rewrite <- Hsize; by apply B2).
  split; [|split; [|split; [done|]]].
  - split; simpl.
    + done.
    + intros i. rewrite H2, lookup_insert_is_Some'. split; [by right|]. intros [<-|?]; [by eexists|done].
    + intros i c. destruct (decide (ch = i)) as [<-|]; [|rewrite lookup_insert_ne by done; apply H3].
      rewrite lookup_insert_eq. intros [= <-]. split; simpl; [lia|by apply R5|by apply R5|rewrite R4; by apply NoDup_filter|lia].
    + rewrite (total_replace _ _ _ _ Hb), H4. simpl. lia.
  - destruct Hw as [Hle|(i & c & Hl & Hc & Hlen & Hle)]; [left; simpl; lia|].
    destruct (decide (ch = i)) as [<-|Hne].
    + left. simpl. rewrite Hb in Hc. simplify_eq. assert (sizes entries' = 0) as E.
      { destruct entries'; [done|]. simpl in *. lia. }
      rewrite B1 in Hle. lia.
    + right. exists i, c. simpl. rewrite lookup_insert_ne by done. split_and!; [done..|lia].
  - intros c. unfold Messages at 1. simpl. case_decide as Ec.
    + subst c. rewrite lookup_insert_eq. simpl. by rewrite R6, Hmsg.
    + by rewrite lookup_insert_ne.
Qed.

Lemma dropChannelLocked_spec ch s :
  sound s -> within s ->
  let s' := dropChannelLocked ch s in
  sound s' /\ within s' /\ same_rest s s' /\ forall c, Messages c s' = (if decide (c = ch) then [] else Messages c s).
Proof.
  intros Hs Hw s'. unfold s', dropChannelLocked. destruct (st_channels s !! ch) as [b|] eqn:Hb.
  2: { split_and!; try done. intros c. case_decide as Ec; [|done]. subst c. unfold Messages. by rewrite Hb. }
  pose proof Hs as [H1 H2 H3 H4]. pose proof (buffer_bytes_nonneg _ _ (H3 _ _ Hb)) as Hpos.
  split; [|split; [|split; [done|]]].
  - split; simpl.
    + by apply NoDup_filter.
    + intros i. rewrite list_elem_of_filter, H2, lookup_delete_is_Some. naive_solver.
    + intros i c [_ Hc]%lookup_delete_Some. by apply H3.
    + rewrite H4, (total_delete _ _ _ Hb). lia.
  - destruct Hw as [Hle|(i & c & Hl & Hc & Hlen & Hle)]; [left; simpl; lia|].
    destruct (decide (i = ch)) as [->|Hne]; [left; simpl; rewrite Hb in Hc; simplify_eq; lia|].
    right. exists i, c. simpl. rewrite lookup_delete_ne by done. split_and!; [by apply last_filter_ne|done..|lia].
  - intros c. unfold Messages at 1. simpl. case_decide as Ec.
    + subst c. by rewrite lookup_delete_eq.
    + by rewrite lookup_delete_ne.
Qed.
End invariant.

(** ** Names *)

Lemma first_runes_skip n l1 l2 : first_runes n (length l1) (l1 ++ l2) = l1 ++ first_runes n 0 l2.
Proof. induction l1 as [|b l1 IH]; [done|]. simpl. by rewrite IH. Qed.

Lemma first_runes_encode n rs :
  Forall scalar rs -> first_runes n 0 (rs ≫= encode_rune) = take n rs ≫= encode_rune.
Proof.
  intros H. revert n. induction H as [|r rs Hr _ IH]; intros n; [by destruct n|]. rewrite bind_cons.
  pose proof (rune_size_encode r (rs ≫= encode_rune) Hr) as Hs. revert Hs.
  destruct (encode_rune_cons r) as (b & bs & E). rewrite E. cbn [app first_runes]. destruct n as [|n]; [done|].
  cbn [length app]. intros ->. cbn [take]. rewrite bind_cons, E. cbn [default from_option id].
  replace (S (length bs) - 1)%nat with (length bs) by lia. unfold id. rewrite first_runes_skip, IH. done.
Qed.

Lemma name_safe t : safe_name (Text t).
Proof.
  unfold Text. rewrite filter_text_marked. exists (marked false false (clean_runes t)). split.
  - apply runes_of_encode, marked_scalar, clean_scalar.
  - intros r [? _]%elem_of_marked. by rewrite <- mustRemove_hostile.
Qed.

Lemma name_short t : short_name (truncateRunes (Text t) maxNameRunes).
Proof.
  unfold Text, truncateRunes. rewrite filter_text_marked. set (rs := marked false false (clean_runes t)).
  assert (Forall scalar rs) as Hsc by apply marked_scalar, clean_scalar.
  rewrite bytes_of_encode, first_runes_encode by done. exists (take maxNameRunes rs). split_and!.
  - apply runes_of_encode. by apply Forall_take.
  - rewrite length_take. lia.
  - intros r Hr. assert (r ∈ rs) as [? _]%elem_of_marked; [|by rewrite <- mustRemove_hostile].
    rewrite <- (take_drop maxNameRunes rs). set_solver.
Qed.

(** ** What was said, since the last time everything was forgotten *)

Definition said (ref : gmap string (list Message)) (ch : string) : list Message := default [] (ref !! ch).

Section reference.
Context {U : Unmarshal}.

Definition ref_dispatch (eventType data : string) (ref : gmap string (list Message)) : gmap string (list Message) :=
  if (eventType =? "GUILD_DELETE")%string then match as_gone data with Some _ => ∅ | None => ref end
  else if (eventType =? "GUILD_PERMISSIONS_UPDATE")%string then ∅
  else if (eventType =? "CHANNEL_DELETE")%string then match as_gone data with Some id => delete id ref | None => ref end
  else if (eventType =? "MESSAGE_CREATE")%string then
    match as_message data with
    | Some m => if decide (msg_Id m ∈ msg_Id <$> said ref (msg_ChannelId m)) then ref
                else <[msg_ChannelId m := said ref (msg_ChannelId m) ++ [m]]> ref
    | None => ref
    end
  else if (eventType =? "MESSAGE_UPDATE")%string then
    match as_message data with
    | Some m => <[msg_ChannelId m := replaced m (said ref (msg_ChannelId m))]> ref
    | None => ref
    end
  else if (eventType =? "MESSAGE_DELETE")%string then
    match as_deleted data with
    | Some (id, ch) => <[ch := filter (fun m => msg_Id m <> id) (said ref ch)]> ref
    | None => ref
    end
  else ref.

Definition ref_call (c : StateCall) (ref : gmap string (list Message)) : gmap string (list Message) :=
  match c with SCDispatch eventType data => ref_dispatch eventType data ref | _ => ∅ end.

Definition ref_run (cs : list StateCall) (ref : gmap string (list Message)) : gmap string (list Message) :=
  foldl (fun ref c => ref_call c ref) ref cs.

(** A call that repeats a message repeats one the state still holds. *)
Definition repeats_held (c : StateCall) (s : State) (ref : gmap string (list Message)) : Prop :=
  match c with
  | SCDispatch eventType data =>
      if (eventType =? "MESSAGE_CREATE")%string then
        match as_message data with
        | Some m => msg_Id m ∈ msg_Id <$> said ref (msg_ChannelId m) -> msg_Id m ∈ msg_Id <$> Messages (msg_ChannelId m) s
        | None => True
        end
      else True
  | _ => True
  end.

Context (limits : StateLimits) (Hper : 0 < MessagesPerChannel limits) (Hbudget : 0 < TotalBytes limits).

(** What shows is the end of what was said. *)
Record shows_end (s : State) (ref : gmap string (list Message)) : Prop := mkShows {
  sh_suffix : forall ch, Messages ch s `suffix_of` said ref ch;
  sh_ids : forall ch, NoDup (msg_Id <$> said ref ch)
}.

Lemma said_insert ref ch l c : said (<[ch := l]> ref) c = if decide (c = ch) then l else said ref c.
Proof. unfold said. case_decide; [subst; by rewrite lookup_insert_eq|by rewrite lookup_insert_ne]. Qed.

Lemma replaced_ids m l : msg_Id <$> replaced m l = msg_Id <$> l.
Proof.
  unfold replaced. rewrite <- list_fmap_compose. apply list_fmap_ext. intros i x _. simpl.
  by destruct (String.eqb_spec (msg_Id x) (msg_Id m)).
Qed.

Lemma suffix_fmap' {A B} (f : A -> B) l1 l2 : l1 `suffix_of` l2 -> f <$> l1 `suffix_of` f <$> l2.
Proof. intros [k ->]. exists (f <$> k). apply fmap_app. Qed.

Lemma suffix_filter {A} (P : A -> Prop) `{forall x, Decision (P x)} l1 l2 :
  l1 `suffix_of` l2 -> filter P l1 `suffix_of` filter P l2.
Proof. intros [k ->]. exists (filter P k). apply filter_app. Qed.

Lemma has_message_ids id l : has_message id l = true <-> id ∈ ids l.
Proof.
  unfold has_message, ids. rewrite existsb_exists, list_elem_of_fmap. split.
  - intros (x & Hx%list_elem_of_In & E%String.eqb_eq). by exists x.
  - intros (x & -> & Hx). exists x. split; [by apply list_elem_of_In|by apply String.eqb_eq].
Qed.

Lemma state_ok_cleared s g u guilds :
  Z.of_nat (size guilds) <= maxGuilds -> (forall id x, guilds !! id = Some x -> gd_ID x = id /\ short_name (gd_Name x)) ->
  (forall x, u = Some x -> safe_name (us_Username x) /\ safe_name (us_DisplayName x)) ->
  state_ok limits (dropMessagesLocked (mkState g u guilds (st_channels s) (st_recency s) (st_bytes s))).
Proof using Hbudget.
  intros H1 H2 H3. split; try done.
  - split; simpl; [constructor| |done|done]. intros id. rewrite lookup_empty. split; [by intros ?%not_elem_of_nil|by intros [? ?]].
  - left. simpl. lia.
Qed.

(** A state whose buffers alone changed. *)
Lemma state_ok_rest s s' : state_ok limits s -> sound limits s' -> within limits s' -> same_rest s s' -> state_ok limits s'.
Proof. intros [? ? H3 H4 H5] Hs Hw (E1 & E2 & E3). split; [done|done|by rewrite E3|by rewrite E3|by rewrite E2]. Qed.

Lemma putGuild_ok g s : state_ok limits s -> state_ok limits (putGuildLocked g s) /\ forall ch, Messages ch (putGuildLocked g s) = Messages ch s.
Proof.
  intros [H1 H2 H3 H4 H5]. unfold putGuildLocked.
  destruct (negb (bool_decide (is_Some (st_guilds s !! wg_Id g))) && _)%bool eqn:E; [by split|].
  split; [|done]. split; [by destruct H1|exact H2| | |exact H5]; simpl.
  - destruct (st_guilds s !! wg_Id g) as [x|] eqn:Hg.
    + rewrite map_size_insert_Some by eauto. done.
    + rewrite map_size_insert_None by done. rewrite (bool_decide_false (is_Some None)) in E by apply is_Some_None.
      simpl in E. apply Z.leb_gt in E. lia.
  - intros id x. destruct (decide (wg_Id g = id)) as [<-|]; [|rewrite lookup_insert_ne by done; apply H4].
    rewrite lookup_insert_eq. intros [= <-]. simpl. split; [done|apply name_short].
Qed.

Lemma ready_ok u guilds s : state_ok limits s -> state_ok limits (ready u guilds s) /\ forall ch, Messages ch (ready u guilds s) = Messages ch s.
Proof.
  intros [H1 H2 H3 H4 H5]. unfold ready. set (s0 := mkState _ _ _ _ _ _).
  assert (state_ok limits s0 /\ forall ch, Messages ch s0 = Messages ch s) as H0.
  { split; [|done]. split; [by destruct H1|exact H2|done|done|]. intros x [= <-]. split; apply name_safe. }
  clearbody s0. revert s0 H0. induction guilds as [|g guilds IH]; intros s0 [Hok Hmsg]; simpl; [done|].
  apply IH. destruct (putGuild_ok g s0 Hok) as [? Hm]. split; [done|]. intros ch. by rewrite Hm.
Qed.

(** One call: the state is kept, nothing panics, and what shows is still the end of what was said. *)
Lemma state_call_spec c s ref :
  state_ok limits s -> shows_end s ref -> repeats_held c s ref ->
  exists s', state_call limits c s = Some s' /\ state_ok limits s' /\ shows_end s' (ref_call c ref).
Proof using Hper Hbudget.
  intros Hok Hsh Hrep. pose proof Hok as [Hs Hw Hg Hn Hu]. pose proof Hsh as [Hsuf Hids].
  assert (forall g u guilds, Z.of_nat (size guilds) <= maxGuilds ->
    (forall id x, guilds !! id = Some x -> gd_ID x = id /\ short_name (gd_Name x)) ->
    (forall x, u = Some x -> safe_name (us_Username x) /\ safe_name (us_DisplayName x)) ->
    exists s', Some (dropMessagesLocked (mkState g u guilds (st_channels s) (st_recency s) (st_bytes s))) = Some s' /\
      state_ok limits s' /\ shows_end s' ∅) as Hclear.
  { intros g u guilds ???. eexists. split; [done|]. split; [by apply state_ok_cleared|].
    split; intros ch; unfold said; rewrite lookup_empty; [done|constructor]. }
  assert (exists s', Some s = Some s' /\ state_ok limits s' /\ shows_end s' ref) as Hsame by (exists s; done).
  assert (forall s', state_ok limits s' -> (forall ch, Messages ch s' = Messages ch s) ->
    exists s'', Some s' = Some s'' /\ state_ok limits s'' /\ shows_end s'' ref) as Hquiet.
  { intros s' Hok' Hm. exists s'. split_and!; [done|done|split; [intros ch; by rewrite Hm|done]]. }
  destruct c as [generation| |eventType data]; simpl; [by apply Hclear; rewrite ?map_size_empty..|].
  simpl in Hrep. unfold Dispatch, ref_dispatch.
  destruct (String.eqb_spec eventType "READY") as [->|]; simpl.
  { destruct (as_ready data) as [[u guilds]|]; [|done]. apply Hquiet; apply (ready_ok u guilds s Hok). }
  destruct (String.eqb_spec eventType "GUILD_CREATE") as [->|]; simpl.
  { destruct (as_guild data) as [g|]; [|done]. apply Hquiet; apply (putGuild_ok g s Hok). }
  destruct (String.eqb_spec eventType "GUILD_UPDATE") as [->|]; simpl.
  { destruct (as_guild data) as [g|]; [|done]. apply Hquiet; apply (putGuild_ok g s Hok). }
  destruct (String.eqb_spec eventType "GUILD_DELETE") as [->|]; simpl.
  { destruct (as_gone data) as [gid|]; [|done]. apply Hclear; [|intros i x [_ ?]%lookup_delete_Some; by apply Hn|done].
    rewrite map_size_delete. destruct (st_guilds s !! gid); simpl; lia. }
  destruct (String.eqb_spec eventType "CHANNEL_DELETE") as [->|]; simpl.
  { destruct (as_gone data) as [id|]; [|done].
    destruct (dropChannelLocked_spec limits id s Hs Hw) as (D1 & D2 & D3 & D4). eexists. split; [done|].
    split; [by eapply state_ok_rest|]. split; intros ch; unfold said; rewrite ?D4.
    - case_decide; [subst; apply suffix_nil|]. rewrite lookup_delete_ne by done. apply Hsuf.
    - destruct (decide (ch = id)) as [->|]; [rewrite lookup_delete_eq; constructor|]. rewrite lookup_delete_ne by done. apply Hids. }
  destruct (String.eqb_spec eventType "GUILD_PERMISSIONS_UPDATE") as [->|]; simpl.
  { by apply (Hclear (st_generation s) (st_user s) (st_guilds s)). }
  destruct (String.eqb_spec eventType "MESSAGE_CREATE") as [->|]; simpl.
  { destruct (as_message data) as [m|]; [|done]. simpl in Hrep. set (ch := msg_ChannelId m) in *.
    destruct (addLocked_spec limits Hper Hbudget (mkEntry m (charged data)) s Hs Hw) as (s' & E & A1 & A2 & A3 & A4).
    { unfold charged, entryOverhead. simpl. lia. }
    exists s'. split; [done|]. split; [by eapply state_ok_rest|]. cbn [en_message] in A4. fold ch in A4.
    assert (msg_Id <$> Messages ch s = ids (match st_channels s !! ch with Some b => bf_entries b | None => [] end)) as Hin.
    { unfold Messages, ids. destruct (st_channels s !! ch); [by rewrite <- list_fmap_compose|done]. }
    destruct (has_message _ _) eqn:Hhas.
    - subst s'. apply has_message_ids in Hhas. rewrite <- Hin in Hhas. rewrite decide_True; [done|].
      destruct (Hsuf ch) as [k Hk]. rewrite Hk, fmap_app. set_solver.
    - assert (msg_Id m ∉ msg_Id <$> said ref ch) as Hnew.
      { intros Hin'. apply Hrep in Hin'. rewrite Hin in Hin'. apply has_message_ids in Hin'. congruence. }
      rewrite decide_False by done. destruct A4 as [A4 _]. split; intros c; rewrite said_insert.
      + etrans; [apply A4|]. destruct (decide (c = ch)) as [->|]; [|rewrite app_nil_r; apply Hsuf].
        destruct (Hsuf ch) as [k Hk]. rewrite Hk. exists k. by rewrite app_assoc.
      + case_decide; [|apply Hids]. rewrite fmap_app. apply NoDup_app. split_and!; [apply Hids| |apply NoDup_singleton].
        intros i Hi Hi'. simpl in Hi'. apply list_elem_of_singleton in Hi'. congruence. }
  destruct (String.eqb_spec eventType "MESSAGE_UPDATE") as [->|]; simpl.
  { destruct (as_message data) as [m|]; [|done]. set (ch := msg_ChannelId m) in *.
    destruct (replaceLocked_spec limits Hper Hbudget (mkEntry m (charged data)) s Hs Hw) as (s' & E & A1 & A2 & A3 & A4).
    { unfold charged, entryOverhead. simpl. lia. }
    exists s'. split; [done|]. split; [by eapply state_ok_rest|]. cbn [en_message] in A4. fold ch in A4.
    split; intros c; rewrite said_insert.
    - etrans; [apply A4|]. case_decide as Ec; [|apply Hsuf]. subst c. by apply suffix_fmap'.
    - case_decide; [|apply Hids]. rewrite replaced_ids. apply Hids. }
  destruct (String.eqb_spec eventType "MESSAGE_DELETE") as [->|]; simpl; [|done].
  destruct (as_deleted data) as [[id ch]|]; [|done].
  destruct (removeLocked_spec limits Hper Hbudget ch id s Hs Hw) as (D1 & D2 & D3 & D4). eexists. split; [done|].
  split; [by eapply state_ok_rest|]. split; intros c; rewrite ?said_insert, ?D4.
  - case_decide; [subst; by apply suffix_filter|apply Hsuf].
  - case_decide; [|apply Hids].
    eapply sublist_NoDup; [apply (Hids ch)|]. apply fmap_sublist, sublist_filter.
Qed.
End reference.

(** ** Every run *)

Section runs.
Context {U : Unmarshal}.

(** Along a run, a message created again is one the state still holds: what a RESUME replays is recent. *)
Fixpoint repeats_recent (limits : StateLimits) (cs : list StateCall) (s : State) (ref : gmap string (list Message)) : Prop :=
  match cs with
  | [] => True
  | c :: cs => repeats_held c s ref /\
      match state_call limits c s with Some s' => repeats_recent limits cs s' (ref_call c ref) | None => True end
  end.

#[export] Instance repeats_held_dec c s ref : Decision (repeats_held c s ref).
Proof. destruct c as [| |t d]; simpl; [apply _..|]. destruct (t =? "MESSAGE_CREATE")%string; [|apply _]. destruct (as_message d); apply _. Defined.

#[export] Instance repeats_recent_dec limits cs s ref : Decision (repeats_recent limits cs s ref).
Proof.
  revert s ref. induction cs as [|c cs IH]; intros s ref; simpl; [apply _|].
  apply and_dec; [apply _|]. destruct (state_call limits c s); apply _.
Defined.

Lemma New_limits_positive l : 0 < MessagesPerChannel (New_limits l) /\ 0 < TotalBytes (New_limits l).
Proof.
  unfold New_limits. simpl. destruct (Z.leb_spec (MessagesPerChannel l) 0), (Z.leb_spec (TotalBytes l) 0); simpl; lia.
Qed.

Lemma newState_ok limits : 0 < TotalBytes limits -> state_ok limits newState.
Proof.
  intros H. apply (state_ok_cleared limits H newState 0 None ∅); [by rewrite map_size_empty|by intros id x Hx; rewrite lookup_empty in Hx|done].
Qed.

Lemma state_run_snoc limits cs c s : state_run limits (cs ++ [c]) s = state_run limits cs s ≫= state_call limits c.
Proof. unfold state_run. by rewrite foldl_app. Qed.

Lemma state_run_spec limits cs s ref :
  0 < MessagesPerChannel limits -> 0 < TotalBytes limits -> state_ok limits s -> shows_end s ref ->
  repeats_recent limits cs s ref ->
  exists s', state_run limits cs s = Some s' /\ state_ok limits s' /\ shows_end s' (ref_run cs ref).
Proof.
  intros H1 H2. revert s ref. induction cs as [|c cs IH]; intros s ref Hok Hsh Hrep; [by exists s|].
  destruct Hrep as [Hc Hrep]. destruct (state_call_spec limits H1 H2 c s ref Hok Hsh Hc) as (s1 & E & Hok1 & Hsh1).
  rewrite E in Hrep. destruct (IH s1 (ref_call c ref) Hok1 Hsh1 Hrep) as (s' & E' & ?).
  exists s'. split; [|done]. unfold state_run in *. simpl. by rewrite E.
Qed.

(** A call keeps the state well formed and never panics, whatever it repeats. *)
Lemma state_call_ok limits c s :
  0 < MessagesPerChannel limits -> 0 < TotalBytes limits -> state_ok limits s ->
  exists s', state_call limits c s = Some s' /\ state_ok limits s'.
Proof.
  intros H1 H2 Hok. pose proof Hok as [Hs Hw _ _ _].
  set (ref := (fun b => en_message <$> bf_entries b) <$> st_channels s).
  assert (forall ch, said ref ch = Messages ch s) as Href.
  { intros ch. unfold said, ref, Messages. rewrite lookup_fmap. by destruct (st_channels s !! ch). }
  destruct (state_call_spec limits H1 H2 c s ref Hok) as (s' & E & Hok' & _); [| |by exists s'].
  - split; intros ch; rewrite Href; [done|]. unfold Messages. destruct (st_channels s !! ch) as [b|] eqn:Hb; [|constructor].
    rewrite <- list_fmap_compose. apply (bo_ids _ _ _ (so_buffer _ _ Hs _ _ Hb)).
  - destruct c as [| |t d]; try done. simpl. destruct (t =? "MESSAGE_CREATE")%string; [|done].
    destruct (as_message d) as [m|]; [|done]. by rewrite Href.
Qed.

Lemma state_run_ok limits cs s :
  0 < MessagesPerChannel limits -> 0 < TotalBytes limits -> state_ok limits s ->
  exists s', state_run limits cs s = Some s' /\ state_ok limits s'.
Proof.
  intros H1 H2 Hok. induction cs as [|c cs IH] using rev_ind; [by exists s|].
  destruct IH as (s1 & E & Hok1). rewrite state_run_snoc, E. simpl. by apply state_call_ok.
Qed.

(** C36: What the daemon shows of a channel has no hole, if a message that is created again, as a replay after a
    RESUME can do, is one still held. After any such calls, and whatever was evicted to keep the budget, the
    messages it holds of a channel are the end of what was said there since it last forgot everything: those
    created, in order, each as it was last edited, without those deleted. And a message just created is held, as the
    newest of its channel, however large. (A replay of one already evicted is taken for a new message:
    [replay_out_of_order].) *)
Theorem state_shows_the_end limits cs :
  repeats_recent (New_limits limits) cs newState ∅ ->
  exists s, state_run (New_limits limits) cs newState = Some s /\
    (forall ch, Messages ch s `suffix_of` said (ref_run cs ∅) ch) /\
    forall data m, as_message data = Some m -> msg_Id m ∉ msg_Id <$> Messages (msg_ChannelId m) s ->
      exists s', state_run (New_limits limits) (cs ++ [SCDispatch "MESSAGE_CREATE" data]) newState = Some s' /\
        last (Messages (msg_ChannelId m) s') = Some m.
Proof.
  intros Hrep. destruct (New_limits_positive limits) as [H1 H2].
  destruct (state_run_spec (New_limits limits) cs newState ∅ H1 H2) as (s & E & Hok & Hsh); [by apply newState_ok| |done|].
  { split; intros ch; unfold said; rewrite lookup_empty; [done|constructor]. }
  exists s. split; [done|]. split; [apply Hsh|]. intros data m Hm Hnew. pose proof Hok as [Hs Hw _ _ _].
  destruct (addLocked_spec (New_limits limits) H1 H2 (mkEntry m (charged data)) s Hs Hw) as (s' & E' & _ & _ & _ & Hadd).
  { unfold charged, entryOverhead. simpl. lia. }
  exists s'. rewrite state_run_snoc, E. simpl. unfold Dispatch. simpl. rewrite Hm. split; [done|].
  cbn [en_message] in Hadd.
  destruct (has_message _ _) eqn:Hhas.
  - exfalso. apply has_message_ids in Hhas. apply Hnew. unfold Messages, ids in *.
    destruct (st_channels s !! msg_ChannelId m); [by rewrite <- list_fmap_compose|done].
  - destruct Hadd as [Hsuf Hne]. specialize (Hsuf (msg_ChannelId m)). rewrite decide_True in Hsuf by done.
    destruct Hsuf as [k Hk]. destruct (Messages (msg_ChannelId m) s') as [|x l _] using rev_ind; [done|].
    rewrite app_assoc in Hk. apply app_inj_tail in Hk as [_ <-]. apply last_snoc.
Qed.

(** C37: The daemon's state is bounded whatever the instance sends, decodes into or repeats. No call panics, and
    after any of them: it keeps at most [maxGuilds] guilds, whose names are terminal-safe and at most
    [maxNameRunes] runes; a channel's buffer holds at most its limit of messages, each once; the count of bytes
    is the sum of what is held; and that is within the budget, the one message of the quietest channel aside. *)
Theorem state_bounded limits cs :
  exists s, state_run (New_limits limits) cs newState = Some s /\
    Z.of_nat (size (st_guilds s)) <= maxGuilds /\
    (forall id g, st_guilds s !! id = Some g -> short_name (gd_Name g)) /\
    (forall u, st_user s = Some u -> safe_name (us_Username u) /\ safe_name (us_DisplayName u)) /\
    (forall ch, Z.of_nat (length (Messages ch s)) <= MessagesPerChannel (New_limits limits) /\
       NoDup (msg_Id <$> Messages ch s)) /\
    st_bytes s = map_fold (fun _ b n => sizes (bf_entries b) + n) 0 (st_channels s) /\
    (st_bytes s <= TotalBytes (New_limits limits) \/
     exists id b, last (st_recency s) = Some id /\ st_channels s !! id = Some b /\ (length (bf_entries b) <= 1)%nat /\
       st_bytes s - sizes (bf_entries b) <= TotalBytes (New_limits limits)).
Proof.
  destruct (New_limits_positive limits) as [H1 H2].
  destruct (state_run_ok (New_limits limits) cs newState H1 H2) as (s & E & Hok); [by apply newState_ok|].
  pose proof Hok as [[S1 S2 S3 S4] Hw Hg Hn Hu]. exists s. split_and!; [done|done|by intros id g [_ ?]%Hn|done| | |].
  - intros ch. unfold Messages. destruct (st_channels s !! ch) as [b|] eqn:Hb.
    + destruct (S3 _ _ Hb) as [_ _ _ B4 B5]. rewrite length_fmap. split; [done|]. by rewrite <- list_fmap_compose.
    + split; [by apply Z.lt_le_incl, H1|constructor].
  - rewrite S4. unfold total. clear -S3. induction (st_channels s) as [|id b m Hno IH] using map_ind; [done|].
    rewrite !map_fold_insert_L by (done || (intros; lia)). rewrite IH.
    + f_equal. apply (bo_bytes (New_limits limits) id). apply S3, lookup_insert_eq.
    + intros i c Hi. apply S3. rewrite lookup_insert_ne; [done|congruence].
  - destruct Hw as [?|(id & b & ? & Hb & ? & ?)]; [by left|right]. exists id, b.
    by rewrite <- (bo_bytes _ _ _ (S3 _ _ Hb)).
Qed.
End runs.

(** ** Concrete runs *)

(** A wire form short enough to read: the channel, the id and the text are each one character. *)
Definition plain_message (data : string) : option Message :=
  match data with
  | String c (String i rest) => Some (mkMessage (String i "") (String c "") rest)
  | _ => None
  end.
Definition plain : Unmarshal :=
  mkUnmarshal (fun _ => None) (fun _ => None) (fun d => Some d) plain_message
    (fun d => match d with String c (String i _) => Some (String i "", String c "") | _ => None end).

Definition tight : StateLimits := mkStateLimits 2 300.

Definition plain_calls : list StateCall :=
  [SCBegin 1; SCDispatch "MESSAGE_CREATE" "a1x"; SCDispatch "MESSAGE_CREATE" "a2y"; SCDispatch "MESSAGE_CREATE" "b1z";
   SCDispatch "MESSAGE_UPDATE" "a2yy"; SCDispatch "MESSAGE_CREATE" "a3w"; SCDispatch "MESSAGE_CREATE" "b2v"].

Lemma state_shows_the_end_witness :
  exists s, @state_run plain (New_limits tight) plain_calls newState = Some s /\
    Messages "a" s `suffix_of` said (@ref_run plain plain_calls ∅) "a" /\
    msg_Id <$> Messages "a" s = ["2"; "3"] /\ msg_Id <$> said (@ref_run plain plain_calls ∅) "a" = ["1"; "2"; "3"].
Proof.
  assert (@repeats_recent plain (New_limits tight) plain_calls newState ∅) as Hrep by (refine (bool_decide_eq_true_1 _ _); vm_compute; reflexivity).
  destruct (@state_shows_the_end plain tight plain_calls Hrep) as (s & E & H & _).
  exists s. split; [exact E|]. split; [apply H|].
  assert (msg_Id <$> Messages "a" (default newState (@state_run plain (New_limits tight) plain_calls newState)) = ["2"; "3"]) as E2
    by (vm_compute; reflexivity).
  rewrite E in E2. split; [exact E2|vm_compute; reflexivity].
Defined.

(** A replay of a message that was evicted is appended, after newer ones. *)
Example replay_out_of_order :
  let calls := [SCDispatch "MESSAGE_CREATE" "a1x"; SCDispatch "MESSAGE_CREATE" "a2y"; SCDispatch "MESSAGE_CREATE" "a3z";
                SCDispatch "MESSAGE_CREATE" "a1x"] in
  msg_Id <$> Messages "a" (default newState (@state_run plain (New_limits tight) calls newState)) = ["3"; "1"] /\
  msg_Id <$> said (@ref_run plain calls ∅) "a" = ["1"; "2"; "3"].
Proof. vm_compute. done. Qed.

(** An edit that passes the budget in the quietest channel evicts no other: that channel is cut to one message,
    and the state stays over its budget with the other channel whole. *)
Example edit_over_budget :
  let s := default newState (@state_run plain tight
             [SCDispatch "MESSAGE_CREATE" "a1x"; SCDispatch "MESSAGE_CREATE" "a2y"; SCDispatch "MESSAGE_CREATE" "b1z";
              SCDispatch "MESSAGE_CREATE" "b2v";
              SCDispatch "MESSAGE_UPDATE"
                ("a2" ++ string_of (repeat 120 (Z.to_nat 400)))] newState) in
  (TotalBytes tight <? st_bytes s) = true /\ length (Messages "a" s) = 1%nat /\ length (Messages "b" s) = 2%nat.
Proof. vm_compute. done. Qed.
