(* ===== verification/UpdateInstall.v ===== *)
(** Putting a release in place of the installed programs, and putting the previous ones back:
    daemon/internal/updater/install.go, on a file system whose every operation may fail, or be the last one before
    the machine is switched off. The programs are replaced one by one, so the record says where an installation
    had got to. What is modelled is the code for Unix (rename_other.go). *)
From S2P Require Import Prelude GoStd Utf8.

(** ** The file system *)

Inductive Dir := BinDir | PreviousDir | KeepingDir | StagedDir.
#[export] Instance Dir_eq_dec : EqDecision Dir.
Proof. solve_decision. Defined.
#[export] Instance Dir_countable : Countable Dir.
Proof.
  refine (inj_countable' (fun d => match d with BinDir => 0 | PreviousDir => 1 | KeepingDir => 2 | StagedDir => 3 end)%nat
            (fun n => match n with 0 => BinDir | 1 => PreviousDir | 2 => KeepingDir | _ => StagedDir end%nat) _).
  by intros [].
Defined.

(** A regular file, or anything else that can have a name: a link, a pipe, a directory. *)
Inductive Node := Regular (content : string) | Irregular.
Definition Path : Type := Dir * string.

(** An installation not yet confirmed. *)
Record Pending := mkPending { pd_From : string; pd_To : string; pd_Phase : string; pd_Starts : Z }.

(** What the updater remembers between runs. The time of the last check is a number, 0 being none. *)
Record URecord := mkURecord {
  ur_Pending : option Pending; ur_Bad : list string; ur_RolledBack : string; ur_LastCheck : Z;
  ur_Available : string; ur_LastError : string; ur_Mode : string; ur_Channel : string; ur_unreadable : bool
}.

(** A directory that is not there has no entry. The record is a file that json reads back as it was written, or
    one it does not read. *)
Inductive Stored := Readable (r : URecord) | Unreadable.
Record Disk := mkDisk { dk_dirs : gmap Dir (gmap string Node); dk_record : option Stored }.

Definition node (p : Path) (d : Disk) : option Node := m ← dk_dirs d !! p.1; m !! p.2.
Definition set_dir (dir : Dir) (m : gmap string Node) (d : Disk) : Disk :=
  mkDisk (<[dir := m]> (dk_dirs d)) (dk_record d).
Definition entries (dir : Dir) (d : Disk) : gmap string Node := default ∅ (dk_dirs d !! dir).
Definition put (p : Path) (n : Node) (d : Disk) : Disk := set_dir p.1 (<[p.2 := n]> (entries p.1 d)) d.
Definition drop_name (p : Path) (d : Disk) : Disk := set_dir p.1 (delete p.2 (entries p.1 d)) d.

(** ** Operations that may fail, and a machine that may be switched off *)

Inductive Failure := NotExist | NotRegular | Fault | RecordUnreadable.
Definition is_not_exist (e : Failure) : bool := match e with NotExist => true | _ => false end.

(** What a removal had removed, and what a copy had written, when it was interrupted. *)
Record Torn := mkTorn { tn_removed : list string; tn_written : option string }.
Inductive Happening := Goes | Fails (t : Torn) | Stops (t : Torn).

Inductive Res (A : Type) := Done (a : A) | Err (e : Failure) | Off.
Arguments Done {A} a.
Arguments Err {A} e.
Arguments Off {A}.

(** What happens to the next operations is a list; past its end they all go through. *)
Definition FS (A : Type) : Type := Disk * list Happening -> Res A * (Disk * list Happening).

#[export] Instance FS_ret : MRet FS := fun _ a s => (Done a, s).
#[export] Instance FS_bind : MBind FS := fun _ _ k m s =>
  match m s with
  | (Done a, s) => k a s
  | (Err e, s) => (Err e, s)
  | (Off, s) => (Off, s)
  end.
Definition fail {A} (e : Failure) : FS A := fun s => (Err e, s).
(** The error as a value; being switched off is not one. *)
Definition try {A} (m : FS A) : FS (Failure + A) := fun s =>
  match m s with
  | (Done a, s) => (Done (inr a), s)
  | (Err e, s) => (Done (inl e), s)
  | (Off, s) => (Off, s)
  end.
Definition ignore {A} (m : FS A) : FS () := _ ← try m; mret tt.

Definition atom {A} (run : Disk -> Res A * Disk) (torn : Torn -> Disk -> Disk) : FS A := fun '(d, evs) =>
  match evs with
  | [] => let '(r, d) := run d in (r, (d, []))
  | Goes :: evs => let '(r, d) := run d in (r, (d, evs))
  | Fails t :: evs => (Err Fault, (torn t d, evs))
  | Stops t :: evs => (Off, (torn t d, evs))
  end.

Definition untorn (_ : Torn) (d : Disk) : Disk := d.

Definition Lstat (p : Path) : FS Node :=
  atom (fun d => (match node p d with Some n => Done n | None => Err NotExist end, d)) untorn.

(** Open, create, copy, flush and close. An interrupted one may leave any part of any bytes behind. *)
Definition copy_bytes (src dst : Path) : FS () :=
  atom (fun d =>
      match node src d with
      | Some (Regular c) => if decide (is_Some (dk_dirs d !! dst.1)) then (Done tt, put dst (Regular c) d) else (Err NotExist, d)
      | Some Irregular => (Err NotRegular, d)
      | None => (Err NotExist, d)
      end)
    (fun t d =>
      match tn_written t with
      | Some c => if decide (is_Some (dk_dirs d !! dst.1)) then put dst (Regular c) d else d
      | None => d
      end).

Definition os_Remove (p : Path) : FS () :=
  atom (fun d => match node p d with Some _ => (Done tt, drop_name p d) | None => (Err NotExist, d) end) untorn.

(** One name to another, in one directory. *)
Definition os_Rename (dir : Dir) (old new : string) : FS () :=
  atom (fun d => match node (dir, old) d with
                 | Some n => (Done tt, put (dir, new) n (drop_name (dir, old) d))
                 | None => (Err NotExist, d)
                 end) untorn.

Definition remove_names (names : list string) (m : gmap string Node) : gmap string Node :=
  filter (fun x => x.1 ∉ names) m.
Definition RemoveAll (dir : Dir) : FS () :=
  atom (fun d => (Done tt, mkDisk (delete dir (dk_dirs d)) (dk_record d)))
    (fun t d => mkDisk (alter (remove_names (tn_removed t)) dir (dk_dirs d)) (dk_record d)).

Definition MkdirAll (dir : Dir) : FS () :=
  atom (fun d => (Done tt, if decide (is_Some (dk_dirs d !! dir)) then d else set_dir dir ∅ d)) untorn.

(** A directory to another name, which must be free or an empty directory's. *)
Definition rename_dir (old new : Dir) : FS () :=
  atom (fun d =>
      match dk_dirs d !! old with
      | Some m =>
          if decide (entries new d = ∅) then (Done tt, mkDisk (<[new := m]> (delete old (dk_dirs d))) (dk_record d))
          else (Err Fault, d)
      | None => (Err NotExist, d)
      end) untorn.

Definition read_record : FS (option Stored) := atom (fun d => (Done (dk_record d), d)) untorn.
(** [atomicfile.Write]: the old record or the new one. *)
Definition write_record (r : URecord) : FS () :=
  atom (fun d => (Done tt, mkDisk (dk_dirs d) (Some (Readable r)))) untorn.

Fixpoint for_each {A} (f : A -> FS ()) (l : list A) : FS () :=
  match l with
  | [] => mret tt
  | x :: l => _ ← f x; for_each f l
  end.

(** ** install.go *)

Definition phaseSwapping : string := "swapping".
Definition phaseApplied : string := "applied".
Definition unconfirmedStarts : Z := 2.
Definition maxBad : nat := 32.
Definition maxSaid : nat := 300.

Inductive Outcome := Nothing | Counted | Recovered | RolledBack.

Definition cliName : string := "norite".
Definition daemonName : string := "norite-daemon".
Definition workerName : string := "norite-voice".

Definition programs : list string := [cliName; workerName; daemonName].
Definition mayBeAbsent (name : string) : bool := (name =? workerName)%string.

Definition no_record (unreadable : bool) : URecord := mkURecord None [] "" 0 "" "" "" "" unreadable.
Definition with_pending (p : option Pending) (r : URecord) : URecord :=
  mkURecord p (ur_Bad r) (ur_RolledBack r) (ur_LastCheck r) (ur_Available r) (ur_LastError r) (ur_Mode r)
    (ur_Channel r) (ur_unreadable r).
Definition with_bad (bad : list string) (rolledBack : string) (r : URecord) : URecord :=
  mkURecord (ur_Pending r) bad rolledBack (ur_LastCheck r) (ur_Available r) (ur_LastError r) (ur_Mode r)
    (ur_Channel r) (ur_unreadable r).
Definition no_news (r : URecord) : URecord :=
  mkURecord (ur_Pending r) (ur_Bad r) "" (ur_LastCheck r) "" "" (ur_Mode r) (ur_Channel r) (ur_unreadable r).

(** A phase that is neither of the two is no installation. *)
Definition known_phase (r : URecord) : URecord :=
  match ur_Pending r with
  | Some p => if (pd_Phase p =? phaseSwapping)%string || (pd_Phase p =? phaseApplied)%string then r else with_pending None r
  | None => r
  end.

Definition load : FS URecord :=
  stored ← try read_record;
  mret match stored with
       | inl _ | inr (Some Unreadable) => no_record true
       | inr None => no_record false
       | inr (Some (Readable r)) => known_phase r
       end.

(** [cut], which [save] applies to the last error: at most [limit] bytes, on a character's boundary. *)
Definition RuneStart (b : Z) : bool := negb ((128 <=? b) && (b <? 192)).
Fixpoint cut_end (bytes : list Z) (n : nat) : nat :=
  match n with
  | O => O
  | S k => if RuneStart (default 0 (bytes !! n)) then n else cut_end bytes k
  end.
Definition cut_text (s : string) (limit : nat) : string :=
  if (String.length s <=? limit)%nat then s
  else (string_of (take (cut_end (bytes_of s) limit) (bytes_of s)) ++ string_of [226; 128; 166])%string.

Definition as_saved (r : URecord) : URecord :=
  mkURecord (ur_Pending r) (drop (length (ur_Bad r) - maxBad) (ur_Bad r)) (ur_RolledBack r) (ur_LastCheck r)
    (ur_Available r) (cut_text (ur_LastError r) (2 * maxSaid)) (ur_Mode r) (ur_Channel r) false.

Definition save (r : URecord) : FS () := write_record (as_saved r).

(** [Update], without its error for a record that cannot be read. *)
Definition Update (change : URecord -> URecord) : FS () :=
  r ← load;
  if ur_unreadable r then fail RecordUnreadable else save (change r).

Definition copyFile (src dst : Path) : FS () :=
  n ← Lstat src;
  match n with
  | Regular _ => copy_bytes src dst
  | Irregular => fail NotRegular
  end.

(** The name a new program is written under before it is renamed over the old one. *)
Definition fresh (name : string) : string := (name ++ ".new")%string.

Definition replaceProgram (name : string) (src : Path) : FS () :=
  copied ← try (copyFile src (BinDir, fresh name));
  match copied with
  | inl err => _ ← ignore (os_Remove (BinDir, fresh name)); fail err
  | inr _ =>
      renamed ← try (os_Rename BinDir (fresh name) name);
      match renamed with
      | inl err => _ ← ignore (os_Remove (BinDir, fresh name)); fail err
      | inr _ => mret tt
      end
  end.

Definition removeProgram (name : string) : FS () := os_Remove (BinDir, name).

Definition restore_one (name : string) : FS () :=
  kept ← try (Lstat (PreviousDir, name));
  if match kept with inl err => is_not_exist err | inr _ => false end && mayBeAbsent name then
    removed ← try (removeProgram name);
    match removed with
    | inl err => if is_not_exist err then mret tt else fail err
    | inr _ => mret tt
    end
  else replaceProgram name (PreviousDir, name).
Definition restore : FS () := for_each restore_one programs.

(** A release staged: the version, and the names of its programs in the staging directory. *)
Record Staged := mkStaged { sd_Version : string; sd_CLI : string; sd_Worker : string; sd_Daemon : string }.
Definition source (staged : Staged) (name : string) : Path :=
  (StagedDir, if (name =? cliName)%string then sd_CLI staged
              else if (name =? workerName)%string then sd_Worker staged else sd_Daemon staged).

Definition keep_one (name : string) : FS () :=
  copied ← try (copyFile (BinDir, name) (KeepingDir, name));
  match copied with
  | inr _ => mret tt
  | inl err =>
      if is_not_exist err && mayBeAbsent name then mret tt
      else _ ← ignore (RemoveAll KeepingDir); fail err
  end.

Definition swap_one (staged : Staged) (r : URecord) (name : string) : FS () :=
  replaced ← try (replaceProgram name (source staged name));
  match replaced with
  | inr _ => mret tt
  | inl err =>
      restored ← try restore;
      _ ← match restored with inr _ => ignore (save (with_pending None r)) | inl _ => mret tt end;
      fail err
  end.

(** The current programs kept aside; then they take the place of those kept before. *)
Definition keep_current : FS () :=
  _ ← RemoveAll KeepingDir;
  _ ← MkdirAll KeepingDir;
  _ ← for_each keep_one programs;
  removed ← try (RemoveAll PreviousDir);
  match removed with
  | inl err => _ ← ignore (RemoveAll KeepingDir); fail err
  | inr _ => rename_dir KeepingDir PreviousDir
  end.

Definition Install (staged : Staged) (from : string) : FS () :=
  r ← load;
  if ur_unreadable r then fail RecordUnreadable
  else
    _ ← keep_current;
    let p := mkPending from (sd_Version staged) phaseSwapping 0 in
    let r := with_pending (Some p) r in
    recorded ← try (save r);
    match recorded with
    | inl err => _ ← ignore (RemoveAll PreviousDir); fail err
    | inr _ =>
        _ ← for_each (swap_one staged r) programs;
        let r := no_news (with_pending (Some (mkPending from (sd_Version staged) phaseApplied 0)) r) in
        _ ← save r;
        ignore (RemoveAll StagedDir)
    end.

(** An outcome with the error that came with it. *)
Definition saving (o : Outcome) (r : URecord) : FS (Outcome * option Failure) :=
  saved ← try (save r);
  mret (o, match saved with inl err => Some err | inr _ => None end).

Definition AtStart (running : string) (crashed : bool) : FS (Outcome * option Failure) :=
  r ← load;
  match ur_Pending r with
  | None => mret (Nothing, None)
  | Some p =>
      if (pd_Phase p =? phaseSwapping)%string then
        if (running =? pd_To p)%string then
          saving Counted (with_pending (Some (mkPending (pd_From p) (pd_To p) phaseApplied 1)) r)
        else if negb (running =? pd_From p)%string then
          _ ← ignore (RemoveAll PreviousDir);
          saving Nothing (with_pending None r)
        else
          restored ← try restore;
          match restored with
          | inl err => mret (Nothing, Some err)
          | inr _ =>
              _ ← ignore (RemoveAll PreviousDir);
              saving Recovered (with_pending None r)
          end
      else if negb (running =? pd_To p)%string then
        let r := if (running =? pd_From p)%string then with_bad (ur_Bad r ++ [pd_To p]) (pd_To p) r else r in
        _ ← ignore (RemoveAll PreviousDir);
        saving Nothing (with_pending None r)
      else if (crashed && (1 <=? pd_Starts p)) || (unconfirmedStarts <=? pd_Starts p) then
        restored ← try restore;
        match restored with
        | inl err => mret (Counted, Some err)
        | inr _ =>
            saved ← try (save (with_pending None (with_bad (ur_Bad r ++ [pd_To p]) (pd_To p) r)));
            match saved with
            | inl err => mret (RolledBack, Some err)
            | inr _ => _ ← ignore (RemoveAll PreviousDir); mret (RolledBack, None)
            end
        end
      else saving Counted (with_pending (Some (mkPending (pd_From p) (pd_To p) (pd_Phase p) (pd_Starts p + 1))) r)
  end.

(** On Unix nothing was set aside, and nothing is swept. *)
Definition Confirm : FS () :=
  r ← load;
  match ur_Pending r with
  | Some p =>
      if ur_unreadable r || negb (pd_Phase p =? phaseApplied)%string then mret tt
      else _ ← ignore (RemoveAll PreviousDir); save (with_pending None r)
  | None => mret tt
  end.

Definition CleanExit : FS () :=
  r ← load;
  match ur_Pending r with
  | Some p =>
      if negb (ur_unreadable r) && (pd_Phase p =? phaseApplied)%string && (0 <? pd_Starts p)
      then ignore (save (with_pending (Some (mkPending (pd_From p) (pd_To p) (pd_Phase p) (pd_Starts p - 1))) r))
      else mret tt
  | None => mret tt
  end.

(** ** updater.go, around the run: installing is the daemon's own, so [installs] holds *)

(** [Updater.AtStart]: the daemon must restart at once. *)
Definition Updater_AtStart (running : string) (crashed : bool) : FS bool :=
  '(outcome, err) ← AtStart running crashed;
  mret match outcome with RolledBack => true | _ => false end.

(** [Updater.Finish]: what was staged and whether it is being applied, what a package manager installed, and what
    the two questions whether to stop are answered. [said] is an error's text. *)
Definition Finish (said : Failure -> string) (staged : option Staged) (applying : bool) (replaced current : string) (stopped again : bool) : FS bool :=
  if negb (replaced =? "")%string then mret (negb stopped)
  else
    match staged with
    | Some s =>
        if negb applying then _ ← CleanExit; mret false
        else if stopped then _ ← CleanExit; mret false
        else
          installed ← try (Install s current);
          match installed with
          | inl err =>
              _ ← ignore (Update (fun r => mkURecord (ur_Pending r) (ur_Bad r) (ur_RolledBack r) (ur_LastCheck r)
                                             (ur_Available r) (said err) (ur_Mode r) (ur_Channel r) (ur_unreadable r)));
              mret (negb again)
          | inr _ => mret (negb again)
          end
    | None => _ ← CleanExit; mret false
    end.
