(* ===== verification/UpdateSafe.v ===== *)
(** What an update leaves on disk, whatever fails and whenever the machine is switched off: the rules for programs on
    the file system of UpdateInstall, what each of the installer's operations does, the daemon's runs as steps, and
    what holds after all of them. *)
From S2P Require Import Prelude GoStd Utf8 UpdateInstall.

(** ** Weakest preconditions

    [ok] says which events may come. The three postconditions are for an answer, for an error, and for the disk a
    machine that was switched off wakes up with. *)
Section wp.
Context (ok : Happening -> Prop).

Definition wp {A} (m : FS A) (Q : A -> Disk -> Prop) (E : Failure -> Disk -> Prop) (C : Disk -> Prop) (d : Disk) : Prop :=
  forall evs, Forall ok evs ->
    match m (d, evs) with
    | (Done a, (d', evs')) => Q a d' /\ Forall ok evs'
    | (Err e, (d', evs')) => E e d' /\ Forall ok evs'
    | (Off, (d', _)) => C d'
    end.

(** Something may go wrong. *)
Definition disturbed : Prop := exists t, ok (Fails t) \/ ok (Stops t).

Lemma fs_ret {A} (a : A) Q E C d : Q a d -> wp (mret a) Q E C d.
Proof. by intros H evs Hok. Qed.

Lemma fs_fail {A} e (Q : A -> Disk -> Prop) (E : Failure -> Disk -> Prop) C d : E e d -> wp (fail e) Q E C d.
Proof. by intros H evs Hok. Qed.

Lemma fs_bind {A B} (m : FS A) (k : A -> FS B) Q E C d :
  wp m (fun a => wp (k a) Q E C) E C d -> wp (m ≫= k) Q E C d.
Proof.
  intros H evs Hok. specialize (H evs Hok). unfold mbind, FS_bind.
  destruct (m (d, evs)) as [[a|e|] [d' evs']]; [|done..]. destruct H as [H Hok']. by apply H.
Qed.

Lemma fs_mono {A} (m : FS A) (Q Q' : A -> Disk -> Prop) (E E' : Failure -> Disk -> Prop) (C C' : Disk -> Prop) d :
  wp m Q E C d -> (forall a d, Q a d -> Q' a d) -> (forall e d, E e d -> E' e d) -> (forall d, C d -> C' d) ->
  wp m Q' E' C' d.
Proof.
  intros H HQ HE HC evs Hok. specialize (H evs Hok). destruct (m (d, evs)) as [[a|e|] [d' evs']]; naive_solver.
Qed.

Lemma fs_try {A} (m : FS A) (Q : Failure + A -> Disk -> Prop) E C d :
  wp m (fun a => Q (inr a)) (fun e => Q (inl e)) C d -> wp (try m) Q E C d.
Proof.
  intros H evs Hok. specialize (H evs Hok). unfold try. destruct (m (d, evs)) as [[a|e|] [d' evs']]; done.
Qed.

Lemma fs_ignore {A} (m : FS A) (Q : () -> Disk -> Prop) E C d :
  wp m (fun _ => Q tt) (fun _ => Q tt) C d -> wp (ignore m) Q E C d.
Proof. intros H. apply fs_bind, fs_try. by eapply fs_mono. Qed.

Lemma fs_atom {A} (run : Disk -> Res A * Disk) torn (Q : A -> Disk -> Prop) (E : Failure -> Disk -> Prop) C d :
  match run d with (Done a, d') => Q a d' | (Err e, d') => E e d' | (Off, d') => C d' end ->
  (forall t, ok (Fails t) -> E Fault (torn t d)) -> (forall t, ok (Stops t) -> C (torn t d)) ->
  wp (atom run torn) Q E C d.
Proof.
  intros H HF HS evs Hok. destruct evs as [|e evs]; simpl.
  - destruct (run d) as [[a|e|] d']; done.
  - apply Forall_cons in Hok as [He Hok]. destruct e; simpl; auto. destruct (run d) as [[a|e|] d']; done.
Qed.

Lemma fs_for_each {A} (f : A -> FS ()) (I : nat -> Disk -> Prop) (Q : () -> Disk -> Prop) E C l d :
  I 0%nat d -> (forall d, I (length l) d -> Q tt d) ->
  (forall i x d, l !! i = Some x -> I i d -> wp (f x) (fun _ => I (S i)) E C d) ->
  wp (for_each f l) Q E C d.
Proof.
  revert I d. induction l as [|x l IH]; intros I d HI HQ Hf; [apply fs_ret; by apply HQ|].
  apply fs_bind. eapply fs_mono; [by apply (Hf 0%nat x)| |done..].
  intros [] d' Hd'. apply (IH (fun i => I (S i))); [done|done|]. intros i y e Hy. by apply (Hf (S i)).
Qed.
End wp.

Lemma undisturbed : ~ disturbed (fun e => e = Goes).
Proof. by intros (t & [?|?]). Qed.

(** ** What an operation leaves alone *)

Definition bin (d : Disk) (name : string) : option Node := node (BinDir, name) d.
Definition bins_eq (d d' : Disk) : Prop := forall name, name ∈ programs -> bin d' name = bin d name.

(** Only names of the directory of the programs changed. *)
Record framed (d d' : Disk) : Prop := mkFramed {
  fr_record : dk_record d' = dk_record d;
  fr_dirs : forall dir, dir <> BinDir -> dk_dirs d' !! dir = dk_dirs d !! dir;
  fr_bin : is_Some (dk_dirs d' !! BinDir)
}.

Lemma framed_refl d : is_Some (dk_dirs d !! BinDir) -> framed d d.
Proof. by split. Qed.

Lemma framed_trans d1 d2 d3 : framed d1 d2 -> framed d2 d3 -> framed d1 d3.
Proof. intros [R1 D1 _] [R2 D2 ?]. split; [congruence| |done]. intros dir H. by rewrite D2, D1. Qed.

Lemma framed_node d d' p : framed d d' -> p.1 <> BinDir -> node p d' = node p d.
Proof. intros [_ H _] Hp. unfold node. by rewrite H. Qed.

Lemma node_put p q n d : node q (put p n d) = if decide (q = p) then Some n else node q d.
Proof.
  destruct p as [dir name], q as [dir' name']. unfold node, put, set_dir, entries. cbn [fst snd dk_dirs].
  destruct (decide (dir' = dir)) as [->|Hd].
  - rewrite lookup_insert_eq. simpl. destruct (decide (name' = name)) as [->|Hn].
    + rewrite lookup_insert_eq. by rewrite decide_True.
    + rewrite lookup_insert_ne by done. rewrite decide_False by congruence. by destruct (dk_dirs d !! dir).
  - rewrite lookup_insert_ne by done. rewrite decide_False by congruence. done.
Qed.

Lemma node_drop p q d : node q (drop_name p d) = if decide (q = p) then None else node q d.
Proof.
  destruct p as [dir name], q as [dir' name']. unfold node, drop_name, set_dir, entries. cbn [fst snd dk_dirs].
  destruct (decide (dir' = dir)) as [->|Hd].
  - rewrite lookup_insert_eq. simpl. destruct (decide (name' = name)) as [->|Hn].
    + rewrite lookup_delete_eq. by rewrite decide_True.
    + rewrite lookup_delete_ne by done. rewrite decide_False by congruence. by destruct (dk_dirs d !! dir).
  - rewrite lookup_insert_ne by done. rewrite decide_False by congruence. done.
Qed.

Lemma framed_put name n d : is_Some (dk_dirs d !! BinDir) -> framed d (put (BinDir, name) n d).
Proof.
  intros H. split; [done| |]; unfold put, set_dir; simpl.
  - intros dir Hd. by rewrite lookup_insert_ne.
  - by rewrite lookup_insert_eq.
Qed.

Lemma framed_drop name d : is_Some (dk_dirs d !! BinDir) -> framed d (drop_name (BinDir, name) d).
Proof.
  intros H. split; [done| |]; unfold drop_name, set_dir; simpl.
  - intros dir Hd. by rewrite lookup_insert_ne.
  - by rewrite lookup_insert_eq.
Qed.

Lemma fresh_other name name' : name ∈ programs -> name' ∈ programs -> fresh name <> name'.
Proof.
  unfold programs. intros H H'.
  repeat (apply elem_of_cons in H as [->|H]); repeat (apply elem_of_cons in H' as [->|H']);
    try (by apply not_elem_of_nil in H); try (by apply not_elem_of_nil in H'); done.
Qed.

(** The programs stay as they are while the new one is written under its fresh name. *)
Definition aside (d d' : Disk) : Prop := framed d d' /\ bins_eq d d'.

Lemma aside_refl d : is_Some (dk_dirs d !! BinDir) -> aside d d.
Proof. intros. split; [by apply framed_refl|done]. Qed.
Lemma aside_trans d1 d2 d3 : aside d1 d2 -> aside d2 d3 -> aside d1 d3.
Proof. intros [F1 B1] [F2 B2]. split; [by eapply framed_trans|]. intros name H. by rewrite B2, B1. Qed.

Lemma aside_put name n d : name ∈ programs -> is_Some (dk_dirs d !! BinDir) -> aside d (put (BinDir, fresh name) n d).
Proof.
  intros Hn Hb. split; [by apply framed_put|]. intros name' Hn'. unfold bin. rewrite node_put, decide_False; [done|].
  intros [= E]. by apply (fresh_other name name').
Qed.
Lemma aside_drop name d : name ∈ programs -> is_Some (dk_dirs d !! BinDir) -> aside d (drop_name (BinDir, fresh name) d).
Proof.
  intros Hn Hb. split; [by apply framed_drop|]. intros name' Hn'. unfold bin. rewrite node_drop, decide_False; [done|].
  intros [= E]. by apply (fresh_other name name').
Qed.

(** One program is another node now, and nothing else changed. *)
Definition set_to (name : string) (n : option Node) (d d' : Disk) : Prop :=
  framed d d' /\ bin d' name = n /\ forall name', name' ∈ programs -> name' <> name -> bin d' name' = bin d name'.

(** ** The programs, replaced one after another *)

Definition partway (new : string -> option Node) (i : nat) (d0 d : Disk) : Prop :=
  framed d0 d /\ forall j name, programs !! j = Some name -> bin d name = if (j <? i)%nat then new name else bin d0 name.

Lemma programs_elem name : name ∈ programs <-> exists j, programs !! j = Some name.
Proof. apply list_elem_of_lookup. Qed.

Lemma programs_index i j name : programs !! i = Some name -> programs !! j = Some name -> i = j.
Proof. apply NoDup_lookup. by apply (bool_decide_eq_true_1 (NoDup programs)). Qed.

Lemma partway_0 new d : is_Some (dk_dirs d !! BinDir) -> partway new 0 d d.
Proof. intros H. split; [by apply framed_refl|done]. Qed.

Lemma partway_step new i name d0 d d' :
  partway new i d0 d -> programs !! i = Some name -> set_to name (new name) d d' -> partway new (S i) d0 d'.
Proof.
  intros [F B] Hi (F' & Hn & Ho). split; [by eapply framed_trans|]. intros j name' Hj.
  destruct (decide (j = i)) as [->|Hne].
  - simplify_eq. by rewrite (proj2 (Nat.ltb_lt i (S i)) ltac:(lia)).
  - rewrite Ho; [|apply programs_elem; by exists j|].
    + rewrite (B j name' Hj). destruct (Nat.ltb_spec j i), (Nat.ltb_spec j (S i)); (done || lia).
    + intros ->. apply Hne. by eapply programs_index.
Qed.

Lemma partway_aside new i d0 d d' : partway new i d0 d -> aside d d' -> partway new i d0 d'.
Proof.
  intros [F B] [F' B']. split; [by eapply framed_trans|]. intros j name Hj. rewrite B'; [by apply B|].
  apply programs_elem. by exists j.
Qed.

Lemma partway_done new d0 d name : partway new (length programs) d0 d -> name ∈ programs -> bin d name = new name.
Proof.
  intros [_ B] [j Hj]%programs_elem. rewrite (B j name Hj).
  by rewrite (proj2 (Nat.ltb_lt _ _) (lookup_lt_Some _ _ _ Hj)).
Qed.

(** Each program is the old one or the new one, and the daemon, which is last, the old one until the end. *)
Lemma partway_mixed new i d0 d name :
  partway new i d0 d -> name ∈ programs -> bin d name = bin d0 name \/ bin d name = new name.
Proof. intros [_ B] [j Hj]%programs_elem. rewrite (B j name Hj). destruct (j <? i)%nat; auto. Qed.

Lemma partway_daemon new i d0 d : partway new i d0 d -> (i < length programs)%nat -> bin d daemonName = bin d0 daemonName.
Proof.
  intros [_ B] Hi. rewrite (B 2%nat daemonName eq_refl). destruct (Nat.ltb_spec 2 i); [|done]. unfold programs in Hi. simpl in Hi. lia.
Qed.

(** ** The record *)

(** What [load] reads when nothing happens to it. *)
Definition loaded (d : Disk) : URecord :=
  match dk_record d with
  | None => no_record false
  | Some Unreadable => no_record true
  | Some (Readable r) => known_phase r
  end.
Definition pending_of (d : Disk) : option Pending := ur_Pending (loaded d).
Definition recording (r : URecord) (d : Disk) : Disk := mkDisk (dk_dirs d) (Some (Readable r)).

(** ** What the operations do *)

Section specs.
Context (ok : Happening -> Prop).
#[local] Abbreviation wp := (wp ok).
#[local] Abbreviation disturbed := (disturbed ok).

Lemma disturbed_fails t : ok (Fails t) -> disturbed.
Proof. intros H. exists t. by left. Qed.
Lemma disturbed_stops t : ok (Stops t) -> disturbed.
Proof. intros H. exists t. by right. Qed.
#[local] Hint Resolve disturbed_fails disturbed_stops : core.

Lemma Lstat_spec p d :
  wp (Lstat p) (fun n d' => d' = d /\ node p d = Some n)
    (fun e d' => d' = d /\ (is_not_exist e = false /\ disturbed \/ is_not_exist e = true /\ node p d = None))
    (fun d' => d' = d /\ disturbed) d.
Proof.
  apply fs_atom.
  - destruct (node p d); [done|]. split; [done|]. by right.
  - intros t Ht. split; [done|]. left. eauto.
  - eauto.
Qed.

Definition is_regular (n : option Node) : Prop := exists c, n = Some (Regular c).

Lemma copy_bytes_spec src dst c d :
  node src d = Some (Regular c) -> is_Some (dk_dirs d !! dst.1) ->
  wp (copy_bytes src dst) (fun _ d' => d' = put dst (Regular c) d)
    (fun e d' => (d' = d \/ exists torn, d' = put dst (Regular torn) d) /\ is_not_exist e = false /\ disturbed)
    (fun d' => (d' = d \/ exists torn, d' = put dst (Regular torn) d) /\ disturbed) d.
Proof.
  intros Hc Hdir. apply fs_atom.
  - rewrite Hc. by rewrite decide_True.
  - intros t Ht. split; [|eauto]. destruct (tn_written t) as [torn|]; [|by left]. right. exists torn. by rewrite decide_True.
  - intros t Ht. split; [|eauto]. destruct (tn_written t) as [torn|]; [|by left]. right. exists torn. by rewrite decide_True.
Qed.

Lemma copyFile_spec src name d :
  name ∈ programs -> is_Some (dk_dirs d !! BinDir) ->
  wp (copyFile src (BinDir, fresh name))
    (fun _ d' => aside d d' /\ exists c, node src d = Some (Regular c) /\ node (BinDir, fresh name) d' = Some (Regular c))
    (fun _ d' => aside d d' /\ (disturbed \/ ~ is_regular (node src d))) (fun d' => aside d d' /\ disturbed) d.
Proof.
  intros Hn Hb. apply fs_bind. eapply fs_mono; [apply Lstat_spec| | |].
  - intros n d' [-> Hnode]. destruct n as [c|].
    2: { apply fs_fail. split; [by apply aside_refl|]. right. intros (c & Hc). congruence. }
    eapply fs_mono; [by eapply copy_bytes_spec| | |].
    + intros [] d' ->. split; [by apply aside_put|]. exists c. split; [done|]. by rewrite node_put, decide_True.
    + intros e d' ([->|[torn ->]] & _ & ?); (split; [|by left]); [by apply aside_refl|by apply aside_put].
    + intros d' ([->|[torn ->]] & ?); (split; [|done]); [by apply aside_refl|by apply aside_put].
  - intros e d' (-> & H). split; [by apply aside_refl|]. destruct H as [[_ H]|[_ H]]; [by left|right]. rewrite H. by intros [? ?].
  - intros d' [-> ?]. split; [by apply aside_refl|done].
Qed.

(** Removing what was written under the fresh name, whatever comes of it. *)
Lemma discard_spec name d :
  name ∈ programs -> is_Some (dk_dirs d !! BinDir) ->
  wp (os_Remove (BinDir, fresh name)) (fun _ d' => aside d d') (fun _ d' => aside d d') (fun d' => aside d d' /\ disturbed) d.
Proof.
  intros Hn Hb. apply fs_atom.
  - destruct (node _ d); [by apply aside_drop|by apply aside_refl].
  - intros. by apply aside_refl.
  - intros. split; [by apply aside_refl|eauto].
Qed.

Lemma rename_spec name c d :
  name ∈ programs -> is_Some (dk_dirs d !! BinDir) -> node (BinDir, fresh name) d = Some (Regular c) ->
  wp (os_Rename BinDir (fresh name) name) (fun _ d' => set_to name (Some (Regular c)) d d')
    (fun _ d' => d' = d /\ disturbed) (fun d' => d' = d /\ disturbed) d.
Proof.
  intros Hn Hb Hf. apply fs_atom; [|eauto|eauto].
  rewrite Hf. assert (framed d (drop_name (BinDir, fresh name) d)) as Hd by by apply framed_drop. split_and!.
  - eapply framed_trans; [done|]. apply framed_put, Hd.
  - unfold bin. by rewrite node_put, decide_True.
  - intros name' Hn' Hne. unfold bin. rewrite node_put, decide_False by congruence.
    rewrite node_drop, decide_False; [done|]. intros [= E]. by apply (fresh_other name name').
Qed.

Lemma replaceProgram_spec name src d :
  name ∈ programs -> is_Some (dk_dirs d !! BinDir) ->
  wp (replaceProgram name src)
    (fun _ d' => exists c, node src d = Some (Regular c) /\ set_to name (Some (Regular c)) d d')
    (fun _ d' => aside d d' /\ (disturbed \/ ~ is_regular (node src d))) (fun d' => aside d d' /\ disturbed) d.
Proof.
  intros Hn Hb. apply fs_bind, fs_try. eapply fs_mono; [by apply copyFile_spec| |intros e d1 [A1 H]|done].
  - intros _ d1 (A1 & c & Hc & Hf). apply fs_bind, fs_try. pose proof (fr_bin _ _ (proj1 A1)) as Hb1.
    eapply fs_mono; [by apply rename_spec| | |by intros ? [-> ?]].
    + intros _ d2 (F & H1 & H2). apply fs_ret. exists c. split; [done|]. destruct A1 as [F1 B1].
      split; [by eapply framed_trans|]. split; [done|]. intros name' Hn' Hne. by rewrite H2, B1.
    + intros e d2 [-> Hd]. apply fs_bind, fs_ignore.
      eapply fs_mono; [by apply discard_spec|intros ? d3 A3|intros ? d3 A3|intros d3 [A3 ?]]; try (apply fs_fail);
        (split; [by eapply aside_trans|auto]).
  - pose proof (fr_bin _ _ (proj1 A1)) as Hb1. apply fs_bind, fs_ignore.
    eapply fs_mono; [by apply discard_spec|intros ? d3 A3|intros ? d3 A3|intros d3 [A3 ?]]; try (apply fs_fail);
      (split; [by eapply aside_trans|done]).
Qed.

(** What restoring puts back under a name, and whether there is something to put back. *)
Definition kept (d : Disk) (name : string) : option Node := node (PreviousDir, name) d.
Definition keepable (name : string) (n : option Node) : Prop := is_regular n \/ n = None /\ mayBeAbsent name = true.

Lemma restore_one_spec name d :
  name ∈ programs -> is_Some (dk_dirs d !! BinDir) ->
  wp (restore_one name) (fun _ d' => set_to name (kept d name) d d' /\ keepable name (kept d name))
    (fun _ d' => aside d d' /\ (disturbed \/ ~ keepable name (kept d name))) (fun d' => aside d d' /\ disturbed) d.
Proof.
  intros Hn Hb. apply fs_bind, fs_try.
  assert (wp (replaceProgram name (PreviousDir, name))
    (fun _ d' => set_to name (kept d name) d d' /\ keepable name (kept d name))
    (fun _ d' => aside d d' /\ (disturbed \/ ~ is_regular (kept d name))) (fun d' => aside d d' /\ disturbed) d) as Hrep.
  { eapply fs_mono; [by apply replaceProgram_spec| |done|done]. intros [] d' (c & Hc & H). unfold kept. rewrite Hc.
    split; [done|]. left. by exists c. }
  eapply fs_mono; [apply Lstat_spec| | |intros ? [-> ?]; split; [by apply aside_refl|done]].
  - intros n d1 [-> Hnode]. eapply fs_mono; [exact Hrep|done| |done].
    intros e d' [? [?|Hno]]; (split; [done|]); [by left|right]. intros [?|[Hk _]]; [done|]. unfold kept in Hk. congruence.
  - intros e d1 (-> & He). destruct (is_not_exist e && mayBeAbsent name) eqn:Hcase.
    + apply andb_true_iff in Hcase as [Hex Hab]. destruct He as [[? _]|[_ He]]; [congruence|]. unfold kept. rewrite He.
      assert (keepable name None) as Hk by by right.
      apply fs_bind, fs_try, fs_atom.
      * destruct (node (BinDir, name) d) eqn:Hnode; apply fs_ret; (split; [|done]).
        -- split; [by apply framed_drop|]. unfold bin. split; [by rewrite node_drop, decide_True|].
           intros name' _ Hne. rewrite node_drop, decide_False; [done|congruence].
        -- by split; [apply framed_refl|].
      * intros t Ht. apply fs_fail. split; [by apply aside_refl|eauto].
      * intros. split; [by apply aside_refl|eauto].
    + eapply fs_mono; [exact Hrep|done| |done]. intros e' d' [? Hno]. split; [done|].
      destruct Hno as [|Hno]; [by left|]. destruct He as [[_ ?]|[He _]]; [by left|right].
      intros [?|[_ Hab]]; [done|]. by rewrite He, Hab in Hcase.
Qed.

(** The restoring has put back the first [i] programs, each of which was there to put back. *)
Definition put_back (i : nat) (d0 d : Disk) : Prop :=
  partway (kept d0) i d0 d /\ forall j name, (j < i)%nat -> programs !! j = Some name -> keepable name (kept d0 name).

Lemma restore_spec d :
  is_Some (dk_dirs d !! BinDir) ->
  wp restore (fun _ d' => put_back (length programs) d d')
    (fun _ d' => exists i, (i < length programs)%nat /\ put_back i d d' /\
       (disturbed \/ exists name, name ∈ programs /\ ~ keepable name (kept d name)))
    (fun d' => (exists i, (i < length programs)%nat /\ put_back i d d') /\ disturbed) d.
Proof.
  intros Hb. apply (fs_for_each _ _ (fun i => put_back i d)); [split; [by apply partway_0|lia]|done|].
  intros i name d1 Hi [Hp Hkeep]. pose proof (lookup_lt_Some _ _ _ Hi) as Hlt. pose proof (fr_bin _ _ (proj1 Hp)) as Hb1.
  assert (name ∈ programs) as Hn by (apply programs_elem; by exists i).
  assert (kept d1 name = kept d name) as Hk by (apply framed_node; [apply Hp|done]).
  eapply fs_mono; [by apply restore_one_spec|intros [] d2 [H2 H3]|intros e d2 [A H2]|intros d2 [A ?]].
  - rewrite Hk in H2, H3. split; [by eapply partway_step|]. intros j name' Hj Hname.
    destruct (decide (j = i)) as [->|]; [by simplify_eq|]. apply (Hkeep j); [lia|done].
  - exists i. split; [done|]. split; [split; [by eapply partway_aside|done]|]. rewrite Hk in H2.
    destruct H2 as [|H2]; [by left|right]. by exists name.
  - split; [|done]. exists i. split; [done|]. split; [by eapply partway_aside|done].
Qed.

Lemma load_spec d :
  wp load (fun r d' => d' = d /\ (r = loaded d \/ disturbed /\ r = no_record true)) (fun _ _ => False)
    (fun d' => d' = d /\ disturbed) d.
Proof.
  apply fs_bind, fs_try, fs_atom.
  - apply fs_ret. split; [done|]. left. unfold loaded. by destruct (dk_record d) as [[|]|].
  - intros t Ht. apply fs_ret. eauto.
  - eauto.
Qed.

Lemma save_spec r d :
  wp (save r) (fun _ d' => d' = recording (as_saved r) d) (fun _ d' => d' = d /\ disturbed) (fun d' => d' = d /\ disturbed) d.
Proof. apply fs_atom; eauto. Qed.
End specs.

(** ** Releases, and what an installation may look like between two operations *)

(** The bytes of the three programs; an installation older than the voice worker has none. *)
Record Release := mkRelease { rl_CLI : string; rl_Worker : option string; rl_Daemon : string }.

Definition program (R : Release) (name : string) : option Node :=
  Regular <$> (if (name =? cliName)%string then Some (rl_CLI R)
               else if (name =? workerName)%string then rl_Worker R else Some (rl_Daemon R)).

Definition holds (R : Release) (d : Disk) : Prop := forall name, name ∈ programs -> bin d name = program R name.
Definition previous_is (R : Release) (d : Disk) : Prop := forall name, name ∈ programs -> kept d name = program R name.

(** Between two releases: the daemon is the first one's, the others either's. *)
Definition mixed (RF RT : Release) (d : Disk) : Prop :=
  bin d daemonName = program RF daemonName /\
  forall name, name ∈ programs -> bin d name = program RF name \/ bin d name = program RT name.

Lemma program_keepable R name : name ∈ programs -> keepable name (program R name).
Proof.
  intros H. unfold programs in H. repeat (apply elem_of_cons in H as [->|H]); [..|by apply not_elem_of_nil in H].
  - left. by eexists.
  - unfold program. simpl. destruct (rl_Worker R); [left; by eexists|by right].
  - left. by eexists.
Qed.

Section release.
(** The version a daemon says it is. *)
Context (version_of : string -> string).
Definition version (R : Release) : string := version_of (rl_Daemon R).

Definition nothing_kept (d : Disk) : Prop := dk_dirs d !! PreviousDir = None.
Definition prev_ok (known : list Release) (d : Disk) : Prop :=
  nothing_kept d \/ exists R, R ∈ known /\ previous_is R d.

(** Half-way through an installation, or through undoing it. *)
Definition swapping_ok (known : list Release) (p : Pending) (d : Disk) : Prop :=
  pd_From p <> pd_To p /\
  exists RF RT, RF ∈ known /\ RT ∈ known /\ version RF = pd_From p /\ version RT = pd_To p /\
    (mixed RF RT d /\ previous_is RF d \/ holds RT d \/ holds RF d /\ nothing_kept d).

Definition Inv (known : list Release) (d : Disk) : Prop :=
  is_Some (dk_dirs d !! BinDir) /\ prev_ok known d /\
  match pending_of d with
  | None => exists R, R ∈ known /\ holds R d
  | Some p =>
      if (pd_Phase p =? phaseSwapping)%string then swapping_ok known p d
      else exists R, R ∈ known /\ version R = pd_To p /\ holds R d
  end.

(** What the invariant looks at. *)
Record same (d d' : Disk) : Prop := mkSame {
  sa_record : dk_record d' = dk_record d;
  sa_bin : dk_dirs d' !! BinDir = dk_dirs d !! BinDir;
  sa_previous : dk_dirs d' !! PreviousDir = dk_dirs d !! PreviousDir
}.

Lemma same_refl d : same d d.
Proof. done. Qed.
Lemma same_trans d1 d2 d3 : same d1 d2 -> same d2 d3 -> same d1 d3.
Proof. intros [??? ] [???]. split; congruence. Qed.

Lemma holds_bin R d d' : dk_dirs d' !! BinDir = dk_dirs d !! BinDir -> holds R d -> holds R d'.
Proof. intros E H name Hn. unfold bin, node. simpl. rewrite E. by apply H. Qed.
Lemma mixed_bin RF RT d d' : dk_dirs d' !! BinDir = dk_dirs d !! BinDir -> mixed RF RT d -> mixed RF RT d'.
Proof. intros E H. unfold mixed, bin, node in *. simpl in *. by rewrite E. Qed.
Lemma previous_prev R d d' : dk_dirs d' !! PreviousDir = dk_dirs d !! PreviousDir -> previous_is R d -> previous_is R d'.
Proof. intros E H name Hn. unfold kept, node. simpl. rewrite E. by apply H. Qed.
Lemma prev_ok_prev known d d' : dk_dirs d' !! PreviousDir = dk_dirs d !! PreviousDir -> prev_ok known d -> prev_ok known d'.
Proof.
  intros E [H|(R & HR & H)]; [left; unfold nothing_kept in *; congruence|right]. exists R. split; [done|]. by eapply previous_prev.
Qed.

Lemma Inv_same known d d' : same d d' -> Inv known d -> Inv known d'.
Proof.
  intros [E1 E2 E3] (Hb & Hp & H). split; [by rewrite E2|]. split; [by eapply prev_ok_prev|].
  unfold pending_of, loaded in *. rewrite E1. destruct (ur_Pending _) as [p|].
  - destruct (_ =? _)%string.
    + destruct H as (Hne & RF & RT & ? & ? & ? & ? & H). split; [done|]. exists RF, RT. split_and!; [done..|].
      destruct H as [[? ?]|[?|[? ?]]]; [left|right; left|right; right].
      * split; [by eapply mixed_bin|by eapply previous_prev].
      * by eapply holds_bin.
      * split; [by eapply holds_bin|]. unfold nothing_kept in *. congruence.
    + destruct H as (R & ? & ? & ?). exists R. split_and!; [done..|]. by eapply holds_bin.
  - destruct H as (R & ? & ?). exists R. split; [done|]. by eapply holds_bin.
Qed.

Lemma prev_ok_mono known known' d : known ⊆ known' -> prev_ok known d -> prev_ok known' d.
Proof. intros Hk [H|(R & HR & H)]; [by left|right]. exists R. split; [by apply Hk|done]. Qed.

Lemma Inv_mono known known' d : known ⊆ known' -> Inv known d -> Inv known' d.
Proof.
  intros Hk (Hb & Hp & H). split; [done|]. split; [by eapply prev_ok_mono|].
  destruct (pending_of d) as [p|]; [destruct (_ =? _)%string|].
  - destruct H as (Hne & RF & RT & ? & ? & H). split; [done|]. exists RF, RT. split_and!; [by apply Hk..|apply H|apply H|apply H].
  - destruct H as (R & ? & H). exists R. split; [by apply Hk|done].
  - destruct H as (R & ? & H). exists R. split; [by apply Hk|done].
Qed.

(** Recording a pending installation, or none. *)
Lemma pending_recording r d :
  pending_of (recording (as_saved r) d) = ur_Pending (known_phase r).
Proof.
  unfold pending_of, loaded, recording, known_phase. simpl. destruct (ur_Pending r) as [p|] eqn:E; [|done].
  destruct (_ || _); simpl; [by rewrite E|done].
Qed.
End release.

(** ** Keeping the current programs *)

Section operations.
Context (ok : Happening -> Prop).
(** A removal of a directory that is interrupted has removed nothing of it. *)
Context (Hcalm : forall t, ok (Fails t) \/ ok (Stops t) -> tn_removed t = []).
#[local] Abbreviation wp := (wp ok).
#[local] Abbreviation disturbed := (disturbed ok).

Lemma remove_nothing d dir : mkDisk (alter (remove_names []) dir (dk_dirs d)) (dk_record d) = d.
Proof.
  destruct d as [dirs r]. simpl. f_equal. apply map_eq. intros dir'. destruct (decide (dir' = dir)) as [->|].
  - rewrite lookup_alter_eq. destruct (dirs !! dir) as [m|]; [|done]. simpl. f_equal. apply map_filter_id.
    intros i x _. apply not_elem_of_nil.
  - by rewrite lookup_alter_ne.
Qed.

Lemma RemoveAll_spec dir d :
  wp (RemoveAll dir) (fun _ d' => d' = mkDisk (delete dir (dk_dirs d)) (dk_record d)) (fun _ d' => d' = d /\ disturbed)
    (fun d' => d' = d /\ disturbed) d.
Proof.
  apply fs_atom; [done| |]; intros t Ht.
  - rewrite Hcalm, remove_nothing by by left. split; [done|by eapply disturbed_fails].
  - rewrite Hcalm, remove_nothing by by right. split; [done|by eapply disturbed_stops].
Qed.

(** Only the copies being made changed, or the staged files. *)
Definition around (d d' : Disk) : Prop := same d d' /\ dk_dirs d' !! StagedDir = dk_dirs d !! StagedDir.

Lemma around_trans d1 d2 d3 : around d1 d2 -> around d2 d3 -> around d1 d3.
Proof. intros [S1 E1] [S2 E2]. split; [by eapply same_trans|congruence]. Qed.

Lemma around_put name n d : around d (put (KeepingDir, name) n d).
Proof. split; [split; [done|..]|]; unfold put, set_dir; cbn; by rewrite lookup_insert_ne. Qed.
Lemma around_delete d : around d (mkDisk (delete KeepingDir (dk_dirs d)) (dk_record d)).
Proof. split; [split; [done|..]|]; cbn; by rewrite lookup_delete_ne. Qed.

Lemma around_bin d d' name : around d d' -> bin d' name = bin d name.
Proof. intros [[_ E _] _]. unfold bin, node. simpl. by rewrite E. Qed.

Lemma discard_keeping d Q E (C : Disk -> Prop) :
  (forall d', around d d' -> Q d') -> (forall d', around d d' -> disturbed -> C d') ->
  wp (ignore (RemoveAll KeepingDir)) (fun _ => Q) E C d.
Proof.
  intros HQ HC. apply fs_ignore. eapply fs_mono; [apply RemoveAll_spec|..].
  - intros [] d' ->. apply HQ, around_delete.
  - intros e d' [-> _]. by apply HQ.
  - intros d' [-> ?]. by apply HC.
Qed.

(** The first [i] programs are copied; one that is not there is not in the copy. *)
Definition copies_made (i : nat) (d0 d : Disk) : Prop :=
  around d0 d /\ is_Some (dk_dirs d !! KeepingDir) /\
  forall j name, programs !! j = Some name -> node (KeepingDir, name) d = if (j <? i)%nat then bin d0 name else None.

Lemma copies_put i name n d0 d :
  copies_made i d0 d -> programs !! i = Some name -> bin d0 name = Some n -> copies_made (S i) d0 (put (KeepingDir, name) n d).
Proof.
  intros (A & _ & H) Hi Hn. split; [eapply around_trans; [done|apply around_put]|].
  split; [unfold put, set_dir; cbn; by rewrite lookup_insert_eq|]. intros j name' Hj. rewrite node_put.
  destruct (decide (j = i)) as [->|Hne].
  - simplify_eq. rewrite decide_True by done. by rewrite (proj2 (Nat.ltb_lt i (S i)) ltac:(lia)).
  - rewrite decide_False; [|intros [= ->]; apply Hne; by eapply programs_index]. rewrite (H j name' Hj).
    destruct (Nat.ltb_spec j i), (Nat.ltb_spec j (S i)); (done || lia).
Qed.

Lemma copies_none i name d0 d :
  copies_made i d0 d -> programs !! i = Some name -> bin d0 name = None -> copies_made (S i) d0 d.
Proof.
  intros (A & ? & H) Hi Hn. split; [done|]. split; [done|]. intros j name' Hj. rewrite (H j name' Hj).
  destruct (Nat.ltb_spec j i), (Nat.ltb_spec j (S i)); [done|lia| |done]. assert (j = i) as -> by lia. by simplify_eq.
Qed.

Lemma keep_one_spec i name d0 d :
  copies_made i d0 d -> programs !! i = Some name -> keepable name (bin d0 name) ->
  wp (keep_one name) (fun _ => copies_made (S i) d0) (fun _ d' => around d0 d' /\ disturbed) (fun d' => around d0 d' /\ disturbed) d.
Proof.
  intros Hc Hi Hk. pose proof Hc as (A & Hdir & H). pose proof (around_bin _ _ name A) as Hbin.
  apply fs_bind, fs_try, fs_bind. eapply fs_mono; [apply Lstat_spec| | |by intros ? [-> ?]].
  - intros n d1 [-> Hn]. destruct n as [c|].
    2: { destruct Hk as [(c & Hc')|[Hc' _]]; unfold bin in *; congruence. }
    eapply fs_mono; [by eapply copy_bytes_spec| | |].
    + intros [] d1 ->. apply fs_ret. apply copies_put; [done..|]. unfold bin in *. congruence.
    + intros e d1 (Hd & -> & ?). cbn [andb].
      assert (around d d1) as A1 by (destruct Hd as [->|[torn ->]]; [done|apply around_put]).
      apply fs_bind, discard_keeping; intros d2 A2; [apply fs_fail|intros _];
        (split; [eapply around_trans; [exact A|]; by eapply around_trans|done]).
    + intros d1 ([->|[torn ->]] & ?); (split; [|done]); [done|]. eapply around_trans; [done|apply around_put].
  - intros e d1 (-> & [[He ?]|[He Hn]]).
    + rewrite He. cbn [andb]. apply fs_bind, discard_keeping; intros d2 A2; [apply fs_fail|intros _];
        (split; [by eapply around_trans|done]).
    + rewrite He. destruct Hk as [(c & Hc')|[Hc' Hab]]; [unfold bin in *; congruence|]. rewrite Hab. cbn [andb].
      apply fs_ret. eapply copies_none; [done..|]. unfold bin in *. congruence.
Qed.

Lemma keep_current_spec R d :
  holds R d ->
  wp keep_current
    (fun _ d' => dk_record d' = dk_record d /\ dk_dirs d' !! BinDir = dk_dirs d !! BinDir /\
       dk_dirs d' !! StagedDir = dk_dirs d !! StagedDir /\ previous_is R d')
    (fun _ d' => dk_record d' = dk_record d /\ dk_dirs d' !! BinDir = dk_dirs d !! BinDir /\
       (dk_dirs d' !! PreviousDir = dk_dirs d !! PreviousDir \/ nothing_kept d') /\ disturbed)
    (fun d' => dk_record d' = dk_record d /\ dk_dirs d' !! BinDir = dk_dirs d !! BinDir /\
       (dk_dirs d' !! PreviousDir = dk_dirs d !! PreviousDir \/ nothing_kept d') /\ disturbed) d.
Proof.
  intros Hh. apply fs_bind. eapply fs_mono; [apply RemoveAll_spec| |by intros ? ? [-> ?]; auto|by intros ? [-> ?]; auto].
  intros [] d1 ->. set (d1 := mkDisk _ _). assert (around d d1) as A1 by apply around_delete.
  assert (forall d' : Disk, around d d' -> disturbed ->
    dk_record d' = dk_record d /\ dk_dirs d' !! BinDir = dk_dirs d !! BinDir /\
       (dk_dirs d' !! PreviousDir = dk_dirs d !! PreviousDir \/ nothing_kept d') /\ disturbed) as Hout.
  { intros d' [[E1 E2 E3] _] ?. auto. }
  apply fs_bind, fs_atom.
  2: { intros t Ht. apply Hout; [done|by eapply disturbed_fails]. }
  2: { intros t Ht. apply Hout; [done|by eapply disturbed_stops]. }
  assert (copies_made 0 d (set_dir KeepingDir ∅ d1)) as Hc.
  { split; [|split].
    - eapply around_trans; [exact A1|]. split; [split; [done|..]|]; unfold set_dir; cbn; by rewrite lookup_insert_ne.
    - unfold set_dir; cbn. by rewrite lookup_insert_eq.
    - intros j name _. unfold node, set_dir; cbn. rewrite lookup_insert_eq. simpl. apply lookup_empty. }
  rewrite decide_False by (unfold d1; cbn; rewrite lookup_delete_eq; by intros [? ?]).
  apply fs_bind. eapply fs_mono.
  { apply (fs_for_each _ _ (fun i => copies_made i d) (fun _ => copies_made (length programs) d)
             (fun _ d' => around d d' /\ disturbed) (fun d' => around d d' /\ disturbed)); [exact Hc|done|].
    intros i name d' Hi Hc'. eapply keep_one_spec; [done..|].
    rewrite Hh by (apply programs_elem; by exists i). apply program_keepable, programs_elem. by exists i. }
  2: { intros e d' [? ?]. by apply Hout. }
  2: { intros d' [? ?]. by apply Hout. }
  intros [] d2 (A2 & [m Hm] & Hcopies). apply fs_bind, fs_try.
  eapply fs_mono; [apply RemoveAll_spec| | |intros ? [-> ?]; by apply Hout].
  2: { intros e d3 [-> ?]. apply fs_bind, discard_keeping; intros d4 A4; [apply fs_fail|intros _]; (apply Hout; [by eapply around_trans|done]). }
  intros [] d3 ->. pose proof A2 as [[E1 E2 E3] E4]. apply fs_atom; cbn [dk_dirs dk_record].
  2, 3: intros t Ht; cbn; rewrite lookup_delete_ne by done; split_and!; [done..| |]; [right; by apply lookup_delete_eq|].
  2: by eapply disturbed_fails.
  2: by eapply disturbed_stops.
  rewrite lookup_delete_ne, Hm by done. cbn [dk_dirs]. unfold entries. cbn [dk_dirs]. rewrite lookup_delete_eq.
  rewrite decide_True by done. cbn. split_and!; [done|..].
  - rewrite lookup_insert_ne, !lookup_delete_ne by done. done.
  - rewrite lookup_insert_ne, !lookup_delete_ne by done. done.
  - intros name Hn. unfold kept, node. cbn. rewrite lookup_insert_eq. simpl.
    apply programs_elem in Hn as [j Hj]. specialize (Hcopies j name Hj).
    rewrite (proj2 (Nat.ltb_lt _ _) (lookup_lt_Some _ _ _ Hj)) in Hcopies. unfold node in Hcopies. cbn in Hcopies.
    rewrite Hm in Hcopies. simpl in Hcopies. rewrite Hcopies. apply Hh, programs_elem. by exists j.
Qed.

(** ** An installation *)

Context (version_of : string -> string).
#[local] Abbreviation version := (version version_of).
#[local] Abbreviation Inv := (Inv version_of).
Context (known : list Release) (RF RT : Release) (HRF : RF ∈ known) (HRT : RT ∈ known) (Hne : version RF <> version RT).

Lemma mixed_Inv p d :
  is_Some (dk_dirs d !! BinDir) -> pending_of d = Some p -> pd_Phase p = phaseSwapping ->
  pd_From p = version RF -> pd_To p = version RT -> previous_is RF d -> mixed RF RT d -> Inv known d.
Proof.
  intros Hb Hp Hph Hf Ht Hprev Hm. split; [done|]. split; [right; by exists RF|]. rewrite Hp, Hph. cbn.
  split; [congruence|]. exists RF, RT. split_and!; [done..|]. left. done.
Qed.

Lemma holds_mixed R d : R = RF -> holds R d -> mixed RF RT d.
Proof. intros -> H. split; [apply H; set_solver|]. intros name Hn. left. by apply H. Qed.

Lemma partway_mixes i d0 d :
  mixed RF RT d0 -> partway (program RT) i d0 d -> (i < length programs)%nat -> mixed RF RT d.
Proof.
  intros [H1 H2] Hp Hi. split; [by rewrite (partway_daemon _ _ _ _ Hp Hi)|]. intros name Hn.
  destruct (partway_mixed _ _ _ _ name Hp Hn) as [->| ->]; [by apply H2|by right].
Qed.

(** Putting back what was kept, from any mixture. *)
Lemma restore_mixes i d0 d :
  mixed RF RT d0 -> previous_is RF d0 -> put_back i d0 d -> (i < length programs)%nat -> mixed RF RT d.
Proof.
  intros [H1 H2] Hprev [Hp _] Hi. split; [by rewrite (partway_daemon _ _ _ _ Hp Hi)|]. intros name Hn.
  destruct (partway_mixed _ _ _ _ name Hp Hn) as [->| ->]; [by apply H2|left; by apply Hprev].
Qed.

Lemma restore_holds d0 d : previous_is RF d0 -> put_back (length programs) d0 d -> holds RF d.
Proof. intros Hprev [Hp _] name Hn. rewrite (partway_done _ _ _ _ Hp Hn). by apply Hprev. Qed.

Lemma framed_previous R d d' : framed d d' -> previous_is R d -> previous_is R d'.
Proof. intros F. apply previous_prev. by apply (fr_dirs _ _ F). Qed.
Lemma framed_pending d d' : framed d d' -> pending_of d' = pending_of d.
Proof. intros F. unfold pending_of, loaded. by rewrite (fr_record _ _ F). Qed.

(** Half-way through: what is recorded, what is kept, and any mixture. *)
Record halfway (d : Disk) : Prop := mkHalfway {
  hw_bin : is_Some (dk_dirs d !! BinDir);
  hw_pending : exists p, pending_of d = Some p /\ pd_Phase p = phaseSwapping /\ pd_From p = version RF /\ pd_To p = version RT;
  hw_previous : previous_is RF d;
  hw_mixed : mixed RF RT d
}.

Lemma halfway_Inv d : halfway d -> Inv known d.
Proof. intros [Hb (p & ? & ? & ? & ?) ? ?]. by eapply mixed_Inv. Qed.

Lemma halfway_framed d d' : halfway d -> framed d d' -> mixed RF RT d' -> halfway d'.
Proof.
  intros [Hb Hp Hprev _] F Hm. split; [apply F| |by eapply framed_previous|done]. by rewrite (framed_pending _ _ F).
Qed.

Lemma restore_halfway d :
  halfway d ->
  wp restore (fun _ d' => halfway d' /\ holds RF d') (fun _ d' => halfway d' /\ disturbed) (fun d' => halfway d' /\ disturbed) d.
Proof.
  intros H. pose proof H as [Hb _ Hprev Hm]. eapply fs_mono; [by apply restore_spec|..].
  - intros [] d' Hput. pose proof (restore_holds _ _ Hprev Hput) as Hh. split; [|done].
    eapply halfway_framed; [done|apply Hput|]. by eapply holds_mixed.
  - intros e d' (i & Hi & Hput & Hd). split; [eapply halfway_framed; [done|apply Hput|by eapply restore_mixes]|].
    destruct Hd as [|(name & Hn & Hno)]; [done|]. exfalso. apply Hno. rewrite Hprev by done. by apply program_keepable.
  - intros d' [(i & Hi & Hput) ?]. split; [|done]. eapply halfway_framed; [done|apply Hput|by eapply restore_mixes].
Qed.

(** No installation is recorded, and the programs are one known release. *)
Lemma idle_Inv R d :
  is_Some (dk_dirs d !! BinDir) -> prev_ok known d -> pending_of d = None -> R ∈ known -> holds R d -> Inv known d.
Proof. intros ? ? Hp ? ?. split; [done|]. split; [done|]. rewrite Hp. by exists R. Qed.

(** Undone: recording that nothing is pending. *)
Lemma undone_spec r d Q E (C : Disk -> Prop) :
  is_Some (dk_dirs d !! BinDir) -> prev_ok known d -> holds RF d ->
  (forall d', Inv known d' -> holds RF d' -> Q d') -> (Inv known d -> disturbed -> Q d /\ C d) -> Inv known d ->
  wp (ignore (save (with_pending None r))) (fun _ => Q) E C d.
Proof.
  intros Hb Hprev Hh HQ HC Hinv. apply fs_ignore. eapply fs_mono; [apply save_spec|..].
  - intros [] d' ->. apply HQ; [|done]. eapply (idle_Inv RF); [done|done|by rewrite pending_recording|done|done].
  - intros e d' [-> Hd]. by apply HC.
  - intros d' [-> Hd]. by apply HC.
Qed.

Definition staged_of (R : Release) : Staged := mkStaged (version R) cliName workerName daemonName.
Definition unpacked (R : Release) (d : Disk) : Prop := forall name, name ∈ programs -> node (StagedDir, name) d = program R name.

Lemma source_staged R name : name ∈ programs -> source (staged_of R) name = (StagedDir, name).
Proof.
  intros H. unfold programs in H. repeat (apply elem_of_cons in H as [->|H]); [done..|by apply not_elem_of_nil in H].
Qed.

Lemma swap_one_spec r i name d0 d :
  halfway d0 -> unpacked RT d0 -> partway (program RT) i d0 d -> programs !! i = Some name ->
  wp (swap_one (staged_of RT) r name) (fun _ => partway (program RT) (S i) d0)
    (fun _ d' => Inv known d' /\ (disturbed \/ rl_Worker RT = None)) (fun d' => Inv known d' /\ disturbed) d.
Proof.
  intros Hh0 Hun Hp Hi. pose proof (lookup_lt_Some _ _ _ Hi) as Hlt.
  assert (name ∈ programs) as Hn by (apply programs_elem; by exists i).
  pose proof Hh0 as [Hb0 Hp0 Hprev0 Hm0].
  assert (halfway d) as Hh by (eapply halfway_framed; [done|apply Hp|by eapply partway_mixes]).
  assert (forall d', aside d d' -> halfway d') as Haside.
  { intros d' A. eapply halfway_framed; [exact Hh0|eapply framed_trans; [apply Hp|apply A]|].
    eapply partway_mixes; [exact Hm0|by eapply partway_aside|done]. }
  assert (node (StagedDir, name) d = program RT name) as Hsrc.
  { rewrite (framed_node d0 d) by (apply Hp || done). by apply Hun. }
  apply fs_bind, fs_try. rewrite source_staged by done.
  eapply fs_mono; [apply replaceProgram_spec; [done|apply Hp]| | |].
  - intros [] d' (c & Hc & Hset). apply fs_ret. eapply partway_step; [done|done|]. by rewrite <- Hsrc, Hc.
  - intros e d' [A Hwhy]. apply fs_bind, fs_try.
    assert (disturbed \/ rl_Worker RT = None) as Hcause.
    { destruct Hwhy as [|Hwhy]; [by left|right]. rewrite Hsrc in Hwhy.
      destruct (program_keepable RT name Hn) as [?|[Hnone _]]; [done|].
      unfold program in Hnone. destruct (name =? cliName)%string; [done|]. destruct (name =? workerName)%string; [|done].
      by destruct (rl_Worker RT). }
    eapply fs_mono; [apply restore_halfway; by apply Haside| | |].
    + intros [] d2 [H2 Hholds]. pose proof H2 as [Hb2 Hp2 Hprev2 _]. apply fs_bind.
      apply undone_spec; [done|right; by exists RF|done| | |by apply halfway_Inv].
      * intros d3 Hd3 _. apply fs_fail. done.
      * intros H3 Hd. split; [by apply fs_fail|done].
    + intros e2 d2 [H2 ?]. apply fs_bind, fs_ret, fs_fail. split; [by apply halfway_Inv|done].
    + intros d2 [H2 ?]. split; [by apply halfway_Inv|done].
  - intros d' [A ?]. split; [|done]. apply halfway_Inv. by apply Haside.
Qed.

Lemma pending_loaded d : ur_Pending (loaded d) = pending_of d.
Proof. done. Qed.

(** Before anything is recorded: only what is kept may have gone, or be the programs there now. *)
Lemma not_swapping_Inv d d' :
  Inv known d -> (forall p, pending_of d = Some p -> pd_Phase p <> phaseSwapping) ->
  dk_record d' = dk_record d -> dk_dirs d' !! BinDir = dk_dirs d !! BinDir -> prev_ok known d' -> Inv known d'.
Proof.
  intros (Hb & _ & H) Hns E1 E2 Hp. split; [by rewrite E2|]. split; [done|].
  unfold pending_of, loaded in *. rewrite E1. destruct (ur_Pending _) as [p|].
  - specialize (Hns p eq_refl). destruct (String.eqb_spec (pd_Phase p) phaseSwapping); [done|].
    destruct H as (R & ? & ? & H). exists R. split_and!; [done..|]. by eapply holds_bin.
  - destruct H as (R & ? & H). exists R. split; [done|]. by eapply holds_bin.
Qed.

(** The record an installation that went through leaves. *)
Definition installed_record (from to : string) (r : URecord) : URecord :=
  no_news (with_pending (Some (mkPending from to phaseApplied 0)) r).

Lemma Install_spec d0 :
  Inv known d0 -> (forall p, pending_of d0 = Some p -> pd_Phase p <> phaseSwapping) -> holds RF d0 -> unpacked RT d0 ->
  wp (Install (staged_of RT) (version RF))
    (fun _ d => Inv known d /\ holds RT d /\ previous_is RF d /\
       dk_record d = Some (Readable (as_saved (installed_record (version RF) (version RT) (loaded d0)))))
    (fun _ d => Inv known d /\ (disturbed \/ rl_Worker RT = None \/ ur_unreadable (loaded d0) = true))
    (fun d => Inv known d /\ disturbed) d0.
Proof.
  intros Hinv Hns Hh Hun. pose proof Hinv as (Hb0 & Hprev0 & _).
  apply fs_bind. eapply fs_mono; [apply load_spec| |done|by intros ? [-> ?]].
  intros r d [-> Hr]. destruct (ur_unreadable r) eqn:Hur.
  { apply fs_fail. split; [done|]. destruct Hr as [->|[? _]]; auto. }
  destruct Hr as [->|[_ ->]]; [|done].
  assert (forall d' : Disk, dk_record d' = dk_record d0 /\ dk_dirs d' !! BinDir = dk_dirs d0 !! BinDir /\
       (dk_dirs d' !! PreviousDir = dk_dirs d0 !! PreviousDir \/ nothing_kept d') /\ disturbed -> Inv known d' /\ disturbed) as Hbefore.
  { intros d' (E1 & E2 & E3 & ?). split; [|done]. eapply not_swapping_Inv; [done..|].
    destruct E3 as [E3|?]; [by eapply prev_ok_prev|by left]. }
  apply fs_bind. eapply fs_mono; [by apply keep_current_spec| | |done].
  2: { intros e d' Hd'. apply Hbefore in Hd' as [? ?]. auto. }
  intros [] d1 (E1 & E2 & E3 & Hprev). set (p := mkPending _ _ _ _). apply fs_bind, fs_try.
  assert (forall d', dk_record d' = dk_record d0 -> dk_dirs d' !! BinDir = dk_dirs d0 !! BinDir ->
    (previous_is RF d' \/ nothing_kept d') -> Inv known d') as Hkept.
  { intros d' ? ? Hp. eapply not_swapping_Inv; [done..|]. destruct Hp; [right; by exists RF|by left]. }
  eapply fs_mono; [apply save_spec| | |intros d' [-> ?]; split; [apply Hkept; auto|done]].
  2: { intros e d' [-> ?]. apply fs_bind, fs_ignore. eapply fs_mono; [apply RemoveAll_spec| | |].
    - intros [] d2 ->. apply fs_fail. split; [|by left]. apply Hkept; cbn; [done|by rewrite lookup_delete_ne|].
      right. apply lookup_delete_eq.
    - intros e2 d2 [-> ?]. apply fs_fail. split; [apply Hkept; auto|by left].
    - intros d2 [-> ?]. split; [apply Hkept; auto|done]. }
  intros [] d2 ->. set (r1 := with_pending _ _). set (d2 := recording _ _).
  assert (is_Some (dk_dirs d2 !! BinDir)) as Hb2 by (cbn; by rewrite E2).
  assert (halfway d2) as Hw.
  { split; [done| |by apply Hprev|].
    - exists p. unfold d2. rewrite pending_recording. done.
    - eapply holds_mixed; [done|]. eapply holds_bin; [|exact Hh]. done. }
  assert (unpacked RT d2) as Hun2.
  { intros name Hn. unfold node. cbn. rewrite E3. by apply Hun. }
  apply fs_bind. eapply fs_mono.
  { apply (fs_for_each _ _ (fun i => partway (program RT) i d2) (fun _ => partway (program RT) (length programs) d2)
             (fun _ d' => Inv known d' /\ (disturbed \/ rl_Worker RT = None)) (fun d' => Inv known d' /\ disturbed)).
    - by apply partway_0.
    - done.
    - intros i name d' Hi Hp. by eapply swap_one_spec. }
  2: { intros e d' [? [?|?]]; auto. }
  2: done.
  intros [] d3 Hp3. pose proof (proj1 Hp3) as F3. pose proof (fr_bin _ _ F3) as Hb3.
  assert (holds RT d3) as Hh3 by (intros name Hn; by apply (partway_done _ d2)).
  assert (previous_is RF d3) as Hprev3 by (eapply framed_previous; [done|apply Hprev]).
  assert (Inv known d3) as Hinv3.
  { split; [done|]. split; [right; by exists RF|]. rewrite (framed_pending _ _ F3).
    destruct (hw_pending _ Hw) as (q & -> & -> & Hqf & Hqt). cbn. split; [congruence|].
    exists RF, RT. split_and!; [done..|]. right. by left. }
  apply fs_bind. eapply fs_mono; [apply save_spec| |by intros ? ? [-> ?]; auto|by intros ? [-> ?]; auto].
  intros [] d4 ->. set (d4 := recording _ d3).
  assert (Inv known d4 /\ holds RT d4 /\ previous_is RF d4 /\
       dk_record d4 = Some (Readable (as_saved (installed_record (version RF) (version RT) (loaded d0))))) as Hfinal.
  { split_and!; [|by eapply holds_bin|by eapply previous_prev|done].
    split; [done|]. split; [right; by exists RF|]. unfold d4. rewrite pending_recording. cbn. by exists RT. }
  apply fs_ignore. eapply fs_mono; [apply RemoveAll_spec| | |].
  - intros [] d5 ->. destruct Hfinal as (F1 & F2 & F4 & F5). split_and!.
    + eapply Inv_same; [|done]. split; cbn; [done|by rewrite lookup_delete_ne..].
    + eapply holds_bin; [|done]. cbn. by rewrite lookup_delete_ne.
    + eapply previous_prev; [|done]. cbn. by rewrite lookup_delete_ne.
    + done.
  - by intros e d5 [-> ?].
  - intros d5 [-> ?]. split; [apply Hfinal|done].
Qed.
End operations.

(** ** A start *)

Section starts.
Context (ok : Happening -> Prop) (Hcalm : forall t, ok (Fails t) \/ ok (Stops t) -> tn_removed t = []).
Context (version_of : string -> string) (known : list Release).
#[local] Abbreviation wp := (wp ok).
#[local] Abbreviation disturbed := (disturbed ok).
#[local] Abbreviation version := (version version_of).
#[local] Abbreviation Inv := (Inv version_of).

Lemma Inv_aside d d' : aside d d' -> Inv known d -> Inv known d'.
Proof.
  intros [F B] (Hb & Hprev & H).
  assert (forall R, holds R d -> holds R d') as Hholds by (intros R HR name Hn; rewrite B by done; by apply HR).
  assert (dk_dirs d' !! PreviousDir = dk_dirs d !! PreviousDir) as Ep by by apply (fr_dirs _ _ F).
  split; [apply F|]. split; [by eapply prev_ok_prev|]. rewrite (framed_pending _ _ F).
  destruct (pending_of d) as [p|]; [destruct (_ =? _)%string|].
  - destruct H as (Hne & RF & RT & ? & ? & ? & ? & H). split; [done|]. exists RF, RT. split_and!; [done..|].
    destruct H as [[[Hm1 Hm2] ?]|[?|[? ?]]]; [left|right; left; by apply Hholds|right; right].
    + split; [|by eapply previous_prev]. split; [rewrite B by set_solver; done|]. intros name Hn. rewrite B by done. by apply Hm2.
    + split; [by apply Hholds|]. unfold nothing_kept in *. congruence.
  - destruct H as (R & ? & ? & ?). exists R. split_and!; [done..|]. by apply Hholds.
  - destruct H as (R & ? & ?). exists R. split; [done|]. by apply Hholds.
Qed.

(** With nothing kept there is nothing to put back, and nothing is touched. *)
Lemma restore_nothing d :
  is_Some (dk_dirs d !! BinDir) -> nothing_kept d ->
  wp restore (fun _ _ => False) (fun _ d' => aside d d') (fun d' => aside d d' /\ disturbed) d.
Proof.
  intros Hb Hno.
  assert (forall i d', put_back i d d' -> i = 0%nat /\ aside d d') as H0.
  { intros [|i] d' [[F B] Hk].
    - split; [done|]. split; [done|]. intros name [j Hj]%programs_elem. by rewrite (B j name Hj).
    - exfalso. specialize (Hk 0%nat cliName ltac:(lia) eq_refl). unfold kept, node in Hk. cbn in Hk. rewrite Hno in Hk.
      destruct Hk as [[c Hc]|[_ Hc]]; done. }
  eapply fs_mono; [by apply restore_spec|..].
  - intros [] d' [? _]%H0. done.
  - intros e d' (i & _ & [_ ?]%H0 & _). done.
  - intros d' [(i & _ & [_ ?]%H0) ?]. done.
Qed.

Lemma saving_spec o r d :
  wp (saving o r) (fun x d' => x.1 = o /\ (d' = recording (as_saved r) d \/ d' = d /\ disturbed)) (fun _ _ => False)
    (fun d' => d' = d /\ disturbed) d.
Proof.
  apply fs_bind, fs_try. eapply fs_mono; [apply save_spec| | |done].
  - intros [] d' ->. apply fs_ret. auto.
  - intros e d' [-> ?]. apply fs_ret. auto.
Qed.

Lemma holds_version R d running c :
  holds R d -> bin d daemonName = Some (Regular c) -> version_of c = running -> version R = running.
Proof. intros H Hc Hv. rewrite H in Hc by set_solver. unfold program in Hc. cbn in Hc. by injection Hc as <-. Qed.
Lemma mixed_version RF RT d running c :
  mixed RF RT d -> bin d daemonName = Some (Regular c) -> version_of c = running -> version RF = running.
Proof. intros [H _] Hc Hv. rewrite H in Hc. unfold program in Hc. cbn in Hc. by injection Hc as <-. Qed.

Definition rollback_due (d : Disk) (crashed : bool) : bool :=
  match pending_of d with
  | Some p =>
      negb (pd_Phase p =? phaseSwapping)%string &&
      ((crashed && (1 <=? pd_Starts p)) || (unconfirmedStarts <=? pd_Starts p))
  | None => false
  end.

(** A pending installation's phase is one of the two. *)
Lemma pending_phase d p :
  pending_of d = Some p -> pd_Phase p = phaseSwapping \/ pd_Phase p = phaseApplied.
Proof.
  unfold pending_of, loaded. destruct (dk_record d) as [[r|]|]; [|done..]. unfold known_phase.
  destruct (ur_Pending r) as [q|] eqn:E; [|by rewrite E].
  destruct (_ || _) eqn:Hph; [|done]. rewrite E. intros [= ->].
  apply orb_true_iff in Hph as [?%String.eqb_eq|?%String.eqb_eq]; auto.
Qed.

(** What a start leaves: the invariant, its own program where it goes on running, and, if nothing happened to it,
    the programs of one release. *)
Definition started (running : string) (d : Disk) (x : Outcome * option Failure) (d' : Disk) : Prop :=
  Inv known d' /\ (x.1 <> RolledBack -> bin d' daemonName = bin d daemonName) /\
  (~ disturbed -> exists R, R ∈ known /\ holds R d' /\ (x.1 <> RolledBack -> version R = running)).

(** The programs are one known release, whichever of the two a recording went through. *)
Lemma started_idle running d R r o x d1 d' :
  is_Some (dk_dirs d1 !! BinDir) -> prev_ok known d1 -> R ∈ known -> holds R d1 -> version R = running ->
  bin d1 daemonName = bin d daemonName -> Inv known d1 -> ur_Pending r = None ->
  x.1 = o /\ (d' = recording (as_saved r) d1 \/ d' = d1 /\ disturbed) -> started running d x d'.
Proof.
  intros Hb Hprev HR HhR Hv Hbin Hinv Hr [_ [->|[-> ?]]].
  - split_and!; [|done|].
    + apply (idle_Inv version_of known R); [done|done| |done|done].
      rewrite pending_recording. unfold known_phase. by rewrite Hr.
    + intros _. exists R. split_and!; done.
  - split_and!; [done|done|]. intros ?. done.
Qed.

Definition without_previous (d : Disk) : Disk := mkDisk (delete PreviousDir (dk_dirs d)) (dk_record d).

Lemma without_bin d : dk_dirs (without_previous d) !! BinDir = dk_dirs d !! BinDir.
Proof. cbn. by rewrite lookup_delete_ne. Qed.
Lemma without_kept d : nothing_kept (without_previous d).
Proof. apply lookup_delete_eq. Qed.

(** Once the programs are put back: what was kept is dropped, and it is recorded that nothing is pending. *)
Lemma put_back_rest running o r R d d1 :
  Inv known d1 -> Inv known (without_previous d1) -> R ∈ known -> holds R d1 -> version R = running ->
  bin d1 daemonName = bin d daemonName -> ur_Pending r = None ->
  wp (_ ← ignore (RemoveAll PreviousDir); saving o r) (started running d) (fun _ _ => False)
    (fun d' => Inv known d' /\ disturbed) d1.
Proof.
  intros Hinv1 Hinv2 HR HhR Hv Hbin Hr. pose proof Hinv1 as (Hb1 & Hprev1 & _).
  apply fs_bind, fs_ignore. eapply fs_mono; [by apply RemoveAll_spec| | |by intros ? [-> ?]].
  - intros [] d2 ->. fold (without_previous d1). eapply fs_mono; [apply saving_spec| |done|by intros ? [-> ?]].
    intros x d' Hx. eapply (started_idle _ _ R); [..|exact Hx]; [|by left; apply without_kept|done| |done| |done|done].
    + by rewrite without_bin.
    + eapply holds_bin; [apply without_bin|done].
    + rewrite <- Hbin. unfold bin, node. cbn. by rewrite lookup_delete_ne.
  - intros e d2 [-> _]. eapply fs_mono; [apply saving_spec| |done|by intros ? [-> ?]].
    intros x d' Hx. eapply (started_idle _ _ R); [..|exact Hx]; done.
Qed.

(** What [AtStart] does with a pending installation, as it is written there. *)
Definition start_swapping (running : string) (p : Pending) (r : URecord) : FS (Outcome * option Failure) :=
  if (running =? pd_To p)%string then
    saving Counted (with_pending (Some (mkPending (pd_From p) (pd_To p) phaseApplied 1)) r)
  else if negb (running =? pd_From p)%string then
    _ ← ignore (RemoveAll PreviousDir);
    saving Nothing (with_pending None r)
  else
    restored ← try restore;
    match restored with
    | inl err => mret (Nothing, Some err)
    | inr _ =>
        _ ← ignore (RemoveAll PreviousDir);
        saving Recovered (with_pending None r)
    end.

Lemma swapping_start running c p r d :
  Inv known d -> bin d daemonName = Some (Regular c) -> version_of c = running -> swapping_ok version_of known p d ->
  pending_of d = Some p -> pd_Phase p = phaseSwapping ->
  wp (start_swapping running p r) (started running d) (fun _ _ => False) (fun d' => Inv known d' /\ disturbed) d.
Proof.
  intros Hinv Hc Hv (Hne & RF & RT & HRF & HRT & Hf & Ht & Hst) Hp Hph. pose proof Hinv as (Hb & Hprev & _).
  assert (version RF <> version RT) as Hne' by congruence.
  unfold start_swapping. destruct (String.eqb_spec running (pd_To p)) as [->|Hto].
  { assert (holds RT d) as HhT.
    { destruct Hst as [[Hm _]|[?|[HhF _]]]; [|done|].
      - exfalso. apply Hne. rewrite <- Hf. by eapply mixed_version.
      - exfalso. apply Hne. rewrite <- Hf. by eapply holds_version. }
    eapply fs_mono; [apply saving_spec| |done|by intros ? [-> ?]].
    intros x d' [_ [->|[-> ?]]]; (split_and!; [|done|]).
    - split; [done|]. split; [done|]. rewrite pending_recording. cbn. by exists RT.
    - intros _. by exists RT.
    - done.
    - intros ?. done. }
  assert (running = version RF /\ (mixed RF RT d /\ previous_is RF d \/ holds RF d /\ nothing_kept d)) as [-> Hst'].
  { destruct Hst as [[Hm ?]|[HhT|[HhF ?]]].
    - split; [symmetry; by eapply mixed_version|by left].
    - exfalso. apply Hto. rewrite <- Ht. symmetry. by eapply holds_version.
    - split; [symmetry; by eapply holds_version|by right]. }
  rewrite Hf, String.eqb_refl. cbn [negb]. apply fs_bind, fs_try. destruct Hst' as [[Hm Hkept]|[HhF Hnone]].
  - assert (halfway version_of RF RT d) as Hw by (split; [done|by exists p|done|done]).
    assert (forall d', halfway version_of RF RT d' -> Inv known d' /\ bin d' daemonName = bin d daemonName) as Hhw.
    { intros d' Hw'. split; [by eapply halfway_Inv; [..|exact Hw']|]. destruct (hw_mixed _ _ _ _ Hw') as [-> _], Hm as [-> _]. done. }
    eapply fs_mono; [exact (restore_halfway ok Hcalm version_of known RF RT HRF HRT Hne' d Hw)| | |].
    + intros [] d1 [Hw1 Hh1]. destruct (Hhw _ Hw1) as [Hinv1 Hbin].
      apply (put_back_rest _ _ _ RF); [done| |done|done|done|done|done].
      destruct (hw_pending _ _ _ _ Hw1) as (q & Hq & Hqph & Hqf & Hqt).
      split; [rewrite without_bin; apply Hinv1|]. split; [left; apply without_kept|].
      change (pending_of (without_previous d1)) with (pending_of d1). rewrite Hq, Hqph. cbn. split; [congruence|].
      exists RF, RT. split_and!; [done..|]. right. right. split; [|apply without_kept].
      eapply holds_bin; [apply without_bin|done].
    + intros e d1 [Hw1 ?]. destruct (Hhw _ Hw1). apply fs_ret. split_and!; [done|done|]. intros ?. done.
    + intros d1 [Hw1 ?]. by destruct (Hhw _ Hw1).
  - eapply fs_mono; [by apply restore_nothing|done| |].
    + intros e d1 A. apply fs_ret. split_and!; [by apply (Inv_aside d)|by intros _; apply A; set_solver|].
      intros _. exists RF. split_and!; [done| |done]. intros name Hn. rewrite (proj2 A) by done. by apply HhF.
    + intros d1 [A ?]. split; [by apply (Inv_aside d)|done].
Qed.

Definition start_applied (running : string) (crashed : bool) (p : Pending) (r : URecord) : FS (Outcome * option Failure) :=
  if negb (running =? pd_To p)%string then
    let r := if (running =? pd_From p)%string then with_bad (ur_Bad r ++ [pd_To p]) (pd_To p) r else r in
    _ ← ignore (RemoveAll PreviousDir);
    saving Nothing (with_pending None r)
  else if (crashed && (1 <=? pd_Starts p)) || (unconfirmedStarts <=? pd_Starts p) then
    restored ← try restore;
    match restored with
    | inl err => mret (Counted, Some err)
    | inr _ =>
        saved ← try (save (with_pending None (with_bad (ur_Bad r ++ [pd_To p]) (pd_To p) r)));
        match saved with
        | inl err => mret (RolledBack, Some err)
        | inr _ => _ ← ignore (RemoveAll PreviousDir); mret (RolledBack, None)
        end
    end
  else saving Counted (with_pending (Some (mkPending (pd_From p) (pd_To p) (pd_Phase p) (pd_Starts p + 1))) r).

Lemma applied_start running crashed c p r d :
  Inv known d -> bin d daemonName = Some (Regular c) -> version_of c = running ->
  (exists R, R ∈ known /\ version R = pd_To p /\ holds R d) -> pending_of d = Some p -> pd_Phase p = phaseApplied ->
  ((crashed && (1 <=? pd_Starts p)) || (unconfirmedStarts <=? pd_Starts p) = true -> ~ disturbed) ->
  wp (start_applied running crashed p r) (started running d) (fun _ _ => False) (fun d' => Inv known d' /\ disturbed) d.
Proof.
  intros Hinv Hc Hv (RT & HRT & Ht & HhT) Hp Hph Hdue. pose proof Hinv as (Hb & Hprev & _).
  assert (running = pd_To p) as -> by (rewrite <- Ht; symmetry; by eapply holds_version).
  unfold start_applied. rewrite String.eqb_refl. cbn [negb].
  destruct ((crashed && (1 <=? pd_Starts p)) || (unconfirmedStarts <=? pd_Starts p)).
  - specialize (Hdue eq_refl). apply fs_bind, fs_try. destruct Hprev as [Hnone|(RP & HRP & HhP)].
    + eapply fs_mono; [by apply restore_nothing|done| |by intros ? [_ ?]].
      intros e d1 A. apply fs_ret. split_and!; [by apply (Inv_aside d)|by intros _; apply A; set_solver|].
      intros _. exists RT. split_and!; [done| |done]. intros name Hn. rewrite (proj2 A) by done. by apply HhT.
    + eapply fs_mono; [by apply restore_spec| | |by intros ? [_ ?]].
      2: { intros e d1 (i & _ & _ & [?|(name & Hn & Hno)]); [done|]. exfalso. apply Hno. rewrite HhP by done. by apply program_keepable. }
      intros [] d1 Hput. pose proof (restore_holds _ _ _ HhP Hput) as Hh1. pose proof (proj1 (proj1 Hput)) as F1.
      apply fs_bind, fs_try. eapply fs_mono; [apply save_spec|..]; [|by intros ? ? [_ ?]|by intros ? [_ ?]].
      intros [] d2 ->. apply fs_bind, fs_ignore.
      assert (forall d', dk_record d' = Some (Readable (as_saved (with_pending None (with_bad (ur_Bad r ++ [pd_To p]) (pd_To p) r)))) ->
        dk_dirs d' !! BinDir = dk_dirs d1 !! BinDir -> prev_ok known d' ->
        started (pd_To p) d (RolledBack, None) d') as Hend.
      { intros d' E1 E2 Hprev'. split_and!; [|done|].
        - apply (idle_Inv version_of known RP); [rewrite E2; apply F1|done| |done|by eapply holds_bin].
          unfold pending_of, loaded. by rewrite E1.
        - intros _. exists RP. split_and!; [done|by eapply holds_bin|done]. }
      eapply fs_mono; [by apply RemoveAll_spec| | |by intros ? [_ ?]].
      * intros [] d3 ->. apply fs_ret. apply Hend; [done| |left; apply lookup_delete_eq]. cbn. by rewrite lookup_delete_ne.
      * by intros e d3 [_ ?].
  - eapply fs_mono; [apply saving_spec| |done|by intros ? [-> ?]].
    intros x d' [_ [->|[-> ?]]]; (split_and!; [|done|]).
    + split; [done|]. split; [done|]. rewrite pending_recording. unfold known_phase. cbn [ur_Pending with_pending pd_Phase].
      rewrite Hph. cbn. by exists RT.
    + intros _. by exists RT.
    + done.
    + intros ?. done.
Qed.

Lemma AtStart_spec running crashed c d :
  Inv known d -> bin d daemonName = Some (Regular c) -> version_of c = running ->
  (rollback_due d crashed = true -> ~ disturbed) ->
  wp (AtStart running crashed) (started running d) (fun _ _ => False) (fun d' => Inv known d' /\ disturbed) d.
Proof.
  intros Hinv Hc Hv Hdue. pose proof Hinv as (Hb & Hprev & Hst).
  apply fs_bind. eapply fs_mono; [apply load_spec| |done|by intros ? [-> ?]].
  intros r d1 [-> Hr].
  destruct Hr as [->|[Hd ->]]; [|apply fs_ret; by split_and!].
  rewrite pending_loaded. destruct (pending_of d) as [p|] eqn:Hp.
  2: { apply fs_ret. split_and!; [done|done|]. intros _. destruct Hst as (R & HR & HhR). exists R. split_and!; [done..|].
       intros _. by eapply holds_version. }
  destruct (String.eqb_spec (pd_Phase p) phaseSwapping) as [Hph|Hph].
  - by apply (swapping_start running c p).
  - destruct (pending_phase _ _ Hp) as [?|Hap]; [done|]. unfold rollback_due in Hdue. rewrite Hp in Hdue.
    apply (applied_start running crashed c p); [done..|]. intros Htrue. apply Hdue. rewrite Htrue.
    by destruct (String.eqb_spec (pd_Phase p) phaseSwapping).
Qed.
End starts.
