(* ===== verification/UpdateRuns.v ===== *)
(** The daemon's updates over whole lives of a machine: which release is chosen (daemon/internal/updater/choose.go),
    and what every sequence of installations, starts, failures and losses of power leaves of the programs. *)
From S2P Require Import Prelude GoStd Utf8 GatewayProto GatewayVersion UpdateInstall UpdateSafe.

(** ** Choosing (choose.go) *)

Record Listed := mkListed { ls_Tag : string; ls_Version : Version }.
Record Policy := mkPolicy {
  po_Current : Version; po_Instance : string; po_SignedIn : bool; po_Prereleases : bool; po_Bad : list string
}.

Definition release_of (v : Version) : Version := mkVersion (Major v) (Minor v) (Patch v) "".

Definition talksToInstance (p : Policy) (candidate : Version) : bool :=
  match ParseVersion (po_Instance p) with
  | Some instance => Compatible (Check_versions (Version_String instance) (Version_String candidate))
  | None =>
      if po_SignedIn p && (po_Instance p =? "")%string then false
      else Compatible (Check_versions (Version_String (release_of (po_Current p))) (Version_String (release_of candidate)))
  end.

(** [strings.EqualFold], on the letters a version can have. *)
Definition EqualFold (a b : string) : bool :=
  bool_decide (fold_case <$> String.list_ascii_of_string a = fold_case <$> String.list_ascii_of_string b).

Definition knownBad (p : Policy) (v : Version) : bool := existsb (fun bad => EqualFold bad (Version_String v)) (po_Bad p).

(** What the loop passes over with [continue]. *)
Definition passes (p : Policy) (r : Listed) : bool :=
  negb (negb (Pre (ls_Version r) =? "")%string && negb (po_Prereleases p)) &&
  negb (Version_Compare (ls_Version r) (po_Current p) <=? 0) &&
  negb (negb (talksToInstance p (ls_Version r)) || knownBad p (ls_Version r)).

Definition choose_step (p : Policy) (best : option Listed) (r : Listed) : option Listed :=
  if passes p r then
    match best with
    | None => Some r
    | Some b => if 0 <? Version_Compare (ls_Version r) (ls_Version b) then Some r else best
    end
  else best.

Definition Choose (p : Policy) (releases : list Listed) : option Listed := foldl (choose_step p) None releases.

Definition reachable (current instance : Version) : bool :=
  if negb (Pre instance =? "")%string then 0 <? Version_Compare instance current
  else if negb (Major current =? Major instance) then Major current <? Major instance
  else Minor current <=? Minor instance.

(** The releases the comment of [Choose] lets through, said of versions. *)
Definition allowed (p : Policy) (v : Version) : Prop :=
  (Pre v = "" \/ po_Prereleases p = true) /\ 0 < Version_Compare v (po_Current p) /\ talksToInstance p v = true /\
  forall bad, bad ∈ po_Bad p -> EqualFold bad (Version_String v) = false.

Lemma passes_allowed p r : passes p r = true <-> allowed p (ls_Version r).
Proof.
  unfold passes, allowed, knownBad. rewrite !andb_true_iff, !negb_true_iff, andb_false_iff, !negb_false_iff, orb_false_iff,
    negb_false_iff, existsb_false, Z.leb_gt, String.eqb_eq. naive_solver.
Qed.

Lemma Choose_fold p rs best :
  (forall b, best = Some b -> passes p b = true) ->
  match foldl (choose_step p) best rs with
  | Some r => (r ∈ rs \/ best = Some r) /\ passes p r = true /\
      (forall b, best = Some b -> Version_Compare (ls_Version b) (ls_Version r) <= 0) /\
      forall r', r' ∈ rs -> passes p r' = true -> Version_Compare (ls_Version r') (ls_Version r) <= 0
  | None => best = None /\ forall r', r' ∈ rs -> passes p r' = false
  end.
Proof.
  assert (forall v, Version_Compare v v = 0) as Hrefl by (intros v; by apply (Compare_total_order v v v)).
  revert best. induction rs as [|r rs IH]; intros best Hbest; cbn [foldl].
  { destruct best as [b|]; [|split; [done|]; by intros ? ?%not_elem_of_nil].
    split; [by right|]. split; [by apply Hbest|]. split; [intros ? [= ->]; by rewrite Hrefl|]. by intros ? ?%not_elem_of_nil. }
  assert (forall b, choose_step p best r = Some b -> passes p b = true /\ (b = r \/ best = Some b)) as Hstep.
  { unfold choose_step. intros b. destruct (passes p r) eqn:E; [|intros ->; split; [by apply Hbest|by right]].
    destruct best as [b0|]; [|intros [= ->]; auto]. destruct (0 <? _); intros [= ->]; auto. }
  specialize (IH (choose_step p best r) (fun b H => proj1 (Hstep b H))).
  destruct (foldl _ (choose_step p best r) rs) as [x|].
  - destruct IH as (Hin & Hx & Hb & Hmax).
    assert (forall y, (y = r /\ passes p r = true \/ best = Some y) -> Version_Compare (ls_Version y) (ls_Version x) <= 0) as Hle.
    { assert (forall u v w, Version_Compare u v <= 0 -> Version_Compare v w <= 0 -> Version_Compare u w <= 0) as Htrans.
      { intros u v w H1 H2. destruct (Compare_total_order u v w) as (Z1 & _ & T), (Compare_total_order v w u) as (Z2 & _ & _).
        destruct (Z.eq_dec (Version_Compare u v) 0) as [E|]; [apply Z1 in E as ->; done|].
        destruct (Z.eq_dec (Version_Compare v w) 0) as [E|]; [apply Z2 in E as <-; lia|]. pose proof (T ltac:(lia) ltac:(lia)). lia. }
      unfold choose_step in Hb. intros y Hy. destruct (passes p r) eqn:E.
      - destruct best as [b0|]; [|destruct Hy as [[-> _]|]; [by apply Hb|done]].
        destruct (Z.ltb_spec 0 (Version_Compare (ls_Version r) (ls_Version b0))) as [Hlt|Hge].
        + specialize (Hb r eq_refl). destruct Hy as [[-> _]|[= ->]]; [done|]. eapply Htrans; [|exact Hb].
          destruct (Compare_total_order (ls_Version y) (ls_Version r) (ls_Version r)) as (_ & Hn & _). apply Hn in Hlt. lia.
        + specialize (Hb b0 eq_refl). destruct Hy as [[-> _]|[= ->]]; [|done]. by eapply Htrans.
      - destruct Hy as [[_ ?]|Hy]; [done|]. by apply Hb. }
    split; [|split; [done|split]].
    + destruct Hin as [?|Hs]; [left; by right|]. apply Hstep in Hs as [_ [->|?]]; [left; by left|by right].
    + intros b Hbb. apply Hle. by right.
    + intros r' [->|Hr']%elem_of_cons Hp; [apply Hle; by left|by apply Hmax].
  - destruct IH as [Hnone Hall]. unfold choose_step in Hnone. destruct (passes p r) eqn:E.
    + destruct best; [by destruct (0 <? _)|done].
    + split; [done|]. intros r' [->|Hr']%elem_of_cons; [done|by apply Hall].
Qed.

(** A version that was read from a text. *)
Definition parsed (v : Version) : Prop := exists s, ParseVersion s = Some v.

Lemma isDev_printed v : isDev (Version_String v) = false.
Proof.
  unfold isDev. apply bool_decide_eq_false_2. unfold Version_String.
  pose proof (FormatUint_numeric (Major v)) as Hn. pose proof (FormatUint_digits (Major v)) as Hd.
  destruct (FormatUint (Major v)) as [|c s]; [done|]. rewrite all_chars_cons, andb_true_iff in Hd.
  destruct Hd as [Hc _]. cbn. intros [= E _]. by destruct c as [[] [] [] [] [] [] [] []].
Qed.

Lemma Check_printed i v :
  parsed i -> parsed v -> Compatible (Check_versions (Version_String i) (Version_String v)) = true <-> may_talk i v.
Proof.
  intros (s & Hi) (t & Hv). apply (Check_parsed (Version_String i) (Version_String v) i v);
    [apply isDev_printed..|by eapply version_print_parse|by eapply version_print_parse].
Qed.

Lemma reachable_complete current instance v :
  may_talk instance v -> 0 < Version_Compare v current -> reachable current instance = true.
Proof.
  intros Hm Hv. unfold reachable.
  destruct (String.eqb_spec (Pre instance) ""); cbn [negb].
  2: { destruct Hm as [->|(? & _)]; [by apply Z.ltb_lt|done]. }
  rewrite Compare_split in Hv. pose proof (cores_cases v current) as Hc.
  assert (0 <= cores v current) as H0 by (destruct (Z.eqb_spec (cores v current) 0); lia).
  destruct (Z.eqb_spec (Major current) (Major instance)); cbn [negb].
  - apply Z.leb_le. destruct Hm as [->|(_ & _ & ? & [[? ?]|[? [? ?]]])]; lia.
  - apply Z.ltb_lt. destruct Hm as [->|(_ & _ & ? & [[? ?]|[? [? ?]]])]; lia.
Qed.

(** C40: The release an installation moves to is the best it may. What [Choose] returns is listed, passes every
    rule (of its channel, newer than what runs, a version the instance talks to, not one rolled back from) and
    no other that does is newer; it returns none only when none passes; with an instance heard from, what it
    returns is what that instance's handshake accepts; and where [reachable] says no, nothing would have been
    chosen from any listing, so that the listing need not be read. *)
Theorem Choose_best p rs :
  match Choose p rs with
  | Some r => r ∈ rs /\ allowed p (ls_Version r) /\
      (forall r', r' ∈ rs -> allowed p (ls_Version r') -> Version_Compare (ls_Version r') (ls_Version r) <= 0) /\
      forall i, ParseVersion (po_Instance p) = Some i -> parsed (ls_Version r) ->
        may_talk i (ls_Version r) /\ reachable (po_Current p) i = true
  | None => forall r, r ∈ rs -> ~ allowed p (ls_Version r)
  end.
Proof.
  pose proof (Choose_fold p rs None ltac:(done)) as H. unfold Choose. destruct (foldl _ None rs) as [r|].
  - destruct H as ([Hin|?] & Hp & _ & Hmax); [|done]. apply passes_allowed in Hp. split_and!; [done|done| |].
    + intros r' Hr' Ha. apply Hmax; [done|]. by apply passes_allowed.
    + intros i Hi Hv. destruct Hp as (_ & Hnew & Htalk & _). unfold talksToInstance in Htalk. rewrite Hi in Htalk.
      apply Check_printed in Htalk; [|by eexists|done]. split; [done|]. by eapply reachable_complete.
  - intros r Hr Ha%passes_allowed. destruct H as [_ H]. by rewrite H in Ha.
Qed.

(** ** A machine and its lives *)

Section machine.
(** What a daemon's program says its version is, and an error's text. *)
Context (version_of : string -> string) (said : Failure -> string).
#[local] Abbreviation version := (version version_of).
#[local] Abbreviation Inv := (Inv version_of).

(** What is on disk, and the version that runs. *)
Record Machine := mkMachine { mc_disk : Disk; mc_running : option string }.

(** The staging directory holds what the stager verified, unpacked and ran once. *)
Definition unpack (R : Release) : gmap string Node :=
  <[cliName := Regular (rl_CLI R)]> (<[daemonName := Regular (rl_Daemon R)]>
    match rl_Worker R with Some w => {[workerName := Regular w]} | None => ∅ end).
Definition stage (R : Release) (d : Disk) : Disk := set_dir StagedDir (unpack R) d.

Inductive UpdateStep :=
| USStart (crashed : bool) (evs : list Happening)
| USConfirm (evs : list Happening)
| USNote (lastCheck : Z) (available lastError mode channel : string) (evs : list Happening)
| USFinish (staged : option Release) (applying stopped again : bool) (evs : list Happening)
| USPower.

(** What [check], [failed], [SetMode] and [SetChannel] record. *)
Definition noted (lastCheck : Z) (available lastError mode channel : string) (r : URecord) : URecord :=
  mkURecord (ur_Pending r) (ur_Bad r) (ur_RolledBack r) lastCheck available lastError mode channel (ur_unreadable r).

(** Of a program with an answer, an error or none: the machine goes on, or it is off. *)
Definition after {A} (m : FS A) (w : Machine) (k : A -> option string) (evs : list Happening) (d : Disk) : Machine :=
  match m (d, evs) with
  | (Done a, (d', _)) => mkMachine d' (k a)
  | (Err _, (d', _)) => mkMachine d' (mc_running w)
  | (Off, (d', _)) => mkMachine d' None
  end.

(** One daemon runs at a time; it is the program that has the daemon's name. A run that has ended leaves nothing
    running: what it is followed by is another start. *)
Definition update_step (s : UpdateStep) (w : Machine) : Machine :=
  match s, mc_running w with
  | USStart crashed evs, None =>
      match bin (mc_disk w) daemonName with
      | Some (Regular c) =>
          after (Updater_AtStart (version_of c) crashed) w
            (fun again : bool => if again then None else Some (version_of c)) evs (mc_disk w)
      | _ => w
      end
  | USConfirm evs, Some v => after Confirm w (fun _ => Some v) evs (mc_disk w)
  | USNote lastCheck available lastError mode channel evs, Some v =>
      after (Update (noted lastCheck available lastError mode channel)) w (fun _ => Some v) evs (mc_disk w)
  | USFinish staged applying stopped again evs, Some v =>
      let d := match staged with Some R => stage R (mc_disk w) | None => mc_disk w end in
      after (Finish said (staged_of version_of <$> staged) applying "" v stopped again) w (fun _ => None) evs d
  | USPower, _ => mkMachine (mc_disk w) None
  | _, _ => w
  end.

Definition update_run (h : list UpdateStep) (w : Machine) : Machine := foldl (fun w s => update_step s w) w h.

(** The releases installed along a history. *)
Definition releases (h : list UpdateStep) : list Release :=
  h ≫= fun s => match s with USFinish (Some R) _ _ _ _ => [R] | _ => [] end.

(** ** What the theorems ask of a history *)

(** A directory whose removal is interrupted is still whole. *)
Definition whole_removals (e : Happening) : Prop :=
  match e with Goes => True | Fails t | Stops t => tn_removed t = [] end.
#[local] Instance whole_removals_dec e : Decision (whole_removals e).
Proof. destruct e; simpl; apply _. Defined.

Definition goes (e : Happening) : Prop := e = Goes.
#[local] Instance goes_dec e : Decision (goes e).
Proof. destruct e; [by left|by right..]. Defined.

(** Anything may fail and the power may go at any moment, but: removing a directory is all or nothing; a release
    that did not stay up is put back undisturbed; and a release is installed over a pair that is whole, of
    another version than its own. Of the first three, a run at the end shows what doing without it
    can do. *)
Definition orderly (s : UpdateStep) (w : Machine) : Prop :=
  match s with
  | USStart crashed evs =>
      Forall whole_removals evs /\ (rollback_due (mc_disk w) crashed = true -> Forall goes evs)
  | USConfirm evs | USNote _ _ _ _ _ evs => Forall whole_removals evs
  | USFinish staged _ _ _ evs =>
      Forall whole_removals evs /\
      match staged with
      | Some R =>
          mc_running w <> Some (version R) /\
          match pending_of (mc_disk w) with Some p => pd_Phase p <> phaseSwapping | None => True end
      | None => True
      end
  | USPower => True
  end.
#[export] Instance orderly_dec s w : Decision (orderly s w).
Proof.
  destruct s as [crashed evs|evs|? ? ? ? ? evs|staged ? ? ? evs|]; simpl; try apply _.
  apply and_dec; [apply _|]. destruct staged; [|apply _]. apply and_dec; [apply _|].
  destruct (pending_of (mc_disk w)); apply _.
Defined.

Fixpoint orderly_run (h : list UpdateStep) (w : Machine) : Prop :=
  match h with
  | [] => True
  | s :: h => orderly s w /\ orderly_run h (update_step s w)
  end.
#[export] Instance orderly_run_dec h w : Decision (orderly_run h w).
Proof. revert w. induction h as [|s h IH]; intros w; simpl; apply _. Defined.

(** ** The invariant through every step *)

Lemma whole_removals_calm t : whole_removals (Fails t) \/ whole_removals (Stops t) -> tn_removed t = [].
Proof. by intros [?|?]. Qed.
Lemma goes_calm t : goes (Fails t) \/ goes (Stops t) -> tn_removed t = [].
Proof. by intros [?|?]. Qed.

Section ops.
Context (ok : Happening -> Prop) (Hcalm : forall t, ok (Fails t) \/ ok (Stops t) -> tn_removed t = []).
Context (known : list Release).
#[local] Abbreviation wp := (wp ok).

(** Writing a record that says the same of what is pending. *)
Lemma Inv_rerecord r d : ur_Pending r = pending_of d -> Inv known d -> Inv known (recording (as_saved r) d).
Proof.
  intros Hr (Hb & Hprev & H). split; [done|]. split; [done|]. rewrite pending_recording.
  assert (ur_Pending (known_phase r) = pending_of d) as ->; [|done].
  unfold known_phase. rewrite Hr. destruct (pending_of d) as [p|] eqn:Hp; [|done].
  by destruct (pending_phase _ _ Hp) as [-> | ->].
Qed.

Lemma load_or_unreadable d (Q : URecord -> Disk -> Prop) E C :
  Q (loaded d) d -> Q (no_record true) d -> C d -> wp load Q E C d.
Proof.
  intros H1 H2 H3. eapply fs_mono; [apply load_spec| |done|by intros ? [-> _]].
  intros r d' [-> [->|[_ ->]]]; done.
Qed.

Lemma Update_spec change d :
  (forall r, ur_Pending (change r) = ur_Pending r) -> Inv known d ->
  wp (Update change) (fun _ d' => Inv known d' /\ dk_dirs d' = dk_dirs d) (fun _ d' => Inv known d' /\ dk_dirs d' = dk_dirs d)
    (Inv known) d.
Proof.
  intros Hch Hinv. apply fs_bind, load_or_unreadable; [|by apply fs_fail|done].
  destruct (ur_unreadable (loaded d)); [by apply fs_fail|].
  eapply fs_mono; [apply save_spec|..]; [|by intros ? ? [-> _]|by intros ? [-> _]].
  intros [] d' ->. split; [|done]. apply Inv_rerecord; [by rewrite Hch|done].
Qed.

(** What a confirmation and a clean exit touch of the disk: never the programs. *)
Lemma Confirm_spec d :
  Inv known d ->
  wp Confirm (fun _ d' => Inv known d' /\ dk_dirs d' !! BinDir = dk_dirs d !! BinDir)
    (fun _ d' => Inv known d' /\ dk_dirs d' !! BinDir = dk_dirs d !! BinDir) (Inv known) d.
Proof.
  intros Hinv. apply fs_bind, load_or_unreadable; [|by apply fs_ret|done].
  rewrite pending_loaded. destruct (pending_of d) as [p|] eqn:Hp; [|by apply fs_ret].
  destruct (ur_unreadable _ || _) eqn:Hcase; [by apply fs_ret|].
  apply orb_false_iff in Hcase as [_ Hph%negb_false_iff%String.eqb_eq].
  pose proof Hinv as (Hb & Hprev & H). rewrite Hp, Hph in H. cbn in H. destruct H as (R & HR & Ht & HhR).
  assert (Inv known (without_previous d)) as Hinv2.
  { split; [by rewrite without_bin|]. split; [left; apply without_kept|].
    change (pending_of (without_previous d)) with (pending_of d). rewrite Hp, Hph. cbn. exists R.
    split_and!; [done..|]. eapply holds_bin; [apply without_bin|done]. }
  assert (forall d1, Inv known d1 -> dk_dirs d1 !! BinDir = dk_dirs d !! BinDir ->
    wp (save (with_pending None (loaded d))) (fun _ d' => Inv known d' /\ dk_dirs d' !! BinDir = dk_dirs d !! BinDir)
      (fun _ d' => Inv known d' /\ dk_dirs d' !! BinDir = dk_dirs d !! BinDir) (Inv known) d1) as Hsave.
  { intros d1 Hinv1 Hbin. eapply fs_mono; [apply save_spec|..]; [|by intros ? ? [-> _]|by intros ? [-> _]].
    intros [] d' ->. split; [|done]. apply (idle_Inv version_of known R); [apply Hinv1|apply Hinv1| |done|].
    - by rewrite pending_recording.
    - by eapply holds_bin. }
  apply fs_bind, fs_ignore. eapply fs_mono; [by apply RemoveAll_spec|..].
  - intros [] d1 ->. apply Hsave; [done|apply without_bin].
  - intros e d1 [-> _]. by apply Hsave.
  - by intros d1 [-> _].
Qed.

Lemma CleanExit_spec d :
  Inv known d -> wp CleanExit (fun _ => Inv known) (fun _ _ => False) (Inv known) d.
Proof.
  intros Hinv. apply fs_bind, load_or_unreadable; [|by apply fs_ret|done].
  rewrite pending_loaded. destruct (pending_of d) as [p|] eqn:Hp; [|by apply fs_ret].
  destruct (_ && _) eqn:Hcase; [|by apply fs_ret].
  apply andb_true_iff in Hcase as [[_ Hph%String.eqb_eq]%andb_true_iff _].
  apply fs_ignore. eapply fs_mono; [apply save_spec|..]; [|by intros ? ? [-> _]|by intros ? [-> _]].
  intros [] d' ->. pose proof Hinv as (Hb & Hprev & H). rewrite Hp, Hph in H.
  split; [done|]. split; [done|]. rewrite pending_recording. unfold known_phase. cbn [ur_Pending with_pending pd_Phase].
  rewrite Hph. exact H.
Qed.
End ops.

Lemma stage_same R d : same d (stage R d).
Proof. split; [done|..]; unfold stage, set_dir; cbn; by rewrite lookup_insert_ne. Qed.
Lemma unpack_program R name : name ∈ programs -> unpack R !! name = program R name.
Proof.
  unfold programs, unpack, program. intros Hn.
  repeat (apply elem_of_cons in Hn as [->|Hn]); [..|by apply not_elem_of_nil in Hn].
  - by rewrite lookup_insert_eq.
  - rewrite !lookup_insert_ne by done. cbn. by destruct (rl_Worker R).
  - by rewrite lookup_insert_ne, lookup_insert_eq.
Qed.
Lemma stage_unpacked R d : unpacked R (stage R d).
Proof.
  intros name Hn. rewrite <- unpack_program by done. unfold node, stage, set_dir. cbn [dk_dirs fst snd].
  by rewrite lookup_insert_eq.
Qed.

(** The version running is the one whose program has the daemon's name. *)
Definition runs_its_own (w : Machine) : Prop :=
  forall v, mc_running w = Some v -> exists c, bin (mc_disk w) daemonName = Some (Regular c) /\ version_of c = v.

Lemma Finish_spec known staged applying v stopped again d :
  Inv known d -> (exists c, bin d daemonName = Some (Regular c) /\ version_of c = v) ->
  (forall R, staged = Some R -> R ∈ known /\ version R <> v /\ unpacked R d /\
     forall p, pending_of d = Some p -> pd_Phase p <> phaseSwapping) ->
  wp whole_removals (Finish said (staged_of version_of <$> staged) applying "" v stopped again)
    (fun _ => Inv known) (fun _ _ => False) (Inv known) d.
Proof.
  intros Hinv (c & Hc & Hv) Hst. pose proof whole_removals_calm as Hcalm.
  assert (forall (b : bool), wp whole_removals (_ ← CleanExit; mret b) (fun _ => Inv known) (fun _ _ => False) (Inv known) d) as Hclean.
  { intros b. apply fs_bind. eapply fs_mono; [by apply CleanExit_spec| |done|done]. intros [] d' ?. by apply fs_ret. }
  unfold Finish. cbn [String.eqb negb]. destruct staged as [R|]; cbn [fmap option_fmap option_map]; [|apply Hclean].
  destruct applying; cbn [negb]; [|apply Hclean]. destruct stopped; [apply Hclean|].
  destruct (Hst R eq_refl) as (HR & Hne & Hun & Hns).
  assert (exists RF, RF ∈ known /\ holds RF d /\ version RF = v) as (RF & HRF & HhF & HvF).
  { pose proof Hinv as (_ & _ & H). destruct (pending_of d) as [p|] eqn:Hp.
    - destruct (String.eqb_spec (pd_Phase p) phaseSwapping); [by destruct (Hns p)|]. destruct H as (RF & ? & _ & ?).
      exists RF. split_and!; [done..|]. by eapply holds_version.
    - destruct H as (RF & ? & ?). exists RF. split_and!; [done..|]. by eapply holds_version. }
  apply fs_bind, fs_try. rewrite <- HvF.
  eapply fs_mono; [eapply (Install_spec _ Hcalm version_of known RF R); [done|done|congruence|done|exact Hns|done|done]| | |].
  - intros [] d' (? & _). by apply fs_ret.
  - intros e d' [? _]. apply fs_bind, fs_ignore.
    eapply fs_mono; [by apply (Update_spec whole_removals known)|..]; [intros [] d2 [? _]; by apply fs_ret|intros e2 d2 [? _]; by apply fs_ret|done].
  - by intros d' [? _].
Qed.

Lemma after_wp {A} ok (m : FS A) w k evs d Q E (C : Disk -> Prop) (P : Machine -> Prop) :
  wp ok m Q E C d -> Forall ok evs ->
  (forall a d', Q a d' -> P (mkMachine d' (k a))) -> (forall e d', E e d' -> P (mkMachine d' (mc_running w))) ->
  (forall d', C d' -> P (mkMachine d' None)) -> P (after m w k evs d).
Proof.
  intros H Hok HQ HE HC. specialize (H evs Hok). unfold after.
  destruct (m (d, evs)) as [[a|e|] [d' evs']]; [apply HQ, H|eapply HE, H|by apply HC].
Qed.

Lemma bin_same d d' name : dk_dirs d' !! BinDir = dk_dirs d !! BinDir -> bin d' name = bin d name.
Proof. intros E. unfold bin, node. cbn. by rewrite E. Qed.

Definition releases_of (s : UpdateStep) : list Release :=
  match s with USFinish (Some R) _ _ _ _ => [R] | _ => [] end.

Lemma update_step_ok known s w :
  Inv known (mc_disk w) -> runs_its_own w -> orderly s w ->
  Inv (known ++ releases_of s) (mc_disk (update_step s w)) /\ runs_its_own (update_step s w).
Proof.
  intros Hinv Hruns Hord. pose proof whole_removals_calm as Hcalm.
  assert (Inv (known ++ releases_of s) (mc_disk w)) as Hinv' by (eapply Inv_mono; [|done]; set_solver).
  assert (forall known d, Inv known d -> Inv known (mc_disk (mkMachine d None)) /\ runs_its_own (mkMachine d None)) as Hdown.
  { intros k d ?. split; [done|]. by intros v. }
  destruct s as [crashed evs|evs|lc av le mo ch evs|staged ap st ag evs|]; cbn [releases_of] in *; rewrite ?app_nil_r in *.
  - unfold update_step. destruct (mc_running w); [done|]. destruct (bin _ _) as [[c|]|] eqn:Hc; [|done..].
    destruct Hord as [Hev Hdue].
    assert (exists ok, (forall t, ok (Fails t) \/ ok (Stops t) -> tn_removed t = []) /\ Forall ok evs /\
      (rollback_due (mc_disk w) crashed = true -> ~ disturbed ok)) as (ok & Hok1 & Hok2 & Hok3).
    { destruct (rollback_due (mc_disk w) crashed).
      - exists goes. split_and!; [apply goes_calm|by apply Hdue|]. intros _. apply undisturbed.
      - exists whole_removals. by split_and!. }
    eapply (after_wp ok _ _ _ _ _ (fun again d' => Inv known d' /\ (again = false -> bin d' daemonName = bin (mc_disk w) daemonName))
              (fun _ _ => False) (Inv known)); [|done|..].
    + apply fs_bind. eapply fs_mono; [by eapply (AtStart_spec ok Hok1 version_of known)| |done|by intros ? [? _]].
      intros [o err] d' (Hi & Hbin & _). apply fs_ret. split; [done|]. intros Ho. apply Hbin. cbn. by intros ->.
    + intros again d' [Hi Hbin]. cbn. split; [done|]. intros v. destruct again; [done|]. intros [= <-].
      exists c. split; [|done]. cbn. rewrite <- Hc. by apply Hbin.
    + done.
    + intros d' ?. by apply Hdown.
  - unfold update_step. destruct (mc_running w) as [v|] eqn:Hv; [|done].
    assert (forall d', Inv known d' /\ dk_dirs d' !! BinDir = dk_dirs (mc_disk w) !! BinDir ->
      Inv known (mc_disk (mkMachine d' (Some v))) /\ runs_its_own (mkMachine d' (Some v))) as Hup.
    { intros d' [? E]. split; [done|]. intros v' [= <-]. cbn. rewrite (bin_same _ _ _ E). by apply Hruns. }
    eapply (after_wp whole_removals); [by apply (Confirm_spec _ Hcalm known)|done|..].
    + intros [] d' Hd'. by apply Hup.
    + intros e d' Hd'. rewrite Hv. by apply Hup.
    + intros d' ?. by apply Hdown.
  - unfold update_step. destruct (mc_running w) as [v|] eqn:Hv; [|done].
    assert (forall d', Inv known d' /\ dk_dirs d' = dk_dirs (mc_disk w) ->
      Inv known (mc_disk (mkMachine d' (Some v))) /\ runs_its_own (mkMachine d' (Some v))) as Hup.
    { intros d' [? E]. split; [done|]. intros v' [= <-]. cbn. rewrite (bin_same (mc_disk w)) by by rewrite E. by apply Hruns. }
    eapply (after_wp whole_removals); [by apply (Update_spec _ known)|done|..].
    + intros [] d' Hd'. by apply Hup.
    + intros e d' Hd'. rewrite Hv. by apply Hup.
    + intros d' ?. by apply Hdown.
  - unfold update_step. destruct (mc_running w) as [v|] eqn:Hv; [|done].
    set (d := match staged with Some R => stage R (mc_disk w) | None => mc_disk w end).
    assert (same (mc_disk w) d) as Hsame by (unfold d; destruct staged; [apply stage_same|done]).
    destruct Hord as [Hev Hord].
    set (known' := known ++ match staged with Some R => [R] | None => [] end) in *.
    assert (Inv known' d) as Hd by by eapply Inv_same.
    eapply (after_wp whole_removals).
    + apply (Finish_spec known' staged ap v st ag d Hd).
      * rewrite (bin_same _ _ _ (sa_bin _ _ Hsame)). by apply Hruns.
      * intros R ->. destruct Hord as [Hne Hns]. split_and!; [unfold known'; set_solver|congruence|apply stage_unpacked|].
        intros p Hp. assert (pending_of (mc_disk w) = Some p) as Hp'.
        { rewrite <- Hp. unfold pending_of, loaded. by rewrite (sa_record _ _ Hsame). }
        by rewrite Hp' in Hns.
    + done.
    + intros [] d' ?; by apply Hdown.
    + done.
    + intros d' ?. by apply Hdown.
  - by apply Hdown.
Qed.

(** ** Whole programs *)

Lemma update_run_ok known h w :
  Inv known (mc_disk w) -> runs_its_own w -> orderly_run h w ->
  Inv (known ++ releases h) (mc_disk (update_run h w)) /\ runs_its_own (update_run h w).
Proof.
  revert known w. induction h as [|s h IH]; intros known w Hinv Hruns; cbn [orderly_run update_run foldl releases].
  { rewrite app_nil_r. done. }
  intros [Hs Hh]. destruct (update_step_ok known s w Hinv Hruns Hs) as [Hinv' Hruns'].
  destruct (IH _ _ Hinv' Hruns' Hh) as [Hi Hr]. split; [|done]. eapply Inv_mono; [|exact Hi].
  unfold releases. rewrite bind_cons, (assoc_L (++)). done.
Qed.

(** A machine the installer has been run on. *)
Definition fresh_install (R : Release) : Machine := mkMachine (mkDisk {[BinDir := unpack R]} None) None.

Lemma fresh_holds R : holds R (mc_disk (fresh_install R)).
Proof.
  intros name Hn. rewrite <- unpack_program by done. unfold bin, node. cbn [dk_dirs mc_disk fresh_install fst snd].
  by rewrite lookup_singleton_eq.
Qed.

Lemma fresh_Inv R : Inv [R] (mc_disk (fresh_install R)) /\ runs_its_own (fresh_install R).
Proof.
  split; [|by intros v]. split; [by eexists|]. split; [left; done|]. exists R. split; [set_solver|]. apply fresh_holds.
Qed.

Lemma Inv_programs known d name :
  Inv known d -> name ∈ programs -> exists R, R ∈ known /\ bin d name = program R name.
Proof.
  intros (_ & _ & H) Hn. destruct (pending_of d) as [p|]; [destruct (_ =? _)%string|].
  - destruct H as (_ & RF & RT & ? & ? & _ & _ & [[[_ Hm] _]|[Hh|[Hh _]]]).
    + destruct (Hm name Hn); [by exists RF|by exists RT].
    + exists RT. auto.
    + exists RF. auto.
  - destruct H as (R & ? & _ & ?). exists R. auto.
  - destruct H as (R & ? & ?). exists R. auto.
Qed.

(** C8: Updates leave a whole install, on a file system on which an operation that returned is done for good,
    along any orderly history of starts, confirmations, exits, installations and losses of power after a first
    install. Orderly: any operation may fail and the power go at any of them, except that a version which did not
    stay up is put back undisturbed; removing a directory removes all of it or nothing; a release is installed only
    when no installation is half-way; and only over another version. Then each program is, whole, the one of a
    release that was installed; they are all of one release unless the record says that an installation is half-way;
    and the next start that is left alone makes them all of one release, whose version is the one that then runs.
    (What the first three exceptions can do is run: [half_rollback], [lost_worker], [mixture_kept].) *)
Theorem update_whole R0 h :
  orderly_run h (fresh_install R0) ->
  let w := update_run h (fresh_install R0) in
  let known := R0 :: releases h in
  (forall name, name ∈ programs -> exists R, R ∈ known /\ bin (mc_disk w) name = program R name) /\
  (match pending_of (mc_disk w) with Some p => pd_Phase p <> phaseSwapping | None => True end ->
     exists R, R ∈ known /\ holds R (mc_disk w)) /\
  forall crashed, mc_running w = None ->
    let w' := update_step (USStart crashed []) w in
    exists R, R ∈ known /\ holds R (mc_disk w') /\ forall v, mc_running w' = Some v -> v = version R.
Proof.
  intros Hord w known. destruct (fresh_Inv R0) as [Hinv0 Hruns0].
  destruct (update_run_ok _ _ _ Hinv0 Hruns0 Hord) as [Hinv Hruns]. fold w in Hinv, Hruns.
  change ([R0] ++ releases h) with known in Hinv. split_and!.
  - intros name Hn. by eapply Inv_programs.
  - intros Hp. pose proof Hinv as (_ & _ & H). destruct (pending_of (mc_disk w)) as [p|].
    + destruct (String.eqb_spec (pd_Phase p) phaseSwapping); [done|]. destruct H as (R & ? & _ & ?). by exists R.
    + done.
  - intros crashed Hnone. unfold update_step. rewrite Hnone.
    destruct (Inv_programs _ _ daemonName Hinv ltac:(set_solver)) as (RD & _ & HD).
    unfold program in HD. cbn in HD. rewrite HD.
    apply (after_wp goes _ _ _ _ _ (fun again d' => exists R, R ∈ known /\ holds R d' /\ (again = false -> version R = version RD))
              (fun _ _ => False) (fun _ => False)); [|done|..].
    + apply fs_bind. eapply fs_mono; [eapply (AtStart_spec goes goes_calm version_of known); [done|exact HD|done|]| |done|].
      * intros _. apply undisturbed.
      * intros [o err] d' (_ & _ & Hgood). apply fs_ret. destruct (Hgood undisturbed) as (R & HR & HhR & Hv).
        exists R. split_and!; [done|done|]. intros Ho. apply Hv. cbn. intros ->. done.
      * intros d' [_ ?]. by apply undisturbed.
    + intros again d' (R & HR & HhR & Hv). exists R. split_and!; [done|done|]. intros v. destruct again; [done|].
      intros [= <-]. symmetry. by apply Hv.
    + done.
    + done.
Qed.

(** ** A release that does not stay up *)

Section trial.
Context (R0 RT : Release).
#[local] Abbreviation smooth := (wp goes).

(** The new release is in place and has been started [k] times; the old one is kept. *)
Definition on_trial (k : Z) (d : Disk) : Prop :=
  is_Some (dk_dirs d !! BinDir) /\ holds RT d /\ previous_is R0 d /\
  exists r, dk_record d = Some (Readable r) /\
    ur_Pending r = Some (mkPending (version R0) (version RT) phaseApplied k).

(** The old one is back, and the new one is not offered again. *)
Definition undone (d : Disk) : Prop :=
  is_Some (dk_dirs d !! BinDir) /\ holds R0 d /\
  exists r, dk_record d = Some (Readable r) /\ ur_Pending r = None /\ version RT ∈ ur_Bad r /\ ur_RolledBack r = version RT.

Lemma smooth_load d Q E C : Q (loaded d) d -> smooth load Q E C d.
Proof.
  intros H. eapply fs_mono; [apply load_spec| |done|intros ? [_ ?]; by destruct undisturbed].
  intros r d' [-> [->|[? _]]]; [done|by destruct undisturbed].
Qed.

Lemma loaded_applied r d k f t :
  dk_record d = Some (Readable r) -> ur_Pending r = Some (mkPending f t phaseApplied k) -> loaded d = r.
Proof. intros Hr Hp. unfold loaded, known_phase. by rewrite Hr, Hp. Qed.

Lemma last_saved_bad r x :
  x ∈ ur_Bad (as_saved (with_pending None (with_bad (ur_Bad r ++ [x]) x r))).
Proof.
  cbn [as_saved with_pending with_bad ur_Bad]. rewrite length_app. cbn [length].
  rewrite drop_app_le by (unfold maxBad; lia). apply elem_of_app. right. by left.
Qed.

(** Its starts are counted, and the one too many puts the old release back. *)
Lemma trial_AtStart k crashed d :
  on_trial k d ->
  smooth (AtStart (version RT) crashed)
    (fun x d' => if (crashed && (1 <=? k)) || (unconfirmedStarts <=? k) then x.1 = RolledBack /\ undone d'
                 else x.1 = Counted /\ on_trial (k + 1) d') (fun _ _ => False) (fun _ => False) d.
Proof.
  intros (Hb & Hh & Hprev & r & Hr & Hp). pose proof (loaded_applied _ _ _ _ _ Hr Hp) as Hl.
  apply fs_bind, smooth_load. rewrite Hl, Hp. cbn [pd_Phase]. change (phaseApplied =? phaseSwapping)%string with false.
  cbn [pd_To pd_From pd_Starts]. rewrite String.eqb_refl. cbn [negb].
  destruct ((crashed && (1 <=? k)) || (unconfirmedStarts <=? k)).
  - apply fs_bind, fs_try. eapply fs_mono; [by apply restore_spec| | |intros ? [_ ?]; by apply undisturbed].
    2: { intros e d1 (i & _ & _ & [?|(name & Hn & Hno)]); [by destruct undisturbed|].
         exfalso. apply Hno. rewrite Hprev by done. by apply program_keepable. }
    intros [] d1 Hput. pose proof (restore_holds _ _ _ Hprev Hput) as Hh1. pose proof (fr_bin _ _ (proj1 (proj1 Hput))) as Hb1.
    apply fs_bind, fs_try. eapply fs_mono; [apply save_spec|..]; [|intros ? ? [_ ?]; by destruct undisturbed|intros ? [_ ?]; by apply undisturbed].
    intros [] d2 ->. set (r' := as_saved _).
    assert (forall d', dk_record d' = Some (Readable r') -> dk_dirs d' !! BinDir = dk_dirs d1 !! BinDir -> undone d') as Hend.
    { intros d' E1 E2. split; [by rewrite E2|]. split; [by eapply holds_bin|]. exists r'.
      split_and!; [done|done|apply last_saved_bad|done]. }
    apply fs_bind, fs_ignore. eapply fs_mono; [apply RemoveAll_spec, goes_calm|..]; [|intros ? ? [_ ?]; by destruct undisturbed|intros ? [_ ?]; by apply undisturbed].
    intros [] d3 ->. apply fs_ret. split; [done|]. apply Hend; [done|apply (without_bin (recording r' d1))].
  - eapply fs_mono; [apply saving_spec| |done|intros ? [_ ?]; by apply undisturbed].
    intros x d' [Hx [->|[_ ?]]]; [|by destruct undisturbed]. split; [done|]. split; [done|].
    split; [by eapply holds_bin|]. split; [by eapply previous_prev|]. by eexists.
Qed.

Lemma holds_daemon R d : holds R d -> bin d daemonName = Some (Regular (rl_Daemon R)).
Proof. intros H. by rewrite H by set_solver. Qed.

Lemma trial_start k crashed d :
  on_trial k d ->
  exists d', if (crashed && (1 <=? k)) || (unconfirmedStarts <=? k)
             then update_step (USStart crashed []) (mkMachine d None) = mkMachine d' None /\ undone d'
             else update_step (USStart crashed []) (mkMachine d None) = mkMachine d' (Some (version RT)) /\ on_trial (k + 1) d'.
Proof.
  intros Ht. unfold update_step. cbn [mc_running mc_disk]. rewrite (holds_daemon RT d) by apply Ht.
  apply (after_wp goes _ _ _ _ _
    (fun again d' => if (crashed && (1 <=? k)) || (unconfirmedStarts <=? k) then again = true /\ undone d'
                     else again = false /\ on_trial (k + 1) d') (fun _ _ => False) (fun _ => False)
    (fun w => exists d', if (crashed && (1 <=? k)) || (unconfirmedStarts <=? k) then w = mkMachine d' None /\ undone d'
             else w = mkMachine d' (Some (version RT)) /\ on_trial (k + 1) d')); [|done|..]; [|intros again d'|done|done].
  - apply fs_bind. eapply fs_mono; [by apply (trial_AtStart k)| |done|done]. intros [o err] d' H. apply fs_ret. cbn [fst] in H.
    destruct (_ || _); destruct H as [-> ?]; done.
  - intros H. exists d'. destruct (_ || _); destruct H as [-> ?]; done.
Qed.

Lemma undone_start crashed d :
  undone d -> update_step (USStart crashed []) (mkMachine d None) = mkMachine d (Some (version R0)).
Proof.
  intros (_ & Hh & r & Hr & Hp & _). unfold update_step. cbn [mc_running mc_disk]. rewrite (holds_daemon R0 d) by done.
  unfold after, Updater_AtStart, AtStart, load, read_record, try, atom, mbind, FS_bind, mret, FS_ret. rewrite Hr. cbn.
  unfold known_phase. rewrite Hp. cbn. by rewrite Hp.
Qed.

(** Starts that end badly: each is followed by the end of its run, with nothing taken back. *)
Definition bad_starts (cs : list bool) : list UpdateStep := cs ≫= fun crashed => [USStart crashed []; USPower].

Lemma undone_bad_starts cs w : mc_running w = None -> undone (mc_disk w) -> 
  mc_running (update_run (bad_starts cs) w) = None /\ undone (mc_disk (update_run (bad_starts cs) w)).
Proof.
  revert w. induction cs as [|c cs IH]; intros [d ru]; cbn [mc_running mc_disk]; [done|]. intros -> H.
  unfold bad_starts. rewrite bind_cons. unfold update_run. rewrite foldl_app. cbn [foldl]. rewrite undone_start by done.
  by apply IH.
Qed.

Definition installing : UpdateStep := USFinish (Some RT) true false false [].

Lemma install_step d :
  holds R0 d -> nothing_kept d -> pending_of d = None -> ur_unreadable (loaded d) = false ->
  version RT <> version R0 -> rl_Worker RT <> None ->
  exists d', update_step installing (mkMachine d (Some (version R0))) = mkMachine d' None /\ on_trial 0 d'.
Proof.
  intros Hh Hno Hp Hur Hne Hwork. unfold update_step, installing. cbn [mc_running mc_disk].
  assert (Inv [R0; RT] (stage RT d)) as Hinv.
  { eapply Inv_same; [apply stage_same|]. apply (idle_Inv version_of [R0; RT] R0); [|by left|done|set_solver|done].
    pose proof (Hh cliName ltac:(set_solver)) as Hc. unfold bin, node in Hc. cbn in Hc. by destruct (dk_dirs d !! BinDir). }
  apply (after_wp goes _ _ _ _ _ (fun _ => on_trial 0) (fun _ _ => False) (fun _ => False)
    (fun w => exists d', w = mkMachine d' None /\ on_trial 0 d')); [|done| |done|done].
  2: { intros a d' H. by exists d'. }
  unfold Finish. cbn [String.eqb negb fmap option_fmap option_map]. apply fs_bind, fs_try.
  eapply fs_mono; [eapply (Install_spec goes goes_calm version_of [R0; RT] R0 RT); [set_solver|set_solver|congruence|done| | |]| | |].
  - intros p Hp'. change (pending_of (stage RT d)) with (pending_of d) in Hp'. congruence.
  - eapply holds_bin; [|done]. apply (sa_bin _ _ (stage_same RT d)).
  - apply stage_unpacked.
  - intros [] d' ((Hb & _) & Hh' & Hprev & Hr). apply fs_ret. split; [done|]. split; [done|]. split; [done|].
    eexists. split; [exact Hr|]. done.
  - intros e d' [_ [?|[?|?]]]; [by destruct undisturbed|done|]. change (loaded (stage RT d)) with (loaded d) in *. congruence.
  - intros d' [_ ?]. by apply undisturbed.
Qed.
End trial.

(** C39: A release that does not stay up is undone, and not offered again. Installed over a whole pair and left
    alone, the new release runs; if its starts end badly it is started at most three times, and only twice when
    the first left a traceback, before the start that finds this puts every program back as it was, the absence
    of a worker included, and records it: the old version runs from then on, and no choice made with that
    record ever returns the version undone. *)
Theorem bad_release_undone R0 RT d c1 c2 c3 c4 :
  holds R0 d -> nothing_kept d -> pending_of d = None -> ur_unreadable (loaded d) = false ->
  version RT <> version R0 -> rl_Worker RT <> None ->
  let w0 := mkMachine d (Some (version R0)) in
  mc_running (update_run [installing RT; USStart c1 []] w0) = Some (version RT) /\
  holds RT (mc_disk (update_run [installing RT; USStart c1 []] w0)) /\
  (c2 = true -> holds R0 (mc_disk (update_run (installing RT :: bad_starts [c1; c2]) w0))) /\
  let w := update_run (installing RT :: bad_starts [c1; c2; c3] ++ [USStart c4 []]) w0 in
  mc_running w = Some (version R0) /\ holds R0 (mc_disk w) /\ pending_of (mc_disk w) = None /\
  ur_RolledBack (loaded (mc_disk w)) = version RT /\
  forall p rs r, po_Bad p = ur_Bad (loaded (mc_disk w)) -> Choose p rs = Some r -> Version_String (ls_Version r) <> version RT.
Proof.
  intros Hh Hno Hp Hur Hne Hwork w0.
  destruct (install_step R0 RT d Hh Hno Hp Hur Hne Hwork) as (d1 & E1 & Ht1).
  destruct (trial_start R0 RT 0 c1 d1 Ht1) as (d2 & H2). 
  assert ((c1 && (1 <=? 0)) || (unconfirmedStarts <=? 0) = false) as Ec by by destruct c1. rewrite Ec in H2. destruct H2 as [E2 Ht2].
  assert (update_run [installing RT; USStart c1 []] w0 = mkMachine d2 (Some (version RT))) as Erun.
  { unfold update_run, w0. cbn [foldl]. by rewrite E1, E2. }
  rewrite Erun. split; [done|]. split; [apply Ht2|].
  assert (forall cs, update_run (installing RT :: bad_starts (c1 :: cs)) w0 = update_run (bad_starts cs) (mkMachine d2 None)) as Ehead.
  { intros cs. unfold update_run, bad_starts, w0. cbn [mbind list_bind app foldl]. rewrite E1, E2. done. }
  assert (exists d3, (update_run (bad_starts [c2]) (mkMachine d2 None) = mkMachine d3 None) /\
    (c2 = true /\ undone R0 RT d3 \/ c2 = false /\ on_trial R0 RT 2 d3)) as (d3 & E3 & Ht3).
  { destruct (trial_start R0 RT (0 + 1) c2 d2 Ht2) as (d3 & H3). exists d3. unfold update_run, bad_starts. cbn [mbind list_bind app foldl].
    assert ((c2 && (1 <=? 0 + 1)) || (unconfirmedStarts <=? 0 + 1) = c2) as Ec2 by by destruct c2.
    rewrite Ec2 in H3. destruct c2; destruct H3 as [-> ?]; auto. }
  split. { intros ->. rewrite Ehead, E3. by destruct Ht3 as [[_ (_ & ? & _)]|[? _]]. }
  assert (exists d4, update_run (bad_starts [c2; c3]) (mkMachine d2 None) = mkMachine d4 None /\ undone R0 RT d4) as (d4 & E4 & Hu).
  { change (bad_starts [c2; c3]) with (bad_starts [c2] ++ bad_starts [c3]). unfold update_run in *. rewrite foldl_app, E3.
    destruct Ht3 as [[_ Hu]|[_ Ht3]].
    - destruct (undone_bad_starts R0 RT [c3] (mkMachine d3 None) eq_refl Hu) as [Hr4 Hu4]. unfold update_run in Hr4, Hu4.
      destruct (foldl _ (mkMachine d3 None) (bad_starts [c3])) as [d4 r4]. cbn in Hr4, Hu4. subst r4. by exists d4.
    - destruct (trial_start R0 RT 2 c3 d3 Ht3) as (d4 & H4). exists d4. unfold bad_starts. cbn [mbind list_bind app foldl].
      change (unconfirmedStarts <=? 2) with true in H4. rewrite orb_true_r in H4. destruct H4 as [-> ?]. done. }
  intros w. assert (w = mkMachine d4 (Some (version R0))) as ->.
  { unfold w. change (installing RT :: bad_starts [c1; c2; c3] ++ [USStart c4 []]) with
      ((installing RT :: bad_starts (c1 :: [c2; c3])) ++ [USStart c4 []]). unfold update_run. rewrite foldl_app.
    fold (update_run (installing RT :: bad_starts (c1 :: [c2; c3])) w0). rewrite Ehead, E4. cbn [foldl]. by eapply undone_start. }
  destruct Hu as (_ & Hh4 & r & Hr & Hpr & Hbad & Hrb). cbn [mc_running mc_disk].
  assert (loaded d4 = r) as Hl by (unfold loaded, known_phase; by rewrite Hr, Hpr).
  split_and!; [done|done|by unfold pending_of; rewrite Hl|by rewrite Hl|].
  intros p rs r' Hb Hch Hv. rewrite Hl in Hb.
  pose proof (Choose_fold p rs None ltac:(done)) as H. unfold Choose in Hch. rewrite Hch in H.
  destruct H as (_ & Hpass & _). apply passes_allowed in Hpass as (_ & _ & _ & Hnb).
  specialize (Hnb (version RT)). rewrite Hb in Hnb. specialize (Hnb Hbad). unfold EqualFold in Hnb.
  rewrite Hv in Hnb. by apply bool_decide_eq_false in Hnb.
Qed.
End machine.

(** ** Concrete runs

    Programs short enough to read: a daemon's says its version and nothing else. *)

Definition own_version (content : string) : string := content.
Definition say_failed (_ : Failure) : string := "failed".
Definition old_release : Release := mkRelease "norite 1" (Some "voice 1") "1.0.0".
Definition new_release : Release := mkRelease "norite 2" (Some "voice 2") "1.1.0".

Definition goes_for (n : nat) : list Happening := repeat Goes n.
Definition lost : Torn := mkTorn [] (Some "half of").

(** Power lost once the command is replaced, and again while it is put back. *)
Definition interrupted : list UpdateStep :=
  [USStart false []; USFinish (Some new_release) true false false (goes_for 15 ++ [Stops lost]);
   USStart false (goes_for 3 ++ [Stops lost])].

Definition ran := update_run own_version say_failed.
Definition programs_of (w : Machine) : list (option Node) := (fun name => bin (mc_disk w) name) <$> programs.

Lemma update_whole_witness :
  let w := ran interrupted (fresh_install old_release) in
  (exists p, pending_of (mc_disk w) = Some p /\ pd_Phase p = phaseSwapping) /\
  programs_of w = [Some (Regular "norite 2"); Some (Regular "voice 1"); Some (Regular "1.0.0")] /\
  programs_of (update_step own_version say_failed (USStart false []) w) = program old_release <$> programs /\
  exists R, R ∈ [old_release; new_release] /\
    holds R (mc_disk (update_step own_version say_failed (USStart false []) w)).
Proof.
  assert (orderly_run own_version say_failed interrupted (fresh_install old_release)) as Hord
    by (refine (bool_decide_eq_true_1 _ _); vm_compute; reflexivity).
  split; [eexists; split; vm_compute; reflexivity|]. split; [vm_compute; reflexivity|]. split; [vm_compute; reflexivity|].
  destruct (update_whole own_version say_failed old_release interrupted Hord) as (_ & _ & H).
  destruct (H false ltac:(vm_compute; reflexivity)) as (R & HR & HhR & _). exists R. split; [exact HR|exact HhR].
Defined.

Lemma bad_release_undone_witness :
  let d := mc_disk (fresh_install (mkRelease "norite 1" None "1.0.0")) in
  let w := ran (installing new_release :: bad_starts [false; false; false] ++ [USStart false []]) (mkMachine d (Some "1.0.0")) in
  mc_running w = Some "1.0.0" /\ bin (mc_disk w) workerName = None /\ ur_Bad (loaded (mc_disk w)) = ["1.1.0"].
Proof.
  split; [|split; vm_compute; reflexivity].
  apply (bad_release_undone own_version say_failed (mkRelease "norite 1" None "1.0.0") new_release
           (mc_disk (fresh_install (mkRelease "norite 1" None "1.0.0"))) false false false false);
    [apply fresh_holds|vm_compute; reflexivity|vm_compute; reflexivity|vm_compute; reflexivity|vm_compute; discriminate|vm_compute; discriminate].
Defined.

(** A release put back half-way is not recorded as such. The new version left a traceback; the start that undoes
    it has put the command back when the power goes; the next start finds no traceback, counts, and runs the new
    daemon beside the old command; and ten minutes later the pair is confirmed as it is, with nothing kept. *)
Example half_rollback :
  let w := ran [USStart false []; USFinish (Some new_release) true false false []; USStart false []; USPower;
                USStart true (goes_for 5 ++ [Stops lost]); USStart false []; USConfirm []] (fresh_install old_release) in
  programs_of w = [Some (Regular "norite 1"); Some (Regular "voice 2"); Some (Regular "1.1.0")] /\
  mc_running w = Some "1.1.0" /\ pending_of (mc_disk w) = None /\ dk_dirs (mc_disk w) !! PreviousDir = None.
Proof. vm_compute. done. Qed.

(** What was kept is dropped before it is recorded that the undoing is done. The power goes while the directory is
    being removed, its worker first; the next start undoes again, and removes the worker the install had. *)
Example lost_worker :
  let w := ran [USStart false []; USFinish (Some new_release) true false false (goes_for 15 ++ [Stops lost]);
                USStart false (goes_for 13 ++ [Stops (mkTorn [workerName] None)]); USStart false []]
             (fresh_install old_release) in
  programs_of w = [Some (Regular "norite 1"); None; Some (Regular "1.0.0")] /\
  mc_running w = Some "1.0.0" /\ pending_of (mc_disk w) = None.
Proof. vm_compute. done. Qed.

(** An installation begun while one is still to be undone keeps the mixture as what to go back to. The power goes
    in the middle of a first installation, the undoing fails, and the daemon runs on; a second installation fails
    too, and puts the mixture back with nothing pending. *)
Example mixture_kept :
  let w := ran [USStart false []; USFinish (Some new_release) true false false (goes_for 15 ++ [Stops lost]);
                USStart false (goes_for 3 ++ [Fails lost]); USFinish (Some new_release) true false false (goes_for 13 ++ [Fails lost])]
             (fresh_install old_release) in
  programs_of w = [Some (Regular "norite 2"); Some (Regular "voice 1"); Some (Regular "1.0.0")] /\
  pending_of (mc_disk w) = None.
Proof. vm_compute. done. Qed.

Lemma choice_of_the_newest :
  Choose (mkPolicy (mkVersion 1 2 0 "") "1.4.0" true false ["1.3.9"])
    [mkListed "v1.3.0" (mkVersion 1 3 0 ""); mkListed "v1.3.9" (mkVersion 1 3 9 ""); mkListed "v1.4.0" (mkVersion 1 4 0 "");
     mkListed "v1.5.0" (mkVersion 1 5 0 ""); mkListed "v1.4.1-rc.1" (mkVersion 1 4 1 "rc.1")] =
  Some (mkListed "v1.4.0" (mkVersion 1 4 0 "")).
Proof. vm_compute. done. Qed.
